(* ===== verification/_CoqProject ===== *)
-Q . S2P
Prelude.v
Errors.v
PendingEvents.v
Interfaces.v
Utf8.v
Formatter.v
SdWriters.v
MessageFormat.v
CircularBuffer.v
Policies.v
KeyedPolicies.v
CryptoBackends.v
MemDevice.v
RecordStore.v
BlockSequence.v
BlockStore.v
FileBlockDevice.v
FileContract.v
FdFiles.v
FatFiles.v
FileVolumes.v
TlsFingerprint.v
Pools.v
AtomicCounters.v
Logger.v
Transport.v
StreamContract.v
TcpStreams.v
DatagramContract.v
Datagrams.v
LwipRawTcp.v
PlusTcpStream.v
TlsStreams.v
OpenSslStream.v
MbedTlsStream.v
WolfSslStream.v
Senders.v
StreamDelivery.v
EmbeddedDelivery.v
DatagramDelivery.v
TlsDelivery.v
StaticPools.v
