(* ===== verification/Prelude.v ===== *)
(** * SolidSyslog: a verification development

    SolidSyslog is a syslog client for embedded systems: an application logs, a
    servicing task formats nothing itself but moves finished RFC 5424 records from a
    buffer through an optional store to a sender.  This library models the C code of
    [src/Core/Source] as functions and proves what makes it correct.  The code has no
    heap: every object is a struct from a static pool, reached through a vtable, and
    NULL arguments are answered, not trusted.  Beside it, from [src/Platform], the
    adapters that have a contract to keep: the keyed security policies over three crypto
    libraries, the files over six file systems, the TCP streams over the socket calls of
    four platforms, over FreeRTOS-Plus-TCP and over lwIP's callbacks, the TLS streams over
    three TLS libraries, and the UDP datagrams over six stacks.

    ** How the program is put together, and where each part is modelled

    A log call ([SolidSyslog.c], [SolidSyslog_Log]) asks the integrator's callbacks
    for the header fields, has the message formatter write into a scratch, and puts
    the bytes into a buffer.  A service pass ([SolidSyslog_Service]) takes records out
    of the buffer into one slot, offers the slot to the store or the sender, reports
    the faults the error tap kept as records of their own, and sends one stored record.
    The store is a queue of records on a block device, sealed by a security policy;
    the senders carry a record over a datagram or a stream.  The files, in order:

    - [Prelude]: machine integers ([size_t] is taken as 32 bits wide, the narrowest of
      the supported targets, with its wrap-around), bytes as [list Z], areas of memory
      and the stores into them, record updates, the state monad [ST] with its [wp]
      rules, and loops.
    - [Errors]: severities, categories, detail codes and their names
      ([SolidSyslogError.h], the [*Errors.h] headers, the [*ErrorsName.c] tables).
    - [PendingEvents]: the error tap and the sixteen slots of reported kinds
      ([SolidSyslogError.c], [SolidSyslogPendingEvents.c]); also store by store, for
      the race between the task that reports and the task that takes.
    - [Interfaces]: what components promise each other, as type classes: buffer, store,
      sender, scratch, block device, security policy, discard policy.  The classes
      [BlockDevice] and [SecurityPolicy] come with their laws, [BlockDeviceSpec] and
      [SecurityPolicySpec], which are the documented contracts of the two [*Definition.h]
      headers; their clients are proved against the laws only.
    - [Utf8], [Formatter], [SdWriters]: the bounded text writer
      ([SolidSyslogFormatter.c]) and the writers handed to callbacks
      ([SolidSyslogSdValue.c], [SolidSyslogSdElement.c], [SolidSyslogHeaderField.c],
      [SolidSyslogEndpointHost.c]).
    - [MessageFormat]: messages and structured data ([SolidSyslogMessageFormatter.c],
      [SolidSyslogTimestampFormatter.c], the [*Sd.c] files).
    - [CircularBuffer]: the byte ring ([SolidSyslogCircularBuffer.c]) with its mutex.
    - [Policies], [MemDevice]: the CRC-16 and null security policies, and a block device
      in memory; instances of the two interfaces.
    - [KeyedPolicies], [CryptoBackends]: the AES-256-GCM and HMAC-SHA256 policies, what
      they have in common and then over OpenSSL, mbedTLS and wolfSSL
      ([src/Platform/{OpenSsl,MbedTls,WolfSsl}/Source/*Policy.c]), with the calls of each
      library a class and its documented results the class's contract.
    - [RecordStore], [BlockSequence], [BlockStore]: one record in a block, the circular
      run of blocks, and the store made of both (the C files of those names, and
      [SolidSyslogNullStore.c]).
    - [FileBlockDevice]: the block device with a file for each block
      ([SolidSyslogFileBlockDevice.c], [SolidSyslogFile.c] and the null objects), over
      any file on a steady volume.
    - [FileContract], [FdFiles], [FatFiles], [FileVolumes]: the contract of
      [SolidSyslogFileDefinition.h] as the steps each call may take; the files over the
      descriptor calls of POSIX, Windows and VxWorks, and over FatFs, littlefs and
      FreeRTOS-Plus-FAT ([src/Platform/*/Source/SolidSyslog*File.c]), with the calls of
      each library a class and its documented results the class's contract; and a volume
      in memory that behaves as all of these libraries.
    - [TlsFingerprint]: the parser of certificate fingerprints and the authorisation of
      a peer by a list of them ([SolidSyslogTlsFingerprint.c]).
    - [Pools]: the config lock, the allocator of slots and the table of leases it
      refines, for one task and for many ([SolidSyslogConfigLock.c],
      [SolidSyslogPoolAllocator.c]).
    - [AtomicCounters]: the counters that give out sequence numbers
      ([src/Platform/{StdAtomic,Windows,VxWorks64}/Source/SolidSyslog*AtomicCounter.c] and
      the null one), step by step between the accesses to what the tasks share.
    - [Logger]: [SolidSyslog.c] with the two scratches.
    - [Transport], [Senders]: payload limits, health reports and the vtables under the
      senders; then [SolidSyslogUdpSender.c], [SolidSyslogStreamSender.c] and
      [SolidSyslogSwitchingSender.c].
    - [StreamContract], [TcpStreams], [StreamDelivery]: the contract of
      [SolidSyslogStreamDefinition.h] as steps of what is open, latched and sent; the
      TCP streams of [src/Platform/{Posix,Windows,LwipSocket,VxWorks64}], over a class of
      socket calls, what the four do alike written once; and the stream sender over any
      stream that tells what it took ([stream_tells]), as every one that keeps the
      contract does.
    - [TlsStreams], [OpenSslStream], [MbedTlsStream], [WolfSslStream], [TlsDelivery]: the
      TLS streams ([src/Platform/{OpenSsl,MbedTls,WolfSsl}/Source/SolidSyslog*Stream.c]),
      what the three do alike over a [tls_pack] of what tells them apart.  A TLS library
      is a class of calls; one that may call back, for a verdict on a certificate or to
      move bytes, is a tree of what it asks.  A monitor of the trace ([observe_tls], and
      a [lib_protocol] for each library) says in what order calls may come.
    - [DatagramContract], [Datagrams], [DatagramDelivery]: the contract of
      [SolidSyslogDatagramDefinition.h] as steps of what is open, latched, offered and
      taken; the datagrams of
      [src/Platform/{Posix,Windows,LwipSocket,VxWorks64,PlusTcp,LwipRaw}] with lwIP's
      marshal seam, over a class of the stacks' calls and a monitor of their trace
      ([observe_dg]); and the UDP sender over any datagram that keeps the contract.
    - [LwipRawTcp]: the TCP stream over lwIP's raw interface
      ([src/Platform/LwipRaw/Source/SolidSyslogLwipRawTcpStream.c]).  Its four callbacks run
      on the stack's thread, whenever the caller reads what they write and around each
      hop through the marshal; what the stack calls back is its choice.  The monitor is
      [observe_raw]; what the peer and the stack do meanwhile is the relation [drift].
    - [PlusTcpStream]: the TCP stream over FreeRTOS-Plus-TCP
      ([src/Platform/PlusTcp/Source/SolidSyslogPlusTcpTcpStream.c]), which connects with a
      bounded wait and then clears the socket's timeouts; its monitor is [observe_plus].
    - [EmbeddedDelivery]: the stream sender over that stream and over [LwipRawTcp]'s.
    - [StaticPools]: Create and Destroy of each class with a pool of one kind of object
      (the [*Static.c] files), [SolidSyslogPassthroughBuffer.c], [SolidSyslogStatic.c].

    ** Conventions

    A definition carries the name of the C function it translates.  A struct is a
    record whose fields keep their C names behind a short prefix ([bs_], [sq_], [cb_],
    [fm_], ...), updated with [x <| f := v |>].  A pointer that may be NULL is an
    [option].  A function that calls integrator code or raises faults runs in [ST] over
    a state that holds the struct, the environment the callbacks may change, and the
    list of what was observed so far; that list is what most theorems are about.
    Collaborators are instances of the classes, or arguments of the Section, so a
    theorem holds for every implementation of them.

    ** What the theorems show

    - Text: whatever is written, what is handed out is terminated, valid UTF-8 inside
      its area ([formatter_publishes_utf8]); escaping, streaming in pieces, bounded
      copies, numerals, elements and field widths ([EscapedString_reads_back],
      [SdValue_streams_chunks], [BoundedString_copies], [Uint32_decimal],
      [SdElement_frames], [HeaderField_bounds_width]); the hand-written codepoint test
      decides RFC 3629 ([Utf8CodepointLength_decides]).
    - Messages: a message parses back, field by field ([message_is_rfc5424],
      [timestamp_reads_back], [prival_encodes]).
    - Faults: names identify codes ([error_names_identify]); each kind keeps its last
      event and no interleaving loses one ([PendingEvents_keep_last],
      [Take_loses_no_event]).
    - Buffer: the ring is a FIFO of whole records that reports each run of losses once
      ([ring_refines_fifo]), and never calls out under its lock
      ([ring_calls_out_unlocked]).
    - Storage: a record reads back, a torn one is seen, marking changes one byte
      ([RecordStore_reads_back], [torn_append_is_seen], [FindFirstUnsent_finds],
      [RecordStore_marks_sent]); the run of blocks keeps its invariant, is found again
      after a restart and gives blocks up only when told ([PrepareForWrite_keeps_blocks],
      [Open_resumes_run], [DisposeReadBlockIfDrained_leaves], [threshold_reports_edges],
      [UsedBytes_within_TotalBytes]); the whole is a queue of messages
      ([BlockStore_refines_queue]) that survives restarts ([restart_keeps_queue]), power
      cuts ([power_cut_costs_one_record]) and damage ([damaged_blocks_are_passed]), and
      gives up only what the policy says ([Write_gives_up_as_told]); damage of a burst
      is never read as a record ([Crc16_rejects_damage]).  A block device made of files
      keeps the laws all of this rests on ([FileBlockDevice_keeps_blocks]) on a volume
      that refuses no seek and no truncate, and on such a POSIX volume
      down to the calls of the kernel ([posix_volume_carries_blocks]).  The six files do
      what their header asks, failures included, and tell what their library said, but
      three of them do not flush ([files_keep_contract]).  So does
      each keyed policy ([keyed_policies_keep_laws]), which besides opens what was sealed
      and nothing else ([keyed_policies_authenticate]) and reports each run of faults once
      ([keyed_faults_are_reported_once]).
    - Service: a pass is a run of a protocol on its one slot ([Service_keeps_protocol]),
      over any passes every record has one outcome ([records_are_accounted_for]), the
      status tells what was left ([Service_status_tells]), a pass ends when the buffer
      is not being filled by it ([Service_ends]), and every record is a message
      ([records_are_messages]).
    - Senders: what a UDP sender does with each record ([udp_sender_story]); a collector
      reading the octet-counted frames gets exactly the records Send said were delivered
      ([stream_carries_records]), and reads them off the very bytes a socket library
      accepted ([records_reach_the_sockets]); the socket streams keep the contract of a
      stream ([socket_streams_keep_contract]) and the protocol of their library
      ([socket_calls_keep_protocol]); routing by the selector ([switching_sender_story]).
      The datagrams keep theirs, a confirmed next hop included
      ([datagrams_keep_contract]), and what the stack accepted is the records Send was
      answered true for, whole or cut or discarded ([records_reach_the_stacks]).
      The stream over lwIP's raw interface keeps its contract and the protocol of the
      stack whatever is called back between its steps ([raw_stream_keeps_contract]), but
      for what [peer_closed_send_keeps_pcb] and [lost_bytes_survive_reopen] show; so does the
      one over FreeRTOS-Plus-TCP ([plus_stream_keeps_contract]), and over both a collector
      finds the records delivered on what the stack accepted
      ([records_reach_the_embedded_stacks]).
      The same holds of the TLS streams: what a session took is the records delivered
      ([records_reach_the_tls_sessions]), the contract is kept ([tls_streams_keep_contract])
      and so is the order of the library's calls, nothing held being lost or released
      twice ([tls_calls_keep_protocol]).
    - Peers: the parser accepts the written form of a fingerprint and nothing else
      ([Parse_decides_written_form]), and a peer is trusted only for a pin whose digest
      its certificate has ([Authorise_trusts_pins]).  A TLS stream opens only towards a
      peer that the installed anchors and pins authorise and the configured name names,
      as far as the library's own checks go ([OpenSslStream_Open_vouches],
      [MbedTlsStream_Open_vouches], [WolfSslStream_Open_vouches]).
    - Pools: no slot is handed out twice, however tasks overtake one another
      ([claims_are_exclusive]); each Create and Destroy refines a table of leases
      ([static_pools_lease]).
    - Sequence numbers: however tasks interleave, each number is given once, in range, and
      not again before all the others ([counters_give_each_number_once]); a call ends once
      two of its attempts are left alone ([Increment_ends]).

    ** Fuel and bounds

    Loops over the C counters use [while], [for_from] and [loopM] with fuel, and each is
    proved to stop before the fuel does: the string writers take one byte of the source
    a round ([string_fuel], its length and one), a 32-bit number has ten digits
    ([digit_fuel]), the scans of a block go forward at least one byte a round and have
    the size of the block for fuel, a call for the next record passes at most the
    records of every block of the run ([read_rounds]), a start passes at most a hundred
    blocks, and the reader of frames in the specification ([read_frames]) drops a byte
    a round.  A scan of a pool has its number of slots and one, a list of pins its count
    and two, the digits of a fingerprint its length and one.  A TLS handshake has a round
    for each poll interval of its budget and three, a probe before a write at most eight
    reads; the wait for a link address has a round for each tick and one, that for a
    connection over lwIP one for each poll of its budget and two.  What a TLS
    library asks back in one call is a finite tree.  A service pass loops while the buffer hands out records, which nothing in
    the C bounds: [SolidSyslog_Service] takes the number of rounds, [Service_ends] says
    when a number is enough, and the other theorems hold for every number.

    ** Not modelled

    What is left to parameters with a contract, or left out:

    - the other adapters under [src/Platform] (resolvers, addresses, TLS
      credentials, the message queue, mutexes, clocks): the
      classes [SolidSyslogStream], [SolidSyslogResolver],
      [SolidSyslogBuffer] stand for them, with the contracts of
      the [*Definition.h] headers;
    - what a library computes or a kernel does: the crypto, TLS, socket and file libraries
      are classes, and the theorems hold for all that keep their documented results, so
      that a certificate's chain is what the TLS library says it is;
    - what a medium does at a power cut beyond the calls: [FileContract] says what is on
      the medium when a write that flushes answers true, and no more;
    - the three pools of a block store ([SolidSyslogBlockStoreStatic.c],
      [SolidSyslogBlockSequenceStatic.c], [SolidSyslogRecordStoreStatic.c]), which are
      claimed together, and the null mutex, which does nothing;
    - the call of lwIP that two threads make at once, which the marshal is there to
      rule out, and a read of a flag while a callback writes it, taken to see the value
      before or after;
    - the values of the tunables that no modelled bound depends on
      ([SolidSyslogTunablesDefaults.h]), and the dispatch functions that only call
      through a vtable;
    - the behaviour-driven test targets ([src/Bdd]), the unit tests, examples and the
      build files.
*)
From Stdlib Require Export ZArith Lia Ascii String.
From stdpp Require Export base list numbers.

#[global] Open Scope Z_scope.

(** * Machine integers *)

Definition u8 (x : Z) : Z := x mod 2 ^ 8.
Definition u16 (x : Z) : Z := x mod 2 ^ 16.
Definition u32 (x : Z) : Z := x mod 2 ^ 32.

Definition SIZE_MAX : Z := 2 ^ 32 - 1.
Definition size_add (a b : Z) : Z := (a + b) mod 2 ^ 32.
Definition size_sub (a b : Z) : Z := (a - b) mod 2 ^ 32.
Definition size_mul (a b : Z) : Z := (a * b) mod 2 ^ 32.

Lemma size_add_small a b : 0 <= a + b <= SIZE_MAX -> size_add a b = a + b.
Proof. unfold SIZE_MAX. intros. apply Z.mod_small. lia. Qed.
Lemma size_sub_small a b : 0 <= a - b <= SIZE_MAX -> size_sub a b = a - b.
Proof. unfold SIZE_MAX. intros. apply Z.mod_small. lia. Qed.
Lemma size_mul_small a b : 0 <= a * b <= SIZE_MAX -> size_mul a b = a * b.
Proof. unfold SIZE_MAX. intros. apply Z.mod_small. lia. Qed.
Lemma u8_small x : 0 <= x < 256 -> u8 x = x.
Proof. intros. apply Z.mod_small. lia. Qed.
Lemma u16_small x : 0 <= x < 65536 -> u16 x = x.
Proof. intros. apply Z.mod_small. lia. Qed.
Lemma u32_small x : 0 <= x < 4294967296 -> u32 x = x.
Proof. intros. apply Z.mod_small. lia. Qed.
Lemma u8_range x : 0 <= u8 x < 256.
Proof. apply Z.mod_pos_bound. lia. Qed.
Lemma u16_range x : 0 <= u16 x < 65536.
Proof. apply Z.mod_pos_bound. lia. Qed.
Lemma size_add_range a b : 0 <= size_add a b <= SIZE_MAX.
Proof. unfold size_add, SIZE_MAX. pose proof (Z.mod_pos_bound (a + b) (2 ^ 32)). lia. Qed.
Lemma size_sub_range a b : 0 <= size_sub a b <= SIZE_MAX.
Proof. unfold size_sub, SIZE_MAX. pose proof (Z.mod_pos_bound (a - b) (2 ^ 32)). lia. Qed.

(** Bit operations stay within the width of their arguments. *)
Lemma log2_below w x : 0 < w -> 0 <= x < 2 ^ w -> Z.log2 x < w.
Proof. intros. destruct (Z.eq_dec x 0) as [-> |]; [done |]. apply Z.log2_lt_pow2; lia. Qed.
Lemma below_log2 w x : 0 < w -> 0 <= x -> Z.log2 x < w -> 0 <= x < 2 ^ w.
Proof. intros. split; [done |]. destruct (Z.eq_dec x 0) as [-> |]; [lia |]. apply Z.log2_lt_pow2; lia. Qed.
Lemma lxor_below w a b : 0 < w -> 0 <= a < 2 ^ w -> 0 <= b < 2 ^ w -> 0 <= Z.lxor a b < 2 ^ w.
Proof.
  intros Hw Ha Hb. apply below_log2; [done | apply Z.lxor_nonneg; lia |].
  pose proof (Z.log2_lxor a b ltac:(lia) ltac:(lia)). pose proof (log2_below w a Hw Ha). pose proof (log2_below w b Hw Hb). lia.
Qed.
Lemma lor_below w a b : 0 < w -> 0 <= a < 2 ^ w -> 0 <= b < 2 ^ w -> 0 <= Z.lor a b < 2 ^ w.
Proof.
  intros Hw Ha Hb. apply below_log2; [done | apply Z.lor_nonneg; lia |].
  rewrite Z.log2_lor by lia. pose proof (log2_below w a Hw Ha). pose proof (log2_below w b Hw Hb). lia.
Qed.

Create Rewrite HintDb size.
#[export] Hint Rewrite size_add_small size_sub_small size_mul_small
  u8_small u16_small u32_small using (unfold SIZE_MAX in *; lia) : size.

(** Remove every wrap-around that the context proves harmless. *)
Ltac size_simpl := autorewrite with size in *.

(** A two-byte little-endian field: its bytes, and its value. *)
Lemma le16_low n : 0 <= n -> u8 (Z.land n 0xFF) = n mod 256.
Proof. intros. change 0xFF with (Z.ones 8). rewrite Z.land_ones by lia. apply u8_small, Z.mod_pos_bound. lia. Qed.
Lemma le16_high n : 0 <= n < 65536 -> u8 (Z.land (Z.shiftr n 8) 0xFF) = n / 256.
Proof.
  intros. rewrite le16_low by (rewrite Z.shiftr_nonneg; lia). rewrite Z.shiftr_div_pow2 by lia.
  apply Z.mod_small. split; [apply Z.div_pos; lia | apply Z.div_lt_upper_bound; lia].
Qed.
Lemma le16_read lo hi : 0 <= lo < 256 -> 0 <= hi < 256 -> Z.lor lo (Z.shiftl hi 8 mod 2 ^ 32) = lo + hi * 256.
Proof.
  intros. rewrite Z.shiftl_mul_pow2, (Z.mod_small (hi * 2 ^ 8)) by lia. rewrite <- Z.lxor_lor.
  - rewrite <- Z.add_nocarry_lxor; [done |].
    apply Z.bits_inj'. intros n Hn. rewrite Z.land_spec, Z.bits_0. apply andb_false_iff.
    destruct (Z.lt_ge_cases n 8); [right; by apply Z.mul_pow2_bits_low | left].
    rewrite <- (Z.mod_small lo (2 ^ 8)) by lia. by apply Z.mod_pow2_bits_high.
  - apply Z.bits_inj'. intros n Hn. rewrite Z.land_spec, Z.bits_0. apply andb_false_iff.
    destruct (Z.lt_ge_cases n 8); [right; by apply Z.mul_pow2_bits_low | left].
    rewrite <- (Z.mod_small lo (2 ^ 8)) by lia. by apply Z.mod_pow2_bits_high.
Qed.

(** * Byte sequences indexed by [Z]

    A [char] or [uint8_t] is a [Z] in [0, 256); a byte array or the memory a
    pointer leads to is a list of them, indexed by a [size_t].  A C string is
    the memory at the pointer: its first zero byte ends it, and the terminator
    after the last listed byte need not be written, since reading past the end
    of the list gives zero. *)

Abbreviation bytes := (list Z).

Definition is_byte (b : Z) : Prop := 0 <= b < 256.
Definition all_bytes (l : bytes) : Prop := Forall is_byte l.

Section zlist.
Context {A : Type}.
Implicit Types (l bs : list A) (i n off : Z).

Definition lenZ (l : list A) : Z := Z.of_nat (length l).
Definition takeZ (n : Z) (l : list A) : list A := take (Z.to_nat n) l.
Definition dropZ (n : Z) (l : list A) : list A := drop (Z.to_nat n) l.
Definition updZ (l : list A) (i : Z) (v : A) : list A := <[Z.to_nat i := v]> l.
(** The [n] cells from offset [off]: what a [memcpy] from there copies. *)
Definition spanZ (l : list A) (off n : Z) : list A := takeZ n (dropZ off l).
(** [bs] written over the cells from offset [off]: a [memcpy] to there. *)
Definition spliceZ (l : list A) (off : Z) (bs : list A) : list A :=
  takeZ off l ++ bs ++ dropZ (off + lenZ bs) l.

Lemma lenZ_nonneg l : 0 <= lenZ l.
Proof. unfold lenZ. lia. Qed.
Lemma lenZ_nil : lenZ (@nil A) = 0.
Proof. reflexivity. Qed.
Lemma lenZ_cons (x : A) l : lenZ (x :: l) = 1 + lenZ l.
Proof. unfold lenZ. simpl. lia. Qed.
Lemma lenZ_app l bs : lenZ (l ++ bs) = lenZ l + lenZ bs.
Proof. unfold lenZ. rewrite length_app. lia. Qed.
Lemma lenZ_updZ l i (v : A) : lenZ (updZ l i v) = lenZ l.
Proof. unfold lenZ, updZ. rewrite length_insert. done. Qed.
Lemma lenZ_takeZ n l : 0 <= n <= lenZ l -> lenZ (takeZ n l) = n.
Proof. unfold lenZ, takeZ. rewrite length_take. lia. Qed.
Lemma lenZ_takeZ_min n l : 0 <= n -> lenZ (takeZ n l) = Z.min n (lenZ l).
Proof. unfold lenZ, takeZ. rewrite length_take. lia. Qed.
Lemma lenZ_dropZ n l : 0 <= n <= lenZ l -> lenZ (dropZ n l) = lenZ l - n.
Proof. unfold lenZ, dropZ. rewrite length_drop. lia. Qed.
Lemma lenZ_spanZ l off n : 0 <= off -> 0 <= n -> off + n <= lenZ l -> lenZ (spanZ l off n) = n.
Proof. intros. unfold spanZ. rewrite lenZ_takeZ; [lia |]. rewrite lenZ_dropZ; lia. Qed.
Lemma lenZ_spliceZ l off bs :
  0 <= off -> off + lenZ bs <= lenZ l -> lenZ (spliceZ l off bs) = lenZ l.
Proof.
  intros. pose proof (lenZ_nonneg bs). unfold spliceZ.
  rewrite !lenZ_app, lenZ_takeZ, lenZ_dropZ; lia.
Qed.

Lemma takeZ_nonpos n l : n <= 0 -> takeZ n l = [].
Proof. intros. unfold takeZ. replace (Z.to_nat n) with 0%nat by lia. done. Qed.
Lemma takeZ_ge n l : lenZ l <= n -> takeZ n l = l.
Proof. unfold takeZ, lenZ. intros. apply take_ge. lia. Qed.
Lemma dropZ_0 l : dropZ 0 l = l.
Proof. reflexivity. Qed.
Lemma dropZ_ge n l : lenZ l <= n -> dropZ n l = [].
Proof. unfold dropZ, lenZ. intros. apply drop_ge. lia. Qed.
Lemma dropZ_dropZ i j l : 0 <= i -> 0 <= j -> dropZ i (dropZ j l) = dropZ (j + i) l.
Proof. intros. unfold dropZ. rewrite drop_drop. f_equal. lia. Qed.
Lemma takeZ_dropZ n l : takeZ n l ++ dropZ n l = l.
Proof. apply take_drop. Qed.
Lemma takeZ_takeZ n m l : takeZ n (takeZ m l) = takeZ (Z.min n m) l.
Proof. unfold takeZ. rewrite take_take. f_equal. lia. Qed.
Lemma takeZ_app_le n l bs : n <= lenZ l -> takeZ n (l ++ bs) = takeZ n l.
Proof. unfold takeZ, lenZ. intros. apply take_app_le. lia. Qed.
Lemma takeZ_app_ge n l bs : lenZ l <= n -> takeZ n (l ++ bs) = l ++ takeZ (n - lenZ l) bs.
Proof. unfold takeZ, lenZ. intros. rewrite take_app_ge by lia. do 2 f_equal. lia. Qed.
Lemma dropZ_app_ge n l bs : lenZ l <= n -> dropZ n (l ++ bs) = dropZ (n - lenZ l) bs.
Proof. unfold dropZ, lenZ. intros. rewrite drop_app_ge by lia. f_equal. lia. Qed.
Lemma dropZ_app_le n l bs : n <= lenZ l -> dropZ n (l ++ bs) = dropZ n l ++ bs.
Proof. unfold dropZ, lenZ. intros. rewrite drop_app_le by lia. done. Qed.
Lemma takeZ_add n m l :
  0 <= n -> 0 <= m -> takeZ (n + m) l = takeZ n l ++ takeZ m (dropZ n l).
Proof.
  intros. unfold takeZ, dropZ. rewrite Z2Nat.inj_add by lia.
  rewrite take_take_drop. done.
Qed.

Lemma takeZ_app_takeZ n l bs : takeZ n (takeZ n l ++ bs) = takeZ n (l ++ bs).
Proof.
  destruct (Z.leb_spec (lenZ l) n).
  - by rewrite (takeZ_ge n l).
  - destruct (Z.leb_spec 0 n).
    + rewrite !takeZ_app_le, takeZ_takeZ, Z.min_id; [done | lia | rewrite lenZ_takeZ; lia].
    + by rewrite !(takeZ_nonpos n) by lia.
Qed.

Lemma spanZ_all l : spanZ l 0 (lenZ l) = l.
Proof. unfold spanZ. rewrite dropZ_0, takeZ_ge; [done | lia]. Qed.
Lemma spanZ_add l off n m :
  0 <= off -> 0 <= n -> 0 <= m ->
  spanZ l off (n + m) = spanZ l off n ++ spanZ l (off + n) m.
Proof. intros. unfold spanZ. rewrite takeZ_add, dropZ_dropZ by lia. done. Qed.
Lemma spanZ_spanZ l off n i m :
  0 <= off -> 0 <= i -> 0 <= m -> i + m <= n ->
  spanZ (spanZ l off n) i m = spanZ l (off + i) m.
Proof.
  intros. unfold spanZ, takeZ, dropZ.
  rewrite skipn_firstn_comm, drop_drop, take_take.
  do 2 f_equal; [lia | f_equal; lia].
Qed.
Lemma spanZ_app_l l bs off n :
  0 <= off -> 0 <= n -> off + n <= lenZ l -> spanZ (l ++ bs) off n = spanZ l off n.
Proof.
  intros. unfold spanZ. rewrite dropZ_app_le, takeZ_app_le; [done | |lia].
  rewrite lenZ_dropZ; lia.
Qed.
Lemma spanZ_app_r l bs off n :
  lenZ l <= off -> spanZ (l ++ bs) off n = spanZ bs (off - lenZ l) n.
Proof. intros. unfold spanZ. rewrite dropZ_app_ge by lia. done. Qed.
Lemma spanZ_takeZ l k off n :
  0 <= off -> 0 <= n -> off + n <= k -> spanZ (takeZ k l) off n = spanZ l off n.
Proof.
  intros. unfold spanZ, takeZ, dropZ. rewrite skipn_firstn_comm, take_take.
  f_equal. lia.
Qed.

Lemma spliceZ_whole l bs : lenZ bs = lenZ l -> spliceZ l 0 bs = bs.
Proof.
  intros. unfold spliceZ. rewrite takeZ_nonpos, dropZ_ge by lia. apply app_nil_r.
Qed.
Lemma spliceZ_nil l at_ : spliceZ l at_ [] = l.
Proof. unfold spliceZ. simpl. rewrite lenZ_nil, Z.add_0_r. apply takeZ_dropZ. Qed.
Lemma spliceZ_0 l bs : spliceZ l 0 bs = bs ++ dropZ (lenZ bs) l.
Proof. unfold spliceZ. by rewrite takeZ_nonpos by lia. Qed.
Lemma spliceZ_end l bs : spliceZ l (lenZ l) bs = l ++ bs.
Proof.
  pose proof (lenZ_nonneg bs). unfold spliceZ. rewrite takeZ_ge, dropZ_ge, app_nil_r by lia. done.
Qed.
Lemma takeZ_spliceZ_before l off bs n :
  0 <= n <= off -> off <= lenZ l -> takeZ n (spliceZ l off bs) = takeZ n l.
Proof.
  intros. unfold spliceZ. rewrite takeZ_app_le by (rewrite lenZ_takeZ; lia).
  rewrite takeZ_takeZ. f_equal. lia.
Qed.
Lemma spanZ_spliceZ_same l off bs :
  0 <= off <= lenZ l -> spanZ (spliceZ l off bs) off (lenZ bs) = bs.
Proof.
  intros. unfold spliceZ. rewrite spanZ_app_r; rewrite lenZ_takeZ by lia; [| lia].
  replace (off - off) with 0 by lia. rewrite spanZ_app_l by (pose proof (lenZ_nonneg bs); lia).
  apply spanZ_all.
Qed.
Lemma spanZ_spliceZ_before l off bs o n :
  0 <= o -> 0 <= n -> o + n <= off -> off <= lenZ l ->
  spanZ (spliceZ l off bs) o n = spanZ l o n.
Proof.
  intros. unfold spliceZ. rewrite spanZ_app_l by (rewrite ?lenZ_takeZ; lia).
  apply spanZ_takeZ; lia.
Qed.
Lemma spanZ_spliceZ_after l off bs o n :
  0 <= off -> off + lenZ bs <= o -> off + lenZ bs <= lenZ l ->
  spanZ (spliceZ l off bs) o n = spanZ l o n.
Proof.
  intros. pose proof (lenZ_nonneg bs). unfold spliceZ.
  rewrite spanZ_app_r; rewrite lenZ_takeZ by lia; [| lia].
  rewrite spanZ_app_r by lia. unfold spanZ. rewrite dropZ_dropZ by lia.
  do 2 f_equal. lia.
Qed.
End zlist.

(** [l[i]]; a read past the listed cells gives zero (a C string's terminator). *)
Definition nthZ (l : bytes) (i : Z) : Z := nth (Z.to_nat i) l 0.

Lemma nthZ_0_cons x l : nthZ (x :: l) 0 = x.
Proof. reflexivity. Qed.
Lemma nthZ_ge l i : lenZ l <= i -> nthZ l i = 0.
Proof. unfold nthZ, lenZ. intros. apply nth_overflow. lia. Qed.
Lemma nthZ_dropZ l off i : 0 <= off -> 0 <= i -> nthZ (dropZ off l) i = nthZ l (off + i).
Proof.
  intros. unfold nthZ, dropZ. rewrite nth_skipn. f_equal. lia.
Qed.
Lemma nthZ_dropZ_0 l p : 0 <= p -> nthZ (dropZ p l) 0 = nthZ l p.
Proof. intros. rewrite nthZ_dropZ, Z.add_0_r by lia. done. Qed.
Lemma nthZ_takeZ l n i : 0 <= i < n -> nthZ (takeZ n l) i = nthZ l i.
Proof.
  intros. unfold nthZ, takeZ.
  rewrite nth_firstn. case (Nat.ltb_spec (Z.to_nat i) (Z.to_nat n)); [done | lia].
Qed.
Lemma nthZ_spanZ l off n i : 0 <= off -> 0 <= i < n -> nthZ (spanZ l off n) i = nthZ l (off + i).
Proof. intros. unfold spanZ. rewrite nthZ_takeZ, nthZ_dropZ; lia || done. Qed.
Lemma nthZ_app_l l bs i : 0 <= i < lenZ l -> nthZ (l ++ bs) i = nthZ l i.
Proof. unfold nthZ, lenZ. intros. apply app_nth1. lia. Qed.
Lemma nthZ_app_r l bs i : lenZ l <= i -> nthZ (l ++ bs) i = nthZ bs (i - lenZ l).
Proof.
  unfold nthZ, lenZ. intros. rewrite app_nth2 by lia. f_equal. lia.
Qed.
Lemma dropZ_cons_nthZ l i : 0 <= i < lenZ l -> dropZ i l = nthZ l i :: dropZ (i + 1) l.
Proof.
  unfold nthZ, lenZ, dropZ. intros. rewrite Z2Nat.inj_add by lia.
  rewrite Nat.add_1_r. apply drop_S.
  destruct (nth_lookup_or_length l (Z.to_nat i) 0); [done | lia].
Qed.
Lemma nthZ_updZ_eq l i v : 0 <= i < lenZ l -> nthZ (updZ l i v) i = v.
Proof.
  unfold nthZ, updZ, lenZ. intros. apply nth_lookup_Some, list_lookup_insert_eq. lia.
Qed.
Lemma nthZ_updZ_ne l i j v : 0 <= i -> 0 <= j -> i <> j -> nthZ (updZ l i v) j = nthZ l j.
Proof.
  unfold nthZ, updZ. intros. rewrite !nth_lookup.
  rewrite list_lookup_insert_ne by lia. done.
Qed.
Lemma takeZ_updZ (l : bytes) i v n : 0 <= n <= i -> takeZ n (updZ l i v) = takeZ n l.
Proof. intros. unfold takeZ, updZ. apply take_insert_ge. lia. Qed.
Lemma takeZ_updZ_snoc (l : bytes) i v :
  0 <= i < lenZ l -> takeZ (i + 1) (updZ l i v) = takeZ i l ++ [v].
Proof.
  unfold takeZ, updZ, lenZ. intros. rewrite Z2Nat.inj_add by lia. rewrite Nat.add_1_r.
  rewrite (take_S_r _ _ v) by (apply list_lookup_insert_eq; lia).
  rewrite take_insert_ge by lia. done.
Qed.

Lemma dropZ_updZ (l : bytes) i v n : 0 <= i < n -> dropZ n (updZ l i v) = dropZ n l.
Proof. intros. unfold dropZ, updZ. apply drop_insert_lt. lia. Qed.
(** Storing the cells one by one, from the first. *)
Lemma spliceZ_cons (l : bytes) i v bs : 0 <= i -> i + 1 + lenZ bs <= lenZ l -> spliceZ (updZ l i v) (i + 1) bs = spliceZ l i (v :: bs).
Proof.
  intros. pose proof (lenZ_nonneg bs). unfold spliceZ.
  rewrite takeZ_updZ_snoc, dropZ_updZ, lenZ_cons, Z.add_assoc, <- app_assoc by lia. done.
Qed.
Lemma nthZ_ext (l l' : bytes) : lenZ l = lenZ l' -> (forall i, 0 <= i < lenZ l -> nthZ l i = nthZ l' i) -> l = l'.
Proof.
  unfold lenZ, nthZ. intros Hlen H. apply (nth_ext l l' 0 0); [lia |]. intros n Hn.
  specialize (H (Z.of_nat n) ltac:(lia)). by rewrite Nat2Z.id in H.
Qed.

(** Read explicit lists at closed indices. *)
Ltac nth_eval :=
  repeat match goal with
  | |- context [nthZ ?l ?i] =>
      let n := eval vm_compute in (Z.to_nat i) in change (nthZ l i) with (nth n l 0)
  end; cbn [nth].

Create Rewrite HintDb len.
#[export] Hint Rewrite @lenZ_nil @lenZ_cons @lenZ_app @lenZ_updZ : len.
#[export] Hint Rewrite @lenZ_takeZ @lenZ_dropZ @lenZ_spanZ @lenZ_spliceZ using lia : len.
Ltac len_simpl := autorewrite with len.

(** The C string at a pointer: the bytes before the first zero. *)
Fixpoint cstr (l : bytes) : bytes :=
  match l with
  | [] => []
  | b :: l => if b =? 0 then [] else b :: cstr l
  end.
Definition strlen (l : bytes) : Z := lenZ (cstr l).
Definition no_nul (l : bytes) : Prop := Forall (fun b => b <> 0) l.

Lemma cstr_no_nul l : no_nul (cstr l).
Proof.
  induction l as [|b l IH]; simpl; [constructor |].
  destruct (Z.eqb_spec b 0); constructor; done.
Qed.
Lemma cstr_app_no_nul l l' : no_nul l -> cstr (l ++ l') = l ++ cstr l'.
Proof.
  induction 1 as [|b l Hb _ IH]; simpl; [done |].
  destruct (Z.eqb_spec b 0); [done | by rewrite IH].
Qed.
Lemma cstr_app_nul l l' : no_nul l -> cstr (l ++ 0 :: l') = l.
Proof. intros H. rewrite cstr_app_no_nul by done. simpl. apply app_nil_r. Qed.
Lemma cstr_idem l : no_nul l -> cstr l = l.
Proof. intros H. rewrite <- (app_nil_r l) at 1. rewrite cstr_app_no_nul by done. apply app_nil_r. Qed.
Lemma cstr_prefix l : exists rest, l = cstr l ++ rest.
Proof.
  induction l as [|b l [rest IH]]; simpl; [by exists [] |].
  destruct (b =? 0); [by exists (b :: l) |]. exists rest. cbn. congruence.
Qed.
Lemma cstr_dropZ_nul l : nthZ l 0 = 0 -> cstr l = [].
Proof. destruct l as [|b l]; [done |]. rewrite nthZ_0_cons. intros ->. done. Qed.
Lemma no_nul_app l l' : no_nul (l ++ l') <-> no_nul l /\ no_nul l'.
Proof. apply Forall_app. Qed.
Lemma no_nul_takeZ n l : no_nul l -> no_nul (takeZ n l).
Proof. apply Forall_take. Qed.
#[export] Hint Resolve cstr_no_nul no_nul_takeZ : core.

(** The bytes of a string literal, its terminator left out. *)
Definition str (s : String.string) : bytes :=
  map (fun c => Z.of_N (N_of_ascii c)) (String.list_ascii_of_string s).

Lemma all_bytes_takeZ n l : all_bytes l -> all_bytes (takeZ n l).
Proof. apply Forall_take. Qed.
Lemma all_bytes_dropZ n l : all_bytes l -> all_bytes (dropZ n l).
Proof. apply Forall_drop. Qed.
Lemma nthZ_is_byte l i : all_bytes l -> is_byte (nthZ l i).
Proof.
  unfold nthZ. intros H. destruct (nth_in_or_default (Z.to_nat i) l 0) as [Hin | ->].
  - apply (proj1 (List.Forall_forall _ _) H _ Hin).
  - unfold is_byte. lia.
Qed.
#[export] Hint Resolve all_bytes_takeZ all_bytes_dropZ nthZ_is_byte lenZ_nonneg : core.

(** A decidable statement about every byte is checked by running it on all 256. *)
Definition forall_bytes (P : Z -> bool) : bool := forallb P (map Z.of_nat (List.seq 0 256)).
Lemma forall_bytes_spec P b : forall_bytes P = true -> is_byte b -> P b = true.
Proof.
  unfold forall_bytes, is_byte. rewrite forallb_forall. intros H Hb. apply H.
  apply in_map_iff. exists (Z.to_nat b). split; [lia |]. apply in_seq. lia.
Qed.
(** Prove [P b = Q b] for two boolean functions of one byte. *)
Ltac by_bytes b :=
  match goal with
  | Hb : is_byte b |- ?l = ?r =>
      let P := eval pattern b in (Bool.eqb l r) in
      match P with
      | ?f _ => apply (proj1 (Bool.eqb_true_iff l r));
                apply (forall_bytes_spec f b); [vm_compute; reflexivity | exact Hb]
      end
  end.

(** * Record update

    [x <| f := v |>] is [x] with its field [f] set to [v].  A record type
    declares its eta-expansion as a [Settable] instance; the setter of a field
    is found by abstracting the field's projection in it. *)

Class Settable (R : Type) := eta_record : R -> R.
Class Setter {R T : Type} (proj : R -> T) := set_field : (T -> T) -> R -> R.

Ltac derive_setter :=
  match goal with
  | |- @Setter ?R ?T ?proj =>
      let inst := constr:(_ : Settable R) in
      let eta := eval cbv delta [eta_record] in (@eta_record R inst) in
      let eta := (match eta with
                  | ?c => let c' := eval red in c in c'
                  | ?c => c
                  end) in
      let g := (eval pattern proj in eta) in
      match g with
      | ?h _ =>
          let s := constr:(fun (upd : T -> T) (r : R) => h (fun r0 => upd (proj r0)) r) in
          let s := eval cbv beta in s in
          exact s
      end
  end.
#[export] Hint Extern 1 (Setter _) => derive_setter : typeclass_instances.

Declare Scope c_scope.
Delimit Scope c_scope with c.
Notation "x '<|' f ':=' v '|>'" := (set_field (proj := f) (fun _ => v) x)
  (at level 1, f at next level, v at level 200, left associativity) : c_scope.
Notation "l '.[' i ']'" := (nthZ l i) (at level 1, i at level 200, format "l .[ i ]") : c_scope.
#[global] Open Scope c_scope.

(** * The state monad

    A C function that reads and writes the objects its pointers lead to is a
    function of the state those objects make up. *)

Definition ST (S A : Type) : Type := S -> A * S.
Definition st_ret {S A} (a : A) : ST S A := fun s => (a, s).
Definition st_bind {S A B} (m : ST S A) (k : A -> ST S B) : ST S B :=
  fun s => let '(a, s') := m s in k a s'.
Definition st_get {S A} (f : S -> A) : ST S A := fun s => (f s, s).
Definition st_mod {S} (f : S -> S) : ST S unit := fun s => (tt, f s).

Notation "'let!' x ':=' m 'in' k" := (st_bind m (fun x => k))
  (at level 10, x name, m at level 200, k at level 200,
   format "'[v' 'let!'  x  ':='  m  'in' '/' k ']'") : c_scope.
Notation "m ';;;' k" := (st_bind m (fun _ => k))
  (at level 199, right associativity, format "'[v' m  ';;;' '/' k ']'") : c_scope.
Notation "'if!' b 'then' m 'end!'" := (if b then m else st_ret tt)
  (at level 0, format "'[v' 'if!'  b  'then' '/  ' m '/' 'end!' ']'") : c_scope.

(** A step on a part of the state. *)
Definition zoom {S T A} (part : S -> T) (update : T -> S -> S) (m : ST T A) : ST S A :=
  fun s => let '(a, t) := m (part s) in (a, update t s).

(** [hoare P m Q]: started where [P] holds, [m] ends where [Q] holds of its
    result and the final state. *)
Definition hoare {S A} (P : S -> Prop) (m : ST S A) (Q : A -> S -> Prop) : Prop :=
  forall s, P s -> Q (fst (m s)) (snd (m s)).
Definition preserves {S A} (I : S -> Prop) (m : ST S A) : Prop := hoare I m (fun _ => I).

Section hoare_rules.
Context {S : Type}.
Lemma hoare_ret {A} (P : S -> Prop) (a : A) : hoare P (st_ret a) (fun r s => r = a /\ P s).
Proof. intros s H. done. Qed.
Lemma hoare_bind {A B} P (Q : A -> S -> Prop) (R : B -> S -> Prop) (m : ST S A) k :
  hoare P m Q -> (forall a, hoare (Q a) (k a) R) -> hoare P (st_bind m k) R.
Proof.
  intros Hm Hk s HP. specialize (Hm s HP). unfold st_bind.
  destruct (m s) as [a s']. exact (Hk a s' Hm).
Qed.
Lemma hoare_conseq {A} (P P' : S -> Prop) (Q Q' : A -> S -> Prop) (m : ST S A) :
  hoare P' m Q' -> (forall s, P s -> P' s) -> (forall a s, Q' a s -> Q a s) -> hoare P m Q.
Proof. intros Hm HP HQ s H. apply HQ, Hm, HP, H. Qed.
Lemma preserves_ret {A} (I : S -> Prop) (a : A) : preserves I (st_ret a).
Proof. intros s H. done. Qed.
Lemma preserves_get {A} (I : S -> Prop) (f : S -> A) : preserves I (st_get f).
Proof. intros s H. done. Qed.
Lemma preserves_mod (I : S -> Prop) f : (forall s, I s -> I (f s)) -> preserves I (st_mod f).
Proof. intros H s Hs. apply H, Hs. Qed.
Lemma preserves_bind {A B} (I : S -> Prop) (m : ST S A) (k : A -> ST S B) :
  preserves I m -> (forall a, preserves I (k a)) -> preserves I (st_bind m k).
Proof. intros. eapply hoare_bind; eauto. Qed.
Lemma preserves_if {A} (I : S -> Prop) (b : bool) (m1 m2 : ST S A) :
  preserves I m1 -> preserves I m2 -> preserves I (if b then m1 else m2).
Proof. destruct b; done. Qed.
End hoare_rules.

(** [wp m Q s]: [m] run in [s] ends with a result and a state in [Q]. *)
Definition wp {S A} (m : ST S A) (Q : A -> S -> Prop) (s : S) : Prop := Q (fst (m s)) (snd (m s)).
Section wp_rules.
Context {S : Type}.
Lemma wp_bind {A B} (m : ST S A) (k : A -> ST S B) Q s : wp m (fun a => wp (k a) Q) s -> wp (st_bind m k) Q s.
Proof. unfold wp, st_bind. by destruct (m s). Qed.
Lemma wp_ret {A} (a : A) (Q : A -> S -> Prop) s : Q a s -> wp (st_ret a) Q s.
Proof. done. Qed.
Lemma wp_get {A} (f : S -> A) (Q : A -> S -> Prop) s : Q (f s) s -> wp (st_get f) Q s.
Proof. done. Qed.
Lemma wp_mod (f : S -> S) (Q : unit -> S -> Prop) s : Q tt (f s) -> wp (st_mod f) Q s.
Proof. done. Qed.
Lemma wp_zoom {T A} (part : S -> T) update (m : ST T A) Q s :
  wp m (fun a t => Q a (update t s)) (part s) -> wp (zoom part update m) Q s.
Proof. unfold wp, zoom. by destruct (m (part s)). Qed.
Lemma wp_mono {A} (m : ST S A) (Q Q' : A -> S -> Prop) s : wp m Q s -> (forall a s', Q a s' -> Q' a s') -> wp m Q' s.
Proof. unfold wp. auto. Qed.
End wp_rules.
(** One step of a program: bind, get, set, return. *)
Ltac wp_step :=
  lazymatch goal with
  | |- wp (st_bind _ _) _ _ => apply wp_bind
  | |- wp (st_get _) _ _ => apply wp_get
  | |- wp (st_mod _) _ _ => apply wp_mod
  | |- wp (st_ret _) _ _ => apply wp_ret
  end.
Ltac wp_steps := cbv beta iota; repeat (wp_step; cbv beta iota).

(** [for (i = from; i < from + n; i++)] in the state monad, with the variables the
    body assigns in [a]. *)
Fixpoint forM {S A} (n : nat) (from : Z) (body : Z -> A -> ST S A) (a : A) : ST S A :=
  match n with
  | O => st_ret a
  | Datatypes.S n' => st_bind (body from a) (forM n' (from + 1) body)
  end.
Lemma wp_forM {S A} (I : Z -> A -> S -> Prop) body n : forall from a s (Q : A -> S -> Prop),
  I from a s ->
  (forall i a s, from <= i < from + Z.of_nat n -> I i a s -> wp (body i a) (I (i + 1)) s) ->
  (forall a s, I (from + Z.of_nat n) a s -> Q a s) -> wp (forM n from body a) Q s.
Proof.
  induction n as [|n IH]; intros from a s Q HI Hstep HQ; cbn [forM].
  - apply HQ. by rewrite Z.add_0_r.
  - apply wp_bind. eapply wp_mono; [apply Hstep; [lia | done] |]. cbv beta. intros a' s' HI'.
    eapply IH; [done | intros; apply Hstep; [lia | done] |]. intros a'' s'' H. apply HQ.
    by replace (from + Z.of_nat (Datatypes.S n)) with (from + 1 + Z.of_nat n) by lia.
Qed.
(** A loop of the state monad, run as long as its body asks to go on. *)
Fixpoint loopM {S A} (fuel : nat) (body : A -> ST S (bool * A)) (a : A) : ST S A :=
  match fuel with
  | O => st_ret a
  | Datatypes.S n => st_bind (body a) (fun r : bool * A => if fst r then loopM n body (snd r) else st_ret (snd r))
  end.
(** Each round that goes on brings the measure down: the loop ends at a round that
    does not. *)
Lemma wp_loopM {S A} (I : A -> S -> Prop) (m : A -> S -> Z) body : forall fuel a s (Q : A -> S -> Prop),
  I a s -> m a s < Z.of_nat fuel ->
  (forall a s, I a s -> 0 <= m a s /\ wp (body a) (fun (r : bool * A) s' => if fst r then I (snd r) s' /\ m (snd r) s' < m a s else Q (snd r) s') s) ->
  wp (loopM fuel body a) Q s.
Proof.
  induction fuel as [|fuel IH]; intros a s Q HI Hm Hstep; cbn [loopM].
  - destruct (Hstep a s HI). lia.
  - apply wp_bind. eapply wp_mono; [apply Hstep, HI |]. cbv beta. intros [[] a'] s'; cbn [fst snd]; [| done].
    intros [HI' Hm']. apply IH; [done | lia | done].
Qed.

(** Two programs that begin alike are alike if they go on alike. *)
Lemma st_bind_ext {S A B} (m : ST S A) (k1 k2 : A -> ST S B) s :
  wp m (fun a s' => k1 a s' = k2 a s') s -> st_bind m k1 s = st_bind m k2 s.
Proof. unfold wp, st_bind. by destruct (m s). Qed.
(** A loop whose measure is below its fuel ends by itself: more fuel changes nothing. *)
Lemma loopM_stable {S A} (I : A -> S -> Prop) (m : A -> S -> nat) body :
  (forall a s, I a s -> wp (body a) (fun (r : bool * A) s' => fst r = true -> I (snd r) s' /\ (m (snd r) s' < m a s)%nat) s) ->
  forall n k a s, I a s -> (m a s < n)%nat -> loopM (n + k) body a s = loopM n body a s.
Proof.
  intros Hstep. induction n as [| n IH]; intros k a s HI Hm; [lia |]. cbn [loopM Nat.add].
  apply st_bind_ext. eapply wp_mono; [by apply Hstep |]. cbv beta. intros [[] a'] s'; cbn [fst snd]; [| done].
  intros H. destruct (H eq_refl). apply IH; [done | lia].
Qed.

Create HintDb st.
#[export] Hint Resolve preserves_ret preserves_get preserves_bind preserves_if : st.
#[export] Hint Extern 1 (forall _, preserves _ _) => intro : st.

(** * Loops

    [while fuel c b s] is [while (c) b] started in [s], cut after [fuel] rounds.
    Each loop of the program is written with the fuel its own termination
    argument gives, and [while_exits] turns that argument into the fact that the
    cut is never reached: the loop ends because its condition is false. *)

Fixpoint while {S} (fuel : nat) (cond : S -> bool) (body : S -> S) (s : S) : S :=
  match fuel with
  | O => s
  | Datatypes.S n => if cond s then while n cond body (body s) else s
  end.

(** [for (i = from; i < from + n; i++) body] *)
Fixpoint for_from {S} (n : nat) (from : Z) (body : Z -> S -> S) (s : S) : S :=
  match n with
  | O => s
  | Datatypes.S n' => for_from n' (from + 1) body (body from s)
  end.
(** [for (i = lo; i < hi; i++) body] *)
Definition for_range {S} (lo hi : Z) (body : Z -> S -> S) (s : S) : S :=
  for_from (Z.to_nat (hi - lo)) lo body s.

Section loops.
Context {S : Type}.
Implicit Types (cond : S -> bool) (s : S).

(** A loop whose body keeps [I] and brings the measure down ends with the
    condition false and [I] true. *)
Lemma while_rule (I : S -> Prop) (m : S -> Z) cond body :
  (forall s, I s -> cond s = true -> I (body s) /\ 0 <= m (body s) < m s) ->
  forall fuel s, I s -> m s < Z.of_nat fuel ->
  I (while fuel cond body s) /\ cond (while fuel cond body s) = false.
Proof.
  intros Hstep. induction fuel as [|fuel IH]; simpl; intros s HI Hm.
  - destruct (cond s) eqn:E; [|done]. destruct (Hstep s HI E). lia.
  - destruct (cond s) eqn:E; [|done]. destruct (Hstep s HI E).
    apply IH; [done | lia].
Qed.

Lemma while_elim (I : S -> Prop) (m : S -> Z) cond body fuel s (Q : S -> Prop) :
  (forall s, I s -> cond s = true -> I (body s) /\ 0 <= m (body s) < m s) ->
  I s -> m s < Z.of_nat fuel ->
  (forall s', I s' -> cond s' = false -> Q s') -> Q (while fuel cond body s).
Proof.
  intros Hstep HI Hm HQ. destruct (while_rule I m cond body Hstep fuel s HI Hm). by apply HQ.
Qed.

Lemma while_inv (I : S -> Prop) cond body fuel s :
  I s -> (forall s, I s -> cond s = true -> I (body s)) -> I (while fuel cond body s).
Proof.
  intros HI Hstep. revert s HI. induction fuel as [|fuel IH]; simpl; intros s HI; [done|].
  destruct (cond s) eqn:E; [|done]. apply IH, Hstep; done.
Qed.

Lemma for_from_inv (I : Z -> S -> Prop) body n from s :
  I from s ->
  (forall i s, from <= i < from + Z.of_nat n -> I i s -> I (i + 1) (body i s)) ->
  I (from + Z.of_nat n) (for_from n from body s).
Proof.
  revert from s. induction n as [|n IH]; simpl for_from; intros from s HI Hstep.
  - replace (from + Z.of_nat 0) with from by lia. done.
  - replace (from + Z.of_nat (Datatypes.S n)) with (from + 1 + Z.of_nat n) by lia.
    apply IH; [apply Hstep; [lia | done] |]. intros. apply Hstep; [lia | done].
Qed.
Lemma for_range_inv (I : Z -> S -> Prop) body lo hi s :
  lo <= hi -> I lo s ->
  (forall i s, lo <= i < hi -> I i s -> I (i + 1) (body i s)) ->
  I hi (for_range lo hi body s).
Proof.
  intros Hle HI Hstep. unfold for_range.
  replace hi with (lo + Z.of_nat (Z.to_nat (hi - lo))) at 1 by lia.
  apply for_from_inv; [done |]. intros. apply Hstep; [lia | done].
Qed.

(** One turn, and the exit. *)
Lemma while_next cond body n s : cond s = true -> while (Datatypes.S n) cond body s = while n cond body (body s).
Proof. intros H. simpl. by rewrite H. Qed.
Lemma while_done cond body n s : cond s = false -> while n cond body s = s.
Proof. intros H. destruct n; simpl; [done | by rewrite H]. Qed.
End loops.

(** A loop over the bytes of an array is a fold over them. *)
Lemma for_from_fold {S} (f : Z -> S -> S) l l' : forall s,
  for_from (length l) (lenZ l') (fun i s => f (nthZ (l' ++ l) i) s) s = fold_left (fun s b => f b s) l s.
Proof.
  revert l'. induction l as [|b l IH]; intros l' s; simpl; [done |].
  rewrite nthZ_app_r, Z.sub_diag, nthZ_0_cons by lia. rewrite <- (IH (l' ++ [b])).
  rewrite lenZ_app, <- app_assoc. done.
Qed.
Lemma for_range_fold {S} (f : Z -> S -> S) l s :
  for_range 0 (lenZ l) (fun i s => f (nthZ l i) s) s = fold_left (fun s b => f b s) l s.
Proof.
  unfold for_range. rewrite Z.sub_0_r. unfold lenZ at 1. rewrite Nat2Z.id. apply (for_from_fold f l []).
Qed.

(** ** Comparing areas without an early exit *)

Lemma lor_zero a b : Z.lor a b = 0 <-> a = 0 /\ b = 0.
Proof. apply Z.lor_eq_0_iff. Qed.
Lemma byte_lxor a b : is_byte a -> is_byte b -> (u8 (Z.lxor a b) = 0 <-> a = b).
Proof. intros Ha Hb. rewrite u8_small by (apply (lxor_below 8); lia || done). apply Z.lxor_eq_0_iff. Qed.
Lemma byte_lor a b : is_byte a -> is_byte b -> is_byte (Z.lor a b).
Proof. intros. apply (lor_below 8); lia || done. Qed.

(** The accumulated difference is zero exactly when no byte differs. *)
Lemma difference_zero a b n : 0 <= n <= lenZ a -> n <= lenZ b -> all_bytes a -> all_bytes b ->
  for_range 0 n (fun i difference => u8 (Z.lor difference (u8 (Z.lxor a.[i] b.[i])))) 0 = 0 <-> takeZ n a = takeZ n b.
Proof.
  intros Hn1 Hn2 Hb1 Hb2.
  pose proof (for_range_inv (fun i d => is_byte d /\ (d = 0 <-> forall j, 0 <= j < i -> a.[j] = b.[j]))
    (fun i difference => u8 (Z.lor difference (u8 (Z.lxor a.[i] b.[i])))) 0 n 0) as H.
  cbv beta in H. destruct H as [_ H].
  - lia.
  - split; [unfold is_byte; lia | split; [intros _ j Hj; lia | done]].
  - intros i d Hi [Hd Hz]. assert (Hx : is_byte (u8 (Z.lxor a.[i] b.[i]))) by apply u8_range.
    pose proof (byte_lor _ _ Hd Hx) as Hlor. rewrite u8_small by exact Hlor. split; [done |].
    rewrite lor_zero, byte_lxor, Hz by by apply nthZ_is_byte. split.
    + intros [Hlt He] j Hj. destruct (Z.eq_dec j i) as [-> |]; [done | apply Hlt; lia].
    + intros Hall. split; [intros j Hj |]; apply Hall; lia.
  - rewrite H. split.
    + intros Hall. apply nthZ_ext; rewrite !lenZ_takeZ by lia; [done |].
      intros i Hi. rewrite !nthZ_takeZ by lia. by apply Hall.
    + intros Ht j Hj. rewrite <- (nthZ_takeZ a n j), Ht by lia. by apply nthZ_takeZ.
Qed.

(** Reason on the loop in the goal by the invariant [I] and the measure [m]: its
    goals are the step, the start, the fuel, and the goal at the loop's exit. *)
Ltac while_by I m :=
  match goal with
  | |- context [while ?n ?c ?b ?s] => pattern (while n c b s); apply (while_elim I m)
  end.

(** * Booleans *)

Ltac destruct_bool_step :=
  match goal with
  | H : context [if ?b then _ else _] |- _ => let E := fresh "E" in destruct b eqn:E
  | |- context [if ?b then _ else _] => let E := fresh "E" in destruct b eqn:E
  end.
(** Turn every boolean test in the context into the fact it decides. *)
Ltac bool_to_prop :=
  repeat match goal with
  | H : andb _ _ = true |- _ => apply andb_prop in H as [? ?]
  | H : orb _ _ = false |- _ => apply orb_false_elim in H as [? ?]
  | H : negb _ = true |- _ => apply negb_true_iff in H
  | H : negb _ = false |- _ => apply negb_false_iff in H
  | H : (_ <? _) = true |- _ => apply Z.ltb_lt in H
  | H : (_ <? _) = false |- _ => apply Z.ltb_ge in H
  | H : (_ <=? _) = true |- _ => apply Z.leb_le in H
  | H : (_ <=? _) = false |- _ => apply Z.leb_gt in H
  | H : (_ =? _) = true |- _ => apply Z.eqb_eq in H
  | H : (_ =? _) = false |- _ => apply Z.eqb_neq in H
  end.
