(* ===== verification/Errors.v ===== *)
(** The error vocabulary ([SolidSyslogError.h], [SolidSyslogErrorCategory.h], the
    [*Categories.h] and [*Errors.h] headers, the [*ErrorsName.c] tables): severities,
    categories, detail codes with their names, the sources and the event a fault
    raises.  The property at the end: every detail code and every category has a
    name of its own, and nothing else has one. *)
From S2P Require Import Prelude.

(** * Severities *)

Definition SOLIDSYSLOG_SEVERITY_EMERGENCY : Z := 0.
Definition SOLIDSYSLOG_SEVERITY_ALERT : Z := 1.
Definition SOLIDSYSLOG_SEVERITY_CRITICAL : Z := 2.
Definition SOLIDSYSLOG_SEVERITY_ERROR : Z := 3.
Definition SOLIDSYSLOG_SEVERITY_WARNING : Z := 4.
Definition SOLIDSYSLOG_SEVERITY_NOTICE : Z := 5.
Definition SOLIDSYSLOG_SEVERITY_INFORMATIONAL : Z := 6.
Definition SOLIDSYSLOG_SEVERITY_DEBUG : Z := 7.

Definition SOLIDSYSLOG_POOL_EXHAUSTED_SEVERITY : Z := SOLIDSYSLOG_SEVERITY_CRITICAL.
Definition SOLIDSYSLOG_BAD_CONFIG_FATAL_SEVERITY : Z := SOLIDSYSLOG_SEVERITY_CRITICAL.
Definition SOLIDSYSLOG_BAD_ARGUMENT_SEVERITY : Z := SOLIDSYSLOG_SEVERITY_CRITICAL.
Definition SOLIDSYSLOG_UNKNOWN_DESTROY_SEVERITY : Z := SOLIDSYSLOG_SEVERITY_WARNING.
Definition SOLIDSYSLOG_FILE_IO_FAILED_SEVERITY : Z := SOLIDSYSLOG_SEVERITY_ERROR.
Definition SOLIDSYSLOG_STREAM_CONNECT_LOCAL_SEVERITY : Z := SOLIDSYSLOG_SEVERITY_ERROR.
Definition SOLIDSYSLOG_STREAM_CONNECT_REMOTE_SEVERITY : Z := SOLIDSYSLOG_SEVERITY_WARNING.

(** * Categories *)

Definition SOLIDSYSLOG_CAT_BAD_CONFIG : Z := 0x0001.
Definition SOLIDSYSLOG_CAT_BAD_ARGUMENT : Z := 0x0002.
Definition SOLIDSYSLOG_CAT_POOL_EXHAUSTED : Z := 0x0003.
Definition SOLIDSYSLOG_CAT_UNKNOWN_DESTROY : Z := 0x0004.
Definition SOLIDSYSLOG_CAT_SENDER_BASE : Z := 0x0100.
Definition SOLIDSYSLOG_CAT_RESOLVER_BASE : Z := 0x0200.
Definition SOLIDSYSLOG_CAT_STREAM_BASE : Z := 0x0300.
Definition SOLIDSYSLOG_CAT_TLS_STREAM_BASE : Z := 0x0400.
Definition SOLIDSYSLOG_CAT_SECURITY_POLICY_BASE : Z := 0x0500.
Definition SOLIDSYSLOG_CAT_BUFFER_BASE : Z := 0x0600.
Definition SOLIDSYSLOG_CAT_FILE_BASE : Z := 0x0700.
Definition SOLIDSYSLOG_CAT_STORE_BASE : Z := 0x0800.
Definition SOLIDSYSLOG_CAT_DATAGRAM_BASE : Z := 0x0900.
Definition SOLIDSYSLOG_CAT_LOGGER_BASE : Z := 0x0A00.
Definition SOLIDSYSLOG_CAT_BUFFER_BACKEND_FAILED : Z := SOLIDSYSLOG_CAT_BUFFER_BASE + 1.
Definition SOLIDSYSLOG_CAT_BUFFER_RECORDS_LOST : Z := SOLIDSYSLOG_CAT_BUFFER_BASE + 2.
Definition SOLIDSYSLOG_CAT_DATAGRAM_NEXT_HOP_UNRESOLVED : Z := SOLIDSYSLOG_CAT_DATAGRAM_BASE + 1.
Definition SOLIDSYSLOG_CAT_FILE_IO_FAILED : Z := SOLIDSYSLOG_CAT_FILE_BASE + 1.
Definition SOLIDSYSLOG_CAT_LOGGER_HALTED : Z := SOLIDSYSLOG_CAT_LOGGER_BASE + 1.
Definition SOLIDSYSLOG_CAT_RESOLVER_RESOLVE_FAILED : Z := SOLIDSYSLOG_CAT_RESOLVER_BASE + 1.
Definition SOLIDSYSLOG_CAT_SECURITY_POLICY_KEY_UNAVAILABLE : Z := SOLIDSYSLOG_CAT_SECURITY_POLICY_BASE + 1.
Definition SOLIDSYSLOG_CAT_SECURITY_POLICY_SEAL_FAILED : Z := SOLIDSYSLOG_CAT_SECURITY_POLICY_BASE + 2.
Definition SOLIDSYSLOG_CAT_SECURITY_POLICY_OPEN_FAILED : Z := SOLIDSYSLOG_CAT_SECURITY_POLICY_BASE + 3.
Definition SOLIDSYSLOG_CAT_SENDER_DELIVERY_FAILED : Z := SOLIDSYSLOG_CAT_SENDER_BASE + 1.
Definition SOLIDSYSLOG_CAT_SENDER_DELIVERY_RESTORED : Z := SOLIDSYSLOG_CAT_SENDER_BASE + 2.
Definition SOLIDSYSLOG_CAT_SENDER_RECORDS_LOST : Z := SOLIDSYSLOG_CAT_SENDER_BASE + 3.
Definition SOLIDSYSLOG_CAT_STORE_WRITE_FAILED : Z := SOLIDSYSLOG_CAT_STORE_BASE + 1.
Definition SOLIDSYSLOG_CAT_STORE_FROZEN : Z := SOLIDSYSLOG_CAT_STORE_BASE + 3.
Definition SOLIDSYSLOG_CAT_STORE_RECORD_DISCARDED : Z := SOLIDSYSLOG_CAT_STORE_BASE + 4.
Definition SOLIDSYSLOG_CAT_STORE_RECORDS_LOST : Z := SOLIDSYSLOG_CAT_STORE_BASE + 5.
Definition SOLIDSYSLOG_CAT_STORE_THRESHOLD_CROSSED : Z := SOLIDSYSLOG_CAT_STORE_BASE + 6.
Definition SOLIDSYSLOG_CAT_STREAM_CONNECT_FAILED : Z := SOLIDSYSLOG_CAT_STREAM_BASE + 1.
Definition SOLIDSYSLOG_CAT_STREAM_OPTION_REFUSED : Z := SOLIDSYSLOG_CAT_STREAM_BASE + 2.
Definition SOLIDSYSLOG_CAT_TLS_STREAM_INIT_FAILED : Z := SOLIDSYSLOG_CAT_TLS_STREAM_BASE + 1.
Definition SOLIDSYSLOG_CAT_TLS_STREAM_HANDSHAKE_FAILED : Z := SOLIDSYSLOG_CAT_TLS_STREAM_BASE + 2.

(** * Detail codes *)

(** [enum SolidSyslogAddressErrors] *)
Definition SOLIDSYSLOG_ADDRESS_ERROR_POOL_EXHAUSTED : Z := 0.
Definition SOLIDSYSLOG_ADDRESS_ERROR_UNKNOWN_DESTROY : Z := 1.
Definition SOLIDSYSLOG_ADDRESS_ERROR_MAX : Z := 2.

(** [enum SolidSyslogAesGcmPolicyErrors] *)
Definition SOLIDSYSLOG_AES_GCM_POLICY_ERROR_POOL_EXHAUSTED : Z := 0.
Definition SOLIDSYSLOG_AES_GCM_POLICY_ERROR_UNKNOWN_DESTROY : Z := 1.
Definition SOLIDSYSLOG_AES_GCM_POLICY_ERROR_BAD_CONFIG : Z := 2.
Definition SOLIDSYSLOG_AES_GCM_POLICY_ERROR_KEY_UNAVAILABLE : Z := 3.
Definition SOLIDSYSLOG_AES_GCM_POLICY_ERROR_NONCE_FAILED : Z := 4.
Definition SOLIDSYSLOG_AES_GCM_POLICY_ERROR_ENCRYPT_FAILED : Z := 5.
Definition SOLIDSYSLOG_AES_GCM_POLICY_ERROR_DECRYPT_FAILED : Z := 6.
Definition SOLIDSYSLOG_AES_GCM_POLICY_ERROR_MAX : Z := 7.

(** [enum SolidSyslogAtomicCounterErrors] *)
Definition SOLIDSYSLOG_ATOMIC_COUNTER_ERROR_POOL_EXHAUSTED : Z := 0.
Definition SOLIDSYSLOG_ATOMIC_COUNTER_ERROR_UNKNOWN_DESTROY : Z := 1.
Definition SOLIDSYSLOG_ATOMIC_COUNTER_ERROR_MAX : Z := 2.

(** [enum SolidSyslogBlockStoreErrors] *)
Definition SOLIDSYSLOG_BLOCK_STORE_ERROR_POOL_EXHAUSTED : Z := 0.
Definition SOLIDSYSLOG_BLOCK_STORE_ERROR_UNKNOWN_DESTROY : Z := 1.
Definition SOLIDSYSLOG_BLOCK_STORE_ERROR_BLOCK_TOO_SMALL : Z := 2.
Definition SOLIDSYSLOG_BLOCK_STORE_ERROR_SEAL_FAILED : Z := 3.
Definition SOLIDSYSLOG_BLOCK_STORE_ERROR_OPEN_FAILED : Z := 4.
Definition SOLIDSYSLOG_BLOCK_STORE_ERROR_APPEND_FAILED : Z := 5.
Definition SOLIDSYSLOG_BLOCK_STORE_ERROR_ROTATE_FAILED : Z := 6.
Definition SOLIDSYSLOG_BLOCK_STORE_ERROR_DISPOSE_FAILED : Z := 7.
Definition SOLIDSYSLOG_BLOCK_STORE_ERROR_MARK_SENT_FAILED : Z := 8.
Definition SOLIDSYSLOG_BLOCK_STORE_ERROR_READ_FAILED : Z := 9.
Definition SOLIDSYSLOG_BLOCK_STORE_ERROR_SIZE_FAILED : Z := 10.
Definition SOLIDSYSLOG_BLOCK_STORE_ERROR_RECORD_REJECTED : Z := 11.
Definition SOLIDSYSLOG_BLOCK_STORE_ERROR_RECORD_CORRUPT : Z := 12.
Definition SOLIDSYSLOG_BLOCK_STORE_ERROR_RECORD_REFUSED : Z := 13.
Definition SOLIDSYSLOG_BLOCK_STORE_ERROR_BLOCK_EVICTED : Z := 14.
Definition SOLIDSYSLOG_BLOCK_STORE_ERROR_TRAILER_TOO_LARGE : Z := 15.
Definition SOLIDSYSLOG_BLOCK_STORE_ERROR_NULL_CONFIG : Z := 16.
Definition SOLIDSYSLOG_BLOCK_STORE_ERROR_NULL_BLOCK_DEVICE : Z := 17.
Definition SOLIDSYSLOG_BLOCK_STORE_ERROR_THRESHOLD_CROSSED : Z := 18.
Definition SOLIDSYSLOG_BLOCK_STORE_ERROR_MAX : Z := 19.

(** [enum SolidSyslogCircularBufferErrors] *)
Definition SOLIDSYSLOG_CIRCULAR_BUFFER_ERROR_POOL_EXHAUSTED : Z := 0.
Definition SOLIDSYSLOG_CIRCULAR_BUFFER_ERROR_UNKNOWN_DESTROY : Z := 1.
Definition SOLIDSYSLOG_CIRCULAR_BUFFER_ERROR_RECORD_TOO_LARGE : Z := 2.
Definition SOLIDSYSLOG_CIRCULAR_BUFFER_ERROR_RECORD_REFUSED : Z := 3.
Definition SOLIDSYSLOG_CIRCULAR_BUFFER_ERROR_RECORD_EXCEEDS_MAX_MESSAGE_SIZE : Z := 4.
Definition SOLIDSYSLOG_CIRCULAR_BUFFER_ERROR_RECORDS_EVICTED : Z := 5.
Definition SOLIDSYSLOG_CIRCULAR_BUFFER_ERROR_NULL_MUTEX : Z := 6.
Definition SOLIDSYSLOG_CIRCULAR_BUFFER_ERROR_NULL_RING : Z := 7.
Definition SOLIDSYSLOG_CIRCULAR_BUFFER_ERROR_MAX : Z := 8.

(** [enum SolidSyslogDatagramErrors] *)
Definition SOLIDSYSLOG_DATAGRAM_ERROR_POOL_EXHAUSTED : Z := 0.
Definition SOLIDSYSLOG_DATAGRAM_ERROR_UNKNOWN_DESTROY : Z := 1.
Definition SOLIDSYSLOG_DATAGRAM_ERROR_NEXT_HOP_UNRESOLVED : Z := 2.
Definition SOLIDSYSLOG_DATAGRAM_ERROR_ALREADY_OPEN : Z := 3.
Definition SOLIDSYSLOG_DATAGRAM_ERROR_MAX : Z := 4.

(** [enum SolidSyslogErrors] *)
Definition SOLIDSYSLOG_ERROR_CREATE_NULL_CONFIG : Z := 0.
Definition SOLIDSYSLOG_ERROR_CREATE_NULL_BUFFER : Z := 1.
Definition SOLIDSYSLOG_ERROR_CREATE_NULL_SENDER : Z := 2.
Definition SOLIDSYSLOG_ERROR_CREATE_NULL_STORE : Z := 3.
Definition SOLIDSYSLOG_ERROR_CREATE_INCONSISTENT_SD : Z := 4.
Definition SOLIDSYSLOG_ERROR_LOG_NULL_MESSAGE : Z := 5.
Definition SOLIDSYSLOG_ERROR_LOG_NULL_HANDLE : Z := 6.
Definition SOLIDSYSLOG_ERROR_LOG_INCONSISTENT_SD : Z := 7.
Definition SOLIDSYSLOG_ERROR_SERVICE_NULL_HANDLE : Z := 8.
Definition SOLIDSYSLOG_ERROR_POOL_EXHAUSTED : Z := 9.
Definition SOLIDSYSLOG_ERROR_UNKNOWN_DESTROY : Z := 10.
Definition SOLIDSYSLOG_ERROR_HELD_RECORD_DROPPED : Z := 11.
Definition SOLIDSYSLOG_ERROR_HALTED_STORE_REFUSED : Z := 12.
Definition SOLIDSYSLOG_ERROR_HALTED_BUFFER_FULL : Z := 13.
Definition SOLIDSYSLOG_ERROR_MAX : Z := 14.

(** [enum SolidSyslogFileBlockDeviceErrors] *)
Definition SOLIDSYSLOG_FILE_BLOCK_DEVICE_ERROR_POOL_EXHAUSTED : Z := 0.
Definition SOLIDSYSLOG_FILE_BLOCK_DEVICE_ERROR_UNKNOWN_DESTROY : Z := 1.
Definition SOLIDSYSLOG_FILE_BLOCK_DEVICE_ERROR_MAX : Z := 2.

(** [enum SolidSyslogFileErrors] *)
Definition SOLIDSYSLOG_FILE_ERROR_POOL_EXHAUSTED : Z := 0.
Definition SOLIDSYSLOG_FILE_ERROR_UNKNOWN_DESTROY : Z := 1.
Definition SOLIDSYSLOG_FILE_ERROR_NULL_FILESYSTEM : Z := 2.
Definition SOLIDSYSLOG_FILE_ERROR_BUFFER_TOO_SMALL : Z := 3.
Definition SOLIDSYSLOG_FILE_ERROR_OPEN_FAILED : Z := 4.
Definition SOLIDSYSLOG_FILE_ERROR_WRITE_FAILED : Z := 5.
Definition SOLIDSYSLOG_FILE_ERROR_SYNC_FAILED : Z := 6.
Definition SOLIDSYSLOG_FILE_ERROR_COMMIT_FAILED : Z := 7.
Definition SOLIDSYSLOG_FILE_ERROR_READ_FAILED : Z := 8.
Definition SOLIDSYSLOG_FILE_ERROR_SEEK_FAILED : Z := 9.
Definition SOLIDSYSLOG_FILE_ERROR_SIZE_FAILED : Z := 10.
Definition SOLIDSYSLOG_FILE_ERROR_TRUNCATE_FAILED : Z := 11.
Definition SOLIDSYSLOG_FILE_ERROR_CLOSE_FAILED : Z := 12.
Definition SOLIDSYSLOG_FILE_ERROR_MAX : Z := 13.

(** [enum SolidSyslogHmacSha256PolicyErrors] *)
Definition SOLIDSYSLOG_HMAC_SHA256_POLICY_ERROR_POOL_EXHAUSTED : Z := 0.
Definition SOLIDSYSLOG_HMAC_SHA256_POLICY_ERROR_UNKNOWN_DESTROY : Z := 1.
Definition SOLIDSYSLOG_HMAC_SHA256_POLICY_ERROR_BAD_CONFIG : Z := 2.
Definition SOLIDSYSLOG_HMAC_SHA256_POLICY_ERROR_KEY_UNAVAILABLE : Z := 3.
Definition SOLIDSYSLOG_HMAC_SHA256_POLICY_ERROR_KEY_TOO_SHORT : Z := 4.
Definition SOLIDSYSLOG_HMAC_SHA256_POLICY_ERROR_HMAC_FAILED : Z := 5.
Definition SOLIDSYSLOG_HMAC_SHA256_POLICY_ERROR_MAX : Z := 6.

(** [enum SolidSyslogMetaSdErrors] *)
Definition SOLIDSYSLOG_META_SD_ERROR_NULL_CONFIG : Z := 0.
Definition SOLIDSYSLOG_META_SD_ERROR_NULL_COUNTER : Z := 1.
Definition SOLIDSYSLOG_META_SD_ERROR_POOL_EXHAUSTED : Z := 2.
Definition SOLIDSYSLOG_META_SD_ERROR_UNKNOWN_DESTROY : Z := 3.
Definition SOLIDSYSLOG_META_SD_ERROR_MAX : Z := 4.

(** [enum SolidSyslogMutexErrors] *)
Definition SOLIDSYSLOG_MUTEX_ERROR_POOL_EXHAUSTED : Z := 0.
Definition SOLIDSYSLOG_MUTEX_ERROR_UNKNOWN_DESTROY : Z := 1.
Definition SOLIDSYSLOG_MUTEX_ERROR_CREATE_FAILED : Z := 2.
Definition SOLIDSYSLOG_MUTEX_ERROR_MAX : Z := 3.

(** [enum SolidSyslogOriginSdErrors] *)
Definition SOLIDSYSLOG_ORIGIN_SD_ERROR_POOL_EXHAUSTED : Z := 0.
Definition SOLIDSYSLOG_ORIGIN_SD_ERROR_UNKNOWN_DESTROY : Z := 1.
Definition SOLIDSYSLOG_ORIGIN_SD_ERROR_MAX : Z := 2.

(** [enum SolidSyslogPassthroughBufferErrors] *)
Definition SOLIDSYSLOG_PASSTHROUGH_BUFFER_ERROR_POOL_EXHAUSTED : Z := 0.
Definition SOLIDSYSLOG_PASSTHROUGH_BUFFER_ERROR_UNKNOWN_DESTROY : Z := 1.
Definition SOLIDSYSLOG_PASSTHROUGH_BUFFER_ERROR_NULL_SENDER : Z := 2.
Definition SOLIDSYSLOG_PASSTHROUGH_BUFFER_ERROR_MAX : Z := 3.

(** [enum SolidSyslogResolverErrors] *)
Definition SOLIDSYSLOG_RESOLVER_ERROR_POOL_EXHAUSTED : Z := 0.
Definition SOLIDSYSLOG_RESOLVER_ERROR_UNKNOWN_DESTROY : Z := 1.
Definition SOLIDSYSLOG_RESOLVER_ERROR_RESOLVE_TIMEOUT : Z := 2.
Definition SOLIDSYSLOG_RESOLVER_ERROR_NULL_CONFIG : Z := 3.
Definition SOLIDSYSLOG_RESOLVER_ERROR_NULL_SLEEP : Z := 4.
Definition SOLIDSYSLOG_RESOLVER_ERROR_ADDRESS_FAMILY_UNSUPPORTED : Z := 5.
Definition SOLIDSYSLOG_RESOLVER_ERROR_MAX : Z := 6.

(** [enum SolidSyslogSharedScratchErrors] *)
Definition SOLIDSYSLOG_SHARED_SCRATCH_ERROR_POOL_EXHAUSTED : Z := 0.
Definition SOLIDSYSLOG_SHARED_SCRATCH_ERROR_UNKNOWN_DESTROY : Z := 1.
Definition SOLIDSYSLOG_SHARED_SCRATCH_ERROR_NULL_MUTEX : Z := 2.
Definition SOLIDSYSLOG_SHARED_SCRATCH_ERROR_MAX : Z := 3.

(** [enum SolidSyslogStreamSenderErrors] *)
Definition SOLIDSYSLOG_STREAM_SENDER_ERROR_NULL_CONFIG : Z := 0.
Definition SOLIDSYSLOG_STREAM_SENDER_ERROR_NULL_RESOLVER : Z := 1.
Definition SOLIDSYSLOG_STREAM_SENDER_ERROR_NULL_STREAM : Z := 2.
Definition SOLIDSYSLOG_STREAM_SENDER_ERROR_NULL_ADDRESS : Z := 3.
Definition SOLIDSYSLOG_STREAM_SENDER_ERROR_POOL_EXHAUSTED : Z := 4.
Definition SOLIDSYSLOG_STREAM_SENDER_ERROR_UNKNOWN_DESTROY : Z := 5.
Definition SOLIDSYSLOG_STREAM_SENDER_ERROR_DELIVERY_FAILED : Z := 6.
Definition SOLIDSYSLOG_STREAM_SENDER_ERROR_DELIVERY_RESTORED : Z := 7.
Definition SOLIDSYSLOG_STREAM_SENDER_ERROR_MAX : Z := 8.

(** [enum SolidSyslogSwitchingSenderErrors] *)
Definition SOLIDSYSLOG_SWITCHING_SENDER_ERROR_NULL_CONFIG : Z := 0.
Definition SOLIDSYSLOG_SWITCHING_SENDER_ERROR_NULL_SENDERS : Z := 1.
Definition SOLIDSYSLOG_SWITCHING_SENDER_ERROR_NULL_SELECTOR : Z := 2.
Definition SOLIDSYSLOG_SWITCHING_SENDER_ERROR_POOL_EXHAUSTED : Z := 3.
Definition SOLIDSYSLOG_SWITCHING_SENDER_ERROR_UNKNOWN_DESTROY : Z := 4.
Definition SOLIDSYSLOG_SWITCHING_SENDER_ERROR_NULL_INNER_SENDER : Z := 5.
Definition SOLIDSYSLOG_SWITCHING_SENDER_ERROR_NO_SENDERS : Z := 6.
Definition SOLIDSYSLOG_SWITCHING_SENDER_ERROR_SELECTOR_OUT_OF_RANGE : Z := 7.
Definition SOLIDSYSLOG_SWITCHING_SENDER_ERROR_MAX : Z := 8.

(** [enum SolidSyslogTcpStreamErrors] *)
Definition SOLIDSYSLOG_TCP_STREAM_ERROR_POOL_EXHAUSTED : Z := 0.
Definition SOLIDSYSLOG_TCP_STREAM_ERROR_UNKNOWN_DESTROY : Z := 1.
Definition SOLIDSYSLOG_TCP_STREAM_ERROR_NULL_CONFIG : Z := 2.
Definition SOLIDSYSLOG_TCP_STREAM_ERROR_NULL_SLEEP : Z := 3.
Definition SOLIDSYSLOG_TCP_STREAM_ERROR_ENDPOINT_UNAVAILABLE : Z := 4.
Definition SOLIDSYSLOG_TCP_STREAM_ERROR_CONNECT_NOT_STARTED : Z := 5.
Definition SOLIDSYSLOG_TCP_STREAM_ERROR_CONNECT_REFUSED : Z := 6.
Definition SOLIDSYSLOG_TCP_STREAM_ERROR_CONNECT_TIMED_OUT : Z := 7.
Definition SOLIDSYSLOG_TCP_STREAM_ERROR_SOCKET_OPTION_REFUSED : Z := 8.
Definition SOLIDSYSLOG_TCP_STREAM_ERROR_ALREADY_OPEN : Z := 9.
Definition SOLIDSYSLOG_TCP_STREAM_ERROR_MAX : Z := 10.

(** [enum SolidSyslogTimeQualitySdErrors] *)
Definition SOLIDSYSLOG_TIME_QUALITY_SD_ERROR_NULL_CALLBACK : Z := 0.
Definition SOLIDSYSLOG_TIME_QUALITY_SD_ERROR_POOL_EXHAUSTED : Z := 1.
Definition SOLIDSYSLOG_TIME_QUALITY_SD_ERROR_UNKNOWN_DESTROY : Z := 2.
Definition SOLIDSYSLOG_TIME_QUALITY_SD_ERROR_MAX : Z := 3.

(** [enum SolidSyslogTlsCredentialsErrors] *)
Definition SOLIDSYSLOG_TLS_CREDENTIALS_ERROR_POOL_EXHAUSTED : Z := 0.
Definition SOLIDSYSLOG_TLS_CREDENTIALS_ERROR_UNKNOWN_DESTROY : Z := 1.
Definition SOLIDSYSLOG_TLS_CREDENTIALS_ERROR_NULL_CONFIG : Z := 2.
Definition SOLIDSYSLOG_TLS_CREDENTIALS_ERROR_NULL_RNG : Z := 3.
Definition SOLIDSYSLOG_TLS_CREDENTIALS_ERROR_NULL_PEER_FINGERPRINT : Z := 4.
Definition SOLIDSYSLOG_TLS_CREDENTIALS_ERROR_ALREADY_IN_USE : Z := 5.
Definition SOLIDSYSLOG_TLS_CREDENTIALS_ERROR_PEM_NOT_TERMINATED : Z := 6.
Definition SOLIDSYSLOG_TLS_CREDENTIALS_ERROR_TRUST_ANCHORS_NOT_LOADED : Z := 7.
Definition SOLIDSYSLOG_TLS_CREDENTIALS_ERROR_TRUST_ANCHORS_NOT_PARSED : Z := 8.
Definition SOLIDSYSLOG_TLS_CREDENTIALS_ERROR_CLIENT_CREDENTIAL_INCOMPLETE : Z := 9.
Definition SOLIDSYSLOG_TLS_CREDENTIALS_ERROR_CLIENT_CREDENTIAL_NOT_PARSED : Z := 10.
Definition SOLIDSYSLOG_TLS_CREDENTIALS_ERROR_CLIENT_CREDENTIAL_MISMATCHED : Z := 11.
Definition SOLIDSYSLOG_TLS_CREDENTIALS_ERROR_CLIENT_CREDENTIAL_NOT_INSTALLED : Z := 12.
Definition SOLIDSYSLOG_TLS_CREDENTIALS_ERROR_MAX : Z := 13.

(** [enum SolidSyslogTlsStreamErrors] *)
Definition SOLIDSYSLOG_TLS_STREAM_ERROR_POOL_EXHAUSTED : Z := 0.
Definition SOLIDSYSLOG_TLS_STREAM_ERROR_UNKNOWN_DESTROY : Z := 1.
Definition SOLIDSYSLOG_TLS_STREAM_ERROR_LIBRARY_OUT_OF_MEMORY : Z := 2.
Definition SOLIDSYSLOG_TLS_STREAM_ERROR_NULL_CONFIG : Z := 3.
Definition SOLIDSYSLOG_TLS_STREAM_ERROR_NULL_TRANSPORT : Z := 4.
Definition SOLIDSYSLOG_TLS_STREAM_ERROR_NULL_SLEEP : Z := 5.
Definition SOLIDSYSLOG_TLS_STREAM_ERROR_NULL_CREDENTIALS : Z := 6.
Definition SOLIDSYSLOG_TLS_STREAM_ERROR_NULL_RNG : Z := 7.
Definition SOLIDSYSLOG_TLS_STREAM_ERROR_CONTEXT_INIT_FAILED : Z := 8.
Definition SOLIDSYSLOG_TLS_STREAM_ERROR_DEFAULTS_NOT_APPLIED : Z := 9.
Definition SOLIDSYSLOG_TLS_STREAM_ERROR_SESSION_INIT_FAILED : Z := 10.
Definition SOLIDSYSLOG_TLS_STREAM_ERROR_SERVER_NAME_NOT_SET : Z := 11.
Definition SOLIDSYSLOG_TLS_STREAM_ERROR_SERVER_NAME_NOT_APPLIED : Z := 12.
Definition SOLIDSYSLOG_TLS_STREAM_ERROR_NO_PEER_AUTHORISATION : Z := 13.
Definition SOLIDSYSLOG_TLS_STREAM_ERROR_FINGERPRINT_MALFORMED : Z := 14.
Definition SOLIDSYSLOG_TLS_STREAM_ERROR_FINGERPRINT_SHA1 : Z := 15.
Definition SOLIDSYSLOG_TLS_STREAM_ERROR_FINGERPRINT_DIGEST_UNAVAILABLE : Z := 16.
Definition SOLIDSYSLOG_TLS_STREAM_ERROR_CIPHER_POLICY_REJECTED : Z := 17.
Definition SOLIDSYSLOG_TLS_STREAM_ERROR_HANDSHAKE_REJECTED : Z := 18.
Definition SOLIDSYSLOG_TLS_STREAM_ERROR_HANDSHAKE_TIMEOUT : Z := 19.
Definition SOLIDSYSLOG_TLS_STREAM_ERROR_PEER_CERTIFICATE_UNTRUSTED : Z := 20.
Definition SOLIDSYSLOG_TLS_STREAM_ERROR_PEER_NAME_MISMATCHED : Z := 21.
Definition SOLIDSYSLOG_TLS_STREAM_ERROR_PEER_CERTIFICATE_EXPIRED : Z := 22.
Definition SOLIDSYSLOG_TLS_STREAM_ERROR_PEER_CERTIFICATE_NOT_YET_VALID : Z := 23.
Definition SOLIDSYSLOG_TLS_STREAM_ERROR_PEER_FINGERPRINT_MISMATCHED : Z := 24.
Definition SOLIDSYSLOG_TLS_STREAM_ERROR_ALREADY_OPEN : Z := 25.
Definition SOLIDSYSLOG_TLS_STREAM_ERROR_PINS_WITH_ANCHORS_UNSUPPORTED : Z := 26.
Definition SOLIDSYSLOG_TLS_STREAM_ERROR_MAX : Z := 27.

(** [enum SolidSyslogUdpSenderErrors] *)
Definition SOLIDSYSLOG_UDP_SENDER_ERROR_NULL_CONFIG : Z := 0.
Definition SOLIDSYSLOG_UDP_SENDER_ERROR_NULL_RESOLVER : Z := 1.
Definition SOLIDSYSLOG_UDP_SENDER_ERROR_NULL_DATAGRAM : Z := 2.
Definition SOLIDSYSLOG_UDP_SENDER_ERROR_NULL_ADDRESS : Z := 3.
Definition SOLIDSYSLOG_UDP_SENDER_ERROR_NULL_ENDPOINT : Z := 4.
Definition SOLIDSYSLOG_UDP_SENDER_ERROR_SEND_NULL_BUFFER : Z := 5.
Definition SOLIDSYSLOG_UDP_SENDER_ERROR_POOL_EXHAUSTED : Z := 6.
Definition SOLIDSYSLOG_UDP_SENDER_ERROR_UNKNOWN_DESTROY : Z := 7.
Definition SOLIDSYSLOG_UDP_SENDER_ERROR_DELIVERY_FAILED : Z := 8.
Definition SOLIDSYSLOG_UDP_SENDER_ERROR_DELIVERY_RESTORED : Z := 9.
Definition SOLIDSYSLOG_UDP_SENDER_ERROR_RECORD_TOO_LARGE : Z := 10.
Definition SOLIDSYSLOG_UDP_SENDER_ERROR_MAX : Z := 11.

(** * Names *)

(** An array written with designated initializers. *)
Definition designated (entries : list (Z * bytes)) (i : Z) : option bytes :=
  match find (fun e => fst e =? i) entries with
  | Some e => Some (snd e)
  | None => None
  end.

Definition SolidSyslogErrorName_Lookup (names : Z -> option bytes) (count detail : Z) : option bytes :=
  if (0 <=? detail) && (detail <? count) then names detail else None.

Definition SolidSyslogAddressErrors_Name (detail : Z) : option bytes :=
  SolidSyslogErrorName_Lookup (designated
    [(SOLIDSYSLOG_ADDRESS_ERROR_POOL_EXHAUSTED, str "POOL_EXHAUSTED");
     (SOLIDSYSLOG_ADDRESS_ERROR_UNKNOWN_DESTROY, str "UNKNOWN_DESTROY")]) (SOLIDSYSLOG_ADDRESS_ERROR_MAX) detail.

Definition SolidSyslogAesGcmPolicyErrors_Name (detail : Z) : option bytes :=
  SolidSyslogErrorName_Lookup (designated
    [(SOLIDSYSLOG_AES_GCM_POLICY_ERROR_POOL_EXHAUSTED, str "POOL_EXHAUSTED");
     (SOLIDSYSLOG_AES_GCM_POLICY_ERROR_UNKNOWN_DESTROY, str "UNKNOWN_DESTROY");
     (SOLIDSYSLOG_AES_GCM_POLICY_ERROR_BAD_CONFIG, str "BAD_CONFIG");
     (SOLIDSYSLOG_AES_GCM_POLICY_ERROR_KEY_UNAVAILABLE, str "KEY_UNAVAILABLE");
     (SOLIDSYSLOG_AES_GCM_POLICY_ERROR_NONCE_FAILED, str "NONCE_FAILED");
     (SOLIDSYSLOG_AES_GCM_POLICY_ERROR_ENCRYPT_FAILED, str "ENCRYPT_FAILED");
     (SOLIDSYSLOG_AES_GCM_POLICY_ERROR_DECRYPT_FAILED, str "DECRYPT_FAILED")]) (SOLIDSYSLOG_AES_GCM_POLICY_ERROR_MAX) detail.

Definition SolidSyslogAtomicCounterErrors_Name (detail : Z) : option bytes :=
  SolidSyslogErrorName_Lookup (designated
    [(SOLIDSYSLOG_ATOMIC_COUNTER_ERROR_POOL_EXHAUSTED, str "POOL_EXHAUSTED");
     (SOLIDSYSLOG_ATOMIC_COUNTER_ERROR_UNKNOWN_DESTROY, str "UNKNOWN_DESTROY")]) (SOLIDSYSLOG_ATOMIC_COUNTER_ERROR_MAX) detail.

Definition SolidSyslogBlockStoreErrors_Name (detail : Z) : option bytes :=
  SolidSyslogErrorName_Lookup (designated
    [(SOLIDSYSLOG_BLOCK_STORE_ERROR_POOL_EXHAUSTED, str "POOL_EXHAUSTED");
     (SOLIDSYSLOG_BLOCK_STORE_ERROR_UNKNOWN_DESTROY, str "UNKNOWN_DESTROY");
     (SOLIDSYSLOG_BLOCK_STORE_ERROR_BLOCK_TOO_SMALL, str "BLOCK_TOO_SMALL");
     (SOLIDSYSLOG_BLOCK_STORE_ERROR_SEAL_FAILED, str "SEAL_FAILED");
     (SOLIDSYSLOG_BLOCK_STORE_ERROR_OPEN_FAILED, str "OPEN_FAILED");
     (SOLIDSYSLOG_BLOCK_STORE_ERROR_APPEND_FAILED, str "APPEND_FAILED");
     (SOLIDSYSLOG_BLOCK_STORE_ERROR_ROTATE_FAILED, str "ROTATE_FAILED");
     (SOLIDSYSLOG_BLOCK_STORE_ERROR_DISPOSE_FAILED, str "DISPOSE_FAILED");
     (SOLIDSYSLOG_BLOCK_STORE_ERROR_MARK_SENT_FAILED, str "MARK_SENT_FAILED");
     (SOLIDSYSLOG_BLOCK_STORE_ERROR_READ_FAILED, str "READ_FAILED");
     (SOLIDSYSLOG_BLOCK_STORE_ERROR_SIZE_FAILED, str "SIZE_FAILED");
     (SOLIDSYSLOG_BLOCK_STORE_ERROR_RECORD_REJECTED, str "RECORD_REJECTED");
     (SOLIDSYSLOG_BLOCK_STORE_ERROR_RECORD_CORRUPT, str "RECORD_CORRUPT");
     (SOLIDSYSLOG_BLOCK_STORE_ERROR_RECORD_REFUSED, str "RECORD_REFUSED");
     (SOLIDSYSLOG_BLOCK_STORE_ERROR_BLOCK_EVICTED, str "BLOCK_EVICTED");
     (SOLIDSYSLOG_BLOCK_STORE_ERROR_TRAILER_TOO_LARGE, str "TRAILER_TOO_LARGE");
     (SOLIDSYSLOG_BLOCK_STORE_ERROR_NULL_CONFIG, str "NULL_CONFIG");
     (SOLIDSYSLOG_BLOCK_STORE_ERROR_NULL_BLOCK_DEVICE, str "NULL_BLOCK_DEVICE");
     (SOLIDSYSLOG_BLOCK_STORE_ERROR_THRESHOLD_CROSSED, str "THRESHOLD_CROSSED")]) (SOLIDSYSLOG_BLOCK_STORE_ERROR_MAX) detail.

Definition SolidSyslogCircularBufferErrors_Name (detail : Z) : option bytes :=
  SolidSyslogErrorName_Lookup (designated
    [(SOLIDSYSLOG_CIRCULAR_BUFFER_ERROR_POOL_EXHAUSTED, str "POOL_EXHAUSTED");
     (SOLIDSYSLOG_CIRCULAR_BUFFER_ERROR_UNKNOWN_DESTROY, str "UNKNOWN_DESTROY");
     (SOLIDSYSLOG_CIRCULAR_BUFFER_ERROR_RECORD_TOO_LARGE, str "RECORD_TOO_LARGE");
     (SOLIDSYSLOG_CIRCULAR_BUFFER_ERROR_RECORD_REFUSED, str "RECORD_REFUSED");
     (SOLIDSYSLOG_CIRCULAR_BUFFER_ERROR_RECORD_EXCEEDS_MAX_MESSAGE_SIZE, str "RECORD_EXCEEDS_MAX_MESSAGE_SIZE");
     (SOLIDSYSLOG_CIRCULAR_BUFFER_ERROR_RECORDS_EVICTED, str "RECORDS_EVICTED");
     (SOLIDSYSLOG_CIRCULAR_BUFFER_ERROR_NULL_MUTEX, str "NULL_MUTEX");
     (SOLIDSYSLOG_CIRCULAR_BUFFER_ERROR_NULL_RING, str "NULL_RING")]) (SOLIDSYSLOG_CIRCULAR_BUFFER_ERROR_MAX) detail.

Definition SolidSyslogDatagramErrors_Name (detail : Z) : option bytes :=
  SolidSyslogErrorName_Lookup (designated
    [(SOLIDSYSLOG_DATAGRAM_ERROR_POOL_EXHAUSTED, str "POOL_EXHAUSTED");
     (SOLIDSYSLOG_DATAGRAM_ERROR_UNKNOWN_DESTROY, str "UNKNOWN_DESTROY");
     (SOLIDSYSLOG_DATAGRAM_ERROR_NEXT_HOP_UNRESOLVED, str "NEXT_HOP_UNRESOLVED");
     (SOLIDSYSLOG_DATAGRAM_ERROR_ALREADY_OPEN, str "ALREADY_OPEN")]) (SOLIDSYSLOG_DATAGRAM_ERROR_MAX) detail.

Definition SolidSyslogErrors_Name (detail : Z) : option bytes :=
  SolidSyslogErrorName_Lookup (designated
    [(SOLIDSYSLOG_ERROR_CREATE_NULL_CONFIG, str "CREATE_NULL_CONFIG");
     (SOLIDSYSLOG_ERROR_CREATE_NULL_BUFFER, str "CREATE_NULL_BUFFER");
     (SOLIDSYSLOG_ERROR_CREATE_NULL_SENDER, str "CREATE_NULL_SENDER");
     (SOLIDSYSLOG_ERROR_CREATE_NULL_STORE, str "CREATE_NULL_STORE");
     (SOLIDSYSLOG_ERROR_CREATE_INCONSISTENT_SD, str "CREATE_INCONSISTENT_SD");
     (SOLIDSYSLOG_ERROR_LOG_NULL_MESSAGE, str "LOG_NULL_MESSAGE");
     (SOLIDSYSLOG_ERROR_LOG_NULL_HANDLE, str "LOG_NULL_HANDLE");
     (SOLIDSYSLOG_ERROR_LOG_INCONSISTENT_SD, str "LOG_INCONSISTENT_SD");
     (SOLIDSYSLOG_ERROR_SERVICE_NULL_HANDLE, str "SERVICE_NULL_HANDLE");
     (SOLIDSYSLOG_ERROR_POOL_EXHAUSTED, str "POOL_EXHAUSTED");
     (SOLIDSYSLOG_ERROR_UNKNOWN_DESTROY, str "UNKNOWN_DESTROY");
     (SOLIDSYSLOG_ERROR_HELD_RECORD_DROPPED, str "HELD_RECORD_DROPPED");
     (SOLIDSYSLOG_ERROR_HALTED_STORE_REFUSED, str "HALTED_STORE_REFUSED");
     (SOLIDSYSLOG_ERROR_HALTED_BUFFER_FULL, str "HALTED_BUFFER_FULL")]) (SOLIDSYSLOG_ERROR_MAX) detail.

Definition SolidSyslogFileBlockDeviceErrors_Name (detail : Z) : option bytes :=
  SolidSyslogErrorName_Lookup (designated
    [(SOLIDSYSLOG_FILE_BLOCK_DEVICE_ERROR_POOL_EXHAUSTED, str "POOL_EXHAUSTED");
     (SOLIDSYSLOG_FILE_BLOCK_DEVICE_ERROR_UNKNOWN_DESTROY, str "UNKNOWN_DESTROY")]) (SOLIDSYSLOG_FILE_BLOCK_DEVICE_ERROR_MAX) detail.

Definition SolidSyslogFileErrors_Name (detail : Z) : option bytes :=
  SolidSyslogErrorName_Lookup (designated
    [(SOLIDSYSLOG_FILE_ERROR_POOL_EXHAUSTED, str "POOL_EXHAUSTED");
     (SOLIDSYSLOG_FILE_ERROR_UNKNOWN_DESTROY, str "UNKNOWN_DESTROY");
     (SOLIDSYSLOG_FILE_ERROR_NULL_FILESYSTEM, str "NULL_FILESYSTEM");
     (SOLIDSYSLOG_FILE_ERROR_BUFFER_TOO_SMALL, str "BUFFER_TOO_SMALL");
     (SOLIDSYSLOG_FILE_ERROR_OPEN_FAILED, str "OPEN_FAILED");
     (SOLIDSYSLOG_FILE_ERROR_WRITE_FAILED, str "WRITE_FAILED");
     (SOLIDSYSLOG_FILE_ERROR_SYNC_FAILED, str "SYNC_FAILED");
     (SOLIDSYSLOG_FILE_ERROR_COMMIT_FAILED, str "COMMIT_FAILED");
     (SOLIDSYSLOG_FILE_ERROR_READ_FAILED, str "READ_FAILED");
     (SOLIDSYSLOG_FILE_ERROR_SEEK_FAILED, str "SEEK_FAILED");
     (SOLIDSYSLOG_FILE_ERROR_SIZE_FAILED, str "SIZE_FAILED");
     (SOLIDSYSLOG_FILE_ERROR_TRUNCATE_FAILED, str "TRUNCATE_FAILED");
     (SOLIDSYSLOG_FILE_ERROR_CLOSE_FAILED, str "CLOSE_FAILED")]) (SOLIDSYSLOG_FILE_ERROR_MAX) detail.

Definition SolidSyslogHmacSha256PolicyErrors_Name (detail : Z) : option bytes :=
  SolidSyslogErrorName_Lookup (designated
    [(SOLIDSYSLOG_HMAC_SHA256_POLICY_ERROR_POOL_EXHAUSTED, str "POOL_EXHAUSTED");
     (SOLIDSYSLOG_HMAC_SHA256_POLICY_ERROR_UNKNOWN_DESTROY, str "UNKNOWN_DESTROY");
     (SOLIDSYSLOG_HMAC_SHA256_POLICY_ERROR_BAD_CONFIG, str "BAD_CONFIG");
     (SOLIDSYSLOG_HMAC_SHA256_POLICY_ERROR_KEY_UNAVAILABLE, str "KEY_UNAVAILABLE");
     (SOLIDSYSLOG_HMAC_SHA256_POLICY_ERROR_KEY_TOO_SHORT, str "KEY_TOO_SHORT");
     (SOLIDSYSLOG_HMAC_SHA256_POLICY_ERROR_HMAC_FAILED, str "HMAC_FAILED")]) (SOLIDSYSLOG_HMAC_SHA256_POLICY_ERROR_MAX) detail.

Definition SolidSyslogMetaSdErrors_Name (detail : Z) : option bytes :=
  SolidSyslogErrorName_Lookup (designated
    [(SOLIDSYSLOG_META_SD_ERROR_NULL_CONFIG, str "NULL_CONFIG");
     (SOLIDSYSLOG_META_SD_ERROR_NULL_COUNTER, str "NULL_COUNTER");
     (SOLIDSYSLOG_META_SD_ERROR_POOL_EXHAUSTED, str "POOL_EXHAUSTED");
     (SOLIDSYSLOG_META_SD_ERROR_UNKNOWN_DESTROY, str "UNKNOWN_DESTROY")]) (SOLIDSYSLOG_META_SD_ERROR_MAX) detail.

Definition SolidSyslogMutexErrors_Name (detail : Z) : option bytes :=
  SolidSyslogErrorName_Lookup (designated
    [(SOLIDSYSLOG_MUTEX_ERROR_POOL_EXHAUSTED, str "POOL_EXHAUSTED");
     (SOLIDSYSLOG_MUTEX_ERROR_UNKNOWN_DESTROY, str "UNKNOWN_DESTROY");
     (SOLIDSYSLOG_MUTEX_ERROR_CREATE_FAILED, str "CREATE_FAILED")]) (SOLIDSYSLOG_MUTEX_ERROR_MAX) detail.

Definition SolidSyslogOriginSdErrors_Name (detail : Z) : option bytes :=
  SolidSyslogErrorName_Lookup (designated
    [(SOLIDSYSLOG_ORIGIN_SD_ERROR_POOL_EXHAUSTED, str "POOL_EXHAUSTED");
     (SOLIDSYSLOG_ORIGIN_SD_ERROR_UNKNOWN_DESTROY, str "UNKNOWN_DESTROY")]) (SOLIDSYSLOG_ORIGIN_SD_ERROR_MAX) detail.

Definition SolidSyslogPassthroughBufferErrors_Name (detail : Z) : option bytes :=
  SolidSyslogErrorName_Lookup (designated
    [(SOLIDSYSLOG_PASSTHROUGH_BUFFER_ERROR_POOL_EXHAUSTED, str "POOL_EXHAUSTED");
     (SOLIDSYSLOG_PASSTHROUGH_BUFFER_ERROR_UNKNOWN_DESTROY, str "UNKNOWN_DESTROY");
     (SOLIDSYSLOG_PASSTHROUGH_BUFFER_ERROR_NULL_SENDER, str "NULL_SENDER")]) (SOLIDSYSLOG_PASSTHROUGH_BUFFER_ERROR_MAX) detail.

Definition SolidSyslogResolverErrors_Name (detail : Z) : option bytes :=
  SolidSyslogErrorName_Lookup (designated
    [(SOLIDSYSLOG_RESOLVER_ERROR_POOL_EXHAUSTED, str "POOL_EXHAUSTED");
     (SOLIDSYSLOG_RESOLVER_ERROR_UNKNOWN_DESTROY, str "UNKNOWN_DESTROY");
     (SOLIDSYSLOG_RESOLVER_ERROR_RESOLVE_TIMEOUT, str "RESOLVE_TIMEOUT");
     (SOLIDSYSLOG_RESOLVER_ERROR_NULL_CONFIG, str "NULL_CONFIG");
     (SOLIDSYSLOG_RESOLVER_ERROR_NULL_SLEEP, str "NULL_SLEEP");
     (SOLIDSYSLOG_RESOLVER_ERROR_ADDRESS_FAMILY_UNSUPPORTED, str "ADDRESS_FAMILY_UNSUPPORTED")]) (SOLIDSYSLOG_RESOLVER_ERROR_MAX) detail.

Definition SolidSyslogSharedScratchErrors_Name (detail : Z) : option bytes :=
  SolidSyslogErrorName_Lookup (designated
    [(SOLIDSYSLOG_SHARED_SCRATCH_ERROR_POOL_EXHAUSTED, str "POOL_EXHAUSTED");
     (SOLIDSYSLOG_SHARED_SCRATCH_ERROR_UNKNOWN_DESTROY, str "UNKNOWN_DESTROY");
     (SOLIDSYSLOG_SHARED_SCRATCH_ERROR_NULL_MUTEX, str "NULL_MUTEX")]) (SOLIDSYSLOG_SHARED_SCRATCH_ERROR_MAX) detail.

Definition SolidSyslogStreamSenderErrors_Name (detail : Z) : option bytes :=
  SolidSyslogErrorName_Lookup (designated
    [(SOLIDSYSLOG_STREAM_SENDER_ERROR_NULL_CONFIG, str "NULL_CONFIG");
     (SOLIDSYSLOG_STREAM_SENDER_ERROR_NULL_RESOLVER, str "NULL_RESOLVER");
     (SOLIDSYSLOG_STREAM_SENDER_ERROR_NULL_STREAM, str "NULL_STREAM");
     (SOLIDSYSLOG_STREAM_SENDER_ERROR_NULL_ADDRESS, str "NULL_ADDRESS");
     (SOLIDSYSLOG_STREAM_SENDER_ERROR_POOL_EXHAUSTED, str "POOL_EXHAUSTED");
     (SOLIDSYSLOG_STREAM_SENDER_ERROR_UNKNOWN_DESTROY, str "UNKNOWN_DESTROY");
     (SOLIDSYSLOG_STREAM_SENDER_ERROR_DELIVERY_FAILED, str "DELIVERY_FAILED");
     (SOLIDSYSLOG_STREAM_SENDER_ERROR_DELIVERY_RESTORED, str "DELIVERY_RESTORED")]) (SOLIDSYSLOG_STREAM_SENDER_ERROR_MAX) detail.

Definition SolidSyslogSwitchingSenderErrors_Name (detail : Z) : option bytes :=
  SolidSyslogErrorName_Lookup (designated
    [(SOLIDSYSLOG_SWITCHING_SENDER_ERROR_NULL_CONFIG, str "NULL_CONFIG");
     (SOLIDSYSLOG_SWITCHING_SENDER_ERROR_NULL_SENDERS, str "NULL_SENDERS");
     (SOLIDSYSLOG_SWITCHING_SENDER_ERROR_NULL_SELECTOR, str "NULL_SELECTOR");
     (SOLIDSYSLOG_SWITCHING_SENDER_ERROR_POOL_EXHAUSTED, str "POOL_EXHAUSTED");
     (SOLIDSYSLOG_SWITCHING_SENDER_ERROR_UNKNOWN_DESTROY, str "UNKNOWN_DESTROY");
     (SOLIDSYSLOG_SWITCHING_SENDER_ERROR_NULL_INNER_SENDER, str "NULL_INNER_SENDER");
     (SOLIDSYSLOG_SWITCHING_SENDER_ERROR_NO_SENDERS, str "NO_SENDERS");
     (SOLIDSYSLOG_SWITCHING_SENDER_ERROR_SELECTOR_OUT_OF_RANGE, str "SELECTOR_OUT_OF_RANGE")]) (SOLIDSYSLOG_SWITCHING_SENDER_ERROR_MAX) detail.

Definition SolidSyslogTcpStreamErrors_Name (detail : Z) : option bytes :=
  SolidSyslogErrorName_Lookup (designated
    [(SOLIDSYSLOG_TCP_STREAM_ERROR_POOL_EXHAUSTED, str "POOL_EXHAUSTED");
     (SOLIDSYSLOG_TCP_STREAM_ERROR_UNKNOWN_DESTROY, str "UNKNOWN_DESTROY");
     (SOLIDSYSLOG_TCP_STREAM_ERROR_NULL_CONFIG, str "NULL_CONFIG");
     (SOLIDSYSLOG_TCP_STREAM_ERROR_NULL_SLEEP, str "NULL_SLEEP");
     (SOLIDSYSLOG_TCP_STREAM_ERROR_ENDPOINT_UNAVAILABLE, str "ENDPOINT_UNAVAILABLE");
     (SOLIDSYSLOG_TCP_STREAM_ERROR_CONNECT_NOT_STARTED, str "CONNECT_NOT_STARTED");
     (SOLIDSYSLOG_TCP_STREAM_ERROR_CONNECT_REFUSED, str "CONNECT_REFUSED");
     (SOLIDSYSLOG_TCP_STREAM_ERROR_CONNECT_TIMED_OUT, str "CONNECT_TIMED_OUT");
     (SOLIDSYSLOG_TCP_STREAM_ERROR_SOCKET_OPTION_REFUSED, str "SOCKET_OPTION_REFUSED");
     (SOLIDSYSLOG_TCP_STREAM_ERROR_ALREADY_OPEN, str "ALREADY_OPEN")]) (SOLIDSYSLOG_TCP_STREAM_ERROR_MAX) detail.

Definition SolidSyslogTimeQualitySdErrors_Name (detail : Z) : option bytes :=
  SolidSyslogErrorName_Lookup (designated
    [(SOLIDSYSLOG_TIME_QUALITY_SD_ERROR_NULL_CALLBACK, str "NULL_CALLBACK");
     (SOLIDSYSLOG_TIME_QUALITY_SD_ERROR_POOL_EXHAUSTED, str "POOL_EXHAUSTED");
     (SOLIDSYSLOG_TIME_QUALITY_SD_ERROR_UNKNOWN_DESTROY, str "UNKNOWN_DESTROY")]) (SOLIDSYSLOG_TIME_QUALITY_SD_ERROR_MAX) detail.

Definition SolidSyslogTlsCredentialsErrors_Name (detail : Z) : option bytes :=
  SolidSyslogErrorName_Lookup (designated
    [(SOLIDSYSLOG_TLS_CREDENTIALS_ERROR_POOL_EXHAUSTED, str "POOL_EXHAUSTED");
     (SOLIDSYSLOG_TLS_CREDENTIALS_ERROR_UNKNOWN_DESTROY, str "UNKNOWN_DESTROY");
     (SOLIDSYSLOG_TLS_CREDENTIALS_ERROR_NULL_CONFIG, str "NULL_CONFIG");
     (SOLIDSYSLOG_TLS_CREDENTIALS_ERROR_NULL_RNG, str "NULL_RNG");
     (SOLIDSYSLOG_TLS_CREDENTIALS_ERROR_NULL_PEER_FINGERPRINT, str "NULL_PEER_FINGERPRINT");
     (SOLIDSYSLOG_TLS_CREDENTIALS_ERROR_ALREADY_IN_USE, str "ALREADY_IN_USE");
     (SOLIDSYSLOG_TLS_CREDENTIALS_ERROR_PEM_NOT_TERMINATED, str "PEM_NOT_TERMINATED");
     (SOLIDSYSLOG_TLS_CREDENTIALS_ERROR_TRUST_ANCHORS_NOT_LOADED, str "TRUST_ANCHORS_NOT_LOADED");
     (SOLIDSYSLOG_TLS_CREDENTIALS_ERROR_TRUST_ANCHORS_NOT_PARSED, str "TRUST_ANCHORS_NOT_PARSED");
     (SOLIDSYSLOG_TLS_CREDENTIALS_ERROR_CLIENT_CREDENTIAL_INCOMPLETE, str "CLIENT_CREDENTIAL_INCOMPLETE");
     (SOLIDSYSLOG_TLS_CREDENTIALS_ERROR_CLIENT_CREDENTIAL_NOT_PARSED, str "CLIENT_CREDENTIAL_NOT_PARSED");
     (SOLIDSYSLOG_TLS_CREDENTIALS_ERROR_CLIENT_CREDENTIAL_MISMATCHED, str "CLIENT_CREDENTIAL_MISMATCHED");
     (SOLIDSYSLOG_TLS_CREDENTIALS_ERROR_CLIENT_CREDENTIAL_NOT_INSTALLED, str "CLIENT_CREDENTIAL_NOT_INSTALLED")]) (SOLIDSYSLOG_TLS_CREDENTIALS_ERROR_MAX) detail.

Definition SolidSyslogTlsStreamErrors_Name (detail : Z) : option bytes :=
  SolidSyslogErrorName_Lookup (designated
    [(SOLIDSYSLOG_TLS_STREAM_ERROR_POOL_EXHAUSTED, str "POOL_EXHAUSTED");
     (SOLIDSYSLOG_TLS_STREAM_ERROR_UNKNOWN_DESTROY, str "UNKNOWN_DESTROY");
     (SOLIDSYSLOG_TLS_STREAM_ERROR_LIBRARY_OUT_OF_MEMORY, str "LIBRARY_OUT_OF_MEMORY");
     (SOLIDSYSLOG_TLS_STREAM_ERROR_NULL_CONFIG, str "NULL_CONFIG");
     (SOLIDSYSLOG_TLS_STREAM_ERROR_NULL_TRANSPORT, str "NULL_TRANSPORT");
     (SOLIDSYSLOG_TLS_STREAM_ERROR_NULL_SLEEP, str "NULL_SLEEP");
     (SOLIDSYSLOG_TLS_STREAM_ERROR_NULL_CREDENTIALS, str "NULL_CREDENTIALS");
     (SOLIDSYSLOG_TLS_STREAM_ERROR_NULL_RNG, str "NULL_RNG");
     (SOLIDSYSLOG_TLS_STREAM_ERROR_CONTEXT_INIT_FAILED, str "CONTEXT_INIT_FAILED");
     (SOLIDSYSLOG_TLS_STREAM_ERROR_DEFAULTS_NOT_APPLIED, str "DEFAULTS_NOT_APPLIED");
     (SOLIDSYSLOG_TLS_STREAM_ERROR_SESSION_INIT_FAILED, str "SESSION_INIT_FAILED");
     (SOLIDSYSLOG_TLS_STREAM_ERROR_SERVER_NAME_NOT_SET, str "SERVER_NAME_NOT_SET");
     (SOLIDSYSLOG_TLS_STREAM_ERROR_SERVER_NAME_NOT_APPLIED, str "SERVER_NAME_NOT_APPLIED");
     (SOLIDSYSLOG_TLS_STREAM_ERROR_NO_PEER_AUTHORISATION, str "NO_PEER_AUTHORISATION");
     (SOLIDSYSLOG_TLS_STREAM_ERROR_FINGERPRINT_MALFORMED, str "FINGERPRINT_MALFORMED");
     (SOLIDSYSLOG_TLS_STREAM_ERROR_FINGERPRINT_SHA1, str "FINGERPRINT_SHA1");
     (SOLIDSYSLOG_TLS_STREAM_ERROR_FINGERPRINT_DIGEST_UNAVAILABLE, str "FINGERPRINT_DIGEST_UNAVAILABLE");
     (SOLIDSYSLOG_TLS_STREAM_ERROR_CIPHER_POLICY_REJECTED, str "CIPHER_POLICY_REJECTED");
     (SOLIDSYSLOG_TLS_STREAM_ERROR_HANDSHAKE_REJECTED, str "HANDSHAKE_REJECTED");
     (SOLIDSYSLOG_TLS_STREAM_ERROR_HANDSHAKE_TIMEOUT, str "HANDSHAKE_TIMEOUT");
     (SOLIDSYSLOG_TLS_STREAM_ERROR_PEER_CERTIFICATE_UNTRUSTED, str "PEER_CERTIFICATE_UNTRUSTED");
     (SOLIDSYSLOG_TLS_STREAM_ERROR_PEER_NAME_MISMATCHED, str "PEER_NAME_MISMATCHED");
     (SOLIDSYSLOG_TLS_STREAM_ERROR_PEER_CERTIFICATE_EXPIRED, str "PEER_CERTIFICATE_EXPIRED");
     (SOLIDSYSLOG_TLS_STREAM_ERROR_PEER_CERTIFICATE_NOT_YET_VALID, str "PEER_CERTIFICATE_NOT_YET_VALID");
     (SOLIDSYSLOG_TLS_STREAM_ERROR_PEER_FINGERPRINT_MISMATCHED, str "PEER_FINGERPRINT_MISMATCHED");
     (SOLIDSYSLOG_TLS_STREAM_ERROR_ALREADY_OPEN, str "ALREADY_OPEN");
     (SOLIDSYSLOG_TLS_STREAM_ERROR_PINS_WITH_ANCHORS_UNSUPPORTED, str "PINS_WITH_ANCHORS_UNSUPPORTED")]) (SOLIDSYSLOG_TLS_STREAM_ERROR_MAX) detail.

Definition SolidSyslogUdpSenderErrors_Name (detail : Z) : option bytes :=
  SolidSyslogErrorName_Lookup (designated
    [(SOLIDSYSLOG_UDP_SENDER_ERROR_NULL_CONFIG, str "NULL_CONFIG");
     (SOLIDSYSLOG_UDP_SENDER_ERROR_NULL_RESOLVER, str "NULL_RESOLVER");
     (SOLIDSYSLOG_UDP_SENDER_ERROR_NULL_DATAGRAM, str "NULL_DATAGRAM");
     (SOLIDSYSLOG_UDP_SENDER_ERROR_NULL_ADDRESS, str "NULL_ADDRESS");
     (SOLIDSYSLOG_UDP_SENDER_ERROR_NULL_ENDPOINT, str "NULL_ENDPOINT");
     (SOLIDSYSLOG_UDP_SENDER_ERROR_SEND_NULL_BUFFER, str "SEND_NULL_BUFFER");
     (SOLIDSYSLOG_UDP_SENDER_ERROR_POOL_EXHAUSTED, str "POOL_EXHAUSTED");
     (SOLIDSYSLOG_UDP_SENDER_ERROR_UNKNOWN_DESTROY, str "UNKNOWN_DESTROY");
     (SOLIDSYSLOG_UDP_SENDER_ERROR_DELIVERY_FAILED, str "DELIVERY_FAILED");
     (SOLIDSYSLOG_UDP_SENDER_ERROR_DELIVERY_RESTORED, str "DELIVERY_RESTORED");
     (SOLIDSYSLOG_UDP_SENDER_ERROR_RECORD_TOO_LARGE, str "RECORD_TOO_LARGE")]) (SOLIDSYSLOG_UDP_SENDER_ERROR_MAX) detail.

Definition SolidSyslogSeverity_Name (severity : Z) : option bytes :=
  SolidSyslogErrorName_Lookup (designated
    [(SOLIDSYSLOG_SEVERITY_EMERGENCY, str "EMERGENCY");
     (SOLIDSYSLOG_SEVERITY_ALERT, str "ALERT");
     (SOLIDSYSLOG_SEVERITY_CRITICAL, str "CRITICAL");
     (SOLIDSYSLOG_SEVERITY_ERROR, str "ERROR");
     (SOLIDSYSLOG_SEVERITY_WARNING, str "WARNING");
     (SOLIDSYSLOG_SEVERITY_NOTICE, str "NOTICE");
     (SOLIDSYSLOG_SEVERITY_INFORMATIONAL, str "INFORMATIONAL");
     (SOLIDSYSLOG_SEVERITY_DEBUG, str "DEBUG")]) (SOLIDSYSLOG_SEVERITY_DEBUG + 1) severity.

(** The switch: the first label that matches, else NULL. *)
Definition SolidSyslogErrorCategory_Name (category : Z) : option bytes :=
  if category =? SOLIDSYSLOG_CAT_BAD_CONFIG then Some (str "BAD_CONFIG") else
  if category =? SOLIDSYSLOG_CAT_BAD_ARGUMENT then Some (str "BAD_ARGUMENT") else
  if category =? SOLIDSYSLOG_CAT_POOL_EXHAUSTED then Some (str "POOL_EXHAUSTED") else
  if category =? SOLIDSYSLOG_CAT_UNKNOWN_DESTROY then Some (str "UNKNOWN_DESTROY") else
  if category =? SOLIDSYSLOG_CAT_SENDER_DELIVERY_FAILED then Some (str "SENDER_DELIVERY_FAILED") else
  if category =? SOLIDSYSLOG_CAT_SENDER_DELIVERY_RESTORED then Some (str "SENDER_DELIVERY_RESTORED") else
  if category =? SOLIDSYSLOG_CAT_SENDER_RECORDS_LOST then Some (str "SENDER_RECORDS_LOST") else
  if category =? SOLIDSYSLOG_CAT_RESOLVER_RESOLVE_FAILED then Some (str "RESOLVER_RESOLVE_FAILED") else
  if category =? SOLIDSYSLOG_CAT_STREAM_CONNECT_FAILED then Some (str "STREAM_CONNECT_FAILED") else
  if category =? SOLIDSYSLOG_CAT_STREAM_OPTION_REFUSED then Some (str "STREAM_OPTION_REFUSED") else
  if category =? SOLIDSYSLOG_CAT_TLS_STREAM_INIT_FAILED then Some (str "TLS_STREAM_INIT_FAILED") else
  if category =? SOLIDSYSLOG_CAT_TLS_STREAM_HANDSHAKE_FAILED then Some (str "TLS_STREAM_HANDSHAKE_FAILED") else
  if category =? SOLIDSYSLOG_CAT_SECURITY_POLICY_KEY_UNAVAILABLE then Some (str "SECURITY_POLICY_KEY_UNAVAILABLE") else
  if category =? SOLIDSYSLOG_CAT_SECURITY_POLICY_SEAL_FAILED then Some (str "SECURITY_POLICY_SEAL_FAILED") else
  if category =? SOLIDSYSLOG_CAT_SECURITY_POLICY_OPEN_FAILED then Some (str "SECURITY_POLICY_OPEN_FAILED") else
  if category =? SOLIDSYSLOG_CAT_BUFFER_BACKEND_FAILED then Some (str "BUFFER_BACKEND_FAILED") else
  if category =? SOLIDSYSLOG_CAT_BUFFER_RECORDS_LOST then Some (str "BUFFER_RECORDS_LOST") else
  if category =? SOLIDSYSLOG_CAT_FILE_IO_FAILED then Some (str "FILE_IO_FAILED") else
  if category =? SOLIDSYSLOG_CAT_STORE_WRITE_FAILED then Some (str "STORE_WRITE_FAILED") else
  if category =? SOLIDSYSLOG_CAT_STORE_FROZEN then Some (str "STORE_FROZEN") else
  if category =? SOLIDSYSLOG_CAT_STORE_RECORD_DISCARDED then Some (str "STORE_RECORD_DISCARDED") else
  if category =? SOLIDSYSLOG_CAT_STORE_RECORDS_LOST then Some (str "STORE_RECORDS_LOST") else
  if category =? SOLIDSYSLOG_CAT_STORE_THRESHOLD_CROSSED then Some (str "STORE_THRESHOLD_CROSSED") else
  if category =? SOLIDSYSLOG_CAT_DATAGRAM_NEXT_HOP_UNRESOLVED then Some (str "DATAGRAM_NEXT_HOP_UNRESOLVED") else
  if category =? SOLIDSYSLOG_CAT_LOGGER_HALTED then Some (str "LOGGER_HALTED") else
  None.

(** * Sources and events *)

Record SolidSyslogErrorSource := mkErrorSource {
  es_Name : option bytes;
  es_DetailName : option (Z -> option bytes)
}.

Record SolidSyslogErrorEvent := mkErrorEvent {
  ev_Severity : Z;
  ev_Category : Z;
  ev_HasNativeCode : bool;
  ev_Source : option SolidSyslogErrorSource;
  ev_Detail : Z;
  ev_NativeCode : Z
}.
#[export] Instance settable_ErrorEvent : Settable SolidSyslogErrorEvent :=
  fun e => mkErrorEvent (ev_Severity e) (ev_Category e) (ev_HasNativeCode e) (ev_Source e) (ev_Detail e) (ev_NativeCode e).

Definition Error_EventHasNamedDetail (event : SolidSyslogErrorEvent) : bool :=
  match ev_Source event with
  | Some source => match es_DetailName source with Some _ => true | None => false end
  | None => false
  end.
Definition SolidSyslogErrorEvent_DetailName (event : SolidSyslogErrorEvent) : option bytes :=
  match ev_Source event with
  | Some source => match es_DetailName source with Some name => name (ev_Detail event) | None => None end
  | None => None
  end.

(** The event [SolidSyslog_Error] builds. *)
Definition error_event (severity : Z) (source : SolidSyslogErrorSource) (category detail : Z) : SolidSyslogErrorEvent :=
  mkErrorEvent severity category false (Some source) detail 0.

Definition SolidSyslogLoggerErrorSource : SolidSyslogErrorSource := mkErrorSource (Some (str "SolidSyslog")) (Some SolidSyslogErrors_Name).
Definition SolidSyslogBlockStoreErrorSource : SolidSyslogErrorSource := mkErrorSource (Some (str "BlockStore")) (Some SolidSyslogBlockStoreErrors_Name).
Definition SolidSyslogCircularBufferErrorSource : SolidSyslogErrorSource := mkErrorSource (Some (str "CircularBuffer")) (Some SolidSyslogCircularBufferErrors_Name).
Definition SolidSyslogFileBlockDeviceErrorSource : SolidSyslogErrorSource := mkErrorSource (Some (str "FileBlockDevice")) (Some SolidSyslogFileBlockDeviceErrors_Name).
Definition SolidSyslogMetaSdErrorSource : SolidSyslogErrorSource := mkErrorSource (Some (str "MetaSd")) (Some SolidSyslogMetaSdErrors_Name).
Definition SolidSyslogOriginSdErrorSource : SolidSyslogErrorSource := mkErrorSource (Some (str "OriginSd")) (Some SolidSyslogOriginSdErrors_Name).
Definition SolidSyslogPassthroughBufferErrorSource : SolidSyslogErrorSource := mkErrorSource (Some (str "PassthroughBuffer")) (Some SolidSyslogPassthroughBufferErrors_Name).
Definition SolidSyslogSharedScratchErrorSource : SolidSyslogErrorSource := mkErrorSource (Some (str "SharedScratch")) (Some SolidSyslogSharedScratchErrors_Name).
Definition SolidSyslogStreamSenderErrorSource : SolidSyslogErrorSource := mkErrorSource (Some (str "StreamSender")) (Some SolidSyslogStreamSenderErrors_Name).
Definition SolidSyslogSwitchingSenderErrorSource : SolidSyslogErrorSource := mkErrorSource (Some (str "SwitchingSender")) (Some SolidSyslogSwitchingSenderErrors_Name).
Definition SolidSyslogTimeQualitySdErrorSource : SolidSyslogErrorSource := mkErrorSource (Some (str "TimeQualitySd")) (Some SolidSyslogTimeQualitySdErrors_Name).
Definition SolidSyslogUdpSenderErrorSource : SolidSyslogErrorSource := mkErrorSource (Some (str "UdpSender")) (Some SolidSyslogUdpSenderErrors_Name).
Definition SolidSyslogOpenSslAesGcmPolicyErrorSource : SolidSyslogErrorSource := mkErrorSource (Some (str "OpenSslAesGcmPolicy")) (Some SolidSyslogAesGcmPolicyErrors_Name).
Definition SolidSyslogOpenSslHmacSha256PolicyErrorSource : SolidSyslogErrorSource := mkErrorSource (Some (str "OpenSslHmacSha256Policy")) (Some SolidSyslogHmacSha256PolicyErrors_Name).
Definition SolidSyslogMbedTlsAesGcmPolicyErrorSource : SolidSyslogErrorSource := mkErrorSource (Some (str "MbedTlsAesGcmPolicy")) (Some SolidSyslogAesGcmPolicyErrors_Name).
Definition SolidSyslogMbedTlsHmacSha256PolicyErrorSource : SolidSyslogErrorSource := mkErrorSource (Some (str "MbedTlsHmacSha256Policy")) (Some SolidSyslogHmacSha256PolicyErrors_Name).
Definition SolidSyslogWolfSslAesGcmPolicyErrorSource : SolidSyslogErrorSource := mkErrorSource (Some (str "WolfSslAesGcmPolicy")) (Some SolidSyslogAesGcmPolicyErrors_Name).
Definition SolidSyslogWolfSslHmacSha256PolicyErrorSource : SolidSyslogErrorSource := mkErrorSource (Some (str "WolfSslHmacSha256Policy")) (Some SolidSyslogHmacSha256PolicyErrors_Name).
Definition SolidSyslogCmsisRtosMutexErrorSource : SolidSyslogErrorSource := mkErrorSource (Some (str "CmsisRtosMutex")) (Some SolidSyslogMutexErrors_Name).
Definition SolidSyslogFatFsFileErrorSource : SolidSyslogErrorSource := mkErrorSource (Some (str "FatFsFile")) (Some SolidSyslogFileErrors_Name).
Definition SolidSyslogFreeRtosMutexErrorSource : SolidSyslogErrorSource := mkErrorSource (Some (str "FreeRtosMutex")) (Some SolidSyslogMutexErrors_Name).
Definition SolidSyslogLittleFsFileErrorSource : SolidSyslogErrorSource := mkErrorSource (Some (str "LittleFsFile")) (Some SolidSyslogFileErrors_Name).
Definition SolidSyslogLwipRawAddressErrorSource : SolidSyslogErrorSource := mkErrorSource (Some (str "LwipRawAddress")) (Some SolidSyslogAddressErrors_Name).
Definition SolidSyslogLwipRawDatagramErrorSource : SolidSyslogErrorSource := mkErrorSource (Some (str "LwipRawDatagram")) (Some SolidSyslogDatagramErrors_Name).
Definition SolidSyslogLwipRawDnsResolverErrorSource : SolidSyslogErrorSource := mkErrorSource (Some (str "LwipRawDnsResolver")) (Some SolidSyslogResolverErrors_Name).
Definition SolidSyslogLwipRawResolverErrorSource : SolidSyslogErrorSource := mkErrorSource (Some (str "LwipRawResolver")) (Some SolidSyslogResolverErrors_Name).
Definition SolidSyslogLwipRawTcpStreamErrorSource : SolidSyslogErrorSource := mkErrorSource (Some (str "LwipRawTcpStream")) (Some SolidSyslogTcpStreamErrors_Name).
Definition SolidSyslogLwipSocketAddressErrorSource : SolidSyslogErrorSource := mkErrorSource (Some (str "LwipSocketAddress")) (Some SolidSyslogAddressErrors_Name).
Definition SolidSyslogLwipSocketDatagramErrorSource : SolidSyslogErrorSource := mkErrorSource (Some (str "LwipSocketDatagram")) (Some SolidSyslogDatagramErrors_Name).
Definition SolidSyslogLwipSocketResolverErrorSource : SolidSyslogErrorSource := mkErrorSource (Some (str "LwipSocketResolver")) (Some SolidSyslogResolverErrors_Name).
Definition SolidSyslogLwipSocketTcpStreamErrorSource : SolidSyslogErrorSource := mkErrorSource (Some (str "LwipSocketTcpStream")) (Some SolidSyslogTcpStreamErrors_Name).
Definition SolidSyslogMbedTlsHandleCredentialsErrorSource : SolidSyslogErrorSource := mkErrorSource (Some (str "MbedTlsHandleCredentials")) (Some SolidSyslogTlsCredentialsErrors_Name).
Definition SolidSyslogMbedTlsPemBufferCredentialsErrorSource : SolidSyslogErrorSource := mkErrorSource (Some (str "MbedTlsPemBufferCredentials")) (Some SolidSyslogTlsCredentialsErrors_Name).
Definition SolidSyslogMbedTlsStreamErrorSource : SolidSyslogErrorSource := mkErrorSource (Some (str "MbedTlsStream")) (Some SolidSyslogTlsStreamErrors_Name).
Definition SolidSyslogOpenSslPemFileCredentialsErrorSource : SolidSyslogErrorSource := mkErrorSource (Some (str "OpenSslPemFileCredentials")) (Some SolidSyslogTlsCredentialsErrors_Name).
Definition SolidSyslogOpenSslStreamErrorSource : SolidSyslogErrorSource := mkErrorSource (Some (str "OpenSslStream")) (Some SolidSyslogTlsStreamErrors_Name).
Definition SolidSyslogPlusFatFileErrorSource : SolidSyslogErrorSource := mkErrorSource (Some (str "PlusFatFile")) (Some SolidSyslogFileErrors_Name).
Definition SolidSyslogPlusTcpAddressErrorSource : SolidSyslogErrorSource := mkErrorSource (Some (str "PlusTcpAddress")) (Some SolidSyslogAddressErrors_Name).
Definition SolidSyslogPlusTcpDatagramErrorSource : SolidSyslogErrorSource := mkErrorSource (Some (str "PlusTcpDatagram")) (Some SolidSyslogDatagramErrors_Name).
Definition SolidSyslogPlusTcpResolverErrorSource : SolidSyslogErrorSource := mkErrorSource (Some (str "PlusTcpResolver")) (Some SolidSyslogResolverErrors_Name).
Definition SolidSyslogPlusTcpTcpStreamErrorSource : SolidSyslogErrorSource := mkErrorSource (Some (str "PlusTcpTcpStream")) (Some SolidSyslogTcpStreamErrors_Name).
Definition SolidSyslogPosixAddressErrorSource : SolidSyslogErrorSource := mkErrorSource (Some (str "PosixAddress")) (Some SolidSyslogAddressErrors_Name).
Definition SolidSyslogPosixDatagramErrorSource : SolidSyslogErrorSource := mkErrorSource (Some (str "PosixDatagram")) (Some SolidSyslogDatagramErrors_Name).
Definition SolidSyslogPosixFileErrorSource : SolidSyslogErrorSource := mkErrorSource (Some (str "PosixFile")) (Some SolidSyslogFileErrors_Name).
Definition SolidSyslogPosixMutexErrorSource : SolidSyslogErrorSource := mkErrorSource (Some (str "PosixMutex")) (Some SolidSyslogMutexErrors_Name).
Definition SolidSyslogPosixResolverErrorSource : SolidSyslogErrorSource := mkErrorSource (Some (str "PosixResolver")) (Some SolidSyslogResolverErrors_Name).
Definition SolidSyslogPosixTcpStreamErrorSource : SolidSyslogErrorSource := mkErrorSource (Some (str "PosixTcpStream")) (Some SolidSyslogTcpStreamErrors_Name).
Definition SolidSyslogStdAtomicCounterErrorSource : SolidSyslogErrorSource := mkErrorSource (Some (str "StdAtomicCounter")) (Some SolidSyslogAtomicCounterErrors_Name).
Definition SolidSyslogVxWorks64AddressErrorSource : SolidSyslogErrorSource := mkErrorSource (Some (str "VxWorks64Address")) (Some SolidSyslogAddressErrors_Name).
Definition SolidSyslogVxWorks64AtomicCounterErrorSource : SolidSyslogErrorSource := mkErrorSource (Some (str "VxWorks64AtomicCounter")) (Some SolidSyslogAtomicCounterErrors_Name).
Definition SolidSyslogVxWorks64DatagramErrorSource : SolidSyslogErrorSource := mkErrorSource (Some (str "VxWorks64Datagram")) (Some SolidSyslogDatagramErrors_Name).
Definition SolidSyslogVxWorks64FileErrorSource : SolidSyslogErrorSource := mkErrorSource (Some (str "VxWorks64File")) (Some SolidSyslogFileErrors_Name).
Definition SolidSyslogVxWorks64MutexErrorSource : SolidSyslogErrorSource := mkErrorSource (Some (str "VxWorks64Mutex")) (Some SolidSyslogMutexErrors_Name).
Definition SolidSyslogVxWorks64ResolverErrorSource : SolidSyslogErrorSource := mkErrorSource (Some (str "VxWorks64Resolver")) (Some SolidSyslogResolverErrors_Name).
Definition SolidSyslogVxWorks64TcpStreamErrorSource : SolidSyslogErrorSource := mkErrorSource (Some (str "VxWorks64TcpStream")) (Some SolidSyslogTcpStreamErrors_Name).
Definition SolidSyslogWindowsAtomicCounterErrorSource : SolidSyslogErrorSource := mkErrorSource (Some (str "WindowsAtomicCounter")) (Some SolidSyslogAtomicCounterErrors_Name).
Definition SolidSyslogWindowsFileErrorSource : SolidSyslogErrorSource := mkErrorSource (Some (str "WindowsFile")) (Some SolidSyslogFileErrors_Name).
Definition SolidSyslogWindowsMutexErrorSource : SolidSyslogErrorSource := mkErrorSource (Some (str "WindowsMutex")) (Some SolidSyslogMutexErrors_Name).
Definition SolidSyslogWinsockAddressErrorSource : SolidSyslogErrorSource := mkErrorSource (Some (str "WinsockAddress")) (Some SolidSyslogAddressErrors_Name).
Definition SolidSyslogWinsockDatagramErrorSource : SolidSyslogErrorSource := mkErrorSource (Some (str "WinsockDatagram")) (Some SolidSyslogDatagramErrors_Name).
Definition SolidSyslogWinsockResolverErrorSource : SolidSyslogErrorSource := mkErrorSource (Some (str "WinsockResolver")) (Some SolidSyslogResolverErrors_Name).
Definition SolidSyslogWinsockTcpStreamErrorSource : SolidSyslogErrorSource := mkErrorSource (Some (str "WinsockTcpStream")) (Some SolidSyslogTcpStreamErrors_Name).
Definition SolidSyslogWolfSslPemBufferCredentialsErrorSource : SolidSyslogErrorSource := mkErrorSource (Some (str "WolfSslPemBufferCredentials")) (Some SolidSyslogTlsCredentialsErrors_Name).
Definition SolidSyslogWolfSslStreamErrorSource : SolidSyslogErrorSource := mkErrorSource (Some (str "WolfSslStream")) (Some SolidSyslogTlsStreamErrors_Name).

(** * Properties *)

(** Every name function, with the number of its codes. *)
Definition vocabularies : list ((Z -> option bytes) * Z) :=
  [(SolidSyslogAddressErrors_Name, SOLIDSYSLOG_ADDRESS_ERROR_MAX);
   (SolidSyslogAesGcmPolicyErrors_Name, SOLIDSYSLOG_AES_GCM_POLICY_ERROR_MAX);
   (SolidSyslogAtomicCounterErrors_Name, SOLIDSYSLOG_ATOMIC_COUNTER_ERROR_MAX);
   (SolidSyslogBlockStoreErrors_Name, SOLIDSYSLOG_BLOCK_STORE_ERROR_MAX);
   (SolidSyslogCircularBufferErrors_Name, SOLIDSYSLOG_CIRCULAR_BUFFER_ERROR_MAX);
   (SolidSyslogDatagramErrors_Name, SOLIDSYSLOG_DATAGRAM_ERROR_MAX);
   (SolidSyslogErrors_Name, SOLIDSYSLOG_ERROR_MAX);
   (SolidSyslogFileBlockDeviceErrors_Name, SOLIDSYSLOG_FILE_BLOCK_DEVICE_ERROR_MAX);
   (SolidSyslogFileErrors_Name, SOLIDSYSLOG_FILE_ERROR_MAX);
   (SolidSyslogHmacSha256PolicyErrors_Name, SOLIDSYSLOG_HMAC_SHA256_POLICY_ERROR_MAX);
   (SolidSyslogMetaSdErrors_Name, SOLIDSYSLOG_META_SD_ERROR_MAX);
   (SolidSyslogMutexErrors_Name, SOLIDSYSLOG_MUTEX_ERROR_MAX);
   (SolidSyslogOriginSdErrors_Name, SOLIDSYSLOG_ORIGIN_SD_ERROR_MAX);
   (SolidSyslogPassthroughBufferErrors_Name, SOLIDSYSLOG_PASSTHROUGH_BUFFER_ERROR_MAX);
   (SolidSyslogResolverErrors_Name, SOLIDSYSLOG_RESOLVER_ERROR_MAX);
   (SolidSyslogSharedScratchErrors_Name, SOLIDSYSLOG_SHARED_SCRATCH_ERROR_MAX);
   (SolidSyslogStreamSenderErrors_Name, SOLIDSYSLOG_STREAM_SENDER_ERROR_MAX);
   (SolidSyslogSwitchingSenderErrors_Name, SOLIDSYSLOG_SWITCHING_SENDER_ERROR_MAX);
   (SolidSyslogTcpStreamErrors_Name, SOLIDSYSLOG_TCP_STREAM_ERROR_MAX);
   (SolidSyslogTimeQualitySdErrors_Name, SOLIDSYSLOG_TIME_QUALITY_SD_ERROR_MAX);
   (SolidSyslogTlsCredentialsErrors_Name, SOLIDSYSLOG_TLS_CREDENTIALS_ERROR_MAX);
   (SolidSyslogTlsStreamErrors_Name, SOLIDSYSLOG_TLS_STREAM_ERROR_MAX);
   (SolidSyslogUdpSenderErrors_Name, SOLIDSYSLOG_UDP_SENDER_ERROR_MAX);
   (SolidSyslogSeverity_Name, SOLIDSYSLOG_SEVERITY_DEBUG + 1)].
Definition category_codes : list Z :=
  [SOLIDSYSLOG_CAT_BAD_CONFIG; SOLIDSYSLOG_CAT_BAD_ARGUMENT; SOLIDSYSLOG_CAT_POOL_EXHAUSTED; SOLIDSYSLOG_CAT_UNKNOWN_DESTROY; SOLIDSYSLOG_CAT_SENDER_DELIVERY_FAILED; SOLIDSYSLOG_CAT_SENDER_DELIVERY_RESTORED; SOLIDSYSLOG_CAT_SENDER_RECORDS_LOST; SOLIDSYSLOG_CAT_RESOLVER_RESOLVE_FAILED; SOLIDSYSLOG_CAT_STREAM_CONNECT_FAILED; SOLIDSYSLOG_CAT_STREAM_OPTION_REFUSED; SOLIDSYSLOG_CAT_TLS_STREAM_INIT_FAILED; SOLIDSYSLOG_CAT_TLS_STREAM_HANDSHAKE_FAILED; SOLIDSYSLOG_CAT_SECURITY_POLICY_KEY_UNAVAILABLE; SOLIDSYSLOG_CAT_SECURITY_POLICY_SEAL_FAILED; SOLIDSYSLOG_CAT_SECURITY_POLICY_OPEN_FAILED; SOLIDSYSLOG_CAT_BUFFER_BACKEND_FAILED; SOLIDSYSLOG_CAT_BUFFER_RECORDS_LOST; SOLIDSYSLOG_CAT_FILE_IO_FAILED; SOLIDSYSLOG_CAT_STORE_WRITE_FAILED; SOLIDSYSLOG_CAT_STORE_FROZEN; SOLIDSYSLOG_CAT_STORE_RECORD_DISCARDED; SOLIDSYSLOG_CAT_STORE_RECORDS_LOST; SOLIDSYSLOG_CAT_STORE_THRESHOLD_CROSSED; SOLIDSYSLOG_CAT_DATAGRAM_NEXT_HOP_UNRESOLVED; SOLIDSYSLOG_CAT_LOGGER_HALTED].

(** All names of a list of codes are there and differ. *)
Definition names_distinct (name : Z -> option bytes) (codes : list Z) : bool :=
  bool_decide (NoDup (map name codes)) && forallb (fun c => match name c with Some _ => true | None => false end) codes.

Lemma names_distinct_spec name codes :
  names_distinct name codes = true ->
  (forall c, In c codes -> exists n, name c = Some n) /\
  (forall c c' n, In c codes -> In c' codes -> name c = Some n -> name c' = Some n -> c = c').
Proof.
  unfold names_distinct. intros [Hnd Hall]%andb_prop.
  apply bool_decide_eq_true in Hnd. rewrite forallb_forall in Hall. split.
  - intros c Hc. specialize (Hall c Hc). destruct (name c) as [n |]; [by exists n | done].
  - clear Hall. intros c c' n. induction codes as [|x codes IH]; [done |].
    inversion Hnd as [| ? ? Hx Hnd']; subst. specialize (IH Hnd').
    assert (Hmap : forall y m, In y codes -> name y = Some m -> Some m ∈ map name codes).
    { intros y m Hy <-. apply list_elem_of_In, in_map, Hy. }
    intros [-> | Hc] [-> | Hc'] E E'; [done | | | auto].
    + exfalso. apply Hx. rewrite E. by apply (Hmap c').
    + exfalso. apply Hx. rewrite E'. by apply (Hmap c).
Qed.

Lemma Lookup_outside names count d : ~ 0 <= d < count -> SolidSyslogErrorName_Lookup names count d = None.
Proof.
  intros H. unfold SolidSyslogErrorName_Lookup. destruct (_ && _) eqn:E; [| done].
  exfalso. apply H. lia.
Qed.

Definition codes_below (n : Z) : list Z := map Z.of_nat (seq 0 (Z.to_nat n)).
Lemma codes_below_spec n c : In c (codes_below n) <-> 0 <= c < n.
Proof.
  unfold codes_below. rewrite in_map_iff. split.
  - intros (k & <- & Hk). apply in_seq in Hk. lia.
  - intros Hc. exists (Z.to_nat c). split; [lia |]. apply in_seq. lia.
Qed.

(** Names identify faults: in every detail vocabulary each code below the
    enum's last has a name, no two codes share one, and a code outside the enum
    has none; likewise for the categories, so that the pair of names a handler or
    the logger's own event prints determines the pair of codes. *)
Theorem error_names_identify :
  (forall name count, In (name, count) vocabularies ->
     (forall d, 0 <= d < count -> exists n, name d = Some n) /\
     (forall d d' n, name d = Some n -> name d' = Some n -> d = d') /\
     (forall d, ~ 0 <= d < count -> name d = None)) /\
  (forall c, (exists n, SolidSyslogErrorCategory_Name c = Some n) <-> In c category_codes) /\
  (forall c c' n, SolidSyslogErrorCategory_Name c = Some n -> SolidSyslogErrorCategory_Name c' = Some n -> c = c').
Proof.
  assert (Hcat : forall c n, SolidSyslogErrorCategory_Name c = Some n -> In c category_codes).
  { intros c n. unfold SolidSyslogErrorCategory_Name.
    repeat match goal with
    | |- context [c =? ?k] => destruct (Z.eqb_spec c k) as [-> |]; [intros _; repeat (first [left; reflexivity | right]) |]
    end. done. }
  destruct (names_distinct_spec SolidSyslogErrorCategory_Name category_codes) as [Hc1 Hc2]; [by vm_compute |].
  split; [| split].
  - intros name count Hin.
    assert (Hok : names_distinct name (codes_below count) = true).
    { assert (H : forallb (fun v => names_distinct (fst v) (codes_below (snd v))) vocabularies = true) by (by vm_compute).
      rewrite forallb_forall in H. exact (H (name, count) Hin). }
    assert (Hnone : forall d, ~ 0 <= d < count -> name d = None).
    { intros d Hd. clear Hok. unfold vocabularies in Hin.
      repeat (destruct Hin as [[= <- <-] | Hin]; [apply Lookup_outside, Hd |]). done. }
    destruct (names_distinct_spec _ _ Hok) as [H1 H2]. split; [| split; [| done]].
    + intros d Hd. by apply H1, codes_below_spec.
    + intros d d' n E E'. destruct (decide (0 <= d < count)) as [Hd | Hd]; [| by rewrite Hnone in E].
      destruct (decide (0 <= d' < count)) as [Hd' | Hd']; [| by rewrite Hnone in E'].
      apply (H2 d d' n); try done; by apply codes_below_spec.
  - intros c. split; [intros [n E]; by eapply Hcat | apply Hc1].
  - intros c c' n E E'. eapply Hc2; eauto.
Qed.
