(* ===== verification/PendingEvents.v ===== *)
(** The error tap ([SolidSyslogError.c], [SolidSyslogPendingEvents.c]): every fault
    is handed to the installed handler and, when its category is one of the sixteen
    reported kinds, recorded in that kind's slot until the logger takes it.  Besides
    the sequential behaviour, the stores of a recording and the steps of a taking
    are modelled one by one, since they run on different tasks. *)
From S2P Require Import Prelude Errors.

(** * Slots *)

Definition SOLIDSYSLOG_PENDING_EVENT_KIND_COUNT : Z := 16.

Record PendingEventSlot := mkPendingEventSlot {
  pe_Source : option SolidSyslogErrorSource;
  pe_Detail : Z;
  pe_NativeCode : Z;
  pe_SeverityCode : Z;
  pe_HasNativeCode : bool;
  pe_Pending : bool
}.
#[export] Instance settable_PendingEventSlot : Settable PendingEventSlot :=
  fun s => mkPendingEventSlot (pe_Source s) (pe_Detail s) (pe_NativeCode s) (pe_SeverityCode s)
    (pe_HasNativeCode s) (pe_Pending s).

Record PendingEventKind := mkPendingEventKind { pk_Category : Z; pk_Severity : Z }.

Definition PendingEvents_Kinds : list PendingEventKind :=
  [mkPendingEventKind SOLIDSYSLOG_CAT_FILE_IO_FAILED SOLIDSYSLOG_SEVERITY_ERROR;
   mkPendingEventKind SOLIDSYSLOG_CAT_SECURITY_POLICY_KEY_UNAVAILABLE SOLIDSYSLOG_SEVERITY_ERROR;
   mkPendingEventKind SOLIDSYSLOG_CAT_SECURITY_POLICY_SEAL_FAILED SOLIDSYSLOG_SEVERITY_ERROR;
   mkPendingEventKind SOLIDSYSLOG_CAT_SECURITY_POLICY_OPEN_FAILED SOLIDSYSLOG_SEVERITY_ERROR;
   mkPendingEventKind SOLIDSYSLOG_CAT_TLS_STREAM_HANDSHAKE_FAILED SOLIDSYSLOG_SEVERITY_WARNING;
   mkPendingEventKind SOLIDSYSLOG_CAT_BUFFER_BACKEND_FAILED SOLIDSYSLOG_SEVERITY_ERROR;
   mkPendingEventKind SOLIDSYSLOG_CAT_BUFFER_RECORDS_LOST SOLIDSYSLOG_SEVERITY_WARNING;
   mkPendingEventKind SOLIDSYSLOG_CAT_STORE_THRESHOLD_CROSSED SOLIDSYSLOG_SEVERITY_WARNING;
   mkPendingEventKind SOLIDSYSLOG_CAT_STORE_RECORDS_LOST SOLIDSYSLOG_SEVERITY_WARNING;
   mkPendingEventKind SOLIDSYSLOG_CAT_STORE_RECORD_DISCARDED SOLIDSYSLOG_SEVERITY_ERROR;
   mkPendingEventKind SOLIDSYSLOG_CAT_STORE_WRITE_FAILED SOLIDSYSLOG_SEVERITY_ERROR;
   mkPendingEventKind SOLIDSYSLOG_CAT_STORE_FROZEN SOLIDSYSLOG_SEVERITY_ERROR;
   mkPendingEventKind SOLIDSYSLOG_CAT_SENDER_RECORDS_LOST SOLIDSYSLOG_SEVERITY_ERROR;
   mkPendingEventKind SOLIDSYSLOG_CAT_LOGGER_HALTED SOLIDSYSLOG_SEVERITY_ERROR;
   mkPendingEventKind SOLIDSYSLOG_CAT_SENDER_DELIVERY_FAILED SOLIDSYSLOG_SEVERITY_WARNING;
   mkPendingEventKind SOLIDSYSLOG_CAT_SENDER_DELIVERY_RESTORED SOLIDSYSLOG_SEVERITY_NOTICE].

Definition PendingEvents_Severities : list Z :=
  [SOLIDSYSLOG_SEVERITY_EMERGENCY; SOLIDSYSLOG_SEVERITY_ALERT; SOLIDSYSLOG_SEVERITY_CRITICAL;
   SOLIDSYSLOG_SEVERITY_ERROR; SOLIDSYSLOG_SEVERITY_WARNING; SOLIDSYSLOG_SEVERITY_NOTICE;
   SOLIDSYSLOG_SEVERITY_INFORMATIONAL; SOLIDSYSLOG_SEVERITY_DEBUG].

(** The static table, and an entry of it or of the kinds. *)
Definition pending_slots := list PendingEventSlot.
Definition initial_slot : PendingEventSlot := mkPendingEventSlot None 0 0 0 false false.
Definition initial_slots : pending_slots := repeat initial_slot (Z.to_nat SOLIDSYSLOG_PENDING_EVENT_KIND_COUNT).
Definition slot_at (slots : pending_slots) (index : Z) : PendingEventSlot :=
  nth (Z.to_nat index) slots initial_slot.
Definition kind_at (index : Z) : PendingEventKind :=
  nth (Z.to_nat index) PendingEvents_Kinds (mkPendingEventKind 0 0).

Definition PendingEvents_IndexOf (category : Z) : Z :=
  for_range 0 SOLIDSYSLOG_PENDING_EVENT_KIND_COUNT
    (fun index found =>
       if found =? SOLIDSYSLOG_PENDING_EVENT_KIND_COUNT
       then if pk_Category (kind_at index) =? category then index else found
       else found)
    SOLIDSYSLOG_PENDING_EVENT_KIND_COUNT.

Definition PendingEvents_SeverityCode (severity : Z) : Z :=
  let severityCount := lenZ PendingEvents_Severities in
  for_range 0 severityCount
    (fun position code => if PendingEvents_Severities.[position] =? severity then u8 (position + 1) else code) 0.

Definition PendingEvents_SeverityOf (kind : PendingEventKind) (code : Z) : Z :=
  if 0 <? code then PendingEvents_Severities.[code - 1] else pk_Severity kind.

(** The stores of a recording, in their order. *)
Definition Record_stores (event : SolidSyslogErrorEvent) : list (PendingEventSlot -> PendingEventSlot) :=
  [fun s : PendingEventSlot => s <| pe_SeverityCode := PendingEvents_SeverityCode (ev_Severity event) |>;
   fun s : PendingEventSlot => s <| pe_Source := ev_Source event |>;
   fun s : PendingEventSlot => s <| pe_Detail := ev_Detail event |>;
   fun s : PendingEventSlot => s <| pe_NativeCode := ev_NativeCode event |>;
   fun s : PendingEventSlot => s <| pe_HasNativeCode := ev_HasNativeCode event |>;
   fun s : PendingEventSlot => s <| pe_Pending := true |>].

Definition SolidSyslogPendingEvents_Record (event : SolidSyslogErrorEvent) (slots : pending_slots) : pending_slots :=
  let index := PendingEvents_IndexOf (ev_Category event) in
  if index <? SOLIDSYSLOG_PENDING_EVENT_KIND_COUNT
  then updZ slots index (fold_left (fun s store => store s) (Record_stores event) (slot_at slots index))
  else slots.

Definition SolidSyslogPendingEvents_IsPending (index : Z) (slots : pending_slots) : bool :=
  if index <? SOLIDSYSLOG_PENDING_EVENT_KIND_COUNT then pe_Pending (slot_at slots index) else false.

Definition SolidSyslogPendingEvents_AnyPending (slots : pending_slots) : bool :=
  for_range 0 SOLIDSYSLOG_PENDING_EVENT_KIND_COUNT
    (fun index (pending : bool) => if pending then pending else pe_Pending (slot_at slots index)) false.

(** What a taking has gathered so far: [wasPending] and the caller's event. *)
Definition take_local : Type := bool * SolidSyslogErrorEvent.
Definition take_step : Type := PendingEventSlot * take_local -> PendingEventSlot * take_local.
Definition copy_step (copy : PendingEventSlot -> SolidSyslogErrorEvent -> SolidSyslogErrorEvent) : take_step :=
  fun st => (fst st, (fst (snd st), copy (fst st) (snd (snd st)))).
Definition Take_steps (index : Z) : list take_step :=
  [fun st : PendingEventSlot * take_local => (fst st, (pe_Pending (fst st), snd (snd st)));
   fun st : PendingEventSlot * take_local => ((fst st) <| pe_Pending := false |>, snd st);
   copy_step (fun s (e : SolidSyslogErrorEvent) => e <| ev_Severity := PendingEvents_SeverityOf (kind_at index) (pe_SeverityCode s) |>);
   copy_step (fun s (e : SolidSyslogErrorEvent) => e <| ev_Category := pk_Category (kind_at index) |>);
   copy_step (fun s (e : SolidSyslogErrorEvent) => e <| ev_HasNativeCode := pe_HasNativeCode s |>);
   copy_step (fun s (e : SolidSyslogErrorEvent) => e <| ev_Source := pe_Source s |>);
   copy_step (fun s (e : SolidSyslogErrorEvent) => e <| ev_Detail := pe_Detail s |>);
   copy_step (fun s (e : SolidSyslogErrorEvent) => e <| ev_NativeCode := pe_NativeCode s |>)].

(** Returns [wasPending] and the event, with the table it leaves. *)
Definition SolidSyslogPendingEvents_Take (index : Z) (event : SolidSyslogErrorEvent) (slots : pending_slots)
    : (bool * SolidSyslogErrorEvent) * pending_slots :=
  if index <? SOLIDSYSLOG_PENDING_EVENT_KIND_COUNT
  then let '(slot, l) := fold_left (fun s step => step s) (Take_steps index) (slot_at slots index, (false, event)) in
       (l, updZ slots index slot)
  else ((false, event), slots).

Definition SolidSyslogPendingEvents_Clear (slots : pending_slots) : pending_slots :=
  for_range 0 SOLIDSYSLOG_PENDING_EVENT_KIND_COUNT
    (fun index slots => updZ slots index ((slot_at slots index) <| pe_Pending := false |> <| pe_SeverityCode := 0 |>)) slots.

(** * Emitting *)

(** The handler slot: the built-in no-op or the integrator's, with its context.
    The handler itself is the integrator's; what it is called with is recorded. *)
Inductive error_handler := Error_NoOpErrorHandler | InstalledHandler (handler : Z).

Record ErrorState := mkErrorState {
  er_currentHandler : error_handler;
  er_currentContext : option Z;
  er_slots : pending_slots;
  er_handled : list (Z * option Z * SolidSyslogErrorEvent)
}.
#[export] Instance settable_ErrorState : Settable ErrorState :=
  fun s => mkErrorState (er_currentHandler s) (er_currentContext s) (er_slots s) (er_handled s).

Definition initial_error_state : ErrorState := mkErrorState Error_NoOpErrorHandler None initial_slots [].

Definition SolidSyslog_SetErrorHandler (handler context : option Z) (st : ErrorState) : ErrorState :=
  st <| er_currentHandler := match handler with None => Error_NoOpErrorHandler | Some h => InstalledHandler h end |>
     <| er_currentContext := context |>.

Definition call_handler (event : SolidSyslogErrorEvent) (st : ErrorState) : ErrorState :=
  match er_currentHandler st with
  | Error_NoOpErrorHandler => st
  | InstalledHandler h => st <| er_handled := er_handled st ++ [(h, er_currentContext st, event)] |>
  end.

Definition emit_event (event : SolidSyslogErrorEvent) (st : ErrorState) : ErrorState :=
  let st := call_handler event st in
  st <| er_slots := SolidSyslogPendingEvents_Record event (er_slots st) |>.

Definition SolidSyslog_Error (severity : Z) (source : option SolidSyslogErrorSource) (category detail : Z) (st : ErrorState) : ErrorState :=
  emit_event (mkErrorEvent severity category false source detail 0) st.

Definition SolidSyslog_ErrorWithNativeCode (severity : Z) (source : option SolidSyslogErrorSource)
    (category detail nativeCode : Z) (st : ErrorState) : ErrorState :=
  emit_event (mkErrorEvent severity category true source detail nativeCode) st.

(** The tap as part of a larger state [E]: the handler is the integrator's code and
    may do to that state what it will, logging included; the table is the library's. *)
Class ErrorTap (E : Type) := {
  tap_Handler : SolidSyslogErrorEvent -> E -> E;
  tap_Slots : E -> pending_slots;
  tap_SetSlots : pending_slots -> E -> E
}.
Definition tap_emit {E} `{ErrorTap E} (event : SolidSyslogErrorEvent) (e : E) : E :=
  let e := tap_Handler event e in
  tap_SetSlots (SolidSyslogPendingEvents_Record event (tap_Slots e)) e.
Definition tap_error {E} `{ErrorTap E} (severity : Z) (source : option SolidSyslogErrorSource) (category detail : Z) (e : E) : E :=
  tap_emit (mkErrorEvent severity category false source detail 0) e.
#[export] Instance ErrorState_tap : ErrorTap ErrorState := {
  tap_Handler := call_handler;
  tap_Slots := er_slots;
  tap_SetSlots := fun slots st => st <| er_slots := slots |>
}.
Lemma tap_error_ErrorState severity source category detail (st : ErrorState) :
  tap_error severity source category detail st = SolidSyslog_Error severity source category detail st.
Proof. done. Qed.

(** * The table *)

(** The sixteen categories differ. *)
Lemma kinds_distinct i j :
  0 <= i < SOLIDSYSLOG_PENDING_EVENT_KIND_COUNT -> 0 <= j < SOLIDSYSLOG_PENDING_EVENT_KIND_COUNT ->
  pk_Category (kind_at i) = pk_Category (kind_at j) -> i = j.
Proof.
  unfold SOLIDSYSLOG_PENDING_EVENT_KIND_COUNT. intros Hi Hj.
  assert (H : forallb (fun i => forallb (fun j => implb (pk_Category (kind_at i) =? pk_Category (kind_at j)) (i =? j))
    (codes_below 16)) (codes_below 16) = true) by (by vm_compute).
  rewrite forallb_forall in H. specialize (H i (proj2 (codes_below_spec 16 i) Hi)).
  rewrite forallb_forall in H. specialize (H j (proj2 (codes_below_spec 16 j) Hj)).
  intros E. rewrite E, Z.eqb_refl in H. simpl in H. lia.
Qed.

Lemma IndexOf_cases c :
  let i := PendingEvents_IndexOf c in
  (i = SOLIDSYSLOG_PENDING_EVENT_KIND_COUNT /\
   forall j, 0 <= j < SOLIDSYSLOG_PENDING_EVENT_KIND_COUNT -> pk_Category (kind_at j) <> c) \/
  (0 <= i < SOLIDSYSLOG_PENDING_EVENT_KIND_COUNT /\ pk_Category (kind_at i) = c).
Proof.
  cbv zeta. unfold PendingEvents_IndexOf, SOLIDSYSLOG_PENDING_EVENT_KIND_COUNT.
  apply (for_range_inv (fun n found => (found = 16 /\ forall j, 0 <= j < n -> pk_Category (kind_at j) <> c) \/
    (0 <= found < 16 /\ pk_Category (kind_at found) = c))); [lia | left; split; [done | lia] |].
  intros n found Hn [[-> Hno] | [Hf E]].
  - rewrite Z.eqb_refl. destruct (Z.eqb_spec (pk_Category (kind_at n)) c); [right; split; [lia | done] | left].
    split; [done |]. intros j Hj. destruct (Z.eq_dec j n) as [-> |]; [done | apply Hno; lia].
  - destruct (Z.eqb_spec found 16); [lia | by right].
Qed.
Lemma IndexOf_kind i : 0 <= i < SOLIDSYSLOG_PENDING_EVENT_KIND_COUNT -> PendingEvents_IndexOf (pk_Category (kind_at i)) = i.
Proof.
  intros Hi. destruct (IndexOf_cases (pk_Category (kind_at i))) as [[_ Hno] | [Hj E]].
  - by destruct (Hno i Hi).
  - by apply kinds_distinct.
Qed.

Lemma SeverityCode_spec severity :
  PendingEvents_SeverityCode severity = if (0 <=? severity) && (severity <? 8) then severity + 1 else 0.
Proof.
  assert (Hs : forall i, 0 <= i < 8 -> PendingEvents_Severities.[i] = i).
  { intros i Hi. assert (H : forallb (fun i => PendingEvents_Severities.[i] =? i) (codes_below 8) = true) by (by vm_compute).
    rewrite forallb_forall in H. specialize (H i (proj2 (codes_below_spec 8 i) Hi)). lia. }
  unfold PendingEvents_SeverityCode. change (lenZ PendingEvents_Severities) with 8.
  apply (for_range_inv (fun n code => code = if (0 <=? severity) && (severity <? n) then severity + 1 else 0)); [lia | |].
  - destruct (_ && _) eqn:E; [lia | done].
  - intros i code Hi ->. rewrite Hs by lia. destruct (Z.eqb_spec i severity) as [<- |].
    + rewrite u8_small by lia. replace ((0 <=? i) && (i <? i + 1)) with true by lia. done.
    + replace (severity <? i + 1) with (severity <? i) by lia. done.
Qed.
(** A recorded severity reads back; one off the ladder reads as the kind's. *)
Lemma Severity_reads_back kind severity :
  PendingEvents_SeverityOf kind (PendingEvents_SeverityCode severity) =
  if (0 <=? severity) && (severity <? 8) then severity else pk_Severity kind.
Proof.
  rewrite SeverityCode_spec. unfold PendingEvents_SeverityOf.
  destruct (_ && _) eqn:E; [| done]. replace (0 <? severity + 1) with true by lia.
  replace (severity + 1 - 1) with severity by lia.
  assert (H : forallb (fun i => PendingEvents_Severities.[i] =? i) (codes_below 8) = true) by (by vm_compute).
  rewrite forallb_forall in H. specialize (H severity). rewrite codes_below_spec in H. lia.
Qed.

(** The event a slot of kind [index] gives for [event]. *)
Definition recorded_event (index : Z) (event : SolidSyslogErrorEvent) : SolidSyslogErrorEvent :=
  mkErrorEvent (PendingEvents_SeverityOf (kind_at index) (PendingEvents_SeverityCode (ev_Severity event)))
    (pk_Category (kind_at index)) (ev_HasNativeCode event) (ev_Source event) (ev_Detail event) (ev_NativeCode event).
Definition recorded_slot (event : SolidSyslogErrorEvent) : PendingEventSlot :=
  mkPendingEventSlot (ev_Source event) (ev_Detail event) (ev_NativeCode event)
    (PendingEvents_SeverityCode (ev_Severity event)) (ev_HasNativeCode event) true.

Lemma recorded_event_faithful index event :
  pk_Category (kind_at index) = ev_Category event -> 0 <= ev_Severity event < 8 -> recorded_event index event = event.
Proof.
  intros Hc Hs. unfold recorded_event. rewrite Severity_reads_back, Hc.
  replace ((0 <=? ev_Severity event) && (ev_Severity event <? 8)) with true by lia. by destruct event.
Qed.

Lemma slot_at_updZ_eq slots i s : 0 <= i < lenZ slots -> slot_at (updZ slots i s) i = s.
Proof.
  unfold slot_at, updZ, lenZ. intros Hi. apply nth_lookup_Some, list_lookup_insert_eq. lia.
Qed.
Lemma slot_at_updZ_ne slots i j s : 0 <= i -> 0 <= j -> i <> j -> slot_at (updZ slots i s) j = slot_at slots j.
Proof. unfold slot_at, updZ. intros. rewrite !nth_lookup, list_lookup_insert_ne by lia. done. Qed.

Lemma Record_slot event slots i :
  lenZ slots = SOLIDSYSLOG_PENDING_EVENT_KIND_COUNT -> 0 <= i < SOLIDSYSLOG_PENDING_EVENT_KIND_COUNT ->
  slot_at (SolidSyslogPendingEvents_Record event slots) i =
    (if i =? PendingEvents_IndexOf (ev_Category event) then recorded_slot event else slot_at slots i) /\
  lenZ (SolidSyslogPendingEvents_Record event slots) = lenZ slots.
Proof.
  intros Hl Hi. unfold SolidSyslogPendingEvents_Record.
  destruct (IndexOf_cases (ev_Category event)) as [[E _] | [Hj _]].
  - rewrite E, Z.ltb_irrefl. split; [| done]. destruct (Z.eqb_spec i SOLIDSYSLOG_PENDING_EVENT_KIND_COUNT); [lia | done].
  - set (j := PendingEvents_IndexOf (ev_Category event)) in *.
    replace (j <? SOLIDSYSLOG_PENDING_EVENT_KIND_COUNT) with true by lia. split; [| by len_simpl].
    destruct (Z.eqb_spec i j) as [-> |]; [| by apply slot_at_updZ_ne; lia].
    rewrite slot_at_updZ_eq by lia. by destruct (slot_at slots j).
Qed.

Lemma Take_slot index event slots :
  lenZ slots = SOLIDSYSLOG_PENDING_EVENT_KIND_COUNT -> 0 <= index < SOLIDSYSLOG_PENDING_EVENT_KIND_COUNT ->
  let s := slot_at slots index in
  SolidSyslogPendingEvents_Take index event slots =
  ((pe_Pending s, mkErrorEvent (PendingEvents_SeverityOf (kind_at index) (pe_SeverityCode s))
      (pk_Category (kind_at index)) (pe_HasNativeCode s) (pe_Source s) (pe_Detail s) (pe_NativeCode s)),
   updZ slots index (s <| pe_Pending := false |>)).
Proof.
  intros Hl Hi s. unfold SolidSyslogPendingEvents_Take.
  replace (index <? SOLIDSYSLOG_PENDING_EVENT_KIND_COUNT) with true by lia. done.
Qed.

(** * Properties *)

(** The tap keeps the last event of each reported kind and gives it back:
    after any recorded events, the slot of a kind is pending exactly when an event
    of that category came since it was last taken, and taking it returns that last
    event (its severity when it is on the RFC ladder, its kind's otherwise) and
    leaves it not pending; the events of one kind never touch another's slot, and
    an event of any other category changes nothing. *)
Theorem PendingEvents_keep_last (slots : pending_slots) (events : list SolidSyslogErrorEvent) (index : Z) (caller : SolidSyslogErrorEvent) :
  lenZ slots = SOLIDSYSLOG_PENDING_EVENT_KIND_COUNT -> 0 <= index < SOLIDSYSLOG_PENDING_EVENT_KIND_COUNT ->
  pe_Pending (slot_at slots index) = false ->
  let of_kind := List.filter (fun e => ev_Category e =? pk_Category (kind_at index)) events in
  let slots' := fold_left (fun t e => SolidSyslogPendingEvents_Record e t) events slots in
  SolidSyslogPendingEvents_IsPending index slots' = negb (bool_decide (of_kind = [])) /\
  forall e, list.last of_kind = Some e ->
    let '((taken, event), slots'') := SolidSyslogPendingEvents_Take index caller slots' in
    taken = true /\ event = recorded_event index e /\ (0 <= ev_Severity e < 8 -> event = e) /\
    SolidSyslogPendingEvents_IsPending index slots'' = false.
Proof.
  intros Hl Hi Hp of_kind slots'.
  assert (Hslot : lenZ slots' = SOLIDSYSLOG_PENDING_EVENT_KIND_COUNT /\
    slot_at slots' index = match list.last of_kind with Some e => recorded_slot e | None => slot_at slots index end).
  { unfold slots', of_kind. clear slots' of_kind Hp. induction events as [|e events IH] using rev_ind; [done |].
    destruct IH as [IHl IHs]. rewrite fold_left_app, List.filter_app. simpl.
    destruct (Record_slot e _ index IHl Hi) as [E El]. rewrite El, IHl. split; [done |]. rewrite E.
    destruct (Z.eqb_spec (ev_Category e) (pk_Category (kind_at index))) as [Ec | Ec].
    - rewrite Ec, IndexOf_kind, Z.eqb_refl, last_snoc by done. done.
    - rewrite app_nil_r. destruct (Z.eqb_spec index (PendingEvents_IndexOf (ev_Category e))) as [Ei |]; [| done].
      exfalso. destruct (IndexOf_cases (ev_Category e)) as [[E16 _] | [_ Ek]]; [lia |]. by rewrite <- Ei in Ek. }
  destruct Hslot as [Hl' Hs']. unfold SolidSyslogPendingEvents_IsPending.
  replace (index <? SOLIDSYSLOG_PENDING_EVENT_KIND_COUNT) with true by lia. split.
  - rewrite Hs'. destruct (list.last of_kind) eqn:E.
    + rewrite bool_decide_false; [done |]. intros E0. by rewrite E0 in E.
    + apply last_None in E. by rewrite bool_decide_true.
  - intros e He. rewrite Take_slot by done. rewrite Hs', He. simpl.
    split; [done |]. split; [done |]. split.
    + intros Hsev. apply (recorded_event_faithful index e); [| done].
      apply last_Some in He as [l E]. assert (Hin : In e of_kind) by (rewrite E; apply in_or_app; right; by left).
      unfold of_kind in Hin. apply filter_In in Hin as [_ Hc]. lia.
    + rewrite slot_at_updZ_eq by lia. done.
Qed.

Definition sample_event (category detail : Z) : SolidSyslogErrorEvent :=
  mkErrorEvent SOLIDSYSLOG_SEVERITY_ERROR category false (Some SolidSyslogBlockStoreErrorSource) detail 0.
Lemma PendingEvents_keep_last_witness :
  let events := [sample_event SOLIDSYSLOG_CAT_STORE_FROZEN 5; sample_event SOLIDSYSLOG_CAT_BAD_CONFIG 0; sample_event SOLIDSYSLOG_CAT_STORE_FROZEN 6] in
  let of_kind := List.filter (fun e => ev_Category e =? pk_Category (kind_at 11)) events in
  let slots' := fold_left (fun t e => SolidSyslogPendingEvents_Record e t) events initial_slots in
  SolidSyslogPendingEvents_IsPending 11 slots' = negb (bool_decide (of_kind = [])) /\
  forall e, list.last of_kind = Some e ->
    let '((taken, event), slots'') := SolidSyslogPendingEvents_Take 11 (sample_event 0 0) slots' in
    taken = true /\ event = recorded_event 11 e /\ (0 <= ev_Severity e < 8 -> event = e) /\
    SolidSyslogPendingEvents_IsPending 11 slots'' = false.
Proof.
  apply (PendingEvents_keep_last initial_slots _ 11); [reflexivity | split; [discriminate | reflexivity] | reflexivity].
Defined.

(** ** Recordings that race the logger's walk *)

Inductive interleaving {A} : list A -> list A -> list A -> Prop :=
| il_nil : interleaving [] [] []
| il_left x l r s : interleaving l r s -> interleaving (x :: l) r (x :: s)
| il_right x l r s : interleaving l r s -> interleaving l (x :: r) (x :: s).

(** What [Service] does with one slot of its walk, step by step: it looks at the
    flag, and only where that was up does it go through the taking.  The first
    component of the local state is what the look saw. *)
Definition walk_local : Type := bool * take_local.
Definition walk_step : Type := PendingEventSlot * walk_local -> PendingEventSlot * walk_local.
Definition look_step : walk_step := fun st => (fst st, (pe_Pending (fst st), snd (snd st))).
Definition if_seen (step : take_step) : walk_step := fun st =>
  let '(s, (seen, l)) := st in
  if seen then let '(s, l) := step (s, l) in (s, (seen, l)) else st.
Definition Walk_steps (index : Z) : list walk_step := look_step :: map if_seen (Take_steps index).

Definition store_step (store : PendingEventSlot -> PendingEventSlot) : walk_step := fun st => (store (fst st), snd st).
Definition writer_steps (event : SolidSyslogErrorEvent) : list walk_step := map store_step (Record_stores event).

Section race.
Context (index : Z).

(** The slot after the writer's first [m] stores of [event]. *)
Definition stored (event : SolidSyslogErrorEvent) (m : nat) (s : PendingEventSlot) : Prop :=
  ((1 <= m)%nat -> pe_SeverityCode s = PendingEvents_SeverityCode (ev_Severity event)) /\
  ((2 <= m)%nat -> pe_Source s = ev_Source event) /\
  ((3 <= m)%nat -> pe_Detail s = ev_Detail event) /\
  ((4 <= m)%nat -> pe_NativeCode s = ev_NativeCode event) /\
  ((5 <= m)%nat -> pe_HasNativeCode s = ev_HasNativeCode event).
(** The walk's copy after its first [k] steps, when it copies that event. *)
Definition copied (event : SolidSyslogErrorEvent) (k : nat) (e : SolidSyslogErrorEvent) : Prop :=
  let r := recorded_event index event in
  ((4 <= k)%nat -> ev_Severity e = ev_Severity r) /\ ((5 <= k)%nat -> ev_Category e = ev_Category r) /\
  ((6 <= k)%nat -> ev_HasNativeCode e = ev_HasNativeCode r) /\ ((7 <= k)%nat -> ev_Source e = ev_Source r) /\
  ((8 <= k)%nat -> ev_Detail e = ev_Detail r) /\ ((9 <= k)%nat -> ev_NativeCode e = ev_NativeCode r).

(** After [k] steps of the walk and [m] stores of [event]: a flag seen up stays up
    until the taking lowers it, the taking then answers true, and a recording that
    is complete left its flag up or is what the walk copies. *)
Definition race_inv (event : SolidSyslogErrorEvent) (k m : nat) (st : PendingEventSlot * walk_local) : Prop :=
  let '(s, (seen, (w, e))) := st in
  stored event m s /\ ((k = 0)%nat -> seen = false) /\
  (seen = true -> (k <= 2)%nat -> pe_Pending s = true) /\ (seen = true -> (2 <= k)%nat -> w = true) /\
  ((6 <= m)%nat -> pe_Pending s = true \/ (seen = true /\ copied event k e)).

Ltac race_solve :=
  unfold race_inv, copied, stored, recorded_event in *; simpl in *;
  repeat match goal with H : _ /\ _ |- _ => destruct H end;
  repeat match goal with
  | |- _ /\ _ => split
  | |- _ -> _ => intros
  | H : (6 <= ?m)%nat -> _ \/ _, Hm : (6 <= ?m)%nat |- _ \/ _ => destruct (H Hm) as [?|?]; [by left | right]
  end;
  repeat match goal with H : _ /\ _ |- _ => destruct H end;
  try lia; try congruence; auto with lia;
  try (f_equal; auto with lia).

Lemma race_walk event k m st step :
  nth_error (Walk_steps index) k = Some step -> race_inv event k m st -> race_inv event (S k) m (step st).
Proof using.
  destruct st as [s [seen [w e]]]. intros Hk Hinv.
  destruct k as [|[|[|[|[|[|[|[|[|k]]]]]]]]]; [..| by destruct k]; injection Hk as <-; destruct seen;
    unfold if_seen; try solve [race_solve].
  all: race_solve; destruct (pe_Pending s) eqn:Ep; try congruence; try (by left); race_solve.
Qed.
Lemma race_writer event k m st step :
  nth_error (writer_steps event) m = Some step -> race_inv event k m st -> race_inv event k (S m) (step st).
Proof using.
  destruct st as [s [seen [w e]]]. intros Hm Hinv.
  destruct m as [|[|[|[|[|[|m]]]]]]; [..| by destruct m]; injection Hm as <-; race_solve.
Qed.
(** A completed recording is the start of the next one. *)
Lemma race_next event next k st : race_inv event k 6 st -> race_inv next k 0 st.
Proof using. destruct st as [s [seen [w e]]]. race_solve. Qed.

Lemma skipn_cons {A} (L : list A) k x l : x :: l = skipn k L -> nth_error L k = Some x /\ l = skipn (S k) L.
Proof using.
  revert k. induction L as [|y L IH]; intros [|k] E; simpl in *; try done; [by injection E as -> -> | by apply IH in E].
Qed.

Lemma last_starts {A} (l : list A) x d : List.last (x :: l) d = List.last l x.
Proof using. revert x d. induction l as [|y l IH]; intros x d; [done |]. change (List.last (y :: l) d = List.last (y :: l) x). by rewrite !IH. Qed.

(** The writer has [skipn m (writer_steps event)] and then the recordings of [later]
    before it. *)
Lemma race_runs l r sched : interleaving l r sched ->
  forall k m event later st, l = skipn k (Walk_steps index) ->
  r = skipn m (writer_steps event) ++ concat (map writer_steps later) -> (k <= 9)%nat -> (m <= 6)%nat ->
  race_inv event k m st -> race_inv (List.last later event) 9 6 (fold_left (fun st step => step st) sched st).
Proof using.
  assert (Hdone : forall m event later, skipn m (writer_steps event) ++ concat (map writer_steps later) = [] ->
    (m <= 6)%nat -> m = 6%nat /\ later = []).
  { intros m event [|e later] E Hm; apply (f_equal length) in E; rewrite length_app, length_skipn in E; simpl in E; [split; [lia | done] | lia]. }
  induction 1 as [| x l r s _ IH | x l r s _ IH]; intros k m event later st El Er Hk Hm Hinv; simpl.
  - assert (k = 9%nat) as ->.
    { apply (f_equal length) in El. rewrite length_skipn in El. simpl in El. lia. }
    by destruct (Hdone m event later (eq_sym Er) Hm) as [-> ->].
  - destruct (skipn_cons _ _ _ _ El) as [Hn El'].
    assert (k < 9)%nat by (apply (f_equal length) in El; rewrite length_skipn in El; simpl in El; lia).
    apply (IH (S k) m event later); try done; try lia. by apply race_walk.
  - destruct (decide (m = 6%nat)) as [-> | Hm6].
    + destruct later as [|next later]; [done |]. simpl in Er. injection Er as -> ->.
      rewrite last_starts.
      apply (IH k 1%nat next later); [done | done | lia | lia |].
      apply (race_writer next k 0); [done | by apply (race_next event)].
    + assert (Hlen : (m < length (writer_steps event))%nat) by (simpl; lia).
      destruct (skipn m (writer_steps event)) as [|y rest] eqn:Es.
      { apply (f_equal length) in Es. rewrite length_skipn in Es. simpl in Es. lia. }
      simpl in Er. injection Er as -> ->. destruct (skipn_cons _ _ _ _ (eq_sym Es)) as [Hn Er'].
      apply (IH k (S m) event later); [done | by rewrite Er' | lia | lia |]. by apply race_writer.
Qed.
End race.

(** C35. No event is lost to a race: while [Service] looks at a slot, in whatever
    state it is, and takes it when the flag is up, a logging task may record any
    number of events of the kind, one after another, and its stores may land between
    any of the walk's steps.  Where the look saw the flag down, the last recording is
    in the slot, whole and pending; where it saw it up the taking answers true, and
    either its copy is the last event or the slot is pending again with that event
    whole, for the next walk.  The walk is the only taker, as it is with one logger. *)
Theorem Take_loses_no_event (index : Z) (earlier : list SolidSyslogErrorEvent) (event : SolidSyslogErrorEvent)
    (s : PendingEventSlot) (caller : SolidSyslogErrorEvent) (sched : list walk_step) :
  interleaving (Walk_steps index) (concat (map writer_steps (earlier ++ [event]))) sched ->
  let '(s', (seen, (taken, e'))) := fold_left (fun st step => step st) sched (s, (false, (false, caller))) in
  s' = (recorded_slot event) <| pe_Pending := pe_Pending s' |> /\
  if seen then taken = true /\ (pe_Pending s' = true \/ e' = recorded_event index event)
  else pe_Pending s' = true.
Proof.
  intros Hil.
  assert (Hrun : race_inv index event 9 6 (fold_left (fun st step => step st) sched (s, (false, (false, caller))))).
  { destruct (earlier ++ [event]) as [|first later] eqn:El; [by destruct earlier |].
    assert (List.last later first = event) as <-.
    { by rewrite <- last_starts with (d := first), <- El, List.last_last. }
    apply (race_runs index _ _ _ Hil 0 0); [done | done | lia | lia |].
    unfold race_inv, stored. split_and!; intros; try done; lia. }
  destruct (fold_left _ _ _) as [s' [seen [taken e']]].
  destruct Hrun as ((H1 & H2 & H3 & H4 & H5) & _ & _ & Hw & Hlast). split.
  - destruct s'. unfold recorded_slot, set_field. simpl in *. f_equal; [apply H2 | apply H3 | apply H4 | apply H1 | apply H5]; lia.
  - destruct (Hlast ltac:(lia)) as [Hp | (-> & E1 & E2 & E3 & E4 & E5 & E6)].
    + destruct seen; [split; [apply Hw; [done | lia] | by left] | done].
    + split; [apply Hw; [done | lia] | right]. destruct e'. unfold recorded_event in *. simpl in *. f_equal; auto with lia.
Qed.

(** An event is waiting; a second lands between the clearing and the copying, a
    third after it. *)
Lemma Take_loses_no_event_witness :
  let event := sample_event SOLIDSYSLOG_CAT_STORE_FROZEN 6 in
  let next := sample_event SOLIDSYSLOG_CAT_STORE_FROZEN 7 in
  let sched := take 3 (Walk_steps 11) ++ writer_steps event ++ drop 3 (Walk_steps 11) ++ writer_steps next in
  let '(s', (seen, (taken, e'))) := fold_left (fun st step => step st) sched
    (recorded_slot (sample_event SOLIDSYSLOG_CAT_STORE_FROZEN 5), (false, (false, event))) in
  s' = (recorded_slot next) <| pe_Pending := pe_Pending s' |> /\
  if seen then taken = true /\ (pe_Pending s' = true \/ e' = recorded_event 11 next)
  else pe_Pending s' = true.
Proof.
  apply (Take_loses_no_event 11 [sample_event SOLIDSYSLOG_CAT_STORE_FROZEN 6] (sample_event SOLIDSYSLOG_CAT_STORE_FROZEN 7)
    (recorded_slot (sample_event SOLIDSYSLOG_CAT_STORE_FROZEN 5)) (sample_event SOLIDSYSLOG_CAT_STORE_FROZEN 6)
    (take 3 (Walk_steps 11) ++ writer_steps (sample_event SOLIDSYSLOG_CAT_STORE_FROZEN 6) ++ drop 3 (Walk_steps 11) ++
     writer_steps (sample_event SOLIDSYSLOG_CAT_STORE_FROZEN 7))).
  repeat constructor.
Defined.
