(* ===== verification/Interfaces.v ===== *)
(** What the components promise each other, and the null objects that keep the
    promises when nothing is configured: the discard policy
    ([SolidSyslogDiscardPolicy.c]), the null buffer ([SolidSyslogNullBuffer.c]) and
    the null sender ([SolidSyslogNullSender.c]).  Faults are values of
    [SolidSyslogErrorEvent]: a component's model keeps those it raised, in order. *)
From S2P Require Import Prelude Errors.

(** The largest record the library moves. *)
Definition SOLIDSYSLOG_MAX_MESSAGE_SIZE : Z := 480.

(** * The discard policy *)

Definition SOLIDSYSLOG_DISCARD_POLICY_OLDEST : Z := 0.
Definition SOLIDSYSLOG_DISCARD_POLICY_NEWEST : Z := 1.
Definition SOLIDSYSLOG_DISCARD_POLICY_HALT : Z := 2.

(** The integrator's function answers with an enumerator and may change the
    environment [W]; [None] is the null context. *)
Definition SolidSyslogDiscardPolicyFunction (W : Type) : Type := option Z -> ST W Z.
Definition SolidSyslogDiscardPolicy_Default {W} : SolidSyslogDiscardPolicyFunction W :=
  fun _ => st_ret SOLIDSYSLOG_DISCARD_POLICY_OLDEST.

(** The function and context installed for those configured. *)
Definition installed_policy {W} (configured : option (SolidSyslogDiscardPolicyFunction W)) (context : option Z)
    : SolidSyslogDiscardPolicyFunction W * option Z :=
  match configured with
  | Some f => (f, context)
  | None => (SolidSyslogDiscardPolicy_Default, None)
  end.

(** * Capacity thresholds *)

Definition SolidSyslogStoreThresholdFunction (W : Type) : Type := option Z -> ST W Z.
Definition SolidSyslogStoreThresholdCallback (W : Type) : Type := option Z -> ST W unit.

(** * Stores *)

Inductive SolidSyslogStoreWriteResult :=
| SOLIDSYSLOG_STORE_WRITE_NOT_RETAINED
| SOLIDSYSLOG_STORE_WRITE_KEPT
| SOLIDSYSLOG_STORE_WRITE_LOST.

(** A store-and-forward store over its state [S].  [SolidSyslogStore_ReadNextUnsent]
    is given the caller's memory and gives whether a record was read, that memory and
    [*bytesRead]. *)
Class SolidSyslogStore (S : Type) := {
  SolidSyslogStore_Write : bytes -> Z -> ST S SolidSyslogStoreWriteResult;
  SolidSyslogStore_ReadNextUnsent : bytes -> Z -> ST S (bool * bytes * Z);
  SolidSyslogStore_MarkSent : ST S unit;
  SolidSyslogStore_HasUnsent : ST S bool;
  SolidSyslogStore_GetTotalBytes : ST S Z;
  SolidSyslogStore_GetUsedBytes : ST S Z;
  SolidSyslogStore_IsTransient : ST S bool
}.

(** * Buffers, senders and scratch

    Each class is a vtable over the state [S] its operations act on.  A reader is
    given its memory and gives it back, with whether a record was read and
    [*bytesRead]. *)
Class SolidSyslogBuffer (S : Type) := {
  SolidSyslogBuffer_Write : bytes -> Z -> ST S unit;
  SolidSyslogBuffer_Read : bytes -> Z -> ST S (bool * bytes * Z);
  SolidSyslogBuffer_IsFull : ST S bool
}.

Class SolidSyslogSender (S : Type) := {
  SolidSyslogSender_Send : bytes -> Z -> ST S bool;
  SolidSyslogSender_Disconnect : ST S unit
}.

(** The user is given the storage and its size, and leaves the storage as it wrote it. *)
Definition SolidSyslogScratchUser (S : Type) : Type := bytes -> Z -> ST S bytes.
Class SolidSyslogScratch (S : Type) := { WithScratch : SolidSyslogScratchUser S -> ST S unit }.

(** * Null objects *)

(** [data] is the reader's memory; the results are [delivered], that memory and
    [*bytesRead]. *)
Definition NullBuffer_Read (data : bytes) (maxSize : Z) : bool * bytes * Z := (false, data, 0).
Definition NullBuffer_IsFull : bool := false.
Definition NullSender_Send (buffer : bytes) (size : Z) : bool := true.
Definition NullSender_Disconnect {S} : ST S unit := st_ret tt.
Definition NullBuffer_Write {S} (data : bytes) (size : Z) : ST S unit := st_ret tt.

Definition SolidSyslogNullBuffer_Get {S} : SolidSyslogBuffer S := {|
  SolidSyslogBuffer_Write := NullBuffer_Write;
  SolidSyslogBuffer_Read := fun data maxSize => st_ret (NullBuffer_Read data maxSize);
  SolidSyslogBuffer_IsFull := st_ret NullBuffer_IsFull
|}.
Definition SolidSyslogNullSender_Get {S} : SolidSyslogSender S := {|
  SolidSyslogSender_Send := fun buffer size => st_ret (NullSender_Send buffer size);
  SolidSyslogSender_Disconnect := NullSender_Disconnect
|}.

(** ** The null store ([SolidSyslogNullStore.c]) *)

Definition NullStore_Write {S} (data : bytes) (size : Z) : ST S SolidSyslogStoreWriteResult := st_ret SOLIDSYSLOG_STORE_WRITE_NOT_RETAINED.
Definition NullStore_ReadNextUnsent {S} (data : bytes) (maxSize : Z) : ST S (bool * bytes * Z) := st_ret (false, data, 0).
Definition NullStore_MarkSent {S} : ST S unit := st_ret tt.
Definition NullStore_HasUnsent {S} : ST S bool := st_ret false.
Definition NullStore_GetTotalBytes {S} : ST S Z := st_ret 0.
Definition NullStore_GetUsedBytes {S} : ST S Z := st_ret 0.
Definition NullStore_IsTransient {S} : ST S bool := st_ret true.
Definition SolidSyslogNullStore_Get {S} : SolidSyslogStore S := {|
  SolidSyslogStore_Write := NullStore_Write;
  SolidSyslogStore_ReadNextUnsent := NullStore_ReadNextUnsent;
  SolidSyslogStore_MarkSent := NullStore_MarkSent;
  SolidSyslogStore_HasUnsent := NullStore_HasUnsent;
  SolidSyslogStore_GetTotalBytes := NullStore_GetTotalBytes;
  SolidSyslogStore_GetUsedBytes := NullStore_GetUsedBytes;
  SolidSyslogStore_IsTransient := NullStore_IsTransient
|}.

(** * Block devices and security policies *)

(** A block device over its own state [D].  [bd_Read] gives the bytes it put in
    the caller's memory; the other operations only say whether they worked. *)
Class BlockDevice (D : Type) := {
  bd_Acquire : Z -> ST D bool;
  bd_Dispose : Z -> ST D bool;
  bd_Exists : Z -> ST D bool;
  bd_Read : Z -> Z -> Z -> ST D (bool * bytes);
  bd_Append : Z -> bytes -> ST D bool;
  bd_WriteAt : Z -> Z -> bytes -> ST D bool;
  bd_Size : Z -> ST D (bool * Z);
  bd_GetBlockSize : ST D Z
}.

(** What a device that stores bytes promises: [block] is what it holds.  Any
    operation may fail; a failed write may have written a part.  Of reading, sizing
    and writing a block it does not hold it promises only to leave the others alone:
    one that keeps a file for each block may make an empty one. *)
Definition keeps_others {D} (block : D -> Z -> option bytes) (i : Z) (d d' : D) : Prop :=
  forall j, j <> i -> block d' j = block d j.

Class BlockDeviceSpec (D : Type) `{BlockDevice D} := {
  block : D -> Z -> option bytes;
  Acquire_holds : forall i d,
    let '(ok, d') := bd_Acquire i d in
    keeps_others block i d d' /\ (ok = true -> block d' i = Some []);
  Dispose_holds : forall i d,
    let '(ok, d') := bd_Dispose i d in
    keeps_others block i d d' /\ (ok = true -> block d' i = None);
  Exists_tells : forall i d,
    let '(present, d') := bd_Exists i d in
    (forall j, block d' j = block d j) /\ (present = true <-> block d i <> None);
  Size_tells : forall i d,
    let '((ok, n), d') := bd_Size i d in
    keeps_others block i d d' /\
    forall b, block d i = Some b -> block d' i = Some b /\ (ok = true -> n = lenZ b);
  Read_holds : forall i off n d, 0 <= off -> 0 < n ->
    let '((ok, bs), d') := bd_Read i off n d in
    keeps_others block i d d' /\ lenZ bs <= n /\
    forall b, block d i = Some b -> block d' i = Some b /\ (ok = true -> off + n <= lenZ b /\ bs = spanZ b off n);
  Append_holds : forall i bs d,
    let '(ok, d') := bd_Append i bs d in
    keeps_others block i d d' /\
    forall b, block d i = Some b ->
      exists part rest, bs = part ++ rest /\ (ok = true -> rest = []) /\ block d' i = Some (b ++ part);
  WriteAt_holds : forall i off bs d, 0 <= off ->
    let '(ok, d') := bd_WriteAt i off bs d in
    keeps_others block i d d' /\
    forall b, block d i = Some b -> off + lenZ bs <= lenZ b ->
      exists part rest, bs = part ++ rest /\ (ok = true -> rest = []) /\ block d' i = Some (spliceZ b off part)
}.

Section device_laws.
Context {D : Type} `{HDS : BlockDeviceSpec D}.
Implicit Types (d : D) (i off n : Z).

(** What a block that is there makes of the laws of reading and sizing. *)
Lemma keeps_all i d d' b :
  keeps_others block i d d' -> block d i = Some b -> block d' i = Some b -> forall j, block d' j = block d j.
Proof using. intros Hk E E' j. destruct (decide (j = i)) as [-> | Hj]; [by rewrite E, E' | by apply Hk]. Qed.
Lemma Size_of_held i d b : block d i = Some b ->
  let '((ok, n), d') := bd_Size i d in (forall j, block d' j = block d j) /\ (ok = true -> n = lenZ b).
Proof using HDS.
  intros E. pose proof (Size_tells i d) as HS. destruct (bd_Size i d) as [[ok n] d']. destruct HS as [Hk Hb].
  destruct (Hb b E) as [E' Hn]. split; [by eapply keeps_all | done].
Qed.
Lemma Read_of_held i off n d b : 0 <= off -> 0 < n -> block d i = Some b ->
  let '((ok, bs), d') := bd_Read i off n d in
  (forall j, block d' j = block d j) /\ lenZ bs <= n /\ (ok = true -> off + n <= lenZ b /\ bs = spanZ b off n).
Proof using HDS.
  intros Ho Hn E. pose proof (Read_holds i off n d Ho Hn) as HR. destruct (bd_Read i off n d) as [[ok bs] d']. destruct HR as (Hk & Hl & Hb).
  destruct (Hb b E) as [E' Hr]. split; [by eapply keeps_all | done].
Qed.
End device_laws.

(** A policy over its own state [P]: [Content] and [Trailer] are written in place;
    the header length is where the body starts. *)
Inductive SolidSyslogSecurityPolicyOpenResult :=
| SOLIDSYSLOG_SECURITY_POLICY_OPEN_REJECTED
| SOLIDSYSLOG_SECURITY_POLICY_OPEN_OPENED
| SOLIDSYSLOG_SECURITY_POLICY_OPEN_COULD_NOT_RUN.

Record SolidSyslogSecurityRecord := mkSecurityRecord {
  sr_Content : bytes;
  sr_HeaderLength : Z;
  sr_Trailer : bytes
}.

#[export] Instance settable_SecurityRecord : Settable SolidSyslogSecurityRecord :=
  fun r => mkSecurityRecord (sr_Content r) (sr_HeaderLength r) (sr_Trailer r).

Class SecurityPolicy (P : Type) := {
  sp_TrailerSize : Z;
  sp_SealRecord : SolidSyslogSecurityRecord -> ST P (bool * SolidSyslogSecurityRecord);
  sp_OpenRecord : SolidSyslogSecurityRecord -> ST P (SolidSyslogSecurityPolicyOpenResult * SolidSyslogSecurityRecord)
}.

Definition SOLIDSYSLOG_MAX_INTEGRITY_SIZE : Z := 32.

(** The record's shape: same sizes, same header. *)
Definition same_shape (r r' : SolidSyslogSecurityRecord) : Prop :=
  lenZ (sr_Content r') = lenZ (sr_Content r) /\ lenZ (sr_Trailer r') = lenZ (sr_Trailer r) /\
  takeZ (sr_HeaderLength r) (sr_Content r') = takeZ (sr_HeaderLength r) (sr_Content r).

(** What a policy promises: it writes within the record and not over the header,
    and a record it sealed it never rejects; when it opens it, the content is back. *)
Class SecurityPolicySpec (P : Type) `{SecurityPolicy P} := {
  TrailerSize_bound : 0 <= sp_TrailerSize <= SOLIDSYSLOG_MAX_INTEGRITY_SIZE;
  Seal_shape : forall r p, lenZ (sr_Trailer r) = sp_TrailerSize -> same_shape r (snd (fst (sp_SealRecord r p)));
  Seal_bytes : forall r p, lenZ (sr_Trailer r) = sp_TrailerSize -> all_bytes (sr_Content r) ->
    fst (fst (sp_SealRecord r p)) = true ->
    all_bytes (sr_Content (snd (fst (sp_SealRecord r p)))) /\ all_bytes (sr_Trailer (snd (fst (sp_SealRecord r p))));
  Open_shape : forall r p, lenZ (sr_Trailer r) = sp_TrailerSize -> same_shape r (snd (fst (sp_OpenRecord r p)));
  Open_sealed : forall r p p', lenZ (sr_Trailer r) = sp_TrailerSize -> all_bytes (sr_Content r) ->
    fst (fst (sp_SealRecord r p)) = true ->
    let '((opened, r'), _) := sp_OpenRecord (mkSecurityRecord (sr_Content (snd (fst (sp_SealRecord r p)))) (sr_HeaderLength r)
                                              (sr_Trailer (snd (fst (sp_SealRecord r p))))) p' in
    match opened with
    | SOLIDSYSLOG_SECURITY_POLICY_OPEN_REJECTED => False
    | SOLIDSYSLOG_SECURITY_POLICY_OPEN_OPENED => sr_Content r' = sr_Content r
    | SOLIDSYSLOG_SECURITY_POLICY_OPEN_COULD_NOT_RUN => True
    end
}.
