(* ===== verification/Utf8.v ===== *)
(** UTF-8: the byte classifiers of [SolidSyslogUtf8.h], the codepoint validation
    of [SolidSyslogFormatter.c], and an independent specification of UTF-8
    (RFC 3629: concatenations of encodings of Unicode scalar values) that the
    validation is proved to decide. *)
From S2P Require Import Prelude.

(** * Byte classifiers *)

Definition SolidSyslogUtf8_IsAsciiByte (byte : Z) : bool := Z.land byte 0x80 =? 0.
Definition SolidSyslogUtf8_IsContinuationByte (byte : Z) : bool := Z.land byte 0xC0 =? 0x80.
Definition SolidSyslogUtf8_IsTwoByteLead (byte : Z) : bool := Z.land byte 0xE0 =? 0xC0.
Definition SolidSyslogUtf8_IsThreeByteLead (byte : Z) : bool := Z.land byte 0xF0 =? 0xE0.
Definition SolidSyslogUtf8_IsFourByteLead (byte : Z) : bool := Z.land byte 0xF8 =? 0xF0.

(** * Codepoint validation *)

Definition Formatter_IsOverlongTwoByteLead (byte : Z) : bool := Z.land byte 0xFE =? 0xC0.

Definition Formatter_IsValidUtf8TwoByte (lead continuation1 : Z) : bool :=
  SolidSyslogUtf8_IsTwoByteLead lead && negb (Formatter_IsOverlongTwoByteLead lead) &&
  SolidSyslogUtf8_IsContinuationByte continuation1.

Definition Formatter_IsOverlongThreeByteEncoding (lead continuation1 : Z) : bool :=
  (lead =? 0xE0) && (Z.land continuation1 0xE0 =? 0x80).

Definition Formatter_IsUtf16SurrogateEncoding (lead continuation1 : Z) : bool :=
  (lead =? 0xED) && (Z.land continuation1 0xE0 =? 0xA0).

Definition Formatter_IsValidUtf8ThreeByte (lead continuation1 continuation2 : Z) : bool :=
  SolidSyslogUtf8_IsThreeByteLead lead && SolidSyslogUtf8_IsContinuationByte continuation1 &&
  SolidSyslogUtf8_IsContinuationByte continuation2 &&
  negb (Formatter_IsOverlongThreeByteEncoding lead continuation1) &&
  negb (Formatter_IsUtf16SurrogateEncoding lead continuation1).

Definition Formatter_IsOverlongFourByteEncoding (lead continuation1 : Z) : bool :=
  (lead =? 0xF0) && (Z.land continuation1 0xF0 =? 0x80).

Definition Formatter_IsAboveUnicodeMaxEncoding (lead continuation1 : Z) : bool :=
  let f4WithCont1Above8F := (lead =? 0xF4) && negb (Z.land continuation1 0xF0 =? 0x80) in
  let f5OrHigherLead := (0xF5 <=? lead) && (lead <=? 0xF7) in
  f4WithCont1Above8F || f5OrHigherLead.

Definition Formatter_IsValidUtf8FourByte (lead continuation1 continuation2 continuation3 : Z) : bool :=
  SolidSyslogUtf8_IsFourByteLead lead && SolidSyslogUtf8_IsContinuationByte continuation1 &&
  SolidSyslogUtf8_IsContinuationByte continuation2 && SolidSyslogUtf8_IsContinuationByte continuation3 &&
  negb (Formatter_IsOverlongFourByteEncoding lead continuation1) &&
  negb (Formatter_IsAboveUnicodeMaxEncoding lead continuation1).

Definition Formatter_Utf8CodepointLength (source : bytes) : Z :=
  if SolidSyslogUtf8_IsAsciiByte source.[0] then 1
  else if negb (source.[1] =? 0) && Formatter_IsValidUtf8TwoByte source.[0] source.[1] then 2
  else if negb (source.[1] =? 0) && negb (source.[2] =? 0) &&
          Formatter_IsValidUtf8ThreeByte source.[0] source.[1] source.[2] then 3
  else if negb (source.[1] =? 0) && negb (source.[2] =? 0) && negb (source.[3] =? 0) &&
          Formatter_IsValidUtf8FourByte source.[0] source.[1] source.[2] source.[3] then 4
  else 0.

(** * Specification *)

(** A Unicode scalar value: a code point that is not a surrogate. *)
Definition is_scalar (c : Z) : Prop := 0 <= c < 0xD800 \/ 0xE000 <= c <= 0x10FFFF.

Definition utf8_encode (c : Z) : bytes :=
  if c <? 0x80 then [c]
  else if c <? 0x800 then [0xC0 + c / 64; 0x80 + c mod 64]
  else if c <? 0x10000 then [0xE0 + c / 4096; 0x80 + c / 64 mod 64; 0x80 + c mod 64]
  else [0xF0 + c / 262144; 0x80 + c / 4096 mod 64; 0x80 + c / 64 mod 64; 0x80 + c mod 64].

Definition utf8_encode_all (cs : list Z) : bytes := concat (map utf8_encode cs).
Definition valid_utf8 (l : bytes) : Prop := exists cs, Forall is_scalar cs /\ l = utf8_encode_all cs.

(** * The classifiers as ranges *)

Section classifier_ranges.
Context (b : Z) (Hb : is_byte b).
Lemma ascii_range : SolidSyslogUtf8_IsAsciiByte b = (b <? 0x80).
Proof using Hb. by_bytes b. Qed.
Lemma continuation_range : SolidSyslogUtf8_IsContinuationByte b = (0x80 <=? b) && (b <? 0xC0).
Proof using Hb. by_bytes b. Qed.
Lemma two_lead_range : SolidSyslogUtf8_IsTwoByteLead b = (0xC0 <=? b) && (b <? 0xE0).
Proof using Hb. by_bytes b. Qed.
Lemma three_lead_range : SolidSyslogUtf8_IsThreeByteLead b = (0xE0 <=? b) && (b <? 0xF0).
Proof using Hb. by_bytes b. Qed.
Lemma four_lead_range : SolidSyslogUtf8_IsFourByteLead b = (0xF0 <=? b) && (b <? 0xF8).
Proof using Hb. by_bytes b. Qed.
Lemma overlong_lead_range : Formatter_IsOverlongTwoByteLead b = (0xC0 <=? b) && (b <? 0xC2).
Proof using Hb. by_bytes b. Qed.
Lemma land_E0_80_range : (Z.land b 0xE0 =? 0x80) = (0x80 <=? b) && (b <? 0xA0).
Proof using Hb. by_bytes b. Qed.
Lemma land_E0_A0_range : (Z.land b 0xE0 =? 0xA0) = (0xA0 <=? b) && (b <? 0xC0).
Proof using Hb. by_bytes b. Qed.
Lemma land_F0_80_range : (Z.land b 0xF0 =? 0x80) = (0x80 <=? b) && (b <? 0x90).
Proof using Hb. by_bytes b. Qed.
End classifier_ranges.

Create Rewrite HintDb utf8.
#[export] Hint Rewrite ascii_range continuation_range two_lead_range three_lead_range
  four_lead_range overlong_lead_range land_E0_80_range land_E0_A0_range land_F0_80_range
  using (assumption || (unfold is_byte in *; lia)) : utf8.

(** Turn the classifiers of bytes in the context into comparisons. *)
Ltac utf8_ranges :=
  unfold Formatter_IsValidUtf8FourByte, Formatter_IsAboveUnicodeMaxEncoding,
    Formatter_IsOverlongFourByteEncoding, Formatter_IsValidUtf8ThreeByte,
    Formatter_IsUtf16SurrogateEncoding, Formatter_IsOverlongThreeByteEncoding,
    Formatter_IsValidUtf8TwoByte in *;
  autorewrite with utf8 in *.

(** * Encodings *)

(** Reduce the boolean tests of a decided context or goal to linear arithmetic. *)
Ltac utf8_arith := Z.to_euclidean_division_equations; lia.

Lemma utf8_encode_bytes c : is_scalar c -> all_bytes (utf8_encode c).
Proof.
  unfold is_scalar, utf8_encode. intros H.
  unfold all_bytes, is_byte.
  repeat destruct_bool_step; bool_to_prop; repeat apply Forall_cons_2;
    try apply Forall_nil_2; utf8_arith.
Qed.
Lemma utf8_encode_len c : 1 <= lenZ (utf8_encode c) <= 4.
Proof. unfold utf8_encode. repeat destruct_bool_step; len_simpl; lia. Qed.
Lemma utf8_encode_all_app cs cs' :
  utf8_encode_all (cs ++ cs') = utf8_encode_all cs ++ utf8_encode_all cs'.
Proof. unfold utf8_encode_all. rewrite map_app, concat_app. done. Qed.
Lemma utf8_encode_all_cons c cs : utf8_encode_all (c :: cs) = utf8_encode c ++ utf8_encode_all cs.
Proof. reflexivity. Qed.

Lemma valid_utf8_nil : valid_utf8 [].
Proof. exists []. done. Qed.
Lemma valid_utf8_app l l' : valid_utf8 l -> valid_utf8 l' -> valid_utf8 (l ++ l').
Proof.
  intros (cs & Hc & ->) (cs' & Hc' & ->). exists (cs ++ cs').
  split; [apply Forall_app; done | symmetry; apply utf8_encode_all_app].
Qed.
Lemma valid_utf8_encode c : is_scalar c -> valid_utf8 (utf8_encode c).
Proof. exists [c]. split; [by apply Forall_singleton | symmetry; apply app_nil_r]. Qed.
Lemma valid_utf8_ascii l : Forall (fun b => 0 <= b < 0x80) l -> valid_utf8 l.
Proof.
  induction 1 as [|b l Hb _ IH]; [apply valid_utf8_nil |].
  apply (valid_utf8_app [b]); [| done].
  replace [b] with (utf8_encode b).
  - apply valid_utf8_encode. unfold is_scalar. lia.
  - unfold utf8_encode. replace (b <? 0x80) with true by lia. done.
Qed.
Lemma valid_utf8_bytes l : valid_utf8 l -> all_bytes l.
Proof.
  intros (cs & Hc & ->). induction Hc as [|c cs Hc _ IH]; [constructor |].
  rewrite utf8_encode_all_cons. apply Forall_app. split; [by apply utf8_encode_bytes | done].
Qed.
Create HintDb utf8v.
#[export] Hint Resolve valid_utf8_nil valid_utf8_app valid_utf8_encode valid_utf8_bytes : utf8v.

(** What the tail of a valid sequence cannot hold: the lead byte of a sequence
    longer than what follows it. *)
Definition is_multi_lead (k b : Z) : Prop := 0xC0 <= b < 0xF8 /\ k < (if b <? 0xE0 then 2 else if b <? 0xF0 then 3 else 4).
Definition no_open_lead (l : bytes) : Prop :=
  forall k, 1 <= k <= 3 -> k <= lenZ l -> ~ is_multi_lead k l.[lenZ l - k].

Lemma no_open_lead_snoc l c : is_scalar c -> no_open_lead l -> no_open_lead (l ++ utf8_encode c).
Proof.
  intros Hc Hl k Hk Hlen. pose proof (utf8_encode_len c). pose proof (lenZ_nonneg l).
  rewrite lenZ_app in *.
  destruct (Z.leb_spec k (lenZ (utf8_encode c))).
  - rewrite nthZ_app_r by lia.
    replace (lenZ l + lenZ (utf8_encode c) - k - lenZ l) with (lenZ (utf8_encode c) - k) by lia.
    clear - Hc Hk H1. unfold is_scalar, utf8_encode in *.
    assert (k = 1 \/ k = 2 \/ k = 3) as [-> | [-> | ->]] by lia;
    repeat destruct_bool_step; bool_to_prop; autorewrite with len in *; try lia; nth_eval;
    unfold is_multi_lead; repeat destruct_bool_step; utf8_arith.
  - rewrite nthZ_app_l by lia. intros Hm.
    apply (Hl (k - lenZ (utf8_encode c))); [lia | lia |].
    replace (lenZ l - (k - lenZ (utf8_encode c))) with (lenZ l + lenZ (utf8_encode c) - k) by lia.
    unfold is_multi_lead in *. lia.
Qed.
Lemma valid_no_open_lead l : valid_utf8 l -> no_open_lead l.
Proof.
  intros (cs & Hc & ->). induction cs as [|c cs IH] using rev_ind.
  - intros k Hk Hlen. change (k <= 0) in Hlen. lia.
  - apply Forall_app in Hc as [Hcs Hc]. inversion Hc; subst.
    rewrite utf8_encode_all_app. unfold utf8_encode_all at 2. simpl. rewrite app_nil_r.
    apply no_open_lead_snoc; auto.
Qed.

(** A cut through a valid sequence leaves a valid sequence and a strict prefix
    of one encoding. *)
Lemma valid_utf8_cut l n :
  valid_utf8 l -> 0 <= n ->
  exists v c m, valid_utf8 v /\ is_scalar c /\ 0 <= m < lenZ (utf8_encode c) /\
    takeZ n l = v ++ takeZ m (utf8_encode c).
Proof.
  intros (cs & Hc & ->). revert n. induction Hc as [|c cs Hc Hcs IH]; intros n Hn.
  - exists [], 0, 0. split; [auto with utf8v |]. split; [unfold is_scalar; lia |].
    split; [split; [lia | reflexivity] |]. apply take_nil.
  - rewrite utf8_encode_all_cons. destruct (Z.ltb_spec n (lenZ (utf8_encode c))).
    + exists [], c, n. rewrite takeZ_app_le by lia. auto with utf8v.
    + destruct (IH (n - lenZ (utf8_encode c))) as (v & c' & m & ? & ? & ? & E); [lia |].
      exists (utf8_encode c ++ v), c', m. rewrite takeZ_app_ge, E, app_assoc by lia.
      auto with utf8v.
Qed.

(** * The validation decides the specification *)

Lemma bytes_split4 (src : bytes) n :
  0 <= n -> n <= lenZ src -> takeZ n src = map (fun i => src.[Z.of_nat i]) (seq 0 (Z.to_nat n)).
Proof.
  intros H0 Hn. apply list_eq_same_length with (n := Z.to_nat n); unfold takeZ, lenZ in *.
  - rewrite length_map, length_seq. done.
  - rewrite length_take. lia.
  - intros i x y Hi Hx Hy. rewrite lookup_take_lt in Hx by done.
    rewrite list_lookup_fmap, lookup_seq_lt in Hy by done. simpl in Hy. injection Hy as <-.
    unfold nthZ. rewrite Nat2Z.id. symmetry. by apply nth_lookup_Some.
Qed.
Lemma nthZ_nonzero_len (l : bytes) i : 0 <= i -> l.[i] <> 0 -> i < lenZ l.
Proof. intros Hi H. destruct (Z.ltb_spec i (lenZ l)); [done |]. rewrite nthZ_ge in H; lia. Qed.

Lemma codepoint_length_bound src : 0 <= Formatter_Utf8CodepointLength src <= 4.
Proof. unfold Formatter_Utf8CodepointLength. repeat destruct_bool_step; lia. Qed.

Lemma codepoint_length_encode c rest :
  is_scalar c -> Formatter_Utf8CodepointLength (utf8_encode c ++ rest) = lenZ (utf8_encode c).
Proof.
  intros Hc. pose proof (utf8_encode_bytes c Hc) as Hb.
  unfold all_bytes in Hb. unfold is_scalar, utf8_encode in *. unfold Formatter_Utf8CodepointLength.
  repeat match goal with |- context [if ?c <? ?k then _ else _] => destruct (Z.ltb_spec c k) end;
    repeat match goal with H : Forall is_byte (_ :: _) |- _ => apply Forall_cons_1 in H as [? H] end;
    cbn [app]; nth_eval; utf8_ranges; repeat destruct_bool_step; try reflexivity; exfalso;
    clear Hb; unfold is_byte in *; utf8_arith.
Qed.

(** The bytes in the goal are the encoding of the code point in the goal. *)
Ltac encode_exact :=
  utf8_ranges; bool_to_prop; unfold is_scalar, utf8_encode;
  repeat match goal with
  | |- context [?c <? ?k] =>
      first [replace (c <? k) with false by lia | replace (c <? k) with true by lia]
  end; split; [lia | repeat f_equal; utf8_arith].

Lemma encode_of_two b0 b1 :
  is_byte b0 -> is_byte b1 -> Formatter_IsValidUtf8TwoByte b0 b1 = true ->
  exists c, is_scalar c /\ [b0; b1] = utf8_encode c.
Proof.
  intros H0 H1 E. exists ((b0 - 0xC0) * 64 + (b1 - 0x80)).
  encode_exact.
Qed.
Lemma encode_of_three b0 b1 b2 :
  is_byte b0 -> is_byte b1 -> is_byte b2 -> Formatter_IsValidUtf8ThreeByte b0 b1 b2 = true ->
  exists c, is_scalar c /\ [b0; b1; b2] = utf8_encode c.
Proof.
  intros H0 H1 H2 E. exists ((b0 - 0xE0) * 4096 + (b1 - 0x80) * 64 + (b2 - 0x80)).
  encode_exact.
Qed.
Lemma encode_of_four b0 b1 b2 b3 :
  is_byte b0 -> is_byte b1 -> is_byte b2 -> is_byte b3 ->
  Formatter_IsValidUtf8FourByte b0 b1 b2 b3 = true ->
  exists c, is_scalar c /\ [b0; b1; b2; b3] = utf8_encode c.
Proof.
  intros H0 H1 H2 H3 E.
  exists ((b0 - 0xF0) * 262144 + (b1 - 0x80) * 4096 + (b2 - 0x80) * 64 + (b3 - 0x80)).
  encode_exact.
Qed.

Lemma codepoint_length_sound src :
  all_bytes src -> src.[0] <> 0 -> 0 < Formatter_Utf8CodepointLength src ->
  exists c, is_scalar c /\ takeZ (Formatter_Utf8CodepointLength src) src = utf8_encode c.
Proof.
  intros Hb Hnz. assert (Hi : forall i, is_byte src.[i]) by auto.
  pose proof (nthZ_nonzero_len src 0). pose proof (nthZ_nonzero_len src 1).
  pose proof (nthZ_nonzero_len src 2). pose proof (nthZ_nonzero_len src 3).
  unfold Formatter_Utf8CodepointLength.
  repeat destruct_bool_step; bool_to_prop; intros Hlt; try lia;
    rewrite bytes_split4 by lia; cbn.
  - exists src.[0]. specialize (Hi 0). rewrite ascii_range in E by done. unfold is_byte, is_scalar, utf8_encode in *.
    rewrite E. split; [lia | done].
  - by apply encode_of_two.
  - by apply encode_of_three.
  - by apply encode_of_four.
Qed.

(** The code's test decides the specification: the length it gives is positive
    exactly when the string starts with the encoding of a scalar value, and it
    is then the length of that encoding. *)
Lemma Utf8CodepointLength_spec (src : bytes) (n : Z) :
  all_bytes src -> src.[0] <> 0 ->
  (Formatter_Utf8CodepointLength src = n /\ 0 < n <->
   exists c rest, is_scalar c /\ src = utf8_encode c ++ rest /\ n = lenZ (utf8_encode c)).
Proof.
  intros Hb Hnz. split.
  - intros [<- Hn]. destruct (codepoint_length_sound src) as (c & Hc & E); [done.. |].
    exists c, (dropZ (Formatter_Utf8CodepointLength src) src). split; [done |].
    rewrite <- E. split; [by rewrite takeZ_dropZ |]. rewrite E.
    rewrite <- (codepoint_length_encode c (dropZ (Formatter_Utf8CodepointLength src) src)) by done.
    by rewrite <- E, takeZ_dropZ.
  - intros (c & rest & Hc & -> & ->). pose proof (utf8_encode_len c).
    rewrite codepoint_length_encode by done. lia.
Qed.

(** Text the formatter may hold: whole code points, none of them NUL. *)
Definition clean (l : bytes) : Prop := valid_utf8 l /\ no_nul l.

Lemma utf8_encode_no_nul c : is_scalar c -> c <> 0 -> no_nul (utf8_encode c).
Proof.
  unfold is_scalar, utf8_encode. intros H Hc. unfold no_nul.
  repeat destruct_bool_step; bool_to_prop; repeat apply Forall_cons_2;
    try apply Forall_nil_2; utf8_arith.
Qed.
Lemma utf8_encode_head c rest : is_scalar c -> c <> 0 -> (utf8_encode c ++ rest).[0] <> 0.
Proof.
  unfold is_scalar, utf8_encode. intros H Hc.
  repeat destruct_bool_step; bool_to_prop; cbn [app]; nth_eval; utf8_arith.
Qed.
Lemma clean_encode c : is_scalar c -> c <> 0 -> clean (utf8_encode c).
Proof. split; [by apply valid_utf8_encode | by apply utf8_encode_no_nul]. Qed.
Lemma clean_app l l' : clean l -> clean l' -> clean (l ++ l').
Proof. intros [? ?] [? ?]. split; [by apply valid_utf8_app | by apply no_nul_app]. Qed.
Lemma clean_nil : clean [].
Proof. split; [apply valid_utf8_nil | constructor]. Qed.
Lemma clean_ascii l : Forall (fun b => 0 < b < 0x80) l -> clean l.
Proof.
  intros H. split.
  - apply valid_utf8_ascii. eapply Forall_impl; [| exact H]; simpl; lia.
  - eapply Forall_impl; [| exact H]; simpl; lia.
Qed.
Lemma clean_bytes l : clean l -> all_bytes l.
Proof. intros [? _]. by apply valid_utf8_bytes. Qed.
#[export] Hint Resolve clean_encode clean_app clean_nil clean_bytes : utf8v.

(** Reading a string that starts with a code point. *)
Lemma codepoint_split src :
  all_bytes src -> src.[0] <> 0 -> 0 < Formatter_Utf8CodepointLength src ->
  exists c rest, is_scalar c /\ c <> 0 /\ src = utf8_encode c ++ rest /\
    Formatter_Utf8CodepointLength src = lenZ (utf8_encode c) /\
    takeZ (lenZ (utf8_encode c)) src = utf8_encode c /\
    dropZ (lenZ (utf8_encode c)) src = rest.
Proof.
  intros Hb Hnz Hpos.
  destruct (proj1 (Utf8CodepointLength_spec src _ Hb Hnz) (conj eq_refl Hpos))
    as (c & rest & Hc & -> & E).
  exists c, rest. split_and!; try done.
  - intros ->. by apply Hnz.
  - rewrite takeZ_app_le, takeZ_ge; [done | lia | lia].
  - rewrite dropZ_app_ge by lia. by rewrite Z.sub_diag.
Qed.
Lemma codepoint_absent src c rest :
  all_bytes src -> src.[0] <> 0 -> Formatter_Utf8CodepointLength src <= 0 ->
  is_scalar c -> src <> utf8_encode c ++ rest.
Proof.
  intros Hb Hnz Hle Hc E. pose proof (utf8_encode_len c). rewrite E in Hle.
  rewrite codepoint_length_encode in Hle by done. lia.
Qed.
Lemma codepoint_exact c rest c' rest' :
  is_scalar c -> is_scalar c' -> utf8_encode c ++ rest = utf8_encode c' ++ rest' ->
  lenZ (utf8_encode c) = lenZ (utf8_encode c').
Proof.
  intros Hc Hc' E. rewrite <- (codepoint_length_encode c rest), E by done.
  by apply codepoint_length_encode.
Qed.

(** The formatter's hand-written test of the next character decides the
    definition of UTF-8: on any C string it answers [n > 0] exactly when the
    string starts with the encoding of a Unicode scalar value, [n] being the
    length of that encoding; overlong forms, surrogates, code points above
    U+10FFFF and truncated sequences are all refused. *)
Theorem Utf8CodepointLength_decides (src : bytes) (n : Z) :
  all_bytes src -> src.[0] <> 0 ->
  (Formatter_Utf8CodepointLength src = n /\ 0 < n <->
   exists c rest, is_scalar c /\ src = utf8_encode c ++ rest /\ n = lenZ (utf8_encode c)).
Proof. apply Utf8CodepointLength_spec. Qed.

Lemma Utf8CodepointLength_decides_witness :
  Formatter_Utf8CodepointLength [0xE2; 0x82; 0xAC; 0x21] = 3 /\ 0 < 3 <->
  exists c rest, is_scalar c /\ [0xE2; 0x82; 0xAC; 0x21] = utf8_encode c ++ rest /\ 3 = lenZ (utf8_encode c).
Proof.
  apply (Utf8CodepointLength_decides [0xE2; 0x82; 0xAC; 0x21] 3).
  - repeat (apply Forall_cons_2; [split; reflexivity || discriminate |]). apply Forall_nil_2.
  - discriminate.
Defined.

(** The bytes of one encoding, by position. *)
Lemma encode_lead c m : is_scalar c -> 1 <= m < lenZ (utf8_encode c) -> is_multi_lead m (utf8_encode c).[0].
Proof.
  unfold is_scalar, utf8_encode. intros Hc Hm.
  repeat destruct_bool_step; bool_to_prop; autorewrite with len in *; nth_eval;
    unfold is_multi_lead; repeat destruct_bool_step; utf8_arith.
Qed.
Lemma encode_continuation c i : is_scalar c -> 1 <= i < lenZ (utf8_encode c) -> 0x80 <= (utf8_encode c).[i] < 0xC0.
Proof.
  unfold is_scalar, utf8_encode. intros Hc Hi.
  repeat destruct_bool_step; bool_to_prop; autorewrite with len in *; try lia;
    assert (i = 1 \/ i = 2 \/ i = 3) as [-> | [-> | ->]] by lia; try lia; nth_eval; utf8_arith.
Qed.

Section multi_lead_tests.
Context (b : Z) (Hb : is_byte b).
Lemma lead1_test :
  SolidSyslogUtf8_IsTwoByteLead b || SolidSyslogUtf8_IsThreeByteLead b || SolidSyslogUtf8_IsFourByteLead b = true
  <-> is_multi_lead 1 b.
Proof using Hb. utf8_ranges. unfold is_multi_lead. repeat destruct_bool_step; lia. Qed.
Lemma lead2_test :
  SolidSyslogUtf8_IsThreeByteLead b || SolidSyslogUtf8_IsFourByteLead b = true <-> is_multi_lead 2 b.
Proof using Hb. utf8_ranges. unfold is_multi_lead. repeat destruct_bool_step; lia. Qed.
Lemma lead3_test : SolidSyslogUtf8_IsFourByteLead b = true <-> is_multi_lead 3 b.
Proof using Hb. utf8_ranges. unfold is_multi_lead. repeat destruct_bool_step; lia. Qed.
End multi_lead_tests.

Lemma no_nul_scalars cs : Forall is_scalar cs -> no_nul (utf8_encode_all cs) -> Forall (fun c => c <> 0) cs.
Proof.
  induction 1 as [|c cs Hc _ IH]; [constructor |].
  rewrite utf8_encode_all_cons. intros [H1 H2]%no_nul_app. constructor; [| by apply IH].
  intros ->. unfold utf8_encode in H1. simpl in H1. by apply Forall_cons_1 in H1 as [? _].
Qed.

(** * Deciding what is clean *)

Fixpoint clean_scan (fuel : nat) (l : bytes) : bool :=
  match fuel, l with
  | _, [] => true
  | O, _ => false
  | S fuel, _ => let n := Formatter_Utf8CodepointLength l in (0 <? n) && clean_scan fuel (dropZ n l)
  end.
Definition is_clean (l : bytes) : bool := forallb (fun b => (0 <? b) && (b <? 256)) l && clean_scan (length l) l.

Lemma clean_scan_spec fuel l : (length l <= fuel)%nat -> all_bytes l -> no_nul l -> clean_scan fuel l = true <-> valid_utf8 l.
Proof.
  revert l. induction fuel as [| fuel IH]; intros l Hf Hb Hn.
  - destruct l; simpl in *; [| lia]. split; [intros _; apply valid_utf8_nil | done].
  - destruct l as [| b l]; [split; [intros _; apply valid_utf8_nil | done] |]. simpl clean_scan. set (s := b :: l) in *.
    assert (Hnz : s.[0] <> 0) by (unfold s; rewrite nthZ_0_cons; by apply Forall_cons_1 in Hn as [? _]).
    split.
    + intros [Hpos Hrest]%andb_prop. apply Z.ltb_lt in Hpos.
      destruct (codepoint_split s Hb Hnz Hpos) as (c & rest & Hc & _ & Es & El & _ & Ed). rewrite El, Ed in Hrest. pose proof (utf8_encode_len c).
      rewrite Es in Hb, Hn, Hf. apply Forall_app in Hb as [_ Hb]. apply no_nul_app in Hn as [_ Hn]. rewrite length_app in Hf. unfold lenZ in *.
      rewrite Es. apply valid_utf8_app; [by apply valid_utf8_encode |]. apply IH; [lia | done | done | done].
    + intros (cs & Hcs & Es). destruct cs as [| c cs]; [done |]. rewrite utf8_encode_all_cons in Es. apply Forall_cons_1 in Hcs as [Hc Hcs].
      pose proof (utf8_encode_len c). rewrite Es, codepoint_length_encode by done. replace (0 <? lenZ (utf8_encode c)) with true by lia. simpl.
      rewrite dropZ_app_ge, Z.sub_diag, dropZ_0 by lia.
      rewrite Es in Hb, Hn, Hf. apply Forall_app in Hb as [_ Hb]. apply no_nul_app in Hn as [_ Hn]. rewrite length_app in Hf. unfold lenZ in *.
      apply IH; [lia | done | done | by exists cs].
Qed.
Lemma is_clean_spec l : is_clean l = true <-> clean l.
Proof.
  assert (Hb : forallb (fun b => (0 <? b) && (b <? 256)) l = true <-> all_bytes l /\ no_nul l).
  { rewrite forallb_forall. unfold all_bytes, no_nul, is_byte. rewrite !List.Forall_forall. split.
    - intros H. split; intros b Hin; specialize (H b Hin); lia.
    - intros [H1 H2] b Hin. specialize (H1 b Hin). specialize (H2 b Hin). simpl in *. lia. }
  unfold is_clean, clean. rewrite andb_true_iff, Hb. split.
  - intros [[H1 H2] H3]. split; [| done]. by apply (clean_scan_spec (length l)).
  - intros [H1 H2]. pose proof (valid_utf8_bytes l H1). split; [done |]. by apply clean_scan_spec.
Qed.
