(* ===== verification/Formatter.v ===== *)
(** The formatter ([SolidSyslogFormatter.c]): a bounded, NUL-terminated text
    writer over a caller's byte area.  Every call appends some bytes to the text
    and keeps as much of the result as fits ([appends]); the text is at all times
    a cut of a valid UTF-8 sequence, and [AsFormattedBuffer] repairs the cut. *)
From S2P Require Import Prelude Utf8.

(** * State *)

Record SolidSyslogFormatter := mkFormatter {
  fm_Size : Z;
  fm_Position : Z;
  fm_Buffer : bytes
}.
#[export] Instance settable_Formatter : Settable SolidSyslogFormatter :=
  fun f => mkFormatter (fm_Size f) (fm_Position f) (fm_Buffer f).

Definition NON_PRINTABLE_SUBSTITUTE : Z := 0x3F.
Definition REPLACEMENT_CHARACTER : bytes := [0xEF; 0xBF; 0xBD].

Definition Formatter_NullTerminate (formatter : SolidSyslogFormatter) : SolidSyslogFormatter :=
  if 0 <? fm_Size formatter
  then formatter <| fm_Buffer := updZ (fm_Buffer formatter) (fm_Position formatter) 0 |>
  else formatter.

Definition SolidSyslogFormatter_Create (storage : bytes) (bufferSize : Z) : SolidSyslogFormatter :=
  Formatter_NullTerminate (mkFormatter bufferSize 0 storage).

Definition Formatter_HasCapacity (formatter : SolidSyslogFormatter) : bool :=
  (0 <? fm_Size formatter) && (fm_Position formatter <? fm_Size formatter - 1).

Definition Formatter_WriteChar (formatter : SolidSyslogFormatter) (value : Z) : SolidSyslogFormatter :=
  if Formatter_HasCapacity formatter
  then formatter <| fm_Buffer := updZ (fm_Buffer formatter) (fm_Position formatter) value |>
                 <| fm_Position := fm_Position formatter + 1 |>
  else formatter.

Definition Formatter_WriteBytes (formatter : SolidSyslogFormatter) (bs : bytes) (count : Z) : SolidSyslogFormatter :=
  for_range 0 count (fun i f => Formatter_WriteChar f bs.[i]) formatter.

(** * Single characters *)

Definition Formatter_IsPrintableUsAscii (value : Z) : bool := (0x21 <=? value) && (value <=? 0x7E).

Definition Formatter_IsAsciiCharacter (value : Z) : bool :=
  (value =? 0x20) || Formatter_IsPrintableUsAscii value.

Definition SolidSyslogFormatter_AsciiCharacter (formatter : SolidSyslogFormatter) (value : Z) : SolidSyslogFormatter :=
  let emitted := if negb (Formatter_IsAsciiCharacter value) then NON_PRINTABLE_SUBSTITUTE else value in
  Formatter_NullTerminate (Formatter_WriteChar formatter emitted).

Definition UTF8_BOM : bytes := [0xEF; 0xBB; 0xBF].
Definition SolidSyslogFormatter_Bom (formatter : SolidSyslogFormatter) : SolidSyslogFormatter :=
  Formatter_NullTerminate (Formatter_WriteBytes formatter UTF8_BOM 3).

Definition SolidSyslogFormatter_NilValue (formatter : SolidSyslogFormatter) : SolidSyslogFormatter :=
  SolidSyslogFormatter_AsciiCharacter formatter 0x2D.

(** * Strings *)

Definition Formatter_CodepointFits (codepointLength remainingDecodedLength : Z) : bool :=
  (0 <? codepointLength) && (codepointLength <=? remainingDecodedLength).

(** One round of a loop consumes at least one byte of the string. *)
Definition string_fuel (source : bytes) : nat := S (length source).

Definition BoundedString_step (source : bytes) (maxLength : Z)
    (s : SolidSyslogFormatter * Z) : SolidSyslogFormatter * Z :=
  let '(formatter, len) := s in
  let codepointLength := Formatter_Utf8CodepointLength (dropZ len source) in
  if Formatter_CodepointFits codepointLength (maxLength - len)
  then (Formatter_WriteBytes formatter (dropZ len source) codepointLength, len + codepointLength)
  else (Formatter_WriteBytes formatter REPLACEMENT_CHARACTER 3, len + 1).

(** [(len < maxLength) && (source[len] != '\0')], shared by the two bounded loops. *)
Definition bounded_continues (source : bytes) (maxLength : Z) (s : SolidSyslogFormatter * Z) : bool :=
  (snd s <? maxLength) && negb (source.[snd s] =? 0).

Definition SolidSyslogFormatter_BoundedString (formatter : SolidSyslogFormatter) (source : bytes) (maxLength : Z) : SolidSyslogFormatter :=
  Formatter_NullTerminate
    (fst (while (string_fuel source) (bounded_continues source maxLength)
                (BoundedString_step source maxLength) (formatter, 0))).

Definition Formatter_WritePrintableUsAsciiChar (formatter : SolidSyslogFormatter) (value : Z) : SolidSyslogFormatter :=
  if Formatter_IsPrintableUsAscii value
  then Formatter_WriteChar formatter value
  else Formatter_WriteChar formatter NON_PRINTABLE_SUBSTITUTE.

Definition SolidSyslogFormatter_PrintUsAsciiString (formatter : SolidSyslogFormatter) (source : bytes) (maxLength : Z) : SolidSyslogFormatter :=
  Formatter_NullTerminate
    (fst (while (string_fuel source) (bounded_continues source maxLength)
                (fun '(f, len) => (Formatter_WritePrintableUsAsciiChar f source.[len], len + 1))
                (formatter, 0))).

(** ** Escaped strings *)

Record EscapedContext := mkEscapedContext {
  ec_Formatter : SolidSyslogFormatter;
  ec_Source : bytes;
  ec_SourcePos : Z;
  ec_DecodedLength : Z;
  ec_MaxDecodedLength : Z;
  ec_Exhausted : bool
}.
#[export] Instance settable_EscapedContext : Settable EscapedContext :=
  fun c => mkEscapedContext (ec_Formatter c) (ec_Source c) (ec_SourcePos c)
    (ec_DecodedLength c) (ec_MaxDecodedLength c) (ec_Exhausted c).

Definition Formatter_NeedsEscape (value : Z) : bool :=
  (value =? 0x22) || (value =? 0x5C) || (value =? 0x5D).

Definition Formatter_IsExhausted (context : EscapedContext) : bool :=
  ec_Exhausted context || ((ec_Source context).[ec_SourcePos context] =? 0).

Definition Formatter_Fits (context : EscapedContext) (decodedAdvance : Z) : bool :=
  (0 <? decodedAdvance) &&
  (decodedAdvance <=? size_sub (ec_MaxDecodedLength context) (ec_DecodedLength context)).

Definition Formatter_Exhaust (context : EscapedContext) : EscapedContext :=
  context <| ec_Exhausted := true |>.

Definition Formatter_WriteContext (context : EscapedContext) (bs : bytes)
    (byteCount sourceAdvance decodedAdvance : Z) : EscapedContext :=
  context <| ec_Formatter := Formatter_WriteBytes (ec_Formatter context) bs byteCount |>
          <| ec_SourcePos := ec_SourcePos context + sourceAdvance |>
          <| ec_DecodedLength := size_add (ec_DecodedLength context) decodedAdvance |>.

Definition Formatter_WriteEscaped (context : EscapedContext) : EscapedContext :=
  let ESCAPE_PREFIX := 0x5C in
  let ESCAPED_CHARACTER_DECODED_LENGTH := 1 in
  if Formatter_Fits context ESCAPED_CHARACTER_DECODED_LENGTH
  then let escaped := [ESCAPE_PREFIX; (ec_Source context).[ec_SourcePos context]] in
       Formatter_WriteContext context escaped 2 1 ESCAPED_CHARACTER_DECODED_LENGTH
  else Formatter_Exhaust context.

Definition Formatter_WriteReplacement (context : EscapedContext) : EscapedContext :=
  if Formatter_Fits context 3
  then Formatter_WriteContext context REPLACEMENT_CHARACTER 3 1 3
  else Formatter_Exhaust context.

Definition Formatter_WriteCodepoint (context : EscapedContext) : EscapedContext :=
  let source := dropZ (ec_SourcePos context) (ec_Source context) in
  let codepointLength := Formatter_Utf8CodepointLength source in
  if Formatter_Fits context codepointLength
  then Formatter_WriteContext context source codepointLength codepointLength codepointLength
  else Formatter_WriteReplacement context.

Definition EscapedString_step (context : EscapedContext) : EscapedContext :=
  if Formatter_NeedsEscape (ec_Source context).[ec_SourcePos context]
  then Formatter_WriteEscaped context
  else Formatter_WriteCodepoint context.

Definition EscapedString_loop (formatter : SolidSyslogFormatter) (source : bytes) (maxDecodedLength : Z) : EscapedContext :=
  while (S (string_fuel source)) (fun context => negb (Formatter_IsExhausted context))
        EscapedString_step
        (mkEscapedContext formatter source 0 0 maxDecodedLength false).

Definition SolidSyslogFormatter_EscapedString (formatter : SolidSyslogFormatter) (source : bytes) (maxDecodedLength : Z) : SolidSyslogFormatter :=
  Formatter_NullTerminate (ec_Formatter (EscapedString_loop formatter source maxDecodedLength)).

(** * Numbers *)

(** A [uint32_t] has at most ten digits. *)
Definition digit_fuel : nat := 10.

Definition Formatter_CountDigits (value : Z) : Z :=
  fst (while digit_fuel (fun '(count, remaining) => 10 <=? remaining)
             (fun '(count, remaining) => (count + 1, remaining / 10)) (1, value)).

Definition Formatter_DigitToChar (value : Z) : Z := 0x30 + value mod 10.

Definition Uint32_digit_step (s : SolidSyslogFormatter * Z * Z) : SolidSyslogFormatter * Z * Z :=
  let '(formatter, remaining, divisor) := s in
  (Formatter_WriteChar formatter (Formatter_DigitToChar (remaining / divisor)),
   remaining mod divisor, divisor / 10).

Definition SolidSyslogFormatter_Uint32 (formatter : SolidSyslogFormatter) (value : Z) : SolidSyslogFormatter :=
  let digits := Formatter_CountDigits value in
  let divisor := for_range 1 digits (fun _ divisor => u32 (divisor * 10)) 1 in
  let '(formatter, _, _) := for_range 0 digits (fun _ => Uint32_digit_step) (formatter, value, divisor) in
  Formatter_NullTerminate formatter.

Definition SolidSyslogFormatter_TwoDigit (formatter : SolidSyslogFormatter) (value : Z) : SolidSyslogFormatter :=
  let formatter := Formatter_WriteChar formatter (Formatter_DigitToChar (value / 10)) in
  let formatter := Formatter_WriteChar formatter (Formatter_DigitToChar value) in
  Formatter_NullTerminate formatter.

Definition SolidSyslogFormatter_FourDigit (formatter : SolidSyslogFormatter) (value : Z) : SolidSyslogFormatter :=
  let formatter := Formatter_WriteChar formatter (Formatter_DigitToChar (value / 1000)) in
  let formatter := Formatter_WriteChar formatter (Formatter_DigitToChar (value / 100)) in
  let formatter := Formatter_WriteChar formatter (Formatter_DigitToChar (value / 10)) in
  let formatter := Formatter_WriteChar formatter (Formatter_DigitToChar value) in
  Formatter_NullTerminate formatter.

Definition SolidSyslogFormatter_SixDigit (formatter : SolidSyslogFormatter) (value : Z) : SolidSyslogFormatter :=
  let formatter := Formatter_WriteChar formatter (Formatter_DigitToChar (value / 100000)) in
  let formatter := Formatter_WriteChar formatter (Formatter_DigitToChar (value / 10000)) in
  let formatter := Formatter_WriteChar formatter (Formatter_DigitToChar (value / 1000)) in
  let formatter := Formatter_WriteChar formatter (Formatter_DigitToChar (value / 100)) in
  let formatter := Formatter_WriteChar formatter (Formatter_DigitToChar (value / 10)) in
  let formatter := Formatter_WriteChar formatter (Formatter_DigitToChar value) in
  Formatter_NullTerminate formatter.

(** * Reading the text back *)

Definition trim_from (buffer : bytes) (p : Z) : Z :=
  if (1 <=? p) && (SolidSyslogUtf8_IsTwoByteLead buffer.[p - 1] ||
                   SolidSyslogUtf8_IsThreeByteLead buffer.[p - 1] ||
                   SolidSyslogUtf8_IsFourByteLead buffer.[p - 1])
  then p - 1
  else if (2 <=? p) && (SolidSyslogUtf8_IsThreeByteLead buffer.[p - 2] ||
                        SolidSyslogUtf8_IsFourByteLead buffer.[p - 2])
  then p - 2
  else if (3 <=? p) && SolidSyslogUtf8_IsFourByteLead buffer.[p - 3]
  then p - 3
  else p.

Definition Formatter_TrimTruncatedMultiByteTail (formatter : SolidSyslogFormatter) : SolidSyslogFormatter :=
  let buffer := fm_Buffer formatter in
  let p := fm_Position formatter in
  let trimFrom := trim_from buffer p in
  formatter <| fm_Buffer := for_range trimFrom p (fun i b => updZ b i 0) buffer |>.

(** The C string the caller is handed, with the formatter it leaves. *)
Definition SolidSyslogFormatter_AsFormattedBuffer (formatter : SolidSyslogFormatter) : bytes * SolidSyslogFormatter :=
  let formatter := Formatter_TrimTruncatedMultiByteTail formatter in
  (fm_Buffer formatter, formatter).

Definition SolidSyslogFormatter_Length (formatter : SolidSyslogFormatter) : Z := fm_Position formatter.

(** Writing through [SolidSyslogFormatter_Bytes] replaces the byte area. *)
Definition SolidSyslogFormatter_Bytes (formatter : SolidSyslogFormatter) : bytes := fm_Buffer formatter.
Definition formatter_set_bytes (formatter : SolidSyslogFormatter) (bs : bytes) : SolidSyslogFormatter :=
  formatter <| fm_Buffer := bs |>.

(** * What a call does to the text *)

Definition fmt_text (f : SolidSyslogFormatter) : bytes := takeZ (fm_Position f) (fm_Buffer f).
(** The longest text that fits: one byte is kept for the terminator. *)
Definition fmt_capacity (f : SolidSyslogFormatter) : Z := Z.max 0 (fm_Size f - 1).
Definition fmt_wf (f : SolidSyslogFormatter) : Prop :=
  0 <= fm_Size f <= lenZ (fm_Buffer f) /\ 0 <= fm_Position f <= fmt_capacity f.
Definition fmt_terminated (f : SolidSyslogFormatter) : Prop :=
  0 < fm_Size f -> (fm_Buffer f).[fm_Position f] = 0.

(** [f'] is [f] after writing [bs]: the text is extended and cut at the
    capacity, and nothing outside the [fm_Size] bytes of the area is touched. *)
Record appends (bs : bytes) (f f' : SolidSyslogFormatter) : Prop := {
  app_wf : fmt_wf f';
  app_size : fm_Size f' = fm_Size f;
  app_text : fmt_text f' = takeZ (fmt_capacity f) (fmt_text f ++ bs);
  app_frame : dropZ (fm_Size f) (fm_Buffer f') = dropZ (fm_Size f) (fm_Buffer f)
}.
(** A public call also leaves the text terminated. *)
Definition prints (bs : bytes) (f f' : SolidSyslogFormatter) : Prop :=
  appends bs f f' /\ fmt_terminated f'.

Lemma fmt_text_len f : fmt_wf f -> lenZ (fmt_text f) = fm_Position f.
Proof. intros [? ?]. unfold fmt_text, fmt_capacity in *. rewrite lenZ_takeZ; lia. Qed.
Lemma fmt_text_cut f : fmt_wf f -> takeZ (fmt_capacity f) (fmt_text f) = fmt_text f.
Proof. intros H. apply takeZ_ge. rewrite fmt_text_len by done. apply H. Qed.
Lemma appends_capacity bs f f' : appends bs f f' -> fmt_capacity f' = fmt_capacity f.
Proof. intros H. unfold fmt_capacity. by rewrite (app_size _ _ _ H). Qed.
Lemma appends_refl f : fmt_wf f -> appends [] f f.
Proof. intros H. split; try done. by rewrite app_nil_r, fmt_text_cut. Qed.
Lemma appends_trans bs1 bs2 f f1 f2 : appends bs1 f f1 -> appends bs2 f1 f2 -> appends (bs1 ++ bs2) f f2.
Proof.
  intros H1 H2. split.
  - apply (app_wf _ _ _ H2).
  - by rewrite (app_size _ _ _ H2), (app_size _ _ _ H1).
  - rewrite (app_text _ _ _ H2), (appends_capacity _ _ _ H1), (app_text _ _ _ H1).
    by rewrite takeZ_app_takeZ, app_assoc.
  - rewrite <- (app_size _ _ _ H1), (app_frame _ _ _ H2), (app_size _ _ _ H1).
    apply (app_frame _ _ _ H1).
Qed.
Lemma prints_trans bs1 bs2 f f1 f2 : prints bs1 f f1 -> prints bs2 f1 f2 -> prints (bs1 ++ bs2) f f2.
Proof. intros [H1 _] [H2 ?]. split; [eapply appends_trans; eassumption | done]. Qed.
Lemma prints_wf bs f f' : prints bs f f' -> fmt_wf f'.
Proof. intros [H _]. apply (app_wf _ _ _ H). Qed.
Lemma prints_appends bs f f' : prints bs f f' -> appends bs f f'.
Proof. by intros [? _]. Qed.
Lemma prints_refl f : fmt_wf f -> fmt_terminated f -> prints [] f f.
Proof. split; [by apply appends_refl | done]. Qed.


Lemma WriteChar_appends f v : fmt_wf f -> appends [v] f (Formatter_WriteChar f v).
Proof.
  intros Hwf. pose proof Hwf as [[? ?] [? ?]]. pose proof (fmt_text_len f Hwf).
  unfold Formatter_WriteChar, Formatter_HasCapacity, fmt_capacity in *.
  destruct (_ && _) eqn:E; bool_to_prop.
  - split; unfold fmt_wf, fmt_text, fmt_capacity in *; simpl.
    + len_simpl. lia.
    + done.
    + rewrite takeZ_updZ_snoc, (takeZ_ge _ (_ ++ _)) by (len_simpl; lia). done.
    + apply dropZ_updZ. lia.
  - apply andb_false_iff in E. split; [done | done | | done]. rewrite takeZ_app_le, fmt_text_cut; [done | done |].
    unfold fmt_capacity. lia.
Qed.

Lemma WriteBytes_appends f bs count :
  fmt_wf f -> 0 <= count <= lenZ bs -> appends (takeZ count bs) f (Formatter_WriteBytes f bs count).
Proof.
  intros Hwf Hc. unfold Formatter_WriteBytes.
  apply (for_range_inv (fun i f' => appends (takeZ i bs) f f')); [lia | by apply appends_refl |].
  intros i f' Hi Happ. rewrite (takeZ_add i 1), (dropZ_cons_nthZ _ i) by lia.
  eapply appends_trans; [done |]. apply WriteChar_appends, (app_wf _ _ _ Happ).
Qed.

Lemma NullTerminate_prints bs f f' : appends bs f f' -> prints bs f (Formatter_NullTerminate f').
Proof.
  intros [Hwf Hsize Htext Hframe]. pose proof Hwf as [[? ?] [? ?]].
  unfold prints, fmt_terminated, Formatter_NullTerminate.
  destruct (0 <? fm_Size f') eqn:E; [| split; [done | intros; lia]]. simpl.
  bool_to_prop. split; [split |].
  - unfold fmt_wf, fmt_capacity in *. simpl. len_simpl. lia.
  - done.
  - rewrite <- Htext. unfold fmt_text. simpl. apply takeZ_updZ. lia.
  - simpl. unfold fmt_capacity in *. rewrite dropZ_updZ by lia. done.
  - intros _. apply nthZ_updZ_eq. unfold fmt_capacity in *. lia.
Qed.

Create HintDb fmt.
#[export] Hint Resolve WriteChar_appends WriteBytes_appends NullTerminate_prints prints_wf
  prints_appends appends_refl prints_refl app_wf : fmt.
(** A sequence of writes appends the concatenation of what each appends. *)
Ltac appends_seq :=
  repeat match goal with
  | |- prints _ _ (Formatter_NullTerminate _) => apply NullTerminate_prints
  | |- appends _ _ (Formatter_WriteChar ?f ?v) =>
      eapply appends_trans; [| apply WriteChar_appends]
  end.

(** * Bounded strings *)

(** [Bounded budget src out]: copying [src] within a budget of source bytes
    emits [out].  Whole characters are copied; a byte that starts no character
    that fits becomes U+FFFD. *)
Inductive Bounded : Z -> bytes -> bytes -> Prop :=
| bounded_end budget src : budget <= 0 \/ src.[0] = 0 -> Bounded budget src []
| bounded_char budget c rest out :
    is_scalar c -> c <> 0 -> lenZ (utf8_encode c) <= budget ->
    Bounded (budget - lenZ (utf8_encode c)) rest out ->
    Bounded budget (utf8_encode c ++ rest) (utf8_encode c ++ out)
| bounded_bad budget b rest out :
    0 < budget -> b <> 0 ->
    (forall c rest', is_scalar c -> b :: rest = utf8_encode c ++ rest' -> budget < lenZ (utf8_encode c)) ->
    Bounded (budget - 1) rest out ->
    Bounded budget (b :: rest) (utf8_encode 0xFFFD ++ out).

Lemma Bounded_clean budget src out : Bounded budget src out -> clean out.
Proof.
  induction 1; [auto with utf8v | auto with utf8v |].
  apply clean_app; [apply clean_encode; unfold is_scalar; lia | done].
Qed.

(** Copying a valid string that fits changes nothing. *)
Lemma Bounded_exact cs budget out :
  Forall is_scalar cs -> Forall (fun c => c <> 0) cs ->
  lenZ (utf8_encode_all cs) <= budget -> Bounded budget (utf8_encode_all cs) out ->
  out = utf8_encode_all cs.
Proof.
  intros Hs. revert budget out. induction Hs as [|c cs Hc _ IH]; intros budget out Hnz Hlen HB.
  - inversion HB as [| ? c' rest ? ? ? ? ? Eb E |]; [done | exfalso].
    pose proof (utf8_encode_len c'). apply (f_equal lenZ) in E. rewrite lenZ_app in E.
    change (lenZ (utf8_encode_all [])) with 0 in E. pose proof (lenZ_nonneg rest). lia.
  - apply Forall_cons_1 in Hnz as [Hc0 Hnz].
    rewrite utf8_encode_all_cons in *. rewrite lenZ_app in Hlen.
    pose proof (utf8_encode_len c). pose proof (lenZ_nonneg (utf8_encode_all cs)).
    inversion HB as [? ? [Hend | Hend] | ? c' rest ? Hc' ? ? HB' Eb E | ? b rest ? ? ? Hno ? Eb E]; subst.
    + lia.
    + exfalso. by apply (utf8_encode_head c (utf8_encode_all cs)) in Hend.
    + pose proof (codepoint_exact _ _ _ _ Hc' Hc E) as El.
      apply app_inj_1 in E as [E1 ->]; [| unfold lenZ in El; lia].
      rewrite E1. f_equal. apply (IH _ _ Hnz) in HB'; [done | lia].
    + exfalso. specialize (Hno c (utf8_encode_all cs) Hc E). lia.
Qed.

Lemma Bounded_whole budget src out : clean src -> lenZ src <= budget -> Bounded budget src out -> out = src.
Proof. intros [(cs & Hcs & ->) Hn] Hl HB. eapply Bounded_exact; try done. by apply no_nul_scalars. Qed.

Section bounded_loop.
Context (f0 : SolidSyslogFormatter) (source : bytes) (maxLength : Z).
Context (Hwf : fmt_wf f0) (Hb : all_bytes source).

Definition bounded_inv (s : SolidSyslogFormatter * Z) : Prop :=
  0 <= snd s <= lenZ source /\
  exists out, appends out f0 (fst s) /\
    forall o, Bounded (maxLength - snd s) (dropZ (snd s) source) o -> Bounded maxLength source (out ++ o).

Lemma bounded_step s :
  bounded_inv s -> bounded_continues source maxLength s = true ->
  bounded_inv (BoundedString_step source maxLength s) /\
  0 <= lenZ source - snd (BoundedString_step source maxLength s) < lenZ source - snd s.
Proof using Hb.
  destruct s as [f len]. intros [[Hl0 Hl] (out & Happ & HB)] Hc. unfold bounded_continues in Hc.
  unfold BoundedString_step. simpl in *. bool_to_prop.
  assert (Hlt : len < lenZ source) by (by apply nthZ_nonzero_len).
  set (src := dropZ len source) in *.
  assert (Hnz : src.[0] <> 0) by (unfold src; rewrite nthZ_dropZ, Z.add_0_r by lia; done).
  assert (Hsb : all_bytes src) by (by apply all_bytes_dropZ).
  assert (Hsl : lenZ src = lenZ source - len) by (unfold src; len_simpl; lia).
  destruct (Formatter_CodepointFits _ _) eqn:Ef; unfold Formatter_CodepointFits in Ef.
  - bool_to_prop.
    destruct (codepoint_split src) as (c & rest & Hsc & Hc0 & Esrc & En & Et & Ed); [done.. |].
    rewrite En in *. pose proof (utf8_encode_len c).
    assert (lenZ (utf8_encode c) <= lenZ src) by (rewrite Esrc, lenZ_app; pose proof (lenZ_nonneg rest); lia).
    split; [| simpl; lia]. split; [simpl; lia |].
    exists (out ++ utf8_encode c). simpl. split.
    + eapply appends_trans; [done |]. rewrite <- Et at 1.
      apply WriteBytes_appends; [eauto with fmt | lia].
    + intros o Ho. rewrite <- app_assoc. apply HB. rewrite Esrc. apply bounded_char; try done.
      rewrite <- Z.sub_add_distr. unfold src in Ed. rewrite dropZ_dropZ, Ed in * by lia. done.
  - split; [| simpl; lia]. split; [simpl; lia |].
    exists (out ++ utf8_encode 0xFFFD). simpl. split.
    + eapply appends_trans; [done |]. apply (WriteBytes_appends _ REPLACEMENT_CHARACTER 3); [eauto with fmt | done].
    + intros o Ho. rewrite <- app_assoc. apply HB.
      assert (Esrc : src = src.[0] :: dropZ 1 src) by (apply (dropZ_cons_nthZ src 0); lia).
      rewrite Esrc. apply bounded_bad; [lia | done | |].
      * intros c rest' Hsc E. rewrite <- Esrc in E. pose proof (utf8_encode_len c).
        rewrite E, codepoint_length_encode in Ef by done. apply andb_false_iff in Ef. lia.
      * unfold src. rewrite dropZ_dropZ by lia. rewrite <- Z.sub_add_distr. done.
Qed.

Lemma BoundedString_refines :
  exists out, Bounded maxLength source out /\
    prints out f0 (SolidSyslogFormatter_BoundedString f0 source maxLength).
Proof using Hwf Hb.
  unfold SolidSyslogFormatter_BoundedString.
  destruct (while_rule bounded_inv (fun s => lenZ source - snd s)
    (bounded_continues source maxLength) (BoundedString_step source maxLength) bounded_step
    (string_fuel source) (f0, 0)) as [[Hl (out & Happ & HB)] Hend].
  - split; [split; [done | apply lenZ_nonneg] |]. exists []. simpl.
    split; [by apply appends_refl |]. intros o. rewrite Z.sub_0_r, dropZ_0. done.
  - unfold string_fuel, lenZ. simpl. lia.
  - exists out. split; [| by apply NullTerminate_prints].
    rewrite <- (app_nil_r out). apply HB, bounded_end.
    unfold bounded_continues in Hend. set (s := while _ _ _ _) in *. clearbody s.
    apply andb_false_iff in Hend as [Hend | Hend]; bool_to_prop; [lia |].
    rewrite nthZ_dropZ, Z.add_0_r by lia. by right.
Qed.
End bounded_loop.

(** * Escaped strings *)

(** The characters RFC 5424 section 6.3.3 has escaped in a PARAM-VALUE. *)
Definition special (b : Z) : Prop := b = 0x22 \/ b = 0x5C \/ b = 0x5D.
#[export] Instance special_dec b : Decision (special b).
Proof. unfold special. apply _. Defined.

(** No character of a string fits a budget of decoded bytes. *)
Definition no_char_fits (budget : Z) (src : bytes) : Prop :=
  forall c rest, is_scalar c -> src = utf8_encode c ++ rest -> budget < lenZ (utf8_encode c).

(** [Escaped budget src out dec]: escaping [src] emits [out], from which a reader
    decodes [dec] within [budget] bytes. *)
Inductive Escaped : Z -> bytes -> bytes -> bytes -> Prop :=
| escaped_end budget src : src.[0] = 0 -> Escaped budget src [] []
| escaped_special budget b rest out dec :
    special b -> 1 <= budget -> Escaped (budget - 1) rest out dec ->
    Escaped budget (b :: rest) (0x5C :: b :: out) (b :: dec)
| escaped_char budget c rest out dec :
    is_scalar c -> c <> 0 -> ~ special c -> lenZ (utf8_encode c) <= budget ->
    Escaped (budget - lenZ (utf8_encode c)) rest out dec ->
    Escaped budget (utf8_encode c ++ rest) (utf8_encode c ++ out) (utf8_encode c ++ dec)
| escaped_bad budget b rest out dec :
    b <> 0 -> ~ special b -> no_char_fits budget (b :: rest) -> 3 <= budget ->
    Escaped (budget - 1 - 2) rest out dec ->
    Escaped budget (b :: rest) (utf8_encode 0xFFFD ++ out) (utf8_encode 0xFFFD ++ dec)
| escaped_stop budget b rest :
    b <> 0 -> budget < (if decide (special b) then 1 else 3) ->
    (special b \/ no_char_fits budget (b :: rest)) ->
    Escaped budget (b :: rest) [] [].

(** A reader of a PARAM-VALUE: the decoded value and what follows the closing
    quote.  A quote or bracket must be escaped, and a backslash must escape. *)
Fixpoint read_value (l : bytes) : option (bytes * bytes) :=
  match l with
  | [] => None
  | b :: l' =>
      if b =? 0x22 then Some ([], l')
      else if b =? 0x5D then None
      else if b =? 0x5C then
        match l' with
        | e :: l'' =>
            if decide (special e)
            then '(v, r) ← read_value l''; Some (e :: v, r)
            else None
        | [] => None
        end
      else '(v, r) ← read_value l'; Some (b :: v, r)
  end.

Lemma read_value_plain v l : Forall (fun b => ~ special b) v ->
  read_value (v ++ l) = '(d, r) ← read_value l; Some (v ++ d, r).
Proof.
  induction 1 as [|b v Hb _ IH]; simpl.
  - by destruct (read_value l) as [[? ?]|].
  - unfold special in Hb.
    destruct (Z.eqb_spec b 0x22), (Z.eqb_spec b 0x5D), (Z.eqb_spec b 0x5C); try (exfalso; lia).
    rewrite IH. by destruct (read_value l) as [[? ?]|].
Qed.
Lemma utf8_encode_plain c : is_scalar c -> ~ special c -> Forall (fun b => ~ special b) (utf8_encode c).
Proof.
  unfold is_scalar, utf8_encode, special. intros H Hc.
  repeat destruct_bool_step; bool_to_prop; repeat apply Forall_cons_2;
    try apply Forall_nil_2; utf8_arith.
Qed.

(** [out] is a piece of a PARAM-VALUE that a reader decodes to [dec], wherever in
    the value it stands. *)
Definition value_text (out dec : bytes) : Prop :=
  forall l, read_value (out ++ l) = '(d, r) ← read_value l; Some (dec ++ d, r).

Lemma value_text_nil : value_text [] [].
Proof. intros l. simpl. by destruct (read_value l) as [[? ?]|]. Qed.
Lemma value_text_app o1 d1 o2 d2 : value_text o1 d1 -> value_text o2 d2 -> value_text (o1 ++ o2) (d1 ++ d2).
Proof.
  intros H1 H2 l. rewrite <- app_assoc, H1, H2.
  destruct (read_value l) as [[? ?]|]; simpl; [by rewrite app_assoc | done].
Qed.
Lemma value_text_plain v : Forall (fun b => ~ special b) v -> value_text v v.
Proof. intros H l. by apply read_value_plain. Qed.
Lemma value_text_close out dec rest : value_text out dec -> read_value (out ++ 0x22 :: rest) = Some (dec, rest).
Proof. intros H. rewrite H. simpl. by rewrite app_nil_r. Qed.
#[export] Hint Resolve value_text_nil value_text_app : fmt.

Lemma Escaped_read budget src out dec : Escaped budget src out dec -> value_text out dec.
Proof.
  induction 1 as [| budget b src out dec Hs _ _ IH | budget c src out dec Hc H0 Hn _ _ IH
                 | budget b src out dec H0 Hn _ _ _ IH |]; auto with fmt.
  - intros l. simpl. rewrite decide_True, IH by done. by destruct (read_value l) as [[? ?]|].
  - apply value_text_app; [by apply value_text_plain, utf8_encode_plain | done].
  - apply value_text_app; [apply value_text_plain, utf8_encode_plain; unfold is_scalar, special; lia | done].
Qed.
Lemma Escaped_clean budget src out dec : Escaped budget src out dec -> clean out /\ clean dec.
Proof.
  assert (Hs : forall b, special b -> clean [b]).
  { intros b H. apply clean_ascii. apply Forall_singleton. unfold special in H. lia. }
  assert (Hr : clean (utf8_encode 0xFFFD)) by (apply clean_encode; unfold is_scalar; lia).
  induction 1 as [| budget b src out dec Hb _ _ [? ?] | ? ? ? ? ? ? ? ? ? _ [? ?] | ? ? ? ? ? ? ? ? ? _ [? ?] |];
    auto with utf8v.
  split; [| by apply (clean_app [b]); auto].
  apply (clean_app [0x5C]); [apply Hs; unfold special; lia | by apply (clean_app [b]); auto].
Qed.
Lemma Escaped_budget budget src out dec : Escaped budget src out dec -> lenZ dec <= Z.max 0 budget.
Proof. induction 1; len_simpl; change (lenZ (utf8_encode 0xFFFD)) with 3; lia. Qed.

(** A valid string that fits the budget is decoded as it was. *)
Lemma Escaped_exact cs budget out dec :
  Forall is_scalar cs -> Forall (fun c => c <> 0) cs ->
  lenZ (utf8_encode_all cs) <= budget -> Escaped budget (utf8_encode_all cs) out dec ->
  dec = utf8_encode_all cs.
Proof.
  intros Hs. revert budget out dec. induction Hs as [|c cs Hc _ IH]; intros budget out dec Hnz Hlen HE.
  - inversion HE as [| | ? c' rest ? ? ? ? ? ? ? Eb E | |]; [done | exfalso].
    pose proof (utf8_encode_len c'). apply (f_equal lenZ) in E. rewrite lenZ_app in E.
    change (lenZ (utf8_encode_all [])) with 0 in E. pose proof (lenZ_nonneg rest). lia.
  - apply Forall_cons_1 in Hnz as [Hc0 Hnz].
    rewrite utf8_encode_all_cons in *. rewrite lenZ_app in Hlen.
    pose proof (utf8_encode_len c). pose proof (lenZ_nonneg (utf8_encode_all cs)).
    inversion HE as [? ? Hend | ? b rest o d Hb ? HE' Eb E | ? c' rest o d Hc' ? ? ? HE' Eb E
                    | ? b rest o d ? ? Hno ? HE' Eb E | ? b rest ? Hlt Hno Eb E]; subst.
    + exfalso. by apply (utf8_encode_head c (utf8_encode_all cs)) in Hend.
    + assert (Hb' : is_scalar b) by (unfold is_scalar, special in *; lia).
      assert (Eb : utf8_encode b = [b]).
      { unfold special in Hb. unfold utf8_encode. by replace (b <? 0x80) with true by lia. }
      change (b :: rest) with ([b] ++ rest) in E. rewrite <- Eb in E.
      pose proof (codepoint_exact _ _ _ _ Hb' Hc E) as El.
      apply app_inj_1 in E as [E1 ->]; [| unfold lenZ in El; lia].
      rewrite <- E1, Eb in *. apply (IH _ _ _ Hnz) in HE'; [by rewrite HE' | cbn [app] in *; rewrite lenZ_cons, lenZ_nil in *; lia].
    + pose proof (codepoint_exact _ _ _ _ Hc' Hc E) as El.
      apply app_inj_1 in E as [E1 ->]; [| unfold lenZ in El; lia].
      rewrite E1. f_equal. apply (IH _ _ _ Hnz) in HE'; [done | lia].
    + exfalso. specialize (Hno c (utf8_encode_all cs) Hc E). lia.
    + exfalso. destruct Hno as [Hsp | Hno].
      * rewrite decide_True in Hlt by done. lia.
      * specialize (Hno c (utf8_encode_all cs) Hc E). lia.
Qed.

Lemma NeedsEscape_special b : Formatter_NeedsEscape b = bool_decide (special b).
Proof.
  unfold Formatter_NeedsEscape, special. apply eq_true_iff_eq.
  rewrite bool_decide_eq_true, !orb_true_iff, !Z.eqb_eq. tauto.
Qed.

Section escaped_loop.
Context (f0 : SolidSyslogFormatter) (source : bytes) (maxDecoded : Z).
Context (Hwf : fmt_wf f0) (Hb : all_bytes source) (Hmax : 0 <= maxDecoded <= SIZE_MAX).

Definition escaped_inv (c : EscapedContext) : Prop :=
  ec_Source c = source /\ ec_MaxDecodedLength c = maxDecoded /\
  0 <= ec_SourcePos c <= lenZ source /\ 0 <= ec_DecodedLength c <= maxDecoded /\
  exists out dec, appends out f0 (ec_Formatter c) /\
    if ec_Exhausted c then Escaped maxDecoded source out dec
    else forall o d, Escaped (maxDecoded - ec_DecodedLength c) (dropZ (ec_SourcePos c) source) o d ->
                     Escaped maxDecoded source (out ++ o) (dec ++ d).
Definition escaped_measure (c : EscapedContext) : Z :=
  if ec_Exhausted c then 0 else 1 + lenZ source - ec_SourcePos c.

(** A round that writes [n] source bytes as the unit [(o, d)]. *)
Lemma WriteContext_step c bs adv o d :
  escaped_inv c -> ec_Exhausted c = false -> lenZ o <= lenZ bs -> takeZ (lenZ o) bs = o ->
  1 <= adv -> ec_SourcePos c + adv <= lenZ source -> lenZ d <= maxDecoded - ec_DecodedLength c ->
  (forall o' d', Escaped (maxDecoded - ec_DecodedLength c - lenZ d) (dropZ (ec_SourcePos c + adv) source) o' d' ->
     Escaped (maxDecoded - ec_DecodedLength c) (dropZ (ec_SourcePos c) source) (o ++ o') (d ++ d')) ->
  let c' := Formatter_WriteContext c bs (lenZ o) adv (lenZ d) in
  escaped_inv c' /\ 0 <= escaped_measure c' < escaped_measure c.
Proof using Hmax Hb.
  intros (Hs & Hm & Hp & Hd & out & dec & Happ & HE) Hex Hlen Htake Hadv Hpos Hfit Hunit c'.
  pose proof (lenZ_nonneg d). rewrite Hex in HE.
  unfold c', Formatter_WriteContext. split.
  - unfold escaped_inv. simpl. rewrite size_add_small by (unfold SIZE_MAX in *; lia).
    split_and!; try done; try lia.
    exists (out ++ o), (dec ++ d). rewrite Hex. split.
    + eapply appends_trans; [done |]. rewrite <- Htake at 1.
      apply WriteBytes_appends; [eauto with fmt | pose proof (lenZ_nonneg o); lia].
    + intros o' d' HE'. rewrite <- !app_assoc. apply HE, Hunit.
      by rewrite <- Z.sub_add_distr.
  - unfold escaped_measure. simpl. rewrite Hex. lia.
Qed.
Lemma Exhaust_step c :
  escaped_inv c -> ec_Exhausted c = false ->
  Escaped (maxDecoded - ec_DecodedLength c) (dropZ (ec_SourcePos c) source) [] [] ->
  escaped_inv (Formatter_Exhaust c) /\ 0 <= escaped_measure (Formatter_Exhaust c) < escaped_measure c.
Proof using.
  intros (Hs & Hm & Hp & Hd & out & dec & Happ & HE) Hex Hstop. rewrite Hex in HE.
  unfold Formatter_Exhaust, escaped_inv, escaped_measure. simpl. rewrite Hex. split; [| lia].
  split_and!; try done; try lia. exists out, dec. split; [done |].
  rewrite <- (app_nil_r out), <- (app_nil_r dec). by apply HE.
Qed.

Lemma Fits_iff c n : escaped_inv c ->
  Formatter_Fits c n = (0 <? n) && (n <=? maxDecoded - ec_DecodedLength c).
Proof using Hmax.
  intros (_ & Hm & _ & Hd & _). unfold Formatter_Fits. rewrite Hm, size_sub_small; [done | lia].
Qed.

(** The rounds of the loop, at a position whose byte [b] does not end the string. *)
Section escaped_round.
Context (c : EscapedContext) (Hinv : escaped_inv c) (Hex : ec_Exhausted c = false).
Let b := source.[ec_SourcePos c].
Let src := dropZ (ec_SourcePos c) source.
Let budget := maxDecoded - ec_DecodedLength c.
Context (Hnz : b <> 0).

Lemma round_pos : 0 <= ec_SourcePos c < lenZ source.
Proof using Hnz Hinv. destruct Hinv as (_ & _ & ? & _). split; [lia | apply nthZ_nonzero_len; [lia | done]]. Qed.
Lemma round_src : src = b :: dropZ (ec_SourcePos c + 1) source.
Proof using Hnz Hinv. apply dropZ_cons_nthZ, round_pos. Qed.

Lemma WriteEscaped_step : special b ->
  escaped_inv (Formatter_WriteEscaped c) /\ 0 <= escaped_measure (Formatter_WriteEscaped c) < escaped_measure c.
Proof using Hnz Hinv Hex Hmax Hb.
  intros Hsp. pose proof round_pos. pose proof round_src as Esrc.
  unfold Formatter_WriteEscaped. rewrite Fits_iff, (proj1 Hinv) by done. fold b budget.
  destruct (_ && _) eqn:Ef; [bool_to_prop | apply andb_false_iff in Ef].
  - apply (WriteContext_step c [0x5C; b] 1 [0x5C; b] [b]); try done; try lia.
    intros o' d' HE. fold budget src. rewrite Esrc. by apply escaped_special.
  - apply Exhaust_step; [done.. |]. fold budget src. rewrite Esrc.
    apply escaped_stop; [done | rewrite decide_True by done; lia | by left].
Qed.

Lemma WriteReplacement_step : ~ special b -> no_char_fits budget src ->
  escaped_inv (Formatter_WriteReplacement c) /\ 0 <= escaped_measure (Formatter_WriteReplacement c) < escaped_measure c.
Proof using Hnz Hinv Hex Hmax Hb.
  intros Hsp Hno. pose proof round_pos. pose proof round_src as Esrc. rewrite Esrc in Hno.
  unfold Formatter_WriteReplacement. rewrite Fits_iff by done. fold budget.
  destruct (_ && _) eqn:Ef; [bool_to_prop | apply andb_false_iff in Ef].
  - apply (WriteContext_step c REPLACEMENT_CHARACTER 1 REPLACEMENT_CHARACTER REPLACEMENT_CHARACTER); try done; try lia.
    intros o' d' HE. fold budget src. rewrite Esrc.
    apply escaped_bad; [done | done | done | lia |]. rewrite <- Z.sub_add_distr. done.
  - apply Exhaust_step; [done.. |]. fold budget src. rewrite Esrc.
    apply escaped_stop; [done | rewrite decide_False by done; lia | by right].
Qed.

Lemma WriteCodepoint_step : ~ special b ->
  escaped_inv (Formatter_WriteCodepoint c) /\ 0 <= escaped_measure (Formatter_WriteCodepoint c) < escaped_measure c.
Proof using Hnz Hinv Hex Hmax Hb.
  intros Hsp. pose proof round_pos. pose proof round_src as Esrc.
  assert (Hsb : all_bytes src) by (by apply all_bytes_dropZ).
  assert (Hh : src.[0] <> 0) by (rewrite Esrc; done).
  unfold Formatter_WriteCodepoint. rewrite Fits_iff, (proj1 Hinv) by done. fold src budget.
  destruct (_ && _) eqn:Ef; [bool_to_prop | apply andb_false_iff in Ef].
  - destruct (codepoint_split src) as (cp & rest & Hsc & Hc0 & Eu & En & Et & Ed); [done.. |].
    rewrite En in *. pose proof (utf8_encode_len cp). pose proof (lenZ_nonneg rest).
    assert (Hsl : lenZ src = lenZ source - ec_SourcePos c) by (unfold src; len_simpl; lia).
    assert (lenZ src = lenZ (utf8_encode cp) + lenZ rest) by (rewrite Eu at 1; apply lenZ_app).
    apply (WriteContext_step c src (lenZ (utf8_encode cp)) (utf8_encode cp) (utf8_encode cp)); try done; try lia.
    intros o' d' HE. fold budget src. rewrite Eu.
    apply escaped_char; try done.
    * intros Hcp. apply Hsp. rewrite Eu in Esrc. unfold utf8_encode in Esrc.
      replace (cp <? 0x80) with true in Esrc by (unfold special in Hcp; lia). by injection Esrc as <-.
    * unfold src in Ed. rewrite dropZ_dropZ in Ed by lia. by rewrite Ed in HE.
  - apply WriteReplacement_step; [done |]. intros cp rest Hsc E.
    rewrite E, codepoint_length_encode in Ef by done. pose proof (utf8_encode_len cp). lia.
Qed.
End escaped_round.

Lemma escaped_step c :
  escaped_inv c -> negb (Formatter_IsExhausted c) = true ->
  escaped_inv (EscapedString_step c) /\ 0 <= escaped_measure (EscapedString_step c) < escaped_measure c.
Proof using Hb Hmax.
  intros Hinv Hc. apply negb_true_iff in Hc. unfold Formatter_IsExhausted in Hc.
  apply orb_false_elim in Hc as [Hex Hnz]. bool_to_prop.
  pose proof (proj1 Hinv) as Hs. unfold EscapedString_step. rewrite NeedsEscape_special, Hs in *.
  destruct (bool_decide_reflect (special source.[ec_SourcePos c])).
  - by apply WriteEscaped_step.
  - by apply WriteCodepoint_step.
Qed.

(** The loop runs to its end and has emitted an escaping of the source. *)
Lemma EscapedString_refines :
  exists out dec, Escaped maxDecoded source out dec /\
    prints out f0 (SolidSyslogFormatter_EscapedString f0 source maxDecoded) /\
    Formatter_IsExhausted (EscapedString_loop f0 source maxDecoded) = true.
Proof using Hb Hmax Hwf.
  unfold SolidSyslogFormatter_EscapedString, EscapedString_loop.
  set (c0 := mkEscapedContext _ _ _ _ _ _).
  destruct (while_rule escaped_inv escaped_measure _ _ escaped_step (S (string_fuel source)) c0)
    as [(Hs & Hm & Hp & Hd & out & dec & Happ & HE) Hend].
  - unfold escaped_inv, c0. simpl. split_and!; try done; try lia; try apply lenZ_nonneg.
    exists [], []. split; [by apply appends_refl |]. intros o d. by rewrite Z.sub_0_r, dropZ_0.
  - unfold escaped_measure, string_fuel, c0, lenZ. simpl. lia.
  - set (c := while _ _ _ _) in *. clearbody c. apply negb_false_iff in Hend.
    exists out, dec. split; [| split; [by apply NullTerminate_prints | done]].
    unfold Formatter_IsExhausted in Hend. destruct (ec_Exhausted c); [done |].
    rewrite <- (app_nil_r out), <- (app_nil_r dec). apply HE, escaped_end.
    rewrite nthZ_dropZ, Z.add_0_r, <- Hs by lia. simpl in Hend. lia.
Qed.
End escaped_loop.

(** * PRINTUSASCII strings *)

Definition us_ascii (b : Z) : Z := if Formatter_IsPrintableUsAscii b then b else NON_PRINTABLE_SUBSTITUTE.
(** At most [maxLength] characters of the string, anything else than
    PRINTUSASCII replaced. *)
Definition us_ascii_text (source : bytes) (maxLength : Z) : bytes :=
  map us_ascii (takeZ maxLength (cstr source)).

Lemma us_ascii_range b : 0x21 <= us_ascii b <= 0x7E.
Proof.
  unfold us_ascii, Formatter_IsPrintableUsAscii, NON_PRINTABLE_SUBSTITUTE.
  destruct_bool_step; bool_to_prop; lia.
Qed.
Lemma us_ascii_text_range source n : Forall (fun b => 0x21 <= b <= 0x7E) (us_ascii_text source n).
Proof. apply Forall_map, Forall_true. intros b. apply us_ascii_range. Qed.
Lemma us_ascii_text_len source n : lenZ (us_ascii_text source n) <= Z.max 0 n.
Proof.
  unfold us_ascii_text, lenZ, takeZ. rewrite length_map, length_take. lia.
Qed.
Lemma us_ascii_text_clean source n : clean (us_ascii_text source n).
Proof.
  apply clean_ascii. eapply Forall_impl; [| apply us_ascii_text_range]. simpl. lia.
Qed.

Lemma takeZ_cstr source len max :
  0 <= len <= lenZ source -> no_nul (takeZ len source) -> len <= max ->
  max <= len \/ source.[len] = 0 -> takeZ max (cstr source) = takeZ len source.
Proof.
  intros Hl Hn Hm Hend.
  rewrite <- (takeZ_dropZ len source) at 1. rewrite cstr_app_no_nul by done.
  rewrite takeZ_app_ge by (rewrite lenZ_takeZ; lia). rewrite lenZ_takeZ by lia.
  destruct Hend as [Hend | Hend].
  - rewrite (takeZ_nonpos (max - len)) by lia. apply app_nil_r.
  - rewrite cstr_dropZ_nul; [| by rewrite nthZ_dropZ, Z.add_0_r by lia].
    unfold takeZ at 2. rewrite take_nil. apply app_nil_r.
Qed.

Lemma PrintUsAsciiString_prints f source maxLength :
  fmt_wf f -> 0 <= maxLength ->
  prints (us_ascii_text source maxLength) f (SolidSyslogFormatter_PrintUsAsciiString f source maxLength).
Proof.
  intros Hwf Hmax. unfold SolidSyslogFormatter_PrintUsAsciiString. apply NullTerminate_prints.
  destruct (while_rule
    (fun '(f', len) => 0 <= len <= lenZ source /\ len <= maxLength /\ no_nul (takeZ len source) /\
       appends (map us_ascii (takeZ len source)) f f')
    (fun s => lenZ source - snd s) (bounded_continues source maxLength)
    (fun '(f, len) => (Formatter_WritePrintableUsAsciiChar f source.[len], len + 1)))
    with (fuel := string_fuel source) (s := (f, 0)) as [HI Hend].
  - intros [f' len] (Hl & Hm & Hn & Happ) Hc. unfold bounded_continues in Hc. simpl in *. bool_to_prop.
    assert (len < lenZ source) by (apply nthZ_nonzero_len; [lia | done]).
    rewrite (takeZ_add len 1), (dropZ_cons_nthZ _ len) by lia.
    split_and!; try lia.
    + apply no_nul_app. split; [done |]. by apply Forall_singleton.
    + rewrite map_app. eapply appends_trans; [done |]. simpl.
      unfold Formatter_WritePrintableUsAsciiChar, us_ascii.
      destruct (Formatter_IsPrintableUsAscii _); apply WriteChar_appends; eauto with fmt.
  - split_and!; try lia; [apply lenZ_nonneg | constructor | by apply appends_refl].
  - unfold string_fuel, lenZ. simpl. lia.
  - destruct (while _ _ _ _) as [f' len]. destruct HI as (Hl & Hm & Hn & Happ).
    unfold us_ascii_text. rewrite (takeZ_cstr source len); try done.
    unfold bounded_continues in Hend. simpl in *.
    apply andb_false_iff in Hend as [Hend | Hend]; bool_to_prop; [left; lia | by right].
Qed.

(** * Numbers *)

(** The [n] last decimal digits of [v], most significant first. *)
Fixpoint digits_of (n : nat) (v : Z) : bytes :=
  match n with
  | O => []
  | S n => digits_of n (v / 10) ++ [0x30 + v mod 10]
  end.
(** The number a string of digits denotes. *)
Definition read_decimal (l : bytes) : Z := fold_left (fun a b => a * 10 + (b - 0x30)) l 0.
Definition decimal (v : Z) : bytes := digits_of (Z.to_nat (Formatter_CountDigits v)) v.

Lemma digits_of_len n v : lenZ (digits_of n v) = Z.of_nat n.
Proof. revert v. induction n as [|n IH]; intros v; [done |]. cbn [digits_of]. len_simpl. rewrite IH. lia. Qed.
Lemma digits_of_range n v : Forall (fun b => 0x30 <= b <= 0x39) (digits_of n v).
Proof.
  revert v. induction n as [|n IH]; intros v; [constructor |]. cbn [digits_of].
  apply Forall_app. split; [done |]. apply Forall_singleton. utf8_arith.
Qed.
Lemma read_digits_of n v : 0 <= v < 10 ^ Z.of_nat n -> read_decimal (digits_of n v) = v.
Proof.
  unfold read_decimal. revert v. induction n as [|n IH]; intros v Hv.
  - change (10 ^ Z.of_nat 0) with 1 in Hv. simpl. lia.
  - cbn [digits_of]. rewrite fold_left_app. cbn [fold_left].
    rewrite Nat2Z.inj_succ, Z.pow_succ_r in Hv by lia.
    rewrite IH; utf8_arith.
Qed.

Lemma CountDigits_spec v :
  0 <= v < 10 ^ 10 ->
  let n := Formatter_CountDigits v in
  1 <= n <= 10 /\ v < 10 ^ n /\ (n = 1 \/ 10 ^ (n - 1) <= v).
Proof.
  intros Hv. unfold Formatter_CountDigits.
  destruct (while_rule
    (fun '(count, remaining) => 1 <= count <= 10 /\ remaining = v / 10 ^ (count - 1) /\
       (count = 1 \/ 10 ^ (count - 1) <= v))
    (fun s => 10 - fst s) (fun '(count, remaining) => 10 <=? remaining)
    (fun '(count, remaining) => (count + 1, remaining / 10)))
    with (fuel := digit_fuel) (s := (1, v)) as [HI Hend].
  - intros [count r] (Hc & -> & Hn) Hcond. bool_to_prop. simpl.
    assert (Hp : 0 < 10 ^ (count - 1)) by (apply Z.pow_pos_nonneg; lia).
    assert (Hge : 10 ^ count <= v).
    { replace count with (Z.succ (count - 1)) by lia. rewrite Z.pow_succ_r by lia.
      pose proof (Z.mul_div_le v (10 ^ (count - 1)) Hp). nia. }
    assert (count < 10) by (apply (Z.pow_lt_mono_r_iff 10); lia).
    split; [| lia]. split_and!; try lia.
    + rewrite Z.div_div by lia. f_equal. replace (count + 1 - 1) with (Z.succ (count - 1)) by lia.
      rewrite Z.pow_succ_r by lia. lia.
    + right. by replace (count + 1 - 1) with count by lia.
  - split_and!; try lia. simpl. by rewrite Z.div_1_r.
  - reflexivity.
  - destruct (while _ _ _ _) as [n r]. destruct HI as (Hn & -> & Hge). simpl. split_and!; try lia; try done.
    bool_to_prop. assert (0 < 10 ^ (n - 1)) by (apply Z.pow_pos_nonneg; lia).
    replace n with (Z.succ (n - 1)) by lia. rewrite Z.pow_succ_r by lia.
    pose proof (Z.mul_succ_div_gt v (10 ^ (n - 1))). nia.
Qed.

Lemma read_decimal_decimal v : 0 <= v < 10 ^ 10 -> read_decimal (decimal v) = v.
Proof.
  intros Hv. destruct (CountDigits_spec v Hv) as (? & ? & _).
  apply read_digits_of. rewrite Z2Nat.id by lia. lia.
Qed.
Lemma decimal_len v : 0 <= v < 10 ^ 10 -> 1 <= lenZ (decimal v) <= 10.
Proof.
  intros Hv. destruct (CountDigits_spec v Hv) as (? & ? & _).
  unfold decimal. rewrite digits_of_len. lia.
Qed.
Lemma digits_of_clean n v : clean (digits_of n v).
Proof. apply clean_ascii. eapply Forall_impl; [| apply digits_of_range]. simpl. lia. Qed.

Lemma pow10_pos k : 0 <= k -> 0 < 10 ^ k.
Proof. intros. apply Z.pow_pos_nonneg; lia. Qed.
Lemma digit_at v k : 0 <= k -> (v mod 10 ^ (k + 1)) / 10 ^ k = v / 10 ^ k mod 10.
Proof.
  intros Hk. pose proof (pow10_pos k Hk). rewrite Z.pow_add_r, Z.pow_1_r by lia.
  rewrite Z.rem_mul_r by lia.
  rewrite (Z.mul_comm (10 ^ k)), Z.div_add by lia. rewrite Z.mod_div by lia. lia.
Qed.
Lemma digits_of_snoc n v k :
  0 <= k -> digits_of (S n) (v / 10 ^ k) = digits_of n (v / 10 ^ (k + 1)) ++ [Formatter_DigitToChar (v / 10 ^ k)].
Proof.
  intros Hk. pose proof (pow10_pos k Hk). cbn [digits_of]. rewrite Z.div_div by lia.
  rewrite Z.pow_add_r, Z.pow_1_r by lia. done.
Qed.
Lemma digits_of_snoc0 n v : digits_of (S n) v = digits_of n (v / 10) ++ [Formatter_DigitToChar v].
Proof. pose proof (digits_of_snoc n v 0 ltac:(lia)) as E. by rewrite Z.div_1_r in E. Qed.

Lemma divisor_spec n :
  1 <= n <= 10 -> for_range 1 n (fun _ divisor => u32 (divisor * 10)) 1 = 10 ^ (n - 1).
Proof.
  intros Hn. apply (for_range_inv (fun i d => d = 10 ^ (i - 1))); [lia | done |].
  intros i d Hi ->. replace (i + 1 - 1) with (Z.succ (i - 1)) by lia.
  rewrite Z.pow_succ_r by lia.
  assert (10 ^ (i - 1) <= 10 ^ 8) by (apply Z.pow_le_mono_r; lia).
  pose proof (pow10_pos (i - 1) ltac:(lia)). change (10 ^ 8) with 100000000 in *.
  rewrite u32_small; lia.
Qed.

(** A [uint32_t] is written as its decimal digits. *)
Lemma Uint32_prints f v :
  fmt_wf f -> 0 <= v < 2 ^ 32 -> prints (decimal v) f (SolidSyslogFormatter_Uint32 f v).
Proof.
  intros Hwf Hv. destruct (CountDigits_spec v ltac:(lia)) as (Hn & Hlt & _).
  unfold SolidSyslogFormatter_Uint32, decimal. rewrite divisor_spec by done.
  set (n := Formatter_CountDigits v) in *. clearbody n.
  pose proof (for_range_inv
    (fun i '(f', r, d) => r = v mod 10 ^ (n - i) /\ d = 10 ^ (n - i) / 10 /\
       appends (digits_of (Z.to_nat i) (v / 10 ^ (n - i))) f f')
    (fun _ => Uint32_digit_step) 0 n (f, v, 10 ^ (n - 1))) as HI.
  destruct (for_range 0 n _ _) as [[f' r] d]. destruct HI as (_ & _ & Happ).
  - lia.
  - rewrite Z.sub_0_r, Z.mod_small by lia. split_and!; [done | | by apply appends_refl].
    replace n with (Z.succ (n - 1)) at 2 by lia. rewrite Z.pow_succ_r by lia.
    rewrite Z.mul_comm, Z.div_mul by lia. done.
  - intros i [[f1 r1] d1] Hi (-> & -> & Happ). unfold Uint32_digit_step.
    replace (n - i) with (n - (i + 1) + 1) in * by lia. set (k := n - (i + 1)) in *.
    assert (Hk : 0 <= k) by lia. pose proof (pow10_pos k Hk).
    assert (E : 10 ^ (k + 1) / 10 = 10 ^ k).
    { rewrite Z.pow_add_r, Z.pow_1_r by lia. by apply Z.div_mul. }
    rewrite E. split_and!.
    + rewrite Z.pow_add_r, Z.pow_1_r by lia. rewrite Z.rem_mul_r by lia.
      rewrite Z.mul_comm, Z_mod_plus_full. by rewrite Z.mod_mod by lia.
    + done.
    + replace (Z.to_nat (i + 1)) with (S (Z.to_nat i)) by lia. rewrite digits_of_snoc by done.
      eapply appends_trans; [done |]. rewrite digit_at by done.
      replace (Formatter_DigitToChar (v / 10 ^ k mod 10)) with (Formatter_DigitToChar (v / 10 ^ k))
        by (unfold Formatter_DigitToChar; by rewrite Z.mod_mod by lia).
      apply WriteChar_appends. eauto with fmt.
  - rewrite Z.sub_diag, Z.div_1_r in Happ. by apply NullTerminate_prints.
Qed.

Ltac digits_seq :=
  intros Hwf; cbv zeta; rewrite !digits_of_snoc0, ?Z.div_div by lia;
  apply NullTerminate_prints;
  repeat (eapply appends_trans; [| apply WriteChar_appends; eauto with fmt]);
  eauto with fmt.

Lemma TwoDigit_prints f v : fmt_wf f -> prints (digits_of 2 v) f (SolidSyslogFormatter_TwoDigit f v).
Proof. unfold SolidSyslogFormatter_TwoDigit. digits_seq. Qed.
Lemma FourDigit_prints f v : fmt_wf f -> prints (digits_of 4 v) f (SolidSyslogFormatter_FourDigit f v).
Proof. unfold SolidSyslogFormatter_FourDigit. digits_seq. Qed.
Lemma SixDigit_prints f v : fmt_wf f -> prints (digits_of 6 v) f (SolidSyslogFormatter_SixDigit f v).
Proof. unfold SolidSyslogFormatter_SixDigit. digits_seq. Qed.

(** * Single characters *)

Definition ascii_char (v : Z) : Z := if Formatter_IsAsciiCharacter v then v else NON_PRINTABLE_SUBSTITUTE.

Lemma ascii_char_clean v : clean [ascii_char v].
Proof.
  apply clean_ascii, Forall_singleton.
  unfold ascii_char, Formatter_IsAsciiCharacter, Formatter_IsPrintableUsAscii, NON_PRINTABLE_SUBSTITUTE.
  destruct_bool_step; lia.
Qed.
Lemma AsciiCharacter_prints f v :
  fmt_wf f -> prints [ascii_char v] f (SolidSyslogFormatter_AsciiCharacter f v).
Proof.
  intros Hwf. unfold SolidSyslogFormatter_AsciiCharacter, ascii_char.
  destruct (Formatter_IsAsciiCharacter v); simpl; auto with fmt.
Qed.
Lemma Bom_prints f : fmt_wf f -> prints UTF8_BOM f (SolidSyslogFormatter_Bom f).
Proof.
  intros Hwf. apply NullTerminate_prints, (WriteBytes_appends f UTF8_BOM 3); [done |]. split; done.
Qed.
Lemma Bom_clean : clean UTF8_BOM.
Proof. apply (clean_encode 0xFEFF); unfold is_scalar; lia. Qed.
Lemma NilValue_prints f : fmt_wf f -> prints [0x2D] f (SolidSyslogFormatter_NilValue f).
Proof. apply (AsciiCharacter_prints f 0x2D). Qed.
Lemma Create_wf storage size :
  0 <= size <= lenZ storage ->
  prints [] (mkFormatter size 0 storage) (SolidSyslogFormatter_Create storage size).
Proof.
  intros H. apply NullTerminate_prints, appends_refl. unfold fmt_wf, fmt_capacity. simpl. lia.
Qed.

(** * The published string *)

(** The text is a cut of clean UTF-8: what every writer keeps true. *)
Definition utf8_text (f : SolidSyslogFormatter) : Prop :=
  exists v, clean v /\ fmt_text f = takeZ (fmt_capacity f) v.

Lemma appends_utf8 bs f f' : clean bs -> utf8_text f -> appends bs f f' -> utf8_text f'.
Proof.
  intros Hbs (v & Hv & Ht) Happ. exists (v ++ bs). split; [auto with utf8v |].
  rewrite (app_text _ _ _ Happ), (appends_capacity _ _ _ Happ), Ht. apply takeZ_app_takeZ.
Qed.

(** The lead bytes near the end of a cut text. *)
Lemma cut_leads v c m k :
  valid_utf8 v -> is_scalar c -> 0 <= m < lenZ (utf8_encode c) ->
  let t := v ++ takeZ m (utf8_encode c) in
  1 <= k <= 3 -> k <= lenZ t ->
  (k = m -> is_multi_lead k t.[lenZ t - k]) /\
  (m = 0 \/ k < m -> ~ is_multi_lead k t.[lenZ t - k]).
Proof.
  intros Hv Hc Hm t Hk Hkt. pose proof (lenZ_nonneg v).
  assert (Hlen : lenZ t = lenZ v + m) by (unfold t; len_simpl; lia). rewrite Hlen in *.
  split; [intros -> | intros [-> | Hlt]].
  - unfold t. rewrite nthZ_app_r, nthZ_takeZ by lia. replace (lenZ v + m - m - lenZ v) with 0 by lia.
    apply encode_lead; [done | lia].
  - unfold t in *. rewrite (takeZ_nonpos 0), app_nil_r by lia. replace (lenZ v + 0) with (lenZ v) by lia.
    apply valid_no_open_lead; [done | lia | lia].
  - unfold t. rewrite nthZ_app_r, nthZ_takeZ by lia.
    pose proof (encode_continuation c (lenZ v + m - k - lenZ v) Hc ltac:(lia)).
    unfold is_multi_lead. lia.
Qed.

Lemma trim_from_cut buffer v c m :
  valid_utf8 v -> is_scalar c -> 0 <= m < lenZ (utf8_encode c) ->
  let t := v ++ takeZ m (utf8_encode c) in
  takeZ (lenZ t) buffer = t -> trim_from buffer (lenZ t) = lenZ v.
Proof.
  intros Hv Hc Hm t Hbuf.
  assert (Hlen : lenZ t = lenZ v + m) by (unfold t; len_simpl; lia).
  pose proof (lenZ_nonneg v). pose proof (utf8_encode_len c).
  assert (Htb : all_bytes t).
  { apply Forall_app. split; [by apply valid_utf8_bytes | by apply all_bytes_takeZ, utf8_encode_bytes]. }
  assert (Hlead : forall k test, (forall b, is_byte b -> test b = true <-> is_multi_lead k b) -> 1 <= k <= 3 ->
    ((k <=? lenZ t) && test buffer.[lenZ t - k] = true -> m <> 0 /\ m <= k) /\
    ((k <=? lenZ t) && test buffer.[lenZ t - k] = false -> m <> k)).
  { intros k test Htest Hk. destruct (Z.leb_spec k (lenZ t)) as [Hkt |]; simpl; [| lia].
    rewrite <- (nthZ_takeZ buffer (lenZ t)), Hbuf by lia.
    destruct (cut_leads v c m k Hv Hc Hm Hk Hkt) as [Hyes Hno]. fold t in Hyes, Hno.
    rewrite <- not_true_iff_false, (Htest _ (nthZ_is_byte _ _ Htb)). split; [| intros Hl ->; auto].
    intros Hl. destruct (decide (m = 0 \/ k < m)) as [Hd |]; [by apply Hno in Hd | lia]. }
  pose proof (Hlead 1 _ lead1_test ltac:(lia)) as [Hy1 Hn1].
  pose proof (Hlead 2 _ lead2_test ltac:(lia)) as [Hy2 Hn2].
  pose proof (Hlead 3 _ lead3_test ltac:(lia)) as [Hy3 Hn3].
  unfold trim_from. clear Hlead.
  destruct (_ && _); [specialize (Hy1 eq_refl); lia | specialize (Hn1 eq_refl)].
  destruct (_ && _); [specialize (Hy2 eq_refl); lia | specialize (Hn2 eq_refl)].
  destruct (_ && _); [specialize (Hy3 eq_refl); lia | specialize (Hn3 eq_refl); lia].
Qed.

Lemma zero_fill buffer lo hi :
  0 <= lo <= hi -> hi <= lenZ buffer ->
  let b' := for_range lo hi (fun i b => updZ b i 0) buffer in
  takeZ lo b' = takeZ lo buffer /\ (forall i, lo <= i < hi -> b'.[i] = 0) /\
  dropZ hi b' = dropZ hi buffer /\ lenZ b' = lenZ buffer.
Proof.
  intros Hlo Hhi. cbv zeta.
  apply (for_range_inv (fun j b => takeZ lo b = takeZ lo buffer /\ (forall i, lo <= i < j -> b.[i] = 0) /\
    dropZ hi b = dropZ hi buffer /\ lenZ b = lenZ buffer)); [lia | split_and!; try done; lia |].
  intros j b Hj (Ht & Hz & Hd & Hl). split_and!.
  - by rewrite takeZ_updZ by lia.
  - intros i Hi. destruct (Z.eq_dec i j) as [-> |]; [apply nthZ_updZ_eq; lia |].
    rewrite nthZ_updZ_ne by lia. apply Hz. lia.
  - by rewrite dropZ_updZ by lia.
  - by len_simpl.
Qed.

(** A zeroed tail ends the C string where it starts. *)
Lemma zero_fill_cstr (buffer v : bytes) p :
  takeZ (lenZ v) buffer = v -> no_nul v -> lenZ v <= p < lenZ buffer -> buffer.[p] = 0 ->
  cstr (for_range (lenZ v) p (fun i b => updZ b i 0) buffer) = v.
Proof.
  intros Ht Hn Hp Hend. pose proof (lenZ_nonneg v).
  destruct (zero_fill buffer (lenZ v) p) as (Hb1 & Hb2 & Hb3 & Hb4); [lia.. |].
  set (b' := for_range _ _ _ _) in *. clearbody b'.
  rewrite <- (takeZ_dropZ (lenZ v) b'), Hb1, Ht, (dropZ_cons_nthZ b') by lia.
  replace (b'.[lenZ v]) with 0; [by apply cstr_app_nul |].
  destruct (Z.eq_dec (lenZ v) p) as [E |]; [| rewrite Hb2; [done | lia]].
  rewrite E, <- nthZ_dropZ_0, Hb3, nthZ_dropZ_0 by lia. done.
Qed.

Lemma cut_valid_whole v c m :
  valid_utf8 v -> is_scalar c -> 0 <= m < lenZ (utf8_encode c) ->
  valid_utf8 (v ++ takeZ m (utf8_encode c)) -> m = 0.
Proof.
  intros Hv Hc Hm Hval. pose proof (utf8_encode_len c). pose proof (lenZ_nonneg v).
  destruct (Z.eq_dec m 0) as [| Hm0]; [done | exfalso].
  assert (Hl : lenZ (v ++ takeZ m (utf8_encode c)) = lenZ v + m) by (len_simpl; lia).
  apply (valid_no_open_lead _ Hval m); [lia | lia |].
  apply (cut_leads v c m m); try done; lia.
Qed.

(** The string handed out: the text without its cut character, which becomes
    zeros up to the unchanged length. *)
Lemma AsFormattedBuffer_spec f :
  fmt_wf f -> 0 < fm_Size f -> fmt_terminated f -> utf8_text f ->
  let '(s, f') := SolidSyslogFormatter_AsFormattedBuffer f in
  clean (cstr s) /\
  (exists tail, fmt_text f = cstr s ++ tail /\ lenZ tail <= 3 /\ (valid_utf8 (fmt_text f) -> tail = [])) /\
  (forall i, strlen s <= i < SolidSyslogFormatter_Length f' -> s.[i] = 0) /\
  SolidSyslogFormatter_Length f' = SolidSyslogFormatter_Length f /\
  fmt_wf f' /\ fmt_terminated f' /\ fm_Size f' = fm_Size f.
Proof.
  intros Hwf Hsize Hterm (w & [Hvalid Hnul] & Htext). specialize (Hterm Hsize).
  pose proof Hwf as [[? ?] [? ?]]. pose proof (fmt_text_len f Hwf) as Hlen.
  destruct (valid_utf8_cut w (fmt_capacity f) Hvalid) as (v & c & m & Hv & Hc & Hm & Hcut); [lia |].
  rewrite Hcut in Htext.
  assert (Hv0 : no_nul v).
  { apply (proj1 (no_nul_app v (takeZ m (utf8_encode c)))). rewrite <- Hcut. by apply no_nul_takeZ. }
  pose proof (trim_from_cut (fm_Buffer f) v c m Hv Hc Hm) as Htrim. cbv zeta in Htrim.
  rewrite <- Htext, Hlen in Htrim. specialize (Htrim eq_refl).
  pose proof (lenZ_nonneg v). pose proof (utf8_encode_len c).
  assert (Hpos : fm_Position f = lenZ v + m) by (rewrite <- Hlen, Htext; len_simpl; lia).
  assert (Hcap : fm_Position f < lenZ (fm_Buffer f)) by (unfold fmt_capacity in *; lia).
  assert (Hv' : takeZ (lenZ v) (fm_Buffer f) = v).
  { rewrite <- (Z.min_l (lenZ v) (fm_Position f)) at 1 by lia. rewrite <- takeZ_takeZ.
    fold (fmt_text f). rewrite Htext, takeZ_app_le, takeZ_ge by lia. done. }
  unfold SolidSyslogFormatter_AsFormattedBuffer, Formatter_TrimTruncatedMultiByteTail,
    SolidSyslogFormatter_Length, strlen. rewrite Htrim. simpl.
  rewrite zero_fill_cstr by (done || lia).
  destruct (zero_fill (fm_Buffer f) (lenZ v) (fm_Position f)) as (Hb1 & Hb2 & Hb3 & Hb4); [lia.. |].
  split_and!; try done.
  - exists (takeZ m (utf8_encode c)). split; [done |]. split; [len_simpl; lia |].
    rewrite Htext. intros Hval. apply cut_valid_whole in Hval as ->; [by apply takeZ_nonpos | done..].
  - unfold fmt_wf. simpl. rewrite Hb4. split; [lia | by unfold fmt_capacity in *].
  - intros _. simpl. rewrite <- nthZ_dropZ_0, Hb3, nthZ_dropZ_0 by lia. done.
Qed.

(** * Any sequence of calls *)

Inductive formatter_call :=
| CallAsciiCharacter (value : Z)
| CallBom
| CallNilValue
| CallBoundedString (source : bytes) (maxLength : Z)
| CallEscapedString (source : bytes) (maxDecodedLength : Z)
| CallPrintUsAsciiString (source : bytes) (maxLength : Z)
| CallUint32 (value : Z)
| CallTwoDigit (value : Z)
| CallFourDigit (value : Z)
| CallSixDigit (value : Z).

Definition run_call (f : SolidSyslogFormatter) (call : formatter_call) : SolidSyslogFormatter :=
  match call with
  | CallAsciiCharacter v => SolidSyslogFormatter_AsciiCharacter f v
  | CallBom => SolidSyslogFormatter_Bom f
  | CallNilValue => SolidSyslogFormatter_NilValue f
  | CallBoundedString s n => SolidSyslogFormatter_BoundedString f s n
  | CallEscapedString s n => SolidSyslogFormatter_EscapedString f s n
  | CallPrintUsAsciiString s n => SolidSyslogFormatter_PrintUsAsciiString f s n
  | CallUint32 v => SolidSyslogFormatter_Uint32 f v
  | CallTwoDigit v => SolidSyslogFormatter_TwoDigit f v
  | CallFourDigit v => SolidSyslogFormatter_FourDigit f v
  | CallSixDigit v => SolidSyslogFormatter_SixDigit f v
  end.

(** Arguments of the types the C signatures give them. *)
Definition call_ok (call : formatter_call) : Prop :=
  match call with
  | CallBoundedString s n | CallEscapedString s n | CallPrintUsAsciiString s n =>
      all_bytes s /\ 0 <= n <= SIZE_MAX
  | CallUint32 v => 0 <= v < 2 ^ 32
  | _ => True
  end.

Lemma run_call_prints f call :
  fmt_wf f -> call_ok call -> exists bs, clean bs /\ prints bs f (run_call f call).
Proof.
  intros Hwf Hok. destruct call as [v | | | s n | s n | s n | v | v | v | v]; simpl in *.
  - eexists. split; [apply ascii_char_clean | by apply AsciiCharacter_prints].
  - eexists. split; [apply Bom_clean | by apply Bom_prints].
  - eexists. split; [apply (ascii_char_clean 0x2D) | by apply NilValue_prints].
  - destruct Hok. destruct (BoundedString_refines f s n) as (out & HB & HP); [done.. |].
    exists out. split; [by eapply Bounded_clean | done].
  - destruct Hok. destruct (EscapedString_refines f s n) as (out & dec & HE & HP & _); [done.. |].
    exists out. split; [apply (Escaped_clean _ _ _ _ HE) | done].
  - destruct Hok. eexists. split; [apply us_ascii_text_clean | apply PrintUsAsciiString_prints; [done | lia]].
  - eexists. split; [apply digits_of_clean | by apply Uint32_prints].
  - eexists. split; [apply (digits_of_clean 2) | by apply TwoDigit_prints].
  - eexists. split; [apply (digits_of_clean 4) | by apply FourDigit_prints].
  - eexists. split; [apply (digits_of_clean 6) | by apply SixDigit_prints].
Qed.

Lemma run_calls_prints calls f :
  fmt_wf f -> fmt_terminated f -> Forall call_ok calls ->
  exists bs, clean bs /\ prints bs f (fold_left run_call calls f).
Proof.
  intros Hwf Ht H. revert f Hwf Ht. induction H as [|call calls Hok _ IH]; intros f Hwf Ht; simpl.
  - exists []. auto with fmt utf8v.
  - destruct (run_call_prints f call Hwf Hok) as (b1 & Hb1 & HP1).
    destruct (IH (run_call f call)) as (b2 & Hb2 & HP2); [eauto with fmt | apply HP1 |].
    exists (b1 ++ b2). split; [auto with utf8v | by eapply prints_trans].
Qed.

Lemma Create_utf8 storage size : utf8_text (SolidSyslogFormatter_Create storage size).
Proof.
  exists []. split; [apply clean_nil |]. unfold SolidSyslogFormatter_Create, Formatter_NullTerminate, fmt_text.
  symmetry. destruct_bool_step; simpl; unfold takeZ; by rewrite !take_nil.
Qed.

(** * Properties *)

(** C2. Whatever sequence of public calls is made on a formatter created over any
    area of memory, and wherever its capacity cuts the text, the string it hands
    out is valid UTF-8; the bytes between that string's end and the reported
    length are zeros, at most three of them; the string is terminated inside the
    area, and no byte outside the [bufferSize] bytes it was given is written. *)
Theorem formatter_publishes_utf8 (storage : bytes) (bufferSize : Z) (calls : list formatter_call) :
  0 < bufferSize <= lenZ storage -> Forall call_ok calls ->
  let f := fold_left run_call calls (SolidSyslogFormatter_Create storage bufferSize) in
  let '(s, f') := SolidSyslogFormatter_AsFormattedBuffer f in
  clean (cstr s) /\
  strlen s <= SolidSyslogFormatter_Length f' <= strlen s + 3 /\
  (forall i, strlen s <= i < SolidSyslogFormatter_Length f' -> s.[i] = 0) /\
  SolidSyslogFormatter_Length f' < bufferSize /\ s.[SolidSyslogFormatter_Length f'] = 0 /\
  dropZ bufferSize (fm_Buffer f) = dropZ bufferSize storage.
Proof.
  intros Hs Hok f. destruct (Create_wf storage bufferSize) as [Hc Hct]; [lia |].
  destruct (run_calls_prints calls (SolidSyslogFormatter_Create storage bufferSize))
    as (bs & Hbs & [Happ Hterm]); [eauto with fmt | done | done |]. fold f in Happ, Hterm.
  pose proof (app_wf _ _ _ Happ) as Hwf.
  pose proof (app_size _ _ _ Happ) as Esz. pose proof (app_size _ _ _ Hc) as Esz0. simpl in Esz0.
  rewrite Esz0 in Esz.
  pose proof (AsFormattedBuffer_spec f Hwf ltac:(lia) Hterm) as Hspec.
  destruct (SolidSyslogFormatter_AsFormattedBuffer f) as [s f'] eqn:Es.
  destruct Hspec as (Hcl & (tail & Ht & Htl & _) & Hz & El & Hwf' & Hterm' & Esz');
    [eapply appends_utf8; [exact Hbs | apply Create_utf8 | exact Happ] |].
  assert (Epos : SolidSyslogFormatter_Length f = strlen s + lenZ tail).
  { unfold SolidSyslogFormatter_Length, strlen. rewrite <- (fmt_text_len f Hwf), Ht. apply lenZ_app. }
  pose proof (lenZ_nonneg tail). destruct Hwf' as [[? ?] [? ?]].
  assert (Esb : s = fm_Buffer f') by (injection Es as <- <-; done).
  split_and!; try done; try lia.
  - unfold SolidSyslogFormatter_Length, fmt_capacity in *. lia.
  - rewrite Esb. apply Hterm'. lia.
  - pose proof (app_frame _ _ _ Happ) as Hf. pose proof (app_frame _ _ _ Hc) as Hf0.
    simpl in Hf0. by rewrite Esz0, Hf0 in Hf.
Qed.

Ltac all_bytes_by_compute :=
  repeat (apply Forall_cons_2; [split; reflexivity || discriminate |]); apply Forall_nil_2.

(** Ten bytes of capacity cut the euro sign that ends this text. *)
Lemma formatter_publishes_utf8_witness :
  let f := fold_left run_call [CallBoundedString (str "prices in ") 100; CallUint32 7;
             CallBoundedString [0xE2; 0x82; 0xAC] 10] (SolidSyslogFormatter_Create (repeat 0xAA 20) 14) in
  let '(s, f') := SolidSyslogFormatter_AsFormattedBuffer f in
  clean (cstr s) /\
  strlen s <= SolidSyslogFormatter_Length f' <= strlen s + 3 /\
  (forall i, strlen s <= i < SolidSyslogFormatter_Length f' -> s.[i] = 0) /\
  SolidSyslogFormatter_Length f' < 14 /\ s.[SolidSyslogFormatter_Length f'] = 0 /\
  dropZ 14 (fm_Buffer f) = dropZ 14 (repeat 0xAA 20).
Proof.
  apply (formatter_publishes_utf8 (repeat 0xAA 20) 14).
  - split; [reflexivity | discriminate].
  - repeat (apply Forall_cons_2; [simpl; try (split; [all_bytes_by_compute | split; discriminate]); split; discriminate || reflexivity |]).
    apply Forall_nil_2.
Defined.

(** C18. [EscapedString] writes a PARAM-VALUE that reads back: a reader of the
    emitted bytes recovers a decoded value, stopping exactly at the closing
    quote whatever follows it; that value is valid UTF-8 of at most
    [maxDecodedLength] bytes, and it is the source itself when the source is
    valid UTF-8 that fits.  The loop always ends. *)
Theorem EscapedString_reads_back (f : SolidSyslogFormatter) (source : bytes) (maxDecodedLength : Z) :
  fmt_wf f -> all_bytes source -> 0 <= maxDecodedLength <= SIZE_MAX ->
  Formatter_IsExhausted (EscapedString_loop f source maxDecodedLength) = true /\
  exists out dec,
    prints out f (SolidSyslogFormatter_EscapedString f source maxDecodedLength) /\
    (forall rest, read_value (out ++ 0x22 :: rest) = Some (dec, rest)) /\
    clean dec /\ lenZ dec <= maxDecodedLength /\
    (clean source -> lenZ source <= maxDecodedLength -> dec = source).
Proof.
  intros Hwf Hb Hmax. destruct (EscapedString_refines f source maxDecodedLength)
    as (out & dec & HE & HP & Hend); [done.. |].
  split; [done |]. exists out, dec. split; [done |].
  split; [intros rest; by eapply value_text_close, Escaped_read |].
  split; [apply (Escaped_clean _ _ _ _ HE) |].
  pose proof (Escaped_budget _ _ _ _ HE). split; [lia |].
  intros [(cs & Hcs & ->) Hn] Hl. eapply Escaped_exact; try done.
  by apply no_nul_scalars.
Qed.

Lemma EscapedString_reads_back_witness :
  Formatter_IsExhausted (EscapedString_loop (mkFormatter 20 0 (repeat 0 20)) (str "a]b") 3) = true /\
  exists out dec,
    prints out (mkFormatter 20 0 (repeat 0 20))
      (SolidSyslogFormatter_EscapedString (mkFormatter 20 0 (repeat 0 20)) (str "a]b") 3) /\
    (forall rest, read_value (out ++ 0x22 :: rest) = Some (dec, rest)) /\
    clean dec /\ lenZ dec <= 3 /\ (clean (str "a]b") -> lenZ (str "a]b") <= 3 -> dec = str "a]b").
Proof.
  apply (EscapedString_reads_back (mkFormatter 20 0 (repeat 0 20)) (str "a]b") 3).
  - repeat split; discriminate.
  - all_bytes_by_compute.
  - split; discriminate.
Defined.

(** [BoundedString] writes the string it is given: a valid UTF-8 source within
    the limit is appended byte for byte, and any other source is appended as
    valid UTF-8 by the rule of [Bounded] (whole characters, U+FFFD for each byte
    that starts none). *)
Theorem BoundedString_copies (f : SolidSyslogFormatter) (source : bytes) (maxLength : Z) :
  fmt_wf f -> all_bytes source ->
  exists out, Bounded maxLength source out /\ clean out /\
    prints out f (SolidSyslogFormatter_BoundedString f source maxLength) /\
    (clean source -> lenZ source <= maxLength -> out = source).
Proof.
  intros Hwf Hb. destruct (BoundedString_refines f source maxLength) as (out & HB & HP); [done.. |].
  exists out. split_and!; [done | by eapply Bounded_clean | done |].
  intros Hc Hl. by eapply Bounded_whole.
Qed.

Lemma BoundedString_copies_witness :
  exists out, Bounded 8 (str "caf\") out /\ clean out /\
    prints out (mkFormatter 20 0 (repeat 0 20))
      (SolidSyslogFormatter_BoundedString (mkFormatter 20 0 (repeat 0 20)) (str "caf\") 8) /\
    (clean (str "caf\") -> lenZ (str "caf\") <= 8 -> out = str "caf\").
Proof.
  apply (BoundedString_copies (mkFormatter 20 0 (repeat 0 20)) (str "caf\") 8).
  - repeat split; discriminate.
  - all_bytes_by_compute.
Defined.

(** [Uint32] writes the shortest decimal numeral of its argument: what it
    writes are digits that denote the number, at most ten of them, with no
    leading zero; the fixed-width writers give the number's last digits. *)
Theorem Uint32_decimal (f : SolidSyslogFormatter) (value : Z) :
  fmt_wf f -> 0 <= value < 2 ^ 32 ->
  prints (decimal value) f (SolidSyslogFormatter_Uint32 f value) /\
  Forall (fun b => 0x30 <= b <= 0x39) (decimal value) /\
  read_decimal (decimal value) = value /\
  1 <= lenZ (decimal value) <= 10 /\
  (lenZ (decimal value) = 1 \/ 10 ^ (lenZ (decimal value) - 1) <= value).
Proof.
  intros Hwf Hv. split_and!.
  - by apply Uint32_prints.
  - apply digits_of_range.
  - apply read_decimal_decimal. lia.
  - apply decimal_len. lia.
  - apply decimal_len. lia.
  - destruct (CountDigits_spec value ltac:(lia)) as (Hn & _ & Hge).
    unfold decimal. rewrite digits_of_len, Z2Nat.id by lia. done.
Qed.

Lemma Uint32_decimal_witness :
  prints (decimal 4294967295) (mkFormatter 20 0 (repeat 0 20))
    (SolidSyslogFormatter_Uint32 (mkFormatter 20 0 (repeat 0 20)) 4294967295) /\
  Forall (fun b => 0x30 <= b <= 0x39) (decimal 4294967295) /\
  read_decimal (decimal 4294967295) = 4294967295 /\
  1 <= lenZ (decimal 4294967295) <= 10 /\
  (lenZ (decimal 4294967295) = 1 \/ 10 ^ (lenZ (decimal 4294967295) - 1) <= 4294967295).
Proof.
  apply (Uint32_decimal (mkFormatter 20 0 (repeat 0 20)) 4294967295).
  - repeat split; discriminate.
  - split; [discriminate | reflexivity].
Defined.
