(* ===== verification/SdWriters.v ===== *)
(** The writers a callback is handed ([SolidSyslogSdValue.c], [SolidSyslogSdElement.c],
    [SolidSyslogHeaderField.c], [SolidSyslogEndpointHost.c]): thin objects over a
    formatter that keep structured data well framed, values escaped, streamed
    characters whole and header fields within their width. *)
From S2P Require Import Prelude Utf8 Formatter.

(** * Structured-data values *)

Definition SDVALUE_MAX_CODEPOINT_BYTES : Z := 4.

Record SolidSyslogSdValue := mkSdValue {
  sv_Formatter : SolidSyslogFormatter;
  sv_Pending : bytes;
  sv_PendingCount : Z
}.
#[export] Instance settable_SdValue : Settable SolidSyslogSdValue :=
  fun v => mkSdValue (sv_Formatter v) (sv_Pending v) (sv_PendingCount v).

Definition SolidSyslogSdValue_FromFormatter (value : SolidSyslogSdValue) (formatter : SolidSyslogFormatter) : SolidSyslogSdValue :=
  value <| sv_Formatter := formatter |> <| sv_PendingCount := 0 |>.

Definition SdValue_ExpectedLength (lead : Z) : Z :=
  if SolidSyslogUtf8_IsTwoByteLead lead then 2
  else if SolidSyslogUtf8_IsThreeByteLead lead then 3
  else if SolidSyslogUtf8_IsFourByteLead lead then 4
  else 1.

(** [unit] is the copied bytes and the terminator after them. *)
Definition SdValue_EmitUnit (value : SolidSyslogSdValue) (bs : bytes) (count : Z) : SolidSyslogSdValue :=
  let unit := spanZ bs 0 count in
  value <| sv_Formatter := SolidSyslogFormatter_EscapedString (sv_Formatter value) unit SIZE_MAX |>.

Definition SdValue_Hold (value : SolidSyslogSdValue) (bs : bytes) (count : Z) : SolidSyslogSdValue :=
  value <| sv_Pending := for_range 0 count (fun i pending => updZ pending i bs.[i]) (sv_Pending value) |>
        <| sv_PendingCount := count |>.

Definition LONE_CONTINUATION : bytes := [0x80].
Definition SdValue_FlushPendingAsReplacement (value : SolidSyslogSdValue) : SolidSyslogSdValue :=
  value <| sv_Formatter := SolidSyslogFormatter_EscapedString (sv_Formatter value) LONE_CONTINUATION SIZE_MAX |>
        <| sv_PendingCount := 0 |>.

Definition SdValue_FlushPendingIfHeld (value : SolidSyslogSdValue) : SolidSyslogSdValue :=
  if 0 <? sv_PendingCount value then SdValue_FlushPendingAsReplacement value else value.

(** Continuation bytes of [source] complete the held sequence: at most three. *)
Definition DrainPending_loop (value : SolidSyslogSdValue) (source : bytes) (expected : Z) : SolidSyslogSdValue * Z :=
  while 4
    (fun '(v, consumed) => (sv_PendingCount v <? expected) && SolidSyslogUtf8_IsContinuationByte source.[consumed])
    (fun '(v, consumed) =>
       (v <| sv_Pending := updZ (sv_Pending v) (sv_PendingCount v) source.[consumed] |>
          <| sv_PendingCount := sv_PendingCount v + 1 |>, consumed + 1))
    (value, 0).

Definition SdValue_DrainPending (value : SolidSyslogSdValue) (source : bytes) : SolidSyslogSdValue * Z :=
  if 0 <? sv_PendingCount value then
    let expected := SdValue_ExpectedLength (sv_Pending value).[0] in
    let '(value, consumed) := DrainPending_loop value source expected in
    if sv_PendingCount value =? expected then
      ((SdValue_EmitUnit value (sv_Pending value) (sv_PendingCount value)) <| sv_PendingCount := 0 |>, consumed)
    else if negb (source.[consumed] =? 0) then (SdValue_FlushPendingAsReplacement value, consumed)
    else (value, consumed)
  else (value, 0).

(** How many bytes of the unit at [i] the source has: at most four. *)
Definition unit_available (source : bytes) (i expected : Z) : Z :=
  while 4 (fun avail => (avail <? expected) && SolidSyslogUtf8_IsContinuationByte source.[i + avail])
        (fun avail => avail + 1) 1.

Definition WriteBody_step (source : bytes) (s : SolidSyslogSdValue * Z) : SolidSyslogSdValue * Z :=
  let '(value, i) := s in
  let expected := SdValue_ExpectedLength source.[i] in
  let avail := unit_available source i expected in
  let value :=
    if (avail <? expected) && (source.[i + avail] =? 0)
    then SdValue_Hold value (dropZ i source) avail
    else SdValue_EmitUnit value (dropZ i source) avail in
  (value, i + avail).

Definition SdValue_WriteBody (value : SolidSyslogSdValue) (source : bytes) : SolidSyslogSdValue :=
  fst (while (string_fuel source) (fun '(_, i) => negb (source.[i] =? 0)) (WriteBody_step source) (value, 0)).

Definition SolidSyslogSdValue_String (value : SolidSyslogSdValue) (source : bytes) : SolidSyslogSdValue :=
  let '(value, bodyStart) := SdValue_DrainPending value source in
  SdValue_WriteBody value (dropZ bodyStart source).

Definition SolidSyslogSdValue_BoundedString (value : SolidSyslogSdValue) (source : bytes) (maxDecodedLength : Z) : SolidSyslogSdValue :=
  let value := SdValue_FlushPendingIfHeld value in
  value <| sv_Formatter := SolidSyslogFormatter_EscapedString (sv_Formatter value) source maxDecodedLength |>.

Definition SolidSyslogSdValue_Uint32 (value : SolidSyslogSdValue) (number : Z) : SolidSyslogSdValue :=
  let value := SdValue_FlushPendingIfHeld value in
  value <| sv_Formatter := SolidSyslogFormatter_Uint32 (sv_Formatter value) number |>.

Definition SolidSyslogSdValue_Close (value : SolidSyslogSdValue) : SolidSyslogSdValue :=
  SdValue_FlushPendingIfHeld value.

(** * Structured-data elements

    The element points to the message's formatter and to a zero-size one; its
    value writes to one of the two.  [el_ValueTarget] says which, and a call on
    the value runs on that formatter. *)

Definition SDELEMENT_NAME_MAX : Z := 32.

Inductive value_target := ToFormatter | ToDropFormatter.

Record SolidSyslogSdElement := mkSdElement {
  el_Formatter : SolidSyslogFormatter;
  el_Pending : bytes;
  el_PendingCount : Z;
  el_ValueTarget : value_target;
  el_DropFormatter : SolidSyslogFormatter;
  el_ValueOpen : bool;
  el_Suppressed : bool
}.
#[export] Instance settable_SdElement : Settable SolidSyslogSdElement :=
  fun e => mkSdElement (el_Formatter e) (el_Pending e) (el_PendingCount e) (el_ValueTarget e)
    (el_DropFormatter e) (el_ValueOpen e) (el_Suppressed e).

(** [&element->Value], and what a call through it leaves behind. *)
Definition el_Value (e : SolidSyslogSdElement) : SolidSyslogSdValue :=
  mkSdValue (match el_ValueTarget e with ToFormatter => el_Formatter e | ToDropFormatter => el_DropFormatter e end)
    (el_Pending e) (el_PendingCount e).
Definition el_store_Value (e : SolidSyslogSdElement) (v : SolidSyslogSdValue) : SolidSyslogSdElement :=
  let e := e <| el_Pending := sv_Pending v |> <| el_PendingCount := sv_PendingCount v |> in
  match el_ValueTarget e with
  | ToFormatter => e <| el_Formatter := sv_Formatter v |>
  | ToDropFormatter => e <| el_DropFormatter := sv_Formatter v |>
  end.
Definition el_on_Value (e : SolidSyslogSdElement) (op : SolidSyslogSdValue -> SolidSyslogSdValue) : SolidSyslogSdElement :=
  el_store_Value e (op (el_Value e)).

Definition SolidSyslogSdElement_FromFormatter (element : SolidSyslogSdElement) (formatter : SolidSyslogFormatter) : SolidSyslogSdElement :=
  element <| el_Formatter := formatter |>
          <| el_DropFormatter := SolidSyslogFormatter_Create [] 0 |>
          <| el_ValueOpen := false |>
          <| el_Suppressed := false |>.

Definition SolidSyslogSdElement_Begin (element : SolidSyslogSdElement) (name : option bytes) (enterpriseNumber : Z) : SolidSyslogSdElement :=
  let element := element <| el_ValueOpen := false |> in
  match name with
  | None => element <| el_Suppressed := true |>
  | Some name =>
      let element := element <| el_Suppressed := false |> in
      let f := SolidSyslogFormatter_AsciiCharacter (el_Formatter element) 0x5B in
      let f := SolidSyslogFormatter_PrintUsAsciiString f name SDELEMENT_NAME_MAX in
      let f := if negb (enterpriseNumber =? 0)
               then SolidSyslogFormatter_Uint32 (SolidSyslogFormatter_AsciiCharacter f 0x40) enterpriseNumber
               else f in
      element <| el_Formatter := f |>
  end.

Definition SdElement_CloseOpenValue (element : SolidSyslogSdElement) : SolidSyslogSdElement :=
  if el_ValueOpen element then
    let element := el_on_Value element SolidSyslogSdValue_Close in
    element <| el_Formatter := SolidSyslogFormatter_AsciiCharacter (el_Formatter element) 0x22 |>
            <| el_ValueOpen := false |>
  else element.

Definition SdElement_SkipParam (element : SolidSyslogSdElement) : SolidSyslogSdElement :=
  let element := element <| el_ValueTarget := ToDropFormatter |> in
  el_on_Value element (fun v => SolidSyslogSdValue_FromFormatter v (el_DropFormatter element)).

(** The sink it returns is [el_Value] of the element it leaves. *)
Definition SolidSyslogSdElement_Param (element : SolidSyslogSdElement) (name : option bytes) : SolidSyslogSdElement :=
  let element := SdElement_CloseOpenValue element in
  match name with
  | Some name =>
      if el_Suppressed element then SdElement_SkipParam element
      else
        let f := SolidSyslogFormatter_AsciiCharacter (el_Formatter element) 0x20 in
        let f := SolidSyslogFormatter_PrintUsAsciiString f name SDELEMENT_NAME_MAX in
        let f := SolidSyslogFormatter_AsciiCharacter f 0x3D in
        let f := SolidSyslogFormatter_AsciiCharacter f 0x22 in
        let element := element <| el_Formatter := f |> <| el_ValueTarget := ToFormatter |> in
        (el_on_Value element (fun v => SolidSyslogSdValue_FromFormatter v f)) <| el_ValueOpen := true |>
  | None => SdElement_SkipParam element
  end.

Definition SolidSyslogSdElement_End (element : SolidSyslogSdElement) : SolidSyslogSdElement :=
  let element := SdElement_CloseOpenValue element in
  if negb (el_Suppressed element)
  then element <| el_Formatter := SolidSyslogFormatter_AsciiCharacter (el_Formatter element) 0x5D |>
  else element.

(** * Header fields *)

Record SolidSyslogHeaderField := mkHeaderField {
  hf_Formatter : SolidSyslogFormatter;
  hf_Remaining : Z
}.
#[export] Instance settable_HeaderField : Settable SolidSyslogHeaderField :=
  fun h => mkHeaderField (hf_Formatter h) (hf_Remaining h).

Definition SolidSyslogHeaderField_FromFormatter (formatter : SolidSyslogFormatter) (maxLength : Z) : SolidSyslogHeaderField :=
  mkHeaderField formatter maxLength.

Definition HeaderField_Consumed (field : SolidSyslogHeaderField) (before : Z) : Z :=
  size_sub (SolidSyslogFormatter_Length (hf_Formatter field)) before.

Definition SolidSyslogHeaderField_PrintUsAscii (field : SolidSyslogHeaderField) (source : bytes) (maxLength : Z) : SolidSyslogHeaderField :=
  let limit := if maxLength <? hf_Remaining field then maxLength else hf_Remaining field in
  let before := SolidSyslogFormatter_Length (hf_Formatter field) in
  let field := field <| hf_Formatter := SolidSyslogFormatter_PrintUsAsciiString (hf_Formatter field) source limit |> in
  field <| hf_Remaining := size_sub (hf_Remaining field) (HeaderField_Consumed field before) |>.

Definition SolidSyslogHeaderField_Uint32 (field : SolidSyslogHeaderField) (value : Z) : SolidSyslogHeaderField :=
  if 0 <? hf_Remaining field then
    let before := SolidSyslogFormatter_Length (hf_Formatter field) in
    let field := field <| hf_Formatter := SolidSyslogFormatter_Uint32 (hf_Formatter field) value |> in
    let consumed := HeaderField_Consumed field before in
    field <| hf_Remaining := if hf_Remaining field <=? consumed then 0 else hf_Remaining field - consumed |>
  else field.

(** * Endpoint hosts *)

Record SolidSyslogEndpointHost := mkEndpointHost { eh_Formatter : SolidSyslogFormatter }.

Definition SolidSyslogEndpointHost_FromFormatter (formatter : SolidSyslogFormatter) : SolidSyslogEndpointHost :=
  mkEndpointHost formatter.

Definition SolidSyslogEndpointHost_String (host : SolidSyslogEndpointHost) (source : bytes) (maxLength : Z) : SolidSyslogEndpointHost :=
  mkEndpointHost (SolidSyslogFormatter_BoundedString (eh_Formatter host) source maxLength).

(** * What a write to a value emits *)

(** [f'] is [f] with a piece [out] of a PARAM-VALUE appended, which decodes to [dec]. *)
Record emits (out dec : bytes) (f f' : SolidSyslogFormatter) : Prop := {
  em_appends : appends out f f';
  em_terminated : fmt_terminated f -> fmt_terminated f';
  em_clean : clean out /\ clean dec;
  em_text : value_text out dec
}.

Lemma emits_refl f : fmt_wf f -> emits [] [] f f.
Proof. split; auto with fmt utf8v. Qed.
Lemma emits_trans o1 d1 o2 d2 f f1 f2 : emits o1 d1 f f1 -> emits o2 d2 f1 f2 -> emits (o1 ++ o2) (d1 ++ d2) f f2.
Proof.
  intros [H1 T1 [C1 D1] V1] [H2 T2 [C2 D2] V2].
  split; [by eapply appends_trans | auto | auto with utf8v | auto with fmt].
Qed.
Lemma emits_wf out dec f f' : emits out dec f f' -> fmt_wf f'.
Proof. intros [H _ _ _]. apply (app_wf _ _ _ H). Qed.
#[export] Hint Resolve emits_refl emits_wf : fmt.

Lemma EscapedString_emits f source max :
  fmt_wf f -> all_bytes source -> 0 <= max <= SIZE_MAX ->
  exists out dec, emits out dec f (SolidSyslogFormatter_EscapedString f source max) /\
    lenZ dec <= max /\ (forall cs, Forall is_scalar cs -> Forall (fun c => c <> 0) cs ->
      source = utf8_encode_all cs -> lenZ source <= max -> dec = source).
Proof.
  intros Hwf Hb Hmax. destruct (EscapedString_refines f source max) as (out & dec & HE & [HP HT] & _); [done.. |].
  exists out, dec. split.
  - split; [done | done | by eapply Escaped_clean | by eapply Escaped_read].
  - pose proof (Escaped_budget _ _ _ _ HE). split; [lia |].
    intros cs ? ? -> ?. by eapply Escaped_exact.
Qed.
Lemma Uint32_emits f n :
  fmt_wf f -> 0 <= n < 2 ^ 32 -> emits (decimal n) (decimal n) f (SolidSyslogFormatter_Uint32 f n).
Proof.
  intros Hwf Hn. destruct (Uint32_prints f n Hwf Hn) as [HP HT].
  split; [done | done | split; apply digits_of_clean |].
  apply value_text_plain. eapply Forall_impl; [| apply digits_of_range]. unfold special. simpl. lia.
Qed.

(** The state a value is in between calls: what is held is a short unit. *)
Record val_wf (v : SolidSyslogSdValue) : Prop := {
  vw_fmt : fmt_wf (sv_Formatter v);
  vw_pending : lenZ (sv_Pending v) = SDVALUE_MAX_CODEPOINT_BYTES;
  vw_count : 0 <= sv_PendingCount v;
  vw_held : 0 < sv_PendingCount v ->
    all_bytes (takeZ (sv_PendingCount v) (sv_Pending v)) /\
    sv_PendingCount v < SdValue_ExpectedLength (sv_Pending v).[0]
}.
Definition held (v : SolidSyslogSdValue) : bytes := takeZ (sv_PendingCount v) (sv_Pending v).

Lemma ExpectedLength_range b : 1 <= SdValue_ExpectedLength b <= 4.
Proof. unfold SdValue_ExpectedLength. repeat destruct_bool_step; lia. Qed.
Lemma ExpectedLength_encode c r : is_scalar c -> SdValue_ExpectedLength (utf8_encode c ++ r).[0] = lenZ (utf8_encode c).
Proof.
  intros Hc. pose proof (utf8_encode_bytes c Hc) as Hb.
  unfold all_bytes in Hb. unfold is_scalar, utf8_encode in *. unfold SdValue_ExpectedLength.
  repeat match goal with |- context [if ?c <? ?k then _ else _] => destruct (Z.ltb_spec c k) end;
    repeat match goal with H : Forall is_byte (_ :: _) |- _ => apply Forall_cons_1 in H as [? H] end;
    cbn [app]; nth_eval; utf8_ranges; repeat destruct_bool_step; try reflexivity; exfalso;
    clear Hb; unfold is_byte in *; utf8_arith.
Qed.
Lemma continuation_nonzero b : SolidSyslogUtf8_IsContinuationByte b = true -> b <> 0.
Proof. intros H ->. discriminate. Qed.

Lemma EmitUnit_emits v bs count :
  fmt_wf (sv_Formatter v) -> 0 <= count -> all_bytes (takeZ count bs) ->
  exists out dec,
    emits out dec (sv_Formatter v) (sv_Formatter (SdValue_EmitUnit v bs count)) /\
    (forall c, is_scalar c -> c <> 0 -> takeZ count bs = utf8_encode c -> dec = utf8_encode c).
Proof.
  intros Hwf Hc Hb. unfold SdValue_EmitUnit. simpl. unfold spanZ. rewrite dropZ_0.
  destruct (EscapedString_emits (sv_Formatter v) (takeZ count bs) SIZE_MAX Hwf Hb) as (out & dec & HE & _ & Hx);
    [unfold SIZE_MAX; lia |].
  exists out, dec. split; [done |]. intros c Hs H0 E. rewrite <- E. pose proof (utf8_encode_len c).
  apply (Hx [c]); [by apply Forall_singleton | by apply Forall_singleton | | rewrite E; unfold SIZE_MAX; lia].
  rewrite E. symmetry. apply app_nil_r.
Qed.

Lemma Flush_emits v :
  val_wf v -> exists out dec,
    emits out dec (sv_Formatter v) (sv_Formatter (SdValue_FlushPendingIfHeld v)) /\
    val_wf (SdValue_FlushPendingIfHeld v) /\ sv_PendingCount (SdValue_FlushPendingIfHeld v) = 0 /\
    (sv_PendingCount v = 0 -> SdValue_FlushPendingIfHeld v = v /\ dec = []).
Proof.
  intros [Hwf Hp Hc Hh]. unfold SdValue_FlushPendingIfHeld.
  destruct (Z.ltb_spec 0 (sv_PendingCount v)) as [Hpos |].
  - destruct (EscapedString_emits (sv_Formatter v) LONE_CONTINUATION SIZE_MAX Hwf) as (out & dec & HE & _);
      [apply Forall_singleton; split; reflexivity || discriminate | split; discriminate |].
    exists out, dec. simpl. split_and!; [done | | done | lia].
    split; simpl; [eauto with fmt | done | lia | lia].
  - exists [], []. split_and!; [auto with fmt | done | lia | done].
Qed.

(** ** Completing a held sequence *)

Lemma DrainPending_loop_spec v source expected :
  val_wf v -> all_bytes source -> 0 < sv_PendingCount v ->
  expected = SdValue_ExpectedLength (sv_Pending v).[0] ->
  let '(v', j) := DrainPending_loop v source expected in
  0 <= j <= lenZ source /\ sv_Formatter v' = sv_Formatter v /\
  lenZ (sv_Pending v') = 4 /\ sv_PendingCount v' = sv_PendingCount v + j /\ sv_PendingCount v' <= expected /\
  held v' = held v ++ takeZ j source /\ (sv_Pending v').[0] = (sv_Pending v).[0] /\
  (sv_PendingCount v' = expected \/ SolidSyslogUtf8_IsContinuationByte source.[j] = false).
Proof.
  intros [Hwf Hp Hc Hh] Hb Hpos Hexp. unfold SDVALUE_MAX_CODEPOINT_BYTES in *.
  pose proof (ExpectedLength_range (sv_Pending v).[0]). destruct (Hh Hpos) as [_ Hlt].
  unfold DrainPending_loop, held.
  while_by (fun '(v', j) =>
      0 <= j <= lenZ source /\ sv_Formatter v' = sv_Formatter v /\
      lenZ (sv_Pending v') = 4 /\ sv_PendingCount v' = sv_PendingCount v + j /\ sv_PendingCount v' <= expected /\
      held v' = held v ++ takeZ j source /\ (sv_Pending v').[0] = (sv_Pending v).[0])
    (fun s : SolidSyslogSdValue * Z => expected - sv_PendingCount (fst s)).
  - intros [v' j] (Hj & Hf & Hl & Hcount & Hle & Hheld & H0) Hcond. bool_to_prop. simpl.
    assert (j < lenZ source) by (apply nthZ_nonzero_len; [lia | by apply continuation_nonzero]).
    split; [| lia]. unfold held in *. simpl. split_and!; try done; try lia.
    + by len_simpl.
    + rewrite takeZ_updZ_snoc, Hheld by lia.
      rewrite (takeZ_add j 1), (dropZ_cons_nthZ source j), app_assoc by lia. done.
    + by rewrite nthZ_updZ_ne by lia.
  - split_and!; try done; try lia. by rewrite (takeZ_nonpos 0), app_nil_r by lia.
  - simpl. lia.
  - intros [v' j] (Hj & Hf & Hl & Hcount & Hle & Hheld & H0) Hend. split_and!; try done; try lia.
    apply andb_false_iff in Hend as [|]; [left; lia | by right].
Qed.

(** What [SdValue_DrainPending] leaves: nothing was held, the unit was completed
    and emitted, it was replaced, or the source ran out inside it. *)
Lemma DrainPending_cases v source :
  val_wf v -> all_bytes source ->
  let '(v', j) := SdValue_DrainPending v source in
  0 <= j <= lenZ source /\ val_wf v' /\ (sv_PendingCount v' = 0 \/ source.[j] = 0) /\
  exists out dec, emits out dec (sv_Formatter v) (sv_Formatter v').
Proof.
  intros Hwf Hb. unfold SdValue_DrainPending. destruct (Z.ltb_spec 0 (sv_PendingCount v)) as [Hpos | Hz].
  2: { pose proof (vw_count v Hwf). split_and!; try done; [left; lia |].
       exists [], []. apply emits_refl, vw_fmt, Hwf. }
  pose proof (DrainPending_loop_spec v source _ Hwf Hb Hpos eq_refl) as Hloop.
  destruct (DrainPending_loop _ _ _) as [v' j].
  destruct Hloop as (Hj & Hf & Hl & Hcount & Hle & Hheld & H0 & Hend).
  destruct (vw_held v Hwf Hpos) as [Hhb Hlt].
  assert (Hbytes : all_bytes (held v')).
  { rewrite Hheld. apply Forall_app. split; [done | by apply all_bytes_takeZ]. }
  assert (Hfw : fmt_wf (sv_Formatter v')) by (rewrite Hf; apply vw_fmt, Hwf).
  destruct (Z.eqb_spec (sv_PendingCount v') (SdValue_ExpectedLength (sv_Pending v).[0])).
  - destruct (EmitUnit_emits v' (sv_Pending v') (sv_PendingCount v') Hfw) as (out & dec & HE & _); [lia | done |].
    simpl. split_and!; try done; try lia; [| exists out, dec; by rewrite <- Hf].
    split; simpl; [by eauto with fmt | done | lia | lia].
  - destruct Hend as [| Hcont]; [done |].
    assert (Hwf' : val_wf v').
    { split; [done | done | lia |]. intros _. split; [done |]. rewrite H0. lia. }
    destruct (negb (source.[j] =? 0)) eqn:Ez; bool_to_prop.
    + destruct (Flush_emits v' Hwf') as (out & dec & HE & Hw & Hc & _). unfold SdValue_FlushPendingIfHeld in *.
      destruct (Z.ltb_spec 0 (sv_PendingCount v')); [| lia].
      split_and!; try done; try lia. exists out, dec. by rewrite <- Hf.
    + split_and!; try done; try lia. exists [], []. rewrite <- Hf. by apply emits_refl.
Qed.

(** ** Writing the units of a source *)

Lemma unit_available_spec source i expected :
  0 <= i -> source.[i] <> 0 -> 1 <= expected <= 4 ->
  let a := unit_available source i expected in
  1 <= a <= expected /\ i + a <= lenZ source /\
  (forall k, 1 <= k < a -> SolidSyslogUtf8_IsContinuationByte source.[i + k] = true) /\
  (a = expected \/ SolidSyslogUtf8_IsContinuationByte source.[i + a] = false).
Proof.
  intros Hi Hnz He. cbv zeta. unfold unit_available.
  while_by (fun a => 1 <= a <= expected /\ i + a <= lenZ source /\
    (forall k, 1 <= k < a -> SolidSyslogUtf8_IsContinuationByte source.[i + k] = true)) (fun a => expected - a).
  - intros a (Ha & Hl & Hk) Hc. bool_to_prop.
    assert (i + a < lenZ source) by (apply nthZ_nonzero_len; [lia | by apply continuation_nonzero]).
    split; [| lia]. split_and!; try lia. intros k Hk'.
    destruct (Z.eq_dec k a) as [-> |]; [done | apply Hk; lia].
  - pose proof (nthZ_nonzero_len source i Hi Hnz). split_and!; try lia.
  - lia.
  - intros a (Ha & Hl & Hk) Hend. split_and!; try done; try lia.
    apply andb_false_iff in Hend as [|]; [left; lia | by right].
Qed.

Lemma Hold_held v bs count :
  0 <= count <= 4 -> count <= lenZ bs -> lenZ (sv_Pending v) = 4 ->
  let v' := SdValue_Hold v bs count in
  held v' = takeZ count bs /\ lenZ (sv_Pending v') = 4 /\ sv_PendingCount v' = count /\ sv_Formatter v' = sv_Formatter v.
Proof.
  intros Hc Hl Hp. unfold SdValue_Hold, held. simpl.
  destruct (for_range_inv (fun i p => takeZ i p = takeZ i bs /\ lenZ p = 4)
    (fun i pending => updZ pending i bs.[i]) 0 count (sv_Pending v)) as [H1 H2]; [lia | done | |].
  - intros i p Hi [Ht Hlp]. split; [| by len_simpl].
    rewrite takeZ_updZ_snoc, Ht, (takeZ_add i 1), (dropZ_cons_nthZ bs i) by lia. done.
  - done.
Qed.

(** One unit: it is held, when the source ends inside it, or it is emitted. *)
Lemma WriteBody_step_cases v source i :
  0 <= i -> source.[i] <> 0 -> val_wf v -> sv_PendingCount v = 0 -> all_bytes source ->
  let '(v', i') := WriteBody_step source (v, i) in
  exists a, i' = i + a /\ 1 <= a /\ i + a <= lenZ source /\ val_wf v' /\
    a <= SdValue_ExpectedLength source.[i] /\
    (forall k, 1 <= k < a -> SolidSyslogUtf8_IsContinuationByte source.[i + k] = true) /\
    (a = SdValue_ExpectedLength source.[i] \/ SolidSyslogUtf8_IsContinuationByte source.[i + a] = false) /\
    let unit := takeZ a (dropZ i source) in
    ((a < SdValue_ExpectedLength source.[i] /\ source.[i + a] = 0 /\ held v' = unit /\
      sv_Formatter v' = sv_Formatter v) \/
     (~ (a < SdValue_ExpectedLength source.[i] /\ source.[i + a] = 0) /\ sv_PendingCount v' = 0 /\
      exists out dec, emits out dec (sv_Formatter v) (sv_Formatter v') /\
        (forall c, is_scalar c -> c <> 0 -> unit = utf8_encode c -> dec = utf8_encode c))).
Proof.
  intros Hi Hnz Hwf Hz Hb. unfold WriteBody_step.
  pose proof (ExpectedLength_range source.[i]) as Hexp.
  destruct (unit_available_spec source i _ Hi Hnz Hexp) as (Ha & Hl & Hk & Hend).
  set (a := unit_available _ _ _) in *. exists a.
  assert (Hub : all_bytes (takeZ a (dropZ i source))) by auto.
  pose proof Hwf as [Hfw Hp _ _].
  destruct (_ && _) eqn:E; bool_to_prop.
  - destruct (Hold_held v (dropZ i source) a) as (Hh & Hlp & Hc & Hf); [lia | len_simpl; lia | done |].
    split_and!; try done; try lia; [| by left].
    split; [by rewrite Hf | done | lia |]. intros _. fold (held (SdValue_Hold v (dropZ i source) a)).
    rewrite Hh. split; [done |].
    assert (E0 : (sv_Pending (SdValue_Hold v (dropZ i source) a)).[0] = source.[i]).
    { rewrite <- (nthZ_takeZ _ a) by lia. rewrite <- Hc at 1. fold (held (SdValue_Hold v (dropZ i source) a)).
      rewrite Hh, nthZ_takeZ, nthZ_dropZ_0 by lia. done. }
    rewrite E0. lia.
  - destruct (EmitUnit_emits v (dropZ i source) a Hfw) as (out & dec & HE & Hx); [lia | done |].
    split_and!; try done; try lia.
    + split; [eauto with fmt | done | simpl; lia | simpl; lia].
    + right. apply andb_false_iff in E. split; [intros [? ?]; lia |]. split; [done |]. by exists out, dec.
Qed.

(** Writing any source leaves the value well formed. *)
Lemma WriteBody_emits v source :
  val_wf v -> all_bytes source -> sv_PendingCount v = 0 \/ source.[0] = 0 ->
  val_wf (SdValue_WriteBody v source) /\
  exists out dec, emits out dec (sv_Formatter v) (sv_Formatter (SdValue_WriteBody v source)).
Proof.
  intros Hwf Hb Hz. unfold SdValue_WriteBody.
  while_by (fun '(v', i) => 0 <= i <= lenZ source /\ val_wf v' /\ (sv_PendingCount v' = 0 \/ source.[i] = 0) /\
      exists out dec, emits out dec (sv_Formatter v) (sv_Formatter v'))
    (fun s : SolidSyslogSdValue * Z => lenZ source - snd s).
  - intros [v' i] (Hi & Hwf' & [Hz' | Hz'] & out & dec & HE) Hc; bool_to_prop; [| done].
    pose proof (WriteBody_step_cases v' source i ltac:(lia) Hc Hwf' Hz' Hb) as Hstep.
    destruct (WriteBody_step _ _) as [v'' i''].
    destruct Hstep as (a & -> & Ha & Hl & Hwf'' & _ & _ & _ & [(_ & H0 & _ & Hf) | (_ & H0 & o & d & HE' & _)]);
      (split; [split_and!; try lia; try done; auto | simpl; lia]).
    + exists out, dec. by rewrite Hf.
    + exists (out ++ o), (dec ++ d). by eapply emits_trans.
  - split_and!; try done; try lia. exists [], []. apply emits_refl, vw_fmt, Hwf.
  - unfold string_fuel, lenZ. simpl. lia.
  - intros [v' i] (_ & ? & _ & ?) _. done.
Qed.

Lemma String_emits v source :
  val_wf v -> all_bytes source ->
  val_wf (SolidSyslogSdValue_String v source) /\
  exists out dec, emits out dec (sv_Formatter v) (sv_Formatter (SolidSyslogSdValue_String v source)).
Proof.
  intros Hwf Hb. unfold SolidSyslogSdValue_String.
  pose proof (DrainPending_cases v source Hwf Hb) as Hd.
  destruct (SdValue_DrainPending v source) as [v' j]. destruct Hd as (Hj & Hwf' & Hz & o1 & d1 & HE1).
  destruct (WriteBody_emits v' (dropZ j source)) as (Hw & o2 & d2 & HE2); [done | auto | |].
  - by rewrite nthZ_dropZ_0 by lia.
  - split; [done |]. exists (o1 ++ o2), (d1 ++ d2). by eapply emits_trans.
Qed.

(** ** Streaming *)

Lemma encode_all_nonempty cs : 0 < lenZ (utf8_encode_all cs) -> exists c cs', cs = c :: cs'.
Proof. destruct cs as [|c cs]; [done | by exists c, cs]. Qed.

Lemma encode_inner_byte c i r : is_scalar c -> 1 <= i < lenZ (utf8_encode c) ->
  SolidSyslogUtf8_IsContinuationByte (utf8_encode c ++ r).[i] = true.
Proof.
  intros Hc Hi. rewrite nthZ_app_l by lia.
  pose proof (encode_continuation c i Hc Hi). rewrite continuation_range by (unfold is_byte; lia). lia.
Qed.

Section streaming.
(** The characters of the whole value, and the formatter it starts on. *)
Context (cs : list Z) (Hcs : Forall is_scalar cs) (Hnz : Forall (fun c => c <> 0) cs).
Context (f0 : SolidSyslogFormatter).

(** Some whole characters are written, what is held and what is still to
    come make up the others. *)
Definition streaming (v : SolidSyslogSdValue) (rest : bytes) : Prop :=
  val_wf v /\ exists cs1 cs2 out, cs = cs1 ++ cs2 /\
    emits out (utf8_encode_all cs1) f0 (sv_Formatter v) /\ held v ++ rest = utf8_encode_all cs2.

Lemma streaming_scalars cs1 c cs2 : cs = cs1 ++ c :: cs2 -> is_scalar c /\ c <> 0.
Proof using Hcs Hnz.
  intros ->. apply Forall_app in Hcs as [_ H1], Hnz as [_ H2].
  by apply Forall_cons_1 in H1 as [? _], H2 as [? _].
Qed.
Lemma streaming_rest v rest : streaming v rest -> all_bytes rest /\ no_nul rest.
Proof using Hcs Hnz.
  intros (_ & cs1 & cs2 & out & -> & _ & E).
  apply Forall_app in Hcs as [_ H1], Hnz as [_ H2].
  assert (Hc : clean (utf8_encode_all cs2)).
  { clear E. induction cs2 as [|c cs2 IH]; [apply clean_nil |].
    apply Forall_cons_1 in H1 as [? ?], H2 as [? ?]. rewrite utf8_encode_all_cons.
    apply clean_app; [by apply clean_encode | by apply IH]. }
  rewrite <- E in Hc. pose proof (clean_bytes _ Hc) as Hb. destruct Hc as [_ Hn].
  split; [by apply Forall_app in Hb as [_ ?] | by apply no_nul_app in Hn as [_ ?]].
Qed.

(** A whole character emitted moves from what is to come to what is written. *)
Lemma streaming_emit v v' cs1 c cs2 out o rest :
  cs = cs1 ++ c :: cs2 -> emits out (utf8_encode_all cs1) f0 (sv_Formatter v) ->
  emits o (utf8_encode c) (sv_Formatter v) (sv_Formatter v') -> val_wf v' -> sv_PendingCount v' = 0 ->
  rest = utf8_encode_all cs2 -> streaming v' rest.
Proof using.
  intros Ecs H1 H2 Hw Hz ->. split; [done |]. exists (cs1 ++ [c]), cs2, (out ++ o).
  split; [by rewrite <- app_assoc |].
  rewrite utf8_encode_all_app. unfold utf8_encode_all at 2. simpl. rewrite app_nil_r.
  split; [by eapply emits_trans |]. unfold held. by rewrite Hz, takeZ_nonpos by lia.
Qed.

Lemma DrainPending_streaming v source future :
  streaming v (source ++ future) ->
  let '(v', j) := SdValue_DrainPending v source in
  0 <= j <= lenZ source /\ streaming v' (dropZ j source ++ future) /\
  (sv_PendingCount v' = 0 \/ j = lenZ source).
Proof using Hcs Hnz.
  intros Hst. destruct (streaming_rest _ _ Hst) as [Hb Hn].
  apply Forall_app in Hb as [Hb _]. apply no_nul_app in Hn as [Hn _].
  pose proof Hst as (Hwf & cs1 & cs2 & out & Ecs & HE & Erest).
  pose proof (DrainPending_cases v source Hwf Hb) as Hcases.
  unfold SdValue_DrainPending in *. pose proof (vw_count v Hwf).
  destruct (Z.ltb_spec 0 (sv_PendingCount v)) as [Hpos | Hz]; [| split_and!; try done; left; lia].
  pose proof (DrainPending_loop_spec v source _ Hwf Hb Hpos eq_refl) as Hloop.
  destruct (DrainPending_loop _ _ _) as [v' j].
  destruct Hloop as (Hj & Hf & Hl & Hcount & Hle & Hheld & H0 & Hend).
  pose proof (vw_pending v Hwf) as Hvp. unfold SDVALUE_MAX_CODEPOINT_BYTES in Hvp.
  destruct (vw_held v Hwf Hpos) as [_ Hlt]. pose proof (ExpectedLength_range (sv_Pending v).[0]).
  assert (Hhl : lenZ (held v) = sv_PendingCount v) by (unfold held; len_simpl; lia).
  assert (Hhl' : lenZ (held v') = sv_PendingCount v') by (unfold held; len_simpl; lia).
  destruct (encode_all_nonempty cs2) as (c & cs2' & ->);
    [rewrite <- Erest, lenZ_app; pose proof (lenZ_nonneg (source ++ future)); lia |].
  destruct (streaming_scalars _ _ _ Ecs) as [Hsc Hc0]. rewrite utf8_encode_all_cons in Erest.
  assert (Hexp : SdValue_ExpectedLength (sv_Pending v).[0] = lenZ (utf8_encode c)).
  { rewrite <- (ExpectedLength_encode c (utf8_encode_all cs2')) by done. rewrite <- Erest.
    unfold held. rewrite nthZ_app_l, nthZ_takeZ by (len_simpl; lia). done. }
  rewrite Hexp in *.
  assert (Esplit : held v' ++ dropZ j source ++ future = utf8_encode c ++ utf8_encode_all cs2').
  { rewrite Hheld, <- Erest, <- !app_assoc. f_equal. rewrite app_assoc. by rewrite takeZ_dropZ. }
  destruct (Z.eqb_spec (sv_PendingCount v') (lenZ (utf8_encode c))) as [Efull | Epart].
  - destruct Hcases as (_ & Hw & _). split; [done |]. split; [| by left].
    apply app_inj_1 in Esplit as [Eunit Erest']; [| unfold lenZ in *; lia].
    destruct (EmitUnit_emits v' (sv_Pending v') (sv_PendingCount v')) as (o & d & HE' & Hx);
      [rewrite Hf; apply vw_fmt, Hwf | lia | fold (held v'); rewrite Eunit; by apply utf8_encode_bytes |].
    rewrite (Hx c Hsc Hc0 Eunit), Hf in HE'.
    eapply streaming_emit; try done.
  - destruct Hend as [| Hcont]; [done |].
    assert (Hjl : j = lenZ source).
    { destruct (Z.eq_dec j (lenZ source)) as [| Hne]; [done | exfalso].
      pose proof (encode_inner_byte c (sv_PendingCount v') (utf8_encode_all cs2') Hsc ltac:(lia)) as Hin.
      rewrite <- Esplit, nthZ_app_r, nthZ_app_l, nthZ_dropZ in Hin by (len_simpl; lia).
      rewrite Hhl', Z.sub_diag, Z.add_0_r, Hcont in Hin. done. }
    rewrite (nthZ_ge source j) in * by lia. simpl in *.
    destruct Hcases as (_ & Hw & _). split_and!; try done; try lia.
    split; [done |]. exists cs1, (c :: cs2'), out. rewrite Hf. done.
Qed.

Lemma WriteBody_step_streaming source future v i :
  all_bytes source -> no_nul source ->
  0 <= i -> streaming v (dropZ i source ++ future) -> sv_PendingCount v = 0 -> source.[i] <> 0 ->
  let '(v', i') := WriteBody_step source (v, i) in
  i < i' <= lenZ source /\ streaming v' (dropZ i' source ++ future) /\
  (sv_PendingCount v' = 0 \/ i' = lenZ source).
Proof using Hcs Hnz.
  intros Hb Hn Hi (Hwf & cs1 & cs2 & out & Ecs & HE & Erest) Hz Hsi.
  pose proof (nthZ_nonzero_len source i Hi Hsi) as Hlt.
  assert (Hheld0 : held v = []) by (unfold held; rewrite Hz; by apply takeZ_nonpos).
  rewrite Hheld0 in Erest. simpl in Erest.
  assert (Hsl : lenZ (dropZ i source) = lenZ source - i) by (len_simpl; lia).
  destruct (encode_all_nonempty cs2) as (c & cs2' & ->);
    [rewrite <- Erest, lenZ_app; pose proof (lenZ_nonneg future); lia |].
  destruct (streaming_scalars _ _ _ Ecs) as [Hsc Hc0]. rewrite utf8_encode_all_cons in Erest.
  assert (Hexp : SdValue_ExpectedLength source.[i] = lenZ (utf8_encode c)).
  { rewrite <- (ExpectedLength_encode c (utf8_encode_all cs2')), <- Erest by done.
    by rewrite nthZ_app_l, nthZ_dropZ_0 by lia. }
  pose proof (WriteBody_step_cases v source i Hi Hsi Hwf Hz Hb) as Hstep.
  destruct (WriteBody_step _ _) as [v' i'].
  destruct Hstep as (a & -> & Ha & Hl & Hwf' & Hle & Hk & Hend & Hcase). rewrite Hexp in *.
  assert (Hin : a < lenZ (utf8_encode c) -> i + a < lenZ source -> SolidSyslogUtf8_IsContinuationByte source.[i + a] = true).
  { intros H1 H2. pose proof (encode_inner_byte c a (utf8_encode_all cs2') Hsc ltac:(lia)) as Hc.
    rewrite <- Erest, nthZ_app_l, nthZ_dropZ in Hc by lia. done. }
  assert (Hdrop : dropZ i source = takeZ a (dropZ i source) ++ dropZ (i + a) source).
  { rewrite <- dropZ_dropZ, takeZ_dropZ by lia. done. }
  split; [lia |]. destruct Hcase as [(Hpart & Hs0 & Hheld & Hf) | (Hnot & Hz' & o & d & HE' & Hx)].
  - assert (Hal : i + a = lenZ source).
    { destruct (Z.eq_dec (i + a) (lenZ source)); [done | exfalso]. rewrite Hs0 in Hin. discriminate Hin; lia. }
    split; [| by right]. split; [done |]. exists cs1, (c :: cs2'), out.
    rewrite Hf, Hheld, app_assoc, <- Hdrop. done.
  - assert (Eal : a = lenZ (utf8_encode c)).
    { destruct Hend as [| Hcont]; [done |]. destruct (Z.eq_dec a (lenZ (utf8_encode c))) as [| Hne]; [done | exfalso].
      destruct (Z.eq_dec (i + a) (lenZ source)) as [E |].
      - apply Hnot. rewrite (nthZ_ge source) by lia. split; [lia | done].
      - rewrite Hin in Hcont; [done | lia | lia]. }
    rewrite Hdrop, <- app_assoc in Erest. apply app_inj_1 in Erest as [Eu Er];
      [| apply Nat2Z.inj; change (lenZ (takeZ a (dropZ i source)) = lenZ (utf8_encode c)); len_simpl; lia].
    rewrite (Hx c Hsc Hc0 Eu) in HE'. split; [| by left].
    eapply streaming_emit; try done.
Qed.
End streaming.

Section streaming_string.
Context (cs : list Z) (Hcs : Forall is_scalar cs) (Hnz : Forall (fun c => c <> 0) cs).
Context (f0 : SolidSyslogFormatter).

Lemma String_streaming v source future :
  streaming cs f0 v (source ++ future) -> streaming cs f0 (SolidSyslogSdValue_String v source) future.
Proof using Hcs Hnz.
  intros Hst. destruct (streaming_rest cs Hcs Hnz f0 _ _ Hst) as [Hb Hn].
  apply Forall_app in Hb as [Hb _]. apply no_nul_app in Hn as [Hn _].
  unfold SolidSyslogSdValue_String.
  pose proof (DrainPending_streaming cs Hcs Hnz f0 v source future Hst) as Hd.
  destruct (SdValue_DrainPending v source) as [v' j]. destruct Hd as (Hj & Hst' & Hz).
  assert (Hb' : all_bytes (dropZ j source)) by auto.
  assert (Hn' : no_nul (dropZ j source)) by (by apply Forall_drop).
  set (src := dropZ j source) in *.
  assert (Hend : j = lenZ source -> lenZ src = 0) by (intros ->; unfold src; len_simpl; lia).
  unfold SdValue_WriteBody.
  while_by (fun '(v', i) => 0 <= i <= lenZ src /\ streaming cs f0 v' (dropZ i src ++ future) /\
      (sv_PendingCount v' = 0 \/ i = lenZ src))
    (fun s : SolidSyslogSdValue * Z => lenZ src - snd s).
  - intros [w i] (Hi & Hw & Hwz) Hc. bool_to_prop.
    assert (Hwz' : sv_PendingCount w = 0).
    { destruct Hwz as [| ->]; [done | exfalso]. rewrite nthZ_ge in Hc by lia. done. }
    pose proof (WriteBody_step_streaming cs Hcs Hnz f0 src future w i Hb' Hn' ltac:(lia) Hw Hwz' Hc) as Hs.
    destruct (WriteBody_step _ _) as [w' i']. destruct Hs as (Hi' & Hw' & Hz').
    split; [split_and!; try done; lia | simpl; lia].
  - split_and!; try done. destruct Hz as [| Hz]; [by left | right; by rewrite Hend].
  - unfold string_fuel, lenZ. simpl. lia.
  - intros [w i] (Hi & Hw & Hwz) Hc. bool_to_prop. simpl.
    destruct (Z.eq_dec i (lenZ src)) as [-> | Hne].
    + rewrite dropZ_ge in Hw by lia. done.
    + exfalso. revert Hc. unfold nthZ.
      destruct (nth_lookup_or_length src (Z.to_nat i) 0) as [Hl | Hl]; [| unfold lenZ in *; lia].
      intros E. rewrite E in Hl. by apply (Forall_lookup_1 _ _ _ _ Hn') in Hl.
Qed.

(** Nothing is left of a character once the last chunk is in. *)
Lemma streaming_end v : streaming cs f0 v [] ->
  sv_PendingCount v = 0 /\ exists out, emits out (utf8_encode_all cs) f0 (sv_Formatter v).
Proof using Hcs Hnz.
  intros (Hwf & cs1 & cs2 & out & Ecs & HE & Erest). rewrite app_nil_r in Erest.
  destruct (Z.eq_dec (sv_PendingCount v) 0) as [Hz | Hne].
  - split; [done |]. unfold held in Erest. rewrite Hz, takeZ_nonpos in Erest by lia.
    destruct cs2 as [| c cs2]; [rewrite Ecs, app_nil_r; by exists out |].
    exfalso. rewrite utf8_encode_all_cons in Erest. pose proof (utf8_encode_len c).
    apply (f_equal lenZ) in Erest. rewrite lenZ_app, lenZ_nil in Erest.
    pose proof (lenZ_nonneg (utf8_encode_all cs2)). lia.
  - exfalso. pose proof (vw_count v Hwf). destruct (vw_held v Hwf ltac:(lia)) as [_ Hlt].
    pose proof (vw_pending v Hwf) as Hp. unfold SDVALUE_MAX_CODEPOINT_BYTES in Hp.
    pose proof (ExpectedLength_range (sv_Pending v).[0]).
    assert (Hhl : lenZ (held v) = sv_PendingCount v) by (unfold held; len_simpl; lia).
    destruct (encode_all_nonempty cs2) as (c & cs2' & ->); [rewrite <- Erest; lia |].
    destruct (streaming_scalars cs Hcs Hnz _ _ _ Ecs) as [Hsc _].
    rewrite utf8_encode_all_cons in Erest.
    rewrite <- (nthZ_takeZ _ (sv_PendingCount v)) in Hlt by lia. fold (held v) in Hlt.
    rewrite Erest, ExpectedLength_encode in Hlt by done.
    apply (f_equal lenZ) in Erest. rewrite lenZ_app in Erest.
    pose proof (lenZ_nonneg (utf8_encode_all cs2')). lia.
Qed.
End streaming_string.

(** * Any sequence of writes to a value *)

Inductive value_call :=
| VString (source : bytes)
| VBoundedString (source : bytes) (maxDecodedLength : Z)
| VUint32 (number : Z).
Definition run_value_call (v : SolidSyslogSdValue) (call : value_call) : SolidSyslogSdValue :=
  match call with
  | VString s => SolidSyslogSdValue_String v s
  | VBoundedString s n => SolidSyslogSdValue_BoundedString v s n
  | VUint32 n => SolidSyslogSdValue_Uint32 v n
  end.
Definition value_call_ok (call : value_call) : Prop :=
  match call with
  | VString s => all_bytes s
  | VBoundedString s n => all_bytes s /\ 0 <= n <= SIZE_MAX
  | VUint32 n => 0 <= n < 2 ^ 32
  end.

Lemma run_value_call_emits v call :
  val_wf v -> value_call_ok call ->
  val_wf (run_value_call v call) /\
  exists out dec, emits out dec (sv_Formatter v) (sv_Formatter (run_value_call v call)).
Proof.
  intros Hwf Hok. destruct call as [s | s n | n]; simpl in *; [by apply String_emits | |].
  all: destruct (Flush_emits v Hwf) as (o1 & d1 & HE1 & Hw1 & Hz & _).
  - destruct Hok as [Hb Hn].
    destruct (EscapedString_emits (sv_Formatter (SdValue_FlushPendingIfHeld v)) s n)
      as (o2 & d2 & HE2 & _); [apply vw_fmt, Hw1 | done.. |].
    unfold SolidSyslogSdValue_BoundedString. simpl. split.
    + split; simpl; [eauto with fmt | apply vw_pending, Hw1 | lia | lia].
    + exists (o1 ++ o2), (d1 ++ d2). by eapply emits_trans.
  - pose proof (Uint32_emits (sv_Formatter (SdValue_FlushPendingIfHeld v)) n (vw_fmt _ Hw1) Hok) as HE2.
    unfold SolidSyslogSdValue_Uint32. simpl. split.
    + split; simpl; [eauto with fmt | apply vw_pending, Hw1 | lia | lia].
    + eexists (o1 ++ _), (d1 ++ _). by eapply emits_trans.
Qed.
Lemma run_value_calls_emits calls v :
  val_wf v -> Forall value_call_ok calls ->
  val_wf (fold_left run_value_call calls v) /\
  exists out dec, emits out dec (sv_Formatter v) (sv_Formatter (fold_left run_value_call calls v)).
Proof.
  intros Hwf H. revert v Hwf. induction H as [|call calls Hok _ IH]; intros v Hwf; simpl.
  - split; [done |]. exists [], []. apply emits_refl, vw_fmt, Hwf.
  - destruct (run_value_call_emits v call Hwf Hok) as (Hw1 & o1 & d1 & HE1).
    destruct (IH _ Hw1) as (Hw2 & o2 & d2 & HE2). split; [done |].
    exists (o1 ++ o2), (d1 ++ d2). by eapply emits_trans.
Qed.

(** ** What the writes say *)

(** The text an author's calls spell, when each run of strings between other calls is
    clean text, cut anywhere, and each bounded string clean and within its bound. *)
Fixpoint said_after (acc : bytes) (calls : list value_call) : option bytes :=
  match calls with
  | [] => if is_clean acc then Some acc else None
  | VString s :: calls => said_after (acc ++ s) calls
  | VBoundedString s n :: calls =>
      if is_clean acc && is_clean s && (lenZ s <=? n) then (fun d => (acc ++ s) ++ d) <$> said_after [] calls else None
  | VUint32 k :: calls => if is_clean acc then (fun d => (acc ++ decimal k) ++ d) <$> said_after [] calls else None
  end.
Definition said (calls : list value_call) : option bytes := said_after [] calls.

(** A value cut into pieces anywhere, inside characters too, is written as one. *)
Lemma chunks_emit chunks v : val_wf v -> sv_PendingCount v = 0 -> clean (concat chunks) ->
  let v' := fold_left SolidSyslogSdValue_String chunks v in
  val_wf v' /\ sv_PendingCount v' = 0 /\ exists out, emits out (concat chunks) (sv_Formatter v) (sv_Formatter v').
Proof.
  intros Hwf Hz [(cs & Hcs & E) Hn]. rewrite E in Hn. pose proof (no_nul_scalars cs Hcs Hn) as Hnz.
  assert (Hst : streaming cs (sv_Formatter v) v (concat chunks ++ [])).
  { split; [done |]. exists [], cs, []. split; [done |]. split; [apply emits_refl, vw_fmt, Hwf |].
    unfold held. rewrite Hz, takeZ_nonpos, app_nil_r by lia. done. }
  assert (Hall : forall chunks w, streaming cs (sv_Formatter v) w (concat chunks ++ []) ->
    streaming cs (sv_Formatter v) (fold_left SolidSyslogSdValue_String chunks w) []).
  { clear -Hcs Hnz. induction chunks as [|c chunks IH]; intros w Hw; [done |]. simpl in *.
    rewrite <- app_assoc in Hw. apply IH. by apply String_streaming. }
  pose proof (Hall _ _ Hst) as He. destruct (streaming_end cs Hcs Hnz _ _ He) as (Hz' & out & HE).
  split; [apply He |]. split; [done |]. exists out. by rewrite E.
Qed.
Lemma Flush_nothing v : sv_PendingCount v = 0 -> SdValue_FlushPendingIfHeld v = v.
Proof. intros Hz. unfold SdValue_FlushPendingIfHeld. by rewrite Hz. Qed.
Lemma said_after_emits calls chunks v d :
  val_wf v -> sv_PendingCount v = 0 -> Forall value_call_ok calls -> said_after (concat chunks) calls = Some d ->
  let v' := fold_left run_value_call calls (fold_left SolidSyslogSdValue_String chunks v) in
  val_wf v' /\ sv_PendingCount v' = 0 /\ exists out, emits out d (sv_Formatter v) (sv_Formatter v').
Proof.
  intros Hwf Hz Hok. revert chunks v d Hwf Hz. induction Hok as [| call calls Hc _ IH]; intros chunks v d Hwf Hz; simpl.
  - destruct (is_clean _) eqn:Ec; [| done]. intros [= <-]. apply is_clean_spec in Ec. by apply chunks_emit.
  - destruct call as [s | s n | k]; cbn [run_value_call].
    + intros Hs. specialize (IH (chunks ++ [s]) v d Hwf Hz). rewrite concat_app, fold_left_app in IH. cbn [concat fold_left] in IH.
      rewrite app_nil_r in IH. by apply IH.
    + destruct (is_clean (concat chunks) && is_clean s && (lenZ s <=? n)) eqn:Eb; [| done]. bool_to_prop.
      apply is_clean_spec in H, H1. destruct (said_after [] calls) as [d' |] eqn:Ed; [| done]. intros [= <-].
      destruct (chunks_emit chunks v Hwf Hz H) as (Hw1 & Hz1 & o1 & HE1). cbv zeta in *. set (v1 := fold_left _ chunks v) in *.
      unfold SolidSyslogSdValue_BoundedString. rewrite Flush_nothing by done. set (v2 := v1 <| sv_Formatter := _ |>).
      destruct Hc as [Hb Hn]. destruct (EscapedString_emits (sv_Formatter v1) s n (vw_fmt _ Hw1) Hb Hn) as (o2 & d2 & HE2 & _ & Hx).
      assert (d2 = s) as ->.
      { destruct H1 as [(cs & Hcs & Es) Hnn]. apply (Hx cs); [done | | done | lia]. rewrite Es in Hnn. by apply no_nul_scalars. }
      destruct (IH [] v2 d') as (Hw' & Hz' & o3 & HE3); [split; simpl; [by eapply emits_wf | apply vw_pending, Hw1 | lia | lia] | done | done |].
      split; [done |]. split; [done |]. exists ((o1 ++ o2) ++ o3). eapply emits_trans; [eapply emits_trans; [exact HE1 | exact HE2] | exact HE3].
    + destruct (is_clean (concat chunks)) eqn:Eb; [| done]. apply is_clean_spec in Eb.
      destruct (said_after [] calls) as [d' |] eqn:Ed; [| done]. intros [= <-].
      destruct (chunks_emit chunks v Hwf Hz Eb) as (Hw1 & Hz1 & o1 & HE1). cbv zeta in *. set (v1 := fold_left _ chunks v) in *.
      unfold SolidSyslogSdValue_Uint32. rewrite Flush_nothing by done. set (v2 := v1 <| sv_Formatter := _ |>).
      pose proof (Uint32_emits (sv_Formatter v1) k (vw_fmt _ Hw1) Hc) as HE2.
      destruct (IH [] v2 d') as (Hw' & Hz' & o3 & HE3); [split; simpl; [by eapply emits_wf | apply vw_pending, Hw1 | lia | lia] | done | done |].
      split; [done |]. split; [done |]. exists ((o1 ++ decimal k) ++ o3). eapply emits_trans; [eapply emits_trans; [exact HE1 | exact HE2] | exact HE3].
Qed.
(** Any calls write some text, and those that say something write that. *)
Lemma run_value_calls_say calls v :
  val_wf v -> sv_PendingCount v = 0 -> Forall value_call_ok calls ->
  let v' := fold_left run_value_call calls v in
  val_wf v' /\ exists out dec, emits out dec (sv_Formatter v) (sv_Formatter v') /\
    forall d, said calls = Some d -> sv_PendingCount v' = 0 /\ dec = d.
Proof.
  intros Hwf Hz Hok. cbv zeta. destruct (said calls) as [d |] eqn:Es.
  - destruct (said_after_emits calls [] v d Hwf Hz Hok Es) as (Hw' & Hz' & out & HE). split; [done |]. exists out, d.
    split; [exact HE |]. by intros d' [= <-].
  - destruct (run_value_calls_emits calls v Hwf Hok) as (Hw' & out & dec & HE). split; [done |]. by exists out, dec.
Qed.

(** * Elements *)

Definition sd_param : Type := option bytes * list value_call.
Definition run_param (e : SolidSyslogSdElement) (p : sd_param) : SolidSyslogSdElement :=
  fold_left (fun e call => el_on_Value e (fun v => run_value_call v call)) (snd p)
    (SolidSyslogSdElement_Param e (fst p)).
(** What a structured-data author does: open the element, write its params, close it. *)
Definition run_element (e : SolidSyslogSdElement) (name : option bytes) (enterpriseNumber : Z) (params : list sd_param) : SolidSyslogSdElement :=
  SolidSyslogSdElement_End (fold_left run_param params (SolidSyslogSdElement_Begin e name enterpriseNumber)).

(** [framed ps t]: [t] is the params [ps], each with its name and a quoted value
    that decodes to the one listed. *)
Inductive framed : list (bytes * bytes) -> bytes -> Prop :=
| framed_nil : framed [] []
| framed_snoc ps t name out dec :
    framed ps t -> value_text out dec -> clean out /\ clean dec ->
    framed (ps ++ [(name, dec)]) (t ++ [0x20] ++ name ++ [0x3D; 0x22] ++ out ++ [0x22]).

Definition sd_id_text (name : bytes) (enterpriseNumber : Z) : bytes :=
  [0x5B] ++ us_ascii_text name SDELEMENT_NAME_MAX ++
  (if enterpriseNumber =? 0 then [] else [0x40] ++ decimal enterpriseNumber).

(** The params that have a name, and what a reader is to find of one: its name, and
    the text its author's calls say. *)
Abbreviation named_param := (bytes * list value_call)%type.
Definition named_params (params : list sd_param) : list named_param := omap (fun p => n ← fst p; Some (n, snd p)) params.
Definition param_reads (p : named_param) (read : bytes * bytes) : Prop :=
  fst read = us_ascii_text (fst p) SDELEMENT_NAME_MAX /\ forall d, said (snd p) = Some d -> snd read = d.

Definition el_base_wf (e : SolidSyslogSdElement) : Prop :=
  fmt_wf (el_Formatter e) /\ lenZ (el_Pending e) = SDVALUE_MAX_CODEPOINT_BYTES.

Lemma el_on_Value_comp e g h : el_on_Value (el_on_Value e g) h = el_on_Value e (fun v => h (g v)).
Proof.
  destruct e as [f p n [] d o s]; unfold el_on_Value, el_store_Value, el_Value; simpl;
    destruct (g _); reflexivity.
Qed.
Lemma el_on_Value_fold e calls :
  fold_left (fun e call => el_on_Value e (fun v => run_value_call v call)) calls e =
  el_on_Value e (fun v => fold_left run_value_call calls v).
Proof.
  revert e. induction calls as [|call calls IH]; intros e; simpl.
  - destruct e as [f p n [] d o s]; reflexivity.
  - by rewrite IH, el_on_Value_comp.
Qed.

(** The element between two calls: [written] are the params written so far; the
    last of them is still open when [el_ValueOpen]. *)
Definition el_inv (f0 : SolidSyslogFormatter) (head : bytes) (written : list named_param) (e : SolidSyslogSdElement) : Prop :=
  el_Suppressed e = false /\ fmt_wf (el_DropFormatter e) /\ lenZ (el_Pending e) = SDVALUE_MAX_CODEPOINT_BYTES /\
  exists ps t, framed ps t /\
  if el_ValueOpen e
  then el_ValueTarget e = ToFormatter /\ val_wf (el_Value e) /\
    exists before n calls out dec, written = before ++ [(n, calls)] /\ Forall2 param_reads before ps /\
      value_text out dec /\ (clean out /\ clean dec) /\ (forall d, said calls = Some d -> el_PendingCount e = 0 /\ dec = d) /\
      appends (head ++ t ++ [0x20] ++ us_ascii_text n SDELEMENT_NAME_MAX ++ [0x3D; 0x22] ++ out) f0 (el_Formatter e)
  else Forall2 param_reads written ps /\ appends (head ++ t) f0 (el_Formatter e).

(** What its sink points to. *)
Definition el_sink_ok (e : SolidSyslogSdElement) : Prop :=
  val_wf (el_Value e) /\ (el_ValueOpen e = false -> el_ValueTarget e = ToDropFormatter).

Lemma CloseOpenValue_inv f0 head written e :
  el_inv f0 head written e ->
  el_inv f0 head written (SdElement_CloseOpenValue e) /\ el_ValueOpen (SdElement_CloseOpenValue e) = false.
Proof.
  intros (Hs & Hd & Hp & ps & t & Hfr & H). unfold SdElement_CloseOpenValue.
  destruct (el_ValueOpen e) eqn:Eo; [| by unfold el_inv; rewrite Eo; eauto 10].
  destruct H as (Ht & Hw & before & n & calls & out & dec & -> & Hreads & Htext & Hcl & Hsaid & Happ). split; [| done].
  destruct (Flush_emits _ Hw) as (o & d & HE & Hw' & _ & Hnothing).
  unfold el_inv, el_on_Value, SolidSyslogSdValue_Close, el_store_Value. simpl. rewrite Ht in *. simpl.
  split_and!; try done; [apply vw_pending, Hw' |]. set (name := us_ascii_text n SDELEMENT_NAME_MAX) in *.
  exists (ps ++ [(name, dec ++ d)]), (t ++ [0x20] ++ name ++ [0x3D; 0x22] ++ (out ++ o) ++ [0x22]).
  split; [apply framed_snoc; [done | apply value_text_app; [done | apply HE] | split; apply clean_app; (apply Hcl || apply HE)] |].
  split.
  { apply Forall2_app; [done |]. apply Forall2_cons; [| apply Forall2_nil_2]. split; [done |]. simpl. intros d' Hd'.
    destruct (Hsaid d' Hd') as [Hz ->]. destruct (Hnothing Hz) as [_ ->]. apply app_nil_r. }
  replace (head ++ t ++ [0x20] ++ name ++ [0x3D; 0x22] ++ (out ++ o) ++ [0x22])
    with (((head ++ t ++ [0x20] ++ name ++ [0x3D; 0x22] ++ out) ++ o) ++ [0x22]) by (by rewrite <- !app_assoc).
  assert (Hm : el_Formatter e = sv_Formatter (el_Value e)) by (unfold el_Value; by rewrite Ht).
  eapply appends_trans; [eapply appends_trans; [exact Happ | rewrite Hm; apply HE] |].
  apply (AsciiCharacter_prints _ 0x22). apply vw_fmt, Hw'.
Qed.

Lemma FromFormatter_val_wf v f :
  fmt_wf f -> lenZ (sv_Pending v) = SDVALUE_MAX_CODEPOINT_BYTES -> val_wf (SolidSyslogSdValue_FromFormatter v f).
Proof. intros. split; simpl; done || lia. Qed.

Lemma SkipParam_inv f0 head names e :
  el_inv f0 head names e -> el_ValueOpen e = false ->
  el_inv f0 head names (SdElement_SkipParam e) /\ el_sink_ok (SdElement_SkipParam e).
Proof.
  intros (Hs & Hd & Hp & ps & t & Hfr & H) Ho. rewrite Ho in H.
  unfold SdElement_SkipParam, el_inv, el_sink_ok, el_on_Value, el_store_Value. simpl. rewrite Ho.
  split; [split_and!; try done; by exists ps, t |]. split; [| done].
  unfold el_Value. simpl. split; simpl; done || lia.
Qed.

(** A param just opened, with a name or without: its value has been given nothing. *)
Definition opened_param (name : option bytes) : list named_param := match name with Some n => [(n, [])] | None => [] end.
Lemma Param_inv f0 head written e name :
  el_inv f0 head written e ->
  let e' := SolidSyslogSdElement_Param e name in
  el_inv f0 head (written ++ opened_param name) e' /\ el_sink_ok e' /\
  el_ValueOpen e' = match name with Some _ => true | None => false end.
Proof.
  intros Hinv. destruct (CloseOpenValue_inv _ _ _ _ Hinv) as [Hinv' Ho].
  unfold SolidSyslogSdElement_Param, opened_param. set (e1 := SdElement_CloseOpenValue e) in *.
  destruct name as [n |]; [| rewrite app_nil_r; destruct (SkipParam_inv _ _ _ _ Hinv' Ho) as [Hi Hk]; split; [done |]; split; [done |]; exact Ho].
  pose proof Hinv' as (Hs & Hd & Hp & ps & t & Hfr & H). rewrite Ho in H. destruct H as [Hreads Happ].
  rewrite Hs. cbv zeta.
  pose proof (app_wf _ _ _ Happ) as Hw.
  pose proof (AsciiCharacter_prints _ 0x20 Hw) as P1.
  pose proof (PrintUsAsciiString_prints _ n SDELEMENT_NAME_MAX (prints_wf _ _ _ P1) ltac:(unfold SDELEMENT_NAME_MAX; lia)) as P2.
  pose proof (AsciiCharacter_prints _ 0x3D (prints_wf _ _ _ P2)) as P3.
  pose proof (AsciiCharacter_prints _ 0x22 (prints_wf _ _ _ P3)) as P4.
  set (f := SolidSyslogFormatter_AsciiCharacter _ 0x22) in *.
  assert (Hv : val_wf (SolidSyslogSdValue_FromFormatter (el_Value e1) f)).
  { apply FromFormatter_val_wf; [apply (prints_wf _ _ _ P4) | done]. }
  unfold el_inv, el_sink_ok, el_on_Value, el_store_Value. simpl. split; [| split; [split; [exact Hv | done] | done]].
  split_and!; try done. exists ps, t. split; [done |]. split; [done |]. split; [exact Hv |].
  exists written, n, [], [], []. split; [done |]. split; [done |].
  split; [apply value_text_nil |]. split; [split; apply clean_nil |]. split; [by intros d [= <-] |].
  pose proof (appends_trans _ _ _ _ _ Happ (appends_trans _ _ _ _ _ (proj1 P1)
    (appends_trans _ _ _ _ _ (proj1 P2) (appends_trans _ _ _ _ _ (proj1 P3) (proj1 P4))))) as Hall.
  rewrite <- app_assoc in Hall. exact Hall.
Qed.

(** The value of the param just opened is written. *)
Definition value_written (written : list named_param) (name : option bytes) (calls : list value_call) : list named_param :=
  written ++ match name with Some n => [(n, calls)] | None => [] end.
Lemma value_calls_inv f0 head written e name calls :
  el_inv f0 head (written ++ opened_param name) e -> el_sink_ok e -> el_ValueOpen e = (match name with Some _ => true | None => false end) ->
  Forall value_call_ok calls ->
  el_inv f0 head (value_written written name calls) (fold_left (fun e call => el_on_Value e (fun v => run_value_call v call)) calls e).
Proof.
  intros (Hs & Hd & Hp & ps & t & Hfr & H) [Hw Hk] Eo Hok. rewrite el_on_Value_fold. rewrite Eo in *. unfold opened_param, value_written in *.
  destruct name as [name |].
  - destruct H as (Ht & _ & before & n & calls0 & out & dec & Ew & Hreads & Htext & Hcl & Hsaid & Happ).
    apply app_inj_tail in Ew as [<- [= <- <-]]. destruct (Hsaid [] eq_refl) as [Hz ->].
    destruct (run_value_calls_say calls (el_Value e) Hw Hz Hok) as (Hw' & o & d & HE & Hsays).
    unfold el_inv, el_on_Value, el_store_Value. simpl. rewrite Ht in *. simpl. rewrite ?Eo.
    split_and!; try done; [apply vw_pending, Hw' |]. exists ps, t. split; [done |].
    split; [done |]. split; [unfold el_Value at 1; simpl; rewrite Ht; simpl; by destruct (fold_left _ _ _) |].
    exists written, name, calls, (out ++ o), d. split; [done |]. split; [done |].
    split; [apply (value_text_app _ [] _ _ Htext), HE |].
    split; [split; [apply clean_app; [apply Hcl | apply HE] | apply HE] |]. split; [exact Hsays |].
    assert (Hm : sv_Formatter (el_Value e) = el_Formatter e) by (unfold el_Value; by rewrite Ht).
    pose proof (em_appends _ _ _ _ HE) as Hem. rewrite Hm in Hem.
    pose proof (appends_trans _ _ _ _ _ Happ Hem) as Hall. rewrite <- !app_assoc in Hall. exact Hall.
  - destruct (run_value_calls_emits calls (el_Value e) Hw Hok) as (Hw' & o & d & HE).
    unfold el_inv, el_on_Value, el_store_Value. simpl. rewrite (Hk eq_refl) in *. simpl. rewrite ?Eo.
    split_and!; try done; [apply vw_fmt, Hw' | apply vw_pending, Hw' | by exists ps, t].
Qed.

Definition param_ok (p : sd_param) : Prop := Forall value_call_ok (snd p).

Lemma run_params_inv f0 head written e params :
  el_inv f0 head written e -> Forall param_ok params ->
  el_inv f0 head (written ++ named_params params) (fold_left run_param params e).
Proof.
  intros Hinv H. revert written e Hinv. induction H as [|[name calls] params Hok _ IH]; intros written e Hinv.
  - by rewrite app_nil_r.
  - cbn [fold_left]. destruct (Param_inv _ _ _ _ name Hinv) as (Hi & Hk & Eo). cbv zeta in *.
    pose proof (value_calls_inv _ _ _ _ name calls Hi Hk Eo Hok) as Hi'. apply IH in Hi'.
    unfold run_param at 2. simpl. unfold named_params, value_written in *. destruct name as [n |]; simpl in *.
    + by rewrite <- app_assoc in Hi'.
    + by rewrite app_nil_r in Hi'.
Qed.

(** An element at rest: its formatters are usable and nothing else of it matters,
    since [Begin] sets the rest. *)
Definition el_good (e : SolidSyslogSdElement) : Prop :=
  fmt_wf (el_Formatter e) /\ fmt_wf (el_DropFormatter e) /\ lenZ (el_Pending e) = SDVALUE_MAX_CODEPOINT_BYTES.

Lemma FromFormatter_good e f :
  fmt_wf f -> lenZ (el_Pending e) = SDVALUE_MAX_CODEPOINT_BYTES -> el_good (SolidSyslogSdElement_FromFormatter e f).
Proof. intros Hwf Hp. split_and!; done. Qed.

Lemma Begin_inv e name ent :
  el_good e -> 0 <= ent < 2 ^ 32 ->
  el_inv (el_Formatter e) (sd_id_text name ent) [] (SolidSyslogSdElement_Begin e (Some name) ent).
Proof.
  intros (Hwf & Hd & Hp) Hent. unfold SolidSyslogSdElement_Begin, el_inv. simpl.
  split_and!; try done.
  exists [], []. split; [constructor |]. split; [done |]. rewrite app_nil_r.
  set (f := el_Formatter e) in *.
  pose proof (AsciiCharacter_prints f 0x5B Hwf) as P1.
  pose proof (PrintUsAsciiString_prints _ name SDELEMENT_NAME_MAX (prints_wf _ _ _ P1) ltac:(unfold SDELEMENT_NAME_MAX; lia)) as P2.
  pose proof (appends_trans _ _ _ _ _ (proj1 P1) (proj1 P2)) as P12.
  unfold sd_id_text. destruct (Z.eqb_spec ent 0) as [-> | Hne]; cbn [negb].
  - rewrite (app_nil_r (us_ascii_text _ _)). exact P12.
  - pose proof (AsciiCharacter_prints _ 0x40 (prints_wf _ _ _ P2)) as P3.
    pose proof (Uint32_prints _ ent (prints_wf _ _ _ P3) Hent) as P4.
    pose proof (appends_trans _ _ _ _ _ P12 (appends_trans _ _ _ _ _ (proj1 P3) (proj1 P4))) as Hall.
    rewrite <- app_assoc in Hall. exact Hall.
Qed.

(** A suppressed element writes to its drop formatter only. *)
Definition el_dropped (f : SolidSyslogFormatter) (e : SolidSyslogSdElement) : Prop :=
  el_Formatter e = f /\ el_Suppressed e = true /\ el_ValueOpen e = false /\ el_good e.

Lemma run_param_dropped f e p : el_dropped f e -> param_ok p -> el_dropped f (run_param e p).
Proof.
  intros (Hf & Hs & Ho & Hm & Hd & Hp) Hok. unfold run_param.
  assert (E : SolidSyslogSdElement_Param e (fst p) = SdElement_SkipParam e).
  { unfold SolidSyslogSdElement_Param, SdElement_CloseOpenValue. rewrite Ho, Hs. by destruct (fst p). }
  rewrite E, el_on_Value_fold. unfold SdElement_SkipParam. rewrite el_on_Value_comp.
  destruct (run_value_calls_emits (snd p) (SolidSyslogSdValue_FromFormatter
    (el_Value (e <| el_ValueTarget := ToDropFormatter |>)) (el_DropFormatter (e <| el_ValueTarget := ToDropFormatter |>))))
    as (Hw & _); [by apply FromFormatter_val_wf | done |].
  unfold el_dropped, el_good, el_on_Value, el_store_Value. simpl.
  split_and!; try done; [apply vw_fmt, Hw | apply vw_pending, Hw].
Qed.

Lemma framed_clean ps t : framed ps t -> Forall (fun p => clean (fst p)) ps -> clean t.
Proof.
  induction 1 as [| ps t name out dec _ IH _ [Hout _]]; intros Hn; [apply clean_nil |].
  apply Forall_app in Hn as [Hps Hn]. apply Forall_cons_1 in Hn as [Hn _].
  repeat apply clean_app; auto; apply clean_ascii; repeat (apply Forall_cons_2; [lia |]); apply Forall_nil_2.
Qed.
Lemma sd_id_text_clean name ent : clean (sd_id_text name ent).
Proof.
  unfold sd_id_text. apply (clean_app [0x5B]); [apply clean_ascii, Forall_singleton; lia |].
  apply clean_app; [apply us_ascii_text_clean |]. destruct (ent =? 0); [apply clean_nil |].
  apply (clean_app [0x40]); [apply clean_ascii, Forall_singleton; lia | apply digits_of_clean].
Qed.

(** One SD-ELEMENT, and the element is ready for the next. *)
Definition element_text (name : bytes) (ent : Z) (params : list sd_param) (text : bytes) : Prop :=
  exists ps t, framed ps t /\ Forall2 param_reads (named_params params) ps /\ text = sd_id_text name ent ++ t ++ [0x5D].

Lemma element_text_clean name ent params text : element_text name ent params text -> clean text.
Proof.
  intros (ps & t & Hfr & Hn & ->). apply clean_app; [apply sd_id_text_clean |].
  apply clean_app; [| apply clean_ascii, Forall_singleton; lia].
  apply (framed_clean ps t Hfr). clear Hfr. induction Hn as [| p read ps' reads [En _] _ IH]; constructor; [rewrite En; apply us_ascii_text_clean | done].
Qed.

Lemma run_element_frames e name ent params :
  el_good e -> 0 <= ent < 2 ^ 32 -> Forall param_ok params ->
  let e' := run_element e name ent params in
  el_good e' /\
  match name with
  | Some name => exists text, element_text name ent params text /\
      prints text (el_Formatter e) (el_Formatter e')
  | None => el_Formatter e' = el_Formatter e
  end.
Proof.
  intros Hgood Hent Hok. unfold run_element; cbv zeta. destruct name as [name |].
  - pose proof (run_params_inv _ _ _ _ params (Begin_inv e name ent Hgood Hent) Hok) as Hinv.
    destruct (CloseOpenValue_inv _ _ _ _ Hinv) as [(Hs & Hd & Hp & ps & t & Hfr & H) Ho].
    rewrite Ho in H. destruct H as [Hn Happ]. unfold SolidSyslogSdElement_End. rewrite Hs. simpl.
    destruct (AsciiCharacter_prints _ 0x5D (app_wf _ _ _ Happ)) as [HP HT].
    pose proof (appends_trans _ _ _ _ _ Happ HP) as Hall. rewrite <- app_assoc in Hall. split.
    + split_and!; [apply (app_wf _ _ _ HP) | done | done].
    + eexists. split; [by exists ps, t | split; done].
  - assert (Hd : el_dropped (el_Formatter e) (fold_left run_param params (SolidSyslogSdElement_Begin e None ent))).
    { assert (H0 : el_dropped (el_Formatter e) (SolidSyslogSdElement_Begin e None ent)) by done.
      revert H0. generalize (SolidSyslogSdElement_Begin e None ent).
      induction Hok as [|p params Hp _ IH]; intros e0 He0; [done |]. apply IH, run_param_dropped; done. }
    destruct Hd as (Hf & Hs & Ho & Hg). unfold SolidSyslogSdElement_End, SdElement_CloseOpenValue.
    rewrite Ho, Hs. done.
Qed.

(** ** Reading an element back *)

Definition read_char (c : Z) (l : bytes) : option bytes :=
  match l with b :: l => if b =? c then Some l else None | [] => None end.
(** SD-NAME of RFC 5424: PRINTUSASCII but for the equals sign, the closing bracket and
    the quote. *)
Definition sd_name_char (b : Z) : bool := (0x21 <=? b) && (b <=? 0x7E) && negb (b =? 0x3D) && negb (b =? 0x5D) && negb (b =? 0x22).
Definition sd_name (text : bytes) : Prop := text <> [] /\ Forall (fun b => sd_name_char b = true) text.
Fixpoint read_sd_name (l : bytes) : bytes * bytes :=
  match l with
  | b :: l' => if sd_name_char b then let '(n, rest) := read_sd_name l' in (b :: n, rest) else ([], l)
  | [] => ([], [])
  end.
(** Params, each behind a space, up to the closing bracket. *)
Fixpoint read_params (fuel : nat) (l : bytes) : option (list (bytes * bytes) * bytes) :=
  match fuel, l with
  | S fuel, b :: l =>
      if b =? 0x5D then Some ([], l)
      else if b =? 0x20 then
        let '(name, l) := read_sd_name l in
        match name with
        | [] => None
        | _ =>
            l ← read_char 0x3D l; l ← read_char 0x22 l; '(value, l) ← read_value l;
            '(params, l) ← read_params fuel l; Some ((name, value) :: params, l)
        end
      else None
  | _, _ => None
  end.
(** SD-ELEMENT: the SD-ID, the params, and what follows. *)
Definition read_element (l : bytes) : option (bytes * list (bytes * bytes) * bytes) :=
  l ← read_char 0x5B l;
  let '(id, l) := read_sd_name l in
  match id with
  | [] => None
  | _ => '(params, l) ← read_params (length l) l; Some (id, params, l)
  end.

Lemma read_sd_name_spec n b rest : Forall (fun b => sd_name_char b = true) n -> sd_name_char b = false ->
  read_sd_name (n ++ b :: rest) = (n, b :: rest).
Proof.
  intros Hn Hb. induction Hn as [| c n Hc _ IH]; simpl; [by rewrite Hb |]. by rewrite Hc, IH.
Qed.
Lemma read_params_framed ps t : framed ps t -> Forall (fun p => sd_name (fst p)) ps -> forall fuel l, (length ps <= fuel)%nat ->
  read_params fuel (t ++ l) = '(qs, rest) ← read_params (fuel - length ps) l; Some (ps ++ qs, rest).
Proof.
  induction 1 as [| ps t name out dec _ IH Htext _]; intros Hn fuel l Hf.
  - simpl. rewrite Nat.sub_0_r. by destruct (read_params fuel l) as [[qs rest] |].
  - apply Forall_app in Hn as [Hps [[Hne Hn] _]%Forall_cons_1]. rewrite length_app in *. simpl in Hf, Hne, Hn.
    rewrite <- app_assoc, IH by (done || lia). destruct (fuel - length ps)%nat as [| fuel'] eqn:Ef; [simpl in Hf; lia |].
    replace (fuel - (length ps + length [(name, dec)]))%nat with fuel' by (simpl; lia).
    replace (([0x20] ++ name ++ [0x3D; 0x22] ++ out ++ [0x22]) ++ l) with (0x20 :: name ++ 0x3D :: 0x22 :: out ++ 0x22 :: l) by (by rewrite <- !app_assoc).
    cbn [read_params]. change (0x20 =? 0x5D) with false. change (0x20 =? 0x20) with true. cbn beta iota.
    rewrite read_sd_name_spec by done. destruct name as [| c name]; [done |].
    cbn. rewrite (value_text_close _ _ _ Htext). cbn. destruct (read_params fuel' l) as [[qs rest] |]; [| done]. cbn. by rewrite <- app_assoc.
Qed.
Lemma framed_len ps t : framed ps t -> (length ps <= length t)%nat.
Proof. induction 1 as [| ps t name out dec _ IH _]; [done |]. rewrite !length_app. simpl. lia. Qed.
Lemma sd_id_name name ent : sd_name (us_ascii_text name SDELEMENT_NAME_MAX) -> exists id, sd_id_text name ent = 0x5B :: id /\ sd_name id.
Proof.
  intros [Hne Hn]. unfold sd_id_text. eexists. split; [reflexivity |]. split.
  - by intros [E _]%app_eq_nil.
  - apply Forall_app. split; [done |]. destruct (ent =? 0); [apply Forall_nil_2 |]. apply Forall_cons_2; [done |].
    eapply Forall_impl; [| apply digits_of_range]. unfold sd_name_char. simpl. lia.
Qed.
Lemma read_element_framed name ent ps t rest : framed ps t ->
  sd_name (us_ascii_text name SDELEMENT_NAME_MAX) -> Forall (fun p => sd_name (fst p)) ps ->
  read_element (sd_id_text name ent ++ t ++ [0x5D] ++ rest) = Some (dropZ 1 (sd_id_text name ent), ps, rest).
Proof.
  intros Hfr Hname Hps. destruct (sd_id_name name ent Hname) as (id & -> & Hne & Hid). change (dropZ 1 (0x5B :: id)) with id.
  unfold read_element. cbn [app read_char]. cbn.
  assert (Ehead : exists b r, t ++ 0x5D :: rest = b :: r /\ sd_name_char b = false).
  { clear -Hfr. assert (Ht : t = [] \/ exists r, t = 0x20 :: r).
    { induction Hfr as [| ps t name out dec _ [-> | [r ->]] _]; [by left | right; by eexists | right; by eexists]. }
    destruct Ht as [-> | [r ->]]; by eexists _, _. }
  destruct Ehead as (b & r & E & Hb). rewrite E, read_sd_name_spec by done. destruct id as [| c id]; [done |]. rewrite <- E.
  pose proof (framed_len _ _ Hfr) as Hl. rewrite (read_params_framed ps t Hfr Hps) by (rewrite length_app; lia).
  destruct (_ - length ps)%nat as [| n] eqn:En; [rewrite length_app in En; simpl in En; lia |].
  cbn. by rewrite app_nil_r.
Qed.

(** * Properties *)

(** C17. What a structured-data author writes comes out as one SD-ELEMENT.  Any params,
    any values in any pieces, skipped params among them: the text is a bracket, the SD-ID
    with its optional enterprise number, each named param once with its name, cut to 32
    characters and unprintable ones replaced, and its value quoted and escaped so that a
    reader decodes valid UTF-8 from it, the very text the author's calls say when that is
    clean ([said]), and the closing bracket.  The names are the author's to keep: the
    writer does not stop an equals sign, a closing bracket or a quote in one, and such a
    name breaks the frame ([names_can_break_the_frame]).  When every name is an SD-NAME, a
    reader of the grammar of RFC 5424 ([read_element]) gets back the SD-ID, the names and
    the values, and stops at the end of the element.  (That an SD-ID with a number is at
    most 32 characters in all is not checked.)  An element without a name emits nothing. *)
Theorem SdElement_frames (e : SolidSyslogSdElement) (f : SolidSyslogFormatter) (name : option bytes)
    (enterpriseNumber : Z) (params : list sd_param) :
  fmt_wf f -> lenZ (el_Pending e) = SDVALUE_MAX_CODEPOINT_BYTES ->
  0 <= enterpriseNumber < 2 ^ 32 -> Forall param_ok params ->
  let e' := run_element (SolidSyslogSdElement_FromFormatter e f) name enterpriseNumber params in
  match name with
  | Some name => exists ps t, framed ps t /\ Forall2 param_reads (named_params params) ps /\
      prints (sd_id_text name enterpriseNumber ++ t ++ [0x5D]) f (el_Formatter e') /\
      (sd_name (us_ascii_text name SDELEMENT_NAME_MAX) -> Forall (fun p => sd_name (us_ascii_text (fst p) SDELEMENT_NAME_MAX)) (named_params params) ->
       forall rest, read_element (sd_id_text name enterpriseNumber ++ t ++ [0x5D] ++ rest) = Some (dropZ 1 (sd_id_text name enterpriseNumber), ps, rest))
  | None => el_Formatter e' = f
  end.
Proof.
  intros Hwf Hp Hent Hok. cbv zeta.
  destruct (run_element_frames _ name enterpriseNumber params (FromFormatter_good e f Hwf Hp) Hent Hok) as [_ H].
  destruct name as [name |]; [| done].
  destruct H as (text & (ps & t & Hfr & Hn & ->) & HP). exists ps, t. split; [done |]. split; [done |]. split; [done |].
  intros Hid Hnames rest. apply read_element_framed; [done | done |]. clear Hfr HP.
  induction Hn as [| p read ps' reads [En _] _ IH]; [apply Forall_nil_2 |]. apply Forall_cons_1 in Hnames as [Hp1 Hps].
  apply Forall_cons_2; [by rewrite En | by apply IH].
Qed.

Definition empty_element : SolidSyslogSdElement :=
  mkSdElement (mkFormatter 0 0 []) [0; 0; 0; 0] 0 ToFormatter (mkFormatter 0 0 []) false false.
Definition origin_params : list sd_param :=
  [(Some (str "ip"), [VString (str "10.0"); VString (str ".0.1]")]); (None, [VUint32 5])].

Lemma SdElement_frames_witness :
  let f := SolidSyslogFormatter_Create (repeat 0 100) 100 in
  let e' := run_element (SolidSyslogSdElement_FromFormatter empty_element f) (Some (str "origin")) 0 origin_params in
  exists ps t, ps = [(str "ip", str "10.0.0.1]")] /\
    prints (sd_id_text (str "origin") 0 ++ t ++ [0x5D]) f (el_Formatter e') /\
    forall rest, read_element (sd_id_text (str "origin") 0 ++ t ++ [0x5D] ++ rest) = Some (str "origin", ps, rest).
Proof.
  destruct (SdElement_frames empty_element (SolidSyslogFormatter_Create (repeat 0 100) 100) (Some (str "origin")) 0 origin_params)
    as (ps & t & _ & Hreads & HP & Hread).
  - repeat split; discriminate.
  - reflexivity.
  - split; [discriminate | reflexivity].
  - apply Forall_cons_2; [apply Forall_cons_2; [simpl; all_bytes_by_compute |
      apply Forall_cons_2; [simpl; all_bytes_by_compute | apply Forall_nil_2]] |].
    apply Forall_cons_2; [apply Forall_cons_2; [split; [discriminate | reflexivity] | apply Forall_nil_2] |].
    apply Forall_nil_2.
  - exists ps, t. split; [| split; [exact HP |]].
    + inversion Hreads as [| p read ps' reads [En Ev] Hrest E1 E2]; subst. inversion Hrest; subst. destruct read as [n v]. simpl in En, Ev.
      subst n. f_equal. f_equal. apply Ev. vm_compute. reflexivity.
    + apply Hread; [| apply Forall_cons_2; [| apply Forall_nil_2]]; (split; [discriminate |]); vm_compute; repeat (apply Forall_cons_2; [reflexivity |]); apply Forall_nil_2.
Defined.

(** A name with a bracket in it is written as given, and a reader sees the element end
    inside it. *)
Example names_can_break_the_frame :
  let f := SolidSyslogFormatter_Create (repeat 0 100) 100 in
  let e' := run_element (SolidSyslogSdElement_FromFormatter empty_element f) (Some (str "a]b")) 0 [(Some (str "x"), [VUint32 7])] in
  fmt_text (el_Formatter e') = str "[a]b x=" ++ [0x22] ++ str "7" ++ [0x22; 0x5D] /\
  read_element (fmt_text (el_Formatter e')) = Some (str "a", [], str "b x=" ++ [0x22] ++ str "7" ++ [0x22; 0x5D]).
Proof. vm_compute. done. Qed.

(** A value may be written in any number of pieces: cutting a valid UTF-8
    value anywhere, inside characters too, and passing the pieces to [String] one
    by one writes the value from which a reader decodes the whole; nothing is
    held back or replaced at the end. *)
Theorem SdValue_streams_chunks (v : SolidSyslogSdValue) (chunks : list bytes) :
  val_wf v -> sv_PendingCount v = 0 -> clean (concat chunks) ->
  let v' := SolidSyslogSdValue_Close (fold_left SolidSyslogSdValue_String chunks v) in
  exists out, emits out (concat chunks) (sv_Formatter v) (sv_Formatter v') /\ sv_PendingCount v' = 0.
Proof.
  intros Hwf Hz Hc. destruct (chunks_emit chunks v Hwf Hz Hc) as (_ & Hz' & out & HE). cbv zeta in *.
  unfold SolidSyslogSdValue_Close. rewrite Flush_nothing by done. by exists out.
Qed.

(** The euro sign arrives in two pieces. *)
Lemma SdValue_streams_chunks_witness :
  let v := mkSdValue (mkFormatter 20 0 (repeat 0 20)) [0; 0; 0; 0] 0 in
  let chunks := [[0x35; 0xE2]; [0x82; 0xAC]] in
  let v' := SolidSyslogSdValue_Close (fold_left SolidSyslogSdValue_String chunks v) in
  exists out, emits out (concat chunks) (sv_Formatter v) (sv_Formatter v') /\ sv_PendingCount v' = 0.
Proof.
  apply (SdValue_streams_chunks (mkSdValue (mkFormatter 20 0 (repeat 0 20)) [0; 0; 0; 0] 0) [[0x35; 0xE2]; [0x82; 0xAC]]).
  - split; simpl; [repeat split; discriminate | reflexivity | discriminate | discriminate].
  - reflexivity.
  - split.
    + exists [0x35; 0x20AC]. split; [| reflexivity].
      repeat (apply Forall_cons_2; [left; split; discriminate || reflexivity |]). apply Forall_nil_2.
    + repeat (apply Forall_cons_2; [discriminate |]). apply Forall_nil_2.
Defined.

(** ** Header fields *)

Inductive field_call :=
| FPrintUsAscii (source : bytes) (maxLength : Z)
| FUint32 (value : Z).
Definition run_field_call (h : SolidSyslogHeaderField) (call : field_call) : SolidSyslogHeaderField :=
  match call with
  | FPrintUsAscii s n => SolidSyslogHeaderField_PrintUsAscii h s n
  | FUint32 v => SolidSyslogHeaderField_Uint32 h v
  end.
Definition field_call_ok (call : field_call) : Prop :=
  match call with
  | FPrintUsAscii s n => all_bytes s /\ 0 <= n <= SIZE_MAX
  | FUint32 v => 0 <= v < 2 ^ 32
  end.
Definition printable (l : bytes) : Prop := Forall (fun b => 0x21 <= b <= 0x7E) l.

(** Nothing was cut so far. *)
Definition uncut (f : SolidSyslogFormatter) : Prop := fm_Position f < fmt_capacity f.

Lemma appends_uncut out f f' :
  fmt_wf f -> appends out f f' -> uncut f' ->
  uncut f /\ fm_Position f' = fm_Position f + lenZ out /\ fmt_text f' = fmt_text f ++ out.
Proof.
  intros Hwf Happ Hu. unfold uncut in *. rewrite (appends_capacity _ _ _ Happ) in Hu.
  pose proof (lenZ_nonneg out). pose proof Hwf as [_ [? ?]].
  pose proof (fmt_text_len f' (app_wf _ _ _ Happ)) as Hl. rewrite (app_text _ _ _ Happ) in Hl.
  rewrite lenZ_takeZ_min, lenZ_app, fmt_text_len in Hl by (done || lia).
  split; [lia |]. split; [lia |].
  rewrite (app_text _ _ _ Happ). apply takeZ_ge. rewrite lenZ_app, fmt_text_len by done. lia.
Qed.

(** What the calls print in a field with room for [remaining] bytes more: strings cut to
    the room there is, unprintable bytes replaced; a number, whole, while there is any. *)
Fixpoint field_text (remaining : Z) (calls : list field_call) : bytes :=
  match calls with
  | [] => []
  | FPrintUsAscii s n :: calls =>
      let text := us_ascii_text s (Z.min n remaining) in text ++ field_text (remaining - lenZ text) calls
  | FUint32 v :: calls =>
      if 0 <? remaining then decimal v ++ field_text (Z.max 0 (remaining - lenZ (decimal v))) calls else field_text remaining calls
  end.

(** The bytes [w] of this field are in; the budget is what they leave of [max]. *)
Definition field_inv (f0 : SolidSyslogFormatter) (max : Z) (h : SolidSyslogHeaderField) (w : bytes) : Prop :=
  appends w f0 (hf_Formatter h) /\ printable w /\
  lenZ w = fm_Position (hf_Formatter h) - fm_Position f0 /\ hf_Remaining h = Z.max 0 (max - lenZ w).

(** Only what fits was appended. *)
Lemma appends_fitting out f f' :
  fmt_wf f -> appends out f f' ->
  let w := takeZ (fmt_capacity f - fm_Position f) out in
  appends w f f' /\ lenZ w = fm_Position f' - fm_Position f.
Proof.
  intros Hwf [Hw Hs Ht Hf]. cbv zeta. pose proof Hwf as [_ [? ?]].
  assert (Et : fmt_text f' = fmt_text f ++ takeZ (fmt_capacity f - fm_Position f) out).
  { rewrite Ht, takeZ_app_ge by (rewrite fmt_text_len; done || lia). by rewrite fmt_text_len. }
  split.
  - split; try done. rewrite Et. symmetry. apply takeZ_ge. rewrite <- Et, fmt_text_len by done.
    destruct Hw as [_ [_ Hc]]. unfold fmt_capacity in *. by rewrite Hs in Hc.
  - apply (f_equal lenZ) in Et. rewrite lenZ_app, !fmt_text_len in Et by done. lia.
Qed.

Lemma field_step f0 max h w out f' :
  fmt_wf f0 -> fm_Size f0 <= SIZE_MAX -> field_inv f0 max h w -> prints out (hf_Formatter h) f' -> printable out ->
  exists w', appends (w ++ w') f0 f' /\ printable (w ++ w') /\ lenZ w' <= lenZ out /\
    lenZ (w ++ w') = fm_Position f' - fm_Position f0 /\
    size_sub (fm_Position f') (fm_Position (hf_Formatter h)) = lenZ w' /\
    (uncut f' -> uncut (hf_Formatter h) /\ w' = out).
Proof.
  intros Hwf Hsz (Happ & Hpr & Hlen & Hrem) [Hout _] Hpo.
  destruct (appends_fitting _ _ _ (app_wf _ _ _ Happ) Hout) as [Hw' Hl'].
  set (w' := takeZ _ out) in *. exists w'.
  destruct (app_wf _ _ _ Hout) as [_ [? Hp]].
  rewrite (appends_capacity _ _ _ Hout), (appends_capacity _ _ _ Happ) in Hp. unfold fmt_capacity in Hp.
  destruct (app_wf _ _ _ Happ) as [_ [? _]]. pose proof (lenZ_nonneg w').
  split_and!.
  - by eapply appends_trans.
  - apply Forall_app. split; [done | by apply Forall_take].
  - unfold w', lenZ, takeZ. rewrite length_take. lia.
  - rewrite lenZ_app. lia.
  - rewrite size_sub_small; unfold SIZE_MAX in *; lia.
  - intros Hu. destruct (appends_uncut out _ f' (app_wf _ _ _ Happ) Hout Hu) as (Hu' & Hpos & _). split; [done |].
    unfold w'. apply takeZ_ge. unfold uncut in Hu. rewrite (appends_capacity _ _ _ Hout) in Hu. lia.
Qed.

Lemma digits_printable n v : printable (digits_of n v).
Proof. eapply Forall_impl; [| apply digits_of_range]. simpl. lia. Qed.

Lemma run_field_call_inv f0 max h w call :
  fmt_wf f0 -> fm_Size f0 <= SIZE_MAX -> 0 <= max <= SIZE_MAX ->
  field_inv f0 max h w -> lenZ w <= max + 9 -> field_call_ok call ->
  exists w', field_inv f0 max (run_field_call h call) (w ++ w') /\ lenZ (w ++ w') <= max + 9 /\
    (match call with FPrintUsAscii _ _ => True | FUint32 _ => False end -> lenZ w <= max -> lenZ (w ++ w') <= max) /\
    (fmt_terminated (hf_Formatter h) -> fmt_terminated (hf_Formatter (run_field_call h call))) /\
    (uncut (hf_Formatter (run_field_call h call)) -> uncut (hf_Formatter h) /\
      forall calls, field_text (hf_Remaining h) (call :: calls) = w' ++ field_text (hf_Remaining (run_field_call h call)) calls).
Proof.
  intros Hwf Hsz Hmax Hinv Hle Hok. pose proof Hinv as (Happ & Hpr & Hlen & Hrem).
  pose proof (lenZ_nonneg w). destruct call as [s n | v]; simpl.
  - destruct Hok as [Hb Hn]. unfold SolidSyslogHeaderField_PrintUsAscii, HeaderField_Consumed, SolidSyslogFormatter_Length.
    set (limit := if n <? hf_Remaining h then n else hf_Remaining h).
    assert (Elim : limit = Z.min n (hf_Remaining h)) by (unfold limit; destruct (Z.ltb_spec n (hf_Remaining h)); lia).
    assert (Hlim : 0 <= limit <= hf_Remaining h) by lia.
    destruct (field_step f0 max h w _ _ Hwf Hsz Hinv
      (PrintUsAsciiString_prints _ s limit (app_wf _ _ _ Happ) ltac:(lia)) (us_ascii_text_range s limit))
      as (w' & H1 & H2 & H3 & H4 & H5 & H6).
    pose proof (us_ascii_text_len s limit). pose proof (lenZ_nonneg w'). exists w'.
    unfold field_inv. simpl. rewrite H5, lenZ_app in *. rewrite size_sub_small by (unfold SIZE_MAX in *; lia).
    split_and!; try done; try lia; [intros _; by apply PrintUsAsciiString_prints; [apply (app_wf _ _ _ Happ) | lia] |].
    intros Hu. destruct (H6 Hu) as [Hu' ->]. split; [done |]. intros calls. by rewrite Elim.
  - unfold SolidSyslogHeaderField_Uint32. destruct (Z.ltb_spec 0 (hf_Remaining h)) as [Hpos | Hfull].
    + destruct (field_step f0 max h w _ _ Hwf Hsz Hinv (Uint32_prints _ v (app_wf _ _ _ Happ) Hok) (digits_printable _ v))
        as (w' & H1 & H2 & H3 & H4 & H5 & H6).
      pose proof (decimal_len v ltac:(simpl in Hok; lia)). exists w'. pose proof (lenZ_nonneg w').
      unfold field_inv, HeaderField_Consumed, SolidSyslogFormatter_Length. simpl. rewrite H5, lenZ_app in *.
      assert (Erem : (if hf_Remaining h <=? lenZ w' then 0 else hf_Remaining h - lenZ w') = Z.max 0 (hf_Remaining h - lenZ w'))
        by (destruct (Z.leb_spec (hf_Remaining h) (lenZ w')); lia).
      split_and!; try done; try lia; [intros _; by apply Uint32_prints; [apply (app_wf _ _ _ Happ) |] |].
      intros Hu. destruct (H6 Hu) as [Hu' Ew]. split; [done |]. intros calls. by rewrite Erem, Ew.
    + exists []. rewrite app_nil_r. split_and!; try done; lia.
Qed.

Definition prints_only (calls : list field_call) : Prop :=
  Forall (fun c => match c with FPrintUsAscii _ _ => True | FUint32 _ => False end) calls.

Lemma run_field_calls_spec f maxLength calls :
  fmt_wf f -> fm_Size f <= SIZE_MAX -> 0 <= maxLength <= SIZE_MAX -> Forall field_call_ok calls ->
  let h := fold_left run_field_call calls (SolidSyslogHeaderField_FromFormatter f maxLength) in
  exists w, appends w f (hf_Formatter h) /\ printable w /\ lenZ w <= maxLength + 9 /\
    (prints_only calls -> lenZ w <= maxLength) /\
    hf_Remaining h = Z.max 0 (maxLength - lenZ w) /\
    (fmt_terminated f -> fmt_terminated (hf_Formatter h)) /\
    (uncut (hf_Formatter h) -> w = field_text maxLength calls).
Proof.
  intros Hwf Hsz Hmax Hok. cbv zeta.
  assert (Hall : forall calls h w, Forall field_call_ok calls -> field_inv f maxLength h w -> lenZ w <= maxLength + 9 ->
    exists w', field_inv f maxLength (fold_left run_field_call calls h) (w ++ w') /\ lenZ (w ++ w') <= maxLength + 9 /\
      (prints_only calls -> lenZ w <= maxLength -> lenZ (w ++ w') <= maxLength) /\
      (fmt_terminated (hf_Formatter h) -> fmt_terminated (hf_Formatter (fold_left run_field_call calls h))) /\
      (uncut (hf_Formatter (fold_left run_field_call calls h)) -> uncut (hf_Formatter h) /\ field_text (hf_Remaining h) calls = w')).
  { clear calls Hok. intros calls h w H. revert h w. induction H as [|call calls Hok _ IH]; intros h w Hi Hl.
    - exists []. rewrite app_nil_r. done.
    - destruct (run_field_call_inv f maxLength h w call) as (w1 & Hi1 & Hl1 & Hp1 & Ht1 & Hu1); [done.. |].
      destruct (IH _ _ Hi1 Hl1) as (w2 & Hi2 & Hl2 & Hp2 & Ht2 & Hu2). exists (w1 ++ w2). rewrite app_assoc. cbn [fold_left].
      split; [done |]. split; [done |]. split; [intros [Hc Hcs]%Forall_cons_1 Hw; auto |]. split; [auto |].
      intros Hu. destruct (Hu2 Hu) as [Hu' <-]. destruct (Hu1 Hu') as [Hu'' Et]. split; [done |]. apply Et. }
  destruct (Hall calls (SolidSyslogHeaderField_FromFormatter f maxLength) [] Hok) as (w & (Ha & Hp & Hl & Hr) & Hle & Hpr & Ht & Hu).
  - split_and!; simpl; [by apply appends_refl | constructor | change (lenZ []) with 0; lia | change (lenZ []) with 0; lia].
  - change (lenZ []) with 0. lia.
  - exists w. split_and!; try done; [intros Hc; apply (Hpr Hc); change (lenZ []) with 0; lia |]. intros Hun. by destruct (Hu Hun) as [_ <-].
Qed.

(** A header-field callback cannot break the message or its field: whatever
    it writes through the field, in any number of calls, is PRINTUSASCII appended
    to the message, at most the field's width, overrun by at most nine bytes when
    the last thing to fit is a number; the budget kept is exactly what is left,
    never wrapping below zero. *)
Theorem HeaderField_bounds_width (f : SolidSyslogFormatter) (maxLength : Z) (calls : list field_call) :
  fmt_wf f -> fm_Size f <= SIZE_MAX -> 0 <= maxLength <= SIZE_MAX -> Forall field_call_ok calls ->
  let h := fold_left run_field_call calls (SolidSyslogHeaderField_FromFormatter f maxLength) in
  exists w, appends w f (hf_Formatter h) /\ printable w /\ lenZ w <= maxLength + 9 /\
    (prints_only calls -> lenZ w <= maxLength) /\
    hf_Remaining h = Z.max 0 (maxLength - lenZ w).
Proof.
  intros Hwf Hsz Hmax Hok. destruct (run_field_calls_spec f maxLength calls Hwf Hsz Hmax Hok)
    as (w & ? & ? & ? & ? & ? & _). by exists w.
Qed.

Lemma HeaderField_bounds_width_witness :
  let f := SolidSyslogFormatter_Create (repeat 0 40) 40 in
  let h := fold_left run_field_call [FPrintUsAscii (str "my host") 7; FUint32 12345] (SolidSyslogHeaderField_FromFormatter f 8) in
  exists w, appends w f (hf_Formatter h) /\ printable w /\ lenZ w <= 8 + 9 /\
    (prints_only [FPrintUsAscii (str "my host") 7; FUint32 12345] -> lenZ w <= 8) /\
    hf_Remaining h = Z.max 0 (8 - lenZ w).
Proof.
  apply (HeaderField_bounds_width (SolidSyslogFormatter_Create (repeat 0 40) 40) 8).
  - repeat split; discriminate.
  - discriminate.
  - split; discriminate.
  - apply Forall_cons_2; [split; [all_bytes_by_compute | split; discriminate] |].
    apply Forall_cons_2; [split; [discriminate | reflexivity] | apply Forall_nil_2].
Defined.
