(* ===== verification/MessageFormat.v ===== *)
(** RFC 5424 messages ([SolidSyslogTimestampFormatter.c], [SolidSyslogMessageFormatter.c],
    the meta, timeQuality, origin and event structured data): what one log call
    puts on the wire.  The integrator's callbacks (clock, header fields, counters,
    values) are functions of an environment [W] they may change; what a callback
    writes through the writer it is handed is the list of calls it makes on it. *)
From S2P Require Import Prelude Utf8 Formatter SdWriters Errors Interfaces.

(** * Timestamps *)

Record SolidSyslogTimestamp := mkTimestamp {
  ts_Year : Z;
  ts_Month : Z;
  ts_Day : Z;
  ts_Hour : Z;
  ts_Minute : Z;
  ts_Second : Z;
  ts_Microsecond : Z;
  ts_UtcOffsetMinutes : Z
}.

Definition TimestampFormatter_IsValid (ts : SolidSyslogTimestamp) : bool :=
  let valid := (1 <=? ts_Month ts) && (ts_Month ts <=? 12) in
  let valid := valid && (1 <=? ts_Day ts) && (ts_Day ts <=? 31) in
  let valid := valid && (ts_Hour ts <=? 23) in
  let valid := valid && (ts_Minute ts <=? 59) in
  let valid := valid && (ts_Second ts <=? 59) in
  let valid := valid && (ts_Microsecond ts <=? 999999) in
  valid && (-720 <=? ts_UtcOffsetMinutes ts) && (ts_UtcOffsetMinutes ts <=? 840).

Definition TimestampFormatter_AbsoluteInt16 (value : Z) : Z := if value <? 0 then - value else value.

Definition TimestampFormatter_FormatNonZeroUtcOffset (formatter : SolidSyslogFormatter) (offsetMinutes : Z) : SolidSyslogFormatter :=
  let absoluteMinutes := TimestampFormatter_AbsoluteInt16 offsetMinutes in
  let f := SolidSyslogFormatter_AsciiCharacter formatter (if 0 <? offsetMinutes then 0x2B else 0x2D) in
  let f := SolidSyslogFormatter_TwoDigit f (absoluteMinutes / 60) in
  let f := SolidSyslogFormatter_AsciiCharacter f 0x3A in
  SolidSyslogFormatter_TwoDigit f (absoluteMinutes mod 60).

Definition TimestampFormatter_FormatUtcOffset (formatter : SolidSyslogFormatter) (offsetMinutes : Z) : SolidSyslogFormatter :=
  if offsetMinutes =? 0 then SolidSyslogFormatter_AsciiCharacter formatter 0x5A
  else TimestampFormatter_FormatNonZeroUtcOffset formatter offsetMinutes.

Definition TimestampFormatter_FormatValid (formatter : SolidSyslogFormatter) (ts : SolidSyslogTimestamp) : SolidSyslogFormatter :=
  let f := SolidSyslogFormatter_FourDigit formatter (ts_Year ts) in
  let f := SolidSyslogFormatter_AsciiCharacter f 0x2D in
  let f := SolidSyslogFormatter_TwoDigit f (ts_Month ts) in
  let f := SolidSyslogFormatter_AsciiCharacter f 0x2D in
  let f := SolidSyslogFormatter_TwoDigit f (ts_Day ts) in
  let f := SolidSyslogFormatter_AsciiCharacter f 0x54 in
  let f := SolidSyslogFormatter_TwoDigit f (ts_Hour ts) in
  let f := SolidSyslogFormatter_AsciiCharacter f 0x3A in
  let f := SolidSyslogFormatter_TwoDigit f (ts_Minute ts) in
  let f := SolidSyslogFormatter_AsciiCharacter f 0x3A in
  let f := SolidSyslogFormatter_TwoDigit f (ts_Second ts) in
  let f := SolidSyslogFormatter_AsciiCharacter f 0x2E in
  let f := SolidSyslogFormatter_SixDigit f (ts_Microsecond ts) in
  TimestampFormatter_FormatUtcOffset f (ts_UtcOffsetMinutes ts).

Definition SolidSyslogTimestampFormatter_Format (formatter : SolidSyslogFormatter) (timestamp : SolidSyslogTimestamp) : SolidSyslogFormatter :=
  if TimestampFormatter_IsValid timestamp
  then TimestampFormatter_FormatValid formatter timestamp
  else SolidSyslogFormatter_NilValue formatter.

(** * PRIVAL *)

Definition SOLIDSYSLOG_FACILITY_SYSLOG : Z := 5.
Definition SOLIDSYSLOG_FACILITY_LOCAL7 : Z := 23.

Record SolidSyslogMessage := mkMessage {
  msg_Facility : Z;
  msg_Severity : Z;
  msg_MessageId : option bytes;
  msg_Msg : option bytes
}.

Definition MessageFormatter_CombineFacilityAndSeverity (facility severity : Z) : Z := u8 (facility * 8 + severity).
Definition MessageFormatter_FacilityIsValid (facility : Z) : bool := facility <=? SOLIDSYSLOG_FACILITY_LOCAL7.
Definition MessageFormatter_SeverityIsValid (severity : Z) : bool := severity <=? SOLIDSYSLOG_SEVERITY_DEBUG.
Definition MessageFormatter_PrivalComponentsAreValid (facility severity : Z) : bool :=
  MessageFormatter_FacilityIsValid facility && MessageFormatter_SeverityIsValid severity.

(** The fields are enums, converted to [uint8_t]. *)
Definition MessageFormatter_MakePrival (message : SolidSyslogMessage) : Z :=
  let facility := u8 (msg_Facility message) in
  let severity := u8 (msg_Severity message) in
  if MessageFormatter_PrivalComponentsAreValid facility severity
  then MessageFormatter_CombineFacilityAndSeverity facility severity
  else MessageFormatter_CombineFacilityAndSeverity SOLIDSYSLOG_FACILITY_SYSLOG SOLIDSYSLOG_SEVERITY_ERROR.

Definition MessageFormatter_FormatPrival (formatter : SolidSyslogFormatter) (prival : Z) : SolidSyslogFormatter :=
  let f := SolidSyslogFormatter_AsciiCharacter formatter 0x3C in
  let f := SolidSyslogFormatter_Uint32 f prival in
  SolidSyslogFormatter_AsciiCharacter f 0x3E.

(** * Structured data *)

Section structured_data.
(** The integrator's environment and its callbacks. *)
Context {W : Type}.
Definition ext (A : Type) : Type := ST W A.

Definition SOLIDSYSLOG_SYNC_ACCURACY_OMIT : Z := 0.
Definition ORIGIN_SOFTWARE_MAX : Z := 48.
Definition ORIGIN_SWVERSION_MAX : Z := 32.
Definition ORIGIN_ENTERPRISE_ID_MAX : Z := 64.

Record SolidSyslogMetaSd := mkMetaSd {
  meta_Counter : ext Z;
  meta_GetSysUpTime : option (ext Z);
  meta_GetLanguage : option (ext (list value_call))
}.
Record SolidSyslogTimeQuality := mkTimeQuality {
  tq_TzKnown : bool;
  tq_IsSynced : bool;
  tq_SyncAccuracyMicroseconds : Z
}.
Record SolidSyslogTimeQualitySd := mkTimeQualitySd { tqsd_GetTimeQuality : ext SolidSyslogTimeQuality }.
Record SolidSyslogOriginSd := mkOriginSd {
  origin_Software : option bytes;
  origin_SwVersion : option bytes;
  origin_EnterpriseId : option bytes;
  origin_GetIpCount : option (ext Z);
  origin_GetIpAt : option (Z -> ext (list value_call))
}.

(** Writing a value through the sink [Param] returned. *)
Definition value_write (element : SolidSyslogSdElement) (call : value_call) : SolidSyslogSdElement :=
  el_on_Value element (fun v => run_value_call v call).
Definition value_writes (element : SolidSyslogSdElement) (calls : list value_call) : SolidSyslogSdElement :=
  fold_left value_write calls element.

Definition MetaSd_Format (self : SolidSyslogMetaSd) (element : SolidSyslogSdElement) : ext SolidSyslogSdElement :=
  let element := SolidSyslogSdElement_Begin element (Some (str "meta")) 0 in
  let! sequenceId := meta_Counter self in
  let element := value_write (SolidSyslogSdElement_Param element (Some (str "sequenceId"))) (VUint32 sequenceId) in
  let! element :=
    match meta_GetSysUpTime self with
    | Some getSysUpTime =>
        let! upTime := getSysUpTime in
        st_ret (value_write (SolidSyslogSdElement_Param element (Some (str "sysUpTime"))) (VUint32 upTime))
    | None => st_ret element
    end in
  let! element :=
    match meta_GetLanguage self with
    | Some getLanguage =>
        let element := SolidSyslogSdElement_Param element (Some (str "language")) in
        let! calls := getLanguage in st_ret (value_writes element calls)
    | None => st_ret element
    end in
  st_ret (SolidSyslogSdElement_End element).

Definition TimeQualitySd_EmitsSyncAccuracy (quality : SolidSyslogTimeQuality) : bool :=
  tq_IsSynced quality && negb (tq_SyncAccuracyMicroseconds quality =? SOLIDSYSLOG_SYNC_ACCURACY_OMIT).

Definition TimeQualitySd_Format (self : SolidSyslogTimeQualitySd) (element : SolidSyslogSdElement) : ext SolidSyslogSdElement :=
  let! q := tqsd_GetTimeQuality self in
  let element := SolidSyslogSdElement_Begin element (Some (str "timeQuality")) 0 in
  let element := value_write (SolidSyslogSdElement_Param element (Some (str "tzKnown"))) (VUint32 (if tq_TzKnown q then 1 else 0)) in
  let element := value_write (SolidSyslogSdElement_Param element (Some (str "isSynced"))) (VUint32 (if tq_IsSynced q then 1 else 0)) in
  let element :=
    if TimeQualitySd_EmitsSyncAccuracy q
    then value_write (SolidSyslogSdElement_Param element (Some (str "syncAccuracy"))) (VUint32 (tq_SyncAccuracyMicroseconds q))
    else element in
  st_ret (SolidSyslogSdElement_End element).

Definition OriginSd_EmitSoftware (element : SolidSyslogSdElement) (software : option bytes) : SolidSyslogSdElement :=
  match software with
  | Some s => value_write (SolidSyslogSdElement_Param element (Some (str "software"))) (VBoundedString s ORIGIN_SOFTWARE_MAX)
  | None => element
  end.
Definition OriginSd_EmitSwVersion (element : SolidSyslogSdElement) (swVersion : option bytes) : SolidSyslogSdElement :=
  match swVersion with
  | Some s => value_write (SolidSyslogSdElement_Param element (Some (str "swVersion"))) (VBoundedString s ORIGIN_SWVERSION_MAX)
  | None => element
  end.
Definition OriginSd_EmitEnterpriseId (element : SolidSyslogSdElement) (enterpriseId : option bytes) : SolidSyslogSdElement :=
  match enterpriseId with
  | Some s => value_write (SolidSyslogSdElement_Param element (Some (str "enterpriseId"))) (VBoundedString s ORIGIN_ENTERPRISE_ID_MAX)
  | None => element
  end.

(** [for (i = from; i < from + n; i++)] over the callback that writes one address. *)
Fixpoint EmitIps_loop (n : nat) (from : Z) (getIpAt : Z -> ext (list value_call)) (element : SolidSyslogSdElement) : ext SolidSyslogSdElement :=
  match n with
  | O => st_ret element
  | S n =>
      let element := SolidSyslogSdElement_Param element (Some (str "ip")) in
      let! calls := getIpAt from in
      EmitIps_loop n (from + 1) getIpAt (value_writes element calls)
  end.
Definition OriginSd_EmitIps (element : SolidSyslogSdElement) (self : SolidSyslogOriginSd) : ext SolidSyslogSdElement :=
  match origin_GetIpCount self, origin_GetIpAt self with
  | Some getIpCount, Some getIpAt =>
      let! count := getIpCount in EmitIps_loop (Z.to_nat count) 0 getIpAt element
  | _, _ => st_ret element
  end.

Definition OriginSd_Format (self : SolidSyslogOriginSd) (element : SolidSyslogSdElement) : ext SolidSyslogSdElement :=
  let element := SolidSyslogSdElement_Begin element (Some (str "origin")) 0 in
  let element := OriginSd_EmitSoftware element (origin_Software self) in
  let element := OriginSd_EmitSwVersion element (origin_SwVersion self) in
  let element := OriginSd_EmitEnterpriseId element (origin_EnterpriseId self) in
  let! element := OriginSd_EmitIps element self in
  st_ret (SolidSyslogSdElement_End element).

Definition EventSd_HasSourceName (event : SolidSyslogErrorEvent) : bool :=
  match ev_Source event with
  | Some source => match es_Name source with Some _ => true | None => false end
  | None => false
  end.
Definition EventSd_SourceName (event : SolidSyslogErrorEvent) : bytes :=
  match ev_Source event with
  | Some source => match es_Name source with Some name => name | None => [] end
  | None => []
  end.

(** [number] is an [int32_t]; the magnitude is taken in [uint32_t] arithmetic. *)
Definition EventSd_Int32 (element : SolidSyslogSdElement) (number : Z) : SolidSyslogSdElement :=
  let magnitude := u32 number in
  let '(element, magnitude) :=
    if number <? 0 then (value_write element (VString (str "-")), u32 (0 - magnitude))
    else (element, magnitude) in
  value_write element (VUint32 magnitude).

Definition EventSd_Detail (element : SolidSyslogSdElement) (event : SolidSyslogErrorEvent) : SolidSyslogSdElement :=
  match SolidSyslogErrorEvent_DetailName event with
  | Some name => value_write element (VString name)
  | None => EventSd_Int32 element (ev_Detail event)
  end.

(** [None] is the null pointer the code would read through for a category
    without a name. *)
Definition EventSd_Format (event : SolidSyslogErrorEvent) (element : SolidSyslogSdElement) : option SolidSyslogSdElement :=
  let element := SolidSyslogSdElement_Begin element (Some (str "solidsyslog")) 67478 in
  let element :=
    if EventSd_HasSourceName event
    then value_write (SolidSyslogSdElement_Param element (Some (str "source"))) (VString (EventSd_SourceName event))
    else element in
  let element := SolidSyslogSdElement_Param element (Some (str "category")) in
  match SolidSyslogErrorCategory_Name (ev_Category event) with
  | None => None
  | Some name =>
      let element := value_write element (VString name) in
      let element := EventSd_Detail (SolidSyslogSdElement_Param element (Some (str "detail"))) event in
      let element :=
        if ev_HasNativeCode event
        then EventSd_Int32 (SolidSyslogSdElement_Param element (Some (str "native"))) (ev_NativeCode event)
        else element in
      Some (SolidSyslogSdElement_End element)
  end.

(** The vtable: which Format an object has.  An integrator's own object is the
    elements it writes. *)
Inductive SolidSyslogStructuredData :=
| NullSd
| MetaSd (self : SolidSyslogMetaSd)
| TimeQualitySd (self : SolidSyslogTimeQualitySd)
| OriginSd (self : SolidSyslogOriginSd)
| EventSd (event : SolidSyslogErrorEvent)
| IntegratorSd (elements : ext (list (option bytes * Z * list sd_param))).

Definition NullSd_Format (element : SolidSyslogSdElement) : ext SolidSyslogSdElement := st_ret element.

Definition SolidSyslogStructuredData_Format (sd : SolidSyslogStructuredData) (element : SolidSyslogSdElement) : ext SolidSyslogSdElement :=
  match sd with
  | NullSd => NullSd_Format element
  | MetaSd self => MetaSd_Format self element
  | TimeQualitySd self => TimeQualitySd_Format self element
  | OriginSd self => OriginSd_Format self element
  | EventSd event => st_ret (match EventSd_Format event element with Some e => e | None => element end)
  | IntegratorSd elements =>
      let! es := elements in
      st_ret (fold_left (fun e '(name, ent, params) => run_element e name ent params) es element)
  end.

(** * The message *)

Definition SOLIDSYSLOG_MAX_APP_NAME_SIZE : Z := 49.
Definition SOLIDSYSLOG_MAX_HOSTNAME_SIZE : Z := 256.
Definition SOLIDSYSLOG_MAX_MSGID_SIZE : Z := 33.
Definition SOLIDSYSLOG_MAX_PROCESS_ID_SIZE : Z := 129.

Record SolidSyslogMessageFormatterContext := mkMessageFormatterContext {
  mfc_Clock : ext SolidSyslogTimestamp;
  mfc_GetHostname : ext (list field_call);
  mfc_GetAppName : ext (list field_call);
  mfc_GetProcessId : ext (list field_call);
  mfc_Sd : list (option SolidSyslogStructuredData)
}.

Definition MessageFormatter_FormatTimestamp (formatter : SolidSyslogFormatter) (clock : ext SolidSyslogTimestamp) : ext SolidSyslogFormatter :=
  let! ts := clock in
  st_ret (SolidSyslogTimestampFormatter_Format formatter ts).

Definition MessageFormatter_FormatStringField (formatter : SolidSyslogFormatter) (fn : ext (list field_call)) (maxSize : Z) : ext SolidSyslogFormatter :=
  let lengthBefore := SolidSyslogFormatter_Length formatter in
  let field := SolidSyslogHeaderField_FromFormatter formatter (size_sub maxSize 1) in
  let! calls := fn in
  let formatter := hf_Formatter (fold_left run_field_call calls field) in
  st_ret (if SolidSyslogFormatter_Length formatter =? lengthBefore
          then SolidSyslogFormatter_NilValue formatter else formatter).

Definition MessageFormatter_StringIsValid (value : option bytes) : bool :=
  match value with Some v => negb (v.[0] =? 0) | None => false end.

Definition MessageFormatter_FormatMsgId (formatter : SolidSyslogFormatter) (messageId : option bytes) : SolidSyslogFormatter :=
  let lengthBefore := SolidSyslogFormatter_Length formatter in
  let formatter :=
    match messageId with
    | Some id =>
        if MessageFormatter_StringIsValid messageId
        then SolidSyslogFormatter_PrintUsAsciiString formatter id (SOLIDSYSLOG_MAX_MSGID_SIZE - 1)
        else formatter
    | None => formatter
    end in
  if SolidSyslogFormatter_Length formatter =? lengthBefore
  then SolidSyslogFormatter_NilValue formatter else formatter.

Fixpoint MessageFormatter_FormatSdElements (element : SolidSyslogSdElement) (sd : list (option SolidSyslogStructuredData)) : ext SolidSyslogSdElement :=
  match sd with
  | [] => st_ret element
  | s :: sd =>
      let! element :=
        match s with Some s => SolidSyslogStructuredData_Format s element | None => st_ret element end in
      MessageFormatter_FormatSdElements element sd
  end.

(** The element lives on the stack; [FromFormatter] sets what is read of it. *)
Definition uninitialised_element : SolidSyslogSdElement :=
  mkSdElement (mkFormatter 0 0 []) [0; 0; 0; 0] 0 ToFormatter (mkFormatter 0 0 []) false false.

Definition MessageFormatter_FormatStructuredData (formatter : SolidSyslogFormatter)
    (baseSd messageSd : list (option SolidSyslogStructuredData)) : ext SolidSyslogFormatter :=
  let lengthBefore := SolidSyslogFormatter_Length formatter in
  let element := SolidSyslogSdElement_FromFormatter uninitialised_element formatter in
  let! element := MessageFormatter_FormatSdElements element baseSd in
  let! element := MessageFormatter_FormatSdElements element messageSd in
  let formatter := el_Formatter element in
  st_ret (if SolidSyslogFormatter_Length formatter =? lengthBefore
          then SolidSyslogFormatter_NilValue formatter else formatter).

Definition MessageFormatter_SkipLeadingBom (msg : bytes) : bytes :=
  if (msg.[0] =? 0xEF) && (msg.[1] =? 0xBB) && (msg.[2] =? 0xBF) then dropZ 3 msg else msg.

Definition MessageFormatter_FormatMsg (formatter : SolidSyslogFormatter) (msg : option bytes) : SolidSyslogFormatter :=
  match msg with
  | Some m =>
      if MessageFormatter_StringIsValid msg then
        let body := MessageFormatter_SkipLeadingBom m in
        if MessageFormatter_StringIsValid (Some body) then
          let f := SolidSyslogFormatter_AsciiCharacter formatter 0x20 in
          let f := SolidSyslogFormatter_Bom f in
          SolidSyslogFormatter_BoundedString f body SOLIDSYSLOG_MAX_MESSAGE_SIZE
        else formatter
      else formatter
  | None => formatter
  end.

Definition SolidSyslogMessageFormatter_Format (formatter : SolidSyslogFormatter) (message : SolidSyslogMessage)
    (context : SolidSyslogMessageFormatterContext) (messageSd : list (option SolidSyslogStructuredData)) : ext SolidSyslogFormatter :=
  let f := MessageFormatter_FormatPrival formatter (MessageFormatter_MakePrival message) in
  let f := SolidSyslogFormatter_AsciiCharacter f 0x31 in
  let f := SolidSyslogFormatter_AsciiCharacter f 0x20 in
  let! f := MessageFormatter_FormatTimestamp f (mfc_Clock context) in
  let f := SolidSyslogFormatter_AsciiCharacter f 0x20 in
  let! f := MessageFormatter_FormatStringField f (mfc_GetHostname context) SOLIDSYSLOG_MAX_HOSTNAME_SIZE in
  let f := SolidSyslogFormatter_AsciiCharacter f 0x20 in
  let! f := MessageFormatter_FormatStringField f (mfc_GetAppName context) SOLIDSYSLOG_MAX_APP_NAME_SIZE in
  let f := SolidSyslogFormatter_AsciiCharacter f 0x20 in
  let! f := MessageFormatter_FormatStringField f (mfc_GetProcessId context) SOLIDSYSLOG_MAX_PROCESS_ID_SIZE in
  let f := SolidSyslogFormatter_AsciiCharacter f 0x20 in
  let f := MessageFormatter_FormatMsgId f (msg_MessageId message) in
  let f := SolidSyslogFormatter_AsciiCharacter f 0x20 in
  let! f := MessageFormatter_FormatStructuredData f (mfc_Sd context) messageSd in
  st_ret (MessageFormatter_FormatMsg f (msg_Msg message)).
End structured_data.

(** * Composing writes *)

Lemma prints_then o1 o2 f g h : prints o1 f g -> (fmt_wf g -> prints o2 g h) -> prints (o1 ++ o2) f h.
Proof. intros H1 H2. eapply prints_trans; [exact H1 |]. apply H2, (prints_wf _ _ _ H1). Qed.
Lemma prints_text o o' f g : prints o f g -> o = o' -> prints o' f g.
Proof. by intros ? <-. Qed.

(** Walk back through a sequence of formatter calls. *)
Ltac print_seq :=
  repeat match goal with
  | |- prints _ _ (SolidSyslogFormatter_AsciiCharacter _ _) =>
      eapply prints_then; [| intros ?Hw; apply AsciiCharacter_prints; exact Hw]
  | |- prints _ _ (SolidSyslogFormatter_TwoDigit _ _) =>
      eapply prints_then; [| intros ?Hw; apply TwoDigit_prints; exact Hw]
  | |- prints _ _ (SolidSyslogFormatter_SixDigit _ _) =>
      eapply prints_then; [| intros ?Hw; apply SixDigit_prints; exact Hw]
  end.

(** A step of the message: it appends clean text, which is in [P] unless the
    message is cut. *)
Definition writes (P : bytes -> Prop) (f f' : SolidSyslogFormatter) : Prop :=
  exists out, prints out f f' /\ clean out /\ (uncut f' -> P out).
Definition both (P Q : bytes -> Prop) (out : bytes) : Prop := exists a b, out = a ++ b /\ P a /\ Q b.

Lemma writes_prints (P : bytes -> Prop) out f f' : prints out f f' -> clean out -> P out -> writes P f f'.
Proof. intros. by exists out. Qed.
Lemma writes_wf P f f' : writes P f f' -> fmt_wf f'.
Proof. intros (out & H & _). by eapply prints_wf. Qed.
Lemma writes_terminated P f f' : writes P f f' -> fmt_terminated f'.
Proof. by intros (out & [_ H] & _). Qed.
Lemma writes_size P f f' : writes P f f' -> fm_Size f' = fm_Size f.
Proof. intros (out & [H _] & _). apply (app_size _ _ _ H). Qed.
Lemma writes_seq P Q f g h : writes P f g -> (fmt_wf g -> writes Q g h) -> writes (both P Q) f h.
Proof.
  intros H1 H2. pose proof (writes_wf _ _ _ H1) as Hw. specialize (H2 Hw).
  destruct H1 as (o1 & P1 & C1 & N1), H2 as (o2 & P2 & C2 & N2).
  exists (o1 ++ o2). split; [by eapply prints_trans |]. split; [auto with utf8v |].
  intros Hu. exists o1, o2. split; [done |]. split; [| auto].
  apply N1. apply (appends_uncut o2 g h Hw (proj1 P2) Hu).
Qed.
Lemma writes_char v f : fmt_wf f -> 0x20 <= v <= 0x7E ->
  writes (eq [v]) f (SolidSyslogFormatter_AsciiCharacter f v).
Proof.
  intros Hwf Hv. assert (E : ascii_char v = v).
  { unfold ascii_char, Formatter_IsAsciiCharacter, Formatter_IsPrintableUsAscii. destruct_bool_step; [done | lia]. }
  pose proof (ascii_char_clean v) as Hc. rewrite E in Hc.
  apply (writes_prints _ [v]); [| done | done]. rewrite <- E at 1. by apply AsciiCharacter_prints.
Qed.

(** * Timestamps *)

#[local] Opaque digits_of.

Definition offset_text (offset : Z) : bytes :=
  if offset =? 0 then [0x5A]
  else [if 0 <? offset then 0x2B else 0x2D] ++ digits_of 2 (Z.abs offset / 60) ++ [0x3A] ++ digits_of 2 (Z.abs offset mod 60).
Definition timestamp_text (ts : SolidSyslogTimestamp) : bytes :=
  if TimestampFormatter_IsValid ts
  then digits_of 4 (ts_Year ts) ++ [0x2D] ++ digits_of 2 (ts_Month ts) ++ [0x2D] ++ digits_of 2 (ts_Day ts) ++ [0x54] ++
       digits_of 2 (ts_Hour ts) ++ [0x3A] ++ digits_of 2 (ts_Minute ts) ++ [0x3A] ++ digits_of 2 (ts_Second ts) ++ [0x2E] ++
       digits_of 6 (ts_Microsecond ts) ++ offset_text (ts_UtcOffsetMinutes ts)
  else [0x2D].

Lemma FormatUtcOffset_prints f offset :
  fmt_wf f -> prints (offset_text offset) f (TimestampFormatter_FormatUtcOffset f offset).
Proof.
  intros Hwf. unfold TimestampFormatter_FormatUtcOffset, offset_text.
  destruct (Z.eqb_spec offset 0); [by apply (AsciiCharacter_prints f 0x5A) |].
  unfold TimestampFormatter_FormatNonZeroUtcOffset, TimestampFormatter_AbsoluteInt16.
  replace (if offset <? 0 then - offset else offset) with (Z.abs offset) by (destruct (Z.ltb_spec offset 0); lia).
  cbv zeta. rewrite !app_assoc. eapply prints_then; [| intros Hw; by apply TwoDigit_prints].
  eapply prints_then; [| intros Hw; by apply (AsciiCharacter_prints _ 0x3A)].
  eapply prints_then; [| intros Hw; by apply TwoDigit_prints].
  destruct (0 <? offset); [by apply (AsciiCharacter_prints f 0x2B) | by apply (AsciiCharacter_prints f 0x2D)].
Qed.

Lemma TimestampFormatter_prints f ts :
  fmt_wf f -> prints (timestamp_text ts) f (SolidSyslogTimestampFormatter_Format f ts).
Proof.
  intros Hwf. unfold SolidSyslogTimestampFormatter_Format, timestamp_text.
  destruct (TimestampFormatter_IsValid ts); [| by apply NilValue_prints].
  unfold TimestampFormatter_FormatValid. cbv zeta. eapply prints_text.
  - eapply prints_then; [| intros Hw; by apply FormatUtcOffset_prints].
    print_seq. by apply FourDigit_prints.
  - by rewrite <- !app_assoc.
Qed.

Ltac printable_parts tac :=
  repeat match goal with
  | |- _ (digits_of _ _) => apply digits_printable
  | |- _ [_] => apply Forall_singleton
  | |- _ (_ ++ _) => apply Forall_app; split
  | |- _ => progress tac
  end; try lia.

Lemma offset_text_printable offset : printable (offset_text offset).
Proof.
  unfold offset_text. destruct (offset =? 0); [by apply Forall_singleton |].
  printable_parts idtac. destruct (0 <? offset); lia.
Qed.
Lemma timestamp_text_printable ts : printable (timestamp_text ts).
Proof.
  unfold timestamp_text. destruct (TimestampFormatter_IsValid ts); [| by apply Forall_singleton].
  printable_parts ltac:(apply offset_text_printable).
Qed.
Lemma timestamp_text_nonempty ts : timestamp_text ts <> [].
Proof.
  unfold timestamp_text. destruct (TimestampFormatter_IsValid ts); [| done].
  intros [E _]%app_eq_nil. apply (f_equal lenZ) in E. by rewrite digits_of_len in E.
Qed.
Lemma printable_clean l : printable l -> clean l.
Proof. intros H. apply clean_ascii. eapply Forall_impl; [| exact H]. simpl. lia. Qed.

(** A reader of RFC 3339 timestamps: [n] digits, and the whole. *)
Definition read_digits (n : Z) (l : bytes) : option (Z * bytes) :=
  if (n <=? lenZ l) && forallb (fun b => (0x30 <=? b) && (b <=? 0x39)) (takeZ n l)
  then Some (read_decimal (takeZ n l), dropZ n l) else None.
Definition read_offset (l : bytes) : option (Z * bytes) :=
  match l with
  | b :: l =>
      if b =? 0x5A then Some (0, l)
      else '(h, l) ← read_digits 2 l; l ← read_char 0x3A l; '(m, l) ← read_digits 2 l;
           if b =? 0x2B then Some (h * 60 + m, l) else if b =? 0x2D then Some (- (h * 60 + m), l) else None
  | [] => None
  end.
Definition read_timestamp (l : bytes) : option (SolidSyslogTimestamp * bytes) :=
  '(year, l) ← read_digits 4 l; l ← read_char 0x2D l; '(month, l) ← read_digits 2 l; l ← read_char 0x2D l;
  '(day, l) ← read_digits 2 l; l ← read_char 0x54 l; '(hour, l) ← read_digits 2 l; l ← read_char 0x3A l;
  '(minute, l) ← read_digits 2 l; l ← read_char 0x3A l; '(second, l) ← read_digits 2 l; l ← read_char 0x2E l;
  '(micro, l) ← read_digits 6 l; '(offset, l) ← read_offset l;
  Some (mkTimestamp year month day hour minute second micro offset, l).

Lemma read_digits_written k n v l :
  k = Z.of_nat n -> 0 <= v < 10 ^ Z.of_nat n -> read_digits k (digits_of n v ++ l) = Some (v, l).
Proof.
  intros -> Hv. pose proof (digits_of_len n v) as Hl. pose proof (lenZ_nonneg l). unfold read_digits.
  rewrite lenZ_app, takeZ_app_le, takeZ_ge, dropZ_app_ge by lia.
  rewrite Hl, Z.sub_diag, dropZ_0, read_digits_of by done.
  replace (Z.of_nat n <=? Z.of_nat n + lenZ l) with true by lia.
  replace (forallb _ _) with true; [done |]. symmetry. apply forallb_forall.
  intros b Hb. pose proof (proj1 (List.Forall_forall _ _) (digits_of_range n v) b Hb). simpl in *. lia.
Qed.
Lemma read_offset_written offset l : -5999 <= offset <= 5999 -> read_offset (offset_text offset ++ l) = Some (offset, l).
Proof.
  intros Ho. unfold offset_text. destruct (Z.eqb_spec offset 0) as [-> | Hne]; [done |].
  rewrite <- !app_assoc. cbn [app]. unfold read_offset. cbv beta iota.
  replace ((if 0 <? offset then 0x2B else 0x2D) =? 0x5A) with false by (destruct (0 <? offset); done).
  rewrite (read_digits_written 2 2) by (try done; change (10 ^ Z.of_nat 2) with 100; utf8_arith). simpl.
  rewrite (read_digits_written 2 2) by (try done; change (10 ^ Z.of_nat 2) with 100; utf8_arith). simpl.
  destruct (Z.ltb_spec 0 offset); simpl; do 2 f_equal; utf8_arith.
Qed.

Definition timestamp_typed (ts : SolidSyslogTimestamp) : Prop :=
  0 <= ts_Year ts < 2 ^ 16 /\ 0 <= ts_Month ts < 2 ^ 8 /\ 0 <= ts_Day ts < 2 ^ 8 /\ 0 <= ts_Hour ts < 2 ^ 8 /\
  0 <= ts_Minute ts < 2 ^ 8 /\ 0 <= ts_Second ts < 2 ^ 8 /\ 0 <= ts_Microsecond ts < 2 ^ 32 /\
  - 2 ^ 15 <= ts_UtcOffsetMinutes ts < 2 ^ 15.

(** Timestamps read back: a clock reading with a four-digit year and fields in
    their ranges is written as the RFC 3339 timestamp from which a reader gets
    every field back, sub-minute to offset sign, and any reading with a field out
    of range (the zeroed one that says there is no time among them) is written as
    the NILVALUE. *)
Theorem timestamp_reads_back (f : SolidSyslogFormatter) (ts : SolidSyslogTimestamp) :
  fmt_wf f -> timestamp_typed ts ->
  prints (timestamp_text ts) f (SolidSyslogTimestampFormatter_Format f ts) /\
  (TimestampFormatter_IsValid ts = false -> timestamp_text ts = [0x2D]) /\
  (TimestampFormatter_IsValid ts = true -> ts_Year ts <= 9999 ->
   forall rest, read_timestamp (timestamp_text ts ++ rest) = Some (ts, rest)).
Proof.
  intros Hwf Hty. split; [by apply TimestampFormatter_prints |].
  unfold timestamp_text. destruct (TimestampFormatter_IsValid ts) eqn:Ev; split; intros H; try done.
  intros Hy rest. unfold TimestampFormatter_IsValid in Ev. bool_to_prop.
  destruct Hty as (? & ? & ? & ? & ? & ? & ? & ?).
  rewrite <- !app_assoc. unfold read_timestamp.
  repeat (first [rewrite (read_digits_written 4 4) by (try done; change (10 ^ Z.of_nat 4) with 10000; lia)
    | rewrite (read_digits_written 2 2) by (try done; change (10 ^ Z.of_nat 2) with 100; lia)
    | rewrite (read_digits_written 6 6) by (try done; change (10 ^ Z.of_nat 6) with 1000000; lia)]; simpl).
  rewrite read_offset_written by lia. simpl. by destruct ts.
Qed.

Lemma timestamp_reads_back_witness :
  let ts := mkTimestamp 2026 2 28 23 59 9 1234 (-570) in
  prints (timestamp_text ts) (mkFormatter 40 0 (repeat 0 40)) (SolidSyslogTimestampFormatter_Format (mkFormatter 40 0 (repeat 0 40)) ts) /\
  (TimestampFormatter_IsValid ts = false -> timestamp_text ts = [0x2D]) /\
  (TimestampFormatter_IsValid ts = true -> ts_Year ts <= 9999 ->
   forall rest, read_timestamp (timestamp_text ts ++ rest) = Some (ts, rest)).
Proof.
  apply (timestamp_reads_back (mkFormatter 40 0 (repeat 0 40)) (mkTimestamp 2026 2 28 23 59 9 1234 (-570))).
  - repeat split; discriminate.
  - repeat split; discriminate || reflexivity.
Defined.

(** * Structured data *)

(** An element as its author writes it: its name, if it has one, its number and params. *)
Abbreviation element_said := (option bytes * Z * list sd_param)%type.
Section sd_theory.
Context {W : Type}.
Implicit Types (w : W) (element : SolidSyslogSdElement).

(** What the integrator's callbacks are typed to give. *)
Definition gives {A} (P : A -> Prop) (m : ST W A) : Prop := forall w, P (fst (m w)).
Definition opt_all {A} (P : A -> Prop) (o : option A) : Prop := match o with Some a => P a | None => True end.
Definition is_u32 (v : Z) : Prop := 0 <= v < 2 ^ 32.
Definition is_i32 (v : Z) : Prop := - 2 ^ 31 <= v < 2 ^ 31.

Definition meta_ok (self : @SolidSyslogMetaSd W) : Prop :=
  gives is_u32 (meta_Counter self) /\ opt_all (gives is_u32) (meta_GetSysUpTime self) /\
  opt_all (gives (Forall value_call_ok)) (meta_GetLanguage self).
Definition time_quality_ok (self : @SolidSyslogTimeQualitySd W) : Prop :=
  gives (fun q => is_u32 (tq_SyncAccuracyMicroseconds q)) (tqsd_GetTimeQuality self).
Definition origin_ok (self : @SolidSyslogOriginSd W) : Prop :=
  opt_all all_bytes (origin_Software self) /\ opt_all all_bytes (origin_SwVersion self) /\
  opt_all all_bytes (origin_EnterpriseId self) /\
  opt_all (fun at_ => forall i, gives (Forall value_call_ok) (at_ i)) (origin_GetIpAt self).
Definition event_ok (event : SolidSyslogErrorEvent) : Prop :=
  (exists name, SolidSyslogErrorCategory_Name (ev_Category event) = Some name /\ all_bytes name) /\
  all_bytes (EventSd_SourceName event) /\ opt_all all_bytes (SolidSyslogErrorEvent_DetailName event) /\
  is_i32 (ev_Detail event) /\ is_i32 (ev_NativeCode event).
Definition sd_ok (sd : @SolidSyslogStructuredData W) : Prop :=
  match sd with
  | NullSd => True
  | MetaSd self => meta_ok self
  | TimeQualitySd self => time_quality_ok self
  | OriginSd self => origin_ok self
  | EventSd event => event_ok event
  | IntegratorSd elements =>
      gives (Forall (fun '(_, ent, params) => 0 <= ent < 2 ^ 32 /\ Forall param_ok params)) elements
  end.

(** ** What an object says

    Each Format, read as the elements its callbacks have it write. *)
Definition element_ok (e : element_said) : Prop := let '(_, ent, params) := e in 0 <= ent < 2 ^ 32 /\ Forall param_ok params.
Definition number_param (name : string) (v : Z) : sd_param := (Some (str name), [VUint32 v]).
Definition meta_said (self : @SolidSyslogMetaSd W) : ST W (list element_said) :=
  let! sequenceId := meta_Counter self in
  let! upTime := match meta_GetSysUpTime self with Some get => let! v := get in st_ret [number_param "sysUpTime" v] | None => st_ret [] end in
  let! language := match meta_GetLanguage self with Some get => let! calls := get in st_ret [(Some (str "language"), calls)] | None => st_ret [] end in
  st_ret [(Some (str "meta"), 0, [number_param "sequenceId" sequenceId] ++ upTime ++ language)].
Definition flag (b : bool) : Z := if b then 1 else 0.
Definition time_quality_said (self : @SolidSyslogTimeQualitySd W) : ST W (list element_said) :=
  let! q := tqsd_GetTimeQuality self in
  st_ret [(Some (str "timeQuality"), 0,
    [number_param "tzKnown" (flag (tq_TzKnown q)); number_param "isSynced" (flag (tq_IsSynced q))] ++
    (if tq_IsSynced q && negb (tq_SyncAccuracyMicroseconds q =? 0) then [number_param "syncAccuracy" (tq_SyncAccuracyMicroseconds q)] else []))].
Definition bounded_param (name : string) (text : option bytes) (max : Z) : list sd_param :=
  match text with Some s => [(Some (str name), [VBoundedString s max])] | None => [] end.
Fixpoint ips_said (n : nat) (from : Z) (getIpAt : Z -> ST W (list value_call)) : ST W (list sd_param) :=
  match n with
  | O => st_ret []
  | S n => let! calls := getIpAt from in let! rest := ips_said n (from + 1) getIpAt in st_ret ((Some (str "ip"), calls) :: rest)
  end.
Definition origin_said (self : @SolidSyslogOriginSd W) : ST W (list element_said) :=
  let! ips := match origin_GetIpCount self, origin_GetIpAt self with
              | Some getIpCount, Some getIpAt => let! count := getIpCount in ips_said (Z.to_nat count) 0 getIpAt
              | _, _ => st_ret []
              end in
  st_ret [(Some (str "origin"), 0, bounded_param "software" (origin_Software self) ORIGIN_SOFTWARE_MAX ++
    bounded_param "swVersion" (origin_SwVersion self) ORIGIN_SWVERSION_MAX ++
    bounded_param "enterpriseId" (origin_EnterpriseId self) ORIGIN_ENTERPRISE_ID_MAX ++ ips)].
(** An [int32_t] is its sign and its magnitude, [INT32_MIN] included. *)
Definition int32_said (number : Z) : list value_call := (if number <? 0 then [VString (str "-")] else []) ++ [VUint32 (Z.abs number)].
Definition event_said (event : SolidSyslogErrorEvent) : list element_said :=
  [(Some (str "solidsyslog"), 67478,
    (if EventSd_HasSourceName event then [(Some (str "source"), [VString (EventSd_SourceName event)])] else []) ++
    [(Some (str "category"), [VString (default [] (SolidSyslogErrorCategory_Name (ev_Category event)))]);
     (Some (str "detail"), match SolidSyslogErrorEvent_DetailName event with Some name => [VString name] | None => int32_said (ev_Detail event) end)] ++
    (if ev_HasNativeCode event then [(Some (str "native"), int32_said (ev_NativeCode event))] else []))].
Definition sd_said (sd : @SolidSyslogStructuredData W) : ST W (list element_said) :=
  match sd with
  | NullSd => st_ret []
  | MetaSd self => meta_said self
  | TimeQualitySd self => time_quality_said self
  | OriginSd self => origin_said self
  | EventSd event => st_ret (event_said event)
  | IntegratorSd elements => elements
  end.
Fixpoint all_said (sds : list (option (@SolidSyslogStructuredData W))) : ST W (list element_said) :=
  match sds with
  | [] => st_ret []
  | sd :: sds =>
      let! es := match sd with Some sd => sd_said sd | None => st_ret [] end in let! rest := all_said sds in st_ret (es ++ rest)
  end.
Definition write_elements (element : SolidSyslogSdElement) (es : list element_said) : SolidSyslogSdElement :=
  fold_left (fun e '(name, ent, params) => run_element e name ent params) es element.

Lemma gives_ret {A} (P : A -> Prop) (a : A) : P a -> gives P (st_ret a).
Proof. by intros H w. Qed.
Lemma gives_bind {A B} (P : A -> Prop) (Q : B -> Prop) (m : ST W A) (k : A -> ST W B) :
  gives P m -> (forall a, P a -> gives Q (k a)) -> gives Q (st_bind m k).
Proof. intros Hm Hk w. unfold st_bind. specialize (Hm w). destruct (m w) as [a w']. by apply Hk. Qed.

(** [m] gives [f] of what [n] gives, and leaves what [n] leaves. *)
Definition gives_as {A B} (m : ST W B) (f : A -> B) (n : ST W A) : Prop := forall w, m w = (f (fst (n w)), snd (n w)).
(** A param written through its sink. *)
Lemma param_writes e n calls : value_writes (SolidSyslogSdElement_Param e (Some n)) calls = run_param e (Some n, calls).
Proof using. reflexivity. Qed.
Lemma param_write e n call : value_write (SolidSyslogSdElement_Param e (Some n)) call = run_param e (Some n, [call]).
Proof using. reflexivity. Qed.
Lemma written_as element name ent params : write_elements element [(Some name, ent, params)] =
  SolidSyslogSdElement_End (fold_left run_param params (SolidSyslogSdElement_Begin element (Some name) ent)).
Proof using. reflexivity. Qed.
Ltac written := cbn [fst snd]; rewrite written_as; cbn [fold_left app andb negb]; unfold number_param, flag; rewrite ?fold_left_app, ?param_write, ?param_writes; cbn [fold_left]; try reflexivity.
Lemma MetaSd_as self element : gives_as (MetaSd_Format self element) (write_elements element) (meta_said self).
Proof using.
  unfold MetaSd_Format, meta_said. intros w. unfold st_bind, st_ret. destruct (meta_Counter self w) as [id w1].
  destruct (meta_GetSysUpTime self) as [g |]; [destruct (g w1) as [up w2] |];
    (destruct (meta_GetLanguage self) as [g' |]; [match goal with |- context [g' ?w] => destruct (g' w) as [calls w3] end |]); written.
Qed.
Lemma TimeQualitySd_as self element : gives_as (TimeQualitySd_Format self element) (write_elements element) (time_quality_said self).
Proof using.
  unfold TimeQualitySd_Format, time_quality_said. intros w. unfold st_bind, st_ret. destruct (tqsd_GetTimeQuality self w) as [q w1].
  unfold TimeQualitySd_EmitsSyncAccuracy, SOLIDSYSLOG_SYNC_ACCURACY_OMIT. destruct (tq_IsSynced q); [| written].
  cbn [andb]. destruct (tq_SyncAccuracyMicroseconds q =? 0); written.
Qed.
Lemma EmitIps_as n from getIpAt element :
  gives_as (EmitIps_loop n from getIpAt element) (fun ps => fold_left run_param ps element) (ips_said n from getIpAt).
Proof using.
  revert from element. induction n as [|n IH]; intros from element w; [reflexivity |]. simpl. unfold st_bind, st_ret.
  destruct (getIpAt from w) as [calls w1]. rewrite (IH (from + 1) _ w1). by destruct (ips_said n (from + 1) getIpAt w1).
Qed.
Lemma OriginSd_as self element : gives_as (OriginSd_Format self element) (write_elements element) (origin_said self).
Proof using.
  assert (Hopt : forall e s n max, match s with
      | Some s => value_write (SolidSyslogSdElement_Param e (Some (str n))) (VBoundedString s max) | None => e end =
      fold_left run_param (bounded_param n s max) e) by (by intros e [s |] n max).
  unfold OriginSd_Format, origin_said, OriginSd_EmitIps, OriginSd_EmitSoftware, OriginSd_EmitSwVersion, OriginSd_EmitEnterpriseId.
  rewrite !Hopt. intros w. unfold st_bind, st_ret.
  destruct (origin_GetIpCount self) as [count |]; [| written].
  destruct (origin_GetIpAt self) as [at_ |]; [| written].
  destruct (count w) as [n w1]. rewrite (EmitIps_as (Z.to_nat n) 0 at_ _ w1). destruct (ips_said (Z.to_nat n) 0 at_ w1) as [ips w2]. written.
Qed.
Lemma EventSd_Int32_said element number : is_i32 number -> EventSd_Int32 element number = value_writes element (int32_said number).
Proof using.
  intros Hn. unfold is_i32 in Hn. unfold EventSd_Int32, int32_said. destruct (Z.ltb_spec number 0).
  - assert (Em : u32 (0 - u32 number) = Z.abs number) by (unfold u32; utf8_arith). by rewrite Em.
  - rewrite u32_small, Z.abs_eq by lia. done.
Qed.
Lemma EventSd_as event element : event_ok event -> EventSd_Format event element = Some (write_elements element (event_said event)).
Proof using.
  intros ((cat & Ec & _) & _ & _ & Hd & Hn). unfold EventSd_Format, event_said. rewrite Ec. cbn [default]. f_equal.
  unfold EventSd_Detail. rewrite !EventSd_Int32_said by done.
  destruct (EventSd_HasSourceName event), (SolidSyslogErrorEvent_DetailName event), (ev_HasNativeCode event); written.
Qed.
Lemma sd_as sd element : sd_ok sd -> gives_as (SolidSyslogStructuredData_Format sd element) (write_elements element) (sd_said sd).
Proof using.
  intros Hok. destruct sd as [| self | self | self | event | elements]; simpl.
  - done.
  - apply MetaSd_as.
  - apply TimeQualitySd_as.
  - apply OriginSd_as.
  - intros w. by rewrite EventSd_as.
  - intros w. unfold st_bind, st_ret. by destruct (elements w).
Qed.
Lemma all_as sds element : Forall (opt_all sd_ok) sds ->
  gives_as (MessageFormatter_FormatSdElements element sds) (write_elements element) (all_said sds).
Proof using.
  intros H. revert element. induction H as [| sd sds Hsd _ IH]; intros element w; [done |]. simpl. unfold st_bind, st_ret.
  destruct sd as [sd |].
  - rewrite (sd_as sd element Hsd w). destruct (sd_said sd w) as [es w1]. cbn [fst snd]. rewrite (IH _ w1). destruct (all_said sds w1) as [rest w2].
    cbn [fst snd]. unfold write_elements. by rewrite fold_left_app.
  - rewrite (IH element w). by destruct (all_said sds w).
Qed.

(** What the callbacks are typed to give makes what is said sound. *)
Lemma one_element name ent params : 0 <= ent < 2 ^ 32 -> Forall param_ok params -> Forall element_ok [(Some (str name), ent, params)].
Proof using. intros. by apply Forall_singleton. Qed.
Lemma param1_ok name call : value_call_ok call -> param_ok (name, [call]).
Proof using. intros. by apply Forall_singleton. Qed.
Lemma bounded_param_ok name s max : opt_all all_bytes s -> 0 <= max <= SIZE_MAX -> Forall param_ok (bounded_param name s max).
Proof using. intros Hs Hm. destruct s as [s |]; [apply Forall_singleton, param1_ok; by split | apply Forall_nil_2]. Qed.
Lemma int32_said_ok n : is_i32 n -> Forall value_call_ok (int32_said n).
Proof using.
  intros Hn. unfold is_i32 in Hn. apply Forall_app. split; [| apply Forall_singleton; simpl; lia].
  destruct (n <? 0); [apply Forall_singleton; simpl; all_bytes_by_compute | apply Forall_nil_2].
Qed.
Lemma ips_said_ok n from getIpAt : (forall i, gives (Forall value_call_ok) (getIpAt i)) -> gives (Forall param_ok) (ips_said n from getIpAt).
Proof using.
  intros Hat. revert from. induction n as [|n IH]; intros from; simpl; [apply gives_ret, Forall_nil_2 |].
  eapply gives_bind; [apply Hat |]. intros calls Hc. eapply gives_bind; [apply IH |]. intros rest Hr. apply gives_ret. by apply Forall_cons_2.
Qed.
Lemma meta_said_ok self : meta_ok self -> gives (Forall element_ok) (meta_said self).
Proof using.
  intros (Hc & Hu & Hl). unfold meta_said. apply (gives_bind is_u32); [done |]. intros id Hid.
  apply (gives_bind (Forall param_ok)).
  { destruct (meta_GetSysUpTime self) as [g |]; [| apply gives_ret, Forall_nil_2].
    apply (gives_bind is_u32); [done |]. intros up Hup. by apply gives_ret, Forall_singleton, param1_ok. }
  intros up Hup. apply (gives_bind (Forall param_ok)).
  { destruct (meta_GetLanguage self) as [g |]; [| apply gives_ret, Forall_nil_2].
    apply (gives_bind (Forall value_call_ok)); [done |]. intros calls Hcs. by apply gives_ret, Forall_singleton. }
  intros lang Hlang. apply gives_ret, one_element; [lia |]. repeat (apply Forall_app; split); [| done | done].
  by apply Forall_singleton, param1_ok.
Qed.
Lemma time_quality_said_ok self : time_quality_ok self -> gives (Forall element_ok) (time_quality_said self).
Proof using.
  intros Hq. unfold time_quality_said. apply (gives_bind _ _ _ _ Hq). intros q Hs. apply gives_ret, one_element; [lia |].
  assert (Hb : forall b, value_call_ok (VUint32 (flag b))) by (intros []; simpl; lia).
  apply Forall_app. split; [repeat (apply Forall_cons_2; [by apply param1_ok |]); apply Forall_nil_2 |].
  destruct (_ && _); [by apply Forall_singleton, param1_ok | apply Forall_nil_2].
Qed.
Lemma origin_said_ok self : origin_ok self -> gives (Forall element_ok) (origin_said self).
Proof using.
  intros (H1 & H2 & H3 & Hat). unfold origin_said. apply (gives_bind (Forall param_ok)).
  { destruct (origin_GetIpCount self) as [count |]; [| apply gives_ret, Forall_nil_2].
    destruct (origin_GetIpAt self) as [at_ |]; [| apply gives_ret, Forall_nil_2].
    apply (gives_bind (fun _ => True)); [done |]. intros n _. by apply ips_said_ok. }
  intros ips Hips. apply gives_ret, one_element; [lia |].
  repeat (apply Forall_app; split); try (apply bounded_param_ok; [done | split; discriminate]). done.
Qed.
Lemma event_said_ok event : event_ok event -> Forall element_ok (event_said event).
Proof using.
  intros ((cat & Ec & Hcb) & Hsrc & Hdn & Hd & Hn). unfold event_said. rewrite Ec. apply one_element; [lia |]. apply Forall_app. split; [| apply Forall_app; split].
  - destruct (EventSd_HasSourceName event); [by apply Forall_singleton, param1_ok | apply Forall_nil_2].
  - apply Forall_cons_2; [by apply param1_ok | apply Forall_singleton].
    destruct (SolidSyslogErrorEvent_DetailName event); [by apply param1_ok | by apply int32_said_ok].
  - destruct (ev_HasNativeCode event); [apply Forall_singleton; by apply int32_said_ok | apply Forall_nil_2].
Qed.
Lemma all_said_ok sds : Forall (opt_all sd_ok) sds -> gives (Forall element_ok) (all_said sds).
Proof using.
  induction 1 as [| sd sds Hsd _ IH]; simpl; [apply gives_ret, Forall_nil_2 |]. apply (gives_bind (Forall element_ok)).
  - destruct sd as [[| self | self | self | event | elements] |]; simpl in *; try apply gives_ret, Forall_nil_2.
    + by apply meta_said_ok.
    + by apply time_quality_said_ok.
    + by apply origin_said_ok.
    + by apply gives_ret, event_said_ok.
    + done.
  - intros es Hes. apply (gives_bind _ _ _ _ IH). intros rest Hr. by apply gives_ret, Forall_app.
Qed.

(** ** What the elements append: one text for each that has a name *)

Definition named_elements (es : list element_said) : list (bytes * Z * list sd_param) :=
  omap (fun '(name, ent, params) => n ← name; Some (n, ent, params)) es.
Definition element_written (e : bytes * Z * list sd_param) (text : bytes) : Prop := let '(name, ent, params) := e in element_text name ent params text.
Definition wrote_elements (es : list element_said) (e e' : SolidSyslogSdElement) : Prop :=
  el_good e' /\ (fmt_terminated (el_Formatter e) -> fmt_terminated (el_Formatter e')) /\
  exists texts, Forall2 element_written (named_elements es) texts /\ appends (concat texts) (el_Formatter e) (el_Formatter e').
Lemma write_elements_wrote es e : el_good e -> Forall element_ok es -> wrote_elements es e (write_elements e es).
Proof using.
  intros Hg Hes. revert e Hg. induction Hes as [| [[name ent] params] es [He Hp] _ IH]; intros e Hg.
  - split; [done |]. split; [done |]. exists []. split; [apply Forall2_nil_2 | apply appends_refl, Hg].
  - destruct (run_element_frames e name ent params Hg He Hp) as [Hg' H].
    destruct (IH _ Hg') as (Hg2 & HT2 & texts & Htx & Ha). cbn [write_elements fold_left]. fold (write_elements (run_element e name ent params) es).
    split; [exact Hg2 |]. destruct name as [name |].
    + destruct H as (text & Ht & [HP HT]). split; [auto |]. exists (text :: texts). split; [by apply Forall2_cons |]. simpl. by eapply appends_trans.
    + rewrite H in *. split; [done |]. by exists texts.
Qed.
Lemma elements_clean es texts : Forall2 element_written es texts -> clean (concat texts).
Proof using.
  induction 1 as [| [[name ent] params] text es texts Ht _ IH]; [apply clean_nil |]. simpl. apply clean_app; [by eapply element_text_clean | done].
Qed.
End sd_theory.

(** * The message *)

Section message_theory.
Context {W : Type}.
Implicit Types (w : W) (f g : SolidSyslogFormatter).

Definition usable f : Prop := fmt_wf f /\ fm_Size f <= SIZE_MAX.

Lemma writes_usable P f g : usable f -> writes P f g -> usable g.
Proof using. intros [_ Hs] H. split; [by eapply writes_wf | by rewrite (writes_size _ _ _ H)]. Qed.
Lemma writes_impl (P Q : bytes -> Prop) f g : writes P f g -> (forall o, P o -> Q o) -> writes Q f g.
Proof using. intros (o & HP & HC & HN) H. exists o. auto. Qed.
Lemma writes_then_char P v f g : writes P f g -> 0x20 <= v <= 0x7E ->
  writes (both P (eq [v])) f (SolidSyslogFormatter_AsciiCharacter g v).
Proof using. intros H Hv. eapply writes_seq; [done | intros Hw; by apply writes_char]. Qed.
Definition header_field (max : Z) (text : bytes) : Prop := text <> [] /\ printable text /\ lenZ text <= max.
(** A field's callback is typed; [strict] ones write strings only. *)
Definition field_callback_ok (strict : bool) (fn : ST W (list field_call)) : Prop :=
  gives (fun calls => Forall field_call_ok calls /\ (strict = true -> prints_only calls)) fn.
Definition slack (strict : bool) : Z := if strict then 0 else 9.

(** What was written since [f], or the NILVALUE if nothing was. *)
Definition or_nilvalue (out : bytes) : bytes := match out with [] => [0x2D] | _ => out end.
Lemma or_nil (P : bytes -> Prop) f f' out :
  fmt_wf f -> (fmt_terminated f -> fmt_terminated f') -> fmt_terminated f -> appends out f f' -> clean out ->
  (uncut f' -> P (or_nilvalue out)) ->
  writes P f (if SolidSyslogFormatter_Length f' =? SolidSyslogFormatter_Length f
              then SolidSyslogFormatter_NilValue f' else f').
Proof using.
  intros Hwf HT Ht Happ Hc HP. unfold SolidSyslogFormatter_Length.
  destruct (Z.eqb_spec (fm_Position f') (fm_Position f)) as [E | E].
  - pose proof (NilValue_prints f' (app_wf _ _ _ Happ)) as [H1 H2].
    exists (out ++ [0x2D]). split; [split; [by eapply appends_trans | done] |].
    split; [apply clean_app; [done | apply (ascii_char_clean 0x2D)] |].
    intros Hu. destruct (appends_uncut [0x2D] f' _ (app_wf _ _ _ Happ) H1 Hu) as (Hu' & _ & _).
    destruct (appends_uncut out f f' Hwf Happ Hu') as (_ & Hl & _).
    assert (Hz : lenZ out = 0) by lia. destruct out; [by apply HP |]. rewrite lenZ_cons in Hz. pose proof (lenZ_nonneg out). lia.
  - exists out. split; [split; [done | auto] |]. split; [done |]. intros Hu. specialize (HP Hu). destruct out; [| exact HP].
    destruct (appends_uncut [] f f' Hwf Happ Hu) as (_ & Hl & _). rewrite lenZ_nil in Hl. lia.
Qed.

Lemma nil_field max : 1 <= max -> header_field max [0x2D].
Proof using. intros H. split; [done |]. split; [apply Forall_singleton; lia | rewrite lenZ_cons, lenZ_nil; lia]. Qed.

(** A string field, once its callback made [calls]. *)
Definition string_field f (calls : list field_call) (maxSize : Z) : SolidSyslogFormatter :=
  let f' := hf_Formatter (fold_left run_field_call calls (SolidSyslogHeaderField_FromFormatter f (size_sub maxSize 1))) in
  if SolidSyslogFormatter_Length f' =? SolidSyslogFormatter_Length f then SolidSyslogFormatter_NilValue f' else f'.
Lemma FormatStringField_as f fn maxSize : gives_as (MessageFormatter_FormatStringField (W := W) f fn maxSize) (fun calls => string_field f calls maxSize) fn.
Proof using. intros w. unfold MessageFormatter_FormatStringField, st_bind, st_ret. by destruct (fn w). Qed.
Definition field_calls_ok (strict : bool) (calls : list field_call) : Prop := Forall field_call_ok calls /\ (strict = true -> prints_only calls).
(** The text the calls print in the field's width, and the NILVALUE for none. *)
Definition field_said (strict : bool) (max : Z) (calls : list field_call) (text : bytes) : Prop :=
  text = or_nilvalue (field_text max calls) /\ header_field (max + slack strict) text.
Lemma string_field_writes strict f calls maxSize :
  usable f -> fmt_terminated f -> field_calls_ok strict calls -> 2 <= maxSize <= SIZE_MAX ->
  writes (field_said strict (maxSize - 1) calls) f (string_field f calls maxSize).
Proof using.
  intros [Hwf Hsz] Ht [Hok Hst] Hm. unfold string_field.
  assert (Hs : 0 <= slack strict) by (unfold slack; destruct strict; lia).
  rewrite size_sub_small by lia.
  destruct (run_field_calls_spec f (maxSize - 1) calls Hwf Hsz ltac:(lia) Hok) as (v & Ha & Hp & Hl & Hpr & _ & Hterm & Htext).
  apply (or_nil _ f _ v Hwf Hterm Ht Ha); [by apply printable_clean |]. intros Hu. split; [by rewrite (Htext Hu) |].
  clear Htext Ha. destruct v as [| b v]; [apply nil_field; lia |].
  change (or_nilvalue (b :: v)) with (b :: v). split_and!; [done | done |]. unfold slack. destruct strict; [rewrite Z.add_0_r; auto | lia].
Qed.

(** MSGID: the first 32 bytes of the identifier. *)
Definition msgid_text (messageId : option bytes) : bytes :=
  match messageId with
  | Some id => if MessageFormatter_StringIsValid messageId then us_ascii_text id 32 else [0x2D]
  | None => [0x2D]
  end.
Lemma FormatMsgId_writes f messageId :
  fmt_wf f -> fmt_terminated f ->
  writes (fun o => o = msgid_text messageId /\ header_field 32 o) f (MessageFormatter_FormatMsgId f messageId).
Proof using.
  intros Hwf Ht.
  assert (Hnil : forall o, o = [0x2D] -> o = [0x2D] /\ header_field 32 o) by (intros o ->; split; [done | by apply nil_field]).
  assert (Hnone : writes (fun o => o = [0x2D] /\ header_field 32 o) f (if SolidSyslogFormatter_Length f =? SolidSyslogFormatter_Length f
              then SolidSyslogFormatter_NilValue f else f)).
  { apply (or_nil _ f f []); auto with utf8v. by apply appends_refl. }
  unfold MessageFormatter_FormatMsgId, msgid_text. destruct messageId as [id |]; [| exact Hnone].
  destruct (MessageFormatter_StringIsValid (Some id)) eqn:Ev; [| exact Hnone].
  pose proof (PrintUsAsciiString_prints f id 32 Hwf ltac:(lia)) as [HP HT].
  assert (Hne : us_ascii_text id 32 <> []).
  { unfold MessageFormatter_StringIsValid in Ev. destruct id as [|b id]; [done |]. rewrite nthZ_0_cons in Ev.
    unfold us_ascii_text. simpl. by destruct (b =? 0). }
  assert (Hf : header_field 32 (us_ascii_text id 32)).
  { split; [done |]. split; [apply us_ascii_text_range |]. pose proof (us_ascii_text_len id 32). lia. }
  change (SOLIDSYSLOG_MAX_MSGID_SIZE - 1) with 32. cbv zeta. unfold SolidSyslogFormatter_Length.
  set (f' := SolidSyslogFormatter_PrintUsAsciiString f id 32) in *.
  destruct (Z.eqb_spec (fm_Position f') (fm_Position f)) as [E | E].
  - pose proof (NilValue_prints f' (app_wf _ _ _ HP)) as [H1 H2].
    exists (us_ascii_text id 32 ++ [0x2D]). split; [split; [by eapply appends_trans | done] |].
    split; [apply clean_app; [apply us_ascii_text_clean | apply (ascii_char_clean 0x2D)] |]. intros Hu. exfalso.
    destruct (appends_uncut _ f' _ (app_wf _ _ _ HP) H1 Hu) as (Hu' & _ & _).
    destruct (appends_uncut _ f f' Hwf HP Hu') as (_ & Hl & _).
    destruct (us_ascii_text id 32) eqn:Eu; [done |]. rewrite lenZ_cons in Hl. pose proof (lenZ_nonneg l). lia.
  - exists (us_ascii_text id 32). split; [done |]. split; [apply us_ascii_text_clean | done].
Qed.

(** STRUCTURED-DATA: the NILVALUE or the elements one after the other. *)
Definition sd_text (elements : list bytes) : bytes := match elements with [] => [0x2D] | _ => concat elements end.
Lemma sd_text_elements es texts : Forall2 (element_written) es texts -> or_nilvalue (concat texts) = sd_text texts.
Proof using.
  intros H. destruct H as [| [[name ent] params] text es texts (ps & t & _ & _ & ->) _]; [done |]. done.
Qed.
(** The structured data, once its objects said [es]. *)
Definition structured_data f (es : list element_said) : SolidSyslogFormatter :=
  let f' := el_Formatter (write_elements (SolidSyslogSdElement_FromFormatter uninitialised_element f) es) in
  if SolidSyslogFormatter_Length f' =? SolidSyslogFormatter_Length f then SolidSyslogFormatter_NilValue f' else f'.
Definition both_said (baseSd messageSd : list (option (@SolidSyslogStructuredData W))) : ST W (list element_said) :=
  let! base := all_said baseSd in let! own := all_said messageSd in st_ret (base ++ own).
Lemma FormatStructuredData_as f baseSd messageSd : Forall (opt_all sd_ok) baseSd -> Forall (opt_all sd_ok) messageSd ->
  gives_as (MessageFormatter_FormatStructuredData f baseSd messageSd) (structured_data f) (both_said baseSd messageSd).
Proof using.
  intros Hb Hm w. unfold MessageFormatter_FormatStructuredData, both_said, st_bind, st_ret.
  rewrite (all_as baseSd _ Hb w). destruct (all_said baseSd w) as [base w1]. cbn [fst snd].
  rewrite (all_as messageSd _ Hm w1). destruct (all_said messageSd w1) as [own w2]. cbn [fst snd].
  unfold structured_data, write_elements. by rewrite fold_left_app.
Qed.
Lemma structured_data_writes f es : fmt_wf f -> fmt_terminated f -> Forall element_ok es ->
  writes (fun o => exists texts, Forall2 element_written (named_elements es) texts /\ o = sd_text texts) f (structured_data f es).
Proof using.
  intros Hwf Ht Hes. unfold structured_data. set (e0 := SolidSyslogSdElement_FromFormatter uninitialised_element f).
  assert (Hg : el_good e0) by (by apply FromFormatter_good).
  destruct (write_elements_wrote es e0 Hg Hes) as (_ & HT & texts & Htx & Ha). change (el_Formatter e0) with f in *.
  apply (or_nil _ f _ _ Hwf HT Ht Ha); [by eapply elements_clean |]. intros _. exists texts. split; [done |]. by eapply sd_text_elements.
Qed.

(** MSG: the body behind a byte order mark, if there is a body. *)
Definition msg_body (msg : option bytes) : option bytes :=
  match msg with
  | Some m => if m.[0] =? 0 then None
              else let body := MessageFormatter_SkipLeadingBom m in if body.[0] =? 0 then None else Some body
  | None => None
  end.
Definition msg_text (part : option bytes) : bytes :=
  match part with Some t => [0x20] ++ UTF8_BOM ++ t | None => [] end.
Definition msg_part (msg part : option bytes) : Prop :=
  match msg_body msg, part with
  | Some body, Some text => Bounded SOLIDSYSLOG_MAX_MESSAGE_SIZE body text
  | None, None => True
  | _, _ => False
  end.
Lemma FormatMsg_writes f msg :
  fmt_wf f -> fmt_terminated f -> opt_all all_bytes msg ->
  writes (fun o => exists part, o = msg_text part /\ msg_part msg part) f (MessageFormatter_FormatMsg f msg).
Proof using.
  intros Hwf Ht Hm. unfold MessageFormatter_FormatMsg, msg_part, msg_body, MessageFormatter_StringIsValid.
  assert (Hnone : writes (fun o => exists part, o = msg_text part /\ match part with Some _ => False | None => True end) f f).
  { apply (writes_prints _ []); [by apply prints_refl | apply clean_nil | by exists None]. }
  destruct msg as [m |]; [| done]. destruct (m.[0] =? 0); [done |]. simpl. cbv zeta.
  set (body := MessageFormatter_SkipLeadingBom m). destruct (body.[0] =? 0); [done |]. simpl.
  assert (Hbody : all_bytes body).
  { unfold body, MessageFormatter_SkipLeadingBom. destruct (_ && _); [by apply all_bytes_dropZ | done]. }
  pose proof (AsciiCharacter_prints f 0x20 Hwf) as P1.
  pose proof (Bom_prints _ (prints_wf _ _ _ P1)) as P2.
  destruct (BoundedString_refines _ body SOLIDSYSLOG_MAX_MESSAGE_SIZE (prints_wf _ _ _ P2) Hbody) as (t & HB & P3).
  apply (writes_prints _ ([0x20] ++ UTF8_BOM ++ t)).
  - eapply prints_trans; [exact P1 |]. by eapply prints_trans.
  - apply clean_app; [apply (ascii_char_clean 0x20) |]. apply clean_app; [apply Bom_clean | by eapply Bounded_clean].
  - by exists (Some t).
Qed.

(** ** The whole message *)

Record message_parts := mkParts {
  mp_prival : Z;
  mp_timestamp : bytes;
  mp_hostname : bytes;
  mp_appname : bytes;
  mp_procid : bytes;
  mp_msgid : bytes;
  mp_sd : list bytes;
  mp_msg : option bytes
}.

(** SYSLOG-MSG of RFC 5424 section 6. *)
Definition message_text (p : message_parts) : bytes :=
  [0x3C] ++ decimal (mp_prival p) ++ [0x3E; 0x31; 0x20] ++ mp_timestamp p ++ [0x20] ++ mp_hostname p ++ [0x20] ++
  mp_appname p ++ [0x20] ++ mp_procid p ++ [0x20] ++ mp_msgid p ++ [0x20] ++ sd_text (mp_sd p) ++ msg_text (mp_msg p).

(** What the callbacks of one log call say, asked in this order: the clock, the three
    fields, the logger's structured data, then the call's. *)
Record spoken := mkSpoken {
  sp_Time : SolidSyslogTimestamp;
  sp_Hostname : list field_call;
  sp_AppName : list field_call;
  sp_ProcessId : list field_call;
  sp_Elements : list element_said
}.
Definition spoken_by (context : @SolidSyslogMessageFormatterContext W) (messageSd : list (option (@SolidSyslogStructuredData W))) : ST W spoken :=
  let! ts := mfc_Clock context in
  let! hostname := mfc_GetHostname context in
  let! appName := mfc_GetAppName context in
  let! processId := mfc_GetProcessId context in
  let! elements := both_said (mfc_Sd context) messageSd in
  st_ret (mkSpoken ts hostname appName processId elements).

(** Each part of the message is what was said or asked for it. *)
Definition parts_of (strict : bool) (message : SolidSyslogMessage) (sp : spoken) (p : message_parts) : Prop :=
  mp_prival p = MessageFormatter_MakePrival message /\ mp_timestamp p = timestamp_text (sp_Time sp) /\
  field_said strict 255 (sp_Hostname sp) (mp_hostname p) /\ field_said strict 48 (sp_AppName sp) (mp_appname p) /\
  field_said strict 128 (sp_ProcessId sp) (mp_procid p) /\
  mp_msgid p = msgid_text (msg_MessageId message) /\ header_field 32 (mp_msgid p) /\
  Forall2 element_written (named_elements (sp_Elements sp)) (mp_sd p) /\ msg_part (msg_Msg message) (mp_msg p).

Record context_ok (strict : bool) (context : @SolidSyslogMessageFormatterContext W) : Prop := {
  ctx_hostname : field_callback_ok strict (mfc_GetHostname context);
  ctx_appname : field_callback_ok strict (mfc_GetAppName context);
  ctx_procid : field_callback_ok strict (mfc_GetProcessId context);
  ctx_sd : Forall (opt_all sd_ok) (mfc_Sd context)
}.

Lemma MakePrival_range message : 0 <= MessageFormatter_MakePrival message < 256.
Proof using. unfold MessageFormatter_MakePrival. destruct_bool_step; apply u8_range. Qed.

Lemma FormatPrival_writes f message :
  fmt_wf f -> writes (eq ([0x3C] ++ decimal (MessageFormatter_MakePrival message) ++ [0x3E])) f
    (MessageFormatter_FormatPrival f (MessageFormatter_MakePrival message)).
Proof using.
  intros Hwf. pose proof (MakePrival_range message). unfold MessageFormatter_FormatPrival. cbv zeta.
  pose proof (AsciiCharacter_prints f 0x3C Hwf) as P1.
  pose proof (Uint32_prints _ (MessageFormatter_MakePrival message) (prints_wf _ _ _ P1) ltac:(lia)) as P2.
  pose proof (AsciiCharacter_prints _ 0x3E (prints_wf _ _ _ P2)) as P3.
  eapply writes_prints; [| | reflexivity].
  - eapply prints_trans; [exact P1 |]. by eapply prints_trans.
  - apply clean_app; [apply (ascii_char_clean 0x3C) |]. apply clean_app; [apply digits_of_clean | apply (ascii_char_clean 0x3E)].
Qed.

Lemma writes_then_space P f g : writes P f g -> writes (both P (eq [0x20])) f (SolidSyslogFormatter_AsciiCharacter g 0x20).
Proof using. intros H. apply writes_then_char; [done | lia]. Qed.
(** The message, once [sp] was said. *)
Definition message_said f (message : SolidSyslogMessage) (sp : spoken) : SolidSyslogFormatter :=
  let f := MessageFormatter_FormatPrival f (MessageFormatter_MakePrival message) in
  let f := SolidSyslogFormatter_AsciiCharacter f 0x31 in
  let f := SolidSyslogFormatter_AsciiCharacter f 0x20 in
  let f := SolidSyslogFormatter_AsciiCharacter (SolidSyslogTimestampFormatter_Format f (sp_Time sp)) 0x20 in
  let f := SolidSyslogFormatter_AsciiCharacter (string_field f (sp_Hostname sp) SOLIDSYSLOG_MAX_HOSTNAME_SIZE) 0x20 in
  let f := SolidSyslogFormatter_AsciiCharacter (string_field f (sp_AppName sp) SOLIDSYSLOG_MAX_APP_NAME_SIZE) 0x20 in
  let f := SolidSyslogFormatter_AsciiCharacter (string_field f (sp_ProcessId sp) SOLIDSYSLOG_MAX_PROCESS_ID_SIZE) 0x20 in
  let f := SolidSyslogFormatter_AsciiCharacter (MessageFormatter_FormatMsgId f (msg_MessageId message)) 0x20 in
  MessageFormatter_FormatMsg (structured_data f (sp_Elements sp)) (msg_Msg message).
Lemma Format_as f message context messageSd : Forall (opt_all sd_ok) (mfc_Sd context) -> Forall (opt_all sd_ok) messageSd ->
  gives_as (SolidSyslogMessageFormatter_Format f message context messageSd) (message_said f message) (spoken_by context messageSd).
Proof using.
  intros Hb Hm w. unfold SolidSyslogMessageFormatter_Format, spoken_by, MessageFormatter_FormatTimestamp, st_bind, st_ret.
  destruct (mfc_Clock context w) as [ts w1].
  rewrite (FormatStringField_as _ _ _ w1). destruct (mfc_GetHostname context w1) as [host w2]. cbn [fst snd].
  rewrite (FormatStringField_as _ _ _ w2). destruct (mfc_GetAppName context w2) as [app w3]. cbn [fst snd].
  rewrite (FormatStringField_as _ _ _ w3). destruct (mfc_GetProcessId context w3) as [proc w4]. cbn [fst snd].
  rewrite (FormatStructuredData_as _ _ _ Hb Hm w4). by destruct (both_said (mfc_Sd context) messageSd w4) as [es w5].
Qed.

Record spoken_ok (strict : bool) (sp : spoken) : Prop := {
  so_hostname : field_calls_ok strict (sp_Hostname sp);
  so_appname : field_calls_ok strict (sp_AppName sp);
  so_procid : field_calls_ok strict (sp_ProcessId sp);
  so_elements : Forall element_ok (sp_Elements sp)
}.
Lemma spoken_by_ok strict context messageSd : context_ok strict context -> Forall (opt_all sd_ok) messageSd ->
  gives (spoken_ok strict) (spoken_by context messageSd).
Proof using.
  intros [Hh Ha Hp Hsd] Hm. unfold spoken_by. apply (gives_bind (fun _ => True)); [done |]. intros ts _.
  apply (gives_bind _ _ _ _ Hh). intros host Hhost. apply (gives_bind _ _ _ _ Ha). intros app Happ. apply (gives_bind _ _ _ _ Hp). intros proc Hproc.
  apply (gives_bind (Forall element_ok)); [| intros es Hes; by apply gives_ret].
  unfold both_said. apply (gives_bind _ _ _ _ (all_said_ok _ Hsd)). intros base Hbase.
  apply (gives_bind _ _ _ _ (all_said_ok _ Hm)). intros own Hown. by apply gives_ret, Forall_app.
Qed.

(** One string field of the header and the space after it. *)
Lemma field_then_space P strict f g calls maxSize : usable f -> writes P f g -> field_calls_ok strict calls -> 2 <= maxSize <= SIZE_MAX ->
  writes (both (both P (field_said strict (maxSize - 1) calls)) (eq [0x20])) f (SolidSyslogFormatter_AsciiCharacter (string_field g calls maxSize) 0x20).
Proof using.
  intros Hu H Hok Hm. apply writes_then_space. eapply writes_seq; [exact H |]. intros _.
  apply string_field_writes; [by eapply writes_usable | by eapply writes_terminated | done | done].
Qed.
Lemma message_said_writes strict f message sp : usable f -> opt_all all_bytes (msg_Msg message) -> spoken_ok strict sp ->
  writes (fun o => exists p, o = message_text p /\ parts_of strict message sp p) f (message_said f message sp).
Proof using.
  intros Hu Hm [Hh Ha Hp Hes]. unfold message_said. cbv zeta.
  pose proof (writes_then_char _ 0x31 _ _ (FormatPrival_writes f message (proj1 Hu)) ltac:(lia)) as H1.
  pose proof (writes_then_space _ _ _ H1) as H2. set (g2 := SolidSyslogFormatter_AsciiCharacter (SolidSyslogFormatter_AsciiCharacter _ _) _) in *. clearbody g2.
  assert (H3 : writes (eq (timestamp_text (sp_Time sp))) g2 (SolidSyslogTimestampFormatter_Format g2 (sp_Time sp))).
  { eapply writes_prints; [by eapply TimestampFormatter_prints, writes_wf | | done]. apply printable_clean, timestamp_text_printable. }
  pose proof (writes_then_space _ _ _ (writes_seq _ _ _ _ _ H2 (fun _ => H3))) as H5.
  pose proof (field_then_space _ strict _ _ _ SOLIDSYSLOG_MAX_HOSTNAME_SIZE Hu H5 Hh ltac:(split; discriminate)) as H6.
  pose proof (field_then_space _ strict _ _ _ SOLIDSYSLOG_MAX_APP_NAME_SIZE Hu H6 Ha ltac:(split; discriminate)) as H8.
  pose proof (field_then_space _ strict _ _ _ SOLIDSYSLOG_MAX_PROCESS_ID_SIZE Hu H8 Hp ltac:(split; discriminate)) as H10.
  set (g10 := SolidSyslogFormatter_AsciiCharacter (string_field _ (sp_ProcessId sp) _) _) in *. clearbody g10. clear H1 H2 H3 H5 H6 H8.
  pose proof (writes_seq _ _ _ _ _ H10 (fun Hw => FormatMsgId_writes _ (msg_MessageId message) Hw (writes_terminated _ _ _ H10))) as H11.
  pose proof (writes_then_space _ _ _ H11) as H12.
  pose proof (writes_seq _ _ _ _ _ H12 (fun Hw => structured_data_writes _ _ Hw (writes_terminated _ _ _ H12) Hes)) as H13.
  pose proof (writes_seq _ _ _ _ _ H13 (fun Hw => FormatMsg_writes _ _ Hw (writes_terminated _ _ _ H13) Hm)) as H14.
  eapply writes_impl; [exact H14 |]. intros o Ho.
  repeat match goal with H : both _ _ _ |- _ => let o := fresh "o" in let o' := fresh "o" in
    let H1 := fresh "H" in let H2 := fresh "H" in destruct H as (o & o' & -> & H1 & H2) end.
  repeat match goal with H : exists _, _ |- _ => destruct H as (? & ? & ?) | H : _ = _ /\ header_field 32 _ |- _ => destruct H as [? ?] end.
  subst.
  match goal with
  | Ho : field_said _ _ (sp_Hostname sp) ?h, Ha' : field_said _ _ (sp_AppName sp) ?a,
    Hp' : field_said _ _ (sp_ProcessId sp) ?p, Hs : Forall2 element_written _ ?es, Hb : msg_part _ ?b |- _ =>
      exists (mkParts (MessageFormatter_MakePrival message) (timestamp_text (sp_Time sp)) h a p (msgid_text (msg_MessageId message)) es b)
  end.
  split; [unfold message_text; simpl; rewrite <- !app_assoc; done | split_and!; done].
Qed.
Lemma Format_writes strict f message context messageSd w :
  usable f -> opt_all all_bytes (msg_Msg message) -> context_ok strict context -> Forall (opt_all sd_ok) messageSd ->
  writes (fun o => exists p, o = message_text p /\ parts_of strict message (fst (spoken_by context messageSd w)) p) f
    (fst (SolidSyslogMessageFormatter_Format f message context messageSd w)).
Proof using.
  intros Hu Hm Hctx Hmsd. rewrite (Format_as f message context messageSd (ctx_sd _ _ Hctx) Hmsd w). cbn [fst].
  apply message_said_writes; [done | done |]. by apply spoken_by_ok.
Qed.
End message_theory.

(** ** Reading a message back *)

(** The characters up to the next space, which is consumed. *)
Fixpoint read_word (l : bytes) : bytes * bytes :=
  match l with
  | [] => ([], [])
  | b :: l => if b =? 0x20 then ([], l) else let '(w, rest) := read_word l in (b :: w, rest)
  end.
(** The number in angle brackets, then VERSION 1. *)
Fixpoint read_until (c : Z) (l : bytes) : bytes * bytes :=
  match l with
  | [] => ([], [])
  | b :: l => if b =? c then ([], l) else let '(w, rest) := read_until c l in (b :: w, rest)
  end.
Definition read_prival (l : bytes) : option (Z * bytes) :=
  l ← read_char 0x3C l; let '(digits, l) := read_until 0x3E l in
  l ← read_char 0x31 l; l ← read_char 0x20 l; Some (read_decimal digits, l).
(** PRIVAL, the five header fields, and the rest of the message. *)
Definition read_header (l : bytes) : option (Z * list bytes * bytes) :=
  '(prival, l) ← read_prival l;
  let '(ts, l) := read_word l in let '(host, l) := read_word l in let '(app_, l) := read_word l in
  let '(proc, l) := read_word l in let '(msgid, l) := read_word l in
  Some (prival, [ts; host; app_; proc; msgid], l).

Lemma read_until_spec c w rest : Forall (fun b => b <> c) w -> read_until c (w ++ c :: rest) = (w, rest).
Proof.
  induction 1 as [|b w Hb _ IH]; simpl; [by rewrite Z.eqb_refl |].
  destruct (Z.eqb_spec b c); [done | by rewrite IH].
Qed.
Lemma read_word_spec w rest : printable w -> read_word (w ++ 0x20 :: rest) = (w, rest).
Proof.
  induction 1 as [|b w Hb _ IH]; simpl; [done |].
  destruct (Z.eqb_spec b 0x20); [simpl in Hb; lia | by rewrite IH].
Qed.
Lemma read_message_text strict message sp p :
  parts_of strict message sp p ->
  read_header (message_text p) =
  Some (mp_prival p, [mp_timestamp p; mp_hostname p; mp_appname p; mp_procid p; mp_msgid p], sd_text (mp_sd p) ++ msg_text (mp_msg p)).
Proof.
  intros (Ep & Et & (_ & _ & Hh & _) & (_ & _ & Ha & _) & (_ & _ & Hp & _) & _ & (_ & Hm & _) & _ & _).
  unfold read_header, read_prival, message_text. simpl. pose proof (MakePrival_range message).
  rewrite read_until_spec by (eapply Forall_impl; [| apply digits_of_range]; simpl; lia). simpl.
  rewrite read_decimal_decimal by (rewrite Ep; lia).
  rewrite read_word_spec by (rewrite Et; apply timestamp_text_printable).
  by rewrite !read_word_spec by done.
Qed.


(** The PRIVAL says what the caller asked for: a facility and a severity of
    RFC 5424 come back as its quotient and remainder by eight, within 0 to 191,
    and anything else is reported as syslog.error, the value 43. *)
Theorem prival_encodes (message : SolidSyslogMessage) :
  0 <= msg_Facility message < 256 -> 0 <= msg_Severity message < 256 ->
  let prival := MessageFormatter_MakePrival message in
  (msg_Facility message <= 23 /\ msg_Severity message <= 7 ->
   prival <= 191 /\ prival / 8 = msg_Facility message /\ prival mod 8 = msg_Severity message) /\
  (23 < msg_Facility message \/ 7 < msg_Severity message -> prival = 43).
Proof.
  intros Hf Hs. cbv zeta. unfold MessageFormatter_MakePrival, MessageFormatter_PrivalComponentsAreValid,
    MessageFormatter_FacilityIsValid, MessageFormatter_SeverityIsValid, MessageFormatter_CombineFacilityAndSeverity,
    SOLIDSYSLOG_FACILITY_LOCAL7, SOLIDSYSLOG_SEVERITY_DEBUG, SOLIDSYSLOG_FACILITY_SYSLOG, SOLIDSYSLOG_SEVERITY_ERROR.
  rewrite (u8_small (msg_Facility message)), (u8_small (msg_Severity message)) by lia.
  split; intros H.
  - replace (_ && _) with true by (symmetry; apply andb_true_iff; lia). rewrite u8_small by lia. utf8_arith.
  - replace (_ && _) with false by (symmetry; apply andb_false_iff; lia). done.
Qed.
Lemma prival_encodes_witness :
  let prival := MessageFormatter_MakePrival (mkMessage 16 6 None None) in
  (16 <= 23 /\ 6 <= 7 -> prival <= 191 /\ prival / 8 = 16 /\ prival mod 8 = 6) /\
  (23 < 16 \/ 7 < 6 -> prival = 43).
Proof. apply (prival_encodes (mkMessage 16 6 None None)); split; (discriminate || reflexivity). Defined.

(** A node with a host name, one integrator's element and a body. *)
Definition example_context : @SolidSyslogMessageFormatterContext Z :=
  mkMessageFormatterContext (fun w => (mkTimestamp 2026 2 28 23 59 9 1234 0, w + 1))
    (st_ret [FPrintUsAscii (str "node 7") 255]) (st_ret []) (st_ret [FUint32 42])
    [Some (MetaSd (mkMetaSd (fun w => (u32 w, w + 1)) None None)); None; Some NullSd].
Definition example_message : SolidSyslogMessage := mkMessage 16 6 (Some (str "START")) (Some (str "up")).

Example example_text :
  takeZ 85 (fm_Buffer (fst (SolidSyslogMessageFormatter_Format (SolidSyslogFormatter_Create (repeat 0 200) 200)
    example_message example_context [] 7))) =
  str "<134>1 2026-02-28T23:59:09.001234Z node?7 - 42 START [meta sequenceId=" ++ [0x22] ++ str "8" ++ [0x22] ++ str "] " ++
  UTF8_BOM ++ str "up" ++ [0; 0; 0; 0; 0].
Proof. vm_compute. reflexivity. Qed.

