(* ===== verification/CircularBuffer.v ===== *)
(** The circular buffer ([SolidSyslogCircularBuffer.c]): a byte ring of framed
    records under a mutex, which a writing task fills and the servicing task
    empties.  [fifo] is the queue it promises to be, and [ring_refines_fifo] the
    proof that it is one, for every capacity, discard policy and order of calls. *)
From S2P Require Import Prelude Errors Interfaces.

(** * The ring *)

Definition SOLIDSYSLOG_CIRCULAR_BUFFER_HEADER_BYTES : Z := 2.
Definition HEADER_BYTES : Z := SOLIDSYSLOG_CIRCULAR_BUFFER_HEADER_BYTES.

Inductive SolidSyslogCircularBufferRunStarted := RUN_STARTED_NONE | RUN_STARTED_REFUSALS | RUN_STARTED_EVICTIONS.
Inductive buffer_vtable := CircularBufferVtable | NullBufferVtable.

Section circular_buffer.
(** The environment of the integrator's policy function. *)
Context {W : Type}.

Record SolidSyslogCircularBuffer := mkCircularBuffer {
  cb_Base : buffer_vtable;
  cb_Ring : bytes;
  cb_Capacity : Z;
  cb_Head : Z;
  cb_Tail : Z;
  cb_WrapPoint : Z;
  cb_GetDiscardPolicy : SolidSyslogDiscardPolicyFunction W;
  cb_DiscardPolicyContext : option Z;
  cb_LossReported : bool;
  cb_EvictionReported : bool;
  cb_TooLargeReported : bool;
  cb_Full : bool
}.
#[export] Instance settable_CircularBuffer : Settable SolidSyslogCircularBuffer :=
  fun b => mkCircularBuffer (cb_Base b) (cb_Ring b) (cb_Capacity b) (cb_Head b) (cb_Tail b) (cb_WrapPoint b)
    (cb_GetDiscardPolicy b) (cb_DiscardPolicyContext b) (cb_LossReported b) (cb_EvictionReported b)
    (cb_TooLargeReported b) (cb_Full b).
Implicit Types (self : SolidSyslogCircularBuffer).

Definition CircularBuffer_IsEmpty self : bool := cb_Head self =? cb_Tail self.
Definition CircularBuffer_IsWrapped self : bool := cb_Tail self <? cb_Head self.
Definition CircularBuffer_HeadAtWrapPoint self : bool := cb_WrapPoint self <=? cb_Head self.
Definition CircularBuffer_ConsumeWrapMarker self : SolidSyslogCircularBuffer :=
  self <| cb_Head := 0 |> <| cb_WrapPoint := cb_Capacity self |>.
Definition CircularBuffer_ResetToStart self : SolidSyslogCircularBuffer :=
  self <| cb_Head := 0 |> <| cb_Tail := 0 |> <| cb_WrapPoint := cb_Capacity self |>.
Definition CircularBuffer_WrapTail self : SolidSyslogCircularBuffer :=
  self <| cb_WrapPoint := cb_Tail self |> <| cb_Tail := 0 |>.

Definition CircularBuffer_PeekRecordSize self : Z :=
  Z.lor ((cb_Ring self).[cb_Head self]) (Z.shiftl ((cb_Ring self).[size_add (cb_Head self) 1]) 8 mod 2 ^ 32).

(** The reader's memory with the record copied in, and [*bytesRead]. *)
Definition CircularBuffer_LoadRecord self (data : bytes) : SolidSyslogCircularBuffer * bytes * Z :=
  let recordSize := CircularBuffer_PeekRecordSize self in
  let data := spliceZ data 0 (spanZ (cb_Ring self) (size_add (cb_Head self) HEADER_BYTES) recordSize) in
  (self <| cb_Head := size_add (cb_Head self) (size_add HEADER_BYTES recordSize) |>, data, recordSize).

Definition CircularBuffer_RecordFitsAtTail self (recordBytes : Z) : bool :=
  if CircularBuffer_IsWrapped self
  then size_add (cb_Tail self) recordBytes <? cb_Head self
  else size_add (cb_Tail self) recordBytes <=? cb_Capacity self.
Definition CircularBuffer_RecordFitsAfterWrap self (recordBytes : Z) : bool :=
  negb (CircularBuffer_IsWrapped self) && (recordBytes <? cb_Head self).
Definition CircularBuffer_RecordFits self (recordBytes : Z) : bool :=
  CircularBuffer_RecordFitsAtTail self recordBytes || CircularBuffer_RecordFitsAfterWrap self recordBytes.
Definition CircularBuffer_CouldHoldWhenEmpty self (recordBytes : Z) : bool := recordBytes <=? cb_Capacity self.
Definition CircularBuffer_PolicyEvictsFor self (recordBytes policy : Z) : bool :=
  CircularBuffer_CouldHoldWhenEmpty self recordBytes && (policy =? SOLIDSYSLOG_DISCARD_POLICY_OLDEST).

Definition CircularBuffer_DropHead self : SolidSyslogCircularBuffer :=
  let self := if CircularBuffer_HeadAtWrapPoint self then CircularBuffer_ConsumeWrapMarker self else self in
  let self := self <| cb_Head := size_add (cb_Head self) (size_add HEADER_BYTES (CircularBuffer_PeekRecordSize self)) |> in
  if CircularBuffer_IsEmpty self then CircularBuffer_ResetToStart self else self.

(** Each round drops a record of at least two bytes of the ring's capacity. *)
Definition CircularBuffer_EvictUntilRecordFits self (recordBytes : Z) : SolidSyslogCircularBuffer :=
  while (S (Z.to_nat (cb_Capacity self))) (fun self => negb (CircularBuffer_RecordFits self recordBytes)) CircularBuffer_DropHead self.

Definition CircularBuffer_StoreRecord self (data : bytes) (size : Z) : SolidSyslogCircularBuffer :=
  let ring := updZ (cb_Ring self) (cb_Tail self) (u8 (Z.land size 0xFF)) in
  let ring := updZ ring (size_add (cb_Tail self) 1) (u8 (Z.land (Z.shiftr size 8) 0xFF)) in
  let ring := spliceZ ring (size_add (cb_Tail self) HEADER_BYTES) (takeZ size data) in
  self <| cb_Ring := ring |> <| cb_Tail := size_add (cb_Tail self) (size_add HEADER_BYTES size) |>.

Definition CircularBuffer_KeepRecord self (data : bytes) (size : Z) (evicted : bool)
    : SolidSyslogCircularBufferRunStarted * SolidSyslogCircularBuffer :=
  let self := if negb (CircularBuffer_RecordFitsAtTail self (size_add HEADER_BYTES size)) then CircularBuffer_WrapTail self else self in
  let self := CircularBuffer_StoreRecord self data size in
  let self := self <| cb_LossReported := false |> in
  let started := if evicted && negb (cb_EvictionReported self) then RUN_STARTED_EVICTIONS else RUN_STARTED_NONE in
  (started, self <| cb_EvictionReported := evicted |> <| cb_Full := evicted |>).

Definition CircularBuffer_RefuseRecord self (recordBytes : Z) : SolidSyslogCircularBufferRunStarted * SolidSyslogCircularBuffer :=
  let started := if cb_LossReported self then RUN_STARTED_NONE else RUN_STARTED_REFUSALS in
  (started, self <| cb_LossReported := true |> <| cb_EvictionReported := false |>
                 <| cb_Full := CircularBuffer_CouldHoldWhenEmpty self recordBytes |>).

(** * Calls on the buffer

    Seen from outside: where the lock is held, and the integrator code reached. *)
Inductive cb_event := PolicyAsked | Locked | Unlocked | Raised (event : SolidSyslogErrorEvent).

Record cb_world := mkCbWorld { cw_Buffer : SolidSyslogCircularBuffer; cw_Env : W; cw_Trace : list cb_event }.
#[export] Instance settable_CbWorld : Settable cb_world := fun w => mkCbWorld (cw_Buffer w) (cw_Env w) (cw_Trace w).

Definition happens (e : cb_event) : ST cb_world unit := st_mod (fun w => w <| cw_Trace := cw_Trace w ++ [e] |>).
Definition SolidSyslogMutex_Lock : ST cb_world unit := happens Locked.
Definition SolidSyslogMutex_Unlock : ST cb_world unit := happens Unlocked.
Definition CircularBuffer_Report (severity category code : Z) : ST cb_world unit :=
  happens (Raised (error_event severity SolidSyslogCircularBufferErrorSource category code)).
Definition set_buffer self : ST cb_world unit := st_mod (fun w => w <| cw_Buffer := self |>).
Definition ask_policy : ST cb_world Z :=
  happens PolicyAsked ;;;
  fun w => let '(policy, env) := cb_GetDiscardPolicy (cw_Buffer w) (cb_DiscardPolicyContext (cw_Buffer w)) (cw_Env w) in
           (policy, w <| cw_Env := env |>).

Definition CircularBuffer_ReportRecordTooLarge : ST cb_world unit :=
  CircularBuffer_Report SOLIDSYSLOG_SEVERITY_ERROR SOLIDSYSLOG_CAT_BUFFER_BACKEND_FAILED SOLIDSYSLOG_CIRCULAR_BUFFER_ERROR_RECORD_TOO_LARGE.
Definition CircularBuffer_ReportRecordExceedsMaxMessageSize : ST cb_world unit :=
  CircularBuffer_Report SOLIDSYSLOG_BAD_ARGUMENT_SEVERITY SOLIDSYSLOG_CAT_BAD_ARGUMENT SOLIDSYSLOG_CIRCULAR_BUFFER_ERROR_RECORD_EXCEEDS_MAX_MESSAGE_SIZE.
Definition CircularBuffer_ReportRunStarted (started : SolidSyslogCircularBufferRunStarted) : ST cb_world unit :=
  match started with
  | RUN_STARTED_REFUSALS =>
      CircularBuffer_Report SOLIDSYSLOG_SEVERITY_WARNING SOLIDSYSLOG_CAT_BUFFER_RECORDS_LOST SOLIDSYSLOG_CIRCULAR_BUFFER_ERROR_RECORD_REFUSED
  | RUN_STARTED_EVICTIONS =>
      CircularBuffer_Report SOLIDSYSLOG_SEVERITY_WARNING SOLIDSYSLOG_CAT_BUFFER_RECORDS_LOST SOLIDSYSLOG_CIRCULAR_BUFFER_ERROR_RECORDS_EVICTED
  | RUN_STARTED_NONE => st_ret tt
  end.

(** What [Read] does under the lock; the results are [delivered],
    [tooLargeRunStarted], the reader's memory and [*bytesRead]. *)
Definition Read_locked self (data : bytes) (maxSize : Z) : (bool * bool * bytes * Z) * SolidSyslogCircularBuffer :=
  if negb (CircularBuffer_IsEmpty self) then
    let self := if CircularBuffer_HeadAtWrapPoint self then CircularBuffer_ConsumeWrapMarker self else self in
    if CircularBuffer_PeekRecordSize self <=? maxSize then
      let '(self, data, bytesRead) := CircularBuffer_LoadRecord self data in
      ((true, false, data, bytesRead), self <| cb_Full := false |> <| cb_TooLargeReported := false |>)
    else ((false, negb (cb_TooLargeReported self), data, 0), self <| cb_TooLargeReported := true |>)
  else ((false, false, data, 0), self).

Definition CircularBuffer_Read (data : bytes) (maxSize : Z) : ST cb_world (bool * bytes * Z) :=
  SolidSyslogMutex_Lock ;;;
  let! self := st_get cw_Buffer in
  let '((delivered, tooLargeRunStarted, data, bytesRead), self) := Read_locked self data maxSize in
  set_buffer self ;;;
  SolidSyslogMutex_Unlock ;;;
  if! tooLargeRunStarted then CircularBuffer_ReportRecordTooLarge end! ;;;
  st_ret (delivered, data, bytesRead).

(** What [StoreApplyingPolicy] does under the lock. *)
Definition StoreApplyingPolicy_locked self (policy : Z) (data : bytes) (size : Z)
    : SolidSyslogCircularBufferRunStarted * SolidSyslogCircularBuffer :=
  let self := if CircularBuffer_IsEmpty self then CircularBuffer_ResetToStart self else self in
  let recordBytes := size_add HEADER_BYTES size in
  let '(self, evicted) :=
    if negb (CircularBuffer_RecordFits self recordBytes) && CircularBuffer_PolicyEvictsFor self recordBytes policy
    then (CircularBuffer_EvictUntilRecordFits self recordBytes, true) else (self, false) in
  if CircularBuffer_RecordFits self recordBytes
  then CircularBuffer_KeepRecord self data size evicted
  else CircularBuffer_RefuseRecord self recordBytes.

Definition CircularBuffer_StoreApplyingPolicy (policy : Z) (data : bytes) (size : Z) : ST cb_world SolidSyslogCircularBufferRunStarted :=
  SolidSyslogMutex_Lock ;;;
  let! self := st_get cw_Buffer in
  let '(started, self) := StoreApplyingPolicy_locked self policy data size in
  set_buffer self ;;;
  SolidSyslogMutex_Unlock ;;;
  st_ret started.

Definition CircularBuffer_Write (data : bytes) (size : Z) : ST cb_world unit :=
  if size <=? SOLIDSYSLOG_MAX_MESSAGE_SIZE then
    let! policy := ask_policy in
    let! started := CircularBuffer_StoreApplyingPolicy policy data size in
    CircularBuffer_ReportRunStarted started
  else CircularBuffer_ReportRecordExceedsMaxMessageSize.

Definition CircularBuffer_IsFull : ST cb_world bool :=
  SolidSyslogMutex_Lock ;;;
  let! full := st_get (fun w => cb_Full (cw_Buffer w)) in
  SolidSyslogMutex_Unlock ;;;
  st_ret full.

Definition CircularBuffer_InstallDiscardPolicy self (configured : option (SolidSyslogDiscardPolicyFunction W)) (context : option Z)
    : SolidSyslogCircularBuffer :=
  let '(f, c) := installed_policy configured context in
  self <| cb_GetDiscardPolicy := f |> <| cb_DiscardPolicyContext := c |>.

Definition SolidSyslogCircularBuffer_Initialise self (ring : bytes) (ringBytes : Z)
    (getDiscardPolicy : option (SolidSyslogDiscardPolicyFunction W)) (discardPolicyContext : option Z) : SolidSyslogCircularBuffer :=
  let self := self <| cb_Base := CircularBufferVtable |> <| cb_Ring := ring |> <| cb_Capacity := ringBytes |> in
  let self := CircularBuffer_InstallDiscardPolicy self getDiscardPolicy discardPolicyContext in
  let self := self <| cb_LossReported := false |> <| cb_EvictionReported := false |> <| cb_TooLargeReported := false |> <| cb_Full := false |> in
  CircularBuffer_ResetToStart self.
Definition SolidSyslogCircularBuffer_Cleanup self : SolidSyslogCircularBuffer := self <| cb_Base := NullBufferVtable |>.

(** Dispatch through the vtable. *)
Definition SolidSyslogBuffer_Read (data : bytes) (maxSize : Z) : ST cb_world (bool * bytes * Z) :=
  let! base := st_get (fun w => cb_Base (cw_Buffer w)) in
  match base with CircularBufferVtable => CircularBuffer_Read data maxSize | NullBufferVtable => st_ret (NullBuffer_Read data maxSize) end.
Definition SolidSyslogBuffer_Write (data : bytes) (size : Z) : ST cb_world unit :=
  let! base := st_get (fun w => cb_Base (cw_Buffer w)) in
  match base with CircularBufferVtable => CircularBuffer_Write data size | NullBufferVtable => st_ret tt end.
Definition SolidSyslogBuffer_IsFull : ST cb_world bool :=
  let! base := st_get (fun w => cb_Base (cw_Buffer w)) in
  match base with CircularBufferVtable => CircularBuffer_IsFull | NullBufferVtable => st_ret NullBuffer_IsFull end.
(** The buffer as the logger sees it. *)
#[export] Instance CircularBuffer_vtable : SolidSyslogBuffer cb_world := {
  Interfaces.SolidSyslogBuffer_Write := SolidSyslogBuffer_Write;
  Interfaces.SolidSyslogBuffer_Read := SolidSyslogBuffer_Read;
  Interfaces.SolidSyslogBuffer_IsFull := SolidSyslogBuffer_IsFull
}.
End circular_buffer.

(** * The records in the ring *)

Definition frame (r : bytes) : bytes := [lenZ r mod 256; lenZ r / 256] ++ r.
Definition frames (q : list bytes) : bytes := concat (map frame q).
Definition record_ok (r : bytes) : Prop := lenZ r <= SOLIDSYSLOG_MAX_MESSAGE_SIZE.

Lemma frame_len r : lenZ (frame r) = 2 + lenZ r.
Proof. unfold frame. rewrite lenZ_app. done. Qed.
Lemma frames_app q q' : frames (q ++ q') = frames q ++ frames q'.
Proof. unfold frames. by rewrite map_app, concat_app. Qed.
Lemma frames_one r : frames [r] = frame r.
Proof. apply app_nil_r. Qed.
Lemma frames_cons_len r q : lenZ (frames (r :: q)) = 2 + lenZ r + lenZ (frames q).
Proof. change (frames (r :: q)) with (frame r ++ frames q). by rewrite lenZ_app, frame_len. Qed.
Lemma frames_empty q : lenZ (frames q) = 0 -> q = [].
Proof.
  destruct q as [|r q]; [done |]. rewrite frames_cons_len.
  pose proof (lenZ_nonneg r). pose proof (lenZ_nonneg (frames q)). lia.
Qed.

Section holds.
Context {W : Type}.
Implicit Types (self : @SolidSyslogCircularBuffer W).

(** The ring's cells from the head to the tail, in one stretch or around the
    wrap point, are the frames of the queued records. *)
Inductive laid_out self : list bytes -> Prop :=
| straight q :
    0 <= cb_Head self <= cb_Tail self -> cb_Tail self <= cb_Capacity self -> cb_WrapPoint self = cb_Capacity self ->
    spanZ (cb_Ring self) (cb_Head self) (cb_Tail self - cb_Head self) = frames q -> laid_out self q
| wrapped q1 q2 :
    0 < cb_Tail self < cb_Head self -> cb_Head self <= cb_WrapPoint self <= cb_Capacity self ->
    spanZ (cb_Ring self) (cb_Head self) (cb_WrapPoint self - cb_Head self) = frames q1 ->
    spanZ (cb_Ring self) 0 (cb_Tail self) = frames q2 -> laid_out self (q1 ++ q2).
Record holds self (q : list bytes) : Prop := {
  h_size : 0 <= cb_Capacity self <= lenZ (cb_Ring self);
  h_max : cb_Capacity self + SOLIDSYSLOG_MAX_MESSAGE_SIZE + 2 <= SIZE_MAX;
  h_records : Forall record_ok q;
  h_layout : laid_out self q
}.

(** Only the geometry matters. *)
Definition same_ring self self' : Prop :=
  cb_Ring self' = cb_Ring self /\ cb_Capacity self' = cb_Capacity self /\ cb_Head self' = cb_Head self /\
  cb_Tail self' = cb_Tail self /\ cb_WrapPoint self' = cb_WrapPoint self.
Lemma holds_same self self' q : same_ring self self' -> holds self q -> holds self' q.
Proof using.
  intros (E1 & E2 & E3 & E4 & E5) [H1 H2 H3 H4]. split; [by rewrite E1, E2 | by rewrite E2 | done |].
  inversion H4; subst; [eapply straight | eapply wrapped]; rewrite ?E1, ?E2, ?E3, ?E4, ?E5; done.
Qed.

Lemma holds_empty self q : holds self q -> CircularBuffer_IsEmpty self = bool_decide (q = []).
Proof using.
  intros [H1 _ _ Hl]. unfold CircularBuffer_IsEmpty. inversion Hl as [q' Ha Hb Hc Hd | q1 q2 Ha Hb Hc Hd]; subst.
  - apply (f_equal lenZ) in Hd. rewrite lenZ_spanZ in Hd by lia.
    case_bool_decide; subst; [change (lenZ (frames [])) with 0 in Hd; lia |].
    destruct (Z.eqb_spec (cb_Head self) (cb_Tail self)); [| done]. exfalso. apply H, frames_empty. lia.
  - apply (f_equal lenZ) in Hd. rewrite lenZ_spanZ in Hd by lia.
    case_bool_decide as E; [| lia]. apply app_eq_nil in E as [-> ->]. change (lenZ (frames [])) with 0 in Hd. lia.
Qed.
Lemma reset_holds self q : holds self q -> holds (CircularBuffer_ResetToStart self) [].
Proof using.
  intros [H1 H2 _ _]. split; [done | done | constructor |]. apply straight; simpl; try done; lia.
Qed.

(** The head record, once the head has passed the wrap point. *)
Definition at_head self : @SolidSyslogCircularBuffer W :=
  if CircularBuffer_HeadAtWrapPoint self then CircularBuffer_ConsumeWrapMarker self else self.

Lemma frame_prefix ring off len r q :
  0 <= off -> 0 <= len -> off + len <= lenZ ring -> spanZ ring off len = frames (r :: q) ->
  spanZ ring off (2 + lenZ r) = frame r /\ spanZ ring (off + (2 + lenZ r)) (len - (2 + lenZ r)) = frames q /\ 2 + lenZ r <= len.
Proof using.
  intros Ho Hl Hr H. pose proof (f_equal lenZ H) as E.  rewrite lenZ_spanZ, frames_cons_len in E by lia.
  pose proof (lenZ_nonneg r). pose proof (lenZ_nonneg (frames q)).
  replace len with ((2 + lenZ r) + (len - (2 + lenZ r))) in H by lia. rewrite spanZ_add in H by lia.
  change (frames (r :: q)) with (frame r ++ frames q) in H.
  apply app_inj_1 in H as [Hh Ht]; [split_and!; [done | done | lia] |].
  pose proof (frame_len r) as Hf. assert (Hs : lenZ (spanZ ring off (2 + lenZ r)) = 2 + lenZ r) by (apply lenZ_spanZ; lia).
  unfold lenZ in *. lia.
Qed.

Lemma peek_frame (ring : bytes) off r :
  0 <= off -> record_ok r -> spanZ ring off (2 + lenZ r) = frame r ->
  ring.[off] = lenZ r mod 256 /\ ring.[off + 1] = lenZ r / 256 /\ spanZ ring (off + 2) (lenZ r) = r.
Proof using.
  intros Ho Hr H. pose proof (lenZ_nonneg r). split_and!.
  - rewrite <- (Z.add_0_r off), <- (nthZ_spanZ ring off (2 + lenZ r) 0), H by lia. done.
  - rewrite <- (nthZ_spanZ ring off (2 + lenZ r) 1), H by lia. done.
  - rewrite <- (spanZ_spanZ ring off (2 + lenZ r) 2), H by lia. unfold frame.
    rewrite spanZ_app_r by done. apply spanZ_all.
Qed.

Lemma at_head_frame self r q :
  holds self (r :: q) ->
  let s := at_head self in
  holds s (r :: q) /\ cb_Capacity s = cb_Capacity self /\ 0 <= cb_Head s /\ cb_Head s + (2 + lenZ r) <= cb_Capacity s /\
  spanZ (cb_Ring s) (cb_Head s) (2 + lenZ r) = frame r /\
  holds (s <| cb_Head := cb_Head s + (2 + lenZ r) |>) q.
Proof using.
  intros [H1 H2 Hok Hl]. cbv zeta. unfold at_head, CircularBuffer_HeadAtWrapPoint.
  pose proof (lenZ_nonneg r). apply Forall_cons_1 in Hok as Hok'. destruct Hok' as [Hr Hq].
  inversion Hl as [q' Ha Hb Hc Hd E | q1 q2 Ha Hb Hc Hd E].
  - apply frame_prefix in Hd as (Hf & Hf' & Hlen); [| lia | lia | lia].
    replace (cb_WrapPoint self <=? cb_Head self) with false by lia.
    split_and!; try done; try lia. split; try done. apply straight; simpl; try done; try lia.
    rewrite <- Hf'. f_equal. lia.
  - destruct q1 as [|r' q1].
    + change (frames []) with (@nil Z) in Hc. apply (f_equal lenZ) in Hc. rewrite lenZ_spanZ in Hc by lia.
      change (lenZ []) with 0 in Hc. simpl in E. subst q2.
      replace (cb_WrapPoint self <=? cb_Head self) with true by lia.
      pose proof Hd as Hd'. apply frame_prefix in Hd' as (Hf & Hf' & Hlen); [| lia | lia | lia]. simpl.
      assert (Hc0 : forall s', cb_Capacity s' = cb_Capacity self -> cb_Ring s' = cb_Ring self -> cb_Tail s' = cb_Tail self ->
        cb_WrapPoint s' = cb_Capacity self -> forall q, Forall record_ok q -> 0 <= cb_Head s' <= cb_Tail self ->
        spanZ (cb_Ring self) (cb_Head s') (cb_Tail self - cb_Head s') = frames q -> holds s' q).
      { intros s' E1 E2 E3 E4 q' Hq' Hh Hsp. split; [by rewrite E1, E2 | by rewrite E1 | done |].
        apply straight; rewrite ?E1, ?E2, ?E3, ?E4; done || lia. }
      split_and!; try done; try lia; apply Hc0; simpl; try done; try lia; by rewrite ?Z.sub_0_r.
    + injection E as -> <-.
      apply frame_prefix in Hc as (Hf & Hf' & Hlen); [| lia | lia | lia].
      replace (cb_WrapPoint self <=? cb_Head self) with false by lia.
      split_and!; try done; try lia. split; try done. apply wrapped; simpl; try done; try lia.
      rewrite <- Hf'. f_equal. lia.
Qed.

Lemma peek_head self r q :
  holds self (r :: q) ->
  let s := at_head self in
  CircularBuffer_PeekRecordSize s = lenZ r /\
  size_add (cb_Head s) (size_add HEADER_BYTES (lenZ r)) = cb_Head s + (2 + lenZ r) /\
  spanZ (cb_Ring s) (size_add (cb_Head s) HEADER_BYTES) (lenZ r) = r.
Proof using.
  intros H. destruct (at_head_frame self r q H) as ([Hs Hm Hok _] & _ & Hh & Hle & Hf & _). cbv zeta.
  apply Forall_cons_1 in Hok as [Hr _]. destruct (peek_frame _ _ _ Hh Hr Hf) as (E0 & E1 & E2).
  pose proof (lenZ_nonneg r). unfold record_ok, SOLIDSYSLOG_MAX_MESSAGE_SIZE in *.
  unfold CircularBuffer_PeekRecordSize, HEADER_BYTES, SOLIDSYSLOG_CIRCULAR_BUFFER_HEADER_BYTES, SIZE_MAX in *.
  rewrite !size_add_small by (rewrite ?size_add_small; unfold SIZE_MAX; lia).
  rewrite E0, E1. split_and!; [| done | done].
  rewrite le16_read; [| apply Z.mod_pos_bound; lia | split; [apply Z.div_pos | apply Z.div_lt_upper_bound]; lia].
  pose proof (Z.div_mod (lenZ r) 256). lia.
Qed.

Lemma at_head_peek self r q (H : holds self (r :: q)) :
  CircularBuffer_PeekRecordSize (at_head self) = lenZ r.
Proof using. apply (peek_head self r q H). Qed.

(** Bytes from the head to the tail. *)
Definition ring_used self : Z :=
  if CircularBuffer_IsWrapped self then (cb_WrapPoint self - cb_Head self) + cb_Tail self else cb_Tail self - cb_Head self.
Lemma ring_used_frames self q : holds self q -> ring_used self = lenZ (frames q).
Proof using.
  intros [H1 _ _ Hl]. unfold ring_used, CircularBuffer_IsWrapped.
  inversion Hl as [q' Ha Hb Hc Hd E | q1 q2 Ha Hb Hc Hd E].
  - replace (cb_Tail self <? cb_Head self) with false by lia. rewrite <- Hd, lenZ_spanZ; lia.
  - replace (cb_Tail self <? cb_Head self) with true by lia. rewrite frames_app, lenZ_app, <- Hc, <- Hd, !lenZ_spanZ; lia.
Qed.
Lemma used_bound self q : holds self q -> lenZ (frames q) <= cb_Capacity self.
Proof using.
  intros H. rewrite <- (ring_used_frames self q H). destruct H as [H1 _ _ Hl]. unfold ring_used, CircularBuffer_IsWrapped.
  inversion Hl; destruct (Z.ltb_spec (cb_Tail self) (cb_Head self)); lia.
Qed.

(** What no queue operation looks at. *)
Definition same_flags self self' : Prop :=
  cb_Capacity self' = cb_Capacity self /\ cb_LossReported self' = cb_LossReported self /\
  cb_EvictionReported self' = cb_EvictionReported self /\ cb_TooLargeReported self' = cb_TooLargeReported self /\
  cb_Full self' = cb_Full self /\ cb_GetDiscardPolicy self' = cb_GetDiscardPolicy self /\
  cb_DiscardPolicyContext self' = cb_DiscardPolicyContext self /\ cb_Base self' = cb_Base self /\
  lenZ (cb_Ring self') = lenZ (cb_Ring self).
Lemma same_flags_refl self : same_flags self self.
Proof using. done. Qed.
Lemma same_flags_trans s1 s2 s3 : same_flags s1 s2 -> same_flags s2 s3 -> same_flags s1 s3.
Proof using. unfold same_flags. intuition congruence. Qed.
Lemma at_head_flags self : same_flags self (at_head self).
Proof using. unfold at_head. by destruct (CircularBuffer_HeadAtWrapPoint self). Qed.

Lemma DropHead_holds self r q :
  holds self (r :: q) ->
  let s := CircularBuffer_DropHead self in
  holds s q /\ same_flags self s /\ (q = [] -> cb_Head s = 0 /\ cb_Tail s = 0).
Proof using.
  intros H. pose proof (peek_head self r q H) as (Ep & Ea & _). pose proof (at_head_frame self r q H) as (_ & _ & _ & _ & _ & Hh).
  pose proof (at_head_flags self) as Hf.
  unfold CircularBuffer_DropHead. fold (at_head self). rewrite Ep, Ea. cbv zeta.
  set (s := (at_head self) <| cb_Head := _ |>) in *. pose proof (holds_empty s q Hh) as He.
  destruct (CircularBuffer_IsEmpty s); case_bool_decide as Eq; try done. subst q. split; [by eapply reset_holds | done].
Qed.

(** [Read] takes the head record, unless the reader's memory is too small for it. *)
Lemma Read_locked_spec self q data maxSize :
  holds self q -> 0 <= maxSize <= lenZ data ->
  let '((delivered, started, data', bytesRead), self') := Read_locked self data maxSize in
  match q with
  | [] => delivered = false /\ started = false /\ data' = data /\ bytesRead = 0 /\ self' = self
  | r :: q' =>
      if lenZ r <=? maxSize
      then delivered = true /\ started = false /\ data' = spliceZ data 0 r /\ bytesRead = lenZ r /\ holds self' q' /\
           cb_Full self' = false /\ cb_TooLargeReported self' = false /\
           cb_LossReported self' = cb_LossReported self /\ cb_EvictionReported self' = cb_EvictionReported self
      else delivered = false /\ started = negb (cb_TooLargeReported self) /\ data' = data /\ bytesRead = 0 /\ holds self' q /\
           cb_TooLargeReported self' = true /\ cb_Full self' = cb_Full self /\
           cb_LossReported self' = cb_LossReported self /\ cb_EvictionReported self' = cb_EvictionReported self
  end.
Proof using.
  intros H Hm. unfold Read_locked. rewrite (holds_empty self q H). fold (at_head self). cbv zeta.
  destruct q as [|r q]; [done |]. simpl negb. cbv iota.
  pose proof (peek_head self r q H) as (Ep & Ea & Es).
  pose proof (at_head_frame self r q H) as (Hs & _ & _ & _ & _ & Hh).
  destruct (at_head_flags self) as (_ & F1 & F2 & F3 & F4 & _).
  rewrite Ep. destruct (lenZ r <=? maxSize).
  - unfold CircularBuffer_LoadRecord. rewrite Ep, Ea, Es. simpl. split_and!; try done. by eapply holds_same; [| exact Hh].
  - rewrite F3. simpl. split_and!; try done. by eapply holds_same; [| exact Hs].
Qed.

Lemma Read_locked_config self data maxSize :
  let self' := snd (Read_locked self data maxSize) in
  cb_Capacity self' = cb_Capacity self /\ cb_GetDiscardPolicy self' = cb_GetDiscardPolicy self /\
  cb_DiscardPolicyContext self' = cb_DiscardPolicyContext self /\ cb_Base self' = cb_Base self.
Proof using.
  unfold Read_locked. destruct (negb (CircularBuffer_IsEmpty self)); [| done].
  destruct (CircularBuffer_HeadAtWrapPoint self); unfold CircularBuffer_LoadRecord; cbv zeta; destruct (_ <=? maxSize); done.
Qed.

(** * Storing a record *)

Lemma updZ_spliceZ (l : bytes) i v : 0 <= i < lenZ l -> updZ l i v = spliceZ l i [v].
Proof using.
  intros Hi. unfold updZ, spliceZ, takeZ, dropZ. change (lenZ [v]) with 1. unfold lenZ in Hi.
  rewrite insert_take_drop by lia. do 2 f_equal. simpl. f_equal. lia.
Qed.
Lemma spliceZ_spliceZ (l a b : bytes) off :
  0 <= off -> off + lenZ a + lenZ b <= lenZ l ->
  spliceZ (spliceZ l off a) (off + lenZ a) b = spliceZ l off (a ++ b).
Proof using.
  intros Ho Hl. pose proof (lenZ_nonneg a). pose proof (lenZ_nonneg b). unfold spliceZ.
  rewrite takeZ_app_ge, lenZ_takeZ, takeZ_app_ge by (rewrite ?lenZ_takeZ; lia).
  rewrite (takeZ_nonpos (_ - lenZ a)) by lia. rewrite app_nil_r, <- !app_assoc. do 3 f_equal.
  rewrite dropZ_app_ge, lenZ_takeZ, dropZ_app_ge, dropZ_dropZ by (rewrite ?lenZ_takeZ; lia).
  rewrite lenZ_app. f_equal. lia.
Qed.

Lemma StoreRecord_frame self data size :
  0 <= cb_Tail self -> 0 <= size <= SOLIDSYSLOG_MAX_MESSAGE_SIZE -> size <= lenZ data ->
  cb_Tail self + (2 + size) <= lenZ (cb_Ring self) -> cb_Tail self + (2 + size) <= SIZE_MAX ->
  CircularBuffer_StoreRecord self data size =
  self <| cb_Ring := spliceZ (cb_Ring self) (cb_Tail self) (frame (takeZ size data)) |> <| cb_Tail := cb_Tail self + (2 + size) |>.
Proof using.
  intros Ht Hs Hd Hl Hm. unfold CircularBuffer_StoreRecord, HEADER_BYTES, SOLIDSYSLOG_CIRCULAR_BUFFER_HEADER_BYTES, SIZE_MAX,
    SOLIDSYSLOG_MAX_MESSAGE_SIZE in *. cbv zeta.
  rewrite le16_low, le16_high by lia.
  rewrite !size_add_small by (rewrite ?size_add_small; unfold SIZE_MAX; lia).
  rewrite !updZ_spliceZ by (rewrite ?lenZ_spliceZ by (change (lenZ [size mod 256]) with 1; lia); rewrite ?lenZ_updZ; lia).
  assert (El : lenZ (takeZ size data) = size) by (apply lenZ_takeZ; lia).
  change (cb_Tail self + 1) with (cb_Tail self + lenZ [size mod 256]).
  rewrite spliceZ_spliceZ by (change (lenZ [size mod 256]) with 1; change (lenZ [size / 256]) with 1; lia).
  change (cb_Tail self + 2) with (cb_Tail self + lenZ ([size mod 256] ++ [size / 256])).
  rewrite spliceZ_spliceZ by (rewrite ?El; change (lenZ ([size mod 256] ++ [size / 256])) with 2; lia).
  unfold frame. by rewrite El.
Qed.

(** The record goes after the tail, or at the start of the ring where it fits
    before the head. *)
Lemma Keep_holds self q data size evicted :
  holds self q -> (q = [] -> cb_Head self = 0 /\ cb_Tail self = 0) ->
  0 <= size <= SOLIDSYSLOG_MAX_MESSAGE_SIZE -> size <= lenZ data ->
  CircularBuffer_RecordFits self (2 + size) = true ->
  let '(started, self') := CircularBuffer_KeepRecord self data size evicted in
  holds self' (q ++ [takeZ size data]) /\ cb_LossReported self' = false /\ cb_EvictionReported self' = evicted /\
  cb_Full self' = evicted /\ cb_TooLargeReported self' = cb_TooLargeReported self /\
  started = (if evicted && negb (cb_EvictionReported self) then RUN_STARTED_EVICTIONS else RUN_STARTED_NONE).
Proof using.
  intros [H1 H2 Hok Hl] Hempty Hs Hd Hfits.
  assert (El : lenZ (takeZ size data) = size) by (apply lenZ_takeZ; lia).
  assert (Hok' : Forall record_ok (q ++ [takeZ size data])).
  { apply Forall_app. split; [done |]. apply Forall_singleton. unfold record_ok. lia. }
  unfold CircularBuffer_KeepRecord. change (size_add HEADER_BYTES size) with (size_add 2 size).
  unfold CircularBuffer_RecordFits, CircularBuffer_RecordFitsAfterWrap, CircularBuffer_RecordFitsAtTail, CircularBuffer_IsWrapped in *.
  unfold SOLIDSYSLOG_MAX_MESSAGE_SIZE, SIZE_MAX in *. rewrite (size_add_small 2 size) by (unfold SIZE_MAX; lia).
  inversion Hl as [q' Ha Hb Hc Hsp E | q1 q2 Ha Hb Hc Hsp E].
  - subst q'. replace (cb_Tail self <? cb_Head self) with false in * by lia.
    rewrite size_add_small in * by (unfold SIZE_MAX; lia).
    destruct (Z.leb_spec (cb_Tail self + (2 + size)) (cb_Capacity self)) as [Hfit | Hno]; cbn [negb orb andb] in *; cbv zeta.
    + rewrite StoreRecord_frame by (unfold SOLIDSYSLOG_MAX_MESSAGE_SIZE, SIZE_MAX; lia). simpl. split_and!; try done.
      split; simpl; rewrite ?lenZ_spliceZ by (rewrite ?frame_len; lia); try done. apply straight; simpl; try done; try lia.
      rewrite frames_app, frames_one, <- Hsp.
      replace (cb_Tail self + (2 + size) - cb_Head self) with ((cb_Tail self - cb_Head self) + (2 + size)) by lia.
      rewrite spanZ_add, spanZ_spliceZ_before by lia. f_equal.
      replace (cb_Head self + (cb_Tail self - cb_Head self)) with (cb_Tail self) by lia.
      rewrite <- El at 2. rewrite <- frame_len. apply spanZ_spliceZ_same. lia.
    + bool_to_prop. unfold CircularBuffer_WrapTail.
      assert (Hlt : cb_Head self < cb_Tail self).
      { destruct (Z.eq_dec (cb_Head self) (cb_Tail self)) as [Eq |]; [| lia].
        assert (q = []) as Hq by (apply frames_empty; rewrite <- Hsp, lenZ_spanZ; lia).
        destruct (Hempty Hq). lia. }
      rewrite StoreRecord_frame by (unfold SOLIDSYSLOG_MAX_MESSAGE_SIZE, SIZE_MAX; simpl; lia). simpl. split_and!; try done.
      split; simpl; rewrite ?lenZ_spliceZ by (rewrite ?frame_len; lia); try done. apply wrapped; simpl; try done; try lia.
      * rewrite <- Hsp. apply spanZ_spliceZ_after; rewrite ?frame_len; lia.
      * rewrite frames_one. rewrite <- El at 2. rewrite <- frame_len. apply (spanZ_spliceZ_same _ 0). lia.
  - subst q. replace (cb_Tail self <? cb_Head self) with true in * by lia.
    rewrite size_add_small in * by (unfold SIZE_MAX; lia). cbn [negb andb] in Hfits. rewrite orb_false_r in Hfits.
    rewrite Hfits. bool_to_prop. cbv zeta. cbn [negb].
    rewrite StoreRecord_frame by (unfold SOLIDSYSLOG_MAX_MESSAGE_SIZE, SIZE_MAX; lia). simpl. split_and!; try done.
    split; simpl; rewrite ?lenZ_spliceZ by (rewrite ?frame_len; lia); try done.
    rewrite <- app_assoc in Hok' |- *. apply wrapped; simpl; try done; try lia.
    + rewrite <- Hc. apply spanZ_spliceZ_after; rewrite ?frame_len; lia.
    + rewrite frames_app, frames_one, <- Hsp, (spanZ_add _ 0 (cb_Tail self)), spanZ_spliceZ_before by lia. f_equal.
      rewrite <- El at 2. rewrite <- frame_len. apply spanZ_spliceZ_same. lia.
Qed.

(** Eviction ends with room for a record the ring can hold at all. *)
Definition rewound self (q : list bytes) : Prop := q = [] -> cb_Head self = 0 /\ cb_Tail self = 0.

Lemma rewound_fits self rb :
  holds self [] -> rewound self [] -> 0 <= rb <= cb_Capacity self -> CircularBuffer_RecordFits self rb = true.
Proof using.
  intros [H1 H2 _ _] Hr Hb. destruct (Hr eq_refl) as [Eh Et].
  unfold CircularBuffer_RecordFits, CircularBuffer_RecordFitsAtTail, CircularBuffer_IsWrapped. rewrite Eh, Et.
  unfold SOLIDSYSLOG_MAX_MESSAGE_SIZE in H2. rewrite size_add_small by lia. simpl.
  apply orb_true_iff. left. lia.
Qed.

Lemma Evict_holds self q rb :
  holds self q -> rewound self q -> 0 <= rb <= cb_Capacity self ->
  let s := CircularBuffer_EvictUntilRecordFits self rb in
  exists dropped kept, q = dropped ++ kept /\ holds s kept /\ rewound s kept /\ same_flags self s /\
    CircularBuffer_RecordFits s rb = true /\ (CircularBuffer_RecordFits self rb = false -> dropped <> []).
Proof using.
  intros H Hr Hb. cbv zeta. unfold CircularBuffer_EvictUntilRecordFits.
  while_by (fun s => exists dropped kept, q = dropped ++ kept /\ holds s kept /\ rewound s kept /\ same_flags self s /\
    (dropped = [] -> s = self)) ring_used.
  - intros s (dropped & kept & -> & Hs & Hrs & Hf & Hd) Hno. apply negb_true_iff in Hno.
    destruct kept as [|r kept].
    { rewrite rewound_fits in Hno; [done | done | done |]. by rewrite (proj1 Hf). }
    destruct (DropHead_holds s r kept Hs) as (Hs' & Hf' & Hr'). split.
    + exists (dropped ++ [r]), kept. rewrite <- app_assoc. split; [done |]. split; [done |]. split; [done |].
      split; [by eapply same_flags_trans | by destruct dropped].
    + rewrite (ring_used_frames _ _ Hs), (ring_used_frames _ _ Hs'), frames_cons_len.
      pose proof (lenZ_nonneg r). pose proof (lenZ_nonneg (frames kept)). lia.
  - exists [], q. done.
  - rewrite (ring_used_frames _ _ H). pose proof (used_bound _ _ H). lia.
  - intros s (dropped & kept & -> & Hs & Hrs & Hf & Hd) Hend. apply negb_false_iff in Hend.
    exists dropped, kept. split_and!; try done. intros Hno Hnil. rewrite (Hd Hnil) in Hend. congruence.
Qed.
End holds.

(** * The queue it promises *)

Inductive write_outcome := Kept | Evicted | Refused.
Record fifo := mkFifo {
  f_queue : list bytes;
  f_last : write_outcome;
  f_full : bool;
  f_too_large : bool
}.
Definition empty_fifo : fifo := mkFifo [] Kept false false.

(** Which report a write of outcome [o] raises after one of outcome [last]: one
    for each run of losses. *)
Definition run_report (last o : write_outcome) : list Z :=
  match o, last with
  | Refused, Refused | Evicted, Evicted | Kept, _ => []
  | Refused, _ => [SOLIDSYSLOG_CIRCULAR_BUFFER_ERROR_RECORD_REFUSED]
  | Evicted, _ => [SOLIDSYSLOG_CIRCULAR_BUFFER_ERROR_RECORDS_EVICTED]
  end.

Section fifo_spec.
Context (capacity : Z).

(** Writing [r]: it is kept, possibly after dropping the oldest records, which
    only the policy Oldest may do; or it is refused, which Oldest never does to
    a record the ring can hold, nor any policy when the ring is empty. *)
Inductive fifo_write (policy : Z) (r : bytes) : fifo -> write_outcome -> fifo -> Prop :=
| write_kept f :
    fifo_write policy r f Kept (mkFifo (f_queue f ++ [r]) Kept false (f_too_large f))
| write_evicted f dropped kept :
    f_queue f = dropped ++ kept -> dropped <> [] -> policy = SOLIDSYSLOG_DISCARD_POLICY_OLDEST -> 2 + lenZ r <= capacity ->
    fifo_write policy r f Evicted (mkFifo (kept ++ [r]) Evicted true (f_too_large f))
| write_refused f :
    capacity < 2 + lenZ r \/ (policy <> SOLIDSYSLOG_DISCARD_POLICY_OLDEST /\ f_queue f <> []) ->
    fifo_write policy r f Refused (mkFifo (f_queue f) Refused (2 + lenZ r <=? capacity) (f_too_large f)).

Inductive cb_op := OpWrite (data : bytes) (size : Z) | OpRead (data : bytes) (maxSize : Z) | OpIsFull.
Inductive cb_result := Wrote | Delivered (record : bytes) | NotDelivered | Full (full : bool).

Definition raised (severity category code : Z) : cb_event :=
  Raised (error_event severity SolidSyslogCircularBufferErrorSource category code).
Definition lost (code : Z) : cb_event := raised SOLIDSYSLOG_SEVERITY_WARNING SOLIDSYSLOG_CAT_BUFFER_RECORDS_LOST code.

Context {W : Type} (policy_of : ST W Z).

(** One call on the buffer and what is seen of it from outside. *)
Inductive fifo_step : fifo * W -> cb_op -> cb_result -> list cb_event -> fifo * W -> Prop :=
| step_write f w data size o f' :
    size <= SOLIDSYSLOG_MAX_MESSAGE_SIZE -> fifo_write (fst (policy_of w)) (takeZ size data) f o f' ->
    fifo_step (f, w) (OpWrite data size) Wrote ([PolicyAsked; Locked; Unlocked] ++ map lost (run_report (f_last f) o)) (f', snd (policy_of w))
| step_write_oversize f w data size :
    SOLIDSYSLOG_MAX_MESSAGE_SIZE < size ->
    fifo_step (f, w) (OpWrite data size) Wrote
      [raised SOLIDSYSLOG_BAD_ARGUMENT_SEVERITY SOLIDSYSLOG_CAT_BAD_ARGUMENT SOLIDSYSLOG_CIRCULAR_BUFFER_ERROR_RECORD_EXCEEDS_MAX_MESSAGE_SIZE] (f, w)
| step_read f w data maxSize r q :
    f_queue f = r :: q -> lenZ r <= maxSize ->
    fifo_step (f, w) (OpRead data maxSize) (Delivered r) [Locked; Unlocked] (mkFifo q (f_last f) false false, w)
| step_read_empty f w data maxSize :
    f_queue f = [] -> fifo_step (f, w) (OpRead data maxSize) NotDelivered [Locked; Unlocked] (f, w)
| step_read_too_large f w data maxSize r q :
    f_queue f = r :: q -> maxSize < lenZ r ->
    fifo_step (f, w) (OpRead data maxSize) NotDelivered
      ([Locked; Unlocked] ++ (if f_too_large f then [] else
         [raised SOLIDSYSLOG_SEVERITY_ERROR SOLIDSYSLOG_CAT_BUFFER_BACKEND_FAILED SOLIDSYSLOG_CIRCULAR_BUFFER_ERROR_RECORD_TOO_LARGE]))
      (mkFifo (f_queue f) (f_last f) (f_full f) true, w)
| step_is_full f w : fifo_step (f, w) OpIsFull (Full (f_full f)) [Locked; Unlocked] (f, w).

Inductive fifo_run : fifo * W -> list cb_op -> list cb_result -> list cb_event -> fifo * W -> Prop :=
| run_nil s : fifo_run s [] [] [] s
| run_cons s op res ev s1 ops ress evs s2 :
    fifo_step s op res ev s1 -> fifo_run s1 ops ress evs s2 -> fifo_run s (op :: ops) (res :: ress) (ev ++ evs) s2.
End fifo_spec.

(** * The ring is that queue *)

Section refinement.
Context {W : Type}.
Implicit Types (self : @SolidSyslogCircularBuffer W).

Record represents (f : fifo) self : Prop := {
  rp_holds : holds self (f_queue f);
  rp_loss : cb_LossReported self = match f_last f with Refused => true | _ => false end;
  rp_evict : cb_EvictionReported self = match f_last f with Evicted => true | _ => false end;
  rp_large : cb_TooLargeReported self = f_too_large f;
  rp_full : cb_Full self = f_full f
}.
Definition configured_as (policy_of : ST W Z) (capacity : Z) self : Prop :=
  cb_GetDiscardPolicy self (cb_DiscardPolicyContext self) = policy_of /\ cb_Capacity self = capacity /\ cb_Base self = CircularBufferVtable.

Definition started_report (started : SolidSyslogCircularBufferRunStarted) : list Z :=
  match started with
  | RUN_STARTED_NONE => []
  | RUN_STARTED_REFUSALS => [SOLIDSYSLOG_CIRCULAR_BUFFER_ERROR_RECORD_REFUSED]
  | RUN_STARTED_EVICTIONS => [SOLIDSYSLOG_CIRCULAR_BUFFER_ERROR_RECORDS_EVICTED]
  end.

Lemma KeepRecord_config self data size evicted :
  let s := snd (CircularBuffer_KeepRecord self data size evicted) in
  cb_Capacity s = cb_Capacity self /\ cb_GetDiscardPolicy s = cb_GetDiscardPolicy self /\
  cb_DiscardPolicyContext s = cb_DiscardPolicyContext self /\ cb_Base s = cb_Base self.
Proof using. unfold CircularBuffer_KeepRecord. by destruct (negb (CircularBuffer_RecordFitsAtTail _ _)). Qed.

(** The state [StoreApplyingPolicy] decides from: an emptied ring is rewound. *)
Lemma rewound_start self q :
  holds self q ->
  let s := if CircularBuffer_IsEmpty self then CircularBuffer_ResetToStart self else self in
  holds s q /\ rewound s q /\ same_flags self s.
Proof using.
  intros H. rewrite (holds_empty self q H). case_bool_decide as E.
  - subst q. split; [by eapply reset_holds | done].
  - done.
Qed.

Lemma Store_refines f self policy data size :
  represents f self -> 0 <= size <= SOLIDSYSLOG_MAX_MESSAGE_SIZE -> size <= lenZ data ->
  let '(started, self') := StoreApplyingPolicy_locked self policy data size in
  (exists o f', fifo_write (cb_Capacity self) policy (takeZ size data) f o f' /\ represents f' self' /\
    started_report started = run_report (f_last f) o) /\
  cb_Capacity self' = cb_Capacity self /\ cb_GetDiscardPolicy self' = cb_GetDiscardPolicy self /\
  cb_DiscardPolicyContext self' = cb_DiscardPolicyContext self /\ cb_Base self' = cb_Base self.
Proof using.
  intros [Hh Hloss Hev Hlarge Hfull] Hs Hd.
  assert (El : lenZ (takeZ size data) = size) by (apply lenZ_takeZ; lia).
  unfold StoreApplyingPolicy_locked. cbv zeta.
  assert (Esz : size_add HEADER_BYTES size = 2 + size).
  { unfold SOLIDSYSLOG_MAX_MESSAGE_SIZE in Hs. apply size_add_small. unfold HEADER_BYTES, SOLIDSYSLOG_CIRCULAR_BUFFER_HEADER_BYTES, SIZE_MAX. lia. }
  rewrite Esz. destruct (rewound_start self _ Hh) as (H0 & Hr0 & F0). cbv zeta in *.
  set (s0 := if CircularBuffer_IsEmpty self then _ else _) in *. clearbody s0.
  destruct F0 as (Fc & Fl & Fe & Ft & Ff & Fg & Fx & Fb & _).
  unfold CircularBuffer_PolicyEvictsFor, CircularBuffer_CouldHoldWhenEmpty. rewrite Fc.
  destruct (CircularBuffer_RecordFits s0 (2 + size)) eqn:Efit; cbn [negb andb].
  - (* room at once *)
    rewrite Efit. pose proof (Keep_holds s0 _ data size false H0 Hr0 Hs Hd Efit) as HK.
    pose proof (KeepRecord_config s0 data size false) as HC.
    destruct (CircularBuffer_KeepRecord s0 data size false) as [started s']. simpl in HC.
    destruct HK as (K1 & K2 & K3 & K4 & K5 & K6). destruct HC as (C1 & C2 & C3 & C4).
    split; [| split_and!; congruence]. eexists Kept, _. split; [constructor |]. split; [| by rewrite K6].
    split; simpl; congruence || done.
  - destruct ((2 + size <=? cb_Capacity self) && (policy =? SOLIDSYSLOG_DISCARD_POLICY_OLDEST)) eqn:Epol.
    + (* evictions *)
      bool_to_prop. destruct (Evict_holds s0 _ (2 + size) H0 Hr0 ltac:(lia)) as (dropped & kept & Eq & HE & HrE & FE & HfE & Hne).
      set (s1 := CircularBuffer_EvictUntilRecordFits s0 (2 + size)) in *. clearbody s1. rewrite HfE.
      destruct FE as (Gc & Gl & Ge & Gt & Gf & Gg & Gx & Gb & _).
      pose proof (Keep_holds s1 _ data size true HE HrE Hs Hd HfE) as HK.
      pose proof (KeepRecord_config s1 data size true) as HC.
      destruct (CircularBuffer_KeepRecord s1 data size true) as [started s']. simpl in HC.
      destruct HK as (K1 & K2 & K3 & K4 & K5 & K6). destruct HC as (C1 & C2 & C3 & C4).
      split; [| split_and!; congruence]. eexists Evicted, _.
      split; [apply (write_evicted _ _ _ f dropped kept); [done | auto | done | lia] |].
      split; [split; simpl; congruence || done |].
      rewrite K6, Ge, Fe, Hev. by destruct (f_last f).
    + (* refusal *)
      rewrite Efit. unfold CircularBuffer_RefuseRecord, CircularBuffer_CouldHoldWhenEmpty. simpl.
      split; [| split_and!; congruence]. eexists Refused, _. split.
      * apply write_refused. rewrite El. apply andb_false_iff in Epol as [Ep | Ep]; bool_to_prop; [left; lia |].
        destruct (Z.le_gt_cases (2 + size) (cb_Capacity self)) as [Hcap |]; [right | by left].
        split; [done |]. intros Hq. rewrite Hq in *.
        rewrite rewound_fits in Efit; [done | done | done |]. lia.
      * rewrite El, Fl, Hloss. split; [| by destruct (f_last f)].
        split; simpl; rewrite ?Fc; try congruence; try done. by eapply holds_same; [| exact H0].
Qed.

(** ** Whole calls *)

Definition run_cb_op (op : cb_op) : ST (@cb_world W) cb_result :=
  match op with
  | OpWrite data size => SolidSyslogBuffer_Write data size ;;; st_ret Wrote
  | OpRead data maxSize =>
      let! r := SolidSyslogBuffer_Read data maxSize in
      let '(delivered, data, bytesRead) := r in st_ret (if delivered then Delivered (takeZ bytesRead data) else NotDelivered)
  | OpIsFull => let! full := SolidSyslogBuffer_IsFull in st_ret (Full full)
  end.
Fixpoint run_cb_ops (ops : list cb_op) : ST (@cb_world W) (list cb_result) :=
  match ops with
  | [] => st_ret []
  | op :: ops => let! r := run_cb_op op in let! rs := run_cb_ops ops in st_ret (r :: rs)
  end.
(** The memory given covers the size given with it. *)
Definition cb_op_ok (op : cb_op) : Prop :=
  match op with
  | OpWrite data size => 0 <= size <= lenZ data
  | OpRead data maxSize => 0 <= maxSize <= lenZ data
  | OpIsFull => True
  end.

Lemma op_refines (policy_of : ST W Z) capacity f (w : cb_world) op :
  represents f (cw_Buffer w) -> configured_as policy_of capacity (cw_Buffer w) -> cb_op_ok op ->
  exists ev f',
    fifo_step capacity policy_of (f, cw_Env w) op (fst (run_cb_op op w)) ev (f', cw_Env (snd (run_cb_op op w))) /\
    represents f' (cw_Buffer (snd (run_cb_op op w))) /\ configured_as policy_of capacity (cw_Buffer (snd (run_cb_op op w))) /\
    cw_Trace (snd (run_cb_op op w)) = cw_Trace w ++ ev.
Proof using.
  destruct w as [self env tr]. intros Hrep (Hpol & Hcap & Hbase) Hok. simpl in Hrep, Hpol, Hcap, Hbase.
  destruct op as [data size | data maxSize |]; unfold run_cb_op, SolidSyslogBuffer_Write, SolidSyslogBuffer_Read, SolidSyslogBuffer_IsFull, st_get, st_bind;
    simpl; rewrite Hbase; simpl in Hok.
  - unfold CircularBuffer_Write. destruct (Z.leb_spec size SOLIDSYSLOG_MAX_MESSAGE_SIZE) as [Hs | Hs].
    + pose proof (Store_refines f self (fst (policy_of env)) data size Hrep ltac:(lia) ltac:(lia)) as HS.
      unfold ask_policy, CircularBuffer_StoreApplyingPolicy, SolidSyslogMutex_Lock, SolidSyslogMutex_Unlock, happens, st_mod, st_bind, st_get, set_buffer.
      simpl. rewrite Hpol. destruct (policy_of env) as [policy env'] eqn:Ep. simpl in *.
      destruct (StoreApplyingPolicy_locked self policy data size) as [started self'].
      destruct HS as ((o & f' & Hw & Hrep' & Hst) & C1 & C2 & C3 & C4).
      exists ([PolicyAsked; Locked; Unlocked] ++ map lost (run_report (f_last f) o)), f'.
      pose proof (step_write capacity policy_of f env data size o f' Hs) as Hstep. rewrite Ep, <- Hcap in Hstep.
      specialize (Hstep Hw). rewrite Hcap in Hstep. rewrite <- Hst in Hstep |- *.
      destruct started; simpl in *; rewrite <- ?app_assoc; simpl; (split; [exact Hstep |]; split; [exact Hrep' |]; split; [| done]);
        unfold configured_as; rewrite C1, C2, C3, C4; done.
    + eexists _, f. split; [by apply step_write_oversize |]. done.
  - pose proof (Read_locked_spec self (f_queue f) data maxSize (rp_holds _ _ Hrep) Hok) as HR.
    pose proof (Read_locked_config self data maxSize) as HC.
    destruct Hrep as [Rh Rl Re Rt Rf].
    unfold CircularBuffer_Read, SolidSyslogMutex_Lock, SolidSyslogMutex_Unlock, happens, st_mod, st_bind, st_get, set_buffer. simpl.
    destruct (Read_locked self data maxSize) as [[[[delivered started] data'] bytesRead] self']. simpl in HC.
    destruct HC as (C1 & C2 & C3 & C4).
    assert (Hconf : configured_as policy_of capacity self') by (unfold configured_as; rewrite C1, C2, C3, C4; done).
    destruct (f_queue f) as [|r q] eqn:Eq.
    + destruct HR as (-> & -> & -> & -> & ->). simpl. exists [Locked; Unlocked], f. rewrite <- app_assoc.
      split; [by apply step_read_empty |]. split; [split; rewrite ?Eq; done | done].
    + destruct (Z.leb_spec (lenZ r) maxSize) as [Hl | Hl].
      * destruct HR as (-> & -> & -> & -> & Hh & H1 & H2 & H3 & H4). simpl. rewrite <- app_assoc.
        assert (Er : takeZ (lenZ r) (spliceZ data 0 r) = r).
        { unfold spliceZ. rewrite (takeZ_nonpos 0), app_nil_l, takeZ_app_ge, Z.sub_diag, (takeZ_nonpos 0) by lia. apply app_nil_r. }
        rewrite Er. eexists _, _. split; [by eapply step_read |]. split; [split; simpl; congruence || done | done].
      * destruct HR as (-> & -> & -> & -> & Hh & H1 & H2 & H3 & H4).
        pose proof (step_read_too_large capacity policy_of f env data maxSize r q Eq Hl) as Hstep.
        match type of Hstep with fifo_step _ _ _ _ _ ?ev (?f', _) => exists ev, f' end.
        rewrite Rt. destruct (f_too_large f); simpl in *; rewrite <- ?app_assoc;
          (split; [exact Hstep |]; split; [split; simpl; congruence || done | done]).
  - exists [Locked; Unlocked], f. simpl. rewrite (rp_full _ _ Hrep), <- app_assoc. split; [apply step_is_full | done].
Qed.

Lemma run_refines (policy_of : ST W Z) capacity ops : forall f (w : cb_world),
  represents f (cw_Buffer w) -> configured_as policy_of capacity (cw_Buffer w) -> Forall cb_op_ok ops ->
  exists ev f',
    fifo_run capacity policy_of (f, cw_Env w) ops (fst (run_cb_ops ops w)) ev (f', cw_Env (snd (run_cb_ops ops w))) /\
    represents f' (cw_Buffer (snd (run_cb_ops ops w))) /\ cw_Trace (snd (run_cb_ops ops w)) = cw_Trace w ++ ev.
Proof using.
  induction ops as [|op ops IH]; intros f w Hrep Hconf Hok.
  - exists [], f. rewrite app_nil_r. split; [constructor | done].
  - apply Forall_cons_1 in Hok as [Hop Hops].
    destruct (op_refines policy_of capacity f w op Hrep Hconf Hop) as (ev1 & f1 & Hstep & Hrep1 & Hconf1 & Htr1).
    simpl. unfold st_bind. destruct (run_cb_op op w) as [res w1]. simpl in *.
    destruct (IH f1 w1 Hrep1 Hconf1 Hops) as (ev2 & f2 & Hrun & Hrep2 & Htr2).
    destruct (run_cb_ops ops w1) as [ress w2]. simpl in *.
    exists (ev1 ++ ev2), f2. split; [by eapply run_cons |]. split; [done |]. by rewrite Htr2, Htr1, app_assoc.
Qed.

Lemma Initialise_represents self ring ringBytes getPolicy context :
  0 <= ringBytes <= lenZ ring -> ringBytes + SOLIDSYSLOG_MAX_MESSAGE_SIZE + 2 <= SIZE_MAX ->
  let self := SolidSyslogCircularBuffer_Initialise self ring ringBytes getPolicy context in
  represents empty_fifo self /\
  configured_as (let '(f, c) := installed_policy getPolicy context in f c) ringBytes self.
Proof using.
  intros Hr Hm. unfold SolidSyslogCircularBuffer_Initialise, CircularBuffer_InstallDiscardPolicy, configured_as.
  destruct (installed_policy getPolicy context) as [p c]. split; [| done].
  split; try done. split; try done. apply straight; simpl; try done; lia.
Qed.
End refinement.

(** * What follows of the queue *)

Definition delivered_of (ress : list cb_result) : list bytes :=
  omap (fun r => match r with Delivered r => Some r | _ => None end) ress.
Definition written_of (ops : list cb_op) : list bytes :=
  omap (fun op => match op with OpWrite data size => Some (takeZ size data) | _ => None end) ops.

(** Records come out in the order they went in, each once. *)
Lemma fifo_run_order {W} capacity (policy_of : ST W Z) s ops ress ev s' :
  fifo_run capacity policy_of s ops ress ev s' ->
  sublist (delivered_of ress ++ f_queue (fst s')) (f_queue (fst s) ++ written_of ops).
Proof.
  induction 1 as [s | s op res ev1 s1 ops ress ev2 s2 Hstep _ IH]; simpl; [by rewrite app_nil_r |].
  destruct Hstep as [f w data size o f' Hs Hw | f w data size Hs | f w data maxSize r q Eq Hl | f w data maxSize Eq | f w data maxSize r q Eq Hl | f w];
    simpl in *.
  - etransitivity; [exact IH |]. inversion Hw; subst; simpl; rewrite <- ?app_assoc; simpl.
    + done.
    + rewrite H. rewrite <- app_assoc. apply sublist_inserts_l. done.
    + apply sublist_app; [done |]. by apply sublist_cons.
  - etransitivity; [exact IH |]. apply sublist_app; [done |]. by apply sublist_cons.
  - rewrite Eq. simpl. by apply sublist_skip.
  - exact IH.
  - by rewrite Eq in *.
  - exact IH.
Qed.

(** Where the lock is held after the calls, [None] for a double lock or unlock or
    integrator code reached under it. *)
Fixpoint lock_state (locked : bool) (ev : list cb_event) : option bool :=
  match ev with
  | [] => Some locked
  | Locked :: ev => if locked then None else lock_state true ev
  | Unlocked :: ev => if locked then lock_state false ev else None
  | (PolicyAsked | Raised _) :: ev => if locked then None else lock_state false ev
  end.
Lemma lock_state_app ev ev' : lock_state false ev = Some false -> lock_state false (ev ++ ev') = lock_state false ev'.
Proof.
  generalize false at 1 3 as b. induction ev as [|e ev IH]; intros b H; simpl in *; [by injection H as -> |].
  destruct e, b; try done; by apply IH.
Qed.
Lemma fifo_run_locks {W} capacity (policy_of : ST W Z) s ops ress ev s' :
  fifo_run capacity policy_of s ops ress ev s' -> lock_state false ev = Some false.
Proof.
  induction 1 as [s | s op res ev1 s1 ops ress ev2 s2 Hstep _ IH]; [done |].
  rewrite lock_state_app; [done |]. destruct Hstep; try done.
  - by destruct o, (f_last f).
  - by destruct (f_too_large f).
Qed.

(** * Properties *)

(** C34. The circular buffer is a queue.  For any ring of memory, any capacity and
    any policy function, every sequence of writes, reads and full-queries on a
    newly initialised buffer behaves as the abstract queue [fifo]: same results,
    same reports (one for each run of losses), same questions to the policy; a
    record is dropped only by the policy Oldest, and refused only by the other
    policies or when it is larger than the ring; and the records delivered,
    followed by those still queued, are a subsequence of those written: none
    changed, repeated or out of order. *)
Theorem ring_refines_fifo {W} (self : @SolidSyslogCircularBuffer W) (ring : bytes) (ringBytes : Z)
    (getPolicy : option (SolidSyslogDiscardPolicyFunction W)) (context : option Z) (env : W) (ops : list cb_op) :
  0 <= ringBytes <= lenZ ring -> ringBytes + SOLIDSYSLOG_MAX_MESSAGE_SIZE + 2 <= SIZE_MAX -> Forall cb_op_ok ops ->
  let w := mkCbWorld (SolidSyslogCircularBuffer_Initialise self ring ringBytes getPolicy context) env [] in
  let '(results, w') := run_cb_ops ops w in
  exists f', fifo_run ringBytes (let '(f, c) := installed_policy getPolicy context in f c) (empty_fifo, env) ops results
      (cw_Trace w') (f', cw_Env w') /\
    represents f' (cw_Buffer w') /\ sublist (delivered_of results ++ f_queue f') (written_of ops).
Proof.
  intros Hr Hm Hok w. destruct (Initialise_represents self ring ringBytes getPolicy context Hr Hm) as [Hrep Hconf].
  destruct (run_refines _ ringBytes ops empty_fifo w Hrep Hconf Hok) as (ev & f' & Hrun & Hrep' & Htr).
  destruct (run_cb_ops ops w) as [results w']. simpl in Htr. rewrite Htr. exists f'. split; [done |]. split; [done |].
  apply (fifo_run_order _ _ _ _ _ _ _ Hrun).
Qed.

Definition example_buffer : @SolidSyslogCircularBuffer Z :=
  mkCircularBuffer NullBufferVtable [] 0 0 0 0 SolidSyslogDiscardPolicy_Default None true true true true.
(** Newest three times, then Oldest. *)
Definition example_policy : SolidSyslogDiscardPolicyFunction Z :=
  fun _ env => (if env <=? 0 then SOLIDSYSLOG_DISCARD_POLICY_OLDEST else SOLIDSYSLOG_DISCARD_POLICY_NEWEST, env - 1).
Definition example_ops : list cb_op :=
  [OpWrite (str "ab") 2; OpWrite (str "cde") 3; OpRead (repeat 0 8) 8; OpWrite (str "f") 1; OpWrite (str "ghij") 4; OpIsFull;
   OpRead (repeat 0 8) 8].
Definition example_world : @cb_world Z :=
  mkCbWorld (SolidSyslogCircularBuffer_Initialise example_buffer (repeat 7 12) 12 (Some example_policy) None) 3 [].
(** The third write wraps to the start of the ring; the fourth evicts. *)
Example example_results :
  fst (run_cb_ops example_ops example_world) =
  [Wrote; Wrote; Delivered (str "ab"); Wrote; Wrote; Full true; Delivered (str "f")].
Proof. vm_compute. reflexivity. Qed.

Lemma ring_refines_fifo_witness :
  let '(results, w') := run_cb_ops example_ops example_world in
  exists f', fifo_run 12 (example_policy None) (empty_fifo, 3) example_ops results (cw_Trace w') (f', cw_Env w') /\
    represents f' (cw_Buffer w') /\ sublist (delivered_of results ++ f_queue f') (written_of example_ops).
Proof.
  apply (ring_refines_fifo example_buffer (repeat 7 12) 12 (Some example_policy) None 3 example_ops).
  - split; discriminate.
  - discriminate.
  - unfold example_ops. repeat (apply Forall_cons_2; [first [exact I | split; discriminate] |]). apply Forall_nil_2.
Defined.

(** No integrator code runs under the buffer's lock: through any sequence of
    calls, the lock is taken and released in turn, is free at the end, and every
    question to the policy and every report is made while it is free, so a policy
    or an error handler that logs again cannot deadlock. *)
Theorem ring_calls_out_unlocked {W} (self : @SolidSyslogCircularBuffer W) (ring : bytes) (ringBytes : Z)
    (getPolicy : option (SolidSyslogDiscardPolicyFunction W)) (context : option Z) (env : W) (ops : list cb_op) :
  0 <= ringBytes <= lenZ ring -> ringBytes + SOLIDSYSLOG_MAX_MESSAGE_SIZE + 2 <= SIZE_MAX -> Forall cb_op_ok ops ->
  let w := mkCbWorld (SolidSyslogCircularBuffer_Initialise self ring ringBytes getPolicy context) env [] in
  lock_state false (cw_Trace (snd (run_cb_ops ops w))) = Some false.
Proof.
  intros Hr Hm Hok w. destruct (Initialise_represents self ring ringBytes getPolicy context Hr Hm) as [Hrep Hconf].
  destruct (run_refines _ ringBytes ops empty_fifo w Hrep Hconf Hok) as (ev & f' & Hrun & _ & ->).
  apply (fifo_run_locks _ _ _ _ _ _ _ Hrun).
Qed.
Lemma ring_calls_out_unlocked_witness : lock_state false (cw_Trace (snd (run_cb_ops example_ops example_world))) = Some false.
Proof.
  apply (ring_calls_out_unlocked example_buffer (repeat 7 12) 12 (Some example_policy) None 3 example_ops).
  - split; discriminate.
  - discriminate.
  - unfold example_ops. repeat (apply Forall_cons_2; [first [exact I | split; discriminate] |]). apply Forall_nil_2.
Defined.
