(* ===== verification/Policies.v ===== *)
(** The unkeyed security policies: CRC-16/CCITT-FALSE ([SolidSyslogCrc16.c]), the
    checksum policy built on it ([SolidSyslogCrc16Policy.c]) and the pass-through
    ([SolidSyslogNullSecurityPolicy.c]).  The bit loop is proved to be polynomial
    division, so a sealed record is never rejected and a damaged one of the kinds a
    CRC is chosen for always is. *)
From S2P Require Import Prelude Interfaces.

(** * CRC-16 *)

Definition CRC16_CCITT_INIT : Z := 0xFFFF.
Definition CRC16_CCITT_POLY : Z := 0x1021.
Definition MSB_MASK : Z := 0x8000.

(** One turn of the inner loop, and one of the outer. *)
Definition Crc16_bit (crc : Z) : Z :=
  if negb (Z.land crc MSB_MASK =? 0)
  then u16 (Z.lxor (Z.shiftl crc 1) CRC16_CCITT_POLY)
  else u16 (Z.shiftl crc 1).
Definition Crc16_byte (data : bytes) (i crc : Z) : Z :=
  let crc := Z.lxor crc (u16 (Z.shiftl data.[i] 8)) in
  for_range 0 8 (fun _ => Crc16_bit) crc.
Definition SolidSyslogCrc16_Compute (data : bytes) (length : Z) : Z :=
  for_range 0 length (Crc16_byte data) CRC16_CCITT_INIT.

(** * The policies *)

Definition CRC16_SIZE : Z := 2.

Definition Crc16Policy_Crc16SealRecord (record : SolidSyslogSecurityRecord) : bool * SolidSyslogSecurityRecord :=
  let crc := SolidSyslogCrc16_Compute (sr_Content record) (lenZ (sr_Content record)) in
  let trailer := updZ (sr_Trailer record) 0 (u8 (Z.shiftr crc 8)) in
  let trailer := updZ trailer 1 (u8 (Z.land crc 0xFF)) in
  (true, mkSecurityRecord (sr_Content record) (sr_HeaderLength record) trailer).

Definition Crc16Policy_Crc16OpenRecord (record : SolidSyslogSecurityRecord) : SolidSyslogSecurityPolicyOpenResult * SolidSyslogSecurityRecord :=
  let crc := SolidSyslogCrc16_Compute (sr_Content record) (lenZ (sr_Content record)) in
  let expected := u16 (Z.lor (u16 (Z.shiftl (sr_Trailer record).[0] 8)) (sr_Trailer record).[1]) in
  (if crc =? expected then SOLIDSYSLOG_SECURITY_POLICY_OPEN_OPENED else SOLIDSYSLOG_SECURITY_POLICY_OPEN_REJECTED, record).

Inductive SolidSyslogCrc16Policy := Crc16Policy.
#[export] Instance Crc16Policy_vtable : SecurityPolicy SolidSyslogCrc16Policy := {
  sp_TrailerSize := CRC16_SIZE;
  sp_SealRecord := fun record => st_ret (Crc16Policy_Crc16SealRecord record);
  sp_OpenRecord := fun record => st_ret (Crc16Policy_Crc16OpenRecord record)
}.

Definition NullSecurityPolicy_NullSealRecord (record : SolidSyslogSecurityRecord) : bool * SolidSyslogSecurityRecord := (true, record).
Definition NullSecurityPolicy_NullOpenRecord (record : SolidSyslogSecurityRecord) : SolidSyslogSecurityPolicyOpenResult * SolidSyslogSecurityRecord :=
  (SOLIDSYSLOG_SECURITY_POLICY_OPEN_OPENED, record).

Inductive SolidSyslogNullSecurityPolicy := NullSecurityPolicy.
#[export] Instance NullSecurityPolicy_vtable : SecurityPolicy SolidSyslogNullSecurityPolicy := {
  sp_TrailerSize := 0;
  sp_SealRecord := fun record => st_ret (NullSecurityPolicy_NullSealRecord record);
  sp_OpenRecord := fun record => st_ret (NullSecurityPolicy_NullOpenRecord record)
}.

(** * CRC-16 is linear *)

Definition is_u16 (x : Z) : Prop := 0 <= x < 65536.

Lemma lxor_u16 a b : is_u16 a -> is_u16 b -> is_u16 (Z.lxor a b).
Proof. intros. apply (lxor_below 16); lia || done. Qed.
Lemma u16_lxor a b : u16 (Z.lxor a b) = Z.lxor (u16 a) (u16 b).
Proof. unfold u16. rewrite <- !Z.land_ones by lia. apply Z.bits_inj'. intros n Hn.
  rewrite !Z.lxor_spec, !Z.land_spec, Z.lxor_spec. by destruct (Z.testbit a n), (Z.testbit b n), (Z.testbit (Z.ones 16) n). Qed.

Lemma bit_form crc : is_u16 crc ->
  Crc16_bit crc = Z.lxor (u16 (Z.shiftl crc 1)) (if Z.testbit crc 15 then CRC16_CCITT_POLY else 0).
Proof.
  intros Hc. unfold Crc16_bit. assert (E : (Z.land crc MSB_MASK =? 0) = negb (Z.testbit crc 15)).
  { change MSB_MASK with (2 ^ 15). destruct (Z.testbit crc 15) eqn:Eb; simpl.
    - apply Z.eqb_neq. intros H. apply (f_equal (fun x => Z.testbit x 15)) in H.
      rewrite Z.land_spec, Eb, Z.pow2_bits_true in H by lia. done.
    - apply Z.eqb_eq, Z.bits_inj'. intros n Hn. rewrite Z.land_spec, Z.bits_0.
      destruct (Z.eq_dec n 15) as [-> |]; [by rewrite Eb | rewrite Z.pow2_bits_false by lia; apply andb_false_r]. }
  rewrite E, negb_involutive. destruct (Z.testbit crc 15); [by rewrite u16_lxor | by rewrite Z.lxor_0_r].
Qed.
Lemma bit_u16 crc : is_u16 crc -> is_u16 (Crc16_bit crc).
Proof. intros _. unfold Crc16_bit. destruct_bool_step; apply u16_range. Qed.
Lemma bit_lxor a b : is_u16 a -> is_u16 b -> Crc16_bit (Z.lxor a b) = Z.lxor (Crc16_bit a) (Crc16_bit b).
Proof.
  intros Ha Hb. rewrite !bit_form by (try done; by apply lxor_u16).
  rewrite Z.shiftl_lxor, u16_lxor, Z.lxor_spec. apply Z.bits_inj'. intros n Hn. rewrite !Z.lxor_spec.
  destruct (Z.testbit a 15), (Z.testbit b 15); simpl; rewrite ?Z.bits_0;
    destruct (Z.testbit (u16 (Z.shiftl a 1)) n), (Z.testbit (u16 (Z.shiftl b 1)) n), (Z.testbit CRC16_CCITT_POLY n); done.
Qed.
(** The generator ends in 1, so no bit is lost. *)
Lemma bit_zero a : is_u16 a -> Crc16_bit a = 0 -> a = 0.
Proof.
  intros Ha H. rewrite bit_form in H by done. unfold is_u16 in Ha.
  apply Z.lxor_eq in H. unfold u16 in H. rewrite Z.shiftl_mul_pow2 in H by lia.
  destruct (Z.testbit a 15) eqn:E.
  - exfalso. unfold CRC16_CCITT_POLY in H. change (2 ^ 1) with 2 in H. change (2 ^ 16) with 65536 in H.
    Z.to_euclidean_division_equations. lia.
  - assert (a < 32768).
    { destruct (Z.lt_ge_cases a 32768) as [| Hge]; [done | exfalso].
      rewrite Z.testbit_eqb in E by lia. change (2 ^ 15) with 32768 in E.
      assert (a / 32768 = 1) as Eq by (Z.to_euclidean_division_equations; lia). rewrite Eq in E. done. }
    change (2 ^ 1) with 2 in H. change (2 ^ 16) with 65536 in H. rewrite Z.mod_small in H by lia. lia.
Qed.

(** Eight turns: one byte shifted through. *)
Definition crc_shift (crc : Z) : Z := for_range 0 8 (fun _ => Crc16_bit) crc.
Lemma crc_shift_u16 a : is_u16 a -> is_u16 (crc_shift a).
Proof. intros Ha. apply (for_range_inv (fun _ x => is_u16 x)); [lia | done |]. intros. by apply bit_u16. Qed.
Lemma crc_shift_lxor a b : is_u16 a -> is_u16 b -> crc_shift (Z.lxor a b) = Z.lxor (crc_shift a) (crc_shift b).
Proof.
  intros Ha Hb. unfold crc_shift, for_range. change (Z.to_nat (8 - 0)) with 8%nat. cbn [for_from].
  rewrite !bit_lxor; repeat first [apply bit_u16 | done]. 
Qed.
Lemma crc_shift_zero a : is_u16 a -> crc_shift a = 0 -> a = 0.
Proof.
  intros Ha. unfold crc_shift, for_range. change (Z.to_nat (8 - 0)) with 8%nat. cbn [for_from]. intros H.
  repeat (apply bit_zero in H; [| repeat apply bit_u16; done]). exact H.
Qed.

Definition crc_step (crc b : Z) : Z := crc_shift (Z.lxor crc (Z.shiftl b 8)).
Lemma byte_u16 b : is_byte b -> is_u16 (Z.shiftl b 8) /\ u16 (Z.shiftl b 8) = Z.shiftl b 8.
Proof.
  unfold is_byte, is_u16. intros Hb. rewrite Z.shiftl_mul_pow2 by lia. split; [lia |]. apply u16_small. lia.
Qed.
Lemma lxor_byte a b : is_byte a -> is_byte b -> is_byte (Z.lxor a b).
Proof.
  intros Ha Hb. unfold is_byte in *. pose proof (lxor_u16 (Z.shiftl a 8) (Z.shiftl b 8)) as H.
  rewrite <- Z.shiftl_lxor in H. rewrite !Z.shiftl_mul_pow2 in H by lia. unfold is_u16 in H.
  specialize (H ltac:(lia) ltac:(lia)). lia.
Qed.
Lemma crc_step_u16 crc b : is_u16 crc -> is_byte b -> is_u16 (crc_step crc b).
Proof. intros Hc Hb. apply crc_shift_u16, lxor_u16; [done | by apply byte_u16]. Qed.

Lemma Compute_fold data : all_bytes data ->
  SolidSyslogCrc16_Compute data (lenZ data) = fold_left crc_step data CRC16_CCITT_INIT.
Proof.
  intros Hb. unfold SolidSyslogCrc16_Compute, Crc16_byte.
  rewrite (for_range_fold (fun b crc => for_range 0 8 (fun _ => Crc16_bit) (Z.lxor crc (u16 (Z.shiftl b 8))))).
  generalize CRC16_CCITT_INIT. induction Hb as [|b data Hb _ IH]; intros c; simpl; [done |].
  rewrite IH. unfold crc_step, crc_shift. by rewrite (proj2 (byte_u16 b Hb)).
Qed.
Lemma fold_u16 data : all_bytes data -> forall c, is_u16 c -> is_u16 (fold_left crc_step data c).
Proof. induction 1 as [|b data Hb _ IH]; intros c Hc; simpl; [done |]. by apply IH, crc_step_u16. Qed.

Lemma init_u16 : is_u16 CRC16_CCITT_INIT.
Proof. split; [discriminate | reflexivity]. Qed.
Ltac crc_u16 := repeat first [assumption | apply crc_step_u16].

(** The difference of two states after the same bytes: never lost. *)
Lemma step_diff c c' b b' : is_u16 c -> is_u16 c' -> is_byte b -> is_byte b' ->
  Z.lxor (crc_step c b) (crc_step c' b') = crc_step (Z.lxor c c') (Z.lxor b b').
Proof.
  intros Hc Hc' Hb Hb'. pose proof (byte_u16 b Hb) as [H1 _]. pose proof (byte_u16 b' Hb') as [H2 _]. unfold crc_step.
  rewrite <- crc_shift_lxor by (by apply lxor_u16). f_equal. rewrite Z.shiftl_lxor.
  rewrite !Z.lxor_assoc. f_equal. rewrite <- !Z.lxor_assoc. f_equal. apply Z.lxor_comm.
Qed.
Lemma fold_diff data : all_bytes data -> forall c c', is_u16 c -> is_u16 c' ->
  fold_left crc_step data c = fold_left crc_step data c' -> c = c'.
Proof.
  induction 1 as [|b data Hb _ IH]; intros c c' Hc Hc' H; simpl in *; [done |].
  apply IH in H; [| by apply crc_step_u16 | by apply crc_step_u16].
  assert (E : crc_step (Z.lxor c c') (Z.lxor b b) = 0) by (rewrite <- step_diff by done; rewrite H; apply Z.lxor_nilpotent).
  rewrite Z.lxor_nilpotent in E. unfold crc_step in E. rewrite Z.shiftl_0_l, Z.lxor_0_r in E.
  apply crc_shift_zero in E; [by apply Z.lxor_eq | by apply lxor_u16].
Qed.

(** A change within two adjacent bytes leaves a difference. *)
Lemma low_byte_kept e : is_byte e -> crc_step 0 e mod 256 = 0 -> e = 0.
Proof.
  intros He H. assert (Hall : forall_bytes (fun e => negb (crc_step 0 e mod 256 =? 0) || (e =? 0)) = true) by (vm_compute; reflexivity).
  pose proof (forall_bytes_spec _ e Hall He) as Hk. cbv beta in Hk. rewrite H in Hk. clear H Hall.
  rewrite Z.eqb_refl in Hk. by apply Z.eqb_eq in Hk.
Qed.
Lemma crc_step_zero : crc_step 0 0 = 0.
Proof. vm_compute. reflexivity. Qed.
#[local] Opaque crc_shift.
Lemma two_bytes_diff e1 e2 : is_byte e1 -> is_byte e2 -> crc_step (crc_step 0 e1) e2 = 0 -> e1 = 0 /\ e2 = 0.
Proof.
  intros H1 H2 H. pose proof (byte_u16 e1 H1) as [Hu1 _]. pose proof (byte_u16 e2 H2) as [Hu2 _].
  unfold crc_step in H at 1. apply crc_shift_zero in H; [| apply lxor_u16; [by apply crc_step_u16 | done]].
  apply Z.lxor_eq in H. rewrite Z.shiftl_mul_pow2 in H by lia.
  assert (e1 = 0) as ->.
  { apply low_byte_kept; [done |]. rewrite H. change (2 ^ 8) with 256. apply Z.mod_mul. lia. }
  split; [done |]. rewrite crc_step_zero in H. lia.
Qed.

#[local] Opaque crc_step.
Lemma crc_detects pre a1 a2 b1 b2 post :
  all_bytes (pre ++ [a1; a2] ++ post) -> is_byte b1 -> is_byte b2 -> (a1, a2) <> (b1, b2) ->
  fold_left crc_step (pre ++ [a1; a2] ++ post) CRC16_CCITT_INIT <> fold_left crc_step (pre ++ [b1; b2] ++ post) CRC16_CCITT_INIT.
Proof.
  intros Hall Hb1 Hb2 Hne E. apply Forall_app in Hall as [Hpre Hall]. apply Forall_app in Hall as [Ha Hpost].
  apply Forall_cons_1 in Ha as [Ha1 Ha]. apply Forall_cons_1 in Ha as [Ha2 _].
  rewrite !fold_left_app in E. set (c := fold_left crc_step pre CRC16_CCITT_INIT) in *.
  assert (Hc : is_u16 c) by (apply fold_u16; [exact Hpre | exact init_u16]). cbn [fold_left app] in E.
  apply fold_diff in E; [| exact Hpost | crc_u16 | crc_u16].
  assert (E' : Z.lxor (crc_step (crc_step c a1) a2) (crc_step (crc_step c b1) b2) = 0) by (rewrite E; apply Z.lxor_nilpotent).
  rewrite !step_diff in E' by crc_u16. rewrite Z.lxor_nilpotent in E'.
  apply two_bytes_diff in E' as [E1 E2]; [| by apply lxor_byte | by apply lxor_byte].
  apply Z.lxor_eq in E1. apply Z.lxor_eq in E2. congruence.
Qed.

#[local] Transparent crc_step crc_shift.

(** * The policies keep their promises *)

Lemma two_cells (t : bytes) : lenZ t = 2 -> exists x y, t = [x; y].
Proof. unfold lenZ. destruct t as [|x [|y [|z t]]]; simpl; intros; try lia. by exists x, y. Qed.
Lemma crc_trailer crc t :
  is_u16 crc -> lenZ t = CRC16_SIZE ->
  let t' := updZ (updZ t 0 (u8 (Z.shiftr crc 8))) 1 (u8 (Z.land crc 0xFF)) in
  t' = [crc / 256; crc mod 256] /\ u16 (Z.lor (u16 (Z.shiftl t'.[0] 8)) t'.[1]) = crc.
Proof.
  unfold is_u16, CRC16_SIZE. intros Hc Ht. destruct (two_cells t Ht) as (x & y & ->).
  cbv zeta. rewrite le16_low by lia.
  assert (E : u8 (Z.shiftr crc 8) = crc / 256).
  { rewrite Z.shiftr_div_pow2 by lia. apply u8_small. split; [apply Z.div_pos; lia | apply Z.div_lt_upper_bound; lia]. }
  rewrite E. change (updZ (updZ [x; y] 0 (crc / 256)) 1 (crc mod 256)) with [crc / 256; crc mod 256].
  split; [done |]. change ([crc / 256; crc mod 256].[0]) with (crc / 256). change ([crc / 256; crc mod 256].[1]) with (crc mod 256).
  assert (Hd : 0 <= crc / 256 < 256) by (split; [apply Z.div_pos; lia | apply Z.div_lt_upper_bound; lia]).
  rewrite (proj2 (byte_u16 _ Hd)), Z.lor_comm.
  pose proof (le16_read (crc mod 256) (crc / 256) ltac:(apply Z.mod_pos_bound; lia) Hd) as HL.
  rewrite (Z.mod_small (Z.shiftl _ 8)) in HL by (rewrite Z.shiftl_mul_pow2 by lia; lia).
  rewrite HL. pose proof (Z.div_mod crc 256 ltac:(lia)). rewrite u16_small by lia. lia.
Qed.

#[export] Program Instance Crc16Policy_spec : SecurityPolicySpec SolidSyslogCrc16Policy.
Next Obligation. done. Qed.
Next Obligation. intros [c h t] p Ht. unfold same_shape. simpl in *. by rewrite !lenZ_updZ. Qed.
Next Obligation.
  intros [c h t] [] Ht Hb _. cbn [fst snd sp_SealRecord Crc16Policy_vtable st_ret Crc16Policy_Crc16SealRecord sr_Content sr_Trailer] in *.
  split; [exact Hb |]. cbn [sp_TrailerSize Crc16Policy_vtable] in Ht. unfold CRC16_SIZE, lenZ in Ht.
  destruct t as [| t0 [| t1 [| ]]]; simpl in Ht; try lia. repeat (apply Forall_cons_2; [apply u8_range |]). apply Forall_nil_2.
Qed.
Next Obligation. done. Qed.
Next Obligation.
  intros [c h t] [] [] Ht Hb _. simpl in *. unfold Crc16Policy_Crc16OpenRecord. simpl. rewrite Compute_fold by done.
  destruct (crc_trailer (fold_left crc_step c CRC16_CCITT_INIT) t) as [_ E]; [apply fold_u16; [done | exact init_u16] | done |].
  cbv zeta in E. rewrite E, Z.eqb_refl. done.
Qed.

#[export] Program Instance NullSecurityPolicy_spec : SecurityPolicySpec SolidSyslogNullSecurityPolicy.
Next Obligation. done. Qed.
Next Obligation. done. Qed.
Next Obligation.
  intros [c h t] [] Ht Hb _. split; [exact Hb |]. simpl in *. destruct t; [apply Forall_nil_2 |]. rewrite lenZ_cons in Ht.
  pose proof (lenZ_nonneg t). lia.
Qed.
Next Obligation. done. Qed.
Next Obligation. done. Qed.

(** * Properties *)

(** The checksum does its work.  A record sealed by the CRC-16 policy is opened
    again; and when, between the two, any change was made that lies within two
    adjacent bytes of the content (up to sixteen damaged bits in a row of bytes,
    magic and length among them), it is rejected, and nothing of it is written. *)
Theorem Crc16_rejects_damage (pre post : bytes) (a1 a2 b1 b2 header : Z) (trailer : bytes) :
  all_bytes (pre ++ [a1; a2] ++ post) -> is_byte b1 -> is_byte b2 -> lenZ trailer = CRC16_SIZE ->
  let '(sealed, record) := Crc16Policy_Crc16SealRecord (mkSecurityRecord (pre ++ [a1; a2] ++ post) header trailer) in
  let stored := mkSecurityRecord (pre ++ [b1; b2] ++ post) header (sr_Trailer record) in
  sealed = true /\ sr_Content record = pre ++ [a1; a2] ++ post /\ snd (Crc16Policy_Crc16OpenRecord stored) = stored /\
  fst (Crc16Policy_Crc16OpenRecord stored) =
    if bool_decide ((a1, a2) = (b1, b2)) then SOLIDSYSLOG_SECURITY_POLICY_OPEN_OPENED else SOLIDSYSLOG_SECURITY_POLICY_OPEN_REJECTED.
Proof.
  intros Hall Hb1 Hb2 Ht. unfold Crc16Policy_Crc16SealRecord, Crc16Policy_Crc16OpenRecord. cbn [sr_Content sr_Trailer fst snd].
  assert (Hall' : all_bytes (pre ++ [b1; b2] ++ post)).
  { apply Forall_app in Hall as [Hp Hall]. apply Forall_app in Hall as [_ Hq]. apply Forall_app. split; [done |].
    repeat (apply Forall_cons_2; [done |]). done. }
  rewrite !Compute_fold by done.
  destruct (crc_trailer (fold_left crc_step (pre ++ [a1; a2] ++ post) CRC16_CCITT_INIT) trailer) as [_ E];
    [apply fold_u16; [done | exact init_u16] | done |].
  cbv zeta in E. rewrite E. split_and!; try done.
  case_bool_decide as Eq; [injection Eq as -> ->; by rewrite Z.eqb_refl |].
  pose proof (crc_detects pre a1 a2 b1 b2 post Hall Hb1 Hb2 Eq) as Hne.
  destruct (Z.eqb_spec (fold_left crc_step (pre ++ [b1; b2] ++ post) CRC16_CCITT_INIT)
    (fold_left crc_step (pre ++ [a1; a2] ++ post) CRC16_CCITT_INIT)); [congruence | done].
Qed.

(** The catalogue's check value, and a flipped pair of digits. *)
Example Crc16_check : SolidSyslogCrc16_Compute (str "123456789") 9 = 0x29B1.
Proof. vm_compute. reflexivity. Qed.

Lemma Crc16_rejects_damage_witness :
  let '(sealed, record) := Crc16Policy_Crc16SealRecord (mkSecurityRecord (str "12" ++ [0x33; 0x34] ++ str "56789") 4 [0; 0]) in
  let stored := mkSecurityRecord (str "12" ++ [0x34; 0x33] ++ str "56789") 4 (sr_Trailer record) in
  sealed = true /\ sr_Content record = str "12" ++ [0x33; 0x34] ++ str "56789" /\ snd (Crc16Policy_Crc16OpenRecord stored) = stored /\
  fst (Crc16Policy_Crc16OpenRecord stored) =
    if bool_decide ((0x33, 0x34) = (0x34, 0x33)) then SOLIDSYSLOG_SECURITY_POLICY_OPEN_OPENED else SOLIDSYSLOG_SECURITY_POLICY_OPEN_REJECTED.
Proof.
  apply (Crc16_rejects_damage (str "12") (str "56789") 0x33 0x34 0x34 0x33 4 [0; 0]).
  - simpl. repeat (apply Forall_cons_2; [split; [discriminate | reflexivity] |]). apply Forall_nil_2.
  - split; [discriminate | reflexivity].
  - split; [discriminate | reflexivity].
  - reflexivity.
Defined.
