(* ===== verification/KeyedPolicies.v ===== *)
(** The keyed security policies: AES-256-GCM and HMAC-SHA256, which the mbedTLS,
    OpenSSL and wolfSSL adapters implement alike
    ([src/Platform/{MbedTls,OpenSsl,WolfSsl}/Source/SolidSyslog*{AesGcm,HmacSha256}Policy.c]).
    Here is what the three have in common: the key that is fetched for each record and
    wiped, the faults reported once per run, and the layout of nonce, body and tag; the
    calls of each library are in [CryptoBackends].  What a library computes is given by
    a scheme, [gcm_scheme] or [mac_scheme], with its standard's laws. *)
From S2P Require Import Prelude Errors PendingEvents Interfaces.

(** * A policy in its environment *)

Section keyed_world.
Context {W : Type}.

(** The integrator's callback: whether it worked, the caller's buffer as it leaves it
    and the length it reports. *)
Definition SolidSyslogKeyFunction : Type := option Z -> Z -> ST W (bool * bytes * Z).

(** [kc_Rng] is the address of the generator, in the configurations that have one. *)
Record keyed_config := mkKeyedConfig {
  kc_GetKey : SolidSyslogKeyFunction;
  kc_KeyContext : option Z;
  kc_Rng : Z
}.
Record keyed_policy := mkKeyedPolicy { kp_Config : keyed_config; kp_FaultReported : bool }.
#[export] Instance settable_keyed_policy : Settable keyed_policy := fun p => mkKeyedPolicy (kp_Config p) (kp_FaultReported p).

(** Seen from outside: the key asked for, with the size of the buffer, and what the
    callback answers; how the nonce, the sealing or tagging, and the opening came out;
    the key's buffer wiped; a context of the library taken and given back; a fault
    reported. *)
Inductive keyed_event :=
| KeyAsked (capacity : Z)
| KeyAnswered (ok : bool) (keyLength : Z)
| NonceDrawn (ok : bool)
| LibraryRan (ok : bool)
| Decrypted (result : SolidSyslogSecurityPolicyOpenResult)
| KeyWiped (size : Z)
| ContextMade
| ContextFreed
| Reported (event : SolidSyslogErrorEvent).

Record keyed_world := mkKeyedWorld { kw_Self : keyed_policy; kw_Env : W; kw_Trace : list keyed_event }.
#[export] Instance settable_keyed_world : Settable keyed_world := fun w => mkKeyedWorld (kw_Self w) (kw_Env w) (kw_Trace w).

Definition keyed_happens (e : keyed_event) : ST keyed_world unit := st_mod (fun w => w <| kw_Trace := kw_Trace w ++ [e] |>).
Definition in_env {A} (m : ST W A) : ST keyed_world A := zoom kw_Env (fun e w => w <| kw_Env := e |>) m.
Definition set_fault_reported (b : bool) : ST keyed_world unit :=
  st_mod (fun w => w <| kw_Self := (kw_Self w) <| kp_FaultReported := b |> |>).

(** [&&] between calls that work on the memory [A]: the second only if the first worked. *)
Definition and_then {S A} (m k : A -> ST S (bool * A)) : A -> ST S (bool * A) :=
  fun a => let! r := m a in if fst r then k (snd r) else st_ret (false, snd r).
End keyed_world.
Arguments SolidSyslogKeyFunction : clear implicits.
Arguments keyed_config : clear implicits.
Arguments keyed_policy : clear implicits.
Arguments keyed_world : clear implicits.
Notation "m '&&!' k" := (and_then m k) (at level 60, right associativity) : c_scope.

(** * Faults, once per run *)

Section faults.
Context {W : Type} `{ErrorTap W} (source : SolidSyslogErrorSource).

Definition KeyedPolicy_Report (severity category code : Z) : ST (keyed_world W) unit :=
  in_env (st_mod (tap_error severity (Some source) category code)) ;;;
  keyed_happens (Reported (error_event severity source category code)).
Definition KeyedPolicy_ReportFault (category code : Z) : ST (keyed_world W) unit :=
  let! self := st_get kw_Self in
  if! negb (kp_FaultReported self) then
    KeyedPolicy_Report SOLIDSYSLOG_SEVERITY_ERROR category code ;;;
    set_fault_reported true
  end!.
End faults.

(** * AES-256-GCM *)

Definition AES_256_KEY_SIZE : Z := 32.
Definition AES_256_KEY_BITS : Z := 256.
Definition GCM_NONCE_SIZE : Z := 12.
Definition GCM_TAG_SIZE : Z := 16.
Definition AES_GCM_TRAILER_SIZE : Z := GCM_NONCE_SIZE + GCM_TAG_SIZE.

(** The body, and the length the library is given for it. *)
Definition record_body (record : SolidSyslogSecurityRecord) : bytes := dropZ (sr_HeaderLength record) (sr_Content record).
Definition record_body_length (record : SolidSyslogSecurityRecord) : Z := u16 (lenZ (sr_Content record) - sr_HeaderLength record).
(** The record with its body, or the trailer from an offset, written over. *)
Definition with_body (body : bytes) (record : SolidSyslogSecurityRecord) : SolidSyslogSecurityRecord :=
  record <| sr_Content := takeZ (sr_HeaderLength record) (sr_Content record) ++ body |>.
Definition with_trailer_at (offset : Z) (bs : bytes) (record : SolidSyslogSecurityRecord) : SolidSyslogSecurityRecord :=
  record <| sr_Trailer := spliceZ (sr_Trailer record) offset bs |>.

Section aes_gcm.
Context {W : Type} `{ErrorTap W} (source : SolidSyslogErrorSource).
(** What the library does: a nonce drawn into the area given, with the address of the
    generator, then one sealing and one opening in place. *)
Context (DrawNonce : Z -> bytes -> ST W (bool * bytes)).
Context (GcmEncrypt : SolidSyslogSecurityRecord -> bytes -> ST (keyed_world W) (bool * SolidSyslogSecurityRecord)).
Context (GcmDecrypt : SolidSyslogSecurityRecord -> bytes -> ST (keyed_world W) (SolidSyslogSecurityPolicyOpenResult * SolidSyslogSecurityRecord)).

(** Answers with the buffer: the key, when it was fetched. *)
Definition AesGcmPolicy_FetchKey : ST (keyed_world W) (bool * bytes) :=
  let! self := st_get kw_Self in
  keyed_happens (KeyAsked AES_256_KEY_SIZE) ;;;
  let! got := in_env (kc_GetKey (kp_Config self) (kc_KeyContext (kp_Config self)) AES_256_KEY_SIZE) in
  let '(ok, key, keyLength) := got in
  keyed_happens (KeyAnswered ok keyLength) ;;;
  let fetched := ok && (keyLength =? AES_256_KEY_SIZE) in
  if! negb fetched then
    KeyedPolicy_ReportFault source SOLIDSYSLOG_CAT_SECURITY_POLICY_KEY_UNAVAILABLE SOLIDSYSLOG_AES_GCM_POLICY_ERROR_KEY_UNAVAILABLE
  end! ;;;
  st_ret (fetched, key).

(** Answers with the record as it was left in place. *)
Definition AesGcmPolicy_SealRecord (record : SolidSyslogSecurityRecord) : ST (keyed_world W) (bool * SolidSyslogSecurityRecord) :=
  let! fetched := AesGcmPolicy_FetchKey in
  let! result :=
    if fst fetched then
      let! self := st_get kw_Self in
      let! drawn := in_env (DrawNonce (kc_Rng (kp_Config self)) (takeZ GCM_NONCE_SIZE (sr_Trailer record))) in
      keyed_happens (NonceDrawn (fst drawn)) ;;;
      let record := with_trailer_at 0 (snd drawn) record in
      if fst drawn then
        let! encrypted := GcmEncrypt record (snd fetched) in
        keyed_happens (LibraryRan (fst encrypted)) ;;;
        if fst encrypted then
          set_fault_reported false ;;;
          st_ret (true, snd encrypted)
        else
          KeyedPolicy_ReportFault source SOLIDSYSLOG_CAT_SECURITY_POLICY_SEAL_FAILED SOLIDSYSLOG_AES_GCM_POLICY_ERROR_ENCRYPT_FAILED ;;;
          st_ret (false, snd encrypted)
      else
        KeyedPolicy_ReportFault source SOLIDSYSLOG_CAT_SECURITY_POLICY_SEAL_FAILED SOLIDSYSLOG_AES_GCM_POLICY_ERROR_NONCE_FAILED ;;;
        st_ret (false, record)
    else st_ret (false, record) in
  keyed_happens (KeyWiped AES_256_KEY_SIZE) ;;;
  st_ret result.

Definition AesGcmPolicy_OpenRecord (record : SolidSyslogSecurityRecord)
    : ST (keyed_world W) (SolidSyslogSecurityPolicyOpenResult * SolidSyslogSecurityRecord) :=
  let! fetched := AesGcmPolicy_FetchKey in
  let! result :=
    if fst fetched then
      let! decrypted := GcmDecrypt record (snd fetched) in
      keyed_happens (Decrypted (fst decrypted)) ;;;
      match fst decrypted with
      | SOLIDSYSLOG_SECURITY_POLICY_OPEN_COULD_NOT_RUN =>
          KeyedPolicy_ReportFault source SOLIDSYSLOG_CAT_SECURITY_POLICY_OPEN_FAILED SOLIDSYSLOG_AES_GCM_POLICY_ERROR_DECRYPT_FAILED
      | _ => set_fault_reported false
      end ;;;
      st_ret decrypted
    else st_ret (SOLIDSYSLOG_SECURITY_POLICY_OPEN_COULD_NOT_RUN, record) in
  keyed_happens (KeyWiped AES_256_KEY_SIZE) ;;;
  st_ret result.

Definition AesGcmPolicy_Initialise (config : keyed_config W) (self : keyed_policy W) : keyed_policy W :=
  self <| kp_Config := config |> <| kp_FaultReported := false |>.
End aes_gcm.

(** * HMAC-SHA256 *)

Definition HMAC_SHA256_TAG_SIZE : Z := 32.
Definition HMAC_SHA256_MIN_KEY_SIZE : Z := 32.
(** The tunable's default. *)
Definition SOLIDSYSLOG_MAX_HMAC_KEY_SIZE : Z := 64.

Section hmac.
Context {W : Type} `{ErrorTap W} (source : SolidSyslogErrorSource).
(** The tag of the data, written into the area given: key and its length, data and its
    length, area. *)
Context (Hmac : bytes -> Z -> bytes -> Z -> bytes -> ST (keyed_world W) (bool * bytes)).
(** The uninitialised area on the stack that an opened record's tag is made in. *)
Context (uninitialised : bytes).

Definition HmacSha256Policy_KeyLengthIsValid (keyLength : Z) : bool :=
  (HMAC_SHA256_MIN_KEY_SIZE <=? keyLength) && (keyLength <=? SOLIDSYSLOG_MAX_HMAC_KEY_SIZE).

(** Answers with the buffer and [*keyLengthOut], zero unless the key was fetched. *)
Definition HmacSha256Policy_FetchKey : ST (keyed_world W) (bool * bytes * Z) :=
  let! self := st_get kw_Self in
  keyed_happens (KeyAsked SOLIDSYSLOG_MAX_HMAC_KEY_SIZE) ;;;
  let! got := in_env (kc_GetKey (kp_Config self) (kc_KeyContext (kp_Config self)) SOLIDSYSLOG_MAX_HMAC_KEY_SIZE) in
  let '(ok, key, keyLength) := got in
  keyed_happens (KeyAnswered ok keyLength) ;;;
  if ok then
    if HmacSha256Policy_KeyLengthIsValid keyLength then st_ret (true, key, keyLength)
    else
      KeyedPolicy_ReportFault source SOLIDSYSLOG_CAT_SECURITY_POLICY_KEY_UNAVAILABLE SOLIDSYSLOG_HMAC_SHA256_POLICY_ERROR_KEY_TOO_SHORT ;;;
      st_ret (false, key, 0)
  else
    KeyedPolicy_ReportFault source SOLIDSYSLOG_CAT_SECURITY_POLICY_KEY_UNAVAILABLE SOLIDSYSLOG_HMAC_SHA256_POLICY_ERROR_KEY_UNAVAILABLE ;;;
    st_ret (false, key, 0).

(** Answers with the area for the tag as it was left. *)
Definition HmacSha256Policy_ComputeTag (data : bytes) (length : Z) (tagOut : bytes) (failureCategory : Z) : ST (keyed_world W) (bool * bytes) :=
  let! fetched := HmacSha256Policy_FetchKey in
  let '(ok, key, keyLength) := fetched in
  let! result :=
    if ok then
      let! computed := Hmac key keyLength data length tagOut in
      keyed_happens (LibraryRan (fst computed)) ;;;
      (if fst computed then set_fault_reported false
       else KeyedPolicy_ReportFault source failureCategory SOLIDSYSLOG_HMAC_SHA256_POLICY_ERROR_HMAC_FAILED) ;;;
      st_ret computed
    else st_ret (false, tagOut) in
  keyed_happens (KeyWiped SOLIDSYSLOG_MAX_HMAC_KEY_SIZE) ;;;
  st_ret result.

Definition HmacSha256Policy_SealRecord (record : SolidSyslogSecurityRecord) : ST (keyed_world W) (bool * SolidSyslogSecurityRecord) :=
  let! computed := HmacSha256Policy_ComputeTag (sr_Content record) (lenZ (sr_Content record)) (sr_Trailer record) SOLIDSYSLOG_CAT_SECURITY_POLICY_SEAL_FAILED in
  st_ret (fst computed, record <| sr_Trailer := snd computed |>).

(** Constant time: every byte is compared. *)
Definition HmacSha256Policy_ConstantTimeEquals (a b : bytes) (length : Z) : bool :=
  for_range 0 length (fun index difference => u8 (Z.lor difference (u8 (Z.lxor a.[index] b.[index])))) 0 =? 0.

Definition HmacSha256Policy_OpenRecord (record : SolidSyslogSecurityRecord)
    : ST (keyed_world W) (SolidSyslogSecurityPolicyOpenResult * SolidSyslogSecurityRecord) :=
  let! computed := HmacSha256Policy_ComputeTag (sr_Content record) (lenZ (sr_Content record)) uninitialised SOLIDSYSLOG_CAT_SECURITY_POLICY_OPEN_FAILED in
  st_ret (
    if fst computed then
      if HmacSha256Policy_ConstantTimeEquals (snd computed) (sr_Trailer record) HMAC_SHA256_TAG_SIZE
      then SOLIDSYSLOG_SECURITY_POLICY_OPEN_OPENED else SOLIDSYSLOG_SECURITY_POLICY_OPEN_REJECTED
    else SOLIDSYSLOG_SECURITY_POLICY_OPEN_COULD_NOT_RUN, record).

Definition HmacSha256Policy_Initialise (config : keyed_config W) (self : keyed_policy W) : keyed_policy W :=
  self <| kp_Config := config |> <| kp_FaultReported := false |>.
End hmac.

(** * What the libraries compute *)

(** AES-256-GCM (NIST SP 800-38D), by key, nonce and associated data: the ciphertext of a
    text and the text of a ciphertext, as long as each other, and the tag of a
    ciphertext. *)
Record gcm_scheme := mkGcmScheme {
  gcm_cipher : bytes -> bytes -> bytes -> bytes -> bytes;
  gcm_plain : bytes -> bytes -> bytes -> bytes -> bytes;
  gcm_tag : bytes -> bytes -> bytes -> bytes -> bytes
}.
Record gcm_laws (G : gcm_scheme) : Prop := {
  gcm_reads_back : forall key nonce aad text, gcm_plain G key nonce aad (gcm_cipher G key nonce aad text) = text;
  gcm_cipher_length : forall key nonce aad text, lenZ (gcm_cipher G key nonce aad text) = lenZ text;
  gcm_plain_length : forall key nonce aad text, lenZ (gcm_plain G key nonce aad text) = lenZ text;
  gcm_cipher_bytes : forall key nonce aad text, all_bytes text -> all_bytes (gcm_cipher G key nonce aad text);
  gcm_tag_length : forall key nonce aad text, lenZ (gcm_tag G key nonce aad text) = GCM_TAG_SIZE;
  gcm_tag_bytes : forall key nonce aad text, all_bytes (gcm_tag G key nonce aad text)
}.
(** HMAC-SHA256 (RFC 2104), by key and data. *)
Record mac_scheme := mkMacScheme { mac_tag : bytes -> bytes -> bytes }.
Record mac_laws (M : mac_scheme) : Prop := {
  mac_length : forall key data, lenZ (mac_tag M key data) = HMAC_SHA256_TAG_SIZE;
  mac_bytes : forall key data, all_bytes (mac_tag M key data)
}.

(** The parts of a record, and the record sealed. *)
Definition record_aad (record : SolidSyslogSecurityRecord) : bytes := takeZ (sr_HeaderLength record) (sr_Content record).
Definition record_text (record : SolidSyslogSecurityRecord) : bytes := takeZ (record_body_length record) (record_body record).
Definition record_rest (record : SolidSyslogSecurityRecord) : bytes := dropZ (record_body_length record) (record_body record).
Definition record_nonce (record : SolidSyslogSecurityRecord) : bytes := takeZ GCM_NONCE_SIZE (sr_Trailer record).
Definition record_tag (record : SolidSyslogSecurityRecord) : bytes := dropZ GCM_NONCE_SIZE (sr_Trailer record).

Section schemes.
Context (G : gcm_scheme).
Definition gcm_tag_of (key : bytes) (record : SolidSyslogSecurityRecord) : bytes :=
  gcm_tag G key (record_nonce record) (record_aad record) (record_text record).
Definition gcm_sealed (key nonce : bytes) (record : SolidSyslogSecurityRecord) : SolidSyslogSecurityRecord :=
  let cipher := gcm_cipher G key nonce (record_aad record) (record_text record) in
  mkSecurityRecord (record_aad record ++ cipher ++ record_rest record) (sr_HeaderLength record)
                   (nonce ++ gcm_tag G key nonce (record_aad record) cipher).
Definition gcm_opened (key : bytes) (record : SolidSyslogSecurityRecord) : SolidSyslogSecurityRecord :=
  record <| sr_Content := record_aad record ++ gcm_plain G key (record_nonce record) (record_aad record) (record_text record) ++ record_rest record |>.
End schemes.

(** The record in place: the header, its length and the sizes stay. *)
Definition in_place (r r' : SolidSyslogSecurityRecord) : Prop := same_shape r r' /\ sr_HeaderLength r' = sr_HeaderLength r.

(** What happens to a library's contexts: all that were taken are given back. *)
Definition contexts_freed (es : list keyed_event) : Prop := es = [] \/ es = [ContextMade; ContextFreed].

Section contracts.
Context {W : Type} (G : gcm_scheme) (M : mac_scheme).
Implicit Types (w : keyed_world W).

(** A call of the library: it leaves the policy alone and frees what it takes. *)
Definition library_call w w' : Prop :=
  kw_Self w' = kw_Self w /\ exists es, contexts_freed es /\ kw_Trace w' = kw_Trace w ++ es.

Definition gcm_encrypts (encrypt : SolidSyslogSecurityRecord -> bytes -> ST (keyed_world W) (bool * SolidSyslogSecurityRecord)) : Prop :=
  forall r key w, lenZ (sr_Trailer r) = AES_GCM_TRAILER_SIZE ->
  wp (encrypt r key) (fun x w' => in_place r (snd x) /\ library_call w w' /\
    (fst x = true -> snd x = gcm_sealed G (takeZ AES_256_KEY_SIZE key) (record_nonce r) r)) w.
(** A verdict is what the tag says. *)
Definition gcm_decrypts (decrypt : SolidSyslogSecurityRecord -> bytes -> ST (keyed_world W) (SolidSyslogSecurityPolicyOpenResult * SolidSyslogSecurityRecord)) : Prop :=
  forall r key w, lenZ (sr_Trailer r) = AES_GCM_TRAILER_SIZE ->
  wp (decrypt r key) (fun x w' => in_place r (snd x) /\ library_call w w' /\ sr_Trailer (snd x) = sr_Trailer r /\
    match fst x with
    | SOLIDSYSLOG_SECURITY_POLICY_OPEN_OPENED => record_tag r = gcm_tag_of G (takeZ AES_256_KEY_SIZE key) r /\ snd x = gcm_opened G (takeZ AES_256_KEY_SIZE key) r
    | SOLIDSYSLOG_SECURITY_POLICY_OPEN_REJECTED => record_tag r <> gcm_tag_of G (takeZ AES_256_KEY_SIZE key) r
    | SOLIDSYSLOG_SECURITY_POLICY_OPEN_COULD_NOT_RUN => True
    end) w.
Definition draws_nonces (draw : Z -> bytes -> ST W (bool * bytes)) : Prop :=
  forall rng area e, let '(ok, bs) := fst (draw rng area e) in lenZ bs = lenZ area /\ (ok = true -> all_bytes bs).
Definition computes_mac (hmac : bytes -> Z -> bytes -> Z -> bytes -> ST (keyed_world W) (bool * bytes)) : Prop :=
  forall key keyLength data length area w, lenZ area = HMAC_SHA256_TAG_SIZE ->
  wp (hmac key keyLength data length area) (fun x w' => lenZ (snd x) = lenZ area /\ library_call w w' /\
    (fst x = true -> snd x = mac_tag M (takeZ keyLength key) (takeZ length data))) w.

(** The integrator has one key: whenever a key of a length the policy takes is
    answered, it is that one. *)
Definition answers_key (config : keyed_config W) (valid : Z -> bool) (key : bytes) : Prop :=
  forall capacity e, let '(ok, buffer, n) := fst (kc_GetKey config (kc_KeyContext config) capacity e) in
  ok = true -> valid n = true -> takeZ n buffer = key.

(** What is seen of a call, by whether it reached a verdict.  [due] says what the
    callback and the library may answer, and which fault, a category and a code, each
    course of answers comes to.  The key is asked for first and the whole buffer wiped
    last; a fault is reported, as it is due, when it is the first of its run. *)
Definition fault_due : Type := list keyed_event -> option (Z * Z) -> Prop.
Definition fault_report (source : SolidSyslogErrorSource) (reported : bool) (fault : option (Z * Z)) : list keyed_event :=
  match fault with
  | Some (category, code) => if reported then [] else [Reported (error_event SOLIDSYSLOG_SEVERITY_ERROR source category code)]
  | None => []
  end.
Definition call_story (source : SolidSyslogErrorSource) (size : Z) (due : fault_due) (ok before after : bool) (es : list keyed_event) : Prop :=
  exists answers fault, es = KeyAsked size :: answers ++ fault_report source before fault ++ [KeyWiped size] /\ due answers fault /\
  ok = bool_decide (fault = None) /\ after = negb ok.
(** ... and in the world. *)
Definition called (source : SolidSyslogErrorSource) (size : Z) (due : fault_due) (ok : bool) w w' : Prop :=
  kp_Config (kw_Self w') = kp_Config (kw_Self w) /\
  exists es, kw_Trace w' = kw_Trace w ++ es /\ call_story source size due ok (kp_FaultReported (kw_Self w)) (kp_FaultReported (kw_Self w')) es.
End contracts.

Definition verdict_reached (result : SolidSyslogSecurityPolicyOpenResult) : bool :=
  match result with SOLIDSYSLOG_SECURITY_POLICY_OPEN_COULD_NOT_RUN => false | _ => true end.

(** Which answers come to which fault. *)
Inductive aes_seal_faults : fault_due :=
| seal_without_key ok n : ok && (n =? AES_256_KEY_SIZE) = false ->
    aes_seal_faults [KeyAnswered ok n] (Some (SOLIDSYSLOG_CAT_SECURITY_POLICY_KEY_UNAVAILABLE, SOLIDSYSLOG_AES_GCM_POLICY_ERROR_KEY_UNAVAILABLE))
| seal_without_nonce :
    aes_seal_faults [KeyAnswered true AES_256_KEY_SIZE; NonceDrawn false] (Some (SOLIDSYSLOG_CAT_SECURITY_POLICY_SEAL_FAILED, SOLIDSYSLOG_AES_GCM_POLICY_ERROR_NONCE_FAILED))
| seal_not_encrypted contexts : contexts_freed contexts ->
    aes_seal_faults ([KeyAnswered true AES_256_KEY_SIZE; NonceDrawn true] ++ contexts ++ [LibraryRan false])
      (Some (SOLIDSYSLOG_CAT_SECURITY_POLICY_SEAL_FAILED, SOLIDSYSLOG_AES_GCM_POLICY_ERROR_ENCRYPT_FAILED))
| seal_encrypted contexts : contexts_freed contexts ->
    aes_seal_faults ([KeyAnswered true AES_256_KEY_SIZE; NonceDrawn true] ++ contexts ++ [LibraryRan true]) None.
Inductive aes_open_faults : fault_due :=
| open_without_key ok n : ok && (n =? AES_256_KEY_SIZE) = false ->
    aes_open_faults [KeyAnswered ok n] (Some (SOLIDSYSLOG_CAT_SECURITY_POLICY_KEY_UNAVAILABLE, SOLIDSYSLOG_AES_GCM_POLICY_ERROR_KEY_UNAVAILABLE))
| open_not_run contexts : contexts_freed contexts ->
    aes_open_faults (KeyAnswered true AES_256_KEY_SIZE :: contexts ++ [Decrypted SOLIDSYSLOG_SECURITY_POLICY_OPEN_COULD_NOT_RUN])
      (Some (SOLIDSYSLOG_CAT_SECURITY_POLICY_OPEN_FAILED, SOLIDSYSLOG_AES_GCM_POLICY_ERROR_DECRYPT_FAILED))
| open_ran result contexts : contexts_freed contexts -> verdict_reached result = true ->
    aes_open_faults (KeyAnswered true AES_256_KEY_SIZE :: contexts ++ [Decrypted result]) None.
Inductive hmac_faults (failureCategory : Z) : fault_due :=
| hmac_without_key n :
    hmac_faults failureCategory [KeyAnswered false n] (Some (SOLIDSYSLOG_CAT_SECURITY_POLICY_KEY_UNAVAILABLE, SOLIDSYSLOG_HMAC_SHA256_POLICY_ERROR_KEY_UNAVAILABLE))
| hmac_wrong_key n : HmacSha256Policy_KeyLengthIsValid n = false ->
    hmac_faults failureCategory [KeyAnswered true n] (Some (SOLIDSYSLOG_CAT_SECURITY_POLICY_KEY_UNAVAILABLE, SOLIDSYSLOG_HMAC_SHA256_POLICY_ERROR_KEY_TOO_SHORT))
| hmac_not_made n contexts : HmacSha256Policy_KeyLengthIsValid n = true -> contexts_freed contexts ->
    hmac_faults failureCategory (KeyAnswered true n :: contexts ++ [LibraryRan false]) (Some (failureCategory, SOLIDSYSLOG_HMAC_SHA256_POLICY_ERROR_HMAC_FAILED))
| hmac_made n contexts : HmacSha256Policy_KeyLengthIsValid n = true -> contexts_freed contexts ->
    hmac_faults failureCategory (KeyAnswered true n :: contexts ++ [LibraryRan true]) None.

(** * What the policies do *)

Section policy_rules.
Context {W : Type} `{ErrorTap W} (source : SolidSyslogErrorSource).
Implicit Types (w : keyed_world W).

Lemma wp_in_env {A} (m : ST W A) (Q : A -> keyed_world W -> Prop) w :
  (forall e, Q (fst (m (kw_Env w))) (w <| kw_Env := e |>)) -> wp (in_env m) Q w.
Proof using. intros HQ. unfold in_env. apply wp_zoom. unfold wp. apply HQ. Qed.
(** A call goes on after [w0]: the events so far since then. *)
Definition so_far (w0 w : keyed_world W) (es : list keyed_event) : Prop :=
  kp_Config (kw_Self w) = kp_Config (kw_Self w0) /\ kp_FaultReported (kw_Self w) = kp_FaultReported (kw_Self w0) /\ kw_Trace w = kw_Trace w0 ++ es.
Lemma so_far_call w0 w w' es : so_far w0 w es -> library_call w w' -> exists contexts, contexts_freed contexts /\ so_far w0 w' (es ++ contexts).
Proof using. intros (Ec & Ef & Et) (Es & contexts & Hc & Et'). exists contexts. split; [done |]. unfold so_far. by rewrite Es, Et', Et, <- app_assoc. Qed.

Lemma so_far_event w0 w es e : so_far w0 w es -> so_far w0 (w <| kw_Trace := kw_Trace w ++ [e] |>) (es ++ [e]).
Proof using. intros (Ec & Ef & Et). unfold so_far. cbn. by rewrite Et, <- app_assoc. Qed.

(** The two ways a call ends: a verdict, or a fault, reported when none of its run was. *)
Lemma story_clean size (due : fault_due) (w0 w1 : keyed_world W) answers (Q : unit -> keyed_world W -> Prop) :
  so_far w0 w1 (KeyAsked size :: answers) -> due answers None ->
  (forall w2, called source size due true w0 (w2 <| kw_Trace := kw_Trace w2 ++ [KeyWiped size] |>) -> Q tt w2) ->
  wp (set_fault_reported false) Q w1.
Proof using.
  intros (Ec & Ef & Et) Hd HQ. unfold set_fault_reported. wp_steps. apply HQ. split; [exact Ec |].
  eexists. split; [cbn; rewrite Et, <- app_assoc; reflexivity |]. by exists answers, None.
Qed.
Lemma story_fault size (due : fault_due) category code (w0 w1 : keyed_world W) answers (Q : unit -> keyed_world W -> Prop) :
  so_far w0 w1 (KeyAsked size :: answers) -> due answers (Some (category, code)) ->
  (forall w2, called source size due false w0 (w2 <| kw_Trace := kw_Trace w2 ++ [KeyWiped size] |>) -> Q tt w2) ->
  wp (KeyedPolicy_ReportFault source category code) Q w1.
Proof using.
  intros (Ec & Ef & Et) Hd HQ. unfold KeyedPolicy_ReportFault, KeyedPolicy_Report. wp_steps. rewrite Ef.
  destruct (kp_FaultReported (kw_Self w0)) eqn:E; cbn [negb].
  - apply wp_ret, HQ. split; [exact Ec |]. eexists. split; [cbn; rewrite Et, <- app_assoc; reflexivity |].
    exists answers, (Some (category, code)). rewrite E. split; [done |]. split; [exact Hd |]. split; [done | cbn; congruence].
  - wp_steps. apply wp_in_env. intros e. unfold keyed_happens, set_fault_reported. wp_steps. apply HQ. split; [exact Ec |].
    eexists. split; [cbn; rewrite Et, <- !app_assoc; reflexivity |]. exists answers, (Some (category, code)). by rewrite E.
Qed.
End policy_rules.

Section aes_gcm_rules.
Context {W : Type} `{ErrorTap W} (source : SolidSyslogErrorSource) (G : gcm_scheme) (GL : gcm_laws G).
Context (DrawNonce : Z -> bytes -> ST W (bool * bytes)) (draws : draws_nonces DrawNonce).
Context (GcmEncrypt : SolidSyslogSecurityRecord -> bytes -> ST (keyed_world W) (bool * SolidSyslogSecurityRecord)) (encrypts : gcm_encrypts G GcmEncrypt).
Context (GcmDecrypt : SolidSyslogSecurityRecord -> bytes -> ST (keyed_world W) (SolidSyslogSecurityPolicyOpenResult * SolidSyslogSecurityRecord)) (decrypts : gcm_decrypts G GcmDecrypt).
Implicit Types (w : keyed_world W) (r : SolidSyslogSecurityRecord).

Abbreviation aes_key config key := (answers_key config (fun n => n =? AES_256_KEY_SIZE) key).

Lemma AesFetchKey_spec (due : fault_due) w (Q : bool * bytes -> keyed_world W -> Prop) :
  (forall ok n, ok && (n =? AES_256_KEY_SIZE) = false ->
     due [KeyAnswered ok n] (Some (SOLIDSYSLOG_CAT_SECURITY_POLICY_KEY_UNAVAILABLE, SOLIDSYSLOG_AES_GCM_POLICY_ERROR_KEY_UNAVAILABLE))) ->
  (forall buffer w1, so_far w w1 [KeyAsked AES_256_KEY_SIZE; KeyAnswered true AES_256_KEY_SIZE] ->
     (forall key, aes_key (kp_Config (kw_Self w)) key -> takeZ AES_256_KEY_SIZE buffer = key) -> Q (true, buffer) w1) ->
  (forall buffer w1, called source AES_256_KEY_SIZE due false w (w1 <| kw_Trace := kw_Trace w1 ++ [KeyWiped AES_256_KEY_SIZE] |>) -> Q (false, buffer) w1) ->
  wp (AesGcmPolicy_FetchKey source) Q w.
Proof using.
  intros Hdue Hok Hno. unfold AesGcmPolicy_FetchKey, keyed_happens. wp_steps. apply wp_in_env. intros e. cbn [kw_Env kw_Self set_field].
  set (got := kc_GetKey _ _ _ _). destruct (fst got) as [[ok buffer] n] eqn:Eg. wp_steps.
  destruct (ok && (n =? AES_256_KEY_SIZE)) eqn:Ev; cbn [negb].
  - pose proof Ev as [-> ->%Z.eqb_eq]%andb_prop. wp_steps. apply Hok; [split_and!; [done | done | cbn; by rewrite <- app_assoc] |].
    intros key Hk. specialize (Hk AES_256_KEY_SIZE (kw_Env w)). fold got in Hk. rewrite Eg in Hk. by apply Hk.
  - eapply (story_fault source AES_256_KEY_SIZE due _ _ w _ [KeyAnswered ok n]); [split_and!; [done | done | cbn; by rewrite <- app_assoc] | by apply Hdue |].
    intros w2 Hc. apply wp_ret. by apply Hno.
Qed.

Lemma in_place_refl r : in_place r r.
Proof using. done. Qed.
Lemma in_place_trans r r' r'' : in_place r r' -> in_place r' r'' -> in_place r r''.
Proof using.
  intros [(H1 & H2 & H3) Hh] [(H4 & H5 & H6) Hh']. unfold in_place, same_shape. rewrite Hh in *. repeat split; congruence.
Qed.
(** Drawing the nonce. *)
Lemma nonce_in_place bs r : lenZ (sr_Trailer r) = AES_GCM_TRAILER_SIZE -> lenZ bs = GCM_NONCE_SIZE ->
  in_place r (with_trailer_at 0 bs r) /\ lenZ (sr_Trailer (with_trailer_at 0 bs r)) = AES_GCM_TRAILER_SIZE /\
  record_nonce (with_trailer_at 0 bs r) = bs /\ forall key nonce, gcm_sealed G key nonce (with_trailer_at 0 bs r) = gcm_sealed G key nonce r.
Proof using.
  intros Ht Hb. assert (El : lenZ (spliceZ (sr_Trailer r) 0 bs) = lenZ (sr_Trailer r)).
  { apply lenZ_spliceZ; [lia |]. rewrite Ht, Hb. done. }
  split; [done |]. split; [by rewrite <- Ht |]. split; [| done].
  unfold record_nonce, with_trailer_at. cbn [sr_Trailer set_field]. rewrite spliceZ_0, takeZ_app_le, takeZ_ge by lia. done.
Qed.

Lemma AesSealRecord_spec r w : lenZ (sr_Trailer r) = AES_GCM_TRAILER_SIZE ->
  wp (AesGcmPolicy_SealRecord source DrawNonce GcmEncrypt r) (fun x w' =>
    in_place r (snd x) /\ called source AES_256_KEY_SIZE aes_seal_faults (fst x) w w' /\
    (fst x = true -> forall key, aes_key (kp_Config (kw_Self w)) key ->
       exists nonce, lenZ nonce = GCM_NONCE_SIZE /\ all_bytes nonce /\ snd x = gcm_sealed G key nonce r)) w.
Proof using draws encrypts.
  intros Ht. unfold AesGcmPolicy_SealRecord, keyed_happens. apply wp_bind.
  apply (AesFetchKey_spec aes_seal_faults); [by constructor | | intros buffer w1 Hc; cbn [fst]; by wp_steps].
  intros buffer w1 Hw1 Hkey. cbn [fst snd]. wp_steps. apply wp_in_env. intros e.
  set (drawn := DrawNonce _ _ _). pose proof (draws (kc_Rng (kp_Config (kw_Self w1))) (takeZ GCM_NONCE_SIZE (sr_Trailer r)) (kw_Env w1)) as Hd.
  assert (Hw1' : so_far w (w1 <| kw_Env := e |>) [KeyAsked AES_256_KEY_SIZE; KeyAnswered true AES_256_KEY_SIZE]) by exact Hw1.
  fold drawn in Hd. destruct (fst drawn) as [drew bs]. destruct Hd as [Hl Hbs].
  rewrite lenZ_takeZ in Hl by (rewrite Ht; done). destruct (nonce_in_place bs r Ht Hl) as (Hp & Ht' & En & Es). cbn [fst snd].
  destruct drew; wp_steps.
  - eapply wp_mono; [by apply encrypts |]. cbv beta. intros [ok r'] w2 (Hp' & Hlib & Hs). cbn [fst snd] in *.
    destruct (so_far_call w _ _ _ (so_far_event _ _ _ (NonceDrawn true) Hw1') Hlib) as (contexts & Hcx & Hw2).
    apply (so_far_event _ _ _ (LibraryRan ok)) in Hw2. rewrite <- app_assoc in Hw2.
    destruct ok; wp_steps.
    + eapply story_clean; [exact Hw2 | by apply seal_encrypted |]. intros w3 Hc. wp_steps. split; [by eapply in_place_trans |]. split; [exact Hc |].
      intros _ key Hk. exists bs. split; [done |]. split; [by apply Hbs |]. cbn [snd]. by rewrite Hs, En, Es, (Hkey key Hk).
    + eapply (story_fault source _ aes_seal_faults); [exact Hw2 | by apply seal_not_encrypted |]. intros w3 Hc. wp_steps. split; [by eapply in_place_trans |]. by split.
  - eapply (story_fault source _ aes_seal_faults); [exact (so_far_event _ _ _ (NonceDrawn false) Hw1') | by constructor |].
    intros w3 Hc. wp_steps. by split.
Qed.

Lemma AesOpenRecord_spec r w : lenZ (sr_Trailer r) = AES_GCM_TRAILER_SIZE ->
  wp (AesGcmPolicy_OpenRecord source GcmDecrypt r) (fun x w' =>
    in_place r (snd x) /\ sr_Trailer (snd x) = sr_Trailer r /\ called source AES_256_KEY_SIZE aes_open_faults (verdict_reached (fst x)) w w' /\
    forall key, aes_key (kp_Config (kw_Self w)) key ->
      match fst x with
      | SOLIDSYSLOG_SECURITY_POLICY_OPEN_OPENED => record_tag r = gcm_tag_of G key r /\ snd x = gcm_opened G key r
      | SOLIDSYSLOG_SECURITY_POLICY_OPEN_REJECTED => record_tag r <> gcm_tag_of G key r
      | SOLIDSYSLOG_SECURITY_POLICY_OPEN_COULD_NOT_RUN => True
      end) w.
Proof using decrypts.
  intros Ht. unfold AesGcmPolicy_OpenRecord, keyed_happens. apply wp_bind.
  apply (AesFetchKey_spec aes_open_faults); [by constructor | | intros buffer w1 Hc; cbn [fst]; by wp_steps].
  intros buffer w1 Hw1 Hkey. cbn [fst snd]. wp_steps. eapply wp_mono; [by apply decrypts |]. cbv beta.
  intros [v r'] w2 (Hp & Hlib & Et & Hv). cbn [fst snd] in *.
  destruct (so_far_call _ _ _ _ Hw1 Hlib) as (contexts & Hcx & Hw2).
  apply (so_far_event _ _ _ (Decrypted v)) in Hw2. rewrite <- app_assoc in Hw2. wp_steps.
  destruct v.
  1, 2: eapply story_clean; [exact Hw2 | by apply open_ran |]; intros w3 Hc; wp_steps; split; [exact Hp |]; split; [exact Et |]; split; [exact Hc |]; intros key Hk; cbn [fst]; by rewrite <- (Hkey key Hk).
  eapply (story_fault source _ aes_open_faults); [exact Hw2 | by apply open_not_run |]. intros w3 Hc. wp_steps. by split.
Qed.
End aes_gcm_rules.

Section hmac_rules.
Context {W : Type} `{ErrorTap W} (source : SolidSyslogErrorSource) (M : mac_scheme) (ML : mac_laws M).
Context (Hmac : bytes -> Z -> bytes -> Z -> bytes -> ST (keyed_world W) (bool * bytes)) (computes : computes_mac M Hmac).
Context (uninitialised : bytes) (area : lenZ uninitialised = HMAC_SHA256_TAG_SIZE).
Implicit Types (w : keyed_world W) (r : SolidSyslogSecurityRecord).

Abbreviation mac_key config key := (answers_key config HmacSha256Policy_KeyLengthIsValid key).

Lemma HmacFetchKey_spec failureCategory w (Q : bool * bytes * Z -> keyed_world W -> Prop) :
  (forall buffer n w1, so_far w w1 [KeyAsked SOLIDSYSLOG_MAX_HMAC_KEY_SIZE; KeyAnswered true n] -> HmacSha256Policy_KeyLengthIsValid n = true ->
     (forall key, mac_key (kp_Config (kw_Self w)) key -> takeZ n buffer = key) -> Q (true, buffer, n) w1) ->
  (forall buffer w1, called source SOLIDSYSLOG_MAX_HMAC_KEY_SIZE (hmac_faults failureCategory) false w
     (w1 <| kw_Trace := kw_Trace w1 ++ [KeyWiped SOLIDSYSLOG_MAX_HMAC_KEY_SIZE] |>) -> Q (false, buffer, 0) w1) ->
  wp (HmacSha256Policy_FetchKey source) Q w.
Proof using.
  intros Hok Hno. unfold HmacSha256Policy_FetchKey, keyed_happens. wp_steps. apply wp_in_env. intros e. cbn [kw_Env kw_Self set_field].
  set (got := kc_GetKey _ _ _ _). destruct (fst got) as [[ok buffer] n] eqn:Eg. cbv beta iota.
  wp_steps. destruct ok; [destruct (HmacSha256Policy_KeyLengthIsValid n) eqn:Ev |].
  - wp_steps. apply Hok; [split_and!; [done | done | cbn; by rewrite <- app_assoc] | done |]. intros key Hk. specialize (Hk SOLIDSYSLOG_MAX_HMAC_KEY_SIZE (kw_Env w)).
    fold got in Hk. rewrite Eg in Hk. by apply Hk.
  - wp_steps. eapply (story_fault source _ (hmac_faults failureCategory) _ _ w); [split_and!; [done | done | cbn; rewrite <- app_assoc; reflexivity] | by constructor |].
    intros w2 Hc. apply wp_ret. by apply Hno.
  - wp_steps. eapply (story_fault source _ (hmac_faults failureCategory) _ _ w); [split_and!; [done | done | cbn; rewrite <- app_assoc; reflexivity] | by constructor |].
    intros w2 Hc. apply wp_ret. by apply Hno.
Qed.

Lemma ComputeTag_spec data length tagOut failureCategory w : lenZ tagOut = HMAC_SHA256_TAG_SIZE ->
  wp (HmacSha256Policy_ComputeTag source Hmac data length tagOut failureCategory) (fun x w' =>
    lenZ (snd x) = HMAC_SHA256_TAG_SIZE /\ called source SOLIDSYSLOG_MAX_HMAC_KEY_SIZE (hmac_faults failureCategory) (fst x) w w' /\
    (fst x = true -> (exists key, snd x = mac_tag M key (takeZ length data)) /\
       forall key, mac_key (kp_Config (kw_Self w)) key -> snd x = mac_tag M key (takeZ length data))) w.
Proof using computes.
  intros Ht. unfold HmacSha256Policy_ComputeTag, keyed_happens. apply wp_bind.
  apply (HmacFetchKey_spec failureCategory); [| intros buffer w1 Hc; by wp_steps].
  intros buffer n w1 Hw1 Hn Hkey. wp_steps. eapply wp_mono; [by apply computes |]. cbv beta.
  intros [ok tag] w2 (Hl & Hlib & Hs). cbn [fst snd] in *. rewrite Ht in Hl.
  destruct (so_far_call _ _ _ _ Hw1 Hlib) as (contexts & Hcx & Hw2).
  apply (so_far_event _ _ _ (LibraryRan ok)) in Hw2. rewrite <- app_assoc in Hw2. wp_steps. destruct ok.
  - eapply story_clean; [exact Hw2 | by apply hmac_made |]. intros w3 Hc. wp_steps. split; [done |]. split; [exact Hc |]. intros _. cbn [snd].
    rewrite (Hs eq_refl). split; [by eexists |]. intros key Hk. by rewrite (Hkey key Hk).
  - eapply (story_fault source _ (hmac_faults failureCategory)); [exact Hw2 | by apply hmac_not_made |]. intros w3 Hc. wp_steps. by split.
Qed.

Lemma HmacSealRecord_spec r w : lenZ (sr_Trailer r) = HMAC_SHA256_TAG_SIZE ->
  wp (HmacSha256Policy_SealRecord source Hmac r) (fun x w' =>
    in_place r (snd x) /\ sr_Content (snd x) = sr_Content r /\
    called source SOLIDSYSLOG_MAX_HMAC_KEY_SIZE (hmac_faults SOLIDSYSLOG_CAT_SECURITY_POLICY_SEAL_FAILED) (fst x) w w' /\
    (fst x = true -> (exists key, sr_Trailer (snd x) = mac_tag M key (sr_Content r)) /\
       forall key, mac_key (kp_Config (kw_Self w)) key -> sr_Trailer (snd x) = mac_tag M key (sr_Content r))) w.
Proof using computes.
  intros Ht. unfold HmacSha256Policy_SealRecord. apply wp_bind. eapply wp_mono; [by apply ComputeTag_spec |]. cbv beta.
  intros [ok tag] w1 (Hl & Hc & Hs). wp_steps. cbn [fst snd] in *. rewrite takeZ_ge in Hs by lia.
  split; [split; [split; [done |]; split; [cbn; by rewrite Ht | done] | done] |]. split; [done |]. by split.
Qed.

(** Equal tags, for areas of bytes. *)
Lemma ConstantTimeEquals_spec a b n : lenZ a = n -> lenZ b = n -> all_bytes a -> all_bytes b ->
  HmacSha256Policy_ConstantTimeEquals a b n = true <-> a = b.
Proof using.
  intros Ha Hb Hba Hbb. unfold HmacSha256Policy_ConstantTimeEquals. pose proof (lenZ_nonneg a).
  rewrite Z.eqb_eq, difference_zero, !takeZ_ge by (lia || done). done.
Qed.

Lemma HmacOpenRecord_spec r w : lenZ (sr_Trailer r) = HMAC_SHA256_TAG_SIZE ->
  wp (HmacSha256Policy_OpenRecord source Hmac uninitialised r) (fun x w' =>
    snd x = r /\ called source SOLIDSYSLOG_MAX_HMAC_KEY_SIZE (hmac_faults SOLIDSYSLOG_CAT_SECURITY_POLICY_OPEN_FAILED) (verdict_reached (fst x)) w w' /\
    forall key, mac_key (kp_Config (kw_Self w)) key -> all_bytes (sr_Trailer r) ->
      match fst x with
      | SOLIDSYSLOG_SECURITY_POLICY_OPEN_OPENED => sr_Trailer r = mac_tag M key (sr_Content r)
      | SOLIDSYSLOG_SECURITY_POLICY_OPEN_REJECTED => sr_Trailer r <> mac_tag M key (sr_Content r)
      | SOLIDSYSLOG_SECURITY_POLICY_OPEN_COULD_NOT_RUN => True
      end) w.
Proof using computes area ML.
  intros Ht. unfold HmacSha256Policy_OpenRecord. apply wp_bind. eapply wp_mono; [by apply ComputeTag_spec |]. cbv beta.
  intros [ok tag] w1 (Hl & Hc & Hs). wp_steps. cbn [fst snd] in *. rewrite takeZ_ge in Hs by lia. split; [done |].
  destruct ok; [| by split]. destruct (Hs eq_refl) as [_ Hkey].
  split; [by destruct (HmacSha256Policy_ConstantTimeEquals _ _ _) |]. intros key Hk Hb. specialize (Hkey key Hk).
  pose proof (ConstantTimeEquals_spec tag (sr_Trailer r) HMAC_SHA256_TAG_SIZE Hl Ht) as He.
  rewrite Hkey in *. specialize (He (mac_bytes M ML _ _) Hb).
  destruct (HmacSha256Policy_ConstantTimeEquals _ _ _); [symmetry; by apply He |]. intros E. symmetry in E. by apply He in E.
Qed.
End hmac_rules.

(** * The policies keep the laws of the interface *)

(** A list cut in two, with as many cells in place of the second part. *)
Lemma cut_at {A} n (l x : list A) : lenZ x = lenZ (dropZ n l) -> takeZ n (takeZ n l ++ x) = takeZ n l /\ dropZ n (takeZ n l ++ x) = x.
Proof.
  unfold lenZ, takeZ, dropZ. rewrite length_drop. intros Hx. destruct (Nat.le_gt_cases (length l) (Z.to_nat n)) as [Hge | Hlt].
  - assert (x = []) as -> by (apply nil_length_inv; lia). rewrite app_nil_r, (take_ge l) by lia. by rewrite take_ge, drop_ge by lia.
  - rewrite take_app_le, take_take, Nat.min_id, drop_app_ge by (rewrite length_take; lia).
    rewrite length_take, Nat.min_l, Nat.sub_diag by lia. done.
Qed.

Section sealed_record.
Context (G : gcm_scheme) (GL : gcm_laws G).
Implicit Types (r : SolidSyslogSecurityRecord).

Lemma text_rest r : record_text r ++ record_rest r = record_body r.
Proof using. apply takeZ_dropZ. Qed.
(** The parts of a record whose text was written over. *)
Lemma rewritten_parts r text trailer : lenZ text = lenZ (record_text r) ->
  let r' := mkSecurityRecord (record_aad r ++ text ++ record_rest r) (sr_HeaderLength r) trailer in
  record_aad r' = record_aad r /\ record_text r' = text /\ record_rest r' = record_rest r /\ lenZ (sr_Content r') = lenZ (sr_Content r).
Proof using.
  intros Hl. assert (Hb : lenZ (text ++ record_rest r) = lenZ (record_body r)) by (rewrite <- text_rest, !lenZ_app; lia).
  assert (El : lenZ (record_aad r ++ text ++ record_rest r) = lenZ (sr_Content r)).
  { rewrite lenZ_app, Hb, <- lenZ_app. unfold record_aad, record_body. by rewrite takeZ_dropZ. }
  destruct (cut_at (sr_HeaderLength r) (sr_Content r) (text ++ record_rest r) Hb) as [Ea Eb]. cbv zeta.
  set (r' := mkSecurityRecord _ _ _).
  assert (Ebl : record_body_length r' = record_body_length r) by (unfold record_body_length; cbn [r' sr_Content sr_HeaderLength]; by rewrite El).
  assert (Ebody : record_body r' = text ++ record_rest r) by exact Eb.
  split; [exact Ea |]. change (record_text r' = text /\ record_rest r' = record_rest r /\ lenZ (sr_Content r') = lenZ (sr_Content r)).
  split; [| split; [| exact El]].
  all: assert (0 <= record_body_length r) by (unfold record_body_length; apply u16_range);
    pose proof (lenZ_nonneg (record_body r)); unfold record_text in Hl; rewrite lenZ_takeZ_min in Hl by lia;
    unfold record_text, record_rest; rewrite Ebl, Ebody; unfold record_rest;
    destruct (Z.le_gt_cases (lenZ (record_body r)) (record_body_length r)).
  - by rewrite (dropZ_ge _ (record_body r)), app_nil_r, takeZ_ge by lia.
  - by rewrite takeZ_app_le, takeZ_ge by lia.
  - by rewrite (dropZ_ge _ (record_body r)), app_nil_r, dropZ_ge by lia.
  - rewrite dropZ_app_ge by lia. by replace (record_body_length r - lenZ text) with 0 by lia.
Qed.

Lemma gcm_sealed_parts key nonce r : lenZ nonce = GCM_NONCE_SIZE ->
  let r' := gcm_sealed G key nonce r in
  record_aad r' = record_aad r /\ record_text r' = gcm_cipher G key nonce (record_aad r) (record_text r) /\ record_rest r' = record_rest r /\
  record_nonce r' = nonce /\ record_tag r' = gcm_tag_of G key r' /\ lenZ (sr_Trailer r') = AES_GCM_TRAILER_SIZE.
Proof using GL.
  intros Hn. cbv zeta. unfold gcm_sealed. set (cipher := gcm_cipher _ _ _ _ _). set (tag := gcm_tag _ _ _ _ _).
  assert (Hl : lenZ cipher = lenZ (record_text r)) by (by apply gcm_cipher_length).
  destruct (rewritten_parts r cipher (nonce ++ tag) Hl) as (Ea & Et & Er & _).
  assert (En : record_nonce (mkSecurityRecord (record_aad r ++ cipher ++ record_rest r) (sr_HeaderLength r) (nonce ++ tag)) = nonce).
  { unfold record_nonce. cbn [sr_Trailer]. by rewrite takeZ_app_le, takeZ_ge by lia. }
  split; [exact Ea |]. split; [exact Et |]. split; [exact Er |]. split; [exact En |]. split.
  - unfold gcm_tag_of. rewrite En, Ea, Et. unfold record_tag. cbn [sr_Trailer]. by rewrite dropZ_app_ge, Hn by lia.
  - cbn [sr_Trailer]. rewrite lenZ_app, Hn. unfold tag. by rewrite gcm_tag_length.
Qed.
(** Opening gives back what was sealed. *)
Lemma opened_sealed key nonce r : lenZ nonce = GCM_NONCE_SIZE -> sr_Content (gcm_opened G key (gcm_sealed G key nonce r)) = sr_Content r.
Proof using GL.
  intros Hn. destruct (gcm_sealed_parts key nonce r Hn) as (Ea & Et & Er & En & _). unfold gcm_opened. cbn [sr_Content set_field].
  rewrite Ea, Et, Er, En, gcm_reads_back by done. rewrite text_rest. apply takeZ_dropZ.
Qed.
Lemma sealed_bytes key nonce r : all_bytes nonce -> all_bytes (sr_Content r) ->
  all_bytes (sr_Content (gcm_sealed G key nonce r)) /\ all_bytes (sr_Trailer (gcm_sealed G key nonce r)).
Proof using GL.
  intros Hn Hc. unfold gcm_sealed. cbn [sr_Content sr_Trailer].
  assert (all_bytes (record_body r)) by (by apply all_bytes_dropZ).
  split; repeat apply Forall_app_2; try done; try (by apply all_bytes_takeZ); try (by apply all_bytes_dropZ).
  - apply gcm_cipher_bytes; [done |]. by apply all_bytes_takeZ.
  - by apply gcm_tag_bytes.
Qed.
End sealed_record.

(** A policy over its world, once initialised with [config], which nothing changes
    afterwards: the store's calls find it there. *)
Definition with_config {W A} (config : keyed_config W) (m : ST (keyed_world W) A) : ST (keyed_world W) A :=
  fun w => m (w <| kw_Self := (kw_Self w) <| kp_Config := config |> |>).
(** The two operations, with the size of the trailer. *)
Definition keyed_vtable {W} (config : keyed_config W) (trailerSize : Z)
    (seal : SolidSyslogSecurityRecord -> ST (keyed_world W) (bool * SolidSyslogSecurityRecord))
    (open : SolidSyslogSecurityRecord -> ST (keyed_world W) (SolidSyslogSecurityPolicyOpenResult * SolidSyslogSecurityRecord)) : SecurityPolicy (keyed_world W) := {|
  sp_TrailerSize := trailerSize;
  sp_SealRecord := fun record => with_config config (seal record);
  sp_OpenRecord := fun record => with_config config (open record)
|}.

Section laws.
Context {W : Type} `{ErrorTap W} (source : SolidSyslogErrorSource) (config : keyed_config W) (key : bytes).

Lemma AesGcmPolicy_laws G DrawNonce GcmEncrypt GcmDecrypt : gcm_laws G -> draws_nonces DrawNonce -> gcm_encrypts G GcmEncrypt -> gcm_decrypts G GcmDecrypt ->
  answers_key config (fun n => n =? AES_256_KEY_SIZE) key ->
  SecurityPolicySpec (keyed_world W) (H := keyed_vtable config AES_GCM_TRAILER_SIZE (AesGcmPolicy_SealRecord source DrawNonce GcmEncrypt) (AesGcmPolicy_OpenRecord source GcmDecrypt)).
Proof using.
  intros GL Hd He Ho Hkey.
  pose proof (fun r w Ht => AesSealRecord_spec source G DrawNonce Hd GcmEncrypt He r (w <| kw_Self := (kw_Self w) <| kp_Config := config |> |>) Ht) as HS.
  pose proof (fun r w Ht => AesOpenRecord_spec source G GcmDecrypt Ho r (w <| kw_Self := (kw_Self w) <| kp_Config := config |> |>) Ht) as HO.
  unfold wp in HS, HO. constructor; cbn [sp_TrailerSize sp_SealRecord sp_OpenRecord keyed_vtable]; unfold with_config.
  - done.
  - intros r p Ht. by destruct (HS r p Ht) as ([? _] & _).
  - intros r p Ht Hb Hs. destruct (HS r p Ht) as (_ & _ & Hr). destruct (Hr Hs key Hkey) as (nonce & _ & Hn & ->).
    by apply sealed_bytes.
  - intros r p Ht. by destruct (HO r p Ht) as ([? _] & _).
  - intros r p p' Ht Hb Hs. destruct (HS r p Ht) as ([_ Eh] & _ & Hr). destruct (Hr Hs key Hkey) as (nonce & Hl & _ & E).
    rewrite E in *. clear E Hr. destruct (gcm_sealed_parts G GL key nonce r Hl) as (_ & _ & _ & _ & Etag & Ht').
    set (sealed := gcm_sealed G key nonce r) in *. change (mkSecurityRecord (sr_Content sealed) (sr_HeaderLength r) (sr_Trailer sealed)) with sealed.
    destruct (HO sealed p' Ht') as (_ & _ & _ & Hv). specialize (Hv key Hkey).
    destruct (AesGcmPolicy_OpenRecord source GcmDecrypt sealed _) as [[v r'] w']. cbn [fst snd] in Hv. destruct v; [by apply Hv | | done].
    destruct Hv as [_ ->]. by apply opened_sealed.
Qed.

Lemma HmacSha256Policy_laws M Hmac uninitialised : mac_laws M -> computes_mac M Hmac -> lenZ uninitialised = HMAC_SHA256_TAG_SIZE ->
  answers_key config HmacSha256Policy_KeyLengthIsValid key ->
  SecurityPolicySpec (keyed_world W) (H := keyed_vtable config HMAC_SHA256_TAG_SIZE (HmacSha256Policy_SealRecord source Hmac) (HmacSha256Policy_OpenRecord source Hmac uninitialised)).
Proof using.
  intros ML Hc Hu Hkey.
  pose proof (fun r w Ht => HmacSealRecord_spec source M Hmac Hc r (w <| kw_Self := (kw_Self w) <| kp_Config := config |> |>) Ht) as HS.
  pose proof (fun r w Ht => HmacOpenRecord_spec source M ML Hmac Hc uninitialised Hu r (w <| kw_Self := (kw_Self w) <| kp_Config := config |> |>) Ht) as HO.
  unfold wp in HS, HO. constructor; cbn [sp_TrailerSize sp_SealRecord sp_OpenRecord keyed_vtable]; unfold with_config.
  - done.
  - intros r p Ht. by destruct (HS r p Ht) as ([? _] & _).
  - intros r p Ht Hb Hs. destruct (HS r p Ht) as (_ & -> & _ & Hr). destruct (Hr Hs) as [_ Hk]. rewrite (Hk key Hkey). split; [done | by apply mac_bytes].
  - intros r p Ht. by destruct (HO r p Ht) as (-> & _).
  - intros r p p' Ht Hb Hs. destruct (HS r p Ht) as ([[_ [Hl _]] _] & Ec & _ & Hr). destruct (Hr Hs) as [_ Hk]. specialize (Hk key Hkey).
    rewrite Ec, Hk. destruct (HO (mkSecurityRecord (sr_Content r) (sr_HeaderLength r) (mac_tag M key (sr_Content r))) p') as (Er & _ & Hv); [by apply mac_length |].
    specialize (Hv key Hkey (mac_bytes M ML _ _)).
    destruct (HmacSha256Policy_OpenRecord source Hmac uninitialised _ _) as [[v r'] w']. cbn [fst snd sr_Content sr_Trailer] in *. subst r'. by destruct v.
Qed.
End laws.
