(* ===== verification/CryptoBackends.v ===== *)
(** The keyed policies on their three crypto libraries: OpenSSL, mbedTLS and wolfSSL
    ([src/Platform/*/Source/SolidSyslog*AesGcmPolicy*.c], [SolidSyslog*HmacSha256Policy.c]).
    A library is a class of its calls, over its own environment and contexts, with a
    second class for what its documentation promises of them; each adapter is the
    sequence of calls its file makes.  The properties: whichever library is used, the
    policy keeps the laws the store relies on, opens nothing but what carries the tag of
    its content under the key, reports each run of faults once and wipes the key. *)
From S2P Require Import Prelude Errors PendingEvents Interfaces KeyedPolicies.

(** A library's context, taken and given back. *)
Definition context_made {W} : ST (keyed_world W) unit := keyed_happens ContextMade.
Definition context_freed {W} : ST (keyed_world W) unit := keyed_happens ContextFreed.

(** * OpenSSL *)

(** The calls that are made.  A pointer and a length are the memory there and the
    length; memory that is written is given back as it is left. *)
Class OpenSslCrypto (W Ctx : Type) := {
  EVP_aes_256_gcm : Z;
  EVP_CTRL_GCM_SET_IVLEN : Z;
  EVP_CTRL_GCM_GET_TAG : Z;
  EVP_CTRL_GCM_SET_TAG : Z;
  RAND_bytes : bytes -> Z -> ST W (Z * bytes);
  EVP_CIPHER_CTX_new : ST W (option Ctx);
  EVP_CIPHER_CTX_free : Ctx -> ST W unit;
  EVP_EncryptInit_ex : Ctx -> option Z -> option bytes -> option bytes -> ST W (Z * Ctx);
  EVP_DecryptInit_ex : Ctx -> option Z -> option bytes -> option bytes -> ST W (Z * Ctx);
  EVP_CIPHER_CTX_ctrl : Ctx -> Z -> Z -> option bytes -> ST W (Z * Ctx * option bytes);
  EVP_EncryptUpdate : Ctx -> option bytes -> bytes -> Z -> ST W (Z * Ctx * option bytes * Z);
  EVP_DecryptUpdate : Ctx -> option bytes -> bytes -> Z -> ST W (Z * Ctx * option bytes * Z);
  EVP_EncryptFinal_ex : Ctx -> bytes -> ST W (Z * Ctx * bytes * Z);
  EVP_DecryptFinal_ex : Ctx -> bytes -> ST W (Z * Ctx * bytes * Z);
  EVP_sha256 : Z;
  OpenSsl_HMAC : Z -> bytes -> Z -> bytes -> Z -> bytes -> ST W (bool * bytes)
}.

Section openssl.
Context {W Ctx : Type} `{ErrorTap W} `{C : OpenSslCrypto W Ctx}.

(** The local variables of one encryption or decryption. *)
Record evp_run := mkEvpRun { er_ctx : Ctx; er_body : bytes; er_outLength : Z; er_tag : bytes }.
#[export] Instance settable_evp_run : Settable evp_run := fun x => mkEvpRun (er_ctx x) (er_body x) (er_outLength x) (er_tag x).
Abbreviation evp_call := (evp_run -> ST W (bool * evp_run)).

Definition evp_init (m : Ctx -> ST W (Z * Ctx)) : evp_call :=
  fun x => let! r := m (er_ctx x) in st_ret (fst r =? 1, x <| er_ctx := snd r |>).
Definition evp_set_ivlen (n : Z) : evp_call :=
  fun x => let! r := EVP_CIPHER_CTX_ctrl (er_ctx x) EVP_CTRL_GCM_SET_IVLEN n None in
           let '(rc, ctx, _) := r in st_ret (rc =? 1, x <| er_ctx := ctx |>).
Definition evp_tag (ctrl n : Z) : evp_call :=
  fun x => let! r := EVP_CIPHER_CTX_ctrl (er_ctx x) ctrl n (Some (er_tag x)) in
           let '(rc, ctx, tag) := r in st_ret (rc =? 1, x <| er_ctx := ctx |> <| er_tag := default (er_tag x) tag |>).
Definition evp_aad (update : Ctx -> option bytes -> bytes -> Z -> ST W (Z * Ctx * option bytes * Z)) (aad : bytes) (aadLength : Z) : evp_call :=
  fun x => let! r := update (er_ctx x) None aad aadLength in
           let '(rc, ctx, _, outLength) := r in st_ret (rc =? 1, x <| er_ctx := ctx |> <| er_outLength := outLength |>).
Definition evp_body (update : Ctx -> option bytes -> bytes -> Z -> ST W (Z * Ctx * option bytes * Z)) (bodyLength : Z) : evp_call :=
  fun x => let! r := update (er_ctx x) (Some (er_body x)) (er_body x) bodyLength in
           let '(rc, ctx, body, outLength) := r in
           st_ret (rc =? 1, x <| er_ctx := ctx |> <| er_body := default (er_body x) body |> <| er_outLength := outLength |>).
(** The call is given [&body[outLength]]. *)
Definition evp_final (final : Ctx -> bytes -> ST W (Z * Ctx * bytes * Z)) : evp_call :=
  fun x => let! r := final (er_ctx x) (dropZ (er_outLength x) (er_body x)) in
           let '(rc, ctx, after, outLength) := r in
           st_ret (rc =? 1, x <| er_ctx := ctx |> <| er_body := takeZ (er_outLength x) (er_body x) ++ after |> <| er_outLength := outLength |>).

Definition OpenSslAesGcmPolicy_GcmEncrypt (key nonce body : bytes) (bodyLength : Z) (aad : bytes) (aadLength : Z) (tagOut : bytes)
    : ST (keyed_world W) (bool * bytes * bytes) :=
  let! ctx := in_env EVP_CIPHER_CTX_new in
  match ctx with
  | Some ctx =>
      context_made ;;;
      let! done := in_env
        ((evp_init (fun ctx => EVP_EncryptInit_ex ctx (Some EVP_aes_256_gcm) None None) &&!
          evp_set_ivlen GCM_NONCE_SIZE &&!
          evp_init (fun ctx => EVP_EncryptInit_ex ctx None (Some key) (Some nonce)) &&!
          evp_aad EVP_EncryptUpdate aad aadLength &&!
          evp_body EVP_EncryptUpdate bodyLength &&!
          evp_final EVP_EncryptFinal_ex &&!
          evp_tag EVP_CTRL_GCM_GET_TAG GCM_TAG_SIZE) (mkEvpRun ctx body 0 tagOut)) in
      in_env (EVP_CIPHER_CTX_free (er_ctx (snd done))) ;;; context_freed ;;;
      st_ret (fst done, er_body (snd done), er_tag (snd done))
  | None => st_ret (false, body, tagOut)
  end.

Definition OpenSslAesGcmPolicy_GcmDecrypt (key nonce body : bytes) (bodyLength : Z) (aad : bytes) (aadLength : Z) (tagIn : bytes)
    : ST (keyed_world W) (SolidSyslogSecurityPolicyOpenResult * bytes) :=
  let tag := takeZ GCM_TAG_SIZE tagIn in
  let! ctx := in_env EVP_CIPHER_CTX_new in
  match ctx with
  | Some ctx =>
      context_made ;;;
      let! setUp := in_env
        ((evp_init (fun ctx => EVP_DecryptInit_ex ctx (Some EVP_aes_256_gcm) None None) &&!
          evp_set_ivlen GCM_NONCE_SIZE &&!
          evp_init (fun ctx => EVP_DecryptInit_ex ctx None (Some key) (Some nonce)) &&!
          evp_aad EVP_DecryptUpdate aad aadLength &&!
          evp_body EVP_DecryptUpdate bodyLength &&!
          evp_tag EVP_CTRL_GCM_SET_TAG GCM_TAG_SIZE) (mkEvpRun ctx body 0 tag)) in
      let! result :=
        if fst setUp then
          let! final := in_env (evp_final EVP_DecryptFinal_ex (snd setUp)) in
          st_ret (if fst final then SOLIDSYSLOG_SECURITY_POLICY_OPEN_OPENED else SOLIDSYSLOG_SECURITY_POLICY_OPEN_REJECTED, snd final)
        else st_ret (SOLIDSYSLOG_SECURITY_POLICY_OPEN_COULD_NOT_RUN, snd setUp) in
      in_env (EVP_CIPHER_CTX_free (er_ctx (snd result))) ;;; context_freed ;;;
      st_ret (fst result, er_body (snd result))
  | None => st_ret (SOLIDSYSLOG_SECURITY_POLICY_OPEN_COULD_NOT_RUN, body)
  end.

(** The calls as SealRecord and OpenRecord make them. *)
Definition OpenSsl_draw (rng : Z) (area : bytes) : ST W (bool * bytes) :=
  let! r := RAND_bytes area GCM_NONCE_SIZE in st_ret (fst r =? 1, snd r).
Definition OpenSsl_encrypt (record : SolidSyslogSecurityRecord) (key : bytes) : ST (keyed_world W) (bool * SolidSyslogSecurityRecord) :=
  let! r := OpenSslAesGcmPolicy_GcmEncrypt key (sr_Trailer record) (record_body record) (record_body_length record)
              (sr_Content record) (sr_HeaderLength record) (dropZ GCM_NONCE_SIZE (sr_Trailer record)) in
  let '(ok, body, tag) := r in st_ret (ok, with_trailer_at GCM_NONCE_SIZE tag (with_body body record)).
Definition OpenSsl_decrypt (record : SolidSyslogSecurityRecord) (key : bytes)
    : ST (keyed_world W) (SolidSyslogSecurityPolicyOpenResult * SolidSyslogSecurityRecord) :=
  let! r := OpenSslAesGcmPolicy_GcmDecrypt key (sr_Trailer record) (record_body record) (record_body_length record)
              (sr_Content record) (sr_HeaderLength record) (dropZ GCM_NONCE_SIZE (sr_Trailer record)) in
  st_ret (fst r, with_body (snd r) record).

Definition OpenSslAesGcmPolicy_FetchKey := AesGcmPolicy_FetchKey (W := W) SolidSyslogOpenSslAesGcmPolicyErrorSource.
Definition OpenSslAesGcmPolicy_ReportFault := KeyedPolicy_ReportFault (W := W) SolidSyslogOpenSslAesGcmPolicyErrorSource.
Definition OpenSslAesGcmPolicy_SealRecord := AesGcmPolicy_SealRecord SolidSyslogOpenSslAesGcmPolicyErrorSource OpenSsl_draw OpenSsl_encrypt.
Definition OpenSslAesGcmPolicy_OpenRecord := AesGcmPolicy_OpenRecord SolidSyslogOpenSslAesGcmPolicyErrorSource OpenSsl_decrypt.
Definition SolidSyslogOpenSslAesGcmPolicy_Initialise := AesGcmPolicy_Initialise (W := W).

(** The HMAC is one call; [None] is where it would put the length. *)
Definition OpenSsl_hmac (key : bytes) (keyLength : Z) (data : bytes) (length : Z) (tagOut : bytes) : ST (keyed_world W) (bool * bytes) :=
  in_env (OpenSsl_HMAC EVP_sha256 key keyLength data length tagOut).
Definition OpenSslHmacSha256Policy_FetchKey := HmacSha256Policy_FetchKey (W := W) SolidSyslogOpenSslHmacSha256PolicyErrorSource.
Definition OpenSslHmacSha256Policy_ReportFault := KeyedPolicy_ReportFault (W := W) SolidSyslogOpenSslHmacSha256PolicyErrorSource.
Definition OpenSslHmacSha256Policy_ComputeTag := HmacSha256Policy_ComputeTag SolidSyslogOpenSslHmacSha256PolicyErrorSource OpenSsl_hmac.
Definition OpenSslHmacSha256Policy_SealRecord := HmacSha256Policy_SealRecord SolidSyslogOpenSslHmacSha256PolicyErrorSource OpenSsl_hmac.
Definition OpenSslHmacSha256Policy_OpenRecord := HmacSha256Policy_OpenRecord SolidSyslogOpenSslHmacSha256PolicyErrorSource OpenSsl_hmac.
Definition SolidSyslogOpenSslHmacSha256Policy_Initialise := HmacSha256Policy_Initialise (W := W).
End openssl.
Arguments evp_run : clear implicits.

(** ** What OpenSSL documents *)

(** A cipher context, as [EVP_EncryptInit(3)] describes it. *)
Record evp_state := mkEvpState {
  ev_Encrypting : bool; ev_IvLength : Z; ev_Key : bytes; ev_Nonce : bytes; ev_Aad : bytes; ev_Text : bytes; ev_Tag : bytes
}.
Definition evp_fresh (encrypting : bool) (v : evp_state) : Prop := ev_Encrypting v = encrypting.
Definition evp_keyed (key nonce : bytes) (v v' : evp_state) : Prop :=
  v' = mkEvpState (ev_Encrypting v) (ev_IvLength v) (takeZ AES_256_KEY_SIZE key) (takeZ (ev_IvLength v) nonce) [] [] [].

Class OpenSslCryptoSpec (W Ctx : Type) `{OpenSslCrypto W Ctx} (G : gcm_scheme) (M : mac_scheme) := {
  evp_view : Ctx -> evp_state;
  RAND_bytes_fills : forall area n e, let '(rc, bs) := fst (RAND_bytes area n e) in lenZ bs = lenZ area /\ (rc = 1 -> all_bytes bs);
  EncryptInit_cipher : forall c e, let '(rc, c') := fst (EVP_EncryptInit_ex c (Some EVP_aes_256_gcm) None None e) in
    rc = 1 -> evp_fresh true (evp_view c');
  DecryptInit_cipher : forall c e, let '(rc, c') := fst (EVP_DecryptInit_ex c (Some EVP_aes_256_gcm) None None e) in
    rc = 1 -> evp_fresh false (evp_view c');
  ctrl_ivlen : forall c n e, let '(rc, c', _) := fst (EVP_CIPHER_CTX_ctrl c EVP_CTRL_GCM_SET_IVLEN n None e) in
    rc = 1 -> ev_Encrypting (evp_view c') = ev_Encrypting (evp_view c) /\ ev_IvLength (evp_view c') = n;
  EncryptInit_key : forall c key nonce e, let '(rc, c') := fst (EVP_EncryptInit_ex c None (Some key) (Some nonce) e) in
    rc = 1 -> ev_Encrypting (evp_view c) = true -> evp_keyed key nonce (evp_view c) (evp_view c');
  DecryptInit_key : forall c key nonce e, let '(rc, c') := fst (EVP_DecryptInit_ex c None (Some key) (Some nonce) e) in
    rc = 1 -> ev_Encrypting (evp_view c) = false -> evp_keyed key nonce (evp_view c) (evp_view c');
  EncryptUpdate_aad : forall c aad n e, let '(rc, c', _, _) := fst (EVP_EncryptUpdate c None aad n e) in
    rc = 1 -> let v := evp_view c in evp_view c' = mkEvpState (ev_Encrypting v) (ev_IvLength v) (ev_Key v) (ev_Nonce v) (ev_Aad v ++ takeZ n aad) (ev_Text v) (ev_Tag v);
  DecryptUpdate_aad : forall c aad n e, let '(rc, c', _, _) := fst (EVP_DecryptUpdate c None aad n e) in
    rc = 1 -> let v := evp_view c in evp_view c' = mkEvpState (ev_Encrypting v) (ev_IvLength v) (ev_Key v) (ev_Nonce v) (ev_Aad v ++ takeZ n aad) (ev_Text v) (ev_Tag v);
  EncryptUpdate_text : forall c area text n e, let '(rc, c', area', outLength) := fst (EVP_EncryptUpdate c (Some area) text n e) in
    lenZ (default area area') = lenZ area /\
    (rc = 1 -> ev_Encrypting (evp_view c) = true -> ev_Text (evp_view c) = [] -> let v := evp_view c in
     let cipher := gcm_cipher G (ev_Key v) (ev_Nonce v) (ev_Aad v) (takeZ n text) in
     area' = Some (cipher ++ dropZ n area) /\ outLength = n /\
     evp_view c' = mkEvpState (ev_Encrypting v) (ev_IvLength v) (ev_Key v) (ev_Nonce v) (ev_Aad v) cipher (ev_Tag v));
  DecryptUpdate_text : forall c area text n e, let '(rc, c', area', outLength) := fst (EVP_DecryptUpdate c (Some area) text n e) in
    lenZ (default area area') = lenZ area /\
    (rc = 1 -> ev_Encrypting (evp_view c) = false -> ev_Text (evp_view c) = [] -> let v := evp_view c in
     area' = Some (gcm_plain G (ev_Key v) (ev_Nonce v) (ev_Aad v) (takeZ n text) ++ dropZ n area) /\ outLength = n /\
     evp_view c' = mkEvpState (ev_Encrypting v) (ev_IvLength v) (ev_Key v) (ev_Nonce v) (ev_Aad v) (takeZ n text) (ev_Tag v));
  EncryptFinal_gcm : forall c area e, let '(rc, c', area', _) := fst (EVP_EncryptFinal_ex c area e) in
    area' = area /\ (rc = 1 -> evp_view c' = evp_view c);
  ctrl_get_tag : forall c area e, let '(rc, c', area') := fst (EVP_CIPHER_CTX_ctrl c EVP_CTRL_GCM_GET_TAG GCM_TAG_SIZE (Some area) e) in
    lenZ (default area area') = lenZ area /\
    (rc = 1 -> lenZ area = GCM_TAG_SIZE -> let v := evp_view c in area' = Some (gcm_tag G (ev_Key v) (ev_Nonce v) (ev_Aad v) (ev_Text v)));
  ctrl_set_tag : forall c tag e, let '(rc, c', _) := fst (EVP_CIPHER_CTX_ctrl c EVP_CTRL_GCM_SET_TAG GCM_TAG_SIZE (Some tag) e) in
    rc = 1 -> let v := evp_view c in
    evp_view c' = mkEvpState (ev_Encrypting v) (ev_IvLength v) (ev_Key v) (ev_Nonce v) (ev_Aad v) (ev_Text v) (takeZ GCM_TAG_SIZE tag);
  (** For GCM the final call writes no bytes; it tells whether the tag is right. *)
  DecryptFinal_gcm : forall c area e, let '(rc, c', area', _) := fst (EVP_DecryptFinal_ex c area e) in
    area' = area /\ (ev_Encrypting (evp_view c) = false -> let v := evp_view c in
      rc = 1 <-> ev_Tag v = gcm_tag G (ev_Key v) (ev_Nonce v) (ev_Aad v) (ev_Text v));
  HMAC_sha256 : forall key keyLength data length area e, let '(ok, area') := fst (OpenSsl_HMAC EVP_sha256 key keyLength data length area e) in
    lenZ area = HMAC_SHA256_TAG_SIZE ->
    lenZ area' = lenZ area /\ (ok = true -> area' = mac_tag M (takeZ keyLength key) (takeZ length data))
}.

Lemma wp_and_then {S A} (m k : A -> ST S (bool * A)) a (Q : bool * A -> S -> Prop) s :
  wp (m a) (fun r s' => if fst r then wp (k (snd r)) Q s' else Q (false, snd r) s') s -> wp ((m &&! k) a) Q s.
Proof. intros Hm. unfold and_then. apply wp_bind. eapply wp_mono; [exact Hm |]. cbv beta. intros [[] a'] s'; cbn [fst snd]; [done |]. intros. by apply wp_ret. Qed.
(** A call of a library is its answer and the environment after it. *)
Lemma wp_any_call {S A} (m : ST S A) (Q : A -> S -> Prop) s : (forall s', Q (fst (m s)) s') -> wp m Q s.
Proof. intros HQ. unfold wp. apply HQ. Qed.
(** Do one call: [law] is what is known of its answer. *)
Tactic Notation "call" constr(law) "as" simple_intropattern(pat) simple_intropattern(facts) :=
  apply wp_any_call; let s' := fresh "e'" in intros s'; cbv beta; cbn [er_ctx er_body er_tag er_outLength set_field];
  let L := fresh "L" in pose proof law as L; revert L;
  lazymatch type of law with context [fst ?call] => destruct (fst call) as pat end; intros facts.

Section openssl_rules.
Context {W Ctx : Type} `{HT : ErrorTap W} `{C : OpenSslCrypto W Ctx} {G : gcm_scheme} {M : mac_scheme} `{CS : !OpenSslCryptoSpec W Ctx G M}.

(** After a call, an [&&] goes on or stops. *)
Ltac evp_next := apply wp_ret; cbn [fst snd er_ctx er_body er_tag er_outLength set_field]; 
  lazymatch goal with |- context [?rc =? 1] => destruct (Z.eqb_spec rc 1) as [-> |] end.

Lemma OpenSsl_encrypt_run ctx key nonce body n aad m tagOut e : lenZ tagOut = GCM_TAG_SIZE ->
  wp ((evp_init (fun ctx => EVP_EncryptInit_ex ctx (Some EVP_aes_256_gcm) None None) &&!
       evp_set_ivlen GCM_NONCE_SIZE &&!
       evp_init (fun ctx => EVP_EncryptInit_ex ctx None (Some key) (Some nonce)) &&!
       evp_aad EVP_EncryptUpdate aad m &&!
       evp_body EVP_EncryptUpdate n &&!
       evp_final EVP_EncryptFinal_ex &&!
       evp_tag EVP_CTRL_GCM_GET_TAG GCM_TAG_SIZE) (mkEvpRun ctx body 0 tagOut))
    (fun r _ => lenZ (er_body (snd r)) = lenZ body /\ lenZ (er_tag (snd r)) = lenZ tagOut /\
      (fst r = true ->
        let cipher := gcm_cipher G (takeZ AES_256_KEY_SIZE key) (takeZ GCM_NONCE_SIZE nonce) (takeZ m aad) (takeZ n body) in
        er_body (snd r) = cipher ++ dropZ n body /\
        er_tag (snd r) = gcm_tag G (takeZ AES_256_KEY_SIZE key) (takeZ GCM_NONCE_SIZE nonce) (takeZ m aad) cipher)) e.
Proof using CS.
  intros Ht.
  apply wp_and_then. unfold evp_init at 1. apply wp_bind. call (EncryptInit_cipher ctx e) as [rc c1] L1. evp_next; [| done]. specialize (L1 eq_refl).
  apply wp_and_then. unfold evp_set_ivlen at 1. apply wp_bind. call (ctrl_ivlen c1 GCM_NONCE_SIZE e') as [[rc c2] ?] L2. evp_next; [| done]. destruct (L2 eq_refl) as [L2a L2b].
  apply wp_and_then. unfold evp_init at 1. apply wp_bind. call (EncryptInit_key c2 key nonce e'0) as [rc c3] L3. evp_next; [| done].
  specialize (L3 eq_refl (eq_trans L2a L1)). unfold evp_keyed in L3. rewrite L2a, L2b, L1 in L3.
  apply wp_and_then. unfold evp_aad at 1. apply wp_bind. call (EncryptUpdate_aad c3 aad m e'1) as [[[rc c4] ?] ?] L4. evp_next; [| done].
  specialize (L4 eq_refl). rewrite L3 in L4. cbn in L4.
  apply wp_and_then. unfold evp_body at 1. apply wp_bind. call (EncryptUpdate_text c4 body body n e'2) as [[[rc c5] area] ?] [Ll L5]. evp_next; [| done].
  rewrite L4 in L5. cbn in L5. destruct (L5 eq_refl eq_refl eq_refl) as (-> & -> & L6). clear L5. cbn [default from_option id] in *.
  apply wp_and_then. unfold evp_final at 1. apply wp_bind. cbn [er_ctx er_body er_outLength set_field].
  set (cipher := gcm_cipher _ _ _ _ _) in *.
  call (EncryptFinal_gcm c5 (dropZ n (cipher ++ dropZ n body)) e'3) as [[[rc c6] area] ?] [-> L7]. rewrite takeZ_dropZ. evp_next; [| done].
  unfold evp_tag. apply wp_bind. call (ctrl_get_tag c6 tagOut e'4) as [[rc c7] tag] [Lt L8]. evp_next.
  - split; [exact Ll |]. split; [exact Lt |]. intros _. cbv zeta. split; [done |]. rewrite (L8 eq_refl Ht), (L7 eq_refl), L6. done.
  - split; [exact Ll |]. by split.
Qed.

(** Set up: the body is decrypted, the tag known; the final call tells. *)
Lemma OpenSsl_decrypt_run ctx key nonce body n aad m tag e :
  wp ((evp_init (fun ctx => EVP_DecryptInit_ex ctx (Some EVP_aes_256_gcm) None None) &&!
       evp_set_ivlen GCM_NONCE_SIZE &&!
       evp_init (fun ctx => EVP_DecryptInit_ex ctx None (Some key) (Some nonce)) &&!
       evp_aad EVP_DecryptUpdate aad m &&!
       evp_body EVP_DecryptUpdate n &&!
       evp_tag EVP_CTRL_GCM_SET_TAG GCM_TAG_SIZE) (mkEvpRun ctx body 0 tag))
    (fun r _ => lenZ (er_body (snd r)) = lenZ body /\
      (fst r = true -> let cipher := takeZ n body in let nonce := takeZ GCM_NONCE_SIZE nonce in let key := takeZ AES_256_KEY_SIZE key in
        er_body (snd r) = gcm_plain G key nonce (takeZ m aad) cipher ++ dropZ n body /\ er_outLength (snd r) = n /\
        evp_view (er_ctx (snd r)) = mkEvpState false GCM_NONCE_SIZE key nonce (takeZ m aad) cipher (takeZ GCM_TAG_SIZE tag))) e.
Proof using CS.
  apply wp_and_then. unfold evp_init at 1. apply wp_bind. call (DecryptInit_cipher ctx e) as [rc c1] L1. evp_next; [| done]. specialize (L1 eq_refl).
  apply wp_and_then. unfold evp_set_ivlen at 1. apply wp_bind. call (ctrl_ivlen c1 GCM_NONCE_SIZE e') as [[rc c2] ?] L2. evp_next; [| done]. destruct (L2 eq_refl) as [L2a L2b].
  apply wp_and_then. unfold evp_init at 1. apply wp_bind. call (DecryptInit_key c2 key nonce e'0) as [rc c3] L3. evp_next; [| done].
  specialize (L3 eq_refl (eq_trans L2a L1)). unfold evp_keyed in L3. rewrite L2a, L2b, L1 in L3.
  apply wp_and_then. unfold evp_aad at 1. apply wp_bind. call (DecryptUpdate_aad c3 aad m e'1) as [[[rc c4] ?] ?] L4. evp_next; [| done].
  specialize (L4 eq_refl). rewrite L3 in L4. cbn in L4.
  apply wp_and_then. unfold evp_body at 1. apply wp_bind. call (DecryptUpdate_text c4 body body n e'2) as [[[rc c5] area] ?] [Ll L5]. evp_next; [| done].
  rewrite L4 in L5. cbn in L5. destruct (L5 eq_refl eq_refl eq_refl) as (-> & -> & L6). clear L5. cbn [default from_option id] in *.
  unfold evp_tag. apply wp_bind. call (ctrl_set_tag c5 tag e'3) as [[rc c6] area] L7. evp_next; (split; [exact Ll |]); [| done].
  intros _. cbv zeta. split; [done |]. split; [done |]. rewrite (L7 eq_refl), L6. done.
Qed.

Lemma OpenSsl_final_run x e :
  wp (evp_final EVP_DecryptFinal_ex x) (fun r _ => er_body (snd r) = er_body x /\
    (ev_Encrypting (evp_view (er_ctx x)) = false -> let v := evp_view (er_ctx x) in
     fst r = true <-> ev_Tag v = gcm_tag G (ev_Key v) (ev_Nonce v) (ev_Aad v) (ev_Text v))) e.
Proof using CS.
  unfold evp_final. apply wp_bind. call (DecryptFinal_gcm (er_ctx x) (dropZ (er_outLength x) (er_body x)) e) as [[[rc c'] area] ?] [-> L].
  apply wp_ret. cbn [fst snd er_body set_field]. rewrite takeZ_dropZ. split; [done |]. intros He. rewrite Z.eqb_eq. by apply L.
Qed.

(** A record written over in place by what a library answers. *)
Lemma in_place_rewritten r body tag : lenZ (sr_Trailer r) = AES_GCM_TRAILER_SIZE -> lenZ body = lenZ (record_body r) -> lenZ tag = GCM_TAG_SIZE ->
  in_place r (with_trailer_at GCM_NONCE_SIZE tag (with_body body r)).
Proof using.
  intros Ht Hb Htag. destruct (cut_at (sr_HeaderLength r) (sr_Content r) body Hb) as [Ea _]. split; [| done]. split; [| split; [| exact Ea]].
  - cbn. rewrite lenZ_app, Hb, <- lenZ_app. unfold record_body. by rewrite takeZ_dropZ.
  - cbn. apply lenZ_spliceZ; [done |]. by rewrite Htag, Ht.
Qed.
Lemma in_place_body r body : lenZ body = lenZ (record_body r) -> in_place r (with_body body r).
Proof using.
  intros Hb. destruct (cut_at (sr_HeaderLength r) (sr_Content r) body Hb) as [Ea _]. split; [| done]. split; [| split; [done | exact Ea]].
  cbn. rewrite lenZ_app, Hb, <- lenZ_app. unfold record_body. by rewrite takeZ_dropZ.
Qed.
Lemma tag_area r : lenZ (sr_Trailer r) = AES_GCM_TRAILER_SIZE -> lenZ (dropZ GCM_NONCE_SIZE (sr_Trailer r)) = GCM_TAG_SIZE.
Proof using. intros Ht. rewrite lenZ_dropZ; rewrite Ht; done. Qed.
(** The trailer with the nonce kept and the tag written. *)
Lemma sealed_trailer r tag : lenZ (sr_Trailer r) = AES_GCM_TRAILER_SIZE -> lenZ tag = GCM_TAG_SIZE -> spliceZ (sr_Trailer r) GCM_NONCE_SIZE tag = record_nonce r ++ tag.
Proof using. intros Ht Hl. unfold spliceZ, record_nonce. rewrite Hl, (dropZ_ge _ (sr_Trailer r)), app_nil_r by (rewrite Ht; done). done. Qed.

Lemma OpenSsl_encrypts : gcm_encrypts G OpenSsl_encrypt.
Proof using CS.
  intros r key w Ht. unfold OpenSsl_encrypt, OpenSslAesGcmPolicy_GcmEncrypt, context_made, context_freed, keyed_happens. wp_steps.
  pose proof (tag_area r Ht) as Hta. apply wp_in_env. intros e. destruct (fst (EVP_CIPHER_CTX_new _)) as [ctx |]; wp_steps.
  - unfold in_env at 1. apply wp_zoom. eapply wp_mono; [by apply OpenSsl_encrypt_run |]. cbv beta.
    intros [ok x] e1 (Hb & Hl & Hs). rewrite Hta in Hl. cbn [fst snd] in *. wp_steps. apply wp_in_env. intros e2. wp_steps. cbn [snd fst].
    split; [by apply in_place_rewritten |]. split.
    { split; [done |]. exists [ContextMade; ContextFreed]. split; [by right |]. cbn. by rewrite <- app_assoc. }
    intros ->. destruct (Hs eq_refl) as [Eb Et]. unfold gcm_sealed, with_trailer_at, with_body. cbn [sr_Content sr_HeaderLength sr_Trailer set_field].
    rewrite sealed_trailer, Eb, Et by done. done.
  - split; [apply in_place_rewritten; done |]. split; [| done]. split; [done |]. exists []. split; [by left | by rewrite app_nil_r].
Qed.
Lemma OpenSsl_decrypts : gcm_decrypts G OpenSsl_decrypt.
Proof using CS.
  intros r key w Ht. unfold OpenSsl_decrypt, OpenSslAesGcmPolicy_GcmDecrypt, context_made, context_freed, keyed_happens. wp_steps.
  pose proof (tag_area r Ht) as Hta. apply wp_in_env. intros e. destruct (fst (EVP_CIPHER_CTX_new _)) as [ctx |]; wp_steps.
  - unfold in_env at 1. apply wp_zoom. eapply wp_mono; [apply OpenSsl_decrypt_run |]. cbv beta.
    intros [ok x] e1 (Hb & Hs). cbn [fst snd] in *. destruct ok; wp_steps.
    + destruct (Hs eq_refl) as (Eb & En & Ev). unfold in_env at 1. apply wp_zoom. eapply wp_mono; [apply OpenSsl_final_run |]. cbv beta.
      intros [ok x'] e2 (Eb' & L). rewrite Ev in L. specialize (L eq_refl). cbv zeta in L. cbn [fst snd ev_Tag ev_Key ev_Nonce ev_Aad ev_Text] in *.
      rewrite takeZ_takeZ in L. change (Z.min _ _) with GCM_TAG_SIZE in L. rewrite (takeZ_ge GCM_TAG_SIZE) in L by (rewrite Hta; done).
      wp_steps. apply wp_in_env. intros e3. wp_steps. cbn [fst snd]. rewrite Eb'. split; [by apply in_place_body |]. split.
      { split; [done |]. exists [ContextMade; ContextFreed]. split; [by right |]. cbn. by rewrite <- app_assoc. }
      split; [done |]. destruct ok; cbn [fst].
      * split; [by apply L |]. unfold gcm_opened, with_body. by rewrite Eb.
      * intros Etag. by apply L in Etag.
    + apply wp_in_env. intros e2. wp_steps. split; [by apply in_place_body |]. split; [| done].
      split; [done |]. exists [ContextMade; ContextFreed]. split; [by right |]. cbn. by rewrite <- app_assoc.
  - split; [by apply in_place_body |]. split; [| done]. split; [done |]. exists []. split; [by left | by rewrite app_nil_r].
Qed.
Lemma OpenSsl_draws : draws_nonces OpenSsl_draw.
Proof using CS.
  intros rng area e. pose proof (RAND_bytes_fills area GCM_NONCE_SIZE e) as L. unfold OpenSsl_draw, st_bind.
  destruct (RAND_bytes area GCM_NONCE_SIZE e) as [[rc bs] e']. destruct L as [Hl Hb]. cbn. split; [done |]. intros ->%Z.eqb_eq. by apply Hb.
Qed.
Lemma OpenSsl_computes_mac : computes_mac M OpenSsl_hmac.
Proof using CS.
  intros key n data m area w Ha. unfold OpenSsl_hmac. apply wp_in_env. intros e.
  pose proof (HMAC_sha256 key n data m area (kw_Env w)) as L. destruct (fst (OpenSsl_HMAC _ _ _ _ _ _ _)) as [ok bs]. destruct (L Ha) as [Hl Hs].
  split; [done |]. split; [| exact Hs]. split; [done |]. exists []. split; [by left | cbn; by rewrite app_nil_r].
Qed.
End openssl_rules.

(** * mbedTLS *)

(** A context is a value, handed to each call by its address. *)
Class MbedTlsCrypto (W Gcm : Type) := {
  MBEDTLS_CIPHER_ID_AES : Z;
  MBEDTLS_GCM_ENCRYPT : Z;
  MBEDTLS_ERR_GCM_AUTH_FAILED : Z;
  MBEDTLS_MD_SHA256 : Z;
  mbedtls_ctr_drbg_random : Z -> bytes -> Z -> ST W (Z * bytes);
  mbedtls_gcm_init : ST W Gcm;
  mbedtls_gcm_free : Gcm -> ST W unit;
  mbedtls_gcm_setkey : Gcm -> Z -> bytes -> Z -> ST W (Z * Gcm);
  (** mode, length, iv and its length, associated data and its length, input, output, tag length, tag *)
  mbedtls_gcm_crypt_and_tag : Gcm -> Z -> Z -> bytes -> Z -> bytes -> Z -> bytes -> bytes -> Z -> bytes -> ST W (Z * Gcm * bytes * bytes);
  (** length, iv and its length, associated data and its length, tag and its length, input, output *)
  mbedtls_gcm_auth_decrypt : Gcm -> Z -> bytes -> Z -> bytes -> Z -> bytes -> Z -> bytes -> bytes -> ST W (Z * Gcm * bytes);
  mbedtls_md_info_from_type : Z -> ST W (option Z);
  mbedtls_md_hmac : option Z -> bytes -> Z -> bytes -> Z -> bytes -> ST W (Z * bytes)
}.

Section mbedtls.
Context {W Gcm : Type} `{ErrorTap W} `{C : MbedTlsCrypto W Gcm}.

Definition MbedTlsAesGcmPolicy_GcmEncrypt (record : SolidSyslogSecurityRecord) (key : bytes) : ST (keyed_world W) (bool * SolidSyslogSecurityRecord) :=
  let body := record_body record in
  let bodyLength := record_body_length record in
  let! ctx := in_env mbedtls_gcm_init in
  context_made ;;;
  let! set := in_env (mbedtls_gcm_setkey ctx MBEDTLS_CIPHER_ID_AES key AES_256_KEY_BITS) in
  let! r :=
    if fst set =? 0 then
      let! done := in_env (mbedtls_gcm_crypt_and_tag (snd set) MBEDTLS_GCM_ENCRYPT bodyLength (sr_Trailer record) GCM_NONCE_SIZE
                             (sr_Content record) (sr_HeaderLength record) body body GCM_TAG_SIZE (dropZ GCM_NONCE_SIZE (sr_Trailer record))) in
      let '(rc, ctx, body, tag) := done in
      st_ret (rc =? 0, ctx, with_trailer_at GCM_NONCE_SIZE tag (with_body body record))
    else st_ret (false, snd set, record) in
  let '(ok, ctx, record) := r in
  in_env (mbedtls_gcm_free ctx) ;;; context_freed ;;;
  st_ret (ok, record).

Definition MbedTlsAesGcmPolicy_GcmDecrypt (record : SolidSyslogSecurityRecord) (key : bytes)
    : ST (keyed_world W) (SolidSyslogSecurityPolicyOpenResult * SolidSyslogSecurityRecord) :=
  let body := record_body record in
  let bodyLength := record_body_length record in
  let! ctx := in_env mbedtls_gcm_init in
  context_made ;;;
  let! set := in_env (mbedtls_gcm_setkey ctx MBEDTLS_CIPHER_ID_AES key AES_256_KEY_BITS) in
  let! r :=
    if fst set =? 0 then
      let! done := in_env (mbedtls_gcm_auth_decrypt (snd set) bodyLength (sr_Trailer record) GCM_NONCE_SIZE
                             (sr_Content record) (sr_HeaderLength record) (dropZ GCM_NONCE_SIZE (sr_Trailer record)) GCM_TAG_SIZE body body) in
      let '(verdict, ctx, body) := done in
      st_ret (if verdict =? 0 then SOLIDSYSLOG_SECURITY_POLICY_OPEN_OPENED
              else if verdict =? MBEDTLS_ERR_GCM_AUTH_FAILED then SOLIDSYSLOG_SECURITY_POLICY_OPEN_REJECTED
              else SOLIDSYSLOG_SECURITY_POLICY_OPEN_COULD_NOT_RUN, ctx, with_body body record)
    else st_ret (SOLIDSYSLOG_SECURITY_POLICY_OPEN_COULD_NOT_RUN, snd set, record) in
  let '(result, ctx, record) := r in
  in_env (mbedtls_gcm_free ctx) ;;; context_freed ;;;
  st_ret (result, record).

Definition MbedTls_draw (rng : Z) (area : bytes) : ST W (bool * bytes) :=
  let! r := mbedtls_ctr_drbg_random rng area GCM_NONCE_SIZE in st_ret (fst r =? 0, snd r).
Definition MbedTlsAesGcmPolicy_FetchKey := AesGcmPolicy_FetchKey (W := W) SolidSyslogMbedTlsAesGcmPolicyErrorSource.
Definition MbedTlsAesGcmPolicy_ReportFault := KeyedPolicy_ReportFault (W := W) SolidSyslogMbedTlsAesGcmPolicyErrorSource.
Definition MbedTlsAesGcmPolicy_SealRecord := AesGcmPolicy_SealRecord SolidSyslogMbedTlsAesGcmPolicyErrorSource MbedTls_draw MbedTlsAesGcmPolicy_GcmEncrypt.
Definition MbedTlsAesGcmPolicy_OpenRecord := AesGcmPolicy_OpenRecord SolidSyslogMbedTlsAesGcmPolicyErrorSource MbedTlsAesGcmPolicy_GcmDecrypt.
Definition SolidSyslogMbedTlsAesGcmPolicy_Initialise := AesGcmPolicy_Initialise (W := W).

Definition MbedTls_hmac (key : bytes) (keyLength : Z) (data : bytes) (length : Z) (tagOut : bytes) : ST (keyed_world W) (bool * bytes) :=
  let! sha256 := in_env (mbedtls_md_info_from_type MBEDTLS_MD_SHA256) in
  let! r := in_env (mbedtls_md_hmac sha256 key keyLength data length tagOut) in
  st_ret (fst r =? 0, snd r).
Definition MbedTlsHmacSha256Policy_FetchKey := HmacSha256Policy_FetchKey (W := W) SolidSyslogMbedTlsHmacSha256PolicyErrorSource.
Definition MbedTlsHmacSha256Policy_ReportFault := KeyedPolicy_ReportFault (W := W) SolidSyslogMbedTlsHmacSha256PolicyErrorSource.
Definition MbedTlsHmacSha256Policy_ComputeTag := HmacSha256Policy_ComputeTag SolidSyslogMbedTlsHmacSha256PolicyErrorSource MbedTls_hmac.
Definition MbedTlsHmacSha256Policy_SealRecord := HmacSha256Policy_SealRecord SolidSyslogMbedTlsHmacSha256PolicyErrorSource MbedTls_hmac.
Definition MbedTlsHmacSha256Policy_OpenRecord := HmacSha256Policy_OpenRecord SolidSyslogMbedTlsHmacSha256PolicyErrorSource MbedTls_hmac.
Definition SolidSyslogMbedTlsHmacSha256Policy_Initialise := HmacSha256Policy_Initialise (W := W).
End mbedtls.

(** ** What mbedTLS documents *)

Class MbedTlsCryptoSpec (W Gcm : Type) `{MbedTlsCrypto W Gcm} (G : gcm_scheme) (M : mac_scheme) := {
  gcm_key : Gcm -> option bytes;
  auth_failed_is_error : MBEDTLS_ERR_GCM_AUTH_FAILED <> 0;
  ctr_drbg_fills : forall rng area n e, let '(rc, bs) := fst (mbedtls_ctr_drbg_random rng area n e) in lenZ bs = lenZ area /\ (rc = 0 -> all_bytes bs);
  setkey_sets : forall c key e, let '(rc, c') := fst (mbedtls_gcm_setkey c MBEDTLS_CIPHER_ID_AES key AES_256_KEY_BITS e) in
    rc = 0 -> gcm_key c' = Some (takeZ AES_256_KEY_SIZE key);
  crypt_and_tag_seals : forall c n iv ivLength aad aadLength input output tag e,
    let '(rc, _, output', tag') := fst (mbedtls_gcm_crypt_and_tag c MBEDTLS_GCM_ENCRYPT n iv ivLength aad aadLength input output GCM_TAG_SIZE tag e) in
    lenZ output' = lenZ output /\ lenZ tag' = lenZ tag /\
    (rc = 0 -> lenZ tag = GCM_TAG_SIZE -> forall key, gcm_key c = Some key ->
     let cipher := gcm_cipher G key (takeZ ivLength iv) (takeZ aadLength aad) (takeZ n input) in
     output' = cipher ++ dropZ n output /\ tag' = gcm_tag G key (takeZ ivLength iv) (takeZ aadLength aad) cipher);
  auth_decrypt_opens : forall c n iv ivLength aad aadLength tag input output e,
    let '(rc, _, output') := fst (mbedtls_gcm_auth_decrypt c n iv ivLength aad aadLength tag GCM_TAG_SIZE input output e) in
    lenZ output' = lenZ output /\ forall key, gcm_key c = Some key ->
    let cipher := takeZ n input in
    (rc = 0 -> takeZ GCM_TAG_SIZE tag = gcm_tag G key (takeZ ivLength iv) (takeZ aadLength aad) cipher /\
       output' = gcm_plain G key (takeZ ivLength iv) (takeZ aadLength aad) cipher ++ dropZ n output) /\
    (rc = MBEDTLS_ERR_GCM_AUTH_FAILED -> takeZ GCM_TAG_SIZE tag <> gcm_tag G key (takeZ ivLength iv) (takeZ aadLength aad) cipher);
  md_hmac_computes : forall info key keyLength data length area e e', info = fst (mbedtls_md_info_from_type MBEDTLS_MD_SHA256 e) ->
    let '(rc, area') := fst (mbedtls_md_hmac info key keyLength data length area e') in
    lenZ area = HMAC_SHA256_TAG_SIZE ->
    lenZ area' = lenZ area /\ (rc = 0 -> area' = mac_tag M (takeZ keyLength key) (takeZ length data))
}.

(** One context, taken and given back. *)
Lemma one_context {W} (w w' : keyed_world W) : kw_Self w' = kw_Self w -> kw_Trace w' = (kw_Trace w ++ [ContextMade]) ++ [ContextFreed] -> library_call w w'.
Proof. intros Es Et. split; [done |]. exists [ContextMade; ContextFreed]. split; [by right |]. by rewrite Et, <- app_assoc. Qed.
Lemma no_context {W} (w w' : keyed_world W) : kw_Self w' = kw_Self w -> kw_Trace w' = kw_Trace w -> library_call w w'.
Proof. intros Es Et. split; [done |]. exists []. split; [by left | by rewrite app_nil_r]. Qed.

Section mbedtls_rules.
Context {W Gcm : Type} `{HT : ErrorTap W} `{C : MbedTlsCrypto W Gcm} {G : gcm_scheme} {M : mac_scheme} `{CS : !MbedTlsCryptoSpec W Gcm G M}.

Lemma MbedTls_encrypts : gcm_encrypts G (MbedTlsAesGcmPolicy_GcmEncrypt (C := C)).
Proof using CS.
  intros r key w Ht. unfold MbedTlsAesGcmPolicy_GcmEncrypt, context_made, context_freed, keyed_happens. wp_steps. pose proof (tag_area r Ht) as Hta.
  apply wp_in_env. intros e. set (ctx := fst _). wp_steps. apply wp_in_env. intros e1. cbn [kw_Env set_field].
  pose proof (setkey_sets ctx key e) as Lk. destruct (fst (mbedtls_gcm_setkey _ _ _ _ _)) as [rc ctx']. cbn [fst snd]. wp_steps.
  destruct (Z.eqb_spec rc 0) as [-> |]; wp_steps.
  - apply wp_in_env. intros e2. cbn [kw_Env set_field].
    pose proof (crypt_and_tag_seals ctx' (record_body_length r) (sr_Trailer r) GCM_NONCE_SIZE (sr_Content r) (sr_HeaderLength r) (record_body r) (record_body r) (dropZ GCM_NONCE_SIZE (sr_Trailer r)) e1) as L.
    destruct (fst (mbedtls_gcm_crypt_and_tag _ _ _ _ _ _ _ _ _ _ _ _)) as [[[rc ctx2] body] tag]. destruct L as (Lb & Lt & L). wp_steps.
    apply wp_in_env. intros e3. wp_steps. cbn [fst snd]. rewrite Hta in Lt. split; [by apply in_place_rewritten |]. split; [by apply one_context |].
    intros ->%Z.eqb_eq. destruct (L eq_refl Hta _ (Lk eq_refl)) as [-> ->].
    unfold gcm_sealed, with_trailer_at, with_body. cbn [sr_Content sr_HeaderLength sr_Trailer set_field]. by rewrite sealed_trailer.
  - apply wp_in_env. intros e3. wp_steps. cbn [fst snd]. split; [done |]. split; [by apply one_context | done].
Qed.
Lemma MbedTls_decrypts : gcm_decrypts G (MbedTlsAesGcmPolicy_GcmDecrypt (C := C)).
Proof using CS.
  intros r key w Ht. unfold MbedTlsAesGcmPolicy_GcmDecrypt, context_made, context_freed, keyed_happens. wp_steps. pose proof (tag_area r Ht) as Hta.
  apply wp_in_env. intros e. set (ctx := fst _). wp_steps. apply wp_in_env. intros e1. cbn [kw_Env set_field].
  pose proof (setkey_sets ctx key e) as Lk. destruct (fst (mbedtls_gcm_setkey _ _ _ _ _)) as [rc ctx']. cbn [fst snd]. wp_steps.
  destruct (Z.eqb_spec rc 0) as [-> |]; wp_steps.
  - apply wp_in_env. intros e2. cbn [kw_Env set_field].
    pose proof (auth_decrypt_opens ctx' (record_body_length r) (sr_Trailer r) GCM_NONCE_SIZE (sr_Content r) (sr_HeaderLength r) (dropZ GCM_NONCE_SIZE (sr_Trailer r)) (record_body r) (record_body r) e1) as L.
    destruct (fst (mbedtls_gcm_auth_decrypt _ _ _ _ _ _ _ _ _ _ _)) as [[rc ctx2] body]. destruct L as (Lb & L). wp_steps.
    apply wp_in_env. intros e3. wp_steps. cbn [fst snd]. split; [by apply in_place_body |]. split; [by apply one_context |]. split; [done |].
    destruct (L _ (Lk eq_refl)) as [Lo Lr]. cbv zeta in Lo, Lr. rewrite (takeZ_ge GCM_TAG_SIZE) in Lo, Lr by (rewrite Hta; done).
    destruct (Z.eqb_spec rc 0) as [-> |]; [| destruct (Z.eqb_spec rc MBEDTLS_ERR_GCM_AUTH_FAILED) as [-> |]; [by apply Lr | done]].
    destruct (Lo eq_refl) as [Et ->]. by split.
  - apply wp_in_env. intros e3. wp_steps. cbn [fst snd]. split; [done |]. split; [by apply one_context | done].
Qed.
Lemma MbedTls_draws : draws_nonces (MbedTls_draw (C := C)).
Proof using CS.
  intros rng area e. pose proof (ctr_drbg_fills rng area GCM_NONCE_SIZE e) as L. unfold MbedTls_draw, st_bind.
  destruct (mbedtls_ctr_drbg_random rng area GCM_NONCE_SIZE e) as [[rc bs] e']. destruct L as [Hl Hb]. cbn. split; [done |]. intros ->%Z.eqb_eq. by apply Hb.
Qed.
Lemma MbedTls_computes_mac : computes_mac M (MbedTls_hmac (C := C)).
Proof using CS.
  intros key n data m area w Ha. unfold MbedTls_hmac. wp_steps. apply wp_in_env. intros e. set (info := fst _). wp_steps. apply wp_in_env. intros e1. cbn [kw_Env set_field].
  pose proof (md_hmac_computes info key n data m area (kw_Env w) e eq_refl) as L. destruct (fst (mbedtls_md_hmac _ _ _ _ _ _ _)) as [rc bs].
  destruct (L Ha) as [Hl Hs]. wp_steps. cbn [fst snd]. split; [done |]. split; [by apply no_context |]. intros ->%Z.eqb_eq. by apply Hs.
Qed.
End mbedtls_rules.

(** * wolfSSL *)

Class WolfSslCrypto (W Aes Hmac : Type) := {
  INVALID_DEVID : Z;
  AES_GCM_AUTH_E : Z;
  WC_SHA256 : Z;
  wc_RNG_GenerateBlock : Z -> bytes -> Z -> ST W (Z * bytes);
  wc_AesInit : Z -> ST W (Z * Aes);
  wc_AesFree : Aes -> ST W unit;
  wc_AesGcmSetKey : Aes -> bytes -> Z -> ST W (Z * Aes);
  (** output, input, length, iv and its length, tag, tag length, associated data and its length *)
  wc_AesGcmEncrypt : Aes -> bytes -> bytes -> Z -> bytes -> Z -> bytes -> Z -> bytes -> Z -> ST W (Z * Aes * bytes * bytes);
  wc_AesGcmDecrypt : Aes -> bytes -> bytes -> Z -> bytes -> Z -> bytes -> Z -> bytes -> Z -> ST W (Z * Aes * bytes);
  wc_HmacInit : Z -> ST W (Z * Hmac);
  wc_HmacFree : Hmac -> ST W unit;
  wc_HmacSetKey : Hmac -> Z -> bytes -> Z -> ST W (Z * Hmac);
  wc_HmacUpdate : Hmac -> bytes -> Z -> ST W (Z * Hmac);
  wc_HmacFinal : Hmac -> bytes -> ST W (Z * Hmac * bytes)
}.

Definition SOLIDSYSLOG_WOLFSSL_AES_GCM_POLICY_KEY_SIZE : Z := 32.
Definition SOLIDSYSLOG_WOLFSSL_AES_GCM_POLICY_NONCE_SIZE : Z := 12.
Definition SOLIDSYSLOG_WOLFSSL_AES_GCM_POLICY_TAG_SIZE : Z := 16.
Definition SOLIDSYSLOG_WOLFSSL_AES_GCM_POLICY_TRAILER_SIZE : Z :=
  SOLIDSYSLOG_WOLFSSL_AES_GCM_POLICY_NONCE_SIZE + SOLIDSYSLOG_WOLFSSL_AES_GCM_POLICY_TAG_SIZE.

Section wolfssl.
Context {W Aes Hmac : Type} `{ErrorTap W} `{C : WolfSslCrypto W Aes Hmac}.
Abbreviation NONCE_SIZE := SOLIDSYSLOG_WOLFSSL_AES_GCM_POLICY_NONCE_SIZE.
Abbreviation TAG_SIZE := SOLIDSYSLOG_WOLFSSL_AES_GCM_POLICY_TAG_SIZE.

Definition SolidSyslogWolfSslAesGcmPolicy_GcmEncrypt (record : SolidSyslogSecurityRecord) (key : bytes) : ST (keyed_world W) (bool * SolidSyslogSecurityRecord) :=
  let body := record_body record in
  let bodyLength := record_body_length record in
  let! init := in_env (wc_AesInit INVALID_DEVID) in
  if fst init =? 0 then
    context_made ;;;
    let! set := in_env (wc_AesGcmSetKey (snd init) key SOLIDSYSLOG_WOLFSSL_AES_GCM_POLICY_KEY_SIZE) in
    let! r :=
      if fst set =? 0 then
        let! done := in_env (wc_AesGcmEncrypt (snd set) body body bodyLength (sr_Trailer record) NONCE_SIZE
                               (dropZ NONCE_SIZE (sr_Trailer record)) TAG_SIZE (sr_Content record) (sr_HeaderLength record)) in
        let '(rc, aes, body, tag) := done in
        st_ret (rc =? 0, aes, with_trailer_at NONCE_SIZE tag (with_body body record))
      else st_ret (false, snd set, record) in
    let '(ok, aes, record) := r in
    in_env (wc_AesFree aes) ;;; context_freed ;;;
    st_ret (ok, record)
  else st_ret (false, record).

Definition SolidSyslogWolfSslAesGcmPolicy_GcmDecrypt (record : SolidSyslogSecurityRecord) (key : bytes)
    : ST (keyed_world W) (SolidSyslogSecurityPolicyOpenResult * SolidSyslogSecurityRecord) :=
  let body := record_body record in
  let bodyLength := record_body_length record in
  let! init := in_env (wc_AesInit INVALID_DEVID) in
  if fst init =? 0 then
    context_made ;;;
    let! set := in_env (wc_AesGcmSetKey (snd init) key SOLIDSYSLOG_WOLFSSL_AES_GCM_POLICY_KEY_SIZE) in
    let! r :=
      if fst set =? 0 then
        let! done := in_env (wc_AesGcmDecrypt (snd set) body body bodyLength (sr_Trailer record) NONCE_SIZE
                               (dropZ NONCE_SIZE (sr_Trailer record)) TAG_SIZE (sr_Content record) (sr_HeaderLength record)) in
        let '(verdict, aes, body) := done in
        st_ret (if verdict =? 0 then SOLIDSYSLOG_SECURITY_POLICY_OPEN_OPENED
                else if verdict =? AES_GCM_AUTH_E then SOLIDSYSLOG_SECURITY_POLICY_OPEN_REJECTED
                else SOLIDSYSLOG_SECURITY_POLICY_OPEN_COULD_NOT_RUN, aes, with_body body record)
      else st_ret (SOLIDSYSLOG_SECURITY_POLICY_OPEN_COULD_NOT_RUN, snd set, record) in
    let '(result, aes, record) := r in
    in_env (wc_AesFree aes) ;;; context_freed ;;;
    st_ret (result, record)
  else st_ret (SOLIDSYSLOG_SECURITY_POLICY_OPEN_COULD_NOT_RUN, record).

Definition WolfSsl_draw (rng : Z) (area : bytes) : ST W (bool * bytes) :=
  let! r := wc_RNG_GenerateBlock rng area NONCE_SIZE in st_ret (fst r =? 0, snd r).
Definition WolfSslAesGcmPolicy_FetchKey := AesGcmPolicy_FetchKey (W := W) SolidSyslogWolfSslAesGcmPolicyErrorSource.
Definition WolfSslAesGcmPolicy_ReportFault := KeyedPolicy_ReportFault (W := W) SolidSyslogWolfSslAesGcmPolicyErrorSource.
Definition WolfSslAesGcmPolicy_SealRecord := AesGcmPolicy_SealRecord SolidSyslogWolfSslAesGcmPolicyErrorSource WolfSsl_draw SolidSyslogWolfSslAesGcmPolicy_GcmEncrypt.
Definition WolfSslAesGcmPolicy_OpenRecord := AesGcmPolicy_OpenRecord SolidSyslogWolfSslAesGcmPolicyErrorSource SolidSyslogWolfSslAesGcmPolicy_GcmDecrypt.
Definition SolidSyslogWolfSslAesGcmPolicy_Initialise := AesGcmPolicy_Initialise (W := W).

Definition WolfSslHmacSha256Policy_Hmac (key : bytes) (keyLength : Z) (data : bytes) (length : Z) (tagOut : bytes) : ST (keyed_world W) (bool * bytes) :=
  let! init := in_env (wc_HmacInit INVALID_DEVID) in
  if fst init =? 0 then
    context_made ;;;
    let! r := in_env
      (((fun x : Hmac * bytes => let! r := wc_HmacSetKey (fst x) WC_SHA256 key keyLength in st_ret (fst r =? 0, (snd r, snd x))) &&!
        (fun x => let! r := wc_HmacUpdate (fst x) data length in st_ret (fst r =? 0, (snd r, snd x))) &&!
        (fun x => let! r := wc_HmacFinal (fst x) (snd x) in let '(rc, hmac, tag) := r in st_ret (rc =? 0, (hmac, tag)))) (snd init, tagOut)) in
    in_env (wc_HmacFree (fst (snd r))) ;;; context_freed ;;;
    st_ret (fst r, snd (snd r))
  else st_ret (false, tagOut).
Definition WolfSslHmacSha256Policy_FetchKey := HmacSha256Policy_FetchKey (W := W) SolidSyslogWolfSslHmacSha256PolicyErrorSource.
Definition WolfSslHmacSha256Policy_ReportFault := KeyedPolicy_ReportFault (W := W) SolidSyslogWolfSslHmacSha256PolicyErrorSource.
Definition WolfSslHmacSha256Policy_ComputeTag := HmacSha256Policy_ComputeTag SolidSyslogWolfSslHmacSha256PolicyErrorSource WolfSslHmacSha256Policy_Hmac.
Definition WolfSslHmacSha256Policy_SealRecord := HmacSha256Policy_SealRecord SolidSyslogWolfSslHmacSha256PolicyErrorSource WolfSslHmacSha256Policy_Hmac.
Definition WolfSslHmacSha256Policy_OpenRecord := HmacSha256Policy_OpenRecord SolidSyslogWolfSslHmacSha256PolicyErrorSource WolfSslHmacSha256Policy_Hmac.
Definition SolidSyslogWolfSslHmacSha256Policy_Initialise := HmacSha256Policy_Initialise (W := W).
End wolfssl.

(** ** What wolfSSL documents *)

Class WolfSslCryptoSpec (W Aes Hmac : Type) `{WolfSslCrypto W Aes Hmac} (G : gcm_scheme) (M : mac_scheme) := {
  aes_key_of : Aes -> option bytes;
  (** The key and what it was given since. *)
  hmac_state : Hmac -> option (bytes * bytes);
  auth_e_is_error : AES_GCM_AUTH_E <> 0;
  GenerateBlock_fills : forall rng area n e, let '(rc, bs) := fst (wc_RNG_GenerateBlock rng area n e) in lenZ bs = lenZ area /\ (rc = 0 -> all_bytes bs);
  AesGcmSetKey_sets : forall c key e, let '(rc, c') := fst (wc_AesGcmSetKey c key AES_256_KEY_SIZE e) in
    rc = 0 -> aes_key_of c' = Some (takeZ AES_256_KEY_SIZE key);
  AesGcmEncrypt_seals : forall c output input n iv ivLength tag aad aadLength e,
    let '(rc, _, output', tag') := fst (wc_AesGcmEncrypt c output input n iv ivLength tag GCM_TAG_SIZE aad aadLength e) in
    lenZ output' = lenZ output /\ lenZ tag' = lenZ tag /\
    (rc = 0 -> lenZ tag = GCM_TAG_SIZE -> forall key, aes_key_of c = Some key ->
     let cipher := gcm_cipher G key (takeZ ivLength iv) (takeZ aadLength aad) (takeZ n input) in
     output' = cipher ++ dropZ n output /\ tag' = gcm_tag G key (takeZ ivLength iv) (takeZ aadLength aad) cipher);
  AesGcmDecrypt_opens : forall c output input n iv ivLength tag aad aadLength e,
    let '(rc, _, output') := fst (wc_AesGcmDecrypt c output input n iv ivLength tag GCM_TAG_SIZE aad aadLength e) in
    lenZ output' = lenZ output /\ forall key, aes_key_of c = Some key ->
    let cipher := takeZ n input in
    (rc = 0 -> takeZ GCM_TAG_SIZE tag = gcm_tag G key (takeZ ivLength iv) (takeZ aadLength aad) cipher /\
       output' = gcm_plain G key (takeZ ivLength iv) (takeZ aadLength aad) cipher ++ dropZ n output) /\
    (rc = AES_GCM_AUTH_E -> takeZ GCM_TAG_SIZE tag <> gcm_tag G key (takeZ ivLength iv) (takeZ aadLength aad) cipher);
  HmacSetKey_sets : forall h key n e, let '(rc, h') := fst (wc_HmacSetKey h WC_SHA256 key n e) in rc = 0 -> hmac_state h' = Some (takeZ n key, []);
  HmacUpdate_adds : forall h data n e, let '(rc, h') := fst (wc_HmacUpdate h data n e) in
    rc = 0 -> forall key before, hmac_state h = Some (key, before) -> hmac_state h' = Some (key, before ++ takeZ n data);
  HmacFinal_tells : forall h area e, let '(rc, _, area') := fst (wc_HmacFinal h area e) in
    lenZ area = HMAC_SHA256_TAG_SIZE ->
    lenZ area' = lenZ area /\ (rc = 0 -> forall key data, hmac_state h = Some (key, data) -> area' = mac_tag M key data)
}.

Section wolfssl_rules.
Context {W Aes Hmac : Type} `{HT : ErrorTap W} `{C : WolfSslCrypto W Aes Hmac} {G : gcm_scheme} {M : mac_scheme} `{CS : !WolfSslCryptoSpec W Aes Hmac G M}.

Lemma WolfSsl_encrypts : gcm_encrypts G (SolidSyslogWolfSslAesGcmPolicy_GcmEncrypt (C := C)).
Proof using CS.
  intros r key w Ht. unfold SolidSyslogWolfSslAesGcmPolicy_GcmEncrypt, context_made, context_freed, keyed_happens. wp_steps. pose proof (tag_area r Ht) as Hta.
  apply wp_in_env. intros e. destruct (fst (wc_AesInit _ _)) as [rc aes]. cbn [fst snd]. destruct (Z.eqb_spec rc 0) as [-> |]; wp_steps.
  - apply wp_in_env. intros e1. cbn [kw_Env set_field].
    pose proof (AesGcmSetKey_sets aes key e) as Lk. change SOLIDSYSLOG_WOLFSSL_AES_GCM_POLICY_KEY_SIZE with AES_256_KEY_SIZE.
    destruct (fst (wc_AesGcmSetKey _ _ _ _)) as [rc aes']. cbn [fst snd]. wp_steps. destruct (Z.eqb_spec rc 0) as [-> |]; wp_steps.
    + apply wp_in_env. intros e2. cbn [kw_Env set_field].
      pose proof (AesGcmEncrypt_seals aes' (record_body r) (record_body r) (record_body_length r) (sr_Trailer r) GCM_NONCE_SIZE (dropZ GCM_NONCE_SIZE (sr_Trailer r)) (sr_Content r) (sr_HeaderLength r) e1) as L.
      change SOLIDSYSLOG_WOLFSSL_AES_GCM_POLICY_NONCE_SIZE with GCM_NONCE_SIZE. change SOLIDSYSLOG_WOLFSSL_AES_GCM_POLICY_TAG_SIZE with GCM_TAG_SIZE.
      destruct (fst (wc_AesGcmEncrypt _ _ _ _ _ _ _ _ _ _ _)) as [[[rc aes2] body] tag]. destruct L as (Lb & Lt & L). wp_steps.
      apply wp_in_env. intros e3. wp_steps. cbn [fst snd]. rewrite Hta in Lt. split; [by apply in_place_rewritten |]. split; [by apply one_context |].
      intros ->%Z.eqb_eq. destruct (L eq_refl Hta _ (Lk eq_refl)) as [-> ->].
      unfold gcm_sealed, with_trailer_at, with_body. cbn [sr_Content sr_HeaderLength sr_Trailer set_field]. by rewrite sealed_trailer.
    + apply wp_in_env. intros e3. wp_steps. cbn [fst snd]. split; [done |]. split; [by apply one_context | done].
  - split; [done |]. split; [by apply no_context | done].
Qed.
Lemma WolfSsl_decrypts : gcm_decrypts G (SolidSyslogWolfSslAesGcmPolicy_GcmDecrypt (C := C)).
Proof using CS.
  intros r key w Ht. unfold SolidSyslogWolfSslAesGcmPolicy_GcmDecrypt, context_made, context_freed, keyed_happens. wp_steps. pose proof (tag_area r Ht) as Hta.
  apply wp_in_env. intros e. destruct (fst (wc_AesInit _ _)) as [rc aes]. cbn [fst snd]. destruct (Z.eqb_spec rc 0) as [-> |]; wp_steps.
  - apply wp_in_env. intros e1. cbn [kw_Env set_field].
    pose proof (AesGcmSetKey_sets aes key e) as Lk. change SOLIDSYSLOG_WOLFSSL_AES_GCM_POLICY_KEY_SIZE with AES_256_KEY_SIZE.
    destruct (fst (wc_AesGcmSetKey _ _ _ _)) as [rc aes']. cbn [fst snd]. wp_steps. destruct (Z.eqb_spec rc 0) as [-> |]; wp_steps.
    + apply wp_in_env. intros e2. cbn [kw_Env set_field].
      pose proof (AesGcmDecrypt_opens aes' (record_body r) (record_body r) (record_body_length r) (sr_Trailer r) GCM_NONCE_SIZE (dropZ GCM_NONCE_SIZE (sr_Trailer r)) (sr_Content r) (sr_HeaderLength r) e1) as L.
      change SOLIDSYSLOG_WOLFSSL_AES_GCM_POLICY_NONCE_SIZE with GCM_NONCE_SIZE. change SOLIDSYSLOG_WOLFSSL_AES_GCM_POLICY_TAG_SIZE with GCM_TAG_SIZE.
      destruct (fst (wc_AesGcmDecrypt _ _ _ _ _ _ _ _ _ _ _)) as [[rc aes2] body]. destruct L as (Lb & L). wp_steps.
      apply wp_in_env. intros e3. wp_steps. cbn [fst snd]. split; [by apply in_place_body |]. split; [by apply one_context |]. split; [done |].
      destruct (L _ (Lk eq_refl)) as [Lo Lr]. cbv zeta in Lo, Lr. rewrite (takeZ_ge GCM_TAG_SIZE) in Lo, Lr by (rewrite Hta; done).
      destruct (Z.eqb_spec rc 0) as [-> |]; [| destruct (Z.eqb_spec rc AES_GCM_AUTH_E) as [-> |]; [by apply Lr | done]].
      destruct (Lo eq_refl) as [Et ->]. by split.
    + apply wp_in_env. intros e3. wp_steps. cbn [fst snd]. split; [done |]. split; [by apply one_context | done].
  - split; [done |]. split; [by apply no_context | done].
Qed.
Lemma WolfSsl_draws : draws_nonces (WolfSsl_draw (C := C)).
Proof using CS.
  intros rng area e. pose proof (GenerateBlock_fills rng area GCM_NONCE_SIZE e) as L. unfold WolfSsl_draw, st_bind.
  change SOLIDSYSLOG_WOLFSSL_AES_GCM_POLICY_NONCE_SIZE with GCM_NONCE_SIZE.
  destruct (wc_RNG_GenerateBlock rng area GCM_NONCE_SIZE e) as [[rc bs] e']. destruct L as [Hl Hb]. cbn. split; [done |]. intros ->%Z.eqb_eq. by apply Hb.
Qed.
Lemma WolfSsl_hmac_run h key n data m tagOut e : lenZ tagOut = HMAC_SHA256_TAG_SIZE ->
  wp (((fun x : Hmac * bytes => let! r := wc_HmacSetKey (fst x) WC_SHA256 key n in st_ret (fst r =? 0, (snd r, snd x))) &&!
       (fun x => let! r := wc_HmacUpdate (fst x) data m in st_ret (fst r =? 0, (snd r, snd x))) &&!
       (fun x => let! r := wc_HmacFinal (fst x) (snd x) in let '(rc, hmac, tag) := r in st_ret (rc =? 0, (hmac, tag)))) (h, tagOut))
    (fun r _ => lenZ (snd (snd r)) = lenZ tagOut /\ (fst r = true -> snd (snd r) = mac_tag M (takeZ n key) (takeZ m data))) e.
Proof using CS.
  intros Ht. apply wp_and_then, wp_bind. cbn [fst snd]. call (HmacSetKey_sets h key n e) as [rc h1] L1. apply wp_ret. cbn [fst snd].
  destruct (Z.eqb_spec rc 0) as [-> |]; [| done].
  apply wp_and_then, wp_bind. cbn [fst snd]. call (HmacUpdate_adds h1 data m e') as [rc h2] L2. apply wp_ret. cbn [fst snd].
  destruct (Z.eqb_spec rc 0) as [-> |]; [| done].
  apply wp_bind. cbn [fst snd]. call (HmacFinal_tells h2 tagOut e'0) as [[rc h3] tag] L3. apply wp_ret. cbn [fst snd].
  destruct (L3 Ht) as [Hl Hs]. split; [done |]. intros ->%Z.eqb_eq. exact (Hs eq_refl _ _ (L2 eq_refl _ _ (L1 eq_refl))).
Qed.
Lemma WolfSsl_computes_mac : computes_mac M (WolfSslHmacSha256Policy_Hmac (C := C)).
Proof using CS.
  intros key n data m area w Ha. unfold WolfSslHmacSha256Policy_Hmac, context_made, context_freed, keyed_happens. wp_steps. apply wp_in_env. intros e.
  destruct (fst (wc_HmacInit _ _)) as [rc h]. cbn [fst snd]. destruct (Z.eqb_spec rc 0) as [-> |]; wp_steps; [| by repeat split; [apply no_context |]].
  unfold in_env at 1. apply wp_zoom. eapply wp_mono; [by apply WolfSsl_hmac_run |]. cbv beta. intros [ok [h' tag]] e1 (Hl & Hs). cbn [fst snd] in *. wp_steps.
  apply wp_in_env. intros e2. wp_steps. cbn [fst snd]. split; [done |]. split; [by apply one_context | exact Hs].
Qed.
End wolfssl_rules.

(** * The six policies *)

Inductive keyed_kind := OpenSslAesGcm | MbedTlsAesGcm | WolfSslAesGcm | OpenSslHmacSha256 | MbedTlsHmacSha256 | WolfSslHmacSha256.

Section policies.
Context {W Ctx Gcm Aes Hmac : Type} `{HT : ErrorTap W} `{CO : OpenSslCrypto W Ctx} `{CM : MbedTlsCrypto W Gcm} `{CW : WolfSslCrypto W Aes Hmac}.
Context (uninitialised : bytes).
Implicit Types (kind : keyed_kind) (r : SolidSyslogSecurityRecord) (w : keyed_world W).

Definition is_aes kind : bool := match kind with OpenSslAesGcm | MbedTlsAesGcm | WolfSslAesGcm => true | _ => false end.
Definition keyed_source kind : SolidSyslogErrorSource :=
  match kind with
  | OpenSslAesGcm => SolidSyslogOpenSslAesGcmPolicyErrorSource
  | MbedTlsAesGcm => SolidSyslogMbedTlsAesGcmPolicyErrorSource
  | WolfSslAesGcm => SolidSyslogWolfSslAesGcmPolicyErrorSource
  | OpenSslHmacSha256 => SolidSyslogOpenSslHmacSha256PolicyErrorSource
  | MbedTlsHmacSha256 => SolidSyslogMbedTlsHmacSha256PolicyErrorSource
  | WolfSslHmacSha256 => SolidSyslogWolfSslHmacSha256PolicyErrorSource
  end.
Definition keyed_trailer kind : Z :=
  match kind with
  | OpenSslAesGcm | MbedTlsAesGcm => AES_GCM_TRAILER_SIZE
  | WolfSslAesGcm => SOLIDSYSLOG_WOLFSSL_AES_GCM_POLICY_TRAILER_SIZE
  | _ => HMAC_SHA256_TAG_SIZE
  end.
Definition keyed_seal kind : SolidSyslogSecurityRecord -> ST (keyed_world W) (bool * SolidSyslogSecurityRecord) :=
  match kind with
  | OpenSslAesGcm => OpenSslAesGcmPolicy_SealRecord
  | MbedTlsAesGcm => MbedTlsAesGcmPolicy_SealRecord
  | WolfSslAesGcm => WolfSslAesGcmPolicy_SealRecord
  | OpenSslHmacSha256 => OpenSslHmacSha256Policy_SealRecord
  | MbedTlsHmacSha256 => MbedTlsHmacSha256Policy_SealRecord
  | WolfSslHmacSha256 => WolfSslHmacSha256Policy_SealRecord
  end.
Definition keyed_open kind : SolidSyslogSecurityRecord -> ST (keyed_world W) (SolidSyslogSecurityPolicyOpenResult * SolidSyslogSecurityRecord) :=
  match kind with
  | OpenSslAesGcm => OpenSslAesGcmPolicy_OpenRecord
  | MbedTlsAesGcm => MbedTlsAesGcmPolicy_OpenRecord
  | WolfSslAesGcm => WolfSslAesGcmPolicy_OpenRecord
  | OpenSslHmacSha256 => OpenSslHmacSha256Policy_OpenRecord uninitialised
  | MbedTlsHmacSha256 => MbedTlsHmacSha256Policy_OpenRecord uninitialised
  | WolfSslHmacSha256 => WolfSslHmacSha256Policy_OpenRecord uninitialised
  end.
Definition keyed_initialise kind : keyed_config W -> keyed_policy W -> keyed_policy W :=
  match kind with
  | OpenSslAesGcm => SolidSyslogOpenSslAesGcmPolicy_Initialise
  | MbedTlsAesGcm => SolidSyslogMbedTlsAesGcmPolicy_Initialise
  | WolfSslAesGcm => SolidSyslogWolfSslAesGcmPolicy_Initialise
  | OpenSslHmacSha256 => SolidSyslogOpenSslHmacSha256Policy_Initialise
  | MbedTlsHmacSha256 => SolidSyslogMbedTlsHmacSha256Policy_Initialise
  | WolfSslHmacSha256 => SolidSyslogWolfSslHmacSha256Policy_Initialise
  end.

(** The lengths of key it takes, and the buffer it asks for one in. *)
Definition keyed_valid kind (n : Z) : bool := if is_aes kind then n =? AES_256_KEY_SIZE else HmacSha256Policy_KeyLengthIsValid n.
Definition keyed_buffer kind : Z := if is_aes kind then AES_256_KEY_SIZE else SOLIDSYSLOG_MAX_HMAC_KEY_SIZE.
Definition seal_faults kind : fault_due := if is_aes kind then aes_seal_faults else hmac_faults SOLIDSYSLOG_CAT_SECURITY_POLICY_SEAL_FAILED.
Definition open_faults kind : fault_due := if is_aes kind then aes_open_faults else hmac_faults SOLIDSYSLOG_CAT_SECURITY_POLICY_OPEN_FAILED.

(** What the trailer of a record says under a key, and the content it stands for. *)
Definition authentic (G : gcm_scheme) (M : mac_scheme) kind (key : bytes) r : Prop :=
  if is_aes kind then record_tag r = gcm_tag_of G key r else sr_Trailer r = mac_tag M key (sr_Content r).
Definition content_of (G : gcm_scheme) kind (key : bytes) r : bytes :=
  if is_aes kind then sr_Content (gcm_opened G key r) else sr_Content r.

Context {G : gcm_scheme} {M : mac_scheme} (GL : gcm_laws G) (ML : mac_laws M).
Context `{SO : !OpenSslCryptoSpec W Ctx G M} `{SM : !MbedTlsCryptoSpec W Gcm G M} `{SW : !WolfSslCryptoSpec W Aes Hmac G M}.
Context (area : lenZ uninitialised = HMAC_SHA256_TAG_SIZE).

(** What is known of sealing and opening, for any of the six. *)
Lemma keyed_seal_spec kind r w : lenZ (sr_Trailer r) = keyed_trailer kind ->
  wp (keyed_seal kind r) (fun x w' =>
    in_place r (snd x) /\ called (keyed_source kind) (keyed_buffer kind) (seal_faults kind) (fst x) w w' /\
    (fst x = true -> forall key, answers_key (kp_Config (kw_Self w)) (keyed_valid kind) key ->
       authentic G M kind key (snd x) /\ content_of G kind key (snd x) = sr_Content r)) w.
Proof using GL SO SM SW.
  assert (HA : forall x : bool * SolidSyslogSecurityRecord, (fst x = true -> forall key, answers_key (kp_Config (kw_Self w)) (fun n => n =? AES_256_KEY_SIZE) key ->
       exists nonce, lenZ nonce = GCM_NONCE_SIZE /\ all_bytes nonce /\ snd x = gcm_sealed G key nonce r) ->
     fst x = true -> forall key, answers_key (kp_Config (kw_Self w)) (fun n => n =? AES_256_KEY_SIZE) key ->
     record_tag (snd x) = gcm_tag_of G key (snd x) /\ sr_Content (gcm_opened G key (snd x)) = sr_Content r).
  { intros x Hx Ht key Hk. destruct (Hx Ht key Hk) as (nonce & Hl & _ & ->).
    destruct (gcm_sealed_parts G GL key nonce r Hl) as (_ & _ & _ & _ & Etag & _). split; [exact Etag | by apply opened_sealed]. }
  intros Ht. destruct kind; cbn [keyed_seal keyed_source keyed_trailer] in *.
  1, 2, 3: eapply wp_mono; [apply (AesSealRecord_spec _ G); [first [exact OpenSsl_draws | exact MbedTls_draws | exact WolfSsl_draws]
      | first [exact OpenSsl_encrypts | exact MbedTls_encrypts | exact WolfSsl_encrypts] | exact Ht] |];
    intros x w' (Hp & Hc & Hs); split; [exact Hp |]; split; [exact Hc |]; exact (HA x Hs).
  all: eapply wp_mono; [apply (HmacSealRecord_spec _ M); [first [exact OpenSsl_computes_mac | exact MbedTls_computes_mac | exact WolfSsl_computes_mac] | exact Ht] |];
    intros x w' (Hp & Ec & Hc & Hs); split; [exact Hp |]; split; [exact Hc |]; intros Hx key Hk;
    destruct (Hs Hx) as [_ Hkey]; specialize (Hkey key Hk); split; [unfold authentic; cbn; by rewrite Ec | exact Ec].
Qed.
Lemma keyed_open_spec kind r w : lenZ (sr_Trailer r) = keyed_trailer kind ->
  wp (keyed_open kind r) (fun x w' =>
    in_place r (snd x) /\ sr_Trailer (snd x) = sr_Trailer r /\
    called (keyed_source kind) (keyed_buffer kind) (open_faults kind) (verdict_reached (fst x)) w w' /\
    forall key, answers_key (kp_Config (kw_Self w)) (keyed_valid kind) key -> all_bytes (sr_Trailer r) ->
      match fst x with
      | SOLIDSYSLOG_SECURITY_POLICY_OPEN_OPENED => authentic G M kind key r /\ sr_Content (snd x) = content_of G kind key r
      | SOLIDSYSLOG_SECURITY_POLICY_OPEN_REJECTED => ~ authentic G M kind key r
      | SOLIDSYSLOG_SECURITY_POLICY_OPEN_COULD_NOT_RUN => True
      end) w.
Proof using ML SO SM SW area.
  intros Ht. destruct kind; cbn [keyed_open keyed_source keyed_trailer] in *.
  1, 2, 3: eapply wp_mono; [apply (AesOpenRecord_spec _ G); [first [exact OpenSsl_decrypts | exact MbedTls_decrypts | exact WolfSsl_decrypts] | exact Ht] |];
    intros x w' (Hp & Et & Hc & Hv); split; [exact Hp |]; split; [exact Et |]; split; [exact Hc |]; intros key Hk _; specialize (Hv key Hk);
    destruct (fst x); [exact Hv | | done]; destruct Hv as [? ->]; by split.
  all: eapply wp_mono; [apply (HmacOpenRecord_spec _ M ML); [first [exact OpenSsl_computes_mac | exact MbedTls_computes_mac | exact WolfSsl_computes_mac] | exact area | exact Ht] |];
    intros x w' (-> & Hc & Hv); split; [done |]; split; [done |]; split; [exact Hc |]; intros key Hk Hb; specialize (Hv key Hk Hb);
    destruct (fst x); [exact Hv | by split | done].
Qed.
(** ** Runs of calls *)

Inductive keyed_call := SealCall (record : SolidSyslogSecurityRecord) | OpenCall (record : SolidSyslogSecurityRecord) | Between (change : W -> W).
(** Each answers whether a seal or a verdict was reached. *)
Definition keyed_step kind (c : keyed_call) : ST (keyed_world W) bool :=
  match c with
  | SealCall record => let! x := keyed_seal kind record in st_ret (fst x)
  | OpenCall record => let! x := keyed_open kind record in st_ret (verdict_reached (fst x))
  | Between change => st_mod (fun w => w <| kw_Env := change (kw_Env w) |>) ;;; st_ret true
  end.
Fixpoint keyed_run kind (calls : list keyed_call) : ST (keyed_world W) (list bool) :=
  match calls with
  | [] => st_ret []
  | c :: calls => let! ok := keyed_step kind c in let! answers := keyed_run kind calls in st_ret (ok :: answers)
  end.
Definition keyed_fresh kind (config : keyed_config W) (self : keyed_policy W) (e : W) : keyed_world W :=
  mkKeyedWorld (keyed_initialise kind config self) e [].

(** The story of a run, from whether a fault of the present run of them was reported:
    each call as [call_story] has it, and nothing is seen between calls. *)
Inductive faults_story kind : bool -> list keyed_call -> list bool -> list keyed_event -> Prop :=
| faults_end b : faults_story kind b [] [] []
| faults_seal b b' r calls ok answers es rest :
    call_story (keyed_source kind) (keyed_buffer kind) (seal_faults kind) ok b b' es -> faults_story kind b' calls answers rest ->
    faults_story kind b (SealCall r :: calls) (ok :: answers) (es ++ rest)
| faults_open b b' r calls ok answers es rest :
    call_story (keyed_source kind) (keyed_buffer kind) (open_faults kind) ok b b' es -> faults_story kind b' calls answers rest ->
    faults_story kind b (OpenCall r :: calls) (ok :: answers) (es ++ rest)
| faults_between b change calls answers rest :
    faults_story kind b calls answers rest -> faults_story kind b (Between change :: calls) (true :: answers) rest.

(** The store gives every record a trailer of the policy's size. *)
Definition right_trailer kind (c : keyed_call) : Prop :=
  match c with SealCall r | OpenCall r => lenZ (sr_Trailer r) = keyed_trailer kind | Between _ => True end.

Lemma keyed_run_story kind calls : Forall (right_trailer kind) calls -> forall w,
  wp (keyed_run kind calls) (fun answers w' => exists es, kw_Trace w' = kw_Trace w ++ es /\
    faults_story kind (kp_FaultReported (kw_Self w)) calls answers es) w.
Proof using GL ML SO SM SW area.
  induction 1 as [| c calls Hc _ IH]; intros w; cbn [keyed_run].
  { apply wp_ret. exists []. split; [by rewrite app_nil_r | constructor]. }
  apply wp_bind. destruct c as [r | r | change]; cbn [keyed_step]; apply wp_bind.
  - eapply wp_mono; [by apply keyed_seal_spec |]. intros x w1 (_ & (_ & es & Et & Hs) & _). wp_steps. eapply wp_mono; [apply IH |].
    intros answers w2 (rest & Et2 & Hr). wp_steps. exists (es ++ rest). split; [by rewrite Et2, Et, <- app_assoc | by eapply faults_seal].
  - eapply wp_mono; [by apply keyed_open_spec |]. intros x w1 (_ & _ & (_ & es & Et & Hs) & _). wp_steps. eapply wp_mono; [apply IH |].
    intros answers w2 (rest & Et2 & Hr). wp_steps. exists (es ++ rest). split; [by rewrite Et2, Et, <- app_assoc | by eapply faults_open].
  - wp_steps. eapply wp_mono; [apply IH |]. intros answers w2 (rest & Et2 & Hr). wp_steps. exists rest. split; [exact Et2 | by apply faults_between].
Qed.
End policies.

(** * Properties *)

Section properties.
Context {W Ctx Gcm Aes Hmac : Type} `{HT : ErrorTap W} `{CO : OpenSslCrypto W Ctx} `{CM : MbedTlsCrypto W Gcm} `{CW : WolfSslCrypto W Aes Hmac}.
Context (G : gcm_scheme) (M : mac_scheme) (GL : gcm_laws G) (ML : mac_laws M).
Context `{SO : !OpenSslCryptoSpec W Ctx G M} `{SM : !MbedTlsCryptoSpec W Gcm G M} `{SW : !WolfSslCryptoSpec W Aes Hmac G M}.
Context (uninitialised : bytes) (area : lenZ uninitialised = HMAC_SHA256_TAG_SIZE).

(** C20. Each of the six keyed policies is a security policy.  Over any library that does
    what it documents, any key callback that has one key (and may fail, or give none,
    when it likes), and in any state: the policy writes within the record and not over
    its header, what it seals is bytes again, and a record it sealed is never rejected
    by it afterwards, whatever happened between; opened, it has its content back.  These
    are the laws of the [SecurityPolicy] interface, so all that is proved of record and
    block stores holds over it. *)
Theorem keyed_policies_keep_laws (kind : keyed_kind) (config : keyed_config W) (key : bytes) :
  answers_key config (keyed_valid kind) key ->
  SecurityPolicySpec (keyed_world W) (H := keyed_vtable config (keyed_trailer kind) (keyed_seal kind) (keyed_open uninitialised kind)).
Proof using GL ML SO SM SW area.
  intros Hk. destruct kind.
  1, 2, 3: eapply (AesGcmPolicy_laws _ config key G); [exact GL | first [exact OpenSsl_draws | exact MbedTls_draws | exact WolfSsl_draws]
    | first [exact OpenSsl_encrypts | exact MbedTls_encrypts | exact WolfSsl_encrypts]
    | first [exact OpenSsl_decrypts | exact MbedTls_decrypts | exact WolfSsl_decrypts] | exact Hk].
  all: eapply (HmacSha256Policy_laws _ config key M); [exact ML
    | first [exact OpenSsl_computes_mac | exact MbedTls_computes_mac | exact WolfSsl_computes_mac] | exact area | exact Hk].
Qed.

(** C28. Nothing is opened but what is authentic.  Given any record with a trailer of the
    policy's size, an opening that reaches a verdict says exactly whether the trailer
    holds the tag of the record under the key: the HMAC of its content, or the GCM tag
    of its header and its body as stored, with the nonce that is there.  Opened, the
    record holds the content its ciphertext stands for; and what a successful seal
    leaves in place of a record is authentic and stands for that record's content. *)
Theorem keyed_policies_authenticate (kind : keyed_kind) (key : bytes) (r : SolidSyslogSecurityRecord) (w : keyed_world W) :
  answers_key (kp_Config (kw_Self w)) (keyed_valid kind) key -> lenZ (sr_Trailer r) = keyed_trailer kind -> all_bytes (sr_Trailer r) ->
  (let '(result, r') := fst (keyed_open uninitialised kind r w) in
   sr_Trailer r' = sr_Trailer r /\ takeZ (sr_HeaderLength r) (sr_Content r') = takeZ (sr_HeaderLength r) (sr_Content r) /\
   match result with
   | SOLIDSYSLOG_SECURITY_POLICY_OPEN_OPENED => authentic G M kind key r /\ sr_Content r' = content_of G kind key r
   | SOLIDSYSLOG_SECURITY_POLICY_OPEN_REJECTED => ~ authentic G M kind key r
   | SOLIDSYSLOG_SECURITY_POLICY_OPEN_COULD_NOT_RUN => True
   end) /\
  (let '(sealed, r') := fst (keyed_seal kind r w) in
   sealed = true -> authentic G M kind key r' /\ content_of G kind key r' = sr_Content r).
Proof using GL ML SO SM SW area.
  intros Hk Ht Hb. split.
  - destruct (keyed_open_spec uninitialised ML area kind r w Ht) as ([(_ & _ & Hh) _] & Et & _ & Hv). specialize (Hv key Hk Hb).
    destruct (fst (keyed_open uninitialised kind r w)) as [v r']. done.
  - destruct (keyed_seal_spec GL kind r w Ht) as (_ & _ & Hs). destruct (fst (keyed_seal kind r w)) as [ok r']. intros ->. by apply Hs.
Qed.

(** C40. Faults are reported once per run, and keys are wiped.  Over any run of seals and
    openings of an initialised policy, whatever the key callback, the library and the
    rest of the program do: a call that reaches no verdict reports its fault when the
    call before it did reach one (or there was none) and is silent otherwise; no other
    call reports anything.  Which fault it is, category and code, follows from what was
    answered: the key refused or of a wrong length, the nonce not drawn, the sealing or
    tagging failed, the opening not run.  In every call the key is asked for once, first,
    and the whole buffer it was asked for in is wiped last; every context taken of the
    library is given back. *)
Theorem keyed_faults_are_reported_once (kind : keyed_kind) (config : keyed_config W) (self : keyed_policy W) (e : W) (calls : list keyed_call) :
  Forall (right_trailer kind) calls ->
  let '(answers, w) := keyed_run uninitialised kind calls (keyed_fresh kind config self e) in
  faults_story kind false calls answers (kw_Trace w).
Proof using GL ML SO SM SW area.
  intros Hc. pose proof (keyed_run_story uninitialised GL ML area kind calls Hc (keyed_fresh kind config self e)) as H.
  unfold wp in H. destruct (keyed_run _ _ _ _) as [answers w]. destruct H as (es & E & Hs). cbn [fst snd keyed_fresh kw_Trace kw_Self app] in *.
  rewrite E. by destruct kind.
Qed.
End properties.

(** * Libraries to run it on *)

(** Schemes that keep the laws, and nothing secret. *)
Definition to_size (n : nat) (bs : bytes) : bytes := map u8 (take n (bs ++ repeat 0 n)).
Definition toy_gcm : gcm_scheme := mkGcmScheme (fun _ _ _ text => rev text) (fun _ _ _ text => rev text)
  (fun key nonce aad text => to_size 16 (text ++ aad ++ nonce ++ key)).
Definition toy_mac : mac_scheme := mkMacScheme (fun key data => to_size 32 (data ++ key)).

Lemma to_size_length n bs : lenZ (to_size n bs) = Z.of_nat n.
Proof. unfold to_size, lenZ. rewrite length_map, length_take, length_app, repeat_length. lia. Qed.
Lemma to_size_bytes n bs : all_bytes (to_size n bs).
Proof. unfold to_size. apply Forall_map, Forall_true. intros x. apply u8_range. Qed.
Lemma lenZ_rev {A} (l : list A) : lenZ (rev l) = lenZ l.
Proof. unfold lenZ. by rewrite length_rev. Qed.
Lemma toy_gcm_laws : gcm_laws toy_gcm.
Proof.
  constructor; intros; cbn [gcm_cipher gcm_plain gcm_tag toy_gcm]; [by rewrite rev_involutive | apply lenZ_rev | apply lenZ_rev | | apply to_size_length | apply to_size_bytes].
  by apply Forall_rev.
Qed.
Lemma toy_mac_laws : mac_laws toy_mac.
Proof. constructor; intros; [apply to_size_length | apply to_size_bytes]. Qed.

(** Libraries whose calls all work; a nonce is zeros. *)
Definition zeros (bs : bytes) : bytes := map (fun _ => 0) bs.
Lemma zeros_spec bs : lenZ (zeros bs) = lenZ bs /\ all_bytes (zeros bs).
Proof. split; [unfold lenZ, zeros; by rewrite length_map |]. apply Forall_map, Forall_true. done. Qed.
(** An answer written over an area, when it has its size. *)
Definition fits (area answer : bytes) : bool := lenZ answer =? lenZ area.
Definition write_over (area answer : bytes) : bytes := if fits area answer then answer else area.
Definition code_of (success failure : Z) (ok : bool) : Z := if ok then success else failure.
Lemma lenZ_write_over area answer : lenZ (write_over area answer) = lenZ area.
Proof. unfold write_over, fits. by destruct (Z.eqb_spec (lenZ answer) (lenZ area)). Qed.
Lemma write_over_fits area answer : fits area answer = true -> write_over area answer = answer.
Proof. unfold write_over. by intros ->. Qed.

Definition toy_cipher (key nonce aad text area : bytes) (n : Z) : bytes := gcm_cipher toy_gcm key nonce aad (takeZ n text) ++ dropZ n area.

Definition evp_write (c : evp_state) (area answer : bytes) (text : bytes) (n : Z) : Z * evp_state * option bytes * Z :=
  (code_of 1 0 (fits area answer),
   mkEvpState (ev_Encrypting c) (ev_IvLength c) (ev_Key c) (ev_Nonce c) (ev_Aad c) text (ev_Tag c), Some (write_over area answer), n).
Definition evp_update (c : evp_state) (area : option bytes) (text : bytes) (n : Z) : Z * evp_state * option bytes * Z :=
  match area with
  | None => (1, mkEvpState (ev_Encrypting c) (ev_IvLength c) (ev_Key c) (ev_Nonce c) (ev_Aad c ++ takeZ n text) (ev_Text c) (ev_Tag c), None, n)
  | Some area =>
      let cipher := rev (takeZ n text) in
      evp_write c area (cipher ++ dropZ n area) (if ev_Encrypting c then cipher else takeZ n text) n
  end.
Definition evp_rekey (c : evp_state) (encrypting : bool) (cipher : option Z) (key nonce : option bytes) : Z * evp_state :=
  match cipher with
  | Some _ => (1, mkEvpState encrypting 12 [] [] [] [] [])
  | None => (1, mkEvpState (ev_Encrypting c) (ev_IvLength c) (takeZ AES_256_KEY_SIZE (default [] key)) (takeZ (ev_IvLength c) (default [] nonce)) [] [] [])
  end.
Definition evp_tag_of (c : evp_state) : bytes := gcm_tag toy_gcm (ev_Key c) (ev_Nonce c) (ev_Aad c) (ev_Text c).
Definition evp_ctrl (c : evp_state) (ctrl n : Z) (area : option bytes) : Z * evp_state * option bytes :=
  if ctrl =? 1 then (1, mkEvpState (ev_Encrypting c) n (ev_Key c) (ev_Nonce c) (ev_Aad c) (ev_Text c) (ev_Tag c), area)
  else match area with
       | Some tag =>
           if ctrl =? 2 then (code_of 1 0 (fits tag (evp_tag_of c)), c, Some (write_over tag (evp_tag_of c)))
           else (1, mkEvpState (ev_Encrypting c) (ev_IvLength c) (ev_Key c) (ev_Nonce c) (ev_Aad c) (ev_Text c) (takeZ n tag), area)
       | None => (0, c, area)
       end.
#[export] Instance toy_openssl : OpenSslCrypto ErrorState evp_state := {
  EVP_aes_256_gcm := 1; EVP_CTRL_GCM_SET_IVLEN := 1; EVP_CTRL_GCM_GET_TAG := 2; EVP_CTRL_GCM_SET_TAG := 3;
  RAND_bytes := fun area _ => st_ret (1, zeros area);
  EVP_CIPHER_CTX_new := st_ret (Some (mkEvpState true 0 [] [] [] [] []));
  EVP_CIPHER_CTX_free := fun _ => st_ret tt;
  EVP_EncryptInit_ex := fun c cipher key nonce => st_ret (evp_rekey c true cipher key nonce);
  EVP_DecryptInit_ex := fun c cipher key nonce => st_ret (evp_rekey c false cipher key nonce);
  EVP_CIPHER_CTX_ctrl := fun c ctrl n area => st_ret (evp_ctrl c ctrl n area);
  EVP_EncryptUpdate := fun c area text n => st_ret (evp_update c area text n);
  EVP_DecryptUpdate := fun c area text n => st_ret (evp_update c area text n);
  EVP_EncryptFinal_ex := fun c area => st_ret (1, c, area, 0);
  EVP_DecryptFinal_ex := fun c area => st_ret (code_of 1 0 (bool_decide (ev_Tag c = evp_tag_of c)), c, area, 0);
  EVP_sha256 := 1;
  OpenSsl_HMAC := fun _ key n data m area => let tag := mac_tag toy_mac (takeZ n key) (takeZ m data) in st_ret (fits area tag, write_over area tag)
}.
Lemma code_success success failure ok : success <> failure -> code_of success failure ok = success -> ok = true.
Proof. by destruct ok. Qed.
#[export] Program Instance toy_openssl_spec : OpenSslCryptoSpec ErrorState evp_state toy_gcm toy_mac := { evp_view := fun c => c }.
Next Obligation. intros. cbn. destruct (zeros_spec area). by split. Qed.
Next Obligation. done. Qed.
Next Obligation. done. Qed.
Next Obligation. done. Qed.
Next Obligation. done. Qed.
Next Obligation. done. Qed.
Next Obligation. done. Qed.
Next Obligation. done. Qed.
Next Obligation.
  intros c area text n e. cbn -[write_over fits]. split; [apply lenZ_write_over |].
  intros Hf%code_success He _; [| done]. rewrite write_over_fits by done. rewrite He. done.
Qed.
Next Obligation.
  intros c area text n e. cbn -[write_over fits]. split; [apply lenZ_write_over |].
  intros Hf%code_success He _; [| done]. rewrite write_over_fits by done. rewrite He. done.
Qed.
Next Obligation. done. Qed.
Next Obligation.
  intros c area e. cbn -[write_over fits]. split; [apply lenZ_write_over |]. intros Hf%code_success _; [| done]. by rewrite write_over_fits.
Qed.
Next Obligation. done. Qed.
Next Obligation. intros c area e. cbn. split; [done |]. intros _. unfold evp_tag_of. case_bool_decide; cbn; by split. Qed.
Next Obligation.
  intros. cbn -[write_over fits]. intros _. split; [apply lenZ_write_over |]. intros Hf. by rewrite write_over_fits.
Qed.

(** The other two libraries, made of the same pieces: a context is its key. *)
Definition toy_seal (c : option bytes) (iv aad input output tag : bytes) (n ivLength aadLength : Z) : Z * option bytes * bytes * bytes :=
  let key := default [] c in
  let cipher := gcm_cipher toy_gcm key (takeZ ivLength iv) (takeZ aadLength aad) (takeZ n input) in
  let output' := cipher ++ dropZ n output in
  let tag' := gcm_tag toy_gcm key (takeZ ivLength iv) (takeZ aadLength aad) cipher in
  if fits output output' && fits tag tag' then (0, c, output', tag') else (1, c, output, tag).
Definition toy_open (c : option bytes) (iv aad tag input output : bytes) (n ivLength aadLength : Z) : Z * option bytes * bytes :=
  let key := default [] c in
  let output' := gcm_plain toy_gcm key (takeZ ivLength iv) (takeZ aadLength aad) (takeZ n input) ++ dropZ n output in
  if bool_decide (takeZ GCM_TAG_SIZE tag = gcm_tag toy_gcm key (takeZ ivLength iv) (takeZ aadLength aad) (takeZ n input))
  then if fits output output' then (0, c, output') else (1, c, output)
  else (-18, c, output).
Definition toy_hmac (key data area : bytes) : Z * bytes :=
  let tag := mac_tag toy_mac key data in (code_of 0 1 (fits area tag), write_over area tag).

Lemma toy_seal_seals c iv aad input output tag n ivLength aadLength :
  let '(rc, _, output', tag') := toy_seal c iv aad input output tag n ivLength aadLength in
  lenZ output' = lenZ output /\ lenZ tag' = lenZ tag /\
  (rc = 0 -> lenZ tag = GCM_TAG_SIZE -> forall key, c = Some key ->
   let cipher := gcm_cipher toy_gcm key (takeZ ivLength iv) (takeZ aadLength aad) (takeZ n input) in
   output' = cipher ++ dropZ n output /\ tag' = gcm_tag toy_gcm key (takeZ ivLength iv) (takeZ aadLength aad) cipher).
Proof.
  unfold toy_seal. destruct (_ && _) eqn:E; [| done]. apply andb_prop in E as [E1%Z.eqb_eq E2%Z.eqb_eq].
  split; [done |]. split; [done |]. by intros _ _ key ->.
Qed.
Lemma toy_open_opens c iv aad tag input output n ivLength aadLength :
  let '(rc, _, output') := toy_open c iv aad tag input output n ivLength aadLength in
  lenZ output' = lenZ output /\ forall key, c = Some key ->
  let cipher := takeZ n input in
  (rc = 0 -> takeZ GCM_TAG_SIZE tag = gcm_tag toy_gcm key (takeZ ivLength iv) (takeZ aadLength aad) cipher /\
     output' = gcm_plain toy_gcm key (takeZ ivLength iv) (takeZ aadLength aad) cipher ++ dropZ n output) /\
  (rc = -18 -> takeZ GCM_TAG_SIZE tag <> gcm_tag toy_gcm key (takeZ ivLength iv) (takeZ aadLength aad) cipher).
Proof.
  unfold toy_open. case_bool_decide as Et; [destruct (fits _ _) eqn:Ef |].
  - split; [by apply Z.eqb_eq in Ef |]. intros key ->. by repeat split.
  - split; [done |]. intros key ->. by split.
  - split; [done |]. intros key ->. by split.
Qed.
Lemma toy_hmac_computes key data area : lenZ (snd (toy_hmac key data area)) = lenZ area /\
  (fst (toy_hmac key data area) = 0 -> snd (toy_hmac key data area) = mac_tag toy_mac key data).
Proof. split; [apply lenZ_write_over |]. intros Hf%code_success; [| done]. by apply write_over_fits. Qed.

#[export] Instance toy_mbedtls : MbedTlsCrypto ErrorState (option bytes) := {
  MBEDTLS_CIPHER_ID_AES := 2; MBEDTLS_GCM_ENCRYPT := 1; MBEDTLS_ERR_GCM_AUTH_FAILED := -18; MBEDTLS_MD_SHA256 := 9;
  mbedtls_ctr_drbg_random := fun _ area _ => st_ret (0, zeros area);
  mbedtls_gcm_init := st_ret None;
  mbedtls_gcm_free := fun _ => st_ret tt;
  mbedtls_gcm_setkey := fun _ _ key _ => st_ret (0, Some (takeZ AES_256_KEY_SIZE key));
  mbedtls_gcm_crypt_and_tag := fun c _ n iv ivLength aad aadLength input output _ tag => st_ret (toy_seal c iv aad input output tag n ivLength aadLength);
  mbedtls_gcm_auth_decrypt := fun c n iv ivLength aad aadLength tag _ input output => st_ret (toy_open c iv aad tag input output n ivLength aadLength);
  mbedtls_md_info_from_type := fun md => st_ret (Some md);
  mbedtls_md_hmac := fun _ key n data m area => st_ret (toy_hmac (takeZ n key) (takeZ m data) area)
}.
#[export] Program Instance toy_mbedtls_spec : MbedTlsCryptoSpec ErrorState (option bytes) toy_gcm toy_mac := { gcm_key := fun c => c }.
Next Obligation. done. Qed.
Next Obligation. intros. cbn. destruct (zeros_spec area). by split. Qed.
Next Obligation. done. Qed.
Next Obligation. intros. apply toy_seal_seals. Qed.
Next Obligation. intros. apply toy_open_opens. Qed.
Next Obligation. intros. destruct (toy_hmac_computes (takeZ keyLength key) (takeZ length data) area). done. Qed.

#[export] Instance toy_wolfssl : WolfSslCrypto ErrorState (option bytes) (option (bytes * bytes)) := {
  INVALID_DEVID := -2; AES_GCM_AUTH_E := -18; WC_SHA256 := 6;
  wc_RNG_GenerateBlock := fun _ area _ => st_ret (0, zeros area);
  wc_AesInit := fun _ => st_ret (0, None);
  wc_AesFree := fun _ => st_ret tt;
  wc_AesGcmSetKey := fun _ key _ => st_ret (0, Some (takeZ AES_256_KEY_SIZE key));
  wc_AesGcmEncrypt := fun c output input n iv ivLength tag _ aad aadLength => st_ret (toy_seal c iv aad input output tag n ivLength aadLength);
  wc_AesGcmDecrypt := fun c output input n iv ivLength tag _ aad aadLength => st_ret (toy_open c iv aad tag input output n ivLength aadLength);
  wc_HmacInit := fun _ => st_ret (0, None);
  wc_HmacFree := fun _ => st_ret tt;
  wc_HmacSetKey := fun _ _ key n => st_ret (0, Some (takeZ n key, []));
  wc_HmacUpdate := fun h data n => st_ret (0, (fun '(key, before) => (key, before ++ takeZ n data)) <$> h);
  wc_HmacFinal := fun h area => let r := toy_hmac (fst (default ([], []) h)) (snd (default ([], []) h)) area in st_ret (fst r, h, snd r)
}.
#[export] Program Instance toy_wolfssl_spec : WolfSslCryptoSpec ErrorState (option bytes) (option (bytes * bytes)) toy_gcm toy_mac := {
  aes_key_of := fun c => c; hmac_state := fun h => h }.
Next Obligation. done. Qed.
Next Obligation. intros. cbn. destruct (zeros_spec area). by split. Qed.
Next Obligation. done. Qed.
Next Obligation. intros. apply toy_seal_seals. Qed.
Next Obligation. intros. apply toy_open_opens. Qed.
Next Obligation. done. Qed.
Next Obligation. intros h data n e. cbn. intros _ key before ->. done. Qed.
Next Obligation.
  intros h area e _. destruct (toy_hmac_computes (fst (default ([], []) h)) (snd (default ([], []) h)) area) as [Hl Hs].
  split; [exact Hl |]. intros Hrc key data ->. exact (Hs Hrc).
Qed.

(** A key callback that answers every other time it is asked, with the one key. *)
Definition toy_key : bytes := repeat 7 32.
Definition toy_GetKey : SolidSyslogKeyFunction ErrorState := fun _ capacity e =>
  ((Nat.even (length (er_handled e)) && (32 <=? capacity), takeZ capacity (toy_key ++ repeat 0 32), 32),
   e <| er_handled := (0, None, error_event 7 SolidSyslogLoggerErrorSource 0 0) :: er_handled e |>).
Definition toy_config : keyed_config ErrorState := mkKeyedConfig toy_GetKey None 0.
Lemma toy_answers valid : answers_key toy_config valid toy_key.
Proof.
  intros capacity e. cbn. intros Hok _. apply andb_prop in Hok as [_ Hc%Z.leb_le]. rewrite takeZ_takeZ, Z.min_l by lia. done.
Qed.

Definition plain_record (size : Z) : SolidSyslogSecurityRecord := mkSecurityRecord (str "headerbody") 6 (repeat 0 (Z.to_nat size)).
Definition toy_area : bytes := repeat 255 32.
Definition toy_world : keyed_world ErrorState := mkKeyedWorld (mkKeyedPolicy toy_config true) initial_error_state [].
Definition toy_self : keyed_policy ErrorState := mkKeyedPolicy toy_config true.

Lemma keyed_policies_keep_laws_witness :
  SecurityPolicySpec (keyed_world ErrorState) (H := keyed_vtable toy_config (keyed_trailer OpenSslAesGcm) (keyed_seal OpenSslAesGcm) (keyed_open toy_area OpenSslAesGcm)).
Proof.
  exact (keyed_policies_keep_laws toy_gcm toy_mac toy_gcm_laws toy_mac_laws toy_area eq_refl OpenSslAesGcm toy_config toy_key (toy_answers _)).
Defined.

Lemma keyed_policies_authenticate_witness :
  let r := plain_record 32 in let w := toy_world in let kind := WolfSslHmacSha256 in
  (let '(result, r') := fst (keyed_open toy_area kind r w) in
   sr_Trailer r' = sr_Trailer r /\ takeZ (sr_HeaderLength r) (sr_Content r') = takeZ (sr_HeaderLength r) (sr_Content r) /\
   match result with
   | SOLIDSYSLOG_SECURITY_POLICY_OPEN_OPENED => authentic toy_gcm toy_mac kind toy_key r /\ sr_Content r' = content_of toy_gcm kind toy_key r
   | SOLIDSYSLOG_SECURITY_POLICY_OPEN_REJECTED => ~ authentic toy_gcm toy_mac kind toy_key r
   | SOLIDSYSLOG_SECURITY_POLICY_OPEN_COULD_NOT_RUN => True
   end) /\
  (let '(sealed, r') := fst (keyed_seal kind r w) in
   sealed = true -> authentic toy_gcm toy_mac kind toy_key r' /\ content_of toy_gcm kind toy_key r' = sr_Content r).
Proof.
  apply (keyed_policies_authenticate toy_gcm toy_mac toy_gcm_laws toy_mac_laws toy_area eq_refl WolfSslHmacSha256 toy_key (plain_record 32) toy_world (toy_answers _) eq_refl).
  cbn. repeat (apply Forall_cons_2; [split; [discriminate | reflexivity] |]). apply Forall_nil_2.
Defined.

(** Sealed, opened, refused the key, tampered with: what is answered and seen. *)
Definition toy_calls : list (@keyed_call ErrorState) :=
  [SealCall (plain_record 28); OpenCall (plain_record 28); OpenCall (plain_record 28); Between (fun e => e)].
Lemma keyed_faults_are_reported_once_witness :
  let '(answers, w) := keyed_run toy_area MbedTlsAesGcm toy_calls (keyed_fresh MbedTlsAesGcm toy_config toy_self initial_error_state) in
  faults_story MbedTlsAesGcm false toy_calls answers (kw_Trace w).
Proof.
  apply (keyed_faults_are_reported_once toy_gcm toy_mac toy_gcm_laws toy_mac_laws toy_area eq_refl MbedTlsAesGcm toy_config toy_self initial_error_state toy_calls).
  repeat (apply Forall_cons_2; [reflexivity |]). apply Forall_nil_2.
Defined.

(** The second call is refused the key and reports it; the third rejects a record that
    was never sealed, silently. *)
Example toy_run :
  let '(answers, w) := keyed_run toy_area MbedTlsAesGcm toy_calls (keyed_fresh MbedTlsAesGcm toy_config toy_self initial_error_state) in
  answers = [true; false; true; true] /\
  kw_Trace w = [KeyAsked 32; KeyAnswered true 32; NonceDrawn true; ContextMade; ContextFreed; LibraryRan true; KeyWiped 32;
    KeyAsked 32; KeyAnswered false 32; Reported (error_event SOLIDSYSLOG_SEVERITY_ERROR SolidSyslogMbedTlsAesGcmPolicyErrorSource
      SOLIDSYSLOG_CAT_SECURITY_POLICY_KEY_UNAVAILABLE SOLIDSYSLOG_AES_GCM_POLICY_ERROR_KEY_UNAVAILABLE); KeyWiped 32;
    KeyAsked 32; KeyAnswered true 32; ContextMade; ContextFreed; Decrypted SOLIDSYSLOG_SECURITY_POLICY_OPEN_REJECTED; KeyWiped 32].
Proof. vm_compute. done. Qed.

(** Each library seals a record alike, and opens what it sealed. *)
Definition toy_trip (kind : keyed_kind) : bool * bytes * SolidSyslogSecurityPolicyOpenResult * bytes :=
  let '((sealed, r), w) := keyed_seal kind (plain_record (keyed_trailer kind)) toy_world in
  let '((result, r'), _) := keyed_open toy_area kind r (w <| kw_Env := initial_error_state |>) in
  (sealed, sr_Content r, result, sr_Content r').
Example toy_sealed : map toy_trip [OpenSslAesGcm; MbedTlsAesGcm; WolfSslAesGcm] =
  repeat (true, str "headerydob", SOLIDSYSLOG_SECURITY_POLICY_OPEN_OPENED, str "headerbody") 3.
Proof. vm_compute. reflexivity. Qed.
