(* ===== verification/MemDevice.v ===== *)
(** A block device in memory: the simplest implementation of the [BlockDevice]
    interface.  It shows the interface's promises can be kept, and the examples of
    the storage components run on it. *)
From stdpp Require Import gmap.
From S2P Require Import Prelude Interfaces.

(** [md_tear] is the number of bytes the next appends write before power fails,
    if it does; [md_stuck] is the one block that cannot be disposed of, if any. *)
Record mem_device := mkMemDevice {
  md_blocks : gmap Z bytes;
  md_block_size : Z;
  md_tear : option Z;
  md_stuck : option Z
}.

#[export] Instance settable_mem_device : Settable mem_device :=
  fun d => mkMemDevice (md_blocks d) (md_block_size d) (md_tear d) (md_stuck d).
Definition mem_update (d : mem_device) (i : Z) (b : bytes) : mem_device :=
  mkMemDevice (<[i := b]> (md_blocks d)) (md_block_size d) (md_tear d) (md_stuck d).
Definition mem_of_list (blocks : list (Z * bytes)) (size : Z) (tear : option Z) : mem_device :=
  mkMemDevice (list_to_map blocks) size tear None.

#[export] Instance mem_device_ops : BlockDevice mem_device := {
  bd_Acquire := fun i d => (true, mem_update d i []);
  bd_Dispose := fun i d =>
    if bool_decide (md_stuck d = Some i) then (false, d)
    else (true, mkMemDevice (delete i (md_blocks d)) (md_block_size d) (md_tear d) (md_stuck d));
  bd_Exists := fun i d => (match md_blocks d !! i with Some _ => true | None => false end, d);
  bd_Read := fun i off n d =>
    (match md_blocks d !! i with
     | Some b => if (off + n <=? lenZ b) then (true, spanZ b off n) else (false, [])
     | None => (false, [])
     end, d);
  bd_Append := fun i bs d =>
    match md_blocks d !! i with
    | Some b => match md_tear d with
                | None => (true, mem_update d i (b ++ bs))
                | Some k => (false, mem_update d i (b ++ takeZ k bs))
                end
    | None => (false, d)
    end;
  bd_WriteAt := fun i off bs d =>
    match md_blocks d !! i with
    | Some b => if off + lenZ bs <=? lenZ b then (true, mem_update d i (spliceZ b off bs)) else (false, d)
    | None => (false, d)
    end;
  bd_Size := fun i d => (match md_blocks d !! i with Some b => (true, lenZ b) | None => (false, 0) end, d);
  bd_GetBlockSize := fun d => (md_block_size d, d)
}.

#[export] Program Instance mem_device_spec : BlockDeviceSpec mem_device := {
  block := fun d i => md_blocks d !! i
}.
Next Obligation.
  intros i d. simpl. split; [intros j Hj; simpl; by rewrite lookup_insert_ne | intros _; by rewrite lookup_insert_eq].
Qed.
Next Obligation.
  intros i d. simpl. case_bool_decide; simpl; [done |].
  split; [intros j Hj; simpl; by rewrite lookup_delete_ne | intros _; by rewrite lookup_delete_eq].
Qed.
Next Obligation. intros i d. simpl. split; [done |]. by destruct (md_blocks d !! i). Qed.
Next Obligation.
  intros i d. simpl. destruct (md_blocks d !! i) as [b |] eqn:Eb; (split; [done |]); [| done].
  by intros b' [= <-].
Qed.
Next Obligation.
  intros i off n d Ho Hn. simpl. destruct (md_blocks d !! i) as [b |] eqn:Eb; [| split_and!; [done | rewrite lenZ_nil; lia | done]].
  destruct (Z.leb_spec (off + n) (lenZ b)).
  - split; [done |]. split; [rewrite lenZ_spanZ; lia |]. by intros b' [= <-].
  - split; [done |]. split; [rewrite lenZ_nil; lia |]. by intros b' [= <-].
Qed.
Next Obligation.
  intros i bs d. simpl. destruct (md_blocks d !! i) as [b |] eqn:Eb; simpl; [| done].
  destruct (md_tear d) as [k |]; simpl; (split; [intros j Hj; simpl; by rewrite lookup_insert_ne |]); intros b' [= <-].
  - exists (takeZ k bs), (dropZ k bs). rewrite takeZ_dropZ. split_and!; [done | done | by rewrite lookup_insert_eq].
  - exists bs, []. rewrite app_nil_r. split_and!; [done | done | by rewrite lookup_insert_eq].
Qed.
Next Obligation.
  intros i off bs d Ho. simpl. destruct (md_blocks d !! i) as [b |] eqn:Eb; simpl; [| done].
  destruct (Z.leb_spec (off + lenZ bs) (lenZ b)); simpl.
  - split; [intros j Hj; simpl; by rewrite lookup_insert_ne |]. intros b' [= <-] _.
    exists bs, []. rewrite app_nil_r. split_and!; [done | done | by rewrite lookup_insert_eq].
  - split; [done |]. intros b' [= <-]. lia.
Qed.
