(* ===== verification/RecordStore.v ===== *)
(** The record store ([SolidSyslogRecordStore.c]): records laid out in a block as
    [magic | length | message | trailer | sent flag], sealed on the way in, checked
    on the way out, and marked once sent.  The block device and the security policy
    are interfaces; the theorems hold for every device and policy that keep their
    promises, and say what survives a power cut. *)
From S2P Require Import Prelude Interfaces Policies MemDevice.

(** * The record *)

Definition MAGIC_SIZE : Z := 2.
Definition MAGIC_BYTE_0 : Z := 0xA5.
Definition MAGIC_BYTE_1 : Z := 0x5A.
Definition RECORD_LENGTH_SIZE : Z := 2.
Definition CONTENT_HEADER_SIZE : Z := MAGIC_SIZE + RECORD_LENGTH_SIZE.
Definition SENT_FLAG_SIZE : Z := 1.
Definition SENT_FLAG_UNSENT : Z := 0xFF.
Definition SENT_FLAG_SENT : Z := 0x00.
Definition SENT_FLAG_DISCARDED : Z := 0x0F.
Definition RECORD_BUFFER_SIZE : Z := 2 + 2 + SOLIDSYSLOG_MAX_MESSAGE_SIZE + SOLIDSYSLOG_MAX_INTEGRITY_SIZE + 1.

Inductive SolidSyslogRecordStoreAppendResult :=
| SOLIDSYSLOG_RECORD_STORE_APPEND_SUCCEEDED
| SOLIDSYSLOG_RECORD_STORE_APPEND_SEAL_FAILED
| SOLIDSYSLOG_RECORD_STORE_APPEND_DEVICE_FAILED.
Inductive SolidSyslogRecordStoreReadResult :=
| SOLIDSYSLOG_RECORD_STORE_READ_SUCCEEDED
| SOLIDSYSLOG_RECORD_STORE_READ_END_OF_DATA
| SOLIDSYSLOG_RECORD_STORE_READ_CORRUPT
| SOLIDSYSLOG_RECORD_STORE_READ_REJECTED
| SOLIDSYSLOG_RECORD_STORE_READ_FINISHED_WITH
| SOLIDSYSLOG_RECORD_STORE_READ_COULD_NOT_OPEN
| SOLIDSYSLOG_RECORD_STORE_READ_DEVICE_FAILED.
Inductive SolidSyslogRecordStoreMarkResult :=
| SOLIDSYSLOG_RECORD_STORE_MARK_SUCCEEDED
| SOLIDSYSLOG_RECORD_STORE_MARK_NOTHING_READ
| SOLIDSYSLOG_RECORD_STORE_MARK_DEVICE_FAILED.
Inductive SolidSyslogRecordStoreScanResult :=
| SOLIDSYSLOG_RECORD_STORE_SCAN_CLEAN
| SOLIDSYSLOG_RECORD_STORE_SCAN_CORRUPT
| SOLIDSYSLOG_RECORD_STORE_SCAN_DEVICE_FAILED.

#[export] Instance ReadResult_eq_dec : EqDecision SolidSyslogRecordStoreReadResult.
Proof. solve_decision. Defined.
Definition read_succeeded (r : SolidSyslogRecordStoreReadResult) : bool :=
  match r with SOLIDSYSLOG_RECORD_STORE_READ_SUCCEEDED => true | _ => false end.

Record SolidSyslogRecordStore := mkRecordStore {
  rs_HasReadRecord : bool;
  rs_LastReadBlockIndex : Z;
  rs_LastSentFlagOffset : Z;
  rs_Buffer : bytes
}.
#[export] Instance settable_RecordStore : Settable SolidSyslogRecordStore :=
  fun s => mkRecordStore (rs_HasReadRecord s) (rs_LastReadBlockIndex s) (rs_LastSentFlagOffset s) (rs_Buffer s).

Section record_store.
Context {D P : Type} `{BlockDevice D} `{SecurityPolicy P}.

(** The store's struct, the device and the policy: what its operations change. *)
Record rs_world := mkRsWorld { rw_Self : SolidSyslogRecordStore; rw_Dev : D; rw_Pol : P }.
#[export] Instance settable_RsWorld : Settable rs_world := fun w => mkRsWorld (rw_Self w) (rw_Dev w) (rw_Pol w).
Definition rs_op (A : Type) : Type := ST rs_world A.

Definition on_device {A} (m : ST D A) : rs_op A := zoom rw_Dev (fun d w => w <| rw_Dev := d |>) m.
Definition on_policy {A} (m : ST P A) : rs_op A := zoom rw_Pol (fun p w => w <| rw_Pol := p |>) m.
#[local] Abbreviation get_buffer := (st_get (fun w : rs_world => rs_Buffer (rw_Self w))).
Definition set_self (f : SolidSyslogRecordStore -> SolidSyslogRecordStore) : rs_op unit := st_mod (fun w => w <| rw_Self := f (rw_Self w) |>).
(** [memcpy] into the buffer. *)
Definition put_buffer (at_ : Z) (bs : bytes) : rs_op unit :=
  set_self (fun s => s <| rs_Buffer := spliceZ (rs_Buffer s) at_ bs |>).

(** Addresses in the buffer. *)
Definition RecordStore_MagicAddress : Z := 0.
Definition RecordStore_LengthAddress : Z := RecordStore_MagicAddress + MAGIC_SIZE.
Definition RecordStore_MessageAddress : Z := RecordStore_LengthAddress + RECORD_LENGTH_SIZE.
Definition RecordStore_TrailerAddress (dataSize : Z) : Z := RecordStore_MessageAddress + dataSize.
Definition RecordStore_SentFlagAddress (dataSize : Z) : Z := RecordStore_TrailerAddress dataSize + sp_TrailerSize.
Definition RecordStore_ContentAddress : Z := RecordStore_MagicAddress.
Definition RecordStore_ContentSize (dataSize : Z) : Z := u16 (MAGIC_SIZE + RECORD_LENGTH_SIZE + dataSize).
(** Offsets in the block. *)
Definition RecordStore_TrailerOffset (recordStart dataLength : Z) : Z :=
  size_add (size_add (size_add recordStart MAGIC_SIZE) RECORD_LENGTH_SIZE) dataLength.
Definition RecordStore_SentFlagOffset (recordStart dataLength : Z) : Z :=
  size_add (RecordStore_TrailerOffset recordStart dataLength) sp_TrailerSize.
Definition SolidSyslogRecordStore_RecordSize (dataLength : Z) : Z :=
  size_add (size_add (size_add (MAGIC_SIZE + RECORD_LENGTH_SIZE) dataLength) sp_TrailerSize) SENT_FLAG_SIZE.

Definition SolidSyslogRecordStore_Initialise (recordStore : SolidSyslogRecordStore) : SolidSyslogRecordStore :=
  recordStore <| rs_HasReadRecord := false |> <| rs_LastReadBlockIndex := 0 |> <| rs_LastSentFlagOffset := 0 |>.

(** The record in the buffer as the policy is shown it. *)
Definition security_record (buffer : bytes) (size : Z) : SolidSyslogSecurityRecord :=
  mkSecurityRecord (spanZ buffer RecordStore_ContentAddress (RecordStore_ContentSize size)) CONTENT_HEADER_SIZE
    (spanZ buffer (RecordStore_TrailerAddress size) sp_TrailerSize).
Definition put_security_record (record : SolidSyslogSecurityRecord) (size : Z) : rs_op unit :=
  put_buffer RecordStore_ContentAddress (sr_Content record) ;;;
  put_buffer (RecordStore_TrailerAddress size) (sr_Trailer record).

(** * Appending *)

Definition RecordStore_AssembleRecord (data : bytes) (size : Z) : rs_op bool :=
  put_buffer RecordStore_MagicAddress [MAGIC_BYTE_0] ;;;
  put_buffer (RecordStore_MagicAddress + 1) [MAGIC_BYTE_1] ;;;
  let length := u16 size in
  put_buffer RecordStore_LengthAddress [u8 (Z.land length 0xFF)] ;;;
  put_buffer (RecordStore_LengthAddress + 1) [u8 (Z.land (Z.shiftr length 8) 0xFF)] ;;;
  put_buffer RecordStore_MessageAddress (takeZ size data) ;;;
  let! buffer := get_buffer in
  let! r := on_policy (sp_SealRecord (security_record buffer size)) in
  let '(sealed, record) := r in
  put_security_record record size ;;;
  put_buffer (RecordStore_SentFlagAddress size) [SENT_FLAG_UNSENT] ;;;
  st_ret sealed.

Definition SolidSyslogRecordStore_Append (blockIndex : Z) (data : bytes) (dataSize : Z) : rs_op SolidSyslogRecordStoreAppendResult :=
  let! sealed := RecordStore_AssembleRecord data dataSize in
  if sealed : bool then
    let! buffer := get_buffer in
    let! appended := on_device (bd_Append blockIndex (takeZ (SolidSyslogRecordStore_RecordSize (u16 dataSize)) buffer)) in
    st_ret (if appended : bool then SOLIDSYSLOG_RECORD_STORE_APPEND_SUCCEEDED else SOLIDSYSLOG_RECORD_STORE_APPEND_DEVICE_FAILED)
  else st_ret SOLIDSYSLOG_RECORD_STORE_APPEND_SEAL_FAILED.

(** * Reading *)

Definition RecordStore_SpanIsWithinData (offset count dataSize : Z) : bool := size_add offset count <=? dataSize.

(** The bytes the device put at [buf], for the caller to keep there. *)
Definition RecordStore_ReadSpan (blockIndex offset count dataSize : Z) : rs_op (SolidSyslogRecordStoreReadResult * bytes) :=
  if RecordStore_SpanIsWithinData offset count dataSize then
    let! r := on_device (bd_Read blockIndex offset count) in
    let '(ok, bs) := r in
    st_ret (if ok : bool then SOLIDSYSLOG_RECORD_STORE_READ_SUCCEEDED else SOLIDSYSLOG_RECORD_STORE_READ_DEVICE_FAILED, bs)
  else st_ret (SOLIDSYSLOG_RECORD_STORE_READ_CORRUPT, []).
Definition ReadSpan_into (at_ blockIndex offset count dataSize : Z) : rs_op SolidSyslogRecordStoreReadResult :=
  let! r := RecordStore_ReadSpan blockIndex offset count dataSize in
  let '(result, bs) := r in
  put_buffer at_ bs ;;; st_ret result.

Definition RecordStore_IsMagicValid (buffer : bytes) : bool :=
  (buffer.[RecordStore_MagicAddress] =? MAGIC_BYTE_0) && (buffer.[RecordStore_MagicAddress + 1] =? MAGIC_BYTE_1).
Definition RecordStore_RecordLength (buffer : bytes) : Z :=
  u16 (Z.lor buffer.[RecordStore_LengthAddress] (Z.shiftl buffer.[RecordStore_LengthAddress + 1] 8)).
Definition RecordStore_IsValidLength (length : Z) : bool := (0 <? length) && (length <=? SOLIDSYSLOG_MAX_MESSAGE_SIZE).
(** Whether the header is valid, and [*length] (unchanged when the magic is not). *)
Definition RecordStore_ValidateHeader (buffer : bytes) (length : Z) : bool * Z :=
  if RecordStore_IsMagicValid buffer
  then let length := RecordStore_RecordLength buffer in (RecordStore_IsValidLength length, length)
  else (false, length).

Definition RecordStore_ReadHeader (blockIndex offset dataSize length : Z) : rs_op (SolidSyslogRecordStoreReadResult * Z) :=
  let! result :=
    if offset <? dataSize then ReadSpan_into RecordStore_ContentAddress blockIndex offset CONTENT_HEADER_SIZE dataSize
    else st_ret SOLIDSYSLOG_RECORD_STORE_READ_END_OF_DATA in
  if read_succeeded result then
    let! buffer := get_buffer in
    let '(valid, length) := RecordStore_ValidateHeader buffer length in
    st_ret (if valid : bool then SOLIDSYSLOG_RECORD_STORE_READ_SUCCEEDED else SOLIDSYSLOG_RECORD_STORE_READ_CORRUPT, length)
  else st_ret (result, length).

Definition RecordStore_RecordIsWithinData (offset length dataSize : Z) : bool :=
  RecordStore_SpanIsWithinData offset (SolidSyslogRecordStore_RecordSize length) dataSize.

Definition RecordStore_ReadRecordExtent (blockIndex offset dataSize length : Z) : rs_op (SolidSyslogRecordStoreReadResult * Z) :=
  let! r := RecordStore_ReadHeader blockIndex offset dataSize length in
  let '(result, length) := r in
  st_ret (if read_succeeded result
          then if RecordStore_RecordIsWithinData offset length dataSize
               then SOLIDSYSLOG_RECORD_STORE_READ_SUCCEEDED else SOLIDSYSLOG_RECORD_STORE_READ_CORRUPT
          else result, length).

Definition RecordStore_FlagMarksSentOrDiscarded (flag : Z) : bool := (flag =? SENT_FLAG_SENT) || (flag =? SENT_FLAG_DISCARDED).
Definition RecordStore_FlagReadsFinishedWith (buffer : bytes) (length : Z) : bool :=
  RecordStore_FlagMarksSentOrDiscarded buffer.[RecordStore_SentFlagAddress length].

Definition RecordStore_OpenRecord (length : Z) : rs_op SolidSyslogRecordStoreReadResult :=
  let! buffer := get_buffer in
  let! r := on_policy (sp_OpenRecord (security_record buffer length)) in
  let '(opened, record) := r in
  put_security_record record length ;;;
  st_ret match opened with
         | SOLIDSYSLOG_SECURITY_POLICY_OPEN_OPENED => SOLIDSYSLOG_RECORD_STORE_READ_SUCCEEDED
         | SOLIDSYSLOG_SECURITY_POLICY_OPEN_REJECTED => SOLIDSYSLOG_RECORD_STORE_READ_REJECTED
         | SOLIDSYSLOG_SECURITY_POLICY_OPEN_COULD_NOT_RUN => SOLIDSYSLOG_RECORD_STORE_READ_COULD_NOT_OPEN
         end.

(** Goes on while the read is good. *)
Definition if_succeeded (result : SolidSyslogRecordStoreReadResult) (m : rs_op SolidSyslogRecordStoreReadResult) : rs_op SolidSyslogRecordStoreReadResult :=
  if read_succeeded result then m else st_ret result.

Definition RecordStore_ReadAndValidateRecord (blockIndex offset dataSize length : Z) : rs_op (SolidSyslogRecordStoreReadResult * Z) :=
  let! r := RecordStore_ReadRecordExtent blockIndex offset dataSize length in
  let '(result, length) := r in
  let! result := if_succeeded result
    (ReadSpan_into RecordStore_MessageAddress blockIndex (size_add offset CONTENT_HEADER_SIZE) length dataSize) in
  let! result := if_succeeded result
    (ReadSpan_into (RecordStore_TrailerAddress length) blockIndex (RecordStore_TrailerOffset offset length)
       (sp_TrailerSize + SENT_FLAG_SIZE) dataSize) in
  let! buffer := get_buffer in
  let result := if read_succeeded result && RecordStore_FlagReadsFinishedWith buffer length
                then SOLIDSYSLOG_RECORD_STORE_READ_FINISHED_WITH else result in
  let! result := if_succeeded result (RecordStore_OpenRecord length) in
  st_ret (result, length).

Definition RecordStore_RecordExtentIsKnown (result : SolidSyslogRecordStoreReadResult) : bool :=
  match result with
  | SOLIDSYSLOG_RECORD_STORE_READ_SUCCEEDED | SOLIDSYSLOG_RECORD_STORE_READ_REJECTED
  | SOLIDSYSLOG_RECORD_STORE_READ_FINISHED_WITH => true
  | _ => false
  end.
Definition RecordStore_BoundedSize (length maxSize : Z) : Z := if length <? maxSize then length else maxSize.
Definition RecordStore_CopyRecordData (length : Z) (dst : bytes) (maxSize : Z) : rs_op (bytes * Z) :=
  let copySize := RecordStore_BoundedSize length maxSize in
  let! buffer := get_buffer in
  st_ret (spliceZ dst 0 (spanZ buffer RecordStore_MessageAddress copySize), copySize).
Definition RecordStore_RememberCurrentRecord (blockIndex offset length : Z) : rs_op unit :=
  set_self (fun s => s <| rs_LastReadBlockIndex := blockIndex |>
                       <| rs_LastSentFlagOffset := RecordStore_SentFlagOffset offset length |>
                       <| rs_HasReadRecord := true |>).

(** The results are the verdict, the reader's memory and [*bytesRead]. *)
Definition SolidSyslogRecordStore_Read (blockIndex offset dataSize : Z) (dst : bytes) (maxSize : Z)
    : rs_op (SolidSyslogRecordStoreReadResult * bytes * Z) :=
  let! r := RecordStore_ReadAndValidateRecord blockIndex offset dataSize 0 in
  let '(result, length) := r in
  if! RecordStore_RecordExtentIsKnown result then RecordStore_RememberCurrentRecord blockIndex offset length end! ;;;
  let! copied := if read_succeeded result then RecordStore_CopyRecordData length dst maxSize else st_ret (dst, 0) in
  let '(dst, bytesRead) := copied in
  st_ret (result, dst, bytesRead).

(** * Marking *)

Definition RecordStore_WriteSentFlag : rs_op bool :=
  let! self := st_get rw_Self in
  on_device (bd_WriteAt (rs_LastReadBlockIndex self) (rs_LastSentFlagOffset self) [SENT_FLAG_SENT]).

(** The mark and [*nextCursor]. *)
Definition SolidSyslogRecordStore_MarkLastReadAsSent (nextCursor : Z) : rs_op (SolidSyslogRecordStoreMarkResult * Z) :=
  let! self := st_get rw_Self in
  if rs_HasReadRecord self then
    let! written := RecordStore_WriteSentFlag in
    if written : bool then
      set_self (fun s => s <| rs_HasReadRecord := false |>) ;;;
      st_ret (SOLIDSYSLOG_RECORD_STORE_MARK_SUCCEEDED, size_add (rs_LastSentFlagOffset self) SENT_FLAG_SIZE)
    else st_ret (SOLIDSYSLOG_RECORD_STORE_MARK_DEVICE_FAILED, nextCursor)
  else st_ret (SOLIDSYSLOG_RECORD_STORE_MARK_NOTHING_READ, nextCursor).

Definition SolidSyslogRecordStore_StepPastLastRead : rs_op Z :=
  set_self (fun s => s <| rs_HasReadRecord := false |>) ;;;
  st_get (fun w => size_add (rs_LastSentFlagOffset (rw_Self w)) SENT_FLAG_SIZE).
Definition SolidSyslogRecordStore_ForgetLastRead : rs_op unit := set_self (fun s => s <| rs_HasReadRecord := false |>).

(** * Scanning a block *)

(** The flag read and [*finishedWith]; the flag is a local, unsent to begin with. *)
Definition RecordStore_IsRecordSentOrDiscarded (blockIndex recordStart length blockSize : Z) : rs_op (SolidSyslogRecordStoreReadResult * bool) :=
  let! r := RecordStore_ReadSpan blockIndex (RecordStore_SentFlagOffset recordStart length) SENT_FLAG_SIZE blockSize in
  let '(result, bs) := r in
  let flag := (spliceZ [SENT_FLAG_UNSENT] 0 bs).[0] in
  st_ret (result, RecordStore_FlagMarksSentOrDiscarded flag).

Definition RecordStore_SkipRecord (cursor length : Z) : Z := size_add cursor (SolidSyslogRecordStore_RecordSize length).

(** Whether the scan goes on, with [*cursor] and [*scanned]. *)
Definition RecordStore_AdvancePastSentRecord (blockIndex cursor blockSize : Z) (scanned : SolidSyslogRecordStoreScanResult)
    : rs_op (bool * Z * SolidSyslogRecordStoreScanResult) :=
  let! r := RecordStore_ReadRecordExtent blockIndex cursor blockSize 0 in
  let '(result, length) := r in
  let! f := if read_succeeded result then RecordStore_IsRecordSentOrDiscarded blockIndex cursor length blockSize
            else st_ret (result, false) in
  let '(result, finishedWith) := f in
  st_ret match result, finishedWith with
         | SOLIDSYSLOG_RECORD_STORE_READ_DEVICE_FAILED, _ => (false, blockSize, SOLIDSYSLOG_RECORD_STORE_SCAN_DEVICE_FAILED)
         | _, true => (true, RecordStore_SkipRecord cursor length, scanned)
         | SOLIDSYSLOG_RECORD_STORE_READ_CORRUPT, _ => (false, blockSize, SOLIDSYSLOG_RECORD_STORE_SCAN_CORRUPT)
         | _, _ => (false, cursor, scanned)
         end.

(** [while (scanning && cursor < blockSize)]; each turn that goes on passes a
    record, so one turn for each byte of the block is enough. *)
Fixpoint FindFirstUnsent_loop (fuel : nat) (blockIndex cursor blockSize : Z) (scanned : SolidSyslogRecordStoreScanResult)
    : rs_op (Z * SolidSyslogRecordStoreScanResult) :=
  match fuel with
  | O => st_ret (cursor, scanned)
  | S fuel =>
      if cursor <? blockSize then
        let! r := RecordStore_AdvancePastSentRecord blockIndex cursor blockSize scanned in
        let '(scanning, cursor, scanned) := r in
        if scanning : bool then FindFirstUnsent_loop fuel blockIndex cursor blockSize scanned else st_ret (cursor, scanned)
      else st_ret (cursor, scanned)
  end.
Definition SolidSyslogRecordStore_FindFirstUnsent (blockIndex blockSize : Z) : rs_op (Z * SolidSyslogRecordStoreScanResult) :=
  FindFirstUnsent_loop (S (Z.to_nat blockSize)) blockIndex 0 blockSize SOLIDSYSLOG_RECORD_STORE_SCAN_CLEAN.

Definition RecordStore_ScanResultOf (result : SolidSyslogRecordStoreReadResult) : SolidSyslogRecordStoreScanResult :=
  match result with
  | SOLIDSYSLOG_RECORD_STORE_READ_DEVICE_FAILED => SOLIDSYSLOG_RECORD_STORE_SCAN_DEVICE_FAILED
  | _ => SOLIDSYSLOG_RECORD_STORE_SCAN_CORRUPT
  end.
Fixpoint ScanToEnd_loop (fuel : nat) (blockIndex position blockSize : Z) : rs_op SolidSyslogRecordStoreScanResult :=
  match fuel with
  | O => st_ret SOLIDSYSLOG_RECORD_STORE_SCAN_CLEAN
  | S fuel =>
      if position <? blockSize then
        let! r := RecordStore_ReadRecordExtent blockIndex position blockSize 0 in
        let '(result, length) := r in
        if read_succeeded result
        then ScanToEnd_loop fuel blockIndex (RecordStore_SkipRecord position length) blockSize
        else st_ret (RecordStore_ScanResultOf result)
      else st_ret SOLIDSYSLOG_RECORD_STORE_SCAN_CLEAN
  end.
Definition SolidSyslogRecordStore_ScanToEnd (blockIndex cursor blockSize : Z) : rs_op SolidSyslogRecordStoreScanResult :=
  ScanToEnd_loop (S (Z.to_nat (blockSize - cursor))) blockIndex cursor blockSize.
End record_store.
Arguments rs_world D P : clear implicits.

(** * What the operations do to a block *)

Section record_theory.
Context {D P : Type} `{HD : BlockDevice D, HDS : !BlockDeviceSpec D, HP : SecurityPolicy P, HPS : !SecurityPolicySpec P}.
Implicit Types (w : rs_world D P) (b : bytes) (i off n : Z).

Definition buffer_of w : bytes := rs_Buffer (rw_Self w).
Definition rs_wf w : Prop := lenZ (buffer_of w) = RECORD_BUFFER_SIZE.
(** The size of a record of [len] message bytes. *)
Definition rsize (len : Z) : Z := 4 + len + sp_TrailerSize (P := P) + 1.
(** The bytes a block is known to hold. *)
Definition content w i : bytes := default [] (block (rw_Dev w) i).

(** A block the device holds, and of bytes: what there is to read. *)
Definition readable w i : Prop := exists b, block (rw_Dev w) i = Some b /\ all_bytes b.
Lemma readable_content w i : readable w i -> block (rw_Dev w) i = Some (content w i) /\ all_bytes (content w i).
Proof using. intros (b & E & Hb). unfold content. rewrite E. done. Qed.
Lemma content_eq w i b : block (rw_Dev w) i = Some b -> content w i = b.
Proof using. intros E. unfold content. rewrite E. done. Qed.
(** A block of which something is known to lie in it is there. *)
Lemma content_held w i k : 0 < k -> k <= lenZ (content w i) -> block (rw_Dev w) i = Some (content w i).
Proof using. unfold content. destruct (block (rw_Dev w) i) as [b |]; simpl; [done |]. intros H H'. exfalso. change (k <= 0) in H'. lia. Qed.

(** Nothing but the store's buffer may differ. *)
Record reads_only w w' : Prop := {
  ro_block : forall j, block (rw_Dev w') j = block (rw_Dev w) j;
  ro_len : lenZ (buffer_of w') = lenZ (buffer_of w);
  ro_has : rs_HasReadRecord (rw_Self w') = rs_HasReadRecord (rw_Self w);
  ro_index : rs_LastReadBlockIndex (rw_Self w') = rs_LastReadBlockIndex (rw_Self w);
  ro_offset : rs_LastSentFlagOffset (rw_Self w') = rs_LastSentFlagOffset (rw_Self w)
}.
Lemma reads_only_refl w : reads_only w w.
Proof using. done. Qed.
Lemma reads_only_trans w w1 w2 : reads_only w w1 -> reads_only w1 w2 -> reads_only w w2.
Proof using. intros [A1 A2 A3 A4 A5] [B1 B2 B3 B4 B5]. split; congruence || (intros j; by rewrite B1, A1). Qed.
Lemma reads_only_content w w' i : reads_only w w' -> content w' i = content w i.
Proof using. intros H. unfold content. by rewrite (ro_block _ _ H). Qed.
Lemma reads_only_readable w w' i : reads_only w w' -> readable w i -> readable w' i.
Proof using. intros H (b & E & Hb). exists b. by rewrite (ro_block _ _ H). Qed.
Lemma reads_only_wf w w' : reads_only w w' -> rs_wf w -> rs_wf w'.
Proof using. intros H Hw. unfold rs_wf. by rewrite (ro_len _ _ H). Qed.

Lemma rsize_bound len : 0 <= len <= SOLIDSYSLOG_MAX_MESSAGE_SIZE -> 5 <= rsize len <= RECORD_BUFFER_SIZE.
Proof using HPS.
  intros Hl. pose proof TrailerSize_bound as Ht.
  unfold rsize, RECORD_BUFFER_SIZE, SOLIDSYSLOG_MAX_MESSAGE_SIZE, SOLIDSYSLOG_MAX_INTEGRITY_SIZE in *. lia.
Qed.
Lemma RecordSize_rsize len : 0 <= len <= SOLIDSYSLOG_MAX_MESSAGE_SIZE -> SolidSyslogRecordStore_RecordSize len = rsize len.
Proof using HPS.
  intros Hl. pose proof TrailerSize_bound as Ht. unfold SOLIDSYSLOG_MAX_INTEGRITY_SIZE, SOLIDSYSLOG_MAX_MESSAGE_SIZE in *.
  unfold SolidSyslogRecordStore_RecordSize, rsize, MAGIC_SIZE, RECORD_LENGTH_SIZE, SENT_FLAG_SIZE.
  rewrite !size_add_small by (rewrite ?size_add_small; rewrite ?size_add_small; unfold SIZE_MAX; lia). lia.
Qed.

Lemma put_buffer_reads at_ bs w :
  0 <= at_ -> at_ + lenZ bs <= lenZ (buffer_of w) ->
  wp (put_buffer at_ bs) (fun _ w' => reads_only w w' /\ rw_Pol w' = rw_Pol w /\ rw_Dev w' = rw_Dev w /\
    buffer_of w' = spliceZ (buffer_of w) at_ bs) w.
Proof using.
  intros Ha Hl. unfold put_buffer, set_self. wp_steps. split; [| done]. split; try done.
  unfold buffer_of. simpl. by apply lenZ_spliceZ.
Qed.

(** The next bytes of a span copied after those already there. *)
Lemma fill_next (buf b : bytes) off k m :
  0 <= off -> 0 <= k -> 0 <= m -> k + m <= lenZ buf -> off + k + m <= lenZ b ->
  spanZ buf 0 k = spanZ b off k -> spanZ (spliceZ buf k (spanZ b (off + k) m)) 0 (k + m) = spanZ b off (k + m).
Proof using.
  intros Ho Hk Hm Hl Hb E. assert (El : lenZ (spanZ b (off + k) m) = m) by (apply lenZ_spanZ; lia).
  rewrite !spanZ_add by lia. rewrite spanZ_spliceZ_before by lia. rewrite E. f_equal.
  rewrite Z.add_0_l. rewrite <- El at 2. apply spanZ_spliceZ_same. lia.
Qed.

(** ** Reading a span *)

Inductive span_read w at_ i off count n : SolidSyslogRecordStoreReadResult -> rs_world D P -> Prop :=
| span_outside w' : n < off + count -> reads_only w w' -> rw_Pol w' = rw_Pol w -> buffer_of w' = buffer_of w ->
    span_read w at_ i off count n SOLIDSYSLOG_RECORD_STORE_READ_CORRUPT w'
| span_failed w' : off + count <= n -> reads_only w w' -> rw_Pol w' = rw_Pol w ->
    span_read w at_ i off count n SOLIDSYSLOG_RECORD_STORE_READ_DEVICE_FAILED w'
| span_done w' : off + count <= n -> reads_only w w' -> rw_Pol w' = rw_Pol w -> off + count <= lenZ (content w i) ->
    buffer_of w' = spliceZ (buffer_of w) at_ (spanZ (content w i) off count) ->
    span_read w at_ i off count n SOLIDSYSLOG_RECORD_STORE_READ_SUCCEEDED w'.

Lemma ReadSpan_into_spec at_ i off count n w :
  readable w i -> 0 <= off -> 0 < count -> off + count <= SIZE_MAX -> 0 <= at_ -> at_ + count <= lenZ (buffer_of w) ->
  wp (ReadSpan_into at_ i off count n) (span_read w at_ i off count n) w.
Proof using HDS.
  intros Hr Ho Hc Hm Ha Hl. apply readable_content in Hr as [Eb _]. unfold ReadSpan_into, RecordStore_ReadSpan, RecordStore_SpanIsWithinData.
  rewrite size_add_small by lia. wp_step. destruct (Z.leb_spec (off + count) n) as [Hin | Hout].
  - wp_step. unfold on_device. apply wp_zoom. unfold wp at 1.
    pose proof (Read_of_held i off count (rw_Dev w) _ Ho Hc Eb) as HR.
    destruct (bd_Read i off count (rw_Dev w)) as [[ok bs] d']. destruct HR as (Hsame & Hlen & Hok). simpl fst. simpl snd.
    wp_steps. set (w1 := w <| rw_Dev := d' |>).
    eapply wp_mono; [apply (put_buffer_reads at_ bs w1); [done | change (buffer_of w1) with (buffer_of w); lia] |].
    intros [] w2 (Hro & Hpol & Hdev & Hbuf). cbv beta. wp_steps.
    assert (Hro' : reads_only w w2).
    { eapply reads_only_trans; [| exact Hro]. by split. }
    destruct ok.
    + destruct (Hok eq_refl) as (Hb & ->). by apply span_done.
    + by apply span_failed.
  - wp_steps. eapply wp_mono; [apply (put_buffer_reads at_ [] w); [done | rewrite lenZ_nil; lia] |].
    intros [] w2 (Hro & Hpol & Hdev & Hbuf). rewrite spliceZ_nil in Hbuf. cbv beta. wp_steps. apply span_outside; done || lia.
Qed.

(** ** The header *)

Definition header_length b off : Z := b.[off + 2] + b.[off + 3] * 256.
(** What the bytes say of the record at [off] in a block of [n] bytes. *)
Definition extent_verdict b off n : SolidSyslogRecordStoreReadResult * Z :=
  if n <=? off then (SOLIDSYSLOG_RECORD_STORE_READ_END_OF_DATA, 0)
  else if n <? off + 4 then (SOLIDSYSLOG_RECORD_STORE_READ_CORRUPT, 0)
  else if (b.[off] =? MAGIC_BYTE_0) && (b.[off + 1] =? MAGIC_BYTE_1) then
    let len := header_length b off in
    if RecordStore_IsValidLength len && (off + rsize len <=? n)
    then (SOLIDSYSLOG_RECORD_STORE_READ_SUCCEEDED, len) else (SOLIDSYSLOG_RECORD_STORE_READ_CORRUPT, len)
  else (SOLIDSYSLOG_RECORD_STORE_READ_CORRUPT, 0).

Lemma verdict_succeeded b off n len :
  extent_verdict b off n = (SOLIDSYSLOG_RECORD_STORE_READ_SUCCEEDED, len) <->
  off + 4 <= n /\ b.[off] = MAGIC_BYTE_0 /\ b.[off + 1] = MAGIC_BYTE_1 /\ len = header_length b off /\
  0 < len <= SOLIDSYSLOG_MAX_MESSAGE_SIZE /\ off + rsize len <= n.
Proof using.
  unfold extent_verdict, RecordStore_IsValidLength. split.
  - repeat (case_match; try done). intros [= <-]. bool_to_prop. lia.
  - intros (H1 & H2 & H3 & -> & H4 & H5). rewrite H2, H3.
    replace (n <=? off) with false by lia. replace (n <? off + 4) with false by lia. simpl.
    replace (0 <? header_length b off) with true by lia. replace (_ <=? SOLIDSYSLOG_MAX_MESSAGE_SIZE) with true by lia.
    by replace (off + rsize (header_length b off) <=? n) with true by lia.
Qed.

Record extent_read w i off n (res : SolidSyslogRecordStoreReadResult) (len : Z) w' : Prop := {
  er_reads : reads_only w w';
  er_pol : rw_Pol w' = rw_Pol w;
  er_verdict : (res, len) = extent_verdict (content w i) off n \/ (res = SOLIDSYSLOG_RECORD_STORE_READ_DEVICE_FAILED /\ off + 4 <= n);
  er_buffer : res = SOLIDSYSLOG_RECORD_STORE_READ_SUCCEEDED -> spanZ (buffer_of w') 0 4 = spanZ (content w i) off 4 /\ off + 4 <= lenZ (content w i)
}.

(** The header bytes as the code unpacks them. *)
Lemma RecordLength_spec b : is_byte b.[2] -> is_byte b.[3] -> RecordStore_RecordLength b = b.[2] + b.[3] * 256.
Proof using.
  intros H2 H3. unfold RecordStore_RecordLength, RecordStore_LengthAddress, RecordStore_MagicAddress, MAGIC_SIZE.
  change (0 + 2 + 1) with 3. change (0 + 2) with 2. unfold is_byte in *.
  pose proof (le16_read b.[2] b.[3] H2 H3) as E. rewrite Z.mod_small in E by (rewrite Z.shiftl_mul_pow2 by lia; lia).
  rewrite E. apply u16_small. lia.
Qed.

(** A header that was read parses as the bytes say. *)
Lemma ValidateHeader_spec buf b off n :
  spanZ buf 0 4 = spanZ b off 4 -> 0 <= off -> off + 4 <= n -> all_bytes b ->
  let '(valid, len) := RecordStore_ValidateHeader buf 0 in
  (if valid : bool then (if off + rsize len <=? n then SOLIDSYSLOG_RECORD_STORE_READ_SUCCEEDED else SOLIDSYSLOG_RECORD_STORE_READ_CORRUPT, len)
   else (SOLIDSYSLOG_RECORD_STORE_READ_CORRUPT, len)) = extent_verdict b off n /\
  (valid = true -> 0 < len <= SOLIDSYSLOG_MAX_MESSAGE_SIZE).
Proof using.
  intros E Ho Hn Hb.
  assert (Eb : forall k, 0 <= k < 4 -> buf.[k] = b.[off + k]).
  { intros k Hk. rewrite <- (nthZ_spanZ b off 4), <- E, nthZ_spanZ by lia. done. }
  unfold RecordStore_ValidateHeader, extent_verdict, RecordStore_IsMagicValid, RecordStore_MagicAddress.
  rewrite RecordLength_spec by (rewrite Eb by lia; auto). change (0 + 1) with 1. rewrite !Eb by lia. rewrite Z.add_0_r.
  replace (n <=? off) with false by lia. replace (n <? off + 4) with false by lia.
  destruct (_ && (b.[off + 1] =? MAGIC_BYTE_1)); [| done]. fold (header_length b off). unfold RecordStore_IsValidLength.
  destruct ((0 <? header_length b off) && (header_length b off <=? SOLIDSYSLOG_MAX_MESSAGE_SIZE)) eqn:Ev; simpl; [| done].
  bool_to_prop. destruct (off + rsize (header_length b off) <=? n); (split; [done | lia]).
Qed.

Definition sized n : Prop := n + RECORD_BUFFER_SIZE <= SIZE_MAX.
Ltac rs_sizes := unfold sized, rs_wf, RECORD_BUFFER_SIZE, SOLIDSYSLOG_MAX_MESSAGE_SIZE, SOLIDSYSLOG_MAX_INTEGRITY_SIZE in *.

Lemma ReadRecordExtent_spec i off n w :
  rs_wf w -> readable w i -> 0 <= off -> sized n ->
  wp (RecordStore_ReadRecordExtent i off n 0) (fun r w' => extent_read w i off n (fst r) (snd r) w') w.
Proof using HDS HPS.
  intros Hw Hb Ho Hn. unfold RecordStore_ReadRecordExtent, RecordStore_ReadHeader. pose proof Hw as Hlw. rs_sizes.
  wp_step. wp_step. destruct (Z.ltb_spec off n) as [Hlt | Hge].
  - eapply wp_mono; [apply ReadSpan_into_spec; [done | ..]; change CONTENT_HEADER_SIZE with 4; change RecordStore_ContentAddress with 0; lia |].
    apply readable_content in Hb as [_ Hb].
    change CONTENT_HEADER_SIZE with 4. change RecordStore_ContentAddress with 0. intros res w1 Hs. cbv beta.
    destruct Hs as [w1 Hout Hro Hpol Hbuf | w1 Hin Hro Hpol | w1 Hin Hro Hpol Hcb Hbuf]; simpl read_succeeded; wp_steps.
    + split; simpl; try done. left. unfold extent_verdict.
      replace (n <=? off) with false by lia. by replace (n <? off + 4) with true by lia.
    + split; simpl; try done. by right.
    + assert (E : spanZ (buffer_of w1) 0 4 = spanZ (content w i) off 4).
      { rewrite Hbuf. pose proof (fill_next (buffer_of w) (content w i) off 0 4 Ho) as HF. rewrite Z.add_0_r in HF.
        apply HF; try lia. by unfold spanZ; rewrite !takeZ_nonpos. }
      pose proof (ValidateHeader_spec (buffer_of w1) (content w i) off n E Ho Hin Hb) as HV.
      wp_steps. fold (buffer_of w1). destruct (RecordStore_ValidateHeader (buffer_of w1) 0) as [valid len]. destruct HV as [HV Hlen].
      wp_steps. destruct valid; simpl read_succeeded; cbv iota; simpl fst; simpl snd.
      * specialize (Hlen eq_refl). unfold RecordStore_RecordIsWithinData, RecordStore_SpanIsWithinData.
        rewrite RecordSize_rsize by lia. pose proof (rsize_bound len ltac:(lia)) as Hrb.
        rs_sizes.
        rewrite size_add_small by lia. split; [done | done | by left | done].
      * split; [done | done | by left | done].
  - wp_steps. simpl. wp_steps. split; simpl; try done. left. unfold extent_verdict. by replace (n <=? off) with true by lia.
Qed.

(** ** A whole record *)

(** The record at [off], as the policy is shown it, and its flag. *)
Definition stored_record b off len : SolidSyslogSecurityRecord :=
  mkSecurityRecord (spanZ b off (4 + len)) 4 (spanZ b (off + 4 + len) (sp_TrailerSize (P := P))).
Definition stored_flag b off len : Z := b.[off + 4 + len + sp_TrailerSize (P := P)].

Definition open_verdict (opened : SolidSyslogSecurityPolicyOpenResult) : SolidSyslogRecordStoreReadResult :=
  match opened with
  | SOLIDSYSLOG_SECURITY_POLICY_OPEN_OPENED => SOLIDSYSLOG_RECORD_STORE_READ_SUCCEEDED
  | SOLIDSYSLOG_SECURITY_POLICY_OPEN_REJECTED => SOLIDSYSLOG_RECORD_STORE_READ_REJECTED
  | SOLIDSYSLOG_SECURITY_POLICY_OPEN_COULD_NOT_RUN => SOLIDSYSLOG_RECORD_STORE_READ_COULD_NOT_OPEN
  end.

Inductive record_read w i off n : SolidSyslogRecordStoreReadResult -> Z -> rs_world D P -> Prop :=
| read_failed len w' : reads_only w w' -> off + 4 <= n ->
    record_read w i off n SOLIDSYSLOG_RECORD_STORE_READ_DEVICE_FAILED len w'
| read_unparsed res len w' : reads_only w w' -> extent_verdict (content w i) off n = (res, len) ->
    res <> SOLIDSYSLOG_RECORD_STORE_READ_SUCCEEDED -> record_read w i off n res len w'
| read_finished len w' : reads_only w w' ->
    extent_verdict (content w i) off n = (SOLIDSYSLOG_RECORD_STORE_READ_SUCCEEDED, len) ->
    off + rsize len <= lenZ (content w i) ->
    RecordStore_FlagMarksSentOrDiscarded (stored_flag (content w i) off len) = true ->
    record_read w i off n SOLIDSYSLOG_RECORD_STORE_READ_FINISHED_WITH len w'
| read_opened len p w' : reads_only w w' ->
    extent_verdict (content w i) off n = (SOLIDSYSLOG_RECORD_STORE_READ_SUCCEEDED, len) ->
    off + rsize len <= lenZ (content w i) ->
    RecordStore_FlagMarksSentOrDiscarded (stored_flag (content w i) off len) = false ->
    let opened := fst (sp_OpenRecord (stored_record (content w i) off len) p) in
    spanZ (buffer_of w') 0 (4 + len) = sr_Content (snd opened) ->
    record_read w i off n (open_verdict (fst opened)) len w'.

Lemma record_read_ro w i off n res len w' : record_read w i off n res len w' -> reads_only w w'.
Proof using. by destruct 1. Qed.

(** What [put_security_record] leaves in the buffer. *)
Lemma put_record_spec r len w :
  rs_wf w -> 0 <= len <= SOLIDSYSLOG_MAX_MESSAGE_SIZE -> lenZ (sr_Content r) = 4 + len -> lenZ (sr_Trailer r) = sp_TrailerSize (P := P) ->
  wp (put_security_record r len) (fun _ w' => reads_only w w' /\ rw_Pol w' = rw_Pol w /\ rw_Dev w' = rw_Dev w /\
    spanZ (buffer_of w') 0 (4 + len) = sr_Content r /\
    spanZ (buffer_of w') (4 + len) (sp_TrailerSize (P := P)) = sr_Trailer r) w.
Proof using HPS.
  intros Hw Hl Hc Ht. pose proof (rsize_bound len Hl) as Hr. unfold rsize in Hr. pose proof TrailerSize_bound as [Hts _].
  unfold put_security_record. change RecordStore_ContentAddress with 0. change (RecordStore_TrailerAddress len) with (4 + len).
  wp_step. eapply wp_mono; [apply put_buffer_reads; [done | rewrite Hc, Hw; lia] |].
  intros [] w1 (R1 & P1 & D1 & B1). cbv beta.
  assert (Hw1 : rs_wf w1) by exact (reads_only_wf _ _ R1 Hw).
  eapply wp_mono; [apply put_buffer_reads; [lia | rewrite Ht, Hw1; lia] |].
  intros [] w2 (R2 & P2 & D2 & B2).
  split; [by eapply reads_only_trans |]. split; [congruence |]. split; [congruence |]. rewrite B2. split.
  - rewrite spanZ_spliceZ_before by (rewrite ?Hw1; lia). rewrite B1, <- Hc. apply spanZ_spliceZ_same. rewrite Hw. lia.
  - rewrite <- Ht. apply spanZ_spliceZ_same. rewrite Hw1. lia.
Qed.

(** Equal spans have equal parts. *)
Lemma sub_span (l b : bytes) o o' m k j :
  spanZ l o m = spanZ b o' m -> 0 <= o -> 0 <= o' -> 0 <= k -> 0 <= j -> k + j <= m -> spanZ l (o + k) j = spanZ b (o' + k) j.
Proof using. intros E **. rewrite <- (spanZ_spanZ l o m k j), E, spanZ_spanZ by lia. done. Qed.

Lemma OpenRecord_spec b off len w :
  rs_wf w -> 0 <= len <= SOLIDSYSLOG_MAX_MESSAGE_SIZE -> 0 <= off -> off + rsize len <= lenZ b ->
  spanZ (buffer_of w) 0 (rsize len) = spanZ b off (rsize len) ->
  let opened := fst (sp_OpenRecord (stored_record b off len) (rw_Pol w)) in
  wp (RecordStore_OpenRecord len) (fun res w' => res = open_verdict (fst opened) /\ reads_only w w' /\
    spanZ (buffer_of w') 0 (4 + len) = sr_Content (snd opened)) w.
Proof using HPS.
  intros Hw Hl Ho Hb E. pose proof (rsize_bound len Hl) as Hr. unfold rsize in *. pose proof TrailerSize_bound as [Hts Hts'].
  rs_sizes.
  assert (Er : security_record (buffer_of w) len = stored_record b off len).
  { unfold security_record, stored_record, RecordStore_ContentSize.
    change RecordStore_ContentAddress with 0. change (RecordStore_TrailerAddress len) with (4 + len). change CONTENT_HEADER_SIZE with 4.
    change (MAGIC_SIZE + RECORD_LENGTH_SIZE + len) with (4 + len). rewrite u16_small by lia. f_equal.
    - pose proof (sub_span _ _ 0 off _ 0 (4 + len) E) as Hs. rewrite !Z.add_0_r in Hs. apply Hs; lia.
    - pose proof (sub_span _ _ 0 off _ (4 + len) sp_TrailerSize E) as Hs. rewrite Z.add_0_l, Z.add_assoc in Hs. apply Hs; lia. }
  assert (Hlt : lenZ (sr_Trailer (stored_record b off len)) = sp_TrailerSize) by (apply lenZ_spanZ; lia).
  assert (Hlc : lenZ (sr_Content (stored_record b off len)) = 4 + len) by (apply lenZ_spanZ; lia).
  unfold RecordStore_OpenRecord. wp_steps. fold (buffer_of w). rewrite Er.
  unfold on_policy. apply wp_zoom. unfold wp at 1.
  pose proof (Open_shape (stored_record b off len) (rw_Pol w) Hlt) as (S1 & S2 & _).
  destruct (sp_OpenRecord (stored_record b off len) (rw_Pol w)) as [[opened r'] p']. simpl in S1, S2, Hlt, Hlc |- *.
  wp_steps. set (w1 := w <| rw_Pol := p' |>).
  eapply wp_mono; [apply (put_record_spec r' len w1); [exact Hw | done | congruence | congruence] |].
  intros [] w2 (R & _ & _ & B & _). cbv beta. wp_steps. split; [by destruct opened |]. split; [| done].
  eapply reads_only_trans; [| exact R]. by split.
Qed.

Lemma ReadAndValidate_spec i off n w :
  rs_wf w -> readable w i -> 0 <= off -> sized n ->
  wp (RecordStore_ReadAndValidateRecord i off n 0) (fun r w' => record_read w i off n (fst r) (snd r) w') w.
Proof using HDS HPS.
  intros Hw Hb Ho Hn. unfold RecordStore_ReadAndValidateRecord. pose proof TrailerSize_bound as [Hts Hts'].
  wp_step. eapply wp_mono; [by apply ReadRecordExtent_spec |]. intros [res len] w1 [R1 P1 V1 B1]. cbv beta. simpl in *.
  pose proof (reads_only_wf _ _ R1 Hw) as Hw1. pose proof (reads_only_content _ _ i R1) as C1.
  destruct (read_succeeded res) eqn:Er.
  2:{ (* nothing more is read *)
    unfold if_succeeded. rewrite Er. wp_steps. rewrite Er. wp_steps. rewrite Er. wp_steps. simpl andb. cbv iota. rewrite Er. wp_steps. simpl.
    destruct V1 as [V | [-> Hin]]; [| by apply read_failed]. apply read_unparsed; [done | done |]. intros ->. done. }
  destruct res; try done. clear Er. destruct V1 as [V | [? _]]; [| done]. symmetry in V.
  pose proof (proj1 (verdict_succeeded _ _ _ _) V) as (Hhdr & _ & _ & _ & Hlen & Hext).
  destruct (B1 eq_refl) as [E4 Hc4]. pose proof (rsize_bound len ltac:(lia)) as Hrs. rs_sizes. unfold rsize in *.
  (* the message *)
  wp_step. unfold if_succeeded at 1. simpl read_succeeded. cbv iota.
  change CONTENT_HEADER_SIZE with 4. change RecordStore_MessageAddress with 4. rewrite (size_add_small off 4) by lia.
  eapply wp_mono; [apply (ReadSpan_into_spec 4 i (off + 4) len n w1); [eauto using reads_only_readable, reads_only_trans | lia..] |].
  intros res2 w2 HS2. cbv beta.
  destruct HS2 as [w2 Hout | w2 Hin R2 P2 | w2 Hin R2 P2 Hc2 B2]; [lia | |].
  { unfold if_succeeded. simpl read_succeeded. wp_steps. simpl. wp_steps. apply read_failed; [by eapply reads_only_trans | lia]. }
  pose proof (reads_only_trans _ _ _ R1 R2) as R12. rewrite C1 in *.
  assert (Hw2 : lenZ (buffer_of w2) = 2 + 2 + 480 + 32 + 1) by (rewrite (ro_len _ _ R2); exact Hw1).
  assert (E5 : spanZ (buffer_of w2) 0 (4 + len) = spanZ (content w i) off (4 + len)).
  { rewrite B2. apply fill_next; done || lia. }
  (* the trailer and the flag *)
  wp_step. unfold if_succeeded at 1. simpl read_succeeded. cbv iota.
  change (RecordStore_TrailerAddress len) with (4 + len). unfold RecordStore_TrailerOffset.
  change MAGIC_SIZE with 2. change RECORD_LENGTH_SIZE with 2. change SENT_FLAG_SIZE with 1.
  rewrite !size_add_small by (rewrite ?size_add_small; rewrite ?size_add_small; lia).
  replace (off + 2 + 2 + len) with (off + (4 + len)) by lia.
  eapply wp_mono; [apply (ReadSpan_into_spec (4 + len) i (off + (4 + len)) (sp_TrailerSize + 1) n w2); [eauto using reads_only_readable | lia..] |].
  intros res3 w3 HS3. cbv beta.
  destruct HS3 as [w3 Hout | w3 Hin3 R3 P3 | w3 Hin3 R3 P3 Hc3 B3]; [lia | |].
  { wp_steps. simpl. unfold if_succeeded. simpl. wp_steps. apply read_failed; [by eapply reads_only_trans | lia]. }
  pose proof (reads_only_trans _ _ _ R12 R3) as R13. rewrite (reads_only_content _ _ i R12) in *.
  assert (Hw3 : lenZ (buffer_of w3) = 2 + 2 + 480 + 32 + 1) by (rewrite (ro_len _ _ R3); exact Hw2).
  assert (E6 : spanZ (buffer_of w3) 0 (4 + len + (sp_TrailerSize + 1)) = spanZ (content w i) off (4 + len + (sp_TrailerSize + 1))).
  { rewrite B3. apply fill_next; done || lia. }
  assert (Eflag : (buffer_of w3).[4 + len + sp_TrailerSize] = stored_flag (content w i) off len).
  { unfold stored_flag. transitivity ((spanZ (content w i) off (4 + len + (sp_TrailerSize + 1))).[4 + len + sp_TrailerSize]).
    - rewrite <- E6, nthZ_spanZ by lia. done.
    - rewrite nthZ_spanZ by lia. f_equal. lia. }
  wp_steps. fold (buffer_of w3). unfold RecordStore_FlagReadsFinishedWith.
  change (RecordStore_SentFlagAddress len) with (4 + len + sp_TrailerSize). rewrite Eflag.
  destruct (RecordStore_FlagMarksSentOrDiscarded (stored_flag (content w i) off len)) eqn:Ef; simpl andb; cbv iota.
  { unfold if_succeeded. simpl. wp_steps. apply read_finished; try done. unfold rsize. simpl. lia. }
  unfold if_succeeded. simpl read_succeeded. cbv iota.
  rewrite <- Z.add_assoc in Hrs.
  eapply wp_mono; [apply (OpenRecord_spec (content w i) off len w3); unfold rsize; rs_sizes; try done; try lia |].
  { rewrite <- (Z.add_assoc (4 + len)). exact E6. }
  intros res4 w4 (-> & R4 & B4). cbv beta. wp_steps. simpl.
  eapply read_opened; try done; [by eapply reads_only_trans | unfold rsize; lia].
Qed.

(** ** Reading and remembering *)

Definition known_extent w' i off len : Prop :=
  rs_HasReadRecord (rw_Self w') = true /\ rs_LastReadBlockIndex (rw_Self w') = i /\
  rs_LastSentFlagOffset (rw_Self w') = off + rsize len - 1.

(** The record store has the same record in mind. *)
Definition same_last w w' : Prop :=
  rs_HasReadRecord (rw_Self w') = rs_HasReadRecord (rw_Self w) /\ rs_LastReadBlockIndex (rw_Self w') = rs_LastReadBlockIndex (rw_Self w) /\
  rs_LastSentFlagOffset (rw_Self w') = rs_LastSentFlagOffset (rw_Self w).

Record read_result w i off n (dst : bytes) (maxSize : Z) (res : SolidSyslogRecordStoreReadResult) (dst' : bytes) (bytesRead : Z) len w' : Prop := {
  rr_read : exists w1, record_read w i off n res len w1 /\ buffer_of w' = buffer_of w1;
  rr_block : forall j, block (rw_Dev w') j = block (rw_Dev w) j;
  rr_wf : rs_wf w';
  rr_known : RecordStore_RecordExtentIsKnown res = true -> known_extent w' i off len;
  rr_unknown : RecordStore_RecordExtentIsKnown res = false -> same_last w w';
  rr_copied : if read_succeeded res
              then bytesRead = RecordStore_BoundedSize len maxSize /\ dst' = spliceZ dst 0 (spanZ (buffer_of w') 4 bytesRead)
              else bytesRead = 0 /\ dst' = dst
}.

Lemma SentFlagOffset_eq off len n :
  0 <= off -> sized n -> off + rsize len <= n -> 0 <= len <= SOLIDSYSLOG_MAX_MESSAGE_SIZE ->
  RecordStore_SentFlagOffset (P := P) off len = off + rsize len - 1.
Proof using HPS.
  intros Ho Hn He Hl. pose proof TrailerSize_bound. unfold RecordStore_SentFlagOffset, RecordStore_TrailerOffset, rsize in *. rs_sizes.
  unfold MAGIC_SIZE, RECORD_LENGTH_SIZE.
  rewrite !size_add_small by (rewrite ?size_add_small; rewrite ?size_add_small; rewrite ?size_add_small; lia). lia.
Qed.

Lemma record_read_verdict w i off n res len w' :
  record_read w i off n res len w' -> RecordStore_RecordExtentIsKnown res = true ->
  extent_verdict (content w i) off n = (SOLIDSYSLOG_RECORD_STORE_READ_SUCCEEDED, len).
Proof using.
  destruct 1 as [len w' | res len w' _ V Hne | len w' _ V | len p w' _ V]; try done.
  intros Hk. unfold extent_verdict in V. repeat case_match; injection V as <- <-; done.
Qed.

Lemma record_read_within w i off n res len w' :
  record_read w i off n res len w' -> RecordStore_RecordExtentIsKnown res = true -> off + rsize len <= lenZ (content w i).
Proof using.
  destruct 1 as [len w' | res len w' _ V Hne | len w' _ V | len p w' _ V]; try done.
  intros Hk. unfold extent_verdict in V. repeat case_match; injection V as <- <-; done.
Qed.

Lemma Read_spec i off n dst maxSize w :
  rs_wf w -> readable w i -> 0 <= off -> sized n -> 
  wp (SolidSyslogRecordStore_Read i off n dst maxSize)
    (fun r w' => let '(res, dst', k) := r in exists len, read_result w i off n dst maxSize res dst' k len w') w.
Proof using HDS HPS.
  intros Hw Hb Ho Hn. unfold SolidSyslogRecordStore_Read. wp_step.
  eapply wp_mono; [by apply ReadAndValidate_spec |]. intros [res len] w1 HR. cbv beta iota. simpl fst in HR. simpl snd in HR.
  pose proof (record_read_ro _ _ _ _ _ _ _ HR) as Hro. pose proof (reads_only_wf _ _ Hro Hw) as Hw1.
  set (w2 := if RecordStore_RecordExtentIsKnown res
             then w1 <| rw_Self := (rw_Self w1) <| rs_LastReadBlockIndex := i |>
                  <| rs_LastSentFlagOffset := RecordStore_SentFlagOffset (P := P) off len |> <| rs_HasReadRecord := true |> |> else w1).
  assert (H2 : buffer_of w2 = buffer_of w1 /\ rw_Dev w2 = rw_Dev w1 /\ (RecordStore_RecordExtentIsKnown res = true -> known_extent w2 i off len) /\
    (RecordStore_RecordExtentIsKnown res = false -> same_last w w2)).
  { unfold w2. destruct (RecordStore_RecordExtentIsKnown res) eqn:Ek; [| split_and!; try done; intros _; by destruct Hro]. split_and!; try done. intros _.
    pose proof (record_read_verdict _ _ _ _ _ _ _ HR Ek) as V. apply verdict_succeeded in V as (_ & _ & _ & _ & Hl & He).
    split_and!; try done. simpl. eapply SentFlagOffset_eq; [done | exact Hn | done | lia]. }
  destruct H2 as (B2 & D2 & K2 & U2).
  assert (Hbl : forall j, block (rw_Dev w2) j = block (rw_Dev w) j) by (intros j; rewrite D2; apply (ro_block _ _ Hro)).
  wp_step. unfold RecordStore_RememberCurrentRecord, set_self.
  assert (Hk : forall Q : unit -> rs_world D P -> Prop, Q tt w2 ->
    wp (if RecordStore_RecordExtentIsKnown res
        then st_mod (fun w => w <| rw_Self := (rw_Self w) <| rs_LastReadBlockIndex := i |>
               <| rs_LastSentFlagOffset := RecordStore_SentFlagOffset (P := P) off len |> <| rs_HasReadRecord := true |> |>)
        else st_ret tt) Q w1).
  { unfold w2. intros Q HQ. by destruct (RecordStore_RecordExtentIsKnown res). }
  apply Hk. wp_step. destruct (read_succeeded res) eqn:Er.
  - unfold RecordStore_CopyRecordData. wp_steps. exists len. split.
    + by exists w1.
    + done.
    + unfold rs_wf. by rewrite B2.
    + done.
    + done.
    + rewrite Er. done.
  - wp_steps. exists len. split; [by exists w1 | done | unfold rs_wf; by rewrite B2 | done | done | by rewrite Er].
Qed.

(** ** Appending *)

Definition record_header (data : bytes) : bytes := [MAGIC_BYTE_0; MAGIC_BYTE_1; lenZ data mod 256; lenZ data / 256].
(** [rec] is what sealing [data] puts in the block. *)
Definition sealed_record (data rec : bytes) : Prop :=
  exists r p, sr_Content r = record_header data ++ data /\ sr_HeaderLength r = 4 /\ lenZ (sr_Trailer r) = sp_TrailerSize (P := P) /\
    let sealed := fst (sp_SealRecord r p) in
    fst sealed = true /\ rec = sr_Content (snd sealed) ++ sr_Trailer (snd sealed) ++ [SENT_FLAG_UNSENT].

Lemma sealed_record_len data rec : sealed_record data rec -> lenZ rec = rsize (lenZ data).
Proof using HPS.
  intros (r & p & Ec & Eh & Et & _ & ->). destruct (Seal_shape r p Et) as (S1 & S2 & _).
  rewrite !lenZ_app, S1, S2, Et, Ec, lenZ_app. unfold rsize, record_header. rewrite !lenZ_cons, lenZ_nil. lia.
Qed.

(** [put_buffer] keeps filling the record. *)
Lemma put_next (k : Z) (pre bs : bytes) w :
  rs_wf w -> 0 <= k -> k + lenZ bs <= RECORD_BUFFER_SIZE -> spanZ (buffer_of w) 0 k = pre ->
  wp (put_buffer k bs) (fun _ w' => rs_wf w' /\ rw_Pol w' = rw_Pol w /\ rw_Dev w' = rw_Dev w /\
    spanZ (buffer_of w') 0 (k + lenZ bs) = pre ++ bs) w.
Proof using HDS.
  intros Hw Hk Hl E. pose proof (lenZ_nonneg bs).
  eapply wp_mono; [apply put_buffer_reads; [done | by rewrite Hw] |].
  intros [] w1 (R & P1 & D1 & B1). split; [by apply (reads_only_wf _ _ R) |]. split; [done |]. split; [done |].
  rewrite B1, spanZ_add, spanZ_spliceZ_before, E by (rewrite ?Hw; lia). f_equal. apply spanZ_spliceZ_same. rewrite Hw. lia.
Qed.

Lemma lenZ_one (x : Z) : lenZ [x] = 1.
Proof using. done. Qed.

Lemma Assemble_spec data size w :
  rs_wf w -> 0 < size <= SOLIDSYSLOG_MAX_MESSAGE_SIZE -> size <= lenZ data ->
  wp (RecordStore_AssembleRecord data size) (fun sealed w' => rs_wf w' /\ rw_Dev w' = rw_Dev w /\
    (sealed = true -> sealed_record (takeZ size data) (spanZ (buffer_of w') 0 (rsize size)))) w.
Proof using HPS HDS.
  intros Hw Hs Hd. pose proof TrailerSize_bound as [Hts Hts'].
  assert (El : lenZ (takeZ size data) = size) by (apply lenZ_takeZ; lia).
  assert (Hsz : rsize size <= RECORD_BUFFER_SIZE) by (apply rsize_bound; lia). unfold rsize in Hsz.
  unfold RecordStore_AssembleRecord. rs_sizes. rewrite u16_small by lia. rewrite le16_low, le16_high by lia.
  change RecordStore_MagicAddress with 0. change RecordStore_LengthAddress with 2. change RecordStore_MessageAddress with 4.
  change (0 + 1) with 1. change (2 + 1) with 3.
  wp_step. eapply wp_mono; [apply (put_next 0 [] [MAGIC_BYTE_0] w); [done | done | rewrite lenZ_one; rs_sizes; lia | by unfold spanZ; rewrite takeZ_nonpos] |].
  intros [] w1 (W1 & P1 & D1 & E1). cbv beta.
  wp_step. eapply wp_mono; [apply (put_next 1 [MAGIC_BYTE_0] [MAGIC_BYTE_1] w1 W1); [done | rewrite lenZ_one; rs_sizes; lia | exact E1] |].
  intros [] w2 (W2 & P2 & D2 & E2). cbv beta zeta.
  wp_step. eapply wp_mono; [apply (put_next 2 [MAGIC_BYTE_0; MAGIC_BYTE_1] [size mod 256] w2 W2); [done | rewrite lenZ_one; rs_sizes; lia | exact E2] |].
  intros [] w3 (W3 & P3 & D3 & E3). cbv beta.
  wp_step. eapply wp_mono; [apply (put_next 3 [MAGIC_BYTE_0; MAGIC_BYTE_1; size mod 256] [size / 256] w3 W3); [done | rewrite lenZ_one; rs_sizes; lia | exact E3] |].
  intros [] w4 (W4 & P4 & D4 & E4). cbv beta.
  wp_step. eapply wp_mono; [apply (put_next 4 [MAGIC_BYTE_0; MAGIC_BYTE_1; size mod 256; size / 256] (takeZ size data) w4 W4); [done | rewrite El; rs_sizes; lia | exact E4] |].
  intros [] w5 (W5 & P5 & D5 & E5). rewrite El in E5. cbv beta.
  assert (Eh : [MAGIC_BYTE_0; MAGIC_BYTE_1; size mod 256; size / 256] = record_header (takeZ size data))
    by (unfold record_header; by rewrite El).
  rewrite Eh in E5. clear E1 E2 E3 E4 W1 W2 W3 W4 P1 P2 P3 P4.
  wp_steps. fold (buffer_of w5). unfold on_policy. apply wp_zoom. unfold wp at 1.
  set (r := security_record (buffer_of w5) size).
  assert (Erc : sr_Content r = record_header (takeZ size data) ++ takeZ size data).
  { unfold r, security_record, RecordStore_ContentSize. simpl. change RecordStore_ContentAddress with 0.
    change (MAGIC_SIZE + RECORD_LENGTH_SIZE + size) with (4 + size). rewrite u16_small by lia. exact E5. }
  assert (Elc : lenZ (sr_Content r) = 4 + size).
  { rewrite Erc, lenZ_app, El. done. }
  assert (Elt : lenZ (sr_Trailer r) = sp_TrailerSize).
  { unfold r, security_record. simpl. change (RecordStore_TrailerAddress size) with (4 + size). apply lenZ_spanZ; rewrite ?W5; rs_sizes; lia. }
  pose proof (Seal_shape r (rw_Pol w5) Elt) as (S1 & S2 & _).
  assert (Hrec : forall rec, fst (fst (sp_SealRecord r (rw_Pol w5))) = true ->
    rec = sr_Content (snd (fst (sp_SealRecord r (rw_Pol w5)))) ++ sr_Trailer (snd (fst (sp_SealRecord r (rw_Pol w5)))) ++ [SENT_FLAG_UNSENT] ->
    sealed_record (takeZ size data) rec).
  { intros rec Hok ->. exists r, (rw_Pol w5). done. }
  destruct (sp_SealRecord r (rw_Pol w5)) as [[sealed r'] p']. simpl in S1, S2, Hrec |- *. wp_steps.
  set (w6 := w5 <| rw_Pol := p' |>).
  eapply wp_mono; [apply (put_record_spec r' size w6); [exact W5 | rs_sizes; lia | exact (eq_trans S1 Elc) | exact (eq_trans S2 Elt)] |].
  intros [] w7 (R7 & P7 & D7 & B7 & B7'). cbv beta.
  assert (W7 : rs_wf w7) by exact (reads_only_wf _ _ R7 W5). rs_sizes.
  wp_step. change (RecordStore_SentFlagAddress size) with (4 + size + sp_TrailerSize).
  eapply wp_mono; [apply (put_next (4 + size + sp_TrailerSize) (sr_Content r' ++ sr_Trailer r') [SENT_FLAG_UNSENT] w7);
    [done | lia | rewrite lenZ_one; rs_sizes; lia |] |].
  { rewrite spanZ_add, B7 by lia. by rewrite Z.add_0_l, B7'. }
  intros [] w8 (W8 & P8 & D8 & E8). wp_steps.
  split; [done |]. split; [rewrite D8, D7; unfold w6; simpl; congruence |].
  intros Hok. apply Hrec; [done |]. rewrite <- app_assoc in E8. exact E8.
Qed.

(** What an append leaves: the block grows by the sealed record, by a part of it
    when the device fails in the middle, or by nothing. *)
Definition append_result w i (data : bytes) (size : Z) (res : SolidSyslogRecordStoreAppendResult) w' : Prop :=
  rs_wf w' /\ (forall j, j <> i -> block (rw_Dev w') j = block (rw_Dev w) j) /\
  match res with
  | SOLIDSYSLOG_RECORD_STORE_APPEND_SEAL_FAILED => block (rw_Dev w') i = block (rw_Dev w) i
  | SOLIDSYSLOG_RECORD_STORE_APPEND_SUCCEEDED =>
      exists rec, sealed_record (takeZ size data) rec /\
        forall b, block (rw_Dev w) i = Some b -> block (rw_Dev w') i = Some (b ++ rec)
  | SOLIDSYSLOG_RECORD_STORE_APPEND_DEVICE_FAILED =>
      exists rec part rest, sealed_record (takeZ size data) rec /\ rec = part ++ rest /\
        forall b, block (rw_Dev w) i = Some b -> block (rw_Dev w') i = Some (b ++ part)
  end.

Lemma Append_spec i data size w :
  rs_wf w -> 0 < size <= SOLIDSYSLOG_MAX_MESSAGE_SIZE -> size <= lenZ data ->
  wp (SolidSyslogRecordStore_Append i data size) (append_result w i data size) w.
Proof using HPS HDS.
  intros Hw Hs Hd. unfold SolidSyslogRecordStore_Append. wp_step.
  eapply wp_mono; [by apply Assemble_spec |]. intros sealed w1 (W1 & D1 & Hsr). cbv beta. destruct sealed.
  - specialize (Hsr eq_refl). wp_steps. fold (buffer_of w1). unfold on_device. apply wp_zoom. unfold wp at 1.
    assert (Er : takeZ (SolidSyslogRecordStore_RecordSize (P := P) (u16 size)) (buffer_of w1) = spanZ (buffer_of w1) 0 (rsize size)).
    { rs_sizes. rewrite u16_small by lia. rewrite RecordSize_rsize by (rs_sizes; lia). done. }
    rewrite Er. set (rec := spanZ (buffer_of w1) 0 (rsize size)) in *. clearbody rec.
    pose proof (Append_holds i rec (rw_Dev w1)) as HA.
    destruct (bd_Append i rec (rw_Dev w1)) as [ok d']. simpl. wp_steps.
    destruct HA as (Hother & Hblk). rewrite D1 in *.
    split; [done |]. split; [done |]. destruct ok; simpl.
    + exists rec. split; [done |]. intros b Eb. destruct (Hblk b Eb) as (part & rest & Ep & Hok & Eb').
      rewrite (Hok eq_refl), app_nil_r in Ep. by rewrite Ep.
    + destruct (block (rw_Dev w) i) as [b |]; [| by exists rec, [], rec].
      destruct (Hblk b eq_refl) as (part & rest & Ep & _ & Eb'). exists rec, part, rest. by split_and!; [| | intros b' [= <-]].
  - wp_steps. split; [done |]. by rewrite D1.
Qed.

(** ** What reads back *)

(** Appending has no effect on which record was last read. *)
Lemma Append_same_last i data size w : wp (SolidSyslogRecordStore_Append i data size) (fun _ w' => same_last w w') w.
Proof using.
  unfold SolidSyslogRecordStore_Append, RecordStore_AssembleRecord, put_security_record, put_buffer, set_self, on_policy, on_device.
  wp_steps. cbv zeta. wp_steps. apply wp_zoom. unfold wp at 1.
  destruct (sp_SealRecord _ _) as [[sealed record] p]. cbn [fst snd]. wp_steps.
  destruct sealed; wp_steps; [| done]. apply wp_zoom. unfold wp at 1. destruct (bd_Append _ _ _) as [appended d]. by destruct appended.
Qed.
Lemma sealed_parts data rec :
  sealed_record data rec -> 0 < lenZ data <= SOLIDSYSLOG_MAX_MESSAGE_SIZE ->
  forall pre post n, 0 <= lenZ pre -> lenZ pre + rsize (lenZ data) <= n ->
  let b := pre ++ rec ++ post in let off := lenZ pre in
  extent_verdict b off n = (SOLIDSYSLOG_RECORD_STORE_READ_SUCCEEDED, lenZ data) /\
  RecordStore_FlagMarksSentOrDiscarded (stored_flag b off (lenZ data)) = false /\
  exists r p, sr_Content r = record_header data ++ data /\ sr_HeaderLength r = 4 /\ lenZ (sr_Trailer r) = sp_TrailerSize (P := P) /\
    fst (fst (sp_SealRecord r p)) = true /\
    stored_record b off (lenZ data) = mkSecurityRecord (sr_Content (snd (fst (sp_SealRecord r p)))) 4 (sr_Trailer (snd (fst (sp_SealRecord r p)))).
Proof using HPS.
  intros (r & p & Ec & Eh & Et & Hok & Erec) Hl pre post n Hpre Hn b off.
  destruct (Seal_shape r p Et) as (S1 & S2 & S3). pose proof TrailerSize_bound as [Hts Hts'].
  set (r' := snd (fst (sp_SealRecord r p))) in *. cbv zeta in Erec. rewrite Et in S2.
  assert (Hlc : lenZ (sr_Content r') = 4 + lenZ data) by (rewrite S1, Ec, lenZ_app; done).
  assert (E4 : takeZ 4 (sr_Content r') = record_header data).
  { rewrite Eh in S3. rewrite S3, Ec. unfold record_header. by rewrite takeZ_app_le. }
  assert (Econt : spanZ b off (4 + lenZ data) = sr_Content r').
  { unfold b, off. rewrite spanZ_app_r, Z.sub_diag, Erec, <- app_assoc by lia. rewrite spanZ_app_l by lia. rewrite <- Hlc. apply spanZ_all. }
  assert (Etr : spanZ b (off + 4 + lenZ data) (sp_TrailerSize (P := P)) = sr_Trailer r').
  { unfold b, off. rewrite spanZ_app_r by lia. rewrite Erec, <- !app_assoc, spanZ_app_r by lia.
    rewrite spanZ_app_l by lia. replace (lenZ pre + 4 + lenZ data - lenZ pre - lenZ (sr_Content r')) with 0 by lia.
    rewrite <- S2. apply spanZ_all. }
  assert (Ebyte : forall k, 0 <= k < 4 -> b.[off + k] = (record_header data).[k]).
  { intros k Hk. rewrite <- E4, nthZ_takeZ, <- Econt, nthZ_spanZ by lia. done. }
  assert (Hlen : header_length b off = lenZ data).
  { unfold header_length. rewrite (Ebyte 2), (Ebyte 3) by lia. change (lenZ data mod 256 + lenZ data / 256 * 256 = lenZ data).
    pose proof (Z.div_mod (lenZ data) 256 ltac:(lia)). lia. }
  split_and!.
  - pose proof (Ebyte 0 ltac:(lia)) as E0. rewrite Z.add_0_r in E0. pose proof (Ebyte 1 ltac:(lia)) as E1.
    apply (proj2 (verdict_succeeded _ _ _ _)). unfold rsize in *. split_and!; try done; lia.
  - unfold stored_flag. assert (Eflag : b.[off + 4 + lenZ data + sp_TrailerSize] = SENT_FLAG_UNSENT); [| by rewrite Eflag].
    unfold b, off. rewrite nthZ_app_r by lia. rewrite Erec, nthZ_app_l.
    2:{ rewrite !lenZ_app, lenZ_one. lia. }
    rewrite nthZ_app_r, nthZ_app_r by lia.
    by replace (lenZ pre + 4 + lenZ data + sp_TrailerSize - lenZ pre - lenZ (sr_Content r') - lenZ (sr_Trailer r')) with 0 by lia.
  - exists r, p. split_and!; try done. unfold stored_record. by rewrite Econt, Etr.
Qed.

(** Reading a sealed record: its message, or no verdict for now. *)
Lemma read_sealed data rec pre post w i n res len w' :
  sealed_record data rec -> 0 < lenZ data <= SOLIDSYSLOG_MAX_MESSAGE_SIZE -> all_bytes data ->
  content w i = pre ++ rec ++ post -> lenZ pre + rsize (lenZ data) <= n ->
  record_read w i (lenZ pre) n res len w' ->
  match res with
  | SOLIDSYSLOG_RECORD_STORE_READ_SUCCEEDED => len = lenZ data /\ spanZ (buffer_of w') 4 (lenZ data) = data
  | SOLIDSYSLOG_RECORD_STORE_READ_COULD_NOT_OPEN | SOLIDSYSLOG_RECORD_STORE_READ_DEVICE_FAILED => True
  | _ => False
  end.
Proof using HPS.
  intros Hsr Hl Hb Hc Hn HR. pose proof (lenZ_nonneg pre).
  destruct (sealed_parts data rec Hsr Hl pre post n ltac:(done) Hn) as (Hv & Hf & r & p & Ec & Eh & Et & Hok & Est).
  rewrite <- Hc in Hv, Hf, Est.
  destruct HR as [len w' | res len w' _ V Hne | len w' _ V _ F | len p' w' _ V _ F opened B].
  - done.
  - rewrite Hv in V. by injection V as <- <-.
  - rewrite Hv in V. injection V as <-. by rewrite Hf in F.
  - rewrite Hv in V. injection V as <-.
    assert (Hrb : all_bytes (sr_Content r)).
    { rewrite Ec. apply Forall_app. split; [| done]. unfold record_header, MAGIC_BYTE_0, MAGIC_BYTE_1. rs_sizes.
      repeat (apply Forall_cons_2; [unfold is_byte; try lia |]); [apply Z.mod_pos_bound; lia | | apply Forall_nil_2].
      split; [apply Z.div_pos; lia | apply Z.div_lt_upper_bound; lia]. }
    pose proof (Open_sealed r p p' Et Hrb Hok) as HO. rewrite Eh, <- Est in HO. unfold opened in *.
    destruct (sp_OpenRecord (stored_record (content w i) (lenZ pre) (lenZ data)) p') as [[op r'] q]. simpl in *.
    destruct op; simpl; [done | | done]. split; [done |].
    assert (E : spanZ (spanZ (buffer_of w') 0 (4 + lenZ data)) 4 (lenZ data) = spanZ (buffer_of w') 4 (lenZ data)).
    { rewrite spanZ_spanZ by lia. done. }
    rewrite <- E, B, HO, Ec. transitivity (spanZ data 0 (lenZ data)); [by apply (spanZ_app_r (record_header data)) | apply spanZ_all].
Qed.

(** ** Scanning *)

Inductive sent_prefix b n : Z -> Prop :=
| sent_none : sent_prefix b n 0
| sent_next c len :
    sent_prefix b n c -> extent_verdict b c n = (SOLIDSYSLOG_RECORD_STORE_READ_SUCCEEDED, len) ->
    RecordStore_FlagMarksSentOrDiscarded (stored_flag b c len) = true -> sent_prefix b n (c + rsize len).

(** What a scan of [n] bytes may end with. *)
Inductive scan_result b n : Z -> SolidSyslogRecordStoreScanResult -> Prop :=
| scan_all c : sent_prefix b n c -> n <= c -> scan_result b n c SOLIDSYSLOG_RECORD_STORE_SCAN_CLEAN
| scan_unsent c len : sent_prefix b n c -> extent_verdict b c n = (SOLIDSYSLOG_RECORD_STORE_READ_SUCCEEDED, len) ->
    RecordStore_FlagMarksSentOrDiscarded (stored_flag b c len) = false -> scan_result b n c SOLIDSYSLOG_RECORD_STORE_SCAN_CLEAN
| scan_corrupt c len : sent_prefix b n c -> extent_verdict b c n = (SOLIDSYSLOG_RECORD_STORE_READ_CORRUPT, len) ->
    scan_result b n n SOLIDSYSLOG_RECORD_STORE_SCAN_CORRUPT
| scan_failed : scan_result b n n SOLIDSYSLOG_RECORD_STORE_SCAN_DEVICE_FAILED.

Lemma SkipRecord_eq c len n :
  0 <= c -> sized n -> c + rsize len <= n -> 0 <= len <= SOLIDSYSLOG_MAX_MESSAGE_SIZE -> RecordStore_SkipRecord (P := P) c len = c + rsize len.
Proof using HPS.
  intros Hc Hn He Hl. unfold RecordStore_SkipRecord. rewrite RecordSize_rsize by done. pose proof (rsize_bound len Hl). rs_sizes.
  apply size_add_small. lia.
Qed.

Lemma ReadFlag_spec i c len n w :
  readable w i -> 0 <= c -> sized n -> 0 <= len <= SOLIDSYSLOG_MAX_MESSAGE_SIZE -> c + rsize len <= n ->
  wp (RecordStore_IsRecordSentOrDiscarded i c len n) (fun r w' => reads_only w w' /\
    (fst r = SOLIDSYSLOG_RECORD_STORE_READ_DEVICE_FAILED \/
     fst r = SOLIDSYSLOG_RECORD_STORE_READ_SUCCEEDED /\ snd r = RecordStore_FlagMarksSentOrDiscarded (stored_flag (content w i) c len))) w.
Proof using HDS HPS.
  intros Hr Hc Hn Hl He. apply readable_content in Hr as [Eb _].
  pose proof TrailerSize_bound as [Hts Hts']. unfold RecordStore_IsRecordSentOrDiscarded, RecordStore_ReadSpan, RecordStore_SpanIsWithinData.
  rewrite (SentFlagOffset_eq c len n) by done. unfold rsize in *. rs_sizes. change SENT_FLAG_SIZE with 1.
  rewrite size_add_small by lia. replace (c + (4 + len + sp_TrailerSize + 1) - 1 + 1 <=? n) with true by lia.
  wp_step. wp_step. unfold on_device. apply wp_zoom. unfold wp at 1.
  match goal with |- context [bd_Read i ?o 1 _] => pose proof (Read_of_held i o 1 (rw_Dev w) _ ltac:(lia) ltac:(lia) Eb) as HR end.
  destruct (bd_Read i _ 1 (rw_Dev w)) as [[ok bs] d']. destruct HR as (Hsame & Hlen & Hok).
  simpl. wp_steps. split; [by split |].
  destruct ok; [right | by left]. simpl. split; [done |]. destruct (Hok eq_refl) as (Hb & ->). f_equal. unfold stored_flag. set (b := content w i) in *.
  assert (El : lenZ (spanZ b (c + (4 + len + sp_TrailerSize (P := P) + 1) - 1) 1) = 1) by (apply lenZ_spanZ; lia).
  rewrite spliceZ_whole by (rewrite El; done). rewrite nthZ_spanZ by lia. f_equal. lia.
Qed.

Lemma verdict_unread b c n res len :
  c < n -> extent_verdict b c n = (res, len) -> read_succeeded res = false -> res = SOLIDSYSLOG_RECORD_STORE_READ_CORRUPT.
Proof using.
  intros Hc V Hr. unfold extent_verdict in V. replace (n <=? c) with false in V by lia.
  repeat case_match; by injection V as <- <-.
Qed.

Lemma FindFirstUnsent_loop_spec i n b : 0 <= n -> sized n -> all_bytes b -> forall fuel c w,
  rs_wf w -> block (rw_Dev w) i = Some b -> 0 <= c -> sent_prefix b n c -> n - c < Z.of_nat fuel ->
  wp (FindFirstUnsent_loop fuel i c n SOLIDSYSLOG_RECORD_STORE_SCAN_CLEAN) (fun r w' => reads_only w w' /\ scan_result b n (fst r) (snd r)) w.
Proof using HDS HPS.
  intros Hn0 Hn Hb. induction fuel as [|fuel IH]; intros c w Hw Eb Hc0 Hp Hf; simpl FindFirstUnsent_loop.
  { wp_steps. split; [done |]. apply scan_all; [done | simpl; lia]. }
  destruct (Z.ltb_spec c n) as [Hlt | Hge]; [| wp_steps; split; [done |]; by apply scan_all].
  unfold RecordStore_AdvancePastSentRecord. wp_step. wp_step.
  eapply wp_mono; [apply ReadRecordExtent_spec; [done | by exists b | done | done] |].
  pose proof (content_eq _ _ _ Eb) as Hc.
  intros [res len] w1 [R1 P1 V1 B1]. cbv beta. simpl in V1. rewrite Hc in V1. pose proof (reads_only_wf _ _ R1 Hw) as Hw1.
  destruct (read_succeeded res) eqn:Er.
  - destruct res; try done. destruct V1 as [V | [? _]]; [| done]. symmetry in V.
    pose proof (proj1 (verdict_succeeded _ _ _ _) V) as (_ & _ & _ & _ & Hl & He). wp_step. simpl read_succeeded. cbv iota.
    eapply wp_mono; [apply ReadFlag_spec; try done; [by eapply reads_only_readable; [| by exists b] | lia] |].
    intros [res2 fin] w2 [R2 HF]. cbv beta. simpl in HF. rewrite (reads_only_content _ _ i R1), Hc in HF.
    pose proof (reads_only_trans _ _ _ R1 R2) as R12.
    destruct HF as [-> | [-> ->]]; wp_steps; [split; [done | apply scan_failed] |].
    destruct (RecordStore_FlagMarksSentOrDiscarded (stored_flag b c len)) eqn:Ef; wp_steps.
    + rewrite (SkipRecord_eq c len n) by (done || lia). pose proof (rsize_bound len ltac:(lia)) as [Hrs _].
      eapply wp_mono; [apply IH; try done; try lia |].
      * by apply (reads_only_wf _ _ R12).
      * by rewrite (ro_block _ _ R12).
      * by apply sent_next.
      * intros r w3 [R3 HS]. split; [by eapply reads_only_trans | done].
    + split; [done |]. by eapply scan_unsent.
  - wp_steps. destruct V1 as [V | [-> _]]; [| wp_steps; split; [done | apply scan_failed]].
    pose proof (verdict_unread b c n res len Hlt (eq_sym V) Er) as ->.
    wp_steps. split; [done |]. eapply scan_corrupt; [exact Hp | exact (eq_sym V)].
Qed.

(** From [c] to [c'] by whole records. *)
Inductive whole_records b n : Z -> Z -> Prop :=
| whole_none c : whole_records b n c c
| whole_next c len c' : extent_verdict b c n = (SOLIDSYSLOG_RECORD_STORE_READ_SUCCEEDED, len) ->
    whole_records b n (c + rsize len) c' -> whole_records b n c c'.

Definition scan_to_end_result b n c (s : SolidSyslogRecordStoreScanResult) : Prop :=
  match s with
  | SOLIDSYSLOG_RECORD_STORE_SCAN_CLEAN => exists c', whole_records b n c c' /\ n <= c'
  | SOLIDSYSLOG_RECORD_STORE_SCAN_CORRUPT =>
      exists c' len, whole_records b n c c' /\ extent_verdict b c' n = (SOLIDSYSLOG_RECORD_STORE_READ_CORRUPT, len)
  | SOLIDSYSLOG_RECORD_STORE_SCAN_DEVICE_FAILED => c < n
  end.

Lemma ScanToEnd_loop_spec i n b : sized n -> all_bytes b -> forall fuel c w,
  rs_wf w -> block (rw_Dev w) i = Some b -> 0 <= c -> n - c < Z.of_nat fuel ->
  wp (ScanToEnd_loop fuel i c n) (fun s w' => reads_only w w' /\ scan_to_end_result b n c s) w.
Proof using HDS HPS.
  intros Hn Hb. induction fuel as [|fuel IH]; intros c w Hw Eb Hc0 Hf; simpl ScanToEnd_loop.
  { wp_steps. split; [done |]. exists c. split; [constructor | lia]. }
  destruct (Z.ltb_spec c n) as [Hlt | Hge]; [| wp_steps; split; [done |]; exists c; split; [constructor | done]].
  wp_step. eapply wp_mono; [apply ReadRecordExtent_spec; [done | by exists b | done | done] |].
  pose proof (content_eq _ _ _ Eb) as Hc.
  intros [res len] w1 [R1 P1 V1 B1]. cbv beta. simpl in V1. rewrite Hc in V1. pose proof (reads_only_wf _ _ R1 Hw) as Hw1.
  destruct (read_succeeded res) eqn:Er.
  - destruct res; try done. destruct V1 as [V | [? _]]; [| done]. symmetry in V.
    pose proof (proj1 (verdict_succeeded _ _ _ _) V) as (_ & _ & _ & _ & Hl & He).
    pose proof (rsize_bound len ltac:(lia)) as [Hrs _]. rewrite (SkipRecord_eq c len n) by (done || lia).
    eapply wp_mono; [apply IH; try done; try lia; by rewrite (ro_block _ _ R1) |].
    intros s w2 [R2 HS]. split; [by eapply reads_only_trans |]. destruct s; simpl in *.
    + destruct HS as (c' & Hch & Hc'). exists c'. split; [by eapply whole_next | done].
    + destruct HS as (c' & len' & Hch & Hv). exists c', len'. split; [by eapply whole_next | done].
    + done.
  - wp_steps. split; [done |]. destruct V1 as [V | [-> _]]; [| done].
    pose proof (verdict_unread b c n res len Hlt (eq_sym V) Er) as ->. simpl. exists c, len. split; [constructor | done].
Qed.

(** ** A record cut short *)

Lemma torn_verdict data rec part rest pre :
  sealed_record data rec -> 0 < lenZ data <= SOLIDSYSLOG_MAX_MESSAGE_SIZE -> rec = part ++ rest -> part <> [] -> rest <> [] ->
  exists len, extent_verdict (pre ++ part) (lenZ pre) (lenZ (pre ++ part)) = (SOLIDSYSLOG_RECORD_STORE_READ_CORRUPT, len).
Proof using HPS.
  intros Hsr Hl Erec Hp Hr. pose proof (sealed_record_len _ _ Hsr) as Hlen. rewrite Erec, lenZ_app in Hlen.
  pose proof (lenZ_nonneg pre).
  assert (Hp0 : 0 < lenZ part) by (destruct part; [done |]; rewrite lenZ_cons; pose proof (lenZ_nonneg part); lia).
  assert (Hr0 : 0 < lenZ rest) by (destruct rest; [done |]; rewrite lenZ_cons; pose proof (lenZ_nonneg rest); lia).
  destruct (sealed_parts data rec Hsr Hl pre [] (lenZ pre + rsize (lenZ data)) ltac:(done) ltac:(lia)) as (Hv & _ & _).
  rewrite app_nil_r in Hv. apply verdict_succeeded in Hv as (_ & H0 & H1 & H2 & _ & _).
  unfold extent_verdict. rewrite lenZ_app. replace (lenZ pre + lenZ part <=? lenZ pre) with false by lia.
  destruct (Z.ltb_spec (lenZ pre + lenZ part) (lenZ pre + 4)) as [Hshort | Hlong]; [by eexists |].
  assert (Eb : forall k, 0 <= k < 4 -> (pre ++ part).[lenZ pre + k] = (pre ++ rec).[lenZ pre + k]).
  { intros k Hk. rewrite !nthZ_app_r, Erec, nthZ_app_l by lia. done. }
  assert (E0 : (pre ++ part).[lenZ pre] = (pre ++ rec).[lenZ pre]).
  { pose proof (Eb 0 ltac:(lia)) as E. by rewrite Z.add_0_r in E. }
  rewrite E0, (Eb 1), H0, H1 by lia. simpl andb. cbv iota.
  assert (E2 : header_length (pre ++ part) (lenZ pre) = lenZ data).
  { rewrite H2. unfold header_length. by rewrite !Eb by lia. }
  rewrite E2. replace (lenZ pre + rsize (lenZ data) <=? lenZ pre + lenZ part) with false by lia.
  rewrite andb_false_r. by eexists.
Qed.

(** ** Marking *)

Lemma MarkLastReadAsSent_spec next i off n len w :
  rs_wf w -> known_extent w i off len ->
  0 < len <= SOLIDSYSLOG_MAX_MESSAGE_SIZE -> 0 <= off -> sized n -> off + rsize len <= n -> off + rsize len <= lenZ (content w i) ->
  wp (SolidSyslogRecordStore_MarkLastReadAsSent next) (fun r w' => rs_wf w' /\
    (forall j, j <> i -> block (rw_Dev w') j = block (rw_Dev w) j) /\
    match fst r with
    | SOLIDSYSLOG_RECORD_STORE_MARK_SUCCEEDED => snd r = off + rsize len /\ rs_HasReadRecord (rw_Self w') = false /\
        content w' i = spliceZ (content w i) (off + rsize len - 1) [SENT_FLAG_SENT]
    | SOLIDSYSLOG_RECORD_STORE_MARK_NOTHING_READ => False
    | SOLIDSYSLOG_RECORD_STORE_MARK_DEVICE_FAILED => snd r = next /\ known_extent w' i off len /\
        (block (rw_Dev w') i = block (rw_Dev w) i \/
         content w' i = spliceZ (content w i) (off + rsize len - 1) [SENT_FLAG_SENT])
    end) w.
Proof using HDS HPS.
  intros Hw (Kh & Ki & Ko) Hl Ho Hn He Hin. pose proof (rsize_bound len ltac:(lia)) as [Hrs _].
  unfold SolidSyslogRecordStore_MarkLastReadAsSent. wp_steps. rewrite Kh. unfold RecordStore_WriteSentFlag. wp_steps. rewrite Ki, Ko.
  unfold on_device. apply wp_zoom. unfold wp at 1.
  pose proof (WriteAt_holds i (off + rsize len - 1) [SENT_FLAG_SENT] (rw_Dev w) ltac:(lia)) as HW.
  destruct (bd_WriteAt i (off + rsize len - 1) [SENT_FLAG_SENT] (rw_Dev w)) as [ok d']. destruct HW as (Hoth & Hblk). simpl.
  pose proof (content_held w i (off + rsize len) ltac:(lia) Hin) as Eb.
  destruct (Hblk _ Eb) as (part & rest & Ep & Hok & Eb'). { change (lenZ [SENT_FLAG_SENT]) with 1. lia. }
  assert (Hc' : part = [] \/ part = [SENT_FLAG_SENT]).
  { destruct part as [| x part]; [by left |]. right. by destruct part; [injection Ep as <- _ |]. }
  destruct ok; unfold set_self; wp_steps.
  - split; [done |]. split; [done |]. simpl. rs_sizes.
    split; [rewrite ?Ko; unfold SENT_FLAG_SIZE; rewrite size_add_small by lia; lia |]. split; [done |].
    rewrite (Hok eq_refl), app_nil_r in Ep. rewrite Ep. by apply content_eq.
  - split; [done |]. split; [done |]. simpl. split; [done |]. split; [done |].
    destruct Hc' as [-> | ->]; [left; by rewrite Eb', Eb, spliceZ_nil | right; by apply content_eq].
Qed.
End record_theory.

(** * Properties *)

Section properties.
Context {D P : Type} `{HD : BlockDevice D, HDS : !BlockDeviceSpec D, HP : SecurityPolicy P, HPS : !SecurityPolicySpec P}.
Implicit Types (w : rs_world D P).

(** A record that was appended reads back.  After a successful append to any
    block a device holds, under any policy, and whatever is appended behind it
    later, a read at the place it went to gives its message, cut only to the
    reader's memory; or, when the device fails or the policy cannot run, no verdict
    and nothing copied.  It is never found corrupt, rejected or finished with. *)
Theorem RecordStore_reads_back w w2 (i : Z) (data post : bytes) (size n : Z) (dst : bytes) (maxSize : Z) :
  rs_wf w -> block (rw_Dev w) i <> None -> 0 < size <= SOLIDSYSLOG_MAX_MESSAGE_SIZE -> size <= lenZ data -> all_bytes data ->
  fst (SolidSyslogRecordStore_Append i data size w) = SOLIDSYSLOG_RECORD_STORE_APPEND_SUCCEEDED ->
  let stored := content (snd (SolidSyslogRecordStore_Append i data size w)) i in
  rs_wf w2 -> block (rw_Dev w2) i = Some (stored ++ post) -> all_bytes (stored ++ post) -> lenZ stored <= n -> sized n -> 0 <= maxSize ->
  let '((res, dst', bytesRead), w3) := SolidSyslogRecordStore_Read i (lenZ (content w i)) n dst maxSize w2 in
  match res with
  | SOLIDSYSLOG_RECORD_STORE_READ_SUCCEEDED =>
      bytesRead = Z.min size maxSize /\ dst' = spliceZ dst 0 (takeZ bytesRead data)
  | SOLIDSYSLOG_RECORD_STORE_READ_COULD_NOT_OPEN | SOLIDSYSLOG_RECORD_STORE_READ_DEVICE_FAILED => bytesRead = 0 /\ dst' = dst
  | _ => False
  end.
Proof using HDS HPS.
  intros Hw Hheld Hs Hd Hb Hok stored Hw2 Eb2 Hb2 Hn Hsz Hmax. pose proof (content_eq _ _ _ Eb2) as Hc2.
  pose proof (Append_spec i data size w Hw Hs Hd) as HA. unfold wp in HA. rewrite Hok in HA.
  destruct HA as (_ & _ & rec & Hsr & Hblk). destruct (block (rw_Dev w) i) as [b |] eqn:Eb; [| done].
  specialize (Hblk b eq_refl) as Eb'. fold stored in Hn.
  assert (El : lenZ (takeZ size data) = size) by (apply lenZ_takeZ; lia).
  assert (Est : stored = content w i ++ rec) by (unfold stored, content; by rewrite Eb', Eb).
  pose proof (sealed_record_len _ _ Hsr) as Hrl. rewrite El in Hrl.
  rewrite Est in Hc2. rewrite <- app_assoc in Hc2. rewrite Est, lenZ_app, Hrl in Hn.
  pose proof (Read_spec i (lenZ (content w i)) n dst maxSize w2 Hw2 (ex_intro _ _ (conj Eb2 Hb2)) (lenZ_nonneg _) Hsz) as HR.
  unfold wp in HR.
  destruct (SolidSyslogRecordStore_Read i (lenZ (content w i)) n dst maxSize w2) as [[[res dst'] k] w3]. simpl in HR.
  destruct HR as (len & [(w1 & Hrd & Ebuf) _ _ _ _ Hcopy]).
  pose proof (read_sealed (takeZ size data) rec (content w i) post w2 i n res len w1 Hsr ltac:(rewrite El; lia) ltac:(by apply all_bytes_takeZ) Hc2 ltac:(rewrite El; lia) Hrd) as HS.
  destruct res; simpl in Hcopy; try done. destruct HS as [-> HS]. rewrite El in *.
  destruct Hcopy as [-> ->]. unfold RecordStore_BoundedSize.
  assert (E : (if size <? maxSize then size else maxSize) = Z.min size maxSize) by (destruct (Z.ltb_spec size maxSize); lia).
  rewrite E. split; [done |]. f_equal. rewrite Ebuf.
  transitivity (takeZ (Z.min size maxSize) (spanZ (buffer_of w1) 4 size)).
  - unfold spanZ. rewrite takeZ_takeZ. f_equal. lia.
  - rewrite HS, takeZ_takeZ. f_equal. lia.
Qed.

(** A record read is marked once and then finished with.  After a read that
    knows the record's extent, the mark, when the device takes it, changes the one
    flag byte and nothing else, points past the record, and from then on the record
    reads as finished with; when the device does not take it, the record stays the
    one to mark. *)
Theorem RecordStore_marks_sent w (i off n : Z) (dst : bytes) (maxSize next : Z) :
  rs_wf w -> readable w i -> 0 <= off -> sized n ->
  let '((res, _, _), w1) := SolidSyslogRecordStore_Read i off n dst maxSize w in
  RecordStore_RecordExtentIsKnown res = true ->
  let '((mark, next'), w2) := SolidSyslogRecordStore_MarkLastReadAsSent next w1 in
  match mark with
  | SOLIDSYSLOG_RECORD_STORE_MARK_SUCCEEDED =>
      off < next' <= n /\ content w2 i = spliceZ (content w i) (next' - 1) [SENT_FLAG_SENT] /\
      (forall j, j <> i -> block (rw_Dev w2) j = block (rw_Dev w) j) /\
      fst (fst (fst (SolidSyslogRecordStore_Read i off n dst maxSize w2))) ∈
        [SOLIDSYSLOG_RECORD_STORE_READ_FINISHED_WITH; SOLIDSYSLOG_RECORD_STORE_READ_DEVICE_FAILED] /\
      fst (fst (SolidSyslogRecordStore_MarkLastReadAsSent next w2)) = SOLIDSYSLOG_RECORD_STORE_MARK_NOTHING_READ
  | SOLIDSYSLOG_RECORD_STORE_MARK_DEVICE_FAILED => next' = next /\ rs_HasReadRecord (rw_Self w2) = true
  | SOLIDSYSLOG_RECORD_STORE_MARK_NOTHING_READ => False
  end.
Proof using HDS HPS.
  intros Hw Hb Ho Hn. pose proof (Read_spec i off n dst maxSize w Hw Hb Ho Hn) as HR. unfold wp in HR.
  destruct (SolidSyslogRecordStore_Read i off n dst maxSize w) as [[[res dst'] k] w1]. simpl in HR. intros Hk.
  destruct HR as (len & [(w0 & Hrd & Ebuf) Hblk Hw1 Hkn _ _]).
  pose proof (record_read_verdict _ _ _ _ _ _ _ Hrd Hk) as V. pose proof (proj1 (verdict_succeeded _ _ _ _) V) as (V1 & V2 & V3 & V4 & Hl & He).
  pose proof (rsize_bound len ltac:(lia)) as [Hrs _].
  assert (Ec1 : content w1 i = content w i) by (unfold content; by rewrite Hblk).
  pose proof (record_read_within _ _ _ _ _ _ _ Hrd Hk) as Hlb. rewrite <- Ec1 in Hlb.
  pose proof (MarkLastReadAsSent_spec next i off n len w1 Hw1 (Hkn Hk) Hl Ho Hn He Hlb) as HM. unfold wp in HM.
  destruct (SolidSyslogRecordStore_MarkLastReadAsSent next w1) as [[mark next'] w2]. simpl in HM.
  destruct HM as (Hw2 & Hoth & HM). destruct mark; [| done | by destruct HM as [-> [(Hh & _) _]]].
  destruct HM as (-> & Hh & Ec). destruct (readable_content _ _ Hb) as [_ Hb'].
  rewrite Ec1 in *. split; [lia |]. split; [done |]. split; [intros j Hj; by rewrite Hoth, Hblk |]. split.
  - assert (Hb2 : all_bytes (content w2 i)).
    { rewrite Ec. unfold spliceZ. apply Forall_app. split; [by apply all_bytes_takeZ |].
      apply Forall_app. split; [by apply Forall_singleton | by apply all_bytes_dropZ]. }
    assert (El2 : lenZ (content w2 i) = lenZ (content w i)).
    { rewrite Ec. apply lenZ_spliceZ; [lia |]. change (lenZ [SENT_FLAG_SENT]) with 1. lia. }
    assert (Hr2 : readable w2 i).
    { exists (content w2 i). split; [apply (content_held _ _ (off + rsize len)); lia | done]. }
    pose proof (Read_spec i off n dst maxSize w2 Hw2 Hr2 Ho Hn) as HR2. unfold wp in HR2.
    destruct (SolidSyslogRecordStore_Read i off n dst maxSize w2) as [[[res2 dst2] k2] w3]. simpl in HR2 |- *.
    destruct HR2 as (len2 & [(w4 & Hrd2 & _) _ _ _ _]).
    assert (Eb : forall x, 0 <= x < off + rsize len - 1 -> (content w2 i).[x] = (content w i).[x]).
    { intros x Hx. rewrite Ec. unfold spliceZ. rewrite nthZ_app_l by (rewrite lenZ_takeZ; lia). apply nthZ_takeZ. lia. }
    assert (V' : extent_verdict (content w2 i) off n = (SOLIDSYSLOG_RECORD_STORE_READ_SUCCEEDED, len)).
    { apply (proj2 (verdict_succeeded _ _ _ _)). unfold header_length in *. rewrite !Eb by lia. done. }
    assert (F' : RecordStore_FlagMarksSentOrDiscarded (stored_flag (content w2 i) off len) = true).
    { unfold stored_flag. replace (off + 4 + len + sp_TrailerSize) with (off + rsize len - 1) by (unfold rsize; lia).
      rewrite Ec. unfold spliceZ. rewrite nthZ_app_r by (rewrite lenZ_takeZ; lia). rewrite lenZ_takeZ, Z.sub_diag by lia. done. }
    destruct Hrd2 as [len' w' | res' len' w' _ V2' Hne | len' w' _ V2' | len' p w' _ V2' _ F2'].
    + right. left.
    + rewrite V' in V2'. by injection V2' as <- <-.
    + left.
    + rewrite V' in V2'. injection V2' as <-. by rewrite F' in F2'.
  - unfold SolidSyslogRecordStore_MarkLastReadAsSent, st_bind, st_get. by rewrite Hh.
Qed.

Lemma sent_prefix_range b n c : 0 <= n -> sent_prefix b n c -> 0 <= c <= n.
Proof using HPS.
  intros Hn. induction 1 as [| c len _ IH V _]; [lia |].
  apply verdict_succeeded in V as (_ & _ & _ & _ & Hl & He). pose proof (rsize_bound len ltac:(lia)). lia.
Qed.

(** The scan for the first unsent record is total and right for any bytes a
    block may hold.  It ends; it changes no block and stays inside the store's
    buffer; and its cursor is reached from the start of the block by whole records
    already marked sent or discarded, and is either the end of the data, or an
    unsent record, or the scan says the block is corrupt or the device failed and
    points past everything. *)
Theorem FindFirstUnsent_finds w (i n : Z) :
  rs_wf w -> readable w i -> 0 <= n -> sized n ->
  let '((cursor, scanned), w') := SolidSyslogRecordStore_FindFirstUnsent i n w in
  reads_only w w' /\ rs_wf w' /\ 0 <= cursor <= n /\ scan_result (content w i) n cursor scanned.
Proof using HDS HPS.
  intros Hw Hr Hn Hsz. destruct (readable_content _ _ Hr) as [Eb Hb].
  pose proof (FindFirstUnsent_loop_spec i n (content w i) Hn Hsz Hb (S (Z.to_nat n)) 0 w Hw Eb ltac:(lia) (sent_none _ _) ltac:(lia)) as HL.
  unfold wp in HL. unfold SolidSyslogRecordStore_FindFirstUnsent.
  destruct (FindFirstUnsent_loop _ _ _ _ _ w) as [[cursor scanned] w']. simpl in HL. destruct HL as [Hro Hsr].
  split; [done |]. split; [by apply (reads_only_wf _ _ Hro) |]. split; [| done].
  destruct Hsr as [c Hp _ | c len Hp _ _ | c len _ _ |]; [by eapply sent_prefix_range | by eapply sent_prefix_range | |]; lia.
Qed.

(** A power cut in the middle of an append is seen.  When an append fails with
    a part of the record written, then after a restart a read at that place finds
    corruption (or the device fails again), never a record; and the check that
    guards further appends to the block does not pass. *)
Theorem torn_append_is_seen w w2 (i : Z) (data : bytes) (size : Z) (dst : bytes) (maxSize : Z) :
  rs_wf w -> block (rw_Dev w) i <> None -> 0 < size <= SOLIDSYSLOG_MAX_MESSAGE_SIZE -> size <= lenZ data ->
  fst (SolidSyslogRecordStore_Append i data size w) = SOLIDSYSLOG_RECORD_STORE_APPEND_DEVICE_FAILED ->
  let stored := content (snd (SolidSyslogRecordStore_Append i data size w)) i in
  let off := lenZ (content w i) in
  off < lenZ stored < off + rsize size ->
  rs_wf w2 -> block (rw_Dev w2) i = Some stored -> all_bytes stored -> sized (lenZ stored) ->
  fst (fst (fst (SolidSyslogRecordStore_Read i off (lenZ stored) dst maxSize w2))) ∈
    [SOLIDSYSLOG_RECORD_STORE_READ_CORRUPT; SOLIDSYSLOG_RECORD_STORE_READ_DEVICE_FAILED] /\
  fst (SolidSyslogRecordStore_ScanToEnd i off (lenZ stored) w2) ∈
    [SOLIDSYSLOG_RECORD_STORE_SCAN_CORRUPT; SOLIDSYSLOG_RECORD_STORE_SCAN_DEVICE_FAILED].
Proof using HDS HPS.
  intros Hw Hheld Hs Hd Hfail stored off Hlen Hw2 Eb2 Hb2 Hsz. pose proof (content_eq _ _ _ Eb2) as Hc2.
  pose proof (Append_spec i data size w Hw Hs Hd) as HA. unfold wp in HA. rewrite Hfail in HA.
  destruct HA as (_ & _ & rec & part & rest & Hsr & Erec & Eb).
  assert (El : lenZ (takeZ size data) = size) by (apply lenZ_takeZ; lia).
  pose proof (sealed_record_len _ _ Hsr) as Hrl. rewrite El, Erec, lenZ_app in Hrl.
  assert (Est : stored = content w i ++ part).
  { destruct (block (rw_Dev w) i) as [b |] eqn:E0; [| done]. unfold stored, content. by rewrite (Eb b eq_refl), E0. }
  rewrite Est, lenZ_app in Hlen. unfold off in Hlen.
  assert (Hne : part <> [] /\ rest <> []) by (split; intros ->; rewrite lenZ_nil in *; lia).
  destruct (torn_verdict (takeZ size data) rec part rest (content w i) Hsr ltac:(rewrite El; lia) Erec (proj1 Hne) (proj2 Hne)) as (len & V).
  fold off in V. rewrite <- Est, <- Hc2 in V. pose proof (lenZ_nonneg (content w i)) as Hoff. fold off in Hoff.
  assert (Hr2 : readable w2 i) by (by exists stored). rewrite <- Hc2 in Hb2. split.
  - pose proof (Read_spec i off (lenZ stored) dst maxSize w2 Hw2 Hr2 Hoff Hsz) as HR. unfold wp in HR.
    destruct (SolidSyslogRecordStore_Read i off (lenZ stored) dst maxSize w2) as [[[res dst'] k] w3]. simpl in HR |- *.
    destruct HR as (len' & [(w4 & Hrd & _) _ _ _ _]). rewrite Hc2 in *.
    destruct Hrd as [len'' w' | res' len'' w' _ V' Hn' | len'' w' _ V' | len'' p w' _ V'].
    + right. left.
    + rewrite Hc2 in V'. rewrite V in V'. injection V' as <- <-. left.
    + rewrite Hc2 in V'. by rewrite V in V'.
    + rewrite Hc2 in V'. by rewrite V in V'.
  - pose proof (ScanToEnd_loop_spec i (lenZ stored) (content w2 i) Hsz Hb2 (S (Z.to_nat (lenZ stored - off))) off w2 Hw2 ltac:(by rewrite Hc2) Hoff ltac:(lia)) as HL.
    unfold wp in HL. unfold SolidSyslogRecordStore_ScanToEnd. destruct (ScanToEnd_loop _ _ _ _ w2) as [s w3]. simpl in HL |- *.
    destruct HL as [_ HL]. rewrite Hc2 in *. destruct s; [| left | right; left]. exfalso. simpl in HL. destruct HL as (c' & Hch & Hc').
    inversion Hch as [c Ec Ec' | c len' c2 V' _ Ec]; [| by rewrite V in V'].
    rewrite <- Ec', Est, lenZ_app in Hc'. unfold off in Hc'. lia.
Qed.
End properties.

(** ** On a memory device with the checksum policy *)

Definition example_store (blocks : list (Z * bytes)) (tear : option Z) : rs_world mem_device SolidSyslogCrc16Policy :=
  mkRsWorld (mkRecordStore false 0 0 (repeat 0 517)) (mem_of_list blocks 4096 tear) Crc16Policy.
Definition one_record : bytes := [0xA5; 0x5A; 2; 0; 0x68; 0x69; 0x6D; 0xC1; 0xFF].
Ltac bytes_by_compute := vm_compute; repeat (apply Forall_cons_2; [split; [discriminate | reflexivity] |]); apply Forall_nil_2.

Example example_append :
  content (snd (SolidSyslogRecordStore_Append 3 (str "hi") 2 (example_store [(3, [])] None))) 3 = one_record.
Proof. vm_compute. reflexivity. Qed.

Lemma RecordStore_reads_back_witness :
  let '((res, dst', bytesRead), w3) := SolidSyslogRecordStore_Read 3 (lenZ (content (example_store [(3, [])] None) 3)) 18 (repeat 0 4) 4
    (example_store [(3, one_record ++ one_record)] None) in
  match res with
  | SOLIDSYSLOG_RECORD_STORE_READ_SUCCEEDED => bytesRead = Z.min 2 4 /\ dst' = spliceZ (repeat 0 4) 0 (takeZ bytesRead (str "hi"))
  | SOLIDSYSLOG_RECORD_STORE_READ_COULD_NOT_OPEN | SOLIDSYSLOG_RECORD_STORE_READ_DEVICE_FAILED => bytesRead = 0 /\ dst' = repeat 0 4
  | _ => False
  end.
Proof.
  apply (RecordStore_reads_back (example_store [(3, [])] None) (example_store [(3, one_record ++ one_record)] None) 3 (str "hi") one_record 2 18 (repeat 0 4) 4).
  - reflexivity.
  - discriminate.
  - split; [reflexivity | discriminate].
  - discriminate.
  - bytes_by_compute.
  - vm_compute. reflexivity.
  - reflexivity.
  - vm_compute. reflexivity.
  - bytes_by_compute.
  - vm_compute. discriminate.
  - vm_compute. discriminate.
  - discriminate.
Defined.

Lemma RecordStore_marks_sent_witness :
  let w := example_store [(3, one_record ++ one_record)] None in
  let '((res, _, _), w1) := SolidSyslogRecordStore_Read 3 9 18 (repeat 0 4) 4 w in
  RecordStore_RecordExtentIsKnown res = true /\
  let '((mark, next'), w2) := SolidSyslogRecordStore_MarkLastReadAsSent 0 w1 in
  match mark with
  | SOLIDSYSLOG_RECORD_STORE_MARK_SUCCEEDED =>
      9 < next' <= 18 /\ content w2 3 = spliceZ (content w 3) (next' - 1) [SENT_FLAG_SENT] /\
      (forall j, j <> 3 -> block (rw_Dev w2) j = block (rw_Dev w) j) /\
      fst (fst (fst (SolidSyslogRecordStore_Read 3 9 18 (repeat 0 4) 4 w2))) ∈
        [SOLIDSYSLOG_RECORD_STORE_READ_FINISHED_WITH; SOLIDSYSLOG_RECORD_STORE_READ_DEVICE_FAILED] /\
      fst (fst (SolidSyslogRecordStore_MarkLastReadAsSent 0 w2)) = SOLIDSYSLOG_RECORD_STORE_MARK_NOTHING_READ
  | SOLIDSYSLOG_RECORD_STORE_MARK_DEVICE_FAILED => next' = 0 /\ rs_HasReadRecord (rw_Self w2) = true
  | SOLIDSYSLOG_RECORD_STORE_MARK_NOTHING_READ => False
  end.
Proof.
  pose proof (RecordStore_marks_sent (example_store [(3, one_record ++ one_record)] None) 3 9 18 (repeat 0 4) 4 0) as HT.
  specialize (HT eq_refl ltac:(eexists; split; [reflexivity | bytes_by_compute]) ltac:(discriminate) ltac:(vm_compute; discriminate)). cbv zeta.
  assert (HK : RecordStore_RecordExtentIsKnown (fst (fst (fst (SolidSyslogRecordStore_Read 3 9 18 (repeat 0 4) 4
    (example_store [(3, one_record ++ one_record)] None))))) = true) by (vm_compute; reflexivity).
  destruct (SolidSyslogRecordStore_Read 3 9 18 (repeat 0 4) 4 _) as [[[res dst'] k] w1]. split; [exact HK | exact (HT HK)].
Defined.

Lemma FindFirstUnsent_finds_witness :
  let w := example_store [(3, takeZ 8 one_record ++ [0] ++ one_record)] None in
  let '((cursor, scanned), w') := SolidSyslogRecordStore_FindFirstUnsent 3 18 w in
  reads_only w w' /\ rs_wf w' /\ 0 <= cursor <= 18 /\ scan_result (P := SolidSyslogCrc16Policy) (content w 3) 18 cursor scanned.
Proof.
  apply (FindFirstUnsent_finds (example_store [(3, takeZ 8 one_record ++ [0] ++ one_record)] None) 3 18).
  - reflexivity.
  - eexists. split; [reflexivity | bytes_by_compute].
  - discriminate.
  - vm_compute. discriminate.
Defined.
(** The first record is sent; the scan stops at the second. *)
Example example_scan :
  fst (SolidSyslogRecordStore_FindFirstUnsent 3 18 (example_store [(3, takeZ 8 one_record ++ [0] ++ one_record)] None)) =
  (9, SOLIDSYSLOG_RECORD_STORE_SCAN_CLEAN).
Proof. vm_compute. reflexivity. Qed.

Lemma torn_append_is_seen_witness :
  let w := example_store [(3, [])] (Some 7) in
  let w2 := example_store [(3, takeZ 7 one_record)] None in
  let stored := content (snd (SolidSyslogRecordStore_Append 3 (str "hi") 2 w)) 3 in
  let off := lenZ (content w 3) in
  fst (fst (fst (SolidSyslogRecordStore_Read 3 off (lenZ stored) (repeat 0 4) 4 w2))) ∈
    [SOLIDSYSLOG_RECORD_STORE_READ_CORRUPT; SOLIDSYSLOG_RECORD_STORE_READ_DEVICE_FAILED] /\
  fst (SolidSyslogRecordStore_ScanToEnd 3 off (lenZ stored) w2) ∈
    [SOLIDSYSLOG_RECORD_STORE_SCAN_CORRUPT; SOLIDSYSLOG_RECORD_STORE_SCAN_DEVICE_FAILED].
Proof.
  apply (torn_append_is_seen (example_store [(3, [])] (Some 7)) (example_store [(3, takeZ 7 one_record)] None) 3 (str "hi") 2 (repeat 0 4) 4).
  - reflexivity.
  - discriminate.
  - split; [reflexivity | discriminate].
  - discriminate.
  - vm_compute. reflexivity.
  - split; vm_compute; reflexivity.
  - reflexivity.
  - vm_compute. reflexivity.
  - bytes_by_compute.
  - vm_compute. discriminate.
Defined.
