(* ===== verification/BlockSequence.v ===== *)
(** The block sequence ([SolidSyslogBlockSequence.c]): the blocks of a store as one
    run in a circular space of a hundred sequence numbers, written at its newest end
    and read, then disposed of or evicted, at its oldest. *)
From stdpp Require Import gmap.
From S2P Require Import Prelude Errors Interfaces MemDevice.

(** * The sequence *)

Definition BLOCK_SEQUENCE_MODULUS : Z := 100.
Definition MIN_MAX_BLOCKS : Z := 2.
Definition MAX_MAX_BLOCKS : Z := BLOCK_SEQUENCE_MODULUS - 2.

(** What the store's integrator sees happen: events, and the threshold callback. *)
Inductive store_event := StoreRaised (event : SolidSyslogErrorEvent) | ThresholdCalled.

Section block_sequence.
Context {D W : Type} `{BlockDevice D}.

Record SolidSyslogBlockSequenceConfig := mkBlockSequenceConfig {
  bsc_MaxBlockSize : Z;
  bsc_MaxBlocks : Z;
  bsc_GetDiscardPolicy : option (SolidSyslogDiscardPolicyFunction W);
  bsc_DiscardPolicyContext : option Z;
  bsc_GetCapacityThreshold : option (SolidSyslogStoreThresholdFunction W);
  bsc_OnThresholdCrossed : option (SolidSyslogStoreThresholdCallback W);
  bsc_ThresholdContext : option Z
}.

Record SolidSyslogBlockSequence := mkBlockSequence {
  sq_MaxBlockSize : Z;
  sq_MaxBlocks : Z;
  sq_GetDiscardPolicy : SolidSyslogDiscardPolicyFunction W;
  sq_DiscardPolicyContext : option Z;
  sq_GetCapacityThreshold : option (SolidSyslogStoreThresholdFunction W);
  sq_OnThresholdCrossed : SolidSyslogStoreThresholdCallback W;
  sq_ThresholdContext : option Z;
  sq_AtCapacity : bool;
  sq_ThresholdCrossed : bool;
  sq_OldestSequence : Z;
  sq_ReadSequence : Z;
  sq_WriteSequence : Z;
  sq_ReadCursor : Z;
  sq_ReadBlockSize : Z;
  sq_ReadBlockSizeKnown : bool;
  sq_WritePosition : Z;
  sq_WriteBlockCorrupt : bool;
  sq_DeviceFailed : bool;
  sq_EvictedUnsent : bool;
  sq_FailedOperation : Z;
  sq_BlockPresent : list bool
}.
#[export] Instance settable_BlockSequence : Settable SolidSyslogBlockSequence :=
  fun s => mkBlockSequence (sq_MaxBlockSize s) (sq_MaxBlocks s) (sq_GetDiscardPolicy s) (sq_DiscardPolicyContext s)
    (sq_GetCapacityThreshold s) (sq_OnThresholdCrossed s) (sq_ThresholdContext s) (sq_AtCapacity s) (sq_ThresholdCrossed s)
    (sq_OldestSequence s) (sq_ReadSequence s) (sq_WriteSequence s) (sq_ReadCursor s) (sq_ReadBlockSize s)
    (sq_ReadBlockSizeKnown s) (sq_WritePosition s) (sq_WriteBlockCorrupt s) (sq_DeviceFailed s) (sq_EvictedUnsent s)
    (sq_FailedOperation s) (sq_BlockPresent s).

(** The sequence with the device it calls, the integrator's environment, and what
    happened. *)
Record sq_world := mkSqWorld { sw_Self : SolidSyslogBlockSequence; sw_Dev : D; sw_Env : W; sw_Trace : list store_event }.
#[export] Instance settable_SqWorld : Settable sq_world :=
  fun w => mkSqWorld (sw_Self w) (sw_Dev w) (sw_Env w) (sw_Trace w).
Definition sq_op (A : Type) : Type := ST sq_world A.
Implicit Types (self : SolidSyslogBlockSequence).

Definition sq_get {A} (f : SolidSyslogBlockSequence -> A) : sq_op A := st_get (fun w => f (sw_Self w)).
Definition sq_set (f : SolidSyslogBlockSequence -> SolidSyslogBlockSequence) : sq_op unit :=
  st_mod (fun w => w <| sw_Self := f (sw_Self w) |>).
Definition sq_device {A} (m : ST D A) : sq_op A := zoom sw_Dev (fun d w => w <| sw_Dev := d |>) m.
Definition sq_env {A} (m : ST W A) : sq_op A := zoom sw_Env (fun e w => w <| sw_Env := e |>) m.
Definition sq_happens (e : store_event) : sq_op unit := st_mod (fun w => w <| sw_Trace := sw_Trace w ++ [e] |>).
Definition store_raised (severity category code : Z) : store_event :=
  StoreRaised (error_event severity SolidSyslogBlockStoreErrorSource category code).

(** [BlockPresent[seq]] *)
Definition present self (seq : Z) : bool := nth (Z.to_nat seq) (sq_BlockPresent self) false.
Definition set_present (seq : Z) (p : bool) : sq_op unit :=
  sq_set (fun s => s <| sq_BlockPresent := <[Z.to_nat seq := p]> (sq_BlockPresent s) |>).

Definition BlockSequence_NextSequence (current : Z) : Z := u8 ((current + 1) mod BLOCK_SEQUENCE_MODULUS).
Definition BlockSequence_BlockCount self : Z :=
  (sq_WriteSequence self - sq_OldestSequence self + BLOCK_SEQUENCE_MODULUS) mod BLOCK_SEQUENCE_MODULUS + 1.
Definition BlockSequence_ClampToRange (value min max : Z) : Z :=
  let result := value in
  let result := if result <? min then min else result in
  if max <? result then max else result.

Definition BlockSequence_NullThresholdCrossed : SolidSyslogStoreThresholdCallback W := fun _ => st_ret tt.

Definition SolidSyslogBlockSequence_Initialise (config : SolidSyslogBlockSequenceConfig) : SolidSyslogBlockSequence := {|
  sq_MaxBlockSize := bsc_MaxBlockSize config;
  sq_MaxBlocks := BlockSequence_ClampToRange (bsc_MaxBlocks config) MIN_MAX_BLOCKS MAX_MAX_BLOCKS;
  sq_GetDiscardPolicy := default SolidSyslogDiscardPolicy_Default (bsc_GetDiscardPolicy config);
  sq_DiscardPolicyContext := bsc_DiscardPolicyContext config;
  sq_GetCapacityThreshold := bsc_GetCapacityThreshold config;
  sq_OnThresholdCrossed := default BlockSequence_NullThresholdCrossed (bsc_OnThresholdCrossed config);
  sq_ThresholdContext := bsc_ThresholdContext config;
  sq_AtCapacity := false;
  sq_ThresholdCrossed := false;
  sq_OldestSequence := 0;
  sq_ReadSequence := 0;
  sq_WriteSequence := 0;
  sq_ReadCursor := 0;
  sq_ReadBlockSize := 0;
  sq_ReadBlockSizeKnown := false;
  sq_WritePosition := 0;
  sq_WriteBlockCorrupt := false;
  sq_DeviceFailed := false;
  sq_EvictedUnsent := false;
  sq_FailedOperation := SOLIDSYSLOG_BLOCK_STORE_ERROR_MAX;
  sq_BlockPresent := repeat false (Z.to_nat BLOCK_SEQUENCE_MODULUS)
|}.

(** * Capacity *)

Definition SolidSyslogBlockSequence_TotalBytes self : Z := size_mul (sq_MaxBlocks self) (sq_MaxBlockSize self).
Definition SolidSyslogBlockSequence_UsedBytes self : Z :=
  if sq_AtCapacity self then SolidSyslogBlockSequence_TotalBytes self
  else let closedBlocks := size_sub (BlockSequence_BlockCount self) 1 in
       size_add (size_mul closedBlocks (sq_MaxBlockSize self)) (sq_WritePosition self).

Definition BlockSequence_ThresholdEnabled self : bool :=
  match sq_GetCapacityThreshold self with Some _ => true | None => false end.
Definition BlockSequence_IsAboveThreshold self (threshold : Z) : bool :=
  negb (threshold =? 0) && (threshold <=? SolidSyslogBlockSequence_UsedBytes self).

Definition BlockSequence_NotifyThresholdCrossed : sq_op unit :=
  let! getCapacityThreshold := sq_get sq_GetCapacityThreshold in
  match getCapacityThreshold with
  | Some getThreshold =>
      let! context := sq_get sq_ThresholdContext in
      let! threshold := sq_env (getThreshold context) in
      let! above := sq_get (fun s => BlockSequence_IsAboveThreshold s threshold) in
      let! crossed := sq_get sq_ThresholdCrossed in
      if negb above then sq_set (fun s => s <| sq_ThresholdCrossed := false |>)
      else if negb crossed then
        sq_set (fun s => s <| sq_ThresholdCrossed := true |>) ;;;
        sq_happens (store_raised SOLIDSYSLOG_SEVERITY_WARNING SOLIDSYSLOG_CAT_STORE_THRESHOLD_CROSSED
                      SOLIDSYSLOG_BLOCK_STORE_ERROR_THRESHOLD_CROSSED) ;;;
        let! callback := sq_get sq_OnThresholdCrossed in
        sq_happens ThresholdCalled ;;;
        sq_env (callback context)
      else st_ret tt
  | None => st_ret tt
  end.

(** * The device *)

Definition BlockSequence_NoteDeviceFailure (failedOperation : Z) : sq_op unit :=
  let! failed := sq_get sq_DeviceFailed in
  if! negb failed then sq_set (fun s => s <| sq_DeviceFailed := true |> <| sq_FailedOperation := failedOperation |>) end!.

Definition BlockSequence_AcquireBlock (blockIndex : Z) : sq_op bool :=
  let! acquired := sq_device (bd_Acquire blockIndex) in
  if! acquired then set_present blockIndex true end! ;;;
  st_ret acquired.
Definition BlockSequence_DisposeBlock (blockIndex : Z) : sq_op bool :=
  let! disposed := sq_device (bd_Dispose blockIndex) in
  if! disposed then set_present blockIndex false end! ;;;
  st_ret disposed.

(** * Opening *)

Definition BlockSequence_CircularNext (index : Z) : Z := (index + 1) mod BLOCK_SEQUENCE_MODULUS.
Definition BlockSequence_CircularPrev (index : Z) : Z := (index + BLOCK_SEQUENCE_MODULUS - 1) mod BLOCK_SEQUENCE_MODULUS.

(** The last present block, or -1. *)
Definition BlockSequence_ScanForBlockPresence : sq_op Z :=
  forM (Z.to_nat BLOCK_SEQUENCE_MODULUS) 0 (fun seq lastPresent =>
    let! exists_ := sq_device (bd_Exists seq) in
    set_present seq exists_ ;;;
    st_ret (if exists_ then seq else lastPresent)) (-1).

Record Gap := mkGap { gap_Start : Z; gap_Length : Z }.
(** One step of the walk, at the index it comes to; the walk's variables are
    [index], [current] and [largest]. *)
Definition locate_step (isPresent : Z -> bool) (st : Z * Gap * Gap) : Z * Gap * Gap :=
  let '(index, current, largest) := st in
  let index := BlockSequence_CircularNext index in
  if isPresent index then (index, mkGap (gap_Start current) 0, largest)
  else
    let current := if gap_Length current =? 0 then mkGap index (gap_Length current) else current in
    let current := mkGap (gap_Start current) (gap_Length current + 1) in
    (index, current, if gap_Length largest <? gap_Length current then current else largest).
Definition BlockSequence_LocateRunBoundaries self (lastPresent oldest newest : Z) : Z * Z :=
  let '(_, _, largest) :=
    for_range 0 BLOCK_SEQUENCE_MODULUS (fun _ => locate_step (present self)) (lastPresent, mkGap 0 0, mkGap 0 0) in
  if 0 <? gap_Length largest
  then ((gap_Start largest + gap_Length largest) mod BLOCK_SEQUENCE_MODULUS, BlockSequence_CircularPrev (gap_Start largest))
  else (oldest, newest).

Definition StartReadingBlock_at (readSequence : Z) self : SolidSyslogBlockSequence :=
  self <| sq_ReadSequence := readSequence |> <| sq_ReadCursor := 0 |> <| sq_ReadBlockSizeKnown := false |>.
Definition BlockSequence_StartReadingBlock (readSequence : Z) : sq_op unit := sq_set (StartReadingBlock_at readSequence).

Definition BlockSequence_ScanForExistingBlocks : sq_op bool :=
  let! lastPresent := BlockSequence_ScanForBlockPresence in
  if 0 <=? lastPresent then
    let! ends := sq_get (fun s => BlockSequence_LocateRunBoundaries s lastPresent 0 (BLOCK_SEQUENCE_MODULUS - 1)) in
    let '(oldest, newest) := ends in
    sq_set (fun s => s <| sq_OldestSequence := u8 oldest |>) ;;;
    BlockSequence_StartReadingBlock (u8 oldest) ;;;
    sq_set (fun s => s <| sq_WriteSequence := u8 newest |>) ;;;
    st_ret true
  else st_ret false.

Definition SolidSyslogBlockSequence_Open : sq_op bool :=
  let! foundExistingBlocks := BlockSequence_ScanForExistingBlocks in
  let! ready :=
    (if foundExistingBlocks then
       let! writeSequence := sq_get sq_WriteSequence in
       let! r := sq_device (bd_Size writeSequence) in
       let '(ready, writePosition) := r in
       sq_set (fun s => s <| sq_WritePosition := writePosition |>) ;;;
       if! negb ready then BlockSequence_NoteDeviceFailure SOLIDSYSLOG_BLOCK_STORE_ERROR_SIZE_FAILED end! ;;;
       st_ret ready
     else
       let! ready := BlockSequence_AcquireBlock 0 in
       if! negb ready then BlockSequence_NoteDeviceFailure SOLIDSYSLOG_BLOCK_STORE_ERROR_OPEN_FAILED end! ;;;
       st_ret ready) in
  if! ready then BlockSequence_NotifyThresholdCrossed end! ;;;
  st_ret ready.

(** * Reading *)

Definition BlockSequence_IsReadBlockActiveWrite self : bool := sq_ReadSequence self =? sq_WriteSequence self.
Definition SolidSyslogBlockSequence_ReadIsBehindWrite self : bool := negb (sq_ReadSequence self =? sq_WriteSequence self).
Definition SolidSyslogBlockSequence_HasUnsent self : bool :=
  SolidSyslogBlockSequence_ReadIsBehindWrite self || (sq_ReadCursor self <? sq_WritePosition self).
Definition SolidSyslogBlockSequence_DeviceFailed self : bool := sq_DeviceFailed self.
Definition SolidSyslogBlockSequence_EvictedUnsent self : bool := sq_EvictedUnsent self.
Definition SolidSyslogBlockSequence_FailedOperation self : Z := sq_FailedOperation self.
Definition SolidSyslogBlockSequence_SetReadCursor (cursor : Z) : sq_op unit := sq_set (fun s => s <| sq_ReadCursor := cursor |>).
Definition SolidSyslogBlockSequence_MarkWriteBlockCorrupt : sq_op unit := sq_set (fun s => s <| sq_WriteBlockCorrupt := true |>).
Definition SolidSyslogBlockSequence_NoteRecordWritten (recordSize : Z) : sq_op unit :=
  sq_set (fun s => s <| sq_WritePosition := size_add (sq_WritePosition s) recordSize |>) ;;;
  sq_set (fun s => s <| sq_AtCapacity := false |>) ;;;
  BlockSequence_NotifyThresholdCrossed.

(** Whether the size is known, and [*size]. *)
Definition SolidSyslogBlockSequence_ReadBlockSize : sq_op (bool * Z) :=
  let! self := sq_get (fun s => s) in
  if BlockSequence_IsReadBlockActiveWrite self then st_ret (true, sq_WritePosition self)
  else if sq_ReadBlockSizeKnown self then st_ret (true, sq_ReadBlockSize self)
  else
    let! r := sq_device (bd_Size (sq_ReadSequence self)) in
    let '(known, size) := r in
    sq_set (fun s => s <| sq_ReadBlockSize := size |> <| sq_ReadBlockSizeKnown := known |>) ;;;
    if! negb known then BlockSequence_NoteDeviceFailure SOLIDSYSLOG_BLOCK_STORE_ERROR_SIZE_FAILED end! ;;;
    st_ret (known, size).

(** The next present block after [current], which is met within one turn. *)
Definition BlockSequence_NextPresentSequence self (current : Z) : Z :=
  while (Z.to_nat BLOCK_SEQUENCE_MODULUS) (fun next => negb (present self next)) BlockSequence_NextSequence
    (BlockSequence_NextSequence current).

Definition BlockSequence_AdvancePastDisposedReadBlock : sq_op unit :=
  sq_set (fun s => s <| sq_OldestSequence := BlockSequence_NextPresentSequence s (sq_OldestSequence s) |>) ;;;
  sq_set (fun s => StartReadingBlock_at (sq_OldestSequence s) s) ;;;
  sq_set (fun s => s <| sq_AtCapacity := false |>) ;;;
  BlockSequence_NotifyThresholdCrossed.
Definition BlockSequence_DisposeReadBlock : sq_op bool :=
  let! readSequence := sq_get sq_ReadSequence in
  let! disposed := BlockSequence_DisposeBlock readSequence in
  (if disposed then BlockSequence_AdvancePastDisposedReadBlock
   else BlockSequence_NoteDeviceFailure SOLIDSYSLOG_BLOCK_STORE_ERROR_DISPOSE_FAILED) ;;;
  st_ret disposed.
Definition SolidSyslogBlockSequence_LeaveReadBlock : sq_op unit := BlockSequence_DisposeReadBlock ;;; st_ret tt.

Definition BlockSequence_IsReadBlockFullyDrained self (readBlockSize : Z) : bool := readBlockSize <=? sq_ReadCursor self.
(** The result is [*readBlockChanged]. *)
Definition SolidSyslogBlockSequence_DisposeReadBlockIfDrained : sq_op bool :=
  let! active := sq_get BlockSequence_IsReadBlockActiveWrite in
  if negb active then
    let! r := SolidSyslogBlockSequence_ReadBlockSize in
    let '(known, readBlockSize) := r in
    let! drained := sq_get (fun s => BlockSequence_IsReadBlockFullyDrained s readBlockSize) in
    if known && drained then BlockSequence_DisposeReadBlock else st_ret false
  else st_ret false.

(** * Writing *)

Definition BlockSequence_BlockIsFull self (recordSize : Z) : bool :=
  sq_WriteBlockCorrupt self || (sq_MaxBlockSize self <? size_add (sq_WritePosition self) recordSize).
Definition BlockSequence_DiscardPolicy : sq_op Z :=
  let! self := sq_get (fun s => s) in sq_env (sq_GetDiscardPolicy self (sq_DiscardPolicyContext self)).
Definition BlockSequence_StoreIsFull : sq_op bool :=
  let! self := sq_get (fun s => s) in
  if sq_MaxBlocks self <=? BlockSequence_BlockCount self then
    let! policy := BlockSequence_DiscardPolicy in
    st_ret (negb (policy =? SOLIDSYSLOG_DISCARD_POLICY_OLDEST))
  else st_ret false.
Definition BlockSequence_ExceedsMaxBlocks self : bool := sq_MaxBlocks self <? BlockSequence_BlockCount self.

Definition BlockSequence_ResetReadToOldest : sq_op unit := sq_set (fun s => StartReadingBlock_at (sq_OldestSequence s) s).
Definition BlockSequence_DiscardOldestBlock : sq_op bool :=
  let! oldest := sq_get sq_OldestSequence in
  let! disposed := BlockSequence_DisposeBlock oldest in
  if disposed then
    sq_set (fun s => s <| sq_EvictedUnsent := true |>) ;;;
    sq_set (fun s => s <| sq_OldestSequence := BlockSequence_NextPresentSequence s (sq_OldestSequence s) |>) ;;;
    BlockSequence_ResetReadToOldest ;;;
    st_ret true
  else
    BlockSequence_NoteDeviceFailure SOLIDSYSLOG_BLOCK_STORE_ERROR_DISPOSE_FAILED ;;;
    st_ret false.

Definition BlockSequence_AcquireEmptyBlock (blockIndex : Z) : sq_op bool :=
  let! exists_ := sq_device (bd_Exists blockIndex) in
  let! ready :=
    (if exists_ then
       let! ready := BlockSequence_DisposeBlock blockIndex in
       if! negb ready then BlockSequence_NoteDeviceFailure SOLIDSYSLOG_BLOCK_STORE_ERROR_DISPOSE_FAILED end! ;;;
       st_ret ready
     else st_ret true) in
  if ready then
    let! ready := BlockSequence_AcquireBlock blockIndex in
    if! negb ready then BlockSequence_NoteDeviceFailure SOLIDSYSLOG_BLOCK_STORE_ERROR_ROTATE_FAILED end! ;;;
    st_ret ready
  else st_ret false.

Definition BlockSequence_AdvanceWriteToNewBlock (nextSequence : Z) : sq_op unit :=
  sq_set (fun s => s <| sq_WriteSequence := nextSequence |> <| sq_WritePosition := 0 |> <| sq_WriteBlockCorrupt := false |>).

(** The results are [acquired] and [*readBlockChanged]. *)
Definition BlockSequence_RotateToNextBlock : sq_op (bool * bool) :=
  let! writeSequence := sq_get sq_WriteSequence in
  let nextSequence := BlockSequence_NextSequence writeSequence in
  let! acquired := BlockSequence_AcquireEmptyBlock nextSequence in
  if acquired then
    BlockSequence_AdvanceWriteToNewBlock nextSequence ;;;
    sq_set (fun s => s <| sq_EvictedUnsent := false |>) ;;;
    let! readBlockChanged := SolidSyslogBlockSequence_DisposeReadBlockIfDrained in
    let! evict := sq_get (fun s => negb (sq_DeviceFailed s) && BlockSequence_ExceedsMaxBlocks s) in
    if evict then
      let! discarded := BlockSequence_DiscardOldestBlock in
      st_ret (acquired, discarded || readBlockChanged)
    else st_ret (acquired, readBlockChanged)
  else st_ret (acquired, false).

(** The results are [spaceAvailable] and [*readBlockChanged]. *)
Definition SolidSyslogBlockSequence_PrepareForWrite (recordSize : Z) : sq_op (bool * bool) :=
  let! blockFull := sq_get (fun s => BlockSequence_BlockIsFull s recordSize) in
  if blockFull then
    let! storeFull := BlockSequence_StoreIsFull in
    if storeFull then
      sq_set (fun s => s <| sq_AtCapacity := true |>) ;;;
      BlockSequence_NotifyThresholdCrossed ;;;
      st_ret (false, false)
    else BlockSequence_RotateToNextBlock
  else st_ret (true, false).
End block_sequence.
Arguments SolidSyslogBlockSequence : clear implicits.
Arguments SolidSyslogBlockSequenceConfig : clear implicits.
Arguments sq_world : clear implicits.

(** * Circular sequence numbers *)

Definition is_seq (s : Z) : Prop := 0 <= s < BLOCK_SEQUENCE_MODULUS.
(** The number [k] places after [o], and how many places [s] is after [o]. *)
Definition seq_at (o k : Z) : Z := (o + k) mod BLOCK_SEQUENCE_MODULUS.
Definition dist (o s : Z) : Z := (s - o) mod BLOCK_SEQUENCE_MODULUS.

Ltac seq_arith := unfold is_seq, seq_at, dist, u8, BLOCK_SEQUENCE_MODULUS in *; Z.to_euclidean_division_equations; lia.

Lemma dist_range o s : 0 <= dist o s < BLOCK_SEQUENCE_MODULUS.
Proof. seq_arith. Qed.
Lemma dist_bound o s : 0 <= dist o s <= 99.
Proof. pose proof (dist_range o s). unfold BLOCK_SEQUENCE_MODULUS in *. lia. Qed.
Lemma seq_at_range o k : is_seq (seq_at o k).
Proof. seq_arith. Qed.
Lemma seq_at_dist o s : is_seq s -> seq_at o (dist o s) = s.
Proof. intros. seq_arith. Qed.
Lemma dist_seq_at o k : 0 <= k < BLOCK_SEQUENCE_MODULUS -> dist o (seq_at o k) = k.
Proof. intros. seq_arith. Qed.
Lemma dist_refl o : dist o o = 0.
Proof. seq_arith. Qed.
Lemma dist_0 o s : is_seq o -> is_seq s -> dist o s = 0 -> s = o.
Proof. intros. seq_arith. Qed.
Lemma dist_shift o o' s : dist o o' <= dist o s -> dist o' s = dist o s - dist o o'.
Proof. intros. seq_arith. Qed.
Lemma seq_at_shift o o' k : seq_at o' k = seq_at o (dist o o' + k).
Proof. seq_arith. Qed.
Lemma seq_at_add o n k : seq_at (seq_at o n) k = seq_at o (n + k).
Proof. unfold seq_at. rewrite Z.add_mod_idemp_l by done. f_equal. lia. Qed.
Lemma NextSequence_at s : is_seq s -> BlockSequence_NextSequence s = seq_at s 1.
Proof. intros. unfold BlockSequence_NextSequence, BLOCK_SEQUENCE_MODULUS. apply u8_small. seq_arith. Qed.
Lemma NextSequence_seq_at o k : BlockSequence_NextSequence (seq_at o k) = seq_at o (k + 1).
Proof. rewrite NextSequence_at by apply seq_at_range. seq_arith. Qed.
Lemma dist_next o s : dist o s < 99 -> dist o (seq_at s 1) = dist o s + 1.
Proof. intros. seq_arith. Qed.

(** From the newest block on to the oldest. *)
Lemma seq_at_gap o wr : is_seq o -> seq_at wr (100 - dist o wr) = o.
Proof.
  intros Ho. unfold seq_at, dist, is_seq, BLOCK_SEQUENCE_MODULUS in *.
  replace (wr + (100 - (wr - o) mod 100)) with (wr - (wr - o) mod 100 + 1 * 100) by lia.
  rewrite Z.mod_add by lia. rewrite Zminus_mod_idemp_r. replace (wr - (wr - o)) with o by lia. by apply Z.mod_small.
Qed.
Lemma seq_at_back k wr : is_seq wr -> seq_at (seq_at wr k) (- k) = wr.
Proof. intros. rewrite seq_at_add. replace (k + - k) with 0 by lia. unfold seq_at, is_seq in *. rewrite Z.add_0_r. by apply Z.mod_small. Qed.
Lemma seq_at_0 s : is_seq s -> seq_at s 0 = s.
Proof. intros. unfold seq_at, is_seq in *. rewrite Z.add_0_r. by apply Z.mod_small. Qed.
(** Three numbers in order round the circle. *)
Lemma dist_between o s wr : dist o s <= dist o wr -> dist s wr = dist o wr - dist o s.
Proof. apply dist_shift. Qed.

Section theory.
Context {D W : Type} `{HDS : BlockDeviceSpec D}.
Implicit Types (self : SolidSyslogBlockSequence W) (w : sq_world D W).

(** * The run of blocks *)

Lemma BlockCount_dist self : BlockSequence_BlockCount self = dist (sq_OldestSequence self) (sq_WriteSequence self) + 1.
Proof using. unfold BlockSequence_BlockCount. f_equal. seq_arith. Qed.

(** The blocks of the store, from the oldest to the one being written. *)
Definition run self : list Z :=
  List.filter (present self) (map (seq_at (sq_OldestSequence self)) (seqZ 0 (BlockSequence_BlockCount self))).

(** A well-formed run: its two ends are there, nothing is outside it, and the read
    is in its oldest block. *)
Record run_ok self : Prop := {
  ro_max : MIN_MAX_BLOCKS <= sq_MaxBlocks self <= MAX_MAX_BLOCKS;
  ro_map : length (sq_BlockPresent self) = Z.to_nat BLOCK_SEQUENCE_MODULUS;
  ro_oldest : is_seq (sq_OldestSequence self) /\ present self (sq_OldestSequence self) = true;
  ro_write : is_seq (sq_WriteSequence self) /\ present self (sq_WriteSequence self) = true;
  ro_read : sq_ReadSequence self = sq_OldestSequence self;
  ro_run : forall s, is_seq s -> present self s = true ->
    dist (sq_OldestSequence self) s <= dist (sq_OldestSequence self) (sq_WriteSequence self)
}.

(** What the sequence remembers is what the device holds. *)
Definition content_of w (i : Z) : bytes := default [] (block (sw_Dev w) i).
Record synced w : Prop := {
  sy_map : forall s, is_seq s -> (present (sw_Self w) s = true <-> block (sw_Dev w) s <> None);
  sy_write : sq_WritePosition (sw_Self w) = lenZ (content_of w (sq_WriteSequence (sw_Self w)));
  sy_read : sq_ReadBlockSizeKnown (sw_Self w) = true -> sq_ReadSequence (sw_Self w) <> sq_WriteSequence (sw_Self w) /\
    sq_ReadBlockSize (sw_Self w) = lenZ (content_of w (sq_ReadSequence (sw_Self w)))
}.
(** The state between calls, as long as no call of the device has failed. *)
Record sq_ok w : Prop := {
  ok_working : sq_DeviceFailed (sw_Self w) = false;
  ok_run : run_ok (sw_Self w);
  ok_synced : synced w;
  ok_free : BlockSequence_BlockCount (sw_Self w) < BLOCK_SEQUENCE_MODULUS
}.

Lemma run_spec self s : run_ok self -> (s ∈ run self <-> is_seq s /\ present self s = true).
Proof using.
  intros Hr. unfold run. rewrite list_elem_of_In, filter_In, <- list_elem_of_In, list_elem_of_fmap. split.
  - intros [(k & -> & Hk) Hp]. split; [apply seq_at_range | done].
  - intros [Hs Hp]. split; [| done]. exists (dist (sq_OldestSequence self) s).
    rewrite seq_at_dist, elem_of_seqZ, BlockCount_dist by done. split; [done |].
    pose proof (ro_run _ Hr s Hs Hp). pose proof (dist_range (sq_OldestSequence self) s). lia.
Qed.

(** ** The next present block *)

Lemma NextPresent_spec self current t :
  is_seq current -> is_seq t -> present self t = true ->
  exists k, 1 <= k <= 100 /\ BlockSequence_NextPresentSequence self current = seq_at current k /\
    present self (seq_at current k) = true /\ (forall j, 1 <= j < k -> present self (seq_at current j) = false) /\
    (t <> current -> k <= dist current t).
Proof using.
  intros Hc Ht Hp.
  assert (Hn : exists n, 1 <= n <= 100 /\ seq_at current n = t /\ (t <> current -> n = dist current t)).
  { destruct (decide (t = current)) as [-> | Hne].
    - exists 100. split; [lia |]. split; [seq_arith | done].
    - exists (dist current t). split; [| by rewrite seq_at_dist].
      pose proof (dist_range current t). destruct (decide (dist current t = 0)) as [E | E]; [by apply dist_0 in E |].
      unfold BLOCK_SEQUENCE_MODULUS in *. lia. }
  destruct Hn as (n & Hn & En & Hd). unfold BlockSequence_NextPresentSequence.
  rewrite NextSequence_at by done.
  while_by (fun next => exists k, 1 <= k <= n /\ next = seq_at current k /\ forall j, 1 <= j < k -> present self (seq_at current j) = false)
    (fun next => (n - 1 - dist current (seq_at next 99))%Z).
  - intros s (k & Hk & -> & Hj) Hs. apply negb_true_iff in Hs.
    assert (k <> n) by (intros ->; rewrite En in Hs; congruence).
    rewrite NextSequence_seq_at. split.
    + exists (k + 1). split; [lia |]. split; [done |]. intros j Hj'. destruct (decide (j = k)) as [-> | ]; [done | apply Hj; lia].
    + assert (forall m, 1 <= m <= 100 -> dist current (seq_at (seq_at current m) 99) = m - 1) as Em by (intros; seq_arith).
      rewrite !Em by lia. lia.
  - exists 1. split; [lia |]. split; [done |]. intros j Hj. lia.
  - assert (dist current (seq_at (seq_at current 1) 99) = 0) by seq_arith.
    unfold BLOCK_SEQUENCE_MODULUS. lia.
  - intros s (k & Hk & -> & Hj) Hs. apply negb_false_iff in Hs.
    exists k. split; [lia |]. split; [done |]. split; [done |]. split; [done |]. intros Hne. specialize (Hd Hne). lia.
Qed.

(** ** The run as a list *)

(** The present blocks among [n] from [o] on. *)
Definition span_run self (o n : Z) : list Z := List.filter (present self) (map (seq_at o) (seqZ 0 n)).
Lemma run_span self : run self = span_run self (sq_OldestSequence self) (BlockSequence_BlockCount self).
Proof using. done. Qed.
Lemma span_run_app self o n m : 0 <= n -> 0 <= m -> span_run self o (n + m) = span_run self o n ++ span_run self (seq_at o n) m.
Proof using.
  intros Hn Hm. unfold span_run. rewrite seqZ_app, map_app, filter_app by lia. f_equal. f_equal.
  replace (seqZ (0 + n) m) with (Z.add n <$> seqZ 0 m) by (rewrite fmap_add_seqZ; f_equal; lia).
  change (Z.add n <$> seqZ 0 m) with (map (Z.add n) (seqZ 0 m)). rewrite map_map. apply map_ext. intros k. cbv beta. by rewrite seq_at_add.
Qed.
Lemma span_run_in self o n s : In s (map (seq_at o) (seqZ 0 n)) -> exists j, 0 <= j < n /\ s = seq_at o j.
Proof using.
  intros Hs. apply list_elem_of_In, list_elem_of_fmap in Hs as (k & -> & Hk). apply elem_of_seqZ in Hk. exists k. split; [lia | done].
Qed.
Lemma span_run_ext self self' o n :
  (forall j, 0 <= j < n -> present self' (seq_at o j) = present self (seq_at o j)) -> span_run self' o n = span_run self o n.
Proof using.
  intros He. unfold span_run. apply filter_ext_in. intros s (j & Hj & ->)%(span_run_in self). by apply He.
Qed.
Lemma span_run_none self o n : (forall j, 0 <= j < n -> present self (seq_at o j) = false) -> span_run self o n = [].
Proof using.
  intros Hn. unfold span_run. rewrite (filter_ext_in (present self) (fun _ => false)).
  - induction (map (seq_at o) (seqZ 0 n)); done.
  - intros s (j & Hj & ->)%(span_run_in self). by apply Hn.
Qed.
Lemma span_run_one self o : is_seq o -> present self o = true -> span_run self o 1 = [o].
Proof using.
  intros Ho Hp. unfold span_run. change (seqZ 0 1) with [0]. cbn [map List.filter].
  assert (E : seq_at o 0 = o) by seq_arith. by rewrite E, Hp.
Qed.
Lemma run_head self : run_ok self -> exists rest, run self = sq_OldestSequence self :: rest.
Proof using.
  intros Hr. destruct (ro_oldest _ Hr) as [Ho Hp]. rewrite run_span, BlockCount_dist.
  pose proof (dist_range (sq_OldestSequence self) (sq_WriteSequence self)).
  replace (dist (sq_OldestSequence self) (sq_WriteSequence self) + 1) with (1 + dist (sq_OldestSequence self) (sq_WriteSequence self)) by lia.
  rewrite span_run_app, span_run_one by (done || lia). by eexists.
Qed.
Lemma run_last self : run_ok self -> exists front, run self = front ++ [sq_WriteSequence self].
Proof using.
  intros Hr. destruct (ro_write _ Hr) as [Hw Hp]. rewrite run_span, BlockCount_dist.
  pose proof (dist_range (sq_OldestSequence self) (sq_WriteSequence self)).
  rewrite span_run_app by lia. rewrite seq_at_dist by done. rewrite span_run_one by done. by eexists.
Qed.
(** ** Its two ends *)

Lemma present_set self s s' (p : bool) :
  length (sq_BlockPresent self) = Z.to_nat BLOCK_SEQUENCE_MODULUS -> is_seq s -> is_seq s' ->
  present (self <| sq_BlockPresent := <[Z.to_nat s := p]> (sq_BlockPresent self) |>) s' =
    if decide (s' = s) then p else present self s'.
Proof using.
  intros Hl Hs Hs'. unfold present. simpl. unfold is_seq, BLOCK_SEQUENCE_MODULUS in *.
  destruct (decide (s' = s)) as [-> | Hne].
  - rewrite nth_lookup, list_lookup_insert_eq by lia. done.
  - rewrite !nth_lookup, list_lookup_insert_ne by lia. done.
Qed.

(** The sequence after its oldest block went: the next present block is the oldest,
    and the read starts on it. *)
Definition without_oldest self : SolidSyslogBlockSequence W :=
  let s := self <| sq_BlockPresent := <[Z.to_nat (sq_OldestSequence self) := false]> (sq_BlockPresent self) |> in
  let s := s <| sq_OldestSequence := BlockSequence_NextPresentSequence s (sq_OldestSequence s) |> in
  StartReadingBlock_at (sq_OldestSequence s) s.
Lemma without_oldest_ok self :
  run_ok self -> sq_OldestSequence self <> sq_WriteSequence self ->
  run_ok (without_oldest self) /\ run self = sq_OldestSequence self :: run (without_oldest self) /\
  BlockSequence_BlockCount (without_oldest self) < BlockSequence_BlockCount self.
Proof using.
  intros Hr Hne. destruct (ro_oldest _ Hr) as [Ho Hpo]. destruct (ro_write _ Hr) as [Hw Hpw].
  set (o := sq_OldestSequence self) in *. set (s1 := self <| sq_BlockPresent := <[Z.to_nat o := false]> (sq_BlockPresent self) |>).
  assert (Hset : forall s', is_seq s' -> present s1 s' = if decide (s' = o) then false else present self s').
  { intros s' Hs'. by apply present_set; [apply Hr | |]. }
  destruct (NextPresent_spec s1 o (sq_WriteSequence self) Ho Hw) as (k & Hk & Ek & Hpk & Hmin & Hkw).
  { rewrite Hset, decide_False by congruence. done. }
  specialize (Hkw (not_eq_sym Hne)).
  assert (Hd : dist o (seq_at o k) = k) by (apply dist_seq_at; pose proof (dist_range o (sq_WriteSequence self)); lia).
  assert (Hdw : dist (seq_at o k) (sq_WriteSequence self) = dist o (sq_WriteSequence self) - k).
  { rewrite <- Hd at 2. apply dist_shift. lia. }
  assert (Hsame : forall s', is_seq s' -> s' <> o -> present s1 s' = present self s') by (intros; rewrite Hset, decide_False by done; done).
  assert (E : without_oldest self = StartReadingBlock_at (seq_at o k) (s1 <| sq_OldestSequence := seq_at o k |>)).
  { unfold without_oldest. fold o. fold s1. cbv zeta. change (sq_OldestSequence s1) with o. rewrite Ek. done. }
  rewrite E. pose proof (dist_range o (sq_WriteSequence self)) as Hdr.
  assert (Hfar : forall m, 1 <= m <= dist o (sq_WriteSequence self) -> seq_at o m <> o).
  { intros m Hm Em. assert (dist o (seq_at o m) = m) by (apply dist_seq_at; lia). rewrite Em, dist_refl in *. lia. }
  split; [| split].
  - split; try done.
    + apply Hr.
    + unfold s1. simpl. rewrite length_insert. apply Hr.
    + split; [apply seq_at_range | done].
    + split; [done |]. change (present s1 (sq_WriteSequence self) = true). rewrite Hsame by done. done.
    + intros s' Hs' Hp'. change (present s1 s' = true) in Hp'. change (dist (seq_at o k) s' <= dist (seq_at o k) (sq_WriteSequence self)).
      rewrite Hdw. rewrite Hset in Hp' by done. destruct (decide (s' = o)) as [| Hne']; [done |].
      pose proof (ro_run _ Hr s' Hs' Hp') as Hle. fold o in Hle.
      assert (k <= dist o s').
      { destruct (Z.le_gt_cases k (dist o s')); [done |].
        assert (dist o s' <> 0) by (intros E0; apply Hne'; by apply dist_0). pose proof (dist_range o s').
        specialize (Hmin (dist o s') ltac:(lia)). rewrite seq_at_dist in Hmin by done. rewrite Hsame in Hmin by done. congruence. }
      rewrite (dist_shift o) by (by rewrite Hd). rewrite Hd. lia.
  - rewrite !run_span, !BlockCount_dist. simpl. rewrite Hdw. fold o.
    replace (dist o (sq_WriteSequence self) + 1) with (1 + ((k - 1) + (dist o (sq_WriteSequence self) - k + 1))) by lia.
    rewrite (span_run_app self o 1), (span_run_app self _ (k - 1)), span_run_one by (done || lia). cbn [app]. f_equal.
    rewrite (span_run_none self _ (k - 1)), app_nil_l.
    + rewrite !seq_at_add. replace (1 + (k - 1)) with k by lia. symmetry. apply span_run_ext. intros j Hj.
      change (present s1 (seq_at (seq_at o k) j) = present self (seq_at (seq_at o k) j)).
      rewrite seq_at_add. apply Hsame; [apply seq_at_range | apply Hfar; lia].
    + intros j Hj. rewrite seq_at_add. rewrite <- Hsame; [apply Hmin; lia | apply seq_at_range | apply Hfar; lia].
  - rewrite !BlockCount_dist. simpl. fold o. lia.
Qed.

(** The sequence after it began a new block. *)
Definition with_new_block self : SolidSyslogBlockSequence W :=
  let n := BlockSequence_NextSequence (sq_WriteSequence self) in
  self <| sq_BlockPresent := <[Z.to_nat n := true]> (sq_BlockPresent self) |>
       <| sq_WriteSequence := n |> <| sq_WritePosition := 0 |> <| sq_WriteBlockCorrupt := false |>.
Lemma with_new_block_ok self :
  run_ok self -> BlockSequence_BlockCount self < BLOCK_SEQUENCE_MODULUS ->
  let n := BlockSequence_NextSequence (sq_WriteSequence self) in
  is_seq n /\ n <> sq_OldestSequence self /\ n <> sq_WriteSequence self /\ present self n = false /\
  run_ok (with_new_block self) /\ run (with_new_block self) = run self ++ [n] /\
  BlockSequence_BlockCount (with_new_block self) = BlockSequence_BlockCount self + 1.
Proof using.
  intros Hr Hc n. destruct (ro_oldest _ Hr) as [Ho Hpo]. destruct (ro_write _ Hr) as [Hw Hpw].
  rewrite BlockCount_dist in Hc. set (o := sq_OldestSequence self) in *. set (wr := sq_WriteSequence self) in *.
  assert (En : n = seq_at o (dist o wr + 1)).
  { unfold n. rewrite <- (seq_at_dist o wr) by done. rewrite NextSequence_seq_at. f_equal. by rewrite seq_at_dist. }
  pose proof (dist_range o wr) as Hdr.
  assert (Hdn : dist o n = dist o wr + 1) by (rewrite En; apply dist_seq_at; lia).
  assert (Hns : is_seq n) by (rewrite En; apply seq_at_range).
  assert (Hno : n <> o) by (intros E; rewrite E, dist_refl in Hdn; lia).
  assert (Hnw : n <> wr) by (intros E; rewrite E in Hdn; lia).
  assert (Hpn : present self n = false).
  { destruct (present self n) eqn:E; [| done]. pose proof (ro_run _ Hr n Hns E) as Hle. fold o wr in Hle. lia. }
  assert (Hset : forall s', is_seq s' -> present (with_new_block self) s' = if decide (s' = n) then true else present self s').
  { intros s' Hs'. change (present (with_new_block self) s') with (present (self <| sq_BlockPresent := <[Z.to_nat n := true]> (sq_BlockPresent self) |>) s').
    by apply present_set; [apply Hr | |]. }
  do 4 (split; [done |]). split; [| split].
  - split; simpl; fold n o.
    + apply Hr.
    + rewrite length_insert. apply Hr.
    + split; [done |]. rewrite Hset, decide_False by done. done.
    + split; [done |]. rewrite Hset, decide_True by done. done.
    + apply Hr.
    + intros s' Hs' Hp'. rewrite Hset in Hp' by done. destruct (decide (s' = n)) as [-> |]; [apply Z.le_refl |].
      pose proof (ro_run _ Hr s' Hs' Hp') as Hle. fold o wr in Hle. change (dist o s' <= dist o n). lia.
  - rewrite !run_span, !BlockCount_dist. change (sq_OldestSequence (with_new_block self)) with o.
    change (sq_WriteSequence (with_new_block self)) with n. fold o wr. rewrite Hdn. rewrite span_run_app by lia. f_equal.
    + apply span_run_ext. intros j Hj. rewrite Hset by apply seq_at_range. rewrite decide_False; [done |].
      intros E. assert (dist o (seq_at o j) = j) as Ej by (apply dist_seq_at; lia). rewrite E in Ej. lia.
    + rewrite <- En. apply span_run_one; [done |]. rewrite Hset, decide_True by done. done.
  - rewrite !BlockCount_dist. change (dist o n + 1 = dist o wr + 1 + 1). lia.
Qed.

(** * Steps *)

Lemma wp_sq_env {A} (m : ST W A) Q w :
  (forall a e, m (sw_Env w) = (a, e) -> Q a (w <| sw_Env := e |>)) -> wp (sq_env m) Q w.
Proof using. intros HQ. apply wp_zoom. unfold wp. destruct (m (sw_Env w)) as [a e] eqn:E. by apply HQ. Qed.
Lemma wp_sq_device {A} (m : ST D A) Q w :
  (forall a d, m (sw_Dev w) = (a, d) -> Q a (w <| sw_Dev := d |>)) -> wp (sq_device m) Q w.
Proof using. intros HQ. apply wp_zoom. unfold wp. destruct (m (sw_Dev w)) as [a d] eqn:E. by apply HQ. Qed.
Ltac sq_steps :=
  cbv beta iota;
  repeat (first [wp_step | progress unfold sq_get, sq_set, sq_happens, set_present]; cbv beta iota).

(** Nothing moved: the blocks are as they were, and of the sequence's memory only its
    notes on capacity and on the size of the read block may differ. *)
Record still w w' : Prop := {
  st_block : forall j, block (sw_Dev w') j = block (sw_Dev w) j;
  st_self : exists a c z k, sw_Self w' = (sw_Self w) <| sq_AtCapacity := a |> <| sq_ThresholdCrossed := c |>
                                                   <| sq_ReadBlockSize := z |> <| sq_ReadBlockSizeKnown := k |>;
  st_synced : synced w -> synced w'
}.
Lemma synced_still w w' : (forall j, block (sw_Dev w') j = block (sw_Dev w) j) ->
  (exists a c, sw_Self w' = (sw_Self w) <| sq_AtCapacity := a |> <| sq_ThresholdCrossed := c |>) -> still w w'.
Proof using.
  intros Hb (a & c & E). split; [done | |].
  - exists a, c, (sq_ReadBlockSize (sw_Self w)), (sq_ReadBlockSizeKnown (sw_Self w)). rewrite E. by destruct (sw_Self w).
  - intros [H1 H2 H3].
    split; unfold content_of in *; rewrite E; simpl.
    + intros s Hs. rewrite Hb. exact (H1 s Hs).
    + rewrite Hb. done.
    + rewrite Hb. done.
Qed.
Lemma still_refl w : still w w.
Proof using. apply synced_still; [done |]. exists (sq_AtCapacity (sw_Self w)), (sq_ThresholdCrossed (sw_Self w)). by destruct (sw_Self w). Qed.
Lemma still_trans w w1 w2 : still w w1 -> still w1 w2 -> still w w2.
Proof using.
  intros [B1 (a1 & c1 & z1 & k1 & E1) S1] [B2 (a2 & c2 & z2 & k2 & E2) S2]. split; [| | auto].
  - intros j. by rewrite B2, B1.
  - exists a2, c2, z2, k2. rewrite E2, E1. by destruct (sw_Self w).
Qed.
Lemma still_run_ok w w' : still w w' -> run_ok (sw_Self w) -> run_ok (sw_Self w').
Proof using. intros [_ (a & c & z & k & E) _] [H1 H2 H3 H4 H5 H6]. rewrite E. by split. Qed.
Lemma still_run w w' : still w w' -> run (sw_Self w') = run (sw_Self w).
Proof using. intros [_ (a & c & z & k & E) _]. by rewrite E. Qed.
(** What a still step keeps of the sequence's memory. *)
Record same_memory self self' : Prop := {
  sm_oldest : sq_OldestSequence self' = sq_OldestSequence self;
  sm_read : sq_ReadSequence self' = sq_ReadSequence self;
  sm_write : sq_WriteSequence self' = sq_WriteSequence self;
  sm_cursor : sq_ReadCursor self' = sq_ReadCursor self;
  sm_position : sq_WritePosition self' = sq_WritePosition self;
  sm_corrupt : sq_WriteBlockCorrupt self' = sq_WriteBlockCorrupt self;
  sm_failed : sq_DeviceFailed self' = sq_DeviceFailed self;
  sm_evicted : sq_EvictedUnsent self' = sq_EvictedUnsent self
}.
Record same_config self self' : Prop := {
  sc_size : sq_MaxBlockSize self' = sq_MaxBlockSize self;
  sc_blocks : sq_MaxBlocks self' = sq_MaxBlocks self;
  sc_policy : sq_GetDiscardPolicy self' = sq_GetDiscardPolicy self;
  sc_context : sq_DiscardPolicyContext self' = sq_DiscardPolicyContext self
}.
Lemma same_config_trans self self1 self2 : same_config self self1 -> same_config self1 self2 -> same_config self self2.
Proof using. intros [] []. split; congruence. Qed.
Lemma still_memory w w' : still w w' -> same_memory (sw_Self w) (sw_Self w') /\ same_config (sw_Self w) (sw_Self w').
Proof using. intros [_ (a & c & z & k & E) _]. rewrite E. done. Qed.

Lemma Notify_still w :
  wp BlockSequence_NotifyThresholdCrossed (fun _ w' => still w w' /\ sq_AtCapacity (sw_Self w') = sq_AtCapacity (sw_Self w)) w.
Proof using.
  assert (Hst : forall c e tr, still w (w <| sw_Self := (sw_Self w) <| sq_ThresholdCrossed := c |> |> <| sw_Env := e |> <| sw_Trace := tr |>)).
  { intros c e tr. apply synced_still; [done |]. exists (sq_AtCapacity (sw_Self w)), c. destruct w as [[] ]; done. }
  unfold BlockSequence_NotifyThresholdCrossed. sq_steps.
  destruct (sq_GetCapacityThreshold (sw_Self w)) as [g |].
  - sq_steps. apply wp_sq_env. intros t e _. sq_steps.
    destruct (negb (BlockSequence_IsAboveThreshold _ t)).
    + sq_steps. split; [| done]. specialize (Hst false e (sw_Trace w)). by destruct w as [[] ].
    + destruct (negb _) eqn:Ec; sq_steps.
      * apply wp_sq_env. intros [] e' _. cbv beta. split; [| done].
        specialize (Hst true e' ((sw_Trace w ++ [store_raised SOLIDSYSLOG_SEVERITY_WARNING SOLIDSYSLOG_CAT_STORE_THRESHOLD_CROSSED
                      SOLIDSYSLOG_BLOCK_STORE_ERROR_THRESHOLD_CROSSED]) ++ [ThresholdCalled])). by destruct w as [[] ].
      * split; [| done]. specialize (Hst (sq_ThresholdCrossed (sw_Self w)) e (sw_Trace w)). by destruct w as [[] ].
  - sq_steps. split; [apply still_refl | done].
Qed.

(** A call of the device failed: the store freezes on it. *)
Definition failed w : Prop := sq_DeviceFailed (sw_Self w) = true.
Lemma NoteDeviceFailure_failed op w : wp (BlockSequence_NoteDeviceFailure op) (fun _ w' => failed w') w.
Proof using.
  unfold BlockSequence_NoteDeviceFailure. sq_steps. destruct (sq_DeviceFailed (sw_Self w)) eqn:E; simpl negb; sq_steps; [exact E | done].
Qed.

Record working w : Prop := {
  wk_working : sq_DeviceFailed (sw_Self w) = false;
  wk_run : run_ok (sw_Self w);
  wk_synced : synced w
}.
Lemma still_working w w' : still w w' -> working w -> working w'.
Proof using.
  intros Hs [H1 H2 H3]. destruct (still_memory _ _ Hs) as [[] _].
  split; [congruence | by eapply still_run_ok | by apply Hs].
Qed.

(** The block being read is there. *)
Lemma read_held w : working w -> exists b, block (sw_Dev w) (sq_ReadSequence (sw_Self w)) = Some b.
Proof using.
  intros [_ Hr Hs]. rewrite (ro_read _ Hr). destruct (ro_oldest _ Hr) as [Ho Hp]. apply (sy_map _ Hs _ Ho) in Hp.
  destruct (block _ _) as [b |]; [by exists b | done].
Qed.

Lemma ReadBlockSize_spec w : working w ->
  wp SolidSyslogBlockSequence_ReadBlockSize (fun r w' =>
    if fst r then still w w' /\ snd r = lenZ (content_of w (sq_ReadSequence (sw_Self w))) else failed w') w.
Proof using HDS.
  intros Hw. unfold SolidSyslogBlockSequence_ReadBlockSize. sq_steps. unfold BlockSequence_IsReadBlockActiveWrite.
  destruct (Z.eqb_spec (sq_ReadSequence (sw_Self w)) (sq_WriteSequence (sw_Self w))) as [E | Hne].
  - sq_steps. simpl. split; [apply still_refl |]. rewrite E. apply Hw.
  - destruct (sq_ReadBlockSizeKnown (sw_Self w)) eqn:Ek.
    + sq_steps. simpl. split; [apply still_refl |]. by apply Hw.
    + sq_steps. apply wp_sq_device. intros [known size] d Ed. sq_steps.
      destruct (read_held w Hw) as (b & Eb).
      pose proof (Size_of_held (sq_ReadSequence (sw_Self w)) (sw_Dev w) b Eb) as HS. rewrite Ed in HS. destruct HS as [Hb Hok].
      destruct known; simpl negb; sq_steps.
      * cbn [fst snd]. rewrite (Hok eq_refl). split; [| by unfold content_of; rewrite Eb].
        split; [done | |].
        -- exists (sq_AtCapacity (sw_Self w)), (sq_ThresholdCrossed (sw_Self w)), (lenZ b), true. by destruct w as [[] ].
        -- intros [S1 S2 S3]. split; unfold content_of in *; simpl.
           ++ intros s Hs. rewrite Hb. exact (S1 s Hs).
           ++ by rewrite Hb.
           ++ intros _. split; [done |]. by rewrite Hb, Eb.
      * eapply wp_mono; [apply NoteDeviceFailure_failed |]. intros [] w' Hf. sq_steps. done.
Qed.

(** ** Removing the oldest block *)

(** The oldest block went, and nothing else did; the read starts on the next. *)
Record left_oldest (evicted : bool) w w' : Prop := {
  lo_working : working w';
  lo_run : run (sw_Self w) = sq_OldestSequence (sw_Self w) :: run (sw_Self w');
  lo_count : BlockSequence_BlockCount (sw_Self w') < BlockSequence_BlockCount (sw_Self w);
  lo_block : forall j, j <> sq_OldestSequence (sw_Self w) -> block (sw_Dev w') j = block (sw_Dev w) j;
  lo_gone : block (sw_Dev w') (sq_OldestSequence (sw_Self w)) = None;
  lo_write : sq_WriteSequence (sw_Self w') = sq_WriteSequence (sw_Self w) /\
    sq_WritePosition (sw_Self w') = sq_WritePosition (sw_Self w) /\
    sq_WriteBlockCorrupt (sw_Self w') = sq_WriteBlockCorrupt (sw_Self w);
  lo_cursor : sq_ReadCursor (sw_Self w') = 0;
  lo_evicted : sq_EvictedUnsent (sw_Self w') = evicted;
  lo_config : same_config (sw_Self w) (sw_Self w')
}.

(** The state right after the device disposed of the oldest block and the sequence
    moved on. *)
Definition without_oldest_in (evicted : bool) (d : D) w : sq_world D W :=
  w <| sw_Dev := d |> <| sw_Self := without_oldest (sw_Self w) <| sq_EvictedUnsent := evicted |> |>.
Lemma without_oldest_left evicted d w :
  working w -> sq_OldestSequence (sw_Self w) <> sq_WriteSequence (sw_Self w) ->
  bd_Dispose (sq_OldestSequence (sw_Self w)) (sw_Dev w) = (true, d) ->
  left_oldest evicted w (without_oldest_in evicted d w).
Proof using HDS.
  intros Hw Hne Ed. pose proof (Dispose_holds (sq_OldestSequence (sw_Self w)) (sw_Dev w)) as HD. rewrite Ed in HD.
  destruct HD as [Hb Hgone]. specialize (Hgone eq_refl).
  destruct (without_oldest_ok (sw_Self w) (wk_run _ Hw) Hne) as (Hok & Hrun & Hcount).
  destruct (ro_oldest _ (wk_run _ Hw)) as [Ho _]. destruct (wk_synced _ Hw) as [S1 S2 S3].
  assert (Hset : forall s, is_seq s -> present (without_oldest (sw_Self w)) s =
            if decide (s = sq_OldestSequence (sw_Self w)) then false else present (sw_Self w) s).
  { intros s Hs. exact (present_set (sw_Self w) _ s false (ro_map _ (wk_run _ Hw)) Ho Hs). }
  split; try done.
  split; [apply (wk_working _ Hw) | destruct Hok; by split |]. split; unfold content_of in *.
  - intros s Hs. change (present (without_oldest (sw_Self w)) s = true <-> block d s <> None). rewrite Hset by done.
    destruct (decide (s = sq_OldestSequence (sw_Self w))) as [-> | Hns]; [rewrite Hgone; split; done |].
    rewrite Hb by done. by apply S1.
  - change (sq_WritePosition (sw_Self w) = lenZ (default [] (block d (sq_WriteSequence (sw_Self w))))). by rewrite Hb by congruence.
  - done.
Qed.
Lemma left_oldest_still evicted w w1 w2 : left_oldest evicted w w1 -> still w1 w2 -> left_oldest evicted w w2.
Proof using.
  intros [] Hs. destruct (still_memory _ _ Hs) as [[] Hc]. pose proof (st_block _ _ Hs) as Hb.
  split; [.. | by eapply same_config_trans]; try congruence.
  - by eapply still_working.
  - by rewrite (still_run _ _ Hs).
  - unfold BlockSequence_BlockCount in *. congruence.
  - intros j Hj. rewrite Hb. auto.
Qed.
Lemma still_left_oldest evicted w w1 w2 : still w w1 -> left_oldest evicted w1 w2 -> left_oldest evicted w w2.
Proof using.
  intros Hs []. destruct (still_memory _ _ Hs) as [[] Hc]. pose proof (st_block _ _ Hs) as Hb.
  rewrite (still_run _ _ Hs) in *. split; [.. | by eapply same_config_trans]; try congruence.
  - unfold BlockSequence_BlockCount in *. congruence.
  - intros j Hj. rewrite lo_block0 by congruence. apply Hb.
Qed.

Lemma DisposeReadBlock_spec w :
  working w -> sq_OldestSequence (sw_Self w) <> sq_WriteSequence (sw_Self w) ->
  wp BlockSequence_DisposeReadBlock (fun disposed w' =>
    if disposed then left_oldest (sq_EvictedUnsent (sw_Self w)) w w' else failed w') w.
Proof using HDS.
  intros Hw Hne. unfold BlockSequence_DisposeReadBlock, BlockSequence_DisposeBlock, BlockSequence_AdvancePastDisposedReadBlock.
  sq_steps. rewrite (ro_read _ (wk_run _ Hw)). apply wp_sq_device. intros disposed d Ed. destruct disposed; sq_steps.
  - eapply wp_mono; [apply Notify_still |]. intros [] w' [Hs _]. cbv beta. wp_steps.
    eapply left_oldest_still; [apply (without_oldest_left _ d w Hw Hne Ed) |].
    eapply still_trans; [| exact Hs]. apply synced_still; [done |].
    exists false, (sq_ThresholdCrossed (sw_Self w)). by destruct w as [[] ].
  - eapply wp_mono; [apply NoteDeviceFailure_failed |]. intros [] w' Hf. cbv beta. wp_steps. done.
Qed.

Lemma DiscardOldestBlock_spec w :
  working w -> sq_OldestSequence (sw_Self w) <> sq_WriteSequence (sw_Self w) ->
  wp BlockSequence_DiscardOldestBlock (fun discarded w' => if discarded then left_oldest true w w' else failed w') w.
Proof using HDS.
  intros Hw Hne. unfold BlockSequence_DiscardOldestBlock, BlockSequence_DisposeBlock, BlockSequence_ResetReadToOldest.
  sq_steps. apply wp_sq_device. intros disposed d Ed. destruct disposed; sq_steps.
  - pose proof (without_oldest_left true d w Hw Hne Ed) as HL.
    eapply left_oldest_still; [exact HL |]. apply synced_still; [done |].
    exists (sq_AtCapacity (sw_Self w)), (sq_ThresholdCrossed (sw_Self w)). by destruct w as [[] ].
  - eapply wp_mono; [apply NoteDeviceFailure_failed |]. intros [] w' Hf. cbv beta. wp_steps. done.
Qed.

(** Whether the read is past all the data of the oldest block. *)
Definition drained w : Prop := lenZ (content_of w (sq_OldestSequence (sw_Self w))) <= sq_ReadCursor (sw_Self w).

Lemma DisposeReadBlockIfDrained_spec w : working w ->
  wp SolidSyslogBlockSequence_DisposeReadBlockIfDrained (fun changed w' =>
    failed w' \/
    if changed then drained w /\ sq_OldestSequence (sw_Self w) <> sq_WriteSequence (sw_Self w) /\
                    left_oldest (sq_EvictedUnsent (sw_Self w)) w w'
    else still w w' /\ (sq_OldestSequence (sw_Self w) = sq_WriteSequence (sw_Self w) \/ ~ drained w)) w.
Proof using HDS.
  intros Hw. unfold SolidSyslogBlockSequence_DisposeReadBlockIfDrained. sq_steps.
  unfold BlockSequence_IsReadBlockActiveWrite. pose proof (ro_read _ (wk_run _ Hw)) as Er. rewrite Er.
  destruct (Z.eqb_spec (sq_OldestSequence (sw_Self w)) (sq_WriteSequence (sw_Self w))) as [E | Hne]; simpl negb; sq_steps.
  - right. split; [apply still_refl | by left].
  - eapply wp_mono; [apply (ReadBlockSize_spec w Hw) |]. intros [known size] w1 H1. cbn [fst snd] in H1. sq_steps.
    unfold BlockSequence_IsReadBlockFullyDrained. destruct known; simpl andb; [| wp_steps; by left].
    destruct H1 as [Hs ->]. rewrite Er. destruct (still_memory _ _ Hs) as [[] _]. rewrite sm_cursor0.
    destruct (Z.leb_spec (lenZ (content_of w (sq_OldestSequence (sw_Self w)))) (sq_ReadCursor (sw_Self w))) as [Hd | Hd].
    + eapply wp_mono; [apply (DisposeReadBlock_spec w1 (still_working _ _ Hs Hw)); congruence |].
      intros [] w2 H2; [right | by left]. split; [done |]. split; [done |].
      eapply still_left_oldest; [exact Hs |]. by rewrite <- sm_evicted0.
    + wp_steps. right. split; [done |]. right. unfold drained. lia.
Qed.

(** ** Beginning a new block *)

Record new_block w w' : Prop := {
  nb_working : working w';
  nb_run : run (sw_Self w') = run (sw_Self w) ++ [sq_WriteSequence (sw_Self w')];
  nb_count : BlockSequence_BlockCount (sw_Self w') = BlockSequence_BlockCount (sw_Self w) + 1;
  nb_block : forall j, j <> sq_WriteSequence (sw_Self w') -> block (sw_Dev w') j = block (sw_Dev w) j;
  nb_fresh : block (sw_Dev w) (sq_WriteSequence (sw_Self w')) = None;
  nb_empty : block (sw_Dev w') (sq_WriteSequence (sw_Self w')) = Some [];
  nb_write : sq_WriteSequence (sw_Self w') = BlockSequence_NextSequence (sq_WriteSequence (sw_Self w)) /\
    sq_WritePosition (sw_Self w') = 0 /\ sq_WriteBlockCorrupt (sw_Self w') = false;
  nb_read : sq_OldestSequence (sw_Self w') = sq_OldestSequence (sw_Self w) /\
    sq_ReadCursor (sw_Self w') = sq_ReadCursor (sw_Self w);
  nb_evicted : sq_EvictedUnsent (sw_Self w') = false;
  nb_config : same_config (sw_Self w) (sw_Self w')
}.
Definition new_block_in (d : D) w : sq_world D W :=
  w <| sw_Dev := d |> <| sw_Self := with_new_block (sw_Self w) <| sq_EvictedUnsent := false |> |>.
Lemma new_block_begun d w :
  sq_ok w -> bd_Acquire (BlockSequence_NextSequence (sq_WriteSequence (sw_Self w))) (sw_Dev w) = (true, d) ->
  new_block w (new_block_in d w).
Proof using HDS.
  intros [Hwk Hr [S1 S2 S3] Hfree] Ed. set (n := BlockSequence_NextSequence (sq_WriteSequence (sw_Self w))) in *.
  pose proof (Acquire_holds n (sw_Dev w)) as HA. rewrite Ed in HA. destruct HA as [Hb Hnew]. specialize (Hnew eq_refl).
  destruct (with_new_block_ok _ Hr Hfree) as (Hn & Hno & Hnw & Hpn & Hok & Hrun & Hcount). fold n in Hn, Hno, Hnw, Hpn, Hrun.
  assert (Hset : forall s, is_seq s -> present (with_new_block (sw_Self w)) s = if decide (s = n) then true else present (sw_Self w) s).
  { intros s Hs. exact (present_set (sw_Self w) _ s true (ro_map _ Hr) Hn Hs). }
  split; try done.
  - split; [done | destruct Hok; by split |]. split; unfold content_of in *.
    + intros s Hs. change (present (with_new_block (sw_Self w)) s = true <-> block d s <> None). rewrite Hset by done.
      destruct (decide (s = n)) as [-> | Hns]; [by rewrite Hnew |]. rewrite Hb by done. by apply S1.
    + change (0 = lenZ (default [] (block d n))). by rewrite Hnew.
    + intros Hk. change (sq_ReadBlockSizeKnown (sw_Self w) = true) in Hk. destruct (S3 Hk) as [S3a S3b].
      change (sq_ReadSequence (sw_Self w) <> n /\ sq_ReadBlockSize (sw_Self w) = lenZ (default [] (block d (sq_ReadSequence (sw_Self w))))).
      rewrite (ro_read _ Hr) in *. split; [congruence |]. by rewrite Hb by congruence.
  - change (block (sw_Dev w) n = None). destruct (block (sw_Dev w) n) eqn:E; [| done].
    assert (present (sw_Self w) n = true) by (apply S1; [done | congruence]). congruence.
Qed.

Lemma AcquireEmptyBlock_spec w : sq_ok w ->
  let n := BlockSequence_NextSequence (sq_WriteSequence (sw_Self w)) in
  wp (BlockSequence_AcquireEmptyBlock n) (fun ready w' =>
    if ready then exists d0 d, (forall j, block d0 j = block (sw_Dev w) j) /\ bd_Acquire n d0 = (true, d) /\
      w' = w <| sw_Dev := d |> <| sw_Self := (sw_Self w) <| sq_BlockPresent := <[Z.to_nat n := true]> (sq_BlockPresent (sw_Self w)) |> |>
    else failed w') w.
Proof using HDS.
  intros [Hwk Hr [S1 S2 S3] Hfree] n. destruct (with_new_block_ok _ Hr Hfree) as (Hn & _ & _ & Hpn & _). fold n in Hn, Hpn.
  unfold BlockSequence_AcquireEmptyBlock, BlockSequence_AcquireBlock. sq_steps. apply wp_sq_device. intros e d0 Ed0.
  pose proof (Exists_tells n (sw_Dev w)) as HE. rewrite Ed0 in HE. destruct HE as [Hb0 He].
  destruct e.
  { assert (present (sw_Self w) n = true) by (apply S1; [done | by apply He]). congruence. }
  sq_steps. apply wp_sq_device. intros a d Ed. destruct a; simpl negb; sq_steps.
  - exists d0, d. split; [done |]. split; [exact Ed |]. by destruct w as [[] ].
  - eapply wp_mono; [apply NoteDeviceFailure_failed |]. intros [] w' Hf. cbv beta. wp_steps. done.
Qed.

(** ** Rotating *)

(** The store began a new block, and the blocks in [gone] left it at the other end:
    at most one that was drained, and at most one that was evicted. *)
Record rotated w (changed : bool) (gone : list Z) w' : Prop := {
  rt_ok : sq_ok w';
  rt_run : run (sw_Self w) ++ [sq_WriteSequence (sw_Self w')] = gone ++ run (sw_Self w');
  rt_count : BlockSequence_BlockCount (sw_Self w') <= Z.max (sq_MaxBlocks (sw_Self w)) (BlockSequence_BlockCount (sw_Self w));
  rt_block : forall j, j <> sq_WriteSequence (sw_Self w') -> j ∉ gone -> block (sw_Dev w') j = block (sw_Dev w) j;
  rt_fresh : block (sw_Dev w) (sq_WriteSequence (sw_Self w')) = None;
  rt_empty : block (sw_Dev w') (sq_WriteSequence (sw_Self w')) = Some [];
  rt_write : sq_WriteSequence (sw_Self w') = BlockSequence_NextSequence (sq_WriteSequence (sw_Self w)) /\
    sq_WritePosition (sw_Self w') = 0 /\ sq_WriteBlockCorrupt (sw_Self w') = false;
  rt_changed : changed = negb (bool_decide (gone = []));
  rt_cursor : sq_ReadCursor (sw_Self w') = if changed then 0 else sq_ReadCursor (sw_Self w);
  rt_config : same_config (sw_Self w) (sw_Self w');
  rt_drained : sq_EvictedUnsent (sw_Self w') = false -> gone = [] \/ gone = [sq_OldestSequence (sw_Self w)] /\ drained w;
  rt_evicted : sq_EvictedUnsent (sw_Self w') = true -> sq_MaxBlocks (sw_Self w) <= BlockSequence_BlockCount (sw_Self w);
  rt_safe : sq_WriteSequence (sw_Self w) ∈ gone -> gone = [sq_WriteSequence (sw_Self w)] /\ drained w
}.

Lemma oldest_not_write w : working w -> 1 < BlockSequence_BlockCount (sw_Self w) ->
  sq_OldestSequence (sw_Self w) <> sq_WriteSequence (sw_Self w).
Proof using. intros Hw Hc E. rewrite BlockCount_dist, E, dist_refl in Hc. lia. Qed.
Lemma still_new_block w w0 w1 : still w w0 -> new_block w0 w1 -> new_block w w1.
Proof using.
  intros Hs []. destruct (still_memory _ _ Hs) as [[] Hc]. pose proof (st_block _ _ Hs) as Hb.
  rewrite (still_run _ _ Hs) in *. split; [.. | by eapply same_config_trans]; try congruence.
  - unfold BlockSequence_BlockCount in *. congruence.
  - intros j Hj. rewrite nb_block0 by congruence. apply Hb.
Qed.
Lemma still_ok w w' : still w w' -> sq_ok w -> sq_ok w'.
Proof using.
  intros Hs [H1 H2 H3 H4]. destruct (still_working _ _ Hs (Build_working _ H1 H2 H3)) as [W1 W2 W3].
  split; try done. destruct (still_memory _ _ Hs) as [[] _]. unfold BlockSequence_BlockCount in *. congruence.
Qed.

(** The new block is not one of the old ones. *)
Lemma new_block_fresh w w1 : sq_ok w -> new_block w w1 ->
  sq_WriteSequence (sw_Self w1) <> sq_OldestSequence (sw_Self w) /\ sq_WriteSequence (sw_Self w1) <> sq_WriteSequence (sw_Self w).
Proof using.
  intros Hok [? ? ? ? ? ? (-> & _) ? ?]. by destruct (with_new_block_ok _ (ok_run _ Hok) (ok_free _ Hok)) as (_ & ? & ? & _).
Qed.

Section rotation.
Context (w w1 : sq_world D W) (Hok : sq_ok w) (Hnew : new_block w w1).

Lemma rotated_none w2 : still w1 w2 -> sq_MaxBlocks (sw_Self w2) >= BlockSequence_BlockCount (sw_Self w2) -> rotated w false [] w2.
Proof using Hok Hnew.
  intros Hs Hmax. pose proof (st_block _ _ Hs) as Hb. destruct (still_memory _ _ Hs) as [[] Hc2].
  pose proof (still_working _ _ Hs (nb_working _ _ Hnew)) as Hw2. pose proof (still_run _ _ Hs) as Hr2.
  pose proof (ro_max _ (wk_run _ Hw2)) as Hm. unfold MAX_MAX_BLOCKS, MIN_MAX_BLOCKS in Hm.
  assert (Hc : same_config (sw_Self w) (sw_Self w2)) by (eapply same_config_trans; [apply Hnew | done]).
  destruct (nb_write _ _ Hnew) as (A & B & C). destruct (nb_read _ _ Hnew) as (E & F).
  split.
  - split; [apply Hw2 | apply Hw2 | apply Hw2 | lia].
  - cbn [app]. rewrite Hr2, sm_write0. symmetry. apply Hnew.
  - rewrite <- (sc_blocks _ _ Hc). lia.
  - intros j Hj _. rewrite Hb. apply Hnew. congruence.
  - rewrite sm_write0. apply Hnew.
  - rewrite sm_write0, Hb. apply Hnew.
  - rewrite sm_write0, sm_position0, sm_corrupt0. done.
  - done.
  - congruence.
  - done.
  - intros _. by left.
  - rewrite sm_evicted0, (nb_evicted _ _ Hnew). done.
  - intros Hin. by apply elem_of_nil in Hin.
Qed.

(** The oldest block left: drained, or evicted. *)
Lemma rotated_one evicted w2 :
  left_oldest evicted w1 w2 -> BlockSequence_BlockCount (sw_Self w2) <= Z.max (sq_MaxBlocks (sw_Self w)) (BlockSequence_BlockCount (sw_Self w)) ->
  (if evicted then sq_MaxBlocks (sw_Self w) <= BlockSequence_BlockCount (sw_Self w) else drained w1) ->
  rotated w true [sq_OldestSequence (sw_Self w)] w2.
Proof using Hok Hnew.
  intros Hl Hcount Hwhy. destruct (new_block_fresh _ _ Hok Hnew) as [Hno Hnw].
  destruct (nb_write _ _ Hnew) as (A & B & C). destruct (nb_read _ _ Hnew) as (E & F). destruct (lo_write _ _ _ Hl) as (A2 & B2 & C2).
  pose proof (ro_max _ (ok_run _ Hok)) as Hm. unfold MAX_MAX_BLOCKS, MIN_MAX_BLOCKS in Hm. pose proof (ok_free _ Hok) as Hf.
  assert (Hc : same_config (sw_Self w) (sw_Self w2)) by (eapply same_config_trans; [apply Hnew | apply Hl]).
  assert (Hd : drained w1 -> drained w).
  { unfold drained, content_of. rewrite E, F. by rewrite (nb_block _ _ Hnew) by congruence. }
  split.
  - split; [apply Hl | apply Hl | apply Hl | lia].
  - rewrite A2. cbn [app]. rewrite <- E, <- (lo_run _ _ _ Hl). symmetry. apply Hnew.
  - done.
  - intros j Hj Hnot. rewrite (lo_block _ _ _ Hl); [apply Hnew; congruence |]. rewrite E. by rewrite list_elem_of_singleton in Hnot.
  - rewrite A2. apply Hnew.
  - rewrite A2, (lo_block _ _ _ Hl) by congruence. apply Hnew.
  - rewrite A2, B2, C2. done.
  - done.
  - apply Hl.
  - done.
  - rewrite (lo_evicted _ _ _ Hl). intros ->. right. auto.
  - rewrite (lo_evicted _ _ _ Hl). by intros ->.
  - rewrite list_elem_of_singleton. intros Ew. split; [by rewrite Ew |].
    destruct evicted; [| auto]. rewrite BlockCount_dist, Ew, dist_refl in Hwhy. lia.
Qed.

(** The oldest block was drained, and the one after it evicted. *)
Lemma rotated_two w2 w3 :
  drained w1 -> left_oldest false w1 w2 -> sq_MaxBlocks (sw_Self w) < BlockSequence_BlockCount (sw_Self w2) -> left_oldest true w2 w3 ->
  rotated w true [sq_OldestSequence (sw_Self w); sq_OldestSequence (sw_Self w2)] w3.
Proof using Hok Hnew.
  intros Hdr Hl Hex Hl3. destruct (new_block_fresh _ _ Hok Hnew) as [Hno Hnw].
  destruct (nb_write _ _ Hnew) as (A & B & C). destruct (nb_read _ _ Hnew) as (E & F).
  destruct (lo_write _ _ _ Hl) as (A2 & B2 & C2). destruct (lo_write _ _ _ Hl3) as (A3 & B3 & C3).
  pose proof (ro_max _ (ok_run _ Hok)) as Hm. unfold MAX_MAX_BLOCKS, MIN_MAX_BLOCKS in Hm. pose proof (ok_free _ Hok) as Hf.
  pose proof (nb_count _ _ Hnew) as Hc1. pose proof (lo_count _ _ _ Hl) as Hc2. pose proof (lo_count _ _ _ Hl3) as Hc3.
  assert (Hc : same_config (sw_Self w) (sw_Self w3)).
  { eapply same_config_trans; [apply Hnew | eapply same_config_trans; [apply Hl | apply Hl3]]. }
  assert (Hne : sq_OldestSequence (sw_Self w2) <> sq_WriteSequence (sw_Self w2)).
  { apply oldest_not_write; [apply Hl | lia]. }
  split.
  - split; [apply Hl3 | apply Hl3 | apply Hl3 | lia].
  - rewrite A3, A2. rewrite <- (nb_run _ _ Hnew), (lo_run _ _ _ Hl), (lo_run _ _ _ Hl3), E. done.
  - lia.
  - intros j Hj Hnot. rewrite not_elem_of_cons, list_elem_of_singleton in Hnot. destruct Hnot as [H1 H2].
    rewrite (lo_block _ _ _ Hl3), (lo_block _ _ _ Hl) by congruence. apply Hnew. congruence.
  - rewrite A3, A2. apply Hnew.
  - rewrite A3, A2, (lo_block _ _ _ Hl3), (lo_block _ _ _ Hl) by congruence. apply Hnew.
  - rewrite A3, B3, C3, A2, B2, C2. done.
  - done.
  - apply Hl3.
  - done.
  - by rewrite (lo_evicted _ _ _ Hl3).
  - intros _. lia.
  - intros Hin. exfalso. rewrite elem_of_cons, list_elem_of_singleton in Hin. destruct Hin as [Ew | Ew].
    + assert (BlockSequence_BlockCount (sw_Self w) = 1) by (rewrite BlockCount_dist, Ew, dist_refl; lia). lia.
    + rewrite BlockCount_dist, A2, A, <- Ew in Hex. destruct (ro_write _ (ok_run _ Hok)) as [Hw _].
      rewrite NextSequence_at in Hex by done. rewrite dist_next in Hex by (rewrite dist_refl; lia). rewrite dist_refl in Hex. lia.
Qed.
End rotation.

Lemma RotateToNextBlock_spec w : sq_ok w ->
  wp BlockSequence_RotateToNextBlock (fun r w' => failed w' \/ fst r = true /\ exists gone, rotated w (snd r) gone w') w.
Proof using HDS.
  intros Hok. unfold BlockSequence_RotateToNextBlock, BlockSequence_AdvanceWriteToNewBlock. sq_steps.
  eapply wp_mono; [apply (AcquireEmptyBlock_spec w Hok) |]. intros [] w0 H0; sq_steps; [| by left].
  destruct H0 as (d0 & d & Hb0 & Ed & ->).
  assert (Hs0 : still w (w <| sw_Dev := d0 |>)).
  { apply synced_still; [done |]. exists (sq_AtCapacity (sw_Self w)), (sq_ThresholdCrossed (sw_Self w)). by destruct w as [[] ]. }
  assert (Hnew : new_block w (new_block_in d w)).
  { replace (new_block_in d w) with (new_block_in d (w <| sw_Dev := d0 |>)) by (by destruct w).
    eapply still_new_block; [exact Hs0 |]. apply (new_block_begun d (w <| sw_Dev := d0 |>)); [by eapply still_ok | exact Ed]. }
  match goal with |- wp _ _ ?x => replace x with (new_block_in d w) by (by destruct w as [[] ]) end.
  revert Hnew. generalize (new_block_in d w). intros w1 Hnew. clear d0 d Hb0 Ed Hs0.
  pose proof (ro_max _ (ok_run _ Hok)) as Hm. unfold MIN_MAX_BLOCKS in Hm. pose proof (nb_count _ _ Hnew) as Hc1.
  eapply wp_mono; [apply (DisposeReadBlockIfDrained_spec w1), Hnew |]. intros changed w2 H2. sq_steps.
  rewrite (nb_evicted _ _ Hnew) in H2. unfold BlockSequence_ExceedsMaxBlocks.
  destruct H2 as [Hf | H2]; [rewrite Hf; simpl; wp_steps; by left |].
  assert (Hw2 : working w2) by (destruct changed; [apply H2 | by eapply still_working; [apply H2 | apply Hnew]]).
  assert (Hc2 : same_config (sw_Self w) (sw_Self w2)).
  { eapply same_config_trans; [apply Hnew |]. destruct changed; [apply H2 | apply still_memory, H2]. }
  rewrite (wk_working _ Hw2), (sc_blocks _ _ Hc2). simpl andb.
  destruct (Z.ltb_spec (sq_MaxBlocks (sw_Self w)) (BlockSequence_BlockCount (sw_Self w2))) as [Hex | Hex].
  - wp_steps. eapply wp_mono; [apply (DiscardOldestBlock_spec w2 Hw2), oldest_not_write; [done | lia] |].
    intros [] w3 H3; wp_steps; [right; split; [done |] | by left]. cbn [snd orb]. destruct changed.
    + destruct H2 as (Hd & _ & Hl). eexists. by eapply (rotated_two w w1 Hok Hnew w2 w3).
    + destruct H2 as [Hs _]. eexists. eapply (rotated_one w w1 Hok Hnew true); [by eapply still_left_oldest | |].
      * pose proof (lo_count _ _ _ H3) as Hc3. destruct (still_memory _ _ Hs) as [[] _]. unfold BlockSequence_BlockCount in *.
        rewrite sm_write0, sm_oldest0 in *. lia.
      * destruct (still_memory _ _ Hs) as [[] _]. unfold BlockSequence_BlockCount in *. rewrite sm_write0, sm_oldest0 in *. lia.
  - wp_steps. right. split; [done |]. cbn [snd]. destruct changed.
    + destruct H2 as (Hd & _ & Hl). eexists. eapply (rotated_one w w1 Hok Hnew false); [exact Hl | lia | exact Hd].
    + destruct H2 as [Hs _]. exists []. eapply rotated_none; [done | done | exact Hs |]. rewrite (sc_blocks _ _ Hc2). lia.
Qed.

(** * Preparing to write *)

(** The answer the policy would give. *)
Definition policy_answer w : Z :=
  fst (sq_GetDiscardPolicy (sw_Self w) (sq_DiscardPolicyContext (sw_Self w)) (sw_Env w)).
Inductive prepared (n : Z) w : bool * bool -> sq_world D W -> Prop :=
| prepared_room : BlockSequence_BlockIsFull (sw_Self w) n = false -> prepared n w (true, false) w
| prepared_refused w' : BlockSequence_BlockIsFull (sw_Self w) n = true -> still w w' ->
    sq_MaxBlocks (sw_Self w) <= BlockSequence_BlockCount (sw_Self w) -> policy_answer w <> SOLIDSYSLOG_DISCARD_POLICY_OLDEST ->
    sq_AtCapacity (sw_Self w') = true -> prepared n w (false, false) w'
| prepared_rotated changed gone w' : BlockSequence_BlockIsFull (sw_Self w) n = true -> rotated w changed gone w' ->
    (sq_EvictedUnsent (sw_Self w') = true -> policy_answer w = SOLIDSYSLOG_DISCARD_POLICY_OLDEST) -> prepared n w (true, changed) w'
| prepared_failed r w' : failed w' -> prepared n w r w'.

Lemma PrepareForWrite_spec n w : sq_ok w -> wp (SolidSyslogBlockSequence_PrepareForWrite n) (prepared n w) w.
Proof using HDS.
  intros Hok. unfold SolidSyslogBlockSequence_PrepareForWrite, BlockSequence_StoreIsFull, BlockSequence_DiscardPolicy. sq_steps.
  destruct (BlockSequence_BlockIsFull (sw_Self w) n) eqn:Ef; sq_steps; [| by apply prepared_room].
  destruct (Z.leb_spec (sq_MaxBlocks (sw_Self w)) (BlockSequence_BlockCount (sw_Self w))) as [Hmax | Hmax]; sq_steps.
  - apply wp_sq_env. intros p e Ep. sq_steps.
    assert (Ea : policy_answer w = p) by (unfold policy_answer; by rewrite Ep).
    assert (Hs : still w (w <| sw_Env := e |>)).
    { apply synced_still; [done |]. exists (sq_AtCapacity (sw_Self w)), (sq_ThresholdCrossed (sw_Self w)). by destruct w as [[] ]. }
    destruct (Z.eqb_spec p SOLIDSYSLOG_DISCARD_POLICY_OLDEST) as [-> | Hp]; simpl negb; sq_steps.
    + eapply wp_mono; [apply RotateToNextBlock_spec; by eapply still_ok |].
      intros [ok ch] w' [Hf | [Eok [gone Hr]]]; [by apply prepared_failed |]. cbn in Eok. subst ok. cbn [snd] in Hr.
      apply (prepared_rotated n w ch gone); [done | | by intros _]. clear - Hr. destruct w. by destruct Hr.
    + eapply wp_mono; [apply Notify_still |]. intros [] w' [Hs' Hat]. cbv beta. wp_steps.
      apply prepared_refused; [done | | done | by rewrite Ea | done].
      eapply still_trans; [exact Hs |]. eapply still_trans; [| exact Hs']. apply synced_still; [done |].
      exists true, (sq_ThresholdCrossed (sw_Self w)). by destruct w as [[] ].
  - eapply wp_mono; [by apply RotateToNextBlock_spec |].
    intros [ok ch] w' [Hf | [Eok [gone Hr]]]; [by apply prepared_failed |]. cbn in Eok. subst ok.
    apply (prepared_rotated n w ch gone); [done | done |]. intros He. pose proof (rt_evicted _ _ _ _ Hr He). lia.
Qed.

(** * Opening *)

(** ** The walk round the presence map *)

Lemma locate_present (isp : Z -> bool) ix cu la :
  isp (seq_at ix 1) = true -> locate_step isp (ix, cu, la) = (seq_at ix 1, mkGap (gap_Start cu) 0, la).
Proof using. intros Hp. unfold locate_step. change (BlockSequence_CircularNext ix) with (seq_at ix 1). by rewrite Hp. Qed.
(** The run of absent blocks with one more at its end. *)
Definition longer (cu : Gap) (index : Z) : Gap := mkGap (if gap_Length cu =? 0 then index else gap_Start cu) (gap_Length cu + 1).
Lemma locate_absent (isp : Z -> bool) ix cu la :
  isp (seq_at ix 1) = false ->
  locate_step isp (ix, cu, la) =
    (seq_at ix 1, longer cu (seq_at ix 1), if gap_Length la <? gap_Length cu + 1 then longer cu (seq_at ix 1) else la).
Proof using.
  intros Hp. unfold locate_step, longer. change (BlockSequence_CircularNext ix) with (seq_at ix 1). rewrite Hp.
  destruct (gap_Length cu =? 0); done.
Qed.
Section locate.
Context (isp : Z -> bool) (lp o wr : Z).
Hypothesis lp_seq : is_seq lp.
Hypothesis lp_present : isp lp = true.
Hypothesis wr_seq : is_seq wr.
Hypothesis wr_present : isp wr = true.
Hypothesis o_present : isp o = true.
Hypothesis in_run : forall s, is_seq s -> isp s = true -> dist o s <= dist o wr.
Hypothesis small_holes : forall s, is_seq s -> isp s = true -> s <> wr ->
  exists k, 1 <= k <= 99 - dist o wr /\ isp (seq_at s k) = true.
Hypothesis o_seq : is_seq o.
Hypothesis gap_left : dist o wr < 99.

(** The walk after [i] steps is at the end of a run of [c] absent blocks; the largest
    met so far is the gap, or is smaller. *)
Record walked (i : Z) (st : Z * Gap * Gap) : Prop := {
  wk_index : fst (fst st) = seq_at lp i;
  wk_len : 0 <= gap_Length (snd (fst st)) <= i;
  wk_start : 0 < gap_Length (snd (fst st)) -> gap_Start (snd (fst st)) = seq_at lp (i - gap_Length (snd (fst st)) + 1);
  wk_before : isp (seq_at lp (i - gap_Length (snd (fst st)))) = true;
  wk_absent : forall j, 0 <= j < gap_Length (snd (fst st)) -> isp (seq_at lp (i - j)) = false;
  wk_largest : 0 <= gap_Length (snd st) < 99 - dist o wr \/ snd st = mkGap (seq_at wr 1) (99 - dist o wr);
  wk_max : gap_Length (snd (fst st)) <= gap_Length (snd st)
}.
(** Absent blocks after a present one: fewer than the gap has, or the gap itself. *)
Lemma gap_short s n : is_seq s -> isp s = true -> (forall k, 1 <= k <= n -> isp (seq_at s k) = false) ->
  n < 99 - dist o wr \/ n <= 99 - dist o wr /\ s = wr.
Proof using small_holes wr_seq o_present o_seq gap_left.
  intros Hs Hp Habs. destruct (decide (s = wr)) as [-> | Ew].
  - right. split; [| done]. destruct (Z.le_gt_cases n (99 - dist o wr)); [done |].
    pose proof (dist_bound o wr) as Hb. assert (Hk : 1 <= 100 - dist o wr <= n) by (clear Habs; lia).
    specialize (Habs _ Hk). rewrite (seq_at_gap o wr o_seq), o_present in Habs. discriminate.
  - left. destruct (small_holes s Hs Hp Ew) as (k & Hk & Hpk).
    destruct (Z.lt_ge_cases n k); [lia |]. rewrite Habs in Hpk by lia. done.
Qed.
Lemma walked_step i st : 0 <= i -> walked i st -> walked (i + 1) (locate_step isp st).
Proof using lp_seq lp_present wr_seq wr_present o_present in_run small_holes o_seq gap_left.
  intros Hi [H1 H2 H3 H4 H5 H6 H7]. destruct st as [[index current] largest]. cbn [fst snd] in *. subst index.
  pose proof (seq_at_add lp i 1) as En. destruct (isp (seq_at lp (i + 1))) eqn:Ep.
  - rewrite locate_present by (by rewrite En). rewrite En.
    split; cbn [fst snd gap_Length gap_Start]; [done | lia | lia | by rewrite Z.sub_0_r | intros j Hj; lia | exact H6 | lia].
  - rewrite locate_absent by (by rewrite En). rewrite En.
    assert (Habs : forall j, 0 <= j < gap_Length current + 1 -> isp (seq_at lp (i + 1 - j)) = false).
    { intros j Hj. destruct (decide (j = 0)) as [-> | Hj0]; [by rewrite Z.sub_0_r |].
      replace (i + 1 - j) with (i - (j - 1)) by lia. apply H5. lia. }
    pose proof (gap_short (seq_at lp (i - gap_Length current)) (gap_Length current + 1) (seq_at_range _ _) H4) as Hc.
    assert (Hlong : longer current (seq_at lp (i + 1)) = mkGap (seq_at lp (i - gap_Length current + 1)) (gap_Length current + 1)).
    { unfold longer. f_equal. destruct (Z.eqb_spec (gap_Length current) 0) as [E0 |]; [f_equal; lia | apply H3; lia]. }
    rewrite Hlong. split; cbn [fst snd gap_Length gap_Start]; [done | lia | intros _; f_equal; lia | | exact Habs | |].
    + replace (i + 1 - (gap_Length current + 1)) with (i - gap_Length current) by lia. done.
    + destruct (Z.ltb_spec (gap_Length largest) (gap_Length current + 1)) as [Hlt | Hge]; cbn [gap_Length]; [| done].
      destruct Hc as [Hc | [Hc Ew]].
      * intros k Hk. rewrite seq_at_add. replace (i - gap_Length current + k) with (i + 1 - (gap_Length current + 1 - k)) by lia.
        apply Habs. lia.
      * left. lia.
      * destruct (decide (gap_Length current + 1 = 99 - dist o wr)) as [Ec | Ec]; [right | left; lia].
        by rewrite <- seq_at_add, Ew, Ec.
    + destruct (Z.ltb_spec (gap_Length largest) (gap_Length current + 1)); cbn [gap_Length]; lia.
Qed.

(** Once round, the largest gap is the one behind the write block. *)
Lemma walk_finds_gap :
  snd (for_range 0 BLOCK_SEQUENCE_MODULUS (fun _ => locate_step isp) (lp, mkGap 0 0, mkGap 0 0)) = mkGap (seq_at wr 1) (99 - dist o wr).
Proof using lp_seq lp_present wr_seq wr_present o_present in_run small_holes o_seq gap_left.
  pose proof (dist_range lp wr) as Hpw. pose proof (in_run lp lp_seq lp_present) as Hlp.
  assert (Hsum : dist lp wr = dist o wr - dist o lp) by (by apply dist_between). pose proof (dist_range o lp) as Hdl.
  pose (I := fun i st => walked i st /\ (dist lp wr + (99 - dist o wr) <= i -> snd st = mkGap (seq_at wr 1) (99 - dist o wr))).
  assert (HI : I BLOCK_SEQUENCE_MODULUS (for_range 0 BLOCK_SEQUENCE_MODULUS (fun _ => locate_step isp) (lp, mkGap 0 0, mkGap 0 0))).
  { apply (for_range_inv I); [done | |].
    - split; [| intros; pose proof (dist_range o wr); lia].
      split; cbn [fst snd gap_Length]; try lia; by rewrite ?Z.sub_0_r, seq_at_0.
    - intros i st Hi [Hw Hg]. pose proof (walked_step i st ltac:(lia) Hw) as Hw'. split; [done |]. intros Hle.
      destruct Hw' as [H1 H2 H3 H4 H5 H6 H7]. destruct (Z.le_gt_cases (dist lp wr + (99 - dist o wr)) i) as [Hi' | Hi'].
      + destruct H6 as [H6 |]; [| done]. exfalso. specialize (Hg Hi'). destruct st as [[ix cu] la]. cbn [snd] in Hg. subst la.
        destruct (isp (seq_at ix 1)) eqn:Ep.
        * rewrite locate_present in H6 by done. cbn [snd gap_Length] in H6. lia.
        * rewrite locate_absent in H6 by done. cbn [snd gap_Length] in H6. revert H6.
          destruct (Z.ltb_spec (99 - dist o wr) (gap_Length cu + 1)); cbn [longer gap_Length]; lia.
      + assert (Ei : i + 1 = dist lp wr + (99 - dist o wr)) by lia. set (c := gap_Length (snd (fst (locate_step isp st)))) in *.
        destruct H6 as [H6 |]; [| done]. exfalso.
        assert (Hc : c < 99 - dist o wr) by lia.
        (* the block before the [c] absent ones is in the gap *)
        assert (Hd : dist o (seq_at lp (i + 1 - c)) <= dist o wr) by (apply in_run; [apply seq_at_range | done]).
        rewrite Ei in Hd. clear - Hd Hc H2 lp_seq wr_seq o_seq Hlp Hpw gap_left. unfold c in *. seq_arith. }
  apply HI. unfold BLOCK_SEQUENCE_MODULUS. lia.
Qed.
End locate.

Lemma LocateRunBoundaries_spec self lp o wr oldest newest :
  is_seq lp -> present self lp = true -> is_seq o -> present self o = true -> is_seq wr -> present self wr = true ->
  (forall s, is_seq s -> present self s = true -> dist o s <= dist o wr) -> dist o wr < 99 ->
  (forall s, is_seq s -> present self s = true -> s <> wr -> exists k, 1 <= k <= 99 - dist o wr /\ present self (seq_at s k) = true) ->
  BlockSequence_LocateRunBoundaries self lp oldest newest = (o, wr).
Proof using.
  intros H1 H2 H3 H4 H5 H6 H7 H8 H9. unfold BlockSequence_LocateRunBoundaries.
  pose proof (walk_finds_gap (present self) lp o wr H1 H2 H5 H6 H4 H7 H9 H3 H8) as E.
  destruct (for_range _ _ _ _) as [[ix cu] la]. cbn [snd] in E. subst la. cbn [gap_Length gap_Start].
  pose proof (dist_range o wr). destruct (Z.ltb_spec 0 (99 - dist o wr)); [| lia]. f_equal.
  - fold (seq_at (seq_at wr 1) (99 - dist o wr)). rewrite seq_at_add. clear - H3 H5. seq_arith.
  - unfold BlockSequence_CircularPrev. clear - H5. seq_arith.
Qed.

(** ** The scan of the device *)

Definition same_blocks w w' : Prop := forall j, block (sw_Dev w') j = block (sw_Dev w) j.
(** Only the presence map changed, and no block. *)
Definition remapped w w' : Prop :=
  same_blocks w w' /\ exists m, sw_Self w' = (sw_Self w) <| sq_BlockPresent := m |> /\
    length m = length (sq_BlockPresent (sw_Self w)).

Lemma ScanForBlockPresence_spec w :
  length (sq_BlockPresent (sw_Self w)) = Z.to_nat BLOCK_SEQUENCE_MODULUS ->
  wp BlockSequence_ScanForBlockPresence (fun last w' =>
    remapped w w' /\
    (forall s, is_seq s -> (present (sw_Self w') s = true <-> block (sw_Dev w) s <> None)) /\
    (last = -1 /\ (forall s, is_seq s -> block (sw_Dev w) s = None) \/ is_seq last /\ block (sw_Dev w) last <> None)) w.
Proof using HDS.
  intros Hlen. unfold BlockSequence_ScanForBlockPresence.
  apply (wp_forM (fun i last w' => remapped w w' /\
    (forall s, 0 <= s < i -> s < 100 -> (present (sw_Self w') s = true <-> block (sw_Dev w) s <> None)) /\
    (last = -1 /\ (forall s, 0 <= s < i -> block (sw_Dev w) s = None) \/ is_seq last /\ block (sw_Dev w) last <> None))).
  - split; [split; [done |]; exists (sq_BlockPresent (sw_Self w)); split; [by destruct (sw_Self w) | done] |].
    split; [lia |]. left. split; [done | lia].
  - intros i last w1 Hi ((Hb & m & Em & Hm) & Hp & Hlast). unfold BLOCK_SEQUENCE_MODULUS in Hi.
    wp_steps. apply wp_sq_device. intros e d Ed. sq_steps.
    pose proof (Exists_tells i (sw_Dev w1)) as HE. rewrite Ed in HE. destruct HE as [Hb1 He]. rewrite Hb in He.
    assert (Hset : forall s, is_seq s -> present ((sw_Self w1) <| sq_BlockPresent := <[Z.to_nat i := e]> (sq_BlockPresent (sw_Self w1)) |>) s =
              if decide (s = i) then e else present (sw_Self w1) s).
    { intros s Hs. apply present_set; [rewrite Em; simpl; congruence | unfold is_seq, BLOCK_SEQUENCE_MODULUS; lia | done]. }
    split; [| split].
    + split; [intros j; simpl; by rewrite Hb1, Hb |]. exists (<[Z.to_nat i := e]> m). simpl. rewrite Em. simpl.
      split; [by destruct (sw_Self w) | by rewrite length_insert].
    + intros s Hs Hs'. assert (is_seq s) by (unfold is_seq, BLOCK_SEQUENCE_MODULUS; lia).
      change (present ((sw_Self w1) <| sq_BlockPresent := <[Z.to_nat i := e]> (sq_BlockPresent (sw_Self w1)) |>) s = true <-> block (sw_Dev w) s <> None).
      rewrite Hset by done. destruct (decide (s = i)) as [-> |]; [done | apply Hp; lia].
    + destruct e; [right; split; [unfold is_seq, BLOCK_SEQUENCE_MODULUS; lia | by apply He] |].
      destruct Hlast as [[-> Hnone] | Hsome]; [left; split; [done |] | by right].
      intros s Hs. destruct (decide (s = i)) as [-> |]; [| apply Hnone; lia].
      destruct (block (sw_Dev w) i); [| done]. by destruct He as [_ He]; specialize (He ltac:(done)).
  - intros last w1 (Hr & Hp & Hlast). split; [done |]. change (0 + Z.of_nat (Z.to_nat BLOCK_SEQUENCE_MODULUS)) with 100 in *.
    unfold is_seq, BLOCK_SEQUENCE_MODULUS in *. split; [intros s Hs; apply Hp; lia |]. done.
Qed.

(** The blocks a previous start left: one run, in which every hole is shorter than
    the gap outside it. *)
Record left_on_device (d : D) (o wr : Z) : Prop := {
  ld_oldest : is_seq o /\ block d o <> None;
  ld_write : is_seq wr /\ block d wr <> None;
  ld_run : forall s, is_seq s -> block d s <> None -> dist o s <= dist o wr;
  ld_gap : dist o wr < 99;
  ld_holes : forall s, is_seq s -> block d s <> None -> s <> wr ->
    exists k, 1 <= k <= 99 - dist o wr /\ block d (seq_at s k) <> None
}.

(** A sequence as it is before it is opened. *)
Definition unopened (config : SolidSyslogBlockSequenceConfig W) (d : D) (env : W) (trace : list store_event) : sq_world D W :=
  mkSqWorld (SolidSyslogBlockSequence_Initialise config) d env trace.
Lemma Initialise_max config : MIN_MAX_BLOCKS <= sq_MaxBlocks (SolidSyslogBlockSequence_Initialise (W := W) config) <= MAX_MAX_BLOCKS.
Proof using.
  cbn. unfold BlockSequence_ClampToRange, MIN_MAX_BLOCKS, MAX_MAX_BLOCKS, BLOCK_SEQUENCE_MODULUS.
  destruct (Z.ltb_spec (bsc_MaxBlocks config) 2); destruct (Z.ltb_spec (100 - 2) (if bsc_MaxBlocks config <? 2 then 2 else bsc_MaxBlocks config));
    repeat destruct_bool_step; bool_to_prop; lia.
Qed.
Lemma Initialise_map config : length (sq_BlockPresent (SolidSyslogBlockSequence_Initialise (W := W) config)) = Z.to_nat BLOCK_SEQUENCE_MODULUS.
Proof using. apply repeat_length. Qed.

Record resumed config (d : D) (o wr : Z) w : Prop := {
  rs_ok : sq_ok w;
  rs_blocks : forall j, block (sw_Dev w) j = block d j;
  rs_ends : sq_OldestSequence (sw_Self w) = o /\ sq_WriteSequence (sw_Self w) = wr;
  rs_memory : sq_ReadCursor (sw_Self w) = 0 /\ sq_WriteBlockCorrupt (sw_Self w) = false /\ sq_EvictedUnsent (sw_Self w) = false;
  rs_config : same_config (SolidSyslogBlockSequence_Initialise config) (sw_Self w)
}.
Lemma Open_resumes config d env trace o wr : left_on_device d o wr ->
  wp SolidSyslogBlockSequence_Open (fun ready w => if ready then resumed config d o wr w else failed w) (unopened config d env trace).
Proof using HDS.
  intros [[Ho Hbo] [Hw Hbw] Hrun Hgap Hholes]. set (w0 := unopened config d env trace).
  unfold SolidSyslogBlockSequence_Open, BlockSequence_ScanForExistingBlocks. wp_steps. wp_steps.
  eapply wp_mono; [apply (ScanForBlockPresence_spec w0), Initialise_map |].
  intros last w1 ((Hb & m & Em & Hm) & Hp & Hlast). change (sw_Dev w0) with d in *.
  destruct Hlast as [[_ Hnone] | [Hls Hlb]]; [by rewrite Hnone in Hbo |].
  destruct (Z.leb_spec 0 last); [| unfold is_seq in Hls; lia].
  sq_steps. rewrite (LocateRunBoundaries_spec _ last o wr); try done; try (by apply Hp);
    try (intros s Hs Hps; apply Hp in Hps; [| done]; first [by apply Hrun | idtac]).
  2:{ intros Hne. destruct (Hholes s Hs Hps Hne) as (k & Hk & Hkb). exists k. split; [done |]. apply Hp; [apply seq_at_range | done]. }
  rewrite !u8_small by (unfold is_seq, BLOCK_SEQUENCE_MODULUS in *; lia).
  unfold BlockSequence_StartReadingBlock. sq_steps. apply wp_sq_device. intros [ready size] d2 Ed2. sq_steps. simpl in Ed2.
  assert (exists b, block d wr = Some b) as [b Eb] by (destruct (block d wr) as [b |]; [by exists b | done]). assert (Eb1 : block (sw_Dev w1) wr = Some b) by (rewrite Hb; exact Eb).
  pose proof (Size_of_held wr (sw_Dev w1) b Eb1) as HS. rewrite Ed2 in HS. destruct HS as [Hb2 Hok]. destruct ready; simpl negb; sq_steps.
  2:{ eapply wp_mono; [apply NoteDeviceFailure_failed |]. intros [] w' Hf. cbv beta. wp_steps. done. }
  eapply wp_mono; [apply Notify_still |]. intros [] w' [Hs _]. cbv beta. wp_steps.
  specialize (Hok eq_refl) as ->.
  match type of Hs with still ?x _ => set (w2 := x) in * end.
  assert (Hself : sw_Self w2 = (sw_Self w0) <| sq_BlockPresent := m |> <| sq_OldestSequence := o |> <| sq_ReadSequence := o |>
            <| sq_ReadCursor := 0 |> <| sq_ReadBlockSizeKnown := false |> <| sq_WriteSequence := wr |> <| sq_WritePosition := lenZ b |>).
  { unfold w2. simpl. by rewrite Em. }
  assert (Hpres : forall s, present (sw_Self w2) s = present (sw_Self w1) s) by (intros s; rewrite Hself, Em; done).
  assert (Hblk : forall j, block (sw_Dev w2) j = block d j) by (intros j; unfold w2; simpl; by rewrite Hb2, Hb).
  assert (Hok2 : sq_ok w2).
  { clearbody w2. split.
    - by rewrite Hself.
    - split.
      + rewrite Hself. apply (Initialise_max config).
      + rewrite Hself. cbn. rewrite Hm. apply Initialise_map.
      + rewrite Hpres. rewrite Hself. split; [done |]. by apply Hp.
      + rewrite Hpres. rewrite Hself. split; [done |]. by apply Hp.
      + by rewrite Hself.
      + intros s Hs' Hps. rewrite Hpres in Hps. apply Hp in Hps; [| done]. rewrite Hself. by apply Hrun.
    - split; unfold content_of.
      + intros s Hs'. rewrite Hpres, Hblk. by apply Hp.
      + rewrite Hblk, Hself. cbn. by rewrite Eb.
      + by rewrite Hself.
    - rewrite BlockCount_dist, Hself. cbn. unfold BLOCK_SEQUENCE_MODULUS. lia. }
  destruct (still_memory _ _ Hs) as [[] Hc]. split.
  - by eapply still_ok.
  - intros j. by rewrite (st_block _ _ Hs), Hblk.
  - rewrite sm_oldest0, sm_write0, Hself. done.
  - rewrite sm_cursor0, sm_corrupt0, sm_evicted0, Hself. done.
  - eapply same_config_trans; [| exact Hc]. rewrite Hself. done.
Qed.

(** An empty device: the first block is made, and the run is that block. *)
Lemma Open_fresh config d env trace : (forall s, is_seq s -> block d s = None) ->
  wp SolidSyslogBlockSequence_Open (fun ready w =>
    if ready then sq_ok w /\ run (sw_Self w) = [0] /\ block (sw_Dev w) 0 = Some [] /\
      (forall j, j <> 0 -> block (sw_Dev w) j = block d j) /\ sq_ReadCursor (sw_Self w) = 0 /\
      sq_WriteBlockCorrupt (sw_Self w) = false /\ same_config (SolidSyslogBlockSequence_Initialise config) (sw_Self w)
    else failed w) (unopened config d env trace).
Proof using HDS.
  intros Hnone. set (w0 := unopened config d env trace).
  unfold SolidSyslogBlockSequence_Open, BlockSequence_ScanForExistingBlocks, BlockSequence_AcquireBlock. wp_steps. wp_steps.
  eapply wp_mono; [apply (ScanForBlockPresence_spec w0), Initialise_map |].
  intros last w1 ((Hb & m & Em & Hm) & Hp & Hlast). change (sw_Dev w0) with d in *.
  destruct Hlast as [[-> _] | [Hls Hlb]]; [| by rewrite Hnone in Hlb].
  simpl. sq_steps. apply wp_sq_device. intros a d2 Ed2. destruct a; sq_steps; cbn [negb]; sq_steps.
  2:{ eapply wp_mono; [apply NoteDeviceFailure_failed |]. intros [] w' Hf. cbv beta. wp_steps. done. }
  pose proof (Acquire_holds 0 (sw_Dev w1)) as HA. rewrite Ed2 in HA. destruct HA as [Hb2 Hnew]. specialize (Hnew eq_refl).
  eapply wp_mono; [apply Notify_still |]. intros [] w' [Hs _]. cbv beta. wp_steps.
  match type of Hs with still ?x _ => set (w2 := x) in * end.
  assert (Hself : sw_Self w2 = (sw_Self w0) <| sq_BlockPresent := <[0%nat := true]> m |>).
  { unfold w2. simpl. by rewrite Em. }
  assert (Hpres : forall s, is_seq s -> present (sw_Self w2) s = if decide (s = 0) then true else false).
  { intros s Hs'. rewrite Hself.
    assert (Hl : length (sq_BlockPresent ((sw_Self w0) <| sq_BlockPresent := m |>)) = Z.to_nat BLOCK_SEQUENCE_MODULUS).
    { simpl. rewrite Hm. apply Initialise_map. }
    pose proof (present_set ((sw_Self w0) <| sq_BlockPresent := m |>) 0 s true Hl ltac:(done) Hs') as E.
    destruct (decide (s = 0)); [exact E |]. etransitivity; [exact E |]. rewrite <- Em.
    destruct (present (sw_Self w1) s) eqn:E1; [| done]. apply Hp in E1; [| done]. by rewrite Hnone in E1. }
  assert (Hblk : forall j, j <> 0 -> block (sw_Dev w2) j = block d j) by (intros j Hj; unfold w2; simpl; by rewrite Hb2, Hb).
  assert (Hblk0 : block (sw_Dev w2) 0 = Some []) by done.
  assert (Hr2 : run_ok (sw_Self w2)).
  { clearbody w2. split.
    - rewrite Hself. apply (Initialise_max config).
    - rewrite Hself. cbn. rewrite length_insert, Hm. apply Initialise_map.
    - split; [by rewrite Hself |]. rewrite Hself at 2. by rewrite Hpres.
    - split; [by rewrite Hself |]. rewrite Hself at 2. by rewrite Hpres.
    - by rewrite Hself.
    - intros s Hs' Hps. rewrite Hpres in Hps by done. rewrite Hself. destruct (decide (s = 0)) as [-> |]; done. }
  assert (Hok2 : sq_ok w2).
  { clearbody w2. split; [by rewrite Hself | done | |].
    - split; unfold content_of.
      + intros s Hs'. rewrite Hpres by done. destruct (decide (s = 0)) as [-> |]; [by rewrite Hblk0 |].
        rewrite Hblk, Hnone by done. done.
      + rewrite Hself. cbn. by rewrite Hblk0.
      + by rewrite Hself.
    - by rewrite BlockCount_dist, Hself. }
  destruct (still_memory _ _ Hs) as [[] Hc].
  split; [by eapply still_ok |]. split; [| split; [by rewrite (st_block _ _ Hs) | split; [intros j Hj; rewrite (st_block _ _ Hs); by apply Hblk |]]].
  - rewrite (still_run _ _ Hs), run_span, BlockCount_dist. rewrite Hself at 2 3 4. cbn. apply span_run_one; [done |]. by rewrite Hpres.
  - rewrite sm_cursor0, sm_corrupt0, Hself. do 2 (split; [done |]). eapply same_config_trans; [| exact Hc]. rewrite Hself. done.
Qed.

Lemma Open_ok config d env trace o wr : left_on_device d o wr ->
  fst (SolidSyslogBlockSequence_Open (unopened config d env trace)) = true ->
  sq_ok (snd (SolidSyslogBlockSequence_Open (unopened config d env trace))).
Proof using HDS.
  intros Hl He. pose proof (Open_resumes config d env trace o wr Hl) as HO. unfold wp in HO. rewrite He in HO. apply HO.
Qed.

Lemma SetReadCursor_ok c w : sq_ok w -> sq_ok (snd (SolidSyslogBlockSequence_SetReadCursor c w)).
Proof using. intros [H1 [] [] H4]. split; [exact H1 | by split | by split | exact H4]. Qed.
Lemma MarkWriteBlockCorrupt_ok w : sq_ok w -> sq_ok (snd (SolidSyslogBlockSequence_MarkWriteBlockCorrupt w)).
Proof using. intros [H1 [] [] H4]. split; [exact H1 | by split | by split | exact H4]. Qed.

(** * Properties *)

(** A start finds the store where the last one left it.  Whatever blocks the
    device still holds, when they make one run round the hundred numbers whose holes
    are each shorter than the gap outside it, opening finds the run's two ends,
    begins to read at the oldest block and to write behind the newest one's data,
    and changes no block; when the device holds none, it makes the first.  Otherwise
    a call of the device has failed, and the sequence says so. *)
Theorem Open_resumes_run (config : SolidSyslogBlockSequenceConfig W) (d : D) (env : W) (trace : list store_event) (o wr : Z) :
  left_on_device d o wr \/ (forall s, is_seq s -> block d s = None) /\ o = 0 /\ wr = 0 ->
  let '(ready, w) := SolidSyslogBlockSequence_Open (unopened config d env trace) in
  if ready then
    sq_ok w /\ sq_OldestSequence (sw_Self w) = o /\ sq_WriteSequence (sw_Self w) = wr /\
    sq_ReadSequence (sw_Self w) = o /\ sq_ReadCursor (sw_Self w) = 0 /\
    sq_WritePosition (sw_Self w) = lenZ (content_of w wr) /\
    (forall s, s ∈ run (sw_Self w) <-> is_seq s /\ block (sw_Dev w) s <> None) /\
    (forall s, is_seq s -> block (sw_Dev w) s = block d s \/ block d s = None /\ s = 0 /\ block (sw_Dev w) s = Some [] /\ o = wr)
  else failed w.
Proof using HDS.
  intros Hd.
  assert (Hfin : forall w, sq_ok w -> sq_ReadSequence (sw_Self w) = sq_OldestSequence (sw_Self w) /\
            sq_WritePosition (sw_Self w) = lenZ (content_of w (sq_WriteSequence (sw_Self w))) /\
            (forall s, s ∈ run (sw_Self w) <-> is_seq s /\ block (sw_Dev w) s <> None)).
  { intros w [H1 H2 [S1 S2 S3] H4]. split; [apply H2 |]. split; [done |]. intros s. rewrite run_spec by done.
    split; intros [Hs Hp]; (split; [done |]); by apply S1. }
  destruct Hd as [Hl | (Hnone & -> & ->)].
  - pose proof (Open_resumes config d env trace o wr Hl) as H1. unfold wp in H1.
    destruct (SolidSyslogBlockSequence_Open _) as [[] w]; cbn [fst snd] in H1; [| done].
    destruct H1 as [Hok Hb [Eo Ew] (Ec & _) _]. destruct (Hfin w Hok) as (F1 & F2 & F3). rewrite Ew in F2.
    split_and!; try done; [congruence |]. intros s _. by left.
  - pose proof (Open_fresh config d env trace Hnone) as H1. unfold wp in H1.
    destruct (SolidSyslogBlockSequence_Open _) as [[] w]; cbn [fst snd] in H1; [| done].
    destruct H1 as (Hok & Hrun & Hb & Hb2 & Hc & _). destruct (Hfin w Hok) as (F1 & F2 & F3).
    destruct (run_head _ (ok_run _ Hok)) as [rest Eh]. destruct (run_last _ (ok_run _ Hok)) as [front El].
    rewrite Hrun in Eh, El. injection Eh as Eo _. apply (app_inj_tail [] front 0 _) in El as [_ Ew].
    rewrite <- Ew in F2. split_and!; try done; [congruence |].
    intros s Hs. destruct (decide (s = 0)) as [-> |]; [right; by rewrite Hnone | left; by apply Hb2].
Qed.

(** C29. Making room never costs a record that the policy did not give up.  When the
    sequence is asked for room, either a call of the device has failed, and the
    sequence says so; or the sequence is as it should be again, within its ceiling
    when it was, and there is room for the record unless the store is full and the
    policy, asked, answered otherwise than Oldest, when no block changed.  A block is
    removed only if all of it was read, or as the policy Oldest says to, at the
    ceiling, and never the one being written; no other block changes. *)
Theorem PrepareForWrite_keeps_blocks w (n : Z) :
  sq_ok w -> 0 <= n <= sq_MaxBlockSize (sw_Self w) -> sq_MaxBlockSize (sw_Self w) <= SIZE_MAX ->
  let '((room, changed), w') := SolidSyslogBlockSequence_PrepareForWrite n w in
  failed w' \/
  sq_ok w' /\
  BlockSequence_BlockCount (sw_Self w') <= Z.max (sq_MaxBlocks (sw_Self w)) (BlockSequence_BlockCount (sw_Self w)) /\
  (room = true -> BlockSequence_BlockIsFull (sw_Self w') n = false) /\
  (room = false -> (forall j, block (sw_Dev w') j = block (sw_Dev w) j) /\ run (sw_Self w') = run (sw_Self w) /\
     sq_MaxBlocks (sw_Self w) <= BlockSequence_BlockCount (sw_Self w) /\ policy_answer w <> SOLIDSYSLOG_DISCARD_POLICY_OLDEST) /\
  (changed = false -> sq_ReadSequence (sw_Self w') = sq_ReadSequence (sw_Self w) /\ sq_ReadCursor (sw_Self w') = sq_ReadCursor (sw_Self w)) /\
  (forall j b, block (sw_Dev w) j = Some b -> block (sw_Dev w') j <> Some b ->
     j = sq_ReadSequence (sw_Self w) /\ lenZ b <= sq_ReadCursor (sw_Self w) \/
     j <> sq_WriteSequence (sw_Self w) /\ sq_EvictedUnsent (sw_Self w') = true /\
     sq_MaxBlocks (sw_Self w) <= BlockSequence_BlockCount (sw_Self w) /\ policy_answer w = SOLIDSYSLOG_DISCARD_POLICY_OLDEST).
Proof using HDS.
  intros Hok Hn Hmax. pose proof (PrepareForWrite_spec n w Hok) as HP. unfold wp in HP.
  destruct (SolidSyslogBlockSequence_PrepareForWrite n w) as [[room changed] w']. cbn [fst snd] in HP.
  inversion HP as [Hf | w1 Hf Hs Hc Hp Ha | ch gone w1 Hf Hr Hp | r w1 Hf]; subst; [right | right | right | by left].
  - split; [done |]. split; [lia |]. split; [done |]. split; [done |]. split; [done |]. intros j b E1 E2. done.
  - destruct (still_memory _ _ Hs) as [[] _]. split; [by eapply still_ok |]. pose proof (st_block _ _ Hs) as Hb.
    split; [unfold BlockSequence_BlockCount in *; rewrite sm_write0, sm_oldest0; lia |].
    split; [done |]. split; [intros _; split; [done |]; split; [by apply still_run | done] |]. split; [done |].
    intros j b E1 E2. by rewrite Hb in E2.
  - pose proof (rt_ok _ _ _ _ Hr) as Hok'. pose proof (ro_read _ (ok_run _ Hok)) as Er. pose proof (ro_read _ (ok_run _ Hok')) as Er'.
    destruct (rt_write _ _ _ _ Hr) as (Ew & Epos & Ecor). destruct (rt_config _ _ _ _ Hr).
    split; [done |]. split; [apply Hr |]. split; [| split; [done | split]].
    + intros _. unfold BlockSequence_BlockIsFull. rewrite Epos, Ecor, sc_size0, size_add_small by lia. simpl. apply Z.ltb_ge. lia.
    + intros ->. pose proof (rt_changed _ _ _ _ Hr) as Eg. symmetry in Eg. apply negb_false_iff, bool_decide_eq_true in Eg. subst gone.
      pose proof (rt_run _ _ _ _ Hr) as Erun. cbn [app] in Erun. rewrite (rt_cursor _ _ _ _ Hr). split; [| done].
      rewrite Er, Er'. destruct (run_head _ (ok_run _ Hok)) as [r1 E1]. destruct (run_head _ (ok_run _ Hok')) as [r2 E2].
      rewrite E1, E2 in Erun. by injection Erun.
    + intros j b Ej Ej'. destruct (decide (j ∈ gone)) as [Hin | Hin].
      2:{ exfalso. destruct (decide (j = sq_WriteSequence (sw_Self w'))) as [-> | Hne]; [by rewrite (rt_fresh _ _ _ _ Hr) in Ej |].
          by rewrite (rt_block _ _ _ _ Hr) in Ej'. }
      assert (Hdr : gone = [sq_OldestSequence (sw_Self w)] -> drained w -> j = sq_ReadSequence (sw_Self w) /\ lenZ b <= sq_ReadCursor (sw_Self w)).
      { intros -> Hdr. apply list_elem_of_singleton in Hin. subst j. rewrite Er. split; [done |].
        unfold drained, content_of in Hdr. by rewrite Ej in Hdr. }
      destruct (sq_EvictedUnsent (sw_Self w')) eqn:Ee.
      * destruct (decide (j = sq_WriteSequence (sw_Self w))) as [-> | Hne].
        -- destruct (rt_safe _ _ _ _ Hr Hin) as [-> Hd]. left. apply Hdr; [| done].
           pose proof (rt_run _ _ _ _ Hr) as Erun. destruct (run_head _ (ok_run _ Hok)) as [r1 E1]. rewrite E1 in Erun. by injection Erun as ->.
        -- right. split; [done |]. split; [done |]. split; [by apply (rt_evicted _ _ _ _ Hr) | auto].
      * left. destruct (rt_drained _ _ _ _ Hr Ee) as [-> | [-> Hd]]; [by apply not_elem_of_nil in Hin | auto].
Qed.

(** A block is left only when nothing in it remains to send.  Between calls, the
    check that follows a mark removes the oldest block when, and only when, it is
    behind the write and the read is past all its data; the read then stands at the
    start of the next block of the run, no other block changes and the latest
    rotation's eviction note stands.  When it removes none, the read stands where it
    stood. *)
Theorem DisposeReadBlockIfDrained_leaves w : sq_ok w ->
  let '(changed, w') := SolidSyslogBlockSequence_DisposeReadBlockIfDrained w in
  failed w' \/
  sq_ok w' /\ sq_WriteSequence (sw_Self w') = sq_WriteSequence (sw_Self w) /\
  sq_WritePosition (sw_Self w') = sq_WritePosition (sw_Self w) /\ sq_EvictedUnsent (sw_Self w') = sq_EvictedUnsent (sw_Self w) /\
  (forall j, j <> sq_ReadSequence (sw_Self w) \/ changed = false -> block (sw_Dev w') j = block (sw_Dev w) j) /\
  changed = (SolidSyslogBlockSequence_ReadIsBehindWrite (sw_Self w) &&
             (lenZ (content_of w (sq_ReadSequence (sw_Self w))) <=? sq_ReadCursor (sw_Self w))) /\
  (if changed then block (sw_Dev w') (sq_ReadSequence (sw_Self w)) = None /\ sq_ReadCursor (sw_Self w') = 0 /\
     exists rest, run (sw_Self w) = sq_ReadSequence (sw_Self w) :: sq_ReadSequence (sw_Self w') :: rest
   else sq_ReadSequence (sw_Self w') = sq_ReadSequence (sw_Self w) /\ sq_ReadCursor (sw_Self w') = sq_ReadCursor (sw_Self w)).
Proof using HDS.
  intros Hok. assert (Hwk : working w) by (by destruct Hok).
  pose proof (DisposeReadBlockIfDrained_spec w Hwk) as HP. unfold wp in HP.
  destruct (SolidSyslogBlockSequence_DisposeReadBlockIfDrained w) as [changed w']. cbn [fst snd] in HP.
  destruct HP as [Hf | HP]; [by left | right]. pose proof (ro_read _ (ok_run _ Hok)) as Er.
  unfold SolidSyslogBlockSequence_ReadIsBehindWrite. rewrite Er. destruct changed.
  - destruct HP as (Hd & Hne & Hl). destruct (lo_write _ _ _ Hl) as (A & B & C). unfold drained in Hd.
    split; [split; try apply Hl; pose proof (lo_count _ _ _ Hl); pose proof (ok_free _ Hok); lia |].
    split; [done |]. split; [done |]. split; [apply Hl |]. split; [intros j [Hj | Hj]; [by apply Hl | done] |]. split.
    + destruct (Z.eqb_spec (sq_OldestSequence (sw_Self w)) (sq_WriteSequence (sw_Self w))); [done |]. symmetry. by apply Z.leb_le.
    + split; [apply Hl |]. split; [apply Hl |]. rewrite (lo_run _ _ _ Hl). pose proof (wk_run _ (lo_working _ _ _ Hl)) as Hr'.
      destruct (run_head _ Hr') as [rest ->]. rewrite (ro_read _ Hr'). by exists rest.
  - destruct HP as (Hs & Hwhy). destruct (still_memory _ _ Hs) as [[] _]. split; [by eapply still_ok |].
    do 3 (split; [done |]). split; [intros j _; apply Hs |]. split; [| by rewrite sm_read0].
    unfold drained in Hwhy. destruct (Z.eqb_spec (sq_OldestSequence (sw_Self w)) (sq_WriteSequence (sw_Self w))); [done |].
    simpl. symmetry. apply Z.leb_gt. destruct Hwhy as [| Hwhy]; [done | lia].
Qed.

(** ** The threshold *)

(** What an observer sees of one crossing. *)
Definition crossing : list store_event :=
  [store_raised SOLIDSYSLOG_SEVERITY_WARNING SOLIDSYSLOG_CAT_STORE_THRESHOLD_CROSSED SOLIDSYSLOG_BLOCK_STORE_ERROR_THRESHOLD_CROSSED;
   ThresholdCalled].
(** Whether the store is at or above the threshold its function would answer now. *)
Definition above_now w : bool :=
  match sq_GetCapacityThreshold (sw_Self w) with
  | Some getThreshold => BlockSequence_IsAboveThreshold (sw_Self w) (fst (getThreshold (sq_ThresholdContext (sw_Self w)) (sw_Env w)))
  | None => false
  end.
(** One crossing for each rise in the levels seen. *)
Fixpoint crossings (was : bool) (levels : list bool) : list store_event :=
  match levels with
  | [] => []
  | now :: rest => (if now && negb was then crossing else []) ++ crossings now rest
  end.
(** The checks made after each of a list of changes, and the level each one saw. *)
Fixpoint checks (changes : list (SolidSyslogBlockSequence W -> SolidSyslogBlockSequence W)) : ST (sq_world D W) (list bool) :=
  match changes with
  | [] => st_ret []
  | f :: rest =>
      sq_set f ;;;
      let! above := st_get above_now in
      BlockSequence_NotifyThresholdCrossed ;;;
      let! levels := checks rest in
      st_ret (above :: levels)
  end.
Definition keeps_threshold (f : SolidSyslogBlockSequence W -> SolidSyslogBlockSequence W) : Prop :=
  forall self, sq_ThresholdCrossed (f self) = sq_ThresholdCrossed self /\ sq_GetCapacityThreshold (f self) = sq_GetCapacityThreshold self.

Lemma Notify_edge w : sq_GetCapacityThreshold (sw_Self w) <> None ->
  wp BlockSequence_NotifyThresholdCrossed (fun _ w' =>
    sw_Trace w' = sw_Trace w ++ (if above_now w && negb (sq_ThresholdCrossed (sw_Self w)) then crossing else []) /\
    sq_ThresholdCrossed (sw_Self w') = above_now w /\
    sq_GetCapacityThreshold (sw_Self w') = sq_GetCapacityThreshold (sw_Self w)) w.
Proof using.
  intros Hen. unfold BlockSequence_NotifyThresholdCrossed, above_now. sq_steps.
  destruct (sq_GetCapacityThreshold (sw_Self w)) as [g |] eqn:Eg; [| done].
  sq_steps. apply wp_sq_env. intros t e ->. cbn [fst]. sq_steps.
  change (sw_Self (w <| sw_Env := e |>)) with (sw_Self w).
  destruct (BlockSequence_IsAboveThreshold (sw_Self w) t); cbn [negb]; sq_steps.
  2:{ simpl. by rewrite app_nil_r. }
  destruct (sq_ThresholdCrossed (sw_Self w)) eqn:Ec; cbn [negb]; sq_steps.
  { simpl. by rewrite app_nil_r. }
  apply wp_sq_env. intros [] e' _. cbv beta. split; [| done]. simpl. by rewrite <- app_assoc.
Qed.

(** The integrator hears of each crossing once.  Over any number of checks, with
    the store changing in between as it will, the event is raised and the callback
    called after it exactly at the checks that find the store at or above its
    threshold when the check before found it below; whatever the threshold function
    answers each time, and whatever the callback does. *)
Theorem threshold_reports_edges w changes :
  sq_GetCapacityThreshold (sw_Self w) <> None -> Forall keeps_threshold changes ->
  let '(levels, w') := checks changes w in
  sw_Trace w' = sw_Trace w ++ crossings (sq_ThresholdCrossed (sw_Self w)) levels /\
  length levels = length changes.
Proof using.
  revert w. induction changes as [| f rest IH]; intros w Hen Hk.
  - cbn. by rewrite app_nil_r.
  - apply Forall_cons_1 in Hk as [Hf Hk]. destruct (Hf (sw_Self w)) as [Hc Hg].
    cbn [checks]. unfold st_bind, sq_set, st_mod, st_get, st_ret.
    set (w1 := w <| sw_Self := f (sw_Self w) |>).
    assert (Hen1 : sq_GetCapacityThreshold (sw_Self w1) <> None) by (change (sq_GetCapacityThreshold (f (sw_Self w)) <> None); congruence).
    pose proof (Notify_edge w1 Hen1) as HN. unfold wp in HN.
    destruct (BlockSequence_NotifyThresholdCrossed w1) as [[] w2]. cbn [fst snd] in HN. destruct HN as (Et & Ec & Eg).
    specialize (IH w2 ltac:(congruence) Hk). destruct (checks rest w2) as [levels w']. destruct IH as [IH1 IH2].
    split; [| simpl; congruence]. rewrite IH1, Et, Ec. cbn [crossings]. rewrite <- app_assoc.
    change (sq_ThresholdCrossed (sw_Self w1)) with (sq_ThresholdCrossed (f (sw_Self w))). by rewrite Hc.
Qed.

(** Used never passes total.  Within the block ceiling, with the write block within
    its size and a capacity a [size_t] can count, no product or sum wraps, the bytes
    used are those of the closed blocks and of the write block, at most the total,
    and a store that is refusing reads as full. *)
Theorem UsedBytes_within_TotalBytes (self : SolidSyslogBlockSequence W) :
  run_ok self -> BlockSequence_BlockCount self <= sq_MaxBlocks self ->
  0 <= sq_WritePosition self <= sq_MaxBlockSize self -> sq_MaxBlocks self * sq_MaxBlockSize self <= SIZE_MAX ->
  SolidSyslogBlockSequence_TotalBytes self = sq_MaxBlocks self * sq_MaxBlockSize self /\
  0 <= SolidSyslogBlockSequence_UsedBytes self <= SolidSyslogBlockSequence_TotalBytes self /\
  (sq_AtCapacity self = true -> SolidSyslogBlockSequence_UsedBytes self = SolidSyslogBlockSequence_TotalBytes self) /\
  (sq_AtCapacity self = false -> SolidSyslogBlockSequence_UsedBytes self =
     (BlockSequence_BlockCount self - 1) * sq_MaxBlockSize self + sq_WritePosition self).
Proof using.
  intros Hr Hc Hp Hs. pose proof (ro_max _ Hr) as Hm. unfold MIN_MAX_BLOCKS, MAX_MAX_BLOCKS, BLOCK_SEQUENCE_MODULUS in Hm.
  pose proof (dist_range (sq_OldestSequence self) (sq_WriteSequence self)) as Hd. rewrite BlockCount_dist in Hc.
  unfold SolidSyslogBlockSequence_UsedBytes, SolidSyslogBlockSequence_TotalBytes. rewrite BlockCount_dist.
  set (n := dist (sq_OldestSequence self) (sq_WriteSequence self)) in *.
  assert (Hle : n * sq_MaxBlockSize self + sq_MaxBlockSize self <= sq_MaxBlocks self * sq_MaxBlockSize self) by nia.
  rewrite (size_mul_small (sq_MaxBlocks self)) by nia. rewrite size_sub_small by (unfold BLOCK_SEQUENCE_MODULUS in *; unfold SIZE_MAX; lia).
  replace (n + 1 - 1) with n by lia. rewrite size_mul_small by nia. rewrite size_add_small by nia.
  split; [done |]. destruct (sq_AtCapacity self); split; try done; nia.
Qed.
End theory.

(** * Concrete runs *)

Definition example_config (maxBlocks maxBlockSize : Z) (threshold : option Z) : SolidSyslogBlockSequenceConfig Z :=
  mkBlockSequenceConfig maxBlockSize maxBlocks None None (option_map (fun t _ => st_ret t) threshold)
    (Some (fun _ calls => (tt, calls + 1))) None.
(** The device after a run that wrapped, with a hole where block 99 was. *)
Definition wrapped_device : mem_device :=
  mem_of_list [(97, [1; 2; 3]); (98, [4; 5; 6]); (0, [7; 8; 9]); (1, [10; 11])] 3 None.
Definition wrapped_world : sq_world mem_device Z :=
  snd (SolidSyslogBlockSequence_Open (unopened (example_config 5 3 (Some 13)) wrapped_device 0 [])).

Lemma wrapped_ready : fst (SolidSyslogBlockSequence_Open (unopened (example_config 5 3 (Some 13)) wrapped_device 0 [])) = true.
Proof. by vm_compute. Qed.
Lemma wrapped_left : left_on_device wrapped_device 97 1.
Proof.
  assert (Hin : forall s, is_seq s -> block wrapped_device s <> None -> s ∈ [97; 98; 0; 1]).
  { intros s _ Hb. cbn in Hb.
    repeat (rewrite lookup_insert in Hb; case_decide; [subst; set_solver |]). rewrite lookup_empty in Hb. done. }
  split; [split; done | split; done | | done |].
  - intros s Hs' Hb. pose proof (Hin s Hs' Hb) as Hs. rewrite !elem_of_cons in Hs.
    destruct Hs as [-> | [-> | [-> | [-> | Hs]]]]; [by vm_compute .. | by apply not_elem_of_nil in Hs].
  - intros s Hs' Hb Hne. pose proof (Hin s Hs' Hb) as Hs. rewrite !elem_of_cons in Hs.
    destruct Hs as [-> | [-> | [-> | [-> | Hs]]]]; [exists 1 | exists 2 | exists 1 | done | by apply not_elem_of_nil in Hs];
      (split; [by vm_compute | by vm_compute]).
Qed.
Lemma wrapped_ok : sq_ok wrapped_world.
Proof. exact (Open_ok _ _ _ _ _ _ wrapped_left wrapped_ready). Qed.

Lemma Open_resumes_run_witness :
  run (sw_Self wrapped_world) = [97; 98; 0; 1] /\
  sq_OldestSequence (sw_Self wrapped_world) = 97 /\ sq_WriteSequence (sw_Self wrapped_world) = 1 /\
  sq_WritePosition (sw_Self wrapped_world) = 2 /\ sw_Trace wrapped_world = crossing.
Proof.
  split; [by vm_compute |].
  pose proof (Open_resumes_run (example_config 5 3 (Some 13)) wrapped_device 0 [] 97 1 (or_introl wrapped_left)) as HO.
  pose proof wrapped_ready as Hr.
  assert (Ew : snd (SolidSyslogBlockSequence_Open (unopened (example_config 5 3 (Some 13)) wrapped_device 0 [])) = wrapped_world) by (unfold wrapped_world; reflexivity).
  assert (Ep : lenZ (content_of wrapped_world 1) = 2) by (by vm_compute).
  assert (Et : sw_Trace wrapped_world = crossing) by (by vm_compute).
  revert HO Hr Ew Ep Et. generalize wrapped_world. intros ww.
  destruct (SolidSyslogBlockSequence_Open _) as [ready w']. cbn [fst snd]. intros HO -> <- Ep Et.
  destruct HO as (_ & H1 & H2 & _ & _ & H3 & _). rewrite H3. done.
Defined.

(** Block 1 has room for one byte and not for two: then block 2 is begun, and the
    run, now at its ceiling with the hole counted, is unread, so block 97 goes. *)
Lemma PrepareForWrite_keeps_blocks_witness :
  fst (SolidSyslogBlockSequence_PrepareForWrite 2 wrapped_world) = (true, true) /\
  sq_EvictedUnsent (sw_Self (snd (SolidSyslogBlockSequence_PrepareForWrite 2 wrapped_world))) = true /\
  policy_answer wrapped_world = SOLIDSYSLOG_DISCARD_POLICY_OLDEST.
Proof.
  pose proof (PrepareForWrite_keeps_blocks wrapped_world 2 wrapped_ok ltac:(by vm_compute) ltac:(by vm_compute)) as HP.
  destruct (SolidSyslogBlockSequence_PrepareForWrite 2 wrapped_world) as [[room changed] w'] eqn:E.
  assert (Ew : w' = snd (SolidSyslogBlockSequence_PrepareForWrite 2 wrapped_world)) by (by rewrite E).
  assert (Er : (room, changed) = fst (SolidSyslogBlockSequence_PrepareForWrite 2 wrapped_world)) by (by rewrite E).
  assert (Ev : sq_EvictedUnsent (sw_Self w') = true) by (rewrite Ew; by vm_compute).
  assert (Ed : sq_DeviceFailed (sw_Self w') = false) by (rewrite Ew; by vm_compute).
  split; [rewrite Er; by vm_compute |]. split; [done |].
  destruct HP as [Hf | (_ & _ & _ & _ & _ & Hb)]; [unfold failed in Hf; congruence |].
  destruct (Hb 97 [1; 2; 3]) as [[_ Hd] | (_ & _ & _ & Hp)]; [by vm_compute | rewrite Ew; by vm_compute | | done].
  by vm_compute in Hd.
Defined.

(** Once block 97 is read to its end, the check disposes of it. *)
Definition drained_world : sq_world mem_device Z := snd (SolidSyslogBlockSequence_SetReadCursor 3 wrapped_world).
Lemma drained_ok : sq_ok drained_world.
Proof. exact (SetReadCursor_ok 3 _ wrapped_ok). Qed.
Lemma DisposeReadBlockIfDrained_leaves_witness :
  fst (SolidSyslogBlockSequence_DisposeReadBlockIfDrained drained_world) = true /\
  block (sw_Dev (snd (SolidSyslogBlockSequence_DisposeReadBlockIfDrained drained_world))) 97 = None.
Proof.
  pose proof (DisposeReadBlockIfDrained_leaves drained_world drained_ok) as HD.
  destruct (SolidSyslogBlockSequence_DisposeReadBlockIfDrained drained_world) as [changed w'] eqn:E.
  assert (Ew : w' = snd (SolidSyslogBlockSequence_DisposeReadBlockIfDrained drained_world)) by (by rewrite E).
  assert (Ed : sq_DeviceFailed (sw_Self w') = false) by (rewrite Ew; by vm_compute).
  destruct HD as [Hf | (_ & _ & _ & _ & _ & Ec & Hc)]; [unfold failed in Hf; congruence |].
  assert (changed = true) as -> by (rewrite Ec; by vm_compute). split; [done |]. apply Hc.
Defined.

Lemma wrapped_enabled : sq_GetCapacityThreshold (sw_Self wrapped_world) <> None.
Proof. vm_compute. discriminate. Qed.
(** Above at the start; below once block 97's bytes are no longer counted; above
    again: one crossing more. *)
Lemma threshold_reports_edges_witness :
  let changes := [(fun s => s); (fun s => s <| sq_WritePosition := 0 |>); (fun s => s <| sq_WritePosition := 3 |>)] in
  fst (checks changes wrapped_world) = [true; false; true] /\
  sw_Trace (snd (checks changes wrapped_world)) = crossing ++ crossing.
Proof.
  intros changes.
  assert (Hk : Forall keeps_threshold changes) by (repeat constructor).
  pose proof (threshold_reports_edges wrapped_world changes wrapped_enabled Hk) as HT.
  assert (El : fst (checks changes wrapped_world) = [true; false; true]) by (by vm_compute).
  assert (Et : sw_Trace wrapped_world = crossing) by (by vm_compute).
  assert (Ec : sq_ThresholdCrossed (sw_Self wrapped_world) = true) by (by vm_compute).
  revert HT El. destruct (checks changes wrapped_world) as [levels w']. cbn [fst snd]. rewrite Et, Ec.
  intros [HT _] ->. split; [done |]. rewrite HT. by vm_compute.
Defined.

Lemma UsedBytes_within_TotalBytes_witness :
  0 <= SolidSyslogBlockSequence_UsedBytes (sw_Self wrapped_world) <= SolidSyslogBlockSequence_TotalBytes (sw_Self wrapped_world) /\
  SolidSyslogBlockSequence_UsedBytes (sw_Self wrapped_world) = 14.
Proof.
  pose proof (UsedBytes_within_TotalBytes (sw_Self wrapped_world) (ok_run _ wrapped_ok) ltac:(by vm_compute) ltac:(by vm_compute) ltac:(by vm_compute))
    as (_ & H1 & _ & H2).
  split; [exact H1 |]. rewrite H2 by (by vm_compute). by vm_compute.
Defined.

(** ** What the ceiling leaves out

    [MAX_MAX_BLOCKS] is two short of the sequence space so that a failed eviction
    still leaves an absent number to find the run by.  It does; a second one, after a
    restart, does not.  Ninety-eight full blocks, 5 to 99 and 0 to 2, of which block 5
    cannot be disposed of: the first start ends frozen with 99 blocks, the second,
    once its block is full, with all hundred, and the third reads from block 0, in the
    middle of the run, and takes block 99 for the newest. *)
Definition full_blocks : list (Z * bytes) := map (fun k => (seq_at 5 k, [0; 0])) (seqZ 0 98).
Definition stuck_device : mem_device := (mem_of_list full_blocks 2 None) <| md_stuck := Some 5 |>.
Definition start_on (d : mem_device) : sq_world mem_device Z :=
  snd (SolidSyslogBlockSequence_Open (unopened (example_config 98 2 None) d 0 [])).
Definition write_on (w : sq_world mem_device Z) : sq_world mem_device Z := snd (SolidSyslogBlockSequence_PrepareForWrite 2 w).
Lemma two_failed_evictions_lose_the_run :
  let w1 := start_on stuck_device in
  let w2 := write_on w1 in
  let w3 := start_on (sw_Dev w2) in
  let w4 := write_on (w3 <| sw_Dev := mem_update (sw_Dev w3) 3 [0; 0] |> <| sw_Self := (sw_Self w3) <| sq_WritePosition := 2 |> |>) in
  let w5 := start_on (sw_Dev w4) in
  (sq_OldestSequence (sw_Self w1), sq_WriteSequence (sw_Self w1)) = (5, 2) /\
  sq_DeviceFailed (sw_Self w2) = true /\
  (sq_OldestSequence (sw_Self w3), sq_WriteSequence (sw_Self w3)) = (5, 3) /\
  sq_DeviceFailed (sw_Self w4) = true /\
  forallb (fun s => match block (sw_Dev w4) s with Some _ => true | None => false end) (seqZ 0 100) = true /\
  (sq_OldestSequence (sw_Self w5), sq_WriteSequence (sw_Self w5)) = (0, 99) /\
  sq_DeviceFailed (sw_Self w5) = false.
Proof. by vm_compute. Qed.

(** ** A capacity past [SIZE_MAX]

    Ninety blocks of 64 MiB are more than a 32-bit [size_t] counts: the total and the
    bytes used are short by 4 GiB, and a threshold between them is not noticed. *)
Lemma TotalBytes_wraps :
  let self := SolidSyslogBlockSequence_Initialise (W := Z) (example_config 90 (2 ^ 26) None) in
  SolidSyslogBlockSequence_TotalBytes self = 90 * 2 ^ 26 - 2 ^ 32.
Proof. by vm_compute. Qed.
