(* ===== verification/BlockStore.v ===== *)
(** The block store ([SolidSyslogBlockStore.c]): the record store and the block
    sequence composed into one queue of records on a block device, with the null
    store it turns into when the device fails. *)
From stdpp Require Import gmap.
From S2P Require Import Prelude Errors Interfaces Policies MemDevice RecordStore BlockSequence.

(** * The store *)

(** The table of functions in [Base]: the store's own, or the shared null store's. *)
Inductive store_vtable := BlockStoreVtable | NullStoreVtable.
#[export] Instance store_vtable_eq_dec : EqDecision store_vtable.
Proof. solve_decision. Defined.

Record SolidSyslogBlockStore := mkBlockStore {
  st_Base : store_vtable;
  st_LossReported : bool;
  st_RefusalReported : bool;
  st_EvictionReported : bool;
  st_SealFailureReported : bool
}.
#[export] Instance settable_BlockStore : Settable SolidSyslogBlockStore :=
  fun s => mkBlockStore (st_Base s) (st_LossReported s) (st_RefusalReported s) (st_EvictionReported s) (st_SealFailureReported s).

Section block_store.
Context {D P W : Type} `{BlockDevice D} `{SecurityPolicy P}.

(** The store with the two objects it points to, the device and the policy they
    call, the integrator's environment, and what happened. *)
Record bs_world := mkBsWorld {
  bw_Self : SolidSyslogBlockStore;
  bw_RecordStore : SolidSyslogRecordStore;
  bw_BlockSequence : SolidSyslogBlockSequence W;
  bw_Dev : D;
  bw_Pol : P;
  bw_Env : W;
  bw_Trace : list store_event
}.
#[export] Instance settable_BsWorld : Settable bs_world :=
  fun w => mkBsWorld (bw_Self w) (bw_RecordStore w) (bw_BlockSequence w) (bw_Dev w) (bw_Pol w) (bw_Env w) (bw_Trace w).
Definition bs_op (A : Type) : Type := ST bs_world A.

Definition records_part (w : bs_world) : rs_world D P := mkRsWorld (bw_RecordStore w) (bw_Dev w) (bw_Pol w).
Definition sequence_part (w : bs_world) : sq_world D W := mkSqWorld (bw_BlockSequence w) (bw_Dev w) (bw_Env w) (bw_Trace w).
Definition put_records (r : rs_world D P) (w : bs_world) : bs_world :=
  mkBsWorld (bw_Self w) (rw_Self r) (bw_BlockSequence w) (rw_Dev r) (rw_Pol r) (bw_Env w) (bw_Trace w).
Definition put_sequence (q : sq_world D W) (w : bs_world) : bs_world :=
  mkBsWorld (bw_Self w) (bw_RecordStore w) (sw_Self q) (sw_Dev q) (bw_Pol w) (sw_Env q) (sw_Trace q).
Definition bs_records {A} (m : ST (rs_world D P) A) : bs_op A := zoom records_part put_records m.
Definition bs_sequence {A} (m : ST (sq_world D W) A) : bs_op A := zoom sequence_part put_sequence m.
Definition bs_get {A} (f : SolidSyslogBlockStore -> A) : bs_op A := st_get (fun w => f (bw_Self w)).
Definition bs_set (f : SolidSyslogBlockStore -> SolidSyslogBlockStore) : bs_op unit := st_mod (fun w => w <| bw_Self := f (bw_Self w) |>).
Definition bs_ask {A} (f : SolidSyslogBlockSequence W -> A) : bs_op A := st_get (fun w => f (bw_BlockSequence w)).

Definition BlockStore_Report (severity category code : Z) : bs_op unit :=
  st_mod (fun w => w <| bw_Trace := bw_Trace w ++ [store_raised severity category code] |>).

Definition SolidSyslogBlockStore_Cleanup : bs_op unit := bs_set (fun s => s <| st_Base := NullStoreVtable |>).
Definition BlockStore_InitialiseVtable : bs_op unit := bs_set (fun s => s <| st_Base := BlockStoreVtable |>).

Definition BlockStore_Freeze (failedOperation : Z) : bs_op unit :=
  BlockStore_Report SOLIDSYSLOG_SEVERITY_ERROR SOLIDSYSLOG_CAT_STORE_FROZEN failedOperation ;;;
  SolidSyslogBlockStore_Cleanup.
Definition BlockStore_FreezeIfDeviceFailed : bs_op bool :=
  let! failed := bs_ask SolidSyslogBlockSequence_DeviceFailed in
  if! failed then
    let! failedOperation := bs_ask SolidSyslogBlockSequence_FailedOperation in BlockStore_Freeze failedOperation
  end! ;;;
  st_ret failed.

(** ** Reports of runs *)

Definition BlockStore_ReportRefusal : bs_op unit :=
  let! reported := bs_get st_RefusalReported in
  if! negb reported then
    BlockStore_Report SOLIDSYSLOG_SEVERITY_WARNING SOLIDSYSLOG_CAT_STORE_RECORDS_LOST SOLIDSYSLOG_BLOCK_STORE_ERROR_RECORD_REFUSED ;;;
    bs_set (fun s => s <| st_RefusalReported := true |>)
  end!.
Definition BlockStore_ReportEviction : bs_op unit :=
  let! evicted := bs_ask SolidSyslogBlockSequence_EvictedUnsent in
  let! reported := bs_get st_EvictionReported in
  if negb evicted then bs_set (fun s => s <| st_EvictionReported := false |>)
  else if! negb reported then
    BlockStore_Report SOLIDSYSLOG_SEVERITY_WARNING SOLIDSYSLOG_CAT_STORE_RECORDS_LOST SOLIDSYSLOG_BLOCK_STORE_ERROR_BLOCK_EVICTED ;;;
    bs_set (fun s => s <| st_EvictionReported := true |>)
  end!.
Definition BlockStore_ReportSealFailed : bs_op unit :=
  let! reported := bs_get st_SealFailureReported in
  if! negb reported then
    BlockStore_Report SOLIDSYSLOG_SEVERITY_ERROR SOLIDSYSLOG_CAT_STORE_WRITE_FAILED SOLIDSYSLOG_BLOCK_STORE_ERROR_SEAL_FAILED ;;;
    bs_set (fun s => s <| st_SealFailureReported := true |>)
  end!.
Definition BlockStore_ReportLoss (fault : Z) : bs_op unit :=
  let! reported := bs_get st_LossReported in
  if! negb reported then
    BlockStore_Report SOLIDSYSLOG_SEVERITY_ERROR SOLIDSYSLOG_CAT_STORE_RECORD_DISCARDED fault ;;;
    bs_set (fun s => s <| st_LossReported := true |>)
  end!.

(** ** Moving past what cannot be sent *)

Definition BlockStore_ReadNextBlockIfBehind : bs_op bool :=
  let! behind := bs_ask SolidSyslogBlockSequence_ReadIsBehindWrite in
  if behind then
    bs_sequence SolidSyslogBlockSequence_LeaveReadBlock ;;;
    bs_records SolidSyslogRecordStore_ForgetLastRead ;;;
    let! frozen := BlockStore_FreezeIfDeviceFailed in
    st_ret (negb frozen)
  else st_ret false.

Definition BlockStore_AbandonRestOfReadBlock : bs_op bool :=
  let! movedOn := BlockStore_ReadNextBlockIfBehind in
  let! failed := bs_ask SolidSyslogBlockSequence_DeviceFailed in
  if! negb failed then
    BlockStore_ReportLoss SOLIDSYSLOG_BLOCK_STORE_ERROR_RECORD_CORRUPT ;;;
    if! negb movedOn then
      let! writePosition := bs_ask sq_WritePosition in
      bs_sequence (SolidSyslogBlockSequence_SetReadCursor writePosition) ;;;
      bs_sequence SolidSyslogBlockSequence_MarkWriteBlockCorrupt
    end!
  end! ;;;
  st_ret movedOn.

Definition BlockStore_StepPastCurrent : bs_op bool :=
  let! cursor := bs_records SolidSyslogRecordStore_StepPastLastRead in
  bs_sequence (SolidSyslogBlockSequence_SetReadCursor cursor) ;;;
  st_ret true.
Definition BlockStore_StepPastRejected : bs_op bool :=
  BlockStore_ReportLoss SOLIDSYSLOG_BLOCK_STORE_ERROR_RECORD_REJECTED ;;;
  BlockStore_StepPastCurrent.
Definition BlockStore_StepPast (result : SolidSyslogRecordStoreReadResult) : bs_op bool :=
  match result with
  | SOLIDSYSLOG_RECORD_STORE_READ_REJECTED => BlockStore_StepPastRejected
  | SOLIDSYSLOG_RECORD_STORE_READ_FINISHED_WITH => BlockStore_StepPastCurrent
  | SOLIDSYSLOG_RECORD_STORE_READ_END_OF_DATA => BlockStore_ReadNextBlockIfBehind
  | SOLIDSYSLOG_RECORD_STORE_READ_CORRUPT => BlockStore_AbandonRestOfReadBlock
  | _ => st_ret false
  end.

(** ** Starting *)

Definition BlockStore_ScanReadBlock : bs_op SolidSyslogRecordStoreScanResult :=
  let! r := bs_sequence SolidSyslogBlockSequence_ReadBlockSize in
  let '(known, readBlockSize) := r in
  if known : bool then
    let! readSequence := bs_ask sq_ReadSequence in
    let! f := bs_records (SolidSyslogRecordStore_FindFirstUnsent readSequence readBlockSize) in
    let '(cursor, scanned) := f in
    bs_sequence (SolidSyslogBlockSequence_SetReadCursor cursor) ;;;
    match scanned with
    | SOLIDSYSLOG_RECORD_STORE_SCAN_DEVICE_FAILED => BlockStore_Freeze SOLIDSYSLOG_BLOCK_STORE_ERROR_READ_FAILED
    | _ => st_ret tt
    end ;;;
    st_ret scanned
  else
    BlockStore_Freeze SOLIDSYSLOG_BLOCK_STORE_ERROR_SIZE_FAILED ;;;
    st_ret SOLIDSYSLOG_RECORD_STORE_SCAN_DEVICE_FAILED.

Definition BlockStore_CheckWriteBlock : bs_op unit :=
  let! from := bs_ask (fun s => if SolidSyslogBlockSequence_ReadIsBehindWrite s then 0 else sq_ReadCursor s) in
  let! writeSequence := bs_ask sq_WriteSequence in
  let! writePosition := bs_ask sq_WritePosition in
  let! scanned := bs_records (SolidSyslogRecordStore_ScanToEnd writeSequence from writePosition) in
  match scanned with
  | SOLIDSYSLOG_RECORD_STORE_SCAN_DEVICE_FAILED => BlockStore_Freeze SOLIDSYSLOG_BLOCK_STORE_ERROR_READ_FAILED
  | SOLIDSYSLOG_RECORD_STORE_SCAN_CORRUPT => bs_sequence SolidSyslogBlockSequence_MarkWriteBlockCorrupt
  | SOLIDSYSLOG_RECORD_STORE_SCAN_CLEAN => st_ret tt
  end.

(** [while (scanned == CORRUPT && Abandon())]: a turn that goes on leaves a block of
    the hundred behind. *)
Definition resume_step (scanned : SolidSyslogRecordStoreScanResult) : bs_op (bool * SolidSyslogRecordStoreScanResult) :=
  match scanned with
  | SOLIDSYSLOG_RECORD_STORE_SCAN_CORRUPT =>
      let! movedOn := BlockStore_AbandonRestOfReadBlock in
      if movedOn : bool then let! scanned := BlockStore_ScanReadBlock in st_ret (true, scanned) else st_ret (false, scanned)
  | _ => st_ret (false, scanned)
  end.
Definition BlockStore_ResumeFromExistingBlock : bs_op unit :=
  let! scanned := BlockStore_ScanReadBlock in
  let! scanned := loopM (S (Z.to_nat BLOCK_SEQUENCE_MODULUS)) resume_step scanned in
  let! failed := bs_ask SolidSyslogBlockSequence_DeviceFailed in
  match scanned with
  | SOLIDSYSLOG_RECORD_STORE_SCAN_DEVICE_FAILED => st_ret tt
  | _ => if! negb failed then BlockStore_CheckWriteBlock end!
  end.

Definition SolidSyslogBlockStore_Initialise : bs_op unit :=
  bs_set (fun s => s <| st_LossReported := false |> <| st_RefusalReported := false |>
                     <| st_EvictionReported := false |> <| st_SealFailureReported := false |>) ;;;
  BlockStore_InitialiseVtable ;;;
  let! opened := bs_sequence SolidSyslogBlockSequence_Open in
  if opened : bool then BlockStore_ResumeFromExistingBlock
  else let! failedOperation := bs_ask SolidSyslogBlockSequence_FailedOperation in BlockStore_Freeze failedOperation.

(** ** Writing *)

Definition BlockStore_StoreRecord (data : bytes) (size : Z) : bs_op SolidSyslogStoreWriteResult :=
  let recordSize := SolidSyslogRecordStore_RecordSize (P := P) (u16 size) in
  let! r := bs_sequence (SolidSyslogBlockSequence_PrepareForWrite recordSize) in
  let '(prepared, readBlockChanged) := r in
  let! frozen := BlockStore_FreezeIfDeviceFailed in
  if frozen : bool then st_ret SOLIDSYSLOG_STORE_WRITE_NOT_RETAINED
  else if negb prepared then BlockStore_ReportRefusal ;;; st_ret SOLIDSYSLOG_STORE_WRITE_NOT_RETAINED
  else
    BlockStore_ReportEviction ;;;
    if! readBlockChanged then bs_records SolidSyslogRecordStore_ForgetLastRead end! ;;;
    let! writeSequence := bs_ask sq_WriteSequence in
    let! appended := bs_records (SolidSyslogRecordStore_Append writeSequence data size) in
    match appended with
    | SOLIDSYSLOG_RECORD_STORE_APPEND_SUCCEEDED =>
        bs_sequence (SolidSyslogBlockSequence_NoteRecordWritten recordSize) ;;;
        bs_set (fun s => s <| st_RefusalReported := false |> <| st_SealFailureReported := false |>) ;;;
        st_ret SOLIDSYSLOG_STORE_WRITE_KEPT
    | SOLIDSYSLOG_RECORD_STORE_APPEND_DEVICE_FAILED =>
        BlockStore_Freeze SOLIDSYSLOG_BLOCK_STORE_ERROR_APPEND_FAILED ;;;
        st_ret SOLIDSYSLOG_STORE_WRITE_NOT_RETAINED
    | SOLIDSYSLOG_RECORD_STORE_APPEND_SEAL_FAILED =>
        BlockStore_ReportSealFailed ;;;
        st_ret SOLIDSYSLOG_STORE_WRITE_LOST
    end.
Definition BlockStore_Write (data : bytes) (size : Z) : bs_op SolidSyslogStoreWriteResult :=
  if 0 <? size then BlockStore_StoreRecord data size else st_ret SOLIDSYSLOG_STORE_WRITE_NOT_RETAINED.

(** ** Reading *)

(** The reader's memory and [*bytesRead], with what the last read met. *)
Record read_state := mkReadState { rd_result : SolidSyslogRecordStoreReadResult; rd_data : bytes; rd_bytesRead : Z }.
(** A read that is not tried, or that gives no record, leaves both; a read of a record
    sets both. *)
Definition BlockStore_ReadCurrent (maxSize : Z) (data : bytes) (bytesRead : Z) : bs_op read_state :=
  let! r := bs_sequence SolidSyslogBlockSequence_ReadBlockSize in
  let '(known, readBlockSize) := r in
  if known : bool then
    let! readSequence := bs_ask sq_ReadSequence in
    let! readCursor := bs_ask sq_ReadCursor in
    let! r := bs_records (SolidSyslogRecordStore_Read readSequence readCursor readBlockSize data maxSize) in
    let '(result, data, bytesRead) := r in
    st_ret (mkReadState result data bytesRead)
  else st_ret (mkReadState SOLIDSYSLOG_RECORD_STORE_READ_DEVICE_FAILED data bytesRead).
Definition read_step (maxSize : Z) (r : read_state) : bs_op (bool * read_state) :=
  let! stepped := BlockStore_StepPast (rd_result r) in
  if stepped : bool then
    let! r := BlockStore_ReadCurrent maxSize (rd_data r) (rd_bytesRead r) in st_ret (true, r)
  else st_ret (false, r).
(** A turn that goes on passes a byte of a block, or leaves a block. *)
Definition read_rounds (s : SolidSyslogBlockSequence W) : nat :=
  S (Z.to_nat (BlockSequence_BlockCount s * (sq_MaxBlockSize s + 1))).
Definition BlockStore_ReadNextUnsent (data : bytes) (maxSize : Z) : bs_op (bool * bytes * Z) :=
  let bytesRead := 0 in
  let! unsent := bs_ask SolidSyslogBlockSequence_HasUnsent in
  if unsent then
    let! r := BlockStore_ReadCurrent maxSize data bytesRead in
    let! rounds := bs_ask read_rounds in
    let! r := loopM rounds (read_step maxSize) r in
    match rd_result r with
    | SOLIDSYSLOG_RECORD_STORE_READ_SUCCEEDED => bs_set (fun s => s <| st_LossReported := false |>)
    | SOLIDSYSLOG_RECORD_STORE_READ_DEVICE_FAILED =>
        let! frozen := BlockStore_FreezeIfDeviceFailed in
        if! negb frozen then BlockStore_Freeze SOLIDSYSLOG_BLOCK_STORE_ERROR_READ_FAILED end!
    | _ => st_ret tt
    end ;;;
    st_ret (0 <? rd_bytesRead r, rd_data r, rd_bytesRead r)
  else st_ret (0 <? bytesRead, data, bytesRead).

(** ** Marking and asking *)

Definition BlockStore_MarkSent : bs_op unit :=
  let! r := bs_records (SolidSyslogRecordStore_MarkLastReadAsSent 0) in
  let '(marked, nextCursor) := r in
  match marked with
  | SOLIDSYSLOG_RECORD_STORE_MARK_DEVICE_FAILED => BlockStore_Freeze SOLIDSYSLOG_BLOCK_STORE_ERROR_MARK_SENT_FAILED
  | SOLIDSYSLOG_RECORD_STORE_MARK_SUCCEEDED =>
      bs_sequence (SolidSyslogBlockSequence_SetReadCursor nextCursor) ;;;
      let! readBlockChanged := bs_sequence SolidSyslogBlockSequence_DisposeReadBlockIfDrained in
      let! frozen := BlockStore_FreezeIfDeviceFailed in
      if! negb frozen && readBlockChanged then bs_records SolidSyslogRecordStore_ForgetLastRead end!
  | SOLIDSYSLOG_RECORD_STORE_MARK_NOTHING_READ => st_ret tt
  end.

Definition BlockStore_HasUnsent : bs_op bool := bs_ask SolidSyslogBlockSequence_HasUnsent.
Definition BlockStore_GetTotalBytes : bs_op Z := bs_ask SolidSyslogBlockSequence_TotalBytes.
Definition BlockStore_GetUsedBytes : bs_op Z := bs_ask SolidSyslogBlockSequence_UsedBytes.
Definition BlockStore_IsTransient : bs_op bool := st_ret false.

(** The calls go through the table the store has at the time. *)
Definition dispatch {A} (own null : bs_op A) : bs_op A :=
  let! base := bs_get st_Base in match base with BlockStoreVtable => own | NullStoreVtable => null end.
#[export] Instance BlockStore_vtable : SolidSyslogStore bs_world := {
  SolidSyslogStore_Write := fun data size => dispatch (BlockStore_Write data size) (NullStore_Write data size);
  SolidSyslogStore_ReadNextUnsent := fun data maxSize =>
    dispatch (BlockStore_ReadNextUnsent data maxSize) (NullStore_ReadNextUnsent data maxSize);
  SolidSyslogStore_MarkSent := dispatch BlockStore_MarkSent NullStore_MarkSent;
  SolidSyslogStore_HasUnsent := dispatch BlockStore_HasUnsent NullStore_HasUnsent;
  SolidSyslogStore_GetTotalBytes := dispatch BlockStore_GetTotalBytes NullStore_GetTotalBytes;
  SolidSyslogStore_GetUsedBytes := dispatch BlockStore_GetUsedBytes NullStore_GetUsedBytes;
  SolidSyslogStore_IsTransient := dispatch BlockStore_IsTransient NullStore_IsTransient
}.
End block_store.
Arguments bs_world : clear implicits.

(** * What a block holds

    A block of a store is a run of records marked sent, then records still to send,
    and at its end, if an append was cut short there, the torn beginning of one. *)

Section contents.
Context {P : Type} `{HP : SecurityPolicy P, HPS : !SecurityPolicySpec P}.
Implicit Types (b data rec : bytes) (q : list bytes) (c n len : Z) (whole : bool).

Definition is_message (m : bytes) : Prop := 0 < lenZ m <= SOLIDSYSLOG_MAX_MESSAGE_SIZE /\ all_bytes m.

(** From [c] on, the block is records of the messages [q]; [whole] is whether
    nothing torn comes after them. *)
Inductive records_at b : Z -> list bytes -> bool -> Prop :=
| at_end : records_at b (lenZ b) [] true
| at_tear c len : 0 <= c -> extent_verdict b c (lenZ b) = (SOLIDSYSLOG_RECORD_STORE_READ_CORRUPT, len) -> records_at b c [] false
| at_record c pre data rec post q whole :
    b = pre ++ rec ++ post -> lenZ pre = c -> is_message data -> sealed_record data rec ->
    records_at b (c + rsize (lenZ data)) q whole -> records_at b c (data :: q) whole.

Lemma verdict_corrupt_inside b c n len : extent_verdict b c n = (SOLIDSYSLOG_RECORD_STORE_READ_CORRUPT, len) -> c < n.
Proof using. unfold extent_verdict. destruct (Z.leb_spec n c); [done | lia]. Qed.
Lemma message_rsize m : is_message m -> 6 <= rsize (lenZ m) <= RECORD_BUFFER_SIZE.
Proof using HPS. intros [Hm _]. pose proof (rsize_bound (lenZ m) ltac:(lia)). unfold rsize in *. pose proof TrailerSize_bound. lia. Qed.
Lemma records_range b c q whole : records_at b c q whole -> 0 <= c <= lenZ b.
Proof using HPS.
  induction 1 as [| c len Hc Hv | c pre data rec post q whole Hb Hc Hm Hs Hr IH].
  - pose proof (lenZ_nonneg b). lia.
  - apply verdict_corrupt_inside in Hv. lia.
  - pose proof (lenZ_nonneg pre). pose proof (message_rsize _ Hm). lia.
Qed.
Lemma sealed_record_bytes data rec : sealed_record data rec -> is_message data -> all_bytes rec.
Proof using HPS.
  intros (r & p & Ec & _ & Et & Es & ->) [[Hd Hd'] Hb].
  assert (Hc : all_bytes (sr_Content r)).
  { rewrite Ec. apply Forall_app. split; [| done]. unfold SOLIDSYSLOG_MAX_MESSAGE_SIZE in Hd'.
    repeat (apply Forall_cons_2; [unfold is_byte, MAGIC_BYTE_0, MAGIC_BYTE_1; try lia; Z.to_euclidean_division_equations; lia |]). apply Forall_nil_2. }
  destruct (Seal_bytes r p Et Hc Es) as [H1 H2].
  apply Forall_app. split; [done |]. apply Forall_app. split; [done |]. by repeat constructor.
Qed.

(** ** What a verdict depends on *)

Lemma verdict_ext b b' c n n' len :
  n <= n' -> (forall i, c <= i < c + 4 -> i < n -> b'.[i] = b.[i]) ->
  extent_verdict b c n = (SOLIDSYSLOG_RECORD_STORE_READ_SUCCEEDED, len) ->
  extent_verdict b' c n' = (SOLIDSYSLOG_RECORD_STORE_READ_SUCCEEDED, len).
Proof using.
  intros Hn He. rewrite !verdict_succeeded. unfold header_length. intros (H1 & H2 & H3 & H4 & H5 & H6).
  rewrite !He by lia. split_and!; try done; lia.
Qed.
Lemma verdict_same b b' c n res len :
  (forall i, c <= i < n -> b'.[i] = b.[i]) -> extent_verdict b c n = (res, len) -> extent_verdict b' c n = (res, len).
Proof using.
  intros He. unfold extent_verdict, header_length. destruct (Z.leb_spec n c); [done |].
  destruct (Z.ltb_spec n (c + 4)); [done |]. rewrite (He c), (He (c + 1)), (He (c + 2)), (He (c + 3)) by lia. done.
Qed.
Lemma nthZ_from b b' c i : dropZ c b' = dropZ c b -> 0 <= c <= i -> b'.[i] = b.[i].
Proof using.
  intros He Hi. replace i with (c + (i - c)) by lia. rewrite <- !nthZ_dropZ by lia. by rewrite He.
Qed.
Lemma nthZ_upto b b' c i : takeZ c b' = takeZ c b -> 0 <= i < c -> b'.[i] = b.[i].
Proof using.
  intros He Hi. rewrite <- (nthZ_takeZ b' c i), <- (nthZ_takeZ b c i) by lia. by rewrite He.
Qed.

(** ** Records to send *)

Lemma records_suffix b b' c q whole :
  records_at b c q whole -> lenZ b' = lenZ b -> dropZ c b' = dropZ c b -> records_at b' c q whole.
Proof using HPS.
  induction 1 as [| c len Hc Hv | c pre data rec post q whole Hb Hc Hm Hs Hr IH]; intros Hl Hd.
  - rewrite <- Hl. constructor.
  - econstructor; [done |]. rewrite Hl. eapply verdict_same; [| done]. intros i Hi. eapply nthZ_from; [done | lia].
  - pose proof (lenZ_nonneg pre). pose proof (message_rsize _ Hm).
    apply at_record with (pre := takeZ c b') (rec := rec) (post := post); try done.
    + rewrite <- (takeZ_dropZ c b') at 1. f_equal. rewrite Hd, Hb, <- Hc, dropZ_app_ge by lia. by rewrite Z.sub_diag.
    + rewrite lenZ_takeZ; [done |]. rewrite Hl, Hb, lenZ_app, <- Hc. pose proof (lenZ_nonneg (rec ++ post)). lia.
    + apply IH; [done |]. rewrite <- !(dropZ_dropZ (rsize (lenZ data)) c) by lia. by rewrite Hd.
Qed.
Lemma records_append b c q data rec :
  records_at b c q true -> is_message data -> sealed_record data rec -> records_at (b ++ rec) c (q ++ [data]) true.
Proof using HPS.
  intros Hr Hm Hs. remember true as whole eqn:Ew. induction Hr as [| c len Hc Hv | c pre d r post q whole Hb Hc Hm' Hs' Hr IH].
  - apply at_record with (pre := b) (rec := rec) (post := []); [by rewrite app_nil_r | done | done | done |].
    rewrite <- (sealed_record_len _ _ Hs), <- lenZ_app. constructor.
  - done.
  - apply at_record with (pre := pre) (rec := r) (post := post ++ rec); try done.
    + by rewrite Hb, <- !app_assoc.
    + by apply IH.
Qed.
Lemma records_tear b c q data rec part rest :
  records_at b c q true -> is_message data -> sealed_record data rec -> rec = part ++ rest -> part <> [] -> rest <> [] ->
  records_at (b ++ part) c q false.
Proof using HPS.
  intros Hr Hm Hs Ep Hp Hrest. remember true as whole eqn:Ew. induction Hr as [| c len Hc Hv | c pre d r post q whole Hb Hc Hm' Hs' Hr IH].
  - destruct Hm as [Hm _]. destruct (torn_verdict data rec part rest b Hs Hm Ep Hp Hrest) as [len Hv].
    eapply at_tear; [apply lenZ_nonneg | exact Hv].
  - done.
  - apply at_record with (pre := pre) (rec := r) (post := post ++ part); try done.
    + by rewrite Hb, <- !app_assoc.
    + by apply IH.
Qed.
Lemma records_verdict b c data q whole : records_at b c (data :: q) whole ->
  extent_verdict b c (lenZ b) = (SOLIDSYSLOG_RECORD_STORE_READ_SUCCEEDED, lenZ data) /\
  RecordStore_FlagMarksSentOrDiscarded (stored_flag b c (lenZ data)) = false /\
  is_message data /\ records_at b (c + rsize (lenZ data)) q whole.
Proof using HPS.
  inversion 1 as [| | c' pre d rec post q' whole' Hb Hc Hm Hs Hr]; subst c' d q' whole'.
  destruct Hm as [Hm Hm']. pose proof (sealed_record_len _ _ Hs) as Hl.
  assert (Hle : lenZ b = lenZ pre + rsize (lenZ data) + lenZ post) by (rewrite Hb, !lenZ_app; lia). pose proof (lenZ_nonneg post).
  destruct (sealed_parts data rec Hs Hm pre post (lenZ b) ltac:(apply lenZ_nonneg) ltac:(lia)) as (Hv & Hf & _).
  rewrite <- Hb, Hc in Hv, Hf. done.
Qed.
Lemma records_whole b c q c' : records_at b c q false -> whole_records b (lenZ b) c c' -> c' < lenZ b.
Proof using HPS.
  intros Hr. remember false as whole eqn:Ew. revert c'. induction Hr as [| c len Hc Hv | c pre d r post q whole Hb Hc Hm Hs Hr IH]; intros c' Hw.
  - done.
  - inversion Hw as [| ? len' ? Hv']; subst; [by apply verdict_corrupt_inside in Hv | congruence].
  - subst whole. assert (Hall : records_at b c (d :: q) false) by (by eapply at_record).
    destruct (records_verdict _ _ _ _ _ Hall) as (Hv & _). pose proof (records_range _ _ _ _ Hr). pose proof (message_rsize _ Hm).
    inversion Hw as [| ? len' ? Hv' Hw']; subst c'; [lia |]. rewrite Hv in Hv'. injection Hv' as <-. by apply IH.
Qed.

(** ** Records sent *)

Lemma flag_ext b b' c len n :
  extent_verdict b c n = (SOLIDSYSLOG_RECORD_STORE_READ_SUCCEEDED, len) -> b'.[c + rsize len - 1] = b.[c + rsize len - 1] ->
  stored_flag b' c len = stored_flag b c len.
Proof using. intros _ He. unfold stored_flag, rsize in *. replace (c + 4 + len + sp_TrailerSize) with (c + (4 + len + sp_TrailerSize + 1) - 1) by lia. done. Qed.
Lemma sent_prefix_ext b b' n n' c :
  sent_prefix b n c -> n <= n' -> takeZ c b' = takeZ c b -> sent_prefix b' n' c.
Proof using HPS.
  intros Hp Hn. induction Hp as [| c len Hp IH Hv Hf]; intros He; [constructor |].
  pose proof Hv as Hvs. apply verdict_succeeded in Hvs as (_ & _ & _ & _ & Hl & Hle).
  pose proof (rsize_bound len ltac:(lia)). assert (Hc : 0 <= c) by (clear - Hp HPS; induction Hp as [| c len Hp IH Hv]; [lia |]; apply verdict_succeeded in Hv; pose proof (rsize_bound len); lia).
  apply sent_next.
  - apply IH. rewrite <- (Z.min_l c (c + rsize len)), <- !takeZ_takeZ by lia. by rewrite He.
  - eapply verdict_ext; [exact Hn | | exact Hv]. intros i Hi _. apply (nthZ_upto _ _ _ _ He). lia.
  - erewrite flag_ext; [exact Hf | exact Hv |]. apply (nthZ_upto _ _ _ _ He). lia.
Qed.
Lemma sent_prefix_mark b c data q whole :
  sent_prefix b (lenZ b) c -> records_at b c (data :: q) whole ->
  let b' := spliceZ b (c + rsize (lenZ data) - 1) [SENT_FLAG_SENT] in
  lenZ b' = lenZ b /\ sent_prefix b' (lenZ b') (c + rsize (lenZ data)) /\ records_at b' (c + rsize (lenZ data)) q whole.
Proof using HPS.
  intros Hp Hr b'. destruct (records_verdict _ _ _ _ _ Hr) as (Hv & _ & Hm & Hr'). pose proof (records_range _ _ _ _ Hr) as Hc.
  pose proof (records_range _ _ _ _ Hr') as Hc'. pose proof (message_rsize _ Hm) as Hs. set (k := c + rsize (lenZ data) - 1) in *.
  assert (Hl : lenZ b' = lenZ b) by (apply lenZ_spliceZ; change (lenZ [SENT_FLAG_SENT]) with 1; lia).
  assert (Htk : takeZ k b' = takeZ k b).
  { unfold b', spliceZ. rewrite takeZ_app_le, takeZ_takeZ, Z.min_id; [done | rewrite lenZ_takeZ; lia]. }
  split; [done |]. rewrite Hl. split; [apply sent_next |].
  - eapply sent_prefix_ext; [done | lia |]. rewrite <- (Z.min_l c k), <- !takeZ_takeZ by lia. by rewrite Htk.
  - eapply verdict_ext; [apply Z.le_refl | | exact Hv]. intros i Hi _. apply (nthZ_upto _ _ _ _ Htk). lia.
  - unfold stored_flag. replace (c + 4 + lenZ data + sp_TrailerSize) with k by (unfold k, rsize; lia).
    unfold b', spliceZ. rewrite nthZ_app_r; rewrite lenZ_takeZ; [| lia ..]. rewrite Z.sub_diag. done.
  - eapply records_suffix; [done | done |]. unfold b', spliceZ. rewrite dropZ_app_ge; rewrite lenZ_takeZ; [| lia ..].
    rewrite dropZ_app_ge; change (lenZ [SENT_FLAG_SENT]) with 1; [| lia].
    replace (c + rsize (lenZ data) - k - 1) with 0 by lia. rewrite dropZ_0. f_equal. lia.
Qed.

(** ** The scan at a start *)

Inductive sent_steps b n : nat -> Z -> Prop :=
| steps_none : sent_steps b n 0 0
| steps_next k c len :
    sent_steps b n k c -> extent_verdict b c n = (SOLIDSYSLOG_RECORD_STORE_READ_SUCCEEDED, len) ->
    RecordStore_FlagMarksSentOrDiscarded (stored_flag b c len) = true -> sent_steps b n (S k) (c + rsize len).
Definition stops_at b n c : Prop := forall len,
  extent_verdict b c n = (SOLIDSYSLOG_RECORD_STORE_READ_SUCCEEDED, len) ->
  RecordStore_FlagMarksSentOrDiscarded (stored_flag b c len) = false.
Lemma sent_prefix_steps b n c : sent_prefix b n c -> exists k, sent_steps b n k c.
Proof using. induction 1 as [| c len _ [k IH] Hv Hf]; [exists 0%nat; constructor | exists (S k); by constructor]. Qed.
Lemma sent_steps_det b n k : forall c c', sent_steps b n k c -> sent_steps b n k c' -> c = c'.
Proof using.
  induction k as [| k IH]; intros c c' H1 H2; inversion H1 as [| ? c1 l1 Hs1 Hv1]; inversion H2 as [| ? c2 l2 Hs2 Hv2]; subst; [done |].
  assert (c1 = c2) as <- by (by apply IH). congruence.
Qed.
Lemma sent_steps_stop b n k c : sent_steps b n k c -> stops_at b n c -> forall k' c', sent_steps b n k' c' -> (k' <= k)%nat.
Proof using.
  intros H1 Hs k' c' H2. revert c k H1 Hs. induction H2 as [| k' c' len H2 IH Hv Hf]; intros c k H1 Hs; [lia |].
  pose proof (IH c k H1 Hs) as Hle. destruct (Nat.eq_dec k' k) as [-> |]; [| lia].
  assert (c' = c) as -> by (by eapply sent_steps_det). specialize (Hs len Hv). congruence.
Qed.
Lemma sent_prefix_unique b n c c' : sent_prefix b n c -> sent_prefix b n c' -> stops_at b n c -> stops_at b n c' -> c = c'.
Proof using.
  intros [k H1]%sent_prefix_steps [k' H2]%sent_prefix_steps S1 S2.
  pose proof (sent_steps_stop _ _ _ _ H1 S1 _ _ H2). pose proof (sent_steps_stop _ _ _ _ H2 S2 _ _ H1).
  assert (k = k') as <- by lia. by eapply sent_steps_det.
Qed.
Lemma records_stop b c q whole : records_at b c q whole -> stops_at b (lenZ b) c.
Proof using HPS.
  intros Hr len Hv. destruct q as [| data q].
  - inversion Hr; subst; [| congruence]. unfold extent_verdict in Hv. by rewrite Z.leb_refl in Hv.
  - destruct (records_verdict _ _ _ _ _ Hr) as (Hv' & Hf & _). congruence.
Qed.

(** A scan of a block finds the first record still to send, or the tear, or the end. *)
Lemma scan_finds b c q whole cursor s :
  sent_prefix b (lenZ b) c -> records_at b c q whole -> scan_result b (lenZ b) cursor s ->
  match s with
  | SOLIDSYSLOG_RECORD_STORE_SCAN_CLEAN => cursor = c /\ (q = [] -> whole = true)
  | SOLIDSYSLOG_RECORD_STORE_SCAN_CORRUPT => cursor = lenZ b /\ q = [] /\ whole = false
  | SOLIDSYSLOG_RECORD_STORE_SCAN_DEVICE_FAILED => True
  end.
Proof using HPS.
  intros Hp Hr Hs. pose proof (records_stop _ _ _ _ Hr) as Hst. pose proof (lenZ_nonneg b) as Hb0.
  assert (Hq : forall data q', q = data :: q' -> extent_verdict b c (lenZ b) = (SOLIDSYSLOG_RECORD_STORE_READ_SUCCEEDED, lenZ data)).
  { intros data q' ->. by destruct (records_verdict _ _ _ _ _ Hr). }
  inversion Hs as [c' Hp' Hle | c' len Hp' Hv Hf | c' len Hp' Hv |]; subst; [| | | done].
  - assert (cursor = c) as -> ; [| split; [done |]].
    { eapply sent_prefix_unique; try done. intros len Hv. apply verdict_succeeded in Hv. lia. }
    intros ->. inversion Hr as [| c1 len Hc Hv |]; subst; [done |]. apply verdict_corrupt_inside in Hv. lia.
  - assert (cursor = c) as ->; [| split; [done |]].
    { eapply sent_prefix_unique; try done. intros len' Hv'. congruence. }
    intros ->. inversion Hr as [| c1 len' Hc Hv' |]; subst; [done |]. congruence.
  - assert (c' = c) as ->. { eapply sent_prefix_unique; try done. intros len' Hv'. congruence. }
    destruct q as [| data q]; [| by rewrite (Hq data q eq_refl) in Hv].
    inversion Hr; subst; [| done]. by apply verdict_corrupt_inside, Z.lt_irrefl in Hv.
Qed.
End contents.

(** * What a run of blocks holds *)

Section runs.
Context {P : Type} `{HP : SecurityPolicy P, HPS : !SecurityPolicySpec P}.
Implicit Types (blk : Z -> bytes) (l : list Z) (q : list bytes) (c : Z) (whole closed : bool).

(** The messages a run of blocks has still to send, from [c] in its first block on.
    Only a closed run may end in a tear: it is not appended to. *)
Inductive run_holds blk closed : list Z -> Z -> list bytes -> Prop :=
| holds_last i c q whole : records_at (blk i) c q whole -> (whole = false -> closed = true) -> run_holds blk closed [i] c q
| holds_more i l c q1 q2 whole : records_at (blk i) c q1 whole -> run_holds blk closed l 0 q2 -> run_holds blk closed (i :: l) c (q1 ++ q2).

Lemma run_holds_ext blk blk' closed l c q :
  run_holds blk closed l c q -> (forall j, j ∈ l -> blk' j = blk j) -> run_holds blk' closed l c q.
Proof using.
  induction 1 as [i c q whole Hr Hw | i l c q1 q2 whole Hr Hl IH]; intros He.
  - apply holds_last with whole; [| done]. by rewrite He by apply list_elem_of_here.
  - apply holds_more with whole; [by rewrite He by apply list_elem_of_here |].
    apply IH. intros j Hj. apply He. by apply list_elem_of_further.
Qed.
Lemma run_holds_closed blk l c q : run_holds blk false l c q -> run_holds blk true l c q.
Proof using. induction 1; [by eapply holds_last | by eapply holds_more]. Qed.
Lemma run_holds_new blk closed l c q n :
  run_holds blk closed l c q -> blk n = [] -> run_holds blk false (l ++ [n]) c q.
Proof using.
  intros Hr En. assert (Hn : run_holds blk false [n] 0 []).
  { apply holds_last with true; [| done]. rewrite En. exact (at_end []). }
  induction Hr as [i c q whole Hr Hw | i l c q1 q2 whole Hr Hl IH].
  - rewrite <- (app_nil_r q). by apply holds_more with whole.
  - by apply holds_more with whole.
Qed.
(** An open run takes a record at its end, or the torn part of one. *)
Lemma run_holds_write blk blk' closed front wr c q data rec part rest :
  run_holds blk false (front ++ [wr]) c q -> is_message data -> sealed_record data rec -> rec = part ++ rest ->
  (forall j, j ∈ front -> blk' j = blk j) -> blk' wr = blk wr ++ part ->
  (rest <> [] -> closed = true) -> (rest = [] -> closed = false) ->
  run_holds blk' closed (front ++ [wr]) c (if decide (rest = []) then q ++ [data] else q).
Proof using HPS.
  intros Hr Hm Hs Ep Hf Hw Hc1 Hc2. remember (front ++ [wr]) as l eqn:El. revert front El Hf.
  induction Hr as [i c q whole Hr Hcl | i l c q1 q2 whole Hr Hl IH]; intros front El Hf.
  - destruct front as [| f0 front]; [| by destruct front]. injection El as ->.
    destruct whole; [| by specialize (Hcl eq_refl)]. destruct (decide (rest = [])) as [-> | Hrest].
    + rewrite app_nil_r in Ep. subst part. apply holds_last with true; [| done]. rewrite Hw. by apply records_append.
    + destruct (decide (part = [])) as [-> | Hpart].
      * apply holds_last with true; [| done]. by rewrite Hw, app_nil_r.
      * apply holds_last with false; [| auto]. rewrite Hw. by eapply records_tear.
  - destruct front as [| f0 front].
    { injection El as -> ->. inversion Hl. }
    injection El as -> ->.
    assert (Hf0 : records_at (blk' f0) c q1 whole) by (rewrite Hf by apply list_elem_of_here; done).
    specialize (IH front eq_refl (fun j Hj => Hf j (list_elem_of_further _ _ _ Hj))).
    destruct (decide (rest = [])); [rewrite <- app_assoc |]; by apply holds_more with whole.
Qed.
Lemma run_holds_head blk closed i l c q : run_holds blk closed (i :: l) c q ->
  exists q1 q2 whole, q = q1 ++ q2 /\ records_at (blk i) c q1 whole /\ (l = [] -> q2 = [] /\ (whole = false -> closed = true)) /\
    (l <> [] -> run_holds blk closed l 0 q2) /\
    forall blk' c' q1', records_at (blk' i) c' q1' whole -> (forall j, j ∈ l -> blk' j = blk j) -> run_holds blk' closed (i :: l) c' (q1' ++ q2).
Proof using.
  intros Hr. inversion Hr as [i' c' q' whole Hr' Hw | i' l' c' q1 q2 whole Hr' Hl]; subst.
  - exists q, [], whole. rewrite app_nil_r. split_and!; try done. intros blk' c' q1' H1 _. rewrite app_nil_r. by apply holds_last with whole.
  - exists q1, q2, whole. split; [done |]. split; [done |]. split; [intros ->; inversion Hl |]. split; [done |].
    intros blk' c' q1' H1 He. apply holds_more with whole; [done |]. by apply run_holds_ext with blk.
Qed.
Lemma run_holds_drop blk closed gone l c q : run_holds blk closed (gone ++ l) c q -> l <> [] ->
  exists lost kept, q = lost ++ kept /\ run_holds blk closed l (if decide (gone = []) then c else 0) kept /\ (gone = [] -> lost = []) /\
    (forall i, gone = [i] -> exists whole, records_at (blk i) c lost whole).
Proof using.
  intros Hr Hl. revert c q Hr. induction gone as [| i gone IH]; intros c q Hr.
  - exists [], q. done.
  - destruct (run_holds_head _ _ _ _ _ _ Hr) as (q1 & q2 & whole & -> & Hq1 & _ & Hrest & _).
    destruct (IH 0 q2) as (lost & kept & -> & Hk & Hg & _); [apply Hrest; by destruct gone, l |].
    exists (q1 ++ lost), kept. rewrite app_assoc. split; [done |]. rewrite (decide_False (P := i :: gone = [])) by done.
    split; [by destruct (decide (gone = [])) |]. split; [done |].
    intros j [= -> Eg]. rewrite (Hg Eg), app_nil_r. by exists whole.
Qed.

(** Consecutive blocks: no number of the run is missing. *)
Definition consecutive l : Prop := forall front a b back, l = front ++ a :: b :: back -> b = seq_at a 1.
Lemma consecutive_suffix l l' : consecutive (l ++ l') -> consecutive l'.
Proof using. intros Hc front a b back ->. apply (Hc (l ++ front) a b back). by rewrite <- app_assoc. Qed.
Lemma consecutive_next front wr : is_seq wr -> consecutive (front ++ [wr]) -> consecutive ((front ++ [wr]) ++ [BlockSequence_NextSequence wr]).
Proof using.
  intros Hw Hc f a b back E. destruct (list_eq_nil_dec back) as [-> | Hne].
  - change (f ++ [a; b]) with (f ++ [a] ++ [b]) in E. rewrite app_assoc in E. apply app_inj_tail in E as [E <-].
    apply app_inj_tail in E as [_ <-]. by apply NextSequence_at.
  - destruct (exists_last Hne) as (back' & x & ->). apply (Hc f a b back').
    change (f ++ a :: b :: back' ++ [x]) with (f ++ (a :: b :: back') ++ [x]) in E. rewrite (app_assoc f) in E.
    by apply app_inj_tail in E as [E _].
Qed.
Lemma consecutive_one x : consecutive [x].
Proof using. intros [| ? [|]] a b back; done. Qed.
End runs.

(** * The state between calls *)

Section store_theory.
Context {D P W : Type} `{HD : BlockDevice D, HDS : !BlockDeviceSpec D, HP : SecurityPolicy P, HPS : !SecurityPolicySpec P}.
Implicit Types (sq : sq_world D W) (rs : SolidSyslogRecordStore) (w : bs_world D P W) (q : list bytes).

Definition oldest sq : Z := sq_OldestSequence (sw_Self sq).
Definition cursor sq : Z := sq_ReadCursor (sw_Self sq).
Definition oldest_bytes sq : bytes := content_of sq (oldest sq).
Definition verdict_at_cursor sq : SolidSyslogRecordStoreReadResult * Z :=
  extent_verdict (P := P) (oldest_bytes sq) (cursor sq) (lenZ (oldest_bytes sq)).
(** Nothing is to be read at the cursor. *)
Definition unreadable sq : Prop := read_succeeded (fst (verdict_at_cursor sq)) = false.

(** Whatever the blocks hold: the sequence is as it should be, the blocks are within
    their size, the cursor within its block, and the record the record store has in
    mind is the one at the cursor. *)
Record store_ok sq rs : Prop := {
  so_sequence : sq_ok sq;
  so_wf : lenZ (rs_Buffer rs) = RECORD_BUFFER_SIZE;
  so_size : rsize (P := P) SOLIDSYSLOG_MAX_MESSAGE_SIZE <= sq_MaxBlockSize (sw_Self sq) /\ sized (sq_MaxBlockSize (sw_Self sq));
  so_blocks : forall i, i ∈ run (sw_Self sq) -> all_bytes (content_of sq i) /\ lenZ (content_of sq i) <= sq_MaxBlockSize (sw_Self sq);
  so_cursor : 0 <= cursor sq <= lenZ (oldest_bytes sq);
  so_last : rs_HasReadRecord rs = true -> exists len,
    rs_LastReadBlockIndex rs = oldest sq /\ rs_LastSentFlagOffset rs = cursor sq + rsize (P := P) len - 1 /\
    verdict_at_cursor sq = (SOLIDSYSLOG_RECORD_STORE_READ_SUCCEEDED, len)
}.

(** The store has the messages [q] to send, in that order; only a [closed] write block
    may be torn. *)
Record queued (closed : bool) sq q : Prop := {
  qu_next : consecutive (run (sw_Self sq));
  qu_holds : exists c0, sent_prefix (P := P) (oldest_bytes sq) (lenZ (oldest_bytes sq)) c0 /\
    run_holds (P := P) (content_of sq) closed (run (sw_Self sq)) c0 q /\
    (cursor sq = c0 \/ cursor sq = lenZ (oldest_bytes sq) /\ records_at (P := P) (oldest_bytes sq) c0 [] false)
}.

(** The run lost blocks at its oldest end, and gained one at its newest. *)
Record moved sq (gone news : list Z) sq' : Prop := {
  mv_ok : sq_ok sq';
  mv_run : run (sw_Self sq) ++ news = gone ++ run (sw_Self sq');
  mv_same : forall j, j ∈ run (sw_Self sq') -> j ∉ news -> block (sw_Dev sq') j = block (sw_Dev sq) j;
  mv_news : news = [] \/ news = [BlockSequence_NextSequence (sq_WriteSequence (sw_Self sq))];
  mv_empty : forall j, j ∈ news -> block (sw_Dev sq) j = None /\ block (sw_Dev sq') j = Some [];
  mv_closed : sq_WriteBlockCorrupt (sw_Self sq') = if decide (news = []) then sq_WriteBlockCorrupt (sw_Self sq) else false;
  mv_cursor : cursor sq' = if decide (gone = []) then cursor sq else 0;
  mv_max : sq_MaxBlockSize (sw_Self sq') = sq_MaxBlockSize (sw_Self sq)
}.

Lemma run_NoDup (self : SolidSyslogBlockSequence W) : NoDup (run self).
Proof using.
  unfold run. apply NoDup_ListNoDup, List.NoDup_filter, NoDup_ListNoDup.
  change (NoDup (seq_at (sq_OldestSequence self) <$> seqZ 0 (BlockSequence_BlockCount self))).
  apply NoDup_fmap_2_strong; [| apply NoDup_seqZ]. intros x y Hx%elem_of_seqZ Hy%elem_of_seqZ E.
  rewrite BlockCount_dist in *. pose proof (dist_range (sq_OldestSequence self) (sq_WriteSequence self)).
  rewrite <- (dist_seq_at (sq_OldestSequence self) x), <- (dist_seq_at (sq_OldestSequence self) y) by lia. by rewrite E.
Qed.
Lemma run_present sq j : sq_ok sq -> j ∈ run (sw_Self sq) -> is_seq j /\ block (sw_Dev sq) j <> None.
Proof using. intros Hok [Hs Hp]%run_spec; [| apply Hok]. split; [done |]. by apply (sy_map _ (ok_synced _ Hok)). Qed.

Lemma run_held sq j : sq_ok sq -> j ∈ run (sw_Self sq) -> block (sw_Dev sq) j = Some (content_of sq j).
Proof using. intros Hok Hj. destruct (run_present _ _ Hok Hj) as [_ Hp]. unfold content_of. by destruct (block (sw_Dev sq) j). Qed.
Lemma oldest_held sq : sq_ok sq -> block (sw_Dev sq) (oldest sq) = Some (oldest_bytes sq).
Proof using. intros Hok. apply run_held; [done |]. apply run_spec; [apply Hok |]. apply (ro_oldest _ (ok_run _ Hok)). Qed.

(** ** Moves *)

Lemma moved_still sq sq' : sq_ok sq -> still sq sq' -> moved sq [] [] sq'.
Proof using HDS.
  intros Hok Hs. destruct (still_memory _ _ Hs) as [[] []]. split; try done.
  - by eapply still_ok.
  - rewrite app_nil_r. symmetry. by apply still_run.
  - intros j _ _. apply Hs.
  - by left.
  - intros j Hj. by apply not_elem_of_nil in Hj.
Qed.
Lemma moved_left sq evicted sq' : sq_ok sq -> left_oldest evicted sq sq' -> moved sq [oldest sq] [] sq'.
Proof using HDS.
  intros Hok Hl. destruct (lo_write _ _ _ Hl) as (Ew & Ep & Ec).
  assert (Hok' : sq_ok sq').
  { destruct (lo_working _ _ _ Hl). split; try done. pose proof (lo_count _ _ _ Hl). pose proof (ok_free _ Hok). lia. }
  split; try done.
  - by rewrite app_nil_r, (lo_run _ _ _ Hl).
  - intros j Hj _. apply (lo_block _ _ _ Hl). intros ->. destruct (run_present _ _ Hok' Hj) as [_ Hp]. by rewrite (lo_gone _ _ _ Hl) in Hp.
  - by left.
  - intros j Hj. by apply not_elem_of_nil in Hj.
  - rewrite decide_False by done. apply Hl.
  - apply (lo_config _ _ _ Hl).
Qed.
Lemma moved_rotated sq changed gone sq' : sq_ok sq -> rotated sq changed gone sq' ->
  moved sq gone [sq_WriteSequence (sw_Self sq')] sq'.
Proof using HDS.
  intros Hok Hr. destruct (rt_write _ _ _ _ Hr) as (Ew & _ & Ec).
  assert (Hnd : NoDup (run (sw_Self sq) ++ [sq_WriteSequence (sw_Self sq')])).
  { apply list.NoDup_app. split; [apply run_NoDup |]. split; [| apply NoDup_singleton].
    intros j Hj ->%list_elem_of_singleton. destruct (run_present _ _ Hok Hj) as [_ Hp]. by rewrite (rt_fresh _ _ _ _ Hr) in Hp. }
  split; try done.
  - apply Hr.
  - apply Hr.
  - intros j Hj Hn. apply (rt_block _ _ _ _ Hr); [intros ->; apply Hn; by apply list_elem_of_singleton |].
    intros Hg. rewrite (rt_run _ _ _ _ Hr) in Hnd. apply list.NoDup_app in Hnd as (_ & Hd & _). by apply (Hd j).
  - right. by rewrite Ew.
  - intros j ->%list_elem_of_singleton. split; apply Hr.
  - rewrite (rt_changed _ _ _ _ Hr) in Hr. unfold cursor. rewrite (rt_cursor _ _ _ _ Hr).
    by destruct (bool_decide_reflect (gone = [])) as [-> | Hg]; [| rewrite decide_False].
  - apply (rt_config _ _ _ _ Hr).
Qed.

Section moving.
Context sq gone news sq' (Hok : sq_ok sq) (Hm : moved sq gone news sq').
Lemma moved_content j : j ∈ run (sw_Self sq') -> j ∉ news -> content_of sq' j = content_of sq j.
Proof using Hm. intros H1 H2. unfold content_of. by rewrite (mv_same _ _ _ _ Hm). Qed.
Lemma moved_fresh j : j ∈ run (sw_Self sq) -> j ∉ news.
Proof using Hm Hok. intros Hj Hn. destruct (mv_empty _ _ _ _ Hm _ Hn). by destruct (run_present _ _ Hok Hj). Qed.
Lemma oldest_in_run : oldest sq ∈ run (sw_Self sq).
Proof using Hok. destruct (run_head _ (ok_run _ Hok)) as [r ->]. apply list_elem_of_here. Qed.
Lemma moved_oldest : gone = [] -> oldest sq' = oldest sq /\ oldest_bytes sq' = oldest_bytes sq.
Proof using Hm Hok HDS.
  intros Hg. pose proof (mv_run _ _ _ _ Hm) as Hr. rewrite Hg in Hr. destruct (run_head _ (ok_run _ Hok)) as [r1 E1].
  destruct (run_head _ (ok_run _ (mv_ok _ _ _ _ Hm))) as [r2 E2]. pose proof E2 as E2'. rewrite E1, E2 in Hr. injection Hr as Eo _.
  unfold oldest_bytes, oldest. rewrite Eo. split; [done |].
  assert (Hold : oldest sq = sq_OldestSequence (sw_Self sq')) by done.
  apply moved_content; [rewrite E2'; apply list_elem_of_here |]. rewrite <- Hold. apply moved_fresh, oldest_in_run.
Qed.
Lemma store_ok_moved rs rs' : store_ok sq rs -> lenZ (rs_Buffer rs') = RECORD_BUFFER_SIZE ->
  gone = [] /\ rs' = rs \/ rs_HasReadRecord rs' = false -> store_ok sq' rs'.
Proof using Hm Hok HDS HPS.
  intros Hs Hl Hwhy. split; try done.
  - apply Hm.
  - rewrite (mv_max _ _ _ _ Hm). apply Hs.
  - intros i Hi. rewrite (mv_max _ _ _ _ Hm). destruct (decide (i ∈ news)) as [Hn | Hn].
    + unfold content_of. destruct (mv_empty _ _ _ _ Hm _ Hn) as [_ ->]. split; [apply Forall_nil_2 |].
      destruct (so_size _ _ Hs) as [H1 _]. simpl. pose proof TrailerSize_bound. change (lenZ []) with 0. unfold rsize, SOLIDSYSLOG_MAX_MESSAGE_SIZE in *. lia.
    + rewrite moved_content by done. apply (so_blocks _ _ Hs). destruct (elem_of_app gone (run (sw_Self sq')) i) as [_ Hin].
      rewrite <- (mv_run _ _ _ _ Hm) in Hin. apply elem_of_app in Hin as [|]; [done | done | by right].
  - rewrite (mv_cursor _ _ _ _ Hm). destruct (decide (gone = [])) as [Hg |].
    + destruct (moved_oldest Hg) as [_ ->]. apply Hs.
    + pose proof (lenZ_nonneg (oldest_bytes sq')). lia.
  - intros Hh. destruct Hwhy as [[Hg ->] | Hf]; [| congruence]. destruct (so_last _ _ Hs Hh) as (len & H1 & H2 & H3).
    destruct (moved_oldest Hg) as [Eo Eb]. exists len. unfold verdict_at_cursor in *. rewrite Eo, Eb, (mv_cursor _ _ _ _ Hm), decide_True by done. done.
Qed.
Lemma queued_moved closed q : queued closed sq q -> exists lost kept, q = lost ++ kept /\
  queued (if decide (news = []) then closed else false) sq' kept /\ (gone = [] -> lost = []) /\
  (gone = [oldest sq] -> unreadable sq -> lost = []).
Proof using Hm Hok HDS HPS.
  intros [Hc (c0 & Hp & Hh & Hcur)]. set (blk := fun j => if decide (j ∈ news) then [] else content_of sq j).
  pose proof (mv_ok _ _ _ _ Hm) as Hok'. destruct (run_last _ (ok_run _ Hok)) as [front Ef].
  assert (Hbig : run_holds blk (if decide (news = []) then closed else false) (gone ++ run (sw_Self sq')) c0 q).
  { rewrite <- (mv_run _ _ _ _ Hm).
    assert (Hext : run_holds blk closed (run (sw_Self sq)) c0 q).
    { eapply run_holds_ext; [exact Hh |]. intros j Hj. unfold blk. rewrite decide_False; [done |]. by apply moved_fresh. }
    destruct (mv_news _ _ _ _ Hm) as [En | En].
    - rewrite En, app_nil_r, decide_True by done. done.
    - rewrite (decide_False (P := news = [])) by (by rewrite En). rewrite En. eapply run_holds_new; [exact Hext |].
      unfold blk. rewrite decide_True; [done |]. rewrite En. apply list_elem_of_here. }
  destruct (run_head _ (ok_run _ Hok')) as [rest' Er'].
  destruct (run_holds_drop _ _ _ _ _ _ Hbig) as (lost & kept & Eq & Hk & Hg & Hg1); [by rewrite Er' |].
  exists lost, kept. split; [done |]. split; [split |].
  - apply (consecutive_suffix gone). rewrite <- (mv_run _ _ _ _ Hm).
    destruct (mv_news _ _ _ _ Hm) as [-> | ->]; [by rewrite app_nil_r |]. rewrite Ef in Hc |- *. apply consecutive_next; [| done].
    apply (ro_write _ (ok_run _ Hok)).
  - exists (if decide (gone = []) then c0 else 0). split; [| split].
    + destruct (decide (gone = [])) as [Hg0 |]; [| constructor]. destruct (moved_oldest Hg0) as [_ ->]. done.
    + eapply run_holds_ext; [exact Hk |]. intros j Hj. unfold blk. destruct (decide (j ∈ news)) as [Hn |].
      * unfold content_of. by destruct (mv_empty _ _ _ _ Hm _ Hn) as [_ ->].
      * by apply moved_content.
    + rewrite (mv_cursor _ _ _ _ Hm). destruct (decide (gone = [])) as [Hg0 |]; [| by left]. destruct (moved_oldest Hg0) as [_ ->]. done.
  - split; [done |]. intros Hgo Hu. destruct (Hg1 _ Hgo) as [whole Hr].
    assert (Hr' : records_at (oldest_bytes sq) c0 lost whole).
    { unfold oldest_bytes. unfold blk in Hr. rewrite decide_False in Hr; [done |]. apply moved_fresh, oldest_in_run. }
    destruct lost as [| data lost]; [done | exfalso]. destruct (records_verdict _ _ _ _ _ Hr') as (Hv & _).
    unfold unreadable, verdict_at_cursor in Hu. destruct Hcur as [<- | [_ Ht]]; [by rewrite Hv in Hu |].
    inversion Ht; congruence.
Qed.
End moving.

(** ** The store's own state *)

Definition working_store w : Prop := st_Base (bw_Self w) = BlockStoreVtable.
Definition frozen w : Prop := st_Base (bw_Self w) = NullStoreVtable.
(** With [Some q], also the queue. *)
Definition may_queue (closed : bool) sq (oq : option (list bytes)) : Prop :=
  match oq with Some q => queued closed sq q | None => True end.
Record holds (closed : bool) w (oq : option (list bytes)) : Prop := {
  hs_working : working_store w;
  hs_ok : store_ok (sequence_part w) (bw_RecordStore w);
  hs_queue : may_queue closed (sequence_part w) oq
}.
(** Nothing moved but notes and reports. *)
Record keeps w w' : Prop := {
  kp_base : st_Base (bw_Self w') = st_Base (bw_Self w);
  kp_records : bw_RecordStore w' = bw_RecordStore w;
  kp_still : still (sequence_part w) (sequence_part w')
}.
Lemma keeps_same w w' :
  st_Base (bw_Self w') = st_Base (bw_Self w) -> bw_RecordStore w' = bw_RecordStore w ->
  bw_BlockSequence w' = bw_BlockSequence w -> bw_Dev w' = bw_Dev w -> keeps w w'.
Proof using.
  intros H1 H2 H3 H4. split; [done | done |]. apply synced_still; simpl; rewrite ?H3, ?H4; [done |].
  exists (sq_AtCapacity (bw_BlockSequence w)), (sq_ThresholdCrossed (bw_BlockSequence w)). by destruct (bw_BlockSequence w).
Qed.
Lemma keeps_refl w : keeps w w.
Proof using. by apply keeps_same. Qed.
Lemma keeps_trans w w1 w2 : keeps w w1 -> keeps w1 w2 -> keeps w w2.
Proof using. intros [A1 B1 C1] [A2 B2 C2]. split; [congruence | congruence | by eapply still_trans]. Qed.
Lemma queued_still closed sq sq' q : sq_ok sq -> still sq sq' -> queued closed sq q -> queued closed sq' q.
Proof using HDS HPS.
  intros Hok Hs Hq. destruct (queued_moved _ _ _ _ Hok (moved_still _ _ Hok Hs) closed q Hq) as (lost & kept & -> & Hk & Hl & _).
  by rewrite (Hl eq_refl).
Qed.
Lemma holds_still closed w oq rs' sq' :
  store_ok (sequence_part w) rs' -> may_queue closed (sequence_part w) oq -> still (sequence_part w) sq' ->
  store_ok sq' rs' /\ may_queue closed sq' oq.
Proof using HDS HPS.
  intros Hs Hq Hst. pose proof (so_sequence _ _ Hs) as Hok. split.
  - eapply (store_ok_moved _ _ _ _ Hok (moved_still _ _ Hok Hst)); [done | apply Hs | by left].
  - destruct oq; [| done]. by apply (queued_still closed _ _ _ Hok Hst).
Qed.
Lemma holds_keeps closed w w' oq : holds closed w oq -> keeps w w' -> holds closed w' oq.
Proof using HDS HPS.
  intros [Hw Hs Hq] [Kb Kr Ks]. destruct (holds_still closed w oq _ _ Hs Hq Ks) as [Hs' Hq'].
  split; [unfold working_store in *; congruence | by rewrite Kr | done].
Qed.

Lemma wp_bs_sequence {A} (m : ST (sq_world D W) A) Q w :
  wp m (fun a t => Q a (put_sequence t w)) (sequence_part w) -> wp (bs_sequence m) Q w.
Proof using. apply wp_zoom. Qed.
Lemma wp_bs_records {A} (m : ST (rs_world D P) A) Q w :
  wp m (fun a t => Q a (put_records t w)) (records_part w) -> wp (bs_records m) Q w.
Proof using. apply wp_zoom. Qed.
Lemma sequence_put_sequence sq w : sequence_part (put_sequence sq w) = sq.
Proof using. by destruct sq. Qed.
Ltac sq_steps := cbv beta iota; repeat (first [wp_step | progress unfold sq_get, sq_set]; cbv beta iota).
Ltac bs_steps := cbv beta iota; repeat (first [wp_step | progress unfold bs_get, bs_set, bs_ask]; cbv beta iota).

(** ** Reports and freezing *)

Lemma Freeze_spec op w : wp (BlockStore_Freeze op) (fun _ w' => frozen w' /\ bw_Dev w' = bw_Dev w) w.
Proof using. unfold BlockStore_Freeze, BlockStore_Report, SolidSyslogBlockStore_Cleanup. by bs_steps. Qed.
Lemma FreezeIfDeviceFailed_spec w :
  wp BlockStore_FreezeIfDeviceFailed (fun failed w' => failed = sq_DeviceFailed (bw_BlockSequence w) /\
    if failed then frozen w' /\ bw_BlockSequence w' = bw_BlockSequence w else w' = w) w.
Proof using.
  unfold BlockStore_FreezeIfDeviceFailed, BlockStore_Freeze, BlockStore_Report, SolidSyslogBlockStore_Cleanup,
    SolidSyslogBlockSequence_DeviceFailed. bs_steps.
  destruct (sq_DeviceFailed (bw_BlockSequence w)) eqn:E; bs_steps; by rewrite ?E.
Qed.
Ltac report_keeps flag := unfold BlockStore_Report; bs_steps; destruct flag; cbn [negb]; bs_steps; by apply keeps_same.
Lemma ReportLoss_keeps fault w : wp (BlockStore_ReportLoss fault) (fun _ w' => keeps w w') w.
Proof using. unfold BlockStore_ReportLoss. report_keeps (st_LossReported (bw_Self w)). Qed.
Lemma ReportRefusal_keeps w : wp BlockStore_ReportRefusal (fun _ w' => keeps w w') w.
Proof using. unfold BlockStore_ReportRefusal. report_keeps (st_RefusalReported (bw_Self w)). Qed.
Lemma ReportSealFailed_keeps w : wp BlockStore_ReportSealFailed (fun _ w' => keeps w w') w.
Proof using. unfold BlockStore_ReportSealFailed. report_keeps (st_SealFailureReported (bw_Self w)). Qed.
Lemma ReportEviction_keeps w : wp BlockStore_ReportEviction (fun _ w' => keeps w w' /\ bw_BlockSequence w' = bw_BlockSequence w /\ bw_Dev w' = bw_Dev w) w.
Proof using.
  unfold BlockStore_ReportEviction, SolidSyslogBlockSequence_EvictedUnsent, BlockStore_Report. bs_steps.
  destruct (sq_EvictedUnsent (bw_BlockSequence w)); cbn [negb]; bs_steps; [| split; [by apply keeps_same | done]].
  destruct (st_EvictionReported (bw_Self w)); cbn [negb]; bs_steps; (split; [by apply keeps_same | done]).
Qed.

(** ** Leaving a block *)

Definition count w : Z := BlockSequence_BlockCount (bw_BlockSequence w).
Definition max_size w : Z := sq_MaxBlockSize (bw_BlockSequence w).
Definition behind w : bool := SolidSyslogBlockSequence_ReadIsBehindWrite (bw_BlockSequence w).
Lemma behind_spec w : store_ok (sequence_part w) (bw_RecordStore w) ->
  if behind w then oldest (sequence_part w) <> sq_WriteSequence (bw_BlockSequence w)
  else oldest (sequence_part w) = sq_WriteSequence (bw_BlockSequence w).
Proof using.
  intros Hs. unfold behind, SolidSyslogBlockSequence_ReadIsBehindWrite. pose proof (ro_read _ (ok_run _ (so_sequence _ _ Hs))) as Er.
  simpl in Er. rewrite Er. by destruct (Z.eqb_spec (sq_OldestSequence (bw_BlockSequence w)) (sq_WriteSequence (bw_BlockSequence w))).
Qed.

(** What leaving the oldest block gives. *)
Record left_block (closed : bool) w oq w' : Prop := {
  lb_holds : holds closed w' oq;
  lb_count : count w' < count w;
  lb_max : max_size w' = max_size w;
  lb_closed : sq_WriteBlockCorrupt (bw_BlockSequence w') = sq_WriteBlockCorrupt (bw_BlockSequence w);
  lb_cursor : sq_ReadCursor (bw_BlockSequence w') = 0;
  lb_last : rs_HasReadRecord (bw_RecordStore w') = false
}.
Lemma ReadNextBlockIfBehind_spec closed w oq : holds closed w oq -> unreadable (sequence_part w) ->
  wp BlockStore_ReadNextBlockIfBehind (fun movedOn w' =>
    if movedOn then left_block closed w oq w'
    else frozen w' /\ sq_DeviceFailed (bw_BlockSequence w') = true \/ w' = w /\ behind w = false) w.
Proof using HDS HPS.
  intros [Hw Hs Hq] Hu. pose proof (behind_spec w Hs) as Hb. pose proof (so_sequence _ _ Hs) as Hok.
  unfold BlockStore_ReadNextBlockIfBehind. bs_steps. fold (behind w). destruct (behind w) eqn:Eb; bs_steps; [| by right].
  apply wp_bs_sequence. unfold SolidSyslogBlockSequence_LeaveReadBlock. bs_steps.
  eapply wp_mono; [apply DisposeReadBlock_spec; [by destruct Hok | exact Hb] |]. cbv beta. intros disposed sq' HL. bs_steps.
  apply wp_bs_records. unfold SolidSyslogRecordStore_ForgetLastRead, set_self. bs_steps.
  eapply wp_mono; [apply FreezeIfDeviceFailed_spec |]. cbv beta. intros f w' [-> Hf].
  set (w1 := put_records _ _) in *. change (bw_BlockSequence w1) with (sw_Self sq') in Hf.
  change (bw_BlockSequence w1) with (sw_Self sq').
  destruct disposed.
  - pose proof (lo_working _ _ _ HL) as Hwk. rewrite (wk_working _ Hwk) in Hf |- *. bs_steps. cbn [negb]. subst w'.
    pose proof (moved_left _ _ _ Hok HL) as Hm.
    assert (Esq : sequence_part w1 = sq') by (unfold w1; by destruct sq').
    split; [split | | | | |].
    + exact Hw.
    + rewrite Esq. eapply (store_ok_moved _ _ _ _ Hok Hm); [exact Hs | apply Hs | by right].
    + rewrite Esq. destruct oq as [q |]; [| done]. destruct (queued_moved _ _ _ _ Hok Hm closed q Hq) as (lost & kept & -> & Hk & _ & Hl).
      by rewrite (Hl eq_refl Hu).
    + apply HL.
    + exact (mv_max _ _ _ _ Hm).
    + exact (proj2 (proj2 (lo_write _ _ _ HL))).
    + exact (lo_cursor _ _ _ HL).
    + done.
  - unfold failed in HL. rewrite HL in Hf |- *. bs_steps. cbn [negb]. left. destruct Hf as [Hf ->]. done.
Qed.

Lemma run_alone (self : SolidSyslogBlockSequence W) : run_ok self -> sq_OldestSequence self = sq_WriteSequence self -> run self = [sq_OldestSequence self].
Proof using.
  intros Hr E. destruct (run_head _ Hr) as [rest Eh]. destruct (run_last _ Hr) as [front El].
  destruct rest as [| x rest]; [done | exfalso]. pose proof (run_NoDup self) as Hnd. rewrite Eh in El, Hnd.
  destruct front as [| y front]; [done |]. injection El as _ El. rewrite El, <- E in Hnd.
  apply NoDup_cons_1_1 in Hnd. apply Hnd, elem_of_app. right. apply list_elem_of_here.
Qed.
Lemma oldest_ok sq rs : store_ok sq rs -> all_bytes (oldest_bytes sq) /\ lenZ (oldest_bytes sq) <= sq_MaxBlockSize (sw_Self sq).
Proof using. intros Hs. apply (so_blocks _ _ Hs). by apply oldest_in_run, Hs. Qed.
Lemma write_position sq rs : store_ok sq rs -> oldest sq = sq_WriteSequence (sw_Self sq) -> sq_WritePosition (sw_Self sq) = lenZ (oldest_bytes sq).
Proof using. intros Hs E. unfold oldest_bytes. rewrite E. apply (sy_write _ (ok_synced _ (so_sequence _ _ Hs))). Qed.

(** ** Moving the cursor *)

Definition with_cursor (c : Z) sq : sq_world D W := sq <| sw_Self := (sw_Self sq) <| sq_ReadCursor := c |> |>.
Definition with_closed sq : sq_world D W := sq <| sw_Self := (sw_Self sq) <| sq_WriteBlockCorrupt := true |> |>.
Lemma store_ok_cursor c sq rs rs' : store_ok sq rs -> 0 <= c <= lenZ (oldest_bytes sq) ->
  lenZ (rs_Buffer rs') = RECORD_BUFFER_SIZE -> rs_HasReadRecord rs' = false -> store_ok (with_cursor c sq) rs'.
Proof using.
  intros Hs Hc Hl Hh. split; [apply (SetReadCursor_ok c), Hs | done | apply Hs | apply Hs | done | congruence].
Qed.
Lemma store_ok_closed sq rs : store_ok sq rs -> store_ok (with_closed sq) rs.
Proof using. intros Hs. split; [apply MarkWriteBlockCorrupt_ok, Hs | apply Hs ..]. Qed.

Lemma sized_room n : sized n -> n + 517 <= SIZE_MAX.
Proof using. exact (fun H => H). Qed.
Lemma holds_not_failed closed w oq : holds closed w oq -> sq_DeviceFailed (bw_BlockSequence w) = false.
Proof using. intros Hh. exact (ok_working _ (so_sequence _ _ (hs_ok _ _ _ Hh))). Qed.
Definition same_run w w' : Prop :=
  count w' = count w /\ max_size w' = max_size w /\ sq_WriteBlockCorrupt (bw_BlockSequence w') = sq_WriteBlockCorrupt (bw_BlockSequence w).
Lemma same_run_still w w' : still (sequence_part w) (sequence_part w') ->
  same_run w w' /\ sq_ReadCursor (bw_BlockSequence w') = sq_ReadCursor (bw_BlockSequence w).
Proof using. intros [_ (a & c & z & k & E) _]. unfold same_run, count, max_size. simpl in E. by rewrite E. Qed.

Lemma StepPastCurrent_spec closed w len : holds closed w None ->
  rs_LastSentFlagOffset (bw_RecordStore w) = cursor (sequence_part w) + rsize (P := P) len - 1 ->
  verdict_at_cursor (sequence_part w) = (SOLIDSYSLOG_RECORD_STORE_READ_SUCCEEDED, len) ->
  wp BlockStore_StepPastCurrent (fun stepped w' => stepped = true /\ holds closed w' None /\ same_run w w' /\
    sq_ReadCursor (bw_BlockSequence w) < sq_ReadCursor (bw_BlockSequence w') /\
    rs_HasReadRecord (bw_RecordStore w') = false) w.
Proof using HDS HPS.
  intros [Hw Hs _] Ho Hv. pose proof (proj1 (verdict_succeeded _ _ _ _) Hv) as (_ & _ & _ & _ & Hl & He).
  pose proof (rsize_bound len ltac:(lia)) as [Hrs _]. destruct (oldest_ok _ _ Hs) as [_ Hm]. destruct (so_size _ _ Hs) as [_ Hsz%sized_room].
  pose proof (so_cursor _ _ Hs) as Hc.
  unfold BlockStore_StepPastCurrent. bs_steps. apply wp_bs_records. unfold SolidSyslogRecordStore_StepPastLastRead, set_self. bs_steps.
  apply wp_bs_sequence. unfold SolidSyslogBlockSequence_SetReadCursor. sq_steps. bs_steps.
  assert (E : size_add (rs_LastSentFlagOffset (bw_RecordStore w)) SENT_FLAG_SIZE = cursor (sequence_part w) + rsize (P := P) len).
  { rewrite Ho. unfold SENT_FLAG_SIZE. rewrite size_add_small by lia. lia. }
  change (rs_LastSentFlagOffset (rw_Self _)) with (rs_LastSentFlagOffset (bw_RecordStore w)). rewrite E.
  split; [done |]. split; [split; [exact Hw | | done] |].
  - apply (store_ok_cursor _ (sequence_part w) (bw_RecordStore w)); [done | lia | apply Hs | done].
  - split; [done |]. split; [| done]. unfold cursor in *. simpl in *. lia.
Qed.

(** Nothing to read at the cursor: nothing else is queued in its block. *)
Lemma queued_unreadable closed sq q : sq_ok sq -> queued closed sq q -> unreadable sq -> oldest sq = sq_WriteSequence (sw_Self sq) ->
  q = [] /\ queued true (with_closed (with_cursor (lenZ (oldest_bytes sq)) sq)) [].
Proof using HPS.
  intros Hok [Hc (c0 & Hp & Hh & Hcur)] Hu Ho. pose proof (run_alone _ (ok_run _ Hok) Ho) as Er.
  assert (Hat : exists whole, records_at (oldest_bytes sq) c0 [] whole /\ q = []).
  { rewrite Er in Hh. destruct (run_holds_head _ _ _ _ _ _ Hh) as (q1 & q2 & whole & -> & Hr & Hq2 & _). destruct (Hq2 eq_refl) as [-> _].
    rewrite app_nil_r. change (records_at (oldest_bytes sq) c0 q1 whole) in Hr. destruct q1 as [| data q1]; [by exists whole | exfalso].
    destruct (records_verdict _ _ _ _ _ Hr) as (Hv & _). unfold unreadable, verdict_at_cursor in Hu.
    destruct Hcur as [<- | [_ Ht]]; [by rewrite Hv in Hu | inversion Ht; congruence]. }
  destruct Hat as (whole & Hat & ->). split; [done |]. split; [exact Hc |]. exists c0. split; [exact Hp |]. split.
  - change (run (sw_Self (with_closed (with_cursor (lenZ (oldest_bytes sq)) sq)))) with (run (sw_Self sq)). rewrite Er. by apply holds_last with whole.
  - inversion Hat as [E | |]; subst; [by left | right; done].
Qed.

Lemma Abandon_spec closed w oq : holds closed w oq -> unreadable (sequence_part w) ->
  wp BlockStore_AbandonRestOfReadBlock (fun movedOn w' =>
    if movedOn then left_block closed w oq w'
    else frozen w' /\ sq_DeviceFailed (bw_BlockSequence w') = true \/
         holds true w' oq /\ sq_WriteBlockCorrupt (bw_BlockSequence w') = true /\
         SolidSyslogBlockSequence_HasUnsent (bw_BlockSequence w') = false) w.
Proof using HDS HPS.
  intros Hh Hv. unfold BlockStore_AbandonRestOfReadBlock. bs_steps.
  eapply wp_mono; [apply (ReadNextBlockIfBehind_spec closed w oq Hh Hv) |].
  cbv beta. intros movedOn w1 H1. unfold SolidSyslogBlockSequence_DeviceFailed. bs_steps. destruct movedOn.
  - destruct H1 as [H1 Hc Hm Hcl Hcu Hla]. rewrite (holds_not_failed _ _ _ H1). cbn [negb]. bs_steps.
    eapply wp_mono; [apply ReportLoss_keeps |]. cbv beta. intros _ w2 K. bs_steps.
    destruct (same_run_still _ _ (kp_still _ _ K)) as [(E1 & E2 & E3) E4].
    split; [by eapply holds_keeps | lia | lia | by rewrite E3 | by rewrite E4 | by rewrite (kp_records _ _ K)].
  - destruct H1 as [[Hf Hd] | [-> Hb]]; [rewrite Hd; cbn [negb]; bs_steps; by left |].
    rewrite (holds_not_failed _ _ _ Hh). cbn [negb]. bs_steps.
    eapply wp_mono; [apply ReportLoss_keeps |]. cbv beta. intros _ w1 K. bs_steps.
    pose proof (behind_spec w (hs_ok _ _ _ Hh)) as Ho. rewrite Hb in Ho.
    pose proof (holds_keeps _ _ _ _ Hh K) as Hh1. destruct Hh1 as [Hw1 Hs1 Hq1].
    destruct (still_memory _ _ (kp_still _ _ K)) as [[So Sr Sw Sc _ _ _ _] _].
    assert (Ho1 : oldest (sequence_part w1) = sq_WriteSequence (sw_Self (sequence_part w1))).
    { unfold oldest in *. rewrite So, Sw. exact Ho. }
    assert (Eb : oldest_bytes (sequence_part w1) = oldest_bytes (sequence_part w)).
    { unfold oldest_bytes, oldest, content_of. rewrite So. by rewrite (st_block _ _ (kp_still _ _ K)). }
    assert (Hv1 : unreadable (sequence_part w1)).
    { unfold unreadable, verdict_at_cursor, cursor in *. rewrite Eb, Sc. exact Hv. }
    pose proof (write_position _ _ Hs1 Ho1) as Ewp. simpl in Ewp.
    apply wp_bs_sequence. unfold SolidSyslogBlockSequence_SetReadCursor. sq_steps. bs_steps.
    apply wp_bs_sequence. unfold SolidSyslogBlockSequence_MarkWriteBlockCorrupt. sq_steps. bs_steps.
    rewrite Ewp. right.
    assert (Hs2 : store_ok (with_closed (with_cursor (lenZ (oldest_bytes (sequence_part w1))) (sequence_part w1))) (bw_RecordStore w1)).
    { apply store_ok_closed. apply (store_ok_cursor _ _ (bw_RecordStore w1)); [done | pose proof (lenZ_nonneg (oldest_bytes (sequence_part w1))); lia | apply Hs1 |].
      destruct (rs_HasReadRecord (bw_RecordStore w1)) eqn:Eh; [| done]. destruct (so_last _ _ Hs1 Eh) as (l & _ & _ & Hv2).
      unfold unreadable in Hv1. by rewrite Hv2 in Hv1. }
    split; [split; [exact Hw1 | exact Hs2 |] | split; [done |]].
    + destruct oq as [q |]; [| done]. destruct (queued_unreadable _ _ _ (so_sequence _ _ Hs1) Hq1 Hv1 Ho1) as [-> Hq2]. exact Hq2.
    + unfold SolidSyslogBlockSequence_HasUnsent, SolidSyslogBlockSequence_ReadIsBehindWrite. simpl.
      pose proof (ro_read _ (ok_run _ (so_sequence _ _ Hs1))) as Er. unfold oldest in Ho1. rewrite Ho1 in Er. simpl in Er.
      by rewrite Ewp, Z.ltb_irrefl, Er, Z.eqb_refl.
Qed.

(** ** Reading *)

(** What a read at the cursor met, in the reader's memory [dst]; [had] is whether a
    record was in mind before. *)
Inductive read_met (had : bool) oq (dst : bytes) (maxSize : Z) w : read_state -> Prop :=
| met_record len dst' :
    verdict_at_cursor (sequence_part w) = (SOLIDSYSLOG_RECORD_STORE_READ_SUCCEEDED, len) ->
    rs_HasReadRecord (bw_RecordStore w) = true ->
    (forall q, oq = Some q -> exists data q', q = data :: q' /\ len = lenZ data /\ dst' = spliceZ dst 0 (takeZ (Z.min len maxSize) data)) ->
    read_met had oq dst maxSize w (mkReadState SOLIDSYSLOG_RECORD_STORE_READ_SUCCEEDED dst' (Z.min len maxSize))
| met_unopened len p :
    verdict_at_cursor (sequence_part w) = (SOLIDSYSLOG_RECORD_STORE_READ_SUCCEEDED, len) ->
    fst (fst (sp_OpenRecord (stored_record (P := P) (oldest_bytes (sequence_part w)) (cursor (sequence_part w)) len) p)) =
      SOLIDSYSLOG_SECURITY_POLICY_OPEN_COULD_NOT_RUN ->
    (rs_HasReadRecord (bw_RecordStore w) = true -> had = true) ->
    read_met had oq dst maxSize w (mkReadState SOLIDSYSLOG_RECORD_STORE_READ_COULD_NOT_OPEN dst 0)
| met_end len : verdict_at_cursor (sequence_part w) = (SOLIDSYSLOG_RECORD_STORE_READ_END_OF_DATA, len) ->
    read_met had oq dst maxSize w (mkReadState SOLIDSYSLOG_RECORD_STORE_READ_END_OF_DATA dst 0)
| met_tear len : verdict_at_cursor (sequence_part w) = (SOLIDSYSLOG_RECORD_STORE_READ_CORRUPT, len) ->
    read_met had oq dst maxSize w (mkReadState SOLIDSYSLOG_RECORD_STORE_READ_CORRUPT dst 0)
| met_refused res len : oq = None -> res = SOLIDSYSLOG_RECORD_STORE_READ_REJECTED \/ res = SOLIDSYSLOG_RECORD_STORE_READ_FINISHED_WITH ->
    verdict_at_cursor (sequence_part w) = (SOLIDSYSLOG_RECORD_STORE_READ_SUCCEEDED, len) ->
    rs_LastSentFlagOffset (bw_RecordStore w) = cursor (sequence_part w) + rsize (P := P) len - 1 ->
    read_met had oq dst maxSize w (mkReadState res dst 0).

Lemma records_split b c data q whole : records_at (P := P) b c (data :: q) whole ->
  exists pre rec post, b = pre ++ rec ++ post /\ lenZ pre = c /\ sealed_record (P := P) data rec /\ lenZ pre + rsize (P := P) (lenZ data) <= lenZ b.
Proof using HPS.
  inversion 1 as [| | c' pre d rec post q' whole' Hb Hc Hm Hs Hr]; subst c' d q' whole'. exists pre, rec, post.
  pose proof (records_range _ _ _ _ Hr). split_and!; try done. lia.
Qed.
(** The first record of the queue is the one at the cursor. *)
Lemma queued_head closed sq q len : sq_ok sq -> queued closed sq q -> verdict_at_cursor sq = (SOLIDSYSLOG_RECORD_STORE_READ_SUCCEEDED, len) ->
  exists data q1 q2 whole, q = data :: q1 ++ q2 /\ len = lenZ data /\ is_message data /\
    records_at (P := P) (oldest_bytes sq) (cursor sq) (data :: q1) whole /\
    sent_prefix (P := P) (oldest_bytes sq) (lenZ (oldest_bytes sq)) (cursor sq) /\
    forall blk c' q1', records_at (P := P) (blk (oldest sq)) c' q1' whole ->
      (forall j, j ∈ run (sw_Self sq) -> j <> oldest sq -> blk j = content_of sq j) ->
      run_holds (P := P) blk closed (run (sw_Self sq)) c' (q1' ++ q2).
Proof using HPS.
  intros Hok [_ (c0 & Hp & Hh & Hcur)] Hv. destruct (run_head _ (ok_run _ Hok)) as [rest Er]. rewrite Er in Hh.
  destruct (run_holds_head _ _ _ _ _ _ Hh) as (q1 & q2 & whole & -> & Hr & _ & _ & Hput). unfold verdict_at_cursor in Hv.
  destruct Hcur as [<- | [E _]].
  - change (records_at (oldest_bytes sq) (cursor sq) q1 whole) in Hr. destruct q1 as [| data q1].
    + exfalso. inversion Hr as [E | c len' H0 Hv' |]; subst; [| congruence]. rewrite <- E in Hv. unfold extent_verdict in Hv. by rewrite Z.leb_refl in Hv.
    + destruct (records_verdict _ _ _ _ _ Hr) as (Hv' & _ & Hm & _). exists data, q1, q2, whole.
      do 5 (split; [done || congruence |]). intros blk c' q1' H1 H2. rewrite Er. apply Hput; [exact H1 |]. intros j Hj. apply H2; [rewrite Er; by right |].
      intros ->. pose proof (run_NoDup (sw_Self sq)) as Hnd. rewrite Er in Hnd. by apply NoDup_cons_1_1 in Hnd.
  - exfalso. rewrite E in Hv. unfold extent_verdict in Hv. by rewrite Z.leb_refl in Hv.
Qed.

(** A record of the queue reads back, or there is no verdict on it. *)
Lemma queued_read closed sq q rw i res len len' r1 : sq_ok sq -> queued closed sq q ->
  verdict_at_cursor sq = (SOLIDSYSLOG_RECORD_STORE_READ_SUCCEEDED, len') -> content rw i = oldest_bytes sq ->
  record_read (P := P) (D := D) rw i (cursor sq) (lenZ (oldest_bytes sq)) res len r1 ->
  exists data q', q = data :: q' /\ match res with
    | SOLIDSYSLOG_RECORD_STORE_READ_SUCCEEDED => len = lenZ data /\ spanZ (buffer_of r1) 4 (lenZ data) = data
    | SOLIDSYSLOG_RECORD_STORE_READ_COULD_NOT_OPEN | SOLIDSYSLOG_RECORD_STORE_READ_DEVICE_FAILED => True
    | _ => False
    end.
Proof using HPS.
  intros Hok Hq Hv Ec Hrd. destruct (queued_head _ _ _ _ Hok Hq Hv) as (data & q1 & q2 & whole & -> & -> & Hmsg & Hrec & _ & _).
  exists data, (q1 ++ q2). split; [done |]. destruct (records_split _ _ _ _ _ Hrec) as (pre & rec & post & Eb & Ep & Hsr & Hle).
  destruct Hmsg as [Hml Hmb]. apply (read_sealed data rec pre post rw i (lenZ (oldest_bytes sq)) res len r1 Hsr Hml Hmb); [by rewrite Ec | done | by rewrite Ep].
Qed.
Lemma read_not_opened rw i off n len r1 :
  record_read (P := P) (D := D) rw i off n SOLIDSYSLOG_RECORD_STORE_READ_COULD_NOT_OPEN len r1 ->
  exists len' p, extent_verdict (P := P) (content rw i) off n = (SOLIDSYSLOG_RECORD_STORE_READ_SUCCEEDED, len') /\
    fst (fst (sp_OpenRecord (stored_record (P := P) (content rw i) off len') p)) = SOLIDSYSLOG_SECURITY_POLICY_OPEN_COULD_NOT_RUN.
Proof using.
  remember SOLIDSYSLOG_RECORD_STORE_READ_COULD_NOT_OPEN as res eqn:Eres. intros Hrd.
  destruct Hrd as [| res len w' _ V _ | | len p w' _ V _ _ opened _]; try done.
  - exfalso. subst. unfold extent_verdict in V. repeat case_match; congruence.
  - exists len, p. split; [exact V |]. fold opened. by destruct (fst opened).
Qed.
(** The record store after a read still has the record at the cursor in mind, if any. *)
Lemma store_ok_read sq rs rw i dst maxSize res dst' k len r2 :
  store_ok sq rs -> rw_Self rw = rs -> i = oldest sq -> content rw i = oldest_bytes sq ->
  read_result (P := P) (D := D) rw i (cursor sq) (lenZ (oldest_bytes sq)) dst maxSize res dst' k len r2 -> store_ok sq (rw_Self r2).
Proof using.
  intros Hs Ers -> Ec [(r1 & Hrd & Ebuf) Hblk Hwf2 Hkn Hunk _]. split; try apply Hs; [exact Hwf2 |].
  intros Hh. destruct (RecordStore_RecordExtentIsKnown res) eqn:Ek.
  - destruct (Hkn eq_refl) as (_ & K1 & K2). exists len. split; [done |]. split; [done |].
    unfold verdict_at_cursor. rewrite <- Ec at 1. by eapply record_read_verdict.
  - destruct (Hunk eq_refl) as (U1 & U2 & U3). rewrite Ers in *. rewrite U1 in Hh. destruct (so_last _ _ Hs Hh) as (len' & L1 & L2 & L3).
    exists len'. by rewrite U2, U3.
Qed.
Lemma read_meets had closed sq oq rw i dst maxSize res dst' k len r2 w2 :
  store_ok sq (bw_RecordStore w2) -> may_queue closed sq oq -> content rw i = oldest_bytes sq ->
  read_result (P := P) (D := D) rw i (cursor sq) (lenZ (oldest_bytes sq)) dst maxSize res dst' k len r2 ->
  bw_RecordStore w2 = rw_Self r2 -> sequence_part w2 = sq -> res <> SOLIDSYSLOG_RECORD_STORE_READ_DEVICE_FAILED ->
  (rs_HasReadRecord (rw_Self rw) = true -> had = true) ->
  read_met had oq dst maxSize w2 (mkReadState res dst' k).
Proof using HPS.
  intros Hs Hq Ec [(r1 & Hrd & Ebuf) _ _ Hkn Hunk Hcopy] Er Eq Hne Hhad. rename sq into sq2.
  assert (Hvk : RecordStore_RecordExtentIsKnown res = true -> verdict_at_cursor sq2 = (SOLIDSYSLOG_RECORD_STORE_READ_SUCCEEDED, len)).
  { intros Ek. unfold verdict_at_cursor. rewrite <- Ec at 1. by eapply record_read_verdict. }
  assert (Hlast : RecordStore_RecordExtentIsKnown res = true -> rs_HasReadRecord (bw_RecordStore w2) = true /\
    rs_LastSentFlagOffset (bw_RecordStore w2) = cursor sq2 + rsize (P := P) len - 1) by (rewrite Er; intros Ek; destruct (Hkn Ek) as (? & _ & ?); done).
  assert (Href : res = SOLIDSYSLOG_RECORD_STORE_READ_REJECTED \/ res = SOLIDSYSLOG_RECORD_STORE_READ_FINISHED_WITH -> oq = None).
  { intros Hres. destruct oq as [q |]; [exfalso | done]. assert (RecordStore_RecordExtentIsKnown res = true) as Ek by (by destruct Hres as [-> | ->]).
    destruct (queued_read _ _ _ _ _ _ _ _ _ (so_sequence _ _ Hs) Hq (Hvk Ek) Ec Hrd) as (? & ? & _ & HF). by destruct Hres as [-> | ->]. }
  destruct res; try done; cbn [read_succeeded] in Hcopy; destruct Hcopy as [-> ->].
  - replace (RecordStore_BoundedSize len maxSize) with (Z.min len maxSize) by (unfold RecordStore_BoundedSize; destruct (Z.ltb_spec len maxSize); lia).
    apply met_record; rewrite ?Eq; [by apply Hvk | by apply Hlast |]. intros q ->.
    destruct (queued_read _ _ _ _ _ _ _ _ _ (so_sequence _ _ Hs) Hq (Hvk eq_refl) Ec Hrd) as (data & q' & -> & -> & Hsp).
    exists data, q'. split; [done |]. split; [done |]. f_equal. rewrite Ebuf. rewrite <- Hsp at 3. unfold spanZ. rewrite takeZ_takeZ. f_equal. lia.
  - eapply met_end. rewrite Eq. unfold verdict_at_cursor. rewrite <- Ec at 1.
    inversion Hrd as [| ? ? ? _ V _ | | ? ? ? ? ? ? ? opened ? Eop]; [exact V | by destruct (fst opened)].
  - eapply met_tear. rewrite Eq. unfold verdict_at_cursor. rewrite <- Ec at 1.
    inversion Hrd as [| ? ? ? _ V _ | | ? ? ? ? ? ? ? opened ? Eop]; [exact V | by destruct (fst opened)].
  - eapply met_refused; rewrite ?Eq; [apply Href; by left | by left | by apply Hvk | by apply Hlast].
  - eapply met_refused; rewrite ?Eq; [apply Href; by right | by right | by apply Hvk | by apply Hlast].
  - destruct (read_not_opened _ _ _ _ _ _ Hrd) as (len' & p & V & Eop). eapply (met_unopened _ _ _ _ _ _ p); rewrite ?Eq.
    + unfold verdict_at_cursor. rewrite <- Ec at 1. exact V.
    + rewrite <- Ec. exact Eop.
    + rewrite Er. destruct (Hunk eq_refl) as (-> & _). exact Hhad.
Qed.

Lemma ReadCurrent_spec had closed w oq dst maxSize : holds closed w oq -> 0 <= maxSize ->
  (rs_HasReadRecord (bw_RecordStore w) = true -> had = true) ->
  wp (BlockStore_ReadCurrent maxSize dst 0) (fun r w' =>
    r = mkReadState SOLIDSYSLOG_RECORD_STORE_READ_DEVICE_FAILED dst 0 \/
    holds closed w' oq /\ read_met had oq dst maxSize w' r /\ same_run w w' /\
    sq_ReadCursor (bw_BlockSequence w') = sq_ReadCursor (bw_BlockSequence w)) w.
Proof using HDS HPS.
  intros [Hw Hs Hq] Hm Hhad. pose proof (so_sequence _ _ Hs) as Hok. unfold BlockStore_ReadCurrent. bs_steps. apply wp_bs_sequence.
  eapply wp_mono; [apply ReadBlockSize_spec; by destruct Hok |]. cbv beta. intros [known size] sq1 H1. cbn [fst snd] in H1.
  destruct known; bs_steps; [| by left]. destruct H1 as [Hst Esz].
  destruct (holds_still closed w oq _ _ Hs Hq Hst) as [Hs1 Hq1].
  set (w1 := put_sequence sq1 w). assert (E1 : sequence_part w1 = sq1) by (unfold w1; by destruct sq1).
  destruct (still_memory _ _ Hst) as [[So Sr Sw Sc _ _ _ _] [Sm _ _ _]].
  pose proof (ro_read _ (ok_run _ (so_sequence _ _ Hs1))) as Er1. fold (oldest sq1) in Er1.
  destruct (oldest_ok _ _ Hs1) as [Hb1 Hl1]. destruct (so_size _ _ Hs1) as [_ Hsz]. pose proof (so_cursor _ _ Hs1) as Hc1.
  assert (Econ : content (records_part w1) (oldest sq1) = oldest_bytes sq1) by done.
  assert (Esz' : size = lenZ (oldest_bytes sq1)).
  { rewrite Esz. unfold content_of, oldest_bytes, content_of, oldest. rewrite (st_block _ _ Hst), So.
    by rewrite (ro_read _ (ok_run _ Hok)). }
  apply wp_bs_records. change (sq_ReadSequence (bw_BlockSequence w1)) with (sq_ReadSequence (sw_Self sq1)).
  change (sq_ReadCursor (bw_BlockSequence w1)) with (cursor sq1). rewrite Er1, Esz'.
  pose proof (oldest_held _ (so_sequence _ _ Hs1)) as Eheld.
  eapply wp_mono; [apply Read_spec; [apply Hs1 | by exists (oldest_bytes sq1) | apply Hc1 | unfold sized in *; lia] |].
  cbv beta. intros [[res dst'] k] r2 (len & HR). bs_steps.
  destruct (decide (res = SOLIDSYSLOG_RECORD_STORE_READ_DEVICE_FAILED)) as [-> | Hne].
  { left. by destruct (rr_copied _ _ _ _ _ _ _ _ _ _ _ HR) as [-> ->]. }
  right. set (w2 := put_records r2 w1). pose proof (rr_block _ _ _ _ _ _ _ _ _ _ _ HR) as Hblk.
  assert (Hs2 : store_ok sq1 (rw_Self r2)) by exact (store_ok_read sq1 _ (records_part w1) (oldest sq1) _ _ _ _ _ _ _ Hs1 eq_refl eq_refl Econ HR).
  assert (Hst2 : still (sequence_part w1) (sequence_part w2)).
  { rewrite E1. apply synced_still; [exact Hblk |]. exists (sq_AtCapacity (sw_Self sq1)), (sq_ThresholdCrossed (sw_Self sq1)). simpl. by destruct (sw_Self sq1). }
  pose proof Hst2 as Hst1. rewrite E1 in Hst1.
  destruct (holds_still closed w1 oq (rw_Self r2) (sequence_part w2)) as [Hs3 Hq3]; rewrite ?E1; [exact Hs2 | exact Hq1 | exact Hst1 |].
  assert (Eob : oldest_bytes (sequence_part w2) = oldest_bytes sq1) by (unfold oldest_bytes, content_of; f_equal; apply Hblk).
  split; [by split |]. split.
  - eapply (read_meets had closed (sequence_part w2)); [exact Hs3 | exact Hq3 | rewrite Eob; exact Econ | rewrite Eob; exact HR | done | done | done | exact Hhad].
  - assert (Hst3 : still (sequence_part w) (sequence_part w2)) by (eapply still_trans; [exact Hst | exact Hst1]).
    by apply same_run_still.
Qed.

(** ** The next unsent record *)

Definition write_closed w : bool := sq_WriteBlockCorrupt (bw_BlockSequence w).
(** The state between calls of a store that works. *)
Definition now w oq : Prop := holds (write_closed w) w oq.

Lemma still_verdict sq sq' : still sq sq' -> verdict_at_cursor sq' = verdict_at_cursor sq /\ cursor sq' = cursor sq /\ oldest_bytes sq' = oldest_bytes sq.
Proof using.
  intros Hst. destruct (still_memory _ _ Hst) as [[So _ _ Sc _ _ _ _] _].
  assert (Eb : oldest_bytes sq' = oldest_bytes sq) by (unfold oldest_bytes, oldest, content_of; by rewrite So, (st_block _ _ Hst)).
  unfold verdict_at_cursor, cursor. by rewrite Eb, Sc.
Qed.
Lemma now_measure w oq : now w oq ->
  0 <= sq_ReadCursor (bw_BlockSequence w) <= max_size w /\ 1 <= count w <= 100.
Proof using.
  intros [_ Hs _]. destruct (oldest_ok _ _ Hs) as [_ Hm]. pose proof (so_cursor _ _ Hs) as Hc. unfold cursor in Hc. simpl in *.
  unfold count. rewrite BlockCount_dist. pose proof (dist_bound (sq_OldestSequence (bw_BlockSequence w)) (sq_WriteSequence (bw_BlockSequence w))).
  pose proof (dist_range (sq_OldestSequence (bw_BlockSequence w)) (sq_WriteSequence (bw_BlockSequence w))). unfold max_size. lia.
Qed.
Definition to_go w : Z := count w * (max_size w + 1) - sq_ReadCursor (bw_BlockSequence w).
Lemma to_go_positive w oq : now w oq -> 1 <= to_go w.
Proof using. intros Hn. destruct (now_measure _ _ Hn). unfold to_go. nia. Qed.
Lemma to_go_left closed w oq w' : now w oq -> left_block closed w oq w' -> to_go w' < to_go w.
Proof using.
  intros Hn [_ Hc Hm _ Hcu _]. destruct (now_measure _ _ Hn). unfold to_go. rewrite Hm, Hcu. nia.
Qed.
Lemma nothing_unsent w : store_ok (sequence_part w) (bw_RecordStore w) -> behind w = false ->
  lenZ (oldest_bytes (sequence_part w)) <= cursor (sequence_part w) -> SolidSyslogBlockSequence_HasUnsent (bw_BlockSequence w) = false.
Proof using.
  intros Hs Hb Hl. pose proof (behind_spec w Hs) as Ho. rewrite Hb in Ho. pose proof (write_position _ _ Hs Ho) as Ew. simpl in Ew.
  unfold SolidSyslogBlockSequence_HasUnsent. unfold behind in Hb. rewrite Hb, Ew. unfold cursor in Hl. simpl in Hl. simpl. by apply Z.ltb_ge.
Qed.

Definition device_failed_read (dst : bytes) : read_state := mkReadState SOLIDSYSLOG_RECORD_STORE_READ_DEVICE_FAILED dst 0.
(** Between two turns of the loop, and after the last. *)
Definition reading (had : bool) oq dst maxSize r w : Prop :=
  r = device_failed_read dst \/ now w oq /\ read_met had oq dst maxSize w r.
Definition reading_to_go r w : Z :=
  match rd_result r with SOLIDSYSLOG_RECORD_STORE_READ_DEVICE_FAILED => 0 | _ => to_go w end.
Inductive read_done (had : bool) oq dst maxSize w : read_state -> Prop :=
| done_failed : read_done had oq dst maxSize w (device_failed_read dst)
| done_frozen res : res = SOLIDSYSLOG_RECORD_STORE_READ_END_OF_DATA \/ res = SOLIDSYSLOG_RECORD_STORE_READ_CORRUPT -> frozen w ->
    read_done had oq dst maxSize w (mkReadState res dst 0)
| done_all res : res = SOLIDSYSLOG_RECORD_STORE_READ_END_OF_DATA \/ res = SOLIDSYSLOG_RECORD_STORE_READ_CORRUPT -> now w oq ->
    SolidSyslogBlockSequence_HasUnsent (bw_BlockSequence w) = false -> read_done had oq dst maxSize w (mkReadState res dst 0)
| done_met r : now w oq -> read_met had oq dst maxSize w r ->
    rd_result r = SOLIDSYSLOG_RECORD_STORE_READ_SUCCEEDED \/ rd_result r = SOLIDSYSLOG_RECORD_STORE_READ_COULD_NOT_OPEN ->
    read_done had oq dst maxSize w r.

Lemma met_not_failed had oq dst maxSize w r : read_met had oq dst maxSize w r -> rd_result r <> SOLIDSYSLOG_RECORD_STORE_READ_DEVICE_FAILED.
Proof using. destruct 1 as [| | | | res len _ Hr]; try done. by destruct Hr as [-> | ->]. Qed.
(** A turn that goes on: the read is tried again nearer to the end. *)
Lemma read_again had oq dst maxSize w w1 : 0 <= maxSize -> now w oq -> now w1 oq -> to_go w1 < to_go w ->
  rs_HasReadRecord (bw_RecordStore w1) = false ->
  wp (let! r := BlockStore_ReadCurrent maxSize dst 0 in st_ret (true, r))
    (fun rr w' => fst rr = true /\ reading had oq dst maxSize (snd rr) w' /\ reading_to_go (snd rr) w' < to_go w) w1.
Proof using HDS HPS.
  intros Hm Hn Hn1 Hlt Hh1. bs_steps. eapply wp_mono; [apply (ReadCurrent_spec had _ _ _ _ _ Hn1 Hm); by rewrite Hh1 |]. cbv beta. intros r w2 HR. bs_steps.
  split; [done |]. cbn [snd]. destruct HR as [-> | (Hh & Hr & (E1 & E2 & E3) & E4)].
  - split; [by left |]. pose proof (to_go_positive _ _ Hn). unfold reading_to_go. simpl. lia.
  - split; [right; split; [unfold now; replace (write_closed w2) with (write_closed w1) by (by symmetry); exact Hh | done] |].
    unfold reading_to_go, to_go in *. rewrite E1, E2, E4. pose proof (met_not_failed _ _ _ _ _ _ Hr). destruct (rd_result r); done.
Qed.

Lemma read_step_spec had oq dst maxSize r w : 0 <= maxSize -> reading had oq dst maxSize r w ->
  wp (read_step maxSize r) (fun rr w' =>
    if fst rr then reading had oq dst maxSize (snd rr) w' /\ reading_to_go (snd rr) w' < reading_to_go r w
    else read_done had oq dst maxSize w' (snd rr)) w.
Proof using HDS HPS.
  intros Hm [-> | [Hn Hr]]; [unfold read_step; cbn [rd_result device_failed_read BlockStore_StepPast]; bs_steps; constructor |].
  assert (Hagain : forall w1, now w1 oq -> to_go w1 < to_go w -> rs_HasReadRecord (bw_RecordStore w1) = false ->
    wp (let! r := BlockStore_ReadCurrent maxSize dst 0 in st_ret (true, r)) (fun rr w' =>
      if fst rr then reading had oq dst maxSize (snd rr) w' /\ reading_to_go (snd rr) w' < to_go w
      else read_done had oq dst maxSize w' (snd rr)) w1).
  { intros w1 H1 H2 H3. eapply wp_mono; [by apply (read_again had oq dst maxSize w w1) |]. cbv beta. intros rr w' (-> & A). exact A. }
  unfold read_step. wp_step.
  destruct Hr as [len dst' Hv Hh Hq | len p Hv Hop Hhad | len Hv | len Hv | res len -> Hres Hv Ho]; cbn [rd_result rd_data rd_bytesRead reading_to_go].
  - cbn [BlockStore_StepPast]. bs_steps. apply done_met; [done | by apply met_record | by left].
  - cbn [BlockStore_StepPast]. bs_steps. apply done_met; [done | by eapply met_unopened | by right].
  - cbn [BlockStore_StepPast]. eapply wp_mono; [apply (ReadNextBlockIfBehind_spec _ _ _ Hn); unfold unreadable; by rewrite Hv |].
    cbv beta. intros movedOn w1 H1. destruct movedOn; cbv beta iota; [| bs_steps].
    + apply Hagain; [| by eapply to_go_left | apply H1]. unfold now, write_closed. rewrite (lb_closed _ _ _ _ H1). apply H1.
    + destruct H1 as [[Hf _] | [-> Hb]]; [apply done_frozen; [by left | done] |].
      apply done_all; [by left | done |]. apply (nothing_unsent _ (hs_ok _ _ _ Hn) Hb).
      unfold verdict_at_cursor, extent_verdict in Hv. by destruct (Z.leb_spec (lenZ (oldest_bytes (sequence_part w))) (cursor (sequence_part w))); [| repeat case_match].
  - cbn [BlockStore_StepPast]. eapply wp_mono; [apply (Abandon_spec _ _ _ Hn); unfold unreadable; by rewrite Hv |].
    cbv beta. intros movedOn w1 H1. destruct movedOn; cbv beta iota; [| bs_steps].
    + apply Hagain; [| by eapply to_go_left | apply H1]. unfold now, write_closed. rewrite (lb_closed _ _ _ _ H1). apply H1.
    + destruct H1 as [[Hf _] | (Hh1 & Hc1 & Hu)]; [apply done_frozen; [by right | done] |].
      apply done_all; [by right | | done]. unfold now, write_closed. by rewrite Hc1.
  - assert (Hstep : forall w1, keeps w w1 -> wp (BlockStore_StepPastCurrent) (fun a => wp
        (if a then let! r := BlockStore_ReadCurrent maxSize dst 0 in st_ret (true, r) else st_ret (false, mkReadState res dst 0))
        (fun rr w' => if fst rr then reading had None dst maxSize (snd rr) w' /\ reading_to_go (snd rr) w' < to_go w
                      else read_done had None dst maxSize w' (snd rr))) w1).
    { intros w1 K. pose proof (holds_keeps _ _ _ _ Hn K) as Hn1. destruct (still_verdict _ _ (kp_still _ _ K)) as (Ev & Ec & _).
      destruct (same_run_still _ _ (kp_still _ _ K)) as [(E1 & E2 & E3) E4].
      eapply wp_mono; [apply (StepPastCurrent_spec _ w1 len Hn1); [by rewrite Ec, (kp_records _ _ K) | by rewrite Ev] |].
      cbv beta. intros a w2 (-> & Hh2 & (F1 & F2 & F3) & Hlt & Hl2). apply Hagain; [| | exact Hl2].
      - unfold now. replace (write_closed w2) with (write_closed w); [done |]. unfold write_closed. congruence.
      - unfold to_go. rewrite F1, F2, E1, E2. lia. }
    assert (Eto : reading_to_go (mkReadState res dst 0) w = to_go w) by (by destruct Hres as [-> | ->]).
    destruct Hres as [-> | ->]; cbn [BlockStore_StepPast].
    + unfold BlockStore_StepPastRejected. wp_step. eapply wp_mono; [apply ReportLoss_keeps |]. cbv beta. intros _ w1 K. by apply Hstep.
    + apply Hstep, keeps_refl.
Qed.

(** The outcome of a call for the next record. *)
Inductive next_unsent (had : bool) oq dst maxSize : bool * bytes * Z -> bs_world D P W -> Prop :=
| next_frozen w : frozen w -> next_unsent had oq dst maxSize (false, dst, 0) w
| next_none w : now w oq -> SolidSyslogBlockSequence_HasUnsent (bw_BlockSequence w) = false -> next_unsent had oq dst maxSize (false, dst, 0) w
| next_unopened len p w : now w oq -> verdict_at_cursor (sequence_part w) = (SOLIDSYSLOG_RECORD_STORE_READ_SUCCEEDED, len) ->
    fst (fst (sp_OpenRecord (stored_record (P := P) (oldest_bytes (sequence_part w)) (cursor (sequence_part w)) len) p)) =
      SOLIDSYSLOG_SECURITY_POLICY_OPEN_COULD_NOT_RUN ->
    (rs_HasReadRecord (bw_RecordStore w) = true -> had = true) ->
    next_unsent had oq dst maxSize (false, dst, 0) w
| next_record len dst' w : now w oq -> verdict_at_cursor (sequence_part w) = (SOLIDSYSLOG_RECORD_STORE_READ_SUCCEEDED, len) ->
    rs_HasReadRecord (bw_RecordStore w) = true ->
    (forall q, oq = Some q -> exists data q', q = data :: q' /\ len = lenZ data /\ dst' = spliceZ dst 0 (takeZ (Z.min len maxSize) data)) ->
    next_unsent had oq dst maxSize (true, dst', Z.min len maxSize) w.

Lemma frozen_by_failure w (Q : unit -> bs_world D P W -> Prop) : (forall w', frozen w' -> Q tt w') ->
  wp (let! frozen := BlockStore_FreezeIfDeviceFailed in
      if! negb frozen then BlockStore_Freeze SOLIDSYSLOG_BLOCK_STORE_ERROR_READ_FAILED end!) Q w.
Proof using.
  intros HQ. bs_steps. eapply wp_mono; [apply FreezeIfDeviceFailed_spec |]. cbv beta. intros f w1 [-> Hf].
  destruct (sq_DeviceFailed (bw_BlockSequence w)); cbn [negb]; bs_steps; [apply HQ, Hf |].
  eapply wp_mono; [apply Freeze_spec |]. cbv beta. intros [] w2 [Hf2 _]. by apply HQ.
Qed.

Lemma verdict_length sq len : verdict_at_cursor sq = (SOLIDSYSLOG_RECORD_STORE_READ_SUCCEEDED, len) -> 0 < len <= SOLIDSYSLOG_MAX_MESSAGE_SIZE.
Proof using. intros Hv. by apply verdict_succeeded in Hv as (_ & _ & _ & _ & H1 & _). Qed.
Lemma ReadNextUnsent_spec oq dst maxSize w : now w oq -> 0 < maxSize -> let had := rs_HasReadRecord (bw_RecordStore w) in
  wp (BlockStore_ReadNextUnsent dst maxSize) (next_unsent had oq dst maxSize) w.
Proof using HDS HPS.
  intros Hn Hm had. unfold BlockStore_ReadNextUnsent. cbv zeta. bs_steps.
  destruct (SolidSyslogBlockSequence_HasUnsent (bw_BlockSequence w)) eqn:Eu; bs_steps; [| by apply next_none].
  eapply wp_mono; [apply (ReadCurrent_spec had _ _ _ _ _ Hn); [lia | done] |]. cbv beta. intros r w1 H1. bs_steps. clearbody had.
  assert (HI : reading had oq dst maxSize r w1 /\ reading_to_go r w1 < Z.of_nat (read_rounds (bw_BlockSequence w1))).
  { unfold read_rounds. split.
    - destruct H1 as [-> | (Hh & Hr & (_ & _ & E) & _)]; [by left | right]. split; [| done]. unfold now, write_closed. by rewrite E.
    - destruct H1 as [-> | (Hh & Hr & (E1 & E2 & E3) & E4)]; [change (0 < Z.of_nat (S (Z.to_nat (BlockSequence_BlockCount (bw_BlockSequence w1) * (sq_MaxBlockSize (bw_BlockSequence w1) + 1))))); lia |].
      destruct (now_measure _ _ Hn) as [Hc Hk]. unfold reading_to_go. pose proof (met_not_failed _ _ _ _ _ _ Hr).
      replace (match rd_result r with SOLIDSYSLOG_RECORD_STORE_READ_DEVICE_FAILED => 0 | _ => to_go w1 end) with (to_go w1) by (by destruct (rd_result r)).
      unfold to_go. rewrite E4. unfold count, max_size in *.
      assert (0 <= BlockSequence_BlockCount (bw_BlockSequence w1) * (sq_MaxBlockSize (bw_BlockSequence w1) + 1)) by nia. lia. }
  destruct HI as [HI Hf].
  eapply wp_mono; [eapply (wp_loopM (reading had oq dst maxSize) reading_to_go _ _ _ _ (fun r w => read_done had oq dst maxSize w r)); [exact HI | exact Hf |] |].
  { clear -Hm HDS HPS. intros r w HI. split.
    - destruct HI as [-> | [Hn _]]; [done |]. pose proof (to_go_positive _ _ Hn). unfold reading_to_go. destruct (rd_result r); lia.
    - apply read_step_spec; [lia | exact HI]. }
  cbv beta. intros r2 w2 Hd. cbv beta iota. wp_step. destruct Hd as [| res Hres Hf2 | res Hres Hn2 Hu2 | r2 Hn2 Hr2 Hres]; cbn [rd_result rd_data rd_bytesRead device_failed_read].
  - apply frozen_by_failure. intros w3 Hf3. bs_steps. by apply next_frozen.
  - destruct Hres as [-> | ->]; bs_steps; by apply next_frozen.
  - destruct Hres as [-> | ->]; bs_steps; by apply next_none.
  - destruct Hr2 as [len dst' Hv Hh Hq | len p Hv Hop Hhad | | | res len _ Hr]; cbn [rd_result] in Hres; try (by destruct Hres);
      [| | by destruct Hr as [-> | ->]; destruct Hres]; cbn [rd_result rd_data rd_bytesRead]; bs_steps.
    + pose proof (verdict_length _ _ Hv). replace (0 <? Z.min len maxSize) with true by (symmetry; apply Z.ltb_lt; lia).
      apply next_record; [| exact Hv | exact Hh | exact Hq]. by eapply (holds_keeps (write_closed w2) w2); [| apply keeps_same].
    + by eapply next_unopened.
Qed.

(** ** Marking *)

(** The oldest block with the mark written on its first unsent record. *)
Section marking.
Context sq rs (len : Z) (d' : D) (Hs : store_ok sq rs).
Context (Hv : verdict_at_cursor sq = (SOLIDSYSLOG_RECORD_STORE_READ_SUCCEEDED, len)).
Context (Hoth : forall j, j <> oldest sq -> block d' j = block (sw_Dev sq) j).
Context (Hnew : default [] (block d' (oldest sq)) = spliceZ (oldest_bytes sq) (cursor sq + rsize (P := P) len - 1) [SENT_FLAG_SENT]).
Definition on_device_now sq (d : D) : sq_world D W := sq <| sw_Dev := d |>.
Let sq1 := on_device_now sq d'.

Lemma marked_extent : 0 <= cursor sq /\ 6 <= rsize (P := P) len /\ cursor sq + rsize (P := P) len <= lenZ (oldest_bytes sq).
Proof using Hs Hv HPS.
  pose proof (so_cursor _ _ Hs). apply verdict_succeeded in Hv as (_ & _ & _ & _ & Hl & He). unfold rsize in *.
  pose proof TrailerSize_bound. lia.
Qed.
Lemma marked_content j : lenZ (content_of sq1 j) = lenZ (content_of sq j) /\ (j <> oldest sq -> content_of sq1 j = content_of sq j).
Proof using Hs Hv Hoth Hnew HPS.
  destruct marked_extent as (M1 & M2 & M3). unfold content_of. simpl. destruct (decide (j = oldest sq)) as [-> | Hj].
  - rewrite Hnew. split; [| done]. change (default [] (block (sw_Dev sq) (oldest sq))) with (oldest_bytes sq).
    apply lenZ_spliceZ; change (lenZ [SENT_FLAG_SENT]) with 1; lia.
  - by rewrite Hoth.
Qed.
Lemma marked_block j : block d' j <> None <-> block (sw_Dev sq) j <> None.
Proof using Hs Hv Hoth Hnew HPS.
  destruct (decide (j = oldest sq)) as [-> | Hj]; [| by rewrite Hoth].
  destruct marked_extent as (M1 & M2 & M3). destruct (marked_content (oldest sq)) as [Hl _]. unfold content_of in Hl. simpl in Hl.
  assert (Hpos : 0 < lenZ (default [] (block (sw_Dev sq) (oldest sq)))) by (change (default [] (block (sw_Dev sq) (oldest sq))) with (oldest_bytes sq); lia).
  destruct (block d' (oldest sq)), (block (sw_Dev sq) (oldest sq)); try done; simpl in *; rewrite lenZ_nil in *; lia.
Qed.
Lemma marked_sq_ok : sq_ok sq1.
Proof using Hs Hv Hoth Hnew HPS.
  destruct (so_sequence _ _ Hs) as [H1 H2 [S1 S2 S3] H4]. split; [exact H1 | exact H2 | split | exact H4].
  - intros s Hseq. change (present (sw_Self sq) s = true <-> block d' s <> None). rewrite (S1 s Hseq). symmetry. apply marked_block.
  - simpl. rewrite (proj1 (marked_content _)). exact S2.
  - intros Hk. destruct (S3 Hk) as [A B]. split; [exact A |]. simpl. rewrite (proj1 (marked_content _)). exact B.
Qed.
Lemma marked_store_ok rs' : lenZ (rs_Buffer rs') = RECORD_BUFFER_SIZE -> rs_HasReadRecord rs' = false ->
  store_ok (with_cursor (cursor sq + rsize (P := P) len) sq1) rs'.
Proof using Hs Hv Hoth Hnew HPS.
  intros Hl Hh. destruct marked_extent as (M1 & M2 & M3). split; [apply (SetReadCursor_ok (cursor sq + rsize (P := P) len) sq1), marked_sq_ok | exact Hl | apply Hs | | | ].
  - intros i Hi. change (content_of (with_cursor _ sq1) i) with (content_of sq1 i). rewrite (proj1 (marked_content i)).
    destruct (so_blocks _ _ Hs i Hi) as [Hb Hle]. split; [| exact Hle].
    destruct (decide (i = oldest sq)) as [-> | Hne]; [| by rewrite (proj2 (marked_content i))].
    change (content_of sq1 (oldest sq)) with (default [] (block d' (oldest sq))). rewrite Hnew. unfold spliceZ.
    apply Forall_app. split; [by apply all_bytes_takeZ |]. apply Forall_app. split; [by apply Forall_singleton | by apply all_bytes_dropZ].
  - change (oldest_bytes (with_cursor _ sq1)) with (content_of sq1 (oldest sq)). rewrite (proj1 (marked_content _)).
    change (content_of sq (oldest sq)) with (oldest_bytes sq). unfold cursor in *. simpl. lia.
  - congruence.
Qed.
Lemma marked_queued closed q : queued closed sq q -> exists data q', q = data :: q' /\ queued closed (with_cursor (cursor sq + rsize (P := P) len) sq1) q'.
Proof using Hs Hv Hoth Hnew HPS.
  intros Hq. destruct (queued_head _ _ _ _ (so_sequence _ _ Hs) Hq Hv) as (data & q1 & q2 & whole & -> & El & Hmsg & Hrec & Hp & Hput).
  exists data, (q1 ++ q2). split; [done |]. destruct (sent_prefix_mark _ _ _ _ _ Hp Hrec) as (Hl & Hp' & Hrec'). rewrite <- El in *.
  assert (Eb : content_of sq1 (oldest sq) = spliceZ (oldest_bytes sq) (cursor sq + rsize (P := P) len - 1) [SENT_FLAG_SENT]) by exact Hnew.
  split; [apply Hq |]. exists (cursor sq + rsize (P := P) len).
  change (oldest_bytes (with_cursor _ sq1)) with (content_of sq1 (oldest sq)). rewrite Eb. split; [exact Hp' |]. split; [| by left].
  apply Hput; [by rewrite <- Eb in Hrec' |]. intros j _ Hj. by apply marked_content.
Qed.
End marking.

Lemma MarkSent_spec oq w : now w oq ->
  wp BlockStore_MarkSent (fun _ w' =>
    if rs_HasReadRecord (bw_RecordStore w) then frozen w' \/ oq <> Some [] /\ now w' (option_map (@tl bytes) oq) /\ rs_HasReadRecord (bw_RecordStore w') = false else w' = w) w.
Proof using HDS HPS.
  intros [Hw Hs Hq]. unfold BlockStore_MarkSent. wp_step. apply wp_bs_records.
  destruct (rs_HasReadRecord (bw_RecordStore w)) eqn:Eh.
  2:{ unfold SolidSyslogRecordStore_MarkLastReadAsSent. wp_steps. simpl rs_HasReadRecord. rewrite Eh. wp_steps. by destruct w. }
  destruct (so_last _ _ Hs Eh) as (len & L1 & L2 & Hv). destruct (marked_extent _ _ _ Hs Hv) as (M1 & M2 & M3).
  destruct (oldest_ok _ _ Hs) as [_ Hmax]. destruct (so_size _ _ Hs) as [_ Hsz].
  eapply wp_mono; [apply (MarkLastReadAsSent_spec 0 (oldest (sequence_part w)) (cursor (sequence_part w)) (lenZ (oldest_bytes (sequence_part w))) len);
    [apply Hs | done | by eapply verdict_length | exact M1 | unfold sized in *; lia | exact M3 | exact M3] |].
  cbv beta. intros [mark next] r1 (Hwf & Hoth & HM). cbn [fst snd] in HM. wp_steps. destruct mark; [| done |].
  2:{ eapply wp_mono; [apply Freeze_spec |]. cbv beta. intros _ w' [Hf _]. by left. }
  destruct HM as (-> & Hh & Econ).
  pose proof (marked_store_ok _ _ _ _ Hs Hv Hoth Econ _ Hwf Hh) as Hs1.
  pose proof (marked_queued _ _ _ _ Hs Hv Hoth Econ (write_closed w)) as Hq1.
  set (sq1 := with_cursor _ _) in *. wp_steps. apply wp_bs_sequence. unfold SolidSyslogBlockSequence_SetReadCursor. sq_steps.
  set (w1 := put_sequence _ _). assert (E1 : sequence_part w1 = sq1) by done.
  assert (Hoq : oq <> Some [] /\ may_queue (write_closed w) sq1 (option_map (@tl bytes) oq)).
  { destruct oq as [q |]; [| done]. destruct (Hq1 q Hq) as (data & q' & -> & Hq'). done. }
  destruct Hoq as [Hne Hq2]. pose proof (so_sequence _ _ Hs1) as Hok1.
  apply wp_bs_sequence. rewrite E1. eapply wp_mono; [apply DisposeReadBlockIfDrained_spec; by destruct Hok1 |].
  cbv beta. intros changed sq2 H2. wp_steps. eapply wp_mono; [apply FreezeIfDeviceFailed_spec |]. cbv beta. intros f w2 [-> Hf].
  assert (Edf : sq_DeviceFailed (bw_BlockSequence (put_sequence sq2 w1)) = sq_DeviceFailed (sw_Self sq2)) by done. rewrite Edf in Hf |- *.
  destruct (sq_DeviceFailed (sw_Self sq2)) eqn:Efail; cbn [negb andb]; [wp_steps; left; apply Hf |].
  destruct H2 as [H2 | H2]; [unfold failed in H2; congruence |]. subst w2.
  assert (Hfin : store_ok sq2 (rw_Self r1) /\ may_queue (write_closed w) sq2 (option_map (@tl bytes) oq) /\ sq_WriteBlockCorrupt (sw_Self sq2) = write_closed w).
  { destruct changed.
    - destruct H2 as (Hdr & _ & Hl). pose proof (moved_left _ _ _ Hok1 Hl) as Hm. split; [| split].
      + eapply (store_ok_moved _ _ _ _ Hok1 Hm); [exact Hs1 | exact Hwf | by right].
      + destruct (option_map (@tl bytes) oq) as [q |]; [| done]. destruct (queued_moved _ _ _ _ Hok1 Hm _ _ Hq2) as (lost & kept & -> & Hk & _ & Hlost).
        rewrite Hlost; [exact Hk | done |]. unfold unreadable, verdict_at_cursor, extent_verdict. unfold drained in Hdr.
        destruct (Z.leb_spec (lenZ (oldest_bytes sq1)) (cursor sq1)) as [| Hlt]; [done | exfalso]. unfold oldest_bytes, oldest, cursor in Hlt. lia.
      + by rewrite (mv_closed _ _ _ _ Hm).
    - destruct H2 as [Hst _]. pose proof (moved_still _ _ Hok1 Hst) as Hm. split; [| split].
      + eapply (store_ok_moved _ _ _ _ Hok1 Hm); [exact Hs1 | exact Hwf | by left].
      + destruct (option_map (@tl bytes) oq) as [q |]; [| done]. by eapply queued_still.
      + by rewrite (mv_closed _ _ _ _ Hm). }
  destruct Hfin as (Hs2 & Hq3 & Ecl). clear H2 Hq1.
  assert (Hnow : forall rs', (rs' = rw_Self r1 \/ rs' = (rw_Self r1) <| rs_HasReadRecord := false |>) ->
    store_ok sq2 rs').
  { intros rs' [-> | ->]; [done |]. split; try apply Hs2. done. }
  destruct changed; cbn [andb]; wp_steps.
  - apply wp_bs_records. unfold SolidSyslogRecordStore_ForgetLastRead, set_self. wp_steps. right. split; [done |]. split; [| done]. split.
    + exact Hw.
    + simpl. destruct sq2 as [s2 d2 e2 t2]. apply Hnow. by right.
    + unfold write_closed at 1. simpl. rewrite Ecl. by destruct sq2.
  - right. split; [done |]. split; [| done]. split.
    + exact Hw.
    + simpl. destruct sq2 as [s2 d2 e2 t2]. apply Hnow. by left.
    + unfold write_closed at 1. simpl. rewrite Ecl. by destruct sq2.
Qed.

(** ** Writing *)

Lemma store_ok_last sq rs rs' : store_ok sq rs -> lenZ (rs_Buffer rs') = RECORD_BUFFER_SIZE ->
  rs_HasReadRecord rs' = rs_HasReadRecord rs -> rs_LastReadBlockIndex rs' = rs_LastReadBlockIndex rs ->
  rs_LastSentFlagOffset rs' = rs_LastSentFlagOffset rs -> store_ok sq rs'.
Proof using. intros Hs Hl H1 H2 H3. split; try apply Hs; [done |]. rewrite H1, H2, H3. apply Hs. Qed.
Lemma tear_not_whole b c q : records_at (P := P) b c [] false -> records_at (P := P) b c q true -> False.
Proof using HPS.
  intros H1 H2. inversion H1 as [| c' len Hc Hv |]; subst. destruct q as [| data q].
  - inversion H2; subst. apply verdict_corrupt_inside in Hv. lia.
  - destruct (records_verdict _ _ _ _ _ H2). congruence.
Qed.

(** The write block with a record, or a part of one, behind what it had. *)
Section appending.
Context sq rs (m rec part rest b : bytes) (d' : D) (Hs : store_ok sq rs).
Let wr := sq_WriteSequence (sw_Self sq).
Context (Hm : is_message m) (Hrec : sealed_record (P := P) m rec) (Ep : rec = part ++ rest).
Context (Hopen : sq_WriteBlockCorrupt (sw_Self sq) = false).
Context (Hroom : sq_WritePosition (sw_Self sq) + rsize (P := P) (lenZ m) <= sq_MaxBlockSize (sw_Self sq)).
Context (Hb : block (sw_Dev sq) wr = Some b) (Hoth : forall j, j <> wr -> block d' j = block (sw_Dev sq) j).
Context (Hb' : block d' wr = Some (b ++ part)).
Definition appended sq (d : D) (position : Z) (closed : bool) : sq_world D W :=
  sq <| sw_Dev := d |> <| sw_Self := (sw_Self sq) <| sq_WritePosition := position |> <| sq_WriteBlockCorrupt := closed |> |>.
Let sq1 := appended sq d' (lenZ b + lenZ part) (if decide (rest = []) then false else true).

Lemma appended_content j : content_of sq1 j = if decide (j = wr) then b ++ part else content_of sq j.
Proof using Hb Hoth Hb'.
  unfold content_of. simpl. destruct (decide (j = wr)) as [-> | Hj]; [by rewrite Hb' | by rewrite Hoth].
Qed.
Lemma appended_grows j : exists x, content_of sq1 j = content_of sq j ++ x /\ (j <> wr -> x = []).
Proof using Hb Hoth Hb'.
  rewrite appended_content. destruct (decide (j = wr)) as [-> |].
  - exists part. unfold content_of. by rewrite Hb.
  - exists []. by rewrite app_nil_r.
Qed.
Lemma append_position : sq_WritePosition (sw_Self sq) = lenZ b.
Proof using Hs Hb. rewrite (sy_write _ (ok_synced _ (so_sequence _ _ Hs))). unfold content_of. fold wr. by rewrite Hb. Qed.
Lemma appended_sq_ok : sq_ok sq1.
Proof using Hs Hb Hoth Hb'.
  destruct (so_sequence _ _ Hs) as [H1 H2 [S1 S2 S3] H4]. split; [exact H1 | by destruct H2 | split | exact H4].
  - intros s Hseq. change (present (sw_Self sq) s = true <-> block d' s <> None). rewrite (S1 s Hseq).
    destruct (decide (s = wr)) as [-> | Hj]; [by rewrite Hb, Hb' | by rewrite Hoth].
  - simpl. fold wr. rewrite appended_content, decide_True by done. by rewrite lenZ_app.
  - intros Hk. destruct (S3 Hk) as [A B]. split; [exact A |]. simpl. rewrite appended_content, decide_False by done. exact B.
Qed.
Lemma appended_store_ok : store_ok sq1 rs.
Proof using Hs Hb Hoth Hb' Hm Hrec Ep Hroom HPS.
  rewrite append_position in Hroom. pose proof (sealed_record_len _ _ Hrec) as Hl. rewrite Ep, lenZ_app in Hl. pose proof (lenZ_nonneg rest).
  split; [exact appended_sq_ok | apply Hs | apply Hs | | |].
  - intros i Hi. pose proof (so_blocks _ _ Hs i Hi) as [Hib Hil]. rewrite appended_content.
    destruct (decide (i = wr)) as [-> |]; [| done]. unfold content_of in Hib. rewrite Hb in Hib. simpl in Hib. split.
    + apply Forall_app. split; [done |]. pose proof (sealed_record_bytes _ _ Hrec Hm) as Hrb. rewrite Ep in Hrb. by apply Forall_app in Hrb as [? _].
    + rewrite lenZ_app. simpl. lia.
  - destruct (appended_grows (oldest sq)) as (x & Ex & _). change (oldest_bytes sq1) with (content_of sq1 (oldest sq)). rewrite Ex, lenZ_app.
    pose proof (so_cursor _ _ Hs). pose proof (lenZ_nonneg x). unfold oldest_bytes in *. unfold cursor in *. simpl. lia.
  - intros Hh. destruct (so_last _ _ Hs Hh) as (len & L1 & L2 & L3). exists len. split; [exact L1 |]. split; [exact L2 |].
    destruct (appended_grows (oldest sq)) as (x & Ex & _). unfold verdict_at_cursor.
    change (oldest_bytes sq1) with (content_of sq1 (oldest sq)). rewrite Ex. change (content_of sq (oldest sq)) with (oldest_bytes sq).
    pose proof (so_cursor _ _ Hs). eapply verdict_ext; [| | exact L3].
    + rewrite lenZ_app. pose proof (lenZ_nonneg x). lia.
    + intros i H1 H2. apply nthZ_app_l. unfold cursor in *. simpl in *. lia.
Qed.
Lemma appended_queued q : queued false sq q ->
  queued (if decide (rest = []) then false else true) sq1 (if decide (rest = []) then q ++ [m] else q).
Proof using Hs Hb Hoth Hb' Hm Hrec Ep HPS.
  intros [Hc (c0 & Hp & Hh & Hcur)]. split; [exact Hc |]. exists c0. pose proof (ok_run _ (so_sequence _ _ Hs)) as Hr.
  destruct (run_last _ Hr) as [front Ef]. pose proof (run_NoDup (sw_Self sq)) as Hnd. rewrite Ef in Hnd.
  apply list.NoDup_app in Hnd as (_ & Hnd & _).
  assert (Hrange : 0 <= c0 <= lenZ (oldest_bytes sq)).
  { destruct (run_head _ Hr) as [r Er]. rewrite Er in Hh. destruct (run_holds_head _ _ _ _ _ _ Hh) as (? & ? & ? & _ & Hrr & _). by eapply records_range. }
  destruct (appended_grows (oldest sq)) as (x & Ex & Hx). change (oldest_bytes sq1) with (content_of sq1 (oldest sq)). split; [| split].
  - rewrite Ex. change (content_of sq (oldest sq)) with (oldest_bytes sq). eapply sent_prefix_ext; [exact Hp | rewrite lenZ_app; pose proof (lenZ_nonneg x); lia |].
    rewrite takeZ_app_le; [done | apply Hrange].
  - change (run (sw_Self sq1)) with (run (sw_Self sq)). rewrite Ef in *. eapply run_holds_write; [exact Hh | exact Hm | exact Hrec | exact Ep | | | |].
    + intros j Hj. rewrite appended_content, decide_False; [done |]. intros ->. apply (Hnd wr Hj). by apply list_elem_of_singleton.
    + rewrite appended_content. fold wr. rewrite decide_True by done. unfold content_of. fold wr. by rewrite Hb.
    + intros Hne. by rewrite decide_False.
    + intros He. by rewrite decide_True.
  - destruct Hcur as [E | [E Ht]]; [by left | right]. destruct (decide (oldest sq = wr)) as [Eo | Hne].
    + exfalso. rewrite (run_alone _ Hr Eo) in Hh. destruct (run_holds_head _ _ _ _ _ _ Hh) as (q1 & q2 & whole & _ & Hrr & Hw & _).
      destruct (Hw eq_refl) as [_ Hw']. destruct whole; [| by specialize (Hw' eq_refl)]. by eapply tear_not_whole.
    + rewrite Ex, (Hx Hne), app_nil_r. done.
Qed.
End appending.

(** ** Room for the record *)

Definition forget (changed : bool) rs : SolidSyslogRecordStore := if changed then rs <| rs_HasReadRecord := false |> else rs.
(** What became of the queue when room was made: the blocks evicted take their
    unsent records with them, and the record in mind, which is the first. *)
Definition given_up w (oq oq' : option (list bytes)) (has : bool) : Prop :=
  (has = true -> rs_HasReadRecord (bw_RecordStore w) = true) /\
  match oq with
  | Some q => exists lost kept, q = lost ++ kept /\ oq' = Some kept /\ (has = true -> lost = []) /\
      (lost <> [] -> policy_answer (sequence_part w) = SOLIDSYSLOG_DISCARD_POLICY_OLDEST /\ sq_MaxBlocks (bw_BlockSequence w) <= count w)
  | None => oq' = None
  end.
Lemma given_up_none w oq : given_up w oq oq (rs_HasReadRecord (bw_RecordStore w)).
Proof using. split; [done |]. destruct oq as [q |]; [| done]. by exists [], q. Qed.
Lemma prepared_ok w oq n changed sq' : now w oq -> prepared n (sequence_part w) (true, changed) sq' -> ~ failed sq' ->
  0 <= n <= sq_MaxBlockSize (bw_BlockSequence w) ->
  store_ok sq' (forget changed (bw_RecordStore w)) /\ BlockSequence_BlockIsFull (sw_Self sq') n = false /\
  sq_MaxBlockSize (sw_Self sq') = sq_MaxBlockSize (bw_BlockSequence w) /\
  exists oq', given_up w oq oq' (rs_HasReadRecord (forget changed (bw_RecordStore w))) /\ may_queue (sq_WriteBlockCorrupt (sw_Self sq')) sq' oq'.
Proof using HDS HPS.
  intros [Hw Hs Hq] Hp Hf Hn. pose proof (so_sequence _ _ Hs) as Hok. destruct (so_size _ _ Hs) as [_ Hsz]. pose proof (sized_room (sq_MaxBlockSize (bw_BlockSequence w)) Hsz) as Hszr. clear Hsz.
  inversion Hp as [Hfull E1 E2 | | ch gone w1 Hfull Hr Hpol E1 E2 |]; subst; [| | done].
  - split; [exact Hs |]. split; [exact Hfull |]. split; [done |]. exists oq. split; [apply given_up_none | exact Hq].
  - pose proof (moved_rotated _ _ _ _ Hok Hr) as Hmv. destruct (rt_write _ _ _ _ Hr) as (Ew & Epos & Ecl).
    pose proof (mv_max _ _ _ _ Hmv) as Emax. split; [| split; [| split; [exact Emax |]]].
    + eapply (store_ok_moved _ _ _ _ Hok Hmv); [exact Hs | by destruct changed; apply Hs |].
      destruct changed; [by right | left]. split; [| done]. pose proof (rt_changed _ _ _ _ Hr) as E. symmetry in E. by apply negb_false_iff, bool_decide_eq_true in E.
    + unfold BlockSequence_BlockIsFull. rewrite Epos, Ecl, Emax. change (sq_MaxBlockSize (sw_Self (sequence_part w))) with (sq_MaxBlockSize (bw_BlockSequence w)).
      rewrite size_add_small by lia. simpl. apply Z.ltb_ge. lia.
    + destruct oq as [q |]; [| exists None; split; [split; [by destruct changed | done] | done]]. destruct (queued_moved _ _ _ _ Hok Hmv _ _ Hq) as (lost & kept & -> & Hk & Hl0 & Hl1).
      exists (Some kept). rewrite Ecl. split; [| exact Hk]. split; [by destruct changed |]. exists lost, kept. split; [done |]. split; [done |]. split.
      { intros Hh. destruct changed; [done |]. apply Hl0. pose proof (rt_changed _ _ _ _ Hr) as E. symmetry in E. by apply negb_false_iff, bool_decide_eq_true in E. }
      intros Hne.
      destruct (sq_EvictedUnsent (sw_Self sq')) eqn:Ee; [split; [by apply Hpol | by apply (rt_evicted _ _ _ _ Hr)] | exfalso].
      destruct (rt_drained _ _ _ _ Hr Ee) as [Hg | [Hg Hd]]; [by apply Hne, Hl0 | apply Hne, Hl1; [exact Hg |]].
      unfold unreadable, verdict_at_cursor, extent_verdict. unfold drained in Hd.
      destruct (Z.leb_spec (lenZ (oldest_bytes (sequence_part w))) (cursor (sequence_part w))) as [| Hlt]; [done | exfalso].
      unfold oldest_bytes, oldest, cursor in Hlt. lia.
Qed.

(** A device as a store of [max]-byte blocks leaves it with the messages [q] to send. *)
Definition media (d : D) (max : Z) q : Prop :=
  exists sq rs closed, store_ok sq rs /\ queued closed sq q /\ sw_Dev sq = d /\ sq_MaxBlockSize (sw_Self sq) = max.

(** The outcome of a write of [m]. *)
Inductive write_outcome oq w (m : bytes) : SolidSyslogStoreWriteResult -> bs_world D P W -> Prop :=
| write_frozen w' : frozen w' -> sq_DeviceFailed (bw_BlockSequence w') = true -> write_outcome oq w m SOLIDSYSLOG_STORE_WRITE_NOT_RETAINED w'
| write_torn w' oq' has : frozen w' -> given_up w oq oq' has ->
    (forall q, oq' = Some q -> media (bw_Dev w') (max_size w) q \/ media (bw_Dev w') (max_size w) (q ++ [m])) ->
    write_outcome oq w m SOLIDSYSLOG_STORE_WRITE_NOT_RETAINED w'
| write_refused w' : now w' oq -> rs_HasReadRecord (bw_RecordStore w') = rs_HasReadRecord (bw_RecordStore w) -> policy_answer (sequence_part w) <> SOLIDSYSLOG_DISCARD_POLICY_OLDEST ->
    sq_MaxBlocks (bw_BlockSequence w) <= count w -> BlockSequence_BlockIsFull (bw_BlockSequence w) (rsize (P := P) (lenZ m)) = true ->
    write_outcome oq w m SOLIDSYSLOG_STORE_WRITE_NOT_RETAINED w'
| write_kept w' oq' : given_up w oq oq' (rs_HasReadRecord (bw_RecordStore w')) -> now w' (option_map (fun q => q ++ [m]) oq') ->
    write_outcome oq w m SOLIDSYSLOG_STORE_WRITE_KEPT w'
| write_lost w' oq' : given_up w oq oq' (rs_HasReadRecord (bw_RecordStore w')) -> now w' oq' -> write_outcome oq w m SOLIDSYSLOG_STORE_WRITE_LOST w'.

(** Ready to append the record of [m]. *)
Definition has_room w oq (m : bytes) : Prop :=
  now w oq /\ BlockSequence_BlockIsFull (bw_BlockSequence w) (rsize (P := P) (lenZ m)) = false.
Lemma has_room_open w oq m : has_room w oq m -> is_message m ->
  sq_WriteBlockCorrupt (bw_BlockSequence w) = false /\
  sq_WritePosition (bw_BlockSequence w) + rsize (P := P) (lenZ m) <= max_size w /\
  size_add (sq_WritePosition (bw_BlockSequence w)) (rsize (P := P) (lenZ m)) = sq_WritePosition (bw_BlockSequence w) + rsize (P := P) (lenZ m) /\
  exists b, block (bw_Dev w) (sq_WriteSequence (bw_BlockSequence w)) = Some b /\ sq_WritePosition (bw_BlockSequence w) = lenZ b.
Proof using HDS HPS.
  intros ([Hw Hs _] & Hf) Hm. apply orb_false_elim in Hf as [Hcl Hroom]. split; [exact Hcl |]. pose proof (message_rsize _ Hm) as Hn.
  assert (Hin : sq_WriteSequence (bw_BlockSequence w) ∈ run (sw_Self (sequence_part w))).
  { destruct (run_last _ (ok_run _ (so_sequence _ _ Hs))) as [front Ef]. rewrite Ef. apply elem_of_app. right. apply list_elem_of_here. }
  destruct (run_present _ _ (so_sequence _ _ Hs) Hin) as [_ Hp]. destruct (so_blocks _ _ Hs _ Hin) as [_ Hl].
  pose proof (sy_write _ (ok_synced _ (so_sequence _ _ Hs))) as Ew. unfold content_of in *. simpl in Hp, Hl, Ew.
  pose proof (sized_room _ (proj2 (so_size _ _ Hs))) as Hz. fold (max_size w) in Hl, Hroom.
  change (sq_MaxBlockSize (sw_Self (sequence_part w))) with (max_size w) in Hz. change RECORD_BUFFER_SIZE with 517 in Hn.
  destruct (block (bw_Dev w) (sq_WriteSequence (bw_BlockSequence w))) as [b |]; [| done]. simpl in Hl, Ew. pose proof (lenZ_nonneg b).
  apply Z.ltb_ge in Hroom. rewrite size_add_small in * by lia. split; [lia |]. split; [done |]. by exists b.
Qed.

Lemma wp_and {S A} (m : ST S A) Q1 Q2 s : wp m Q1 s -> wp m Q2 s -> wp m (fun a s' => Q1 a s' /\ Q2 a s') s.
Proof using. unfold wp. done. Qed.

(** The record was appended: it is the queue's last. *)
Lemma NoteRecordWritten_spec w oq m rec b (r1 : rs_world D P) : has_room w oq m -> is_message m -> sealed_record (P := P) m rec ->
  block (bw_Dev w) (sq_WriteSequence (bw_BlockSequence w)) = Some b ->
  (forall j, j <> sq_WriteSequence (bw_BlockSequence w) -> block (rw_Dev r1) j = block (bw_Dev w) j) ->
  block (rw_Dev r1) (sq_WriteSequence (bw_BlockSequence w)) = Some (b ++ rec) ->
  rs_wf r1 -> same_last (records_part w) r1 ->
  wp (bs_sequence (SolidSyslogBlockSequence_NoteRecordWritten (rsize (P := P) (lenZ m))))
    (fun _ w' => now w' (option_map (fun q => q ++ [m]) oq) /\ rs_HasReadRecord (bw_RecordStore w') = rs_HasReadRecord (bw_RecordStore w))
    (put_records r1 w).
Proof using HDS HPS.
  intros Hr Hm Hrec Hb Hoth Hb' Hwf (U1 & U2 & U3). destruct (has_room_open _ _ _ Hr Hm) as (Hcl & Hroom & Eadd & b0 & Eb0 & Epos).
  assert (b0 = b) as -> by congruence. destruct Hr as [[Hw Hs Hq] _]. unfold write_closed in Hq. rewrite Hcl in Hq.
  set (sq := sequence_part w) in *. assert (Epr : rec = rec ++ []) by (by rewrite app_nil_r).
  pose proof (appended_store_ok sq _ m rec rec [] b (rw_Dev r1) Hs Hm Hrec Epr Hroom Hb Hoth Hb') as Hs1.
  pose proof (appended_queued sq _ m rec rec [] b (rw_Dev r1) Hs Hm Hrec Epr Hb Hoth Hb') as Hq1. rewrite decide_True in Hs1, Hq1 by done.
  set (sq1 := appended sq (rw_Dev r1) (lenZ b + lenZ rec) false) in *.
  pose proof (store_ok_last _ _ (rw_Self r1) Hs1 Hwf U1 U2 U3) as Hs2.
  apply wp_bs_sequence. unfold SolidSyslogBlockSequence_NoteRecordWritten. wp_steps. unfold sq_set. wp_steps.
  eapply wp_mono; [apply Notify_still |]. cbv beta. intros _ sq3 [Hst _].
  assert (Hst1 : still sq1 sq3).
  { eapply still_trans; [| exact Hst]. apply synced_still; [done |]. exists false, (sq_ThresholdCrossed (sw_Self sq)). simpl.
    change (sw_Self (sequence_part (put_records r1 w))) with (bw_BlockSequence w). rewrite Eadd, Epos, (sealed_record_len _ _ Hrec).
    clear -Hcl. destruct (bw_BlockSequence w). simpl in *. by subst. }
  pose proof (so_sequence _ _ Hs1) as Hok1. pose proof (moved_still _ _ Hok1 Hst1) as Hmv.
  split; [| exact U1]. split.
  - exact Hw.
  - destruct sq3 as [s3 d3 e3 t3]. eapply (store_ok_moved _ _ _ _ Hok1 Hmv); [exact Hs2 | exact Hwf | by left].
  - unfold write_closed. simpl. rewrite (mv_closed _ _ _ _ Hmv). simpl. destruct oq as [q |]; [| done]. simpl.
    destruct sq3 as [s3 d3 e3 t3]. eapply (queued_still _ _ _ _ Hok1 Hst1). apply Hq1, Hq.
Qed.
(** The append was cut short. *)
Lemma torn_media w q m rec part rest (d' : D) b : has_room w (Some q) m -> is_message m -> sealed_record (P := P) m rec -> rec = part ++ rest ->
  block (bw_Dev w) (sq_WriteSequence (bw_BlockSequence w)) = Some b ->
  (forall j, j <> sq_WriteSequence (bw_BlockSequence w) -> block d' j = block (bw_Dev w) j) ->
  block d' (sq_WriteSequence (bw_BlockSequence w)) = Some (b ++ part) ->
  media d' (max_size w) q \/ media d' (max_size w) (q ++ [m]).
Proof using HDS HPS.
  intros Hr Hm Hrec Ep Hb Hoth Hb'. destruct (has_room_open _ _ _ Hr Hm) as (Hcl & Hroom & _ & b0 & Eb0 & Epos).
  assert (b0 = b) as -> by congruence. destruct Hr as [[Hw Hs Hq] _]. unfold write_closed in Hq. rewrite Hcl in Hq.
  set (sq := sequence_part w) in *.
  pose proof (appended_store_ok sq _ m rec part rest b d' Hs Hm Hrec Ep Hroom Hb Hoth Hb') as Hs1.
  pose proof (appended_queued sq _ m rec part rest b d' Hs Hm Hrec Ep Hb Hoth Hb' q Hq) as Hq1.
  destruct (decide (rest = [])); [right | left]; by eexists _, _, _.
Qed.

Lemma Append_outcome w w0 oq0 oq m data size : has_room w oq m -> given_up w0 oq0 oq (rs_HasReadRecord (bw_RecordStore w)) -> max_size w = max_size w0 ->
  m = takeZ size data -> is_message m -> 0 < size <= SOLIDSYSLOG_MAX_MESSAGE_SIZE -> size <= lenZ data ->
  wp (let! writeSequence := bs_ask sq_WriteSequence in
      let! appended := bs_records (SolidSyslogRecordStore_Append writeSequence data size) in
      match appended with
      | SOLIDSYSLOG_RECORD_STORE_APPEND_SUCCEEDED =>
          bs_sequence (SolidSyslogBlockSequence_NoteRecordWritten (rsize (P := P) (lenZ m))) ;;;
          bs_set (fun s => s <| st_RefusalReported := false |> <| st_SealFailureReported := false |>) ;;;
          st_ret SOLIDSYSLOG_STORE_WRITE_KEPT
      | SOLIDSYSLOG_RECORD_STORE_APPEND_DEVICE_FAILED =>
          BlockStore_Freeze SOLIDSYSLOG_BLOCK_STORE_ERROR_APPEND_FAILED ;;;
          st_ret SOLIDSYSLOG_STORE_WRITE_NOT_RETAINED
      | SOLIDSYSLOG_RECORD_STORE_APPEND_SEAL_FAILED =>
          BlockStore_ReportSealFailed ;;;
          st_ret SOLIDSYSLOG_STORE_WRITE_LOST
      end) (write_outcome oq0 w0 m) w.
Proof using HDS HPS.
  intros Hr Hg Emax Em Hm Hsz Hlen. bs_steps. apply wp_bs_records.
  destruct (has_room_open _ _ _ Hr Hm) as (_ & _ & _ & b & Eb & _). pose proof Hr as [[Hw Hs Hq] _].
  eapply wp_mono; [apply wp_and; [apply Append_spec; [apply Hs | exact Hsz | exact Hlen] | apply Append_same_last] |].
  cbv beta. intros res r1 [(Hwf & Hoth & Hres) Hlast]. bs_steps. rewrite <- Em in Hres.
  change (block (rw_Dev (records_part w))) with (block (bw_Dev w)) in *. destruct res.
  - destruct Hres as (rec & Hrec & Eb'). specialize (Eb' b Eb). bs_steps.
    eapply wp_mono; [by eapply NoteRecordWritten_spec |]. cbv beta. intros _ w1 [Hn1 Eh]. bs_steps.
    eapply write_kept; [rewrite <- Eh in Hg; exact Hg |]. by eapply (holds_keeps (write_closed w1) w1); [| apply keeps_same].
  - assert (Hst : still (sequence_part w) (sequence_part (put_records r1 w))).
    { apply synced_still; [| exists (sq_AtCapacity (bw_BlockSequence w)), (sq_ThresholdCrossed (bw_BlockSequence w)); simpl; by destruct (bw_BlockSequence w)].
      intros j. simpl. destruct (decide (j = sq_WriteSequence (bw_BlockSequence w))) as [-> | Hj]; [exact Hres | by apply Hoth]. }
    destruct Hlast as (U1 & U2 & U3). pose proof (store_ok_last _ _ (rw_Self r1) Hs Hwf U1 U2 U3) as Hs1.
    destruct (holds_still _ w oq _ _ Hs1 Hq Hst) as [Hs2 Hq2]. bs_steps.
    eapply wp_mono; [apply ReportSealFailed_keeps |]. cbv beta. intros _ w1 K. bs_steps.
    eapply write_lost; [rewrite (kp_records _ _ K); change (rs_HasReadRecord (bw_RecordStore (put_records r1 w))) with (rs_HasReadRecord (rw_Self r1)); rewrite U1; exact Hg |]. destruct (same_run_still _ _ (kp_still _ _ K)) as [(_ & _ & E) _].
    unfold now, write_closed. rewrite E. by eapply (holds_keeps (write_closed w)); [| exact K].
  - destruct Hres as (rec & part & rest & Hrec & Ep & Eb'). specialize (Eb' b Eb). bs_steps.
    eapply wp_mono; [apply Freeze_spec |]. cbv beta. intros _ w1 [Hf Ed]. bs_steps.
    eapply write_torn; [exact Hf | exact Hg |]. intros q ->. rewrite Ed, <- Emax. change (bw_Dev (put_records r1 w)) with (rw_Dev r1).
    by eapply torn_media.
Qed.

Lemma Write_spec w oq data size : now w oq -> is_message (takeZ size data) -> 0 < size <= SOLIDSYSLOG_MAX_MESSAGE_SIZE -> size <= lenZ data ->
  wp (BlockStore_Write data size) (write_outcome oq w (takeZ size data)) w.
Proof using HDS HPS.
  intros Hn Hm Hsz Hlen. set (m := takeZ size data) in *. assert (El : lenZ m = size) by (apply lenZ_takeZ; lia).
  unfold BlockStore_Write. destruct (Z.ltb_spec 0 size); [| lia]. unfold BlockStore_StoreRecord.
  rewrite u16_small by (unfold SOLIDSYSLOG_MAX_MESSAGE_SIZE in *; lia). rewrite RecordSize_rsize by lia.
  replace (rsize (P := P) size) with (rsize (P := P) (lenZ m)) by (by rewrite El). cbv zeta.
  pose proof Hn as [Hw Hs Hq]. pose proof (so_sequence _ _ Hs) as Hok. destruct (so_size _ _ Hs) as [Hbig Hz].
  assert (Hfit : 0 <= rsize (P := P) (lenZ m) <= max_size w).
  { pose proof (message_rsize _ Hm). unfold rsize in *. unfold max_size. simpl in Hbig. lia. }
  wp_step. apply wp_bs_sequence. eapply wp_mono; [apply PrepareForWrite_spec, Hok |]. cbv beta. intros [prep changed] sq1 Hp. wp_steps.
  eapply wp_mono; [apply FreezeIfDeviceFailed_spec |]. cbv beta. intros f w1 [-> Hf].
  change (bw_BlockSequence (put_sequence sq1 w)) with (sw_Self sq1) in *.
  destruct (sq_DeviceFailed (sw_Self sq1)) eqn:Efail; bs_steps; [apply write_frozen; [apply Hf | by rewrite (proj2 Hf)] |]. subst w1.
  assert (Hnf : ~ failed sq1) by (unfold failed; congruence).
  destruct prep; cbn [negb]; bs_steps.
  - destruct (prepared_ok w oq _ changed sq1 Hn Hp Hnf Hfit) as (Hs1 & Hroom & Emax & oq' & Hg & Hq1).
    eapply wp_mono; [apply ReportEviction_keeps |]. cbv beta. intros _ w2 (K & Eseq & Edev). wp_step.
    assert (Hw2 : working_store w2) by (unfold working_store; rewrite (kp_base _ _ K); exact Hw).
    assert (E2 : bw_RecordStore w2 = bw_RecordStore w) by (by rewrite (kp_records _ _ K)).
    assert (Hst : still sq1 (sequence_part w2)) by (pose proof (kp_still _ _ K) as H1; by rewrite sequence_put_sequence in H1).
    pose proof (so_sequence _ _ Hs1) as Hok1. pose proof (moved_still _ _ Hok1 Hst) as Hmv.
    assert (Hfin : forall w3, bw_RecordStore w3 = forget changed (bw_RecordStore w) -> sequence_part w3 = sequence_part w2 -> st_Base (bw_Self w3) = BlockStoreVtable ->
      has_room w3 oq' m /\ max_size w3 = max_size w).
    { intros w3 E3 E3' E3''. assert (Eq3 : bw_BlockSequence w3 = sw_Self sq1) by (change (bw_BlockSequence w3) with (sw_Self (sequence_part w3)); rewrite E3'; exact Eseq).
      split; [split; [split |] |].
      - exact E3''.
      - rewrite E3, E3'. eapply (store_ok_moved _ _ _ _ Hok1 Hmv); [exact Hs1 | apply Hs1 | by left].
      - unfold write_closed. rewrite E3', Eq3. destruct oq' as [q' |]; [| done]. by eapply (queued_still _ _ _ _ Hok1 Hst).
      - by rewrite Eq3.
      - unfold max_size. by rewrite Eq3. }
    assert (Hforget : wp (if! changed then bs_records SolidSyslogRecordStore_ForgetLastRead end!) (fun _ w3 => has_room w3 oq' m /\ max_size w3 = max_size w /\ bw_RecordStore w3 = forget changed (bw_RecordStore w)) w2).
    { destruct changed; [apply wp_bs_records; unfold SolidSyslogRecordStore_ForgetLastRead, set_self |]; wp_steps; (assert (A : forall x y z : Prop, x -> y /\ z -> y /\ z /\ x) by tauto); apply A; try apply Hfin; simpl; rewrite ?E2; done. }
    eapply wp_mono; [exact Hforget |]. cbv beta. intros _ w3 (R1 & R2 & R3). apply (Append_outcome w3 w oq oq' m data size R1); [by rewrite R3 | exact R2 | done | exact Hm | exact Hsz | exact Hlen].
  - eapply wp_mono; [apply ReportRefusal_keeps |]. cbv beta. intros _ w2 K. bs_steps.
    inversion Hp as [| w1 Hfull Hst Hmax Hpol Hcap E1 E2 | | r w1 Hf E1 E2]; [| by destruct Hnf]. subst w1.
    apply write_refused; [| by rewrite (kp_records _ _ K) | exact Hpol | exact Hmax | exact Hfull].
    destruct (holds_still _ w oq _ _ Hs Hq Hst) as [Hs2 Hq2]. destruct (same_run_still _ _ (kp_still _ _ K)) as [(_ & _ & E) _].
    assert (Ecl : write_closed (put_sequence sq1 w) = write_closed w).
    { destruct (still_memory _ _ Hst) as [[_ _ _ _ _ Ec _ _] _]. exact Ec. }
    unfold now, write_closed. rewrite E. fold (write_closed (put_sequence sq1 w)). rewrite Ecl. eapply holds_keeps; [| exact K].
    split; [exact Hw | by rewrite sequence_put_sequence | by rewrite sequence_put_sequence].
Qed.

(** ** Starting *)

(** The blocks hold the messages [q]; where the first of them starts in the oldest
    block is yet to be found, or is at the cursor. *)
Definition unscanned sq q : Prop :=
  consecutive (run (sw_Self sq)) /\ exists c0, sent_prefix (P := P) (oldest_bytes sq) (lenZ (oldest_bytes sq)) c0 /\
    run_holds (P := P) (content_of sq) true (run (sw_Self sq)) c0 q.
Definition settled sq q : Prop :=
  consecutive (run (sw_Self sq)) /\ sent_prefix (P := P) (oldest_bytes sq) (lenZ (oldest_bytes sq)) (cursor sq) /\
    run_holds (P := P) (content_of sq) true (run (sw_Self sq)) (cursor sq) q.
Definition if_queue (R : list bytes -> Prop) oq : Prop := match oq with Some q => R q | None => True end.

Lemma unscanned_queued closed sq q : queued closed sq q -> unscanned sq q.
Proof using. intros [Hc (c0 & Hp & Hh & _)]. split; [done |]. exists c0. split; [done |]. destruct closed; [done | by apply run_holds_closed]. Qed.
Lemma settled_queued sq q : settled sq q -> queued true sq q.
Proof using. intros (Hc & Hp & Hh). split; [done |]. exists (cursor sq). split; [done |]. split; [done | by left]. Qed.
(** Same blocks, same ends: the same messages. *)
Lemma unscanned_ext sq sq' q : run (sw_Self sq') = run (sw_Self sq) -> oldest sq' = oldest sq ->
  (forall j, block (sw_Dev sq') j = block (sw_Dev sq) j) -> unscanned sq q -> unscanned sq' q.
Proof using.
  intros Er Eo Eb (Hc & c0 & Hp & Hh).
  assert (Ec : forall j, content_of sq' j = content_of sq j) by (intros j; unfold content_of; by rewrite Eb).
  unfold unscanned, oldest_bytes in *. rewrite Er, Eo, Ec. split; [done |]. exists c0. split; [done |].
  eapply run_holds_ext; [exact Hh |]. intros j _. apply Ec.
Qed.
Lemma settled_still sq sq' q : sq_ok sq -> still sq sq' -> settled sq q -> settled sq' q.
Proof using.
  intros Hok Hst (Hc & Hp & Hh). destruct (still_verdict _ _ Hst) as (_ & Ec & Eb). pose proof (still_run _ _ Hst) as Er.
  unfold settled. rewrite Er, Eb, Ec. split; [done |]. split; [done |].
  eapply run_holds_ext; [exact Hh |]. intros j _. unfold content_of. by rewrite (st_block _ _ Hst).
Qed.

(** What a scan of the read block leaves. *)
Definition scanned w oq w' (s : SolidSyslogRecordStoreScanResult) : Prop :=
  match s with
  | SOLIDSYSLOG_RECORD_STORE_SCAN_DEVICE_FAILED => frozen w'
  | _ => same_run w w' /\ working_store w' /\ store_ok (sequence_part w') (bw_RecordStore w') /\
      match s with
      | SOLIDSYSLOG_RECORD_STORE_SCAN_CLEAN => if_queue (settled (sequence_part w')) oq
      | _ => unreadable (sequence_part w') /\ if_queue (queued true (sequence_part w')) oq
      end
  end.
Lemma scan_sets_cursor w oq c s : working_store w -> store_ok (sequence_part w) (bw_RecordStore w) ->
  rs_HasReadRecord (bw_RecordStore w) = false -> if_queue (unscanned (sequence_part w)) oq ->
  scan_result (P := P) (oldest_bytes (sequence_part w)) (lenZ (oldest_bytes (sequence_part w))) c s ->
  s <> SOLIDSYSLOG_RECORD_STORE_SCAN_DEVICE_FAILED -> scanned w oq (put_sequence (with_cursor c (sequence_part w)) w) s.
Proof using HPS HDS.
  intros Hw Hs Hh Hq Hsc Hne. set (sq := sequence_part w) in *. pose proof (so_sequence _ _ Hs) as Hok. pose proof (lenZ_nonneg (oldest_bytes sq)) as H0.
  assert (Hc : 0 <= c <= lenZ (oldest_bytes sq)).
  { inversion Hsc as [c' Hp' | c' len Hp' | c' len Hp' |]; subst; [exact (sent_prefix_range _ _ _ H0 Hp') | exact (sent_prefix_range _ _ _ H0 Hp') | lia | lia]. }
  pose proof (store_ok_cursor c _ _ _ Hs Hc (so_wf _ _ Hs) Hh) as Hs'.
  assert (Hfind : forall q, oq = Some q -> exists q1 q2 c0 whole, q = q1 ++ q2 /\ consecutive (run (sw_Self sq)) /\
    sent_prefix (P := P) (oldest_bytes sq) (lenZ (oldest_bytes sq)) c0 /\ run_holds (P := P) (content_of sq) true (run (sw_Self sq)) c0 q /\
    records_at (P := P) (oldest_bytes sq) c0 q1 whole /\ (q1 = [] -> q = q2)).
  { intros q ->. destruct Hq as (Hcs & c0 & Hp & Hr). destruct (run_head _ (ok_run _ Hok)) as [rest Er]. pose proof Hr as Hr'. rewrite Er in Hr'.
    destruct (run_holds_head _ _ _ _ _ _ Hr') as (q1 & q2 & whole & -> & Hrr & _). exists q1, q2, c0, whole. split_and!; try done. by intros ->. }
  destruct s; [| | done]; (split; [done |]; split; [exact Hw |]; split; [exact Hs' |]).
  - destruct oq as [q |]; [| done]. destruct (Hfind q eq_refl) as (q1 & q2 & c0 & whole & -> & Hcs & Hp & Hr & Hrr & _).
    destruct (scan_finds _ _ _ _ _ _ Hp Hrr Hsc) as [-> _]. done.
  - split.
    + unfold unreadable, verdict_at_cursor, extent_verdict. change (oldest_bytes (with_cursor c sq)) with (oldest_bytes sq).
      inversion Hsc; subst. by rewrite Z.leb_refl.
    + destruct oq as [q |]; [| done]. destruct (Hfind q eq_refl) as (q1 & q2 & c0 & whole & -> & Hcs & Hp & Hr & Hrr & _).
      destruct (scan_finds _ _ _ _ _ _ Hp Hrr Hsc) as (-> & -> & ->). split; [exact Hcs |]. exists c0. split; [exact Hp |]. split; [exact Hr |]. by right.
Qed.
Lemma ScanReadBlock_spec w oq : working_store w -> store_ok (sequence_part w) (bw_RecordStore w) ->
  rs_HasReadRecord (bw_RecordStore w) = false -> if_queue (unscanned (sequence_part w)) oq ->
  wp BlockStore_ScanReadBlock (fun s w' => scanned w oq w' s) w.
Proof using HDS HPS.
  intros Hw Hs Hh Hq. pose proof (so_sequence _ _ Hs) as Hok. unfold BlockStore_ScanReadBlock. wp_step. apply wp_bs_sequence.
  eapply wp_mono; [apply ReadBlockSize_spec; by destruct Hok |]. cbv beta. intros [known size] sq1 H1. cbn [fst snd] in H1.
  destruct known; bs_steps; [| eapply wp_mono; [apply Freeze_spec |]; cbv beta; intros _ w' [Hf _]; by bs_steps].
  destruct H1 as [Hst Esz]. pose proof (moved_still _ _ Hok Hst) as Hmv. destruct (still_verdict _ _ Hst) as (_ & _ & Eb).
  destruct (still_memory _ _ Hst) as [[So Sr Sw Sc _ _ _ _] [Sm _ _ _]].
  assert (Hs1 : store_ok sq1 (bw_RecordStore w)) by (eapply (store_ok_moved _ _ _ _ Hok Hmv); [exact Hs | apply Hs | by left]).
  pose proof (ro_read _ (ok_run _ (so_sequence _ _ Hs1))) as Er1. destruct (oldest_ok _ _ Hs1) as [Hb1 Hl1]. destruct (so_size _ _ Hs1) as [_ Hsz].
  assert (Esz' : size = lenZ (oldest_bytes sq1)).
  { rewrite Esz, Eb. by rewrite (ro_read _ (ok_run _ Hok)). }
  apply wp_bs_records. change (sq_ReadSequence (bw_BlockSequence (put_sequence sq1 w))) with (sq_ReadSequence (sw_Self sq1)).
  rewrite Er1, Esz'. fold (oldest sq1). set (w1 := put_sequence sq1 w).
  eapply wp_mono; [apply (FindFirstUnsent_loop_spec (oldest sq1) _ (oldest_bytes sq1)); [apply lenZ_nonneg | unfold sized in *; lia | exact Hb1 | apply Hs1 | exact (oldest_held _ (so_sequence _ _ Hs1)) | lia | constructor | lia] |].
  cbv beta. intros [c s] r2 [Hro Hsc]. cbn [fst snd] in Hsc. bs_steps. apply wp_bs_sequence. unfold SolidSyslogBlockSequence_SetReadCursor. sq_steps.
  set (w2 := put_records r2 w1).
  assert (Hst2 : still sq1 (sequence_part w2)).
  { apply synced_still; [apply Hro |]. exists (sq_AtCapacity (sw_Self sq1)), (sq_ThresholdCrossed (sw_Self sq1)). simpl. by destruct (sw_Self sq1). }
  destruct (still_verdict _ _ Hst2) as (_ & _ & Eb2).
  assert (Hs2 : store_ok (sequence_part w2) (bw_RecordStore w2)).
  { eapply (store_ok_moved _ _ _ _ (so_sequence _ _ Hs1) (moved_still _ _ (so_sequence _ _ Hs1) Hst2) (rw_Self r2)); [| apply (reads_only_wf _ _ Hro), Hs1 | by left].
    apply (store_ok_last _ _ _ Hs1); [apply (reads_only_wf _ _ Hro), Hs1 | apply Hro ..]. }
  assert (Hfin : s <> SOLIDSYSLOG_RECORD_STORE_SCAN_DEVICE_FAILED -> scanned w oq (put_sequence (with_cursor c (sequence_part w2)) w2) s).
  { intros Hne. assert (Hsame : same_run w w2 /\ sq_ReadCursor (bw_BlockSequence w2) = sq_ReadCursor (bw_BlockSequence w)).
    { apply same_run_still. eapply still_trans; [exact Hst | exact Hst2]. }
    destruct Hsame as [(F1 & F2 & F3) _].
    assert (Hsc2 : scanned w2 oq (put_sequence (with_cursor c (sequence_part w2)) w2) s).
    { apply scan_sets_cursor; [exact Hw | exact Hs2 | by rewrite <- Hh; apply Hro | | by rewrite Eb2 | exact Hne].
      destruct oq as [q |]; [| done]. eapply (unscanned_ext (sequence_part w)); [| | | exact Hq].
      - rewrite (still_run _ _ Hst2). by apply still_run.
      - unfold oldest. simpl. exact So.
      - intros j. rewrite (st_block _ _ Hst2). apply Hst. }
    unfold scanned, same_run in *. destruct s; rewrite ?F1, ?F2, ?F3 in Hsc2; done. }
  destruct s; bs_steps; [by apply Hfin .. |]. eapply wp_mono; [apply Freeze_spec |]. cbv beta. intros _ w' [Hf _]. by bs_steps.
Qed.

(** A run whose last block turns out to be whole. *)
Lemma run_holds_open (blk : Z -> bytes) l wr : forall c q, run_holds (P := P) blk true (l ++ [wr]) c q ->
  (forall q', records_at (P := P) (blk wr) (if decide (l = []) then c else 0) q' false -> False) ->
  run_holds (P := P) blk false (l ++ [wr]) c q.
Proof using.
  induction l as [| i l IH]; intros c q Hr Hw.
  - inversion Hr as [i c' q' whole Hrr _ | i l c' q1 q2 whole _ Hl]; subst; [| inversion Hl].
    apply holds_last with whole; [done |]. intros ->. exfalso. by apply (Hw q).
  - inversion Hr as [i' c' q' whole Hrr _ | i' l' c' q1 q2 whole Hrr Hl]; subst; [by destruct l |].
    apply holds_more with whole; [done |]. apply IH; [done |]. rewrite decide_False in Hw by done.
    intros q'. destruct (decide (l = [])); apply Hw.
Qed.

(** Before the check: the cursor is where the queue starts, or the write block is
    already known to be torn. *)
Definition checkable sq q : Prop := settled sq q \/ sq_WriteBlockCorrupt (sw_Self sq) = true /\ queued true sq q.
Lemma CheckWriteBlock_spec w oq : working_store w -> store_ok (sequence_part w) (bw_RecordStore w) ->
  if_queue (checkable (sequence_part w)) oq -> wp BlockStore_CheckWriteBlock (fun _ w' => frozen w' \/ now w' oq) w.
Proof using HDS HPS.
  intros Hw Hs Hq. pose proof (so_sequence _ _ Hs) as Hok. unfold BlockStore_CheckWriteBlock. bs_steps. fold (behind w).
  set (from := if behind w then 0 else sq_ReadCursor (bw_BlockSequence w)). set (wr := sq_WriteSequence (bw_BlockSequence w)).
  pose proof (behind_spec w Hs) as Hb. destruct (run_last _ (ok_run _ Hok)) as [front Ef]. fold wr in Ef.
  change (sw_Self (sequence_part w)) with (bw_BlockSequence w) in Ef. fold wr in Ef.
  assert (Hin : wr ∈ run (sw_Self (sequence_part w))) by (change (sw_Self (sequence_part w)) with (bw_BlockSequence w); rewrite Ef; apply elem_of_app; right; apply list_elem_of_here).
  destruct (so_blocks _ _ Hs _ Hin) as [Hwb Hwl]. destruct (so_size _ _ Hs) as [_ Hsz].
  pose proof (sy_write _ (ok_synced _ Hok)) as Ewp. change (sq_WritePosition (sw_Self (sequence_part w))) with (sq_WritePosition (bw_BlockSequence w)) in Ewp.
  change (sq_WriteSequence (sw_Self (sequence_part w))) with wr in Ewp. rewrite Ewp. set (b := content_of (sequence_part w) wr). change (content_of (sequence_part w) wr) with b in Hwb, Hwl.
  assert (Hfrom : 0 <= from) by (unfold from; destruct (behind w); [lia | apply (so_cursor _ _ Hs)]).
  apply wp_bs_records. eapply wp_mono; [apply (ScanToEnd_loop_spec wr _ b); [unfold sized in *; lia | exact Hwb | apply Hs | exact (run_held _ _ Hok Hin) | exact Hfrom | lia] |].
  cbv beta. intros s r1 [Hro Hsc]. bs_steps. set (w1 := put_records r1 w).
  assert (Hst : still (sequence_part w) (sequence_part w1)).
  { apply synced_still; [apply Hro |]. exists (sq_AtCapacity (bw_BlockSequence w)), (sq_ThresholdCrossed (bw_BlockSequence w)). simpl. by destruct (bw_BlockSequence w). }
  assert (Hs1 : store_ok (sequence_part w1) (bw_RecordStore w1)).
  { eapply (store_ok_moved _ _ _ _ Hok (moved_still _ _ Hok Hst) (rw_Self r1)); [| apply (reads_only_wf _ _ Hro), Hs | by left].
    apply (store_ok_last _ _ _ Hs); [apply (reads_only_wf _ _ Hro), Hs | apply Hro ..]. }
  assert (Hq1 : if_queue (queued true (sequence_part w1)) oq).
  { destruct oq as [q |]; [| done]. apply (queued_still _ _ _ _ Hok Hst). destruct Hq as [Hq | [_ Hq]]; [by apply settled_queued | done]. }
  destruct s; cbv beta iota.
  - bs_steps. right. split; [exact Hw | exact Hs1 |]. destruct oq as [q |]; [| done]. unfold write_closed.
    destruct (sq_WriteBlockCorrupt (bw_BlockSequence w1)) eqn:Ecl; [exact Hq1 |].
    destruct Hq as [Hset | [Hcl _]]; [| change (sq_WriteBlockCorrupt (bw_BlockSequence w1) = true) in Hcl; congruence].
    apply (queued_still _ _ _ _ Hok Hst). destruct Hset as (Hcs & Hp & Hh). split; [done |]. exists (cursor (sequence_part w)).
    split; [done |]. split; [| by left]. change (sw_Self (sequence_part w)) with (bw_BlockSequence w) in *. rewrite Ef in *.
    apply run_holds_open; [done |]. intros q' Ht. destruct Hsc as (c' & Hwh & Hle).
    assert (Estart : (if decide (front = []) then cursor (sequence_part w) else 0) = from).
    { unfold from. destruct (decide (front = [])) as [-> | Hne]; destruct (behind w) eqn:Eb; try done.
      - destruct (run_head _ (ok_run _ Hok)) as [r Er]. change (sw_Self (sequence_part w)) with (bw_BlockSequence w) in Er.
        rewrite Ef in Er. injection Er as Er _. exfalso. by apply Hb.
      - exfalso. pose proof (run_alone _ (ok_run _ Hok) Hb) as Er. change (sw_Self (sequence_part w)) with (bw_BlockSequence w) in Er.
        rewrite Ef in Er. destruct front as [| ? []]; done. }
    rewrite Estart in Ht. pose proof (records_whole _ _ _ _ Ht Hwh) as Hlt. change (content_of (sequence_part w) wr) with b in Hlt. lia.
  - apply wp_bs_sequence. unfold SolidSyslogBlockSequence_MarkWriteBlockCorrupt. sq_steps. right. split; [exact Hw | | ].
    + apply (store_ok_closed _ _ Hs1).
    + destruct oq as [q |]; [| done]. destruct Hq1 as [H1 H2]. by split.
  - eapply wp_mono; [apply Freeze_spec |]. cbv beta. intros _ w' [Hf _]. by left.
Qed.

(** Between the turns of the resume loop, and after the last. *)
Definition resuming oq (s : SolidSyslogRecordStoreScanResult) w : Prop :=
  match s with
  | SOLIDSYSLOG_RECORD_STORE_SCAN_DEVICE_FAILED => frozen w
  | _ => working_store w /\ store_ok (sequence_part w) (bw_RecordStore w) /\
      match s with
      | SOLIDSYSLOG_RECORD_STORE_SCAN_CLEAN => if_queue (settled (sequence_part w)) oq
      | _ => unreadable (sequence_part w) /\ if_queue (queued true (sequence_part w)) oq
      end
  end.
Lemma scanned_resuming w oq w' s : scanned w oq w' s -> resuming oq s w'.
Proof using. destruct s; cbn; tauto. Qed.
Definition resume_to_go (s : SolidSyslogRecordStoreScanResult) w : Z :=
  match s with SOLIDSYSLOG_RECORD_STORE_SCAN_DEVICE_FAILED => 0 | _ => count w end.
Definition resume_done oq (s : SolidSyslogRecordStoreScanResult) w : Prop :=
  frozen w /\ (s = SOLIDSYSLOG_RECORD_STORE_SCAN_DEVICE_FAILED \/ sq_DeviceFailed (bw_BlockSequence w) = true) \/
  s <> SOLIDSYSLOG_RECORD_STORE_SCAN_DEVICE_FAILED /\ working_store w /\ store_ok (sequence_part w) (bw_RecordStore w) /\
    if_queue (checkable (sequence_part w)) oq.
Lemma count_range w : 1 <= count w <= 100.
Proof using.
  unfold count. rewrite BlockCount_dist. pose proof (dist_bound (sq_OldestSequence (bw_BlockSequence w)) (sq_WriteSequence (bw_BlockSequence w))).
  pose proof (dist_range (sq_OldestSequence (bw_BlockSequence w)) (sq_WriteSequence (bw_BlockSequence w))). lia.
Qed.

Lemma resume_step_spec oq s w : resuming oq s w ->
  wp (resume_step s) (fun r w' => if fst r then resuming oq (snd r) w' /\ resume_to_go (snd r) w' < resume_to_go s w
                                  else resume_done oq (snd r) w') w.
Proof using HDS HPS.
  intros HI. destruct s; unfold resume_step; cbv beta iota.
  - bs_steps. destruct HI as (Hw & Hs & Hq). right. split_and!; try done. cbn [snd]. destruct oq; [by left | done].
  - destruct HI as (Hw & Hs & Hu & Hq). assert (Hh : holds true w oq) by (by split).
    wp_step. eapply wp_mono; [apply (Abandon_spec _ _ _ Hh Hu) |]. cbv beta. intros movedOn w1 H1. destruct movedOn; bs_steps.
    + destruct H1 as [[Hw1 Hs1 Hq1] Hc Hm Hcl Hcu Hh1].
      assert (Hu1 : if_queue (unscanned (sequence_part w1)) oq) by (destruct oq as [q |]; [by eapply unscanned_queued | done]).
      eapply wp_mono; [by apply (ScanReadBlock_spec w1 oq) |]. cbv beta. intros s2 w2 H2. bs_steps. cbn [fst snd].
      split; [by eapply scanned_resuming |]. pose proof (count_range w).
      destruct s2; cbn in H2 |- *; [destruct H2 as [(E & _) _]; lia | destruct H2 as [(E & _) _]; lia | lia].
    + destruct H1 as [[Hf Hd] | ([Hw1 Hs1 Hq1] & Hcl & _)]; [left; split; [done | by right] |].
      right. split_and!; try done. cbn [snd]. destruct oq as [q |]; [right; done | done].
  - bs_steps. left. split; [exact HI | by left].
Qed.

Lemma ResumeFromExistingBlock_spec w oq : working_store w -> store_ok (sequence_part w) (bw_RecordStore w) ->
  rs_HasReadRecord (bw_RecordStore w) = false -> if_queue (unscanned (sequence_part w)) oq ->
  wp BlockStore_ResumeFromExistingBlock (fun _ w' => frozen w' \/ now w' oq) w.
Proof using HDS HPS.
  intros Hw Hs Hh Hq. unfold BlockStore_ResumeFromExistingBlock. wp_step.
  eapply wp_mono; [by apply (ScanReadBlock_spec w oq) |]. cbv beta. intros s w1 H1. wp_step.
  eapply wp_mono; [apply (wp_loopM (resuming oq) resume_to_go _ _ _ _ (resume_done oq)); [by eapply scanned_resuming | |] |].
  - pose proof (count_range w1). unfold resume_to_go. change (Z.of_nat (S (Z.to_nat BLOCK_SEQUENCE_MODULUS))) with 101. destruct s; lia.
  - intros s2 w2 HI. split; [unfold resume_to_go; pose proof (count_range w2); destruct s2; lia | by apply resume_step_spec].
  - cbv beta. intros s2 w2 Hd. unfold SolidSyslogBlockSequence_DeviceFailed. bs_steps.
    destruct Hd as [[Hf [-> | Hd]] | (Hne & Hw2 & Hs2 & Hq2)].
    + bs_steps. by left.
    + rewrite Hd. cbn [negb]. destruct s2; bs_steps; by left.
    + rewrite (ok_working _ (so_sequence _ _ Hs2) : sq_DeviceFailed (bw_BlockSequence w2) = false). cbn [negb].
      destruct s2; [by apply CheckWriteBlock_spec .. | done].
Qed.

(** ** The device at a start *)

Lemma media_left sq : sq_ok sq -> consecutive (run (sw_Self sq)) ->
  left_on_device (sw_Dev sq) (oldest sq) (sq_WriteSequence (sw_Self sq)).
Proof using.
  intros Hok Hc. pose proof (ok_run _ Hok) as Hr. pose proof (sy_map _ (ok_synced _ Hok)) as Hmap.
  destruct (ro_oldest _ Hr) as [Ho Hpo]. destruct (ro_write _ Hr) as [Hw Hpw].
  assert (Hd : dist (oldest sq) (sq_WriteSequence (sw_Self sq)) < 99).
  { pose proof (ok_free _ Hok) as Hf. rewrite BlockCount_dist in Hf. unfold BLOCK_SEQUENCE_MODULUS, oldest in *. lia. }
  split; [split; [done | by apply Hmap] | split; [done | by apply Hmap] | | exact Hd |].
  - intros s Hs Hb. apply (ro_run _ Hr s Hs). by apply Hmap.
  - intros s Hs Hb Hne. exists 1. split; [lia |].
    assert (Hin : s ∈ run (sw_Self sq)) by (apply run_spec; [done |]; split; [done | by apply Hmap]).
    destruct (run_last _ Hr) as [front Ef]. rewrite Ef in Hin, Hc. apply elem_of_app in Hin as [Hin | Hin]; [| by apply list_elem_of_singleton in Hin].
    apply list_elem_of_split in Hin as (f1 & f2 & ->). rewrite <- app_assoc in Hc, Ef. cbn [app] in Hc, Ef.
    destruct (f2 ++ [sq_WriteSequence (sw_Self sq)]) as [| x rest] eqn:Er; [by destruct f2 |].
    rewrite <- (Hc f1 s x rest eq_refl). apply (run_present sq x Hok). rewrite Ef. apply elem_of_app. right. right. left.
Qed.
Lemma run_same_device sq sq' : sq_ok sq -> sq_ok sq' -> (forall j, block (sw_Dev sq') j = block (sw_Dev sq) j) ->
  oldest sq' = oldest sq -> sq_WriteSequence (sw_Self sq') = sq_WriteSequence (sw_Self sq) -> run (sw_Self sq') = run (sw_Self sq).
Proof using.
  intros Hok Hok' Hb Eo Ew. unfold run. unfold oldest in Eo. rewrite !BlockCount_dist, Eo, Ew. apply filter_ext_in.
  intros s (k & Hk & ->)%(span_run_in (sw_Self sq)). pose proof (seq_at_range (sq_OldestSequence (sw_Self sq)) k) as Hs.
  pose proof (sy_map _ (ok_synced _ Hok) _ Hs) as M. pose proof (sy_map _ (ok_synced _ Hok') _ Hs) as M'. rewrite Hb in M'.
  destruct (present (sw_Self sq') _), (present (sw_Self sq) _); try done; [symmetry; by apply M, M' | by apply M', M].
Qed.

(** A store about to start, with what a pool's slot had in it. *)
Definition starting self rs (config : SolidSyslogBlockSequenceConfig W) (d : D) (p : P) (env : W) (trace : list store_event) : bs_world D P W :=
  mkBsWorld self (SolidSyslogRecordStore_Initialise rs) (SolidSyslogBlockSequence_Initialise config) d p env trace.
Definition config_fits (config : SolidSyslogBlockSequenceConfig W) : Prop :=
  rsize (P := P) SOLIDSYSLOG_MAX_MESSAGE_SIZE <= bsc_MaxBlockSize config /\ sized (bsc_MaxBlockSize config).
(** The sequence opened, and nothing read yet. *)
Record opened_on (config : SolidSyslogBlockSequenceConfig W) oq sq : Prop := {
  oo_ok : sq_ok sq;
  oo_max : sq_MaxBlockSize (sw_Self sq) = bsc_MaxBlockSize config;
  oo_cursor : cursor sq = 0;
  oo_blocks : forall i, i ∈ run (sw_Self sq) -> all_bytes (content_of sq i) /\ lenZ (content_of sq i) <= bsc_MaxBlockSize config;
  oo_queue : if_queue (unscanned sq) oq
}.

Lemma Start_spec self rs config d p env trace oq : config_fits config -> lenZ (rs_Buffer rs) = RECORD_BUFFER_SIZE ->
  wp SolidSyslogBlockSequence_Open (fun ready sq => ready = true -> opened_on config oq sq) (unopened config d env trace) ->
  wp SolidSyslogBlockStore_Initialise (fun _ w' => frozen w' \/ now w' oq) (starting self rs config d p env trace).
Proof using HDS HPS.
  intros Hfit Hl Hopen. unfold SolidSyslogBlockStore_Initialise, BlockStore_InitialiseVtable. bs_steps. apply wp_bs_sequence.
  eapply wp_mono; [exact Hopen |]. cbv beta. intros ready sq Hsq. bs_steps. destruct ready.
  - destruct (Hsq eq_refl) as [Hok Hmax Hcur Hbl Hq]. set (w1 := put_sequence sq _).
    assert (E1 : sequence_part w1 = sq) by (unfold w1; by destruct sq).
    apply (ResumeFromExistingBlock_spec w1 oq); [done | | done | by rewrite E1].
    rewrite E1. split; [done | exact Hl | by rewrite Hmax | by rewrite Hmax | | done].
    rewrite Hcur. pose proof (lenZ_nonneg (oldest_bytes sq)). lia.
  - bs_steps. eapply wp_mono; [apply Freeze_spec |]. cbv beta. intros _ w' [Hf _]. by left.
Qed.

(** Any blocks within their size, laid out as the library leaves them. *)
Lemma Open_left config d env trace o wr oq : left_on_device d o wr ->
  (forall s b, is_seq s -> block d s = Some b -> all_bytes b /\ lenZ b <= bsc_MaxBlockSize config) ->
  (forall sq, sq_ok sq -> (forall j, block (sw_Dev sq) j = block d j) -> oldest sq = o -> sq_WriteSequence (sw_Self sq) = wr -> if_queue (unscanned sq) oq) ->
  wp SolidSyslogBlockSequence_Open (fun ready sq => ready = true -> opened_on config oq sq) (unopened config d env trace).
Proof using HDS.
  intros Hld Hbl Hq. eapply wp_mono; [apply (Open_resumes config d env trace o wr Hld) |]. cbv beta. intros ready sq Hres ->.
  destruct Hres as [Hok Hb [Eo Ew] (Ec & _ & _) [Em _ _ _]]. split; [done | by rewrite Em | done | | by apply Hq].
  intros i Hi. destruct (run_present _ _ Hok Hi) as [Hs Hp]. unfold content_of. rewrite Hb in *.
  destruct (block d i) as [b |] eqn:E; [| done]. by apply (Hbl i b).
Qed.
Lemma Open_media config d env trace q : media d (bsc_MaxBlockSize config) q ->
  wp SolidSyslogBlockSequence_Open (fun ready sq => ready = true -> opened_on config (Some q) sq) (unopened config d env trace).
Proof using HDS HPS.
  intros (sq0 & rs0 & closed & Hs0 & Hq0 & <- & Em). pose proof (so_sequence _ _ Hs0) as Hok0.
  apply (Open_left _ _ _ _ (oldest sq0) (sq_WriteSequence (sw_Self sq0))).
  - apply media_left; [done | apply Hq0].
  - intros s b Hseq Hb. assert (Hin : s ∈ run (sw_Self sq0)).
    { apply run_spec; [apply Hok0 |]. split; [done |]. apply (sy_map _ (ok_synced _ Hok0) s Hseq). by rewrite Hb. }
    pose proof (so_blocks _ _ Hs0 s Hin) as H1. unfold content_of in H1. rewrite Hb, Em in H1. exact H1.
  - intros sq Hok Hb Eo Ew. apply (unscanned_ext sq0); [by apply run_same_device | done | done | by eapply unscanned_queued].
Qed.
Lemma Open_empty config d env trace : config_fits config -> (forall s, is_seq s -> block d s = None) ->
  wp SolidSyslogBlockSequence_Open (fun ready sq => ready = true -> opened_on config (Some []) sq) (unopened config d env trace).
Proof using HDS HPS.
  intros [Hf _] Hnone. eapply wp_mono; [apply (Open_fresh config d env trace Hnone) |]. cbv beta. intros ready sq Hres ->.
  destruct Hres as (Hok & Hrun & Hb & _ & Hc & _ & [Em _ _ _]).
  assert (Eo : oldest sq = 0). { destruct (run_head _ (ok_run _ Hok)) as [r Er]. rewrite Hrun in Er. injection Er as Er _. exact (eq_sym Er). }
  assert (Eb : content_of sq 0 = []) by (unfold content_of; by rewrite Hb).
  split; [done | by rewrite Em | done | |].
  - rewrite Hrun. intros i ->%list_elem_of_singleton. rewrite Eb. split; [apply Forall_nil_2 |]. change (lenZ []) with 0.
    pose proof (rsize_bound (P := P) SOLIDSYSLOG_MAX_MESSAGE_SIZE ltac:(unfold SOLIDSYSLOG_MAX_MESSAGE_SIZE; lia)). lia.
  - split; [rewrite Hrun; apply consecutive_one |]. exists 0. split; [constructor |]. rewrite Hrun. apply holds_last with true; [| done].
    rewrite Eb. exact (at_end []).
Qed.
End store_theory.

(** * The store as a queue *)

(** What a store is to its caller: the messages to send, and whether the first has
    been read and not marked since; [None] is a frozen store, which has none. *)
Record queue_state := mkQueue { qs_messages : list bytes; qs_read : bool }.
Inductive store_call :=
| CallWrite (data : bytes) (size : Z)
| CallRead (data : bytes) (maxSize : Z)
| CallMarkSent
| CallHasUnsent
| CallIsTransient.
Inductive store_reply :=
| Wrote (result : SolidSyslogStoreWriteResult)
| Read (ok : bool) (data : bytes) (bytesRead : Z)
| Marked
| Unsent (answer : bool)
| Transient (answer : bool).
Definition null_reply (call : store_call) : store_reply :=
  match call with
  | CallWrite _ _ => Wrote SOLIDSYSLOG_STORE_WRITE_NOT_RETAINED
  | CallRead data _ => Read false data 0
  | CallMarkSent => Marked
  | CallHasUnsent => Unsent false
  | CallIsTransient => Transient true
  end.
Definition legal (call : store_call) : Prop :=
  match call with
  | CallWrite data size => 0 <= size <= SOLIDSYSLOG_MAX_MESSAGE_SIZE /\ size <= lenZ data /\ all_bytes data
  | CallRead _ maxSize => 0 < maxSize
  | _ => True
  end.
(** [may_wait] is whether a record's turn may have to wait: the policy may be unable
    to open it. *)
Inductive queue_step (may_wait : Prop) : option queue_state -> store_call -> store_reply -> option queue_state -> Prop :=
| step_write lost kept read read' data size result :
    result <> SOLIDSYSLOG_STORE_WRITE_NOT_RETAINED -> (read' = true -> lost = [] /\ read = true) ->
    queue_step may_wait (Some (mkQueue (lost ++ kept) read)) (CallWrite data size) (Wrote result)
      (Some (mkQueue (kept ++ match result with SOLIDSYSLOG_STORE_WRITE_KEPT => [takeZ size data] | _ => [] end) read'))
| step_refused q data size : queue_step may_wait (Some q) (CallWrite data size) (Wrote SOLIDSYSLOG_STORE_WRITE_NOT_RETAINED) (Some q)
| step_read m q read data maxSize :
    let n := Z.min (lenZ m) maxSize in
    queue_step may_wait (Some (mkQueue (m :: q) read)) (CallRead data maxSize) (Read true (spliceZ data 0 (takeZ n m)) n) (Some (mkQueue (m :: q) true))
| step_nothing q read read' data maxSize : q = [] \/ may_wait -> (read' = true -> read = true) ->
    queue_step may_wait (Some (mkQueue q read)) (CallRead data maxSize) (Read false data 0) (Some (mkQueue q read'))
| step_mark m q : queue_step may_wait (Some (mkQueue (m :: q) true)) CallMarkSent Marked (Some (mkQueue q false))
| step_no_mark q : queue_step may_wait (Some (mkQueue q false)) CallMarkSent Marked (Some (mkQueue q false))
| step_unsent q read answer : (q <> [] -> answer = true) ->
    queue_step may_wait (Some (mkQueue q read)) CallHasUnsent (Unsent answer) (Some (mkQueue q read))
| step_retains q : queue_step may_wait (Some q) CallIsTransient (Transient false) (Some q)
| step_freezes q call : call <> CallHasUnsent -> call <> CallIsTransient -> queue_step may_wait (Some q) call (null_reply call) None
| step_frozen call : queue_step may_wait None call (null_reply call) None.
Inductive queue_steps (may_wait : Prop) : option queue_state -> list store_call -> list store_reply -> option queue_state -> Prop :=
| steps_nil s : queue_steps may_wait s [] [] s
| steps_cons s call reply s1 calls replies s2 : queue_step may_wait s call reply s1 -> queue_steps may_wait s1 calls replies s2 ->
    queue_steps may_wait s (call :: calls) (reply :: replies) s2.

Section queue_theory.
Context {D P W : Type} `{HD : BlockDevice D, HDS : !BlockDeviceSpec D, HP : SecurityPolicy P, HPS : !SecurityPolicySpec P}.
Implicit Types (w : bs_world D P W) (q : list bytes).

Definition do_call (call : store_call) : ST (bs_world D P W) store_reply :=
  match call with
  | CallWrite data size => let! r := SolidSyslogStore_Write data size in st_ret (Wrote r)
  | CallRead data maxSize => let! r := SolidSyslogStore_ReadNextUnsent data maxSize in st_ret (let '(ok, data, n) := r in Read ok data n)
  | CallMarkSent => SolidSyslogStore_MarkSent ;;; st_ret Marked
  | CallHasUnsent => let! b := SolidSyslogStore_HasUnsent in st_ret (Unsent b)
  | CallIsTransient => let! b := SolidSyslogStore_IsTransient in st_ret (Transient b)
  end.
Fixpoint do_calls (calls : list store_call) : ST (bs_world D P W) (list store_reply) :=
  match calls with
  | [] => st_ret []
  | call :: calls => let! r := do_call call in let! rs := do_calls calls in st_ret (r :: rs)
  end.
(** The store and the queue it stands for. *)
Definition stands_for w (s : option queue_state) : Prop :=
  match s with
  | Some s => now w (Some (qs_messages s)) /\ rs_HasReadRecord (bw_RecordStore w) = qs_read s
  | None => frozen w
  end.
Definition policy_may_wait : Prop := exists record p,
  fst (fst (sp_OpenRecord (P := P) record p)) = SOLIDSYSLOG_SECURITY_POLICY_OPEN_COULD_NOT_RUN.

Lemma wp_dispatch {A} (own null : bs_op (W := W) A) Q w :
  (working_store w -> wp own Q w) -> (frozen w -> wp null Q w) -> wp (dispatch own null) Q w.
Proof using. intros H1 H2. unfold dispatch, bs_get. wp_steps. unfold working_store, frozen in *. destruct (st_Base (bw_Self w)); auto. Qed.
Lemma frozen_call call w : frozen w -> do_call call w = (null_reply call, w).
Proof using.
  intros Hf. unfold frozen in Hf. destruct call; unfold do_call, SolidSyslogStore_Write, SolidSyslogStore_ReadNextUnsent, SolidSyslogStore_MarkSent,
    SolidSyslogStore_HasUnsent, SolidSyslogStore_IsTransient, BlockStore_vtable, dispatch, bs_get, st_bind, st_get; by rewrite Hf.
Qed.
Lemma unsent_told w q : now w (Some q) -> q <> [] -> SolidSyslogBlockSequence_HasUnsent (bw_BlockSequence w) = true.
Proof using HDS HPS.
  intros [Hw Hs Hq] Hne. destruct (SolidSyslogBlockSequence_HasUnsent (bw_BlockSequence w)) eqn:Eu; [done | exfalso].
  apply orb_false_elim in Eu as [Hb Hl]. apply Z.ltb_ge in Hl. pose proof (behind_spec w Hs) as Ho. unfold behind in Ho. rewrite Hb in Ho.
  pose proof (write_position _ _ Hs Ho) as Ew. simpl in Ew. rewrite Ew in Hl. apply Hne.
  apply (queued_unreadable _ _ _ (so_sequence _ _ Hs) Hq); [| exact Ho].
  unfold unreadable, verdict_at_cursor, extent_verdict.
  replace (lenZ (oldest_bytes (sequence_part w)) <=? cursor (sequence_part w)) with true by (symmetry; by apply Z.leb_le). done.
Qed.
Lemma now_working closed w oq : holds closed w oq -> st_Base (bw_Self w) = BlockStoreVtable.
Proof using. apply hs_working. Qed.

Lemma call_steps w s call : stands_for w (Some s) -> legal call ->
  wp (do_call call) (fun reply w' => exists s', queue_step policy_may_wait (Some s) call reply s' /\ stands_for w' s') w.
Proof using HDS HPS.
  destruct s as [q read]. intros [Hn Hh] Hleg. cbn [qs_messages qs_read] in *. pose proof (hs_working _ _ _ Hn) as Hw.
  assert (Hnf : frozen w -> False) by (unfold frozen, working_store in *; congruence).
  destruct call as [data size | data maxSize | | |]; cbn [do_call legal] in *; wp_step; (apply wp_dispatch; [intros _ | by intros ?%Hnf]).
  - destruct Hleg as (Hsz & Hlen & Hb). destruct (decide (size = 0)) as [-> | Hpos].
    { unfold BlockStore_Write. cbn [Z.ltb Z.compare]. wp_steps. exists (Some (mkQueue q read)). split; [apply step_refused | done]. }
    assert (Hm : is_message (takeZ size data)) by (split; [rewrite lenZ_takeZ; lia | by apply all_bytes_takeZ]).
    eapply wp_mono; [apply (Write_spec w (Some q) data size Hn Hm); lia |]. cbv beta. intros r w' Ho. wp_steps.
    destruct Ho as [w' Hf _ | w' oq' has Hf _ _ | w' Hn' Hh' _ _ _ | w' oq' (Hhas & lost & kept & -> & -> & Hl & _) Hn' | w' oq' (Hhas & lost & kept & -> & -> & Hl & _) Hn'].
    + exists None. by split; [apply (step_freezes policy_may_wait _ (CallWrite data size)) |].
    + exists None. by split; [apply (step_freezes policy_may_wait _ (CallWrite data size)) |].
    + exists (Some (mkQueue q read)). split; [apply step_refused | split; [done | simpl; congruence]].
    + eexists (Some (mkQueue _ (rs_HasReadRecord (bw_RecordStore w')))). split; [apply step_write; [done |] | split; [exact Hn' | done]].
      intros E. split; [by apply Hl | rewrite <- Hh; by apply Hhas].
    + eexists (Some (mkQueue _ (rs_HasReadRecord (bw_RecordStore w')))). split; [apply step_write; [done |] | split; [by rewrite app_nil_r | done]].
      intros E. split; [by apply Hl | rewrite <- Hh; by apply Hhas].
  - eapply wp_mono; [apply (ReadNextUnsent_spec (Some q) data maxSize w Hn Hleg) |]. cbv beta. intros r w' Ho. wp_steps.
    destruct Ho as [w' Hf | w' Hn' Hu | len p w' Hn' Hv Hop Hhad | len dst' w' Hn' Hv Hh' Hq].
    + exists None. by split; [apply (step_freezes policy_may_wait _ (CallRead data maxSize)) |].
    + assert (Eq : q = []). { destruct q as [| x q]; [done |]. by rewrite (unsent_told _ _ Hn') in Hu. }
      exists (Some (mkQueue q (rs_HasReadRecord (bw_RecordStore w')))). split; [apply step_nothing; [by left |] | by split].
      intros E. exfalso. destruct (so_last _ _ (hs_ok _ _ _ Hn') E) as (len & _ & _ & Hv). pose proof (hs_queue _ _ _ Hn') as Hq'.
      destruct (queued_head _ _ _ _ (so_sequence _ _ (hs_ok _ _ _ Hn')) Hq' Hv) as (? & ? & ? & ? & Eq' & _). congruence.
    + exists (Some (mkQueue q (rs_HasReadRecord (bw_RecordStore w')))). split; [apply step_nothing; [right; by eexists _, p |] | by split].
      intros E. rewrite <- Hh. by apply Hhad.
    + destruct (Hq q eq_refl) as (m & q' & -> & -> & ->). exists (Some (mkQueue (m :: q') true)). split; [apply step_read | by split].
  - eapply wp_mono; [apply (MarkSent_spec (Some q) w Hn) |]. cbv beta. intros _ w' Ho. wp_steps. rewrite Hh in Ho. destruct read.
    + destruct Ho as [Hf | (Hne & Hn' & Hh')]; [exists None; by split; [apply (step_freezes policy_may_wait _ CallMarkSent) |] |].
      destruct q as [| m q]; [done |]. exists (Some (mkQueue q false)). split; [apply step_mark | by split].
    + subst w'. exists (Some (mkQueue q false)). split; [apply step_no_mark | by split].
  - unfold BlockStore_HasUnsent, bs_ask. wp_steps. exists (Some (mkQueue q read)). split; [apply step_unsent; by apply unsent_told | by split].
  - unfold BlockStore_IsTransient. wp_steps. exists (Some (mkQueue q read)). split; [apply step_retains | by split].
Qed.

(** C1. The block store is a queue.  Whatever calls its caller makes, over any device
    and any security policy that keep their promises, with calls of the device failing
    at any point: a record kept is the last of the queue, a read gives the first
    unsent record whole or cut to the caller's memory, a mark takes away the record
    last read and nothing else, records leave unread only by the eviction a write
    makes, nothing to read means the queue is empty or the policy cannot say yet; and
    from the first failure on the store answers as the null store does. *)
Theorem BlockStore_refines_queue w s calls : stands_for w s -> Forall legal calls ->
  let '(replies, w') := do_calls calls w in
  exists s', queue_steps policy_may_wait s calls replies s' /\ stands_for w' s'.
Proof using HDS HPS.
  revert w s. induction calls as [| call calls IH]; intros w s Hs Hl; cbn [do_calls].
  - exists s. split; [constructor | done].
  - apply Forall_cons_1 in Hl as [Hc Hl]. unfold st_bind, st_ret.
    assert (H1 : wp (do_call call) (fun reply w' => exists s', queue_step policy_may_wait s call reply s' /\ stands_for w' s') w).
    { destruct s as [s |]; [by apply call_steps |]. unfold wp. rewrite (frozen_call call w Hs). exists None. split; [constructor | exact Hs]. }
    unfold wp in H1. destruct (do_call call w) as [reply w1]. destruct H1 as (s1 & Hst & Hs1). specialize (IH w1 s1 Hs1 Hl).
    destruct (do_calls calls w1) as [replies w']. destruct IH as (s' & Hsts & Hs'). exists s'. split; [by econstructor | done].
Qed.

(** A record is given up only as the discard policy says.  A write of a record to a
    working store keeps it behind what the queue had; or finds the store full, with
    the policy against Oldest, and leaves everything as it was; or loses it because
    the policy would not seal it; or freezes the store.  Unread records go only when
    the store is at its ceiling and the policy, asked, answered Oldest, and they are
    the oldest. *)
Theorem Write_gives_up_as_told w q (data : bytes) (size : Z) :
  now w (Some q) -> 0 < size <= SOLIDSYSLOG_MAX_MESSAGE_SIZE -> size <= lenZ data -> all_bytes data ->
  let '(result, w') := SolidSyslogStore_Write data size w in
  frozen w' /\ result = SOLIDSYSLOG_STORE_WRITE_NOT_RETAINED \/
  exists lost kept, q = lost ++ kept /\
    (lost <> [] -> policy_answer (sequence_part w) = SOLIDSYSLOG_DISCARD_POLICY_OLDEST /\ sq_MaxBlocks (bw_BlockSequence w) <= count w) /\
    match result with
    | SOLIDSYSLOG_STORE_WRITE_KEPT => now w' (Some (kept ++ [takeZ size data]))
    | SOLIDSYSLOG_STORE_WRITE_LOST => now w' (Some kept)
    | SOLIDSYSLOG_STORE_WRITE_NOT_RETAINED => lost = [] /\ now w' (Some q) /\
        policy_answer (sequence_part w) <> SOLIDSYSLOG_DISCARD_POLICY_OLDEST /\ sq_MaxBlocks (bw_BlockSequence w) <= count w /\
        BlockSequence_BlockIsFull (bw_BlockSequence w) (SolidSyslogRecordStore_RecordSize (P := P) size) = true
    end.
Proof using HDS HPS.
  intros Hn Hsz Hlen Hb. assert (Hm : is_message (takeZ size data)) by (split; [rewrite lenZ_takeZ; lia | by apply all_bytes_takeZ]).
  assert (H1 : wp (SolidSyslogStore_Write data size) (write_outcome (Some q) w (takeZ size data)) w).
  { apply wp_dispatch; [intros _; by apply Write_spec |]. intros Hf. pose proof (hs_working _ _ _ Hn). unfold frozen, working_store in *. congruence. }
  unfold wp in H1. destruct (SolidSyslogStore_Write data size w) as [result w']. cbn [fst snd] in H1.
  destruct H1 as [w' Hf _ | w' oq' has Hf _ _ | w' Hn' _ Hpol Hmax Hfull | w' oq' (_ & lost & kept & -> & -> & _ & Hl) Hn' | w' oq' (_ & lost & kept & -> & -> & _ & Hl) Hn'].
  - by left.
  - by left.
  - right. exists [], q. rewrite RecordSize_rsize by lia. rewrite lenZ_takeZ in Hfull by lia. done.
  - right. by exists lost, kept.
  - right. by exists lost, kept.
Qed.

(** ** Restarts *)

Lemma now_media closed w q : holds closed w (Some q) -> media (W := W) (bw_Dev w) (max_size w) q.
Proof using. intros [_ Hs Hq]. by exists (sequence_part w), (bw_RecordStore w), closed. Qed.
Lemma start_on_media self rs config d p env trace q : config_fits config -> lenZ (rs_Buffer rs) = RECORD_BUFFER_SIZE ->
  media (W := W) d (bsc_MaxBlockSize config) q ->
  let w := snd (SolidSyslogBlockStore_Initialise (starting (D := D) (P := P) (W := W) self rs config d p env trace)) in frozen w \/ now w (Some q).
Proof using HDS HPS.
  intros Hf Hl Hm. apply (Start_spec self rs config d p env trace (Some q) Hf Hl). by apply Open_media.
Qed.

(** C3. Nothing unsent is lost by a restart, and nothing sent is sent again.  Stop the
    program between two calls of a working store, with whatever it had in memory
    gone, and start a store of the same block size on the device: unless the device
    fails it has the same messages to send, in the same order. *)
Theorem restart_keeps_queue w q self rs (config : SolidSyslogBlockSequenceConfig W) (p : P) (env : W) trace :
  now w (Some q) -> config_fits config -> bsc_MaxBlockSize config = max_size w -> lenZ (rs_Buffer rs) = RECORD_BUFFER_SIZE ->
  let w' := snd (SolidSyslogBlockStore_Initialise (starting self rs config (bw_Dev w) p env trace)) in
  frozen w' \/ stands_for w' (Some (mkQueue q (rs_HasReadRecord (bw_RecordStore w')))).
Proof using HDS HPS.
  intros Hn Hf Em Hl w'. destruct (start_on_media self rs config (bw_Dev w) p env trace q Hf Hl) as [H1 | H1].
  - rewrite Em. by eapply now_media.
  - by left.
  - right. by split.
Qed.

(** C15. A power cut while a record is appended costs at most that record.  When the
    append was cut short at any byte, or failed after the last, a start on what is on
    the device finds the queue as it was, with or without the record being written,
    less what the write had evicted to make room. *)
Theorem power_cut_costs_one_record w q (data : bytes) (size : Z) self rs (config : SolidSyslogBlockSequenceConfig W) (p : P) (env : W) trace :
  now w (Some q) -> 0 < size <= SOLIDSYSLOG_MAX_MESSAGE_SIZE -> size <= lenZ data -> all_bytes data ->
  config_fits config -> bsc_MaxBlockSize config = max_size w -> lenZ (rs_Buffer rs) = RECORD_BUFFER_SIZE ->
  let '(result, w1) := SolidSyslogStore_Write data size w in
  sq_DeviceFailed (bw_BlockSequence w1) = false -> frozen w1 ->
  let w2 := snd (SolidSyslogBlockStore_Initialise (starting self rs config (bw_Dev w1) p env trace)) in
  frozen w2 \/ exists lost kept, q = lost ++ kept /\ (lost <> [] -> policy_answer (sequence_part w) = SOLIDSYSLOG_DISCARD_POLICY_OLDEST) /\
    (now w2 (Some kept) \/ now w2 (Some (kept ++ [takeZ size data]))).
Proof using HDS HPS.
  intros Hn Hsz Hlen Hb Hfit Em Hl. assert (Hm : is_message (takeZ size data)) by (split; [rewrite lenZ_takeZ; lia | by apply all_bytes_takeZ]).
  assert (H1 : wp (SolidSyslogStore_Write data size) (write_outcome (Some q) w (takeZ size data)) w).
  { apply wp_dispatch; [intros _; by apply Write_spec |]. intros Hf. pose proof (hs_working _ _ _ Hn). unfold frozen, working_store in *. congruence. }
  unfold wp in H1. destruct (SolidSyslogStore_Write data size w) as [result w1]. cbn [fst snd] in H1. intros Hd Hf. cbv zeta.
  assert (Hno : forall oq, now w1 oq -> False) by (intros oq H2; pose proof (hs_working _ _ _ H2); unfold frozen, working_store in *; congruence).
  destruct H1 as [w1 _ Hd' | w1 oq' has _ (_ & lost & kept & -> & -> & _ & Hgone) Hmed | w1 Hn1 _ _ _ _ | w1 oq' _ Hn1 | w1 oq' _ Hn1];
    [congruence | | by destruct (Hno _ Hn1) ..].
  destruct (Hmed kept eq_refl) as [Hmed' | Hmed']; rewrite <- Em in Hmed';
    (destruct (start_on_media self rs config (bw_Dev w1) p env trace _ Hfit Hl Hmed') as [H2 | H2]; [by left | right; exists lost, kept]);
    (split; [done |]; split; [intros Hne; by apply Hgone |]); [by left | by right].
Qed.

(** C16. Damage never jams the store.  Start it over blocks of any content within their
    size, laid out as the library leaves them: a call for the next record always ends,
    with a record's bytes, or because the policy cannot say of the record it came to,
    or with the store frozen, or else with nothing left unsent, having given up what
    could not be read. *)
Theorem damaged_blocks_are_passed self rs (config : SolidSyslogBlockSequenceConfig W) (d : D) (p : P) (env : W) trace (o wr : Z) (dst : bytes) (maxSize : Z) :
  config_fits config -> lenZ (rs_Buffer rs) = RECORD_BUFFER_SIZE -> left_on_device d o wr ->
  (forall s b, is_seq s -> block d s = Some b -> all_bytes b /\ lenZ b <= bsc_MaxBlockSize config) -> 0 < maxSize ->
  let w := snd (SolidSyslogBlockStore_Initialise (starting self rs config d p env trace)) in
  let '((ok, dst', n), w') := SolidSyslogStore_ReadNextUnsent dst maxSize w in
  frozen w' /\ ok = false /\ n = 0 \/
  now w' None /\
  if ok then 0 < n <= Z.min SOLIDSYSLOG_MAX_MESSAGE_SIZE maxSize /\ rs_HasReadRecord (bw_RecordStore w') = true
  else n = 0 /\ dst' = dst /\ (SolidSyslogBlockSequence_HasUnsent (bw_BlockSequence w') = false \/ policy_may_wait).
Proof using HDS HPS.
  intros Hfit Hl Hld Hbl Hm w.
  assert (Hw : frozen w \/ now w None).
  { apply (Start_spec self rs config d p env trace None Hfit Hl). by apply (Open_left _ _ _ _ o wr). }
  assert (H1 : wp (SolidSyslogStore_ReadNextUnsent dst maxSize) (fun r w' => frozen w' /\ r = (false, dst, 0) \/
    next_unsent (rs_HasReadRecord (bw_RecordStore w)) None dst maxSize r w') w).
  { apply wp_dispatch; intros Hb.
    - destruct Hw as [Hf | Hn]; [unfold frozen, working_store in *; congruence |].
      eapply wp_mono; [by apply (ReadNextUnsent_spec None dst maxSize w) |]. cbv beta. intros r w' H1. by right.
    - unfold NullStore_ReadNextUnsent. wp_steps. by left. }
  unfold wp in H1. destruct (SolidSyslogStore_ReadNextUnsent dst maxSize w) as [[[ok dst'] n] w']. cbn [fst snd] in H1.
  destruct H1 as [[Hf [= -> -> ->]] | H1]; [by left |].
  inversion H1 as [w1 Hf | w1 Hn Hu | len p1 w1 Hn Hv Hop _ | len dst1 w1 Hn Hv Hh _]; subst.
  - by left.
  - right. split; [done |]. split; [done |]. split; [done | by left].
  - right. split; [done |]. split; [done |]. split; [done |]. right. by eexists _, p1.
  - right. split; [done |]. pose proof (verdict_length _ _ Hv). split; [lia | done].
Qed.
End queue_theory.

(** * Concrete stores *)

Definition example_sizes (maxBlocks : Z) (policy : option (SolidSyslogDiscardPolicyFunction Z)) : SolidSyslogBlockSequenceConfig Z :=
  mkBlockSequenceConfig 600 maxBlocks policy None None None None.
Definition slot : SolidSyslogBlockStore := mkBlockStore NullStoreVtable false false false false.
Definition slot_records : SolidSyslogRecordStore := mkRecordStore false 0 0 (repeat 0 517).
Abbreviation example_bs := (bs_world mem_device SolidSyslogCrc16Policy Z).
Definition start_store (policy : option (SolidSyslogDiscardPolicyFunction Z)) (d : mem_device) : example_bs :=
  snd (SolidSyslogBlockStore_Initialise (starting slot slot_records (example_sizes 2 policy) d Crc16Policy 0 [])).
Definition empty_store : example_bs := start_store None (mem_of_list [] 600 None).

Lemma example_fits policy : config_fits (P := SolidSyslogCrc16Policy) (example_sizes 2 policy).
Proof. split; vm_compute; discriminate. Qed.
Lemma slot_wf : lenZ (rs_Buffer slot_records) = RECORD_BUFFER_SIZE.
Proof. by vm_compute. Qed.
Lemma empty_now : now empty_store (Some []).
Proof.
  assert (H1 : frozen empty_store \/ now empty_store (Some [])).
  { apply (Start_spec slot slot_records (example_sizes 2 None) (mem_of_list [] 600 None) Crc16Policy 0 [] (Some []) (example_fits None) slot_wf).
    apply Open_empty; [apply example_fits |]. intros s _. done. }
  destruct H1 as [Hf | Hn]; [by vm_compute in Hf | exact Hn].
Qed.

Definition example_calls : list store_call :=
  [CallWrite (str "hi") 2; CallWrite (str "yo") 2; CallRead (repeat 0 3) 3; CallMarkSent; CallRead (repeat 0 3) 1; CallHasUnsent; CallIsTransient].
Lemma BlockStore_refines_queue_witness :
  let '(replies, w') := do_calls example_calls empty_store in
  replies = [Wrote SOLIDSYSLOG_STORE_WRITE_KEPT; Wrote SOLIDSYSLOG_STORE_WRITE_KEPT; Read true (str "hi" ++ [0]) 2; Marked;
             Read true (takeZ 1 (str "yo") ++ [0; 0]) 1; Unsent true; Transient false] /\
  exists s', queue_steps (policy_may_wait (P := SolidSyslogCrc16Policy)) (Some (mkQueue [] false)) example_calls replies s' /\ stands_for w' s'.
Proof.
  assert (Hs : stands_for empty_store (Some (mkQueue [] false))) by (split; [exact empty_now | by vm_compute]).
  assert (Hl : Forall legal example_calls).
  { apply Forall_cons_2; [split; [by vm_compute | split; [by vm_compute | bytes_by_compute]] |].
    apply Forall_cons_2; [split; [by vm_compute | split; [by vm_compute | bytes_by_compute]] |].
    repeat (apply Forall_cons_2; [by vm_compute |]). apply Forall_nil_2. }
  pose proof (BlockStore_refines_queue empty_store _ example_calls Hs Hl) as HB.
  assert (Er : fst (do_calls example_calls empty_store) = [Wrote SOLIDSYSLOG_STORE_WRITE_KEPT; Wrote SOLIDSYSLOG_STORE_WRITE_KEPT; Read true (str "hi" ++ [0]) 2; Marked;
             Read true (takeZ 1 (str "yo") ++ [0; 0]) 1; Unsent true; Transient false]) by (by vm_compute).
  revert HB Er. destruct (do_calls example_calls empty_store) as [replies w']. cbn [fst]. intros HB Er. split; [exact Er | exact HB].
Defined.

(** A record kept below the ceiling is added to the queue. *)
Lemma write_grows (w : example_bs) q data size : now w (Some q) -> 0 < size <= SOLIDSYSLOG_MAX_MESSAGE_SIZE -> size <= lenZ data -> all_bytes data ->
  fst (SolidSyslogStore_Write data size w) = SOLIDSYSLOG_STORE_WRITE_KEPT -> count w < sq_MaxBlocks (bw_BlockSequence w) ->
  now (snd (SolidSyslogStore_Write data size w)) (Some (q ++ [takeZ size data])).
Proof.
  intros Hn Hsz Hlen Hb Hk Hc. assert (Hm : is_message (takeZ size data)) by (split; [rewrite lenZ_takeZ; lia | by apply all_bytes_takeZ]).
  assert (H1 : wp (SolidSyslogStore_Write data size) (write_outcome (Some q) w (takeZ size data)) w).
  { apply wp_dispatch; [intros _; by apply Write_spec |]. intros Hf. pose proof (hs_working _ _ _ Hn). unfold frozen, working_store in *. congruence. }
  unfold wp in H1. destruct (SolidSyslogStore_Write data size w) as [result w']. cbn [fst snd] in *. subst result.
  inversion H1 as [| | | w1 oq' (_ & lost & kept & Eq & -> & _ & Hl) Hn' |]; subst.
  destruct lost as [| m lost]; [exact Hn' |]. destruct Hl as [_ Hl]; [done | lia].
Qed.

Definition newest : SolidSyslogDiscardPolicyFunction Z := fun _ => st_ret SOLIDSYSLOG_DISCARD_POLICY_NEWEST.
Definition large : bytes := repeat 65 480.
Definition write_large (w : example_bs) : example_bs := snd (SolidSyslogStore_Write large 480 w).
Definition newest_store : example_bs := start_store (Some newest) (mem_of_list [] 600 None).
Lemma large_bytes : all_bytes large.
Proof. apply List.Forall_forall. intros x Hx. unfold large in Hx. apply repeat_spec in Hx. subst x. by split. Qed.
Lemma write_large_now w q : now w (Some q) -> fst (SolidSyslogStore_Write large 480 w) = SOLIDSYSLOG_STORE_WRITE_KEPT -> count w < sq_MaxBlocks (bw_BlockSequence w) ->
  now (write_large w) (Some (q ++ [large])).
Proof.
  intros Hn Hk Hc. replace (q ++ [large]) with (q ++ [takeZ 480 large]) by (f_equal; f_equal; by vm_compute).
  apply write_grows; [done | by vm_compute | by vm_compute | apply large_bytes | done | done].
Qed.

Definition full_store : example_bs := write_large (write_large newest_store).
Lemma newest_now : now newest_store (Some []).
Proof.
  assert (H1 : frozen newest_store \/ now newest_store (Some [])).
  { apply (Start_spec slot slot_records (example_sizes 2 (Some newest)) (mem_of_list [] 600 None) Crc16Policy 0 [] (Some []) (example_fits (Some newest)) slot_wf).
    apply Open_empty; [apply example_fits |]. intros s _. done. }
  destruct H1 as [Hf | Hn]; [by vm_compute in Hf | exact Hn].
Qed.
Lemma full_now : now full_store (Some [large; large]).
Proof.
  assert (H1 : now (write_large newest_store) (Some [large])).
  { apply (write_large_now newest_store [] newest_now); by vm_compute. }
  apply (write_large_now _ _ H1); by vm_compute.
Qed.

Lemma Write_gives_up_as_told_witness :
  let '(result, w') := SolidSyslogStore_Write large 480 full_store in
  result = SOLIDSYSLOG_STORE_WRITE_NOT_RETAINED /\ now w' (Some [large; large]).
Proof.
  pose proof (Write_gives_up_as_told full_store [large; large] large 480 full_now ltac:(by vm_compute) ltac:(by vm_compute) large_bytes) as HB.
  assert (Er : fst (SolidSyslogStore_Write large 480 full_store) = SOLIDSYSLOG_STORE_WRITE_NOT_RETAINED) by (by vm_compute).
  assert (Ew : st_Base (bw_Self (snd (SolidSyslogStore_Write large 480 full_store))) = BlockStoreVtable) by (by vm_compute).
  revert HB Er Ew. destruct (SolidSyslogStore_Write large 480 full_store) as [result w']. cbn [fst snd]. intros HB Er Ew. subst result.
  split; [reflexivity |]. destruct HB as [[Hf _] | (lost & kept & _ & _ & _ & Hn & _)]; [| exact Hn].
  unfold frozen, working_store in Hf. rewrite Ew in Hf. discriminate Hf.
Defined.

Lemma not_frozen (w : example_bs) : st_Base (bw_Self w) = BlockStoreVtable -> frozen w -> False.
Proof. intros H1 H2. unfold frozen in H2. rewrite H1 in H2. discriminate H2. Qed.

Abbreviation restart_on d := (SolidSyslogBlockStore_Initialise (starting slot slot_records (example_sizes 2 (Some newest)) d Crc16Policy 0 [])).
Lemma restart_keeps_queue_witness : let '(_, w') := restart_on (bw_Dev full_store) in stands_for w' (Some (mkQueue [large; large] false)).
Proof.
  pose proof (restart_keeps_queue full_store [large; large] slot slot_records (example_sizes 2 (Some newest)) Crc16Policy 0 []
    full_now (example_fits (Some newest)) ltac:(by vm_compute) slot_wf) as HB.
  assert (Ew : st_Base (bw_Self (snd (restart_on (bw_Dev full_store)))) = BlockStoreVtable) by (by vm_compute).
  assert (Eh : rs_HasReadRecord (bw_RecordStore (snd (restart_on (bw_Dev full_store)))) = false) by (by vm_compute).
  revert HB Ew Eh. destruct (restart_on (bw_Dev full_store)) as [ok w'].
  cbn [snd]. intros HB Ew Eh. rewrite Eh in HB. destruct HB as [Hf | Hn]; [destruct (not_frozen _ Ew Hf) | exact Hn].
Defined.

(** The seventh byte of the next record is the last to reach the device. *)
Definition cut_store : example_bs := start_store (Some newest) (mem_of_list [] 600 (Some 7)).
Lemma cut_now : now cut_store (Some []).
Proof.
  assert (H1 : frozen cut_store \/ now cut_store (Some [])).
  { apply (Start_spec slot slot_records (example_sizes 2 (Some newest)) (mem_of_list [] 600 (Some 7)) Crc16Policy 0 [] (Some []) (example_fits (Some newest)) slot_wf).
    apply Open_empty; [apply example_fits |]. intros s _. done. }
  destruct H1 as [Hf | Hn]; [by vm_compute in Hf | exact Hn].
Qed.
Lemma power_cut_costs_one_record_witness :
  let '(_, w1) := SolidSyslogStore_Write (str "hi") 2 cut_store in
  let '(_, w2) := restart_on (bw_Dev w1) in
  md_blocks (bw_Dev w1) !! 0 = Some [165; 90; 2; 0; 104; 105; 109] /\ (now w2 (Some []) \/ now w2 (Some [str "hi"])).
Proof.
  assert (Hs : 0 < 2 <= SOLIDSYSLOG_MAX_MESSAGE_SIZE) by (by vm_compute).
  assert (Hl : 2 <= lenZ (str "hi")) by (by vm_compute).
  assert (Hb : all_bytes (str "hi")) by bytes_by_compute.
  assert (Hm : bsc_MaxBlockSize (example_sizes 2 (Some newest)) = max_size cut_store) by (by vm_compute).
  pose proof (power_cut_costs_one_record cut_store [] (str "hi") 2 slot slot_records (example_sizes 2 (Some newest)) Crc16Policy 0 []
    cut_now Hs Hl Hb (example_fits (Some newest)) Hm slot_wf) as HB.
  assert (E1 : let '(_, w1) := SolidSyslogStore_Write (str "hi") 2 cut_store in
    sq_DeviceFailed (bw_BlockSequence w1) = false /\ st_Base (bw_Self w1) = NullStoreVtable /\
    md_blocks (bw_Dev w1) !! 0 = Some [165; 90; 2; 0; 104; 105; 109] /\
    let '(_, w2) := restart_on (bw_Dev w1) in st_Base (bw_Self w2) = BlockStoreVtable) by (clear; vm_compute; repeat split).
  revert HB E1. destruct (SolidSyslogStore_Write (str "hi") 2 cut_store) as [result w1]. intros HB (Ed & Ef & Eb & E2).
  specialize (HB Ed Ef). revert HB E2. destruct (restart_on (bw_Dev w1)) as [ok w2]. cbn [snd]. intros HB E2.
  split; [exact Eb |]. destruct HB as [Hf | (lost & kept & El & _ & Hn)]; [destruct (not_frozen _ E2 Hf) |].
  symmetry in El. apply app_nil in El. destruct El as [-> ->]. exact Hn.
Defined.

(** Two blocks: garbage, and one whole record. *)
Definition damaged_device : mem_device := mem_of_list [(0, [1; 2; 3]); (1, RecordStore.one_record)] 600 None.
Lemma damaged_blocks s b : block damaged_device s = Some b -> s = 0 /\ b = [1; 2; 3] \/ s = 1 /\ b = one_record.
Proof.
  cbn [block mem_device_spec]. intros Hb. change (md_blocks damaged_device) with (<[0 := [1; 2; 3]]> (<[1 := one_record]> (∅ : gmap Z bytes))) in Hb.
  rewrite lookup_insert in Hb. case_decide; [subst; injection Hb as <-; by left |].
  rewrite lookup_insert in Hb. case_decide; [subst; injection Hb as <-; by right |]. discriminate Hb.
Qed.
Lemma damaged_left : left_on_device damaged_device 0 1.
Proof.
  assert (Hin : forall s, block damaged_device s <> None -> s = 0 \/ s = 1).
  { intros s Hb. destruct (block damaged_device s) as [b |] eqn:E; [| done]. apply damaged_blocks in E. tauto. }
  split; [split; done | split; done | | done |].
  - intros s _ [-> | ->]%Hin; by vm_compute.
  - intros s _ [-> | ->]%Hin Hne; [exists 1; split; by vm_compute | done].
Qed.
Lemma damaged_blocks_are_passed_witness :
  let '((ok, dst', n), w') := SolidSyslogStore_ReadNextUnsent (repeat 0 4) 4 (snd (restart_on damaged_device)) in
  ok = true /\ dst' = [104; 105; 0; 0] /\ n = 2 /\ now w' None.
Proof.
  assert (Hfit : forall s b, is_seq s -> block damaged_device s = Some b -> all_bytes b /\ lenZ b <= 600).
  { intros s b _ [[_ ->] | [_ ->]]%damaged_blocks; (split; [bytes_by_compute | by vm_compute]). }
  assert (E1 : fst (SolidSyslogStore_ReadNextUnsent (repeat 0 4) 4 (snd (restart_on damaged_device))) = (true, [104; 105; 0; 0], 2)) by (clear; by vm_compute).
  pose proof (damaged_blocks_are_passed slot slot_records (example_sizes 2 (Some newest)) damaged_device Crc16Policy 0 [] 0 1 (repeat 0 4) 4
    (example_fits (Some newest)) slot_wf damaged_left Hfit eq_refl) as HB.
  revert HB E1. cbv zeta. destruct (SolidSyslogStore_ReadNextUnsent _ _ _) as [[[ok dst'] n] w']. cbn [fst]. intros HB [= -> -> ->].
  destruct HB as [(_ & Hk & _) | [Hn _]]; [discriminate Hk | done].
Defined.
