(* ===== verification/FileBlockDevice.v ===== *)
(** A block device that keeps each block in a file of its own
    ([SolidSyslogFileBlockDevice.c]), over the file role ([SolidSyslogFile.c]), with
    the null objects of both roles ([SolidSyslogNullFile.c],
    [SolidSyslogNullBlockDevice.c]).  Over any file system that keeps the contract of
    [SolidSyslogFileDefinition.h] it is an instance of the [BlockDevice] interface,
    so the storage theorems hold of it. *)
From stdpp Require Import gmap.
From S2P Require Import Prelude Interfaces Utf8 Formatter Policies RecordStore BlockSequence BlockStore.

(** * Files *)

(** One file object over the file system [E] it works on.  A path is the text of a
    C string; [SolidSyslogFile_Read] gives the bytes it put in the caller's memory. *)
Class SolidSyslogFile (E : Type) := {
  SolidSyslogFile_Open : bytes -> ST E bool;
  SolidSyslogFile_Close : ST E unit;
  SolidSyslogFile_IsOpen : ST E bool;
  SolidSyslogFile_Read : Z -> ST E (bool * bytes);
  SolidSyslogFile_Write : bytes -> ST E bool;
  SolidSyslogFile_SeekTo : Z -> ST E unit;
  SolidSyslogFile_Size : ST E (bool * Z);
  SolidSyslogFile_Truncate : ST E unit;
  SolidSyslogFile_Exists : bytes -> ST E bool;
  SolidSyslogFile_Delete : bytes -> ST E bool
}.

(** What a file on a steady volume promises: [file] is what the file system holds,
    [opened] the path and position of the open file.  Opening creates what is absent and
    truncates nothing, and may fail; a transfer may fail, after a part of it when it
    writes, and may close the file; a length may not be learned.  More than
    [SolidSyslogFileDefinition.h] promises, and what makes the volume steady: a seek and a
    truncate of the open file do what they are for, a close loses nothing, and [Exists]
    knows.  The contract of that header is in [FileContract.v], where a file that keeps
    it on such a volume is shown to be a steady one. *)
Class SteadyFileSpec (E : Type) `{SolidSyslogFile E} := {
  file : E -> bytes -> option bytes;
  opened : E -> option (bytes * Z);
  file_ok : E -> Prop;
  same_files (e e' : E) : Prop := forall path, file e' path = file e path;
  other_files (path : bytes) (e e' : E) : Prop := forall p, p <> path -> file e' p = file e p;
  still_on (path : bytes) (e : E) : Prop := opened e = None \/ exists at_, opened e = Some (path, at_);
  Open_holds : forall path e, file_ok e -> opened e = None ->
    let '(ok, e') := SolidSyslogFile_Open path e in
    file_ok e' /\ other_files path e e' /\ (file e' path = file e path \/ file e path = None /\ file e' path = Some []) /\
    if ok : bool then exists at_, opened e' = Some (path, at_) else opened e' = None;
  Close_holds : forall e, file_ok e ->
    let '(_, e') := SolidSyslogFile_Close e in file_ok e' /\ same_files e e' /\ opened e' = None;
  IsOpen_tells : forall e, file_ok e ->
    let '(ok, e') := SolidSyslogFile_IsOpen e in
    file_ok e' /\ same_files e e' /\ opened e' = opened e /\ (ok = true <-> opened e <> None);
  FileRead_holds : forall n path at_ e, file_ok e -> opened e = Some (path, at_) -> 0 <= at_ -> 0 <= n ->
    let '((ok, bs), e') := SolidSyslogFile_Read n e in
    file_ok e' /\ same_files e e' /\ still_on path e' /\ lenZ bs <= n /\
    forall b, file e path = Some b -> ok = true -> 0 < n -> at_ + n <= lenZ b /\ bs = spanZ b at_ n;
  Write_holds : forall bs path at_ e, file_ok e -> opened e = Some (path, at_) ->
    let '(ok, e') := SolidSyslogFile_Write bs e in
    file_ok e' /\ other_files path e e' /\ still_on path e' /\
    forall b, file e path = Some b -> 0 <= at_ <= lenZ b ->
      exists part rest, bs = part ++ rest /\ (ok = true -> rest = []) /\ file e' path = Some (spliceZ b at_ part);
  SeekTo_holds : forall off path at_ e, file_ok e -> opened e = Some (path, at_) -> 0 <= off <= SIZE_MAX ->
    let '(_, e') := SolidSyslogFile_SeekTo off e in file_ok e' /\ same_files e e' /\ opened e' = Some (path, off);
  FileSize_tells : forall path at_ e, file_ok e -> opened e = Some (path, at_) ->
    let '((ok, n), e') := SolidSyslogFile_Size e in
    file_ok e' /\ same_files e e' /\ still_on path e' /\
    (ok = true -> opened e' <> None /\ 0 <= n <= SIZE_MAX /\ forall b, file e path = Some b -> n = lenZ b);
  Truncate_holds : forall path at_ e, file_ok e -> opened e = Some (path, at_) ->
    let '(_, e') := SolidSyslogFile_Truncate e in
    file_ok e' /\ other_files path e e' /\ file e' path = Some [] /\ still_on path e';
  FileExists_tells : forall path e, file_ok e ->
    let '(present, e') := SolidSyslogFile_Exists path e in
    file_ok e' /\ same_files e e' /\ opened e' = opened e /\ (present = true <-> file e path <> None);
  Delete_holds : forall path e, file_ok e -> (forall at_, opened e <> Some (path, at_)) ->
    let '(ok, e') := SolidSyslogFile_Delete path e in
    file_ok e' /\ other_files path e e' /\ opened e' = opened e /\ (ok = true -> file e' path = None)
}.

Section null_file.
Context {E : Type}.
Definition NullFile_Open (path : bytes) : ST E bool := st_ret false.
Definition NullFile_Close : ST E unit := st_ret tt.
Definition NullFile_IsOpen : ST E bool := st_ret false.
Definition NullFile_Read (count : Z) : ST E (bool * bytes) := st_ret (false, []).
Definition NullFile_Write (buf : bytes) : ST E bool := st_ret true.
Definition NullFile_SeekTo (offset : Z) : ST E unit := st_ret tt.
Definition NullFile_Size : ST E (bool * Z) := st_ret (false, 0).
Definition NullFile_Truncate : ST E unit := st_ret tt.
Definition NullFile_Exists (path : bytes) : ST E bool := st_ret false.
Definition NullFile_Delete (path : bytes) : ST E bool := st_ret true.
Definition SolidSyslogNullFile_Get : SolidSyslogFile E := {|
  SolidSyslogFile_Open := NullFile_Open;
  SolidSyslogFile_Close := NullFile_Close;
  SolidSyslogFile_IsOpen := NullFile_IsOpen;
  SolidSyslogFile_Read := NullFile_Read;
  SolidSyslogFile_Write := NullFile_Write;
  SolidSyslogFile_SeekTo := NullFile_SeekTo;
  SolidSyslogFile_Size := NullFile_Size;
  SolidSyslogFile_Truncate := NullFile_Truncate;
  SolidSyslogFile_Exists := NullFile_Exists;
  SolidSyslogFile_Delete := NullFile_Delete
|}.
End null_file.

Section null_device.
Context {D : Type}.
Definition NullBlockDevice_Acquire (blockIndex : Z) : ST D bool := st_ret false.
Definition NullBlockDevice_Dispose (blockIndex : Z) : ST D bool := st_ret false.
Definition NullBlockDevice_Exists (blockIndex : Z) : ST D bool := st_ret false.
Definition NullBlockDevice_Read (blockIndex offset count : Z) : ST D (bool * bytes) := st_ret (false, []).
Definition NullBlockDevice_Append (blockIndex : Z) (buf : bytes) : ST D bool := st_ret false.
Definition NullBlockDevice_WriteAt (blockIndex offset : Z) (buf : bytes) : ST D bool := st_ret false.
Definition NullBlockDevice_Size (blockIndex : Z) : ST D (bool * Z) := st_ret (false, 0).
Definition NullBlockDevice_GetBlockSize : ST D Z := st_ret 0.
Definition SolidSyslogNullBlockDevice_Get : BlockDevice D := {|
  bd_Acquire := NullBlockDevice_Acquire;
  bd_Dispose := NullBlockDevice_Dispose;
  bd_Exists := NullBlockDevice_Exists;
  bd_Read := NullBlockDevice_Read;
  bd_Append := NullBlockDevice_Append;
  bd_WriteAt := NullBlockDevice_WriteAt;
  bd_Size := NullBlockDevice_Size;
  bd_GetBlockSize := NullBlockDevice_GetBlockSize
|}.
End null_device.

(** * The device *)

Definition SOLIDSYSLOG_MAX_PATH_SIZE : Z := 128.
Definition SOLIDSYSLOG_FILE_DEFAULT_BLOCK_SIZE : Z := 8192.
Definition FILE_EXTENSION : bytes := str ".log".
Definition SEQUENCE_DIGITS : Z := 2.
(** [sizeof] counts the terminator. *)
Definition FILENAME_SUFFIX : Z := SEQUENCE_DIGITS + (lenZ FILE_EXTENSION + 1) - 1.
Definition MAX_PREFIX_LENGTH : Z := SOLIDSYSLOG_MAX_PATH_SIZE - FILENAME_SUFFIX - 1.
Definition MAX_BLOCK_INDEX : Z := 99.

Record OpenHandle := mkOpenHandle { oh_BlockIndex : Z; oh_IsOpen : bool }.
#[export] Instance settable_OpenHandle : Settable OpenHandle := fun h => mkOpenHandle (oh_BlockIndex h) (oh_IsOpen h).

(** The table of functions in [Base]: the device's own, or the shared null device's. *)
Inductive device_vtable := FileBlockDeviceVtable | NullBlockDeviceVtable.

(** The file the handle points to is in [fw_Files], with its file system. *)
Record SolidSyslogFileBlockDevice := mkFileBlockDevice {
  fb_Base : device_vtable;
  fb_Handle : OpenHandle;
  fb_PathPrefix : bytes;
  fb_BlockSize : Z
}.
#[export] Instance settable_FileBlockDevice : Settable SolidSyslogFileBlockDevice :=
  fun s => mkFileBlockDevice (fb_Base s) (fb_Handle s) (fb_PathPrefix s) (fb_BlockSize s).
Record fb_world (E : Type) := mkFbWorld { fw_Self : SolidSyslogFileBlockDevice; fw_Files : E }.
Arguments mkFbWorld {E}.
Arguments fw_Self {E}.
Arguments fw_Files {E}.
#[export] Instance settable_fb_world E : Settable (fb_world E) := fun w => mkFbWorld (fw_Self w) (fw_Files w).

(** [nameStorage] is the uninitialised area a name is formatted in. *)
Definition FileBlockDevice_FormatBlockFilename (self : SolidSyslogFileBlockDevice) (storage : bytes) (blockIndex : Z) : bytes :=
  let formatter := SolidSyslogFormatter_Create storage SOLIDSYSLOG_MAX_PATH_SIZE in
  let formatter := SolidSyslogFormatter_BoundedString formatter (fb_PathPrefix self) MAX_PREFIX_LENGTH in
  let formatter := SolidSyslogFormatter_TwoDigit formatter (u8 blockIndex) in
  let formatter := SolidSyslogFormatter_BoundedString formatter FILE_EXTENSION (lenZ FILE_EXTENSION) in
  cstr (fst (SolidSyslogFormatter_AsFormattedBuffer formatter)).

Definition FileBlockDevice_IsValidBlockIndex (blockIndex : Z) : bool := blockIndex <=? MAX_BLOCK_INDEX.
Definition FileBlockDevice_IsHandleAlreadyOpenOnBlock (handle : OpenHandle) (underlyingFileIsOpen : bool) (blockIndex : Z) : bool :=
  oh_IsOpen handle && underlyingFileIsOpen && (oh_BlockIndex handle =? blockIndex).

Section file_block_device.
Context {E : Type} `{SolidSyslogFile E} (nameStorage : bytes).
Abbreviation fb_op := (ST (fb_world E)).

Definition fb_get {A} (f : SolidSyslogFileBlockDevice -> A) : fb_op A := st_get (fun w => f (fw_Self w)).
Definition fb_handle (f : OpenHandle -> OpenHandle) : fb_op unit :=
  st_mod (fun w => w <| fw_Self := (fw_Self w) <| fb_Handle := f (fb_Handle (fw_Self w)) |> |>).
Definition fb_file {A} : ST E A -> fb_op A := zoom fw_Files (fun e w => w <| fw_Files := e |>).

Definition SolidSyslogFileBlockDevice_Initialise (pathPrefix : bytes) (blockSize : Z) : SolidSyslogFileBlockDevice :=
  mkFileBlockDevice FileBlockDeviceVtable (mkOpenHandle 0 false) pathPrefix blockSize.

Definition FileBlockDevice_CloseIfOpen : fb_op unit :=
  let! isOpen := fb_get (fun s => oh_IsOpen (fb_Handle s)) in
  if! isOpen : bool then
    fb_file SolidSyslogFile_Close ;;;
    fb_handle (fun h => h <| oh_IsOpen := false |>)
  end!.
Definition SolidSyslogFileBlockDevice_Cleanup : fb_op unit :=
  FileBlockDevice_CloseIfOpen ;;;
  st_mod (fun w => w <| fw_Self := (fw_Self w) <| fb_Base := NullBlockDeviceVtable |> |>).

Definition block_name (blockIndex : Z) : fb_op bytes :=
  fb_get (fun self => FileBlockDevice_FormatBlockFilename self nameStorage blockIndex).

Definition FileBlockDevice_OpenHandleOnBlock (blockIndex : Z) : fb_op bool :=
  let! isOpen := fb_file SolidSyslogFile_IsOpen in
  if! isOpen : bool then fb_file SolidSyslogFile_Close end! ;;;
  fb_handle (fun h => h <| oh_IsOpen := false |>) ;;;
  let! name := block_name blockIndex in
  let! opened := fb_file (SolidSyslogFile_Open name) in
  if! opened : bool then
    fb_handle (fun h => h <| oh_BlockIndex := blockIndex |>) ;;;
    fb_handle (fun h => h <| oh_IsOpen := true |>)
  end! ;;;
  st_ret opened.
Definition FileBlockDevice_EnsureHandleOpenOnBlock (blockIndex : Z) : fb_op bool :=
  let! underlyingFileIsOpen := fb_file SolidSyslogFile_IsOpen in
  let! ready := fb_get (fun s => FileBlockDevice_IsHandleAlreadyOpenOnBlock (fb_Handle s) underlyingFileIsOpen blockIndex) in
  if negb ready then FileBlockDevice_OpenHandleOnBlock blockIndex else st_ret ready.

Definition FileBlockDevice_Acquire (blockIndex : Z) : fb_op bool :=
  if FileBlockDevice_IsValidBlockIndex blockIndex then
    let! ready := FileBlockDevice_EnsureHandleOpenOnBlock blockIndex in
    if! ready : bool then fb_file SolidSyslogFile_Truncate end! ;;;
    st_ret ready
  else st_ret false.

Definition FileBlockDevice_CloseIfHoldingBlock (blockIndex : Z) : fb_op unit :=
  let! holding := fb_get (fun s => oh_IsOpen (fb_Handle s) && (oh_BlockIndex (fb_Handle s) =? blockIndex)) in
  if! holding : bool then
    fb_file SolidSyslogFile_Close ;;;
    fb_handle (fun h => h <| oh_IsOpen := false |>)
  end!.
Definition FileBlockDevice_Dispose (blockIndex : Z) : fb_op bool :=
  if FileBlockDevice_IsValidBlockIndex blockIndex then
    FileBlockDevice_CloseIfHoldingBlock blockIndex ;;;
    let! name := block_name blockIndex in
    fb_file (SolidSyslogFile_Delete name)
  else st_ret false.
Definition FileBlockDevice_Exists (blockIndex : Z) : fb_op bool :=
  if FileBlockDevice_IsValidBlockIndex blockIndex then
    let! name := block_name blockIndex in
    fb_file (SolidSyslogFile_Exists name)
  else st_ret false.
Definition FileBlockDevice_Read (blockIndex offset count : Z) : fb_op (bool * bytes) :=
  if FileBlockDevice_IsValidBlockIndex blockIndex then
    let! ready := FileBlockDevice_EnsureHandleOpenOnBlock blockIndex in
    if ready : bool then
      fb_file (SolidSyslogFile_SeekTo offset) ;;;
      fb_file (SolidSyslogFile_Read count)
    else st_ret (false, [])
  else st_ret (false, []).
Definition FileBlockDevice_Append (blockIndex : Z) (buf : bytes) : fb_op bool :=
  if FileBlockDevice_IsValidBlockIndex blockIndex then
    let! ready := FileBlockDevice_EnsureHandleOpenOnBlock blockIndex in
    if ready : bool then
      let! size := fb_file SolidSyslogFile_Size in
      if fst size : bool then
        fb_file (SolidSyslogFile_SeekTo (snd size)) ;;;
        fb_file (SolidSyslogFile_Write buf)
      else st_ret false
    else st_ret false
  else st_ret false.
Definition FileBlockDevice_WriteAt (blockIndex offset : Z) (buf : bytes) : fb_op bool :=
  if FileBlockDevice_IsValidBlockIndex blockIndex then
    let! ready := FileBlockDevice_EnsureHandleOpenOnBlock blockIndex in
    if ready : bool then
      fb_file (SolidSyslogFile_SeekTo offset) ;;;
      fb_file (SolidSyslogFile_Write buf)
    else st_ret false
  else st_ret false.
Definition FileBlockDevice_Size (blockIndex : Z) : fb_op (bool * Z) :=
  if FileBlockDevice_IsValidBlockIndex blockIndex then
    let! known := FileBlockDevice_EnsureHandleOpenOnBlock blockIndex in
    if known : bool then fb_file SolidSyslogFile_Size else st_ret (false, 0)
  else st_ret (false, 0).
Definition FileBlockDevice_GetBlockSize : fb_op Z := fb_get fb_BlockSize.

(** ** Through the table of functions ([SolidSyslogBlockDevice.c]) *)

Definition FileBlockDevice_functions : BlockDevice (fb_world E) := {|
  bd_Acquire := FileBlockDevice_Acquire;
  bd_Dispose := FileBlockDevice_Dispose;
  bd_Exists := FileBlockDevice_Exists;
  bd_Read := FileBlockDevice_Read;
  bd_Append := FileBlockDevice_Append;
  bd_WriteAt := FileBlockDevice_WriteAt;
  bd_Size := FileBlockDevice_Size;
  bd_GetBlockSize := FileBlockDevice_GetBlockSize
|}.
Definition through_base {A} (f : BlockDevice (fb_world E) -> fb_op A) : fb_op A :=
  let! base := fb_get fb_Base in
  match base with
  | FileBlockDeviceVtable => f FileBlockDevice_functions
  | NullBlockDeviceVtable => f SolidSyslogNullBlockDevice_Get
  end.
Definition SolidSyslogBlockDevice_Acquire (i : Z) : fb_op bool := through_base (fun f => bd_Acquire (BlockDevice := f) i).
Definition SolidSyslogBlockDevice_Dispose (i : Z) : fb_op bool := through_base (fun f => bd_Dispose (BlockDevice := f) i).
Definition SolidSyslogBlockDevice_Exists (i : Z) : fb_op bool := through_base (fun f => bd_Exists (BlockDevice := f) i).
Definition SolidSyslogBlockDevice_Read (i off n : Z) : fb_op (bool * bytes) := through_base (fun f => bd_Read (BlockDevice := f) i off n).
Definition SolidSyslogBlockDevice_Append (i : Z) (bs : bytes) : fb_op bool := through_base (fun f => bd_Append (BlockDevice := f) i bs).
Definition SolidSyslogBlockDevice_WriteAt (i off : Z) (bs : bytes) : fb_op bool := through_base (fun f => bd_WriteAt (BlockDevice := f) i off bs).
Definition SolidSyslogBlockDevice_Size (i : Z) : fb_op (bool * Z) := through_base (fun f => bd_Size (BlockDevice := f) i).
Definition SolidSyslogBlockDevice_GetBlockSize : fb_op Z := through_base (fun f => bd_GetBlockSize (BlockDevice := f)).
End file_block_device.

(** * Names *)

(** The name of a block as it is meant: the prefix, two digits, the extension. *)
Definition name_of (prefix : bytes) (blockIndex : Z) : bytes := prefix ++ digits_of 2 blockIndex ++ FILE_EXTENSION.
Definition prefix_ok (prefix : bytes) : Prop := clean prefix /\ lenZ prefix <= MAX_PREFIX_LENGTH.

Lemma name_clean prefix i : clean prefix -> clean (name_of prefix i).
Proof.
  intros Hp. unfold name_of. apply clean_app; [done |]. apply clean_app; [apply digits_of_clean |].
  apply clean_ascii. vm_compute. repeat (apply Forall_cons_2; [split; reflexivity |]). apply Forall_nil_2.
Qed.
Lemma name_inj prefix i j : 0 <= i <= MAX_BLOCK_INDEX -> 0 <= j <= MAX_BLOCK_INDEX ->
  name_of prefix i = name_of prefix j -> i = j.
Proof.
  unfold name_of, MAX_BLOCK_INDEX. intros Hi Hj E. apply app_inv_head in E. apply app_inv_tail in E.
  rewrite <- (read_digits_of 2 i), <- (read_digits_of 2 j), E by lia. done.
Qed.

(** Whatever the area held before, the formatter makes that name. *)
Lemma FormatBlockFilename_name self storage i :
  prefix_ok (fb_PathPrefix self) -> SOLIDSYSLOG_MAX_PATH_SIZE <= lenZ storage -> 0 <= i <= MAX_BLOCK_INDEX ->
  FileBlockDevice_FormatBlockFilename self storage i = name_of (fb_PathPrefix self) i.
Proof.
  intros [Hc Hl] Hs Hi. unfold FileBlockDevice_FormatBlockFilename, MAX_BLOCK_INDEX in *. rewrite u8_small by lia.
  pose proof (Create_wf storage SOLIDSYSLOG_MAX_PATH_SIZE ltac:(split; [discriminate | done])) as H1.
  destruct (BoundedString_refines _ (fb_PathPrefix self) MAX_PREFIX_LENGTH (prints_wf _ _ _ H1) (clean_bytes _ Hc)) as (out & HB & H2).
  apply Bounded_whole in HB as ->; [| done..].
  pose proof (TwoDigit_prints _ i (prints_wf _ _ _ H2)) as H3.
  destruct (BoundedString_refines _ FILE_EXTENSION (lenZ FILE_EXTENSION) (prints_wf _ _ _ H3)) as (ext & HB & H4).
  { vm_compute. repeat (apply Forall_cons_2; [split; [discriminate | reflexivity] |]). apply Forall_nil_2. }
  apply Bounded_whole in HB as ->; [| apply clean_ascii; vm_compute; repeat (apply Forall_cons_2; [split; reflexivity |]); apply Forall_nil_2 | done].
  pose proof (prints_trans _ _ _ _ _ H1 (prints_trans _ _ _ _ _ H2 (prints_trans _ _ _ _ _ H3 H4))) as HP. clear H1 H2 H3 H4.
  set (f := SolidSyslogFormatter_BoundedString _ FILE_EXTENSION _) in *. clearbody f. cbn [app] in HP. fold (name_of (fb_PathPrefix self) i) in HP.
  assert (Ht : fmt_text f = name_of (fb_PathPrefix self) i).
  { rewrite (app_text _ _ _ (prints_appends _ _ _ HP)). cbn [app]. apply takeZ_ge. unfold name_of. rewrite !lenZ_app, digits_of_len.
    change (lenZ FILE_EXTENSION) with 4. unfold fmt_capacity. cbn [fm_Size]. unfold MAX_PREFIX_LENGTH, FILENAME_SUFFIX, SEQUENCE_DIGITS, SOLIDSYSLOG_MAX_PATH_SIZE in *.
    change (lenZ FILE_EXTENSION) with 4 in *. lia. }
  pose proof (name_clean _ i Hc) as Hn. rewrite <- Ht in Hn |- *.
  pose proof (AsFormattedBuffer_spec f (prints_wf _ _ _ HP)) as HA.
  destruct (SolidSyslogFormatter_AsFormattedBuffer f) as [area f']. cbn [fst] in *.
  destruct HA as (_ & (tail & E & _ & Htail) & _).
  - rewrite (app_size _ _ _ (prints_appends _ _ _ HP)). reflexivity.
  - apply HP.
  - exists (fmt_text f). split; [done |]. symmetry. by apply fmt_text_cut, (prints_wf _ _ _ HP).
  - rewrite (Htail (proj1 Hn)), app_nil_r in E. done.
Qed.

(** * What the device keeps *)

Section device_theory.
Context {E : Type} `{HF : SolidSyslogFile E, HFS : !SteadyFileSpec E}.
Context (nameStorage : bytes) (Hstorage : SOLIDSYSLOG_MAX_PATH_SIZE <= lenZ nameStorage).
Implicit Types (w : fb_world E) (i j off n : Z).
#[local] Arguments name_of : simpl never.
#[local] Arguments FileBlockDevice_FormatBlockFilename : simpl never.

Definition named w i : bytes := name_of (fb_PathPrefix (fw_Self w)) i.
Definition on_disk w i : option bytes := file (fw_Files w) (named w i).

(** The prefix leaves room for the rest of the name; the file, when it is open, is
    the one the handle says. *)
Record fb_ok w : Prop := {
  fo_prefix : prefix_ok (fb_PathPrefix (fw_Self w));
  fo_index : 0 <= oh_BlockIndex (fb_Handle (fw_Self w)) <= MAX_BLOCK_INDEX;
  fo_opened : forall path at_, opened (fw_Files w) = Some (path, at_) ->
    oh_IsOpen (fb_Handle (fw_Self w)) = true /\ path = named w (oh_BlockIndex (fb_Handle (fw_Self w)));
  fo_files : file_ok (fw_Files w)
}.

(** A step about block [i]: the configuration stays, and so do the other files. *)
Record about i w w' : Prop := {
  ab_ok : fb_ok w';
  ab_base : fb_Base (fw_Self w') = fb_Base (fw_Self w);
  ab_prefix : fb_PathPrefix (fw_Self w') = fb_PathPrefix (fw_Self w);
  ab_others : other_files (named w i) (fw_Files w) (fw_Files w')
}.
Lemma about_refl i w : fb_ok w -> about i w w.
Proof using. intros H. by split. Qed.
Lemma about_trans i w w1 w2 : about i w w1 -> about i w1 w2 -> about i w w2.
Proof using.
  intros [O1 B1 P1 F1] [O2 B2 P2 F2]. split; [done | congruence | congruence |].
  intros p Hp. rewrite F2, F1; [done | done |]. unfold named. by rewrite P1.
Qed.
Lemma about_on_disk i w w' j : 0 <= i <= MAX_BLOCK_INDEX -> 0 <= j <= MAX_BLOCK_INDEX -> about i w w' -> j <> i -> on_disk w' j = on_disk w j.
Proof using.
  intros Hi Hj [_ _ Hp Hf] Hne. unfold on_disk, named. rewrite Hp. apply Hf. intros En. by apply name_inj in En.
Qed.
Lemma ok_name w self i : fb_ok w -> fb_PathPrefix self = fb_PathPrefix (fw_Self w) -> 0 <= i <= MAX_BLOCK_INDEX ->
  FileBlockDevice_FormatBlockFilename self nameStorage i = named w i.
Proof using Hstorage. intros [Hp _ _] Ep Hi. unfold named. rewrite <- Ep in *. by apply FormatBlockFilename_name. Qed.

Lemma wp_fb_file {A} (m : ST E A) Q w :
  (forall a e, m (fw_Files w) = (a, e) -> Q a (w <| fw_Files := e |>)) -> wp (fb_file m) Q w.
Proof using. intros HQ. apply wp_zoom. unfold wp. destruct (m (fw_Files w)) as [a e] eqn:Em. by apply HQ. Qed.
Ltac fb_steps := cbv beta iota; repeat (first [wp_step | progress unfold fb_get, fb_handle, block_name]; cbv beta iota).

(** A step that only works the open file of block [i]. *)
Lemma on_file_about i w (e : E) : fb_ok w -> oh_IsOpen (fb_Handle (fw_Self w)) = true -> oh_BlockIndex (fb_Handle (fw_Self w)) = i ->
  file_ok e -> other_files (named w i) (fw_Files w) e -> still_on (named w i) e -> about i w (w <| fw_Files := e |>).
Proof using.
  intros [H1 H2 H3 H4] Ho Hx He Hother Hon. split; try done. split; try done.
  intros path at_ Hp. simpl in Hp |- *. destruct Hon as [Hn | [at' Hn]]; rewrite Hn in Hp; [done |]. injection Hp as <- <-.
  split; [done |]. unfold named. simpl. by rewrite Hx.
Qed.
(** A step after which no file is open. *)
Lemma closed_about i w w' : fb_ok w -> fw_Self w' = (fw_Self w) <| fb_Handle := (fb_Handle (fw_Self w)) <| oh_IsOpen := false |> |> ->
  file_ok (fw_Files w') -> other_files (named w i) (fw_Files w) (fw_Files w') -> opened (fw_Files w') = None -> about i w w'.
Proof using.
  intros [H1 H2 H3 H4] Es He Hother Hn. split; rewrite ?Es; try done. split; rewrite ?Es; try done. intros path at_. by rewrite Hn.
Qed.

(** The file of block [i] is open, and holds what it held, or nothing if it is new. *)
Record holding i w w' : Prop := {
  hd_about : about i w w';
  hd_opened : exists at_, opened (fw_Files w') = Some (named w' i, at_);
  hd_open : oh_IsOpen (fb_Handle (fw_Self w')) = true /\ oh_BlockIndex (fb_Handle (fw_Self w')) = i;
  hd_file : on_disk w' i = on_disk w i \/ on_disk w i = None /\ on_disk w' i = Some []
}.
(** No file of the block was opened: at most an empty one was made. *)
Record not_held i w w' : Prop := {
  nh_about : about i w w';
  nh_file : on_disk w' i = on_disk w i \/ on_disk w i = None /\ on_disk w' i = Some []
}.

Lemma OpenHandle_spec i w : fb_ok w -> 0 <= i <= MAX_BLOCK_INDEX ->
  wp (FileBlockDevice_OpenHandleOnBlock nameStorage i) (fun ok w' => if ok : bool then holding i w w' else not_held i w w') w.
Proof using HFS Hstorage.
  intros Hw Hi. unfold FileBlockDevice_OpenHandleOnBlock. fb_steps. apply wp_fb_file. intros isOpen e1 E1.
  pose proof (IsOpen_tells (fw_Files w) (fo_files _ Hw)) as HI. rewrite E1 in HI. destruct HI as (Hok1 & Hsame & Hop & Hiff).
  set (closed := fun e2 => file_ok e2 /\ same_files (fw_Files w) e2 /\ opened e2 = None).
  assert (Hclose : forall Q, (forall e2, closed e2 -> Q tt (w <| fw_Files := e2 |>)) ->
    wp (if! isOpen then fb_file SolidSyslogFile_Close end!) Q (w <| fw_Files := e1 |>)).
  { intros Q HQ. destruct isOpen; [apply wp_fb_file; intros [] e2 E2 | wp_steps].
    - pose proof (Close_holds e1 Hok1) as HC. simpl in E2. rewrite E2 in HC. destruct HC as (Hok2 & Hs2 & Hn).
      apply (HQ e2). split; [done |]. split; [| done]. intros p. by rewrite Hs2, Hsame.
    - apply (HQ e1). split; [done |]. split; [done |]. rewrite Hop. destruct (opened (fw_Files w)) eqn:Eo; [| done].
      by assert (false = true) by (by apply Hiff). }
  fb_steps. apply Hclose. intros e2 (Hok2 & Hs2 & Hn2). clear Hclose. fb_steps. apply wp_fb_file. intros ok e3 E3. fb_steps. simpl in E3.
  rewrite (ok_name w) in E3 by done. pose proof (Open_holds (named w i) e2 Hok2 Hn2) as HO. rewrite E3 in HO. destruct HO as (Hok3 & Ho1 & Ho2 & Ho3).
  assert (Hother : other_files (named w i) (fw_Files w) e3) by (intros p Hp; by rewrite Ho1, Hs2).
  assert (Hfile : file e3 (named w i) = file (fw_Files w) (named w i) \/ file (fw_Files w) (named w i) = None /\ file e3 (named w i) = Some []).
  { by rewrite <- (Hs2 (named w i)). }
  destruct ok; fb_steps.
  - destruct Ho3 as [at_ Ho3]. split; try done.
    + split; try done. split; [apply Hw | done | | done]. simpl. intros path at' Hp. rewrite Ho3 in Hp. by injection Hp as <- <-.
    + by exists at_.
  - split; [| exact Hfile].
    by apply closed_about.
Qed.

Lemma Ensure_spec i w : fb_ok w -> 0 <= i <= MAX_BLOCK_INDEX ->
  wp (FileBlockDevice_EnsureHandleOpenOnBlock nameStorage i) (fun ok w' => if ok : bool then holding i w w' else not_held i w w') w.
Proof using HFS Hstorage.
  intros Hw Hi. unfold FileBlockDevice_EnsureHandleOpenOnBlock. fb_steps. apply wp_fb_file. intros isOpen e1 E1. fb_steps.
  pose proof (IsOpen_tells (fw_Files w) (fo_files _ Hw)) as HI. rewrite E1 in HI. destruct HI as (Hok1 & Hsame & Hop & Hiff).
  set (w1 := w <| fw_Files := e1 |>).
  assert (Hw1 : fb_ok w1) by (destruct Hw as [H1 H2 H3 H4]; split; try done; simpl; rewrite Hop; done).
  assert (Ha1 : about i w w1) by (split; try done; intros p _; apply Hsame).
  assert (Hd1 : on_disk w1 i = on_disk w i) by apply Hsame.
  change (fb_Handle (fw_Self w)) with (fb_Handle (fw_Self w1)).
  unfold FileBlockDevice_IsHandleAlreadyOpenOnBlock. destruct (_ && _) eqn:Er; cbn [negb].
  - apply andb_prop in Er as [Er Hx%Z.eqb_eq]. apply andb_prop in Er as [Ho Hopen]. wp_steps. split; try done; [| by left].
    destruct (opened e1) as [[path at_] |] eqn:Eo; [| exfalso; rewrite <- Hop in Hiff; by apply Hiff in Hopen].
    exists at_. simpl. rewrite Eo. destruct (fo_opened _ Hw1 path at_ Eo) as [_ ->]. unfold named. by rewrite Hx.
  - eapply wp_mono; [by apply OpenHandle_spec |]. cbv beta. intros ok w2 H2. destruct ok; destruct H2.
    + split; try done; [by eapply about_trans | by rewrite <- Hd1].
    + split; [by eapply about_trans | by rewrite <- Hd1].
Qed.

Lemma new_or_same i w w' b :
  on_disk w' i = on_disk w i \/ on_disk w i = None /\ on_disk w' i = Some [] -> on_disk w i = Some b -> on_disk w' i = Some b.
Proof using. intros [-> | [Hn _]]; [done | congruence]. Qed.
Lemma holding_files {i w w'} : holding i w w' -> file_ok (fw_Files w').
Proof using. intros H. apply (fo_files _ (ab_ok _ _ _ (hd_about _ _ _ H))). Qed.
(** Working the open file after it was held. *)
Lemma holding_about i w w1 (e : E) : holding i w w1 -> file_ok e ->
  other_files (named w1 i) (fw_Files w1) e -> still_on (named w1 i) e -> about i w (w1 <| fw_Files := e |>).
Proof using.
  intros [Ha _ [Ho Hx] _] He Hother Hon. eapply about_trans; [exact Ha |]. apply on_file_about; [apply Ha | done..].
Qed.

(** ** What each operation does to its block *)

Section one_block.
Context (i : Z) (Hi : 0 <= i <= MAX_BLOCK_INDEX).
Lemma valid_index : FileBlockDevice_IsValidBlockIndex i = true.
Proof using Hi. unfold FileBlockDevice_IsValidBlockIndex. lia. Qed.

Lemma AcquireFile_spec w : fb_ok w ->
  wp (FileBlockDevice_Acquire nameStorage i) (fun ok w' => about i w w' /\ (ok = true -> on_disk w' i = Some [])) w.
Proof using HFS Hstorage Hi.
  intros Hw. unfold FileBlockDevice_Acquire. rewrite valid_index. wp_step. eapply wp_mono; [by apply Ensure_spec |].
  cbv beta. intros [|] w1 H1; fb_steps; [| split; [apply H1 | done]].
  apply wp_fb_file. intros [] e Ee. fb_steps. destruct (hd_opened _ _ _ H1) as [at_ Ho].
  pose proof (Truncate_holds _ _ _ (holding_files H1) Ho) as HT. rewrite Ee in HT. destruct HT as (Ht0 & Ht1 & Ht2 & Ht3).
  split; [by apply holding_about | done].
Qed.

Lemma DisposeFile_spec w : fb_ok w ->
  wp (FileBlockDevice_Dispose nameStorage i) (fun ok w' => about i w w' /\ (ok = true -> on_disk w' i = None)) w.
Proof using HFS Hstorage Hi.
  intros Hw. unfold FileBlockDevice_Dispose. rewrite valid_index. wp_step.
  assert (Hclose : wp (FileBlockDevice_CloseIfHoldingBlock i) (fun _ w1 => about i w w1 /\ forall at_, opened (fw_Files w1) <> Some (named w i, at_)) w).
  { unfold FileBlockDevice_CloseIfHoldingBlock. fb_steps. destruct (_ && _) eqn:Eh; fb_steps.
    - apply wp_fb_file. intros [] e Ee. fb_steps. pose proof (Close_holds (fw_Files w) (fo_files _ Hw)) as HC. rewrite Ee in HC. destruct HC as (He & Hs & Hn).
      split; [apply closed_about; try done; intros p _; apply Hs | simpl; by rewrite Hn].
    - split; [by apply about_refl |]. intros at_ Ho. destruct (fo_opened _ Hw _ _ Ho) as [Hopen En].
      apply name_inj in En; [| done | apply Hw]. rewrite Hopen, <- En, Z.eqb_refl in Eh. done. }
  eapply wp_mono; [exact Hclose |]. cbv beta. intros _ w1 [Ha Hno]. fb_steps. apply wp_fb_file. intros ok e Ee.
  rewrite (ok_name w) in Ee by (done || apply Ha). pose proof (Delete_holds (named w i) (fw_Files w1) (fo_files _ (ab_ok _ _ _ Ha)) Hno) as HD. rewrite Ee in HD.
  destruct HD as (Hd0 & Hd1 & Hd2 & Hd3). pose proof (ab_prefix _ _ _ Ha) as Ep.
  assert (En : named w1 i = named w i) by (unfold named; by rewrite Ep).
  split; [| intros Hok; unfold on_disk, named; simpl; rewrite Ep; by apply Hd3].
  eapply about_trans; [exact Ha |]. split; try done; [| by rewrite En].
  destruct (ab_ok _ _ _ Ha) as [H1 H2 H3 H4]. split; try done. simpl. by rewrite Hd2.
Qed.

Lemma ExistsFile_spec w : fb_ok w ->
  wp (FileBlockDevice_Exists nameStorage i) (fun ok w' => about i w w' /\ on_disk w' i = on_disk w i /\ (ok = true <-> on_disk w i <> None)) w.
Proof using HFS Hstorage Hi.
  intros Hw. unfold FileBlockDevice_Exists. rewrite valid_index. fb_steps. apply wp_fb_file. intros ok e Ee.
  rewrite (ok_name w) in Ee by done. pose proof (FileExists_tells (named w i) (fw_Files w) (fo_files _ Hw)) as HE. rewrite Ee in HE.
  destruct HE as (He & Hs & Ho & Hiff). split; [| split; [apply Hs | exact Hiff]].
  split; try done; [| intros p _; apply Hs]. destruct Hw as [H1 H2 H3 H4]. split; try done. simpl. by rewrite Ho.
Qed.

Lemma SizeFile_spec w : fb_ok w ->
  wp (FileBlockDevice_Size nameStorage i) (fun r w' => about i w w' /\
    forall b, on_disk w i = Some b -> on_disk w' i = Some b /\ (fst r = true -> snd r = lenZ b)) w.
Proof using HFS Hstorage Hi.
  intros Hw. unfold FileBlockDevice_Size. rewrite valid_index. wp_step. eapply wp_mono; [by apply Ensure_spec |].
  cbv beta. intros [|] w1 H1; fb_steps.
  - apply wp_fb_file. intros [ok n] e Ee. destruct (hd_opened _ _ _ H1) as [at_ Ho]. pose proof (FileSize_tells _ _ _ (holding_files H1) Ho) as HS.
    rewrite Ee in HS. destruct HS as (He & Hs & Hon & Hok). split; [apply holding_about; try done; intros p _; apply Hs |].
    intros b Eb. pose proof (new_or_same i w w1 b (hd_file _ _ _ H1) Eb) as Eb1. split; [etransitivity; [apply Hs | exact Eb1] |].
    intros Hk. by apply (Hok Hk).
  - split; [apply H1 |]. intros b Eb. split; [| done]. eapply new_or_same; [apply H1 | done].
Qed.

(** Transfers, at an offset. *)
Lemma seek_then {A} (m : ST E A) off w w1 Q : holding i w w1 -> 0 <= off <= SIZE_MAX ->
  (forall e1 a e, file_ok e1 -> same_files (fw_Files w1) e1 -> opened e1 = Some (named w1 i, off) -> m e1 = (a, e) -> Q a (w1 <| fw_Files := e |>)) ->
  wp (fb_file (SolidSyslogFile_SeekTo off) ;;; fb_file m) Q w1.
Proof using HFS.
  intros H1 Hoff HQ. wp_step. apply wp_fb_file. intros [] e1 E1. apply wp_fb_file. intros a e Ee.
  destruct (hd_opened _ _ _ H1) as [at_ Ho]. pose proof (SeekTo_holds off _ _ _ (holding_files H1) Ho Hoff) as HS. rewrite E1 in HS. destruct HS as (He & Hs & Hon).
  exact (HQ e1 a e He Hs Hon Ee).
Qed.
(** Writing at [off]: a part of the bytes in place, all of them when it answers so. *)
Definition wrote off (bs : bytes) w (ok : bool) w' : Prop := about i w w' /\
  forall b, on_disk w i = Some b -> 0 <= off <= lenZ b ->
    exists part rest, bs = part ++ rest /\ (ok = true -> rest = []) /\ on_disk w' i = Some (spliceZ b off part).
Lemma write_at off bs w w1 : holding i w w1 -> 0 <= off <= SIZE_MAX ->
  wp (fb_file (SolidSyslogFile_SeekTo off) ;;; fb_file (SolidSyslogFile_Write bs)) (wrote off bs w) w1.
Proof using HFS.
  intros H1 Hoff. eapply seek_then; [exact H1 | exact Hoff |]. intros e1 ok e He Hs Hon Ee. pose proof (Write_holds bs _ _ _ He Hon) as HW. rewrite Ee in HW.
  destruct HW as (He2 & Hother & Hstill & Hpart). split.
  - apply (holding_about i w w1); [done | done | | done]. intros p Hp. rewrite Hother by done. apply Hs.
  - intros b Eb Hb. apply Hpart; [| done]. rewrite Hs. exact (new_or_same i w w1 b (hd_file _ _ _ H1) Eb).
Qed.
Lemma wrote_nothing off bs w w' : about i w w' -> (on_disk w' i = on_disk w i \/ on_disk w i = None /\ on_disk w' i = Some []) ->
  wrote off bs w false w'.
Proof using.
  intros Ha Hf. split; [done |]. intros b Eb _. exists [], bs. split; [done |]. split; [done |].
  rewrite spliceZ_nil. by eapply new_or_same.
Qed.

Lemma ReadFile_spec off n w : fb_ok w -> 0 <= off <= SIZE_MAX -> 0 <= n ->
  wp (FileBlockDevice_Read nameStorage i off n) (fun r w' => about i w w' /\ lenZ (snd r) <= n /\
    forall b, on_disk w i = Some b -> on_disk w' i = Some b /\ (fst r = true -> 0 < n -> off + n <= lenZ b /\ snd r = spanZ b off n)) w.
Proof using HFS Hstorage Hi.
  intros Hw Hoff Hn. unfold FileBlockDevice_Read. rewrite valid_index. wp_step. eapply wp_mono; [by apply Ensure_spec |].
  cbv beta. intros [|] w1 H1; [cbv iota | fb_steps].
  - eapply seek_then; [exact H1 | exact Hoff |]. intros e1 [ok bs] e He Hs Hon Ee. pose proof (FileRead_holds n _ _ _ He Hon (proj1 Hoff) Hn) as HR. rewrite Ee in HR.
    destruct HR as (He2 & Hs2 & Hstill & Hl & Hok). split; [| split; [done |]].
    + apply (holding_about i w w1); [done | done | | done]. intros p _. by rewrite Hs2, Hs.
    + intros b Eb. pose proof (new_or_same i w w1 b (hd_file _ _ _ H1) Eb) as Eb1. split; [| intros Hk; apply Hok; [| done]].
      * etransitivity; [apply Hs2 |]. etransitivity; [apply Hs | exact Eb1].
      * rewrite Hs. exact Eb1.
  - split; [apply H1 |]. split; [done |]. intros b Eb. split; [| done]. eapply new_or_same; [apply H1 | done].
Qed.
Lemma WriteAtFile_spec off bs w : fb_ok w -> 0 <= off <= SIZE_MAX -> wp (FileBlockDevice_WriteAt nameStorage i off bs) (wrote off bs w) w.
Proof using HFS Hstorage Hi.
  intros Hw Hoff. unfold FileBlockDevice_WriteAt. rewrite valid_index. wp_step. eapply wp_mono; [by apply Ensure_spec |].
  cbv beta. intros [|] w1 H1; [cbv iota; by apply write_at | fb_steps; apply wrote_nothing; apply H1].
Qed.

Lemma holding_same w w1 (e : E) : holding i w w1 -> file_ok e -> same_files (fw_Files w1) e -> still_on (named w1 i) e ->
  opened e <> None -> holding i w (w1 <| fw_Files := e |>).
Proof using.
  intros H1 He Hs Hon Hne. destruct Hon as [Hn | Hon]; [done |].
  split; [apply holding_about; try done; [intros p _; apply Hs | by right] | exact Hon | apply H1 |].
  unfold on_disk in *. destruct (hd_file _ _ _ H1) as [E1 | [E0 E1]]; [left | right; split; [done |]]; (etransitivity; [apply Hs | exact E1]).
Qed.
Lemma AppendFile_spec bs w : fb_ok w ->
  wp (FileBlockDevice_Append nameStorage i bs) (fun ok w' => about i w w' /\ forall b, on_disk w i = Some b ->
    exists part rest, bs = part ++ rest /\ (ok = true -> rest = []) /\ on_disk w' i = Some (b ++ part)) w.
Proof using HFS Hstorage Hi.
  intros Hw. unfold FileBlockDevice_Append. rewrite valid_index. wp_step. eapply wp_mono; [by apply Ensure_spec |].
  assert (Hnone : forall w', about i w w' -> (on_disk w' i = on_disk w i \/ on_disk w i = None /\ on_disk w' i = Some []) ->
    about i w w' /\ forall b, on_disk w i = Some b ->
      exists part rest, bs = part ++ rest /\ (false = true -> rest = []) /\ on_disk w' i = Some (b ++ part)).
  { intros w' Ha Hf. split; [done |]. intros b Eb. exists [], bs. rewrite app_nil_r. split_and!; [done | done |]. by eapply new_or_same. }
  cbv beta. intros [|] w1 H1; cbv iota; [| fb_steps; apply Hnone; apply H1].
  wp_step. apply wp_fb_file. intros [ok n] e Ee. cbn [fst snd]. destruct (hd_opened _ _ _ H1) as [at_ Ho].
  pose proof (FileSize_tells _ _ _ (holding_files H1) Ho) as HS. rewrite Ee in HS. destruct HS as (He & Hs & Hon & Hok). destruct ok; cbv iota.
  - destruct (Hok eq_refl) as (Hne & Hrange & Hn). pose proof (holding_same w w1 e H1 He Hs Hon Hne) as H2.
    eapply wp_mono; [by apply write_at |]. cbv beta. intros ok w3 [Ha Hpart]. split; [done |]. intros b Eb.
    rewrite (Hn b (new_or_same i w w1 b (hd_file _ _ _ H1) Eb)) in Hpart.
    pose proof (lenZ_nonneg b). destruct (Hpart b Eb ltac:(lia)) as (part & rest & Ep & Hr & Ed). rewrite spliceZ_end in Ed.
    by exists part, rest.
  - fb_steps. apply Hnone; [apply holding_about; try done; intros p _; apply Hs |].
    destruct (hd_file _ _ _ H1) as [E1 | [E0 E1]]; [left | right; split; [done |]]; (etransitivity; [apply Hs | exact E1]).
Qed.
End one_block.

(** ** As a block device *)

(** The blocks it keeps; none through the null device's table. *)
Definition device_block w i : option bytes :=
  match fb_Base (fw_Self w) with
  | FileBlockDeviceVtable => if decide (0 <= i <= MAX_BLOCK_INDEX) then on_disk w i else None
  | NullBlockDeviceVtable => None
  end.
Lemma device_block_valid w i : fb_Base (fw_Self w) = FileBlockDeviceVtable -> 0 <= i <= MAX_BLOCK_INDEX -> device_block w i = on_disk w i.
Proof using. intros Hb Hi. unfold device_block. by rewrite Hb, decide_True. Qed.
Lemma about_others i w w' j : fb_Base (fw_Self w) = FileBlockDeviceVtable -> 0 <= i <= MAX_BLOCK_INDEX -> about i w w' ->
  j <> i -> device_block w' j = device_block w j.
Proof using.
  intros Hb Hi Ha Hj. unfold device_block. rewrite (ab_base _ _ _ Ha), Hb. destruct (decide _) as [Hv |]; [| done].
  by apply (about_on_disk i).
Qed.

(** Indices, offsets and counts are of type [size_t]: other numbers never come. *)
Definition is_size (n : Z) : bool := (0 <=? n) && (n <=? SIZE_MAX).
Definition if_sizes {A} (guard : bool) (refusal : A) (m : ST (fb_world E) A) : ST (fb_world E) A :=
  if guard then m else st_ret refusal.
(** An operation on block [i]: through the table of the null device and on an index
    out of range it answers [refusal] and does nothing. *)
Lemma through_base_spec {A} i (guard : bool) (f : BlockDevice (fb_world E) -> ST (fb_world E) A) (refusal : A)
    (R : fb_world E -> A -> fb_world E -> Prop) w :
  fb_ok w ->
  (forall w0, f SolidSyslogNullBlockDevice_Get w0 = (refusal, w0)) ->
  (FileBlockDevice_IsValidBlockIndex i = false -> f (FileBlockDevice_functions nameStorage) w = (refusal, w)) ->
  (guard = true -> 0 <= i) ->
  (guard = false \/ device_block w i = None -> R w refusal w) ->
  (guard = true -> fb_Base (fw_Self w) = FileBlockDeviceVtable -> 0 <= i <= MAX_BLOCK_INDEX ->
   wp (f (FileBlockDevice_functions nameStorage)) (fun a w' => about i w w' /\ R w a w') w) ->
  wp (if_sizes guard refusal (through_base nameStorage f))
    (fun a w' => fb_ok w' /\ keeps_others device_block i w w' /\ R w a w') w.
Proof using.
  intros Hw Hnull Hout Hg Hrefused Hop. unfold if_sizes. destruct guard.
  2:{ wp_steps. split; [done |]. split; [by intros j |]. apply Hrefused. by left. }
  specialize (Hg eq_refl). unfold through_base, fb_get. wp_step. apply wp_get. destruct (fb_Base (fw_Self w)) eqn:Eb.
  - destruct (FileBlockDevice_IsValidBlockIndex i) eqn:Ei.
    + unfold FileBlockDevice_IsValidBlockIndex in Ei. assert (Hi : 0 <= i <= MAX_BLOCK_INDEX) by lia.
      eapply wp_mono; [by apply Hop |]. cbv beta. intros a w' [Ha HR]. split; [apply Ha |]. split; [| done].
      intros j Hj. by apply (about_others i).
    + unfold wp. rewrite Hout by done. simpl. split; [done |]. split; [by intros j |]. apply Hrefused. right.
      unfold FileBlockDevice_IsValidBlockIndex in Ei. unfold device_block. rewrite Eb, decide_False by lia. done.
  - unfold wp. rewrite Hnull. simpl. split; [done |]. split; [by intros j |]. apply Hrefused. right. unfold device_block. by rewrite Eb.
Qed.
End device_theory.

Section instance.
Context {E : Type} `{HF : SolidSyslogFile E, HFS : !SteadyFileSpec E}.
Context (nameStorage : bytes) (Hstorage : SOLIDSYSLOG_MAX_PATH_SIZE <= lenZ nameStorage).
Implicit Types (w : fb_world E) (i off n : Z).

Definition device_acquire i := if_sizes (0 <=? i) false (SolidSyslogBlockDevice_Acquire (E := E) nameStorage i).
Definition device_dispose i := if_sizes (0 <=? i) false (SolidSyslogBlockDevice_Dispose (E := E) nameStorage i).
Definition device_exists i := if_sizes (0 <=? i) false (SolidSyslogBlockDevice_Exists (E := E) nameStorage i).
Definition device_read i off n :=
  if_sizes ((0 <=? i) && is_size off && (0 <=? n)) (false, []) (SolidSyslogBlockDevice_Read (E := E) nameStorage i off n).
Definition device_append i bs := if_sizes (0 <=? i) false (SolidSyslogBlockDevice_Append (E := E) nameStorage i bs).
Definition device_write_at i off bs :=
  if_sizes ((0 <=? i) && is_size off) false (SolidSyslogBlockDevice_WriteAt (E := E) nameStorage i off bs).
Definition device_size i := if_sizes (0 <=? i) (false, 0) (SolidSyslogBlockDevice_Size (E := E) nameStorage i).

(** Each operation keeps the invariant and its law of [BlockDeviceSpec]. *)
Ltac lawful R :=
  eapply (through_base_spec nameStorage _ _ _ _ R);
  [ done | done
  | let Hv := fresh "Hv" in intros Hv; simpl;
    unfold FileBlockDevice_Acquire, FileBlockDevice_Dispose, FileBlockDevice_Exists, FileBlockDevice_Read, FileBlockDevice_Append,
      FileBlockDevice_WriteAt, FileBlockDevice_Size; by rewrite Hv
  | unfold is_size; lia | cbv beta; intros Hno | intros Hg Hb Hi; unfold is_size in Hg ].
(** Blocks in terms of files, before and after. *)
Ltac on_files Ha := rewrite !device_block_valid by first [done | by rewrite (ab_base _ _ _ Ha)].

Lemma acquire_law i w : fb_ok w -> wp (device_acquire i) (fun ok w' => fb_ok w' /\
  keeps_others device_block i w w' /\ (ok = true -> device_block w' i = Some [])) w.
Proof using HFS Hstorage.
  intros Hw. lawful (fun (w : fb_world E) (ok : bool) w' => ok = true -> device_block w' i = Some []); [done |].
  eapply wp_mono; [by apply AcquireFile_spec |]. cbv beta. intros ok w' [Ha HR]. split; [done |]. by on_files Ha.
Qed.
Lemma dispose_law i w : fb_ok w -> wp (device_dispose i) (fun ok w' => fb_ok w' /\
  keeps_others device_block i w w' /\ (ok = true -> device_block w' i = None)) w.
Proof using HFS Hstorage.
  intros Hw. lawful (fun (w : fb_world E) (ok : bool) w' => ok = true -> device_block w' i = None); [done |].
  eapply wp_mono; [by apply DisposeFile_spec |]. cbv beta. intros ok w' [Ha HR]. split; [done |]. by on_files Ha.
Qed.
Lemma exists_law i w : fb_ok w -> wp (device_exists i) (fun ok w' => fb_ok w' /\
  keeps_others device_block i w w' /\ device_block w' i = device_block w i /\ (ok = true <-> device_block w i <> None)) w.
Proof using HFS Hstorage.
  intros Hw. lawful (fun (w : fb_world E) (ok : bool) w' => device_block w' i = device_block w i /\ (ok = true <-> device_block w i <> None)).
  - split; [done |]. destruct Hno as [Hno | Hno]; [| by rewrite Hno]. unfold device_block.
    rewrite decide_False by lia. by destruct (fb_Base _).
  - eapply wp_mono; [by apply ExistsFile_spec |]. cbv beta. intros ok w' [Ha HR]. split; [done |]. by on_files Ha.
Qed.
Lemma size_law i w : fb_ok w -> wp (device_size i) (fun r w' => fb_ok w' /\
  keeps_others device_block i w w' /\
  forall b, device_block w i = Some b -> device_block w' i = Some b /\ (fst r = true -> snd r = lenZ b)) w.
Proof using HFS Hstorage.
  intros Hw. lawful (fun (w : fb_world E) (r : bool * Z) w' =>
    forall b, device_block w i = Some b -> device_block w' i = Some b /\ (fst r = true -> snd r = lenZ b)); [done |].
  eapply wp_mono; [by apply SizeFile_spec |]. cbv beta. intros r w' [Ha HR]. split; [done |]. by on_files Ha.
Qed.
Lemma read_law i off n w : fb_ok w -> wp (device_read i off n) (fun r w' => fb_ok w' /\
  keeps_others device_block i w w' /\ (0 <= off -> 0 <= n -> lenZ (snd r) <= n /\
    forall b, device_block w i = Some b -> device_block w' i = Some b /\ (fst r = true -> 0 < n -> off + n <= lenZ b /\ snd r = spanZ b off n))) w.
Proof using HFS Hstorage.
  intros Hw. lawful (fun (w : fb_world E) (r : bool * bytes) w' => 0 <= off -> 0 <= n -> lenZ (snd r) <= n /\
    forall b, device_block w i = Some b -> device_block w' i = Some b /\ (fst r = true -> 0 < n -> off + n <= lenZ b /\ snd r = spanZ b off n)); [done |].
  eapply wp_mono; [apply ReadFile_spec; (done || lia) |]. cbv beta. intros r w' [Ha HR]. split; [done |]. intros _ _. by on_files Ha.
Qed.
Lemma append_law i bs w : fb_ok w -> wp (device_append i bs) (fun ok w' => fb_ok w' /\
  keeps_others device_block i w w' /\ forall b, device_block w i = Some b ->
    exists part rest, bs = part ++ rest /\ (ok = true -> rest = []) /\ device_block w' i = Some (b ++ part)) w.
Proof using HFS Hstorage.
  assert (Hrefused : forall w b, device_block w i = Some b ->
    exists part rest, bs = part ++ rest /\ (false = true -> rest = []) /\ device_block w i = Some (b ++ part)).
  { intros w0 b Eb. exists [], bs. by rewrite app_nil_r. }
  intros Hw. lawful (fun (w : fb_world E) (ok : bool) w' => forall b, device_block w i = Some b ->
    exists part rest, bs = part ++ rest /\ (ok = true -> rest = []) /\ device_block w' i = Some (b ++ part)); [by apply Hrefused |].
  eapply wp_mono; [by apply AppendFile_spec |]. cbv beta. intros ok w' [Ha HR]. split; [done |]. by on_files Ha.
Qed.
Lemma write_at_law i off bs w : fb_ok w -> wp (device_write_at i off bs) (fun ok w' => fb_ok w' /\
  keeps_others device_block i w w' /\ (0 <= off -> forall b, device_block w i = Some b -> off + lenZ bs <= lenZ b ->
    exists part rest, bs = part ++ rest /\ (ok = true -> rest = []) /\ device_block w' i = Some (spliceZ b off part))) w.
Proof using HFS Hstorage.
  intros Hw. lawful (fun (w : fb_world E) (ok : bool) w' => 0 <= off -> forall b, device_block w i = Some b -> off + lenZ bs <= lenZ b ->
    exists part rest, bs = part ++ rest /\ (ok = true -> rest = []) /\ device_block w' i = Some (spliceZ b off part)).
  { intros _ b Eb _. exists [], bs. by rewrite spliceZ_nil. }
  eapply wp_mono; [apply WriteAtFile_spec; (done || lia) |]. cbv beta. intros ok w' [Ha HR]. split; [done |]. intros H0. on_files Ha.
  intros b Eb Hl. apply HR; [done |]. pose proof (lenZ_nonneg bs). lia.
Qed.

(** A device in a state it can be in. *)
Definition file_device : Type := { w : fb_world E | fb_ok w }.
Definition keeping {A} (m : ST (fb_world E) A) (Hm : forall w, fb_ok w -> fb_ok (snd (m w))) : ST file_device A :=
  fun d => (fst (m (proj1_sig d)), exist _ (snd (m (proj1_sig d))) (Hm _ (proj2_sig d))).
Lemma block_size_keeps w : fb_ok w -> fb_ok (snd (SolidSyslogBlockDevice_GetBlockSize nameStorage w)).
Proof using. intros Hw. unfold SolidSyslogBlockDevice_GetBlockSize, through_base, fb_get, st_bind, st_get. by destruct (fb_Base (fw_Self w)). Qed.
Definition file_device_ops : BlockDevice file_device := {|
  bd_Acquire := fun i => keeping (device_acquire i) (fun w Hw => proj1 (acquire_law i w Hw));
  bd_Dispose := fun i => keeping (device_dispose i) (fun w Hw => proj1 (dispose_law i w Hw));
  bd_Exists := fun i => keeping (device_exists i) (fun w Hw => proj1 (exists_law i w Hw));
  bd_Read := fun i off n => keeping (device_read i off n) (fun w Hw => proj1 (read_law i off n w Hw));
  bd_Append := fun i bs => keeping (device_append i bs) (fun w Hw => proj1 (append_law i bs w Hw));
  bd_WriteAt := fun i off bs => keeping (device_write_at i off bs) (fun w Hw => proj1 (write_at_law i off bs w Hw));
  bd_Size := fun i => keeping (device_size i) (fun w Hw => proj1 (size_law i w Hw));
  bd_GetBlockSize := keeping (SolidSyslogBlockDevice_GetBlockSize nameStorage) block_size_keeps
|}.

#[local] Existing Instance file_device_ops.
#[local] Program Definition file_device_spec : BlockDeviceSpec file_device := {|
  block := fun d => device_block (proj1_sig d)
|}.
Next Obligation. intros i [w Hw]. exact (proj2 (acquire_law i w Hw)). Qed.
Next Obligation. intros i [w Hw]. exact (proj2 (dispose_law i w Hw)). Qed.
Next Obligation.
  intros i [w Hw]. destruct (exists_law i w Hw) as (_ & Hk & Hb & Hiff). split; [| exact Hiff].
  intros j. destruct (decide (j = i)) as [-> | Hj]; [exact Hb | exact (Hk j Hj)].
Qed.
Next Obligation.
  intros i [w Hw]. pose proof (proj2 (size_law i w Hw)) as HL. simpl in *.
  generalize (proj1 (size_law i w Hw)). revert HL. by destruct (device_size i w) as [[ok n] w'].
Qed.
Next Obligation.
  intros i off n [w Hw] Ho Hn. pose proof (proj2 (read_law i off n w Hw)) as [Hk HL]. specialize (HL Ho (Z.lt_le_incl _ _ Hn)). simpl in *.
  generalize (proj1 (read_law i off n w Hw)). revert Hk HL. destruct (device_read i off n w) as [[ok bs] w'].
  intros Hk [Hl HL] Hw'. split; [done |]. split; [done |]. intros b Eb. destruct (HL b Eb). auto.
Qed.
Next Obligation. intros i bs [w Hw]. exact (proj2 (append_law i bs w Hw)). Qed.
Next Obligation.
  intros i off bs [w Hw] Ho. destruct (proj2 (write_at_law i off bs w Hw)) as [Hk HL]. split; [exact Hk | exact (HL Ho)].
Qed.
End instance.

(** * From its start to its end *)

Section lifecycle.
Context {E : Type} `{HF : SolidSyslogFile E, HFS : !SteadyFileSpec E}.
Implicit Types (w : fb_world E).

Lemma Initialise_ok (files : E) prefix blockSize : prefix_ok prefix -> file_ok files -> opened files = None ->
  fb_ok (mkFbWorld (SolidSyslogFileBlockDevice_Initialise prefix blockSize) files).
Proof using. intros Hp He Hn. split; simpl; [done | done | | done]. intros path at_. by rewrite Hn. Qed.
(** A cleaned-up device has closed its file, keeps no block and left the files alone. *)
Definition cleaned w w' : Prop :=
  fb_ok w' /\ same_files (fw_Files w) (fw_Files w') /\ opened (fw_Files w') = None /\ (forall i, device_block w' i = None).
Lemma Cleanup_spec w : fb_ok w -> wp SolidSyslogFileBlockDevice_Cleanup (fun _ w' => cleaned w w') w.
Proof using HFS.
  intros Hw. unfold SolidSyslogFileBlockDevice_Cleanup, FileBlockDevice_CloseIfOpen, fb_get, fb_handle. wp_steps.
  destruct (oh_IsOpen (fb_Handle (fw_Self w))) eqn:Eo; wp_steps.
  - apply wp_fb_file. intros [] e Ee. wp_steps. pose proof (Close_holds (fw_Files w) (fo_files _ Hw)) as HC. rewrite Ee in HC. destruct HC as (He & Hs & Hn).
    split; [| by split_and!]. destruct Hw as [H1 H2 H3 H4]. split; try done. simpl. intros path at_. by rewrite Hn.
  - assert (Hn : opened (fw_Files w) = None).
    { destruct (opened (fw_Files w)) as [[path at_] |] eqn:Ef; [| done]. destruct (fo_opened _ Hw _ _ Ef). congruence. }
    split; [| by split_and!]. destruct Hw as [H1 H2 H3 H4]. split; try done.
Qed.
End lifecycle.

(** * The property *)

(** C38. The device that keeps each block in a file is a block device, on a steady volume
    and under a prefix of its own text.  Steady ([SteadyFileSpec]): opens, reads, writes,
    sizes and deletes may fail, but seeks and truncates of an open file may not, which is
    more than [SolidSyslogFileDefinition.h] promises; where a truncate is refused, Acquire
    answers true over a block that is not empty ([FileVolumes.acquire_ignores_the_truncate]).
    The prefix ([prefix_ok]) is clean UTF-8 that leaves room for the rest of a name; one
    in another encoding makes all blocks one file ([foreign_prefix_aliases]).  Then,
    whatever the area its names are made in held before: initialised over a closed file,
    and from then on in every state its operations reach, it keeps the
    laws of the [BlockDevice] interface with block [i] being the file named by the
    prefix, the two digits of [i] and [.log], for the hundred numbers; so all that is
    proved of stores on block devices holds on it.  Cleaned up, it has closed its file,
    keeps no block any more and changed no file. *)
Theorem FileBlockDevice_keeps_blocks (E : Type) (HF : SolidSyslogFile E) (HFS : SteadyFileSpec E)
    (nameStorage : bytes) (Hstorage : SOLIDSYSLOG_MAX_PATH_SIZE <= lenZ nameStorage) :
  (forall (files : E) prefix blockSize, prefix_ok prefix -> file_ok files -> opened files = None ->
     fb_ok (mkFbWorld (SolidSyslogFileBlockDevice_Initialise prefix blockSize) files)) /\
  (exists laws : BlockDeviceSpec (H := file_device_ops nameStorage Hstorage) file_device,
     forall (d : file_device) i, block (BlockDeviceSpec := laws) d i = device_block (proj1_sig d) i) /\
  (forall (w : fb_world E) i, fb_Base (fw_Self w) = FileBlockDeviceVtable ->
     device_block w i = if decide (0 <= i <= 99) then file (fw_Files w) (fb_PathPrefix (fw_Self w) ++ digits_of 2 i ++ str ".log") else None) /\
  (forall w : fb_world E, fb_ok w -> cleaned w (snd (SolidSyslogFileBlockDevice_Cleanup w))).
Proof.
  split; [by apply Initialise_ok |]. split; [by exists (file_device_spec nameStorage Hstorage) |].
  split; [| exact Cleanup_spec]. intros w i Hb. unfold device_block. by rewrite Hb.
Qed.

(** * A file system in memory *)

(** [mf_tear] is the number of bytes the next write gets down before it fails and the
    file closes, if it does. *)
Record mem_files := mkMemFiles { mf_files : gmap bytes bytes; mf_open : option (bytes * Z); mf_tear : option Z }.
#[export] Instance settable_mem_files : Settable mem_files := fun e => mkMemFiles (mf_files e) (mf_open e) (mf_tear e).

#[export] Instance mem_file_ops : SolidSyslogFile mem_files := {
  SolidSyslogFile_Open := fun path e =>
    (true, e <| mf_files := <[path := default [] (mf_files e !! path)]> (mf_files e) |> <| mf_open := Some (path, 0) |>);
  SolidSyslogFile_Close := fun e => (tt, e <| mf_open := None |>);
  SolidSyslogFile_IsOpen := fun e => (match mf_open e with Some _ => true | None => false end, e);
  SolidSyslogFile_Read := fun n e =>
    (match mf_open e with
     | Some (path, at_) => let b := default [] (mf_files e !! path) in
         if at_ + n <=? lenZ b then (true, spanZ b at_ n) else (false, [])
     | None => (false, [])
     end, e);
  SolidSyslogFile_Write := fun bs e =>
    match mf_open e with
    | Some (path, at_) => let b := default [] (mf_files e !! path) in
        match mf_tear e with
        | None => (true, e <| mf_files := <[path := spliceZ b at_ bs]> (mf_files e) |> <| mf_open := Some (path, at_ + lenZ bs) |>)
        | Some k => (false, e <| mf_files := <[path := spliceZ b at_ (takeZ k bs)]> (mf_files e) |> <| mf_open := None |>)
        end
    | None => (false, e)
    end;
  SolidSyslogFile_SeekTo := fun off e => (tt, match mf_open e with Some (path, _) => e <| mf_open := Some (path, off) |> | None => e end);
  SolidSyslogFile_Size := fun e =>
    (match mf_open e with
     | Some (path, _) => let n := lenZ (default [] (mf_files e !! path)) in if n <=? SIZE_MAX then (true, n) else (false, 0)
     | None => (false, 0)
     end, e);
  SolidSyslogFile_Truncate := fun e =>
    (tt, match mf_open e with Some (path, at_) => e <| mf_files := <[path := []]> (mf_files e) |> | None => e end);
  SolidSyslogFile_Exists := fun path e => (match mf_files e !! path with Some _ => true | None => false end, e);
  SolidSyslogFile_Delete := fun path e => (true, e <| mf_files := delete path (mf_files e) |>)
}.

#[export] Program Instance mem_file_spec : SteadyFileSpec mem_files := {
  file := fun e path => mf_files e !! path;
  opened := mf_open;
  file_ok := fun _ => True
}.
Next Obligation.
  intros path e _ Hn. simpl. split; [done |]. split; [intros p Hp; simpl; by rewrite lookup_insert_ne |]. split; [| by exists 0].
  rewrite lookup_insert_eq. by destruct (mf_files e !! path); [left | right].
Qed.
Next Obligation. intros e _. by split. Qed.
Next Obligation. intros e _. simpl. do 3 (split; [done |]). by destruct (mf_open e). Qed.
Next Obligation.
  intros n path at_ e _ Ho Ha Hn. simpl. rewrite Ho. simpl.
  destruct (Z.leb_spec (at_ + n) (lenZ (default [] (mf_files e !! path)))); do 2 (split; [done |]); (split; [right; by exists at_ |]).
  - split; [rewrite lenZ_spanZ; lia |]. intros b Eb. rewrite Eb in *. done.
  - done.
Qed.
Next Obligation.
  intros bs path at_ e _ Ho. simpl. rewrite Ho. destruct (mf_tear e) as [k |]; simpl; (split; [done |]).
  - split; [intros p Hp; simpl; by rewrite lookup_insert_ne |]. split; [by left |]. intros b Eb _.
    exists (takeZ k bs), (dropZ k bs). rewrite takeZ_dropZ, lookup_insert_eq, Eb. done.
  - split; [intros p Hp; simpl; by rewrite lookup_insert_ne |]. split; [right; by eexists |]. intros b Eb _.
    exists bs, []. rewrite app_nil_r, lookup_insert_eq, Eb. done.
Qed.
Next Obligation. intros off path at_ e _ Ho _. simpl. by rewrite Ho. Qed.
Next Obligation.
  intros path at_ e _ Ho. simpl. rewrite Ho. pose proof (lenZ_nonneg (default [] (mf_files e !! path))). cbv zeta.
  destruct (Z.leb_spec (lenZ (default [] (mf_files e !! path))) SIZE_MAX); (split; [done |]); (split; [done |]); (split; [right; by exists at_ |]); [| done]. intros _. split; [done |]. split; [lia |].
  intros b Eb. by rewrite Eb.
Qed.
Next Obligation.
  intros path at_ e _ Ho. simpl. rewrite Ho. simpl. split; [done |]. split; [intros p Hp; simpl; by rewrite lookup_insert_ne |].
  split; [by rewrite lookup_insert_eq | right; by exists at_].
Qed.
Next Obligation. intros path e _. simpl. do 3 (split; [done |]). by destruct (mf_files e !! path). Qed.
Next Obligation.
  intros path e _ _. simpl. split; [done |]. split; [intros p Hp; simpl; by rewrite lookup_delete_ne |]. split; [done |]. by rewrite lookup_delete_eq.
Qed.

(** ** A store on it *)

Definition name_area : bytes := repeat 0xAA 128.
Lemma name_area_fits : SOLIDSYSLOG_MAX_PATH_SIZE <= lenZ name_area.
Proof. vm_compute. discriminate. Qed.
Definition on_files (e : mem_files) : fb_world mem_files := mkFbWorld (SolidSyslogFileBlockDevice_Initialise (str "/log/sys") 600) e.
Lemma example_prefix : prefix_ok (str "/log/sys").
Proof.
  split; [| vm_compute; discriminate]. apply clean_ascii. vm_compute. repeat (apply Forall_cons_2; [split; reflexivity |]). apply Forall_nil_2.
Qed.
Definition device_on (e : mem_files) (Hn : opened e = None) : file_device := exist _ (on_files e) (Initialise_ok e _ 600 example_prefix I Hn).
Definition no_files : mem_files := mkMemFiles ∅ None None.

Lemma FileBlockDevice_keeps_blocks_witness :
  fb_ok (on_files no_files) /\
  device_block (on_files (mkMemFiles {[ str "/log/sys07.log" := str "seven" ]} None None)) 7 = Some (str "seven").
Proof.
  pose proof (FileBlockDevice_keeps_blocks mem_files _ _ name_area name_area_fits) as (HI & _ & HB & _).
  split; [apply (HI no_files (str "/log/sys") 600 example_prefix); [exact I | reflexivity] |].
  rewrite (HB (on_files (mkMemFiles {[ str "/log/sys07.log" := str "seven" ]} None None)) 7 eq_refl). vm_compute. reflexivity.
Defined.

#[local] Instance example_ops : BlockDevice file_device := file_device_ops name_area name_area_fits.
Definition write_text (text : string) (w : bs_world file_device SolidSyslogCrc16Policy Z) : bs_world file_device SolidSyslogCrc16Policy Z :=
  snd (BlockStore_Write (str text) (lenZ (str text)) w).
Definition store_on (d : file_device) : bs_world file_device SolidSyslogCrc16Policy Z :=
  snd (SolidSyslogBlockStore_Initialise (starting slot slot_records (example_sizes 2 None) d Crc16Policy 0 [])).
(** What the store leaves in the files. *)
Example store_writes_a_file :
  let w := write_text "hi" (write_text "yo" (store_on (device_on no_files eq_refl))) in
  mf_files (fw_Files (proj1_sig (bw_Dev w))) !! str "/log/sys00.log" =
  Some ([0xA5; 0x5A; 2; 0; 0x79; 0x6F; 0x3D; 0x45; 0xFF] ++ one_record).
Proof. vm_compute. reflexivity. Qed.

(** ** Prefixes the names do not have room for *)

(** A prefix in another encoding than UTF-8 grows by the replacement characters, and
    leaves the digits no room: every block has the same file. *)
Example foreign_prefix_aliases :
  let self := SolidSyslogFileBlockDevice_Initialise (repeat 0xE9 43) 600 in
  FileBlockDevice_FormatBlockFilename self name_area 0 = FileBlockDevice_FormatBlockFilename self name_area 1.
Proof. vm_compute. reflexivity. Qed.
