(* ===== verification/FileContract.v ===== *)
(** The contract of a file, as [SolidSyslogFileDefinition.h] gives it to the porter:
    what each operation may answer, report and leave behind, failures included.  A file
    object is seen as the files of its volume and the place it is open at.  Where the
    volume refuses no seek and no truncate, a file that keeps the contract keeps the
    laws [FileBlockDevice.v] puts blocks on ([contract_gives_spec]). *)
From stdpp Require Import gmap.
From S2P Require Import Prelude Errors PendingEvents FileBlockDevice.

#[local] Open Scope Z_scope.

(** * States and steps *)

Abbreviation volume := (gmap bytes bytes).
(** [fs_At] is the path of the open file and its position. *)
Record file_state := mkFileState { fs_Files : volume; fs_At : option (bytes * Z) }.
(** An open file is on the volume, and its position is one. *)
Definition sound (s : file_state) : Prop :=
  forall path at_, fs_At s = Some (path, at_) -> 0 <= at_ /\ is_Some (fs_Files s !! path).

Section steps.
Context (source : SolidSyslogErrorSource).

(** The one report of a failed call, with the native code when the call left one. *)
Definition file_fault (code native : Z) : SolidSyslogErrorEvent :=
  mkErrorEvent SOLIDSYSLOG_FILE_IO_FAILED_SEVERITY SOLIDSYSLOG_CAT_FILE_IO_FAILED (negb (native =? 0)) (Some source) code native.

(** Opening creates what is absent and truncates nothing; a failure, the one of a close
    still owed included, leaves the file closed. *)
Inductive file_opens (path : bytes) (s : file_state) : bool -> list SolidSyslogErrorEvent -> file_state -> Prop :=
| opens_made :
    file_opens path s true [] (mkFileState (<[path := default [] (fs_Files s !! path)]> (fs_Files s)) (Some (path, 0)))
| opens_failed code native files :
    code = SOLIDSYSLOG_FILE_ERROR_OPEN_FAILED \/ code = SOLIDSYSLOG_FILE_ERROR_CLOSE_FAILED ->
    files = fs_Files s \/ fs_Files s !! path = None /\ files = <[path := []]> (fs_Files s) ->
    file_opens path s false [file_fault code native] (mkFileState files None).

(** Closed whatever the close answers; only one that fails may cost the file content
    not yet flushed. *)
Inductive file_closes (s : file_state) : list SolidSyslogErrorEvent -> file_state -> Prop :=
| closes_nothing : fs_At s = None -> file_closes s [] s
| closes_done path at_ : fs_At s = Some (path, at_) -> file_closes s [] (mkFileState (fs_Files s) None)
| closes_failed path at_ native files :
    fs_At s = Some (path, at_) -> (forall p, p <> path -> files !! p = fs_Files s !! p) ->
    file_closes s [file_fault SOLIDSYSLOG_FILE_ERROR_CLOSE_FAILED native] (mkFileState files None).

(** The rest are steps of the file open on [path] at [at_]. *)
Context (path : bytes) (at_ : Z) (s : file_state).
Definition still_at (files : volume) (now : Z) : file_state := mkFileState files (Some (path, now)).

(** All [n] bytes from the position, or false; coming to the end is no fault. *)
Inductive file_reads (n : Z) : bool -> bytes -> list SolidSyslogErrorEvent -> file_state -> Prop :=
| reads_whole b now :
    fs_Files s !! path = Some b -> 0 < n -> at_ + n <= lenZ b -> 0 <= now ->
    file_reads n true (spanZ b at_ n) [] (still_at (fs_Files s) now)
| reads_nothing now : n = 0 -> 0 <= now -> file_reads n true [] [] (still_at (fs_Files s) now)
| reads_short bs now : lenZ bs <= n -> 0 <= now -> file_reads n false bs [] (still_at (fs_Files s) now)
| reads_failed bs native now : lenZ bs <= n -> 0 <= now ->
    file_reads n false bs [file_fault SOLIDSYSLOG_FILE_ERROR_READ_FAILED native] (still_at (fs_Files s) now).

(** The content with [part] at the position, which is not past the end. *)
Definition overwritten (part : bytes) (after : bytes) : Prop :=
  forall b, fs_Files s !! path = Some b -> at_ <= lenZ b -> after = spliceZ b at_ part.
Definition write_fault (code : Z) : Prop :=
  code = SOLIDSYSLOG_FILE_ERROR_WRITE_FAILED \/ code = SOLIDSYSLOG_FILE_ERROR_SYNC_FAILED \/ code = SOLIDSYSLOG_FILE_ERROR_COMMIT_FAILED.
Inductive file_writes (data : bytes) : bool -> list SolidSyslogErrorEvent -> file_state -> Prop :=
| writes_whole after now :
    overwritten data after -> 0 <= now -> file_writes data true [] (still_at (<[path := after]> (fs_Files s)) now)
| writes_part code native part rest after now :
    write_fault code -> data = part ++ rest -> overwritten part after -> 0 <= now ->
    file_writes data false [file_fault code native] (still_at (<[path := after]> (fs_Files s)) now).

(** A seek that fails leaves the position anywhere; one past the end may grow the
    file, as FatFs does. *)
Inductive file_seeks (off : Z) : list SolidSyslogErrorEvent -> file_state -> Prop :=
| seeks_there : file_seeks off [] (still_at (fs_Files s) off)
| seeks_failed native now : 0 <= now ->
    file_seeks off [file_fault SOLIDSYSLOG_FILE_ERROR_SEEK_FAILED native] (still_at (fs_Files s) now)
| seeks_past b after now : fs_Files s !! path = Some b -> lenZ b < off -> takeZ (lenZ b) after = b -> 0 <= now ->
    file_seeks off [] (still_at (<[path := after]> (fs_Files s)) now).

Inductive file_sizes : bool -> Z -> list SolidSyslogErrorEvent -> file_state -> Prop :=
| sizes_known b now : fs_Files s !! path = Some b -> 0 <= now ->
    file_sizes true (u32 (lenZ b)) [] (still_at (fs_Files s) now)
| sizes_unknown native now : 0 <= now ->
    file_sizes false 0 [file_fault SOLIDSYSLOG_FILE_ERROR_SIZE_FAILED native] (still_at (fs_Files s) now).

(** A truncate answers nothing: only the report tells of a failure. *)
Inductive file_truncates : list SolidSyslogErrorEvent -> file_state -> Prop :=
| truncates_done now : 0 <= now -> file_truncates [] (still_at (<[path := []]> (fs_Files s)) now)
| truncates_failed native files now : 0 <= now ->
    files = fs_Files s \/ files = <[path := []]> (fs_Files s) ->
    file_truncates [file_fault SOLIDSYSLOG_FILE_ERROR_TRUNCATE_FAILED native] (still_at files now).
End steps.

(** Every step leaves a sound state sound. *)
Lemma still_at_sound path now files : 0 <= now -> is_Some (files !! path) -> sound (still_at path files now).
Proof. intros Hn Hf p a [= <- <-]. done. Qed.
Lemma still_at_insert path now b files : 0 <= now -> sound (still_at path (<[path := b]> files) now).
Proof. intros Hn. apply still_at_sound; [done |]. rewrite lookup_insert_eq. by eexists. Qed.
Lemma closed_sound files : sound (mkFileState files None).
Proof. done. Qed.
#[export] Hint Resolve still_at_insert closed_sound : core.

(** * The contract *)

Section contract.
Context {W : Type} (source : SolidSyslogErrorSource) (file : SolidSyslogFile W).
(** Where the file object is in order; how a world shows it, and what it reported. *)
Context (ok : W -> Prop) (state : W -> file_state) (reports : W -> list SolidSyslogErrorEvent).
(** What a power cut would leave; [flushes] says that a write commits to it. *)
Context (flushes : bool) (media : W -> volume).
#[local] Existing Instance file.

Definition stays (w w' : W) : Prop := ok w' /\ state w' = state w /\ reports w' = reports w.
Definition steps (step : list SolidSyslogErrorEvent -> file_state -> Prop) (w w' : W) : Prop :=
  ok w' /\ exists rs, step rs (state w') /\ reports w' = reports w ++ rs.

Record file_contract : Prop := {
  contract_sound : forall w, ok w -> sound (state w);
  contract_Open : forall path w, ok w -> fs_At (state w) = None ->
    wp (SolidSyslogFile_Open path) (fun b w' => steps (file_opens source path (state w) b) w w') w;
  contract_Close : forall w, ok w ->
    wp SolidSyslogFile_Close (fun _ w' => steps (file_closes source (state w)) w w') w;
  contract_IsOpen : forall w, ok w ->
    wp SolidSyslogFile_IsOpen (fun b w' => stays w w' /\ b = bool_decide (is_Some (fs_At (state w)))) w;
  contract_Read : forall n path at_ w, ok w -> fs_At (state w) = Some (path, at_) -> 0 <= n ->
    wp (SolidSyslogFile_Read n) (fun r w' => steps (file_reads source path at_ (state w) n (fst r) (snd r)) w w') w;
  contract_Write : forall data path at_ w, ok w -> fs_At (state w) = Some (path, at_) ->
    wp (SolidSyslogFile_Write data) (fun b w' => steps (file_writes source path at_ (state w) data b) w w' /\
      (flushes = true -> b = true -> media w' !! path = fs_Files (state w') !! path)) w;
  contract_SeekTo : forall off path at_ w, ok w -> fs_At (state w) = Some (path, at_) -> 0 <= off <= SIZE_MAX ->
    wp (SolidSyslogFile_SeekTo off) (fun _ w' => steps (file_seeks source path (state w) off) w w') w;
  contract_Size : forall path at_ w, ok w -> fs_At (state w) = Some (path, at_) ->
    wp SolidSyslogFile_Size (fun r w' => steps (file_sizes source path (state w) (fst r) (snd r)) w w') w;
  contract_Truncate : forall path at_ w, ok w -> fs_At (state w) = Some (path, at_) ->
    wp SolidSyslogFile_Truncate (fun _ w' => steps (file_truncates source path (state w)) w w') w;
  contract_Exists : forall path w, ok w ->
    wp (SolidSyslogFile_Exists path) (fun b w' => stays w w' /\ (b = true -> is_Some (fs_Files (state w) !! path))) w;
  contract_Delete : forall path w, ok w -> (forall at_, fs_At (state w) <> Some (path, at_)) ->
    wp (SolidSyslogFile_Delete path) (fun b w' => ok w' /\ reports w' = reports w /\ fs_At (state w') = fs_At (state w) /\
      fs_Files (state w') = if b : bool then delete path (fs_Files (state w)) else fs_Files (state w)) w
}.

(** A volume that refuses no seek and no truncate of an open file, loses nothing at a
    close, knows what is there and sizes no file that is larger than [size_t]. *)
Record steady : Prop := {
  steady_Close : forall w, ok w -> wp SolidSyslogFile_Close (fun _ w' => fs_Files (state w') = fs_Files (state w)) w;
  steady_SeekTo : forall off path at_ w, ok w -> fs_At (state w) = Some (path, at_) -> 0 <= off <= SIZE_MAX ->
    wp (SolidSyslogFile_SeekTo off) (fun _ w' => state w' = still_at path (fs_Files (state w)) off) w;
  steady_Truncate : forall path at_ w, ok w -> fs_At (state w) = Some (path, at_) ->
    wp SolidSyslogFile_Truncate (fun _ w' => fs_Files (state w') = <[path := []]> (fs_Files (state w))) w;
  steady_Exists : forall path w, ok w -> wp (SolidSyslogFile_Exists path) (fun b _ => b = false -> fs_Files (state w) !! path = None) w;
  steady_Size : forall path at_ w, ok w -> fs_At (state w) = Some (path, at_) ->
    wp SolidSyslogFile_Size (fun r _ => fst r = true -> forall b, fs_Files (state w) !! path = Some b -> lenZ b <= SIZE_MAX) w
}.

(** ** What the file block device needs of a file *)

Section spec.
Context (Hc : file_contract) (Hs : steady).
Implicit Types (w : W).

(** A law of an operation, from what the contract and the steadiness say of it. *)
Lemma wp_pair {A} (m : ST W A) (P Q : A -> W -> Prop) w : wp m P w -> wp m Q w -> let '(a, w') := m w in P a w' /\ Q a w'.
Proof using. unfold wp. by destruct (m w). Qed.
Lemma wp_law {A} (m : ST W A) (P : A -> W -> Prop) w : wp m P w -> let '(a, w') := m w in P a w'.
Proof using. unfold wp. by destruct (m w). Qed.

#[local] Program Definition contract_spec : SteadyFileSpec W := {|
  FileBlockDevice.file := fun w path => fs_Files (state w) !! path;
  opened := fun w => fs_At (state w);
  file_ok := ok
|}.
Next Obligation.
  intros path w Hw Hn. simpl. pose proof (wp_law _ _ _ (contract_Open Hc path w Hw Hn)) as HO.
  destruct (SolidSyslogFile_Open path w) as [b w']. destruct HO as (Hw' & rs & HO & _). split; [done |].
  assert (Hi : forall p x, p <> path -> <[path := x]> (fs_Files (state w)) !! p = fs_Files (state w) !! p).
  { intros p x Hp. by rewrite lookup_insert_ne. }
  inversion HO as [Eb Er Es | code native files Hcode Hfiles Eb Er Es]; subst; cbn [fs_Files fs_At].
  - split; [intros p Hp; by apply Hi |]. rewrite lookup_insert_eq.
    split; [| by exists 0]. by destruct (fs_Files (state w) !! path); [left | right].
  - split; [intros p Hp; destruct Hfiles as [-> | [_ ->]]; [done | by apply Hi] |].
    split; [| done]. destruct Hfiles as [-> | [Ha ->]]; [by left | right]. by rewrite lookup_insert_eq.
Qed.
Next Obligation.
  intros w Hw. simpl. pose proof (wp_pair _ _ _ _ (contract_Close Hc w Hw) (steady_Close Hs w Hw)) as HC.
  destruct (SolidSyslogFile_Close w) as [[] w']. destruct HC as ((Hw' & rs & HC & _) & Hf). split; [done |].
  split; [intros p; by rewrite Hf |]. by inversion HC.
Qed.
Next Obligation.
  intros w Hw. simpl. pose proof (wp_law _ _ _ (contract_IsOpen Hc w Hw)) as HI. destruct (SolidSyslogFile_IsOpen w) as [b w'].
  destruct HI as ((Hw' & Hstate & _) & ->). split; [done |]. split; [intros p; by rewrite Hstate |]. split; [by rewrite Hstate |].
  rewrite bool_decide_eq_true. destruct (fs_At (state w)); split; try done; by intros [].
Qed.

(** What a step leaves of the rest of the volume. *)
Ltac other_paths := let p := fresh "p" in let Hp := fresh "Hp" in intros p Hp; cbn [still_at fs_Files]; by rewrite ?lookup_insert_ne.
Ltac still_open := right; by eexists.
Ltac law_of Hlaw := let HL := fresh "HL" in pose proof (wp_law _ _ _ Hlaw) as HL; revert HL.

Next Obligation.
  intros n path at_ w Hw Ho Hat Hn. simpl. law_of (contract_Read Hc n path at_ w Hw Ho Hn).
  destruct (SolidSyslogFile_Read n w) as [[b bs] w']. cbn [fst snd]. intros (Hw' & rs & HR & _). split; [done |].
  inversion HR as [b0 now Eb Hpos Hend H0 E1 E2 E3 Es | now Ez H0 E1 E2 E3 Es | bs0 now Hl H0 E1 E2 E3 Es | bs0 native now Hl H0 E1 E2 E3 Es];
    subst; cbn [still_at fs_Files fs_At]; (split; [done |]); (split; [still_open |]).
  - split; [rewrite lenZ_spanZ; lia |]. intros b1 Eb1 _ _. rewrite Eb in Eb1. by injection Eb1 as <-.
  - split; [done |]. intros b1 _ _ Hpos. lia.
  - done.
  - done.
Qed.
Next Obligation.
  intros bs path at_ w Hw Ho. simpl. law_of (contract_Write Hc bs path at_ w Hw Ho). destruct (SolidSyslogFile_Write bs w) as [b w'].
  intros ((Hw' & rs & HR & _) & _). split; [done |].
  inversion HR as [after now Hover H0 E1 E2 Es | code native part rest after now Hcode Edata Hover H0 E1 E2 Es]; subst; cbn [still_at fs_Files fs_At];
    (split; [other_paths |]); (split; [still_open |]); intros b Eb [_ Hat]; cbn [still_at fs_Files]; rewrite lookup_insert_eq, (Hover b Eb Hat).
  - exists bs, []. by rewrite app_nil_r.
  - by exists part, rest.
Qed.
Next Obligation.
  intros off path at_ w Hw Ho Hoff. simpl. pose proof (wp_pair _ _ _ _ (contract_SeekTo Hc off path at_ w Hw Ho Hoff) (steady_SeekTo Hs off path at_ w Hw Ho Hoff)) as HK.
  destruct (SolidSyslogFile_SeekTo off w) as [[] w']. destruct HK as [(Hw' & _) ->]. split; [done |]. split; [intros p |]; done.
Qed.
Next Obligation.
  intros path at_ w Hw Ho. simpl. pose proof (wp_pair _ _ _ _ (contract_Size Hc path at_ w Hw Ho) (steady_Size Hs path at_ w Hw Ho)) as HL. revert HL.
  destruct (SolidSyslogFile_Size w) as [[b n] w']. cbn [fst snd]. intros [(Hw' & rs & HR & _) Hsmall]. split; [done |].
  inversion HR as [b0 now Eb H0 E1 E2 E3 Es | native now H0 E1 E2 E3 Es]; subst; cbn [still_at fs_Files fs_At]; (split; [done |]); (split; [still_open |]); [| done].
  intros _. split; [done |]. pose proof (Hsmall eq_refl b0 Eb). pose proof (lenZ_nonneg b0).
  rewrite u32_small by (unfold SIZE_MAX in *; lia). split; [lia |]. intros b1 Eb1. rewrite Eb in Eb1. by injection Eb1 as <-.
Qed.
Next Obligation.
  intros path at_ w Hw Ho. simpl. pose proof (wp_pair _ _ _ _ (contract_Truncate Hc path at_ w Hw Ho) (steady_Truncate Hs path at_ w Hw Ho)) as HT.
  destruct (SolidSyslogFile_Truncate w) as [[] w']. destruct HT as ((Hw' & rs & HT & _) & Hf). split; [done |]. rewrite Hf.
  split; [intros p Hp; by rewrite lookup_insert_ne |]. split; [by rewrite lookup_insert_eq |].
  inversion HT as [now H0 E1 Es | native files now H0 Hfiles E1 Es]; still_open.
Qed.
Next Obligation.
  intros path w Hw. simpl. pose proof (wp_pair _ _ _ _ (contract_Exists Hc path w Hw) (steady_Exists Hs path w Hw)) as HE.
  destruct (SolidSyslogFile_Exists path w) as [b w']. destruct HE as (((Hw' & Hstate & _) & Hyes) & Hno). split; [done |].
  split; [intros p; by rewrite Hstate |]. split; [by rewrite Hstate |]. destruct b; split; intros Hb; try done.
  - intros En. by rewrite En in Hyes; destruct (Hyes eq_refl).
  - by destruct Hb; apply Hno.
Qed.
Next Obligation.
  intros path w Hw Hno. simpl. law_of (contract_Delete Hc path w Hw Hno). destruct (SolidSyslogFile_Delete path w) as [b w'].
  intros (Hw' & _ & Hat & Hf). split; [done |]. rewrite Hf. split; [| split; [done |]].
  - intros p Hp. destruct b; [by rewrite lookup_delete_ne | done].
  - intros ->. by rewrite lookup_delete_eq.
Qed.
End spec.
End contract.

(** * What a call tells *)

(** The calls of a file.  What a caller learns of one is the answer, and the fault it
    reported, if it did, as its code and the native code behind it. *)
Inductive file_call :=
  | FileOpen (path : bytes) | FileClose | FileRead (n : Z) | FileWrite (data : bytes) | FileSeekTo (off : Z)
  | FileSize | FileTruncate | FileExists (path : bytes) | FileDelete (path : bytes).
Abbreviation file_answer := (bool * option (Z * Z))%type.
(** When a call may be made. *)
Definition may_make (s : file_state) (call : file_call) : Prop :=
  match call with
  | FileOpen _ => fs_At s = None
  | FileClose | FileExists _ | FileDelete _ => True
  | FileRead n => is_Some (fs_At s) /\ 0 <= n
  | FileSeekTo off => is_Some (fs_At s) /\ 0 <= off <= SIZE_MAX
  | FileWrite _ | FileSize | FileTruncate => is_Some (fs_At s)
  end.

Section telling.
Context {W : Type} (source : SolidSyslogErrorSource).
(** A call that answers nothing is taken to answer true. *)
Definition file_perform (file : SolidSyslogFile W) (call : file_call) : ST W bool :=
  match call with
  | FileOpen path => SolidSyslogFile_Open path
  | FileClose => SolidSyslogFile_Close ;;; st_ret true
  | FileRead n => let! r := SolidSyslogFile_Read n in st_ret (fst r)
  | FileWrite data => SolidSyslogFile_Write data
  | FileSeekTo off => SolidSyslogFile_SeekTo off ;;; st_ret true
  | FileSize => let! r := SolidSyslogFile_Size in st_ret (fst r)
  | FileTruncate => SolidSyslogFile_Truncate ;;; st_ret true
  | FileExists path => SolidSyslogFile_Exists path
  | FileDelete path => SolidSyslogFile_Delete path
  end.
Definition fault_reports (fault : option (Z * Z)) : list SolidSyslogErrorEvent :=
  match fault with Some (code, native) => [file_fault source code native] | None => [] end.
(** [said call w] is what the library below answers to what [call] asks of it, in the
    world [w]: the file answers that and reports that, no less and no more. *)
Definition tells_what (file : SolidSyslogFile W) (ok : W -> Prop) (state : W -> file_state) (reports : W -> list SolidSyslogErrorEvent)
    (said : file_call -> W -> file_answer) : Prop :=
  forall call w, ok w -> may_make (state w) call ->
    wp (file_perform file call) (fun b w' => b = fst (said call w) /\ reports w' = reports w ++ fault_reports (snd (said call w))) w.
(** The whole contract: what is done, and what is told of it. *)
Definition keeps_contract (file : SolidSyslogFile W) (ok : W -> Prop) (state : W -> file_state) (reports : W -> list SolidSyslogErrorEvent)
    (flushes : bool) (media : W -> volume) (said : file_call -> W -> file_answer) : Prop :=
  file_contract source file ok state reports flushes media /\ tells_what file ok state reports said.
End telling.

(** What is said of a call whose failure has the code [code]. *)
Definition failing (code : Z) (native : option Z) : file_answer :=
  match native with Some native => (false, Some (code, native)) | None => (true, None) end.
Definition silent (answer : file_answer) : file_answer := (true, snd answer).

(** * Over a file library *)

(** What the library under a file does to the file it is open at, by what it answered:
    the documented results of a read, a write, a seek, ... of any of the libraries. *)
Definition now_at (path : bytes) (files : volume) (s' : file_state) : Prop := exists now, 0 <= now /\ s' = still_at path files now.
Lemma lenZ_0 {A} (l : list A) : lenZ l = 0 -> l = [].
Proof. destruct l as [| x l]; [done |]. pose proof (lenZ_nonneg l). rewrite lenZ_cons. lia. Qed.
(** [(int32_t)] of a [size_t]. *)
Definition s32 (size : Z) : Z := if size <=? 2 ^ 31 - 1 then size else size - 2 ^ 32.
Section library.
Context (path : bytes) (at_ : Z) (s : file_state).
Definition lib_opens (ok : bool) (s' : file_state) : Prop :=
  if ok then s' = mkFileState (<[path := default [] (fs_Files s !! path)]> (fs_Files s)) (Some (path, 0))
  else exists files, (files = fs_Files s \/ fs_Files s !! path = None /\ files = <[path := []]> (fs_Files s)) /\ s' = mkFileState files None.
(** [got] is what was read, when the call did not fail. *)
Definition lib_reads (n : Z) (got : option bytes) (s' : file_state) : Prop :=
  now_at path (fs_Files s) s' /\
  forall bs, got = Some bs -> lenZ bs <= n /\
    (0 < lenZ bs -> forall b, fs_Files s !! path = Some b -> at_ + lenZ bs <= lenZ b /\ bs = spanZ b at_ (lenZ bs)).
(** [took] is how much was written, when the call did not fail. *)
Definition lib_writes (data : bytes) (took : option Z) (s' : file_state) : Prop :=
  exists part rest after, data = part ++ rest /\ overwritten path at_ s part after /\
    now_at path (<[path := after]> (fs_Files s)) s' /\ forall k, took = Some k -> lenZ part = k.
(** FatFs alone grows the file to reach the position. *)
Definition lib_seeks (grows : bool) (off : Z) (moved : bool) (s' : file_state) : Prop :=
  if moved then
    s' = still_at path (fs_Files s) off \/
    grows = true /\ exists b after, fs_Files s !! path = Some b /\ lenZ b < off /\ takeZ (lenZ b) after = b /\ now_at path (<[path := after]> (fs_Files s)) s'
  else now_at path (fs_Files s) s'.
Definition lib_sizes (size : option Z) (s' : file_state) : Prop :=
  now_at path (fs_Files s) s' /\ forall n, size = Some n -> exists b, fs_Files s !! path = Some b /\ n = lenZ b.
Definition lib_cuts (done : bool) (s' : file_state) : Prop :=
  now_at path (if done then <[path := []]> (fs_Files s) else fs_Files s) s'.
(** Cut at the position. *)
Definition lib_trims (done : bool) (s' : file_state) : Prop :=
  if done then exists b, fs_Files s !! path = Some b /\ now_at path (<[path := takeZ at_ b]> (fs_Files s)) s' else now_at path (fs_Files s) s'.
(** A failed close may lose what was not yet flushed. *)
Definition lib_closes (ok : bool) (files : volume) : Prop :=
  if ok then files = fs_Files s else forall p, p <> path -> files !! p = fs_Files s !! p.
Definition lib_removes (ok : bool) (files : volume) : Prop :=
  files = if ok then delete path (fs_Files s) else fs_Files s.

Context (source : SolidSyslogErrorSource).
Lemma opens_of ok code native s' : code = SOLIDSYSLOG_FILE_ERROR_OPEN_FAILED \/ code = SOLIDSYSLOG_FILE_ERROR_CLOSE_FAILED ->
  lib_opens ok s' -> file_opens source path s ok (if ok then [] else [file_fault source code native]) s'.
Proof using. intros Hc. destruct ok; simpl; [intros -> | intros (files & Hf & ->)]; by constructor. Qed.
Lemma reads_of n got whole bs s' :
  0 <= n -> lib_reads n got s' -> lenZ bs <= n ->
  (forall g, got = Some g -> whole = (lenZ g =? n) /\ bs = g) -> (got = None -> whole = false) ->
  is_Some (fs_Files s !! path) -> forall native reported, (reported = true -> got = None) ->
  file_reads source path at_ s n whole bs (if reported : bool then [file_fault source SOLIDSYSLOG_FILE_ERROR_READ_FAILED native] else []) s'.
Proof using.
  intros Hn [(now & Hnow & ->) Hgot] Hl Hsome Hnone [b Eb] native reported Hrep. destruct got as [g |].
  - destruct (Hsome g eq_refl) as [-> ->]. destruct reported; [by specialize (Hrep eq_refl) |].
    destruct (Z.eqb_spec (lenZ g) n) as [<- | Hne]; [| by apply reads_short].
    destruct (Z.eq_dec (lenZ g) 0) as [E0 | Hpos].
    + apply lenZ_0 in E0 as ->. rewrite lenZ_nil. by apply reads_nothing.
    + pose proof (lenZ_nonneg g). destruct (Hgot g eq_refl) as [_ Hspan]. destruct (Hspan ltac:(lia) b Eb) as [Hend Eg].
      assert (HR : file_reads source path at_ s (lenZ g) true (spanZ b at_ (lenZ g)) [] (still_at path (fs_Files s) now)).
      { by apply (reads_whole _ _ _ _ _ b); [done | lia | ..]. }
      by rewrite <- Eg in HR.
  - rewrite Hnone by done. destruct reported; [by apply reads_failed | by apply reads_short].
Qed.
Lemma writes_of data took s' :
  lib_writes data took s' -> took = Some (lenZ data) -> file_writes source path at_ s data true [] s'.
Proof using.
  intros (part & rest & after & -> & Hover & (now & Hnow & ->) & Htook) ->. specialize (Htook _ eq_refl).
  rewrite lenZ_app in Htook. assert (rest = []) as -> by (apply lenZ_0; lia). rewrite app_nil_r. by apply writes_whole.
Qed.
Lemma writes_part_of data took code native s' :
  write_fault code -> lib_writes data took s' -> file_writes source path at_ s data false [file_fault source code native] s'.
Proof using. intros Hc (part & rest & after & -> & Hover & (now & Hnow & ->) & _). by eapply writes_part. Qed.
Lemma seeks_of grows off moved native s' :
  lib_seeks grows off moved s' ->
  file_seeks source path s off (if moved then [] else [file_fault source SOLIDSYSLOG_FILE_ERROR_SEEK_FAILED native]) s'.
Proof using.
  destruct moved; simpl; [intros [-> | (_ & b & after & Eb & Hl & Ht & (now & Hnow & ->))] | intros (now & Hnow & ->)].
  - apply seeks_there.
  - by eapply seeks_past.
  - by apply seeks_failed.
Qed.
Lemma sizes_of size native s' : lib_sizes size s' ->
  match size with
  | Some n => file_sizes source path s true (u32 n) [] s'
  | None => file_sizes source path s false 0 [file_fault source SOLIDSYSLOG_FILE_ERROR_SIZE_FAILED native] s'
  end.
Proof using.
  intros [(now & Hnow & ->) Hsize]. destruct size as [n |]; [| by apply sizes_unknown].
  destruct (Hsize n eq_refl) as (b & Eb & ->). by apply sizes_known.
Qed.
Lemma truncates_of done native s' : lib_cuts done s' ->
  file_truncates source path s (if done then [] else [file_fault source SOLIDSYSLOG_FILE_ERROR_TRUNCATE_FAILED native]) s'.
Proof using.
  intros (now & Hnow & ->). destruct done; [by apply truncates_done |]. apply truncates_failed; [done | by left].
Qed.
Lemma closes_of ok native files : fs_At s = Some (path, at_) -> lib_closes ok files ->
  file_closes source s (if ok then [] else [file_fault source SOLIDSYSLOG_FILE_ERROR_CLOSE_FAILED native]) (mkFileState files None).
Proof using. intros Hs. destruct ok; simpl; [intros -> | intros Ho]; by econstructor. Qed.
End library.
