(* ===== verification/FdFiles.v ===== *)
(** Files over descriptor calls on three platforms
    ([src/Platform/{Posix,Windows,VxWorks64}/Source/SolidSyslog*File.c]).  What the three
    do alike is written once, over an [fd_dialect]; the calls are the class [FdFiles],
    with their documented results in [FdFilesSpec].  Each platform's file keeps the
    contract of [FileContract.v], and on a volume that refuses no seek and no truncate
    the file block device's laws hold over it. *)
From stdpp Require Import gmap.
From S2P Require Import Prelude Errors PendingEvents FileBlockDevice FileContract.

#[local] Open Scope Z_scope.

(** * A file object in its surroundings *)

(** A file's vtable is its own or, once cleaned up, the null file's. *)
Inductive file_vtable := OwnFileVtable | NullFileVtable.
(** The struct: its base and what the adapter keeps besides. *)
Record file_object (S : Type) := mkFileObject { fo_Base : file_vtable; fo_Own : S }.
Arguments mkFileObject {S}.
Arguments fo_Base {S}.
Arguments fo_Own {S}.
#[export] Instance settable_file_object S : Settable (file_object S) := fun f => mkFileObject (fo_Base f) (fo_Own f).

(** Around it the library it calls, the place errors are raised to, and the errors it
    has raised. *)
Record file_world (S E T : Type) := mkFileWorld {
  fl_Self : file_object S; fl_Env : E; fl_Tap : T; fl_Reports : list SolidSyslogErrorEvent
}.
Arguments mkFileWorld {S E T}.
Arguments fl_Self {S E T}.
Arguments fl_Env {S E T}.
Arguments fl_Tap {S E T}.
Arguments fl_Reports {S E T}.
#[export] Instance settable_file_world S E T : Settable (file_world S E T) :=
  fun w => mkFileWorld (fl_Self w) (fl_Env w) (fl_Tap w) (fl_Reports w).

Section operations.
Context {S E T : Type} `{ErrorTap T}.
Definition file_op (A : Type) : Type := ST (file_world S E T) A.

Definition own {A} (f : S -> A) : file_op A := st_get (fun w => f (fo_Own (fl_Self w))).
Definition set_own (f : S -> S) : file_op unit := st_mod (fun w => w <| fl_Self := (fl_Self w) <| fo_Own := f (fo_Own (fl_Self w)) |> |>).
Definition library {A} (m : ST E A) : file_op A := zoom fl_Env (fun e w => w <| fl_Env := e |>) m.
Definition raise (event : SolidSyslogErrorEvent) : file_op unit :=
  st_mod (fun w => w <| fl_Tap := tap_emit event (fl_Tap w) |> <| fl_Reports := fl_Reports w ++ [event] |>).

(** The fault, with the code behind it when the call left one. *)
Definition File_Report (source : SolidSyslogErrorSource) (severity category code : Z) : file_op unit :=
  raise (mkErrorEvent severity category false (Some source) code 0).
Definition File_ReportFailure (source : SolidSyslogErrorSource) (code nativeCode : Z) : file_op unit :=
  if negb (nativeCode =? 0) then
    raise (mkErrorEvent SOLIDSYSLOG_FILE_IO_FAILED_SEVERITY SOLIDSYSLOG_CAT_FILE_IO_FAILED true (Some source) code nativeCode)
  else File_Report source SOLIDSYSLOG_FILE_IO_FAILED_SEVERITY SOLIDSYSLOG_CAT_FILE_IO_FAILED code.

(** [*base = *SolidSyslogNullFile_Get()], and dispatch through the vtable. *)
Definition become_null : file_op unit := st_mod (fun w => w <| fl_Self := (fl_Self w) <| fo_Base := NullFileVtable |> |>).
Definition through_vtable (own_file : SolidSyslogFile (file_world S E T)) : SolidSyslogFile (file_world S E T) :=
  let via {A} (m null : file_op A) : file_op A :=
    let! base := st_get (fun w => fo_Base (fl_Self w)) in match base with OwnFileVtable => m | NullFileVtable => null end in {|
  SolidSyslogFile_Open := fun path => via (SolidSyslogFile_Open (SolidSyslogFile := own_file) path) (NullFile_Open path);
  SolidSyslogFile_Close := via (SolidSyslogFile_Close (SolidSyslogFile := own_file)) NullFile_Close;
  SolidSyslogFile_IsOpen := via (SolidSyslogFile_IsOpen (SolidSyslogFile := own_file)) NullFile_IsOpen;
  SolidSyslogFile_Read := fun count => via (SolidSyslogFile_Read (SolidSyslogFile := own_file) count) (NullFile_Read count);
  SolidSyslogFile_Write := fun buf => via (SolidSyslogFile_Write (SolidSyslogFile := own_file) buf) (NullFile_Write buf);
  SolidSyslogFile_SeekTo := fun offset => via (SolidSyslogFile_SeekTo (SolidSyslogFile := own_file) offset) (NullFile_SeekTo offset);
  SolidSyslogFile_Size := via (SolidSyslogFile_Size (SolidSyslogFile := own_file)) NullFile_Size;
  SolidSyslogFile_Truncate := via (SolidSyslogFile_Truncate (SolidSyslogFile := own_file)) NullFile_Truncate;
  SolidSyslogFile_Exists := fun path => via (SolidSyslogFile_Exists (SolidSyslogFile := own_file) path) (NullFile_Exists path);
  SolidSyslogFile_Delete := fun path => via (SolidSyslogFile_Delete (SolidSyslogFile := own_file) path) (NullFile_Delete path)
|}.

(** ** Rules *)

Lemma wp_library {A} (m : ST E A) (Q : A -> file_world S E T -> Prop) w :
  wp m (fun a e => Q a (w <| fl_Env := e |>)) (fl_Env w) -> wp (library m) Q w.
Proof using. unfold wp, library, zoom. by destruct (m (fl_Env w)). Qed.
(** A failure makes one report, and touches nothing else. *)
Definition reported (event : SolidSyslogErrorEvent) (w w' : file_world S E T) : Prop :=
  fl_Self w' = fl_Self w /\ fl_Env w' = fl_Env w /\ fl_Reports w' = fl_Reports w ++ [event].
Lemma wp_ReportFailure source code native (Q : unit -> file_world S E T -> Prop) w :
  (forall w', reported (file_fault source code native) w w' -> Q tt w') -> wp (File_ReportFailure source code native) Q w.
Proof using.
  intros HQ. unfold File_ReportFailure, File_Report, raise. destruct (native =? 0) eqn:En; cbn [negb]; wp_steps; apply HQ; split_and!; try done;
    unfold file_fault; rewrite En; [| done]. apply Z.eqb_eq in En as ->. done.
Qed.
(** A report, or none, on a condition. *)
Lemma wp_report_if (b : bool) source code native (Q : unit -> file_world S E T -> Prop) w :
  (forall w', fl_Self w' = fl_Self w -> fl_Env w' = fl_Env w ->
     fl_Reports w' = fl_Reports w ++ (if b then [file_fault source code native] else []) -> Q tt w') ->
  wp (if! b then File_ReportFailure source code native end!) Q w.
Proof using.
  intros HQ. destruct b; [apply wp_ReportFailure; intros w' (E1 & E2 & E3); by apply HQ |].
  wp_steps. apply HQ; [done | done |]. by rewrite app_nil_r.
Qed.
End operations.

(** * The calls *)

(** A call that fails leaves its error number, read at once, as the second of the pair.
    [fd_open] is [open] with [O_RDWR | O_CREAT]; [fd_sopen] is [_sopen_s] with these and
    [_O_BINARY], which gives the descriptor and answers the error; [fd_truncate] is
    [ftruncate] to nothing or the [FIOTRUNC] of [ioctl], [fd_chsize] is [_chsize_s];
    [fd_sync] and [fd_commitfs] are [FIOSYNC] and [FIOCOMMITFS].  Not every platform has
    all of them. *)
Class FdFiles (E : Type) := {
  fd_open : bytes -> ST E (Z * Z);
  fd_sopen : bytes -> ST E (Z * Z);
  fd_close : Z -> ST E (Z * Z);
  (** the result, the error, the bytes put in the caller's memory *)
  fd_read : Z -> Z -> ST E (Z * Z * bytes);
  fd_write : Z -> bytes -> ST E (Z * Z);
  fd_seek_set : Z -> Z -> ST E (Z * Z);
  fd_seek_end : Z -> ST E (Z * Z);
  fd_truncate : Z -> ST E (Z * Z);
  fd_chsize : Z -> ST E Z;
  fd_sync : Z -> ST E (Z * Z);
  fd_commitfs : Z -> ST E (Z * Z);
  (** [access], [_access] or [stat] *)
  fd_access : bytes -> ST E Z;
  (** [unlink], [_unlink] or [remove] *)
  fd_unlink : bytes -> ST E (Z * Z)
}.
(** The numbers of the platforms' headers. *)
Record file_codes := mkFileCodes { ENOENT : Z; ENOTSUP : Z; S_dosFsLib_FILE_NOT_FOUND : Z }.
Definition INVALID_FD : Z := -1.
Definition ERROR : Z := -1.
Definition OK : Z := 0.

(** What tells the platforms apart in the common code: the source of the reports, the
    tests of what a transfer or a seek answered and of a status, and the errors that
    mean the path is not there. *)
Record fd_dialect := mkFdDialect {
  fdd_Source : SolidSyslogErrorSource;
  fdd_Refused : Z -> bool;
  fdd_Failed : Z -> bool;
  fdd_IsNotThere : Z -> bool
}.

(** * What the three do alike *)

Section fd_file.
Context {E T : Type} `{ErrorTap T} `{FdFiles E} (D : fd_dialect).
(** The adapter keeps the descriptor. *)
Abbreviation op := (@file_op Z E T).

Definition FdFile_Initialise : file_object Z := mkFileObject OwnFileVtable INVALID_FD.
Definition FdFile_ReportFailure : Z -> Z -> op unit := File_ReportFailure (fdd_Source D).
Definition FdFile_IsOpen : op bool := own (fun fd => negb (fd =? INVALID_FD)).

(** [open], and the fault when there is no descriptor. *)
Definition FdFile_Open (path : bytes) : op bool :=
  let! opened := library (fd_open path) in
  set_own (fun _ => fst opened) ;;;
  let openErrno := if fst opened =? INVALID_FD then snd opened else 0 in
  if! fst opened =? INVALID_FD then FdFile_ReportFailure SOLIDSYSLOG_FILE_ERROR_OPEN_FAILED openErrno end! ;;;
  st_ret (negb (fst opened =? INVALID_FD)).
Definition FdFile_Close : op unit :=
  let! isOpen := FdFile_IsOpen in
  if! isOpen : bool then
    let! fd := own (fun fd => fd) in
    let! answer := library (fd_close fd) in
    let closeErrno := if fdd_Failed D (fst answer) then snd answer else 0 in
    set_own (fun _ => INVALID_FD) ;;;
    if! fdd_Failed D (fst answer) then FdFile_ReportFailure SOLIDSYSLOG_FILE_ERROR_CLOSE_FAILED closeErrno end!
  end!.
Definition FdFile_Cleanup : op unit := FdFile_Close ;;; become_null.

Definition FdFile_IsWholeTransfer (transferred count : Z) : bool := (0 <=? transferred) && (transferred =? count).
Definition FdFile_Read (count : Z) : op (bool * bytes) :=
  let! fd := own (fun fd => fd) in
  let! answer := library (fd_read fd count) in
  let '(transferred, err, buf) := answer in
  let readErrno := if fdd_Refused D transferred then err else 0 in
  if! fdd_Refused D transferred then FdFile_ReportFailure SOLIDSYSLOG_FILE_ERROR_READ_FAILED readErrno end! ;;;
  st_ret (FdFile_IsWholeTransfer transferred count, buf).
(** [commit] is what follows a whole write. *)
Definition FdFile_Write (commit : Z -> op bool) (buf : bytes) : op bool :=
  let! fd := own (fun fd => fd) in
  let! answer := library (fd_write fd buf) in
  let writeErrno := if fdd_Refused D (fst answer) then snd answer else 0 in
  let wrote := FdFile_IsWholeTransfer (fst answer) (lenZ buf) in
  if wrote then commit fd
  else FdFile_ReportFailure SOLIDSYSLOG_FILE_ERROR_WRITE_FAILED writeErrno ;;; st_ret wrote.
Definition FdFile_SeekTo (offset : Z) : op unit :=
  let! fd := own (fun fd => fd) in
  let! answer := library (fd_seek_set fd offset) in
  let seekErrno := if fdd_Refused D (fst answer) then snd answer else 0 in
  if! fdd_Refused D (fst answer) then FdFile_ReportFailure SOLIDSYSLOG_FILE_ERROR_SEEK_FAILED seekErrno end!.
Definition FdFile_Size : op (bool * Z) :=
  let! fd := own (fun fd => fd) in
  let! answer := library (fd_seek_end fd) in
  let known := negb (fdd_Refused D (fst answer)) in
  let sizeErrno := if known then 0 else snd answer in
  if! negb known then FdFile_ReportFailure SOLIDSYSLOG_FILE_ERROR_SIZE_FAILED sizeErrno end! ;;;
  st_ret (known, if known then u32 (fst answer) else 0).
Definition FdFile_Truncate : op unit :=
  let! fd := own (fun fd => fd) in
  let! answer := library (fd_truncate fd) in
  let truncateErrno := if fdd_Failed D (fst answer) then snd answer else 0 in
  if! fdd_Failed D (fst answer) then FdFile_ReportFailure SOLIDSYSLOG_FILE_ERROR_TRUNCATE_FAILED truncateErrno end!.

Definition FdFile_Exists (path : bytes) : op bool :=
  let! status := library (fd_access path) in
  st_ret (status =? 0).
Definition FdFile_IsRemovedOrAbsent (status unlinkErrno : Z) : bool := (status =? 0) || fdd_IsNotThere D unlinkErrno.
Definition FdFile_Delete (path : bytes) : op bool :=
  let! answer := library (fd_unlink path) in
  let unlinkErrno := if fdd_Failed D (fst answer) then snd answer else 0 in
  st_ret (FdFile_IsRemovedOrAbsent (fst answer) unlinkErrno).

(** The table of functions, with what the platform opens, writes and truncates by. *)
Definition FdFile_vtable (Open : bytes -> op bool) (Write : bytes -> op bool) (Truncate : op unit) : SolidSyslogFile (file_world Z E T) :=
  through_vtable {|
    SolidSyslogFile_Open := Open;
    SolidSyslogFile_Close := FdFile_Close;
    SolidSyslogFile_IsOpen := FdFile_IsOpen;
    SolidSyslogFile_Read := FdFile_Read;
    SolidSyslogFile_Write := Write;
    SolidSyslogFile_SeekTo := FdFile_SeekTo;
    SolidSyslogFile_Size := FdFile_Size;
    SolidSyslogFile_Truncate := Truncate;
    SolidSyslogFile_Exists := FdFile_Exists;
    SolidSyslogFile_Delete := FdFile_Delete
  |}.
End fd_file.

(** * POSIX *)

Section posix.
Context {E T : Type} `{ErrorTap T} `{FdFiles E} (codes : file_codes).
Abbreviation op := (@file_op Z E T).

Definition posix_file : fd_dialect := {|
  fdd_Source := SolidSyslogPosixFileErrorSource;
  fdd_Refused := fun transferred => transferred <? 0;
  fdd_Failed := fun status => negb (status =? 0);
  fdd_IsNotThere := fun err => err =? ENOENT codes
|}.
Definition SolidSyslogPosixFile_Initialise : file_object Z := FdFile_Initialise.
Definition SolidSyslogPosixFile_Cleanup : op unit := FdFile_Cleanup posix_file.
Definition PosixFile_Report : Z -> Z -> Z -> op unit := File_Report SolidSyslogPosixFileErrorSource.
Definition PosixFile_ReportFailure : Z -> Z -> op unit := FdFile_ReportFailure posix_file.
Definition PosixFile_Open : bytes -> op bool := FdFile_Open posix_file.
Definition PosixFile_Close : op unit := FdFile_Close posix_file.
Definition PosixFile_IsOpen : op bool := FdFile_IsOpen.
Definition PosixFile_Read : Z -> op (bool * bytes) := FdFile_Read posix_file.
Definition PosixFile_IsWholeTransfer : Z -> Z -> bool := FdFile_IsWholeTransfer.
Definition PosixFile_Write : bytes -> op bool := FdFile_Write posix_file (fun _ => st_ret true).
Definition PosixFile_SeekTo : Z -> op unit := FdFile_SeekTo posix_file.
Definition PosixFile_Size : op (bool * Z) := FdFile_Size posix_file.
Definition PosixFile_Truncate : op unit := FdFile_Truncate posix_file.
Definition PosixFile_Exists : bytes -> op bool := FdFile_Exists.
Definition PosixFile_Delete : bytes -> op bool := FdFile_Delete posix_file.
Definition PosixFile_IsRemovedOrAbsent : Z -> Z -> bool := FdFile_IsRemovedOrAbsent posix_file.
Definition PosixFile_vtable : SolidSyslogFile (file_world Z E T) := FdFile_vtable posix_file PosixFile_Open PosixFile_Write PosixFile_Truncate.
End posix.

(** * Windows *)

Section windows.
Context {E T : Type} `{ErrorTap T} `{FdFiles E} (codes : file_codes).
Abbreviation op := (@file_op Z E T).

Definition windows_file : fd_dialect := {|
  fdd_Source := SolidSyslogWindowsFileErrorSource;
  fdd_Refused := fun transferred => transferred <? 0;
  fdd_Failed := fun status => negb (status =? 0);
  fdd_IsNotThere := fun err => err =? ENOENT codes
|}.
Definition SolidSyslogWindowsFile_Initialise : file_object Z := FdFile_Initialise.
Definition SolidSyslogWindowsFile_Cleanup : op unit := FdFile_Cleanup windows_file.
Definition WindowsFile_Report : Z -> Z -> Z -> op unit := File_Report SolidSyslogWindowsFileErrorSource.
Definition WindowsFile_ReportFailure : Z -> Z -> op unit := FdFile_ReportFailure windows_file.
(** The call gives the descriptor and answers the error. *)
Definition WindowsFile_Open (path : bytes) : op bool :=
  let! opened := library (fd_sopen path) in
  let '(fd, err) := opened in
  set_own (fun _ => fd) ;;;
  if! negb (err =? 0) then
    set_own (fun _ => INVALID_FD) ;;;
    WindowsFile_ReportFailure SOLIDSYSLOG_FILE_ERROR_OPEN_FAILED err
  end! ;;;
  own (fun fd => negb (fd =? INVALID_FD)).
Definition WindowsFile_Close : op unit := FdFile_Close windows_file.
Definition WindowsFile_IsOpen : op bool := FdFile_IsOpen.
Definition WindowsFile_Read : Z -> op (bool * bytes) := FdFile_Read windows_file.
Definition WindowsFile_IsWholeTransfer : Z -> Z -> bool := FdFile_IsWholeTransfer.
Definition WindowsFile_Write : bytes -> op bool := FdFile_Write windows_file (fun _ => st_ret true).
Definition WindowsFile_SeekTo : Z -> op unit := FdFile_SeekTo windows_file.
Definition WindowsFile_Size : op (bool * Z) := FdFile_Size windows_file.
Definition WindowsFile_Truncate : op unit :=
  let! fd := own (fun fd => fd) in
  let! err := library (fd_chsize fd) in
  if! negb (err =? 0) then WindowsFile_ReportFailure SOLIDSYSLOG_FILE_ERROR_TRUNCATE_FAILED err end!.
Definition WindowsFile_Exists : bytes -> op bool := FdFile_Exists.
Definition WindowsFile_Delete : bytes -> op bool := FdFile_Delete windows_file.
Definition WindowsFile_IsRemovedOrAbsent : Z -> Z -> bool := FdFile_IsRemovedOrAbsent windows_file.
Definition WindowsFile_vtable : SolidSyslogFile (file_world Z E T) := FdFile_vtable windows_file WindowsFile_Open WindowsFile_Write WindowsFile_Truncate.
End windows.

(** * VxWorks *)

Section vxworks.
Context {E T : Type} `{ErrorTap T} `{FdFiles E} (codes : file_codes).
Abbreviation op := (@file_op Z E T).

Definition VxWorks64File_IsNotThere (removeErrno : Z) : bool := (removeErrno =? ENOENT codes) || (removeErrno =? S_dosFsLib_FILE_NOT_FOUND codes).
Definition vxworks_file : fd_dialect := {|
  fdd_Source := SolidSyslogVxWorks64FileErrorSource;
  fdd_Refused := fun transferred => transferred =? ERROR;
  fdd_Failed := fun status => status =? ERROR;
  fdd_IsNotThere := VxWorks64File_IsNotThere
|}.
Definition SolidSyslogVxWorks64File_Initialise : file_object Z := FdFile_Initialise.
Definition SolidSyslogVxWorks64File_Cleanup : op unit := FdFile_Cleanup vxworks_file.
Definition VxWorks64File_Report : Z -> Z -> Z -> op unit := File_Report SolidSyslogVxWorks64FileErrorSource.
Definition VxWorks64File_ReportFailure : Z -> Z -> op unit := FdFile_ReportFailure vxworks_file.
Definition VxWorks64File_Open : bytes -> op bool := FdFile_Open vxworks_file.
Definition VxWorks64File_Close : op unit := FdFile_Close vxworks_file.
Definition VxWorks64File_IsOpen : op bool := FdFile_IsOpen.
Definition VxWorks64File_Read : Z -> op (bool * bytes) := FdFile_Read vxworks_file.
Definition VxWorks64File_IsWholeTransfer : Z -> Z -> bool := FdFile_IsWholeTransfer.
Definition VxWorks64File_Sync (fd : Z) : op bool :=
  let! answer := library (fd_sync fd) in
  let syncErrno := if fst answer =? ERROR then snd answer else 0 in
  let synced := negb (fst answer =? ERROR) in
  if! negb synced then VxWorks64File_ReportFailure SOLIDSYSLOG_FILE_ERROR_SYNC_FAILED syncErrno end! ;;;
  st_ret synced.
Definition VxWorks64File_CommitFileSystem (fd : Z) : op bool :=
  let! answer := library (fd_commitfs fd) in
  let commitErrno := if fst answer =? ERROR then snd answer else 0 in
  let committed := negb (fst answer =? ERROR) || (commitErrno =? ENOTSUP codes) in
  if! negb committed then VxWorks64File_ReportFailure SOLIDSYSLOG_FILE_ERROR_COMMIT_FAILED commitErrno end! ;;;
  st_ret committed.
Definition VxWorks64File_Commit (fd : Z) : op bool :=
  let! committed := VxWorks64File_Sync fd in
  if committed : bool then VxWorks64File_CommitFileSystem fd else st_ret committed.
Definition VxWorks64File_Write : bytes -> op bool := FdFile_Write vxworks_file VxWorks64File_Commit.
Definition VxWorks64File_SeekTo : Z -> op unit := FdFile_SeekTo vxworks_file.
Definition VxWorks64File_Size : op (bool * Z) := FdFile_Size vxworks_file.
Definition VxWorks64File_Truncate : op unit := FdFile_Truncate vxworks_file.
Definition VxWorks64File_Exists : bytes -> op bool := FdFile_Exists.
Definition VxWorks64File_Delete : bytes -> op bool := FdFile_Delete vxworks_file.
Definition VxWorks64File_vtable : SolidSyslogFile (file_world Z E T) :=
  FdFile_vtable vxworks_file VxWorks64File_Open VxWorks64File_Write VxWorks64File_Truncate.
End vxworks.

(** * What the calls are documented to do *)

(** [fd_files] is the volume as a reader of it finds it, [fd_media] what a power cut
    would leave of it, [fd_place] the table of open descriptors; [fd_flushed] says that
    the data of a path has reached its device. *)
Class FdFilesSpec (E : Type) `{FdFiles E} (codes : file_codes) := {
  fd_files : E -> volume;
  fd_media : E -> volume;
  fd_flushed : E -> bytes -> Prop;
  fd_place : E -> Z -> option (bytes * Z);
  fd_at (e : E) (fd : Z) : file_state := mkFileState (fd_files e) (fd_place e fd);
  fd_same (e e' : E) : Prop := fd_files e' = fd_files e /\ forall fd, fd_place e' fd = fd_place e fd;
  no_descriptor : forall e, fd_place e INVALID_FD = None;
  open_law : forall path e, wp (fd_open path) (fun r e' => (fst r = -1 \/ 0 <= fst r) /\
    lib_opens path (fd_at e INVALID_FD) (negb (fst r =? -1)) (fd_at e' (fst r))) e;
  sopen_law : forall path e, wp (fd_sopen path) (fun r e' =>
    if snd r =? 0 then 0 <= fst r /\ lib_opens path (fd_at e INVALID_FD) true (fd_at e' (fst r))
    else lib_opens path (fd_at e INVALID_FD) false (fd_at e' INVALID_FD)) e;
  close_law : forall fd path at_ e, fd_place e fd = Some (path, at_) -> wp (fd_close fd) (fun r e' =>
    (fst r = 0 \/ fst r = -1) /\ lib_closes path (fd_at e fd) (fst r =? 0) (fd_files e')) e;
  read_law : forall fd path at_ n e, fd_place e fd = Some (path, at_) -> 0 <= n -> wp (fd_read fd n) (fun r e' =>
    let '(transferred, _, bs) := r in
    (transferred = -1 \/ 0 <= transferred) /\ lenZ bs <= n /\ (0 <= transferred -> lenZ bs = transferred) /\
    lib_reads path at_ (fd_at e fd) n (if transferred =? -1 then None else Some bs) (fd_at e' fd)) e;
  write_law : forall fd path at_ data e, fd_place e fd = Some (path, at_) -> wp (fd_write fd data) (fun r e' =>
    (fst r = -1 \/ 0 <= fst r) /\ lib_writes path at_ (fd_at e fd) data (if fst r =? -1 then None else Some (fst r)) (fd_at e' fd)) e;
  seek_law : forall fd path at_ off e, fd_place e fd = Some (path, at_) -> 0 <= off <= SIZE_MAX -> wp (fd_seek_set fd off) (fun r e' =>
    (fst r = -1 \/ 0 <= fst r) /\ lib_seeks path (fd_at e fd) false off (negb (fst r =? -1)) (fd_at e' fd)) e;
  end_law : forall fd path at_ e, fd_place e fd = Some (path, at_) -> wp (fd_seek_end fd) (fun r e' =>
    (fst r = -1 \/ 0 <= fst r) /\ lib_sizes path (fd_at e fd) (if fst r =? -1 then None else Some (fst r)) (fd_at e' fd)) e;
  truncate_law : forall fd path at_ e, fd_place e fd = Some (path, at_) -> wp (fd_truncate fd) (fun r e' =>
    (fst r = 0 \/ fst r = -1) /\ lib_cuts path (fd_at e fd) (fst r =? 0) (fd_at e' fd)) e;
  chsize_law : forall fd path at_ e, fd_place e fd = Some (path, at_) -> wp (fd_chsize fd) (fun err e' =>
    lib_cuts path (fd_at e fd) (err =? 0) (fd_at e' fd)) e;
  sync_law : forall fd path at_ e, fd_place e fd = Some (path, at_) -> wp (fd_sync fd) (fun r e' =>
    (fst r = 0 \/ fst r = -1) /\ fd_same e e' /\ (fst r = 0 -> fd_flushed e' path)) e;
  commitfs_law : forall fd path at_ e, fd_place e fd = Some (path, at_) -> fd_flushed e path -> wp (fd_commitfs fd) (fun r e' =>
    (fst r = 0 \/ fst r = -1) /\ fd_same e e' /\
    (fst r = 0 \/ snd r = ENOTSUP codes -> fd_media e' !! path = fd_files e' !! path)) e;
  access_law : forall path e, wp (fd_access path) (fun r e' => fd_same e e' /\ (r = 0 -> is_Some (fd_files e !! path))) e;
  unlink_law : forall path e, wp (fd_unlink path) (fun r e' =>
    (fst r = 0 \/ fst r = -1) /\ (forall fd, fd_place e' fd = fd_place e fd) /\ lib_removes path (fd_at e INVALID_FD) (fst r =? 0) (fd_files e') /\
    (fst r = -1 -> snd r = ENOENT codes \/ snd r = S_dosFsLib_FILE_NOT_FOUND codes -> fd_files e !! path = None)) e
}.

(** ** Through the vtable *)

Section vtable.
Context {S E T : Type} `{ErrorTap T} (own_file : SolidSyslogFile (file_world S E T)).
Context (source : SolidSyslogErrorSource) (ok : file_world S E T -> Prop) (state : file_world S E T -> file_state).
Context (flushes : bool) (media : file_world S E T -> volume).
Lemma through_vtable_keeps : (forall w, ok w -> fo_Base (fl_Self w) = OwnFileVtable) ->
  file_contract source own_file ok state fl_Reports flushes media ->
  file_contract source (through_vtable own_file) ok state fl_Reports flushes media.
Proof using.
  intros Hbase [C1 C2 C3 C4 C5 C6 C7 C8 C9 C10 C11]. split; try done; simpl; intros; (wp_step; apply wp_get; rewrite (Hbase w) by done); eauto.
Qed.
(** What an operation answers and reports. *)
Definition tells {A} (answer : A -> bool) (m : file_op A) (a : file_answer) (w : file_world S E T) : Prop :=
  wp m (fun r w' => answer r = fst a /\ fl_Reports w' = fl_Reports w ++ fault_reports source (snd a)) w.
Definition nothing_answered (u : unit) : bool := true.
Lemma tells_mapped {A} (answer : A -> bool) (m : file_op A) a w : tells answer m a w ->
  wp (let! r := m in st_ret (answer r)) (fun b w' => b = fst a /\ fl_Reports w' = fl_Reports w ++ fault_reports source (snd a)) w.
Proof using. unfold tells. intros Hm. apply wp_bind. eapply wp_mono; [exact Hm |]. cbv beta. intros r w' Hr. by apply wp_ret. Qed.
(** A table of functions tells what is said when each of its functions does. *)
Lemma through_vtable_tells said : (forall w, ok w -> fo_Base (fl_Self w) = OwnFileVtable) ->
  (forall call w, ok w -> may_make (state w) call ->
     match call with
     | FileOpen path => tells id (SolidSyslogFile_Open (SolidSyslogFile := own_file) path) (said call w) w
     | FileClose => tells nothing_answered (SolidSyslogFile_Close (SolidSyslogFile := own_file)) (said call w) w
     | FileRead n => tells fst (SolidSyslogFile_Read (SolidSyslogFile := own_file) n) (said call w) w
     | FileWrite data => tells id (SolidSyslogFile_Write (SolidSyslogFile := own_file) data) (said call w) w
     | FileSeekTo off => tells nothing_answered (SolidSyslogFile_SeekTo (SolidSyslogFile := own_file) off) (said call w) w
     | FileSize => tells fst (SolidSyslogFile_Size (SolidSyslogFile := own_file)) (said call w) w
     | FileTruncate => tells nothing_answered (SolidSyslogFile_Truncate (SolidSyslogFile := own_file)) (said call w) w
     | FileExists path => tells id (SolidSyslogFile_Exists (SolidSyslogFile := own_file) path) (said call w) w
     | FileDelete path => tells id (SolidSyslogFile_Delete (SolidSyslogFile := own_file) path) (said call w) w
     end) ->
  tells_what source (through_vtable own_file) ok state fl_Reports said.
Proof using.
  intros Hbase Ht call w Hw Hmay. specialize (Ht call w Hw Hmay).
  assert (Ep : file_perform (through_vtable own_file) call w = file_perform own_file call w).
  { destruct call; unfold file_perform; simpl; unfold st_bind, st_get; by rewrite (Hbase w Hw). }
  unfold wp. rewrite Ep. destruct call; try exact Ht; unfold file_perform; first [exact (tells_mapped nothing_answered _ _ _ Ht) | exact (tells_mapped fst _ _ _ Ht)].
Qed.
Lemma wp_library_eq {A} (m : ST E A) (Q : A -> file_world S E T -> Prop) w :
  (forall a e', m (fl_Env w) = (a, e') -> Q a (w <| fl_Env := e' |>)) -> wp (library m) Q w.
Proof using. intros HQ. apply wp_library. unfold wp. destruct (m (fl_Env w)) as [a e'] eqn:Em. by apply HQ. Qed.
End vtable.
(** What the law of a call says of the answer it gave. *)
Lemma law_says {E A} (m : ST E A) (P : A -> E -> Prop) e a e' : wp m P e -> m e = (a, e') -> P a e'.
Proof. unfold wp. intros HP Em. by rewrite Em in HP. Qed.

(** * The contract *)

Section fd_contract.
Context {E T : Type} `{ErrorTap T} (codes : file_codes) `{HFd : FdFiles E, HL : !FdFilesSpec E codes} (D : fd_dialect).
(** The tests are right about what the calls answer. *)
Context (Hrefused : forall r, r = -1 \/ 0 <= r -> fdd_Refused D r = (r =? -1)).
Context (Hfailed : forall r, r = 0 \/ r = -1 -> fdd_Failed D r = negb (r =? 0)).
Context (Habsent : forall err, fdd_IsNotThere D err = true -> err = ENOENT codes \/ err = S_dosFsLib_FILE_NOT_FOUND codes).
Abbreviation world := (file_world Z E T).
Implicit Types (w : world).

Definition fd_of w : Z := fo_Own (fl_Self w).
Definition fd_view w : file_state := fd_at (fl_Env w) (fd_of w).
Definition fd_medium w : volume := fd_media (fl_Env w).
Record fd_ok w : Prop := {
  fk_base : fo_Base (fl_Self w) = OwnFileVtable;
  fk_open : fd_of w = INVALID_FD \/ 0 <= fd_of w /\ is_Some (fs_At (fd_view w));
  fk_sound : sound (fd_view w)
}.
Abbreviation stepping := (steps fd_ok fd_view fl_Reports).
Abbreviation staying := (stays fd_ok fd_view fl_Reports).

Lemma fd_open_iff w : fd_ok w -> (fd_of w =? INVALID_FD) = negb (bool_decide (is_Some (fs_At (fd_view w)))).
Proof using.
  intros [_ [Hn | [Hp Hsome]] _].
  - rewrite bool_decide_eq_false_2; [by rewrite Hn |]. unfold fd_view. rewrite Hn. simpl. rewrite no_descriptor. by intros [].
  - rewrite bool_decide_eq_true_2 by done. unfold INVALID_FD. simpl. lia.
Qed.
Lemma fd_place_valid w path at_ : fd_ok w -> fs_At (fd_view w) = Some (path, at_) -> 0 <= fd_of w.
Proof using.
  intros [_ [Hn | [Hp _]] _] Hat; [| done]. unfold fd_view in Hat. rewrite Hn in Hat. simpl in Hat. by rewrite no_descriptor in Hat.
Qed.
(** The file stays open, the volume with it on [path]. *)
Lemma stays_open w w' path at_ files step rs :
  fd_ok w -> fs_At (fd_view w) = Some (path, at_) -> fl_Self w' = fl_Self w ->
  now_at path files (fd_view w') -> is_Some (files !! path) ->
  step rs (fd_view w') -> fl_Reports w' = fl_Reports w ++ rs -> stepping step w w'.
Proof using.
  intros Hw Hat Es (now & Hnow & Ev) Hf Hstep Er. split; [| by exists rs]. split.
  - rewrite Es. apply Hw.
  - right. unfold fd_of. rewrite Es. split; [by apply (fd_place_valid w path at_) | rewrite Ev; by eexists].
  - rewrite Ev. by apply still_at_sound.
Qed.
(** The file is closed. *)
Lemma is_closed w w' files step rs :
  fd_ok w -> fl_Self w' = (fl_Self w) <| fo_Own := INVALID_FD |> -> fd_files (fl_Env w') = files ->
  step rs (mkFileState files None) -> fl_Reports w' = fl_Reports w ++ rs -> stepping step w w'.
Proof using.
  intros Hw Es Ef Hstep Er. assert (Ev : fd_view w' = mkFileState files None).
  { unfold fd_view, fd_of, fd_at. rewrite Es. simpl. by rewrite Ef, no_descriptor. }
  split; [| exists rs; by rewrite Ev]. split; [rewrite Es; apply Hw | left; unfold fd_of; by rewrite Es | by rewrite Ev].
Qed.
Lemma is_open w w' path files step rs :
  fd_ok w -> fo_Base (fl_Self w') = fo_Base (fl_Self w) -> 0 <= fd_of w' -> fd_view w' = mkFileState (<[path := files]> (fd_files (fl_Env w))) (Some (path, 0)) ->
  step rs (fd_view w') -> fl_Reports w' = fl_Reports w ++ rs -> stepping step w w'.
Proof using.
  intros Hw Eb Hfd Ev Hstep Er. split; [| by exists rs]. split; [rewrite Eb; apply Hw | right; rewrite Ev; split; [done | by eexists] |].
  rewrite Ev. by apply (still_at_insert path 0).
Qed.

(** ** The operations *)

Ltac fd_run := unfold own, set_own, FdFile_ReportFailure; wp_steps.
(** A call on the open descriptor, under its law. *)
Ltac fd_calls law := apply wp_library; eapply wp_mono; [by eapply law | cbv beta].

Lemma Close_keeps w : fd_ok w -> wp (FdFile_Close D) (fun _ w' => stepping (file_closes (fdd_Source D) (fd_view w)) w w') w.
Proof using HL Hfailed.
  intros Hw. unfold FdFile_Close, FdFile_IsOpen. fd_run. change (fo_Own (fl_Self w)) with (fd_of w). rewrite (fd_open_iff w Hw), negb_involutive.
  destruct (fs_At (fd_view w)) as [[path at_] |] eqn:Eat.
  - rewrite bool_decide_eq_true_2 by by eexists. fd_run. fd_calls close_law. intros [status err] e' [Hst Hcl]. cbn [fst snd] in *.
    fd_run. apply wp_report_if. intros w' Es Ee Er. simpl in *.
    eapply is_closed; [done | by rewrite Es | by rewrite Ee | | exact Er]. rewrite Hfailed by done.
    replace (if negb (status =? 0) then _ else _) with (if status =? 0 then [] else [file_fault (fdd_Source D) SOLIDSYSLOG_FILE_ERROR_CLOSE_FAILED (if negb (status =? 0) then err else 0)])
      by by destruct (status =? 0).
    by eapply closes_of.
  - rewrite bool_decide_eq_false_2 by by intros []. wp_steps. split; [done |]. exists []. rewrite app_nil_r. split; [by constructor | done].
Qed.
Lemma IsOpen_keeps w : fd_ok w -> wp FdFile_IsOpen (fun b w' => staying w w' /\ b = bool_decide (is_Some (fs_At (fd_view w)))) w.
Proof using HL.
  intros Hw. unfold FdFile_IsOpen, own. wp_steps. split; [done |]. change (fo_Own (fl_Self w)) with (fd_of w).
  by rewrite (fd_open_iff w Hw), negb_involutive.
Qed.

Section on_open_file.
Context (path : bytes) (at_ : Z) (w : world) (Hw : fd_ok w) (Hat : fs_At (fd_view w) = Some (path, at_)).
Lemma on_volume : is_Some (fd_files (fl_Env w) !! path).
Proof using Hw Hat. by apply (fk_sound _ Hw path at_). Qed.
(** A call that leaves the file open and one report if it failed. *)
Lemma stays_reported (w' : world) files (step : list SolidSyslogErrorEvent -> file_state -> Prop) e' rs :
  fl_Self w' = fl_Self w -> fl_Env w' = e' -> fl_Reports w' = fl_Reports w ++ rs ->
  now_at path files (fd_at e' (fd_of w)) -> is_Some (files !! path) -> step rs (fd_at e' (fd_of w)) -> stepping step w w'.
Proof using Hw Hat HL.
  intros Es Ee Er Hnow Hf Hstep. assert (Ev : fd_view w' = fd_at e' (fd_of w)) by (unfold fd_view, fd_of; by rewrite Es, Ee).
  eapply stays_open; [done | exact Hat | done | rewrite Ev; exact Hnow | exact Hf | rewrite Ev; exact Hstep | exact Er].
Qed.

Lemma Read_keeps n : 0 <= n ->
  wp (FdFile_Read D n) (fun r w' => stepping (file_reads (fdd_Source D) path at_ (fd_view w) n (fst r) (snd r)) w w') w.
Proof using Hw Hat HL Hrefused.
  intros Hn. unfold FdFile_Read. fd_run. fd_calls read_law. intros [[transferred err] bs] e' (Hrange & Hl & Heq & HR). fd_run.
  apply wp_report_if. intros w' Es Ee Er. simpl in Es, Ee, Er. wp_steps. rewrite Hrefused in Er by done.
  eapply stays_reported; [done | exact Ee | exact Er | apply HR | apply on_volume |]. cbn [fst snd].
  eapply reads_of; [done | exact HR | done | | | apply on_volume |].
  - unfold FdFile_IsWholeTransfer. destruct (Z.eqb_spec transferred (-1)); [done |]. intros g [= <-].
    rewrite <- (Heq ltac:(lia)). split; [| done]. pose proof (lenZ_nonneg bs). lia.
  - unfold FdFile_IsWholeTransfer. destruct (Z.eqb_spec transferred (-1)) as [-> |]; done.
  - intros Hr. by rewrite Hr.
Qed.
(** What may follow a whole write: no trouble, and the data committed where that is
    promised, or one report. *)
Definition commits (flushes : bool) (w1 : world) (b : bool) (w' : world) : Prop :=
  fl_Self w' = fl_Self w1 /\ fd_same (fl_Env w1) (fl_Env w') /\
  if b then fl_Reports w' = fl_Reports w1 /\ (flushes = true -> fd_media (fl_Env w') !! path = fd_files (fl_Env w') !! path)
  else exists code native, write_fault code /\ fl_Reports w' = fl_Reports w1 ++ [file_fault (fdd_Source D) code native].
Lemma fd_same_at e e' fd : fd_same e e' -> fd_at e' fd = fd_at e fd.
Proof using. intros [Hf Hp]. unfold fd_at. by rewrite Hf, Hp. Qed.
Lemma Write_keeps (flushes : bool) commit data :
  (forall w1 at', fd_place (fl_Env w1) (fd_of w) = Some (path, at') -> wp (commit (fd_of w)) (commits flushes w1) w1) ->
  wp (FdFile_Write D commit data) (fun b w' => stepping (file_writes (fdd_Source D) path at_ (fd_view w) data b) w w' /\
    (flushes = true -> b = true -> fd_medium w' !! path = fs_Files (fd_view w') !! path)) w.
Proof using Hw Hat HL Hrefused.
  intros Hcommit. unfold FdFile_Write. fd_run. fd_calls write_law. intros [n err] e' [Hrange HW]. cbn [fst snd] in *. fd_run.
  change (fo_Own (fl_Self w)) with (fd_of w) in HW. destruct HW as (part & rest & after & Ed & Hover & (now & Hnow & Ev) & Htook).
  assert (HW' : lib_writes path at_ (fd_view w) data (if n =? -1 then None else Some n) (fd_at e' (fd_of w))).
  { exists part, rest, after. split_and!; try done. by exists now. }
  assert (Hpresent : is_Some (<[path := after]> (fd_files (fl_Env w)) !! path)) by (rewrite lookup_insert_eq; by eexists).
  destruct (FdFile_IsWholeTransfer n (lenZ data)) eqn:Ewhole; fd_run.
  - assert (Etook : (if n =? -1 then None else Some n) = Some (lenZ data)).
    { unfold FdFile_IsWholeTransfer in Ewhole. destruct (Z.eqb_spec n (-1)); [lia | f_equal; lia]. }
    set (w1 := w <| fl_Env := e' |>). eapply wp_mono; [apply (Hcommit w1 now); exact (f_equal fs_At Ev) |].
    cbv beta. intros b w' (Es & Hsame & Hb). pose proof (eq_trans (fd_same_at _ _ (fd_of w) Hsame) Ev) as Ev'.
    destruct b.
    + destruct Hb as [Er Hm]. split.
      * eapply (stays_reported _ _ _ _ []); [exact Es | done | by rewrite app_nil_r | rewrite Ev'; by exists now | exact Hpresent |].
        rewrite Ev', <- Ev. eapply writes_of; [exact HW' | exact Etook].
      * intros Hfl _. by apply Hm.
    + destruct Hb as (code & native & Hcode & Er). split; [| done].
      eapply stays_reported; [exact Es | done | exact Er | rewrite Ev'; by exists now | exact Hpresent |].
      rewrite Ev', <- Ev. eapply writes_part_of; [exact Hcode | exact HW'].
  - apply wp_ReportFailure. intros w' (Es & Ee & Er). wp_steps. split; [| done].
    eapply stays_reported; [exact Es | exact Ee | exact Er | simpl; rewrite Ev; by exists now | exact Hpresent |].
    eapply writes_part_of; [by left | exact HW'].
Qed.
Lemma SeekTo_keeps off : 0 <= off <= SIZE_MAX ->
  wp (FdFile_SeekTo D off) (fun _ w' => stepping (file_seeks (fdd_Source D) path (fd_view w) off) w w') w.
Proof using Hw Hat HL Hrefused.
  intros Hoff. unfold FdFile_SeekTo. fd_run. fd_calls seek_law. intros [r err] e' [Hrange HK]. cbn [fst snd] in *. fd_run.
  apply wp_report_if. intros w' Es Ee Er. simpl in Es, Ee, Er. rewrite Hrefused in Er by done.
  pose proof (seeks_of _ _ (fdd_Source D) _ _ _ (if r =? -1 then err else 0) _ HK) as HS.
  eapply (stays_reported _ (fd_files (fl_Env w))); [exact Es | exact Ee | | | apply on_volume | exact HS].
  - rewrite Er. by destruct (r =? -1).
  - destruct (r =? -1); simpl in HK; [exact HK |]. destruct HK as [HK | [Hg _]]; [| done]. exists off. split; [lia | exact HK].
Qed.
Lemma Size_keeps :
  wp (FdFile_Size D) (fun r w' => stepping (file_sizes (fdd_Source D) path (fd_view w) (fst r) (snd r)) w w') w.
Proof using Hw Hat HL Hrefused.
  unfold FdFile_Size. fd_run. fd_calls end_law. intros [r err] e' [Hrange HS]. cbn [fst snd] in *. fd_run.
  apply wp_report_if. intros w' Es Ee Er. simpl in Es, Ee, Er. wp_steps. rewrite Hrefused in * by done. rewrite negb_involutive in Er.
  pose proof (sizes_of _ _ (fdd_Source D) _ (if negb (r =? -1) then 0 else err) _ HS) as HF.
  eapply stays_reported; [exact Es | exact Ee | exact Er | apply HS | apply on_volume |]. cbn [fst snd].
  destruct (r =? -1); exact HF.
Qed.
(** After the call that truncates: its report on failure. *)
Lemma after_truncate (done_ : bool) native e' w' :
  lib_cuts path (fd_view w) done_ (fd_at e' (fd_of w)) -> fl_Self w' = fl_Self w -> fl_Env w' = e' ->
  fl_Reports w' = fl_Reports w ++ (if negb done_ then [file_fault (fdd_Source D) SOLIDSYSLOG_FILE_ERROR_TRUNCATE_FAILED native] else []) ->
  stepping (file_truncates (fdd_Source D) path (fd_view w)) w w'.
Proof using Hw Hat HL.
  intros HC Es Ee Er. pose proof (truncates_of _ _ (fdd_Source D) _ native _ HC) as HT.
  assert (Hf : is_Some ((if done_ then <[path := []]> (fs_Files (fd_view w)) else fs_Files (fd_view w)) !! path)).
  { destruct done_; [rewrite lookup_insert_eq; by eexists | apply on_volume]. }
  eapply stays_reported; [exact Es | exact Ee | | exact HC | exact Hf | exact HT]. rewrite Er. by destruct done_.
Qed.
Lemma Truncate_keeps : wp (FdFile_Truncate D) (fun _ w' => stepping (file_truncates (fdd_Source D) path (fd_view w)) w w') w.
Proof using Hw Hat HL Hfailed.
  unfold FdFile_Truncate. fd_run. fd_calls truncate_law. intros [r err] e' [Hrange HC]. cbn [fst snd] in *. fd_run.
  apply wp_report_if. intros w' Es Ee Er. rewrite Hfailed in Er by done. by eapply after_truncate.
Qed.
End on_open_file.

Lemma same_stays w w' : fd_ok w -> fl_Self w' = fl_Self w -> fd_same (fl_Env w) (fl_Env w') -> fl_Reports w' = fl_Reports w -> staying w w'.
Proof using.
  intros Hw Es Hsame Er. assert (Ev : fd_view w' = fd_view w) by (unfold fd_view, fd_of; rewrite Es; by apply fd_same_at).
  split; [| done]. destruct Hw as [H1 H2 H3]. split; [by rewrite Es | unfold fd_of; by rewrite Ev, Es | by rewrite Ev].
Qed.
Lemma Exists_keeps path w : fd_ok w ->
  wp (FdFile_Exists path) (fun b w' => staying w w' /\ (b = true -> is_Some (fs_Files (fd_view w) !! path))) w.
Proof using HL.
  intros Hw. unfold FdFile_Exists. wp_steps. fd_calls access_law. intros r e' [Hsame Hsome]. wp_steps. split; [by apply same_stays |].
  intros Hr%Z.eqb_eq. by apply Hsome.
Qed.
Lemma Delete_keeps path w : fd_ok w -> (forall at_, fs_At (fd_view w) <> Some (path, at_)) ->
  wp (FdFile_Delete D path) (fun b w' => fd_ok w' /\ fl_Reports w' = fl_Reports w /\ fs_At (fd_view w') = fs_At (fd_view w) /\
    fs_Files (fd_view w') = if b : bool then delete path (fs_Files (fd_view w)) else fs_Files (fd_view w)) w.
Proof using HL Hfailed Habsent.
  intros Hw Hno. unfold FdFile_Delete. wp_steps. fd_calls unlink_law. intros [r err] e' (Hrange & Hplace & Hrem & Habs). cbn [fst snd] in *. wp_steps.
  set (w' := w <| fl_Env := e' |>). assert (Ev : fd_view w' = mkFileState (fd_files e') (fs_At (fd_view w))) by (unfold fd_view, fd_at; simpl; by rewrite Hplace).
  assert (Ef : fd_files e' = if FdFile_IsRemovedOrAbsent D r (if fdd_Failed D r then err else 0) then delete path (fd_files (fl_Env w)) else fd_files (fl_Env w)).
  { unfold FdFile_IsRemovedOrAbsent. rewrite Hfailed by done. rewrite Hrem. destruct Hrange as [-> | ->]; simpl; [done |].
    destruct (fdd_IsNotThere D err) eqn:Ea; [| done]. by rewrite delete_id by (apply Habs; [done | by apply Habsent]). }
  rewrite Ev. split; [| done]. destruct Hw as [H1 H2 H3]. split; [done | by rewrite Ev |]. rewrite Ev. intros p a Ep. destruct (H3 p a Ep) as [Ha Hp].
  split; [done |]. simpl. rewrite Ef. destruct (FdFile_IsRemovedOrAbsent _ _ _); [| done]. rewrite lookup_delete_ne; [done |].
  intros ->. by apply (Hno a).
Qed.
Lemma after_open path w w' (ok : bool) fd native : fd_ok w -> fl_Self w' = (fl_Self w) <| fo_Own := fd |> ->
  (if ok then 0 <= fd else fd = INVALID_FD) -> lib_opens path (fd_at (fl_Env w) INVALID_FD) ok (fd_at (fl_Env w') fd) ->
  fl_Reports w' = fl_Reports w ++ (if ok then [] else [file_fault (fdd_Source D) SOLIDSYSLOG_FILE_ERROR_OPEN_FAILED native]) ->
  stepping (file_opens (fdd_Source D) path (fd_view w) ok) w w'.
Proof using HL.
  intros Hw Es Hfd HO Er. change (lib_opens path (fd_view w) ok (fd_at (fl_Env w') fd)) in HO.
  pose proof (opens_of path (fd_view w) (fdd_Source D) ok SOLIDSYSLOG_FILE_ERROR_OPEN_FAILED native _ (or_introl eq_refl) HO) as HF.
  destruct ok; simpl in HO.
  - assert (Ev : fd_view w' = fd_at (fl_Env w') fd) by (unfold fd_view, fd_of; by rewrite Es).
    eapply is_open; [done | by rewrite Es | by unfold fd_of; rewrite Es | by rewrite Ev | by rewrite Ev | exact Er].
  - subst fd. destruct HO as (files & _ & Ev). rewrite Ev in HF. eapply is_closed; [done | exact Es | exact (f_equal fs_Files Ev) | exact HF | exact Er].
Qed.
Lemma Open_keeps path w : fd_ok w -> wp (FdFile_Open D path) (fun b w' => stepping (file_opens (fdd_Source D) path (fd_view w) b) w w') w.
Proof using HL.
  intros Hw. unfold FdFile_Open. fd_run. fd_calls open_law. intros [fd err] e' [Hrange HO]. cbn [fst snd] in *.
  fd_run. apply wp_report_if. intros w' Es Ee Er. simpl in Es, Ee, Er. wp_steps. unfold INVALID_FD in *.
  eapply after_open with (fd := fd) (native := if fd =? -1 then err else 0); [done | by rewrite Es | | by rewrite Ee |].
  - destruct (Z.eqb_spec fd (-1)) as [-> |]; [done |]. simpl. lia.
  - rewrite Er. by destruct (fd =? -1).
Qed.

(** The table of functions keeps the contract when what the platform opens, writes and
    truncates by does. *)
Lemma fd_file_contract (flushes : bool) Open Write Truncate :
  (forall path w, fd_ok w -> wp (Open path) (fun b w' => stepping (file_opens (fdd_Source D) path (fd_view w) b) w w') w) ->
  (forall data path at_ w, fd_ok w -> fs_At (fd_view w) = Some (path, at_) ->
     wp (Write data) (fun b w' => stepping (file_writes (fdd_Source D) path at_ (fd_view w) data b) w w' /\
       (flushes = true -> b = true -> fd_medium w' !! path = fs_Files (fd_view w') !! path)) w) ->
  (forall path at_ w, fd_ok w -> fs_At (fd_view w) = Some (path, at_) ->
     wp Truncate (fun _ w' => stepping (file_truncates (fdd_Source D) path (fd_view w)) w w') w) ->
  file_contract (fdd_Source D) (FdFile_vtable D Open Write Truncate) fd_ok fd_view fl_Reports flushes fd_medium.
Proof using HL Hrefused Hfailed Habsent.
  intros HOpen HWrite HTruncate. apply through_vtable_keeps; [apply fk_base |]. split; simpl.
  - apply fk_sound.
  - intros path w Hw _. by apply HOpen.
  - apply Close_keeps.
  - apply IsOpen_keeps.
  - intros n path at_ w Hw Hat Hn. by eapply Read_keeps.
  - exact HWrite.
  - intros off path at_ w Hw Hat Hoff. by eapply SeekTo_keeps.
  - intros path at_ w Hw Hat. by eapply Size_keeps.
  - exact HTruncate.
  - apply Exists_keeps.
  - apply Delete_keeps.
Qed.
End fd_contract.

(** ** What the calls say *)

(** What a call that answers -1 left as its error. *)
Definition minus_one (answer : Z * Z) : option Z := if fst answer =? -1 then Some (snd answer) else None.
(** The answer of what ends with a fault or without. *)
Definition committed (fault : option (Z * Z)) : file_answer := (match fault with Some _ => false | None => true end, fault).
Section fd_said.
Context {E T : Type} `{HFd : FdFiles E}.
(** The error of opening a path, the fault of what follows a whole write, and the error
    of truncating, when there is one; the errors that mean a path is not there. *)
Context (open_error : bytes -> E -> option Z) (commit_fault : Z -> E -> option (Z * Z)) (truncate_error : Z -> E -> option Z) (absent : Z -> bool).
Definition fd_said (call : file_call) (w : file_world Z E T) : file_answer :=
  let e := fl_Env w in let fd := fo_Own (fl_Self w) in
  match call with
  | FileOpen path => failing SOLIDSYSLOG_FILE_ERROR_OPEN_FAILED (open_error path e)
  | FileClose =>
      if fd =? INVALID_FD then (true, None)
      else silent (failing SOLIDSYSLOG_FILE_ERROR_CLOSE_FAILED (minus_one (fst (fd_close fd e))))
  | FileRead n =>
      let '(transferred, err, _) := fst (fd_read fd n e) in
      (transferred =? n, if transferred =? -1 then Some (SOLIDSYSLOG_FILE_ERROR_READ_FAILED, err) else None)
  | FileWrite data =>
      let '(answer, e') := fd_write fd data e in
      if fst answer =? lenZ data then committed (commit_fault fd e')
      else (false, Some (SOLIDSYSLOG_FILE_ERROR_WRITE_FAILED, default 0 (minus_one answer)))
  | FileSeekTo off => silent (failing SOLIDSYSLOG_FILE_ERROR_SEEK_FAILED (minus_one (fst (fd_seek_set fd off e))))
  | FileSize => failing SOLIDSYSLOG_FILE_ERROR_SIZE_FAILED (minus_one (fst (fd_seek_end fd e)))
  | FileTruncate => silent (failing SOLIDSYSLOG_FILE_ERROR_TRUNCATE_FAILED (truncate_error fd e))
  | FileExists path => (fst (fd_access path e) =? 0, None)
  | FileDelete path => let '(status, err) := fst (fd_unlink path e) in ((status =? 0) || absent err, None)
  end.
End fd_said.
Section said.
Context {E T : Type} `{HFd : FdFiles E} (codes : file_codes).
Abbreviation said := (file_call -> file_world Z E T -> file_answer).
Definition posix_open_error (path : bytes) (e : E) : option Z := minus_one (fst (fd_open path e)).
Definition no_commit (fd : Z) (e : E) : option (Z * Z) := None.
Definition posix_truncate_error (fd : Z) (e : E) : option Z := minus_one (fst (fd_truncate fd e)).
Definition no_entry (err : Z) : bool := err =? ENOENT codes.
Definition posix_said : said := fd_said posix_open_error no_commit posix_truncate_error no_entry.
(** [_sopen_s] and [_chsize_s] answer the error. *)
Definition some_error (err : Z) : option Z := if err =? 0 then None else Some err.
Definition windows_said : said :=
  fd_said (fun path e => some_error (snd (fst (fd_sopen path e)))) no_commit (fun fd e => some_error (fst (fd_chsize fd e))) no_entry.
(** A sync that fails, or a commit that fails though the file system has one. *)
Definition vxworks_commit_fault (fd : Z) (e : E) : option (Z * Z) :=
  let '(synced, e') := fd_sync fd e in
  match minus_one synced with
  | Some err => Some (SOLIDSYSLOG_FILE_ERROR_SYNC_FAILED, err)
  | None =>
      match minus_one (fst (fd_commitfs fd e')) with
      | Some err => if err =? ENOTSUP codes then None else Some (SOLIDSYSLOG_FILE_ERROR_COMMIT_FAILED, err)
      | None => None
      end
  end.
Definition vxworks_said : said :=
  fd_said posix_open_error vxworks_commit_fault posix_truncate_error (fun err => no_entry err || (err =? S_dosFsLib_FILE_NOT_FOUND codes)).
End said.

Section fd_tells.
Context {E T : Type} `{ErrorTap T} (codes : file_codes) `{HFd : FdFiles E, HL : !FdFilesSpec E codes} (D : fd_dialect).
Context (Hrefused : forall r, r = -1 \/ 0 <= r -> fdd_Refused D r = (r =? -1)).
Context (Hfailed : forall r, r = 0 \/ r = -1 -> fdd_Failed D r = (r =? -1)).
Context (open_error : bytes -> E -> option Z) (commit_fault : Z -> E -> option (Z * Z)) (truncate_error : Z -> E -> option Z) (absent : Z -> bool).
Context (Habsent : forall err, fdd_IsNotThere D err = absent err).
Abbreviation world := (file_world Z E T).
Abbreviation said := (fd_said (T := T) open_error commit_fault truncate_error absent).
Abbreviation tells := (tells (fdd_Source D)).
Ltac tell_run := unfold own, set_own, FdFile_ReportFailure; wp_steps.
Ltac tell_call := apply wp_library_eq; let a := fresh "a" in let e' := fresh "e'" in let Ea := fresh "Ea" in intros a e' Ea; rewrite ?Ea; tell_run.
Ltac tell_report := apply wp_report_if; let w' := fresh "w'" in let Es := fresh "Es" in let Ee := fresh "Ee" in let Er := fresh "Er" in intros w' Es Ee Er; tell_run.
Lemma placed (w : world) path at_ : fs_At (fd_view codes w) = Some (path, at_) -> fd_place (fl_Env w) (fo_Own (fl_Self w)) = Some (path, at_).
Proof using. done. Qed.

Lemma Close_tells (w : world) : fd_ok codes w -> tells nothing_answered (FdFile_Close D) (said FileClose w) w.
Proof using HL Hfailed.
  intros Hw. unfold tells, FdFile_Close, FdFile_IsOpen, fd_said. tell_run. destruct (fo_Own (fl_Self w) =? INVALID_FD) eqn:Efd; cbn [negb]; tell_run.
  - by rewrite app_nil_r.
  - tell_call. assert (Hp : exists path at_, fs_At (fd_view codes w) = Some (path, at_)).
    { destruct Hw as [_ [Hn | [_ [[path at_] Hat]]] _]; [unfold fd_of in Hn; lia | by exists path, at_]. }
    destruct Hp as (path & at_ & Hp). destruct (law_says _ _ _ _ _ (close_law _ _ _ _ (placed _ _ _ Hp)) Ea) as [Hr _].
    tell_report. split; [done |]. rewrite Er, Hfailed by done. unfold minus_one. cbn [fst]. by destruct (fst a =? -1).
Qed.
Lemma Read_tells n path at_ (w : world) : fs_At (fd_view codes w) = Some (path, at_) -> 0 <= n -> tells fst (FdFile_Read D n) (said (FileRead n) w) w.
Proof using HL Hrefused.
  intros Hat Hn. unfold tells, FdFile_Read, fd_said. tell_run. tell_call. destruct a as [[r err] bs].
  pose proof (law_says _ _ _ _ _ (read_law _ _ _ _ _ (placed _ _ _ Hat) Hn) Ea) as (Hr & _). tell_run.
  tell_report. rewrite Er, Hrefused by done. cbn [fst snd]. split; [unfold FdFile_IsWholeTransfer; lia |]. by destruct (r =? -1).
Qed.
Lemma Write_tells commit data path at_ (w : world) : fs_At (fd_view codes w) = Some (path, at_) ->
  (forall fd w1 at', fd_place (fl_Env w1) fd = Some (path, at') ->
     tells id (commit fd) (committed (commit_fault fd (fl_Env w1))) w1) ->
  tells id (FdFile_Write D commit data) (said (FileWrite data) w) w.
Proof using HL Hrefused.
  intros Hat Hcommit. unfold tells, FdFile_Write, fd_said. tell_run. tell_call.
  pose proof (law_says _ _ _ _ _ (write_law _ _ _ data _ (placed _ _ _ Hat)) Ea) as [Hr (part & rest & after & _ & _ & (now & _ & Ev) & _)].
  pose proof (lenZ_nonneg data). unfold FdFile_IsWholeTransfer. destruct (Z.eqb_spec (fst a) (lenZ data)) as [El | Hne].
  - replace ((0 <=? fst a) && true) with true by lia. exact (Hcommit _ (w <| fl_Env := e' |>) now (f_equal fs_At Ev)).
  - replace ((0 <=? fst a) && false) with false by lia. tell_run. apply wp_ReportFailure. intros w' (Es & Ee & Er). tell_run.
    split; [done |]. rewrite Er, Hrefused by done. unfold minus_one. cbn [fst snd]. by destruct (fst a =? -1).
Qed.
Lemma SeekTo_tells off path at_ (w : world) : fs_At (fd_view codes w) = Some (path, at_) -> 0 <= off <= SIZE_MAX ->
  tells nothing_answered (FdFile_SeekTo D off) (said (FileSeekTo off) w) w.
Proof using HL Hrefused.
  intros Hat Hoff. unfold tells, FdFile_SeekTo, fd_said. tell_run. tell_call.
  destruct (law_says _ _ _ _ _ (seek_law _ _ _ _ _ (placed _ _ _ Hat) Hoff) Ea) as [Hr _].
  tell_report. split; [done |]. rewrite Er, Hrefused by done. unfold minus_one. cbn [fst]. by destruct (fst a =? -1).
Qed.
Lemma Size_tells path at_ (w : world) : fs_At (fd_view codes w) = Some (path, at_) -> tells fst (FdFile_Size D) (said FileSize w) w.
Proof using HL Hrefused.
  intros Hat. unfold tells, FdFile_Size, fd_said. tell_run. tell_call.
  destruct (law_says _ _ _ _ _ (end_law _ _ _ _ (placed _ _ _ Hat)) Ea) as [Hr _].
  tell_report. rewrite Er, !Hrefused by done. unfold minus_one. cbn [fst]. by destruct (fst a =? -1).
Qed.
Lemma Exists_tells path (w : world) : tells id (FdFile_Exists path) (said (FileExists path) w) w.
Proof using. unfold tells, FdFile_Exists, fd_said. tell_run. tell_call. by rewrite app_nil_r. Qed.
Lemma Delete_tells path (w : world) : tells id (FdFile_Delete D path) (said (FileDelete path) w) w.
Proof using HL Hfailed Habsent.
  unfold tells, FdFile_Delete, fd_said. tell_run. tell_call. destruct (law_says _ _ _ _ _ (unlink_law _ _) Ea) as [Hr _].
  destruct a as [r err]. cbn [fst snd] in *. rewrite app_nil_r. split; [| done]. unfold FdFile_IsRemovedOrAbsent. rewrite Hfailed, Habsent by done.
  by destruct Hr as [-> | ->].
Qed.
Lemma Open_tells path (w : world) : open_error = posix_open_error -> tells id (FdFile_Open D path) (said (FileOpen path) w) w.
Proof using.
  intros ->. unfold tells, FdFile_Open, fd_said, posix_open_error. tell_run. tell_call. tell_report. rewrite Er. unfold minus_one, INVALID_FD. cbn [fst].
  by destruct (fst a =? -1).
Qed.
Lemma Truncate_tells path at_ (w : world) : fs_At (fd_view codes w) = Some (path, at_) -> truncate_error = posix_truncate_error ->
  tells nothing_answered (FdFile_Truncate D) (said FileTruncate w) w.
Proof using HL Hfailed.
  intros Hat ->. unfold tells, FdFile_Truncate, fd_said, posix_truncate_error. tell_run. tell_call.
  destruct (law_says _ _ _ _ _ (truncate_law _ _ _ _ (placed _ _ _ Hat)) Ea) as [Hr _].
  tell_report. split; [done |]. rewrite Er, Hfailed by done. unfold minus_one. cbn [fst]. by destruct (fst a =? -1).
Qed.

(** The table of functions tells what is said when what the platform opens, writes and
    truncates by does. *)
Lemma fd_tells Open Write Truncate :
  (forall path w, tells id (Open path) (said (FileOpen path) w) w) ->
  (forall data path at_ w, fs_At (fd_view codes w) = Some (path, at_) -> tells id (Write data) (said (FileWrite data) w) w) ->
  (forall path at_ w, fs_At (fd_view codes w) = Some (path, at_) -> tells nothing_answered Truncate (said FileTruncate w) w) ->
  tells_what (fdd_Source D) (FdFile_vtable D Open Write Truncate) (fd_ok codes) (fd_view codes) fl_Reports said.
Proof using HL Hrefused Hfailed Habsent.
  intros HOpen HWrite HTruncate. apply through_vtable_tells; [apply fk_base |]. intros call w Hw Hmay.
  assert (Hat : is_Some (fs_At (fd_view codes w)) -> exists path at_, fs_At (fd_view codes w) = Some (path, at_)) by (intros [[path at_] Hat]; by exists path, at_).
  destruct call as [path | | n | data | off | | | path | path]; simpl in Hmay.
  - apply HOpen.
  - by apply Close_tells.
  - destruct Hmay as [Ho Hn]. destruct (Hat Ho) as (path & at_ & Hp). by eapply Read_tells.
  - destruct (Hat Hmay) as (path & at_ & Hp). by eapply HWrite.
  - destruct Hmay as [Ho Hoff]. destruct (Hat Ho) as (path & at_ & Hp). by eapply SeekTo_tells.
  - destruct (Hat Hmay) as (path & at_ & Hp). by eapply Size_tells.
  - destruct (Hat Hmay) as (path & at_ & Hp). by eapply HTruncate.
  - apply Exists_tells.
  - apply Delete_tells.
Qed.
End fd_tells.

(** ** The three *)

Section platforms.
Context {E T : Type} `{ErrorTap T} (codes : file_codes) `{HFd : FdFiles E, HL : !FdFilesSpec E codes}.
Abbreviation world := (file_world Z E T).

Lemma negative_is_error r : r = -1 \/ 0 <= r -> (r <? 0) = (r =? -1).
Proof using. lia. Qed.
Lemma uncommitted (D : fd_dialect) path (w1 : world) : wp (st_ret true) (commits codes D path false w1) w1.
Proof using. apply wp_ret. split_and!; done. Qed.

(** VxWorks syncs the file and commits the file system after each whole write. *)
Lemma VxWorksCommit_keeps path at_ fd (w1 : world) : fd_place (fl_Env w1) fd = Some (path, at_) ->
  wp (VxWorks64File_Commit codes fd) (commits codes (vxworks_file codes) path true w1) w1.
Proof using HL.
  intros Hp. unfold VxWorks64File_Commit, VxWorks64File_Sync. wp_steps. apply wp_library.
  eapply wp_mono; [by eapply sync_law |]. cbv beta. intros [r err] e1 (Hr & Hsame1 & Hfl). cbn [fst snd] in *. wp_steps.
  unfold ERROR, VxWorks64File_ReportFailure, FdFile_ReportFailure. apply wp_report_if. intros w2 Es2 Ee2 Er2. wp_steps. destruct (Z.eqb_spec r (-1)) as [-> | Hne]; cbn [negb] in *.
  { wp_steps. split; [done |]. split; [by rewrite Ee2 |]. eexists _, _. split; [by right; left | exact Er2]. }
  rewrite app_nil_r in Er2. simpl in Es2, Ee2, Er2. destruct Hr as [-> | ->]; [| done]. specialize (Hfl eq_refl). clear Hne.
  unfold VxWorks64File_CommitFileSystem. wp_steps. apply wp_library. rewrite Ee2.
  eapply wp_mono; [eapply commitfs_law; [by rewrite (proj2 Hsame1) | done] |]. cbv beta. intros [r err2] e3 (Hr & Hsame3 & Hm). cbn [fst snd] in *. wp_steps.
  unfold ERROR, VxWorks64File_ReportFailure, FdFile_ReportFailure. apply wp_report_if. intros w4 Es4 Ee4 Er4. wp_steps. simpl in Es4, Ee4, Er4.
  assert (Hsame : fd_same (fl_Env w1) (fl_Env w4)).
  { rewrite Ee4. destruct Hsame1 as [F1 P1], Hsame3 as [F3 P3]. split; [by rewrite F3, F1 | intros k; by rewrite P3, P1]. }
  split; [by rewrite Es4, Es2 |]. split; [exact Hsame |]. rewrite Er2 in Er4.
  destruct (negb (r =? -1) || ((if r =? -1 then err2 else 0) =? ENOTSUP codes)) eqn:Ec; cbn [negb] in *.
  - split; [by rewrite app_nil_r in Er4 |]. intros _. rewrite Ee4. apply Hm. destruct Hr as [-> | ->]; [by left | right]. simpl in Ec. lia.
  - eexists _, _. split; [by right; right | exact Er4].
Qed.

Lemma posix_file_keeps :
  file_contract SolidSyslogPosixFileErrorSource (PosixFile_vtable codes) (fd_ok codes) (fd_view codes) fl_Reports false (fd_medium codes (T := T)).
Proof using HL.
  assert (HR : forall r, r = -1 \/ 0 <= r -> fdd_Refused (posix_file codes) r = (r =? -1)) by apply negative_is_error.
  assert (HF : forall r, r = 0 \/ r = -1 -> fdd_Failed (posix_file codes) r = negb (r =? 0)) by done.
  apply (fd_file_contract codes (posix_file codes)); [done | done | | | |].
  - intros err Ha. simpl in Ha. lia.
  - apply Open_keeps.
  - intros data path at_ w Hw Hat. apply (Write_keeps codes (posix_file codes) HR path at_ w Hw Hat). intros w1 at' _. apply uncommitted.
  - intros path at_ w Hw Hat. by eapply Truncate_keeps.
Qed.
Lemma windows_file_keeps :
  file_contract SolidSyslogWindowsFileErrorSource (WindowsFile_vtable codes) (fd_ok codes) (fd_view codes) fl_Reports false (fd_medium codes (T := T)).
Proof using HL.
  assert (HR : forall r, r = -1 \/ 0 <= r -> fdd_Refused (windows_file codes) r = (r =? -1)) by apply negative_is_error.
  assert (HF : forall r, r = 0 \/ r = -1 -> fdd_Failed (windows_file codes) r = negb (r =? 0)) by done.
  apply (fd_file_contract codes (windows_file codes)); [done | done | | | |].
  - intros err Ha. simpl in Ha. lia.
  - intros path w Hw. unfold WindowsFile_Open, set_own, own. wp_steps. apply wp_library. eapply wp_mono; [by eapply sopen_law |].
    cbv beta. intros [fd err] e' HO. cbn [fst snd] in HO. unfold WindowsFile_ReportFailure, FdFile_ReportFailure. wp_steps. destruct (err =? 0) eqn:Ee; cbn [negb]; wp_steps.
    + destruct HO as [Hfd HO]. match goal with |- context [negb ?b] => replace b with false by (symmetry; simpl; unfold INVALID_FD; lia) end. cbn [negb].
      by eapply (after_open codes (windows_file codes) path w _ true fd 0); [done | done | done | exact HO | rewrite app_nil_r].
    + apply wp_ReportFailure. intros w' (Es & Ee' & Er). wp_steps. rewrite Es. cbn.
      by eapply (after_open codes (windows_file codes) path w w' false INVALID_FD err); [done | rewrite Es | | rewrite Ee' | rewrite Er].
  - intros data path at_ w Hw Hat. apply (Write_keeps codes (windows_file codes) HR path at_ w Hw Hat). intros w1 at' _. apply uncommitted.
  - intros path at_ w Hw Hat. unfold WindowsFile_Truncate, own. wp_steps. apply wp_library. eapply wp_mono; [by eapply chsize_law |].
    cbv beta. intros err e' HC. unfold WindowsFile_ReportFailure, FdFile_ReportFailure. wp_steps. apply wp_report_if. intros w' Es Ee Er. by eapply (after_truncate codes (windows_file codes)).
Qed.
Lemma vxworks_file_keeps :
  file_contract SolidSyslogVxWorks64FileErrorSource (VxWorks64File_vtable codes) (fd_ok codes) (fd_view codes) fl_Reports true (fd_medium codes (T := T)).
Proof using HL.
  assert (HR : forall r, r = -1 \/ 0 <= r -> fdd_Refused (vxworks_file codes) r = (r =? -1)) by done.
  assert (HF : forall r, r = 0 \/ r = -1 -> fdd_Failed (vxworks_file codes) r = negb (r =? 0)) by by intros r [-> | ->].
  apply (fd_file_contract codes (vxworks_file codes)); [done | done | | | |].
  - intros err Ha. simpl in Ha. unfold VxWorks64File_IsNotThere in Ha. lia.
  - apply Open_keeps.
  - intros data path at_ w Hw Hat. apply (Write_keeps codes (vxworks_file codes) HR path at_ w Hw Hat). intros w1 at' Hp. by eapply VxWorksCommit_keeps.
  - intros path at_ w Hw Hat. by eapply Truncate_keeps.
Qed.
(** What each tells is what its calls said. *)
Lemma posix_refused r : r = -1 \/ 0 <= r -> (r <? 0) = (r =? -1).
Proof using. lia. Qed.
Lemma posix_failed r : r = 0 \/ r = -1 -> negb (r =? 0) = (r =? -1).
Proof using. by intros [-> | ->]. Qed.
Lemma nothing_to_commit D (w1 : world) : tells (fdd_Source D) id (st_ret true) (committed None) w1.
Proof using. apply wp_ret. by rewrite app_nil_r. Qed.
Lemma posix_file_tells :
  tells_what SolidSyslogPosixFileErrorSource (PosixFile_vtable codes) (fd_ok codes) (fd_view codes) fl_Reports (posix_said codes (T := T)).
Proof using HL.
  apply (fd_tells codes (posix_file codes)); [apply posix_refused | apply posix_failed | done | | |].
  - intros path w. by apply Open_tells.
  - intros data path at_ w Hat. eapply (Write_tells codes (posix_file codes)); [apply posix_refused | exact Hat |]. intros fd w1 at' _. apply nothing_to_commit.
  - intros path at_ w Hat. by eapply (Truncate_tells codes (posix_file codes) posix_failed).
Qed.
Lemma windows_file_tells :
  tells_what SolidSyslogWindowsFileErrorSource (WindowsFile_vtable codes) (fd_ok codes) (fd_view codes) fl_Reports (windows_said codes (T := T)).
Proof using HL.
  apply (fd_tells codes (windows_file codes)); [apply posix_refused | apply posix_failed | done | | |].
  - intros path w. unfold tells, WindowsFile_Open, set_own, own, fd_said, some_error. wp_steps. apply wp_library_eq. intros [fd err] e' Ea. rewrite Ea.
    pose proof (law_says _ _ _ _ _ (sopen_law _ _) Ea) as HO. cbn [fst snd] in *. unfold WindowsFile_ReportFailure, FdFile_ReportFailure.
    destruct (err =? 0) eqn:Ee; cbn [negb]; wp_steps; rewrite ?Ee.
    + destruct HO as [Hfd _]. rewrite app_nil_r. cbn. split; [unfold INVALID_FD; lia | done].
    + cbn [negb]. wp_steps. apply wp_ReportFailure. intros w' (Es & Ee' & Er). wp_steps. rewrite Es. by rewrite Er.
  - intros data path at_ w Hat. eapply (Write_tells codes (windows_file codes)); [apply posix_refused | exact Hat |]. intros fd w1 at' _. apply nothing_to_commit.
  - intros path at_ w Hat. unfold tells, WindowsFile_Truncate, own, fd_said, some_error. wp_steps. apply wp_library_eq. intros err e' Ea. rewrite Ea. cbn [fst].
    unfold WindowsFile_ReportFailure, FdFile_ReportFailure. wp_steps. apply wp_report_if. intros w' Es Ee Er. split; [done |]. rewrite Er. by destruct (err =? 0).
Qed.
Lemma VxWorksCommit_tells fd path at_ (w1 : world) : fd_place (fl_Env w1) fd = Some (path, at_) ->
  tells SolidSyslogVxWorks64FileErrorSource id (VxWorks64File_Commit codes fd) (committed (vxworks_commit_fault codes fd (fl_Env w1))) w1.
Proof using HL.
  intros Hp. unfold tells, VxWorks64File_Commit, VxWorks64File_Sync, vxworks_commit_fault, minus_one. wp_steps. apply wp_library_eq. intros [r err] e1 Ea. rewrite Ea.
  destruct (law_says _ _ _ _ _ (sync_law _ _ _ _ Hp) Ea) as (Hr & Hsame & Hfl). cbn [fst snd] in *. wp_steps. unfold ERROR, VxWorks64File_ReportFailure, FdFile_ReportFailure.
  apply wp_report_if. intros w2 Es2 Ee2 Er2. wp_steps. simpl in Er2, Ee2. destruct Hr as [-> | ->]; cbn in Er2 |- *; wp_steps; [| by rewrite Er2].
  unfold VxWorks64File_CommitFileSystem. wp_steps. apply wp_library_eq. rewrite Ee2. intros [r err2] e3 Eb. rewrite Eb. cbn [fst snd]. wp_steps.
  unfold VxWorks64File_ReportFailure, FdFile_ReportFailure. apply wp_report_if. intros w4 Es4 Ee4 Er4. wp_steps. simpl in Er4. rewrite app_nil_r in Er2. rewrite Er2 in Er4.
  rewrite Er4. unfold ERROR. destruct (r =? -1); cbn [negb orb]; [| done]. by destruct (err2 =? ENOTSUP codes).
Qed.
Lemma vxworks_file_tells :
  tells_what SolidSyslogVxWorks64FileErrorSource (VxWorks64File_vtable codes) (fd_ok codes) (fd_view codes) fl_Reports (vxworks_said codes (T := T)).
Proof using HL.
  apply (fd_tells codes (vxworks_file codes)); [done | done | done | | |].
  - intros path w. by apply Open_tells.
  - intros data path at_ w Hat. eapply (Write_tells codes (vxworks_file codes)); [done | exact Hat |]. intros fd w1 at' Hp. by eapply VxWorksCommit_tells.
  - intros path at_ w Hat. by eapply (Truncate_tells codes (vxworks_file codes)).
Qed.
End platforms.

(** * A steady volume *)

(** A volume of regular files that has no fault of its own: it loses nothing at a close,
    goes where it is told, truncates, knows what is there, and sizes nothing larger than
    [size_t]. *)
Class FdSteady (E : Type) (codes : file_codes) `{FdFilesSpec E codes} := {
  keeps_at_close : forall fd path at_ e, fd_place e fd = Some (path, at_) -> wp (fd_close fd) (fun _ e' => fd_files e' = fd_files e) e;
  seeks_within : forall fd path at_ off e, fd_place e fd = Some (path, at_) -> 0 <= off <= SIZE_MAX ->
    is_Some (fd_files e !! path) -> wp (fd_seek_set fd off) (fun r _ => fst r = off) e;
  truncates_always : forall fd path at_ e, fd_place e fd = Some (path, at_) -> is_Some (fd_files e !! path) -> wp (fd_truncate fd) (fun r _ => fst r = 0) e;
  access_knows : forall path e, wp (fd_access path) (fun r _ => r <> 0 -> fd_files e !! path = None) e;
  sizes_fit : forall fd path at_ e, fd_place e fd = Some (path, at_) -> wp (fd_seek_end fd) (fun r _ => fst r <= SIZE_MAX) e
}.
Lemma wp_conj {S A} (m : ST S A) (P Q : A -> S -> Prop) s : wp m P s -> wp m Q s -> wp m (fun a s' => P a s' /\ Q a s') s.
Proof. by split. Qed.

Section steady.
Context {E T : Type} `{ErrorTap T} (codes : file_codes) `{HFd : FdFiles E, HL : !FdFilesSpec E codes, HS : !FdSteady E codes}.
Abbreviation world := (file_world Z E T).
Implicit Types (w : world).
Lemma present_here w path at_ : fd_ok codes w -> fs_At (fd_view codes w) = Some (path, at_) -> is_Some (fd_files (fl_Env w) !! path).
Proof using. intros Hw Hat. by apply (fk_sound _ _ Hw path at_). Qed.
Ltac runs := unfold own, set_own, FdFile_ReportFailure; wp_steps.
Ltac calls law := apply wp_library; eapply wp_mono; [eapply law; [eassumption | ..] | cbv beta].
Lemma PosixClose_steady w : fd_ok codes w -> wp (PosixFile_Close codes) (fun _ w' => fs_Files (fd_view codes w') = fs_Files (fd_view codes w)) w.
Proof using HL HS.
  intros Hw. unfold PosixFile_Close, FdFile_Close, FdFile_IsOpen. runs. change (fo_Own (fl_Self w)) with (fd_of w). rewrite (fd_open_iff codes w Hw), negb_involutive.
  destruct (fs_At (fd_view codes w)) as [[path at_] |] eqn:Hat.
  - rewrite bool_decide_eq_true_2 by by eexists. runs. apply wp_library. eapply wp_mono; [by eapply keeps_at_close |]. cbv beta. intros [r err] e' Hf. runs.
    apply wp_report_if. intros w' Es Ee Er. simpl in Ee. unfold fd_view. simpl. by rewrite Ee.
  - rewrite bool_decide_eq_false_2 by by intros []. by runs.
Qed.
Lemma PosixSeekTo_steady off path at_ w : fd_ok codes w -> fs_At (fd_view codes w) = Some (path, at_) -> 0 <= off <= SIZE_MAX ->
  wp (PosixFile_SeekTo codes off) (fun _ w' => fd_view codes w' = still_at path (fs_Files (fd_view codes w)) off) w.
Proof using HL HS.
  intros Hw Hat Hoff. unfold PosixFile_SeekTo, FdFile_SeekTo. runs. apply wp_library.
  eapply wp_mono; [apply wp_conj; [by eapply seek_law | eapply seeks_within; [done | done | by eapply present_here]] |]. cbv beta.
  intros [r err] e' [[Hr HK] Ho]. cbn [fst snd] in *. subst r. replace (off =? -1) with false in HK by lia. cbn [negb lib_seeks] in HK.
  destruct HK as [HK | [Hg _]]; [| done]. runs. apply wp_report_if. intros w' Es Ee Er. simpl in Es, Ee. unfold fd_view, fd_of. rewrite Es, Ee. exact HK.
Qed.
Lemma PosixTruncate_steady path at_ w : fd_ok codes w -> fs_At (fd_view codes w) = Some (path, at_) ->
  wp (PosixFile_Truncate codes) (fun _ w' => fs_Files (fd_view codes w') = <[path := []]> (fs_Files (fd_view codes w))) w.
Proof using HL HS.
  intros Hw Hat. unfold PosixFile_Truncate, FdFile_Truncate. runs. apply wp_library.
  eapply wp_mono; [apply wp_conj; [by eapply truncate_law | eapply truncates_always; [done | by eapply present_here]] |]. cbv beta.
  intros [r err] e' [[_ (now & _ & Ev)] Ho]. cbn [fst snd] in *. subst r. runs. apply wp_report_if. intros w' Es Ee Er. simpl in Es, Ee.
  unfold fd_view, fd_of. rewrite Es, Ee. exact (f_equal fs_Files Ev).
Qed.
Lemma PosixExists_steady path w : fd_ok codes w -> wp (PosixFile_Exists path) (fun b _ => b = false -> fs_Files (fd_view codes w) !! path = None) w.
Proof using HS.
  intros Hw. unfold PosixFile_Exists, FdFile_Exists. runs. apply wp_library. eapply wp_mono; [apply access_knows |]. cbv beta. intros r e' Hr. runs.
  intros Hb%Z.eqb_neq. by apply Hr.
Qed.
Lemma PosixSize_steady path at_ w : fd_ok codes w -> fs_At (fd_view codes w) = Some (path, at_) ->
  wp (PosixFile_Size codes) (fun r _ => fst r = true -> forall b, fs_Files (fd_view codes w) !! path = Some b -> lenZ b <= SIZE_MAX) w.
Proof using HL HS.
  intros Hw Hat. unfold PosixFile_Size, FdFile_Size. runs. apply wp_library. eapply wp_mono; [apply wp_conj; [by eapply end_law | by eapply sizes_fit] |]. cbv beta.
  intros [r err] e' [[Hr [_ HS0]] Hfit]. cbn [fst snd] in *. runs. apply wp_report_if. intros w' Es Ee Er. runs. cbn [fst].
  intros Hk b Eb. simpl in Hk. destruct (Z.eqb_spec r (-1)) as [-> |]; [done |]. destruct (HS0 r eq_refl) as (b' & Eb' & ->).
  change (fd_files (fl_Env w) !! path = Some b) in Eb. change (fd_files (fl_Env w) !! path = Some b') in Eb'. rewrite Eb in Eb'. by injection Eb' as <-.
Qed.
Lemma posix_file_steady : steady (PosixFile_vtable codes) (fd_ok codes (T := T)) (fd_view codes).
Proof using HL HS.
  split; simpl; intros; (wp_step; apply wp_get; rewrite (fk_base codes w) by done).
  - by apply PosixClose_steady.
  - by eapply PosixSeekTo_steady.
  - by eapply PosixTruncate_steady.
  - by apply PosixExists_steady.
  - by eapply PosixSize_steady.
Qed.
End steady.
