(* ===== verification/FatFiles.v ===== *)
(** Files over three embedded file systems: FatFs
    ([src/Platform/FatFs/Source/SolidSyslogFatFsFile.c]), littlefs
    ([src/Platform/LittleFs/Source/SolidSyslogLittleFsFile.c]) and FreeRTOS-Plus-FAT
    ([src/Platform/PlusFat/Source/SolidSyslogPlusFatFile.c]).  Each library is a class of
    its calls with their documented results; each file keeps the contract of
    [FileContract.v], FatFs's with the close it may still owe. *)
From stdpp Require Import gmap.
From S2P Require Import Prelude Errors PendingEvents FileBlockDevice FileContract FdFiles.

#[local] Open Scope Z_scope.

(** * FatFs *)

(** The calls on the one [FIL] of the adapter; [f_open] with [FA_OPEN_ALWAYS] to read
    and write.  Each answers an [FRESULT], a transfer also how many bytes moved. *)
Class FatFs (E : Type) := {
  f_open : bytes -> ST E Z;
  f_close : ST E Z;
  f_read : Z -> ST E (Z * Z * bytes);
  f_write : bytes -> ST E (Z * Z);
  f_sync : ST E Z;
  f_lseek : Z -> ST E Z;
  f_size : ST E Z;
  f_truncate : ST E Z;
  f_stat : bytes -> ST E Z;
  f_unlink : bytes -> ST E Z
}.
Definition FR_OK : Z := 0.
Record fat_codes := mkFatCodes { FR_NO_FILE : Z; FR_NO_PATH : Z; FR_INVALID_OBJECT : Z }.

Record fat_file := mkFatFile { ff_IsOpen : bool; ff_CloseOwed : bool }.
#[export] Instance settable_fat_file : Settable fat_file := fun f => mkFatFile (ff_IsOpen f) (ff_CloseOwed f).

Section fatfs.
Context {E T : Type} `{ErrorTap T} `{FatFs E} (codes : fat_codes).
Definition SolidSyslogFatFsFile : Type := file_object fat_file.
Abbreviation op := (@file_op fat_file E T).

Definition SolidSyslogFatFsFile_Initialise : SolidSyslogFatFsFile := mkFileObject OwnFileVtable (mkFatFile false false).
Definition FatFsFile_Report : Z -> Z -> Z -> op unit := File_Report SolidSyslogFatFsFileErrorSource.
Definition FatFsFile_ReportFailure : Z -> Z -> op unit := File_ReportFailure SolidSyslogFatFsFileErrorSource.
Definition FatFsFile_IsCloseStillOwed (result : Z) : bool := negb (result =? FR_OK) && negb (result =? FR_INVALID_OBJECT codes).
Definition FatFsFile_Close : op unit :=
  let! isOpen := own ff_IsOpen in
  if! isOpen : bool then
    let! result := library f_close in
    set_own (fun self => self <| ff_IsOpen := false |>) ;;;
    set_own (fun self => self <| ff_CloseOwed := FatFsFile_IsCloseStillOwed result |>) ;;;
    if! negb (result =? FR_OK) then FatFsFile_ReportFailure SOLIDSYSLOG_FILE_ERROR_CLOSE_FAILED result end!
  end!.
Definition FatFsFile_SettleOwedClose : op bool :=
  let! owed := own ff_CloseOwed in
  if! owed : bool then
    let! result := library f_close in
    set_own (fun self => self <| ff_CloseOwed := FatFsFile_IsCloseStillOwed result |>) ;;;
    if! FatFsFile_IsCloseStillOwed result then FatFsFile_ReportFailure SOLIDSYSLOG_FILE_ERROR_CLOSE_FAILED result end!
  end! ;;;
  own (fun self => negb (ff_CloseOwed self)).
Definition SolidSyslogFatFsFile_Cleanup : op unit :=
  let! self := own (fun self => self) in
  (if ff_IsOpen self then FatFsFile_Close
   else if! ff_CloseOwed self then let! _ := FatFsFile_SettleOwedClose in st_ret tt end!) ;;;
  set_own (fun self => self <| ff_CloseOwed := false |>) ;;;
  become_null.
Definition FatFsFile_Open (path : bytes) : op bool :=
  let! settled := FatFsFile_SettleOwedClose in
  if settled : bool then
    let! result := library (f_open path) in
    set_own (fun self => self <| ff_IsOpen := result =? FR_OK |>) ;;;
    if! negb (result =? FR_OK) then FatFsFile_ReportFailure SOLIDSYSLOG_FILE_ERROR_OPEN_FAILED result end! ;;;
    own ff_IsOpen
  else st_ret false.
Definition FatFsFile_IsOpen : op bool := own ff_IsOpen.
Definition FatFsFile_Read (count : Z) : op (bool * bytes) :=
  let! answer := library (f_read count) in
  let '(result, bytesRead, buf) := answer in
  if! negb (result =? FR_OK) then FatFsFile_ReportFailure SOLIDSYSLOG_FILE_ERROR_READ_FAILED result end! ;;;
  st_ret ((result =? FR_OK) && (bytesRead =? count), buf).
Definition FatFsFile_Sync : op bool :=
  let! result := library f_sync in
  if! negb (result =? FR_OK) then FatFsFile_ReportFailure SOLIDSYSLOG_FILE_ERROR_SYNC_FAILED result end! ;;;
  st_ret (result =? FR_OK).
Definition FatFsFile_Write (buf : bytes) : op bool :=
  let! answer := library (f_write buf) in
  let wroteAllData := (fst answer =? FR_OK) && (snd answer =? lenZ buf) in
  if wroteAllData then FatFsFile_Sync
  else FatFsFile_ReportFailure SOLIDSYSLOG_FILE_ERROR_WRITE_FAILED (fst answer) ;;; st_ret wroteAllData.
Definition FatFsFile_SeekTo (offset : Z) : op unit :=
  let! result := library (f_lseek offset) in
  if! negb (result =? FR_OK) then FatFsFile_ReportFailure SOLIDSYSLOG_FILE_ERROR_SEEK_FAILED result end!.
Definition FatFsFile_Size : op (bool * Z) :=
  let! size := library f_size in
  st_ret (true, u32 size).
Definition FatFsFile_Truncate : op unit :=
  let! sought := library (f_lseek 0) in
  let! result := if sought =? FR_OK then library f_truncate else st_ret sought in
  if! negb (result =? FR_OK) then FatFsFile_ReportFailure SOLIDSYSLOG_FILE_ERROR_TRUNCATE_FAILED result end!.
Definition FatFsFile_Exists (path : bytes) : op bool :=
  let! result := library (f_stat path) in
  st_ret (result =? FR_OK).
Definition FatFsFile_IsRemovedOrAbsent (result : Z) : bool :=
  (result =? FR_OK) || (result =? FR_NO_FILE codes) || (result =? FR_NO_PATH codes).
Definition FatFsFile_Delete (path : bytes) : op bool :=
  let! result := library (f_unlink path) in
  st_ret (FatFsFile_IsRemovedOrAbsent result).
Definition FatFsFile_vtable : SolidSyslogFile (file_world fat_file E T) := through_vtable {|
  SolidSyslogFile_Open := FatFsFile_Open;
  SolidSyslogFile_Close := FatFsFile_Close;
  SolidSyslogFile_IsOpen := FatFsFile_IsOpen;
  SolidSyslogFile_Read := FatFsFile_Read;
  SolidSyslogFile_Write := FatFsFile_Write;
  SolidSyslogFile_SeekTo := FatFsFile_SeekTo;
  SolidSyslogFile_Size := FatFsFile_Size;
  SolidSyslogFile_Truncate := FatFsFile_Truncate;
  SolidSyslogFile_Exists := FatFsFile_Exists;
  SolidSyslogFile_Delete := FatFsFile_Delete
|}.
End fatfs.

(** * littlefs *)

(** The calls on the one [lfs_file_t] of the adapter, on the mounted file system given;
    each answers a negative code, or what it moved.  [lfs_cache_size] is the field of
    the configuration the mount has. *)
Class LittleFs (E : Type) := {
  lfs_cache_size : Z -> ST E Z;
  lfs_file_opencfg : Z -> bytes -> Z -> ST E Z;
  lfs_file_close : Z -> ST E Z;
  lfs_file_read : Z -> Z -> ST E (Z * bytes);
  lfs_file_write : Z -> bytes -> ST E Z;
  lfs_file_sync : Z -> ST E Z;
  (** from the start *)
  lfs_file_seek : Z -> Z -> ST E Z;
  lfs_file_size : Z -> ST E Z;
  lfs_file_truncate : Z -> Z -> ST E Z;
  lfs_stat : Z -> bytes -> ST E Z;
  lfs_remove : Z -> bytes -> ST E Z
}.
Definition LFS_ERR_OK : Z := 0.

(** Pointers are numbers, null is [None]. *)
Record lfs_file := mkLfsFile { lf_Filesystem : Z; lf_Buffer : Z; lf_IsOpen : bool }.
#[export] Instance settable_lfs_file : Settable lfs_file := fun f => mkLfsFile (lf_Filesystem f) (lf_Buffer f) (lf_IsOpen f).

Section littlefs.
Context {E T : Type} `{ErrorTap T} `{LittleFs E} (LFS_ERR_NOENT : Z).
Definition SolidSyslogLittleFsFile : Type := file_object lfs_file.
Abbreviation op := (@file_op lfs_file E T).

Definition LittleFsFile_Report : Z -> Z -> Z -> op unit := File_Report SolidSyslogLittleFsFileErrorSource.
Definition LittleFsFile_ReportFailure : Z -> Z -> op unit := File_ReportFailure SolidSyslogLittleFsFileErrorSource.
Definition LittleFsFile_IsValidSetup (filesystem fileBuffer : option Z) (fileBufferBytes : Z) : op bool :=
  match filesystem with
  | None =>
      LittleFsFile_Report SOLIDSYSLOG_BAD_CONFIG_FATAL_SEVERITY SOLIDSYSLOG_CAT_BAD_CONFIG SOLIDSYSLOG_FILE_ERROR_NULL_FILESYSTEM ;;;
      st_ret false
  | Some filesystem =>
      let! tooSmall :=
        match fileBuffer with
        | None => st_ret true
        | Some _ => let! cacheSize := library (lfs_cache_size filesystem) in st_ret (fileBufferBytes <? cacheSize)
        end in
      if tooSmall : bool then
        LittleFsFile_Report SOLIDSYSLOG_BAD_CONFIG_FATAL_SEVERITY SOLIDSYSLOG_CAT_BAD_CONFIG SOLIDSYSLOG_FILE_ERROR_BUFFER_TOO_SMALL ;;;
        st_ret false
      else st_ret true
  end.
Definition SolidSyslogLittleFsFile_Initialise (filesystem fileBuffer : option Z) (fileBufferBytes : Z) : op bool :=
  let! valid := LittleFsFile_IsValidSetup filesystem fileBuffer fileBufferBytes in
  become_null ;;;
  (if! valid : bool then
    match filesystem, fileBuffer with
    | Some filesystem, Some fileBuffer =>
        st_mod (fun w => w <| fl_Self := mkFileObject OwnFileVtable (mkLfsFile filesystem fileBuffer false) |>)
    | _, _ => st_ret tt
    end
  end!) ;;;
  st_ret valid.
Definition LittleFsFile_Close : op unit :=
  let! self := own (fun self => self) in
  if! lf_IsOpen self then
    let! result := library (lfs_file_close (lf_Filesystem self)) in
    set_own (fun self => self <| lf_IsOpen := false |>) ;;;
    if! negb (result =? LFS_ERR_OK) then LittleFsFile_ReportFailure SOLIDSYSLOG_FILE_ERROR_CLOSE_FAILED result end!
  end!.
Definition SolidSyslogLittleFsFile_Cleanup : op unit := LittleFsFile_Close ;;; become_null.
Definition LittleFsFile_Open (path : bytes) : op bool :=
  let! self := own (fun self => self) in
  let! result := library (lfs_file_opencfg (lf_Filesystem self) path (lf_Buffer self)) in
  set_own (fun self => self <| lf_IsOpen := result =? LFS_ERR_OK |>) ;;;
  if! negb (result =? LFS_ERR_OK) then LittleFsFile_ReportFailure SOLIDSYSLOG_FILE_ERROR_OPEN_FAILED result end! ;;;
  own lf_IsOpen.
Definition LittleFsFile_IsOpen : op bool := own lf_IsOpen.
Definition LittleFsFile_IsWholeTransfer (transferred count : Z) : bool := (0 <=? transferred) && (transferred =? count).
Definition LittleFsFile_Read (count : Z) : op (bool * bytes) :=
  let! fs := own lf_Filesystem in
  let! answer := library (lfs_file_read fs count) in
  if! fst answer <? 0 then LittleFsFile_ReportFailure SOLIDSYSLOG_FILE_ERROR_READ_FAILED (fst answer) end! ;;;
  st_ret (LittleFsFile_IsWholeTransfer (fst answer) count, snd answer).
Definition LittleFsFile_Sync : op bool :=
  let! fs := own lf_Filesystem in
  let! result := library (lfs_file_sync fs) in
  if! negb (result =? LFS_ERR_OK) then LittleFsFile_ReportFailure SOLIDSYSLOG_FILE_ERROR_SYNC_FAILED result end! ;;;
  st_ret (result =? LFS_ERR_OK).
Definition LittleFsFile_Write (buf : bytes) : op bool :=
  let! fs := own lf_Filesystem in
  let! written := library (lfs_file_write fs buf) in
  let wroteAllData := LittleFsFile_IsWholeTransfer written (lenZ buf) in
  if wroteAllData then LittleFsFile_Sync
  else LittleFsFile_ReportFailure SOLIDSYSLOG_FILE_ERROR_WRITE_FAILED (if written <? 0 then written else LFS_ERR_OK) ;;; st_ret wroteAllData.
Definition LittleFsFile_SeekTo (offset : Z) : op unit :=
  let! fs := own lf_Filesystem in
  let! position := library (lfs_file_seek fs (s32 offset)) in
  if! position <? 0 then LittleFsFile_ReportFailure SOLIDSYSLOG_FILE_ERROR_SEEK_FAILED position end!.
Definition LittleFsFile_Size : op (bool * Z) :=
  let! fs := own lf_Filesystem in
  let! length := library (lfs_file_size fs) in
  let known := 0 <=? length in
  if! negb known then LittleFsFile_ReportFailure SOLIDSYSLOG_FILE_ERROR_SIZE_FAILED length end! ;;;
  st_ret (known, if known then u32 length else 0).
Definition LittleFsFile_SeekToStart : op Z :=
  let! fs := own lf_Filesystem in
  let! position := library (lfs_file_seek fs 0) in
  st_ret (if position <? 0 then position else LFS_ERR_OK).
Definition LittleFsFile_Truncate : op unit :=
  let! fs := own lf_Filesystem in
  let! truncated := library (lfs_file_truncate fs 0) in
  let! result := if truncated =? LFS_ERR_OK then LittleFsFile_SeekToStart else st_ret truncated in
  if! negb (result =? LFS_ERR_OK) then LittleFsFile_ReportFailure SOLIDSYSLOG_FILE_ERROR_TRUNCATE_FAILED result end!.
Definition LittleFsFile_Exists (path : bytes) : op bool :=
  let! fs := own lf_Filesystem in
  let! result := library (lfs_stat fs path) in
  st_ret (result =? LFS_ERR_OK).
Definition LittleFsFile_Delete (path : bytes) : op bool :=
  let! fs := own lf_Filesystem in
  let! result := library (lfs_remove fs path) in
  st_ret ((result =? LFS_ERR_OK) || (result =? LFS_ERR_NOENT)).
Definition LittleFsFile_vtable : SolidSyslogFile (file_world lfs_file E T) := through_vtable {|
  SolidSyslogFile_Open := LittleFsFile_Open;
  SolidSyslogFile_Close := LittleFsFile_Close;
  SolidSyslogFile_IsOpen := LittleFsFile_IsOpen;
  SolidSyslogFile_Read := LittleFsFile_Read;
  SolidSyslogFile_Write := LittleFsFile_Write;
  SolidSyslogFile_SeekTo := LittleFsFile_SeekTo;
  SolidSyslogFile_Size := LittleFsFile_Size;
  SolidSyslogFile_Truncate := LittleFsFile_Truncate;
  SolidSyslogFile_Exists := LittleFsFile_Exists;
  SolidSyslogFile_Delete := LittleFsFile_Delete
|}.
End littlefs.

(** * FreeRTOS-Plus-FAT *)

(** The stdio calls leave the task's error number, the second of the pair;
    [FF_FlushCache] answers its error.  [ff_fopen] in its two modes gives a pointer. *)
Class PlusFat (E : Type) := {
  ff_fopen_existing : bytes -> ST E (option Z * Z);
  ff_fopen_new : bytes -> ST E (option Z * Z);
  ff_fclose : Z -> ST E (Z * Z);
  ff_fread : Z -> Z -> ST E (Z * Z * bytes);
  ff_fwrite : Z -> bytes -> ST E (Z * Z);
  FF_FlushCache : Z -> ST E Z;
  ff_fseek : Z -> Z -> ST E (Z * Z);
  ff_filelength : Z -> ST E (Z * Z);
  ff_seteof : Z -> ST E (Z * Z);
  ff_stat : bytes -> ST E Z;
  ff_remove : bytes -> ST E (Z * Z)
}.
Definition FF_ERR_NONE : Z := 0.
Definition pdFREERTOS_ERRNO_NONE : Z := 0.
Record plus_codes := mkPlusCodes { pdFREERTOS_ERRNO_ENOENT : Z; pdFREERTOS_ERRNO_ENOTDIR : Z }.

Section plusfat.
Context {E T : Type} `{ErrorTap T} `{PlusFat E} (codes : plus_codes).
(** The adapter keeps the pointer; its calls pass it as it is, and none is made of a
    file that is not open. *)
Definition SolidSyslogPlusFatFile : Type := file_object (option Z).
Abbreviation op := (@file_op (option Z) E T).
Definition Fp : op Z := own (fun fp => default 0 fp).

Definition SolidSyslogPlusFatFile_Initialise : SolidSyslogPlusFatFile := mkFileObject OwnFileVtable None.
Definition PlusFatFile_Report : Z -> Z -> Z -> op unit := File_Report SolidSyslogPlusFatFileErrorSource.
Definition PlusFatFile_ReportFailure : Z -> Z -> op unit := File_ReportFailure SolidSyslogPlusFatFileErrorSource.
Definition PlusFatFile_IsFileOpen : op bool := own (fun fp => match fp with None => false | Some _ => true end).
Definition PlusFatFile_Close : op unit :=
  let! isOpen := PlusFatFile_IsFileOpen in
  if! isOpen : bool then
    let! fp := Fp in
    let! answer := library (ff_fclose fp) in
    let closeErrno := if negb (fst answer =? 0) then snd answer else 0 in
    set_own (fun _ => None) ;;;
    if! negb (fst answer =? 0) then PlusFatFile_ReportFailure SOLIDSYSLOG_FILE_ERROR_CLOSE_FAILED closeErrno end!
  end!.
Definition SolidSyslogPlusFatFile_Cleanup : op unit := PlusFatFile_Close ;;; become_null.
Definition PlusFatFile_ErrnoUnlessOpen (taskErrno : Z) : op Z :=
  let! isOpen := PlusFatFile_IsFileOpen in
  st_ret (if isOpen : bool then 0 else taskErrno).
Definition PlusFatFile_IsAbsent (nativeErrno : Z) : bool := nativeErrno =? pdFREERTOS_ERRNO_ENOENT codes.
Definition PlusFatFile_Open (path : bytes) : op bool :=
  let! existing := library (ff_fopen_existing path) in
  set_own (fun _ => fst existing) ;;;
  let! openErrno := PlusFatFile_ErrnoUnlessOpen (snd existing) in
  let! openErrno :=
    if PlusFatFile_IsAbsent openErrno then
      let! created := library (ff_fopen_new path) in
      set_own (fun _ => fst created) ;;;
      PlusFatFile_ErrnoUnlessOpen (snd created)
    else st_ret openErrno in
  let! isOpen := PlusFatFile_IsFileOpen in
  if! negb isOpen then PlusFatFile_ReportFailure SOLIDSYSLOG_FILE_ERROR_OPEN_FAILED openErrno end! ;;;
  PlusFatFile_IsFileOpen.
Definition PlusFatFile_IsOpen : op bool := PlusFatFile_IsFileOpen.
Definition PlusFatFile_Read (count : Z) : op (bool * bytes) :=
  let! fp := Fp in
  let! answer := library (ff_fread fp count) in
  let '(delivered, taskErrno, buf) := answer in
  let readErrno := if delivered =? count then 0 else taskErrno in
  if! negb (readErrno =? 0) then PlusFatFile_ReportFailure SOLIDSYSLOG_FILE_ERROR_READ_FAILED readErrno end! ;;;
  st_ret (delivered =? count, buf).
Definition PlusFatFile_Flush : op bool :=
  let! fp := Fp in
  let! result := library (FF_FlushCache fp) in
  if! negb (result =? FF_ERR_NONE) then PlusFatFile_ReportFailure SOLIDSYSLOG_FILE_ERROR_SYNC_FAILED result end! ;;;
  st_ret (result =? FF_ERR_NONE).
Definition PlusFatFile_Write (buf : bytes) : op bool :=
  let! fp := Fp in
  let! answer := library (ff_fwrite fp buf) in
  let writeErrno := if fst answer =? lenZ buf then 0 else snd answer in
  let wroteAll := fst answer =? lenZ buf in
  if wroteAll then PlusFatFile_Flush
  else PlusFatFile_ReportFailure SOLIDSYSLOG_FILE_ERROR_WRITE_FAILED writeErrno ;;; st_ret wroteAll.
Definition PlusFatFile_SeekTo (offset : Z) : op unit :=
  let! fp := Fp in
  let! answer := library (ff_fseek fp (s32 offset)) in
  let seekErrno := if negb (fst answer =? 0) then snd answer else 0 in
  if! negb (fst answer =? 0) then PlusFatFile_ReportFailure SOLIDSYSLOG_FILE_ERROR_SEEK_FAILED seekErrno end!.
Definition PlusFatFile_Size : op (bool * Z) :=
  let! fp := Fp in
  let! answer := library (ff_filelength fp) in
  let known := snd answer =? pdFREERTOS_ERRNO_NONE in
  if! negb known then PlusFatFile_ReportFailure SOLIDSYSLOG_FILE_ERROR_SIZE_FAILED (snd answer) end! ;;;
  st_ret (known, if known then u32 (fst answer) else 0).
Definition PlusFatFile_Truncate : op unit :=
  let! fp := Fp in
  let! sought := library (ff_fseek fp 0) in
  let! answer := if fst sought =? 0 then library (ff_seteof fp) else st_ret sought in
  let truncateErrno := if negb (fst answer =? 0) then snd answer else 0 in
  if! negb (fst answer =? 0) then PlusFatFile_ReportFailure SOLIDSYSLOG_FILE_ERROR_TRUNCATE_FAILED truncateErrno end!.
Definition PlusFatFile_Exists (path : bytes) : op bool :=
  let! status := library (ff_stat path) in
  st_ret (status =? 0).
Definition PlusFatFile_IsRemovedOrAbsent (status removeErrno : Z) : bool :=
  (status =? 0) || PlusFatFile_IsAbsent removeErrno || (removeErrno =? pdFREERTOS_ERRNO_ENOTDIR codes).
Definition PlusFatFile_Delete (path : bytes) : op bool :=
  let! answer := library (ff_remove path) in
  let removeErrno := if negb (fst answer =? 0) then snd answer else 0 in
  st_ret (PlusFatFile_IsRemovedOrAbsent (fst answer) removeErrno).
Definition PlusFatFile_vtable : SolidSyslogFile (file_world (option Z) E T) := through_vtable {|
  SolidSyslogFile_Open := PlusFatFile_Open;
  SolidSyslogFile_Close := PlusFatFile_Close;
  SolidSyslogFile_IsOpen := PlusFatFile_IsOpen;
  SolidSyslogFile_Read := PlusFatFile_Read;
  SolidSyslogFile_Write := PlusFatFile_Write;
  SolidSyslogFile_SeekTo := PlusFatFile_SeekTo;
  SolidSyslogFile_Size := PlusFatFile_Size;
  SolidSyslogFile_Truncate := PlusFatFile_Truncate;
  SolidSyslogFile_Exists := PlusFatFile_Exists;
  SolidSyslogFile_Delete := PlusFatFile_Delete
|}.
End plusfat.

(** * What the libraries are documented to do *)

(** [fat_files] is the volume as a reader finds it, [fat_place] the file the one object
    holds.  A failed sync leaves the object with FatFs; a remount that discarded it is
    over by the time a call answers [FR_INVALID_OBJECT]. *)
Class FatFsSpec (E : Type) `{FatFs E} (codes : fat_codes) := {
  fat_files : E -> volume;
  fat_media : E -> volume;
  fat_place : E -> option (bytes * Z);
  fat_at (e : E) : file_state := mkFileState (fat_files e) (fat_place e);
  fat_same (e e' : E) : Prop := fat_at e' = fat_at e;
  f_open_law : forall path e, fat_place e = None -> wp (f_open path) (fun r e' => lib_opens path (fat_at e) (r =? FR_OK) (fat_at e')) e;
  f_close_law : forall p e, fat_place e = Some p -> wp f_close (fun r e' => fat_files e' = fat_files e /\
    fat_place e' = if (r =? FR_OK) || (r =? FR_INVALID_OBJECT codes) then None else Some p) e;
  f_read_law : forall path at_ n e, fat_place e = Some (path, at_) -> 0 <= n -> wp (f_read n) (fun r e' =>
    let '(result, bytesRead, bs) := r in
    lenZ bs = bytesRead /\ lenZ bs <= n /\ lib_reads path at_ (fat_at e) n (if result =? FR_OK then Some bs else None) (fat_at e')) e;
  f_write_law : forall path at_ data e, fat_place e = Some (path, at_) -> wp (f_write data) (fun r e' =>
    lib_writes path at_ (fat_at e) data (if fst r =? FR_OK then Some (snd r) else None) (fat_at e')) e;
  f_sync_law : forall path at_ e, fat_place e = Some (path, at_) -> wp f_sync (fun r e' =>
    fat_same e e' /\ (r = FR_OK -> fat_media e' !! path = fat_files e' !! path)) e;
  f_lseek_law : forall path at_ off e, fat_place e = Some (path, at_) -> 0 <= off <= SIZE_MAX -> wp (f_lseek off) (fun r e' =>
    lib_seeks path (fat_at e) true off (r =? FR_OK) (fat_at e')) e;
  f_size_law : forall path at_ e, fat_place e = Some (path, at_) -> is_Some (fat_files e !! path) -> wp f_size (fun n e' => lib_sizes path (fat_at e) (Some n) (fat_at e')) e;
  f_truncate_law : forall path at_ e, fat_place e = Some (path, at_) -> wp f_truncate (fun r e' =>
    lib_trims path at_ (fat_at e) (r =? FR_OK) (fat_at e')) e;
  f_stat_law : forall path e, wp (f_stat path) (fun r e' => fat_same e e' /\ (r = FR_OK -> is_Some (fat_files e !! path))) e;
  f_unlink_law : forall path e, wp (f_unlink path) (fun r e' =>
    fat_place e' = fat_place e /\ lib_removes path (fat_at e) (r =? FR_OK) (fat_files e') /\
    (r = FR_NO_FILE codes \/ r = FR_NO_PATH codes -> fat_files e !! path = None)) e
}.

(** A handle of a mounted file system. *)
Class LittleFsSpec (E : Type) `{LittleFs E} (LFS_ERR_NOENT : Z) (fs : Z) := {
  lfs_files : E -> volume;
  lfs_media : E -> volume;
  lfs_place : E -> option (bytes * Z);
  lfs_at (e : E) : file_state := mkFileState (lfs_files e) (lfs_place e);
  lfs_same (e e' : E) : Prop := lfs_at e' = lfs_at e;
  lfs_cache_law : forall e, wp (lfs_cache_size fs) (fun _ e' => lfs_same e e') e;
  lfs_open_law : forall path buffer e, lfs_place e = None -> wp (lfs_file_opencfg fs path buffer) (fun r e' =>
    lib_opens path (lfs_at e) (r =? LFS_ERR_OK) (lfs_at e')) e;
  lfs_close_law : forall path at_ e, lfs_place e = Some (path, at_) -> wp (lfs_file_close fs) (fun r e' =>
    lfs_place e' = None /\ lib_closes path (lfs_at e) (r =? LFS_ERR_OK) (lfs_files e')) e;
  lfs_read_law : forall path at_ n e, lfs_place e = Some (path, at_) -> 0 <= n -> wp (lfs_file_read fs n) (fun r e' =>
    lenZ (snd r) <= n /\ (0 <= fst r -> lenZ (snd r) = fst r) /\
    lib_reads path at_ (lfs_at e) n (if fst r <? 0 then None else Some (snd r)) (lfs_at e')) e;
  lfs_write_law : forall path at_ data e, lfs_place e = Some (path, at_) -> wp (lfs_file_write fs data) (fun r e' =>
    lib_writes path at_ (lfs_at e) data (if r <? 0 then None else Some r) (lfs_at e')) e;
  lfs_sync_law : forall path at_ e, lfs_place e = Some (path, at_) -> wp (lfs_file_sync fs) (fun r e' =>
    lfs_same e e' /\ (r = LFS_ERR_OK -> lfs_media e' !! path = lfs_files e' !! path)) e;
  lfs_seek_law : forall path at_ off e, lfs_place e = Some (path, at_) -> wp (lfs_file_seek fs off) (fun r e' =>
    (0 <= r -> 0 <= off) /\ lib_seeks path (lfs_at e) false off (negb (r <? 0)) (lfs_at e')) e;
  lfs_size_law : forall path at_ e, lfs_place e = Some (path, at_) -> wp (lfs_file_size fs) (fun r e' =>
    lib_sizes path (lfs_at e) (if r <? 0 then None else Some r) (lfs_at e')) e;
  lfs_truncate_law : forall path at_ e, lfs_place e = Some (path, at_) -> wp (lfs_file_truncate fs 0) (fun r e' =>
    lib_cuts path (lfs_at e) (r =? LFS_ERR_OK) (lfs_at e')) e;
  lfs_stat_law : forall path e, wp (lfs_stat fs path) (fun r e' => lfs_same e e' /\ (r = LFS_ERR_OK -> is_Some (lfs_files e !! path))) e;
  lfs_remove_law : forall path e, wp (lfs_remove fs path) (fun r e' =>
    lfs_place e' = lfs_place e /\ lib_removes path (lfs_at e) (r =? LFS_ERR_OK) (lfs_files e') /\
    (r = LFS_ERR_NOENT -> lfs_files e !! path = None)) e
}.

(** Where the directory can be read: [ff_fopen] of what is there to read and write
    answers [ENOENT] only of what is absent. *)
Class PlusFatSpec (E : Type) `{PlusFat E} (codes : plus_codes) := {
  plus_files : E -> volume;
  plus_place : E -> Z -> option (bytes * Z);
  plus_at (e : E) (fp : Z) : file_state := mkFileState (plus_files e) (plus_place e fp);
  plus_same (e e' : E) : Prop := plus_files e' = plus_files e /\ forall fp, plus_place e' fp = plus_place e fp;
  enoent_is_a_code : pdFREERTOS_ERRNO_ENOENT codes <> 0;
  fopen_existing_law : forall path e, wp (ff_fopen_existing path) (fun r e' => plus_files e' = plus_files e /\
    match fst r with
    | Some fp => is_Some (plus_files e !! path) /\ plus_place e' fp = Some (path, 0)
    | None => snd r = pdFREERTOS_ERRNO_ENOENT codes -> plus_files e !! path = None
    end) e;
  fopen_new_law : forall path e, plus_files e !! path = None -> wp (ff_fopen_new path) (fun r e' =>
    match fst r with
    | Some fp => plus_at e' fp = mkFileState (<[path := []]> (plus_files e)) (Some (path, 0))
    | None => plus_files e' = plus_files e \/ plus_files e' = <[path := []]> (plus_files e)
    end) e;
  fclose_law : forall fp path at_ e, plus_place e fp = Some (path, at_) -> wp (ff_fclose fp) (fun r e' =>
    lib_closes path (plus_at e fp) (fst r =? 0) (plus_files e')) e;
  fread_law : forall fp path at_ n e, plus_place e fp = Some (path, at_) -> 0 <= n -> wp (ff_fread fp n) (fun r e' =>
    let '(delivered, _, bs) := r in lenZ bs = delivered /\ lenZ bs <= n /\ lib_reads path at_ (plus_at e fp) n (Some bs) (plus_at e' fp)) e;
  fwrite_law : forall fp path at_ data e, plus_place e fp = Some (path, at_) -> wp (ff_fwrite fp data) (fun r e' =>
    lib_writes path at_ (plus_at e fp) data (Some (fst r)) (plus_at e' fp)) e;
  FlushCache_law : forall fp e, wp (FF_FlushCache fp) (fun r e' => plus_same e e') e;
  fseek_law : forall fp path at_ off e, plus_place e fp = Some (path, at_) -> wp (ff_fseek fp off) (fun r e' =>
    (fst r = 0 -> 0 <= off) /\ lib_seeks path (plus_at e fp) false off (fst r =? 0) (plus_at e' fp)) e;
  filelength_law : forall fp path at_ e, plus_place e fp = Some (path, at_) -> wp (ff_filelength fp) (fun r e' =>
    lib_sizes path (plus_at e fp) (if snd r =? pdFREERTOS_ERRNO_NONE then Some (fst r) else None) (plus_at e' fp)) e;
  seteof_law : forall fp path at_ e, plus_place e fp = Some (path, at_) -> wp (ff_seteof fp) (fun r e' =>
    lib_trims path at_ (plus_at e fp) (fst r =? 0) (plus_at e' fp)) e;
  ff_stat_law : forall path e, wp (ff_stat path) (fun r e' => plus_same e e' /\ (r = 0 -> is_Some (plus_files e !! path))) e;
  ff_remove_law : forall path e, wp (ff_remove path) (fun r e' =>
    (forall fp, plus_place e' fp = plus_place e fp) /\ lib_removes path (plus_at e 0) (fst r =? 0) (plus_files e') /\
    (fst r <> 0 -> snd r = pdFREERTOS_ERRNO_ENOENT codes \/ snd r = pdFREERTOS_ERRNO_ENOTDIR codes -> plus_files e !! path = None)) e
}.

(** * An adapter of one handle *)

Section adapter.
Context {S E T : Type} `{ErrorTap T} (source : SolidSyslogErrorSource).
(** What the adapter's struct and the library must agree on; the state the two show;
    the library's own state of the handle the struct names. *)
Context (agree : S -> E -> Prop) (view handle : S -> E -> file_state).
Context (Hopen : forall s e p, agree s e -> fs_At (view s e) = Some p ->
  forall e', view s e' = handle s e' /\ (is_Some (fs_At (handle s e')) -> agree s e')).
Abbreviation world := (file_world S E T).
Implicit Types (w : world).
Definition ad_view w : file_state := view (fo_Own (fl_Self w)) (fl_Env w).
Record ad_ok w : Prop := {
  ak_base : fo_Base (fl_Self w) = OwnFileVtable;
  ak_agree : agree (fo_Own (fl_Self w)) (fl_Env w);
  ak_sound : sound (ad_view w)
}.
Abbreviation stepping := (steps ad_ok ad_view fl_Reports).
Abbreviation staying := (stays ad_ok ad_view fl_Reports).

Lemma ad_moves w w' own' e' (step : list SolidSyslogErrorEvent -> file_state -> Prop) rs :
  ad_ok w -> fl_Self w' = (fl_Self w) <| fo_Own := own' |> -> fl_Env w' = e' -> fl_Reports w' = fl_Reports w ++ rs ->
  agree own' e' -> sound (view own' e') -> step rs (view own' e') -> stepping step w w'.
Proof using.
  intros Hw Es Ee Er Ha Hsound Hstep. assert (Ev : ad_view w' = view own' e') by (unfold ad_view; by rewrite Es, Ee).
  split; [split; [rewrite Es; apply Hw | by rewrite Es, Ee | by rewrite Ev] | exists rs; by rewrite Ev].
Qed.
Lemma ad_same w w' : ad_ok w -> fl_Self w' = fl_Self w -> fl_Reports w' = fl_Reports w -> agree (fo_Own (fl_Self w)) (fl_Env w') ->
  view (fo_Own (fl_Self w)) (fl_Env w') = ad_view w -> staying w w'.
Proof using.
  intros Hw Es Er Ha Hv. assert (Ev : ad_view w' = ad_view w) by (unfold ad_view at 1; by rewrite Es).
  split; [split; [rewrite Es; apply Hw | by rewrite Es | rewrite Ev; apply Hw] | done].
Qed.

(** Opening, and closing. *)
Lemma ad_opens path w w' own' e' (ok : bool) code native : ad_ok w ->
  fl_Self w' = (fl_Self w) <| fo_Own := own' |> -> fl_Env w' = e' -> agree own' e' -> lib_opens path (ad_view w) ok (view own' e') ->
  code = SOLIDSYSLOG_FILE_ERROR_OPEN_FAILED \/ code = SOLIDSYSLOG_FILE_ERROR_CLOSE_FAILED ->
  fl_Reports w' = fl_Reports w ++ (if ok then [] else [file_fault source code native]) ->
  stepping (file_opens source path (ad_view w) ok) w w'.
Proof using.
  intros Hw Es Ee Ha HO Hcode Er. eapply ad_moves; [exact Hw | exact Es | exact Ee | exact Er | exact Ha | | by apply opens_of].
  destruct ok; simpl in HO; [rewrite HO; by apply (still_at_insert path 0) | by destruct HO as (files & _ & ->)].
Qed.
Lemma ad_closes path at_ w w' own' e' (ok : bool) native : ad_ok w -> fs_At (ad_view w) = Some (path, at_) ->
  fl_Self w' = (fl_Self w) <| fo_Own := own' |> -> fl_Env w' = e' -> agree own' e' -> fs_At (view own' e') = None ->
  lib_closes path (ad_view w) ok (fs_Files (view own' e')) ->
  fl_Reports w' = fl_Reports w ++ (if ok then [] else [file_fault source SOLIDSYSLOG_FILE_ERROR_CLOSE_FAILED native]) ->
  stepping (file_closes source (ad_view w)) w w'.
Proof using.
  intros Hw Hat Es Ee Ha Hn HC Er. eapply ad_moves; [exact Hw | exact Es | exact Ee | exact Er | exact Ha | |].
  - intros p a. by rewrite Hn.
  - pose proof (closes_of path at_ _ source ok native _ Hat HC) as HF. rewrite <- Hn in HF. by destruct (view own' e').
Qed.
Lemma ad_closed_already w : ad_ok w -> fs_At (ad_view w) = None -> stepping (file_closes source (ad_view w)) w w.
Proof using. intros Hw Hn. split; [done |]. exists []. rewrite app_nil_r. split; [by constructor | done]. Qed.
(** Asking or removing a path: the handle stays. *)
Lemma ad_removes path w w' : ad_ok w -> fl_Self w' = fl_Self w -> agree (fo_Own (fl_Self w)) (fl_Env w') ->
  fs_At (view (fo_Own (fl_Self w)) (fl_Env w')) = fs_At (ad_view w) -> (forall at_, fs_At (ad_view w) <> Some (path, at_)) ->
  forall b : bool, fs_Files (view (fo_Own (fl_Self w)) (fl_Env w')) = (if b then delete path (fs_Files (ad_view w)) else fs_Files (ad_view w)) ->
  fl_Reports w' = fl_Reports w ->
  ad_ok w' /\ fl_Reports w' = fl_Reports w /\ fs_At (ad_view w') = fs_At (ad_view w) /\
  fs_Files (ad_view w') = if b then delete path (fs_Files (ad_view w)) else fs_Files (ad_view w).
Proof using.
  intros Hw Es Ha Hat Hno b Hf Er. assert (Ev : ad_view w' = view (fo_Own (fl_Self w)) (fl_Env w')) by (unfold ad_view at 1; by rewrite Es).
  rewrite Ev, Hat, Hf. split; [| done]. split; [rewrite Es; apply Hw | by rewrite Es |]. rewrite Ev. intros p a. rewrite Hat, Hf. intros Hp.
  destruct (ak_sound _ Hw p a Hp) as [Hz Hs]. split; [done |]. destruct b; [| done]. rewrite lookup_delete_ne; [done |]. intros ->. by apply (Hno a).
Qed.

Section on_open_file.
Context (path : bytes) (at_ : Z) (w : world) (Hw : ad_ok w) (Hat : fs_At (ad_view w) = Some (path, at_)).
Abbreviation self := (fo_Own (fl_Self w)).
Lemma ad_on_volume : is_Some (fs_Files (ad_view w) !! path).
Proof using Hw Hat. by apply (ak_sound _ Hw path at_). Qed.
Lemma ad_handle : handle self (fl_Env w) = ad_view w.
Proof using Hw Hat Hopen. destruct (Hopen _ _ _ (ak_agree _ Hw) Hat (fl_Env w)) as [Hv _]. by rewrite <- Hv. Qed.
(** A call that leaves the handle open, and the reports that followed it. *)
Lemma ad_stays_open w' e' files (step : list SolidSyslogErrorEvent -> file_state -> Prop) rs :
  fl_Self w' = fl_Self w -> fl_Env w' = e' -> fl_Reports w' = fl_Reports w ++ rs ->
  now_at path files (handle self e') -> is_Some (files !! path) -> step rs (handle self e') -> stepping step w w'.
Proof using Hw Hat Hopen.
  intros Es Ee Er Hnow Hf Hstep. destruct (Hopen _ _ _ (ak_agree _ Hw) Hat e') as [Hv Ha]. destruct Hnow as (now & Hnow & En).
  eapply (ad_moves w w' self); [done | by rewrite Es; destruct (fl_Self w) | exact Ee | exact Er | apply Ha; rewrite En; by eexists | |].
  - rewrite Hv, En. by apply still_at_sound.
  - by rewrite Hv.
Qed.
Lemma ad_present b : is_Some ((<[path := b]> (fs_Files (ad_view w))) !! path).
Proof using. rewrite lookup_insert_eq. by eexists. Qed.

(** The outcome of each call, with what the adapter made of it. *)
Context (w' : world) (e' : E) (Es : fl_Self w' = fl_Self w) (Ee : fl_Env w' = e').
Lemma ad_reads n got whole bs native (failed : bool) :
  0 <= n -> lib_reads path at_ (ad_view w) n got (handle self e') -> lenZ bs <= n ->
  (forall g, got = Some g -> whole = (lenZ g =? n) /\ bs = g) -> (got = None -> whole = false) -> (failed = true -> got = None) ->
  fl_Reports w' = fl_Reports w ++ (if failed then [file_fault source SOLIDSYSLOG_FILE_ERROR_READ_FAILED native] else []) ->
  stepping (file_reads source path at_ (ad_view w) n whole bs) w w'.
Proof using Hw Hat Hopen Es Ee.
  intros Hn HR Hl Hsome Hnone Hf Er. eapply ad_stays_open; [exact Es | exact Ee | exact Er | apply HR | apply ad_on_volume |].
  by eapply reads_of; [.. | apply ad_on_volume |].
Qed.
Lemma ad_writes data took e1 (ok : bool) code native :
  lib_writes path at_ (ad_view w) data took (handle self e1) -> handle self e' = handle self e1 ->
  (ok = true -> took = Some (lenZ data)) -> (ok = false -> write_fault code) ->
  fl_Reports w' = fl_Reports w ++ (if ok then [] else [file_fault source code native]) ->
  stepping (file_writes source path at_ (ad_view w) data ok) w w'.
Proof using Hw Hat Hopen Es Ee.
  intros HW Esame Hok Hko Er. pose proof HW as (part & rest & after & Ed & Hover & Hnow & Htook).
  eapply ad_stays_open; [exact Es | exact Ee | exact Er | rewrite Esame; exact Hnow | apply ad_present |]. rewrite Esame.
  destruct ok; [by eapply writes_of; [| apply Hok] | by eapply writes_part_of; [apply Hko |]].
Qed.
Lemma ad_seeks grows off (moved : bool) native :
  0 <= off -> lib_seeks path (ad_view w) grows off moved (handle self e') ->
  fl_Reports w' = fl_Reports w ++ (if moved then [] else [file_fault source SOLIDSYSLOG_FILE_ERROR_SEEK_FAILED native]) ->
  stepping (file_seeks source path (ad_view w) off) w w'.
Proof using Hw Hat Hopen Es Ee.
  intros Hoff HK Er. pose proof (seeks_of _ _ source _ _ _ native _ HK) as HS.
  assert (Hnow : exists files, now_at path files (handle self e') /\ is_Some (files !! path)).
  { destruct moved; simpl in HK; [destruct HK as [HK | (_ & b & after & _ & _ & _ & Hnow)] |].
    - exists (fs_Files (ad_view w)). split; [by exists off | apply ad_on_volume].
    - exists (<[path := after]> (fs_Files (ad_view w))). split; [done | apply ad_present].
    - exists (fs_Files (ad_view w)). split; [done | apply ad_on_volume]. }
  destruct Hnow as (files & Hnow & Hf). by eapply ad_stays_open; [exact Es | exact Ee | exact Er | exact Hnow | exact Hf | exact HS].
Qed.
Lemma ad_sizes size known n native :
  lib_sizes path (ad_view w) size (handle self e') -> (known, n) = match size with Some n => (true, u32 n) | None => (false, 0) end ->
  fl_Reports w' = fl_Reports w ++ (if known then [] else [file_fault source SOLIDSYSLOG_FILE_ERROR_SIZE_FAILED native]) ->
  stepping (file_sizes source path (ad_view w) known n) w w'.
Proof using Hw Hat Hopen Es Ee.
  intros HS Ek Er. pose proof (sizes_of _ _ source _ native _ HS) as HF.
  eapply ad_stays_open; [exact Es | exact Ee | exact Er | apply HS | apply ad_on_volume |].
  destruct size; injection Ek as -> ->; exact HF.
Qed.
Lemma ad_truncates (ok emptied : bool) native :
  now_at path (if emptied then <[path := []]> (fs_Files (ad_view w)) else fs_Files (ad_view w)) (handle self e') -> (ok = true -> emptied = true) ->
  fl_Reports w' = fl_Reports w ++ (if ok then [] else [file_fault source SOLIDSYSLOG_FILE_ERROR_TRUNCATE_FAILED native]) ->
  stepping (file_truncates source path (ad_view w)) w w'.
Proof using Hw Hat Hopen Es Ee.
  intros Hnow Hok Er. eapply ad_stays_open; [exact Es | exact Ee | exact Er | exact Hnow | destruct emptied; [apply ad_present | apply ad_on_volume] |].
  destruct Hnow as (now & Hn & ->). destruct ok; [rewrite Hok by done; by apply truncates_done |].
  apply truncates_failed; [done |]. destruct emptied; [by right | by left].
Qed.
End on_open_file.
End adapter.

Ltac lib_call law := apply wp_library; eapply wp_mono; [by eapply law | cbv beta].
(** What is open names the handle: [Hat] as the library's own place. *)
Ltac on_handle := eapply ad_stays_open; [eassumption | eassumption | eassumption | eassumption | eassumption | ..].

(** * FatFs keeps the contract *)

Section fatfs_contract.
Context {E T : Type} `{ErrorTap T} (codes : fat_codes) `{HF : FatFs E, HL : !FatFsSpec E codes}.
Abbreviation world := (file_world fat_file E T).
Implicit Types (w : world).
Abbreviation source := SolidSyslogFatFsFileErrorSource.

(** What is owed is still with FatFs; nothing else is while the file is closed. *)
Definition fat_agree (s : fat_file) (e : E) : Prop :=
  (ff_IsOpen s = true -> ff_CloseOwed s = false) /\ (is_Some (fat_place e) <-> ff_IsOpen s = true \/ ff_CloseOwed s = true).
Definition fat_view (s : fat_file) (e : E) : file_state := mkFileState (fat_files e) (if ff_IsOpen s then fat_place e else None).
Definition fat_handle (s : fat_file) (e : E) : file_state := fat_at e.
Lemma fat_opened s e p : fat_agree s e -> fs_At (fat_view s e) = Some p ->
  forall e', fat_view s e' = fat_handle s e' /\ (is_Some (fs_At (fat_handle s e')) -> fat_agree s e').
Proof using. unfold fat_view, fat_agree. simpl. destruct s as [[|] [|]]; naive_solver. Qed.
Abbreviation fat_ok := (ad_ok fat_agree fat_view).
Abbreviation shown := (ad_view fat_view).
Definition fat_medium w : volume := fat_media (fl_Env w).
Abbreviation stepping := (steps fat_ok shown fl_Reports).
Abbreviation staying := (stays fat_ok shown fl_Reports).
Ltac fat_run := unfold own, set_own, FatFsFile_ReportFailure; wp_steps.

(** An open file is the object FatFs holds. *)
Lemma fat_open_place w path at_ : fat_ok w -> fs_At (shown w) = Some (path, at_) ->
  ff_IsOpen (fo_Own (fl_Self w)) = true /\ ff_CloseOwed (fo_Own (fl_Self w)) = false /\ fat_place (fl_Env w) = Some (path, at_) /\ shown w = fat_at (fl_Env w).
Proof using.
  intros Hw Hat. destruct (ak_agree _ _ _ Hw) as [Ha _]. unfold ad_view, fat_view in *. simpl in *.
  destruct (ff_IsOpen _); [| done]. split_and!; auto.
Qed.
Lemma fat_IsOpen_iff w : fat_ok w -> ff_IsOpen (fo_Own (fl_Self w)) = bool_decide (is_Some (fs_At (shown w))).
Proof using.
  intros Hw. destruct (ak_agree _ _ _ Hw) as [Ha Hp]. unfold ad_view, fat_view. simpl. destruct (ff_IsOpen _).
  - rewrite bool_decide_eq_true_2; [done |]. apply Hp. by left.
  - by rewrite bool_decide_eq_false_2 by by intros [].
Qed.

Section on_open_file.
Context (path : bytes) (at_ : Z) (w : world) (Hw : fat_ok w) (Hat : fs_At (shown w) = Some (path, at_)).
Abbreviation e0 := (fl_Env w).
Lemma fat_place_here : fat_place e0 = Some (path, at_).
Proof using Hw Hat. by apply fat_open_place. Qed.
Lemma fat_shown : shown w = fat_at e0.
Proof using Hw Hat. by destruct (fat_open_place w path at_ Hw Hat) as (_ & _ & _ & ->). Qed.
Lemma fat_there : is_Some (fat_files e0 !! path).
Proof using Hw Hat. by apply (ak_sound _ _ _ Hw path at_). Qed.

Ltac after lemma := eapply (lemma fat_file E T source fat_agree fat_view fat_handle fat_opened path at_ w Hw Hat).
Lemma FatRead_keeps n : 0 <= n -> wp (FatFsFile_Read n) (fun r w' => stepping (file_reads source path at_ (shown w) n (fst r) (snd r)) w w') w.
Proof using Hw Hat HL.
  intros Hn. unfold FatFsFile_Read. fat_run. apply wp_library. eapply wp_mono; [eapply f_read_law; [apply fat_place_here | done] |]. cbv beta.
  intros [[result bytesRead] bs] e' (Hb & Hl & HR). fat_run. apply wp_report_if. intros w' Es Ee Er. simpl in Es, Ee, Er. wp_steps. cbn [fst snd].
  rewrite <- fat_shown in HR. after @ad_reads; [exact Es | exact Ee | done | exact HR | done | | | | exact Er]; destruct (result =? FR_OK); try done.
  intros g [= <-]. by rewrite Hb.
Qed.
Lemma FatWrite_keeps data :
  wp (FatFsFile_Write data) (fun b w' => stepping (file_writes source path at_ (shown w) data b) w w' /\
    (true = true -> b = true -> fat_medium w' !! path = fs_Files (shown w') !! path)) w.
Proof using Hw Hat HL.
  unfold FatFsFile_Write, FatFsFile_Sync. fat_run. apply wp_library. eapply wp_mono; [eapply f_write_law, fat_place_here |]. cbv beta.
  intros [result n] e' HW. cbn [fst snd] in *. fat_run. rewrite <- fat_shown in HW.
  destruct ((result =? FR_OK) && (n =? lenZ data)) eqn:Ewhole; fat_run.
  - apply andb_prop in Ewhole as [Eok En%Z.eqb_eq]. rewrite Eok, En in HW. pose proof HW as (_ & _ & after & _ & _ & (now & _ & Ev) & _).
    apply wp_library. eapply wp_mono; [eapply f_sync_law; exact (f_equal fs_At Ev) |]. cbv beta. intros r e2 [Hsame Hm]. fat_run.
    apply wp_report_if. intros w' Es Ee Er. simpl in Es, Ee, Er. wp_steps. split.
    + after @ad_writes; [exact Es | exact Ee | exact HW | exact Hsame | done | by right; left |]. rewrite Er. by destruct (r =? FR_OK).
    + intros _ Hr%Z.eqb_eq. unfold fat_medium, ad_view. simpl. rewrite Ee. by apply Hm.
  - apply wp_ReportFailure. intros w' (Es & Ee & Er). wp_steps. split; [| done].
    after @ad_writes; [exact Es | exact Ee | exact HW | done | done | by left | exact Er].
Qed.
Lemma FatSeekTo_keeps off : 0 <= off <= SIZE_MAX ->
  wp (FatFsFile_SeekTo off) (fun _ w' => stepping (file_seeks source path (shown w) off) w w') w.
Proof using Hw Hat HL.
  intros Hoff. unfold FatFsFile_SeekTo. fat_run. apply wp_library. eapply wp_mono; [eapply f_lseek_law; [apply fat_place_here | done] |]. cbv beta.
  intros r e' HK. fat_run. apply wp_report_if. intros w' Es Ee Er. simpl in Es, Ee, Er. rewrite <- fat_shown in HK.
  after @ad_seeks; [exact Es | exact Ee | lia | exact HK |]. rewrite Er. by destruct (r =? FR_OK).
Qed.
Lemma FatSize_keeps : wp FatFsFile_Size (fun r w' => stepping (file_sizes source path (shown w) (fst r) (snd r)) w w') w.
Proof using Hw Hat HL.
  unfold FatFsFile_Size. fat_run. apply wp_library. eapply wp_mono; [eapply f_size_law; [apply fat_place_here | apply fat_there] |]. cbv beta.
  intros n e' HS. wp_steps. rewrite <- fat_shown in HS. after @ad_sizes; [done | done | exact HS | done | by rewrite app_nil_r].
  Unshelve. exact 0.
Qed.
Lemma FatTruncate_keeps : wp FatFsFile_Truncate (fun _ w' => stepping (file_truncates source path (shown w)) w w') w.
Proof using Hw Hat HL.
  unfold FatFsFile_Truncate. fat_run. apply wp_library. eapply wp_mono; [eapply f_lseek_law; [apply fat_place_here | done] |]. cbv beta.
  intros r e1 HK. fat_run. rewrite <- fat_shown in HK. destruct (r =? FR_OK) eqn:Er0; simpl in HK; fat_run.
  - destruct HK as [HK | (_ & b & after & Eb & Hl & _)]; [| pose proof (lenZ_nonneg b); lia].
    apply wp_library. eapply wp_mono; [eapply f_truncate_law; exact (f_equal fs_At HK) |]. cbv beta. intros r2 e2 HT. simpl in HT. rewrite HK in HT. fat_run.
    apply wp_report_if. intros w' Es Ee Er. simpl in Es, Ee, Er.
    eapply (ad_truncates source fat_agree fat_view fat_handle fat_opened path at_ w Hw Hat w' e2 Es Ee (r2 =? FR_OK) (r2 =? FR_OK) r2); [| done | rewrite Er; by destruct (r2 =? FR_OK)].
    destruct (r2 =? FR_OK); simpl in HT; [| exact HT]. destruct HT as (b & Eb & Hnow). by rewrite takeZ_nonpos in Hnow by lia.
  - apply wp_report_if. intros w' Es Ee Er. simpl in Es, Ee, Er. rewrite Er0 in Er.
    by apply (ad_truncates source fat_agree fat_view fat_handle fat_opened path at_ w Hw Hat w' _ Es Ee false false r HK).
Qed.
End on_open_file.

Lemma fat_closed_iff w : fat_ok w -> ff_IsOpen (fo_Own (fl_Self w)) = false -> fs_At (shown w) = None.
Proof using. intros Hw Ec. unfold ad_view, fat_view. by rewrite Ec. Qed.
Lemma FatClose_keeps w : fat_ok w -> wp (FatFsFile_Close codes) (fun _ w' => stepping (file_closes source (shown w)) w w') w.
Proof using HL.
  intros Hw. unfold FatFsFile_Close. fat_run. destruct (ff_IsOpen (fo_Own (fl_Self w))) eqn:Eo; fat_run.
  - destruct (ak_agree _ _ _ Hw) as [_ Hp]. destruct (proj2 Hp (or_introl Eo)) as [[path at_] Epl].
    assert (Hat : fs_At (shown w) = Some (path, at_)) by (unfold ad_view, fat_view; simpl; by rewrite Eo).
    apply wp_library. eapply wp_mono; [eapply f_close_law; exact Epl |]. cbv beta. intros r e' [Ef Ep]. fat_run.
    apply wp_report_if. intros w' Es Ee Er. simpl in Es, Ee, Er.
    eapply (ad_closes source fat_agree fat_view path at_ w w' (mkFatFile false (FatFsFile_IsCloseStillOwed codes r)) e' (r =? FR_OK) r);
      [done | done | by rewrite Es | exact Ee | | done | simpl; rewrite Ef; by destruct (r =? FR_OK) | rewrite Er; by destruct (r =? FR_OK)].
    split; [done |]. rewrite Ep. unfold FatFsFile_IsCloseStillOwed. simpl. destruct (r =? FR_OK), (r =? FR_INVALID_OBJECT codes); simpl; naive_solver.
  - apply ad_closed_already; [done | by apply fat_closed_iff].
Qed.
(** A close that is owed is tried, and what still is stays reported. *)
Lemma FatSettle_keeps w (Q : bool -> world -> Prop) : fat_ok w -> fs_At (shown w) = None ->
  (forall (settled : bool) native w', fat_ok w' -> shown w' = shown w -> (settled = true -> fat_place (fl_Env w') = None) ->
     fl_Reports w' = fl_Reports w ++ (if settled then [] else [file_fault source SOLIDSYSLOG_FILE_ERROR_CLOSE_FAILED native]) -> Q settled w') ->
  wp (FatFsFile_SettleOwedClose codes) Q w.
Proof using HL.
  intros Hw Hn HQ. unfold FatFsFile_SettleOwedClose. fat_run. pose proof (fat_IsOpen_iff w Hw) as Eo. rewrite Hn, bool_decide_eq_false_2 in Eo by by intros [].
  destruct (ak_agree _ _ _ Hw) as [_ Hp]. destruct (ff_CloseOwed (fo_Own (fl_Self w))) eqn:Ew; fat_run.
  - destruct (proj2 Hp (or_intror eq_refl)) as [p Epl]. apply wp_library. eapply wp_mono; [eapply f_close_law; exact Epl |]. cbv beta.
    intros r e' [Ef Ep]. fat_run. apply wp_report_if. intros w' Es Ee Er. simpl in Es, Ee, Er. wp_steps. rewrite Es. cbn.
    assert (Hv : shown w' = shown w) by (unfold ad_view, fat_view; rewrite Es, Ee; simpl; by rewrite Eo, Ef).
    apply (HQ _ r); [split | exact Hv | | by rewrite Er; destruct (FatFsFile_IsCloseStillOwed codes r)].
    + rewrite Es. apply Hw.
    + rewrite Es, Ee. unfold fat_agree. simpl. rewrite Eo, Ep. unfold FatFsFile_IsCloseStillOwed.
      destruct (r =? FR_OK), (r =? FR_INVALID_OBJECT codes); simpl; naive_solver.
    + rewrite Hv. apply Hw.
    + rewrite Ee, Ep. unfold FatFsFile_IsCloseStillOwed. by destruct (r =? FR_OK), (r =? FR_INVALID_OBJECT codes).
  - rewrite Ew. apply (HQ true 0); [done | done | | by rewrite app_nil_r]. intros _. destruct (fat_place (fl_Env w)) eqn:Epl; [| done].
    destruct (proj1 Hp ltac:(by eexists)); congruence.
Qed.
Lemma FatOpen_keeps path w : fat_ok w -> fs_At (shown w) = None ->
  wp (FatFsFile_Open codes path) (fun b w' => stepping (file_opens source path (shown w) b) w w') w.
Proof using HL.
  intros Hw Hn. unfold FatFsFile_Open. wp_steps. apply FatSettle_keeps; [done | done |]. intros settled native w1 Hw1 Hv Hplace Er1. destruct settled; fat_run.
  - specialize (Hplace eq_refl). apply wp_library. eapply wp_mono; [by eapply f_open_law |]. cbv beta. intros r e' HO. fat_run.
    apply wp_report_if. intros w' Es Ee Er. simpl in Es, Ee, Er. wp_steps. rewrite Es. cbn.
    assert (Efiles : fs_Files (fat_at (fl_Env w1)) = fs_Files (shown w)) by (by rewrite <- Hv).
    unfold lib_opens in HO. rewrite Efiles in HO. change (lib_opens path (shown w) (r =? FR_OK) (fat_at e')) in HO.
    rewrite app_nil_r in Er1. rewrite Er1 in Er.
    assert (Eo : ff_IsOpen (fo_Own (fl_Self w1)) = false) by (rewrite (fat_IsOpen_iff w1 Hw1), Hv, Hn; by rewrite bool_decide_eq_false_2 by by intros []).
    assert (Ec : ff_CloseOwed (fo_Own (fl_Self w1)) = false).
    { destruct (ak_agree _ _ _ Hw1) as [_ Hp]. destruct (ff_CloseOwed _); [| done]. rewrite Hplace in Hp. by destruct (proj2 Hp (or_intror eq_refl)). }
    set (own' := mkFatFile (r =? FR_OK) false).
    assert (Es' : fl_Self w' = (fl_Self w) <| fo_Own := own' |>).
    { pose proof (ak_base _ _ _ Hw1) as B1. pose proof (ak_base _ _ _ Hw) as B. rewrite Es. unfold own'.
      destruct (fl_Self w1) as [b1 [o1 c1]], (fl_Self w) as [b o]. simpl in *. by subst. }
    assert (Hv' : fat_view own' e' = fat_at e').
    { unfold fat_view, own', fat_at. simpl. destruct (r =? FR_OK); [done |]. simpl in HO. destruct HO as (files & _ & Ev). by rewrite (f_equal fs_At Ev : fat_place e' = None). }
    eapply (ad_opens source fat_agree fat_view path w w' own' e' (r =? FR_OK) _ r); [done | exact Es' | exact Ee | | by rewrite Hv' | by left | by rewrite Er; destruct (r =? FR_OK)].
    unfold fat_agree, own'. simpl. split; [done |]. destruct (r =? FR_OK); simpl in HO.
    + rewrite (f_equal fs_At HO : fat_place e' = Some (path, 0)). split; [by left | by eexists].
    + destruct HO as (files & _ & Ev). rewrite (f_equal fs_At Ev : fat_place e' = None). split; [by intros [] | by intros []].
  - split; [done |]. exists [file_fault source SOLIDSYSLOG_FILE_ERROR_CLOSE_FAILED native]. split; [| done]. rewrite Hv.
    replace (shown w) with (mkFileState (fs_Files (shown w)) None) at 2 by (destruct (shown w); simpl in *; by subst).
    constructor; [by right | by left].
Qed.
Lemma FatIsOpen_keeps w : fat_ok w -> wp FatFsFile_IsOpen (fun b w' => staying w w' /\ b = bool_decide (is_Some (fs_At (shown w)))) w.
Proof using. intros Hw. unfold FatFsFile_IsOpen. fat_run. split; [done | by apply fat_IsOpen_iff]. Qed.
Lemma FatExists_keeps path w : fat_ok w ->
  wp (FatFsFile_Exists path) (fun b w' => staying w w' /\ (b = true -> is_Some (fs_Files (shown w) !! path))) w.
Proof using HL.
  intros Hw. unfold FatFsFile_Exists. wp_steps. apply wp_library. eapply wp_mono; [apply f_stat_law |]. cbv beta. intros r e' [Hsame Hr]. wp_steps.
  split; [| intros Hb%Z.eqb_eq; by apply Hr]. pose proof (f_equal fs_At Hsame : fat_place e' = _) as Ep. pose proof (f_equal fs_Files Hsame : fat_files e' = _) as Ef.
  apply ad_same; [done | done | done | |]; simpl.
  - pose proof (ak_agree _ _ _ Hw) as Ha. unfold fat_agree in *. simpl. by rewrite Ep.
  - unfold ad_view, fat_view. simpl. by rewrite Ep, Ef.
Qed.
Lemma FatDelete_keeps path w : fat_ok w -> (forall at_, fs_At (shown w) <> Some (path, at_)) ->
  wp (FatFsFile_Delete codes path) (fun b w' => fat_ok w' /\ fl_Reports w' = fl_Reports w /\ fs_At (shown w') = fs_At (shown w) /\
    fs_Files (shown w') = if b : bool then delete path (fs_Files (shown w)) else fs_Files (shown w)) w.
Proof using HL.
  intros Hw Hno. unfold FatFsFile_Delete. wp_steps. apply wp_library. eapply wp_mono; [apply f_unlink_law |]. cbv beta. intros r e' (Ep & Hrem & Habs). wp_steps.
  apply ad_removes; [done | done | | | done | | done]; simpl.
  - pose proof (ak_agree _ _ _ Hw) as Ha. unfold fat_agree in *. simpl. by rewrite Ep.
  - unfold ad_view, fat_view. simpl. by rewrite Ep.
  - rewrite Hrem. unfold FatFsFile_IsRemovedOrAbsent, ad_view, fat_view. simpl. destruct (r =? FR_OK); simpl; [done |].
    destruct (_ || _) eqn:Er; [| done]. rewrite delete_id; [done |]. apply Habs. lia.
Qed.

Lemma fat_file_keeps : file_contract source (FatFsFile_vtable codes) fat_ok shown fl_Reports true fat_medium.
Proof using HL.
  apply through_vtable_keeps; [intros w; apply ak_base |]. split; simpl.
  - intros w. apply ak_sound.
  - apply FatOpen_keeps.
  - apply FatClose_keeps.
  - apply FatIsOpen_keeps.
  - intros n path at_ w Hw Hat Hn. by apply FatRead_keeps.
  - intros data path at_ w Hw Hat. by apply FatWrite_keeps.
  - intros off path at_ w Hw Hat Hoff. by eapply FatSeekTo_keeps.
  - intros path at_ w Hw Hat. by eapply FatSize_keeps.
  - intros path at_ w Hw Hat. by eapply FatTruncate_keeps.
  - apply FatExists_keeps.
  - apply FatDelete_keeps.
Qed.
End fatfs_contract.

(** * littlefs keeps the contract *)

Section littlefs_contract.
Context {E T : Type} `{ErrorTap T} (LFS_ERR_NOENT fs : Z) `{HF : LittleFs E, HL : !LittleFsSpec E LFS_ERR_NOENT fs}.
Abbreviation world := (file_world lfs_file E T).
Implicit Types (w : world).
Abbreviation source := SolidSyslogLittleFsFileErrorSource.

Definition lfs_agree (s : lfs_file) (e : E) : Prop := lf_Filesystem s = fs /\ (is_Some (lfs_place e) <-> lf_IsOpen s = true).
Definition lfs_view (s : lfs_file) (e : E) : file_state := lfs_at e.
Lemma lfs_opened s e p : lfs_agree s e -> fs_At (lfs_view s e) = Some p ->
  forall e', lfs_view s e' = lfs_view s e' /\ (is_Some (fs_At (lfs_view s e')) -> lfs_agree s e').
Proof using. intros [Ef Ho] Hp e'. split; [done |]. intros Hs. split; [done |]. split; [| done]. intros _. apply Ho. by eexists. Qed.
Abbreviation lfs_ok := (ad_ok lfs_agree lfs_view).
Abbreviation shown := (ad_view lfs_view).
Definition lfs_medium w : volume := lfs_media (fl_Env w).
Abbreviation stepping := (steps lfs_ok shown fl_Reports).
Abbreviation staying := (stays lfs_ok shown fl_Reports).
Ltac lfs_run := unfold own, set_own, LittleFsFile_ReportFailure, LFS_ERR_OK; wp_steps.

Lemma lfs_filesystem w : lfs_ok w -> lf_Filesystem (fo_Own (fl_Self w)) = fs.
Proof using. intros Hw. apply (ak_agree _ _ _ Hw). Qed.
Lemma lfs_IsOpen_iff w : lfs_ok w -> lf_IsOpen (fo_Own (fl_Self w)) = bool_decide (is_Some (fs_At (shown w))).
Proof using.
  intros Hw. destruct (ak_agree _ _ _ Hw) as [_ Ho]. destruct (lf_IsOpen _).
  - symmetry. apply bool_decide_eq_true. by apply Ho.
  - symmetry. apply bool_decide_eq_false. intros Hs. by apply Ho in Hs.
Qed.
Lemma lfs_same_agree w e' : lfs_ok w -> lfs_place e' = lfs_place (fl_Env w) -> lfs_agree (fo_Own (fl_Self w)) e'.
Proof using. intros Hw Ep. pose proof (ak_agree _ _ _ Hw) as Ha. unfold lfs_agree in *. by rewrite Ep. Qed.

Section on_open_file.
Context (path : bytes) (at_ : Z) (w : world) (Hw : lfs_ok w) (Hat : fs_At (shown w) = Some (path, at_)).
Ltac after lemma := eapply (lemma lfs_file E T source lfs_agree lfs_view lfs_view lfs_opened path at_ w Hw Hat).
Ltac lfs_calls law := rewrite ?lfs_filesystem by done; apply wp_library; eapply wp_mono; [by eapply law | cbv beta].

Lemma LittleRead_keeps n : 0 <= n -> wp (LittleFsFile_Read n) (fun r w' => stepping (file_reads source path at_ (shown w) n (fst r) (snd r)) w w') w.
Proof using Hw Hat HL.
  intros Hn. unfold LittleFsFile_Read, LittleFsFile_IsWholeTransfer. lfs_run. lfs_calls lfs_read_law. intros [r bs] e' (Hl & Hb & HR). cbn [fst snd] in *. lfs_run.
  apply wp_report_if. intros w' Es Ee Er. simpl in Es, Ee, Er. wp_steps. cbn [fst snd].
  after @ad_reads; [exact Es | exact Ee | done | exact HR | done | | | | exact Er]; destruct (Z.ltb_spec r 0); try done.
  - intros g [= <-]. rewrite Hb by done. split; [lia | done].
  - intros _. lia.
Qed.
Lemma LittleWrite_keeps data :
  wp (LittleFsFile_Write data) (fun b w' => stepping (file_writes source path at_ (shown w) data b) w w' /\
    (true = true -> b = true -> lfs_medium w' !! path = fs_Files (shown w') !! path)) w.
Proof using Hw Hat HL.
  unfold LittleFsFile_Write, LittleFsFile_Sync, LittleFsFile_IsWholeTransfer. lfs_run. lfs_calls lfs_write_law. intros n e' HW. lfs_run.
  destruct ((0 <=? n) && (n =? lenZ data)) eqn:Ewhole; lfs_run.
  - assert (Ht : (if n <? 0 then None else Some n) = Some (lenZ data)) by (destruct (Z.ltb_spec n 0); [lia | f_equal; lia]).
    pose proof HW as (_ & _ & after & _ & _ & (now & _ & Ev) & _). simpl. rewrite lfs_filesystem by done.
    apply wp_library. eapply wp_mono; [eapply lfs_sync_law; exact (f_equal fs_At Ev) |]. cbv beta. intros r e2 [Hsame Hm]. lfs_run.
    apply wp_report_if. intros w' Es Ee Er. simpl in Es, Ee, Er. wp_steps. split.
    + after @ad_writes; [exact Es | exact Ee | exact HW | exact Hsame | done | by right; left |]. rewrite Er. by destruct (r =? 0).
    + intros _ Hr%Z.eqb_eq. unfold lfs_medium, ad_view. rewrite Ee. by apply Hm.
  - apply wp_ReportFailure. intros w' (Es & Ee & Er). wp_steps. split; [| done].
    after @ad_writes; [exact Es | exact Ee | exact HW | done | done | by left | exact Er].
Qed.
Lemma LittleSeekTo_keeps off : 0 <= off <= SIZE_MAX ->
  wp (LittleFsFile_SeekTo off) (fun _ w' => stepping (file_seeks source path (shown w) off) w w') w.
Proof using Hw Hat HL.
  intros Hoff. unfold LittleFsFile_SeekTo. lfs_run. lfs_calls lfs_seek_law. intros r e' [Hr HK]. lfs_run.
  apply wp_report_if. intros w' Es Ee Er. simpl in Es, Ee, Er.
  assert (HK' : lib_seeks path (shown w) false off (negb (r <? 0)) (lfs_view (fo_Own (fl_Self w)) e')).
  { unfold s32 in *. destruct (Z.leb_spec off (2 ^ 31 - 1)); [done |]. destruct (Z.ltb_spec r 0); [done |]. unfold SIZE_MAX in *. lia. }
  after @ad_seeks; [exact Es | exact Ee | lia | exact HK' |]. rewrite Er. by destruct (r <? 0).
Qed.
Lemma LittleSize_keeps : wp LittleFsFile_Size (fun r w' => stepping (file_sizes source path (shown w) (fst r) (snd r)) w w') w.
Proof using Hw Hat HL.
  unfold LittleFsFile_Size. lfs_run. lfs_calls lfs_size_law. intros r e' HS. lfs_run. apply wp_report_if. intros w' Es Ee Er. simpl in Es, Ee, Er. wp_steps.
  after @ad_sizes; [exact Es | exact Ee | exact HS | | rewrite Er; by destruct (0 <=? r)].
  cbn [fst snd]. destruct (Z.ltb_spec r 0), (Z.leb_spec 0 r); try done; lia.
Qed.
Lemma LittleTruncate_keeps : wp LittleFsFile_Truncate (fun _ w' => stepping (file_truncates source path (shown w)) w w') w.
Proof using Hw Hat HL.
  unfold LittleFsFile_Truncate, LittleFsFile_SeekToStart. lfs_run. lfs_calls lfs_truncate_law. intros r e1 HC. lfs_run.
  unfold lib_cuts, LFS_ERR_OK in HC. destruct (r =? 0) eqn:Er0; lfs_run.
  - simpl. rewrite lfs_filesystem by done. pose proof HC as (now & Hnow & Ev).
    apply wp_library. eapply wp_mono; [eapply lfs_seek_law; exact (f_equal fs_At Ev) |]. cbv beta. intros r2 e2 [_ HK]. simpl in HK. rewrite Ev in HK. lfs_run.
    apply wp_report_if. intros w' Es Ee Er. simpl in Es, Ee, Er.
    eapply (ad_truncates source lfs_agree lfs_view lfs_view lfs_opened path at_ w Hw Hat w' e2 Es Ee (negb (r2 <? 0)) true r2); [| done |].
    + destruct (r2 <? 0); simpl in HK; [exact HK |]. destruct HK as [HK | [Hg _]]; [exists 0; split; [done | exact HK] | done].
    + rewrite Er. destruct (Z.ltb_spec r2 0); [| done]. replace (r2 =? 0) with false by lia. done.
  - apply wp_report_if. intros w' Es Ee Er. simpl in Es, Ee, Er. rewrite Er0 in Er.
    by apply (ad_truncates source lfs_agree lfs_view lfs_view lfs_opened path at_ w Hw Hat w' _ Es Ee false false r HC).
Qed.
End on_open_file.

Lemma LittleOpen_keeps path w : lfs_ok w -> fs_At (shown w) = None ->
  wp (LittleFsFile_Open path) (fun b w' => stepping (file_opens source path (shown w) b) w w') w.
Proof using HL.
  intros Hw Hn. unfold LittleFsFile_Open. lfs_run. rewrite lfs_filesystem by done. apply wp_library. eapply wp_mono; [by eapply lfs_open_law |].
  cbv beta. intros r e' HO. lfs_run. apply wp_report_if. intros w' Es Ee Er. simpl in Es, Ee, Er. wp_steps. rewrite Es. cbn.
  unfold LFS_ERR_OK in HO.
  eapply (ad_opens source lfs_agree lfs_view path w w' ((fo_Own (fl_Self w)) <| lf_IsOpen := r =? 0 |>) e' (r =? 0) _ r);
    [done | by rewrite Es | exact Ee | | exact HO | by left | by rewrite Er; destruct (r =? 0)].
  split; [by apply lfs_filesystem |]. simpl. destruct (r =? 0); simpl in HO.
  - rewrite (f_equal fs_At HO : lfs_place e' = _). simpl. split; [done | by eexists].
  - destruct HO as (files & _ & Ev). rewrite (f_equal fs_At Ev : lfs_place e' = None). split; [by intros [] | done].
Qed.
Lemma LittleClose_keeps w : lfs_ok w -> wp LittleFsFile_Close (fun _ w' => stepping (file_closes source (shown w)) w w') w.
Proof using HL.
  intros Hw. unfold LittleFsFile_Close. lfs_run. pose proof (lfs_IsOpen_iff w Hw) as Eo. destruct (lf_IsOpen _); lfs_run.
  - symmetry in Eo. apply bool_decide_eq_true in Eo as [[path at_] Hat]. rewrite lfs_filesystem by done.
    apply wp_library. eapply wp_mono; [by eapply lfs_close_law |]. cbv beta. intros r e' [Ep HC]. lfs_run. apply wp_report_if. intros w' Es Ee Er. simpl in Es, Ee, Er.
    eapply (ad_closes source lfs_agree lfs_view path at_ w w' ((fo_Own (fl_Self w)) <| lf_IsOpen := false |>) e' (r =? 0) r);
      [done | done | by rewrite Es | exact Ee | | exact Ep | exact HC | by rewrite Er; destruct (r =? 0)].
    split; [by apply lfs_filesystem |]. rewrite Ep. by split; [intros [] |].
  - symmetry in Eo. apply bool_decide_eq_false in Eo. apply ad_closed_already; [done |]. destruct (fs_At (shown w)); [| done]. by destruct Eo; eexists.
Qed.
Lemma LittleExists_keeps path w : lfs_ok w ->
  wp (LittleFsFile_Exists path) (fun b w' => staying w w' /\ (b = true -> is_Some (fs_Files (shown w) !! path))) w.
Proof using HL.
  intros Hw. unfold LittleFsFile_Exists. lfs_run. rewrite lfs_filesystem by done. apply wp_library. eapply wp_mono; [apply lfs_stat_law |].
  cbv beta. intros r e' [Hsame Hr]. lfs_run. split; [| intros Hb%Z.eqb_eq; by apply Hr].
  apply ad_same; [done | done | done | by apply lfs_same_agree; [| exact (f_equal fs_At Hsame)] | exact Hsame].
Qed.
Lemma LittleDelete_keeps path w : lfs_ok w -> (forall at_, fs_At (shown w) <> Some (path, at_)) ->
  wp (LittleFsFile_Delete LFS_ERR_NOENT path) (fun b w' => lfs_ok w' /\ fl_Reports w' = fl_Reports w /\ fs_At (shown w') = fs_At (shown w) /\
    fs_Files (shown w') = if b : bool then delete path (fs_Files (shown w)) else fs_Files (shown w)) w.
Proof using HL.
  intros Hw Hno. unfold LittleFsFile_Delete. lfs_run. rewrite lfs_filesystem by done. apply wp_library. eapply wp_mono; [apply lfs_remove_law |].
  cbv beta. intros r e' (Ep & Hrem & Habs). lfs_run. apply ad_removes; [done | done | by apply lfs_same_agree | exact Ep | done | | done]. simpl.
  rewrite Hrem. unfold LFS_ERR_OK. destruct (r =? 0); simpl; [done |]. destruct (Z.eqb_spec r LFS_ERR_NOENT); [| done]. by rewrite delete_id by by apply Habs.
Qed.
Lemma little_file_keeps : file_contract source (LittleFsFile_vtable LFS_ERR_NOENT) lfs_ok shown fl_Reports true lfs_medium.
Proof using HL.
  apply through_vtable_keeps; [intros w; apply ak_base |]. split; simpl.
  - intros w. apply ak_sound.
  - apply LittleOpen_keeps.
  - apply LittleClose_keeps.
  - intros w Hw. unfold LittleFsFile_IsOpen. lfs_run. split; [done | by apply lfs_IsOpen_iff].
  - intros n path at_ w Hw Hat Hn. by apply LittleRead_keeps.
  - intros data path at_ w Hw Hat. by apply LittleWrite_keeps.
  - intros off path at_ w Hw Hat Hoff. by eapply LittleSeekTo_keeps.
  - intros path at_ w Hw Hat. by eapply LittleSize_keeps.
  - intros path at_ w Hw Hat. by eapply LittleTruncate_keeps.
  - apply LittleExists_keeps.
  - apply LittleDelete_keeps.
Qed.
End littlefs_contract.

(** * FreeRTOS-Plus-FAT keeps the contract *)

Section plusfat_contract.
Context {E T : Type} `{ErrorTap T} (codes : plus_codes) `{HF : PlusFat E, HL : !PlusFatSpec E codes}.
Abbreviation world := (file_world (option Z) E T).
Implicit Types (w : world).
Abbreviation source := SolidSyslogPlusFatFileErrorSource.

Definition plus_agree (s : option Z) (e : E) : Prop := forall fp, s = Some fp -> is_Some (plus_place e fp).
Definition plus_handle (s : option Z) (e : E) : file_state := plus_at e (default 0 s).
Definition plus_view (s : option Z) (e : E) : file_state := mkFileState (plus_files e) (match s with Some fp => plus_place e fp | None => None end).
Lemma plus_opened s e p : plus_agree s e -> fs_At (plus_view s e) = Some p ->
  forall e', plus_view s e' = plus_handle s e' /\ (is_Some (fs_At (plus_handle s e')) -> plus_agree s e').
Proof using. destruct s as [fp |]; simpl; [| done]. intros _ _ e'. split; [done |]. intros Hs fp' [= <-]. exact Hs. Qed.
Abbreviation plus_ok := (ad_ok plus_agree plus_view).
Abbreviation shown := (ad_view plus_view).
Abbreviation stepping := (steps plus_ok shown fl_Reports).
Abbreviation staying := (stays plus_ok shown fl_Reports).
Ltac plus_run := unfold PlusFatFile_IsFileOpen, Fp, own, set_own, PlusFatFile_ReportFailure; wp_steps.
Ltac plus_calls law := apply wp_library; eapply wp_mono; [by eapply law | cbv beta].

Lemma plus_IsOpen_iff w : plus_ok w -> match fo_Own (fl_Self w) with None => false | Some _ => true end = bool_decide (is_Some (fs_At (shown w))).
Proof using.
  intros Hw. pose proof (ak_agree _ _ _ Hw) as Ha. unfold ad_view, plus_view. simpl. destruct (fo_Own _) as [fp |].
  - symmetry. apply bool_decide_eq_true. by apply Ha.
  - by rewrite bool_decide_eq_false_2 by by intros [].
Qed.
(** Nothing is committed by the flush: the size is in the directory entry, which a
    close writes. *)
Definition no_medium w : volume := plus_files (fl_Env w).

Section on_open_file.
Context (path : bytes) (at_ : Z) (w : world) (Hw : plus_ok w) (Hat : fs_At (shown w) = Some (path, at_)).
Ltac after lemma := eapply (lemma (option Z) E T source plus_agree plus_view plus_handle plus_opened path at_ w Hw Hat).
Lemma plus_place_here : plus_place (fl_Env w) (default 0 (fo_Own (fl_Self w))) = Some (path, at_).
Proof using Hat. unfold ad_view, plus_view in Hat. simpl in Hat. by destruct (fo_Own _). Qed.
Lemma plus_shown : shown w = plus_at (fl_Env w) (default 0 (fo_Own (fl_Self w))).
Proof using Hw Hat. by destruct (plus_opened _ _ _ (ak_agree _ _ _ Hw) Hat (fl_Env w)). Qed.

Lemma PlusRead_keeps n : 0 <= n -> wp (PlusFatFile_Read n) (fun r w' => stepping (file_reads source path at_ (shown w) n (fst r) (snd r)) w w') w.
Proof using Hw Hat HL.
  intros Hn. unfold PlusFatFile_Read. plus_run. apply wp_library. eapply wp_mono; [eapply fread_law; [apply plus_place_here | done] |]. cbv beta.
  intros [[delivered err] bs] e' (Hb & Hl & HR). plus_run. apply wp_report_if. intros w' Es Ee Er. simpl in Es, Ee, Er. wp_steps. cbn [fst snd].
  rewrite <- plus_shown in HR. set (readErrno := if delivered =? n then 0 else err) in *.
  assert (HR' : lib_reads path at_ (shown w) n (if negb (readErrno =? 0) then None else Some bs) (plus_handle (fo_Own (fl_Self w)) e')).
  { split; [apply HR |]. intros g Hg. apply HR. by destruct (negb _). }
  after @ad_reads; [exact Es | exact Ee | done | exact HR' | done | | | | exact Er].
  - intros g Hg. destruct (negb _); [done |]. injection Hg as <-. by rewrite Hb.
  - intros Hg. destruct (negb _) eqn:En; [| done]. unfold readErrno in En. by destruct (delivered =? n).
  - intros Hf. by rewrite Hf.
Qed.
Lemma PlusWrite_keeps data :
  wp (PlusFatFile_Write data) (fun b w' => stepping (file_writes source path at_ (shown w) data b) w w' /\
    (false = true -> b = true -> no_medium w' !! path = fs_Files (shown w') !! path)) w.
Proof using Hw Hat HL.
  unfold PlusFatFile_Write, PlusFatFile_Flush. plus_run. apply wp_library. eapply wp_mono; [eapply fwrite_law, plus_place_here |]. cbv beta.
  intros [n err] e' HW. cbn [fst snd] in *. plus_run. rewrite <- plus_shown in HW. destruct (Z.eqb_spec n (lenZ data)) as [-> | Hne]; plus_run.
  - apply wp_library. eapply wp_mono; [apply FlushCache_law |]. cbv beta. intros r e2 [Hf Hp]. plus_run.
    apply wp_report_if. intros w' Es Ee Er. simpl in Es, Ee, Er. wp_steps. split; [| done].
    assert (Hsame : plus_handle (fo_Own (fl_Self w)) e2 = plus_handle (fo_Own (fl_Self w)) e') by (unfold plus_handle, plus_at; by rewrite Hf, Hp).
    after @ad_writes; [exact Es | exact Ee | exact HW | exact Hsame | done | by right; left |]. rewrite Er. by destruct (r =? FF_ERR_NONE).
  - apply wp_ReportFailure. intros w' (Es & Ee & Er). wp_steps. split; [| done].
    after @ad_writes; [exact Es | exact Ee | exact HW | done | done | by left | exact Er].
Qed.
Lemma PlusSeekTo_keeps off : 0 <= off <= SIZE_MAX ->
  wp (PlusFatFile_SeekTo off) (fun _ w' => stepping (file_seeks source path (shown w) off) w w') w.
Proof using Hw Hat HL.
  intros Hoff. unfold PlusFatFile_SeekTo. plus_run. apply wp_library. eapply wp_mono; [eapply fseek_law, plus_place_here |]. cbv beta.
  intros [r err] e' [Hr HK]. cbn [fst snd] in *. plus_run. apply wp_report_if. intros w' Es Ee Er. simpl in Es, Ee, Er. rewrite <- plus_shown in HK.
  assert (HK' : lib_seeks path (shown w) false off (r =? 0) (plus_handle (fo_Own (fl_Self w)) e')).
  { unfold s32 in *. destruct (Z.leb_spec off (2 ^ 31 - 1)); [done |]. destruct (Z.eqb_spec r 0); [| done]. unfold SIZE_MAX in *. lia. }
  after @ad_seeks; [exact Es | exact Ee | lia | exact HK' |]. rewrite Er. by destruct (r =? 0).
Qed.
Lemma PlusSize_keeps : wp PlusFatFile_Size (fun r w' => stepping (file_sizes source path (shown w) (fst r) (snd r)) w w') w.
Proof using Hw Hat HL.
  unfold PlusFatFile_Size. plus_run. apply wp_library. eapply wp_mono; [eapply filelength_law, plus_place_here |]. cbv beta.
  intros [n err] e' HS. cbn [fst snd] in *. plus_run. apply wp_report_if. intros w' Es Ee Er. simpl in Es, Ee, Er. wp_steps. rewrite <- plus_shown in HS.
  after @ad_sizes; [exact Es | exact Ee | exact HS | | rewrite Er; by destruct (err =? _)]. by destruct (err =? _).
Qed.
Lemma PlusTruncate_keeps : wp PlusFatFile_Truncate (fun _ w' => stepping (file_truncates source path (shown w)) w w') w.
Proof using Hw Hat HL.
  unfold PlusFatFile_Truncate. plus_run. apply wp_library. eapply wp_mono; [eapply fseek_law, plus_place_here |]. cbv beta.
  intros [r err] e1 [_ HK]. cbn [fst snd] in *. plus_run. rewrite <- plus_shown in HK. destruct (r =? 0) eqn:Er0; simpl in HK; plus_run.
  - destruct HK as [HK | [Hg _]]; [| done].
    apply wp_library. eapply wp_mono; [eapply seteof_law; exact (f_equal fs_At HK) |]. cbv beta. intros [r2 err2] e2 HT. simpl in HT. rewrite HK in HT. plus_run.
    apply wp_report_if. intros w' Es Ee Er. simpl in Es, Ee, Er.
    eapply (ad_truncates source plus_agree plus_view plus_handle plus_opened path at_ w Hw Hat w' e2 Es Ee (r2 =? 0) (r2 =? 0)); [| done | rewrite Er; by destruct (r2 =? 0)].
    destruct (r2 =? 0); simpl in HT; [| exact HT]. destruct HT as (b & Eb & Hnow). by rewrite takeZ_nonpos in Hnow by lia.
  - apply wp_report_if. intros w' Es Ee Er. simpl in Es, Ee, Er. rewrite Er0 in Er.
    apply (ad_truncates source plus_agree plus_view plus_handle plus_opened path at_ w Hw Hat w' _ Es Ee false false (if negb false then err else 0) HK); [done | exact Er].
Qed.
End on_open_file.

(** After the last [ff_fopen]: what it opened, or the report. *)
Lemma plus_after_open path w w' own' e' native : plus_ok w -> fl_Self w' = (fl_Self w) <| fo_Own := own' |> -> fl_Env w' = e' ->
  lib_opens path (shown w) (match own' with None => false | Some _ => true end) (plus_view own' e') ->
  fl_Reports w' = fl_Reports w ++ (if negb (match own' with None => false | Some _ => true end) then [file_fault source SOLIDSYSLOG_FILE_ERROR_OPEN_FAILED native] else []) ->
  stepping (file_opens source path (shown w) (match own' with None => false | Some _ => true end)) w w'.
Proof using.
  intros Hw Es Ee HO Er.
  eapply (ad_opens source plus_agree plus_view path w w' own' e' _ _ native); [done | exact Es | exact Ee | | exact HO | by left | rewrite Er; by destruct own'].
  intros fp ->. pose proof (f_equal fs_At HO) as Ha. simpl in Ha. rewrite Ha. by eexists.
Qed.
(** What the pointer just stored says of the file being open. *)
Ltac file_open_is v := repeat match goal with |- context [match fo_Own (fl_Self ?x) with None => false | Some _ => true end] =>
  change (match fo_Own (fl_Self x) with None => false | Some _ => true end) with v end; cbv beta iota; cbn [negb]; plus_run.
Lemma PlusOpen_keeps path w : plus_ok w -> fs_At (shown w) = None ->
  wp (PlusFatFile_Open codes path) (fun b w' => stepping (file_opens source path (shown w) b) w w') w.
Proof using HL.
  intros Hw _. unfold PlusFatFile_Open, PlusFatFile_ErrnoUnlessOpen, PlusFatFile_IsAbsent. plus_run. apply wp_library.
  eapply wp_mono; [apply fopen_existing_law |]. cbv beta. intros [[fp |] err] e1 [Ef HO]; cbn [fst snd] in *; plus_run.
  - file_open_is true. pose proof (enoent_is_a_code (E := E)). destruct (Z.eqb_spec 0 (pdFREERTOS_ERRNO_ENOENT codes)); [done |]. plus_run. file_open_is true. file_open_is true.
    apply (plus_after_open path w _ (Some fp) e1 0); [done | done | done | | by rewrite app_nil_r]. unfold plus_view. simpl. destruct HO as [[b Eb] Hp].
    rewrite Hp, Ef, Eb. simpl. by rewrite insert_id.
  - file_open_is false. destruct (Z.eqb_spec err (pdFREERTOS_ERRNO_ENOENT codes)) as [Habs | Hne]; plus_run.
    + specialize (HO Habs). apply wp_library. eapply wp_mono; [apply fopen_new_law; simpl; by rewrite Ef |]. cbv beta. intros [[fp |] err2] e2 HN; cbn [fst snd] in *; plus_run.
      * file_open_is true. apply (plus_after_open path w _ (Some fp) e2 0); [done | done | done | | by rewrite app_nil_r].
        change (plus_view (Some fp) e2) with (plus_at e2 fp). rewrite HN. simpl. by rewrite Ef, HO.
      * file_open_is false. apply wp_ReportFailure. intros w' (Es & Ee & Er). plus_run. rewrite Es. file_open_is false. simpl in Ee, Er.
        apply (plus_after_open path w w' None e2 err2); [done | by rewrite Es | exact Ee | | exact Er]. simpl in HN.
        exists (plus_files e2). split; [| done]. rewrite Ef in HN. destruct HN as [-> | ->]; [by left | by right].
    + file_open_is false. apply wp_ReportFailure. intros w' (Es & Ee & Er). plus_run. rewrite Es. file_open_is false. simpl in Ee, Er.
      apply (plus_after_open path w w' None e1 err); [done | by rewrite Es | exact Ee | | exact Er].
      exists (plus_files e1). split; [by left | done].
Qed.
Lemma PlusClose_keeps w : plus_ok w -> wp PlusFatFile_Close (fun _ w' => stepping (file_closes source (shown w)) w w') w.
Proof using HL.
  intros Hw. unfold PlusFatFile_Close. plus_run. rewrite (plus_IsOpen_iff w Hw). destruct (fs_At (shown w)) as [[path at_] |] eqn:Hat.
  - rewrite bool_decide_eq_true_2 by by eexists. plus_run. apply wp_library. eapply wp_mono; [eapply fclose_law; by eapply plus_place_here |].
    cbv beta. intros [r err] e' HC. cbn [fst snd] in *. plus_run. apply wp_report_if. intros w' Es Ee Er. simpl in Es, Ee, Er.
    eapply (ad_closes source plus_agree plus_view path at_ w w' None e' (r =? 0)); [done | done | by rewrite Es | exact Ee | done | done | | by rewrite Er; destruct (r =? 0)].
    rewrite (plus_shown path at_ w Hw Hat). exact HC.
  - rewrite bool_decide_eq_false_2 by by intros []. plus_run. by apply ad_closed_already.
Qed.
Lemma plus_same_agree w e' : plus_ok w -> (forall fp, plus_place e' fp = plus_place (fl_Env w) fp) -> plus_agree (fo_Own (fl_Self w)) e'.
Proof using. intros Hw Ep fp Es. rewrite Ep. by apply (ak_agree _ _ _ Hw). Qed.
Lemma plus_same_at w e' : (forall fp, plus_place e' fp = plus_place (fl_Env w) fp) -> fs_At (plus_view (fo_Own (fl_Self w)) e') = fs_At (shown w).
Proof using. intros Ep. unfold ad_view, plus_view. simpl. by destruct (fo_Own _). Qed.
Lemma PlusExists_keeps path w : plus_ok w ->
  wp (PlusFatFile_Exists path) (fun b w' => staying w w' /\ (b = true -> is_Some (fs_Files (shown w) !! path))) w.
Proof using HL.
  intros Hw. unfold PlusFatFile_Exists. plus_run. apply wp_library. eapply wp_mono; [apply ff_stat_law |]. cbv beta. intros r e' [[Ef Ep] Hr]. plus_run.
  split; [| intros Hb%Z.eqb_eq; by apply Hr]. apply ad_same; [done | done | done | by apply plus_same_agree |].
  pose proof (plus_same_at w e' Ep) as Ha. unfold ad_view, plus_view in *. simpl in *. by rewrite Ef, Ha.
Qed.
Lemma PlusDelete_keeps path w : plus_ok w -> (forall at_, fs_At (shown w) <> Some (path, at_)) ->
  wp (PlusFatFile_Delete codes path) (fun b w' => plus_ok w' /\ fl_Reports w' = fl_Reports w /\ fs_At (shown w') = fs_At (shown w) /\
    fs_Files (shown w') = if b : bool then delete path (fs_Files (shown w)) else fs_Files (shown w)) w.
Proof using HL.
  intros Hw Hno. unfold PlusFatFile_Delete. plus_run. apply wp_library. eapply wp_mono; [apply ff_remove_law |]. cbv beta. intros [r err] e' (Ep & Hrem & Habs).
  cbn [fst snd] in *. plus_run. apply ad_removes; [done | done | by apply plus_same_agree | by apply plus_same_at | done | | done]. simpl.
  rewrite Hrem. unfold PlusFatFile_IsRemovedOrAbsent, PlusFatFile_IsAbsent. destruct (Z.eqb_spec r 0); simpl; [done |].
  destruct (_ || _) eqn:Er; [| done]. rewrite delete_id; [done |]. apply Habs; [done | lia].
Qed.
Lemma plus_file_keeps : file_contract source (PlusFatFile_vtable codes) plus_ok shown fl_Reports false no_medium.
Proof using HL.
  apply through_vtable_keeps; [intros w; apply ak_base |]. split; simpl.
  - intros w. apply ak_sound.
  - apply PlusOpen_keeps.
  - apply PlusClose_keeps.
  - intros w Hw. unfold PlusFatFile_IsOpen. plus_run. split; [done | by apply plus_IsOpen_iff].
  - intros n path at_ w Hw Hat Hn. by apply PlusRead_keeps.
  - intros data path at_ w Hw Hat. by apply PlusWrite_keeps.
  - intros off path at_ w Hw Hat Hoff. by eapply PlusSeekTo_keeps.
  - intros path at_ w Hw Hat. by eapply PlusSize_keeps.
  - intros path at_ w Hw Hat. by eapply PlusTruncate_keeps.
  - apply PlusExists_keeps.
  - apply PlusDelete_keeps.
Qed.
End plusfat_contract.

(** * What each tells is what its calls said *)

(** A report's native code, with the code of what was reported. *)
Definition with_code (code : Z) (native : option Z) : option (Z * Z) := (fun n => (code, n)) <$> native.
Ltac tell_run := unfold own, set_own; wp_steps.
Ltac tell_call := apply wp_library_eq; let a := fresh "a" in let e' := fresh "e'" in let Ea := fresh "Ea" in intros a e' Ea; simpl in Ea; rewrite ?Ea; cbn beta iota; cbn [fst snd]; tell_run.
Ltac tell_report := apply wp_report_if; let w' := fresh "w'" in let Es := fresh "Es" in let Ee := fresh "Ee" in let Er := fresh "Er" in
  intros w' Es Ee Er; simpl in Es, Ee, Er; tell_run.

Section fat_tells.
Context {E T : Type} `{ErrorTap T} (codes : fat_codes) `{HF : FatFs E, HL : !FatFsSpec E codes}.
Abbreviation world := (file_world fat_file E T).
Abbreviation source := SolidSyslogFatFsFileErrorSource.
(** A close that answers [FR_INVALID_OBJECT] leaves nothing owed. *)
Definition fat_said (call : file_call) (w : world) : file_answer :=
  let e := fl_Env w in let self := fo_Own (fl_Self w) in
  let opening e := failing SOLIDSYSLOG_FILE_ERROR_OPEN_FAILED (some_error (match call with FileOpen path => fst (f_open path e) | _ => 0 end)) in
  match call with
  | FileOpen path =>
      if ff_CloseOwed self then
        let '(r, e') := f_close e in
        if (r =? FR_OK) || (r =? FR_INVALID_OBJECT codes) then opening e' else (false, Some (SOLIDSYSLOG_FILE_ERROR_CLOSE_FAILED, r))
      else opening e
  | FileClose => if ff_IsOpen self then silent (failing SOLIDSYSLOG_FILE_ERROR_CLOSE_FAILED (some_error (fst (f_close e)))) else (true, None)
  | FileRead n =>
      let '(r, bytesRead, _) := fst (f_read n e) in
      ((r =? FR_OK) && (bytesRead =? n), with_code SOLIDSYSLOG_FILE_ERROR_READ_FAILED (some_error r))
  | FileWrite data =>
      let '(r, wrote, e') := f_write data e in
      if (r =? FR_OK) && (wrote =? lenZ data) then failing SOLIDSYSLOG_FILE_ERROR_SYNC_FAILED (some_error (fst (f_sync e')))
      else (false, Some (SOLIDSYSLOG_FILE_ERROR_WRITE_FAILED, r))
  | FileSeekTo off => silent (failing SOLIDSYSLOG_FILE_ERROR_SEEK_FAILED (some_error (fst (f_lseek off e))))
  | FileSize => (true, None)
  | FileTruncate =>
      let '(r, e') := f_lseek 0 e in
      silent (failing SOLIDSYSLOG_FILE_ERROR_TRUNCATE_FAILED (some_error (if r =? FR_OK then fst (f_truncate e') else r)))
  | FileExists path => (fst (f_stat path e) =? FR_OK, None)
  | FileDelete path => let r := fst (f_unlink path e) in ((r =? FR_OK) || (r =? FR_NO_FILE codes) || (r =? FR_NO_PATH codes), None)
  end.
Lemma fat_file_tells : tells_what source (FatFsFile_vtable codes) (ad_ok (fat_agree codes) (fat_view codes)) (ad_view (fat_view codes)) fl_Reports fat_said.
Proof using HL.
  apply through_vtable_tells; [intros w; apply ak_base |]. intros call w _ _. unfold tells, fat_said.
  destruct call as [path | | n | data | off | | | path | path]; cbn [SolidSyslogFile_Open SolidSyslogFile_Close
    SolidSyslogFile_Read SolidSyslogFile_Write SolidSyslogFile_SeekTo SolidSyslogFile_Size SolidSyslogFile_Truncate SolidSyslogFile_Exists SolidSyslogFile_Delete].
  - unfold FatFsFile_Open, FatFsFile_SettleOwedClose. tell_run. destruct (ff_CloseOwed _) eqn:Eo; tell_run.
    + tell_call. unfold FatFsFile_ReportFailure. tell_report. rewrite Es. cbn. unfold FatFsFile_IsCloseStillOwed in *.
      destruct (a =? FR_OK), (a =? FR_INVALID_OBJECT codes); cbn in *; tell_run; rewrite ?Es; cbn.
 all: try (rewrite Er; done); rewrite app_nil_r in Er;
        subst e'; tell_call; unfold FatFsFile_ReportFailure; apply wp_report_if; intros w2 Es2 Ee2 Er2; simpl in Es2, Er2; tell_run;
        rewrite Es2, Er2, Er; unfold some_error, FR_OK; cbn; by destruct (a0 =? 0).
    + rewrite Eo. cbn. tell_run. tell_call. unfold FatFsFile_ReportFailure. tell_report. rewrite Es, Er. unfold some_error, FR_OK. cbn. by destruct (a =? 0).
  - unfold FatFsFile_Close. tell_run. destruct (ff_IsOpen _); tell_run; [| by rewrite app_nil_r]. tell_call. unfold FatFsFile_ReportFailure. tell_report.
    split; [done |]. rewrite Er. unfold some_error, FR_OK. cbn. by destruct (a =? 0).
  - unfold FatFsFile_Read. tell_run. tell_call. destruct a as [[r bytesRead] bs]. unfold FatFsFile_ReportFailure. tell_run. tell_report. rewrite Er.
    unfold some_error, FR_OK. cbn [fst snd]. by destruct (r =? 0).
  - unfold FatFsFile_Write, FatFsFile_Sync. tell_run. tell_call. destruct a as [r wrote]. cbn beta iota. cbn [fst snd]. destruct ((r =? FR_OK) && (wrote =? lenZ data)); tell_run.
    + tell_call. unfold FatFsFile_ReportFailure. tell_report. rewrite Er. unfold some_error, FR_OK. by destruct (a =? 0).
    + apply wp_ReportFailure. intros w' (Es & Ee & Er). tell_run. by rewrite Er.
  - unfold FatFsFile_SeekTo. tell_run. tell_call. unfold FatFsFile_ReportFailure. tell_report. split; [done |]. rewrite Er. unfold some_error, FR_OK. by destruct (a =? 0).
  - unfold FatFsFile_Size. tell_run. tell_call. by rewrite app_nil_r.
  - unfold FatFsFile_Truncate. tell_run. tell_call. destruct (a =? FR_OK) eqn:Ea0; tell_run; [tell_call |]; unfold FatFsFile_ReportFailure; tell_report;
      (split; [done |]); rewrite Er; unfold some_error, FR_OK in *; [by destruct (a0 =? 0) | by rewrite Ea0].
  - unfold FatFsFile_Exists. tell_run. tell_call. by rewrite app_nil_r.
  - unfold FatFsFile_Delete. tell_run. tell_call. by rewrite app_nil_r.
Qed.
End fat_tells.

Section little_tells.
Context {E T : Type} `{ErrorTap T} (LFS_ERR_NOENT fs : Z) `{HF : LittleFs E, HL : !LittleFsSpec E LFS_ERR_NOENT fs}.
Abbreviation world := (file_world lfs_file E T).
Abbreviation source := SolidSyslogLittleFsFileErrorSource.
(** A negative code is an error. *)
Definition negative (r : Z) : option Z := if r <? 0 then Some r else None.
Definition lfs_said (call : file_call) (w : world) : file_answer :=
  let e := fl_Env w in let self := fo_Own (fl_Self w) in
  match call with
  | FileOpen path => failing SOLIDSYSLOG_FILE_ERROR_OPEN_FAILED (some_error (fst (lfs_file_opencfg fs path (lf_Buffer self) e)))
  | FileClose => if lf_IsOpen self then silent (failing SOLIDSYSLOG_FILE_ERROR_CLOSE_FAILED (some_error (fst (lfs_file_close fs e)))) else (true, None)
  | FileRead n => let r := fst (fst (lfs_file_read fs n e)) in (r =? n, with_code SOLIDSYSLOG_FILE_ERROR_READ_FAILED (negative r))
  | FileWrite data =>
      let '(r, e') := lfs_file_write fs data e in
      if r =? lenZ data then failing SOLIDSYSLOG_FILE_ERROR_SYNC_FAILED (some_error (fst (lfs_file_sync fs e')))
      else (false, Some (SOLIDSYSLOG_FILE_ERROR_WRITE_FAILED, default 0 (negative r)))
  | FileSeekTo off => silent (failing SOLIDSYSLOG_FILE_ERROR_SEEK_FAILED (negative (fst (lfs_file_seek fs (s32 off) e))))
  | FileSize => failing SOLIDSYSLOG_FILE_ERROR_SIZE_FAILED (negative (fst (lfs_file_size fs e)))
  | FileTruncate =>
      let '(r, e') := lfs_file_truncate fs 0 e in
      silent (failing SOLIDSYSLOG_FILE_ERROR_TRUNCATE_FAILED (if r =? LFS_ERR_OK then negative (fst (lfs_file_seek fs 0 e')) else Some r))
  | FileExists path => (fst (lfs_stat fs path e) =? LFS_ERR_OK, None)
  | FileDelete path => let r := fst (lfs_remove fs path e) in ((r =? LFS_ERR_OK) || (r =? LFS_ERR_NOENT), None)
  end.
Lemma little_file_tells : tells_what source (LittleFsFile_vtable LFS_ERR_NOENT) (ad_ok (lfs_agree LFS_ERR_NOENT fs) (lfs_view LFS_ERR_NOENT fs))
  (ad_view (lfs_view LFS_ERR_NOENT fs)) fl_Reports lfs_said.
Proof using HL.
  apply through_vtable_tells; [intros w; apply ak_base |]. intros call w Hw Hmay. unfold tells, lfs_said.
  assert (Efs : lf_Filesystem (fo_Own (fl_Self w)) = fs) by apply Hw.
  destruct call as [path | | n | data | off | | | path | path]; cbn [SolidSyslogFile_Open SolidSyslogFile_Close
    SolidSyslogFile_Read SolidSyslogFile_Write SolidSyslogFile_SeekTo SolidSyslogFile_Size SolidSyslogFile_Truncate SolidSyslogFile_Exists SolidSyslogFile_Delete].
  - unfold LittleFsFile_Open. tell_run. rewrite Efs. tell_call. unfold LittleFsFile_ReportFailure. tell_report. rewrite Es, Er.
    unfold some_error, LFS_ERR_OK. cbn. by destruct (a =? 0).
  - unfold LittleFsFile_Close. tell_run. destruct (lf_IsOpen _); tell_run; [| by rewrite app_nil_r]. rewrite Efs. tell_call.
    unfold LittleFsFile_ReportFailure. tell_report. split; [done |]. rewrite Er. unfold some_error, LFS_ERR_OK. cbn. by destruct (a =? 0).
  - unfold LittleFsFile_Read. tell_run. rewrite Efs. tell_call. unfold LittleFsFile_ReportFailure. tell_report. rewrite Er. cbn [fst].
    destruct Hmay as [_ Hn]. unfold negative, LittleFsFile_IsWholeTransfer. split; [lia |]. by destruct (_ <? 0).
  - unfold LittleFsFile_Write, LittleFsFile_Sync. tell_run. rewrite Efs. tell_call. pose proof (lenZ_nonneg data). unfold LittleFsFile_IsWholeTransfer.
    replace ((0 <=? a) && (a =? lenZ data)) with (a =? lenZ data) by lia. destruct (a =? lenZ data); tell_run.
    + cbn. rewrite Efs. tell_call. unfold LittleFsFile_ReportFailure. tell_report. rewrite Er. unfold some_error, LFS_ERR_OK. by destruct (a0 =? 0).
    + apply wp_ReportFailure. intros w' (Es & Ee & Er). tell_run. rewrite Er. unfold negative. by destruct (a <? 0).
  - unfold LittleFsFile_SeekTo. tell_run. rewrite Efs. tell_call. unfold LittleFsFile_ReportFailure. tell_report. split; [done |]. rewrite Er.
    unfold negative. by destruct (a <? 0).
  - unfold LittleFsFile_Size. tell_run. rewrite Efs. tell_call. unfold LittleFsFile_ReportFailure. tell_report. rewrite Er. cbn [fst]. unfold negative.
    by destruct (Z.ltb_spec a 0), (Z.leb_spec 0 a); try lia.
  - unfold LittleFsFile_Truncate, LittleFsFile_SeekToStart. tell_run. rewrite Efs. tell_call. destruct (a =? LFS_ERR_OK) eqn:Ea0; tell_run.
    + cbn. rewrite Efs. tell_call. unfold LittleFsFile_ReportFailure. tell_report. split; [done |]. rewrite Er. unfold negative, LFS_ERR_OK.
      destruct (Z.ltb_spec a0 0); [| done]. by replace (a0 =? 0) with false by lia.
    + rewrite Ea0. unfold LittleFsFile_ReportFailure. tell_report. split; [done |]. by rewrite Er.
  - unfold LittleFsFile_Exists. tell_run. rewrite Efs. tell_call. by rewrite app_nil_r.
  - unfold LittleFsFile_Delete. tell_run. rewrite Efs. tell_call. by rewrite app_nil_r.
Qed.
End little_tells.

Section plus_tells.
Context {E T : Type} `{ErrorTap T} (codes : plus_codes) `{HF : PlusFat E, HL : !PlusFatSpec E codes}.
Abbreviation world := (file_world (option Z) E T).
Abbreviation source := SolidSyslogPlusFatFileErrorSource.
(** A status other than 0 leaves an error; a pointer that is null does. *)
Definition status_error (answer : Z * Z) : option Z := if fst answer =? 0 then None else Some (snd answer).
Definition null_error (answer : option Z * Z) : option Z := match fst answer with Some _ => None | None => Some (snd answer) end.
Definition plus_said (call : file_call) (w : world) : file_answer :=
  let e := fl_Env w in let fp := default 0 (fo_Own (fl_Self w)) in
  match call with
  | FileOpen path =>
      let '(existing, e') := ff_fopen_existing path e in
      failing SOLIDSYSLOG_FILE_ERROR_OPEN_FAILED
        match null_error existing with
        | Some err => if err =? pdFREERTOS_ERRNO_ENOENT codes then null_error (fst (ff_fopen_new path e')) else Some err
        | None => None
        end
  | FileClose =>
      match fo_Own (fl_Self w) with
      | Some _ => silent (failing SOLIDSYSLOG_FILE_ERROR_CLOSE_FAILED (status_error (fst (ff_fclose fp e))))
      | None => (true, None)
      end
  | FileRead n =>
      let '(delivered, err, _) := fst (ff_fread fp n e) in
      (delivered =? n, if delivered =? n then None else with_code SOLIDSYSLOG_FILE_ERROR_READ_FAILED (some_error err))
  | FileWrite data =>
      let '(n, err, e') := ff_fwrite fp data e in
      if n =? lenZ data then failing SOLIDSYSLOG_FILE_ERROR_SYNC_FAILED (some_error (fst (FF_FlushCache fp e')))
      else (false, Some (SOLIDSYSLOG_FILE_ERROR_WRITE_FAILED, err))
  | FileSeekTo off => silent (failing SOLIDSYSLOG_FILE_ERROR_SEEK_FAILED (status_error (fst (ff_fseek fp (s32 off) e))))
  | FileSize => failing SOLIDSYSLOG_FILE_ERROR_SIZE_FAILED (some_error (snd (fst (ff_filelength fp e))))
  | FileTruncate =>
      let '(sought, e') := ff_fseek fp 0 e in
      silent (failing SOLIDSYSLOG_FILE_ERROR_TRUNCATE_FAILED
        match status_error sought with Some err => Some err | None => status_error (fst (ff_seteof fp e')) end)
  | FileExists path => (fst (ff_stat path e) =? 0, None)
  | FileDelete path =>
      let '(status, err) := fst (ff_remove path e) in
      ((status =? 0) || (err =? pdFREERTOS_ERRNO_ENOENT codes) || (err =? pdFREERTOS_ERRNO_ENOTDIR codes), None)
  end.
Ltac plus_runs := unfold PlusFatFile_IsFileOpen, Fp; tell_run.
Ltac plus_reports := unfold PlusFatFile_ReportFailure; tell_report.
Lemma PlusOpen_tells path w : tells source id (PlusFatFile_Open codes path) (plus_said (FileOpen path) w) w.
Proof using HL.
  unfold tells, PlusFatFile_Open, PlusFatFile_ErrnoUnlessOpen, PlusFatFile_IsAbsent, plus_said, null_error. plus_runs. tell_call.
  pose proof (enoent_is_a_code (E := E)) as Hcode. destruct a as [[fp |] err]; cbn -[Z.eqb]; plus_runs.
  - replace (0 =? pdFREERTOS_ERRNO_ENOENT codes) with false by lia. plus_runs. cbn -[Z.eqb]. plus_runs. cbn -[Z.eqb]. by rewrite app_nil_r.
  - destruct (err =? pdFREERTOS_ERRNO_ENOENT codes); plus_runs.
    + tell_call. destruct a as [[fp |] err2]; cbn -[Z.eqb]; plus_runs; cbn -[Z.eqb]; [by rewrite app_nil_r |]. plus_runs. unfold PlusFatFile_ReportFailure.
      apply wp_ReportFailure. intros w' (Es & Ee & Er). plus_runs. rewrite Es. by rewrite Er.
    + cbn -[Z.eqb]. plus_runs. unfold PlusFatFile_ReportFailure. apply wp_ReportFailure. intros w' (Es & Ee & Er). plus_runs. rewrite Es. by rewrite Er.
Qed.
Lemma plus_file_tells : tells_what source (PlusFatFile_vtable codes) (ad_ok (plus_agree codes) (plus_view codes)) (ad_view (plus_view codes)) fl_Reports plus_said.
Proof using HL.
  apply through_vtable_tells; [intros w; apply ak_base |]. intros call w _ _. unfold tells, plus_said.
  destruct call as [path | | n | data | off | | | path | path]; cbn [SolidSyslogFile_Open SolidSyslogFile_Close
    SolidSyslogFile_Read SolidSyslogFile_Write SolidSyslogFile_SeekTo SolidSyslogFile_Size SolidSyslogFile_Truncate SolidSyslogFile_Exists SolidSyslogFile_Delete].
  - apply PlusOpen_tells.
  - unfold PlusFatFile_Close. plus_runs. destruct (fo_Own (fl_Self w)) as [fp |] eqn:Ef; plus_runs; [| by rewrite app_nil_r]. rewrite Ef. change (default 0 (Some fp)) with fp. tell_call. unfold PlusFatFile_ReportFailure. tell_report.
    split; [done |]. rewrite Er. unfold status_error. by destruct (fst a =? 0).
  - unfold PlusFatFile_Read. plus_runs. tell_call. destruct a as [[delivered err] bs]. unfold PlusFatFile_ReportFailure. tell_run. tell_report. rewrite Er. cbn [fst snd].
    split; [done |]. unfold some_error. destruct (delivered =? n); [done |]. by destruct (err =? 0).
  - unfold PlusFatFile_Write, PlusFatFile_Flush. plus_runs. tell_call. destruct a as [k err]. cbn beta iota. cbn [fst snd]. destruct (k =? lenZ data) eqn:Ek; plus_runs.
    + tell_call. unfold PlusFatFile_ReportFailure. tell_report. rewrite Er. unfold some_error, FF_ERR_NONE. by destruct (a =? 0).
    + unfold PlusFatFile_ReportFailure. apply wp_ReportFailure. intros w' (Es & Ee & Er). tell_run. by rewrite Er.
  - unfold PlusFatFile_SeekTo. plus_runs. tell_call. unfold PlusFatFile_ReportFailure. tell_report. split; [done |]. rewrite Er. unfold status_error. by destruct (fst a =? 0).
  - unfold PlusFatFile_Size. plus_runs. tell_call. unfold PlusFatFile_ReportFailure. tell_report. rewrite Er. cbn [fst]. unfold some_error, pdFREERTOS_ERRNO_NONE.
    by destruct (snd a =? 0).
  - unfold PlusFatFile_Truncate. plus_runs. tell_call. unfold status_error. destruct (fst a =? 0) eqn:Ea0; tell_run; [tell_call |]; unfold PlusFatFile_ReportFailure; tell_report;
      (split; [done |]); rewrite Er; [by destruct (fst a0 =? 0) | by rewrite Ea0].
  - unfold PlusFatFile_Exists. plus_runs. tell_call. by rewrite app_nil_r.
  - unfold PlusFatFile_Delete. plus_runs. tell_call. destruct a as [status err]. cbn [fst snd]. rewrite app_nil_r. split; [| done].
    unfold PlusFatFile_IsRemovedOrAbsent, PlusFatFile_IsAbsent. by destruct (status =? 0).
Qed.
End plus_tells.
