(* ===== verification/FileVolumes.v ===== *)
(** The six files over any libraries with the documented results, and the block device
    over a POSIX volume that refuses no seek and no truncate; with a volume in memory
    that is every one of these libraries, to run them on. *)
From stdpp Require Import gmap.
From S2P Require Import Prelude Errors PendingEvents Interfaces Utf8 Formatter Policies RecordStore BlockSequence BlockStore FileBlockDevice FileContract FdFiles FatFiles.

#[local] Open Scope Z_scope.

(** * A volume in memory *)

(** One file open at a time.  [stuck] is a volume that refuses every truncate. *)
Record disk := mkDisk { dk_Files : volume; dk_Media : volume; dk_Open : option (bytes * N) }.
#[export] Instance settable_disk : Settable disk := fun e => mkDisk (dk_Files e) (dk_Media e) (dk_Open e).

Section disk.
Context (stuck : bool).
Definition disk_place (e : disk) : option (bytes * Z) := (fun p => (fst p, Z.of_N (snd p))) <$> dk_Open e.
Definition disk_at (e : disk) : file_state := mkFileState (dk_Files e) (disk_place e).
Definition disk_move (path : bytes) (at_ : Z) (e : disk) : disk := e <| dk_Open := Some (path, Z.to_N at_) |>.

Definition disk_open (path : bytes) (e : disk) : disk :=
  disk_move path 0 (e <| dk_Files := <[path := default [] (dk_Files e !! path)]> (dk_Files e) |>).
Definition disk_close (e : disk) : disk := e <| dk_Open := None |>.
(** On the open file, when it is there; its content and position. *)
Definition on_disk_file {A} (none : A) (f : bytes -> bytes -> Z -> ST disk A) : ST disk A := fun e =>
  match disk_place e with
  | Some (path, at_) => match dk_Files e !! path with Some b => f path b at_ e | None => (none, e) end
  | None => (none, e)
  end.
Definition disk_read (n : Z) : ST disk (option bytes) := on_disk_file None (fun path b at_ e =>
  let bs := spanZ b at_ n in (Some bs, disk_move path (at_ + lenZ bs) e)).
Definition disk_write (data : bytes) : ST disk (option Z) := fun e =>
  match disk_place e with
  | Some (path, at_) =>
      let after := spliceZ (default [] (dk_Files e !! path)) at_ data in
      (Some (lenZ data), disk_move path (at_ + lenZ data) (e <| dk_Files := <[path := after]> (dk_Files e) |>))
  | None => (None, e)
  end.
Definition disk_seek (off : Z) : ST disk bool := on_disk_file false (fun path _ _ e =>
  if 0 <=? off then (true, disk_move path off e) else (false, e)).
Definition disk_size : ST disk (option Z) := on_disk_file None (fun path b _ e =>
  if lenZ b <=? SIZE_MAX then (Some (lenZ b), disk_move path (lenZ b) e) else (None, e)).
Definition disk_cut (keep : bytes -> Z -> bytes) : ST disk bool := on_disk_file false (fun path b at_ e =>
  if stuck then (false, e) else (true, e <| dk_Files := <[path := keep b at_]> (dk_Files e) |>)).
Definition disk_sync (e : disk) : disk := e <| dk_Media := dk_Files e |>.
Definition disk_exists (path : bytes) (e : disk) : bool := bool_decide (is_Some (dk_Files e !! path)).
Definition disk_remove (path : bytes) (e : disk) : disk := e <| dk_Files := delete path (dk_Files e) |>.

(** ** What they do *)

Lemma disk_move_at path at_ e : 0 <= at_ -> disk_at (disk_move path at_ e) = still_at path (dk_Files e) at_.
Proof using. intros Ha. unfold disk_at, disk_move, disk_place. simpl. by rewrite Z2N.id. Qed.
Lemma disk_here path at_ e : disk_place e = Some (path, at_) -> 0 <= at_ /\ disk_at e = still_at path (dk_Files e) at_.
Proof using.
  intros Hp. unfold disk_at. rewrite Hp. split; [| done]. unfold disk_place in Hp. destruct (dk_Open e) as [[p a] |]; [| done].
  injection Hp as <- <-. simpl. lia.
Qed.
Lemma disk_stays path at_ e : disk_place e = Some (path, at_) -> now_at path (dk_Files e) (disk_at e).
Proof using. intros Hp. destruct (disk_here _ _ _ Hp) as [Ha E]. by exists at_. Qed.
(** A step on the open file, when it is there and when it is not. *)
Lemma disk_file_law {A} (none : A) f path at_ e (Q : A -> disk -> Prop) : disk_place e = Some (path, at_) ->
  (now_at path (dk_Files e) (disk_at e) -> Q none e) ->
  (forall b, dk_Files e !! path = Some b -> 0 <= at_ -> wp (f path b at_) Q e) -> wp (on_disk_file none f) Q e.
Proof using.
  intros Hp Hnone Hf. unfold on_disk_file, wp. rewrite Hp. destruct (dk_Files e !! path) as [b |] eqn:Eb.
  - by apply Hf, (disk_here _ _ _ Hp).
  - by apply Hnone, (disk_stays _ at_).
Qed.
Ltac on_file := eapply disk_file_law; [eassumption | intros Hnow | intros b Eb Ha; unfold wp; simpl].

Lemma disk_open_law path e : lib_opens path (disk_at e) true (disk_at (disk_open path e)).
Proof using. unfold disk_open. simpl. by rewrite disk_move_at. Qed.
Lemma lenZ_dropZ_max (l : bytes) n : 0 <= n -> lenZ (dropZ n l) = Z.max 0 (lenZ l - n).
Proof using.
  intros Hn. pose proof (lenZ_nonneg l). destruct (Z.le_gt_cases n (lenZ l)).
  - rewrite lenZ_dropZ by lia. lia.
  - rewrite dropZ_ge, lenZ_nil by lia. lia.
Qed.
Lemma disk_read_law path at_ n e : disk_place e = Some (path, at_) -> 0 <= n -> wp (disk_read n) (fun got e' =>
  lib_reads path at_ (disk_at e) n got (disk_at e') /\ forall bs, got = Some bs -> lenZ bs <= n) e.
Proof using.
  intros Hp Hn. on_file; [done |]. pose proof (lenZ_nonneg (spanZ b at_ n)) as Hl. rewrite disk_move_at by lia.
  assert (Hlen : lenZ (spanZ b at_ n) = Z.min n (Z.max 0 (lenZ b - at_))) by (unfold spanZ; by rewrite lenZ_takeZ_min, lenZ_dropZ_max).
  split; [split |]; [by exists (at_ + lenZ (spanZ b at_ n)); split; [lia |] | | intros bs [= <-]; lia].
  intros bs [= <-]. split; [lia |]. intros Hpos b' Eb'. simpl in Eb'. rewrite Eb in Eb'. injection Eb' as <-. split; [lia |].
  rewrite Hlen. destruct (Z.le_gt_cases n (lenZ b - at_)); [f_equal; lia |].
  unfold spanZ. rewrite !takeZ_ge; [done | rewrite lenZ_dropZ_max; lia..].
Qed.
Lemma disk_write_law path at_ data e : disk_place e = Some (path, at_) -> wp (disk_write data) (fun took e' =>
  lib_writes path at_ (disk_at e) data took (disk_at e')) e.
Proof using.
  intros Hp. destruct (disk_here _ _ _ Hp) as [Ha _]. unfold disk_write, wp. rewrite Hp. cbn [fst snd]. pose proof (lenZ_nonneg data).
  exists data, [], (spliceZ (default [] (dk_Files e !! path)) at_ data). rewrite app_nil_r. split; [done |].
  split; [intros b Eb _; simpl in Eb; by rewrite Eb |]. split; [| by intros k [= <-]]. rewrite disk_move_at by lia. exists (at_ + lenZ data). split; [lia | done].
Qed.
Lemma disk_seek_law path at_ off e grows : disk_place e = Some (path, at_) -> wp (disk_seek off) (fun moved e' =>
  (moved = true -> 0 <= off) /\ lib_seeks path (disk_at e) grows off moved (disk_at e')) e.
Proof using.
  intros Hp. on_file; [done |]. destruct (Z.leb_spec 0 off); simpl; (split; [done |]).
  - left. by apply disk_move_at.
  - by apply (disk_stays _ at_).
Qed.
Lemma disk_size_law path at_ e : disk_place e = Some (path, at_) -> wp disk_size (fun size e' =>
  lib_sizes path (disk_at e) size (disk_at e')) e.
Proof using.
  intros Hp. on_file; [done |]. pose proof (lenZ_nonneg b). destruct (lenZ b <=? SIZE_MAX); simpl.
  - rewrite disk_move_at by lia. split; [by exists (lenZ b) | intros n [= <-]; by exists b].
  - split; [by apply (disk_stays _ at_) | done].
Qed.
Lemma disk_cut_law path at_ keep e : disk_place e = Some (path, at_) -> wp (disk_cut keep) (fun done_ e' =>
  if done_ : bool then exists b, dk_Files e !! path = Some b /\ now_at path (<[path := keep b at_]> (dk_Files e)) (disk_at e')
  else now_at path (dk_Files e) (disk_at e')) e.
Proof using.
  intros Hp. on_file; [done |]. destruct stuck; simpl; [by apply (disk_stays _ at_) |]. exists b. split; [done |].
  destruct (disk_here _ _ _ Hp) as [_ E]. exists at_. split; [done |]. unfold disk_at, disk_place in *. simpl. injection E as E. by rewrite E.
Qed.
Lemma disk_exists_tells path e : disk_exists path e = true -> is_Some (dk_Files e !! path).
Proof using. apply bool_decide_eq_true_1. Qed.
Lemma disk_removes path e : lib_removes path (disk_at e) (disk_exists path e) (dk_Files (if disk_exists path e then disk_remove path e else e)).
Proof using. unfold lib_removes. by destruct (disk_exists path e). Qed.
Lemma disk_absent path e : disk_exists path e = false -> dk_Files e !! path = None.
Proof using. intros Hb%bool_decide_eq_false. by apply eq_None_not_Some. Qed.
End disk.

(** ** As each of the libraries *)

Definition status_of (done_ : bool) : Z * Z := if done_ then (0, 0) else (-1, 5).
(** A call of the volume, with its outcome as the library tells it. *)
Definition telling {A B} (tell : A -> B) (m : ST disk A) : ST disk B := fun e => (tell (fst (m e)), snd (m e)).
Definition doing {B} (answer : B) (f : disk -> disk) : ST disk B := fun e => (answer, f e).
Lemma wp_telling {A B} (tell : A -> B) (m : ST disk A) (Q : B -> disk -> Prop) e : wp m (fun a e' => Q (tell a) e') e -> wp (telling tell m) Q e.
Proof. done. Qed.

Section instances.
Context (stuck : bool).

(** The descriptor is always 3. *)
Definition disk_file_codes : file_codes := mkFileCodes 2 95 0x380002.
Definition at_3 {A} (none : A) (fd : Z) (m : ST disk A) : ST disk A := if fd =? 3 then m else st_ret none.
Definition taken (t : option Z) : Z * Z := match t with Some n => (n, 0) | None => (-1, 5) end.
#[export] Instance disk_fd : FdFiles disk := {
  fd_open := fun path => doing (3, 0) (disk_open path);
  fd_sopen := fun path => doing (3, 0) (disk_open path);
  fd_close := fun fd => at_3 (-1, 9) fd (doing (0, 0) disk_close);
  fd_read := fun fd n => at_3 (-1, 9, []) fd (telling (fun got => match got with Some bs => (lenZ bs, 0, bs) | None => (-1, 5, []) end) (disk_read n));
  fd_write := fun fd data => at_3 (-1, 9) fd (telling taken (disk_write data));
  fd_seek_set := fun fd off => at_3 (-1, 9) fd (telling (fun moved : bool => if moved then (off, 0) else (-1, 22)) (disk_seek off));
  fd_seek_end := fun fd => at_3 (-1, 9) fd (telling taken disk_size);
  fd_truncate := fun fd => at_3 (-1, 9) fd (telling status_of (disk_cut stuck (fun _ _ => [])));
  fd_chsize := fun fd => at_3 9 fd (telling (fun done_ : bool => if done_ then 0 else 5) (disk_cut stuck (fun _ _ => [])));
  fd_sync := fun fd => at_3 (-1, 9) fd (doing (0, 0) disk_sync);
  fd_commitfs := fun fd => st_ret (-1, 95);
  fd_access := fun path e => (if disk_exists path e then 0 else -1, e);
  fd_unlink := fun path e => if disk_exists path e then ((0, 0), disk_remove path e) else ((-1, 2), e)
}.
Definition disk_fd_place (e : disk) (fd : Z) : option (bytes * Z) := if fd =? 3 then disk_place e else None.
Lemma at_3_law {A} (none : A) fd path at_ m (Q : A -> disk -> Prop) e :
  disk_fd_place e fd = Some (path, at_) -> (fd = 3 -> disk_place e = Some (path, at_) -> wp m Q e) -> wp (at_3 none fd m) Q e.
Proof using. unfold disk_fd_place, at_3. destruct (Z.eqb_spec fd 3); [auto | done]. Qed.
#[export] Program Instance disk_fd_spec : FdFilesSpec disk disk_file_codes := {
  fd_files := dk_Files;
  fd_media := dk_Media;
  fd_flushed := fun e path => dk_Media e !! path = dk_Files e !! path;
  fd_place := disk_fd_place
}.
Next Obligation. done. Qed.
Next Obligation. intros path e. split; [by right |]. apply (disk_open_law path e). Qed.
Next Obligation. intros path e. split; [done |]. apply (disk_open_law path e). Qed.
Next Obligation. intros fd path at_ e Hp. eapply at_3_law; [done | intros -> _]. split; [by left | done]. Qed.
Next Obligation.
  intros fd path at_ n e Hat Hn. eapply at_3_law; [done | intros -> Hp]. apply wp_telling. eapply wp_mono; [by eapply disk_read_law |]. cbv beta.
  intros [bs |] e' [HR Hl]; cbn.
  - pose proof (lenZ_nonneg bs). split; [by right |]. split; [by apply Hl |]. split; [done |]. replace (lenZ bs =? -1) with false by lia. exact HR.
  - split; [by left |]. split; [by rewrite lenZ_nil |]. split; [lia | exact HR].
Qed.
Next Obligation.
  intros fd path at_ data e Hat. eapply at_3_law; [done | intros -> Hp]. apply wp_telling. eapply wp_mono; [by eapply disk_write_law |]. cbv beta.
  intros [n |] e' HW; cbn.
  - pose proof HW as (part & _ & _ & _ & _ & _ & Hk). pose proof (lenZ_nonneg part). specialize (Hk n eq_refl). split; [right; lia |].
    replace (n =? -1) with false by lia. exact HW.
  - split; [by left | exact HW].
Qed.
Next Obligation.
  intros fd path at_ off e Hat Hoff. eapply at_3_law; [done | intros -> Hp]. apply wp_telling. eapply wp_mono; [by eapply disk_seek_law |]. cbv beta.
  intros [|] e' [Hm HK]; cbn; [| by split; [left |]]. split; [right; lia |]. replace (off =? -1) with false by lia. exact HK.
Qed.
Next Obligation.
  intros fd path at_ e Hat. eapply at_3_law; [done | intros -> Hp]. apply wp_telling. eapply wp_mono; [by eapply disk_size_law |]. cbv beta.
  intros [n |] e' HS; cbn; [| by split; [left |]]. pose proof HS as [_ Hn]. destruct (Hn n eq_refl) as (b & _ & ->). pose proof (lenZ_nonneg b).
  split; [right; lia |]. replace (lenZ b =? -1) with false by lia. exact HS.
Qed.
Next Obligation.
  intros fd path at_ e Hat. eapply at_3_law; [done | intros -> Hp]. apply wp_telling. eapply wp_mono; [by eapply disk_cut_law |]. cbv beta.
  intros [|] e' HC; cbn; [destruct HC as (b & _ & HC) |]; (split; [auto | exact HC]).
Qed.
Next Obligation.
  intros fd path at_ e Hat. eapply at_3_law; [done | intros -> Hp]. apply wp_telling. eapply wp_mono; [by eapply disk_cut_law |]. cbv beta.
  intros [|] e' HC; cbn; [destruct HC as (b & _ & HC) |]; exact HC.
Qed.
Next Obligation. intros fd path at_ e Hat. eapply at_3_law; [done | intros -> Hp]. split; [by left |]. done. Qed.
Next Obligation. intros fd path at_ e Hat Hf. split; [by right |]. split; [done |]. intros _. exact Hf. Qed.
Next Obligation.
  intros path e. split; [done |]. cbn. intros Hr. apply disk_exists_tells. by destruct (disk_exists path e).
Qed.
Next Obligation.
  intros path e. unfold wp. simpl. pose proof (disk_removes path e) as HR. destruct (disk_exists path e) eqn:Ee; simpl in *.
  - split; [by left |]. split; [done |]. split; [exact HR | done].
  - split; [by right |]. split; [done |]. split; [exact HR |]. intros _ _. by apply disk_absent.
Qed.

Definition disk_fat_codes : fat_codes := mkFatCodes 4 5 9.
Definition fresult (done_ : bool) : Z := if done_ then 0 else 1.
#[export] Instance disk_fat : FatFs disk := {
  f_open := fun path => doing 0 (disk_open path);
  f_close := doing 0 disk_close;
  f_read := fun n => telling (fun got => match got with Some bs => (0, lenZ bs, bs) | None => (1, 0, []) end) (disk_read n);
  f_write := fun data => telling (fun t => match t with Some n => (0, n) | None => (1, 0) end) (disk_write data);
  f_sync := doing 0 disk_sync;
  f_lseek := fun off => telling fresult (disk_seek off);
  f_size := fun e => (match disk_place e with Some (path, _) => lenZ (default [] (dk_Files e !! path)) | None => 0 end, e);
  f_truncate := telling fresult (disk_cut stuck (fun b at_ => takeZ at_ b));
  f_stat := fun path e => (if disk_exists path e then 0 else 4, e);
  f_unlink := fun path e => if disk_exists path e then (0, disk_remove path e) else (4, e)
}.
#[export] Instance disk_little : LittleFs disk := {
  lfs_cache_size := fun _ => st_ret 64;
  lfs_file_opencfg := fun _ path _ => doing 0 (disk_open path);
  lfs_file_close := fun _ => doing 0 disk_close;
  lfs_file_read := fun _ n => telling (fun got => match got with Some bs => (lenZ bs, bs) | None => (-5, []) end) (disk_read n);
  lfs_file_write := fun _ data => telling (default (-5)) (disk_write data);
  lfs_file_sync := fun _ => doing 0 disk_sync;
  lfs_file_seek := fun _ off => telling (fun moved : bool => if moved then off else -22) (disk_seek off);
  lfs_file_size := fun _ => telling (default (-5)) disk_size;
  lfs_file_truncate := fun _ _ => telling (fun done_ : bool => if done_ then 0 else -5) (disk_cut stuck (fun _ _ => []));
  lfs_stat := fun _ path e => (if disk_exists path e then 0 else -2, e);
  lfs_remove := fun _ path e => if disk_exists path e then (0, disk_remove path e) else (-2, e)
}.
Definition disk_plus_codes : plus_codes := mkPlusCodes 2 20.
#[export] Instance disk_plus : PlusFat disk := {
  ff_fopen_existing := fun path e => if disk_exists path e then ((Some 3, 0), disk_open path e) else ((None, 2), e);
  ff_fopen_new := fun path => doing (Some 3, 0) (fun e => disk_open path (e <| dk_Files := <[path := []]> (dk_Files e) |>));
  ff_fclose := fun fp => at_3 (-1, 9) fp (doing (0, 0) disk_close);
  ff_fread := fun fp n => at_3 (0, 9, []) fp (telling (fun got => match got with Some bs => (lenZ bs, 0, bs) | None => (0, 5, []) end) (disk_read n));
  ff_fwrite := fun fp data => at_3 (0, 9) fp (telling (fun t => match t with Some n => (n, 0) | None => (0, 5) end) (disk_write data));
  FF_FlushCache := fun _ => st_ret 0;
  ff_fseek := fun fp off => at_3 (-1, 9) fp (telling status_of (disk_seek off));
  ff_filelength := fun fp => at_3 (0, 9) fp (telling (fun size => match size with Some n => (n, 0) | None => (0, 5) end) disk_size);
  ff_seteof := fun fp => at_3 (-1, 9) fp (telling status_of (disk_cut stuck (fun b at_ => takeZ at_ b)));
  ff_stat := fun path e => (if disk_exists path e then 0 else -1, e);
  ff_remove := fun path e => if disk_exists path e then ((0, 0), disk_remove path e) else ((-1, 2), e)
}.
#[local] Ltac law_of law := apply wp_telling; eapply wp_mono; [by eapply law | cbv beta].

#[export] Program Instance disk_fat_spec : FatFsSpec disk disk_fat_codes := {
  fat_files := dk_Files;
  fat_media := dk_Media;
  fat_place := disk_place
}.
Next Obligation. intros path e _. apply (disk_open_law path e). Qed.
Next Obligation. done. Qed.
Next Obligation.
  intros path at_ n e Hp Hn. law_of disk_read_law. intros [bs |] e' [HR Hl]; cbn.
  - split; [done |]. split; [by apply Hl | exact HR].
  - split; [done |]. split; [by rewrite lenZ_nil | exact HR].
Qed.
Next Obligation. intros path at_ data e Hp. law_of disk_write_law. by intros [n |] e' HW. Qed.
Next Obligation. intros path at_ e Hp. by split. Qed.
Next Obligation. intros path at_ off e Hp Hoff. law_of disk_seek_law. by intros [|] e' [_ HK]. Qed.
Next Obligation.
  intros path at_ e Hp [b Eb]. destruct (disk_here _ _ _ Hp) as [Ha _]. unfold wp. simpl. rewrite Hp, Eb. split; [by exists at_ |]. intros n [= <-]. by exists b.
Qed.
Next Obligation. intros path at_ e Hp. law_of disk_cut_law. by intros [|] e' HC. Qed.
Next Obligation. intros path e. split; [done |]. cbn. intros Hr. apply disk_exists_tells. by destruct (disk_exists path e). Qed.
Next Obligation.
  intros path e. unfold wp. simpl. pose proof (disk_removes path e) as HR. destruct (disk_exists path e) eqn:Ee; simpl in *;
    (split; [done |]); (split; [exact HR |]); [by intros [|] | intros _; by apply disk_absent].
Qed.

#[export] Program Instance disk_little_spec : LittleFsSpec disk (-2) 1 := {
  lfs_files := dk_Files;
  lfs_media := dk_Media;
  lfs_place := disk_place
}.
Next Obligation. done. Qed.
Next Obligation. intros path buffer e _. apply (disk_open_law path e). Qed.
Next Obligation. done. Qed.
Next Obligation.
  intros path at_ n e Hp Hn. law_of disk_read_law. intros [bs |] e' [HR Hl]; cbn.
  - pose proof (lenZ_nonneg bs). split; [by apply Hl |]. split; [done |]. replace (lenZ bs <? 0) with false by lia. exact HR.
  - split; [by rewrite lenZ_nil |]. split; [lia | exact HR].
Qed.
Next Obligation.
  intros path at_ data e Hp. law_of disk_write_law. intros [n |] e' HW; cbn; [| exact HW].
  pose proof HW as (part & _ & _ & _ & _ & _ & Hk). pose proof (lenZ_nonneg part). specialize (Hk n eq_refl). replace (n <? 0) with false by lia. exact HW.
Qed.
Next Obligation. intros path at_ e Hp. by split. Qed.
Next Obligation.
  intros path at_ off e Hp. law_of disk_seek_law. intros [|] e' [Hm HK]; cbn; [| by split]. split; [auto |].
  specialize (Hm eq_refl). replace (off <? 0) with false by lia. exact HK.
Qed.
Next Obligation.
  intros path at_ e Hp. law_of disk_size_law. intros [n |] e' HS; cbn; [| done]. pose proof HS as [_ Hn].
  destruct (Hn n eq_refl) as (b & _ & ->). pose proof (lenZ_nonneg b). replace (lenZ b <? 0) with false by lia. exact HS.
Qed.
Next Obligation. intros path at_ e Hp. law_of disk_cut_law. intros [|] e' HC; cbn; [by destruct HC as (b & _ & HC) | exact HC]. Qed.
Next Obligation. intros path e. split; [done |]. cbn. intros Hr. apply disk_exists_tells. by destruct (disk_exists path e). Qed.
Next Obligation.
  intros path e. unfold wp. simpl. pose proof (disk_removes path e) as HR. destruct (disk_exists path e) eqn:Ee; simpl in *;
    (split; [done |]); (split; [exact HR |]); [done | intros _; by apply disk_absent].
Qed.

#[export] Program Instance disk_plus_spec : PlusFatSpec disk disk_plus_codes := {
  plus_files := dk_Files;
  plus_place := disk_fd_place
}.
Next Obligation. done. Qed.
Next Obligation.
  intros path e. unfold wp. simpl. destruct (disk_exists path e) eqn:Ee; simpl.
  - apply disk_exists_tells in Ee as [b Eb]. rewrite Eb. simpl. rewrite insert_id by done. split; [done |]. split; [by eexists | done].
  - split; [done |]. intros _. by apply disk_absent.
Qed.
Next Obligation. intros path e Hn. cbn. unfold disk_open. simpl. by rewrite lookup_insert_eq, insert_insert_eq. Qed.
Next Obligation. intros fp path at_ e Hp. eapply at_3_law; [done | by intros -> _]. Qed.
Next Obligation.
  intros fp path at_ n e Hat Hn. eapply at_3_law; [done | intros -> Hp]. law_of disk_read_law. intros [bs |] e' [HR Hl]; cbn.
  - split; [done |]. split; [by apply Hl | exact HR].
  - split; [done |]. split; [by rewrite lenZ_nil |]. split; [apply HR |]. intros bs [= <-]. by rewrite lenZ_nil.
Qed.
Next Obligation.
  intros fp path at_ data e Hat. eapply at_3_law; [done | intros -> Hp]. unfold wp, telling, disk_write. rewrite Hp. cbn [fst snd].
  pose proof (disk_write_law path at_ data e Hp) as HW. unfold wp, disk_write in HW. rewrite Hp in HW. exact HW.
Qed.
Next Obligation. intros fp e. by split. Qed.
Next Obligation.
  intros fp path at_ off e Hat. eapply at_3_law; [done | intros -> Hp]. law_of disk_seek_law. intros [|] e' [Hm HK]; cbn; [| by split]. split; [auto | exact HK].
Qed.
Next Obligation.
  intros fp path at_ e Hat. eapply at_3_law; [done | intros -> Hp]. law_of disk_size_law. by intros [n |] e' HS.
Qed.
Next Obligation.
  intros fp path at_ e Hat. eapply at_3_law; [done | intros -> Hp]. law_of disk_cut_law. by intros [|] e' HC.
Qed.
Next Obligation. intros path e. split; [done |]. cbn. intros Hr. apply disk_exists_tells. by destruct (disk_exists path e). Qed.
Next Obligation.
  intros path e. unfold wp. simpl. pose proof (disk_removes path e) as HR. destruct (disk_exists path e) eqn:Ee; simpl in *;
    (split; [done |]); (split; [exact HR |]); [done | intros _ _; by apply disk_absent].
Qed.
End instances.

(** * The properties *)

(** A file object just initialised, in its surroundings. *)
Section starts.
Context {E T : Type} `{ErrorTap T}.
Lemma fd_starts (codes : file_codes) `{HFd : FdFiles E, HL : !FdFilesSpec E codes} (e : E) (t : T) :
  fd_ok codes (mkFileWorld FdFile_Initialise e t []).
Proof using.
  split; [done | by left |]. intros path a Hp. unfold fd_view, fd_of, fd_at in Hp. simpl in Hp. by rewrite no_descriptor in Hp.
Qed.
Lemma fat_starts (codes : fat_codes) `{HF : FatFs E, HL : !FatFsSpec E codes} (e : E) (t : T) : fat_place e = None ->
  ad_ok (fat_agree codes) (fat_view codes) (mkFileWorld SolidSyslogFatFsFile_Initialise e t []).
Proof using. intros Hn. split; [done | | done]. split; [done |]. simpl. rewrite Hn. by split; [intros [] | intros []]. Qed.
Lemma plus_starts (codes : plus_codes) `{HF : PlusFat E, HL : !PlusFatSpec E codes} (e : E) (t : T) :
  ad_ok (plus_agree codes) (plus_view codes) (mkFileWorld SolidSyslogPlusFatFile_Initialise e t []).
Proof using. by split. Qed.
(** What [Create] checks of littlefs: a file that is set up right is its own, any other
    the null file, with the one report. *)
Lemma little_starts (noent fs buffer size : Z) `{HF : LittleFs E, HL : !LittleFsSpec E noent fs} (w : file_world lfs_file E T) :
  lfs_place (fl_Env w) = None ->
  wp (SolidSyslogLittleFsFile_Initialise (Some fs) (Some buffer) size) (fun valid w' =>
    if valid : bool then ad_ok (lfs_agree noent fs) (lfs_view noent fs) w' /\ fl_Reports w' = fl_Reports w
    else fo_Base (fl_Self w') = NullFileVtable /\ exists event, fl_Reports w' = fl_Reports w ++ [event]) w.
Proof using.
  intros Hn. unfold SolidSyslogLittleFsFile_Initialise, LittleFsFile_IsValidSetup, become_null, LittleFsFile_Report, File_Report, raise. wp_steps. apply wp_library.
  eapply wp_mono; [apply lfs_cache_law |]. cbv beta. intros cacheSize e' Hsame. pose proof (eq_trans (f_equal fs_At Hsame : lfs_place e' = _) Hn) as Ep.
  wp_steps. destruct (size <? cacheSize); wp_steps.
  - split; [done |]. by eexists.
  - split; [| done]. split; [done | | intros p a Hp; unfold ad_view, lfs_view in Hp; simpl in Hp; by rewrite Ep in Hp].
    split; [done |]. simpl. rewrite Ep. by split; [intros [] |].
Qed.
End starts.

(** C21. Every file keeps the contract.  Over libraries that behave as documented, each of
    the six files does what [SolidSyslogFileDefinition.h] asks of a porter, failures
    included, but for the flush of a write, which three of them leave out.  An open
    creates what is absent and truncates nothing, and a failed one
    leaves the file closed, FatFs's with a close still owed settled first or refused;
    a close always closes; a read gives all the bytes from the position or answers
    false; a write that answers true is in place, whole; one that answers false has put
    down a part of its data; what is removed is gone.  With VxWorks, FatFs and littlefs
    what a write answered true for is also on the medium; of POSIX, Windows and
    FreeRTOS-Plus-FAT this is not claimed ([in_cache]), though the header asks for it: the
    first two leave the data in the kernel's cache ([posix_write_stays_in_cache]), the
    third leaves the size in a directory entry the close writes.  And each tells what the library said
    ([posix_said] to [plus_said]): a call answers false, or reports, exactly when the
    library refused one of its steps, with one report that has the code of that step and
    the library's own error; a short read that is no error is not reported; asking for a
    path and removing one report nothing, and a path the library says is absent counts
    as removed. *)
Theorem files_keep_contract (E T : Type) (HT : ErrorTap T) (codes : file_codes) (fat : fat_codes) (plus : plus_codes) (noent fs : Z)
    (Hfd : FdFiles E) (Hfat : FatFs E) (Hlittle : LittleFs E) (Hplus : PlusFat E)
    (Lfd : FdFilesSpec E codes) (Lfat : FatFsSpec E fat) (Llittle : LittleFsSpec E noent fs) (Lplus : PlusFatSpec E plus) :
  let on_media := true in let in_cache := false in
  keeps_contract SolidSyslogPosixFileErrorSource (PosixFile_vtable codes) (fd_ok codes (T := T)) (fd_view codes) fl_Reports in_cache (fd_medium codes)
    (posix_said codes) /\
  keeps_contract SolidSyslogWindowsFileErrorSource (WindowsFile_vtable codes) (fd_ok codes (T := T)) (fd_view codes) fl_Reports in_cache (fd_medium codes)
    (windows_said codes) /\
  keeps_contract SolidSyslogVxWorks64FileErrorSource (VxWorks64File_vtable codes) (fd_ok codes (T := T)) (fd_view codes) fl_Reports on_media (fd_medium codes)
    (vxworks_said codes) /\
  keeps_contract SolidSyslogFatFsFileErrorSource (FatFsFile_vtable fat) (ad_ok (T := T) (fat_agree fat) (fat_view fat)) (ad_view (fat_view fat))
    fl_Reports on_media (fat_medium fat) (fat_said fat) /\
  keeps_contract SolidSyslogLittleFsFileErrorSource (LittleFsFile_vtable noent) (ad_ok (T := T) (lfs_agree noent fs) (lfs_view noent fs)) (ad_view (lfs_view noent fs))
    fl_Reports on_media (lfs_medium noent fs) (lfs_said noent fs) /\
  keeps_contract SolidSyslogPlusFatFileErrorSource (PlusFatFile_vtable plus) (ad_ok (T := T) (plus_agree plus) (plus_view plus)) (ad_view (plus_view plus))
    fl_Reports in_cache (no_medium plus) (plus_said plus).
Proof.
  cbv zeta. split; [by split; [apply posix_file_keeps | apply posix_file_tells] |]. split; [by split; [apply windows_file_keeps | apply windows_file_tells] |].
  split; [by split; [apply vxworks_file_keeps | apply vxworks_file_tells] |]. split; [by split; [apply fat_file_keeps | apply fat_file_tells] |].
  split; [by split; [apply little_file_keeps | apply little_file_tells] | by split; [apply plus_file_keeps | apply plus_file_tells]].
Qed.

#[local] Instance here_fd : FdFiles disk := disk_fd false.
#[local] Instance here_fd_spec : FdFilesSpec disk disk_file_codes := disk_fd_spec false.
#[local] Instance here_fat : FatFs disk := disk_fat false.
#[local] Instance here_fat_spec : FatFsSpec disk disk_fat_codes := disk_fat_spec false.
Definition empty_disk : disk := mkDisk ∅ ∅ None.
Definition fat_world (e : disk) : file_world fat_file disk ErrorState := mkFileWorld SolidSyslogFatFsFile_Initialise e initial_error_state [].

Lemma files_keep_contract_witness :
  wp (SolidSyslogFile_Open (SolidSyslogFile := FatFsFile_vtable disk_fat_codes) (str "/a"))
    (fun b w' => (exists rs, file_opens SolidSyslogFatFsFileErrorSource (str "/a") (mkFileState ∅ None) b rs (ad_view (fat_view disk_fat_codes) w') /\
      fl_Reports w' = rs) /\ b = true /\ fl_Reports w' = []) (fat_world empty_disk).
Proof.
  pose proof (files_keep_contract disk ErrorState _ disk_file_codes disk_fat_codes disk_plus_codes (-2) 1
    (disk_fd false) (disk_fat false) (disk_little false) (disk_plus false)
    (disk_fd_spec false) (disk_fat_spec false) (disk_little_spec false) (disk_plus_spec false)) as (_ & _ & _ & [HC HT] & _).
  assert (Hn : fat_place empty_disk = None) by (vm_compute; reflexivity).
  pose proof (fat_starts disk_fat_codes empty_disk initial_error_state Hn) as Hok.
  split; [| exact (HT (FileOpen (str "/a")) (fat_world empty_disk) Hok eq_refl)].
  destruct (contract_Open _ _ _ _ _ _ _ HC (str "/a") (fat_world empty_disk) Hok eq_refl) as (_ & rs & Ho & Er).
  exists rs. split; [exact Ho | exact Er].
Defined.


#[local] Instance disk_steady : FdSteady disk disk_file_codes.
Proof.
  split.
  - intros fd path at_ e Hp. eapply at_3_law; [exact Hp | by intros -> _].
  - intros fd path at_ off e Hp Ho [b Eb]. eapply at_3_law; [exact Hp | intros -> Hd]. apply wp_telling.
    unfold wp, disk_seek, on_disk_file. rewrite Hd. cbn in Eb. rewrite Eb. simpl. by destruct (Z.leb_spec 0 off); [| lia].
  - intros fd path at_ e Hp [b Eb]. eapply at_3_law; [exact Hp | intros -> Hd]. apply wp_telling.
    unfold wp, disk_cut, on_disk_file. rewrite Hd. cbn in Eb. by rewrite Eb.
  - intros path e. unfold wp. cbn. destruct (disk_exists path e) eqn:Ee; [done |]. intros _. by apply disk_absent.
  - intros fd path at_ e Hp. eapply at_3_law; [exact Hp | intros -> Hd]. apply wp_telling.
    unfold wp, disk_size, on_disk_file. rewrite Hd. destruct (dk_Files e !! path) as [b |]; [| vm_compute; discriminate].
    destruct (Z.leb_spec (lenZ b) SIZE_MAX); [done | vm_compute; discriminate].
Qed.

#[local] Instance posix_ops : SolidSyslogFile (file_world Z disk ErrorState) := PosixFile_vtable disk_file_codes.
(** A POSIX file just initialised on a volume, and a device on it. *)
Definition posix_world (e : disk) : file_world Z disk ErrorState := mkFileWorld FdFile_Initialise e initial_error_state [].
Definition posix_device (e : disk) : fb_world (file_world Z disk ErrorState) :=
  mkFbWorld (SolidSyslogFileBlockDevice_Initialise (str "/log/sys") 600) (posix_world e).
Definition seven_disk : disk := mkDisk {[ str "/log/sys07.log" := str "seven" ]} ∅ None.


(** ** What the contract leaves open *)

(** Acquiring a block on a volume that refuses the truncate: the device answers that the
    block is ready, and the block still holds what it held. *)
Section refused.
#[local] Instance stuck_fd : FdFiles disk := disk_fd true.
#[local] Instance stuck_ops : SolidSyslogFile (file_world Z disk ErrorState) := PosixFile_vtable disk_file_codes.
Example acquire_ignores_the_truncate :
  let result := SolidSyslogBlockDevice_Acquire (H := stuck_ops) name_area 7 (posix_device seven_disk) in
  fst result = true /\ dk_Files (fl_Env (fw_Files (snd result))) !! str "/log/sys07.log" = Some (str "seven").
Proof. vm_compute. done. Qed.
End refused.

(** A write that answered true is in the file, and not on the medium. *)
Example posix_write_stays_in_cache :
  let opened := snd (PosixFile_Open disk_file_codes (str "/a") (posix_world empty_disk)) in
  let result := PosixFile_Write disk_file_codes (str "hi") opened in
  fst result = true /\ dk_Files (fl_Env (snd result)) !! str "/a" = Some (str "hi") /\ dk_Media (fl_Env (snd result)) !! str "/a" = None.
Proof. vm_compute. done. Qed.
