(* ===== verification/TlsFingerprint.v ===== *)
(** Certificate fingerprints ([SolidSyslogTlsFingerprint.c]): the parser of the
    RFC 5425 section 4.2.2 text form, the inspection of a list of pins, and the
    authorisation of a peer against it.  The parser is proved to accept exactly the
    written form and to depend on the C string alone; the walk over the pins is proved
    to trust a peer only for a pin whose digest the peer's certificate has. *)
From S2P Require Import Prelude.

(** * Data *)

Inductive SolidSyslogTlsHashAlgorithm := SOLIDSYSLOG_TLS_HASH_SHA1 | SOLIDSYSLOG_TLS_HASH_SHA256.
#[export] Instance TlsHashAlgorithm_eq_dec : EqDecision SolidSyslogTlsHashAlgorithm.
Proof. solve_decision. Defined.

Definition TLS_FINGERPRINT_SHA1_LENGTH : Z := 20.
Definition TLS_FINGERPRINT_SHA256_LENGTH : Z := 32.
Definition SOLIDSYSLOG_TLS_FINGERPRINT_DIGEST_MAX : Z := 32.

Record SolidSyslogTlsFingerprint := mkTlsFingerprint {
  fp_Algorithm : SolidSyslogTlsHashAlgorithm;
  fp_Digest : bytes;
  fp_Length : Z
}.
#[export] Instance settable_TlsFingerprint : Settable SolidSyslogTlsFingerprint :=
  fun x => mkTlsFingerprint (fp_Algorithm x) (fp_Digest x) (fp_Length x).

Record SolidSyslogTlsFingerprintLabel := mkTlsFingerprintLabel {
  fl_Label : bytes;
  fl_Algorithm : SolidSyslogTlsHashAlgorithm;
  fl_Length : Z
}.

Inductive SolidSyslogTlsFingerprintListState :=
  SOLIDSYSLOG_TLS_FINGERPRINT_LIST_WELL_FORMED | SOLIDSYSLOG_TLS_FINGERPRINT_LIST_USES_SHA1 | SOLIDSYSLOG_TLS_FINGERPRINT_LIST_MALFORMED.
#[export] Instance TlsFingerprintListState_eq_dec : EqDecision SolidSyslogTlsFingerprintListState.
Proof. solve_decision. Defined.

Inductive SolidSyslogTlsAuthorisation :=
  SOLIDSYSLOG_TLS_AUTHORISATION_MATCHED | SOLIDSYSLOG_TLS_AUTHORISATION_NO_MATCH
  | SOLIDSYSLOG_TLS_AUTHORISATION_MALFORMED | SOLIDSYSLOG_TLS_AUTHORISATION_DIGEST_UNAVAILABLE.
#[export] Instance TlsAuthorisation_eq_dec : EqDecision SolidSyslogTlsAuthorisation.
Proof. solve_decision. Defined.

(** * The parser *)

(** What [*value] is given, when the digit parses. *)
Definition TlsFingerprint_ParseHexDigit (digit : Z) : option Z :=
  if (48 <=? digit) && (digit <=? 57) then Some (u8 (digit - 48))
  else if (65 <=? digit) && (digit <=? 70) then Some (u8 (digit - 65 + 10))
  else if (97 <=? digit) && (digit <=? 102) then Some (u8 (digit - 97 + 10))
  else None.

Definition TlsFingerprint_ParseHexPair (text : bytes) : option Z :=
  match TlsFingerprint_ParseHexDigit text.[0] with
  | None => None
  | Some high =>
      match TlsFingerprint_ParseHexDigit text.[1] with
      | None => None
      | Some low => Some (u8 (Z.lor (u8 (Z.shiftl high 4)) low))
      end
  end.

Definition COLON : Z := 58.

Record hex_loop := mkHexLoop { hx_i : Z; hx_position : Z; hx_parsed : bool; hx_digest : bytes }.
Definition ParseHexPairs_step (text : bytes) (length : Z) (l : hex_loop) : hex_loop :=
  let pair := TlsFingerprint_ParseHexPair (dropZ (hx_position l) text) in
  let digest := match pair with Some value => updZ (hx_digest l) (hx_i l) value | None => hx_digest l end in
  let parsed := match pair with Some _ => true | None => false end in
  let position := size_add (hx_position l) 2 in
  if parsed && (size_add (hx_i l) 1 <? length)
  then mkHexLoop (size_add (hx_i l) 1) (size_add position 1) (text.[position] =? COLON) digest
  else mkHexLoop (size_add (hx_i l) 1) position parsed digest.
(** Answers whether the pairs parsed, and the digest area as it is left. *)
Definition TlsFingerprint_ParseHexPairs (text digest : bytes) (length : Z) : bool * bytes :=
  let l := while (S (Z.to_nat length)) (fun l => (hx_i l <? length) && hx_parsed l)
                 (ParseHexPairs_step text length) (mkHexLoop 0 0 true digest) in
  (hx_parsed l && (text.[hx_position l] =? 0), hx_digest l).

(** What [*digestText] is given, when the label matches. *)
Definition TlsFingerprint_LabelMatches (text label : bytes) : option bytes :=
  let i := while (S (length label)) (fun i => negb (label.[i] =? 0) && (text.[i] =? label.[i]))
                 (fun i => size_add i 1) 0 in
  if (label.[i] =? 0) && (text.[i] =? COLON) then Some (dropZ (size_add i 1) text) else None.

Definition TLS_FINGERPRINT_LABELS : list SolidSyslogTlsFingerprintLabel := [
  mkTlsFingerprintLabel (str "sha-1") SOLIDSYSLOG_TLS_HASH_SHA1 TLS_FINGERPRINT_SHA1_LENGTH;
  mkTlsFingerprintLabel (str "sha-256") SOLIDSYSLOG_TLS_HASH_SHA256 TLS_FINGERPRINT_SHA256_LENGTH ].

(** The table in order until a label matches: the text after it, and [*out] with its
    algorithm and length set. *)
Fixpoint ParseLabel_loop (labels : list SolidSyslogTlsFingerprintLabel) (text : bytes) (out : SolidSyslogTlsFingerprint) : option (bytes * SolidSyslogTlsFingerprint) :=
  match labels with
  | [] => None
  | label :: labels =>
      match TlsFingerprint_LabelMatches text (fl_Label label) with
      | Some digestText => Some (digestText, out <| fp_Algorithm := fl_Algorithm label |> <| fp_Length := fl_Length label |>)
      | None => ParseLabel_loop labels text out
      end
  end.
Definition TlsFingerprint_ParseLabel (text : bytes) (out : SolidSyslogTlsFingerprint) : option (bytes * SolidSyslogTlsFingerprint) :=
  ParseLabel_loop TLS_FINGERPRINT_LABELS text out.

(** Answers whether the text parsed, and [*out] as it is left. *)
Definition SolidSyslogTlsFingerprint_Parse (text : option bytes) (out : option SolidSyslogTlsFingerprint) : bool * option SolidSyslogTlsFingerprint :=
  match text, out with
  | Some text, Some out =>
      match TlsFingerprint_ParseLabel text out with
      | Some (digestText, out) =>
          let '(parsed, digest) := TlsFingerprint_ParseHexPairs digestText (fp_Digest out) (fp_Length out) in
          (parsed, Some (out <| fp_Digest := digest |>))
      | None => (false, Some out)
      end
  | _, _ => (false, out)
  end.

(** * Lists of pins *)

Abbreviation pin_list := (list (option bytes)).
Definition pin_at (pins : pin_list) (i : Z) : option bytes := nth (Z.to_nat i) pins None.

Definition TlsFingerprint_ListIsReadable (fingerprints : option pin_list) (count : Z) : bool :=
  (count =? 0) || (if fingerprints is Some _ then true else false).

(** [fingerprints[i]], read only behind [ListIsReadable]. *)
Definition list_pin (fingerprints : option pin_list) (i : Z) : option bytes :=
  match fingerprints with Some pins => pin_at pins i | None => None end.

Definition SolidSyslogTlsFingerprint_ListIsPresent (fingerprints : option pin_list) (count : Z) : bool :=
  snd (while (S (Z.to_nat count)) (fun '(i, present) => present && (i <? count))
         (fun '(i, present) => (size_add i 1, if list_pin fingerprints i is Some _ then true else false))
         (0, TlsFingerprint_ListIsReadable fingerprints count)).

Definition ListState_value (state : SolidSyslogTlsFingerprintListState) : Z :=
  match state with
  | SOLIDSYSLOG_TLS_FINGERPRINT_LIST_WELL_FORMED => 0
  | SOLIDSYSLOG_TLS_FINGERPRINT_LIST_USES_SHA1 => 1
  | SOLIDSYSLOG_TLS_FINGERPRINT_LIST_MALFORMED => 2
  end.

(** The uninitialised struct on the stack that a text is parsed into. *)
Section pins.
Context (uninitialised : SolidSyslogTlsFingerprint).

Definition TlsFingerprint_InspectOne (text : option bytes) : SolidSyslogTlsFingerprintListState :=
  match SolidSyslogTlsFingerprint_Parse text (Some uninitialised) with
  | (true, Some parsed) =>
      if decide (fp_Algorithm parsed = SOLIDSYSLOG_TLS_HASH_SHA1)
      then SOLIDSYSLOG_TLS_FINGERPRINT_LIST_USES_SHA1 else SOLIDSYSLOG_TLS_FINGERPRINT_LIST_WELL_FORMED
  | _ => SOLIDSYSLOG_TLS_FINGERPRINT_LIST_MALFORMED
  end.

Definition SolidSyslogTlsFingerprint_InspectList (fingerprints : option pin_list) (count : Z) : SolidSyslogTlsFingerprintListState :=
  if TlsFingerprint_ListIsReadable fingerprints count
  then for_range 0 count
         (fun i state => let one := TlsFingerprint_InspectOne (list_pin fingerprints i) in
                         if ListState_value state <? ListState_value one then one else state)
         SOLIDSYSLOG_TLS_FINGERPRINT_LIST_WELL_FORMED
  else SOLIDSYSLOG_TLS_FINGERPRINT_LIST_MALFORMED.

(** * Authorisation *)

(** Constant time: every byte is compared. *)
Definition TlsFingerprint_DigestEquals (pin : SolidSyslogTlsFingerprint) (digest : bytes) (length : Z) : bool :=
  let equal := length =? fp_Length pin in
  if equal
  then for_range 0 length (fun i difference => u8 (Z.lor difference (u8 (Z.lxor (fp_Digest pin).[i] digest.[i])))) 0 =? 0
  else equal.

(** The callback is given the algorithm, the area for the digest and the length as
    they are, and answers, with its result, both as it leaves them. *)
Context {E C : Type}.
Definition SolidSyslogTlsDigestFunction : Type := C -> SolidSyslogTlsHashAlgorithm -> bytes -> Z -> ST E (bool * bytes * Z).
Context (digest : SolidSyslogTlsDigestFunction) (context : C) (uninitialised_area : bytes).

Definition TlsFingerprint_AuthoriseOne (fingerprint : option bytes) : ST E SolidSyslogTlsAuthorisation :=
  match SolidSyslogTlsFingerprint_Parse fingerprint (Some uninitialised) with
  | (true, Some pin) =>
      let! r := digest context (fp_Algorithm pin) uninitialised_area 0 in
      st_ret match r with
             | (true, peerDigest, peerLength) =>
                 if TlsFingerprint_DigestEquals pin peerDigest peerLength
                 then SOLIDSYSLOG_TLS_AUTHORISATION_MATCHED else SOLIDSYSLOG_TLS_AUTHORISATION_NO_MATCH
             | (false, _, _) => SOLIDSYSLOG_TLS_AUTHORISATION_DIGEST_UNAVAILABLE
             end
  | _ => st_ret SOLIDSYSLOG_TLS_AUTHORISATION_MALFORMED
  end.

Record pin_loop := mkPinLoop { pl_i : Z; pl_verdict : SolidSyslogTlsAuthorisation; pl_anySkipped : bool }.
Definition Authorise_step (fingerprints : option pin_list) (count : Z) (l : pin_loop) : ST E (bool * pin_loop) :=
  if (pl_i l <? count) && bool_decide (pl_verdict l = SOLIDSYSLOG_TLS_AUTHORISATION_NO_MATCH)
  then
    let! verdict := TlsFingerprint_AuthoriseOne (list_pin fingerprints (pl_i l)) in
    st_ret (true,
      if decide (verdict = SOLIDSYSLOG_TLS_AUTHORISATION_DIGEST_UNAVAILABLE)
      then mkPinLoop (size_add (pl_i l) 1) SOLIDSYSLOG_TLS_AUTHORISATION_NO_MATCH true
      else mkPinLoop (size_add (pl_i l) 1) verdict (pl_anySkipped l))
  else st_ret (false, l).
Definition SolidSyslogTlsFingerprint_Authorise (fingerprints : option pin_list) (count : Z) : ST E SolidSyslogTlsAuthorisation :=
  let verdict := if negb (TlsFingerprint_ListIsReadable fingerprints count)
                 then SOLIDSYSLOG_TLS_AUTHORISATION_MALFORMED else SOLIDSYSLOG_TLS_AUTHORISATION_NO_MATCH in
  let! l := loopM (S (S (Z.to_nat count))) (Authorise_step fingerprints count) (mkPinLoop 0 verdict false) in
  st_ret (if bool_decide (pl_verdict l = SOLIDSYSLOG_TLS_AUTHORISATION_NO_MATCH) && pl_anySkipped l
          then SOLIDSYSLOG_TLS_AUTHORISATION_DIGEST_UNAVAILABLE else pl_verdict l).
End pins.

(** * The written form *)

Definition digest_length (alg : SolidSyslogTlsHashAlgorithm) : Z :=
  match alg with SOLIDSYSLOG_TLS_HASH_SHA1 => 20 | SOLIDSYSLOG_TLS_HASH_SHA256 => 32 end.
Definition hash_label (alg : SolidSyslogTlsHashAlgorithm) : bytes :=
  match alg with SOLIDSYSLOG_TLS_HASH_SHA1 => str "sha-1" | SOLIDSYSLOG_TLS_HASH_SHA256 => str "sha-256" end.

Definition hex_upper : bytes := str "0123456789ABCDEF".
Definition hex_lower : bytes := str "0123456789abcdef".
Definition hex_digit (v c : Z) : Prop := 0 <= v < 16 /\ (c = hex_upper.[v] \/ c = hex_lower.[v]).

(** [hex_text digest text]: the bytes as pairs of digits, of either case each, joined
    by colons. *)
Inductive hex_text : bytes -> bytes -> Prop :=
| hex_text_last hi lo ch cl : hex_digit hi ch -> hex_digit lo cl -> hex_text [hi * 16 + lo] [ch; cl]
| hex_text_more hi lo ch cl digest text :
    hex_digit hi ch -> hex_digit lo cl -> hex_text digest text ->
    hex_text (hi * 16 + lo :: digest) (ch :: cl :: COLON :: text).

(** RFC 5425, section 4.2.2, for the two algorithms. *)
Definition fingerprint_text (alg : SolidSyslogTlsHashAlgorithm) (digest text : bytes) : Prop :=
  lenZ digest = digest_length alg /\ exists pairs, text = hash_label alg ++ COLON :: pairs /\ hex_text digest pairs.

(** ** Digits and pairs *)

Lemma hex_digit_cases v : 0 <= v < 16 -> In v [0; 1; 2; 3; 4; 5; 6; 7; 8; 9; 10; 11; 12; 13; 14; 15].
Proof. intros. simpl. lia. Qed.
Lemma ParseHexDigit_parses v c : hex_digit v c -> TlsFingerprint_ParseHexDigit c = Some v.
Proof.
  intros [Hv Hc]. apply hex_digit_cases in Hv.
  repeat (destruct Hv as [<- | Hv]; [destruct Hc as [-> | ->]; reflexivity |]). destruct Hv.
Qed.
(** Checked by running it on every byte. *)
Lemma ParseHexDigit_digit v c : TlsFingerprint_ParseHexDigit c = Some v -> hex_digit v c.
Proof.
  intros H. assert (Hc : is_byte c).
  { unfold TlsFingerprint_ParseHexDigit, is_byte in *. repeat destruct_bool_step; bool_to_prop; simplify_eq; lia. }
  pose proof (forall_bytes_spec (fun c => match TlsFingerprint_ParseHexDigit c with
    | Some v => (0 <=? v) && (v <? 16) && ((c =? hex_upper.[v]) || (c =? hex_lower.[v])) | None => true end) c eq_refl Hc) as E.
  cbv beta in E. rewrite H in E. bool_to_prop. split; [lia |].
  match goal with E : orb _ _ = true |- _ => apply orb_prop in E end.
  rewrite <- !Z.eqb_eq. done.
Qed.
Lemma ParseHexDigit_nul : TlsFingerprint_ParseHexDigit 0 = None.
Proof. reflexivity. Qed.
Lemma hex_digit_not_nul v c : hex_digit v c -> c <> 0.
Proof. intros H ->. by apply ParseHexDigit_parses in H. Qed.
Lemma hex_digit_value v c : hex_digit v c -> 0 <= v < 16.
Proof. by intros [? _]. Qed.

Lemma pair_value hi lo : 0 <= hi < 16 -> 0 <= lo < 16 -> u8 (Z.lor (u8 (Z.shiftl hi 4)) lo) = hi * 16 + lo.
Proof.
  intros Hhi Hlo. apply hex_digit_cases in Hhi, Hlo.
  repeat (destruct Hhi as [<- | Hhi];
    [repeat (destruct Hlo as [<- | Hlo]; [reflexivity |]); destruct Hlo |]). destruct Hhi.
Qed.
(** A pair parses where two digits stand. *)
Lemma ParseHexPair_parses hi lo ch cl text : hex_digit hi ch -> hex_digit lo cl ->
  TlsFingerprint_ParseHexPair (ch :: cl :: text) = Some (hi * 16 + lo).
Proof.
  intros Hh Hl. unfold TlsFingerprint_ParseHexPair. change ((ch :: cl :: text).[0]) with ch. change ((ch :: cl :: text).[1]) with cl.
  rewrite (ParseHexDigit_parses hi), (ParseHexDigit_parses lo) by done. rewrite pair_value by (by eapply hex_digit_value). done.
Qed.
Lemma ParseHexPair_pair text value : TlsFingerprint_ParseHexPair text = Some value ->
  exists hi lo ch cl rest, text = ch :: cl :: rest /\ hex_digit hi ch /\ hex_digit lo cl /\ value = hi * 16 + lo.
Proof.
  unfold TlsFingerprint_ParseHexPair. intros H.
  destruct (TlsFingerprint_ParseHexDigit text.[0]) as [hi |] eqn:Eh; [| done].
  destruct (TlsFingerprint_ParseHexDigit text.[1]) as [lo |] eqn:El; [| done].
  destruct text as [| ch [| cl rest]]; [done | done |].
  change ((ch :: cl :: rest).[0]) with ch in Eh. change ((ch :: cl :: rest).[1]) with cl in El.
  apply ParseHexDigit_digit in Eh, El. simplify_eq. rewrite pair_value by (by eapply hex_digit_value).
  by exists hi, lo, ch, cl, rest.
Qed.

(** ** The pairs of a digest, by recursion on how many are left *)

Fixpoint decode_pairs (n : nat) (text : bytes) : option bytes :=
  match TlsFingerprint_ParseHexPair text with
  | None => None
  | Some value =>
      match n with
      | O => if text.[2] =? 0 then Some [value] else None
      | S n => if text.[2] =? COLON then (cons value) <$> decode_pairs n (dropZ 3 text) else None
      end
  end.

(** Taking a C string apart. *)
Lemma cstr_cons_inv text b t : cstr text = b :: t -> exists rest, text = b :: rest /\ cstr rest = t.
Proof. destruct text as [| c rest]; simpl; [done |]. destruct (c =? 0); intros [= -> <-]. by exists rest. Qed.
Lemma cstr_nil_inv text : cstr text = [] -> text.[0] = 0.
Proof. destruct text as [| c rest]; simpl; [done |]. rewrite nthZ_0_cons. destruct (Z.eqb_spec c 0); done. Qed.
Lemma cstr_digits hi lo ch cl text : hex_digit hi ch -> hex_digit lo cl -> cstr (ch :: cl :: text) = ch :: cl :: cstr text.
Proof.
  intros Hh Hl. apply hex_digit_not_nul in Hh, Hl. cbn [cstr].
  destruct (Z.eqb_spec ch 0), (Z.eqb_spec cl 0); done.
Qed.

(** It accepts exactly the written form, in the C string. *)
Lemma decode_pairs_sound n : forall text digest,
  decode_pairs n text = Some digest -> length digest = S n /\ hex_text digest (cstr text).
Proof.
  induction n as [| n IH]; intros text digest; cbn [decode_pairs];
    (destruct (TlsFingerprint_ParseHexPair text) eqn:Ep; [| done]);
    apply ParseHexPair_pair in Ep as (hi & lo & ch & cl & rest & -> & Hh & Hl & ->);
    change ((ch :: cl :: rest).[2]) with (rest.[0]); rewrite (cstr_digits hi lo) by done;
    destruct (_ =? _) eqn:E2; try done; bool_to_prop.
  - intros [= <-]. rewrite cstr_dropZ_nul by done. split; [done | by constructor].
  - destruct rest as [| b rest]; [done |]. rewrite nthZ_0_cons in E2. subst b.
    change (dropZ 3 (ch :: cl :: COLON :: rest)) with rest. change (cstr (COLON :: rest)) with (COLON :: cstr rest).
    destruct (decode_pairs n rest) as [ds |] eqn:Ed; [| done]. intros [= <-].
    apply IH in Ed as [Hlen Ht]. split; [simpl; lia | by constructor].
Qed.
Lemma decode_pairs_complete digest t : hex_text digest t -> forall n text,
  length digest = S n -> cstr text = t -> decode_pairs n text = Some digest.
Proof.
  induction 1 as [hi lo ch cl Hh Hl | hi lo ch cl digest t Hh Hl Ht IH]; intros n text Hlen E;
    apply cstr_cons_inv in E as (r1 & -> & E); apply cstr_cons_inv in E as (r2 & -> & E).
  - injection Hlen as <-. cbn [decode_pairs]. rewrite (ParseHexPair_parses hi lo) by done.
    change ((ch :: cl :: r2).[2]) with (r2.[0]). by rewrite (cstr_nil_inv r2).
  - apply cstr_cons_inv in E as (r3 & -> & E). injection Hlen as Hlen. destruct n as [| n]; [by destruct Ht |].
    cbn [decode_pairs]. rewrite (ParseHexPair_parses hi lo) by done.
    change ((ch :: cl :: COLON :: r3).[2]) with COLON. rewrite Z.eqb_refl.
    change (dropZ 3 (ch :: cl :: COLON :: r3)) with r3. by rewrite (IH n).
Qed.

(** The loop over the pairs is that recursion. *)
Lemma ParseHexPairs_loop text length : length <= SIZE_MAX -> forall n fuel i position digest,
  i + Z.of_nat n + 1 = length -> (S n < fuel)%nat -> 0 <= i -> 0 <= position -> position + 3 * Z.of_nat (S n) <= SIZE_MAX ->
  let l := while fuel (fun l => (hx_i l <? length) && hx_parsed l) (ParseHexPairs_step text length) (mkHexLoop i position true digest) in
  match decode_pairs n (dropZ position text) with
  | Some bs => hx_parsed l && (text.[hx_position l] =? 0) = true /\ (i + lenZ bs <= lenZ digest -> hx_digest l = spliceZ digest i bs)
  | None => hx_parsed l && (text.[hx_position l] =? 0) = false
  end.
Proof.
  intros Hmax. induction n as [| n IH]; intros [| fuel] i position digest Hi Hf Hi0 Hp Hpm l; subst l; try lia;
    (rewrite while_next by (cbn [hx_i hx_parsed]; rewrite andb_true_r; apply Z.ltb_lt; lia));
    cbn [decode_pairs]; rewrite nthZ_dropZ by lia; set (w := while fuel _ _); unfold ParseHexPairs_step;
    cbn [hx_i hx_position hx_parsed hx_digest]; cbv zeta;
    rewrite ?(size_add_small i 1), ?(size_add_small position 2), ?(size_add_small (position + 2) 1) by lia;
    (destruct (TlsFingerprint_ParseHexPair _) as [value |] eqn:Ep; cbn [andb];
      [| subst w; rewrite while_done by (cbn [hx_i hx_parsed]; apply andb_false_r); done]).
  - rewrite (proj2 (Z.ltb_ge (i + 1) length)) by lia. subst w.
    rewrite while_done by (cbn [hx_i hx_parsed]; rewrite (proj2 (Z.ltb_ge _ _)) by lia; done).
    cbn [hx_i hx_position hx_parsed hx_digest andb]. destruct (_ =? 0); [| done]. split; [done |].
    intros Hl. rewrite lenZ_cons in Hl. rewrite <- spliceZ_cons by lia. by rewrite spliceZ_nil.
  - rewrite (proj2 (Z.ltb_lt (i + 1) length)) by lia. replace (position + 2 + 1) with (position + 3) by lia.
    destruct (_ =? COLON).
    + specialize (IH fuel (i + 1) (position + 3) (updZ digest i value)). subst w.
      rewrite dropZ_dropZ by lia.
      destruct (decode_pairs n (dropZ (position + 3) text)) as [bs |]; [| apply IH; lia].
      destruct IH as [Hl Hd]; [lia .. |]. split; [exact Hl |]. rewrite lenZ_cons. intros Hlen.
      rewrite Hd by (rewrite lenZ_updZ; lia). apply spliceZ_cons; lia.
    + subst w. rewrite while_done by (cbn [hx_i hx_parsed]; apply andb_false_r). done.
Qed.

(** ** Labels *)

Lemma LabelMatches_spec text label d : no_nul label -> lenZ label < SIZE_MAX ->
  TlsFingerprint_LabelMatches text label = Some d <-> text = label ++ COLON :: d.
Proof.
  intros Hn Hmax. unfold TlsFingerprint_LabelMatches. pose proof (lenZ_nonneg label) as H0.
  assert (Hnz : forall i, 0 <= i < lenZ label -> label.[i] <> 0).
  { intros i Hi E. apply (proj1 (List.Forall_forall _ _) Hn 0); [| done]. rewrite <- E.
    unfold nthZ. apply nth_In. unfold lenZ in Hi. lia. }
  while_by (fun i => 0 <= i <= lenZ label /\ takeZ i text = takeZ i label) (fun i => lenZ label - i).
  - intros i [Hi Ht] Hc. bool_to_prop.
    assert (i < lenZ label) by (destruct (Z.lt_ge_cases i (lenZ label)); [done |]; by rewrite (nthZ_ge label i) in * by lia).
    assert (i < lenZ text).
    { destruct (Z.lt_ge_cases i (lenZ text)); [done |]. rewrite (nthZ_ge text) in * by lia. by destruct (Hnz i). }
    size_simpl. split; [split; [lia |] | lia].
    rewrite !takeZ_add, Ht by lia. f_equal. rewrite (dropZ_cons_nthZ text), (dropZ_cons_nthZ label) by lia.
    unfold takeZ. change (Z.to_nat 1) with 1%nat. cbn [take]. rewrite !take_0. congruence.
  - split; [lia | done].
  - unfold lenZ. lia.
  - intros i [Hi Ht] Hc.
    destruct (Z.eq_dec i (lenZ label)) as [-> | Hne].
    + rewrite (nthZ_ge label) by lia. rewrite (takeZ_ge _ label) in Ht by lia. cbn [andb Z.eqb].
      size_simpl. pose proof (takeZ_dropZ (lenZ label) text) as E. rewrite Ht in E. split.
      * destruct (_ =? COLON) eqn:Ec; [| done]. bool_to_prop. intros [= <-]. rewrite <- E at 1. f_equal.
        rewrite (dropZ_cons_nthZ text), Ec; [done |]. split; [apply lenZ_nonneg |].
        destruct (Z.lt_ge_cases (lenZ label) (lenZ text)); [done |]. by rewrite nthZ_ge in Ec by lia.
      * intros ->. rewrite nthZ_app_r, Z.sub_diag, nthZ_0_cons by lia. rewrite Z.eqb_refl.
        rewrite dropZ_app_ge by lia. replace (lenZ label + 1 - lenZ label) with 1 by lia. done.
    + rewrite (proj2 (Z.eqb_neq label.[i] 0)) by (apply Hnz; lia). cbn [andb]. split; [done |].
      intros ->. rewrite nthZ_app_l in Hc by lia. rewrite Z.eqb_refl, andb_true_r in Hc. bool_to_prop.
      by destruct (Hnz i ltac:(lia)).
Qed.
Lemma label_text alg : no_nul (hash_label alg) /\ lenZ (hash_label alg) < SIZE_MAX.
Proof. destruct alg; split; vm_compute; by repeat constructor. Qed.

(** The two labels are told apart, and nothing else is one. *)
Lemma ParseLabel_spec text out d out' :
  TlsFingerprint_ParseLabel text out = Some (d, out') <->
  exists alg, text = hash_label alg ++ COLON :: d /\ out' = out <| fp_Algorithm := alg |> <| fp_Length := digest_length alg |>.
Proof.
  pose proof (fun alg d => LabelMatches_spec text (hash_label alg) d (proj1 (label_text alg)) (proj2 (label_text alg))) as Hm.
  pose proof (Hm SOLIDSYSLOG_TLS_HASH_SHA1) as H1. pose proof (Hm SOLIDSYSLOG_TLS_HASH_SHA256) as H2. cbn [hash_label] in H1, H2.
  unfold TlsFingerprint_ParseLabel, TLS_FINGERPRINT_LABELS. cbn [ParseLabel_loop fl_Label fl_Algorithm fl_Length].
  split.
  - destruct (TlsFingerprint_LabelMatches text (str "sha-1")) as [d1 |] eqn:E1.
    + intros [= <- <-]. exists SOLIDSYSLOG_TLS_HASH_SHA1. split; [by apply H1 | done].
    + destruct (TlsFingerprint_LabelMatches text (str "sha-256")) as [d2 |] eqn:E2; [| done].
      intros [= <- <-]. exists SOLIDSYSLOG_TLS_HASH_SHA256. split; [by apply H2 | done].
  - intros ([] & Ht & ->).
    + apply H1 in Ht. by rewrite Ht.
    + destruct (TlsFingerprint_LabelMatches text (str "sha-1")) as [d1 |] eqn:E1.
      * pose proof (proj1 (H1 d1) eq_refl) as E. rewrite E in Ht. discriminate.
      * apply H2 in Ht. by rewrite Ht.
Qed.

(** ** The whole text *)

Definition DIGEST_AREA (fp : SolidSyslogTlsFingerprint) : Prop := lenZ (fp_Digest fp) = SOLIDSYSLOG_TLS_FINGERPRINT_DIGEST_MAX.

Lemma hash_label_cstr alg rest : cstr (hash_label alg ++ COLON :: rest) = hash_label alg ++ COLON :: cstr rest.
Proof. rewrite cstr_app_no_nul by apply label_text. done. Qed.

Lemma ParseHexPairs_decodes alg text area : lenZ area = SOLIDSYSLOG_TLS_FINGERPRINT_DIGEST_MAX ->
  match decode_pairs (pred (Z.to_nat (digest_length alg))) text with
  | Some digest => TlsFingerprint_ParseHexPairs text area (digest_length alg) = (true, spliceZ area 0 digest) /\ lenZ digest = digest_length alg
  | None => fst (TlsFingerprint_ParseHexPairs text area (digest_length alg)) = false
  end.
Proof.
  intros Ha. set (n := pred (Z.to_nat (digest_length alg))).
  assert (Hn : Z.of_nat n + 1 = digest_length alg) by (by destruct alg).
  assert (Hm : 20 <= digest_length alg <= 32) by (destruct alg; simpl; lia).
  unfold SOLIDSYSLOG_TLS_FINGERPRINT_DIGEST_MAX, TlsFingerprint_ParseHexPairs in *.
  pose proof (ParseHexPairs_loop text (digest_length alg) ltac:(unfold SIZE_MAX; lia) n (S (Z.to_nat (digest_length alg))) 0 0 area
    ltac:(lia) ltac:(lia) ltac:(lia) ltac:(lia) ltac:(unfold SIZE_MAX; lia)) as H.
  cbv zeta in H. rewrite dropZ_0 in H. set (w := while _ _ _ _) in *. clearbody w.
  destruct (decode_pairs n text) as [digest |] eqn:Ed; [| exact H].
  apply decode_pairs_sound in Ed as [Hlen _]. destruct H as [H1 H2]. unfold lenZ in *.
  rewrite H1, H2 by lia. split; [done | lia].
Qed.

(** Parsing is decoding, once the label is known. *)
Lemma Parse_decodes alg d out : DIGEST_AREA out ->
  match decode_pairs (pred (Z.to_nat (digest_length alg))) d with
  | Some digest =>
      SolidSyslogTlsFingerprint_Parse (Some (hash_label alg ++ COLON :: d)) (Some out) =
        (true, Some (mkTlsFingerprint alg (spliceZ (fp_Digest out) 0 digest) (digest_length alg))) /\ lenZ digest = digest_length alg
  | None => fst (SolidSyslogTlsFingerprint_Parse (Some (hash_label alg ++ COLON :: d)) (Some out)) = false
  end.
Proof.
  intros Ha. pose proof (ParseHexPairs_decodes alg d (fp_Digest out) Ha) as H. unfold SolidSyslogTlsFingerprint_Parse.
  rewrite (proj2 (ParseLabel_spec _ out d _)) by (by exists alg).
  set (out1 := out <| fp_Algorithm := alg |> <| fp_Length := digest_length alg |>).
  change (fp_Digest out1) with (fp_Digest out). change (fp_Length out1) with (digest_length alg).
  destruct (decode_pairs _ d) as [digest |]; [destruct H as [-> H]; done |].
  by destruct (TlsFingerprint_ParseHexPairs d _ _).
Qed.

Lemma Parse_accepts text out alg digest : DIGEST_AREA out -> fingerprint_text alg digest (cstr text) ->
  SolidSyslogTlsFingerprint_Parse (Some text) (Some out) = (true, Some (mkTlsFingerprint alg (spliceZ (fp_Digest out) 0 digest) (digest_length alg))).
Proof.
  intros Ha (Hlen & pairs & Ht & Hp).
  assert (exists d, text = hash_label alg ++ COLON :: d /\ cstr d = pairs) as (d & -> & Hd).
  { destruct alg; cbv in Ht; repeat (apply cstr_cons_inv in Ht as (? & -> & Ht)); eexists; split; [reflexivity | done | reflexivity | done]. }
  pose proof (Parse_decodes alg d out Ha) as H.
  rewrite (decode_pairs_complete digest pairs Hp _ d) in H; [apply H | | done].
  unfold lenZ in Hlen. assert (1 <= digest_length alg) by (destruct alg; simpl; lia). lia.
Qed.
Lemma Parse_accepted text out out' : DIGEST_AREA out -> SolidSyslogTlsFingerprint_Parse text (Some out) = (true, out') ->
  exists t alg digest, text = Some t /\ fingerprint_text alg digest (cstr t).
Proof.
  intros Ha H. destruct text as [t |]; [| done].
  destruct (TlsFingerprint_ParseLabel t out) as [[d out1] |] eqn:El;
    [| unfold SolidSyslogTlsFingerprint_Parse in H; by rewrite El in H].
  apply ParseLabel_spec in El as (alg & -> & _). pose proof (Parse_decodes alg d out Ha) as Hd.
  destruct (decode_pairs _ d) as [digest |] eqn:Ed; [| by rewrite H in Hd].
  destruct Hd as [_ Hlen]. apply decode_pairs_sound in Ed as [_ Ht].
  exists (hash_label alg ++ COLON :: d), alg, digest. split; [done |]. split; [done |].
  exists (cstr d). by rewrite hash_label_cstr.
Qed.

(** A text is in the written form, or in none. *)
Definition malformed (pin : option bytes) : Prop :=
  forall t alg digest, pin = Some t -> ~ fingerprint_text alg digest (cstr t).
Lemma Parse_cases pin out : DIGEST_AREA out ->
  (exists t alg digest, pin = Some t /\ fingerprint_text alg digest (cstr t) /\
     SolidSyslogTlsFingerprint_Parse pin (Some out) = (true, Some (mkTlsFingerprint alg (spliceZ (fp_Digest out) 0 digest) (digest_length alg))))
  \/ (malformed pin /\ fst (SolidSyslogTlsFingerprint_Parse pin (Some out)) = false).
Proof.
  intros Ha. destruct (SolidSyslogTlsFingerprint_Parse pin (Some out)) as [[] out'] eqn:E.
  - left. pose proof (Parse_accepted _ _ _ Ha E) as (t & alg & digest & -> & Ht).
    exists t, alg, digest. split; [done |]. split; [done |]. rewrite <- E. by apply Parse_accepts.
  - right. split; [| done]. intros t alg digest -> Ht. by rewrite (Parse_accepts t out alg digest) in E.
Qed.
Lemma hex_text_bytes digest t : hex_text digest t -> all_bytes digest.
Proof.
  induction 1 as [hi lo ch cl [Hh _] [Hl _] | hi lo ch cl digest t [Hh _] [Hl _] _ IH];
    repeat constructor; unfold is_byte in *; try lia. exact IH.
Qed.

(** ** Comparing digests *)

Lemma DigestEquals_spec pin area n : 0 <= fp_Length pin <= lenZ area -> fp_Length pin <= lenZ (fp_Digest pin) ->
  all_bytes (fp_Digest pin) -> all_bytes area ->
  TlsFingerprint_DigestEquals pin area n = true <-> n = fp_Length pin /\ takeZ n area = takeZ n (fp_Digest pin).
Proof.
  intros Hn1 Hn2 Hb1 Hb2. unfold TlsFingerprint_DigestEquals. destruct (Z.eqb_spec n (fp_Length pin)) as [-> | Hne];
    [| split; [done | by intros [? _]]].
  rewrite Z.eqb_eq, difference_zero by (lia || done). split; [by intros -> | by intros [_ ->]].
Qed.

(** * Lists of pins: what inspection tells *)

Definition names_hash (alg : SolidSyslogTlsHashAlgorithm) (pin : option bytes) : Prop :=
  exists t digest, pin = Some t /\ fingerprint_text alg digest (cstr t).
Definition inspected (state : SolidSyslogTlsFingerprintListState) (pins : pin_list) : Prop :=
  match state with
  | SOLIDSYSLOG_TLS_FINGERPRINT_LIST_WELL_FORMED => Forall (names_hash SOLIDSYSLOG_TLS_HASH_SHA256) pins
  | SOLIDSYSLOG_TLS_FINGERPRINT_LIST_USES_SHA1 => Forall (fun pin => ~ malformed pin) pins /\ Exists (names_hash SOLIDSYSLOG_TLS_HASH_SHA1) pins
  | SOLIDSYSLOG_TLS_FINGERPRINT_LIST_MALFORMED => Exists malformed pins
  end.

Lemma names_hash_formed alg pin : names_hash alg pin -> ~ malformed pin.
Proof. intros (t & digest & -> & Ht) Hm. exact (Hm t alg digest eq_refl Ht). Qed.
Lemma InspectOne_tells uninitialised pin : DIGEST_AREA uninitialised ->
  match TlsFingerprint_InspectOne uninitialised pin with
  | SOLIDSYSLOG_TLS_FINGERPRINT_LIST_WELL_FORMED => names_hash SOLIDSYSLOG_TLS_HASH_SHA256 pin
  | SOLIDSYSLOG_TLS_FINGERPRINT_LIST_USES_SHA1 => names_hash SOLIDSYSLOG_TLS_HASH_SHA1 pin
  | SOLIDSYSLOG_TLS_FINGERPRINT_LIST_MALFORMED => malformed pin
  end.
Proof.
  intros Ha. unfold TlsFingerprint_InspectOne.
  destruct (Parse_cases pin uninitialised Ha) as [(t & alg & digest & -> & Ht & ->) | [Hm Hp]].
  - cbn [fp_Algorithm]. destruct alg; rewrite ?decide_True by done; [by exists t, digest |].
    destruct (decide _); [done | by exists t, digest].
  - by destruct (SolidSyslogTlsFingerprint_Parse pin (Some uninitialised)) as [[] o].
Qed.
(** One pin more: the worse of the two states. *)
Lemma inspected_snoc pins pin state one :
  inspected state pins -> inspected one [pin] ->
  inspected (if ListState_value state <? ListState_value one then one else state) (pins ++ [pin]).
Proof.
  assert (Hf : forall alg l, Forall (names_hash alg) l -> Forall (fun pin => ~ malformed pin) l).
  { intros alg l. apply Forall_impl, names_hash_formed. }
  intros Hs Ho. destruct state, one; cbn [ListState_value Z.ltb Z.compare Pos.compare Pos.compare_cont inspected] in *;
    rewrite ?Forall_app, ?Exists_app; intuition eauto.
Qed.

Lemma InspectList_tells uninitialised pins count : DIGEST_AREA uninitialised -> 0 <= count <= lenZ pins ->
  inspected (SolidSyslogTlsFingerprint_InspectList uninitialised (Some pins) count) (takeZ count pins).
Proof.
  intros Ha Hc. unfold SolidSyslogTlsFingerprint_InspectList, TlsFingerprint_ListIsReadable. rewrite orb_true_r.
  apply (for_range_inv (fun i state => inspected state (takeZ i pins))); [lia | by constructor |].
  intros i state Hi Hs. cbv zeta. rewrite takeZ_add by lia. replace (takeZ 1 (dropZ i pins)) with [list_pin (Some pins) i].
  - apply inspected_snoc; [done |]. pose proof (InspectOne_tells uninitialised (list_pin (Some pins) i) Ha) as H.
    destruct (TlsFingerprint_InspectOne _ _); cbn [inspected]; rewrite ?Forall_singleton, ?Exists_cons; [done | | by left].
    split; [by eapply names_hash_formed | by left].
  - cbn [list_pin]. unfold pin_at, takeZ, dropZ, lenZ in *. change (Z.to_nat 1) with 1%nat.
    destruct (lookup_lt_is_Some_2 pins (Z.to_nat i)) as [x Hx]; [lia |].
    rewrite (drop_S _ x) by done. cbn [take]. rewrite take_0. f_equal. by apply nth_lookup_Some.
Qed.

(** * The walk over the pins *)

Section walk.
Context (uninitialised : SolidSyslogTlsFingerprint) (uninitialised_area : bytes) {E C : Type}.
Context (digest : SolidSyslogTlsDigestFunction (E := E) (C := C)) (context : C).

(** What one pin makes of a peer, the callback having taken the environment from the
    one state to the other. *)
Inductive pin_verdict : option bytes -> E -> SolidSyslogTlsAuthorisation -> E -> Prop :=
| pin_malformed pin e :
    malformed pin -> pin_verdict pin e SOLIDSYSLOG_TLS_AUTHORISATION_MALFORMED e
| pin_unavailable t alg d e area n e' :
    fingerprint_text alg d (cstr t) -> digest context alg uninitialised_area 0 e = ((false, area, n), e') ->
    pin_verdict (Some t) e SOLIDSYSLOG_TLS_AUTHORISATION_DIGEST_UNAVAILABLE e'
| pin_matched t alg d e area n e' :
    fingerprint_text alg d (cstr t) -> digest context alg uninitialised_area 0 e = ((true, area, n), e') ->
    n = digest_length alg -> takeZ n area = d ->
    pin_verdict (Some t) e SOLIDSYSLOG_TLS_AUTHORISATION_MATCHED e'
| pin_differs t alg d e area n e' :
    fingerprint_text alg d (cstr t) -> digest context alg uninitialised_area 0 e = ((true, area, n), e') ->
    ~ (n = digest_length alg /\ takeZ n area = d) ->
    pin_verdict (Some t) e SOLIDSYSLOG_TLS_AUTHORISATION_NO_MATCH e'.

(** The pins are tried in order until one matches or is malformed; a pin whose hash
    cannot be computed is passed, and remembered in the second argument. *)
Inductive walk : pin_list -> bool -> E -> SolidSyslogTlsAuthorisation -> E -> Prop :=
| walk_end skipped e :
    walk [] skipped e (if skipped then SOLIDSYSLOG_TLS_AUTHORISATION_DIGEST_UNAVAILABLE else SOLIDSYSLOG_TLS_AUTHORISATION_NO_MATCH) e
| walk_stops pin pins skipped e v e' :
    pin_verdict pin e v e' -> v = SOLIDSYSLOG_TLS_AUTHORISATION_MATCHED \/ v = SOLIDSYSLOG_TLS_AUTHORISATION_MALFORMED ->
    walk (pin :: pins) skipped e v e'
| walk_differs pin pins skipped e e' v e'' :
    pin_verdict pin e SOLIDSYSLOG_TLS_AUTHORISATION_NO_MATCH e' -> walk pins skipped e' v e'' -> walk (pin :: pins) skipped e v e''
| walk_skips pin pins skipped e e' v e'' :
    pin_verdict pin e SOLIDSYSLOG_TLS_AUTHORISATION_DIGEST_UNAVAILABLE e' -> walk pins true e' v e'' -> walk (pin :: pins) skipped e v e''.

(** The areas have the size they are declared with, and what the callback leaves in
    its own is still that area: bytes, as many. *)
Context (fits : DIGEST_AREA uninitialised) (bytes_of : all_bytes (fp_Digest uninitialised)).
Context (area_kept : forall alg e, let '(_, area, _) := fst (digest context alg uninitialised_area 0 e) in
  lenZ area = SOLIDSYSLOG_TLS_FINGERPRINT_DIGEST_MAX /\ all_bytes area).

Lemma AuthoriseOne_verdict pin e :
  wp (TlsFingerprint_AuthoriseOne uninitialised digest context uninitialised_area pin) (fun v e' => pin_verdict pin e v e') e.
Proof using fits bytes_of area_kept.
  unfold TlsFingerprint_AuthoriseOne. destruct (Parse_cases pin uninitialised fits) as [(t & alg & d & -> & Ht & ->) | [Hm Hp]].
  - cbn [fp_Algorithm]. apply wp_bind. unfold wp at 1. specialize (area_kept alg e).
    destruct (digest context alg uninitialised_area 0 e) as [[[ok area] n] e'] eqn:Ed. cbn [fst snd] in *. apply wp_ret.
    destruct ok; [| by eapply pin_unavailable]. destruct Ht as (Hlen & Ht).
    assert (all_bytes d) by (destruct Ht as (? & _ & Ht); by eapply hex_text_bytes).
    assert (20 <= lenZ d <= 32) by (rewrite Hlen; destruct alg; simpl; lia).
    unfold DIGEST_AREA, SOLIDSYSLOG_TLS_FINGERPRINT_DIGEST_MAX in *.
    set (pin := mkTlsFingerprint _ _ _). destruct area_kept as [Ha Hb].
    assert (Hd : takeZ (digest_length alg) (fp_Digest pin) = d).
    { cbn [pin fp_Digest]. by rewrite spliceZ_0, takeZ_app_le, takeZ_ge by lia. }
    pose proof (DigestEquals_spec pin area n) as Hs. cbn [pin fp_Length] in Hs. fold pin in Hs.
    assert (Hs' : TlsFingerprint_DigestEquals pin area n = true <-> n = digest_length alg /\ takeZ n area = d).
    { rewrite Hs; cbn [pin fp_Digest]; rewrite ?lenZ_spliceZ; try lia; [| | done].
      - split; intros [-> He]; (split; [done |]); rewrite He; [exact Hd | symmetry; exact Hd].
      - rewrite spliceZ_0. apply Forall_app. split; [done |]. by apply all_bytes_dropZ. }
    destruct (TlsFingerprint_DigestEquals pin area n) eqn:Eq.
    + destruct (proj1 Hs' eq_refl) as [-> Hm]. by eapply pin_matched.
    + eapply pin_differs; [by split | exact Ed |]. intros Hm. apply Hs' in Hm. done.
  - destruct (SolidSyslogTlsFingerprint_Parse pin (Some uninitialised)) as [[] o]; [done |]. by apply wp_ret, pin_malformed.
Qed.

(** The verdict made of the loop's last state. *)
Definition loop_verdict (l : pin_loop) : SolidSyslogTlsAuthorisation :=
  if bool_decide (pl_verdict l = SOLIDSYSLOG_TLS_AUTHORISATION_NO_MATCH) && pl_anySkipped l
  then SOLIDSYSLOG_TLS_AUTHORISATION_DIGEST_UNAVAILABLE else pl_verdict l.

Lemma Authorise_loop_stops fingerprints count l fuel e Q :
  (pl_i l <? count) && bool_decide (pl_verdict l = SOLIDSYSLOG_TLS_AUTHORISATION_NO_MATCH) = false -> Q l e ->
  wp (loopM (S fuel) (Authorise_step uninitialised digest context uninitialised_area fingerprints count) l) Q e.
Proof using. intros Hc HQ. cbn [loopM]. apply wp_bind. unfold Authorise_step. rewrite Hc. by apply wp_ret, wp_ret. Qed.

Lemma Authorise_loop_walks pins count : count <= SIZE_MAX -> forall todo before skipped fuel e,
  takeZ count pins = before ++ todo -> lenZ before + lenZ todo = count -> (length todo < fuel)%nat ->
  wp (loopM fuel (Authorise_step uninitialised digest context uninitialised_area (Some pins) count)
        (mkPinLoop (lenZ before) SOLIDSYSLOG_TLS_AUTHORISATION_NO_MATCH skipped))
     (fun l e' => walk todo skipped e (loop_verdict l) e') e.
Proof using fits bytes_of area_kept.
  intros Hmax. induction todo as [| pin todo IH]; intros before skipped [| fuel] e Hp Hl Hf; try (simpl in Hf; lia).
  - rewrite lenZ_nil in Hl. apply Authorise_loop_stops.
    + cbn [pl_i]. rewrite (proj2 (Z.ltb_ge _ _)) by lia. done.
    + unfold loop_verdict. cbn. apply (walk_end skipped).
  - rewrite lenZ_cons in Hl. pose proof (lenZ_nonneg before). pose proof (lenZ_nonneg todo).
    cbn [loopM]. apply wp_bind. unfold Authorise_step at 1. cbn [pl_i pl_verdict pl_anySkipped].
    rewrite (proj2 (Z.ltb_lt _ _)) by lia. cbn [andb]. rewrite bool_decide_true by done. cbn [list_pin].
    assert (Hat : pin_at pins (lenZ before) = pin).
    { unfold pin_at. rewrite <- (take_drop (Z.to_nat count) pins). fold (takeZ count pins). rewrite Hp, <- app_assoc.
      unfold lenZ. rewrite Nat2Z.id, app_nth2, Nat.sub_diag by lia. done. }
    rewrite Hat. apply wp_bind. eapply wp_mono; [apply AuthoriseOne_verdict |]. cbv beta. intros v e' Hv.
    apply wp_ret. cbn [fst snd]. rewrite size_add_small by lia.
    assert (Hnext : forall sk, wp (loopM fuel (Authorise_step uninitialised digest context uninitialised_area (Some pins) count)
      (mkPinLoop (lenZ before + 1) SOLIDSYSLOG_TLS_AUTHORISATION_NO_MATCH sk)) (fun l e'' => walk todo sk e' (loop_verdict l) e'') e').
    { intros sk. replace (lenZ before + 1) with (lenZ (before ++ [pin])) by (rewrite lenZ_app, lenZ_cons, lenZ_nil; lia).
      apply IH; [by rewrite <- app_assoc | rewrite lenZ_app, lenZ_cons, lenZ_nil; lia | simpl in Hf; lia]. }
    destruct fuel as [| fuel]; [simpl in Hf; lia |].
    destruct (decide (v = SOLIDSYSLOG_TLS_AUTHORISATION_DIGEST_UNAVAILABLE)) as [-> | Hne].
    { eapply wp_mono; [apply Hnext |]. cbv beta. intros l e'' Hw. by eapply walk_skips. }
    destruct v; [| | | done].
    + apply Authorise_loop_stops; [apply andb_false_r | eapply walk_stops; [exact Hv | by left]].
    + eapply wp_mono; [apply Hnext |]. cbv beta. intros l e'' Hw. by eapply walk_differs.
    + apply Authorise_loop_stops; [apply andb_false_r | eapply walk_stops; [exact Hv | by right]].
Qed.

Lemma Authorise_walks fingerprints count e : 0 <= count < SIZE_MAX ->
  wp (SolidSyslogTlsFingerprint_Authorise uninitialised digest context uninitialised_area fingerprints count)
     (fun v e' => match fingerprints with
                  | None => e' = e /\ v = if count =? 0 then SOLIDSYSLOG_TLS_AUTHORISATION_NO_MATCH else SOLIDSYSLOG_TLS_AUTHORISATION_MALFORMED
                  | Some pins => count <= lenZ pins -> walk (takeZ count pins) false e v e'
                  end) e.
Proof using fits bytes_of area_kept.
  intros Hc. unfold SolidSyslogTlsFingerprint_Authorise, TlsFingerprint_ListIsReadable.
  destruct fingerprints as [pins |].
  - rewrite orb_true_r. cbn [negb]. destruct (Z.lt_ge_cases (lenZ pins) count) as [Hlt | Hle];
      [unfold wp; intros; exfalso; lia |].
    apply wp_bind. eapply wp_mono.
    + apply (Authorise_loop_walks pins count ltac:(lia) (takeZ count pins) []); [done | |].
      * rewrite lenZ_nil, lenZ_takeZ; lia.
      * pose proof (lenZ_takeZ count pins ltac:(lia)) as Hl. unfold lenZ in Hl. lia.
    + cbv beta. intros l e' Hw. by apply wp_ret.
  - rewrite orb_false_r. apply wp_bind. destruct (Z.eqb_spec count 0) as [-> |]; cbn [negb];
      (apply Authorise_loop_stops; [| by apply wp_ret]).
    + done.
    + apply andb_false_r.
Qed.

(** What a walk that trusts the peer has found. *)
Lemma walk_matched pins skipped e v e' : walk pins skipped e v e' -> v = SOLIDSYSLOG_TLS_AUTHORISATION_MATCHED ->
  exists t alg d e1 area, In (Some t) pins /\ fingerprint_text alg d (cstr t) /\
    digest context alg uninitialised_area 0 e1 = ((true, area, digest_length alg), e') /\ takeZ (digest_length alg) area = d.
Proof using.
  induction 1 as [[] | pin pins skipped e v e' Hv | pin pins skipped e e' v e'' _ _ IH | pin pins skipped e e' v e'' _ _ IH];
    intros Ev; try done.
  - subst v; inversion Hv; subst; do 5 eexists; split; [by left | done].
  - destruct (IH Ev) as (t & alg & d & e1 & area & Hin & Ht). exists t, alg, d, e1, area. split; [by right | done].
  - destruct (IH Ev) as (t & alg & d & e1 & area & Hin & Ht). exists t, alg, d, e1, area. split; [by right | done].
Qed.
(** Only a pin that is malformed makes the verdict so. *)
Lemma walk_malformed pins skipped e v e' : walk pins skipped e v e' -> v = SOLIDSYSLOG_TLS_AUTHORISATION_MALFORMED ->
  exists pin, In pin pins /\ malformed pin.
Proof using.
  induction 1 as [[] | pin pins skipped e v e' Hv | pin pins skipped e e' v e'' _ _ IH | pin pins skipped e e' v e'' _ _ IH];
    intros Ev; try done.
  - subst v; inversion Hv; subst; eexists; split; [by left | done].
  - destruct (IH Ev) as (p & Hin & Hm). exists p. split; [by right | done].
  - destruct (IH Ev) as (p & Hin & Hm). exists p. split; [by right | done].
Qed.
End walk.

(** The list is there to be read exactly when a count has a list behind it and no
    entry of it is NULL. *)
Lemma ListIsPresent_spec fingerprints count : 0 <= count < SIZE_MAX ->
  SolidSyslogTlsFingerprint_ListIsPresent fingerprints count = true <->
  count = 0 \/ exists pins, fingerprints = Some pins /\ forall i, 0 <= i < count -> pin_at pins i <> None.
Proof.
  intros Hc. unfold SolidSyslogTlsFingerprint_ListIsPresent.
  while_by (fun '((i, present) : Z * bool) => 0 <= i <= count /\
      (present = true <-> TlsFingerprint_ListIsReadable fingerprints count = true /\ forall j, 0 <= j < i -> list_pin fingerprints j <> None))
    (fun l : Z * bool => count - fst l).
  - intros [i present] [Hi Hp] He. bool_to_prop. cbn [fst]. size_simpl. split; [split; [lia |] | lia].
    subst present. destruct (proj1 Hp eq_refl) as [Hr Hall]. destruct (list_pin fingerprints i) as [t |] eqn:Et; split; try done.
    + intros _. split; [done |]. intros j Hj. destruct (Z.eq_dec j i) as [-> |]; [by rewrite Et | apply Hall; lia].
    + intros [_ H]. by destruct (H i ltac:(lia)).
  - split; [lia |]. split; [intros ->; split; [done | intros; lia] | by intros [-> _]].
  - cbn [fst]. lia.
  - intros [i present] [Hi Hp] He. cbn [snd]. rewrite Hp. unfold TlsFingerprint_ListIsReadable in *. split.
    + intros [Hr Hall]. apply orb_prop in Hr as [Hr | Hr]; bool_to_prop; [by left | right].
      destruct fingerprints as [pins |]; [| done]. exists pins. split; [done |]. 
      assert (present = true) as -> by (apply Hp; by rewrite orb_true_r). cbn [andb] in He. bool_to_prop.
      intros j Hj. apply Hall. lia.
    + intros [-> | (pins & -> & Hall)].
      * split; [done | intros; lia].
      * rewrite orb_true_r. split; [done |]. intros j Hj. apply Hall. lia.
Qed.

(** * Properties *)

(** The parser decides the written form of RFC 5425, section 4.2.2: given a text
    and a structure for the result, it answers true exactly when the C string is a
    hash label, a colon and that hash's number of hex pairs, of either case, joined by
    colons, and then the structure holds that hash, its length, and the bytes that the
    pairs write followed by what the area held; NULL is refused.  The answer depends on
    the C string alone, whatever follows its terminator. *)
Theorem Parse_decides_written_form text out : DIGEST_AREA out ->
  (forall t alg digest, text = Some t -> fingerprint_text alg digest (cstr t) ->
     SolidSyslogTlsFingerprint_Parse text (Some out) =
     (true, Some (mkTlsFingerprint alg (digest ++ dropZ (digest_length alg) (fp_Digest out)) (digest_length alg)))) /\
  (fst (SolidSyslogTlsFingerprint_Parse text (Some out)) = true -> ~ malformed text) /\
  (forall t t', cstr t = cstr t' -> fst (SolidSyslogTlsFingerprint_Parse (Some t) (Some out)) = fst (SolidSyslogTlsFingerprint_Parse (Some t') (Some out))) /\
  SolidSyslogTlsFingerprint_Parse text None = (false, None).
Proof.
  intros Ha. split; [| split; [| split]].
  - intros t alg digest -> Ht. rewrite (Parse_accepts t out alg digest) by done. destruct Ht as [Hlen _].
    by rewrite spliceZ_0, Hlen.
  - intros H. destruct (Parse_cases text out Ha) as [(t & alg & digest & -> & Ht & _) | [_ Hp]]; [| congruence].
    intros Hm. exact (Hm t alg digest eq_refl Ht).
  - assert (Himp : forall t t', cstr t = cstr t' -> fst (SolidSyslogTlsFingerprint_Parse (Some t) (Some out)) = true ->
                   fst (SolidSyslogTlsFingerprint_Parse (Some t') (Some out)) = true).
    { intros t t' E H. destruct (Parse_cases (Some t) out Ha) as [(t1 & alg & digest & [= <-] & Ht & _) | [_ Hp]]; [| congruence].
      rewrite E in Ht. by rewrite (Parse_accepts t' out alg digest). }
    intros t t' E. pose proof (Himp t t' E). pose proof (Himp t' t (eq_sym E)).
    destruct (fst (SolidSyslogTlsFingerprint_Parse (Some t) _)), (fst (SolidSyslogTlsFingerprint_Parse (Some t') _)); intuition.
  - by destruct text.
Qed.

(** A pin of each hash, as an integrator writes them. *)
Definition sample_sha1 : bytes := str "sha-1:E1:2D:53:2B:7C:6B:8A:29:A2:76:C8:64:36:0B:08:4B:7A:F1:9E:9D".
Definition sample_sha256 : bytes := str "sha-256:01:23:45:67:89:ab:cd:ef:01:23:45:67:89:AB:CD:EF:01:23:45:67:89:ab:cd:ef:01:23:45:67:89:AB:CD:EF".
Definition sample_area : SolidSyslogTlsFingerprint := mkTlsFingerprint SOLIDSYSLOG_TLS_HASH_SHA1 (replicate 32 0xCC) 0.
Definition sample_digest : bytes :=
  [0x01; 0x23; 0x45; 0x67; 0x89; 0xAB; 0xCD; 0xEF; 0x01; 0x23; 0x45; 0x67; 0x89; 0xAB; 0xCD; 0xEF;
   0x01; 0x23; 0x45; 0x67; 0x89; 0xAB; 0xCD; 0xEF; 0x01; 0x23; 0x45; 0x67; 0x89; 0xAB; 0xCD; 0xEF].

Lemma Parse_decides_written_form_witness :
  SolidSyslogTlsFingerprint_Parse (Some sample_sha256) (Some sample_area) =
    (true, Some (mkTlsFingerprint SOLIDSYSLOG_TLS_HASH_SHA256 sample_digest 32)) /\
  fst (SolidSyslogTlsFingerprint_Parse (Some (sample_sha256 ++ str ":00")) (Some sample_area)) = false /\
  ~ malformed (Some sample_sha256).
Proof.
  split; [vm_compute; reflexivity | split; [vm_compute; reflexivity |]].
  apply (Parse_decides_written_form (Some sample_sha256) sample_area eq_refl). vm_compute. reflexivity.
Defined.

(** C30. A peer is trusted for a pin only.  Whatever the callback that computes digests
    does, over a list of [count] pins Authorise asks about them in order: it stops at
    the first pin whose digest the peer has, with MATCHED, or that is not in the
    written form, with MALFORMED; it passes a pin that differs, and one whose hash
    cannot be computed, and when all were passed answers NO_MATCH or, if a hash was
    missing, DIGEST_UNAVAILABLE.  So MATCHED means that one pin of the list names a
    hash and bytes, and the callback asked for that hash had just answered those bytes,
    all of them.  A count with no list is MALFORMED and nothing is asked; a list that
    the inspection before the handshake did not find malformed never is. *)
Theorem Authorise_trusts_pins uninitialised uninitialised_area {E C : Type} (digest : SolidSyslogTlsDigestFunction) (context : C) fingerprints count (e : E) :
  DIGEST_AREA uninitialised -> all_bytes (fp_Digest uninitialised) ->
  (forall alg e, let '(_, area, _) := fst (digest context alg uninitialised_area 0 e) in
    lenZ area = SOLIDSYSLOG_TLS_FINGERPRINT_DIGEST_MAX /\ all_bytes area) ->
  0 <= count < SIZE_MAX ->
  wp (SolidSyslogTlsFingerprint_Authorise uninitialised digest context uninitialised_area fingerprints count)
     (fun v e' => match fingerprints with
       | None => e' = e /\ v = if count =? 0 then SOLIDSYSLOG_TLS_AUTHORISATION_NO_MATCH else SOLIDSYSLOG_TLS_AUTHORISATION_MALFORMED
       | Some pins =>
           count <= lenZ pins ->
           walk uninitialised_area digest context (takeZ count pins) false e v e' /\
           (v = SOLIDSYSLOG_TLS_AUTHORISATION_MATCHED -> exists t alg d e1 area,
              In (Some t) (takeZ count pins) /\ fingerprint_text alg d (cstr t) /\
              digest context alg uninitialised_area 0 e1 = ((true, area, digest_length alg), e') /\ takeZ (digest_length alg) area = d) /\
           (SolidSyslogTlsFingerprint_InspectList uninitialised fingerprints count <> SOLIDSYSLOG_TLS_FINGERPRINT_LIST_MALFORMED ->
            v <> SOLIDSYSLOG_TLS_AUTHORISATION_MALFORMED)
       end) e.
Proof.
  intros Ha Hb Hk Hc. eapply wp_mono; [by eapply Authorise_walks |]. cbv beta. intros v e' H.
  destruct fingerprints as [pins |]; [| done]. intros Hle. specialize (H Hle).
  split; [done | split].
  - intros Hv. by eapply walk_matched.
  - intros Hi Hv. destruct (walk_malformed _ _ _ _ _ _ _ _ H Hv) as (pin & Hin & Hm).
    pose proof (InspectList_tells uninitialised pins count Ha ltac:(lia)) as Ht.
    destruct (SolidSyslogTlsFingerprint_InspectList _ _ _); cbn [inspected] in Ht; [| | done].
    + rewrite List.Forall_forall in Ht. by eapply names_hash_formed in Hm; [| apply Ht].
    + destruct Ht as [Ht _]. rewrite List.Forall_forall in Ht. by apply (Ht pin).
Qed.

(** A build without SHA-1, and a peer whose certificate has the second pin's digest. *)
Definition sample_callback : SolidSyslogTlsDigestFunction (E := list SolidSyslogTlsHashAlgorithm) (C := unit) :=
  fun _ alg area length asked =>
    (match alg with
     | SOLIDSYSLOG_TLS_HASH_SHA1 => (false, replicate 32 0, length)
     | SOLIDSYSLOG_TLS_HASH_SHA256 => (true, sample_digest, 32)
     end, asked ++ [alg]).
Definition sample_pins : pin_list := [Some sample_sha1; Some sample_sha256; None].

Lemma Authorise_trusts_pins_witness :
  SolidSyslogTlsFingerprint_Authorise sample_area sample_callback tt [] (Some sample_pins) 3 [] =
    (SOLIDSYSLOG_TLS_AUTHORISATION_MATCHED, [SOLIDSYSLOG_TLS_HASH_SHA1; SOLIDSYSLOG_TLS_HASH_SHA256]) /\
  walk [] sample_callback tt sample_pins false [] SOLIDSYSLOG_TLS_AUTHORISATION_MATCHED [SOLIDSYSLOG_TLS_HASH_SHA1; SOLIDSYSLOG_TLS_HASH_SHA256].
Proof.
  split; [vm_compute; reflexivity |].
  refine (proj1 (Authorise_trusts_pins sample_area [] sample_callback tt (Some sample_pins) 3 [] eq_refl _ _ _ _)).
  - apply Forall_replicate. unfold is_byte. lia.
  - intros [] e; split; try reflexivity; repeat constructor; unfold is_byte; lia.
  - unfold SIZE_MAX. lia.
  - vm_compute. discriminate.
Defined.

Example skipped_pin_is_named :
  fst (SolidSyslogTlsFingerprint_Authorise sample_area sample_callback tt [] (Some [Some sample_sha1]) 1 []) =
  SOLIDSYSLOG_TLS_AUTHORISATION_DIGEST_UNAVAILABLE.
Proof. vm_compute. reflexivity. Qed.
Example null_pin_is_malformed :
  SolidSyslogTlsFingerprint_InspectList sample_area (Some sample_pins) 3 = SOLIDSYSLOG_TLS_FINGERPRINT_LIST_MALFORMED /\
  SolidSyslogTlsFingerprint_InspectList sample_area (Some sample_pins) 2 = SOLIDSYSLOG_TLS_FINGERPRINT_LIST_USES_SHA1.
Proof. vm_compute. done. Qed.
