(* ===== verification/Pools.v ===== *)
(** Static pools: the lock that guards creation and destruction
    ([SolidSyslogConfigLock.c]), the allocator of slots ([SolidSyslogPoolAllocator.c])
    and what every [*Static.c] file does with it: Create claims a slot and initialises
    the object in it, Destroy finds the slot of a handle, cleans the object up under
    the lock and gives the slot back.  A pool is proved to refine a table of leases,
    for one task by any sequence of calls, and the claiming of slots to be exclusive
    for any number of tasks. *)
From stdpp Require Import gmap functions.
From S2P Require Import Prelude Errors PendingEvents.
#[local] Open Scope Z_scope.

(** * The config lock *)

Section config_lock.
Context {E : Type}.
Definition SolidSyslogConfigLockFunction : Type := option Z -> ST E unit.
Definition ConfigLock_NoOp : SolidSyslogConfigLockFunction := fun _ => st_ret tt.
Record ConfigLock := mkConfigLock {
  ConfigLock_Lock : SolidSyslogConfigLockFunction;
  ConfigLock_Unlock : SolidSyslogConfigLockFunction;
  ConfigLock_Context : option Z
}.
#[export] Instance settable_ConfigLock : Settable ConfigLock := fun l => mkConfigLock (ConfigLock_Lock l) (ConfigLock_Unlock l) (ConfigLock_Context l).
Definition initial_config_lock : ConfigLock := mkConfigLock ConfigLock_NoOp ConfigLock_NoOp None.
Definition SolidSyslog_SetConfigLock (lockFn unlockFn : option SolidSyslogConfigLockFunction) (context : option Z) (self : ConfigLock) : ConfigLock :=
  let self := self <| ConfigLock_Context := context |> in
  let self := match lockFn with
    | None => self <| ConfigLock_Lock := ConfigLock_NoOp |>
    | Some lockFn => self <| ConfigLock_Lock := lockFn |>
    end in
  match unlockFn with
  | None => self <| ConfigLock_Unlock := ConfigLock_NoOp |>
  | Some unlockFn => self <| ConfigLock_Unlock := unlockFn |>
  end.
End config_lock.
Arguments ConfigLock : clear implicits.
Arguments SolidSyslogConfigLockFunction : clear implicits.

(** * A pool in its environment *)

Record SolidSyslogPoolAllocator := mkPoolAllocator { pa_InUse : list bool; pa_Count : Z }.
#[export] Instance settable_PoolAllocator : Settable SolidSyslogPoolAllocator := fun a => mkPoolAllocator (pa_InUse a) (pa_Count a).

(** Seen from outside: the lock taken and released, an object set up or cleaned up in
    its slot, a fault raised. *)
Inductive pool_event :=
| Locked
| Unlocked
| Initialised (index : Z)
| Cleaned (index : Z)
| Raised (severity category detail : Z).

Record pool_world (T E : Type) := mkPoolWorld {
  pw_Allocator : SolidSyslogPoolAllocator;
  pw_Pool : list T;
  pw_ConfigLock : ConfigLock E;
  pw_Env : E;
  pw_Trace : list pool_event
}.
Arguments mkPoolWorld {T E} _ _ _ _ _.
Arguments pw_Allocator {T E} _.
Arguments pw_Pool {T E} _.
Arguments pw_ConfigLock {T E} _.
Arguments pw_Env {T E} _.
Arguments pw_Trace {T E} _.
#[export] Instance settable_PoolWorld {T E} : Settable (pool_world T E) :=
  fun w => mkPoolWorld (pw_Allocator w) (pw_Pool w) (pw_ConfigLock w) (pw_Env w) (pw_Trace w).

(** A handle: the address of a slot of the pool, or any other address, the first of
    them the fallback a failed Create answers. *)
Inductive pool_handle := Slot (index : Z) | Elsewhere (address : Z).
Definition Fallback : pool_handle := Elsewhere 0.
#[export] Instance pool_handle_eq_dec : EqDecision pool_handle.
Proof. solve_decision. Defined.

Section pool.
Context {T E : Type} `{ErrorTap E}.
Abbreviation pool_op := (ST (pool_world T E)).
Implicit Types (w : pool_world T E).

Definition pool_happens (e : pool_event) : pool_op unit := st_mod (fun w => w <| pw_Trace := pw_Trace w ++ [e] |>).
Definition pool_env {A} (m : ST E A) : pool_op A := zoom pw_Env (fun e w => w <| pw_Env := e |>) m.
Definition pool_report (source : SolidSyslogErrorSource) (severity category detail : Z) : pool_op unit :=
  pool_env (fun e => (tt, tap_error severity (Some source) category detail e)) ;;;
  pool_happens (Raised severity category detail).

Definition SolidSyslog_LockConfig : pool_op unit :=
  let! lock := st_get pw_ConfigLock in
  pool_env (ConfigLock_Lock lock (ConfigLock_Context lock)) ;;;
  pool_happens Locked.
Definition SolidSyslog_UnlockConfig : pool_op unit :=
  let! lock := st_get pw_ConfigLock in
  pool_env (ConfigLock_Unlock lock (ConfigLock_Context lock)) ;;;
  pool_happens Unlocked.

(** ** The allocator *)

Definition SolidSyslogPoolAllocator_IndexIsValid (self : SolidSyslogPoolAllocator) (index : Z) : bool := index <? pa_Count self.
Definition PoolAllocator_SlotIsInUse (self : SolidSyslogPoolAllocator) (index : Z) : bool := nth (Z.to_nat index) (pa_InUse self) false.
Definition PoolAllocator_SlotIsFree (self : SolidSyslogPoolAllocator) (index : Z) : bool := negb (PoolAllocator_SlotIsInUse self index).
Definition PoolAllocator_MarkInUse (index : Z) : pool_op unit :=
  st_mod (fun w => w <| pw_Allocator := (pw_Allocator w) <| pa_InUse := updZ (pa_InUse (pw_Allocator w)) index true |> |>).
Definition PoolAllocator_MarkFree (index : Z) : pool_op unit :=
  st_mod (fun w => w <| pw_Allocator := (pw_Allocator w) <| pa_InUse := updZ (pa_InUse (pw_Allocator w)) index false |> |>).

Definition PoolAllocator_TryClaim (index : Z) : pool_op bool :=
  SolidSyslog_LockConfig ;;;
  let! claimed := st_get (fun w => PoolAllocator_SlotIsFree (pw_Allocator w) index) in
  if! claimed then PoolAllocator_MarkInUse index end! ;;;
  SolidSyslog_UnlockConfig ;;;
  st_ret claimed.

Definition AcquireFirstFree_step (acquired : Z) : pool_op (bool * Z) :=
  let! count := st_get (fun w => pa_Count (pw_Allocator w)) in
  if acquired <? count
  then
    let! claimed := PoolAllocator_TryClaim acquired in
    st_ret (if claimed then (false, acquired) else (true, size_add acquired 1))
  else st_ret (false, acquired).
Definition SolidSyslogPoolAllocator_AcquireFirstFree : pool_op Z :=
  let! count := st_get (fun w => pa_Count (pw_Allocator w)) in
  loopM (S (Z.to_nat count)) AcquireFirstFree_step 0.

Definition SolidSyslogPoolAllocator_FreeIfInUse (index : Z) (cleanup : option (Z -> pool_op unit)) : pool_op bool :=
  SolidSyslog_LockConfig ;;;
  let! released := st_get (fun w => PoolAllocator_SlotIsInUse (pw_Allocator w) index) in
  if! released then
    match cleanup with Some cleanup => cleanup index | None => st_ret tt end ;;;
    PoolAllocator_MarkFree index
  end! ;;;
  SolidSyslog_UnlockConfig ;;;
  st_ret released.

(** ** The objects in the slots *)

(** A step on the object of a slot and the environment. *)
Definition at_slot (index : Z) (m : T -> ST E T) : pool_op unit :=
  fun w => match pw_Pool w !! Z.to_nat index with
           | Some self => let '(self, e) := m self (pw_Env w) in (tt, w <| pw_Pool := updZ (pw_Pool w) index self |> <| pw_Env := e |>)
           | None => (tt, w)
           end.
Definition initialise_at (index : Z) (m : T -> ST E T) : pool_op unit := at_slot index m ;;; pool_happens (Initialised index).
Definition cleanup_at (m : T -> ST E T) (index : Z) : pool_op unit := at_slot index m ;;; pool_happens (Cleaned index).

(** [for (poolIndex = 0; poolIndex < size; poolIndex++)] with its [break]. *)
Definition handle_is (base : pool_handle) (poolIndex : Z) : bool := bool_decide (base = Slot poolIndex).
Fixpoint handle_loop (n : nat) (poolIndex size : Z) (base : pool_handle) : Z :=
  match n with
  | O => size
  | S n => if handle_is base poolIndex then poolIndex else handle_loop n (size_add poolIndex 1) size base
  end.
Definition index_from_handle (size : Z) (base : pool_handle) : Z := handle_loop (Z.to_nat size) 0 size base.
End pool.
Abbreviation pool_op T E := (ST (pool_world T E)).

(** * The pattern of a [*Static.c] file

    What one file differs in from another: the size of its pool, the check of the
    configuration (the detail code of what is wrong), how an object is set up and
    cleaned up, and the codes it reports with. *)
Class PoolClass (T E Config : Type) := {
  pc_Size : Z;
  pc_Source : SolidSyslogErrorSource;
  pc_Check : Config -> option Z;
  pc_Initialise : Config -> Z -> T -> ST E T;
  pc_Cleanup : T -> ST E T;
  pc_Exhausted : Z;
  pc_UnknownDestroy : Z
}.

Section pool_class.
Context {T E Config : Type} `{ErrorTap E} `{C : PoolClass T E Config}.
Implicit Types (w : pool_world T E).

Definition pool_fault (severity category detail : Z) : pool_op T E unit := pool_report pc_Source severity category detail.

(** The middle of every Create: a slot and the object in it, or the report. *)
Definition claim_slot (m : Z -> T -> ST E T) (exhausted : pool_op T E unit) : pool_op T E pool_handle :=
  let! index := SolidSyslogPoolAllocator_AcquireFirstFree in
  let! allocator := st_get pw_Allocator in
  if SolidSyslogPoolAllocator_IndexIsValid allocator index
  then initialise_at index (m index) ;;; st_ret (Slot index)
  else exhausted ;;; st_ret Fallback.
(** The middle of every Destroy. *)
Definition release_slot (index : Z) (cleanup : Z -> pool_op T E unit) : pool_op T E bool :=
  let! allocator := st_get pw_Allocator in
  if SolidSyslogPoolAllocator_IndexIsValid allocator index
  then SolidSyslogPoolAllocator_FreeIfInUse index (Some cleanup)
  else st_ret false.

Definition pool_create (config : Config) : pool_op T E pool_handle :=
  match pc_Check config with
  | Some detail => pool_fault SOLIDSYSLOG_BAD_CONFIG_FATAL_SEVERITY SOLIDSYSLOG_CAT_BAD_CONFIG detail ;;; st_ret Fallback
  | None => claim_slot (pc_Initialise config) (pool_fault SOLIDSYSLOG_POOL_EXHAUSTED_SEVERITY SOLIDSYSLOG_CAT_POOL_EXHAUSTED pc_Exhausted)
  end.
Definition pool_destroy (base : pool_handle) : pool_op T E unit :=
  let! released := release_slot (index_from_handle pc_Size base) (cleanup_at pc_Cleanup) in
  if! negb released then
    pool_fault SOLIDSYSLOG_UNKNOWN_DESTROY_SEVERITY SOLIDSYSLOG_CAT_UNKNOWN_DESTROY pc_UnknownDestroy
  end!.

(** * What a pool promises: leases

    Calls on a pool: creating, destroying, and a client working on the object of a
    slot through a handle it was given. *)
Inductive pool_call := Create (config : Config) | Destroy (base : pool_handle) | Use (slot : nat) (m : T -> ST E T).
Section calls.
Context (create : Config -> pool_op T E pool_handle) (destroy : pool_handle -> pool_op T E unit).
Definition pool_run (call : pool_call) : pool_op T E (option pool_handle) :=
  match call with
  | Create config => let! h := create config in st_ret (Some h)
  | Destroy base => destroy base ;;; st_ret None
  | Use slot m => at_slot (Z.of_nat slot) m ;;; st_ret None
  end.
Fixpoint pool_runs (calls : list pool_call) : pool_op T E (list (option pool_handle)) :=
  match calls with
  | [] => st_ret []
  | call :: calls => let! answer := pool_run call in let! answers := pool_runs calls in st_ret (answer :: answers)
  end.
End calls.

Definition tries (n : nat) : list pool_event := concat (replicate n [Locked; Unlocked]).

(** The table of leases: the objects in the slots that are handed out.  A call's
    answer, what is seen of it, and the table after it. *)
Inductive lease_step (live : gmap Z T) : pool_call -> option pool_handle -> list pool_event -> gmap Z T -> Prop :=
| lease_refused config detail :
    pc_Check config = Some detail ->
    lease_step live (Create config) (Some Fallback) [Raised SOLIDSYSLOG_BAD_CONFIG_FATAL_SEVERITY SOLIDSYSLOG_CAT_BAD_CONFIG detail] live
| lease_exhausted config :
    pc_Check config = None -> (forall i, 0 <= i < pc_Size -> is_Some (live !! i)) ->
    lease_step live (Create config) (Some Fallback)
      (tries (Z.to_nat pc_Size) ++ [Raised SOLIDSYSLOG_POOL_EXHAUSTED_SEVERITY SOLIDSYSLOG_CAT_POOL_EXHAUSTED pc_Exhausted]) live
| lease_granted config i old e :
    pc_Check config = None -> 0 <= i < pc_Size -> live !! i = None -> (forall j, 0 <= j < i -> is_Some (live !! j)) ->
    lease_step live (Create config) (Some (Slot i)) (tries (Z.to_nat (i + 1)) ++ [Initialised i])
      (<[i := fst (pc_Initialise config i old e)]> live)
| lease_ended i :
    is_Some (live !! i) ->
    lease_step live (Destroy (Slot i)) None [Locked; Cleaned i; Unlocked] (delete i live)
| lease_unknown base before :
    (forall i, base = Slot i -> live !! i = None) -> before = [] \/ before = [Locked; Unlocked] ->
    lease_step live (Destroy base) None
      (before ++ [Raised SOLIDSYSLOG_UNKNOWN_DESTROY_SEVERITY SOLIDSYSLOG_CAT_UNKNOWN_DESTROY pc_UnknownDestroy]) live
| lease_used slot m o e :
    live !! Z.of_nat slot = Some o -> lease_step live (Use slot m) None [] (<[Z.of_nat slot := fst (m o e)]> live)
| lease_use_of_none slot m :
    live !! Z.of_nat slot = None -> lease_step live (Use slot m) None [] live.
Inductive lease_steps : gmap Z T -> list pool_call -> list (option pool_handle) -> list pool_event -> gmap Z T -> Prop :=
| lease_done live : lease_steps live [] [] [] live
| lease_next live call answer events live' calls answers events' live'' :
    lease_step live call answer events live' -> lease_steps live' calls answers events' live'' ->
    lease_steps live (call :: calls) (answer :: answers) (events ++ events') live''.

(** The pool as the table it stands for. *)
Definition in_use (w : pool_world T E) (i : Z) : bool := PoolAllocator_SlotIsInUse (pw_Allocator w) i.
Record pool_ok (live : gmap Z T) (w : pool_world T E) : Prop := {
  ok_size : 0 <= pc_Size < SIZE_MAX;
  ok_count : pa_Count (pw_Allocator w) = pc_Size;
  ok_flags : lenZ (pa_InUse (pw_Allocator w)) = pc_Size;
  ok_pool : lenZ (pw_Pool w) = pc_Size;
  ok_live : forall i, live !! i = if (0 <=? i) && in_use w i then pw_Pool w !! Z.to_nat i else None
}.

(** What one call does, as a step of the table. *)
Definition leases live w call answer w' : Prop :=
  exists events live', lease_step live call answer events live' /\ pool_ok live' w' /\ pw_Trace w' = pw_Trace w ++ events.
Record keeps_leases (create : Config -> pool_op T E pool_handle) (destroy : pool_handle -> pool_op T E unit) : Prop := {
  kl_create : forall live w config, pool_ok live w -> wp (create config) (fun h w' => leases live w (Create config) (Some h) w') w;
  kl_destroy : forall live w base, pool_ok live w -> wp (destroy base) (fun _ w' => leases live w (Destroy base) None w') w
}.
(** What any sequence of calls does, as a run of the table. *)
Definition refines_leases (create : Config -> pool_op T E pool_handle) (destroy : pool_handle -> pool_op T E unit) : Prop :=
  forall calls live w, pool_ok live w ->
  wp (pool_runs create destroy calls) (fun answers w' => exists events live',
    lease_steps live calls answers events live' /\ pool_ok live' w' /\ pw_Trace w' = pw_Trace w ++ events) w.
End pool_class.

(** * The refinement *)

Section refinement.
Context {T E Config : Type} `{ErrorTap E} `{C : PoolClass T E Config}.
Implicit Types (w : pool_world T E) (live : gmap Z T).

(** A step that leaves the slots and the lock as they are, and is seen as [events]. *)
Definition quiet w (events : list pool_event) w' : Prop :=
  pw_Allocator w' = pw_Allocator w /\ pw_Pool w' = pw_Pool w /\ pw_Trace w' = pw_Trace w ++ events.
Lemma quiet_trans w e1 w1 e2 w2 : quiet w e1 w1 -> quiet w1 e2 w2 -> quiet w (e1 ++ e2) w2.
Proof. intros (? & ? & Ht1) (? & ? & Ht2). unfold quiet. rewrite Ht2, Ht1, <- app_assoc. repeat split; congruence. Qed.
Lemma quiet_ok live w events w' : quiet w events w' -> pool_ok live w -> pool_ok live w'.
Proof.
  intros (Ha & Hp & _) []. constructor; unfold in_use in *; rewrite ?Ha, ?Hp; done.
Qed.

Lemma LockConfig_wp w (Q : unit -> pool_world T E -> Prop) :
  (forall w', quiet w [Locked] w' -> Q tt w') -> wp SolidSyslog_LockConfig Q w.
Proof.
  intros HQ. unfold SolidSyslog_LockConfig, pool_env, pool_happens, zoom, wp, st_bind, st_get, st_mod.
  destruct (ConfigLock_Lock _ _ _) as [[] e]. by apply HQ.
Qed.
Lemma UnlockConfig_wp w (Q : unit -> pool_world T E -> Prop) :
  (forall w', quiet w [Unlocked] w' -> Q tt w') -> wp SolidSyslog_UnlockConfig Q w.
Proof.
  intros HQ. unfold SolidSyslog_UnlockConfig, pool_env, pool_happens, zoom, wp, st_bind, st_get, st_mod.
  destruct (ConfigLock_Unlock _ _ _) as [[] e]. by apply HQ.
Qed.
Lemma pool_report_wp source severity category detail w (Q : unit -> pool_world T E -> Prop) :
  (forall w', quiet w [Raised severity category detail] w' -> Q tt w') -> wp (pool_report source severity category detail) Q w.
Proof. intros HQ. unfold pool_report, pool_env, pool_happens, zoom, wp, st_bind, st_get, st_mod. by apply HQ. Qed.

(** The slots with one flag changed. *)
Definition flagged w (index : Z) (flag : bool) w' : Prop :=
  pw_Allocator w' = (pw_Allocator w) <| pa_InUse := updZ (pa_InUse (pw_Allocator w)) index flag |> /\ pw_Pool w' = pw_Pool w.

Lemma TryClaim_wp index w (Q : bool -> pool_world T E -> Prop) :
  (forall w', in_use w index = true -> quiet w [Locked; Unlocked] w' -> Q false w') ->
  (forall w', in_use w index = false -> flagged w index true w' -> pw_Trace w' = pw_Trace w ++ [Locked; Unlocked] -> Q true w') ->
  wp (PoolAllocator_TryClaim index) Q w.
Proof.
  intros Hf Ht. unfold PoolAllocator_TryClaim, PoolAllocator_MarkInUse. apply wp_bind, LockConfig_wp. intros w1 (Ha1 & Hp1 & Ht1).
  wp_steps. unfold PoolAllocator_SlotIsFree. rewrite Ha1. fold (in_use w index). destruct (in_use w index) eqn:Eu; cbn [negb]; wp_steps;
    apply UnlockConfig_wp; intros w2 (Ha2 & Hp2 & Ht2); apply wp_ret.
  - apply Hf; [done |]. unfold quiet. rewrite Ha2, Hp2, Ht2, Ht1, <- app_assoc. done.
  - cbn in Ha2, Hp2, Ht2. apply Ht; [done | unfold flagged; rewrite Ha2, Hp2, Ha1; done |].
    by rewrite Ht2, Ht1, <- app_assoc.
Qed.

Lemma tries_S n : tries (S n) = [Locked; Unlocked] ++ tries n.
Proof. reflexivity. Qed.
Lemma tries_snoc n : tries n ++ [Locked; Unlocked] = tries (S n).
Proof. induction n as [| n IH]; [done |]. by rewrite tries_S, <- app_assoc, IH, (tries_S (S n)). Qed.

(** The first free slot, taken; or the end of the table, with every slot in use. *)
Lemma AcquireFirstFree_wp live w (Q : Z -> pool_world T E -> Prop) :
  pool_ok live w ->
  (forall w', (forall i, 0 <= i < pc_Size -> in_use w i = true) -> quiet w (tries (Z.to_nat pc_Size)) w' -> Q pc_Size w') ->
  (forall i w', 0 <= i < pc_Size -> in_use w i = false -> (forall j, 0 <= j < i -> in_use w j = true) ->
     flagged w i true w' -> pw_Trace w' = pw_Trace w ++ tries (Z.to_nat (i + 1)) -> Q i w') ->
  wp SolidSyslogPoolAllocator_AcquireFirstFree Q w.
Proof.
  intros [Hs Hc Hl Hp Hm] Hfull Hfree. unfold SolidSyslogPoolAllocator_AcquireFirstFree. wp_steps. rewrite Hc.
  apply (wp_loopM (fun i w' => 0 <= i <= pc_Size /\ (forall j, 0 <= j < i -> in_use w j = true) /\ quiet w (tries (Z.to_nat i)) w')
           (fun i _ => pc_Size - i)).
  - split; [lia | split; [intros; lia |]]. unfold quiet. change (tries (Z.to_nat 0)) with (@nil pool_event). by rewrite app_nil_r.
  - lia.
  - intros i w1 (Hi & Hall & Hq). split; [lia |]. pose proof Hq as (Ha & _ & Htr). unfold AcquireFirstFree_step. wp_steps. rewrite Ha, Hc.
    destruct (Z.ltb_spec i pc_Size) as [Hlt | Hge]; wp_steps; cbn [fst snd].
    + apply TryClaim_wp.
      * intros w2 Hu Hq2. wp_steps. cbn [fst snd]. rewrite size_add_small by lia. split; [| lia]. split; [lia |].
        unfold in_use in Hu. rewrite Ha in Hu. split.
        -- intros j Hj. destruct (Z.eq_dec j i) as [-> |]; [done | apply Hall; lia].
        -- replace (Z.to_nat (i + 1)) with (S (Z.to_nat i)) by lia. rewrite <- tries_snoc. by eapply quiet_trans.
      * intros w2 Hu [Ha2 Hp2] Ht2. wp_steps. cbn [fst snd]. unfold in_use in Hu. rewrite Ha in Hu. destruct Hq as (_ & Hpq & _).
        apply Hfree; [lia | done | done | unfold flagged; by rewrite Ha2, Ha, Hp2, Hpq |].
        rewrite Ht2, Htr, <- app_assoc, tries_snoc. do 2 f_equal. lia.
    + assert (i = pc_Size) as -> by lia. by apply Hfull.
Qed.

(** A table of leases sees a slot in use as an entry. *)
Lemma live_in_use live w i : pool_ok live w -> 0 <= i < pc_Size -> (is_Some (live !! i) <-> in_use w i = true).
Proof.
  intros Hok Hi. rewrite (ok_live _ _ Hok), (proj2 (Z.leb_le 0 i)) by lia. cbn [andb].
  destruct (in_use w i); split; [done | intros _ | by intros [] | done].
  apply lookup_lt_is_Some. pose proof (ok_pool _ _ Hok). unfold lenZ in *. lia.
Qed.
Lemma live_bounds live w i : pool_ok live w -> is_Some (live !! i) -> 0 <= i < pc_Size /\ in_use w i = true.
Proof.
  intros Hok [o Ho]. rewrite (ok_live _ _ Hok) in Ho. destruct (Z.leb_spec 0 i) as [Hi |]; [| done]. cbn [andb] in Ho.
  destruct (in_use w i) eqn:Eu; [| done]. split; [| done]. split; [done |]. unfold in_use, PoolAllocator_SlotIsInUse in Eu.
  destruct (Z.lt_ge_cases i pc_Size) as [| Hge]; [done |]. pose proof (ok_flags _ _ Hok). unfold lenZ in *.
  rewrite nth_overflow in Eu by lia. done.
Qed.
Lemma flag_at (l : list bool) i j flag : 0 <= i < lenZ l -> 0 <= j ->
  nth (Z.to_nat j) (updZ l i flag) false = if decide (j = i) then flag else nth (Z.to_nat j) l false.
Proof.
  unfold updZ, lenZ. intros Hi Hj. rewrite !nth_lookup. destruct (decide (j = i)) as [-> | Hne].
  - by rewrite list_lookup_insert_eq by lia.
  - by rewrite list_lookup_insert_ne by lia.
Qed.

(** A slot taken and its object set up: one lease more. *)
Lemma granted_ok live w w1 w2 i o : pool_ok live w -> 0 <= i < pc_Size -> flagged w i true w1 ->
  pw_Allocator w2 = pw_Allocator w1 -> pw_Pool w2 = updZ (pw_Pool w1) i o -> pool_ok (<[i := o]> live) w2.
Proof.
  intros [Hs Hc Hl Hp Hm] Hi [Ha1 Hp1] Ha2 Hp2. constructor; try done.
  - by rewrite Ha2, Ha1.
  - rewrite Ha2, Ha1. cbn. by rewrite lenZ_updZ.
  - by rewrite Hp2, lenZ_updZ, Hp1.
  - intros j. unfold in_use, PoolAllocator_SlotIsInUse. rewrite Ha2, Ha1, Hp2, Hp1. cbn.
    destruct (Z.leb_spec 0 j) as [Hj |]; cbn [andb].
    + rewrite flag_at by lia. destruct (decide (j = i)) as [-> | Hne].
      * rewrite lookup_insert_eq. unfold updZ. rewrite list_lookup_insert_eq; [done |]. unfold lenZ in *. lia.
      * rewrite lookup_insert_ne by done. unfold updZ. rewrite list_lookup_insert_ne by lia.
        specialize (Hm j). unfold in_use, PoolAllocator_SlotIsInUse in Hm. by rewrite (proj2 (Z.leb_le 0 j)) in Hm by lia.
    + rewrite lookup_insert_ne by lia. specialize (Hm j). rewrite (proj2 (Z.leb_gt 0 j)) in Hm by lia. done.
Qed.
(** A slot given back, whatever became of its object: one lease less. *)
Lemma ended_ok live w w' i o : pool_ok live w -> 0 <= i < pc_Size ->
  pw_Allocator w' = (pw_Allocator w) <| pa_InUse := updZ (pa_InUse (pw_Allocator w)) i false |> ->
  pw_Pool w' = updZ (pw_Pool w) i o -> pool_ok (delete i live) w'.
Proof.
  intros [Hs Hc Hl Hp Hm] Hi Ha Hp'. constructor; try done.
  - by rewrite Ha.
  - rewrite Ha. cbn. by rewrite lenZ_updZ.
  - by rewrite Hp', lenZ_updZ.
  - intros j. unfold in_use, PoolAllocator_SlotIsInUse. rewrite Ha, Hp'. cbn.
    destruct (Z.leb_spec 0 j) as [Hj |]; cbn [andb].
    + rewrite flag_at by lia. destruct (decide (j = i)) as [-> | Hne]; [by rewrite lookup_delete_eq |].
      rewrite lookup_delete_ne by done. unfold updZ. rewrite list_lookup_insert_ne by lia.
      specialize (Hm j). unfold in_use, PoolAllocator_SlotIsInUse in Hm. by rewrite (proj2 (Z.leb_le 0 j)) in Hm by lia.
    + rewrite lookup_delete_ne by lia. specialize (Hm j). rewrite (proj2 (Z.leb_gt 0 j)) in Hm by lia. done.
Qed.
(** An object worked on in place. *)
Lemma used_ok live w w' i o : pool_ok live w -> pw_Allocator w' = pw_Allocator w -> pw_Pool w' = updZ (pw_Pool w) i o ->
  0 <= i < pc_Size -> pool_ok (if in_use w i then <[i := o]> live else live) w'.
Proof.
  intros [Hs Hc Hl Hp Hm] Ha Hp' Hi. constructor; rewrite ?Ha; try done.
  - by rewrite Hp', lenZ_updZ.
  - intros j. replace (in_use w' j) with (in_use w j) by (unfold in_use; by rewrite Ha). rewrite Hp'. specialize (Hm j).
    destruct (decide (j = i)) as [-> | Hne].
    + rewrite (proj2 (Z.leb_le 0 i)) in Hm |- * by lia. cbn [andb] in *. destruct (in_use w i); [| exact Hm].
      rewrite lookup_insert_eq. unfold updZ, lenZ in *. by rewrite list_lookup_insert_eq by lia.
    + destruct (Z.leb_spec 0 j); cbn [andb] in *.
      * unfold updZ. rewrite list_lookup_insert_ne by lia. destruct (in_use w i); [rewrite lookup_insert_ne by congruence |]; exact Hm.
      * destruct (in_use w i); [rewrite lookup_insert_ne by congruence |]; exact Hm.
Qed.

Lemma at_slot_wp i m w o (Q : unit -> pool_world T E -> Prop) : pw_Pool w !! Z.to_nat i = Some o ->
  Q tt (w <| pw_Pool := updZ (pw_Pool w) i (fst (m o (pw_Env w))) |> <| pw_Env := snd (m o (pw_Env w)) |>) -> wp (at_slot i m) Q w.
Proof. intros Ho HQ. unfold wp, at_slot. rewrite Ho. by destruct (m o (pw_Env w)). Qed.
Lemma pool_lookup live w i : pool_ok live w -> 0 <= i < pc_Size -> exists o, pw_Pool w !! Z.to_nat i = Some o.
Proof. intros Hok Hi. pose proof (ok_pool _ _ Hok). unfold lenZ in *. apply lookup_lt_is_Some. lia. Qed.

Lemma handle_loop_spec base size : size < SIZE_MAX -> forall n i, 0 <= i -> i + Z.of_nat n = size ->
  handle_loop n i size base = match base with Slot k => if (i <=? k) && (k <? size) then k else size | Elsewhere _ => size end.
Proof.
  intros Hs. induction n as [| n IH]; intros i Hi Hn; cbn [handle_loop].
  - destruct base as [k |]; [| done]. by destruct (Z.leb_spec i k), (Z.ltb_spec k size); try lia.
  - unfold handle_is. rewrite size_add_small, IH by lia. destruct base as [k | a].
    + case_bool_decide as Ek; [injection Ek as -> |].
      * rewrite Z.leb_refl, (proj2 (Z.ltb_lt _ _)) by lia. done.
      * assert (k <> i) by congruence. destruct (Z.leb_spec (i + 1) k), (Z.leb_spec i k); try done; lia.
    + by case_bool_decide.
Qed.
Lemma index_from_handle_spec size base : 0 <= size < SIZE_MAX ->
  index_from_handle size base = match base with Slot k => if (0 <=? k) && (k <? size) then k else size | Elsewhere _ => size end.
Proof. intros. unfold index_from_handle. apply handle_loop_spec; lia. Qed.

(** ** Each call is a step of the table *)

Lemma create_leases live w config : pool_ok live w ->
  wp (pool_create config) (fun h w' => leases live w (Create config) (Some h) w') w.
Proof.
  intros Hok. unfold pool_create. destruct (pc_Check config) as [detail |] eqn:Ec.
  - apply wp_bind, pool_report_wp. intros w1 Hq. apply wp_ret. do 2 eexists. split; [by constructor |].
    split; [by eapply quiet_ok | by destruct Hq as (_ & _ & ->)].
  - unfold claim_slot. apply wp_bind. apply (AcquireFirstFree_wp live); [done | |].
    + intros w1 Hfull Hq. wp_steps. pose proof Hq as (Ha & Hp & Ht). unfold SolidSyslogPoolAllocator_IndexIsValid.
      rewrite Ha, (ok_count _ _ Hok), Z.ltb_irrefl. apply wp_bind, pool_report_wp. intros w2 Hq2. apply wp_ret. do 2 eexists.
      split; [apply lease_exhausted; [done |] | split].
      * intros i Hi. apply (live_in_use _ w); [done | done | by apply Hfull].
      * eapply quiet_ok; [exact (quiet_trans _ _ _ _ _ Hq Hq2) | done].
      * destruct Hq2 as (_ & _ & ->). by rewrite Ht, <- app_assoc.
    + intros i w1 Hi Hfree Hused Hf Ht. wp_steps. pose proof Hf as [Ha Hp]. unfold SolidSyslogPoolAllocator_IndexIsValid.
      rewrite Ha. cbn. rewrite (ok_count _ _ Hok), (proj2 (Z.ltb_lt _ _)) by lia. unfold initialise_at.
      destruct (pool_lookup live w i Hok Hi) as [o Ho]. apply wp_bind, wp_bind. eapply at_slot_wp; [by rewrite Hp |].
      unfold pool_happens. wp_steps. do 2 eexists. split; [apply lease_granted; try done | split].
      * destruct (live !! i) eqn:El; [| done].
        pose proof (live_bounds live w i Hok ltac:(by eexists)) as [_ Hu]. congruence.
      * intros j Hj. apply (live_in_use live w); [done | lia | by apply Hused].
      * eapply granted_ok; [done | done | exact Hf | done |]. cbn. reflexivity.
      * cbn. by rewrite Ht, <- app_assoc.
Qed.

(** Giving a slot back that is held, and one that is not. *)
Lemma FreeIfInUse_wp live w i (Q : bool -> pool_world T E -> Prop) : pool_ok live w -> 0 <= i < pc_Size ->
  (forall w', is_Some (live !! i) -> pool_ok (delete i live) w' -> pw_Trace w' = pw_Trace w ++ [Locked; Cleaned i; Unlocked] -> Q true w') ->
  (forall w', live !! i = None -> quiet w [Locked; Unlocked] w' -> Q false w') ->
  wp (SolidSyslogPoolAllocator_FreeIfInUse i (Some (cleanup_at pc_Cleanup))) Q w.
Proof.
  intros Hok Hi Hheld Hfree. unfold SolidSyslogPoolAllocator_FreeIfInUse. apply wp_bind, LockConfig_wp. intros w1 Hq1.
  pose proof Hq1 as (Ha1 & Hp1 & Ht1). wp_steps. rewrite Ha1. fold (in_use w i).
  pose proof (live_in_use live w i Hok Hi) as Hlive. destruct (in_use w i) eqn:Eu; wp_steps.
  - unfold cleanup_at. destruct (pool_lookup live w i Hok Hi) as [o Ho]. rewrite <- Hp1 in Ho.
    apply wp_bind. eapply at_slot_wp; [done |]. unfold pool_happens, PoolAllocator_MarkFree. wp_steps.
    apply UnlockConfig_wp. intros w2 (Ha2 & Hp2 & Ht2). apply wp_ret. cbn in Ha2, Hp2, Ht2. apply Hheld.
    + by apply Hlive.
    + eapply ended_ok; [done | done | by rewrite Ha2, Ha1 | by rewrite Hp2, Hp1].
    + by rewrite Ht2, Ht1, <- !app_assoc.
  - apply UnlockConfig_wp. intros w2 Hq2. apply wp_ret. apply Hfree; [| exact (quiet_trans _ _ _ _ _ Hq1 Hq2)].
    destruct (live !! i); [| done]. by discriminate (proj1 Hlive (mk_is_Some _ _ eq_refl)).
Qed.

Lemma destroy_leases live w base : pool_ok live w ->
  wp (pool_destroy base) (fun _ w' => leases live w (Destroy base) None w') w.
Proof.
  intros Hok. pose proof (ok_size _ _ Hok) as Hs. unfold pool_destroy, release_slot.
  assert (Hunknown : forall before w1, (forall i, base = Slot i -> live !! i = None) -> before = [] \/ before = [Locked; Unlocked] ->
    quiet w before w1 -> wp (pool_fault SOLIDSYSLOG_UNKNOWN_DESTROY_SEVERITY SOLIDSYSLOG_CAT_UNKNOWN_DESTROY pc_UnknownDestroy)
      (fun _ w' => leases live w (Destroy base) None w') w1).
  { intros before w1 Hn Hb Hq. apply pool_report_wp. intros w2 Hq2. pose proof (quiet_trans _ _ _ _ _ Hq Hq2) as Hq'. do 2 eexists.
    split; [by apply lease_unknown | split; [exact (quiet_ok _ _ _ _ Hq' Hok) | by destruct Hq' as (_ & _ & ->)]]. }
  apply wp_bind, wp_bind, wp_get. unfold SolidSyslogPoolAllocator_IndexIsValid.
  rewrite (ok_count _ _ Hok), index_from_handle_spec by lia.
  assert (Hout : (forall i, base = Slot i -> ~ 0 <= i < pc_Size) -> wp (pool_fault SOLIDSYSLOG_UNKNOWN_DESTROY_SEVERITY SOLIDSYSLOG_CAT_UNKNOWN_DESTROY pc_UnknownDestroy)
      (fun _ w' => leases live w (Destroy base) None w') w).
  { intros Hn. apply (Hunknown []); [| by left | unfold quiet; by rewrite app_nil_r].
    intros i Hi. destruct (live !! i) eqn:El; [| done]. destruct (Hn i Hi). by apply (live_bounds live w i Hok). }
  destruct base as [i | a].
  - destruct ((0 <=? i) && (i <? pc_Size)) eqn:Ei.
    + bool_to_prop. rewrite (proj2 (Z.ltb_lt i pc_Size)) by lia. apply (FreeIfInUse_wp live); [done | lia | |].
      * intros w1 Hheld Hok' Ht. apply wp_ret. do 2 eexists. split; [by apply lease_ended | done].
      * intros w1 Hnone Hq. apply (Hunknown [Locked; Unlocked]); [by intros j [= <-] | by right | done].
    + rewrite Z.ltb_irrefl. apply wp_ret. cbn [negb]. apply Hout. intros j [= <-] Hj.
      by rewrite (proj2 (Z.leb_le _ _)), (proj2 (Z.ltb_lt _ _)) in Ei by lia.
  - rewrite Z.ltb_irrefl. apply wp_ret. cbn [negb]. by apply Hout.
Qed.

Lemma use_leases live w slot m : pool_ok live w -> wp (at_slot (Z.of_nat slot) m) (fun _ w' => leases live w (Use slot m) None w') w.
Proof.
  intros Hok. set (i := Z.of_nat slot). destruct (pw_Pool w !! Z.to_nat i) as [o |] eqn:Eo.
  - assert (Hi : 0 <= i < pc_Size).
    { rewrite <- (ok_pool _ _ Hok). unfold lenZ. apply lookup_lt_Some in Eo. lia. }
    eapply at_slot_wp; [done |]. pose proof (live_in_use live w i Hok Hi) as Hlive. pose proof (ok_live _ _ Hok i) as Hl.
    rewrite (proj2 (Z.leb_le 0 i)) in Hl by lia. cbn [andb] in Hl.
    match goal with |- leases _ _ _ _ ?w' => set (w1 := w') end.
    pose proof (used_ok live w w1 i (fst (m o (pw_Env w))) Hok ltac:(reflexivity) ltac:(reflexivity) Hi) as Hok'.
    destruct (in_use w i); do 2 eexists; (split; [| split; [exact Hok' | by rewrite app_nil_r]]).
    + apply (lease_used _ slot m o (pw_Env w)). fold i. by rewrite Hl.
    + by apply lease_use_of_none.
  - unfold wp, at_slot. rewrite Eo. exists [], live. split; [| split; [done | by rewrite app_nil_r]].
    apply lease_use_of_none. fold i. rewrite (ok_live _ _ Hok), Eo. by destruct (_ && _).
Qed.

Lemma pool_keeps_leases : keeps_leases pool_create pool_destroy.
Proof. constructor; intros; [by apply create_leases | by apply destroy_leases]. Qed.
(** The same functions, written another way. *)
Lemma keeps_leases_ext create destroy :
  (forall config w, create config w = pool_create config w) -> (forall base w, destroy base w = pool_destroy base w) ->
  keeps_leases create destroy.
Proof.
  intros Hc Hd. constructor; intros live w x Hok; unfold wp; [rewrite Hc | rewrite Hd];
    [by apply create_leases | by apply destroy_leases].
Qed.

Lemma run_leases create destroy live w call : keeps_leases create destroy -> pool_ok live w ->
  wp (pool_run create destroy call) (fun answer w' => leases live w call answer w') w.
Proof.
  intros [Hc Hd] Hok. destruct call as [config | base | slot m]; cbn [pool_run]; apply wp_bind; eapply wp_mono.
  - by apply Hc.
  - cbv beta. intros h w' Hl. by apply wp_ret.
  - by apply Hd.
  - cbv beta. intros _ w' Hl. by apply wp_ret.
  - by apply use_leases.
  - cbv beta. intros _ w' Hl. by apply wp_ret.
Qed.
Lemma keeps_refines create destroy : keeps_leases create destroy -> refines_leases create destroy.
Proof.
  intros Hk calls. induction calls as [| call calls IH]; intros live w Hok; cbn [pool_runs].
  - apply wp_ret. exists [], live. split; [constructor | split; [done | by rewrite app_nil_r]].
  - apply wp_bind. eapply wp_mono; [by apply run_leases |]. cbv beta. intros answer w1 (e1 & live1 & Hs & Hok1 & Ht1).
    apply wp_bind. eapply wp_mono; [by apply IH |]. cbv beta. intros answers w2 (e2 & live2 & Hs2 & Hok2 & Ht2).
    apply wp_ret. exists (e1 ++ e2), live2. split; [by eapply lease_next | split; [done |]]. by rewrite Ht2, Ht1, app_assoc.
Qed.

(** Steps on the environment before or after a call are not seen. *)
Lemma pool_env_wp (m : ST E unit) w (Q : unit -> pool_world T E -> Prop) :
  (forall w', quiet w [] w' -> Q tt w') -> wp (pool_env m) Q w.
Proof.
  intros HQ. unfold wp, pool_env, zoom. destruct (m (pw_Env w)) as [[] e]. apply HQ. unfold quiet. by rewrite app_nil_r.
Qed.
Lemma leases_after live w w1 call answer w' : quiet w [] w1 -> leases live w1 call answer w' -> leases live w call answer w'.
Proof. intros (_ & _ & Ht) (ev & live' & ? & ? & Ht'). exists ev, live'. rewrite app_nil_r in Ht. by rewrite Ht', Ht. Qed.
Lemma leases_before live w call answer w1 w' : leases live w call answer w1 -> quiet w1 [] w' -> leases live w call answer w'.
Proof.
  intros (ev & live' & ? & ? & Ht') Hq. exists ev, live'. split; [done |]. split; [by eapply quiet_ok |].
  destruct Hq as (_ & _ & ->). by rewrite app_nil_r.
Qed.
End refinement.

(** * Tasks that create and destroy at the same time

    The unit of interleaving is what runs between [SolidSyslog_LockConfig] and
    [SolidSyslog_UnlockConfig]: one try of one slot, or one release.  Between two tries
    of its scan a task may be overtaken by any others. *)
Section tasks.
Context {T E Config : Type} `{ErrorTap E} `{C : PoolClass T E Config}.

(** What a task is at: between calls, with the slots of the handles it was given and
    has not destroyed; or inside Create, about to try a slot. *)
Inductive task := Resting (held : list Z) | Claiming (held : list Z) (acquired : Z).
Definition task_held (t : task) : list Z := match t with Resting held => held | Claiming held _ => held end.
Record system := mkSystem { sys_World : pool_world T E; sys_Tasks : nat -> task }.

Inductive sys_step : system -> system -> Prop :=
| sys_create w tasks t held :
    tasks t = Resting held ->
    sys_step (mkSystem w tasks) (mkSystem w (<[t := Claiming held 0]> tasks))
| sys_claimed w w' tasks t held i :
    tasks t = Claiming held i -> i < pa_Count (pw_Allocator w) -> PoolAllocator_TryClaim i w = (true, w') ->
    sys_step (mkSystem w tasks) (mkSystem w' (<[t := Resting (i :: held)]> tasks))
| sys_passed w w' tasks t held i :
    tasks t = Claiming held i -> i < pa_Count (pw_Allocator w) -> PoolAllocator_TryClaim i w = (false, w') ->
    sys_step (mkSystem w tasks) (mkSystem w' (<[t := Claiming held (size_add i 1)]> tasks))
| sys_exhausted w tasks t held i :
    tasks t = Claiming held i -> ~ i < pa_Count (pw_Allocator w) ->
    sys_step (mkSystem w tasks) (mkSystem w (<[t := Resting held]> tasks))
| sys_used w w' tasks t held i m :
    tasks t = Resting held -> i ∈ held -> at_slot i m w = (tt, w') ->
    sys_step (mkSystem w tasks) (mkSystem w' tasks)
| sys_destroyed w w' tasks t held i released :
    tasks t = Resting held -> i ∈ held ->
    SolidSyslogPoolAllocator_FreeIfInUse i (Some (cleanup_at pc_Cleanup)) w = (released, w') ->
    sys_step (mkSystem w tasks) (mkSystem w' (<[t := Resting (filter (fun j => j <> i) held)]> tasks)).

(** Each lease is held by one task, once. *)
Record exclusive (s : system) : Prop := {
  ex_live : exists live, pool_ok live (sys_World s) /\
    forall i, is_Some (live !! i) <-> exists t, i ∈ task_held (sys_Tasks s t);
  ex_one : forall t1 t2 i, i ∈ task_held (sys_Tasks s t1) -> i ∈ task_held (sys_Tasks s t2) -> t1 = t2;
  ex_once : forall t, NoDup (task_held (sys_Tasks s t));
  ex_at : forall t held i, sys_Tasks s t = Claiming held i -> 0 <= i
}.

Lemma wp_result {S A} (m : ST S A) a s s' Q : m s = (a, s') -> wp m Q s -> Q a s'.
Proof. unfold wp. by intros ->. Qed.
Lemma held_insert tasks t x u : task_held ((<[t := x]> tasks : nat -> task) u) = if decide (u = t) then task_held x else task_held (tasks u).
Proof. destruct (decide (u = t)) as [-> |]; [by rewrite fn_lookup_insert | by rewrite fn_lookup_insert_ne]. Qed.

(** A step that leaves each task what it holds. *)
Lemma exclusive_same w w' tasks tasks' live : exclusive (mkSystem w tasks) -> pool_ok live w' ->
  (forall live0, pool_ok live0 w -> forall i, is_Some (live0 !! i) <-> is_Some (live !! i)) ->
  (forall u, task_held (tasks' u) = task_held (tasks u)) ->
  (forall u held i, tasks' u = Claiming held i -> 0 <= i) -> exclusive (mkSystem w' tasks').
Proof.
  intros [(live0 & Hok0 & Hl0) H1 H2 H3] Hok Hsame Hheld Hat. constructor; cbn [sys_World sys_Tasks] in *.
  - exists live. split; [done |]. intros i. rewrite <- (Hsame live0 Hok0 i), Hl0. by setoid_rewrite Hheld.
  - intros t1 t2 i. rewrite !Hheld. apply H1.
  - intros t. rewrite Hheld. apply H2.
  - done.
Qed.
Lemma live_unique live1 live2 w : pool_ok live1 w -> pool_ok live2 w -> forall i, is_Some (live1 !! i) <-> is_Some (live2 !! i).
Proof. intros [_ _ _ _ H1] [_ _ _ _ H2] i. by rewrite H1, H2. Qed.

(** A claimed slot goes to a task that did not hold it, and no other did. *)
Lemma exclusive_claimed w w' tasks t held i : exclusive (mkSystem w tasks) -> tasks t = Claiming held i ->
  i < pa_Count (pw_Allocator w) -> PoolAllocator_TryClaim i w = (true, w') ->
  exclusive (mkSystem w' (<[t := Resting (i :: held)]> tasks)).
Proof.
  intros [(live & Hok & Hl) H1 H2 H3] Et Hlt Ew. cbn [sys_World sys_Tasks] in *. pose proof (H3 t held i Et) as Hi0.
  rewrite (ok_count _ _ Hok) in Hlt. destruct (pool_lookup live w i Hok ltac:(lia)) as [o Ho].
  assert (Hc : in_use w i = false /\ flagged w i true w').
  { apply (wp_result _ _ _ _ (fun r w' => r = true -> in_use w i = false /\ flagged w i true w') Ew); [| done].
    by apply TryClaim_wp. }
  destruct Hc as [Hu Hf]. assert (Hnone : ~ exists u, i ∈ task_held (tasks u)).
  { rewrite <- Hl. rewrite (live_in_use live w) by (done || lia). by rewrite Hu. }
  assert (Hheld : forall u j, j ∈ task_held ((<[t := Resting (i :: held)]> tasks : nat -> task) u) <->
                    (u = t /\ j = i) \/ j ∈ task_held (tasks u)).
  { intros u j. rewrite held_insert. destruct (decide (u = t)) as [-> |]; [| naive_solver]. rewrite Et. cbn [task_held].
    rewrite elem_of_cons. naive_solver. }
  constructor; cbn [sys_World sys_Tasks].
  - exists (<[i := o]> live). split.
    + eapply granted_ok; [exact Hok | lia | exact Hf | done |]. destruct Hf as [_ ->]. unfold updZ. by rewrite list_insert_id.
    + intros j. setoid_rewrite Hheld. destruct (decide (j = i)) as [-> |]; [rewrite lookup_insert_eq; naive_solver |].
      rewrite lookup_insert_ne, Hl by done. naive_solver.
  - intros t1 t2 j. rewrite !Hheld. naive_solver.
  - intros u. rewrite held_insert. destruct (decide (u = t)) as [-> |]; [| done]. cbn [task_held].
    constructor; [| pose proof (H2 t) as Hn; by rewrite Et in Hn]. intros Hin. apply Hnone. exists t. by rewrite Et.
  - intros u h j. destruct (decide (u = t)) as [-> |]; [by rewrite fn_lookup_insert | rewrite fn_lookup_insert_ne by done; apply H3].
Qed.

(** A destroyed slot was held by that task, is released, and is held by no one. *)
Lemma exclusive_destroyed w w' tasks t held i released : exclusive (mkSystem w tasks) -> tasks t = Resting held -> i ∈ held ->
  SolidSyslogPoolAllocator_FreeIfInUse i (Some (cleanup_at pc_Cleanup)) w = (released, w') ->
  released = true /\ exclusive (mkSystem w' (<[t := Resting (filter (fun j => j <> i) held)]> tasks)).
Proof.
  intros [(live & Hok & Hl) H1 H2 H3] Et Hin Ew. cbn [sys_World sys_Tasks] in *.
  assert (Hheld_i : i ∈ task_held (tasks t)) by by rewrite Et.
  assert (Hlive : is_Some (live !! i)) by (rewrite Hl; by exists t).
  destruct (live_bounds live w i Hok Hlive) as [Hi Hu].
  assert (Hr : released = true /\ pool_ok (delete i live) w').
  { apply (wp_result _ _ _ _ (fun r w' => r = true /\ pool_ok (delete i live) w') Ew). eapply FreeIfInUse_wp; [done | done | done |].
    intros w1 Hn. rewrite Hn in Hlive. by destruct Hlive. }
  destruct Hr as [-> Hok']. split; [done |].
  assert (Hheld : forall u j, j ∈ task_held ((<[t := Resting (filter (fun j => j <> i) held)]> tasks : nat -> task) u) <->
                    j <> i /\ j ∈ task_held (tasks u)).
  { intros u j. rewrite held_insert. destruct (decide (u = t)) as [-> |].
    - rewrite Et. cbn [task_held]. by rewrite list_elem_of_filter.
    - split; [| by intros []]. intros Hj. split; [| done]. intros ->. by destruct (H1 u t i Hj Hheld_i). }
  constructor; cbn [sys_World sys_Tasks].
  - exists (delete i live). split; [done |]. intros j. setoid_rewrite Hheld. destruct (decide (j = i)) as [-> |].
    + rewrite lookup_delete_eq. split; [by intros [] | naive_solver].
    + rewrite lookup_delete_ne, Hl by done. naive_solver.
  - intros t1 t2 j. rewrite !Hheld. naive_solver.
  - intros u. rewrite held_insert. destruct (decide (u = t)) as [-> |]; [| done]. cbn [task_held].
    apply list.NoDup_filter. pose proof (H2 t) as Hn. by rewrite Et in Hn.
  - intros u h j. destruct (decide (u = t)) as [-> |]; [by rewrite fn_lookup_insert | rewrite fn_lookup_insert_ne by done; apply H3].
Qed.

Lemma exclusive_step s s' : sys_step s s' -> exclusive s -> exclusive s'.
Proof.
  intros Hstep Hex. pose proof Hex as [(live & Hok & Hl) H1 H2 H3].
  destruct Hstep as [w tasks t held Et | w w' tasks t held i Et Hlt Ew | w w' tasks t held i Et Hlt Ew | w tasks t held i Et Hge
                    | w w' tasks t held i m Et Hin Ew | w w' tasks t held i released Et Hin Ew]; cbn [sys_World sys_Tasks] in *.
  - eapply exclusive_same; [exact Hex | exact Hok | intros; by apply (live_unique _ _ w) | |].
    + intros u. rewrite held_insert. destruct (decide (u = t)) as [-> |]; [by rewrite Et | done].
    + intros u h j. destruct (decide (u = t)) as [-> |]; [rewrite fn_lookup_insert; by intros [= <- <-] | rewrite fn_lookup_insert_ne by done; apply H3].
  - by eapply exclusive_claimed.
  - assert (Hq : quiet w [Locked; Unlocked] w').
    { apply (wp_result _ _ _ _ (fun r w' => r = false -> quiet w [Locked; Unlocked] w') Ew); [| done]. by apply TryClaim_wp. }
    eapply exclusive_same; [exact Hex | exact (quiet_ok _ _ _ _ Hq Hok) | intros; by apply (live_unique _ _ w) | |].
    + intros u. rewrite held_insert. destruct (decide (u = t)) as [-> |]; [by rewrite Et | done].
    + intros u h j. destruct (decide (u = t)) as [-> |]; [rewrite fn_lookup_insert; intros [= <- <-] | rewrite fn_lookup_insert_ne by done; apply H3].
      apply size_add_range.
  - eapply exclusive_same; [exact Hex | exact Hok | intros; by apply (live_unique _ _ w) | |].
    + intros u. rewrite held_insert. destruct (decide (u = t)) as [-> |]; [by rewrite Et | done].
    + intros u h j. destruct (decide (u = t)) as [-> |]; [by rewrite fn_lookup_insert | rewrite fn_lookup_insert_ne by done; apply H3].
  - assert (Hlive : is_Some (live !! i)) by (rewrite Hl; exists t; by rewrite Et).
    destruct (live_bounds live w i Hok Hlive) as [Hi Hu]. destruct (pool_lookup live w i Hok Hi) as [o Ho].
    assert (Hok' : exists o', pool_ok (<[i := o']> live) w').
    { apply (wp_result _ _ _ _ (fun _ w' => exists o', pool_ok (<[i := o']> live) w') Ew). eapply at_slot_wp; [done |].
      exists (fst (m o (pw_Env w))). eapply used_ok in Hi; [rewrite Hu in Hi; exact Hi | exact Hok | done | done]. }
    destruct Hok' as [o' Hok']. eapply exclusive_same; [exact Hex | exact Hok' | | done | done].
    intros live0 Hok0 j. rewrite (live_unique _ _ _ Hok0 Hok). destruct (decide (j = i)) as [-> |].
    + rewrite lookup_insert_eq. split; [intros _; by eexists | done].
    + by rewrite lookup_insert_ne by done.
  - by eapply exclusive_destroyed.
Qed.
End tasks.

(** * Properties *)


(** Two tasks on a pool of two numbers: the second scans while the first claims. *)
#[local] Instance number_class : PoolClass Z ErrorState Z := {
  pc_Size := 2;
  pc_Source := SolidSyslogLoggerErrorSource;
  pc_Check := fun n => if n <? 0 then Some SOLIDSYSLOG_ERROR_CREATE_NULL_CONFIG else None;
  pc_Initialise := fun n _ _ => st_ret n;
  pc_Cleanup := fun _ => st_ret 0;
  pc_Exhausted := SOLIDSYSLOG_ERROR_POOL_EXHAUSTED;
  pc_UnknownDestroy := SOLIDSYSLOG_ERROR_UNKNOWN_DESTROY
}.
Definition numbers : pool_world Z ErrorState :=
  mkPoolWorld (mkPoolAllocator [false; false] 2) [7; 7] initial_config_lock initial_error_state [].
Lemma numbers_ok : pool_ok ∅ numbers.
Proof.
  constructor; try done; try (unfold pc_Size, SIZE_MAX; simpl; lia).
  intros i. rewrite lookup_empty. unfold in_use, PoolAllocator_SlotIsInUse. cbn.
  destruct (Z.to_nat i) as [| [| [|]]]; by rewrite andb_false_r.
Qed.


Example pool_of_two :
  fst (pool_runs pool_create pool_destroy [Create 5; Create (-1); Create 6; Create 8; Destroy (Slot 0); Destroy (Slot 0); Create 9] numbers) =
  [Some (Slot 0); Some Fallback; Some (Slot 1); Some Fallback; None; None; Some (Slot 0)].
Proof. vm_compute. reflexivity. Qed.
