(* ===== verification/AtomicCounters.v ===== *)
(** Sequence numbers: the three atomic counters
    ([src/Platform/{StdAtomic,Windows,VxWorks64}/Source/SolidSyslog*AtomicCounter.c]) and
    the null one.  Any number of tasks are inside Increment at once: a position in the
    function is a value of an inductive type, a step is what happens up to the next
    access to the shared counter, and a machine interleaves the steps of its tasks.  What
    a counter promises is a turnstile, which gives out the next number in one step: each
    machine is proved to refine it. *)
From stdpp Require Import relations.
From S2P Require Import Prelude.
#[local] Open Scope Z_scope.

(** [enum SOLIDSYSLOG_SEQUENCE_ID_MAX] *)
Definition SOLIDSYSLOG_SEQUENCE_ID_MAX : Z := 2147483647.
(** [next = (current >= SOLIDSYSLOG_SEQUENCE_ID_MAX) ? 1U : (current + 1U)] *)
Definition next_id (current : Z) : Z := if SOLIDSYSLOG_SEQUENCE_ID_MAX <=? current then 1 else u32 (current + 1).
(** [(LONG) value] of a [uint32_t]. *)
Definition to_long (value : Z) : Z := if value <? 2 ^ 31 then value else value - 2 ^ 32.

(** * The turnstile *)

(** A caller is outside, has asked and got nothing yet, or has its number and is on its
    way out. *)
Inductive caller := Outside | Asking | Holding (id : Z).
Record turnstile := mkTurnstile { tu_Last : Z; tu_Callers : list caller; tu_Returned : list (nat * Z) }.
Inductive turn : turnstile -> turnstile -> Prop :=
| turn_asked last callers returned i :
    callers !! i = Some Outside ->
    turn (mkTurnstile last callers returned) (mkTurnstile last (<[i := Asking]> callers) returned)
| turn_taken last callers returned i :
    callers !! i = Some Asking ->
    turn (mkTurnstile last callers returned) (mkTurnstile (next_id last) (<[i := Holding (next_id last)]> callers) returned)
| turn_returned last callers returned i id :
    callers !! i = Some (Holding id) ->
    turn (mkTurnstile last callers returned) (mkTurnstile last (<[i := Outside]> callers) (returned ++ [(i, id)])).

(** The first [k] numbers after [last]. *)
Fixpoint ids (k : nat) (last : Z) : list Z :=
  match k with
  | O => []
  | S k => next_id last :: ids k (next_id last)
  end.
Definition held (c : caller) : list Z := match c with Holding id => [id] | _ => [] end.
(** What is out, with its callers or on the way, is the first numbers, each once. *)
Definition dealt (k : nat) (s : turnstile) : Prop :=
  tu_Last s = Nat.iter k next_id 0 /\ map snd (tu_Returned s) ++ concat (map held (tu_Callers s)) ≡ₚ ids k 0.

(** * Increment in steps *)

(** The positions [P] of one task in Increment and the memory [S] the tasks share; a
    step of task [i] is refused while the task cannot run. *)
Class Increment (P S : Type) := {
  inc_entry : P;
  inc_step : nat -> P -> S -> option (P * S);
  inc_result : P -> option Z
}.
Inductive task (P : Type) := Resting | Inside (p : P).
Arguments Resting {P}.
Arguments Inside {P} p.
Record machine (P S : Type) := mkMachine { m_Shared : S; m_Tasks : list (task P); m_Returned : list (nat * Z) }.
Arguments mkMachine {P S} _ _ _.
Arguments m_Shared {P S} _.
Arguments m_Tasks {P S} _.
Arguments m_Returned {P S} _.

Section machine.
Context {P S : Type} `{Increment P S}.
Inductive machine_step : machine P S -> machine P S -> Prop :=
| task_calls s tasks returned i :
    tasks !! i = Some Resting ->
    machine_step (mkMachine s tasks returned) (mkMachine s (<[i := Inside inc_entry]> tasks) returned)
| task_runs s tasks returned i p p' s' :
    tasks !! i = Some (Inside p) -> inc_result p = None -> inc_step i p s = Some (p', s') ->
    machine_step (mkMachine s tasks returned) (mkMachine s' (<[i := Inside p']> tasks) returned)
| task_returns s tasks returned i p id :
    tasks !! i = Some (Inside p) -> inc_result p = Some id ->
    machine_step (mkMachine s tasks returned) (mkMachine s (<[i := Resting]> tasks) (returned ++ [(i, id)])).
(** One call, while before each of its accesses others do what [meanwhile] says. *)
Fixpoint run_among (meanwhile : list (S -> S)) (p : P) (s : S) : option (Z * S) :=
  match inc_result p with
  | Some id => Some (id, s)
  | None =>
      match meanwhile with
      | [] => None
      | others :: meanwhile =>
          match inc_step 0 p (others s) with
          | Some (p', s') => run_among meanwhile p' s'
          | None => None
          end
      end
  end.
End machine.

(** ** C11 atomics ([SolidSyslogStdAtomicCounter.c]) *)

(** [atomic_compare_exchange_strong_explicit]: whether it exchanged, the object and
    [*expected] after it. *)
Definition atomic_compare_exchange_strong (object expected desired : Z) : bool * Z * Z :=
  if object =? expected then (true, desired, expected) else (false, object, object).
(** Before the load; about to compute [next] and exchange; about to return. *)
Inductive std_position := StdEntered | StdLooping (current : Z) | StdLeaving (next : Z).
Definition StdAtomicCounter_Increment (i : nat) (p : std_position) (value : Z) : option (std_position * Z) :=
  match p with
  | StdEntered => Some (StdLooping value, value)
  | StdLooping current =>
      let next := next_id current in
      let '(exchanged, value, current) := atomic_compare_exchange_strong value current next in
      Some (if exchanged then StdLeaving next else StdLooping current, value)
  | StdLeaving next => None
  end.
#[export] Instance std_increment : Increment std_position Z := {|
  inc_entry := StdEntered;
  inc_step := StdAtomicCounter_Increment;
  inc_result := fun p => match p with StdLeaving next => Some next | _ => None end
|}.

(** ** Windows ([SolidSyslogWindowsAtomicCounter.c]) *)

(** [InterlockedCompareExchange(destination, exchange, comparand)]: what the destination
    held, and holds after it. *)
Class Interlocked := InterlockedCompareExchange : Z -> Z -> Z -> Z * Z.
Definition interlocked_ok `{Interlocked} : Prop :=
  forall destination exchange comparand,
    InterlockedCompareExchange destination exchange comparand = (destination, if destination =? comparand then exchange else destination).
Inductive windows_position := WindowsEntered | WindowsLooping (current : Z) | WindowsLeaving (next : Z).
Definition WindowsAtomicCounter_Increment `{Interlocked} (i : nat) (p : windows_position) (value : Z) : option (windows_position * Z) :=
  match p with
  | WindowsEntered =>
      let '(current, value) := InterlockedCompareExchange value 0 0 in
      Some (WindowsLooping (u32 current), value)
  | WindowsLooping current =>
      let next := next_id current in
      let '(previous, value) := InterlockedCompareExchange value (to_long next) (to_long current) in
      let previous := u32 previous in
      Some (if previous =? current then WindowsLeaving next else WindowsLooping previous, value)
  | WindowsLeaving next => None
  end.
#[export] Instance windows_increment `{Interlocked} : Increment windows_position Z := {|
  inc_entry := WindowsEntered;
  inc_step := WindowsAtomicCounter_Increment;
  inc_result := fun p => match p with WindowsLeaving next => Some next | _ => None end
|}.

(** ** VxWorks ([SolidSyslogVxWorks64AtomicCounter.c]) *)

(** [intLock] and [intUnlock], by the task that calls them, over the state [L] of the
    processor's interrupts, and whether a task may be running in it: where one has
    locked them, no other is. *)
Class IntLib (L : Type) := {
  intLock : nat -> L -> Z * L;
  intUnlock : nat -> Z -> L -> Z * L;
  may_run : L -> nat -> bool
}.
Definition intlib_ok {L} `{IntLib L} : Prop := forall i l j, j <> i -> may_run (snd (intLock i l)) j = false.
Inductive vxworks_position :=
| VxWorksEntered
| VxWorksLocked (lockKey : Z)
| VxWorksStored (lockKey : Z)
| VxWorksRead (lockKey next : Z)
| VxWorksLeaving (next : Z).
Definition VxWorks64AtomicCounter_Increment {L} `{IntLib L} (i : nat) (p : vxworks_position) (s : Z * L) : option (vxworks_position * (Z * L)) :=
  let '(value, l) := s in
  if may_run l i then
    match p with
    | VxWorksEntered => let '(lockKey, l) := intLock i l in Some (VxWorksLocked lockKey, (value, l))
    | VxWorksLocked lockKey => Some (VxWorksStored lockKey, (next_id value, l))
    | VxWorksStored lockKey => Some (VxWorksRead lockKey value, (value, l))
    | VxWorksRead lockKey next => let '(_, l) := intUnlock i lockKey l in Some (VxWorksLeaving next, (value, l))
    | VxWorksLeaving next => None
    end
  else None.
#[export] Instance vxworks_increment {L} `{IntLib L} : Increment vxworks_position (Z * L) := {|
  inc_entry := VxWorksEntered;
  inc_step := VxWorks64AtomicCounter_Increment;
  inc_result := fun p => match p with VxWorksLeaving next => Some next | _ => None end
|}.

(** ** The objects *)

Inductive counter_vtable := OwnCounterVtable | NullCounterVtable.
Record atomic_counter := mkAtomicCounter { ac_Base : counter_vtable; ac_Value : Z }.
#[export] Instance settable_atomic_counter : Settable atomic_counter := fun c => mkAtomicCounter (ac_Base c) (ac_Value c).
Definition StdAtomicCounter_Init (value : Z) (self : atomic_counter) : atomic_counter := self <| ac_Value := value |>.
Definition SolidSyslogStdAtomicCounter_Initialise (self : atomic_counter) : atomic_counter :=
  StdAtomicCounter_Init 0 (self <| ac_Base := OwnCounterVtable |>).
Definition SolidSyslogStdAtomicCounter_Cleanup (self : atomic_counter) : atomic_counter := self <| ac_Base := NullCounterVtable |>.
Definition WindowsAtomicCounter_Init (value : Z) (self : atomic_counter) : atomic_counter := self <| ac_Value := to_long value |>.
Definition SolidSyslogWindowsAtomicCounter_Initialise (self : atomic_counter) : atomic_counter :=
  WindowsAtomicCounter_Init 0 (self <| ac_Base := OwnCounterVtable |>).
Definition SolidSyslogWindowsAtomicCounter_Cleanup (self : atomic_counter) : atomic_counter := self <| ac_Base := NullCounterVtable |>.
Definition VxWorks64AtomicCounter_Init (value : Z) (self : atomic_counter) : atomic_counter := self <| ac_Value := value |>.
Definition SolidSyslogVxWorks64AtomicCounter_Initialise (self : atomic_counter) : atomic_counter :=
  VxWorks64AtomicCounter_Init 0 (self <| ac_Base := OwnCounterVtable |>).
Definition SolidSyslogVxWorks64AtomicCounter_Cleanup (self : atomic_counter) : atomic_counter := self <| ac_Base := NullCounterVtable |>.
Definition NullAtomicCounter_Increment : Z := 1.
(** Dispatch through the vtable, in a call of one task alone: [increment] gives the
    number and the value it leaves. *)
Definition SolidSyslogAtomicCounter_Increment (increment : Z -> option (Z * Z)) (self : atomic_counter) : option (Z * atomic_counter) :=
  match ac_Base self with
  | OwnCounterVtable => match increment (ac_Value self) with Some (id, value) => Some (id, self <| ac_Value := value |>) | None => None end
  | NullCounterVtable => Some (NullAtomicCounter_Increment, self)
  end.

(** * Numbers *)

Lemma next_id_range v : 0 <= v -> 1 <= next_id v <= SOLIDSYSLOG_SEQUENCE_ID_MAX.
Proof. unfold next_id, u32, SOLIDSYSLOG_SEQUENCE_ID_MAX. intros Hv. destruct (Z.leb_spec 2147483647 v); [lia |]. rewrite Z.mod_small; lia. Qed.
(** The turn after [n] others, in closed form. *)
Lemma next_id_mod v : 0 <= v <= SOLIDSYSLOG_SEQUENCE_ID_MAX -> next_id v = v mod SOLIDSYSLOG_SEQUENCE_ID_MAX + 1.
Proof.
  unfold next_id, u32, SOLIDSYSLOG_SEQUENCE_ID_MAX. intros Hv. destruct (Z.leb_spec 2147483647 v).
  - replace v with 2147483647 by lia. by rewrite Z.mod_same.
  - rewrite !Z.mod_small; lia.
Qed.
Lemma ids_S_r k v : ids (S k) v = ids k v ++ [next_id (Nat.iter k next_id v)].
Proof.
  revert v. induction k as [|k IH]; intros v; [done |]. cbn [ids] in *. rewrite IH. cbn [app Nat.iter nat_rect].
  by rewrite (Nat.iter_swap k).
Qed.
Lemma ids_length k v : length (ids k v) = k.
Proof. revert v. induction k as [|k IH]; intros v; cbn; [done | by rewrite IH]. Qed.
Lemma ids_lookup k v i : (i < k)%nat -> ids k v !! i = Some (Nat.iter (S i) next_id v).
Proof.
  revert v i. induction k as [|k IH]; intros v i Hi; [lia |]. destruct i as [|i]; [done |].
  cbn [ids]. rewrite lookup_cons, IH by lia. by rewrite <- (Nat.iter_succ_r (S i)).
Qed.
Lemma iter_next_id n v : 0 <= v <= SOLIDSYSLOG_SEQUENCE_ID_MAX -> Nat.iter (S n) next_id v = (v + Z.of_nat n) mod SOLIDSYSLOG_SEQUENCE_ID_MAX + 1.
Proof.
  intros Hv. induction n as [|n IH].
  - cbn [Nat.iter nat_rect]. rewrite next_id_mod by done. f_equal. f_equal. lia.
  - rewrite Nat.iter_succ, IH. clear IH.
    assert (0 <= (v + Z.of_nat n) mod SOLIDSYSLOG_SEQUENCE_ID_MAX < SOLIDSYSLOG_SEQUENCE_ID_MAX) by (apply Z.mod_pos_bound; unfold SOLIDSYSLOG_SEQUENCE_ID_MAX; lia).
    rewrite next_id_mod by lia. f_equal. rewrite Zplus_mod_idemp_l. f_equal. lia.
Qed.
Lemma ids_range k v : 0 <= v -> Forall (fun id => 1 <= id <= SOLIDSYSLOG_SEQUENCE_ID_MAX) (ids k v).
Proof.
  revert v. induction k as [|k IH]; intros v Hv; [constructor |]. pose proof (next_id_range v Hv).
  constructor; [done |]. apply IH. lia.
Qed.
(** No number comes again before all the others have. *)
Lemma ids_distinct k v : 0 <= v <= SOLIDSYSLOG_SEQUENCE_ID_MAX -> Z.of_nat k <= SOLIDSYSLOG_SEQUENCE_ID_MAX -> NoDup (ids k v).
Proof.
  intros Hv Hk. apply NoDup_alt. intros i j x Hi Hj.
  pose proof (lookup_lt_Some _ _ _ Hi) as Li. pose proof (lookup_lt_Some _ _ _ Hj) as Lj. rewrite ids_length in Li, Lj.
  rewrite ids_lookup in Hi, Hj by done. rewrite iter_next_id in Hi, Hj by done.
  assert (Hm : (v + Z.of_nat i) mod SOLIDSYSLOG_SEQUENCE_ID_MAX = (v + Z.of_nat j) mod SOLIDSYSLOG_SEQUENCE_ID_MAX) by (injection Hi; injection Hj; lia).
  unfold SOLIDSYSLOG_SEQUENCE_ID_MAX in *. clear Hi Hj. Z.div_mod_to_equations. nia.
Qed.

(** * The turnstile deals each number once *)

Lemma turn_dealt s s' : turn s s' -> (exists k, dealt k s) -> exists k, dealt k s'.
Proof.
  intros Ht (k & Hl & Hp). destruct Ht as [last callers returned i Hi | last callers returned i Hi | last callers returned i id Hi]; cbn [tu_Last tu_Callers tu_Returned] in *;
    apply list_elem_of_split_length in Hi as (c1 & c2 & -> & Hi); subst i; rewrite map_app, concat_app in Hp; cbn in Hp.
  - exists k. split; [done |]. cbn. rewrite insert_app_r_alt, Nat.sub_diag by done. cbn. by rewrite map_app, concat_app.
  - exists (S k). split; [cbn; by rewrite Hl |]. rewrite ids_S_r, <- Hl, <- Hp. cbn. rewrite insert_app_r_alt, Nat.sub_diag by done. cbn.
    rewrite map_app, concat_app. cbn. by rewrite <- !Permutation_middle, app_nil_r.
  - exists k. split; [done |]. rewrite <- Hp. cbn. rewrite insert_app_r_alt, Nat.sub_diag by done. cbn.
    rewrite !map_app, concat_app. cbn. rewrite <- app_assoc. cbn [app]. by rewrite <- !Permutation_middle.
Qed.
(** What a run from the start leaves: what was returned and what is on its way out are
    the first numbers, each once; they are sequence numbers, and no two are the same
    until all of them have been given. *)
Definition deals (k : nat) (given : list Z) : Prop :=
  given ≡ₚ ids k 0 /\ Forall (fun id => 1 <= id <= SOLIDSYSLOG_SEQUENCE_ID_MAX) given /\ (Z.of_nat k <= SOLIDSYSLOG_SEQUENCE_ID_MAX -> NoDup given).
Lemma turns_deal n s : rtc turn (mkTurnstile 0 (replicate n Outside) []) s ->
  exists k, deals k (map snd (tu_Returned s) ++ concat (map held (tu_Callers s))).
Proof.
  intros Hr. assert (Hd : exists k, dealt k s).
  { revert s Hr. apply (rtc_ind_r (fun s => exists k, dealt k s)); [| intros s s' _ Ht IH; by eapply turn_dealt].
    exists 0%nat. split; [done |]. cbn. by induction n. }
  destruct Hd as (k & _ & Hp). exists k. split; [done |].
  split; [rewrite Hp; apply ids_range; lia |]. intros Hk. rewrite Hp. apply ids_distinct; unfold SOLIDSYSLOG_SEQUENCE_ID_MAX in *; lia.
Qed.

(** * A machine that refines the turnstile *)

Section simulation.
Context {P S : Type} `{Increment P S}.
Implicit Types (m : machine P S).
(** The number given last, and a task as a caller. *)
Context (value : S -> Z) (view : S -> P -> caller) (inv : machine P S -> Prop).
Definition view_task (s : S) (t : task P) : caller := match t with Resting => Outside | Inside p => view s p end.
Definition as_turnstile m : turnstile := mkTurnstile (value (m_Shared m)) (map (view_task (m_Shared m)) (m_Tasks m)) (m_Returned m).
Record simulates : Prop := {
  sim_inv m m' : inv m -> machine_step m m' -> inv m';
  sim_entry s : view s inc_entry = Asking;
  sim_result s p id : inc_result p = Some id -> view s p = Holding id;
  (** a step changes nothing for the others, and takes a number or nothing for itself *)
  sim_step s tasks returned i p p' s' :
    inv (mkMachine s tasks returned) -> tasks !! i = Some (Inside p) -> inc_result p = None -> inc_step i p s = Some (p', s') ->
    (forall j q, j <> i -> tasks !! j = Some (Inside q) -> view s' q = view s q) /\
    (value s' = value s /\ view s' p' = view s p \/
     view s p = Asking /\ value s' = next_id (value s) /\ view s' p' = Holding (next_id (value s)))
}.
Lemma map_insert {A B} (f : A -> B) (l : list A) i x : map f (<[i := x]> l) = <[i := f x]> (map f l).
Proof. apply list_fmap_insert. Qed.
Lemma map_lookup {A B} (f : A -> B) (l : list A) i x : l !! i = Some x -> map f l !! i = Some (f x).
Proof. intros Hi. change (f <$> l) with (map f l). by rewrite list_lookup_fmap, Hi. Qed.
Lemma map_insert_ext {A B} (f g : A -> B) (l : list A) i x :
  (forall j y, j <> i -> l !! j = Some y -> g y = f y) -> map g (<[i := x]> l) = <[i := g x]> (map f l).
Proof.
  intros Hx. rewrite map_insert. apply list_eq. intros j. destruct (decide (j = i)) as [-> | Hj].
  - destruct (decide (i < length l)%nat).
    + by rewrite !list_lookup_insert_eq by (rewrite ?length_map; lia).
    + by rewrite !list_insert_ge, !lookup_ge_None_2 by (rewrite ?length_map; lia).
  - rewrite !list_lookup_insert_ne by done. change (map g l) with (g <$> l). change (map f l) with (f <$> l).
    rewrite !list_lookup_fmap. destruct (l !! j) as [y|] eqn:Ej; [| done]. cbn. f_equal. by apply Hx with j.
Qed.
Context (HS : simulates).
Lemma machine_step_turn m m' : inv m -> machine_step m m' -> as_turnstile m' = as_turnstile m \/ turn (as_turnstile m) (as_turnstile m').
Proof using HS.
  intros Hi Hs. revert Hi. destruct Hs as [s tasks returned i Ht | s tasks returned i p p' s' Ht Hr Hs | s tasks returned i p id Ht Hr]; intros Hi; unfold as_turnstile; cbn [m_Shared m_Tasks m_Returned].
  - right. rewrite map_insert. cbn [view_task]. rewrite (sim_entry HS). constructor. by rewrite (map_lookup _ _ _ _ Ht).
  - destruct (sim_step HS s tasks returned i p p' s') as (Hothers & Hself); [done.. |].
    rewrite (map_insert_ext (view_task s) (view_task s')) by (intros j [|q] Hj Hq; [done | by apply Hothers with j]). cbn [view_task].
    pose proof (map_lookup (view_task s) _ _ _ Ht) as Hv. cbn [view_task] in Hv.
    destruct Hself as [[-> ->] | (Ha & -> & ->)].
    + left. by rewrite list_insert_id.
    + right. constructor. by rewrite Hv, Ha.
  - right. rewrite map_insert. constructor. rewrite (map_lookup _ _ _ _ Ht). cbn. by rewrite (sim_result HS s p id).
Qed.
Lemma machine_refines m m' : inv m -> rtc machine_step m m' -> inv m' /\ rtc turn (as_turnstile m) (as_turnstile m').
Proof using HS.
  intros Hi Hr. induction Hr as [m | m m1 m' Hs Hr IH]; [done |].
  destruct (IH (sim_inv HS _ _ Hi Hs)) as [Hi' Ht]. split; [done |].
  destruct (machine_step_turn m m1 Hi Hs) as [<- | Hs']; [done |]. by eapply rtc_l.
Qed.
End simulation.

(** * The three counters simulate it *)

(** What holds of every position a task is at. *)
Definition everywhere {P} (ok : nat -> P -> Prop) (tasks : list (task P)) : Prop := forall i p, tasks !! i = Some (Inside p) -> ok i p.
Lemma everywhere_insert {P} (ok : nat -> P -> Prop) tasks i t :
  everywhere ok tasks -> (forall p, t = Inside p -> ok i p) -> everywhere ok (<[i := t]> tasks).
Proof.
  intros Ht Hp j q Hq. destruct (decide (j = i)) as [-> | Hj].
  - apply Hp. apply list_lookup_insert_Some in Hq as [(_ & -> & _) | [? _]]; done.
  - apply (Ht j). by rewrite list_lookup_insert_ne in Hq.
Qed.
Lemma everywhere_start {P} (ok : nat -> P -> Prop) n : everywhere ok (replicate n Resting).
Proof. intros i p Hi. apply lookup_replicate in Hi as [? _]. done. Qed.

Definition std_view (value : Z) (p : std_position) : caller := match p with StdLeaving next => Holding next | _ => Asking end.
Lemma std_simulates : simulates (fun value : Z => value) std_view (fun _ => True).
Proof.
  constructor; [done | done | by intros s [] ? [= ->] |].
  intros s tasks returned i p p' s' _ _ Hr Hs. split; [done |].
  destruct p as [| current |]; cbn in Hs; [by simplify_eq; left | | done].
  unfold atomic_compare_exchange_strong in Hs. destruct (Z.eqb_spec s current) as [-> |]; simplify_eq; [by right | by left].
Qed.

Section windows.
Context `{Interlocked} (HI : interlocked_ok).
Definition in_range (value : Z) : Prop := 0 <= value <= SOLIDSYSLOG_SEQUENCE_ID_MAX.
Lemma range_next value : in_range value -> in_range (next_id value).
Proof using. unfold in_range. intros Hv. pose proof (next_id_range value). lia. Qed.
Lemma range_u32 value : in_range value -> u32 value = value.
Proof using. unfold in_range, u32, SOLIDSYSLOG_SEQUENCE_ID_MAX. intros Hv. apply Z.mod_small. lia. Qed.
Lemma range_long value : in_range value -> to_long value = value.
Proof using. unfold in_range, to_long, SOLIDSYSLOG_SEQUENCE_ID_MAX. intros Hv. destruct (Z.ltb_spec value (2 ^ 31)); lia. Qed.
Definition windows_view (value : Z) (p : windows_position) : caller := match p with WindowsLeaving next => Holding next | _ => Asking end.
Definition windows_looping_ok (i : nat) (p : windows_position) : Prop := match p with WindowsLooping current => in_range current | _ => True end.
Definition windows_inv (m : machine windows_position Z) : Prop := in_range (m_Shared m) /\ everywhere windows_looping_ok (m_Tasks m).
(** A step where everything is in range: the exchange is made where the value is the one
    it was computed from. *)
Lemma windows_step i p s p' s' : in_range s -> windows_looping_ok i p -> WindowsAtomicCounter_Increment i p s = Some (p', s') ->
  in_range s' /\ windows_looping_ok i p' /\
  (s' = s /\ windows_view s' p' = windows_view s p \/ windows_view s p = Asking /\ s' = next_id s /\ windows_view s' p' = Holding (next_id s)).
Proof using HI.
  intros Hs Hp He. destruct p as [| current |]; cbn in He; [| | done].
  - rewrite HI, (range_u32 s Hs) in He. destruct (Z.eqb_spec s 0) as [-> |]; simplify_eq; (split; [done |]); (split; [done |]); by left.
  - cbn in Hp. pose proof (range_next current Hp) as Hn. rewrite HI, !range_long, range_u32 in He by done.
    destruct (Z.eqb_spec s current) as [-> |]; simplify_eq; (split; [done |]); (split; [done |]); [by right | by left].
Qed.
Lemma windows_simulates : simulates (fun value : Z => value) windows_view windows_inv.
Proof using HI.
  constructor; [| done | by intros s [] ? [= ->] |].
  - intros m m' Hm Hs. revert Hm. destruct Hs as [s tasks returned i Ht | s tasks returned i p p' s' Ht Hr Hs | s tasks returned i p id Ht Hr]; intros [Hv Hp].
    + split; [done |]. apply everywhere_insert; [done |]. by intros ? [= <-].
    + destruct (windows_step i p s p' s') as (Hv' & Hp' & _); [done | by apply Hp | done |].
      split; [done |]. apply everywhere_insert; [done |]. by intros ? [= <-].
    + split; [done |]. by apply everywhere_insert.
  - intros s tasks returned i p p' s' [Hv Hp] Ht _ Hs. split; [done |]. apply (windows_step i p s p' s'); [done | by apply Hp | done].
Qed.
End windows.

Section vxworks.
Context {L : Type} `{IntLib L} (HI : intlib_ok).
Definition locking (p : vxworks_position) : bool := match p with VxWorksLocked _ | VxWorksStored _ | VxWorksRead _ _ => true | _ => false end.
Definition vxworks_view (s : Z * L) (p : vxworks_position) : caller :=
  match p with
  | VxWorksEntered | VxWorksLocked _ => Asking
  | VxWorksStored _ => Holding (fst s)
  | VxWorksRead _ next | VxWorksLeaving next => Holding next
  end.
(** A task that has the interrupts locked keeps every other from running. *)
Definition alone_in (l : L) (i : nat) (p : vxworks_position) : Prop := locking p = true -> forall j, j <> i -> may_run l j = false.
Definition vxworks_inv (m : machine vxworks_position (Z * L)) : Prop := everywhere (alone_in (snd (m_Shared m))) (m_Tasks m).
(** So while one task runs, no other is between the lock and the unlock. *)
Lemma runs_alone l tasks i : everywhere (alone_in l) tasks -> may_run l i = true -> forall j q, j <> i -> tasks !! j = Some (Inside q) -> locking q = false.
Proof using.
  intros Hin Hrun j q Hj Hq. destruct (locking q) eqn:El; [| done]. specialize (Hin j q Hq El i ltac:(done)). congruence.
Qed.
Lemma vxworks_runs i p v l p' s' : VxWorks64AtomicCounter_Increment i p (v, l) = Some (p', s') ->
  may_run l i = true /\ (locking p' = true -> snd s' = l /\ locking p = true \/ snd s' = snd (intLock i l)).
Proof using.
  unfold VxWorks64AtomicCounter_Increment. destruct (may_run l i) eqn:Er; [| done]. intros He. split; [done |].
  destruct p; repeat case_match; simplify_eq; cbn; intros; first [done | by left | by right].
Qed.
Lemma vxworks_simulates : simulates fst vxworks_view vxworks_inv.
Proof using HI.
  constructor; [| done | by intros s [] ? [= ->] |].
  - intros m m' Hm Hs. revert Hm. destruct Hs as [s tasks returned i Ht | [v l] tasks returned i p p' s' Ht Hr Hs | s tasks returned i p id Ht Hr]; intros Hin;
      unfold vxworks_inv in *; cbn [m_Shared m_Tasks snd] in *.
    + apply everywhere_insert; [done |]. by intros ? [= <-].
    + destruct (vxworks_runs i p v l p' s' Hs) as [Hrun Hl]. intros j q Hq. destruct (decide (j = i)) as [-> | Hj].
      * apply list_lookup_insert_Some in Hq as [(_ & [= ->] & _) | [? _]]; [| done]. intros Hlock k Hk.
        destruct (Hl Hlock) as [[-> Hp] | ->]; [by apply (Hin i p) | by apply HI].
      * rewrite list_lookup_insert_ne in Hq by done. intros Hlock. by rewrite (runs_alone l tasks i Hin Hrun j q) in Hlock.
    + by apply everywhere_insert.
  - intros [v l] tasks returned i p p' s' Hin Ht _ Hs. destruct (vxworks_runs i p v l p' s' Hs) as [Hrun _]. split.
    + intros j q Hj Hq. pose proof (runs_alone l tasks i Hin Hrun j q Hj Hq). by destruct q.
    + cbn in Hs. rewrite Hrun in Hs. destruct p; repeat case_match; simplify_eq; cbn; first [done | by left | by right].
Qed.
End vxworks.

(** * What the counters promise *)

(** From the start, whatever the tasks do: the machine is the turnstile, and the numbers
    that have been given are dealt out. *)
Definition counts {P S} `{Increment P S} (value : S -> Z) (view : S -> P -> caller) (start : S) : Prop :=
  forall n m, rtc machine_step (mkMachine start (replicate n Resting) []) m ->
  rtc turn (mkTurnstile 0 (replicate n Outside) []) (as_turnstile value view m) /\
  exists k, deals k (map snd (m_Returned m) ++ concat (map held (map (view_task view (m_Shared m)) (m_Tasks m)))).
Lemma simulates_counts {P S} `{Increment P S} value view inv (start : S) :
  simulates value view inv -> value start = 0 -> (forall n, inv (mkMachine start (replicate n Resting) [])) -> counts value view start.
Proof.
  intros HS Hv Hi n m Hr. destruct (machine_refines value view inv HS _ m (Hi n) Hr) as [_ Ht].
  unfold as_turnstile at 1 in Ht. cbn [m_Shared m_Tasks m_Returned] in Ht. rewrite Hv in Ht.
  replace (map (view_task view start) (replicate n Resting)) with (replicate n Outside) in Ht by (clear; induction n; [done | cbn; by f_equal]).
  split; [done |]. by apply (turns_deal n (as_turnstile value view m)).
Qed.

(** C31. However many tasks are inside Increment, on whichever counter, and however their
    steps interleave, the counter is one that gives out the next number in a single
    step: what has been returned and what is on its way out are the numbers from 1 on,
    each given once, within 1 .. 2^31 - 1, and never the same one twice until all of
    them have been given.  On Windows this holds for an exchange as documented, on
    VxWorks for an interrupt lock that keeps other tasks from running. *)
Theorem counters_give_each_number_once :
  counts (fun value : Z => value) std_view (ac_Value (SolidSyslogStdAtomicCounter_Initialise (mkAtomicCounter NullCounterVtable 0))) /\
  (forall IL : Interlocked, interlocked_ok ->
    counts (fun value : Z => value) windows_view (ac_Value (SolidSyslogWindowsAtomicCounter_Initialise (mkAtomicCounter NullCounterVtable 0)))) /\
  (forall (L : Type) (IL : IntLib L) (l : L), intlib_ok ->
    counts fst vxworks_view (ac_Value (SolidSyslogVxWorks64AtomicCounter_Initialise (mkAtomicCounter NullCounterVtable 0)), l)).
Proof.
  split; [| split].
  - by eapply simulates_counts; [apply std_simulates | |].
  - intros IL HI. eapply simulates_counts; [by apply windows_simulates | done |]. intros n. split; [| apply everywhere_start].
    by split; vm_compute.
  - intros L IL l HI. eapply simulates_counts; [by apply vxworks_simulates | done |]. intros n. apply everywhere_start.
Qed.

(** ** Progress *)

(** Others give out [n] numbers. *)
Definition others_take (n : nat) (value : Z) : Z := Nat.iter n next_id value.
Lemma std_looping_ends before after current v :
  exists id, option_map fst (run_among (map others_take (before ++ 0%nat :: 0%nat :: after)) (StdLooping current) v) = Some id.
Proof.
  revert current v. induction before as [| n before IH]; intros current v.
  - cbn. unfold atomic_compare_exchange_strong. destruct (Z.eqb_spec v current) as [-> |]; cbn; [by destruct after; eexists |].
    unfold atomic_compare_exchange_strong. rewrite Z.eqb_refl. destruct after; by eexists.
  - cbn [app map run_among inc_result std_increment inc_step StdAtomicCounter_Increment]. unfold atomic_compare_exchange_strong at 1.
    destruct (_ =? current); [destruct (map _ _); by eexists | apply IH].
Qed.
Lemma windows_looping_ends `{Interlocked} (HI : interlocked_ok) before after current v : in_range current -> in_range v ->
  exists id, option_map fst (run_among (map others_take (before ++ 0%nat :: 0%nat :: after)) (WindowsLooping current) v) = Some id.
Proof.
  assert (Hothers : forall n u, in_range u -> in_range (others_take n u)) by (intros n u Hu; induction n; [done | by apply range_next]).
  revert current v. induction before as [| n before IH]; intros current v Hc Hv.
  - cbn. pose proof (range_next current Hc) as Hn. rewrite HI, !range_long, range_u32 by done.
    destruct (Z.eqb_spec v current) as [-> |]; cbn; [by destruct after; eexists |].
    pose proof (range_next v Hv). rewrite HI, !range_long, range_u32, Z.eqb_refl by done. destruct after; by eexists.
  - cbn [app map run_among inc_result windows_increment inc_step WindowsAtomicCounter_Increment].
    pose proof (range_next current Hc). pose proof (Hothers n v Hv). rewrite HI, !range_long, range_u32 by done.
    destruct (others_take n v =? current) eqn:E; [destruct (map _ _); by eexists |]. by apply IH.
Qed.
(** A call returns as soon as two of its exchanges in a row are left alone, however many
    numbers others took before; alone, a call takes the number after the one it finds. *)
Theorem Increment_ends n before after v : in_range v ->
  (exists id, option_map fst (run_among (map others_take (n :: before ++ 0%nat :: 0%nat :: after)) StdEntered v) = Some id) /\
  (forall IL : Interlocked, interlocked_ok ->
    exists id, option_map fst (run_among (map others_take (n :: before ++ 0%nat :: 0%nat :: after)) WindowsEntered v) = Some id) /\
  run_among (map others_take [0%nat; 0%nat]) StdEntered v = Some (next_id v, next_id v).
Proof.
  intros Hv. split; [| split].
  - cbn [map run_among inc_result std_increment inc_step StdAtomicCounter_Increment]. apply std_looping_ends.
  - intros IL HI. cbn [map run_among inc_result windows_increment inc_step WindowsAtomicCounter_Increment].
    assert (Hw : in_range (others_take n v)) by (clear - Hv; induction n; [done | by apply range_next]).
    rewrite HI, (range_u32 _ Hw). replace (if _ =? 0 then 0 else others_take n v) with (others_take n v) by (destruct (Z.eqb_spec (others_take n v) 0); congruence).
    by apply windows_looping_ends.
  - cbn. unfold atomic_compare_exchange_strong. by rewrite Z.eqb_refl.
Qed.

(** ** Runs *)

(** The machine by a schedule: the task named next calls, takes its next step, or
    returns. *)
Section schedule.
Context {P S : Type} `{Increment P S}.
Definition schedule_step (i : nat) (m : machine P S) : option (machine P S) :=
  match m_Tasks m !! i with
  | None => None
  | Some Resting => Some (mkMachine (m_Shared m) (<[i := Inside inc_entry]> (m_Tasks m)) (m_Returned m))
  | Some (Inside p) =>
      match inc_result p with
      | Some id => Some (mkMachine (m_Shared m) (<[i := Resting]> (m_Tasks m)) (m_Returned m ++ [(i, id)]))
      | None =>
          match inc_step i p (m_Shared m) with
          | Some (p', s') => Some (mkMachine s' (<[i := Inside p']> (m_Tasks m)) (m_Returned m))
          | None => None
          end
      end
  end.
Fixpoint run_schedule (schedule : list nat) (m : machine P S) : option (machine P S) :=
  match schedule with
  | [] => Some m
  | i :: schedule => match schedule_step i m with Some m => run_schedule schedule m | None => None end
  end.
Lemma schedule_step_runs i m m' : schedule_step i m = Some m' -> machine_step m m'.
Proof using.
  destruct m as [s tasks returned]. unfold schedule_step. cbn [m_Shared m_Tasks m_Returned]. intros Hs.
  destruct (tasks !! i) as [[|p]|] eqn:Ei; simplify_eq; [by constructor |].
  destruct (inc_result p) eqn:Ep; simplify_eq; [by econstructor |].
  destruct (inc_step i p s) as [[p' s']|] eqn:Es; simplify_eq. by econstructor.
Qed.
Lemma run_schedule_runs schedule m m' : run_schedule schedule m = Some m' -> rtc machine_step m m'.
Proof using.
  revert m. induction schedule as [|i schedule IH]; intros m Hs; cbn in Hs; [by simplify_eq |].
  destruct (schedule_step i m) as [m1|] eqn:Ei; [| done]. eapply rtc_l; [by eapply schedule_step_runs | by apply IH].
Qed.
End schedule.

(** An exchange as documented, and interrupts that one task at a time locks. *)
#[local] Instance exchange : Interlocked := fun destination exchange comparand => (destination, if destination =? comparand then exchange else destination).
#[local] Instance interrupts : IntLib (option nat) := {|
  intLock := fun i l => (0, Some i);
  intUnlock := fun i lockKey l => (0, None);
  may_run := fun l i => match l with None => true | Some j => Nat.eqb i j end
|}.
Lemma interrupts_ok : intlib_ok (L := option nat).
Proof. intros i l j Hj. cbn. by apply Nat.eqb_neq. Qed.
(** Two tasks load the same value; one exchanges it, the other's exchange fails and it
    goes round again.  On VxWorks the second waits for the first. *)
Definition race : list nat := [0; 1; 0; 1; 1; 1; 0; 0; 0]%nat.
Definition queue : list nat := [0; 1; 0; 0; 0; 0; 0; 1; 1; 1; 1; 1]%nat.
Definition given_in_order {P S} (m : machine P S) (first second : nat) : Prop := m_Returned m = [(first, 1); (second, 2)] /\ m_Tasks m = [Resting; Resting].
Lemma counters_give_each_number_once_witness :
  (exists m, rtc machine_step (mkMachine 0 [Resting (P := windows_position); Resting] []) m /\ given_in_order m 1 0 /\
    exists k, deals k (map snd (m_Returned m) ++ [])) /\
  (exists m, rtc machine_step (mkMachine (0, None) [Resting (P := vxworks_position); Resting] []) m /\ given_in_order m 0 1 /\
    exists k, deals k (map snd (m_Returned m) ++ [])).
Proof.
  split.
  - assert (Hr : run_schedule race (mkMachine 0 [Resting (P := windows_position); Resting] []) = Some (mkMachine 2 [Resting; Resting] [(1%nat, 1); (0%nat, 2)])) by reflexivity.
    apply run_schedule_runs in Hr. eexists. split; [exact Hr |]. split; [done |].
    exact (proj2 (proj1 (proj2 counters_give_each_number_once) exchange (fun _ _ _ => eq_refl) 2%nat _ Hr)).
  - assert (Hr : run_schedule queue (mkMachine (0, None) [Resting (P := vxworks_position); Resting] []) = Some (mkMachine (2, None) [Resting; Resting] [(0%nat, 1); (1%nat, 2)])) by reflexivity.
    apply run_schedule_runs in Hr. eexists. split; [exact Hr |]. split; [done |].
    exact (proj2 (proj2 (proj2 counters_give_each_number_once) _ interrupts None interrupts_ok 2%nat _ Hr)).
Defined.
