(* ===== verification/Logger.v ===== *)
(** The logger ([SolidSyslog.c]): a log call formats a message in a scratch and hands
    it to the buffer; a service pass takes records from the buffer to the store or
    the sender, one slot at a time, reports the library's own events as records, and
    sends one stored record.  [slot_step] is the protocol a pass keeps with the
    objects around it, and [Service_keeps_protocol] the proof that it does. *)
From S2P Require Import Prelude Errors PendingEvents Interfaces Utf8 Formatter SdWriters MessageFormat.

Inductive SolidSyslogServiceStatus :=
| SOLIDSYSLOG_SERVICE_IDLE
| SOLIDSYSLOG_SERVICE_READY
| SOLIDSYSLOG_SERVICE_BLOCKED
| SOLIDSYSLOG_SERVICE_HALTED.

(** * Scratch *)

(** The stack scratch's array is whatever its frame holds. *)
Definition StackScratch_WithScratch {E} (storage : bytes) (use : SolidSyslogScratchUser E) : ST E unit :=
  use storage SOLIDSYSLOG_MAX_MESSAGE_SIZE ;;; st_ret tt.
Definition SolidSyslogStackScratch_Get {E} (storage : bytes) : SolidSyslogScratch E := {| WithScratch := StackScratch_WithScratch storage |}.

(** The shared scratch, over the objects [T] around it and their mutex: its vtable is
    its own or, once cleaned up, the stack scratch's. *)
Inductive scratch_vtable := SharedScratchVtable | StackScratchVtable.
Record SolidSyslogSharedScratch := mkSharedScratch { ss_Base : scratch_vtable; ss_Storage : bytes }.
#[export] Instance settable_SharedScratch : Settable SolidSyslogSharedScratch :=
  fun s => mkSharedScratch (ss_Base s) (ss_Storage s).
Section shared_scratch.
Context {T : Type} (mutex_Lock mutex_Unlock : ST T unit) (frame : bytes).
Definition ss_world : Type := SolidSyslogSharedScratch * T.
Definition ss_outside {A} (m : ST T A) : ST ss_world A := zoom snd (fun t w => (fst w, t)) m.
Definition SolidSyslogSharedScratch_Initialise (self : SolidSyslogSharedScratch) : SolidSyslogSharedScratch :=
  self <| ss_Base := SharedScratchVtable |>.
Definition SolidSyslogSharedScratch_Cleanup (self : SolidSyslogSharedScratch) : SolidSyslogSharedScratch :=
  self <| ss_Base := StackScratchVtable |>.
Definition SharedScratch_WithScratch (use : SolidSyslogScratchUser ss_world) : ST ss_world unit :=
  ss_outside mutex_Lock ;;;
  let! storage := st_get (fun w => ss_Storage (fst w)) in
  let! storage := use storage SOLIDSYSLOG_MAX_MESSAGE_SIZE in
  st_mod (fun w : ss_world => ((fst w) <| ss_Storage := storage |>, snd w)) ;;;
  ss_outside mutex_Unlock.
Definition SharedScratch_vtable : SolidSyslogScratch ss_world := {|
  WithScratch := fun use =>
    let! base := st_get (fun w => ss_Base (fst w)) in
    match base with
    | SharedScratchVtable => SharedScratch_WithScratch use
    | StackScratchVtable => StackScratch_WithScratch frame use
    end
|}.
End shared_scratch.

(** A scratch asked in [e] runs its user once, in [e1], on an area with room for a
    message, which it is given back: what a log call needs of it. *)
Definition lends {E} (scratch : SolidSyslogScratch E) (e e1 : E) (area : bytes) (back : bytes -> E -> E) : Prop :=
  SOLIDSYSLOG_MAX_MESSAGE_SIZE <= lenZ area /\
  forall use, WithScratch use e =
    (tt, back (fst (use area SOLIDSYSLOG_MAX_MESSAGE_SIZE e1)) (snd (use area SOLIDSYSLOG_MAX_MESSAGE_SIZE e1))).
Lemma StackScratch_lends {E} (e : E) frame : SOLIDSYSLOG_MAX_MESSAGE_SIZE <= lenZ frame ->
  lends (SolidSyslogStackScratch_Get frame) e e frame (fun _ e => e).
Proof.
  intros Hl. split; [done |]. intros use. unfold WithScratch, SolidSyslogStackScratch_Get, StackScratch_WithScratch, st_bind, st_ret.
  by destruct (use frame _ e).
Qed.
(** The shared one is locked for its user, and keeps what the user wrote in it. *)
Lemma SharedScratch_lends {T} (mutex_Lock mutex_Unlock : ST T unit) frame (w : ss_world (T := T)) :
  SOLIDSYSLOG_MAX_MESSAGE_SIZE <= lenZ (ss_Storage (fst w)) -> ss_Base (fst w) = SharedScratchVtable ->
  lends (SharedScratch_vtable mutex_Lock mutex_Unlock frame) w (fst w, snd (mutex_Lock (snd w))) (ss_Storage (fst w))
    (fun storage w => ((fst w) <| ss_Storage := storage |>, snd (mutex_Unlock (snd w)))).
Proof.
  intros Hl Hb. split; [done |]. intros use. unfold WithScratch, SharedScratch_vtable, SharedScratch_WithScratch, ss_outside, zoom, st_bind, st_get, st_mod.
  rewrite Hb. destruct (mutex_Lock (snd w)) as [[] t1]. cbn [fst snd]. destruct (use _ _ (fst w, t1)) as [storage w2]. cbn [fst snd].
  by destruct (mutex_Unlock (snd w2)) as [[] t3].
Qed.

(** * The logger *)

Section logger.
(** Everything outside the logger: the objects it is wired to, the integrator's code
    and the tap; [frame] is what a stack frame holds. *)
Context {E : Type} `{ErrorTap E} (frame : bytes).

Definition SolidSyslogHaltCallback : Type := option Z -> ST E unit.
Definition SolidSyslogEventReportingFunction : Type := option Z -> ST E bool.
Definition SolidSyslogHeaderFieldFunction : Type := option Z -> ST E (list field_call).

Record SolidSyslogConfig := mkConfig {
  cfg_Buffer : option (SolidSyslogBuffer E);
  cfg_Sender : option (SolidSyslogSender E);
  cfg_Clock : option (ST E SolidSyslogTimestamp);
  cfg_GetHostname : option SolidSyslogHeaderFieldFunction;
  cfg_GetHostnameContext : option Z;
  cfg_GetAppName : option SolidSyslogHeaderFieldFunction;
  cfg_GetAppNameContext : option Z;
  cfg_GetProcessId : option SolidSyslogHeaderFieldFunction;
  cfg_GetProcessIdContext : option Z;
  cfg_Store : option (SolidSyslogStore E);
  cfg_Sd : option (list (option (@SolidSyslogStructuredData E)));
  cfg_SdCount : Z;
  cfg_GetDiscardPolicy : option (SolidSyslogDiscardPolicyFunction E);
  cfg_DiscardPolicyContext : option Z;
  cfg_OnHalt : option SolidSyslogHaltCallback;
  cfg_HaltContext : option Z;
  cfg_Scratch : option (SolidSyslogScratch E);
  cfg_IsEventReportingOn : option SolidSyslogEventReportingFunction;
  cfg_EventReportingContext : option Z
}.

(** A header-field callback is kept with its context in [lg_Format].  [lg_Record] is
    the bytes of the record storage, empty while there is none. *)
Record SolidSyslog := mkSolidSyslog {
  lg_Buffer : SolidSyslogBuffer E;
  lg_Sender : SolidSyslogSender E;
  lg_Store : SolidSyslogStore E;
  lg_Scratch : SolidSyslogScratch E;
  lg_Format : @SolidSyslogMessageFormatterContext E;
  lg_HasRecordStorage : bool;
  lg_Record : bytes;
  lg_RecordCapacity : Z;
  lg_RecordLength : Z;
  lg_HoldsRecord : bool;
  lg_HeldRecordIsReport : bool;
  lg_HeldRecordLossReported : bool;
  lg_GetDiscardPolicy : SolidSyslogDiscardPolicyFunction E;
  lg_DiscardPolicyContext : option Z;
  lg_OnHalt : SolidSyslogHaltCallback;
  lg_HaltContext : option Z;
  lg_IsEventReportingOn : SolidSyslogEventReportingFunction;
  lg_EventReportingContext : option Z;
  lg_ReportTurnedDown : bool;
  lg_Halted : bool
}.
#[export] Instance settable_SolidSyslog : Settable SolidSyslog :=
  fun l => mkSolidSyslog (lg_Buffer l) (lg_Sender l) (lg_Store l) (lg_Scratch l) (lg_Format l) (lg_HasRecordStorage l)
    (lg_Record l) (lg_RecordCapacity l) (lg_RecordLength l) (lg_HoldsRecord l) (lg_HeldRecordIsReport l)
    (lg_HeldRecordLossReported l) (lg_GetDiscardPolicy l) (lg_DiscardPolicyContext l) (lg_OnHalt l) (lg_HaltContext l)
    (lg_IsEventReportingOn l) (lg_EventReportingContext l) (lg_ReportTurnedDown l) (lg_Halted l).
#[export] Instance settable_MessageFormatterContext : Settable (@SolidSyslogMessageFormatterContext E) :=
  fun c => mkMessageFormatterContext (mfc_Clock c) (mfc_GetHostname c) (mfc_GetAppName c) (mfc_GetProcessId c) (mfc_Sd c).

(** What a pass does to the objects around it, in order; [RecordDropped] and
    [ReportHeld] mark what becomes of the slot. *)
Inductive lg_event :=
| BufferRead (record : option bytes)
| BufferFull (full : bool)
| PolicyAsked (policy : Z)
| Reported (severity category code : Z)
| HaltCalled
| StoreWrote (record : bytes) (result : SolidSyslogStoreWriteResult)
| TransientAsked (transient : bool)
| Sent (record : bytes) (taken : bool)
| StoreRead (record : option bytes)
| MarkedSent
| UnsentAsked (unsent : bool)
| SwitchAsked (on : bool)
| ReportHeld (record : bytes)
| RecordDropped (record : bytes).

Record lg_world := mkLgWorld { lw_Self : SolidSyslog; lw_Env : E; lw_Trace : list lg_event }.
#[export] Instance settable_LgWorld : Settable lg_world := fun w => mkLgWorld (lw_Self w) (lw_Env w) (lw_Trace w).

Definition lg_op (A : Type) : Type := ST lg_world A.
Definition lg_get {A} (f : SolidSyslog -> A) : lg_op A := st_get (fun w => f (lw_Self w)).
Definition lg_set (f : SolidSyslog -> SolidSyslog) : lg_op unit := st_mod (fun w => w <| lw_Self := f (lw_Self w) |>).
Definition lg_happens (e : lg_event) : lg_op unit := st_mod (fun w => w <| lw_Trace := lw_Trace w ++ [e] |>).
Definition lg_env {A} (m : ST E A) : lg_op A := zoom lw_Env (fun e w => w <| lw_Env := e |>) m.
(** A call of a neighbour, and the event that says what it answered. *)
Definition lg_call {A} (m : SolidSyslog -> ST E A) (said : A -> lg_event) : lg_op A :=
  let! self := st_get lw_Self in
  let! a := lg_env (m self) in
  lg_happens (said a) ;;;
  st_ret a.

Definition record_of self : bytes := takeZ (lg_RecordLength self) (lg_Record self).

Definition SolidSyslog_Report (severity category code : Z) : lg_op unit :=
  lg_call (fun _ e => (tt, tap_error severity (Some SolidSyslogLoggerErrorSource) category code e))
    (fun _ => Reported severity category code).

(** ** Wiring *)

(** [SolidSyslog_NullClock] leaves the zeroed timestamp it is given. *)
Definition SolidSyslog_NullClock : ST E SolidSyslogTimestamp := st_ret (mkTimestamp 0 0 0 0 0 0 0 0).
Definition SolidSyslog_NullHeaderField : SolidSyslogHeaderFieldFunction := fun _ => st_ret [].
Definition SolidSyslog_NullHalt : SolidSyslogHaltCallback := fun _ => st_ret tt.
Definition SolidSyslog_ReportingAlwaysOn : SolidSyslogEventReportingFunction := fun _ => st_ret true.

Definition reset_self : SolidSyslog :=
  mkSolidSyslog SolidSyslogNullBuffer_Get SolidSyslogNullSender_Get SolidSyslogNullStore_Get (SolidSyslogStackScratch_Get frame)
    (mkMessageFormatterContext SolidSyslog_NullClock (SolidSyslog_NullHeaderField None) (SolidSyslog_NullHeaderField None)
       (SolidSyslog_NullHeaderField None) [])
    false [] 0 0 false false false SolidSyslogDiscardPolicy_Default None SolidSyslog_NullHalt None
    SolidSyslog_ReportingAlwaysOn None false false.
Definition SolidSyslog_ResetToDefaults : lg_op unit := lg_set (fun _ => reset_self).
Definition SolidSyslog_Cleanup : lg_op unit := SolidSyslog_ResetToDefaults.

Definition report_bad_config (code : Z) : lg_op unit :=
  SolidSyslog_Report SOLIDSYSLOG_BAD_CONFIG_FATAL_SEVERITY SOLIDSYSLOG_CAT_BAD_CONFIG code.
Definition SolidSyslog_InstallBuffer (configured : option (SolidSyslogBuffer E)) : lg_op unit :=
  match configured with
  | None => report_bad_config SOLIDSYSLOG_ERROR_CREATE_NULL_BUFFER
  | Some b => lg_set (fun s => s <| lg_Buffer := b |>)
  end.
Definition SolidSyslog_InstallSender (configured : option (SolidSyslogSender E)) : lg_op unit :=
  match configured with
  | None => report_bad_config SOLIDSYSLOG_ERROR_CREATE_NULL_SENDER
  | Some x => lg_set (fun s => s <| lg_Sender := x |>)
  end.
Definition SolidSyslog_InstallStore (configured : option (SolidSyslogStore E)) : lg_op unit :=
  match configured with
  | None => report_bad_config SOLIDSYSLOG_ERROR_CREATE_NULL_STORE
  | Some x => lg_set (fun s => s <| lg_Store := x |>)
  end.

(** A field of [lg_Format]. *)
Definition set_format (f : @SolidSyslogMessageFormatterContext E -> @SolidSyslogMessageFormatterContext E) : lg_op unit :=
  lg_set (fun s => s <| lg_Format := f (lg_Format s) |>).
Definition SolidSyslog_InstallClock (configured : option (ST E SolidSyslogTimestamp)) : lg_op unit :=
  match configured with Some clock => set_format (fun c => c <| mfc_Clock := clock |>) | None => st_ret tt end.
Definition SolidSyslog_InstallHostname (configured : option SolidSyslogHeaderFieldFunction) (context : option Z) : lg_op unit :=
  match configured with Some f => set_format (fun c => c <| mfc_GetHostname := f context |>) | None => st_ret tt end.
Definition SolidSyslog_InstallAppName (configured : option SolidSyslogHeaderFieldFunction) (context : option Z) : lg_op unit :=
  match configured with Some f => set_format (fun c => c <| mfc_GetAppName := f context |>) | None => st_ret tt end.
Definition SolidSyslog_InstallProcessId (configured : option SolidSyslogHeaderFieldFunction) (context : option Z) : lg_op unit :=
  match configured with Some f => set_format (fun c => c <| mfc_GetProcessId := f context |>) | None => st_ret tt end.
Definition SolidSyslog_InstallDiscardPolicy (configured : option (SolidSyslogDiscardPolicyFunction E)) (context : option Z) : lg_op unit :=
  match configured with
  | Some f => lg_set (fun s => s <| lg_GetDiscardPolicy := f |> <| lg_DiscardPolicyContext := context |>)
  | None => st_ret tt
  end.
Definition SolidSyslog_InstallHalt (configured : option SolidSyslogHaltCallback) (context : option Z) : lg_op unit :=
  match configured with
  | Some f => lg_set (fun s => s <| lg_OnHalt := f |> <| lg_HaltContext := context |>)
  | None => st_ret tt
  end.
Definition SolidSyslog_InstallScratch (configured : option (SolidSyslogScratch E)) : lg_op unit :=
  match configured with Some x => lg_set (fun s => s <| lg_Scratch := x |>) | None => st_ret tt end.
Definition SolidSyslog_InstallEventReporting (configured : option SolidSyslogEventReportingFunction) (context : option Z) : lg_op unit :=
  match configured with
  | Some f => lg_set (fun s => s <| lg_IsEventReportingOn := f |> <| lg_EventReportingContext := context |>)
  | None => st_ret tt
  end.
(** A null array with a count is refused; the formatter reads [count] elements. *)
Definition SolidSyslog_InstallStructuredData (configured : option (list (option (@SolidSyslogStructuredData E)))) (count : Z) : lg_op unit :=
  match configured with
  | None =>
      if 0 <? count then report_bad_config SOLIDSYSLOG_ERROR_CREATE_INCONSISTENT_SD
      else set_format (fun c => c <| mfc_Sd := [] |>)
  | Some sd => set_format (fun c => c <| mfc_Sd := takeZ count sd |>)
  end.

Definition SolidSyslog_Initialise (config : SolidSyslogConfig) (recordStorage : bytes) (recordCapacity : Z) : lg_op unit :=
  SolidSyslog_ResetToDefaults ;;;
  lg_set (fun s => s <| lg_HasRecordStorage := true |>
                     <| lg_Record := SolidSyslogFormatter_Bytes (SolidSyslogFormatter_Create recordStorage recordCapacity) |>
                     <| lg_RecordCapacity := recordCapacity |>) ;;;
  SolidSyslog_InstallBuffer (cfg_Buffer config) ;;;
  SolidSyslog_InstallSender (cfg_Sender config) ;;;
  SolidSyslog_InstallStore (cfg_Store config) ;;;
  SolidSyslog_InstallClock (cfg_Clock config) ;;;
  SolidSyslog_InstallHostname (cfg_GetHostname config) (cfg_GetHostnameContext config) ;;;
  SolidSyslog_InstallAppName (cfg_GetAppName config) (cfg_GetAppNameContext config) ;;;
  SolidSyslog_InstallProcessId (cfg_GetProcessId config) (cfg_GetProcessIdContext config) ;;;
  SolidSyslog_InstallStructuredData (cfg_Sd config) (cfg_SdCount config) ;;;
  SolidSyslog_InstallDiscardPolicy (cfg_GetDiscardPolicy config) (cfg_DiscardPolicyContext config) ;;;
  SolidSyslog_InstallHalt (cfg_OnHalt config) (cfg_HaltContext config) ;;;
  SolidSyslog_InstallScratch (cfg_Scratch config) ;;;
  SolidSyslog_InstallEventReporting (cfg_IsEventReportingOn config) (cfg_EventReportingContext config).

(** ** The neighbours, through their vtables *)

Definition Buffer_IsFull : lg_op bool := lg_call (fun s => SolidSyslogBuffer_IsFull (SolidSyslogBuffer := lg_Buffer s)) BufferFull.
Definition ask_discard_policy : lg_op Z := lg_call (fun s => lg_GetDiscardPolicy s (lg_DiscardPolicyContext s)) PolicyAsked.
Definition Sender_Send : lg_op bool :=
  let! record := lg_get record_of in
  lg_call (fun s => SolidSyslogSender_Send (SolidSyslogSender := lg_Sender s) (lg_Record s) (lg_RecordLength s)) (Sent record).
Definition Store_Write : lg_op SolidSyslogStoreWriteResult :=
  let! record := lg_get record_of in
  lg_call (fun s => SolidSyslogStore_Write (SolidSyslogStore := lg_Store s) (lg_Record s) (lg_RecordLength s)) (StoreWrote record).
Definition Store_IsTransient : lg_op bool := lg_call (fun s => SolidSyslogStore_IsTransient (SolidSyslogStore := lg_Store s)) TransientAsked.
Definition Store_HasUnsent : lg_op bool := lg_call (fun s => SolidSyslogStore_HasUnsent (SolidSyslogStore := lg_Store s)) UnsentAsked.
Definition Store_MarkSent : lg_op unit := lg_call (fun s => SolidSyslogStore_MarkSent (SolidSyslogStore := lg_Store s)) (fun _ => MarkedSent).
(** A read fills the record slot, and says whether there was a record. *)
Definition read_said (mk : option bytes -> lg_event) (r : bool * bytes * Z) : lg_event :=
  let '(read, data, bytesRead) := r in mk (if read : bool then Some (takeZ bytesRead data) else None).
Definition take_read (r : bool * bytes * Z) : lg_op bool :=
  let '(read, data, bytesRead) := r in
  lg_set (fun s => s <| lg_Record := data |> <| lg_RecordLength := bytesRead |>) ;;;
  st_ret read.
Definition Buffer_Read : lg_op bool :=
  let! r := lg_call (fun s => SolidSyslogBuffer_Read (SolidSyslogBuffer := lg_Buffer s) (lg_Record s) (lg_RecordCapacity s)) (read_said BufferRead) in
  take_read r.
Definition Store_ReadNextUnsent : lg_op bool :=
  let! r := lg_call (fun s => SolidSyslogStore_ReadNextUnsent (SolidSyslogStore := lg_Store s) (lg_Record s) (lg_RecordCapacity s)) (read_said StoreRead) in
  take_read r.

(** ** Halting *)

Definition SolidSyslog_PolicyHalts : lg_op bool :=
  let! policy := ask_discard_policy in
  st_ret (policy =? SOLIDSYSLOG_DISCARD_POLICY_HALT).
Definition SolidSyslog_Halt (haltedAt : Z) : lg_op unit :=
  lg_set (fun s => s <| lg_Halted := true |>) ;;;
  SolidSyslog_Report SOLIDSYSLOG_SEVERITY_ERROR SOLIDSYSLOG_CAT_LOGGER_HALTED haltedAt ;;;
  lg_call (fun s => lg_OnHalt s (lg_HaltContext s)) (fun _ => HaltCalled).
Definition SolidSyslog_HaltIfPolicyHalts : lg_op unit :=
  let! halts := SolidSyslog_PolicyHalts in
  if! halts : bool then SolidSyslog_Halt SOLIDSYSLOG_ERROR_HALTED_STORE_REFUSED end!.
Definition SolidSyslog_ResumeIfPolicyChanged : lg_op unit :=
  let! halted := lg_get lg_Halted in
  let! halted := if halted : bool then SolidSyslog_PolicyHalts else st_ret false in
  lg_set (fun s => s <| lg_Halted := halted |>).
Definition SolidSyslog_IsServiceEnabled self : bool := negb (lg_Halted self).

(** ** The held record *)

Definition SolidSyslog_StoreDealsWithHeldRecord : lg_op bool :=
  let! result := Store_Write in
  let! transient :=
    match result with SOLIDSYSLOG_STORE_WRITE_NOT_RETAINED => Store_IsTransient | _ => st_ret true end in
  let refused := negb transient in
  let lost := match result with SOLIDSYSLOG_STORE_WRITE_LOST => true | _ => false end in
  let notKept := refused || lost in
  if! refused then SolidSyslog_HaltIfPolicyHalts end! ;;;
  let! isReport := lg_get lg_HeldRecordIsReport in
  st_ret (match result with SOLIDSYSLOG_STORE_WRITE_KEPT => true | _ => false end || notKept && negb isReport).
Definition SolidSyslog_StoreOrSenderTakesHeldRecord : lg_op bool :=
  let! stored := SolidSyslog_StoreDealsWithHeldRecord in
  if stored : bool then st_ret true
  else
    let! halted := lg_get lg_Halted in
    if halted : bool then st_ret false else Sender_Send.
Definition SolidSyslog_IsBufferRecordDealtWith self : bool := negb (lg_HoldsRecord self) && negb (lg_HeldRecordIsReport self).
Definition SolidSyslog_DealWithHeldRecord : lg_op bool :=
  let! holds := lg_get lg_HoldsRecord in
  if! holds : bool then
    let! taken := SolidSyslog_StoreOrSenderTakesHeldRecord in
    lg_set (fun s => s <| lg_HoldsRecord := negb taken |>) ;;;
    lg_set (fun s => s <| lg_HeldRecordLossReported := lg_HeldRecordLossReported s && negb (SolidSyslog_IsBufferRecordDealtWith s) |>)
  end! ;;;
  let! holds := lg_get lg_HoldsRecord in
  st_ret (negb holds).

Definition SolidSyslog_HoldNextRecord : lg_op bool :=
  let! read := Buffer_Read in
  lg_set (fun s => s <| lg_HoldsRecord := read |> <| lg_HeldRecordIsReport := false |>) ;;;
  st_ret read.

Definition SolidSyslog_DropHeldRecord : lg_op unit :=
  let! runStarted := lg_get (fun s => negb (lg_HeldRecordLossReported s)) in
  let! record := lg_get record_of in
  lg_set (fun s => s <| lg_HoldsRecord := false |> <| lg_HeldRecordLossReported := true |>) ;;;
  lg_happens (RecordDropped record) ;;;
  if! runStarted : bool then
    SolidSyslog_Report SOLIDSYSLOG_SEVERITY_WARNING SOLIDSYSLOG_CAT_BUFFER_RECORDS_LOST SOLIDSYSLOG_ERROR_HELD_RECORD_DROPPED
  end!.
Definition SolidSyslog_ApplyPolicyToHeldRecordIfBufferFull : lg_op unit :=
  let! holds := lg_get lg_HoldsRecord in
  let! full := if holds : bool then Buffer_IsFull else st_ret false in
  if! full : bool then
    let! policy := ask_discard_policy in
    let! isReport := lg_get lg_HeldRecordIsReport in
    if (policy =? SOLIDSYSLOG_DISCARD_POLICY_OLDEST) && negb isReport then SolidSyslog_DropHeldRecord
    else if policy =? SOLIDSYSLOG_DISCARD_POLICY_HALT then SolidSyslog_Halt SOLIDSYSLOG_ERROR_HALTED_BUFFER_FULL
    else st_ret tt
  end!.

(** ** Reports of the library's own events *)

Definition SolidSyslog_HasRecordSlot self : bool := lg_HasRecordStorage self.

Definition reportMsg : bytes := str "SolidSyslog event".
Definition report_message (event : SolidSyslogErrorEvent) : SolidSyslogMessage :=
  mkMessage SOLIDSYSLOG_FACILITY_SYSLOG (ev_Severity event) (SolidSyslogErrorCategory_Name (ev_Category event)) (Some reportMsg).
Definition format_report self (event : SolidSyslogErrorEvent) : ST E (bytes * Z) :=
  let formatter := SolidSyslogFormatter_Create (lg_Record self) (lg_RecordCapacity self) in
  let! formatter := SolidSyslogMessageFormatter_Format formatter (report_message event) (lg_Format self) [Some (EventSd event)] in
  let '(record, formatter) := SolidSyslogFormatter_AsFormattedBuffer formatter in
  st_ret (record, SolidSyslogFormatter_Length formatter).
Definition SolidSyslog_FormatReport (event : SolidSyslogErrorEvent) : lg_op unit :=
  let! self := st_get lw_Self in
  let! r := lg_env (format_report self event) in
  lg_set (fun s => s <| lg_Record := fst r |> <| lg_RecordLength := snd r |>).

(** The event on the stack is written whole by the taking. *)
Definition uninitialised_event : SolidSyslogErrorEvent := mkErrorEvent 0 0 false None 0 0.
Definition PendingEvents_Take (index : Z) : lg_op (bool * SolidSyslogErrorEvent) :=
  lg_env (fun e => let '(r, slots) := SolidSyslogPendingEvents_Take index uninitialised_event (tap_Slots e) in (r, tap_SetSlots slots e)).
Definition SolidSyslog_HoldPendingReport (index : Z) : lg_op unit :=
  let! r := PendingEvents_Take index in
  let '(taken, event) := r in
  lg_set (fun s => s <| lg_HoldsRecord := taken |> <| lg_HeldRecordIsReport := taken |>) ;;;
  SolidSyslog_FormatReport event ;;;
  let! record := lg_get record_of in
  if! taken : bool then lg_happens (ReportHeld record) end!.
Definition SolidSyslog_ReportIfPending (index : Z) : lg_op bool :=
  let! pending := lg_env (st_get (fun e => SolidSyslogPendingEvents_IsPending index (tap_Slots e))) in
  if pending : bool then
    let! goesOn := lg_call (fun s => lg_IsEventReportingOn s (lg_EventReportingContext s)) SwitchAsked in
    lg_set (fun s => s <| lg_ReportTurnedDown := negb goesOn |>) ;;;
    if goesOn : bool then
      SolidSyslog_HoldPendingReport index ;;;
      let! free := SolidSyslog_DealWithHeldRecord in
      let! halted := lg_get lg_Halted in
      st_ret (free && negb halted)
    else st_ret false
  else st_ret true.
(** [for (index = 0; index < KIND_COUNT && walking; index++)] *)
Definition report_step (index : Z) (walking : bool) : lg_op bool :=
  if walking then SolidSyslog_ReportIfPending index else st_ret false.
Definition SolidSyslog_ReportPendingEvents : lg_op bool :=
  let! walking := lg_get SolidSyslog_HasRecordSlot in
  forM (Z.to_nat SOLIDSYSLOG_PENDING_EVENT_KIND_COUNT) 0 report_step walking ;;;
  let! holds := lg_get lg_HoldsRecord in
  st_ret (negb holds).

(** ** A pass *)

(** [while (dealtWith && !Halted && HoldNextRecord())], with [drained] and
    [dealtWith]. *)
Definition drain_step (st : bool * bool) : lg_op (bool * (bool * bool)) :=
  let '(drained, dealtWith) := st in
  let! halted := lg_get lg_Halted in
  if dealtWith && negb halted then
    let! held := SolidSyslog_HoldNextRecord in
    if held : bool then
      let! dealtWith := SolidSyslog_DealWithHeldRecord in
      st_ret (true, (true, dealtWith))
    else st_ret (false, (drained, dealtWith))
  else st_ret (false, (drained, dealtWith)).
(** The loop takes as many records as the buffer has to give, while other tasks may
    go on writing; [rounds] is the number of turns it is followed for. *)
Definition SolidSyslog_DrainBufferIntoStore (rounds : nat) : lg_op bool :=
  SolidSyslog_ApplyPolicyToHeldRecordIfBufferFull ;;;
  let! halted := lg_get lg_Halted in
  let! dealtWith := if halted : bool then st_ret false else SolidSyslog_DealWithHeldRecord in
  let! halted := lg_get lg_Halted in
  let! dealtWith := if dealtWith && negb halted then SolidSyslog_ReportPendingEvents else st_ret dealtWith in
  let! st := loopM rounds drain_step (false, dealtWith) in
  st_ret (fst st).

Definition SolidSyslog_TakeNextFromStore : lg_op bool :=
  let! holds := lg_get lg_HoldsRecord in
  if holds : bool then st_ret false else Store_ReadNextUnsent.
Definition SolidSyslog_SendOneFromStore : lg_op bool :=
  let! taken := SolidSyslog_TakeNextFromStore in
  if taken : bool then
    let! sent := Sender_Send in
    if sent : bool then Store_MarkSent ;;; st_ret false else st_ret true
  else Store_HasUnsent.

Definition SolidSyslog_IsBlocked self (storeBlocked drained : bool) : bool := lg_HoldsRecord self || storeBlocked && negb drained.
Definition SolidSyslog_IsReportWaiting : lg_op bool :=
  let! self := st_get lw_Self in
  let! any := lg_env (st_get (fun e => SolidSyslogPendingEvents_AnyPending (tap_Slots e))) in
  st_ret (SolidSyslog_HasRecordSlot self && negb (lg_ReportTurnedDown self) && any).

Definition SolidSyslog_ProcessMessages (rounds : nat) : lg_op SolidSyslogServiceStatus :=
  lg_set (fun s => s <| lg_ReportTurnedDown := false |>) ;;;
  let! drained := SolidSyslog_DrainBufferIntoStore rounds in
  let! halted := lg_get lg_Halted in
  let! storeBlocked := if halted : bool then st_ret false else SolidSyslog_SendOneFromStore in
  let! self := st_get lw_Self in
  if lg_Halted self then st_ret SOLIDSYSLOG_SERVICE_HALTED
  else if SolidSyslog_IsBlocked self storeBlocked drained then st_ret SOLIDSYSLOG_SERVICE_BLOCKED
  else if drained then st_ret SOLIDSYSLOG_SERVICE_READY
  else
    let! unsent := Store_HasUnsent in
    if unsent : bool then st_ret SOLIDSYSLOG_SERVICE_READY
    else
      let! waiting := SolidSyslog_IsReportWaiting in
      if waiting : bool then st_ret SOLIDSYSLOG_SERVICE_READY else st_ret SOLIDSYSLOG_SERVICE_IDLE.

(** [handle] is false for the null handle, which only the tap hears of. *)
Definition SolidSyslog_Service (rounds : nat) (handle : bool) : lg_op SolidSyslogServiceStatus :=
  if handle then
    SolidSyslog_ResumeIfPolicyChanged ;;;
    let! enabled := lg_get SolidSyslog_IsServiceEnabled in
    if enabled : bool then SolidSyslog_ProcessMessages rounds else st_ret SOLIDSYSLOG_SERVICE_HALTED
  else
    SolidSyslog_Report SOLIDSYSLOG_BAD_ARGUMENT_SEVERITY SOLIDSYSLOG_CAT_BAD_ARGUMENT SOLIDSYSLOG_ERROR_SERVICE_NULL_HANDLE ;;;
    st_ret SOLIDSYSLOG_SERVICE_IDLE.

(** ** Logging

    A log call may run on any task: it reads the logger and changes only what is
    around it. *)

Record LogRequest := mkLogRequest {
  rq_Handle : SolidSyslog;
  rq_Message : SolidSyslogMessage;
  rq_Sd : list (option (@SolidSyslogStructuredData E))
}.
Definition SolidSyslog_FormatIntoScratch (request : LogRequest) : SolidSyslogScratchUser E := fun storage messageBytes =>
  let f := SolidSyslogFormatter_Create storage messageBytes in
  let! f := SolidSyslogMessageFormatter_Format f (rq_Message request) (lg_Format (rq_Handle request)) (rq_Sd request) in
  let '(text, f) := SolidSyslogFormatter_AsFormattedBuffer f in
  SolidSyslogBuffer_Write (SolidSyslogBuffer := lg_Buffer (rq_Handle request)) text (SolidSyslogFormatter_Length f) ;;;
  st_ret (fm_Buffer f).

Definition report_bad_argument (code : Z) : ST E unit :=
  st_mod (tap_error SOLIDSYSLOG_BAD_ARGUMENT_SEVERITY (Some SolidSyslogLoggerErrorSource) SOLIDSYSLOG_CAT_BAD_ARGUMENT code).
Definition SolidSyslog_DoLog (handle : option SolidSyslog) (message : option SolidSyslogMessage)
    (sd : option (list (option (@SolidSyslogStructuredData E)))) (sdCount : Z) : ST E unit :=
  match handle, message with
  | None, _ => report_bad_argument SOLIDSYSLOG_ERROR_LOG_NULL_HANDLE
  | _, None => report_bad_argument SOLIDSYSLOG_ERROR_LOG_NULL_MESSAGE
  | Some self, Some message =>
      let! safeSdCount :=
        match sd with
        | None => if 0 <? sdCount then report_bad_argument SOLIDSYSLOG_ERROR_LOG_INCONSISTENT_SD ;;; st_ret 0 else st_ret sdCount
        | Some _ => st_ret sdCount
        end in
      WithScratch (SolidSyslogScratch := lg_Scratch self)
        (SolidSyslog_FormatIntoScratch (mkLogRequest self message (takeZ safeSdCount (default [] sd))))
  end.
Definition SolidSyslog_Log (handle : option SolidSyslog) (message : option SolidSyslogMessage) : ST E unit :=
  SolidSyslog_DoLog handle message None 0.
Definition SolidSyslog_LogWithSd (handle : option SolidSyslog) (message : option SolidSyslogMessage)
    (sd : option (list (option (@SolidSyslogStructuredData E)))) (sdCount : Z) : ST E unit :=
  SolidSyslog_DoLog handle message sd sdCount.
End logger.

(** * The protocol *)

(** What is in the slot, with whether it is a report of the library's own. *)
Definition held_record : Type := bytes * bool.
(** Where a pass is with its slot.  [Holding]: a record waits in it, to be offered
    again.  The others are steps on the way: the buffer was found full behind it;
    the policy gives it up; the store did not retain it; the store refused it; it
    may go to the sender; a stored record is read to send; it is sent. *)
Inductive phase :=
| Free
| Holding (h : held_record)
| Behind (h : held_record)
| GivingUp (h : held_record)
| NotRetained (h : held_record)
| Refused (h : held_record)
| Offered (h : held_record)
| Staged (r : bytes)
| Delivered (r : bytes).
(** The phase, with whether the logger has halted. *)
Definition slot_state : Type := bool * phase.

(** What became of a record that was in the slot. *)
Inductive fate := StoreKept | StoreLost | StoreRefused | SenderTook | PolicyDropped.
Definition outcome : Type := held_record * fate.

(** After a refusal: a record of the buffer is refused for good, a report may still
    go to the sender unless the logger halts. *)
Definition after_refusal (halts : bool) (h : held_record) : phase :=
  if snd h then (if halts then Holding h else Offered h) else Free.

Inductive slot_step : slot_state -> lg_event -> list outcome -> slot_state -> Prop :=
(* nothing but the slot's own business is told while it is occupied *)
| step_takes r : slot_step (false, Free) (BufferRead (Some r)) [] (false, Holding (r, false))
| step_finds_none : slot_step (false, Free) (BufferRead None) [] (false, Free)
| step_reports r : slot_step (false, Free) (ReportHeld r) [] (false, Holding (r, true))
(* a full buffer behind a held record *)
| step_not_full h : slot_step (false, Holding h) (BufferFull false) [] (false, Holding h)
| step_full h : slot_step (false, Holding h) (BufferFull true) [] (false, Behind h)
| step_gives_up r : slot_step (false, Behind (r, false)) (PolicyAsked SOLIDSYSLOG_DISCARD_POLICY_OLDEST) [] (false, GivingUp (r, false))
| step_halts_full h : slot_step (false, Behind h) (PolicyAsked SOLIDSYSLOG_DISCARD_POLICY_HALT) [] (true, Holding h)
| step_stays h policy : policy <> SOLIDSYSLOG_DISCARD_POLICY_HALT ->
    (policy = SOLIDSYSLOG_DISCARD_POLICY_OLDEST -> snd h = true) -> slot_step (false, Behind h) (PolicyAsked policy) [] (false, Holding h)
| step_drops h : slot_step (false, GivingUp h) (RecordDropped (fst h)) [(h, PolicyDropped)] (false, Free)
(* the store first *)
| step_kept h : slot_step (false, Holding h) (StoreWrote (fst h) SOLIDSYSLOG_STORE_WRITE_KEPT) [(h, StoreKept)] (false, Free)
| step_lost r : slot_step (false, Holding (r, false)) (StoreWrote r SOLIDSYSLOG_STORE_WRITE_LOST) [((r, false), StoreLost)] (false, Free)
| step_lost_report r : slot_step (false, Holding (r, true)) (StoreWrote r SOLIDSYSLOG_STORE_WRITE_LOST) [] (false, Offered (r, true))
| step_not_retained h : slot_step (false, Holding h) (StoreWrote (fst h) SOLIDSYSLOG_STORE_WRITE_NOT_RETAINED) [] (false, NotRetained h)
| step_never_had h : slot_step (false, NotRetained h) (TransientAsked true) [] (false, Offered h)
| step_refused h : slot_step (false, NotRetained h) (TransientAsked false) [] (false, Refused h)
| step_refusal h policy : let halts := policy =? SOLIDSYSLOG_DISCARD_POLICY_HALT in
    slot_step (false, Refused h) (PolicyAsked policy) (if snd h then [] else [(h, StoreRefused)]) (halts, after_refusal halts h)
(* then the sender *)
| step_sent h : slot_step (false, Offered h) (Sent (fst h) true) [(h, SenderTook)] (false, Free)
| step_held h : slot_step (false, Offered h) (Sent (fst h) false) [] (false, Holding h)
(* a stored record *)
| step_staged r : slot_step (false, Free) (StoreRead (Some r)) [] (false, Staged r)
| step_store_idle : slot_step (false, Free) (StoreRead None) [] (false, Free)
| step_delivered r : slot_step (false, Staged r) (Sent r true) [] (false, Delivered r)
| step_undelivered r : slot_step (false, Staged r) (Sent r false) [] (false, Free)
| step_marks r : slot_step (false, Delivered r) MarkedSent [] (false, Free)
(* at any time *)
| step_unsent s b : slot_step s (UnsentAsked b) [] s
| step_told s severity category code : slot_step s (Reported severity category code) [] s
| step_called p : slot_step (true, p) HaltCalled [] (true, p)
| step_switch b : slot_step (false, Free) (SwitchAsked b) [] (false, Free)
(* a halt stands while the policy says so *)
| step_resumes p policy : slot_step (true, p) (PolicyAsked policy) [] (policy =? SOLIDSYSLOG_DISCARD_POLICY_HALT, p).

Inductive slot_steps : slot_state -> list lg_event -> list outcome -> slot_state -> Prop :=
| steps_nil s : slot_steps s [] [] s
| steps_cons s e o s1 es os s2 : slot_step s e o s1 -> slot_steps s1 es os s2 -> slot_steps s (e :: es) (o ++ os) s2.

Lemma slot_steps_app s es os s1 es' os' s2 : slot_steps s es os s1 -> slot_steps s1 es' os' s2 -> slot_steps s (es ++ es') (os ++ os') s2.
Proof.
  induction 1 as [| s e o s1 es os s3 H1 _ IH]; intros H2; [done |].
  rewrite <- app_assoc. cbn [app]. by eapply steps_cons; [exact H1 | apply IH].
Qed.
Lemma slot_steps_one s e o s1 : slot_step s e o s1 -> slot_steps s [e] o s1.
Proof. intros H1. rewrite <- (app_nil_r o). by eapply steps_cons; [exact H1 | apply steps_nil]. Qed.

(** The records put in the slot, and what a slot state holds. *)
Definition put_in_slot (e : lg_event) : list held_record :=
  match e with
  | BufferRead (Some r) => [(r, false)]
  | ReportHeld r => [(r, true)]
  | _ => []
  end.
Definition taken_in (es : list lg_event) : list held_record := concat (map put_in_slot es).
Definition in_slot (s : slot_state) : list held_record :=
  match snd s with
  | Holding h | Behind h | GivingUp h | NotRetained h | Refused h | Offered h => [h]
  | Free | Staged _ | Delivered _ => []
  end.

(** Every record put in the slot has one outcome, in the order they were put in it,
    unless it is still there. *)
Lemma slot_step_accounts s e o s' : slot_step s e o s' -> in_slot s ++ put_in_slot e = map fst o ++ in_slot s'.
Proof.
  destruct 1; try done.
  - unfold after_refusal. by destruct h as [? []], halts.
  - apply app_nil_r.
  - apply app_nil_r.
  - apply app_nil_r.
  - apply app_nil_r.
Qed.
Lemma slot_steps_account s es os s' : slot_steps s es os s' -> in_slot s ++ taken_in es = map fst os ++ in_slot s'.
Proof.
  induction 1 as [s | s e o s1 es os s2 H1 _ IH]; [by rewrite app_nil_r |].
  unfold taken_in in *. cbn [map concat]. rewrite app_assoc, (slot_step_accounts _ _ _ _ H1), <- app_assoc, IH, map_app.
  by rewrite <- app_assoc.
Qed.
(** A report is given up by neither the store nor the policy. *)
Definition report_safe (o : outcome) : Prop := snd (fst o) = true -> snd o = StoreKept \/ snd o = SenderTook.
Definition quiet_phase (s : slot_state) : Prop := match snd s with GivingUp h => snd h = false | _ => True end.
Lemma slot_step_reports_safe s e o s' : slot_step s e o s' -> quiet_phase s -> quiet_phase s' /\ Forall report_safe o.
Proof.
  unfold report_safe. destruct 1; intros Hq; split;
    repeat first [apply Forall_nil_2 | apply Forall_cons_2]; cbn in *; try done; try by (auto || destruct s as [? []]).
  - by rewrite Hq.
  - unfold after_refusal. by destruct h as [? []], halts.
  - destruct h as [? []]; [apply Forall_nil_2 |]. apply Forall_cons_2; [done | apply Forall_nil_2].
Qed.
Lemma slot_steps_reports_safe s es os s' : slot_steps s es os s' -> quiet_phase s -> quiet_phase s' /\ Forall report_safe os.
Proof.
  induction 1 as [s | s e o s1 es os s2 H1 _ IH]; intros Hq; [by split; [| apply Forall_nil_2] |].
  destruct (slot_step_reports_safe _ _ _ _ H1 Hq) as [Hq1 Ho]. destruct (IH Hq1) as [? ?].
  split; [done |]. by apply Forall_app_2.
Qed.

(** * A pass keeps the protocol *)

Section theory.
Context {E : Type} `{HT : ErrorTap E} (frame : bytes).
Implicit Types (w : @lg_world E) (self : @SolidSyslog E).
Local Abbreviation op := (@lg_op E).

Definition slot_of self : slot_state :=
  (lg_Halted self, if lg_HoldsRecord self then Holding (record_of self, lg_HeldRecordIsReport self) else Free).
(** From [w] to [w'] the trace has grown by a run of the protocol. *)
Definition ran w w' : Prop :=
  exists es os, lw_Trace w' = lw_Trace w ++ es /\ slot_steps (slot_of (lw_Self w)) es os (slot_of (lw_Self w')).
Lemma ran_refl w : ran w w.
Proof using. exists [], []. split; [by rewrite app_nil_r | apply steps_nil]. Qed.
Lemma ran_trans w w1 w2 : ran w w1 -> ran w1 w2 -> ran w w2.
Proof using.
  intros (es & os & Et & Hs) (es' & os' & Et' & Hs'). exists (es ++ es'), (os ++ os').
  rewrite Et', Et, app_assoc. split; [done |]. by eapply slot_steps_app.
Qed.
(** Nothing of the slot changed. *)
Lemma ran_same w w' : lw_Trace w' = lw_Trace w -> slot_of (lw_Self w') = slot_of (lw_Self w) -> ran w w'.
Proof using. intros Et Es. exists [], []. rewrite app_nil_r, Es. split; [done | apply steps_nil]. Qed.

Definition follows {A} (m : op A) (Q : A -> lg_world -> Prop) w : Prop := wp m (fun a w' => ran w w' /\ Q a w') w.
Lemma follows_bind {A B} (m : op A) (k : A -> op B) Q w : follows m (fun a => follows (k a) Q) w -> follows (st_bind m k) Q w.
Proof using.
  unfold follows. intros H1. apply wp_bind. eapply wp_mono; [exact H1 |]. cbv beta. intros a w1 [R1 H2].
  eapply wp_mono; [exact H2 |]. cbv beta. intros b w2 [R2 H3]. split; [by eapply ran_trans | done].
Qed.
Lemma follows_mono {A} (m : op A) (Q Q' : A -> lg_world -> Prop) w : follows m Q w -> (forall a w', Q a w' -> Q' a w') -> follows m Q' w.
Proof using. unfold follows. intros H1 H2. eapply wp_mono; [exact H1 |]. cbv beta. intros a w1 [R H3]. auto. Qed.
Lemma follows_ret {A} (a : A) (Q : A -> lg_world -> Prop) w : Q a w -> follows (st_ret a) Q w.
Proof using. intros H1. by split; [apply ran_refl |]. Qed.
Lemma follows_get {A} (f : SolidSyslog -> A) (Q : A -> lg_world -> Prop) w : Q (f (lw_Self w)) w -> follows (lg_get f) Q w.
Proof using. intros H1. by split; [apply ran_refl |]. Qed.

(** A neighbour may answer anything and leave its own state as it likes. *)
Lemma wp_call {A} (m : SolidSyslog -> ST E A) said (Q : A -> lg_world -> Prop) w :
  (forall a e, Q a (mkLgWorld (lw_Self w) e (lw_Trace w ++ [said a]))) -> wp (lg_call m said) Q w.
Proof using. intros H1. unfold wp, lg_call, st_bind, lg_env, zoom, st_get. destruct (m (lw_Self w) (lw_Env w)) as [a e]. apply H1. Qed.
Lemma wp_env {A} (m : ST E A) (Q : A -> lg_world -> Prop) w :
  (forall a e, Q a (mkLgWorld (lw_Self w) e (lw_Trace w))) -> wp (lg_env m) Q w.
Proof using. intros H1. unfold wp, lg_env, zoom. destruct (m (lw_Env w)) as [a e]. apply H1. Qed.
Lemma wp_set f (Q : unit -> lg_world -> Prop) w : Q tt (mkLgWorld (f (lw_Self w)) (lw_Env w) (lw_Trace w)) -> wp (lg_set f) Q w.
Proof using. done. Qed.
Lemma wp_happens e (Q : unit -> lg_world -> Prop) w : Q tt (mkLgWorld (lw_Self w) (lw_Env w) (lw_Trace w ++ [e])) -> wp (lg_happens e) Q w.
Proof using. done. Qed.
Lemma wp_get_self {A} (f : SolidSyslog -> A) (Q : A -> lg_world -> Prop) w : Q (f (lw_Self w)) w -> wp (lg_get f) Q w.
Proof using. done. Qed.

(** Run a program of the logger, one case per answer. *)
Ltac lg_step :=
  lazymatch goal with
  | |- wp (lg_get _) _ _ => apply wp_get_self
  | |- wp (lg_set _) _ _ => apply wp_set
  | |- wp (lg_happens _) _ _ => apply wp_happens
  | |- wp (lg_call _ _) _ _ => apply wp_call; intros ? ?
  | |- wp (lg_env _) _ _ => apply wp_env; intros ? ?
  | |- _ => wp_step
  end.
Ltac lg_steps := cbv beta iota; repeat (lg_step; cbv beta iota); cbn [lw_Self lw_Env lw_Trace].
(** Exhibit the events that were added. *)
Ltac ran_by tac :=
  eexists _, _; split; [rewrite <- ?app_assoc; reflexivity |]; cbn [app]; tac.
Ltac slot_run := repeat (eapply steps_cons; [first [eassumption | econstructor] |]); apply steps_nil.

Lemma Report_ran severity category code w (Q : unit -> lg_world -> Prop) :
  (forall w', ran w w' -> lw_Self w' = lw_Self w -> Q tt w') -> wp (SolidSyslog_Report severity category code) Q w.
Proof using.
  intros H1. apply wp_call. intros [] e. apply H1; [| done]. exists [Reported severity category code], [].
  split; [done |]. apply slot_steps_one. constructor.
Qed.

Definition halts_with (policy : Z) : bool := policy =? SOLIDSYSLOG_DISCARD_POLICY_HALT.
Definition with_halted (b : bool) self : SolidSyslog := self <| lg_Halted := b |>.
(** Halting: the policy's answer has been told; the tap and the callback hear of it. *)
Lemma Halt_spec code w (Q : unit -> lg_world -> Prop) :
  (forall e, Q tt (mkLgWorld (with_halted true (lw_Self w)) e (lw_Trace w ++ [Reported SOLIDSYSLOG_SEVERITY_ERROR SOLIDSYSLOG_CAT_LOGGER_HALTED code; HaltCalled]))) ->
  wp (SolidSyslog_Halt code) Q w.
Proof using.
  intros H1. unfold SolidSyslog_Halt, SolidSyslog_Report. lg_steps. rewrite <- app_assoc. destruct a0. apply H1.
Qed.

(** The free slot of a logger that runs. *)
Definition free w : Prop := lg_Halted (lw_Self w) = false /\ lg_HoldsRecord (lw_Self w) = false.
Lemma free_slot w : free w -> slot_of (lw_Self w) = (false, Free).
Proof using. intros [H1 H2]. unfold slot_of. by rewrite H1, H2. Qed.
Definition running w : Prop := lg_Halted (lw_Self w) = false.

Lemma PolicyHalts_spec w (Q : bool -> lg_world -> Prop) :
  (forall policy e, Q (halts_with policy) (mkLgWorld (lw_Self w) e (lw_Trace w ++ [PolicyAsked policy]))) -> wp SolidSyslog_PolicyHalts Q w.
Proof using. intros H1. unfold SolidSyslog_PolicyHalts, ask_discard_policy. lg_steps. apply H1. Qed.

Lemma with_halted_same self : lg_Halted self = false -> with_halted false self = self.
Proof using. destruct self. cbn. by intros ->. Qed.

(** Offering a held record [h] to the store: it is dealt with, or the logger halts
    with it, or it may go to the sender. *)
Definition store_dealt self (tr : list lg_event) (h : held_record) (dealt : bool) w' : Prop :=
  exists (es : list lg_event) (os : list outcome) (halted : bool), lw_Self w' = with_halted halted self /\ lw_Trace w' = tr ++ es /\
    slot_steps (false, Holding h) es os (halted, if dealt then Free else if halted then Holding h else Offered h).
Lemma StoreDeals_spec w : running w ->
  wp SolidSyslog_StoreDealsWithHeldRecord
    (store_dealt (lw_Self w) (lw_Trace w) (record_of (lw_Self w), lg_HeldRecordIsReport (lw_Self w))) w.
Proof using.
  unfold running, SolidSyslog_StoreDealsWithHeldRecord, Store_Write, Store_IsTransient, store_dealt. destruct w as [self env tr].
  cbn [lw_Self lw_Trace]. intros Hr. lg_steps. pose proof (with_halted_same self Hr) as Es.
  destruct (lg_HeldRecordIsReport self) eqn:Er.
  all: destruct a as [| |]; lg_steps; [destruct a; cbn [negb orb andb]; lg_steps; [| unfold SolidSyslog_HaltIfPolicyHalts; lg_steps;
         apply PolicyHalts_spec; intros policy e1; unfold halts_with; destruct (policy =? SOLIDSYSLOG_DISCARD_POLICY_HALT) eqn:Ep;
         lg_steps; [apply Halt_spec; intros e2; lg_steps |]] | |].
  all: cbn [negb orb]; lg_steps; change (lg_HeldRecordIsReport (with_halted true self)) with (lg_HeldRecordIsReport self);
    rewrite ?Er; cbn [negb orb andb].
  all: try (match goal with Ep : (?p =? _) = _ |- _ => pose proof (step_refusal (record_of self, lg_HeldRecordIsReport self) p) as HR;
              cbv zeta in HR; rewrite Ep, Er in HR; cbn in HR end).
  all: eexists _, _, _; split; [first [reflexivity | symmetry; exact Es] | split; [rewrite <- ?app_assoc; reflexivity |]]; cbn [app]; slot_run.
Qed.

(** Dealing with the held record: the protocol goes on from the slot to the slot. *)
Lemma Deal_follows w : running w ->
  follows SolidSyslog_DealWithHeldRecord (fun freed w' => freed = negb (lg_HoldsRecord (lw_Self w'))) w.
Proof using.
  unfold running, follows, SolidSyslog_DealWithHeldRecord. intros Hr. lg_steps. destruct (lg_HoldsRecord (lw_Self w)) eqn:Hh.
  2:{ lg_steps. split; [apply ran_refl | done]. }
  assert (Es : slot_of (lw_Self w) = (false, Holding (record_of (lw_Self w), lg_HeldRecordIsReport (lw_Self w)))) by (unfold slot_of; by rewrite Hr, Hh).
  unfold SolidSyslog_StoreOrSenderTakesHeldRecord. lg_steps. eapply wp_mono; [by apply StoreDeals_spec |]. cbv beta.
  intros dealt w1 (es & os & halted & E1 & Et & Hs). rewrite <- Es in Hs. destruct dealt; lg_steps.
  - split; [| done]. exists es, os. split; [done |]. cbn [lw_Self]. rewrite E1. exact Hs.
  - rewrite E1. change (lg_Halted (with_halted halted (lw_Self w))) with halted. destruct halted; lg_steps.
    + split; [| done]. exists es, os. split; [done |]. cbn [lw_Self]. rewrite E1. exact Hs.
    + unfold Sender_Send. lg_steps. rewrite E1, Et. destruct a; cbn [negb].
      * split; [| done]. eexists _, _. split; [by rewrite <- app_assoc |].
        eapply slot_steps_app; [exact Hs |]. apply slot_steps_one. apply (step_sent (record_of (lw_Self w), _)).
      * split; [| done]. eexists _, _. split; [by rewrite <- app_assoc |].
        eapply slot_steps_app; [exact Hs |]. apply slot_steps_one. apply (step_held (record_of (lw_Self w), _)).
Qed.

Lemma ran_one w w' e o : lw_Trace w' = lw_Trace w ++ [e] -> slot_step (slot_of (lw_Self w)) e o (slot_of (lw_Self w')) -> ran w w'.
Proof using. intros Et Hs. exists [e], o. split; [done | by apply slot_steps_one]. Qed.

Definition dropped self : SolidSyslog := self <| lg_HoldsRecord := false |> <| lg_HeldRecordLossReported := true |>.
Lemma Drop_spec w (Q : unit -> lg_world -> Prop) :
  (forall e told, slot_steps (false, Free) told [] (false, Free) ->
     Q tt (mkLgWorld (dropped (lw_Self w)) e (lw_Trace w ++ RecordDropped (record_of (lw_Self w)) :: told))) ->
  wp SolidSyslog_DropHeldRecord Q w.
Proof using.
  intros H1. unfold SolidSyslog_DropHeldRecord, SolidSyslog_Report. lg_steps.
  destruct (lg_HeldRecordLossReported (lw_Self w)); cbn [negb]; lg_steps.
  - apply (H1 (lw_Env w) []). apply steps_nil.
  - rewrite <- app_assoc. destruct a. eapply (H1 e [_]). apply (slot_steps_one _ _ []). constructor.
Qed.

(** A buffer that filled behind the held record: the policy decides its fate. *)
Lemma ApplyPolicy_follows w : running w -> follows SolidSyslog_ApplyPolicyToHeldRecordIfBufferFull (fun _ _ => True) w.
Proof using.
  unfold running, follows, SolidSyslog_ApplyPolicyToHeldRecordIfBufferFull. destruct w as [self env tr]. cbn [lw_Self]. intros Hr.
  lg_steps. destruct (lg_HoldsRecord self) eqn:Hh; [| lg_steps; split; [apply ran_refl | done]].
  assert (Es : slot_of self = (false, Holding (record_of self, lg_HeldRecordIsReport self))) by (unfold slot_of; by rewrite Hr, Hh).
  assert (Et : slot_of (with_halted true self) = (true, Holding (record_of self, lg_HeldRecordIsReport self))).
  { unfold slot_of. cbn. by rewrite Hh. }
  unfold Buffer_IsFull, ask_discard_policy. lg_steps.
  destruct a; lg_steps; [| split; [| done]; eapply ran_one; [done |]; cbn [lw_Self]; rewrite Es; constructor].
  destruct ((a =? SOLIDSYSLOG_DISCARD_POLICY_OLDEST) && negb (lg_HeldRecordIsReport self)) eqn:Ho.
  - apply andb_prop in Ho as [->%Z.eqb_eq Er%negb_true_iff]. apply Drop_spec. intros e1 told Htold.
    split; [| done]. eexists _, _. cbn [lw_Self lw_Trace]. split; [by rewrite <- !app_assoc |]. cbn [app].
    change (slot_of (dropped self)) with (lg_Halted self, Free). rewrite Es, Er, Hr.
    do 2 (eapply steps_cons; [constructor |]). eapply steps_cons; [apply (step_drops (record_of self, false)) | exact Htold].
  - destruct (Z.eqb_spec a SOLIDSYSLOG_DISCARD_POLICY_HALT) as [-> | Hnh]; lg_steps.
    + apply Halt_spec. intros e1. split; [| done]. cbn [lw_Self lw_Trace]. eexists _, _. cbn [lw_Self lw_Trace].
      split; [by rewrite <- !app_assoc |]. cbn [app]. rewrite Es, Et. slot_run.
    + split; [| done]. eexists _, _. cbn [lw_Self lw_Trace]. split; [by rewrite <- !app_assoc |]. cbn [app]. rewrite Es.
      eapply steps_cons; [constructor |]. eapply steps_cons; [apply step_stays; [done |] | apply steps_nil].
      intros ->. cbn [snd]. destruct (lg_HeldRecordIsReport self); [done | discriminate Ho].
Qed.

(** A record was taken from the buffer between [w] and [w']. *)
Definition took_record w w' : Prop := exists es r, lw_Trace w' = lw_Trace w ++ es /\ BufferRead (Some r) ∈ es.
Lemma took_ran w w1 w2 : took_record w w1 -> ran w1 w2 -> took_record w w2.
Proof using.
  intros (es & r & E1 & Hr) (es' & os & E2 & _). exists (es ++ es'), r. rewrite E2, E1, app_assoc. split; [done |].
  apply elem_of_app. by left.
Qed.
Lemma ran_took w w1 w2 : ran w w1 -> took_record w1 w2 -> took_record w w2.
Proof using.
  intros (es' & os & E2 & _) (es & r & E1 & Hr). exists (es' ++ es), r. rewrite E1, E2, app_assoc. split; [done |].
  apply elem_of_app. by right.
Qed.

(** Taking the next record of the buffer into the free slot. *)
Lemma HoldNext_follows w : free w ->
  follows SolidSyslog_HoldNextRecord (fun held w' => running w' /\ held = lg_HoldsRecord (lw_Self w') /\ (held = true -> took_record w w')) w.
Proof using.
  intros Hf. pose proof (free_slot w Hf) as Es. destruct Hf as [Hr _]. unfold follows, SolidSyslog_HoldNextRecord, Buffer_Read, running.
  lg_steps. destruct a as [[read data] n]. unfold take_read. lg_steps.
  split; [| split; [done |]; split; [done |]; intros ->; exists [BufferRead (Some (takeZ n data))], (takeZ n data); split; [done | apply list_elem_of_here]].
  eapply ran_one; [done |]. rewrite Es. cbn [lw_Self].
  match goal with |- slot_step _ _ _ (slot_of ?s) => change (slot_of s) with (lg_Halted (lw_Self w), if read : bool then Holding (takeZ n data, false) else Free) end.
  rewrite Hr. destruct read; constructor.
Qed.

(** One kind of event: its report goes through the slot as a record does. *)
Lemma HoldPending_follows index w : free w -> follows (SolidSyslog_HoldPendingReport index) (fun _ => running) w.
Proof using.
  intros Hf. pose proof (free_slot w Hf) as Es. destruct Hf as [Hr Hh].
  unfold follows, running, SolidSyslog_HoldPendingReport, PendingEvents_Take, SolidSyslog_FormatReport. lg_steps.
  destruct a as [taken event]. lg_steps. split; [| by destruct taken].
  destruct taken; cbn [lw_Self lw_Trace].
  - eapply ran_one; [done |]. rewrite Es.
    match goal with |- slot_step _ _ _ (slot_of ?s) => change (slot_of s) with (lg_Halted (lw_Self w), Holding (takeZ (snd a) (fst a), true)) end.
    rewrite Hr. constructor.
  - apply ran_same; [done |]. rewrite Es. cbn [lw_Self].
    match goal with |- slot_of ?s = _ => change (slot_of s) with (lg_Halted (lw_Self w), Free) end. by rewrite Hr.
Qed.
Lemma ReportIfPending_follows index w : free w -> follows (SolidSyslog_ReportIfPending index) (fun goesOn w' => goesOn = true -> free w') w.
Proof using.
  intros Hf. pose proof (free_slot w Hf) as Es. destruct Hf as [Hr Hh]. unfold SolidSyslog_ReportIfPending.
  apply follows_bind. unfold follows at 1. apply wp_env. intros pending e. split; [by apply ran_same |].
  destruct pending; [| by apply follows_ret].
  apply follows_bind. unfold follows at 1. apply wp_call. intros goesOn e1.
  split; [eapply ran_one; [done |]; cbn [lw_Self]; rewrite Es; constructor |].
  apply follows_bind. unfold follows at 1. apply wp_set. split; [by apply ran_same |].
  destruct goesOn; [| by apply follows_ret].
  apply follows_bind. eapply follows_mono; [apply HoldPending_follows; by split |]. cbv beta. intros _ w1 Hr1.
  apply follows_bind. eapply follows_mono; [by apply Deal_follows |]. cbv beta. intros freed w2 ->.
  apply follows_bind, follows_get, follows_ret. intros [H1%negb_true_iff H2%negb_true_iff]%andb_prop. by split.
Qed.
Lemma ReportPending_follows w : free w ->
  follows SolidSyslog_ReportPendingEvents (fun freed w' => freed = negb (lg_HoldsRecord (lw_Self w'))) w.
Proof using.
  intros Hf. unfold SolidSyslog_ReportPendingEvents. apply follows_bind, follows_get.
  apply follows_bind. unfold follows at 1.
  apply (wp_forM (fun _ walking w1 => ran w w1 /\ (walking = true -> free w1))); [split; [apply ran_refl | done] | |].
  - intros i [] w1 _ [R1 Hf1]; unfold report_step; [| apply wp_ret; by split].
    eapply wp_mono; [by apply ReportIfPending_follows, Hf1 |]. cbv beta. intros goesOn w2 [R2 H2].
    split; [by eapply ran_trans | done].
  - intros walking w1 [R1 _]. split; [done |]. by apply follows_bind, follows_get, follows_ret.
Qed.

(** ** The pass *)

Definition drained_told w (drained : bool) w' : Prop := drained = true -> took_record w w'.
Lemma loop_follows rounds : forall st w0 w, ran w0 w -> (snd st = true -> running w -> free w) -> drained_told w0 (fst st) w ->
  follows (loopM rounds drain_step st) (fun st' w' => drained_told w0 (fst st') w') w.
Proof using.
  induction rounds as [| rounds IH]; intros [drained dealt] w0 w R0 Hd Ht; cbn [loopM]; [by apply follows_ret |].
  unfold drain_step at 1. apply follows_bind, follows_bind, follows_get. cbn [fst snd] in *.
  destruct (dealt && negb (lg_Halted (lw_Self w))) eqn:Eg; [| by apply follows_ret, follows_ret].
  apply andb_prop in Eg as [-> Hr%negb_true_iff]. specialize (Hd eq_refl Hr).
  unfold follows at 1. apply wp_bind. eapply wp_mono; [by apply HoldNext_follows |]. cbv beta. intros held w1 (R1 & Hr1 & -> & Hk).
  destruct (lg_HoldsRecord (lw_Self w1)) eqn:Hh1.
  2:{ apply wp_ret. split; [done |]. cbn [fst snd]. apply follows_ret. intros Hdr. eapply took_ran; [by apply Ht | exact R1]. }
  apply wp_bind. eapply wp_mono; [by apply Deal_follows |]. cbv beta. intros freed w2 [R2 ->].
  apply wp_ret. split; [by eapply ran_trans |]. cbn [fst snd]. apply (IH _ w0); cbn [fst snd].
  - eapply ran_trans; [exact R0 | by eapply ran_trans].
  - intros Hh Hr2. split; [done | by apply negb_true_iff in Hh].
  - intros _. eapply ran_took; [exact R0 |]. eapply took_ran; [by apply Hk | exact R2].
Qed.
Lemma Drain_follows rounds w : running w -> follows (SolidSyslog_DrainBufferIntoStore rounds) (drained_told w) w.
Proof using.
  intros Hr. unfold SolidSyslog_DrainBufferIntoStore, follows.
  assert (H0 : wp SolidSyslog_ApplyPolicyToHeldRecordIfBufferFull (fun _ w' => ran w w') w) by
    (eapply wp_mono; [by apply ApplyPolicy_follows | by intros ? ? []]).
  apply wp_bind. eapply wp_mono; [exact H0 |]. cbv beta. intros _ w1 R1. apply wp_bind, wp_get_self, wp_bind.
  apply (wp_mono _ (fun dealt w' => ran w w' /\ (dealt = true -> lg_HoldsRecord (lw_Self w') = false))).
  { destruct (lg_Halted (lw_Self w1)) eqn:E1; [by apply wp_ret |].
    eapply wp_mono; [by apply Deal_follows |]. cbv beta. intros freed w2 [R2 ->]. split; [by eapply ran_trans | by intros ?%negb_true_iff]. }
  intros dealt w2 [R2 H2]. apply wp_bind, wp_get_self, wp_bind.
  apply (wp_mono _ (fun dealt w' => ran w w' /\ (dealt = true -> lg_HoldsRecord (lw_Self w') = false))).
  { destruct (dealt && negb (lg_Halted (lw_Self w2))) eqn:E2; [| by apply wp_ret].
    apply andb_prop in E2 as [-> E2%negb_true_iff]. eapply wp_mono; [apply ReportPending_follows; by split; [| apply H2] |].
    cbv beta. intros freed w3 [R3 ->]. split; [by eapply ran_trans | by intros ?%negb_true_iff]. }
  intros dealt3 w3 [R3 H3]. apply wp_bind. eapply wp_mono; [apply (loop_follows rounds (false, dealt3) w w3 R3) |].
  - cbn [snd]. intros Hd Hr3. split; [done | by apply H3].
  - done.
  - cbv beta. intros st w4 [R4 H4]. apply wp_ret. split; [by eapply ran_trans | done].
Qed.

(** Sending a stored record: the slot is only lent to it.  It is blocked by a refused
    send or by records the store has but does not give. *)
Definition last_told w (P : lg_event -> Prop) : Prop := exists tr e, lw_Trace w = tr ++ [e] /\ P e.
Definition blocking (e : lg_event) : Prop := e = UnsentAsked true \/ exists r, e = Sent r false.
Lemma HasUnsent_follows w :
  follows Store_HasUnsent (fun b w' => lw_Self w' = lw_Self w /\ last_told w' (eq (UnsentAsked b))) w.
Proof using.
  unfold follows, Store_HasUnsent. apply wp_call. intros a e. split; [eapply ran_one; [done |]; constructor |].
  split; [done |]. by eexists _, _.
Qed.
Lemma SendOne_follows w : running w ->
  follows SolidSyslog_SendOneFromStore (fun blocked w' => blocked = true -> last_told w' blocking) w.
Proof using.
  unfold running. intros Hr. unfold SolidSyslog_SendOneFromStore, SolidSyslog_TakeNextFromStore.
  destruct (lg_HoldsRecord (lw_Self w)) eqn:Hh.
  { apply follows_bind, follows_bind, follows_get. rewrite Hh. apply follows_ret.
    eapply follows_mono; [apply HasUnsent_follows |]. cbv beta. intros b w1 [_ (tr & e & Et & <-)] ->.
    exists tr, (UnsentAsked true). split; [done | by left]. }
  assert (Es : slot_of (lw_Self w) = (false, Free)) by (by apply free_slot).
  unfold follows, Store_ReadNextUnsent, Sender_Send, Store_MarkSent, Store_HasUnsent, take_read. lg_steps. rewrite Hh. lg_steps.
  destruct a as [[read data] n]. lg_steps.
  assert (Er : forall s d len, s = (lw_Self w) <| lg_Record := d |> <| lg_RecordLength := len |> -> slot_of s = (false, Free)).
  { intros s d len ->. rewrite <- Es. unfold slot_of. cbn. by rewrite Hh. }
  destruct read; lg_steps; [destruct a; lg_steps | ]; (split;
    [eexists _, _; cbn [lw_Self lw_Trace]; (split; [by rewrite <- ?app_assoc |]); cbn [app]; rewrite Es, (Er _ data n eq_refl); slot_run |]);
    intros Hb; try discriminate Hb; eexists _, _; (split; [reflexivity |]); [by right; eexists | left; by rewrite Hb].
Qed.

Lemma Resume_follows w : follows SolidSyslog_ResumeIfPolicyChanged (fun _ _ => True) w.
Proof using.
  unfold follows, SolidSyslog_ResumeIfPolicyChanged. destruct w as [self env tr]. lg_steps.
  destruct (lg_Halted self) eqn:Eh; lg_steps.
  - apply PolicyHalts_spec. intros policy e. lg_steps. split; [| done]. eapply ran_one; [done |]. cbn [lw_Self].
    unfold slot_of at 1. rewrite Eh. change (slot_of (self <| lg_Halted := halts_with policy |>))
      with (halts_with policy, snd (slot_of self)). apply step_resumes.
  - split; [| done]. apply ran_same; [done |]. cbn [lw_Self]. unfold slot_of. rewrite Eh. done.
Qed.

(** What a pass ends with: its status goes with what it left and what it was last told. *)
Definition report_waits w : bool :=
  SolidSyslog_HasRecordSlot (lw_Self w) && negb (lg_ReportTurnedDown (lw_Self w)) && SolidSyslogPendingEvents_AnyPending (tap_Slots (lw_Env w)).
Definition status_tells w (status : SolidSyslogServiceStatus) w' : Prop :=
  match status with
  | SOLIDSYSLOG_SERVICE_HALTED => lg_Halted (lw_Self w') = true
  | SOLIDSYSLOG_SERVICE_BLOCKED => running w' /\ (lg_HoldsRecord (lw_Self w') = true \/ last_told w' blocking)
  | SOLIDSYSLOG_SERVICE_READY => free w' /\ (took_record w w' \/ last_told w' (eq (UnsentAsked true)) \/ report_waits w' = true)
  | SOLIDSYSLOG_SERVICE_IDLE => free w' /\ last_told w' (eq (UnsentAsked false)) /\ report_waits w' = false
  end.
Lemma Process_follows rounds w : running w -> follows (SolidSyslog_ProcessMessages rounds) (status_tells w) w.
Proof using.
  intros Hr. unfold SolidSyslog_ProcessMessages, follows. apply wp_bind, wp_set.
  set (w0 := mkLgWorld _ _ _). assert (R0 : ran w w0) by (by apply ran_same).
  apply wp_bind. eapply wp_mono; [by apply Drain_follows |]. cbv beta. intros drained w1 [R1 H1].
  apply wp_bind, wp_get_self, wp_bind.
  apply (wp_mono _ (fun blocked w' => ran w w' /\ drained_told w drained w' /\ (blocked = true -> last_told w' blocking))).
  { assert (R2 : ran w w1) by (exact (ran_trans _ _ _ R0 R1)). assert (H2 : drained_told w drained w1) by (intros Hd; eapply ran_took; [exact R0 | by apply H1]).
    destruct (lg_Halted (lw_Self w1)) eqn:E1; [by apply wp_ret |].
    eapply wp_mono; [by apply SendOne_follows |]. cbv beta. intros blocked w2 [R3 H3]. split; [by eapply ran_trans |].
    split; [| done]. intros Hd. eapply took_ran; [by apply H2 | exact R3]. }
  intros blocked w2 (R2 & H2 & H3). apply wp_bind, wp_get.
  destruct (lg_Halted (lw_Self w2)) eqn:E2; [by apply wp_ret |].
  unfold SolidSyslog_IsBlocked. destruct (lg_HoldsRecord (lw_Self w2)) eqn:E3; cbn [orb]; [apply wp_ret; split; [done |]; by split; [| left] |].
  destruct drained; cbn [negb].
  { rewrite andb_false_r. apply wp_ret. split; [done |]. split; [done |]. left. by apply H2. }
  destruct blocked; cbn [andb]; [apply wp_ret; split; [done |]; split; [done |]; right; by apply H3 |].
  apply wp_bind. eapply wp_mono; [apply HasUnsent_follows |]. cbv beta. intros unsent w3 [R3 [E4 H4]].
  assert (R4 : ran w w3) by (by eapply ran_trans).
  assert (Hf : free w3) by (by split; rewrite E4). destruct unsent; [apply wp_ret; split; [done |]; split; [done |]; right; by left |].
  unfold SolidSyslog_IsReportWaiting. apply wp_bind, wp_bind, wp_get, wp_bind. unfold lg_env. apply wp_zoom, wp_get, wp_ret.
  assert (Hw : forall e, ran w (w3 <| lw_Env := e |>) /\ free (w3 <| lw_Env := e |>) /\ last_told (w3 <| lw_Env := e |>) (eq (UnsentAsked false))).
  { intros e0. split; [| done]. eapply ran_trans; [exact R4 | by apply ran_same]. }
  destruct (Hw (lw_Env w3)) as (R5 & Hf5 & Ht5). match goal with |- context [if ?b then _ else _] => destruct b eqn:Eb end.
  - apply wp_ret. split; [done |]. split; [done |]. by right; right.
  - apply wp_ret. split; [done |]. split; [done |]. by split.
Qed.
Lemma Service_follows rounds handle w :
  follows (SolidSyslog_Service rounds handle) (fun status w' => handle = true -> status_tells w status w') w.
Proof using.
  unfold SolidSyslog_Service. destruct handle.
  - unfold follows. apply wp_bind. eapply wp_mono; [apply Resume_follows |]. cbv beta. intros _ w1 [R1 _].
    apply wp_bind, wp_get_self. unfold SolidSyslog_IsServiceEnabled. destruct (lg_Halted (lw_Self w1)) eqn:E1; cbn [negb].
    + by apply wp_ret.
    + eapply wp_mono; [by apply Process_follows |]. cbv beta. intros status w2 [R2 H2]. split; [by eapply ran_trans |]. intros _.
      destruct status; try done. destruct H2 as [Hf H2]. split; [done |]. destruct H2 as [H2 | H2]; [left; by eapply ran_took | by right].
  - apply follows_bind. unfold follows at 1. apply Report_ran. intros w1 R1 _. split; [done |]. by apply follows_ret.
Qed.

(** * Properties *)

(** C4. A pass keeps to its slot.  Whatever the buffer, the store, the sender, the
    policy and the integrator's code answer, and however long the pass is followed,
    what it does to them is a run of the protocol [slot_step] from what its slot held
    to what it holds: nothing is taken from the buffer or the store while a record
    waits in the slot; the waiting record goes to the store first, and to the sender
    only when the store never had it, or did not keep a report; it is dropped only
    when the buffer filled behind it and the policy answers Oldest; a stored record
    is marked only after the sender took it; and once halted the logger sends, takes
    and stores nothing until the policy answers otherwise. *)
Theorem Service_keeps_protocol (rounds : nat) (handle : bool) w :
  let '(_, w') := SolidSyslog_Service rounds handle w in
  exists es os, lw_Trace w' = lw_Trace w ++ es /\ slot_steps (slot_of (lw_Self w)) es os (slot_of (lw_Self w')).
Proof using.
  pose proof (Service_follows rounds handle w) as H1. unfold follows, wp in H1.
  destruct (SolidSyslog_Service rounds handle w) as [status w']. apply H1.
Qed.

(** Passes one after another, each followed for its rounds, while other tasks change
    what is around the logger before each. *)
Fixpoint passes (ps : list (nat * (E -> E))) w : @lg_world E :=
  match ps with
  | [] => w
  | (rounds, elsewhere) :: ps => passes ps (snd (SolidSyslog_Service rounds true (w <| lw_Env := elsewhere (lw_Env w) |>)))
  end.
Lemma passes_ran ps : forall w, ran w (passes ps w).
Proof using.
  induction ps as [| [rounds elsewhere] ps IH]; intros w; cbn [passes]; [apply ran_refl |].
  eapply ran_trans; [| apply IH]. set (w0 := w <| lw_Env := elsewhere (lw_Env w) |>).
  pose proof (Service_follows rounds true w0) as H1. unfold follows, wp in H1.
  eapply ran_trans; [by apply (ran_same w w0) | apply H1].
Qed.

(** C5. Every record has one fate, and in its turn.  Over any passes from a free slot,
    with anything happening around the logger between them, the records taken from
    the buffer and the reports made of the library's own events come to their
    outcomes in the order they were taken, each to exactly one: kept, lost or refused
    by the store, taken by the sender, or dropped under the policy; all but the one
    still in the slot.  A report is only ever kept by the store or taken by the
    sender. *)
Theorem records_are_accounted_for (ps : list (nat * (E -> E))) w : free w ->
  let w' := passes ps w in
  exists es os, lw_Trace w' = lw_Trace w ++ es /\
    taken_in es = map fst os ++ (if lg_HoldsRecord (lw_Self w') then [(record_of (lw_Self w'), lg_HeldRecordIsReport (lw_Self w'))] else []) /\
    Forall report_safe os.
Proof using.
  intros Hf w'. destruct (passes_ran ps w) as (es & os & Et & Hs). exists es, os. split; [exact Et |].
  pose proof (slot_steps_account _ _ _ _ Hs) as Ha. destruct (slot_steps_reports_safe _ _ _ _ Hs) as [_ Hr].
  { by rewrite (free_slot w Hf). }
  rewrite (free_slot w Hf) in Ha. cbn [in_slot snd app] in Ha. split; [| done]. rewrite Ha. f_equal.
  unfold slot_of. fold w'. cbn [snd]. by destruct (lg_HoldsRecord (lw_Self w')).
Qed.

(** The answer of a pass is what it left.  Halted: the logger has halted.  Blocked:
    a record waits in the slot, or the last thing the pass heard was a refused send
    or a store with records it does not give.  Ready: the slot is free, and a record
    was taken from the buffer, or the store said it has more, or an event waits to be
    reported.  Idle: the slot is free, the store was asked last and has nothing, and
    no event waits unless the switch turned one down. *)
Theorem Service_status_tells (rounds : nat) w :
  let '(status, w') := SolidSyslog_Service rounds true w in status_tells w status w'.
Proof using.
  pose proof (Service_follows rounds true w) as H1. unfold follows, wp in H1.
  destruct (SolidSyslog_Service rounds true w) as [status w']. by apply H1.
Qed.

(** ** Passes end *)

(** Nothing a pass reaches makes the buffer's backlog grow, and each record it takes
    brings it down. *)
Section ending.
Variable backlog : E -> nat.
Definition calm {A} (m : ST E A) : Prop := forall e, (backlog (snd (m e)) <= backlog e)%nat.
Record calm_around self : Prop := {
  ca_read : forall data n e, let '((read, _, _), e') := SolidSyslogBuffer_Read (SolidSyslogBuffer := lg_Buffer self) data n e in
    (backlog e' <= backlog e)%nat /\ (read = true -> (backlog e' < backlog e)%nat);
  ca_full : calm (SolidSyslogBuffer_IsFull (SolidSyslogBuffer := lg_Buffer self));
  ca_write : forall data n, calm (SolidSyslogStore_Write (SolidSyslogStore := lg_Store self) data n);
  ca_transient : calm (SolidSyslogStore_IsTransient (SolidSyslogStore := lg_Store self));
  ca_send : forall data n, calm (SolidSyslogSender_Send (SolidSyslogSender := lg_Sender self) data n);
  ca_policy : calm (lg_GetDiscardPolicy self (lg_DiscardPolicyContext self));
  ca_halt : calm (lg_OnHalt self (lg_HaltContext self));
  ca_switch : calm (lg_IsEventReportingOn self (lg_EventReportingContext self));
  ca_format : forall f event, calm (SolidSyslogMessageFormatter_Format f (report_message event) (lg_Format self) [Some (EventSd event)]);
  ca_tap : forall severity source category detail, calm (st_mod (tap_error severity source category detail));
  ca_slots : forall slots e, (backlog (tap_SetSlots slots e) <= backlog e)%nat
}.
(** What a pass never changes of the logger. *)
Definition same_wiring self self' : Prop :=
  lg_Buffer self' = lg_Buffer self /\ lg_Store self' = lg_Store self /\ lg_Sender self' = lg_Sender self /\
  lg_GetDiscardPolicy self' = lg_GetDiscardPolicy self /\ lg_DiscardPolicyContext self' = lg_DiscardPolicyContext self /\
  lg_OnHalt self' = lg_OnHalt self /\ lg_HaltContext self' = lg_HaltContext self /\
  lg_IsEventReportingOn self' = lg_IsEventReportingOn self /\ lg_EventReportingContext self' = lg_EventReportingContext self /\
  lg_Format self' = lg_Format self.
Definition steady w0 (w : @lg_world E) : Prop := same_wiring (lw_Self w0) (lw_Self w) /\ (backlog (lw_Env w) <= backlog (lw_Env w0))%nat.
Lemma steady_refl w : steady w w.
Proof using. by split. Qed.
Lemma calm_wiring self self' : same_wiring self self' -> calm_around self -> calm_around self'.
Proof using.
  intros (E1 & E2 & E3 & E4 & E5 & E6 & E7 & E8 & E9 & E10) []. split; rewrite ?E1, ?E2, ?E3, ?E4, ?E5, ?E6, ?E7, ?E8, ?E9, ?E10; assumption.
Qed.

Section steps.
Variable w0 : @lg_world E.
Hypothesis Hcalm : calm_around (lw_Self w0).
Local Abbreviation keeps := (preserves (steady w0)).

Lemma keeps_call {A} (m : SolidSyslog -> ST E A) said : (forall self, calm_around self -> calm (m self)) -> keeps (lg_call m said).
Proof using Hcalm.
  intros H1 w [Hw Hb]. unfold lg_call, st_bind, lg_env, zoom, st_get.
  pose proof (H1 _ (calm_wiring _ _ Hw Hcalm) (lw_Env w)) as H2. destruct (m (lw_Self w) (lw_Env w)) as [a e].
  split; [exact Hw |]. cbn in *. lia.
Qed.
Lemma keeps_env {A} (m : ST E A) : calm m -> keeps (lg_env m).
Proof using.
  intros H1 w [Hw Hb]. unfold lg_env, zoom. pose proof (H1 (lw_Env w)) as H2. destruct (m (lw_Env w)) as [a e].
  split; [exact Hw |]. cbn in *. lia.
Qed.
Lemma keeps_set f : (forall s, same_wiring s (f s)) -> keeps (lg_set f).
Proof using.
  intros H1 w [Hw Hb]. split; [| exact Hb]. cbn. unfold same_wiring in *. specialize (H1 (lw_Self w)).
  repeat match goal with H : _ /\ _ |- _ => destruct H as [? ?] end. repeat split; congruence.
Qed.
Lemma keeps_happens e : keeps (lg_happens e).
Proof using. by intros w. Qed.
Lemma keeps_get {A} (f : SolidSyslog -> A) : keeps (lg_get f).
Proof using. by intros w. Qed.
Lemma keeps_with_self {A} (k : SolidSyslog -> @lg_op E A) : (forall self, calm_around self -> keeps (k self)) -> keeps (let! self := st_get lw_Self in k self).
Proof using Hcalm. intros H1 w Hw. unfold st_bind, st_get. apply H1; [by eapply calm_wiring; [apply Hw |] | done]. Qed.
Lemma keeps_read (m : SolidSyslog -> ST E (bool * bytes * Z)) said : (forall self, calm_around self -> calm (m self)) ->
  keeps (let! r := lg_call m said in take_read r).
Proof using Hcalm.
  intros H1. apply preserves_bind; [by apply keeps_call |]. intros [[read data] n].
  apply preserves_bind; [by apply keeps_set | intros; apply preserves_ret].
Qed.
End steps.

Section pass.
Variable w0 : @lg_world E.
Hypothesis Hcalm : calm_around (lw_Self w0).
Local Abbreviation keeps := (preserves (steady w0)).
Create HintDb calm.
#[local] Hint Resolve ca_full ca_write ca_transient ca_send ca_policy ca_halt ca_switch : calm.
Local Ltac keeps_step :=
  lazymatch goal with
  | |- preserves _ (st_bind _ _) => apply preserves_bind; [| intros ?]
  | |- preserves _ (st_ret _) => apply preserves_ret
  | |- preserves _ (lg_get _) => apply keeps_get
  | |- preserves _ (lg_happens _) => apply keeps_happens
  | |- preserves _ (lg_set _) => by apply keeps_set
  | |- preserves _ (lg_call _ _) => apply (keeps_call w0 Hcalm); intros ? ?; auto with calm
  | |- preserves _ (if ?b then _ else _) => destruct b
  | |- preserves _ (match ?r with _ => _ end) => destruct r
  end.
Local Ltac keeps_steps := repeat keeps_step; auto with st.

Lemma Report_keeps severity category code : keeps (SolidSyslog_Report severity category code).
Proof using Hcalm.
  apply keeps_call; [done |]. intros self Hc e. apply (ca_tap _ Hc severity (Some SolidSyslogLoggerErrorSource) category code e).
Qed.
Lemma Halt_keeps code : keeps (SolidSyslog_Halt code).
Proof using Hcalm. unfold SolidSyslog_Halt. keeps_steps; apply Report_keeps. Qed.
Lemma Deal_keeps : keeps SolidSyslog_DealWithHeldRecord.
Proof using Hcalm.
  unfold SolidSyslog_DealWithHeldRecord, SolidSyslog_StoreOrSenderTakesHeldRecord, SolidSyslog_StoreDealsWithHeldRecord,
    SolidSyslog_HaltIfPolicyHalts, SolidSyslog_PolicyHalts, ask_discard_policy, Store_Write, Store_IsTransient, Sender_Send. keeps_steps; apply Halt_keeps.
Qed.
Lemma ApplyPolicy_keeps : keeps SolidSyslog_ApplyPolicyToHeldRecordIfBufferFull.
Proof using Hcalm.
  unfold SolidSyslog_ApplyPolicyToHeldRecordIfBufferFull, SolidSyslog_DropHeldRecord, Buffer_IsFull, ask_discard_policy.
  keeps_steps; first [apply Report_keeps | apply Halt_keeps].
Qed.
Lemma calm_format self event : calm_around self -> calm (format_report self event).
Proof using.
  intros Hc e. unfold format_report, st_bind.
  pose proof (ca_format _ Hc (SolidSyslogFormatter_Create (lg_Record self) (lg_RecordCapacity self)) event e) as H1.
  by destruct (SolidSyslogMessageFormatter_Format _ _ _ _ e) as [f e1].
Qed.
Lemma FormatReport_keeps event : keeps (SolidSyslog_FormatReport event).
Proof using Hcalm.
  apply (keeps_with_self w0 Hcalm). intros self Hc. apply preserves_bind; [| intros; by apply keeps_set].
  apply keeps_env. by apply calm_format.
Qed.
Lemma HoldPending_keeps index : keeps (SolidSyslog_HoldPendingReport index).
Proof using Hcalm.
  unfold SolidSyslog_HoldPendingReport, PendingEvents_Take. keeps_steps; [| apply FormatReport_keeps].
  apply keeps_env. intros e. destruct (SolidSyslogPendingEvents_Take _ _ _) as [r slots]. apply (ca_slots _ Hcalm).
Qed.
Lemma ReportPending_keeps : keeps SolidSyslog_ReportPendingEvents.
Proof using Hcalm.
  assert (H1 : forall n from walking, keeps (forM n from report_step walking)).
  { induction n as [| n IH]; intros from walking; cbn [forM]; [apply preserves_ret |]. apply preserves_bind; [| intros; apply IH].
    unfold report_step, SolidSyslog_ReportIfPending. keeps_steps.
    - apply keeps_env. intros e. apply le_n.
    - apply HoldPending_keeps.
    - apply Deal_keeps. }
  unfold SolidSyslog_ReportPendingEvents. keeps_steps.
Qed.
End pass.

(** A round of the drain that goes on has taken a record. *)
Lemma HoldNext_takes w : calm_around (lw_Self w) ->
  wp SolidSyslog_HoldNextRecord (fun held w' => steady w w' /\ (held = true -> (backlog (lw_Env w') < backlog (lw_Env w))%nat)) w.
Proof using.
  intros Hc. unfold SolidSyslog_HoldNextRecord, Buffer_Read, wp, lg_call, lg_env, zoom, st_bind, st_get.
  pose proof (ca_read _ Hc (lg_Record (lw_Self w)) (lg_RecordCapacity (lw_Self w)) (lw_Env w)) as H1.
  destruct (SolidSyslogBuffer_Read _ _ _) as [[[read data] n] e]. destruct H1 as [H1 H2]. by split.
Qed.
Lemma steady_trans w w1 w2 : steady w w1 -> steady w1 w2 -> steady w w2.
Proof using.
  intros [H1 H2] [H3 H4]. split; [| lia]. unfold same_wiring in *.
  repeat match goal with H : _ /\ _ |- _ => destruct H as [? ?] end. repeat split; congruence.
Qed.
Lemma drain_step_takes w0 (Hcalm : calm_around (lw_Self w0)) st w : steady w0 w ->
  wp (drain_step st) (fun r w' => fst r = true -> steady w0 w' /\ (backlog (lw_Env w') < backlog (lw_Env w))%nat) w.
Proof using.
  intros Hw. destruct st as [drained dealt]. unfold drain_step. apply wp_bind, wp_get_self.
  destruct (_ && _); [| by apply wp_ret]. assert (Hc : calm_around (lw_Self w)) by (by eapply calm_wiring; [apply Hw |]).
  apply wp_bind. eapply wp_mono; [by apply HoldNext_takes |]. cbv beta. intros held w1 [H1 H2].
  destruct held; [| by apply wp_ret]. assert (Hc1 : calm_around (lw_Self w1)) by (by eapply calm_wiring; [apply H1 |]).
  apply wp_bind. unfold wp at 1. pose proof (Deal_keeps w1 Hc1 w1 (steady_refl w1)) as H3. apply wp_ret. intros _.
  split; [eapply steady_trans; [exact Hw |]; by eapply steady_trans |]. destruct H3 as [_ H3]. specialize (H2 eq_refl). lia.
Qed.

Lemma keeps_wp {A} (m : @lg_op E A) w0 w : preserves (steady w0) m -> steady w0 w -> wp m (fun _ w' => steady w0 w') w.
Proof using. intros H1 H2. by apply H1. Qed.
Lemma Drain_stable w : calm_around (lw_Self w) -> forall rounds extra, (backlog (lw_Env w) < rounds)%nat ->
  SolidSyslog_DrainBufferIntoStore (rounds + extra) w = SolidSyslog_DrainBufferIntoStore rounds w.
Proof using.
  intros Hc rounds extra Hr. unfold SolidSyslog_DrainBufferIntoStore.
  apply st_bind_ext. eapply wp_mono; [apply (keeps_wp _ w); [by apply ApplyPolicy_keeps | apply steady_refl] |]. cbv beta. intros _ w1 H1.
  apply st_bind_ext, wp_get_self, st_bind_ext. apply (wp_mono _ (fun _ w' => steady w w')).
  { destruct (lg_Halted (lw_Self w1)); [by apply wp_ret | apply (keeps_wp _ w); [by apply Deal_keeps | done]]. }
  intros dealt w2 H2. apply st_bind_ext, wp_get_self, st_bind_ext. apply (wp_mono _ (fun _ w' => steady w w')).
  { destruct (_ && _); [apply (keeps_wp _ w); [by apply ReportPending_keeps | done] | by apply wp_ret]. }
  intros dealt' w3 H3. unfold st_bind.
  rewrite (loopM_stable (fun _ w' => steady w w') (fun _ w' => backlog (lw_Env w')) drain_step); [done | | done | destruct H3; lia].
  intros st w4 H4. eapply wp_mono; [by apply (drain_step_takes w Hc) |]. done.
Qed.

(** C36. A pass ends.  When the buffer's backlog is finite and only its reads change it
    (other tasks apart, nothing the pass calls adds to it), a pass followed for one
    round more than the backlog is the whole pass: followed for any number of rounds
    more it does the same and answers the same. *)
Theorem Service_ends w : calm_around (lw_Self w) -> forall rounds extra, (backlog (lw_Env w) < rounds)%nat ->
  SolidSyslog_Service (rounds + extra) true w = SolidSyslog_Service rounds true w.
Proof using.
  intros Hc rounds extra Hr. unfold SolidSyslog_Service. apply st_bind_ext.
  eapply wp_mono; [apply (keeps_wp _ w); [| apply steady_refl] |].
  { unfold SolidSyslog_ResumeIfPolicyChanged, SolidSyslog_PolicyHalts, ask_discard_policy.
    apply preserves_bind; [apply keeps_get |]. intros halted. apply preserves_bind; [| intros; by apply keeps_set].
    destruct halted; [| apply preserves_ret]. apply preserves_bind; [| intros; apply preserves_ret].
    apply (keeps_call w Hc). intros self Hs. apply (ca_policy _ Hs). }
  cbv beta. intros _ w1 [H1 Hb1]. apply st_bind_ext, wp_get_self. destruct (SolidSyslog_IsServiceEnabled _); [| done].
  unfold SolidSyslog_ProcessMessages. apply st_bind_ext, wp_set. set (w2 := mkLgWorld _ _ _).
  assert (H2 : same_wiring (lw_Self w1) (lw_Self w2)) by done.
  unfold st_bind. rewrite Drain_stable; [done | | cbn; lia].
  apply (calm_wiring _ _ H2), (calm_wiring _ _ H1), Hc.
Qed.
End ending.

(** ** What goes in *)

(** [len] bytes of [s] were handed over for [message]: a clean text, cut characters
    become zeros up to the length, and, when the [size] bytes did not cut it, a whole
    RFC 5424 message with the parts the callbacks said and the caller gave. *)
Definition handed_over (strict : bool) (message : SolidSyslogMessage) (sp : spoken) (size : Z) (s : bytes) (len : Z) : Prop :=
  0 <= len < size /\ clean (cstr s) /\ strlen s <= len <= strlen s + 3 /\ (forall i, strlen s <= i < len -> s.[i] = 0) /\
  (len < size - 1 -> exists p, takeZ len s = message_text p /\ parts_of strict message sp p /\
     read_header (takeZ len s) = Some (MessageFormatter_MakePrival message,
       [mp_timestamp p; mp_hostname p; mp_appname p; mp_procid p; mp_msgid p], sd_text (mp_sd p) ++ msg_text (mp_msg p))).
Lemma formatted_record strict storage size message (context : @SolidSyslogMessageFormatterContext E) sd e :
  0 < size <= lenZ storage -> size <= SIZE_MAX -> opt_all all_bytes (msg_Msg message) ->
  context_ok strict context -> Forall (opt_all sd_ok) sd ->
  let '(f, _) := SolidSyslogMessageFormatter_Format (SolidSyslogFormatter_Create storage size) message context sd e in
  let '(s, f') := SolidSyslogFormatter_AsFormattedBuffer f in
  handed_over strict message (fst (spoken_by context sd e)) size s (SolidSyslogFormatter_Length f').
Proof using.
  intros Hs Hmax Hmsg Hctx Hsd. destruct (Create_wf storage size) as [Hc Hct]; [lia |].
  assert (Hsz : fm_Size (SolidSyslogFormatter_Create storage size) = size) by apply (app_size _ _ _ Hc).
  assert (Hu : usable (SolidSyslogFormatter_Create storage size)) by (split; [apply (app_wf _ _ _ Hc) | lia]).
  destruct (Format_writes strict _ message context sd e Hu Hmsg Hctx Hsd) as (out & [Happ Hterm] & Hclean & HP).
  destruct (SolidSyslogMessageFormatter_Format _ _ _ _ _) as [f e1]. cbn [fst] in *.
  pose proof (app_size _ _ _ Happ) as Esz. rewrite Hsz in Esz.
  assert (Hwf : fmt_wf f) by apply (app_wf _ _ _ Happ).
  assert (Hutf : utf8_text f) by (eapply appends_utf8; [exact Hclean | apply Create_utf8 | exact Happ]).
  pose proof (AsFormattedBuffer_spec f Hwf ltac:(lia) Hterm Hutf) as Hspec.
  destruct (SolidSyslogFormatter_AsFormattedBuffer f) as [s f'] eqn:Ea. destruct Hspec as (Hcs & (tail & Et & Htl & Hv) & Hz & El & Hwf' & _ & Es').
  unfold SolidSyslogFormatter_Length in *. rewrite El in Hz |- *. pose proof (fmt_text_len f Hwf) as Hlen. rewrite Et, lenZ_app in Hlen. pose proof (lenZ_nonneg tail).
  pose proof Hwf as [[? ?] [? ?]]. unfold handed_over; unfold strlen, fmt_capacity in *.
  split; [lia |]. split; [done |]. split; [lia |]. split; [done |]. intros Hun.
  assert (Huncut : uncut f) by (unfold uncut, fmt_capacity; lia).
  destruct (HP Huncut) as (p & -> & Hp). exists p.
  assert (Etext : fmt_text f = message_text p).
  { destruct (appends_uncut _ _ _ (proj1 Hu) Happ Huncut) as (_ & _ & ->).
    rewrite (app_text _ _ _ Hc). unfold takeZ. simpl. by rewrite take_nil. }
  assert (Htail : tail = []) by (apply Hv; rewrite Etext; apply Hclean). subst tail. rewrite app_nil_r in Et.
  assert (Etk : takeZ (fm_Position f) s = message_text p).
  { destruct (cstr_prefix s) as [rest Es]. change (lenZ (@nil Z)) with 0 in Hlen.
    rewrite Es, takeZ_app_le, takeZ_ge by lia. congruence. }
  rewrite Etk. split; [done |]. split; [done |]. rewrite (read_message_text strict message _ p Hp). by rewrite (proj1 Hp).
Qed.

(** What a slot of the tap holds is of the types the recording calls have. *)
Record slot_typed (s : PendingEventSlot) : Prop := {
  slt_severity : 0 <= pe_SeverityCode s <= 8;
  slt_detail : is_i32 (pe_Detail s);
  slt_native : is_i32 (pe_NativeCode s);
  slt_source : forall source name, pe_Source s = Some source -> es_Name source = Some name -> all_bytes name;
  slt_names : forall source names name, pe_Source s = Some source -> es_DetailName source = Some names ->
    names (pe_Detail s) = Some name -> all_bytes name
}.
(** The sixteen kinds have categories with names. *)
Lemma kind_named index : 0 <= index < SOLIDSYSLOG_PENDING_EVENT_KIND_COUNT ->
  exists name, SolidSyslogErrorCategory_Name (pk_Category (kind_at index)) = Some name /\ all_bytes name.
Proof using.
  intros Hi. assert (H1 : forallb (fun i => match SolidSyslogErrorCategory_Name (pk_Category (kind_at i)) with
    | Some name => forallb (fun b => (0 <=? b) && (b <? 256)) name | None => false end) (codes_below 16) = true) by (by vm_compute).
  rewrite forallb_forall in H1. specialize (H1 index (proj2 (codes_below_spec 16 index) Hi)).
  destruct (SolidSyslogErrorCategory_Name _) as [name |]; [| done]. exists name. split; [done |].
  rewrite forallb_forall in H1. apply List.Forall_forall. intros b Hb. specialize (H1 b Hb). unfold is_byte. lia.
Qed.
Definition slot_event (index : Z) (s : PendingEventSlot) : SolidSyslogErrorEvent :=
  mkErrorEvent (PendingEvents_SeverityOf (kind_at index) (pe_SeverityCode s)) (pk_Category (kind_at index)) (pe_HasNativeCode s)
    (pe_Source s) (pe_Detail s) (pe_NativeCode s).
Lemma slot_event_ok index s : 0 <= index < SOLIDSYSLOG_PENDING_EVENT_KIND_COUNT -> slot_typed s -> event_ok (slot_event index s).
Proof using.
  intros Hi [Hsev Hd Hn Hsrc Hnm]. destruct (kind_named index Hi) as (name & En & Hb).
  split; [by exists name |]. split; [| split; [| done]].
  - unfold EventSd_SourceName. cbn [slot_event ev_Source]. destruct (pe_Source s) as [source |] eqn:Es; [| apply Forall_nil_2].
    destruct (es_Name source) as [n |] eqn:Ee; [by apply (Hsrc source n) | apply Forall_nil_2].
  - unfold SolidSyslogErrorEvent_DetailName. cbn [slot_event ev_Source ev_Detail]. destruct (pe_Source s) as [source |] eqn:Es; [| done].
    destruct (es_DetailName source) as [names |] eqn:Ee; [| done]. destruct (names (pe_Detail s)) as [n |] eqn:Ed; [| done].
    by apply (Hnm source names n).
Qed.
Lemma severity_range index code : 0 <= index < SOLIDSYSLOG_PENDING_EVENT_KIND_COUNT -> 0 <= code <= 8 ->
  0 <= PendingEvents_SeverityOf (kind_at index) code < 8.
Proof using.
  intros Hi Hc. assert (H1 : forallb (fun i => forallb (fun c => let s := PendingEvents_SeverityOf (kind_at i) c in (0 <=? s) && (s <? 8))
    (codes_below 9)) (codes_below 16) = true) by (by vm_compute).
  rewrite forallb_forall in H1. specialize (H1 index (proj2 (codes_below_spec 16 index) Hi)).
  rewrite forallb_forall in H1. specialize (H1 code (proj2 (codes_below_spec 9 code) ltac:(lia))). cbv zeta in H1. lia.
Qed.
Lemma report_prival event : 0 <= ev_Severity event < 8 -> MessageFormatter_MakePrival (report_message event) = 40 + ev_Severity event.
Proof using.
  intros Hs. unfold MessageFormatter_MakePrival, report_message, MessageFormatter_PrivalComponentsAreValid, MessageFormatter_FacilityIsValid,
    MessageFormatter_SeverityIsValid, MessageFormatter_CombineFacilityAndSeverity. cbn [msg_Facility msg_Severity].
  change (u8 SOLIDSYSLOG_FACILITY_SYSLOG) with 5. unfold SOLIDSYSLOG_FACILITY_LOCAL7, SOLIDSYSLOG_SEVERITY_DEBUG.
  rewrite (u8_small (ev_Severity event)) by lia. replace (_ && _) with true by (symmetry; apply andb_true_iff; lia).
  rewrite u8_small by lia. lia.
Qed.
Lemma reportMsg_bytes : opt_all all_bytes (Some reportMsg).
Proof using. vm_compute. repeat (apply Forall_cons_2; [split; [discriminate | reflexivity] |]); apply Forall_nil_2. Qed.

End theory.

(** * A small node

    A queue for a buffer, no store, and a sender that takes records while it is up. *)
Record node := mkNode { nd_Queue : list bytes; nd_Up : bool; nd_Wire : list bytes; nd_Slots : pending_slots }.
#[export] Instance settable_node : Settable node := fun n => mkNode (nd_Queue n) (nd_Up n) (nd_Wire n) (nd_Slots n).
#[export] Instance node_tap : ErrorTap node := {
  tap_Handler := fun _ n => n;
  tap_Slots := nd_Slots;
  tap_SetSlots := fun slots n => n <| nd_Slots := slots |>
}.
Definition node_buffer : SolidSyslogBuffer node := {|
  SolidSyslogBuffer_Write := fun data size n => (tt, n <| nd_Queue := nd_Queue n ++ [takeZ size data] |>);
  SolidSyslogBuffer_Read := fun data maxSize n =>
    match nd_Queue n with
    | r :: q => if lenZ r <=? maxSize then ((true, spliceZ data 0 r, lenZ r), n <| nd_Queue := q |>) else ((false, data, 0), n)
    | [] => ((false, data, 0), n)
    end;
  SolidSyslogBuffer_IsFull := st_ret false
|}.
Definition node_sender : SolidSyslogSender node := {|
  SolidSyslogSender_Send := fun buffer size n =>
    (nd_Up n, if nd_Up n then n <| nd_Wire := nd_Wire n ++ [takeZ size buffer] |> else n);
  SolidSyslogSender_Disconnect := st_ret tt
|}.
Definition node_frame : bytes := repeat 7 480.
Definition node_config : @SolidSyslogConfig node :=
  mkConfig (Some node_buffer) (Some node_sender) None (Some (fun _ => st_ret [FPrintUsAscii (str "gate") 10])) None None None None None None None 0
    None None None None None None None.
Definition node_logger (slots : pending_slots) (queue : list bytes) (up : bool) : @lg_world node :=
  snd (SolidSyslog_Initialise node_frame node_config (repeat 9 480) 480
    (mkLgWorld (reset_self node_frame) (mkNode queue up [] slots) [])).
Definition two_records : @lg_world node := node_logger initial_slots [str "one"; str "two"] true.

(** The sender is down for a pass and up for the next; one record is logged between. *)
Lemma records_are_accounted_for_witness :
  let w' := passes [(5%nat, fun n => n <| nd_Up := false |>); (5%nat, fun n => n <| nd_Queue := nd_Queue n ++ [str "three"] |> <| nd_Up := true |>)] two_records in
  nd_Wire (lw_Env w') = [str "one"; str "two"; str "three"] /\
  exists es os, lw_Trace w' = lw_Trace two_records ++ es /\ taken_in es = map fst os ++ [] /\ Forall report_safe os.
Proof.
  assert (Hf : free two_records) by (by vm_compute).
  pose proof (records_are_accounted_for [(5%nat, fun n => n <| nd_Up := false |>); (5%nat, fun n => n <| nd_Queue := nd_Queue n ++ [str "three"] |> <| nd_Up := true |>)]
    two_records Hf) as HB.
  assert (Ew : nd_Wire (lw_Env (passes [(5%nat, fun n => n <| nd_Up := false |>); (5%nat, fun n => n <| nd_Queue := nd_Queue n ++ [str "three"] |> <| nd_Up := true |>)] two_records))
    = [str "one"; str "two"; str "three"]) by (by vm_compute).
  assert (Eh : lg_HoldsRecord (lw_Self (passes [(5%nat, fun n => n <| nd_Up := false |>); (5%nat, fun n => n <| nd_Queue := nd_Queue n ++ [str "three"] |> <| nd_Up := true |>)] two_records))
    = false) by (by vm_compute).
  revert HB Ew Eh. generalize (passes [(5%nat, fun n => n <| nd_Up := false |>); (5%nat, fun n => n <| nd_Queue := nd_Queue n ++ [str "three"] |> <| nd_Up := true |>)] two_records).
  intros w' HB Ew Eh. cbv zeta in HB. rewrite Eh in HB. split; [exact Ew | exact HB].
Defined.

(** The queue is all the backlog. *)
Definition queue_length (n : node) : nat := length (nd_Queue n).
Lemma node_calm : calm_around queue_length (lw_Self two_records).
Proof.
  split; try (intros *; intros e; apply le_n); try (intros e; apply le_n).
  - intros data n e. cbn. unfold queue_length. destruct (nd_Queue e) as [| r q] eqn:Eq; cbn; [rewrite Eq; by split |].
    destruct (lenZ r <=? n); cbn; [lia | rewrite Eq; by split].
  - intros data n e. cbn. by destruct (nd_Up e).
  - intros slots e. apply le_n.
Qed.
Lemma Service_ends_witness :
  (queue_length (lw_Env two_records) < 3)%nat /\
  SolidSyslog_Service (3 + 7) true two_records = SolidSyslog_Service 3 true two_records /\
  nd_Wire (lw_Env (snd (SolidSyslog_Service 3 true two_records))) = [str "one"; str "two"].
Proof.
  assert (Hn : (queue_length (lw_Env two_records) < 3)%nat) by (vm_compute; lia).
  split; [exact Hn |]. split; [exact (Service_ends queue_length two_records node_calm 3 7 Hn) | by vm_compute].
Defined.

(** A frozen store was reported; the node reports it and logs a message. *)
Definition frozen_event : SolidSyslogErrorEvent :=
  mkErrorEvent SOLIDSYSLOG_SEVERITY_ERROR SOLIDSYSLOG_CAT_STORE_FROZEN false (Some SolidSyslogBlockStoreErrorSource) SOLIDSYSLOG_BLOCK_STORE_ERROR_APPEND_FAILED 0.
Definition reported_slots : pending_slots := SolidSyslogPendingEvents_Record frozen_event initial_slots.
Definition reporting : @lg_world node := node_logger reported_slots [] true.
Definition hello : SolidSyslogMessage := mkMessage 1 6 (Some (str "BOOT")) (Some (str "hello")).
Lemma hello_context : context_ok true (lg_Format (lw_Self reporting)).
Proof.
  split; [| | | apply Forall_nil_2]; intros e; (split; [| intros _]).
  - apply Forall_singleton. split; [all_bytes_by_compute | by vm_compute].
  - by apply Forall_singleton.
  - apply Forall_nil_2.
  - apply Forall_nil_2.
  - apply Forall_nil_2.
  - apply Forall_nil_2.
Qed.
Lemma frozen_slot : slot_typed (slot_at reported_slots 11).
Proof.
  change (slot_at reported_slots 11) with (recorded_slot frozen_event). split; [by vm_compute | by vm_compute | by vm_compute | |].
  - intros source name [= <-] [= <-]. all_bytes_by_compute.
  - intros source names name [= <-] [= <-] Hn. vm_compute in Hn. injection Hn as <-. all_bytes_by_compute.
Qed.
Definition frozen_report : bytes :=
  str "<43>1 - gate - - STORE_FROZEN [solidsyslog@67478 source=" ++ [34] ++ str "BlockStore" ++ [34] ++ str " category=" ++ [34]
  ++ str "STORE_FROZEN" ++ [34] ++ str " detail=" ++ [34] ++ str "APPEND_FAILED" ++ [34] ++ str "] " ++ UTF8_BOM ++ reportMsg.
 
