(* ===== verification/Transport.v ===== *)
(** What the senders stand on: how much a datagram may carry and where a record is
    cut to fit ([SolidSyslogUdpPayload.c]), the edge-triggered reports of a sender's
    health and of a stream's failed opens ([SolidSyslogSenderHealth.c],
    [SolidSyslogStreamOpenHealth.c]), the endpoint a sender's
    callback fills in, and the vtables of datagrams, streams and resolvers
    with their null objects. *)
From S2P Require Import Prelude Errors PendingEvents Interfaces Utf8 Formatter SdWriters.

(** * Payload limits ([SolidSyslogUdpPayload.c]) *)

Definition IPV4_HEADER_BYTES : Z := 20.
Definition IPV6_HEADER_BYTES : Z := 40.
Definition UDP_HEADER_BYTES : Z := 8.
Definition IPV4_UNKNOWN_PATH_MESSAGE_BYTES : Z := 480.
Definition IPV6_UNKNOWN_PATH_MESSAGE_BYTES : Z := 1180.
(** The tunable's default. *)
Definition SOLIDSYSLOG_UDP_IPV4_PAYLOAD_LIMIT : Z := 480.

Definition SolidSyslogUdpPayload_FromMtu (mtu : Z) (isIpv6 : bool) : Z :=
  let overhead := size_add (if isIpv6 then IPV6_HEADER_BYTES else IPV4_HEADER_BYTES) UDP_HEADER_BYTES in
  if overhead <? mtu then size_sub mtu overhead else 0.
Definition SolidSyslogUdpPayload_UnknownPath (isIpv6 : bool) : Z :=
  if isIpv6 then IPV6_UNKNOWN_PATH_MESSAGE_BYTES else IPV4_UNKNOWN_PATH_MESSAGE_BYTES.

Definition SolidSyslogUdpPayloadLimitFunction (W : Type) : Type := option Z -> ST W Z.
Definition SolidSyslogUdpPayload_Stated {W} (limit : option (SolidSyslogUdpPayloadLimitFunction W)) (context : option Z) : ST W Z :=
  let! stated := match limit with Some f => f context | None => st_ret 0 end in
  st_ret (if stated =? 0 then SOLIDSYSLOG_UDP_IPV4_PAYLOAD_LIMIT else stated).

(** The loop steps back at most [length] times. *)
Definition UdpPayload_FindLastCodepointStart (buffer : bytes) (length : Z) : Z :=
  while (Z.to_nat length)
    (fun startIndex => (0 <? startIndex) && SolidSyslogUtf8_IsContinuationByte buffer.[startIndex])
    (fun startIndex => startIndex - 1) (size_sub length 1).
Definition UdpPayload_ExpectedSequenceLength (startByte : Z) : Z :=
  if SolidSyslogUtf8_IsAsciiByte startByte then 1
  else if SolidSyslogUtf8_IsTwoByteLead startByte then 2
  else if SolidSyslogUtf8_IsThreeByteLead startByte then 3
  else 4.
Definition UdpPayload_LastCodepointExtendsPastCut (buffer : bytes) (length lastCodepointStart : Z) : bool :=
  length <? size_add lastCodepointStart (UdpPayload_ExpectedSequenceLength buffer.[lastCodepointStart]).
Definition SolidSyslogUdpPayload_TrimToCodepointBoundary (buffer : bytes) (length : Z) : Z :=
  if 0 <? length then
    let lastCodepointStart := UdpPayload_FindLastCodepointStart buffer length in
    if UdpPayload_LastCodepointExtendsPastCut buffer length lastCodepointStart then lastCodepointStart else length
  else length.

(** * Datagrams, streams and resolvers

    An address is the caller's storage, known here by its identity: what a resolver
    writes there is part of the environment. *)

Abbreviation SolidSyslogAddress := Z (only parsing).

Inductive SolidSyslogDatagramSendResult :=
| SOLIDSYSLOG_DATAGRAM_SEND_RESULT_SENT
| SOLIDSYSLOG_DATAGRAM_SEND_RESULT_OVERSIZE
| SOLIDSYSLOG_DATAGRAM_SEND_RESULT_FAILED.
#[export] Instance SendResult_eq_dec : EqDecision SolidSyslogDatagramSendResult.
Proof. solve_decision. Defined.

Class SolidSyslogDatagram (E : Type) := {
  SolidSyslogDatagram_Open : ST E bool;
  SolidSyslogDatagram_SendTo : bytes -> Z -> SolidSyslogAddress -> ST E SolidSyslogDatagramSendResult;
  SolidSyslogDatagram_MaxPayload : ST E Z;
  SolidSyslogDatagram_Close : ST E unit
}.

(** [SolidSyslogStream_Read] gives the count and the caller's memory. *)
Class SolidSyslogStream (E : Type) := {
  SolidSyslogStream_Open : SolidSyslogAddress -> ST E bool;
  SolidSyslogStream_Send : bytes -> Z -> ST E bool;
  SolidSyslogStream_Read : bytes -> Z -> ST E (Z * bytes);
  SolidSyslogStream_Close : ST E unit;
  SolidSyslogStream_Version : ST E Z
}.

Inductive SolidSyslogTransport := SOLIDSYSLOG_TRANSPORT_UDP | SOLIDSYSLOG_TRANSPORT_TCP.
Class SolidSyslogResolver (E : Type) := {
  SolidSyslogResolver_Resolve : SolidSyslogTransport -> bytes -> Z -> SolidSyslogAddress -> ST E bool
}.

(** ** Null objects *)

Section null_objects.
Context {E : Type}.
Definition NullDatagram_Open : ST E bool := st_ret true.
Definition NullDatagram_SendTo (buffer : bytes) (size : Z) (addr : SolidSyslogAddress) : ST E SolidSyslogDatagramSendResult :=
  st_ret SOLIDSYSLOG_DATAGRAM_SEND_RESULT_SENT.
Definition NullDatagram_MaxPayload : ST E Z := st_ret (SolidSyslogUdpPayload_UnknownPath false).
Definition NullDatagram_Close : ST E unit := st_ret tt.
Definition SolidSyslogNullDatagram_Get : SolidSyslogDatagram E := {|
  SolidSyslogDatagram_Open := NullDatagram_Open;
  SolidSyslogDatagram_SendTo := NullDatagram_SendTo;
  SolidSyslogDatagram_MaxPayload := NullDatagram_MaxPayload;
  SolidSyslogDatagram_Close := NullDatagram_Close
|}.

Definition NullStream_Open (addr : SolidSyslogAddress) : ST E bool := st_ret true.
Definition NullStream_Send (buffer : bytes) (size : Z) : ST E bool := st_ret true.
Definition NullStream_Read (buffer : bytes) (size : Z) : ST E (Z * bytes) := st_ret (0, buffer).
Definition NullStream_Close : ST E unit := st_ret tt.
Definition NullStream_Version : ST E Z := st_ret 0.
Definition SolidSyslogNullStream_Get : SolidSyslogStream E := {|
  SolidSyslogStream_Open := NullStream_Open;
  SolidSyslogStream_Send := NullStream_Send;
  SolidSyslogStream_Read := NullStream_Read;
  SolidSyslogStream_Close := NullStream_Close;
  SolidSyslogStream_Version := NullStream_Version
|}.

Definition NullResolver_Resolve (transport : SolidSyslogTransport) (host : bytes) (port : Z) (result : SolidSyslogAddress) : ST E bool :=
  st_ret false.
Definition SolidSyslogNullResolver_Get : SolidSyslogResolver E := {|
  SolidSyslogResolver_Resolve := NullResolver_Resolve
|}.
End null_objects.

(** * Endpoints *)

Definition SOLIDSYSLOG_MAX_HOST_SIZE : Z := 256.
Record SolidSyslogEndpoint := mkEndpoint { ep_Host : SolidSyslogEndpointHost; ep_Port : Z }.
#[export] Instance settable_Endpoint : Settable SolidSyslogEndpoint := fun e => mkEndpoint (ep_Host e) (ep_Port e).
(** The integrator's callbacks.  The endpoint's reaches the sink only through
    [SolidSyslogEndpointHost_String]: it gives the calls it made and the port it left. *)
Definition SolidSyslogEndpointFunction (W : Type) : Type := option Z -> ST W (list (bytes * Z) * Z).
Definition SolidSyslogEndpointVersionFunction (W : Type) : Type := option Z -> ST W Z.
Definition fill_endpoint {W} (f : SolidSyslogEndpointFunction W) (context : option Z) (endpoint : SolidSyslogEndpoint) : ST W SolidSyslogEndpoint :=
  let! said := f context in
  st_ret (endpoint <| ep_Host := fold_left (fun host call => SolidSyslogEndpointHost_String host (fst call) (snd call)) (fst said) (ep_Host endpoint) |>
                   <| ep_Port := u16 (snd said) |>).

(** * Health reports *)

Section health.
Context {E : Type} `{ErrorTap E}.

Record SolidSyslogSenderHealthReporter := mkReporter {
  hr_Source : option SolidSyslogErrorSource;
  hr_FailedDetail : Z;
  hr_RestoredDetail : Z
}.
(** [*healthy] is given and given back. *)
Definition SolidSyslogSenderHealth_Update (healthy delivered : bool) (reporter : SolidSyslogSenderHealthReporter) : ST E bool :=
  let healthChanged := negb (Bool.eqb delivered healthy) in
  if healthChanged then
    (if delivered then
      st_mod (tap_error SOLIDSYSLOG_SEVERITY_NOTICE (hr_Source reporter) SOLIDSYSLOG_CAT_SENDER_DELIVERY_RESTORED (hr_RestoredDetail reporter))
    else
      st_mod (tap_error SOLIDSYSLOG_SEVERITY_WARNING (hr_Source reporter) SOLIDSYSLOG_CAT_SENDER_DELIVERY_FAILED (hr_FailedDetail reporter))) ;;;
    st_ret delivered
  else st_ret healthy.

Record SolidSyslogStreamOpenHealth := mkStreamOpenHealth { oh_Failing : bool; oh_FailedDetail : Z }.
#[export] Instance settable_StreamOpenHealth : Settable SolidSyslogStreamOpenHealth :=
  fun h => mkStreamOpenHealth (oh_Failing h) (oh_FailedDetail h).
Definition StreamOpenHealth_Admit (self : SolidSyslogStreamOpenHealth) (detail : Z) : bool * SolidSyslogStreamOpenHealth :=
  let isNews := negb (oh_Failing self && (oh_FailedDetail self =? detail)) in
  (isNews, if isNews then self <| oh_Failing := true |> <| oh_FailedDetail := detail |> else self).
Definition SolidSyslogStreamOpenHealth_ReportFailure (self : SolidSyslogStreamOpenHealth) (source : option SolidSyslogErrorSource)
    (severity category detail : Z) : ST E SolidSyslogStreamOpenHealth :=
  let '(isNews, self) := StreamOpenHealth_Admit self detail in
  if! isNews then st_mod (tap_error severity source category detail) end! ;;;
  st_ret self.
Definition SolidSyslogStreamOpenHealth_ReportFailureWithNativeCode (self : SolidSyslogStreamOpenHealth) (source : option SolidSyslogErrorSource)
    (severity category detail nativeCode : Z) : ST E SolidSyslogStreamOpenHealth :=
  let '(isNews, self) := StreamOpenHealth_Admit self detail in
  if! isNews then st_mod (tap_emit (mkErrorEvent severity category true source detail nativeCode)) end! ;;;
  st_ret self.
Definition SolidSyslogStreamOpenHealth_Opened (self : SolidSyslogStreamOpenHealth) : SolidSyslogStreamOpenHealth :=
  self <| oh_Failing := false |>.
End health.

(** * The cut *)

(** A position in a valid sequence is in one of its code points. *)
Lemma valid_utf8_at l i : valid_utf8 l -> 0 <= i < lenZ l ->
  exists v c rest, valid_utf8 v /\ is_scalar c /\ l = v ++ utf8_encode c ++ rest /\ lenZ v <= i < lenZ v + lenZ (utf8_encode c).
Proof.
  intros (cs & Hc & ->). revert i. induction Hc as [|c cs Hc Hcs IH]; intros i Hi; [change (0 <= i < 0) in Hi; lia |].
  rewrite utf8_encode_all_cons, lenZ_app in *. destruct (Z.ltb_spec i (lenZ (utf8_encode c))).
  - exists [], c, (utf8_encode_all cs). split; [apply valid_utf8_nil |]. split; [done |]. split; [done |]. len_simpl. lia.
  - destruct (IH (i - lenZ (utf8_encode c))) as (v & c' & rest & Hv & Hc' & E & Hi'); [lia |].
    exists (utf8_encode c ++ v), c', rest. split; [auto with utf8v |]. split; [done |].
    rewrite E, app_assoc. split; [done |]. len_simpl. lia.
Qed.
Lemma encode_head c rest : (utf8_encode c ++ rest).[0] = (utf8_encode c).[0].
Proof. pose proof (utf8_encode_len c). apply nthZ_app_l. lia. Qed.
Lemma encode_head_byte c : is_scalar c -> is_byte (utf8_encode c).[0].
Proof. intros Hc. by apply nthZ_is_byte, utf8_encode_bytes. Qed.
Lemma encode_expected c : is_scalar c -> UdpPayload_ExpectedSequenceLength (utf8_encode c).[0] = lenZ (utf8_encode c).
Proof.
  intros Hc. pose proof (encode_head_byte c Hc) as Hb. unfold UdpPayload_ExpectedSequenceLength. utf8_ranges. clear Hb.
  unfold is_scalar, utf8_encode in *.
  repeat match goal with |- context [if c <? ?k then _ else _] => destruct (Z.ltb_spec c k) end;
    rewrite nthZ_0_cons; autorewrite with len; repeat destruct_bool_step; bool_to_prop; utf8_arith.
Qed.
Lemma encode_head_not_continuation c : is_scalar c -> SolidSyslogUtf8_IsContinuationByte (utf8_encode c).[0] = false.
Proof.
  intros Hc. pose proof (encode_head_byte c Hc) as Hb. utf8_ranges. clear Hb.
  unfold is_scalar, utf8_encode in *. repeat destruct_bool_step; bool_to_prop; rewrite nthZ_0_cons; utf8_arith.
Qed.

Section cut.
Context (v rest : bytes) (c length : Z) (Hc : is_scalar c) (Hlen : lenZ v < length <= lenZ v + lenZ (utf8_encode c)).
Let buffer : bytes := v ++ utf8_encode c ++ rest.
Lemma FindLastCodepointStart_lead : length <= SIZE_MAX -> UdpPayload_FindLastCodepointStart buffer length = lenZ v.
Proof using Hc Hlen.
  intros Hm. pose proof (lenZ_nonneg v). unfold UdpPayload_FindLastCodepointStart. rewrite size_sub_small by (unfold SIZE_MAX in *; lia).
  while_by (fun s => lenZ v <= s < length) (fun s : Z => s); [| lia | lia |].
  - intros s Hs Hcond. apply andb_prop in Hcond as [Hs0 Hcont]. bool_to_prop.
    assert (s <> lenZ v); [| lia]. intros ->. unfold buffer in Hcont.
    rewrite nthZ_app_r, Z.sub_diag, encode_head, encode_head_not_continuation in Hcont by (done || lia). done.
  - intros s Hs Hcond. destruct (Z.eq_dec s (lenZ v)) as [| Hne]; [done | exfalso].
    rewrite (proj2 (Z.ltb_lt 0 s)) in Hcond by lia. cbn [andb] in Hcond. unfold buffer in Hcond.
    rewrite nthZ_app_r, nthZ_app_l in Hcond by lia.
    pose proof (encode_continuation c (s - lenZ v) Hc ltac:(lia)).
    rewrite continuation_range in Hcond by (unfold is_byte; lia). lia.
Qed.
Lemma LastCodepointExtendsPastCut_tells : lenZ v + 4 <= SIZE_MAX ->
  UdpPayload_LastCodepointExtendsPastCut buffer length (lenZ v) = (length <? lenZ v + lenZ (utf8_encode c)).
Proof using Hc Hlen.
  intros Hm. pose proof (lenZ_nonneg v). pose proof (utf8_encode_len c). unfold UdpPayload_LastCodepointExtendsPastCut, buffer.
  rewrite nthZ_app_r, Z.sub_diag, encode_head, encode_expected by (done || lia). by rewrite size_add_small by (unfold SIZE_MAX in *; lia).
Qed.
End cut.

(** The cut of a valid text is its longest valid prefix that fits. *)
Definition longest_valid (buffer : bytes) (length n : Z) : Prop :=
  0 <= n <= length /\ length < n + 4 /\ valid_utf8 (takeZ n buffer) /\
  forall m, 0 <= m <= length -> valid_utf8 (takeZ m buffer) -> m <= n.
Lemma TrimToCodepointBoundary_cuts buffer size length :
  valid_utf8 (takeZ size buffer) -> 0 <= length <= size -> size <= lenZ buffer -> size + 4 <= SIZE_MAX ->
  longest_valid buffer length (SolidSyslogUdpPayload_TrimToCodepointBoundary buffer length).
Proof.
  intros Hv Hl Hs Hm. unfold SolidSyslogUdpPayload_TrimToCodepointBoundary, longest_valid. destruct (Z.ltb_spec 0 length).
  2: { replace length with 0 by lia. rewrite takeZ_nonpos by lia. split; [lia |]. split; [lia |]. split; [apply valid_utf8_nil | lia]. }
  assert (Hsz : lenZ (takeZ size buffer) = size) by (apply lenZ_takeZ; lia).
  destruct (valid_utf8_at (takeZ size buffer) (length - 1) Hv ltac:(lia)) as (v & c & rest & Hvv & Hc & E & Hi).
  assert (Hb : buffer = v ++ utf8_encode c ++ rest ++ dropZ size buffer).
  { rewrite <- (takeZ_dropZ size buffer) at 1. rewrite E, <- !app_assoc. done. }
  pose proof (lenZ_nonneg v). pose proof (utf8_encode_len c). pose proof (lenZ_nonneg rest). rewrite E, !lenZ_app in Hsz.
  revert Hb. generalize (rest ++ dropZ size buffer). intros rest' ->.
  rewrite (FindLastCodepointStart_lead v rest' c length), (LastCodepointExtendsPastCut_tells v rest' c length) by (done || lia).
  destruct (Z.ltb_spec length (lenZ v + lenZ (utf8_encode c))).
  - split; [lia |]. split; [lia |]. rewrite takeZ_app_le, takeZ_ge by lia. split; [done |]. intros m Hm' Hvm.
    destruct (Z.leb_spec m (lenZ v)); [done | exfalso]. rewrite takeZ_app_ge, takeZ_app_le in Hvm by lia.
    apply (cut_valid_whole v c (m - lenZ v)) in Hvm; [lia | done.. | lia].
  - split; [lia |]. split; [lia |]. split; [| lia]. rewrite app_assoc, takeZ_app_le, takeZ_ge by (len_simpl; lia). auto with utf8v.
Qed.
