(* ===== verification/StreamContract.v ===== *)
(** The contract of a byte stream, as [SolidSyslogStreamDefinition.h] and
    [SolidSyslogStream.h] give it to implementers and callers: what an Open, a Send, a
    Read and a Close may answer, report and leave behind.  A stream is seen as whether
    it is open, the detail its latched fault has, and the bytes each of its connections
    took; [stream_contract] says that an implementation of the vtable behaves so. *)
From S2P Require Import Prelude Errors PendingEvents Interfaces Transport.

(** * States and steps *)

Record stream_state := mkStreamState {
  st_Open : bool;
  st_Latch : option Z;
  st_Wires : list bytes
}.
#[export] Instance settable_stream_state : Settable stream_state := fun s => mkStreamState (st_Open s) (st_Latch s) (st_Wires s).

(** What tells one class's reports from another's. *)
Record stream_kind := mkStreamKind {
  sk_Source : SolidSyslogErrorSource;
  sk_AlreadyOpen : Z;
  sk_FailedCategory : Z -> bool;
  sk_Warning : SolidSyslogErrorEvent -> bool
}.

Section steps.
Context (kind : stream_kind).

(** A failed Open closes nothing it was given, reports once per run of one detail, and
    leaves nothing open; an Open of what is open changes nothing; one that succeeds
    re-arms the report.  A stream over another one, and over a source of credentials,
    leaves to these what [fell] there: that, and only that, is not its to report. *)
Inductive opens (fell : bool) (s : stream_state) : bool -> list SolidSyslogErrorEvent -> stream_state -> Prop :=
| opens_refused :
    st_Open s = true ->
    opens fell s false [mkErrorEvent SOLIDSYSLOG_BAD_ARGUMENT_SEVERITY SOLIDSYSLOG_CAT_BAD_ARGUMENT false (Some (sk_Source kind)) (sk_AlreadyOpen kind) 0] s
| opens_failed warnings severity category hasNative detail native :
    st_Open s = false -> fell = false -> sk_FailedCategory kind category = true -> Forall (fun e => sk_Warning kind e = true) warnings ->
    opens fell s false
      (warnings ++ if bool_decide (st_Latch s = Some detail) then [] else [mkErrorEvent severity category hasNative (Some (sk_Source kind)) detail native])
      (s <| st_Latch := Some detail |>)
| opens_failed_below warnings :
    st_Open s = false -> fell = true -> Forall (fun e => sk_Warning kind e = true) warnings ->
    opens fell s false warnings s
| opens_made warnings :
    st_Open s = false -> fell = false -> Forall (fun e => sk_Warning kind e = true) warnings ->
    opens fell s true warnings (mkStreamState true None (st_Wires s ++ [[]])).

(** All or nothing: a Send that did not take the whole of its data closes, and what the
    connection took of it is a part that nothing follows. *)
Inductive sends (data : bytes) (s : stream_state) : bool -> stream_state -> Prop :=
| sends_whole before conn :
    st_Open s = true -> st_Wires s = before ++ [conn] ->
    sends data s true (s <| st_Wires := before ++ [conn ++ data] |>)
| sends_part before conn part rest :
    st_Open s = true -> st_Wires s = before ++ [conn] -> data = part ++ rest ->
    sends data s false (mkStreamState false (st_Latch s) (before ++ [conn ++ part]))
| sends_closed :
    st_Open s = false -> sends data s false s.

(** Nothing there is 0 and costs nothing; a negative answer follows a teardown. *)
Inductive reads (size : Z) (s : stream_state) : Z -> stream_state -> Prop :=
| reads_some n : st_Open s = true -> 0 < n <= size -> reads size s n s
| reads_none : st_Open s = true -> reads size s 0 s
| reads_end : reads size s (-1) (s <| st_Open := false |>).
End steps.

(** * The contract *)

Section contract.
Context {W : Type} (kind : stream_kind) (stream : SolidSyslogStream W).
(** Where the stream is in order, and where its caller may send and read: for every
    stream where it is open; how a world shows it, and the reports it has made; whether
    the Open before it fell with what the stream is over. *)
Context (ok usable : W -> Prop) (state : W -> stream_state) (reports : W -> list SolidSyslogErrorEvent) (below : W -> bool).

Record stream_contract : Prop := {
  contract_Open : forall addr w, ok w -> wp (SolidSyslogStream_Open (SolidSyslogStream := stream) addr) (fun b w' =>
    ok w' /\ exists rs, opens kind (below w') (state w) b rs (state w') /\ reports w' = reports w ++ rs) w;
  contract_Send : forall buffer size w, ok w -> usable w -> wp (SolidSyslogStream_Send (SolidSyslogStream := stream) buffer size) (fun b w' =>
    ok w' /\ sends (takeZ size buffer) (state w) b (state w') /\ reports w' = reports w) w;
  contract_Read : forall buffer size w, ok w -> usable w -> 0 <= size -> wp (SolidSyslogStream_Read (SolidSyslogStream := stream) buffer size) (fun r w' =>
    ok w' /\ reads size (state w) (fst r) (state w') /\ reports w' = reports w) w;
  contract_Close : forall w, ok w -> wp (SolidSyslogStream_Close (SolidSyslogStream := stream)) (fun _ w' =>
    ok w' /\ state w' = (state w) <| st_Open := false |> /\ reports w' = reports w) w;
  contract_Version : forall w, ok w -> wp (SolidSyslogStream_Version (SolidSyslogStream := stream)) (fun _ w' =>
    ok w' /\ state w' = state w /\ reports w' = reports w) w
}.
End contract.
