(* ===== verification/TcpStreams.v ===== *)
(** TCP streams over the socket calls of four platforms
    ([src/Platform/{Posix,Windows,LwipSocket,VxWorks64}/Source/SolidSyslog*TcpStream.c],
    and lwIP's two keepalive variants).  The four differ in how a socket is taken and
    connected; what they do alike is written once, over a [socket_dialect].  The socket
    library is the class [Sockets]: the theorems hold whatever it answers, within
    [sockets_ok], the documented results of its calls. *)
From S2P Require Import Prelude Errors PendingEvents Interfaces Transport StreamContract.

(** * The socket library *)

(** A call that fails leaves its error number, read at once: [errno], or what
    [WSAGetLastError] gives.  The pair is the result and that number. *)
Class Sockets (E : Type) := {
  sys_socket : ST E (Z * Z);
  sys_close : Z -> ST E Z;
  (** descriptor, level, option, value *)
  sys_setsockopt : Z -> Z -> Z -> Z -> ST E Z;
  (** [fcntl], with [F_GETFL] and [F_SETFL]; [ioctlsocket] with [FIONBIO] *)
  sys_getfl : Z -> ST E (Z * Z);
  sys_setfl : Z -> Z -> ST E (Z * Z);
  sys_fionbio : Z -> Z -> ST E (Z * Z);
  sys_connect : Z -> SolidSyslogAddress -> ST E (Z * Z);
  (** the timeout as seconds and microseconds *)
  sys_connectWithTimeout : Z -> SolidSyslogAddress -> Z -> Z -> ST E (Z * Z);
  (** for the descriptor in the write set and the exception set: the result, the error,
      and whether it is in each set afterwards *)
  sys_select : Z -> Z -> Z -> ST E (Z * Z * bool * bool);
  (** [getsockopt] of [SO_ERROR]: the result, the error, the value *)
  sys_so_error : Z -> ST E (Z * Z * Z);
  (** descriptor, data, length, flags *)
  sys_send : Z -> bytes -> Z -> Z -> ST E (Z * Z);
  (** descriptor, memory, length, flags; gives the memory back as it is left *)
  sys_recv : Z -> bytes -> Z -> Z -> ST E (Z * Z * bytes)
}.
(** The numbers of the platform's headers. *)
Record socket_codes := mkSocketCodes {
  EAGAIN : Z; EWOULDBLOCK : Z; EINPROGRESS : Z; ECONNREFUSED : Z; ETIMEDOUT : Z;
  WSAEWOULDBLOCK : Z; WSAECONNREFUSED : Z; WSAETIMEDOUT : Z;
  MSG_PEEK : Z; MSG_DONTWAIT : Z; MSG_NOSIGNAL : Z; O_NONBLOCK : Z;
  IPPROTO_TCP : Z; SOL_SOCKET : Z; TCP_NODELAY : Z; SO_KEEPALIVE : Z;
  TCP_KEEPIDLE : Z; TCP_KEEPINTVL : Z; TCP_KEEPCNT : Z; TCP_USER_TIMEOUT : Z; TCP_KEEPALIVE : Z;
  (** Winsock's [INVALID_SOCKET]; elsewhere it is the code's own -1. *)
  WSA_INVALID_SOCKET : Z
}.

(** The defaults of the tunables. *)
Definition SOLIDSYSLOG_TCP_CONNECT_TIMEOUT_MS : Z := 200.
Definition SOLIDSYSLOG_TCP_CONNECT_TIMEOUT_MS_MAX : Z := 300000.
Definition SOLIDSYSLOG_TCP_KEEPALIVE_IDLE_SECONDS : Z := 45.
Definition SOLIDSYSLOG_TCP_KEEPALIVE_INTERVAL_SECONDS : Z := 10.
Definition SOLIDSYSLOG_TCP_KEEPALIVE_PROBE_COUNT : Z := 4.
Definition MILLISECONDS_PER_SECOND : Z := 1000.
Definition MICROSECONDS_PER_MILLISECOND : Z := 1000.
Definition INVALID_FD : Z := -1.
Definition SOCKET_ERROR : Z := -1.
Definition INT_MAX : Z := 2 ^ 31 - 1.
(** [(int) size] of a 32-bit [size_t]. *)
Definition to_int (size : Z) : Z := if size <=? INT_MAX then size else size - 2 ^ 32.

(** * A stream in its environment *)

(** A stream's vtable is its own or, once cleaned up, the null stream's. *)
Inductive stream_vtable := OwnStreamVtable | NullStreamVtable.

Section tcp_world.
Context {E : Type}.

Definition SolidSyslogTcpConnectTimeoutFunction : Type := option Z -> ST E Z.
Record tcp_config := mkTcpConfig {
  tc_GetConnectTimeoutMs : option SolidSyslogTcpConnectTimeoutFunction;
  tc_ConnectTimeoutContext : option Z
}.
Record tcp_stream := mkTcpStream {
  tcp_Base : stream_vtable;
  tcp_GetConnectTimeoutMs : SolidSyslogTcpConnectTimeoutFunction;
  tcp_ConnectTimeoutContext : option Z;
  tcp_Fd : Z;
  tcp_OpenHealth : SolidSyslogStreamOpenHealth
}.
#[export] Instance settable_tcp_stream : Settable tcp_stream :=
  fun s => mkTcpStream (tcp_Base s) (tcp_GetConnectTimeoutMs s) (tcp_ConnectTimeoutContext s) (tcp_Fd s) (tcp_OpenHealth s).

(** Each call of the socket library with what it answered, each report, and the moment
    a connection counts as made. *)
Inductive tcp_event :=
| SocketTaken (fd : Z)
| OptionSet (fd level option value : Z)
| FlagsRead (fd : Z)
| NonBlockingSet (fd result : Z)
| ConnectCalled (fd result : Z)
| TimedConnect (fd seconds micros : Z)
| Waited (fd seconds micros : Z)
| ErrorAsked (fd : Z)
| Established
| SentOn (fd : Z) (data : bytes) (flags sent : Z)
| ReceivedOn (fd flags : Z)
| SocketClosed (fd : Z)
| TcpReported (event : SolidSyslogErrorEvent).

Record tcp_world := mkTcpWorld { tw_Self : tcp_stream; tw_Env : E; tw_Trace : list tcp_event }.
#[export] Instance settable_tcp_world : Settable tcp_world := fun w => mkTcpWorld (tw_Self w) (tw_Env w) (tw_Trace w).
Definition tcp_op (A : Type) : Type := ST tcp_world A.

Definition tcp_get {A} (f : tcp_stream -> A) : tcp_op A := st_get (fun w => f (tw_Self w)).
Definition tcp_set (f : tcp_stream -> tcp_stream) : tcp_op unit := st_mod (fun w => w <| tw_Self := f (tw_Self w) |>).
Definition tcp_happens (e : tcp_event) : tcp_op unit := st_mod (fun w => w <| tw_Trace := tw_Trace w ++ [e] |>).
Definition tcp_env {A} (m : ST E A) : tcp_op A := zoom tw_Env (fun e w => w <| tw_Env := e |>) m.
Definition tcp_call {A} (m : ST E A) (said : A -> tcp_event) : tcp_op A :=
  let! a := tcp_env m in
  tcp_happens (said a) ;;;
  st_ret a.
End tcp_world.
Arguments tcp_config : clear implicits.
Arguments tcp_stream : clear implicits.
Arguments tcp_world : clear implicits.

(** Around the stream, others report too. *)
#[export] Instance tcp_world_tap {E} `{ErrorTap E} : ErrorTap (tcp_world E) := {
  tap_Handler := fun event w => w <| tw_Env := tap_Handler event (tw_Env w) |>;
  tap_Slots := fun w => tap_Slots (tw_Env w);
  tap_SetSlots := fun slots w => w <| tw_Env := tap_SetSlots slots (tw_Env w) |>
}.

(** * What the four do alike *)

(** What tells the platforms apart in the common code: the source of the reports, the
    descriptor that is none and the test for one, the test of a call's result, the
    errors that mean "not now" and "the destination answered", the flags, and how a
    length is passed. *)
Record socket_dialect := mkDialect {
  sd_Source : SolidSyslogErrorSource;
  sd_InvalidSocket : Z;
  sd_IsSocketValid : Z -> bool;
  sd_Failed : Z -> bool;
  sd_Answered : Z -> bool;
  sd_WouldBlock : Z -> bool;
  sd_IsRemoteConnectError : Z -> bool;
  sd_PeekFlags : Z;
  sd_SendFlags : Z;
  sd_ReadFlags : Z;
  sd_SendLength : Z -> Z;
  sd_ReadLength : Z -> Z
}.

Section tcp_stream.
Context {E : Type} `{ErrorTap E} `{Sockets E} (codes : socket_codes) (D : socket_dialect).
Abbreviation op := (@tcp_op E).

Definition error_of (result : Z * Z) : Z := if sd_Failed D (fst result) then snd result else 0.

Definition TcpStream_Report (severity category code : Z) : op unit :=
  tcp_env (st_mod (tap_error severity (Some (sd_Source D)) category code)) ;;;
  tcp_happens (TcpReported (mkErrorEvent severity category false (Some (sd_Source D)) code 0)).
(** A report of the stream's [OpenHealth]: made when the latch admits it. *)
Definition health_report (detail : Z) (m : SolidSyslogStreamOpenHealth -> ST E SolidSyslogStreamOpenHealth) (event : SolidSyslogErrorEvent) : op unit :=
  let! health := tcp_get tcp_OpenHealth in
  let! after := tcp_env (m health) in
  tcp_set (fun self => self <| tcp_OpenHealth := after |>) ;;;
  if! fst (StreamOpenHealth_Admit health detail) then tcp_happens (TcpReported event) end!.
Definition TcpStream_ReportConnectFailure (severity detail : Z) : op unit :=
  health_report detail
    (fun health => SolidSyslogStreamOpenHealth_ReportFailure health (Some (sd_Source D)) severity SOLIDSYSLOG_CAT_STREAM_CONNECT_FAILED detail)
    (mkErrorEvent severity SOLIDSYSLOG_CAT_STREAM_CONNECT_FAILED false (Some (sd_Source D)) detail 0).
Definition TcpStream_ReportConnectFailureWithErrno (severity detail nativeErrno : Z) : op unit :=
  if negb (nativeErrno =? 0) then
    health_report detail
      (fun health => SolidSyslogStreamOpenHealth_ReportFailureWithNativeCode health (Some (sd_Source D)) severity SOLIDSYSLOG_CAT_STREAM_CONNECT_FAILED detail nativeErrno)
      (mkErrorEvent severity SOLIDSYSLOG_CAT_STREAM_CONNECT_FAILED true (Some (sd_Source D)) detail nativeErrno)
  else TcpStream_ReportConnectFailure severity detail.

Definition TcpStream_NullConnectTimeoutGetter : @SolidSyslogTcpConnectTimeoutFunction E := fun _ => st_ret SOLIDSYSLOG_TCP_CONNECT_TIMEOUT_MS.
Definition TcpStream_ConfigProvidesGetter (config : option (tcp_config E)) : bool :=
  match config with
  | None => false
  | Some config => match tc_GetConnectTimeoutMs config with None => false | Some _ => true end
  end.
Definition TcpStream_Initialise (config : option (tcp_config E)) : tcp_stream E :=
  let self := mkTcpStream OwnStreamVtable TcpStream_NullConnectTimeoutGetter None (sd_InvalidSocket D) (mkStreamOpenHealth false 0) in
  match config with
  | None => self
  | Some config =>
      match tc_GetConnectTimeoutMs config with
      | None => self
      | Some getter => self <| tcp_GetConnectTimeoutMs := getter |> <| tcp_ConnectTimeoutContext := tc_ConnectTimeoutContext config |>
      end
  end.
Definition TcpStream_ResolveConnectTimeoutMs : op Z :=
  let! self := tcp_get (fun self => self) in
  let! ms := tcp_env (tcp_GetConnectTimeoutMs self (tcp_ConnectTimeoutContext self)) in
  st_ret (if SOLIDSYSLOG_TCP_CONNECT_TIMEOUT_MS_MAX <? u32 ms then SOLIDSYSLOG_TCP_CONNECT_TIMEOUT_MS_MAX else u32 ms).

(** [close(self->Fd); self->Fd = INVALID_FD;] *)
Definition drop_socket : op unit :=
  let! fd := tcp_get tcp_Fd in
  tcp_call (sys_close fd) (fun _ => SocketClosed fd) ;;;
  tcp_set (fun self => self <| tcp_Fd := sd_InvalidSocket D |>).
Definition TcpStream_CloseSocket : op unit :=
  let! fd := tcp_get tcp_Fd in
  if! sd_IsSocketValid D fd then drop_socket end!.
Definition TcpStream_Cleanup : op unit :=
  TcpStream_CloseSocket ;;;
  tcp_set (fun self => self <| tcp_Base := NullStreamVtable |>).

(** [self->Fd = socket(AF_INET, SOCK_STREAM, 0)], and the fault when there is none. *)
Definition take_socket : op bool :=
  let! taken := tcp_call sys_socket (fun taken => SocketTaken (fst taken)) in
  tcp_set (fun self => self <| tcp_Fd := fst taken |>) ;;;
  if sd_IsSocketValid D (fst taken) then st_ret true
  else
    TcpStream_ReportConnectFailureWithErrno SOLIDSYSLOG_STREAM_CONNECT_LOCAL_SEVERITY SOLIDSYSLOG_TCP_STREAM_ERROR_ENDPOINT_UNAVAILABLE (snd taken) ;;;
    st_ret false.

Definition set_option (fd level option value : Z) : op Z :=
  tcp_call (sys_setsockopt fd level option value) (fun _ => OptionSet fd level option value).

(** ** The wait for a connect under way *)

Definition TcpStream_WaitTimedOut (selectResult : Z) : bool := selectResult =? 0.
(** The code the socket holds or the lookup's own, and whether the socket answered. *)
Definition TcpStream_ReadSocketError (fd : Z) : op (bool * Z) :=
  let! asked := tcp_call (sys_so_error fd) (fun _ => ErrorAsked fd) in
  let '(rc, lookupErrno, err) := asked in
  st_ret (if sd_Answered D rc then (true, err) else (false, lookupErrno)).
Definition TcpStream_ReadDeferredConnectError : op bool :=
  let! fd := tcp_get tcp_Fd in
  let! asked := TcpStream_ReadSocketError fd in
  let connected := fst asked && (snd asked =? 0) in
  if! negb connected then
    TcpStream_ReportConnectFailureWithErrno SOLIDSYSLOG_STREAM_CONNECT_REMOTE_SEVERITY SOLIDSYSLOG_TCP_STREAM_ERROR_CONNECT_REFUSED (snd asked)
  end! ;;;
  st_ret connected.
Definition TcpStream_ReportUnfinishedWait (selectResult selectErrno : Z) : op unit :=
  if TcpStream_WaitTimedOut selectResult then
    TcpStream_ReportConnectFailure SOLIDSYSLOG_STREAM_CONNECT_REMOTE_SEVERITY SOLIDSYSLOG_TCP_STREAM_ERROR_CONNECT_TIMED_OUT
  else
    let! nativeErrno :=
      if 0 <? selectResult then
        let! fd := tcp_get tcp_Fd in
        let! asked := TcpStream_ReadSocketError fd in
        st_ret (snd asked)
      else st_ret selectErrno in
    TcpStream_ReportConnectFailureWithErrno SOLIDSYSLOG_STREAM_CONNECT_REMOTE_SEVERITY SOLIDSYSLOG_TCP_STREAM_ERROR_CONNECT_REFUSED nativeErrno.
Definition TcpStream_WaitForConnectCompletion (seconds micros : Z) : op bool :=
  let! fd := tcp_get tcp_Fd in
  let! answer := tcp_call (sys_select fd seconds micros) (fun _ => Waited fd seconds micros) in
  let '(rc, err, writable, excepted) := answer in
  let ready := (0 <? rc) && writable && negb excepted in
  if! negb ready then TcpStream_ReportUnfinishedWait rc (error_of (rc, err)) end! ;;;
  st_ret ready.
(** The wait, and then the error of what is ready. *)
Definition finish_connect (WaitForConnectCompletion : op bool) : op bool :=
  let! ready := WaitForConnectCompletion in
  if ready : bool then TcpStream_ReadDeferredConnectError else st_ret false.
(** An immediate failure, by whether the destination answered. *)
Definition refuse_connect (connectErrno : Z) : op unit :=
  if sd_IsRemoteConnectError D connectErrno
  then TcpStream_ReportConnectFailureWithErrno SOLIDSYSLOG_STREAM_CONNECT_REMOTE_SEVERITY SOLIDSYSLOG_TCP_STREAM_ERROR_CONNECT_REFUSED connectErrno
  else TcpStream_ReportConnectFailureWithErrno SOLIDSYSLOG_STREAM_CONNECT_LOCAL_SEVERITY SOLIDSYSLOG_TCP_STREAM_ERROR_CONNECT_NOT_STARTED connectErrno.
Definition call_connect (addr : SolidSyslogAddress) : op (Z * Z) :=
  let! fd := tcp_get tcp_Fd in
  tcp_call (sys_connect fd addr) (fun answer => ConnectCalled fd (fst answer)).

(** ** Open *)

Section open.
(** What the platform does to take and connect a socket, reports included; [Open] is
    given it with what [take_and_connect] adds. *)
Context (TakeAndConnect : SolidSyslogAddress -> op bool).
Definition take_and_connect (addr : SolidSyslogAddress) : op bool :=
  let! connected := TakeAndConnect addr in
  if! connected : bool then
    tcp_set (fun self => self <| tcp_OpenHealth := SolidSyslogStreamOpenHealth_Opened (tcp_OpenHealth self) |>) ;;;
    tcp_happens Established
  end! ;;;
  st_ret connected.
Definition TcpStream_Open (addr : SolidSyslogAddress) : op bool :=
  let! fd := tcp_get tcp_Fd in
  if sd_IsSocketValid D fd then
    TcpStream_Report SOLIDSYSLOG_BAD_ARGUMENT_SEVERITY SOLIDSYSLOG_CAT_BAD_ARGUMENT SOLIDSYSLOG_TCP_STREAM_ERROR_ALREADY_OPEN ;;;
    st_ret false
  else TakeAndConnect addr.
End open.
(** One exceptional report for an attempt, however many options were refused. *)
Definition TcpStream_ReportOptionRefused : op unit :=
  TcpStream_Report SOLIDSYSLOG_SEVERITY_WARNING SOLIDSYSLOG_CAT_STREAM_OPTION_REFUSED SOLIDSYSLOG_TCP_STREAM_ERROR_SOCKET_OPTION_REFUSED.

(** ** Send, Read and Close *)

(** [discard] is the byte peeked into. *)
Definition TcpStream_PeerIsStillThere : op bool :=
  let! fd := tcp_get tcp_Fd in
  let! answer := tcp_call (sys_recv fd [0] 1 (sd_PeekFlags D)) (fun _ => ReceivedOn fd (sd_PeekFlags D)) in
  let '(peeked, err, _) := answer in
  st_ret ((0 <? peeked) || (sd_Failed D peeked && sd_WouldBlock D (error_of (peeked, err)))).
Definition TcpStream_WroteAllBytes (sent expected : Z) : bool := (0 <=? sent) && (sent =? expected).
(** [accepts] is asked before the record is offered. *)
Definition TcpStream_Send (accepts : Z -> op bool) (buffer : bytes) (size : Z) : op bool :=
  let! ok := accepts size in
  let! ok :=
    if ok : bool then
      let! fd := tcp_get tcp_Fd in
      let! answer := tcp_call (sys_send fd (takeZ size buffer) (sd_SendLength D size) (sd_SendFlags D))
        (fun answer => SentOn fd (takeZ size buffer) (sd_SendFlags D) (fst answer)) in
      st_ret (TcpStream_WroteAllBytes (fst answer) size)
    else st_ret false in
  if! negb ok then TcpStream_CloseSocket end! ;;;
  st_ret ok.
Definition TcpStream_Read (buffer : bytes) (size : Z) : op (Z * bytes) :=
  let! fd := tcp_get tcp_Fd in
  let! answer := tcp_call (sys_recv fd buffer (sd_ReadLength D size) (sd_ReadFlags D)) (fun _ => ReceivedOn fd (sd_ReadFlags D)) in
  let '(n, err, memory) := answer in
  if 0 <? n then st_ret (n, memory)
  else if sd_Failed D n && sd_WouldBlock D (error_of (n, err)) then st_ret (0, memory)
  else TcpStream_CloseSocket ;;; st_ret (-1, memory).
Definition TcpStream_Version : op Z := st_ret 0.

(** Dispatch through the vtable. *)
Definition TcpStream_vtable (Open : SolidSyslogAddress -> op bool) (Send : bytes -> Z -> op bool) : SolidSyslogStream (tcp_world E) :=
  let own {A} (m null : op A) : op A :=
    let! base := tcp_get tcp_Base in match base with OwnStreamVtable => m | NullStreamVtable => null end in {|
  SolidSyslogStream_Open := fun addr => own (Open addr) (NullStream_Open addr);
  SolidSyslogStream_Send := fun buffer size => own (Send buffer size) (NullStream_Send buffer size);
  SolidSyslogStream_Read := fun buffer size => own (TcpStream_Read buffer size) (NullStream_Read buffer size);
  SolidSyslogStream_Close := own TcpStream_CloseSocket NullStream_Close;
  SolidSyslogStream_Version := own TcpStream_Version NullStream_Version
|}.
End tcp_stream.

(** * POSIX *)

Section posix.
Context {E : Type} `{ErrorTap E} `{Sockets E} (codes : socket_codes).
Abbreviation op := (@tcp_op E).

Definition PosixTcpStream_IsFileDescriptorValid (fd : Z) : bool := 0 <=? fd.
Definition PosixTcpStream_WouldBlock (err : Z) : bool := (err =? EAGAIN codes) || (err =? EWOULDBLOCK codes).
Definition PosixTcpStream_IsRemoteConnectError (connectErrno : Z) : bool := (connectErrno =? ECONNREFUSED codes) || (connectErrno =? ETIMEDOUT codes).
Definition posix : socket_dialect := {|
  sd_Source := SolidSyslogPosixTcpStreamErrorSource;
  sd_InvalidSocket := INVALID_FD;
  sd_IsSocketValid := PosixTcpStream_IsFileDescriptorValid;
  sd_Failed := fun result => result <? 0;
  sd_Answered := fun result => result =? 0;
  sd_WouldBlock := PosixTcpStream_WouldBlock;
  sd_IsRemoteConnectError := PosixTcpStream_IsRemoteConnectError;
  sd_PeekFlags := MSG_PEEK codes;
  sd_SendFlags := MSG_NOSIGNAL codes;
  sd_ReadFlags := 0;
  sd_SendLength := fun size => size;
  sd_ReadLength := fun size => size
|}.
Definition PosixTcpStream_Report : Z -> Z -> Z -> op unit := TcpStream_Report posix.
Definition PosixTcpStream_ReportConnectFailure : Z -> Z -> op unit := TcpStream_ReportConnectFailure posix.
Definition PosixTcpStream_ReportConnectFailureWithErrno : Z -> Z -> Z -> op unit := TcpStream_ReportConnectFailureWithErrno posix.
Definition PosixTcpStream_NullConnectTimeoutGetter : @SolidSyslogTcpConnectTimeoutFunction E := TcpStream_NullConnectTimeoutGetter.
Definition PosixTcpStream_ConfigProvidesGetter : option (tcp_config E) -> bool := TcpStream_ConfigProvidesGetter.
Definition SolidSyslogPosixTcpStream_Initialise : option (tcp_config E) -> tcp_stream E := TcpStream_Initialise posix.

Definition PosixTcpStream_EnableTcpNoDelay (fd : Z) : op unit :=
  let! _ := set_option fd (IPPROTO_TCP codes) (TCP_NODELAY codes) 1 in st_ret tt.
Definition PosixTcpStream_EnableKeepalive (fd : Z) : op unit :=
  let idle := SOLIDSYSLOG_TCP_KEEPALIVE_IDLE_SECONDS in
  let interval := SOLIDSYSLOG_TCP_KEEPALIVE_INTERVAL_SECONDS in
  let count := SOLIDSYSLOG_TCP_KEEPALIVE_PROBE_COUNT in
  let userTimeout := (idle + interval * count) * MILLISECONDS_PER_SECOND in
  let! _ := set_option fd (SOL_SOCKET codes) (SO_KEEPALIVE codes) 1 in
  let! _ := set_option fd (IPPROTO_TCP codes) (TCP_KEEPIDLE codes) idle in
  let! _ := set_option fd (IPPROTO_TCP codes) (TCP_KEEPINTVL codes) interval in
  let! _ := set_option fd (IPPROTO_TCP codes) (TCP_KEEPCNT codes) count in
  let! _ := set_option fd (IPPROTO_TCP codes) (TCP_USER_TIMEOUT codes) userTimeout in
  st_ret tt.
Definition PosixTcpStream_SetNonBlocking : op bool :=
  let! fd := tcp_get tcp_Fd in
  let! flags := tcp_call (sys_getfl fd) (fun _ => FlagsRead fd) in
  let! set :=
    if 0 <=? fst flags then
      let! answer := tcp_call (sys_setfl fd (Z.lor (fst flags) (O_NONBLOCK codes))) (fun answer => NonBlockingSet fd (fst answer)) in
      st_ret (negb (fst answer =? -1), if fst answer =? -1 then snd answer else 0)
    else st_ret (false, snd flags) in
  let '(nonBlocking, fcntlErrno) := set in
  if! negb nonBlocking then
    PosixTcpStream_ReportConnectFailureWithErrno SOLIDSYSLOG_STREAM_CONNECT_LOCAL_SEVERITY SOLIDSYSLOG_TCP_STREAM_ERROR_ENDPOINT_UNAVAILABLE fcntlErrno
  end! ;;;
  st_ret nonBlocking.
Definition PosixTcpStream_ConfigureSocket : op bool :=
  let! fd := tcp_get tcp_Fd in
  PosixTcpStream_EnableTcpNoDelay fd ;;;
  PosixTcpStream_EnableKeepalive fd ;;;
  PosixTcpStream_SetNonBlocking.
Definition PosixTcpStream_OpenAndConfigureSocket : op unit :=
  let! taken := take_socket posix in
  if! taken : bool then
    let! configured := PosixTcpStream_ConfigureSocket in
    if! negb configured then drop_socket posix end!
  end!.

Definition PosixTcpStream_ResolveConnectTimeoutMicros : op Z :=
  let! boundedMs := TcpStream_ResolveConnectTimeoutMs in
  st_ret (boundedMs * 1000).
Definition PosixTcpStream_WaitTimedOut : Z -> bool := TcpStream_WaitTimedOut.
Definition PosixTcpStream_ReadSocketError : Z -> op (bool * Z) := TcpStream_ReadSocketError posix.
Definition PosixTcpStream_ReadDeferredConnectError : op bool := TcpStream_ReadDeferredConnectError posix.
Definition PosixTcpStream_ReportUnfinishedWait : Z -> Z -> op unit := TcpStream_ReportUnfinishedWait posix.
Definition PosixTcpStream_WaitForConnectCompletion (timeoutMicros : Z) : op bool :=
  TcpStream_WaitForConnectCompletion posix (Z.quot timeoutMicros 1000000) (Z.rem timeoutMicros 1000000).
Definition PosixTcpStream_Connect (sin : SolidSyslogAddress) (timeoutMicros : Z) : op bool :=
  let! answer := call_connect sin in
  let connectErrno := error_of posix answer in
  if fst answer =? 0 then st_ret true
  else if connectErrno =? EINPROGRESS codes then finish_connect posix (PosixTcpStream_WaitForConnectCompletion timeoutMicros)
  else refuse_connect posix connectErrno ;;; st_ret false.
Definition PosixTcpStream_ConnectOrCloseOnFailure (sin : SolidSyslogAddress) : op bool :=
  let! timeoutMicros := PosixTcpStream_ResolveConnectTimeoutMicros in
  let! connected := PosixTcpStream_Connect sin timeoutMicros in
  if! negb connected then drop_socket posix end! ;;;
  st_ret connected.
(** [TakeSocketAndConnect] but for the latch. *)
Definition PosixTcpStream_attempt (sin : SolidSyslogAddress) : op bool :=
  PosixTcpStream_OpenAndConfigureSocket ;;;
  let! fd := tcp_get tcp_Fd in
  if PosixTcpStream_IsFileDescriptorValid fd then PosixTcpStream_ConnectOrCloseOnFailure sin else st_ret false.
Definition PosixTcpStream_TakeSocketAndConnect : SolidSyslogAddress -> op bool := take_and_connect PosixTcpStream_attempt.
Definition PosixTcpStream_Open : SolidSyslogAddress -> op bool := TcpStream_Open posix PosixTcpStream_TakeSocketAndConnect.

Definition PosixTcpStream_PeerIsStillThere : op bool := TcpStream_PeerIsStillThere posix.
Definition PosixTcpStream_WroteAllBytes : Z -> Z -> bool := TcpStream_WroteAllBytes.
Definition PosixTcpStream_Send : bytes -> Z -> op bool := TcpStream_Send posix (fun _ => PosixTcpStream_PeerIsStillThere).
Definition PosixTcpStream_Read : bytes -> Z -> op (Z * bytes) := TcpStream_Read posix.
Definition PosixTcpStream_Close : op unit := TcpStream_CloseSocket posix.
Definition PosixTcpStream_Version : op Z := TcpStream_Version.
Definition SolidSyslogPosixTcpStream_Cleanup : op unit := TcpStream_Cleanup posix.
Definition PosixTcpStream_vtable : SolidSyslogStream (tcp_world E) := TcpStream_vtable posix PosixTcpStream_Open PosixTcpStream_Send.
End posix.

(** * Windows *)

Section winsock.
Context {E : Type} `{ErrorTap E} `{Sockets E} (codes : socket_codes).
Abbreviation op := (@tcp_op E).

Definition WinsockTcpStream_IsSocketValid (fd : Z) : bool := negb (fd =? WSA_INVALID_SOCKET codes).
Definition WinsockTcpStream_WouldBlock (wsaError : Z) : bool := wsaError =? WSAEWOULDBLOCK codes.
Definition WinsockTcpStream_IsRemoteConnectError (wsaError : Z) : bool := (wsaError =? WSAECONNREFUSED codes) || (wsaError =? WSAETIMEDOUT codes).
Definition winsock : socket_dialect := {|
  sd_Source := SolidSyslogWinsockTcpStreamErrorSource;
  sd_InvalidSocket := WSA_INVALID_SOCKET codes;
  sd_IsSocketValid := WinsockTcpStream_IsSocketValid;
  sd_Failed := fun result => result =? SOCKET_ERROR;
  sd_Answered := fun result => negb (result =? SOCKET_ERROR);
  sd_WouldBlock := WinsockTcpStream_WouldBlock;
  sd_IsRemoteConnectError := WinsockTcpStream_IsRemoteConnectError;
  sd_PeekFlags := MSG_PEEK codes;
  sd_SendFlags := 0;
  sd_ReadFlags := 0;
  sd_SendLength := to_int;
  sd_ReadLength := to_int
|}.
Definition WinsockTcpStream_Report : Z -> Z -> Z -> op unit := TcpStream_Report winsock.
Definition WinsockTcpStream_ReportConnectFailure : Z -> Z -> op unit := TcpStream_ReportConnectFailure winsock.
Definition WinsockTcpStream_ReportConnectFailureWithLastError : Z -> Z -> Z -> op unit := TcpStream_ReportConnectFailureWithErrno winsock.
Definition WinsockTcpStream_NullConnectTimeoutGetter : @SolidSyslogTcpConnectTimeoutFunction E := TcpStream_NullConnectTimeoutGetter.
Definition WinsockTcpStream_ConfigProvidesGetter : option (tcp_config E) -> bool := TcpStream_ConfigProvidesGetter.
Definition SolidSyslogWinsockTcpStream_Initialise : option (tcp_config E) -> tcp_stream E := TcpStream_Initialise winsock.

Definition WinsockTcpStream_EnableTcpNoDelay (fd : Z) : op unit :=
  let! _ := set_option fd (IPPROTO_TCP codes) (TCP_NODELAY codes) 1 in st_ret tt.
Definition WinsockTcpStream_EnableKeepalive (fd : Z) : op unit :=
  let! _ := set_option fd (SOL_SOCKET codes) (SO_KEEPALIVE codes) 1 in
  let! _ := set_option fd (IPPROTO_TCP codes) (TCP_KEEPIDLE codes) SOLIDSYSLOG_TCP_KEEPALIVE_IDLE_SECONDS in
  let! _ := set_option fd (IPPROTO_TCP codes) (TCP_KEEPINTVL codes) SOLIDSYSLOG_TCP_KEEPALIVE_INTERVAL_SECONDS in
  let! _ := set_option fd (IPPROTO_TCP codes) (TCP_KEEPCNT codes) SOLIDSYSLOG_TCP_KEEPALIVE_PROBE_COUNT in
  st_ret tt.
Definition WinsockTcpStream_SetNonBlocking : op bool :=
  let! fd := tcp_get tcp_Fd in
  let! answer := tcp_call (sys_fionbio fd 1) (fun answer => NonBlockingSet fd (fst answer)) in
  let nonBlocking := negb (fst answer =? SOCKET_ERROR) in
  if! negb nonBlocking then
    WinsockTcpStream_ReportConnectFailureWithLastError SOLIDSYSLOG_STREAM_CONNECT_LOCAL_SEVERITY SOLIDSYSLOG_TCP_STREAM_ERROR_ENDPOINT_UNAVAILABLE
      (error_of winsock answer)
  end! ;;;
  st_ret nonBlocking.
Definition WinsockTcpStream_ConfigureSocket : op bool :=
  let! fd := tcp_get tcp_Fd in
  WinsockTcpStream_EnableTcpNoDelay fd ;;;
  WinsockTcpStream_EnableKeepalive fd ;;;
  WinsockTcpStream_SetNonBlocking.
Definition WinsockTcpStream_OpenAndConfigureSocket : op unit :=
  let! taken := take_socket winsock in
  if! taken : bool then
    let! configured := WinsockTcpStream_ConfigureSocket in
    if! negb configured then drop_socket winsock end!
  end!.

Definition WinsockTcpStream_ResolveConnectTimeoutMs : op Z := TcpStream_ResolveConnectTimeoutMs.
Definition WinsockTcpStream_WaitTimedOut : Z -> bool := TcpStream_WaitTimedOut.
Definition WinsockTcpStream_ReadSocketError : Z -> op (bool * Z) := TcpStream_ReadSocketError winsock.
Definition WinsockTcpStream_ReadDeferredConnectError : op bool := TcpStream_ReadDeferredConnectError winsock.
Definition WinsockTcpStream_ReportUnfinishedWait : Z -> Z -> op unit := TcpStream_ReportUnfinishedWait winsock.
Definition WinsockTcpStream_WaitForConnectCompletion (connectTimeoutMs : Z) : op bool :=
  TcpStream_WaitForConnectCompletion winsock (connectTimeoutMs / MILLISECONDS_PER_SECOND)
    ((connectTimeoutMs mod MILLISECONDS_PER_SECOND) * MICROSECONDS_PER_MILLISECOND).
Definition WinsockTcpStream_Connect (sin : SolidSyslogAddress) (connectTimeoutMs : Z) : op bool :=
  let! answer := call_connect sin in
  let lastError := error_of winsock answer in
  if negb (fst answer =? SOCKET_ERROR) then st_ret true
  else if lastError =? WSAEWOULDBLOCK codes then finish_connect winsock (WinsockTcpStream_WaitForConnectCompletion connectTimeoutMs)
  else refuse_connect winsock lastError ;;; st_ret false.
Definition WinsockTcpStream_ConnectOrCloseOnFailure (sin : SolidSyslogAddress) : op bool :=
  let! connectTimeoutMs := WinsockTcpStream_ResolveConnectTimeoutMs in
  let! connected := WinsockTcpStream_Connect sin connectTimeoutMs in
  if! negb connected then drop_socket winsock end! ;;;
  st_ret connected.
(** [TakeSocketAndConnect] but for the latch. *)
Definition WinsockTcpStream_attempt (sin : SolidSyslogAddress) : op bool :=
  WinsockTcpStream_OpenAndConfigureSocket ;;;
  let! fd := tcp_get tcp_Fd in
  if WinsockTcpStream_IsSocketValid fd then WinsockTcpStream_ConnectOrCloseOnFailure sin else st_ret false.
Definition WinsockTcpStream_TakeSocketAndConnect : SolidSyslogAddress -> op bool := take_and_connect WinsockTcpStream_attempt.
Definition WinsockTcpStream_Open : SolidSyslogAddress -> op bool := TcpStream_Open winsock WinsockTcpStream_TakeSocketAndConnect.

Definition WinsockTcpStream_PeerIsStillThere : op bool := TcpStream_PeerIsStillThere winsock.
Definition WinsockTcpStream_WroteAllBytes : Z -> Z -> bool := TcpStream_WroteAllBytes.
Definition WinsockTcpStream_Send : bytes -> Z -> op bool := TcpStream_Send winsock (fun _ => WinsockTcpStream_PeerIsStillThere).
Definition WinsockTcpStream_Read : bytes -> Z -> op (Z * bytes) := TcpStream_Read winsock.
Definition WinsockTcpStream_Close : op unit := TcpStream_CloseSocket winsock.
Definition WinsockTcpStream_Version : op Z := TcpStream_Version.
Definition SolidSyslogWinsockTcpStream_Cleanup : op unit := TcpStream_Cleanup winsock.
Definition WinsockTcpStream_vtable : SolidSyslogStream (tcp_world E) := TcpStream_vtable winsock WinsockTcpStream_Open WinsockTcpStream_Send.
End winsock.

(** * lwIP's sockets *)

(** lwIP built with [LWIP_TCP_KEEPALIVE], and without. *)
Inductive keepalive_variant := KeepaliveAll | KeepaliveIdleOnly.

Section lwip_socket.
Context {E : Type} `{ErrorTap E} `{Sockets E} (codes : socket_codes) (variant : keepalive_variant).
Abbreviation op := (@tcp_op E).

Definition LwipSocketTcpStream_IsSocketValid (fd : Z) : bool := 0 <=? fd.
Definition LwipSocketTcpStream_WouldBlock (err : Z) : bool := (err =? EWOULDBLOCK codes) || (err =? EAGAIN codes).
Definition LwipSocketTcpStream_IsRemoteConnectError (connectErrno : Z) : bool := (connectErrno =? ECONNREFUSED codes) || (connectErrno =? ETIMEDOUT codes).
Definition lwip_socket : socket_dialect := {|
  sd_Source := SolidSyslogLwipSocketTcpStreamErrorSource;
  sd_InvalidSocket := -1;
  sd_IsSocketValid := LwipSocketTcpStream_IsSocketValid;
  sd_Failed := fun result => result <? 0;
  sd_Answered := fun result => result =? 0;
  sd_WouldBlock := LwipSocketTcpStream_WouldBlock;
  sd_IsRemoteConnectError := LwipSocketTcpStream_IsRemoteConnectError;
  sd_PeekFlags := MSG_PEEK codes;
  sd_SendFlags := 0;
  sd_ReadFlags := 0;
  sd_SendLength := fun size => size;
  sd_ReadLength := fun size => size
|}.
Definition LwipSocketTcpStream_Report : Z -> Z -> Z -> op unit := TcpStream_Report lwip_socket.
Definition LwipSocketTcpStream_ReportConnectFailure : Z -> Z -> op unit := TcpStream_ReportConnectFailure lwip_socket.
Definition LwipSocketTcpStream_ReportConnectFailureWithErrno : Z -> Z -> Z -> op unit := TcpStream_ReportConnectFailureWithErrno lwip_socket.
Definition LwipSocketTcpStream_NullConnectTimeoutGetter : @SolidSyslogTcpConnectTimeoutFunction E := TcpStream_NullConnectTimeoutGetter.
Definition LwipSocketTcpStream_ConfigProvidesGetter : option (tcp_config E) -> bool := TcpStream_ConfigProvidesGetter.
Definition SolidSyslogLwipSocketTcpStream_Initialise : option (tcp_config E) -> tcp_stream E := TcpStream_Initialise lwip_socket.
Definition LwipSocketTcpStream_CloseSocket : op unit := TcpStream_CloseSocket lwip_socket.

Definition LwipSocketTcpStream_TakeSocket : op unit :=
  let! taken := take_socket lwip_socket in
  if! taken : bool then
    let! fd := tcp_get tcp_Fd in
    let! answer := tcp_call (sys_setfl fd (O_NONBLOCK codes)) (fun answer => NonBlockingSet fd (fst answer)) in
    let fcntlErrno := if negb (fst answer =? 0) then snd answer else 0 in
    if! negb (fst answer =? 0) then
      LwipSocketTcpStream_ReportConnectFailureWithErrno SOLIDSYSLOG_STREAM_CONNECT_LOCAL_SEVERITY SOLIDSYSLOG_TCP_STREAM_ERROR_ENDPOINT_UNAVAILABLE fcntlErrno ;;;
      drop_socket lwip_socket
    end!
  end!.

(** The two files of [ApplyKeepalive]. *)
Definition ApplyKeepalive_All (fd : Z) : op bool :=
  let! idle := set_option fd (IPPROTO_TCP codes) (TCP_KEEPIDLE codes) SOLIDSYSLOG_TCP_KEEPALIVE_IDLE_SECONDS in
  let! interval := set_option fd (IPPROTO_TCP codes) (TCP_KEEPINTVL codes) SOLIDSYSLOG_TCP_KEEPALIVE_INTERVAL_SECONDS in
  let! count := set_option fd (IPPROTO_TCP codes) (TCP_KEEPCNT codes) SOLIDSYSLOG_TCP_KEEPALIVE_PROBE_COUNT in
  st_ret ((count =? 0) && ((interval =? 0) && (idle =? 0))).
Definition ApplyKeepalive_IdleOnly (fd : Z) : op bool :=
  let idleMs := SOLIDSYSLOG_TCP_KEEPALIVE_IDLE_SECONDS * MILLISECONDS_PER_SECOND in
  let! rc := set_option fd (IPPROTO_TCP codes) (TCP_KEEPALIVE codes) idleMs in
  st_ret (rc =? 0).
Definition SolidSyslogLwipSocketTcpStream_ApplyKeepalive (fd : Z) : op bool :=
  match variant with KeepaliveAll => ApplyKeepalive_All fd | KeepaliveIdleOnly => ApplyKeepalive_IdleOnly fd end.
Definition LwipSocketTcpStream_ReportOptionRefused : op unit := TcpStream_ReportOptionRefused lwip_socket.
Definition LwipSocketTcpStream_ApplySocketOptions (fd : Z) : op unit :=
  let! noDelay := set_option fd (IPPROTO_TCP codes) (TCP_NODELAY codes) 1 in
  let! keepalive := set_option fd (SOL_SOCKET codes) (SO_KEEPALIVE codes) 1 in
  let! timings := SolidSyslogLwipSocketTcpStream_ApplyKeepalive fd in
  let allAccepted := timings && ((keepalive =? 0) && (noDelay =? 0)) in
  if! negb allAccepted then LwipSocketTcpStream_ReportOptionRefused end!.

Definition LwipSocketTcpStream_ResolveConnectTimeoutMicros : op Z :=
  let! boundedMs := TcpStream_ResolveConnectTimeoutMs in
  st_ret (boundedMs * MICROSECONDS_PER_MILLISECOND).
Definition LwipSocketTcpStream_WaitTimedOut : Z -> bool := TcpStream_WaitTimedOut.
Definition LwipSocketTcpStream_ReadSocketError : Z -> op (bool * Z) := TcpStream_ReadSocketError lwip_socket.
Definition LwipSocketTcpStream_ReadDeferredConnectError : op bool := TcpStream_ReadDeferredConnectError lwip_socket.
Definition LwipSocketTcpStream_ReportUnfinishedWait : Z -> Z -> op unit := TcpStream_ReportUnfinishedWait lwip_socket.
Definition LwipSocketTcpStream_WaitForConnectCompletion (timeoutMicros : Z) : op bool :=
  TcpStream_WaitForConnectCompletion lwip_socket (Z.quot timeoutMicros 1000000) (Z.rem timeoutMicros 1000000).
Definition LwipSocketTcpStream_Connect (sin : SolidSyslogAddress) : op bool :=
  let! answer := call_connect sin in
  let connectErrno := error_of lwip_socket answer in
  if connectErrno =? EINPROGRESS codes then
    let! timeoutMicros := LwipSocketTcpStream_ResolveConnectTimeoutMicros in
    finish_connect lwip_socket (LwipSocketTcpStream_WaitForConnectCompletion timeoutMicros)
  else if LwipSocketTcpStream_IsRemoteConnectError connectErrno || (fst answer <? 0) then
    refuse_connect lwip_socket connectErrno ;;;
    st_ret (fst answer =? 0)
  else st_ret (fst answer =? 0).
Definition LwipSocketTcpStream_ConnectOrCloseOnFailure (sin : SolidSyslogAddress) : op bool :=
  let! connected := LwipSocketTcpStream_Connect sin in
  (if connected : bool then
    let! fd := tcp_get tcp_Fd in LwipSocketTcpStream_ApplySocketOptions fd
  else LwipSocketTcpStream_CloseSocket) ;;;
  st_ret connected.
(** [TakeSocketAndConnect] but for the latch. *)
Definition LwipSocketTcpStream_attempt (sin : SolidSyslogAddress) : op bool :=
  LwipSocketTcpStream_TakeSocket ;;;
  let! fd := tcp_get tcp_Fd in
  if LwipSocketTcpStream_IsSocketValid fd then LwipSocketTcpStream_ConnectOrCloseOnFailure sin else st_ret false.
Definition LwipSocketTcpStream_TakeSocketAndConnect : SolidSyslogAddress -> op bool := take_and_connect LwipSocketTcpStream_attempt.
Definition LwipSocketTcpStream_Open : SolidSyslogAddress -> op bool := TcpStream_Open lwip_socket LwipSocketTcpStream_TakeSocketAndConnect.

Definition LwipSocketTcpStream_PeerIsStillThere : op bool := TcpStream_PeerIsStillThere lwip_socket.
Definition LwipSocketTcpStream_WroteAllBytes : Z -> Z -> bool := TcpStream_WroteAllBytes.
Definition LwipSocketTcpStream_Send : bytes -> Z -> op bool := TcpStream_Send lwip_socket (fun _ => LwipSocketTcpStream_PeerIsStillThere).
Definition LwipSocketTcpStream_Read : bytes -> Z -> op (Z * bytes) := TcpStream_Read lwip_socket.
Definition LwipSocketTcpStream_Close : op unit := LwipSocketTcpStream_CloseSocket.
Definition LwipSocketTcpStream_Version : op Z := TcpStream_Version.
Definition SolidSyslogLwipSocketTcpStream_Cleanup : op unit := TcpStream_Cleanup lwip_socket.
Definition LwipSocketTcpStream_vtable : SolidSyslogStream (tcp_world E) := TcpStream_vtable lwip_socket LwipSocketTcpStream_Open LwipSocketTcpStream_Send.
End lwip_socket.

(** * VxWorks *)

Definition VX_OK : Z := 0.
Definition VX_ERROR : Z := -1.

Section vxworks.
Context {E : Type} `{ErrorTap E} `{Sockets E} (codes : socket_codes).
Abbreviation op := (@tcp_op E).

Definition VxWorks64TcpStream_IsSocketValid (fd : Z) : bool := 0 <=? fd.
Definition VxWorks64TcpStream_WouldBlock (err : Z) : bool := (err =? EWOULDBLOCK codes) || (err =? EAGAIN codes).
Definition VxWorks64TcpStream_IsRemoteConnectError (connectErrno : Z) : bool := (connectErrno =? ECONNREFUSED codes) || (connectErrno =? ETIMEDOUT codes).
Definition VxWorks64TcpStream_FitsTheStack (size : Z) : bool := size <=? INT_MAX.
Definition VxWorks64TcpStream_ClampToTheStack (size : Z) : Z := if VxWorks64TcpStream_FitsTheStack size then size else INT_MAX.
Definition vxworks : socket_dialect := {|
  sd_Source := SolidSyslogVxWorks64TcpStreamErrorSource;
  sd_InvalidSocket := -1;
  sd_IsSocketValid := VxWorks64TcpStream_IsSocketValid;
  sd_Failed := fun result => result =? VX_ERROR;
  sd_Answered := fun result => result =? VX_OK;
  sd_WouldBlock := VxWorks64TcpStream_WouldBlock;
  sd_IsRemoteConnectError := VxWorks64TcpStream_IsRemoteConnectError;
  sd_PeekFlags := Z.lor (MSG_PEEK codes) (MSG_DONTWAIT codes);
  sd_SendFlags := MSG_DONTWAIT codes;
  sd_ReadFlags := MSG_DONTWAIT codes;
  sd_SendLength := fun size => size;
  sd_ReadLength := VxWorks64TcpStream_ClampToTheStack
|}.
Definition VxWorks64TcpStream_Report : Z -> Z -> Z -> op unit := TcpStream_Report vxworks.
Definition VxWorks64TcpStream_ReportConnectFailure : Z -> Z -> op unit := TcpStream_ReportConnectFailure vxworks.
Definition VxWorks64TcpStream_ReportConnectFailureWithErrno : Z -> Z -> Z -> op unit := TcpStream_ReportConnectFailureWithErrno vxworks.
Definition VxWorks64TcpStream_NullConnectTimeoutGetter : @SolidSyslogTcpConnectTimeoutFunction E := TcpStream_NullConnectTimeoutGetter.
Definition VxWorks64TcpStream_ConfigProvidesGetter : option (tcp_config E) -> bool := TcpStream_ConfigProvidesGetter.
Definition SolidSyslogVxWorks64TcpStream_Initialise : option (tcp_config E) -> tcp_stream E := TcpStream_Initialise vxworks.
Definition VxWorks64TcpStream_CloseSocket : op unit := TcpStream_CloseSocket vxworks.

(** Seconds and microseconds. *)
Definition VxWorks64TcpStream_ResolveConnectTimeout : op (Z * Z) :=
  let! ms := TcpStream_ResolveConnectTimeoutMs in
  st_ret (ms / MILLISECONDS_PER_SECOND, (ms mod MILLISECONDS_PER_SECOND) * MICROSECONDS_PER_MILLISECOND).
Definition VxWorks64TcpStream_Connect (sin : SolidSyslogAddress) : op bool :=
  let! timeout := VxWorks64TcpStream_ResolveConnectTimeout in
  let! fd := tcp_get tcp_Fd in
  let! answer := tcp_call (sys_connectWithTimeout fd sin (fst timeout) (snd timeout)) (fun _ => TimedConnect fd (fst timeout) (snd timeout)) in
  let connectErrno := error_of vxworks answer in
  let connected := fst answer =? VX_OK in
  (if connectErrno =? EINPROGRESS codes then
    VxWorks64TcpStream_ReportConnectFailureWithErrno SOLIDSYSLOG_STREAM_CONNECT_REMOTE_SEVERITY SOLIDSYSLOG_TCP_STREAM_ERROR_CONNECT_TIMED_OUT connectErrno
  else if! VxWorks64TcpStream_IsRemoteConnectError connectErrno || negb connected then refuse_connect vxworks connectErrno end!) ;;;
  st_ret connected.
Definition VxWorks64TcpStream_ReportOptionRefused : op unit := TcpStream_ReportOptionRefused vxworks.
Definition VxWorks64TcpStream_ApplySocketOptions (fd : Z) : op unit :=
  let! noDelay := set_option fd (IPPROTO_TCP codes) (TCP_NODELAY codes) 1 in
  let! keepalive := set_option fd (SOL_SOCKET codes) (SO_KEEPALIVE codes) 1 in
  let allAccepted := (keepalive =? VX_OK) && (noDelay =? VX_OK) in
  if! negb allAccepted then VxWorks64TcpStream_ReportOptionRefused end!.
Definition VxWorks64TcpStream_ConnectOrCloseOnFailure (sin : SolidSyslogAddress) : op bool :=
  let! connected := VxWorks64TcpStream_Connect sin in
  (if connected : bool then
    let! fd := tcp_get tcp_Fd in VxWorks64TcpStream_ApplySocketOptions fd
  else VxWorks64TcpStream_CloseSocket) ;;;
  st_ret connected.
(** [TakeSocketAndConnect] but for the latch. *)
Definition VxWorks64TcpStream_attempt (sin : SolidSyslogAddress) : op bool :=
  let! taken := take_socket vxworks in
  if taken : bool then VxWorks64TcpStream_ConnectOrCloseOnFailure sin else st_ret false.
Definition VxWorks64TcpStream_TakeSocketAndConnect : SolidSyslogAddress -> op bool := take_and_connect VxWorks64TcpStream_attempt.
Definition VxWorks64TcpStream_Open : SolidSyslogAddress -> op bool := TcpStream_Open vxworks VxWorks64TcpStream_TakeSocketAndConnect.

Definition VxWorks64TcpStream_PeerIsStillThere : op bool := TcpStream_PeerIsStillThere vxworks.
Definition VxWorks64TcpStream_WroteAllBytes : Z -> Z -> bool := TcpStream_WroteAllBytes.
Definition VxWorks64TcpStream_Send : bytes -> Z -> op bool :=
  TcpStream_Send vxworks (fun size => if VxWorks64TcpStream_FitsTheStack size then VxWorks64TcpStream_PeerIsStillThere else st_ret false).
Definition VxWorks64TcpStream_Read : bytes -> Z -> op (Z * bytes) := TcpStream_Read vxworks.
Definition VxWorks64TcpStream_Close : op unit := VxWorks64TcpStream_CloseSocket.
Definition VxWorks64TcpStream_Version : op Z := TcpStream_Version.
Definition SolidSyslogVxWorks64TcpStream_Cleanup : op unit := TcpStream_Cleanup vxworks.
Definition VxWorks64TcpStream_vtable : SolidSyslogStream (tcp_world E) := TcpStream_vtable vxworks VxWorks64TcpStream_Open VxWorks64TcpStream_Send.
End vxworks.

(** * What a trace must be *)

(** A socket that is held: whether its calls return at once, and whether it is a
    connection. *)
Record held := mkHeld { h_Fd : Z; h_NonBlocking : bool; h_Live : bool }.
Record tcp_seen := mkSeen { seen_Socket : option held; seen_Reports : list SolidSyslogErrorEvent; seen_Wires : list bytes }.
Definition nothing_seen : tcp_seen := mkSeen None [] [].
Fixpoint extend_last (wires : list bytes) (data : bytes) : list bytes :=
  match wires with
  | [] => []
  | [wire] => [wire ++ data]
  | wire :: wires => wire :: extend_last wires data
  end.

Section observer.
Context (codes : socket_codes) (D : socket_dialect).
Definition includes (flags flag : Z) : bool := Z.land flags flag =? flag.
Definition never_blocks (h : held) (flags : Z) : bool := h_NonBlocking h || includes flags (MSG_DONTWAIT codes).
(** A wait that [SOLIDSYSLOG_TCP_CONNECT_TIMEOUT_MS_MAX] bounds, in a proper [timeval]. *)
Definition bounded_wait (seconds micros : Z) : bool :=
  (0 <=? seconds) && (0 <=? micros) && (micros <? 1000000) &&
  (seconds * 1000000 + micros <=? SOLIDSYSLOG_TCP_CONNECT_TIMEOUT_MS_MAX * 1000).

(** The protocol of the socket library, as a monitor of the trace.  A socket is taken
    only when none is held and closed only while it is held; every call names the one
    that is held, but a receive on a closed stream, which names none; a connect, a
    wait, a send or a receive is of a socket that does not block, or is told not to,
    or has a bound; data goes only on a connection.  Besides, what was reported and
    what each connection took. *)
Definition observe (s : tcp_seen) (e : tcp_event) : option tcp_seen :=
  let '(mkSeen socket reports wires) := s in
  match e, socket with
  | TcpReported event, _ => Some (mkSeen socket (reports ++ [event]) wires)
  | SocketTaken fd, None => Some (mkSeen (if sd_IsSocketValid D fd then Some (mkHeld fd false false) else None) reports wires)
  | ReceivedOn fd _, None => if sd_IsSocketValid D fd then None else Some s
  | OptionSet fd _ _ _, Some h | FlagsRead fd, Some h | ErrorAsked fd, Some h => if fd =? h_Fd h then Some s else None
  | NonBlockingSet fd result, Some h =>
      if fd =? h_Fd h then Some (mkSeen (Some (mkHeld fd (h_NonBlocking h || negb (result =? -1)) (h_Live h))) reports wires) else None
  | ConnectCalled fd _, Some h => if (fd =? h_Fd h) && h_NonBlocking h && negb (h_Live h) then Some s else None
  | TimedConnect fd seconds micros, Some h => if (fd =? h_Fd h) && bounded_wait seconds micros && negb (h_Live h) then Some s else None
  | Waited fd seconds micros, Some h => if (fd =? h_Fd h) && bounded_wait seconds micros && h_NonBlocking h && negb (h_Live h) then Some s else None
  | Established, Some h => if h_Live h then None else Some (mkSeen (Some (mkHeld (h_Fd h) (h_NonBlocking h) true)) reports (wires ++ [[]]))
  | SentOn fd data flags sent, Some h =>
      if (fd =? h_Fd h) && never_blocks h flags && h_Live h then Some (mkSeen socket reports (extend_last wires (takeZ sent data))) else None
  | ReceivedOn fd flags, Some h => if (fd =? h_Fd h) && never_blocks h flags && h_Live h then Some s else None
  | SocketClosed fd, Some h => if fd =? h_Fd h then Some (mkSeen None reports wires) else None
  | _, _ => None
  end.
Definition observed (es : list tcp_event) : option tcp_seen :=
  fold_left (fun s e => match s with Some s => observe s e | None => None end) es (Some nothing_seen).
Lemma observed_snoc es e : observed (es ++ [e]) = match observed es with Some s => observe s e | None => None end.
Proof. unfold observed. by rewrite fold_left_app. Qed.

(** A stream agrees with what is seen: it holds what is held, a connection when its
    descriptor is one. *)
Definition tcp_agrees {E} (self : tcp_stream E) (s : tcp_seen) : Prop :=
  match seen_Socket s with
  | None => sd_IsSocketValid D (tcp_Fd self) = false
  | Some h => h_Fd h = tcp_Fd self /\ sd_IsSocketValid D (tcp_Fd self) = true /\ h_Live h = true /\
      (never_blocks h (sd_PeekFlags D) && never_blocks h (sd_SendFlags D) && never_blocks h (sd_ReadFlags D) = true) /\
      exists before conn, seen_Wires s = before ++ [conn]
  end.
Definition tcp_ok {E} (w : tcp_world E) : Prop :=
  tcp_Base (tw_Self w) = OwnStreamVtable /\ exists s, observed (tw_Trace w) = Some s /\ tcp_agrees (tw_Self w) s.
(** The world as the contract sees it. *)
Definition tcp_seen_of {E} (w : tcp_world E) : tcp_seen := default nothing_seen (observed (tw_Trace w)).
Definition latch_of (h : SolidSyslogStreamOpenHealth) : option Z := if oh_Failing h then Some (oh_FailedDetail h) else None.
Definition contract_view {E} (self : tcp_stream E) (s : tcp_seen) : stream_state :=
  mkStreamState (sd_IsSocketValid D (tcp_Fd self)) (latch_of (tcp_OpenHealth self)) (seen_Wires s).
Definition tcp_state {E} (w : tcp_world E) : stream_state := contract_view (tw_Self w) (tcp_seen_of w).
Definition tcp_reports {E} (w : tcp_world E) : list SolidSyslogErrorEvent := seen_Reports (tcp_seen_of w).
End observer.

(** The reports of a socket stream. *)
Definition tcp_kind (source : SolidSyslogErrorSource) : stream_kind := {|
  sk_Source := source;
  sk_AlreadyOpen := SOLIDSYSLOG_TCP_STREAM_ERROR_ALREADY_OPEN;
  sk_FailedCategory := fun category => category =? SOLIDSYSLOG_CAT_STREAM_CONNECT_FAILED;
  sk_Warning := fun event => bool_decide (ev_Category event = SOLIDSYSLOG_CAT_STREAM_OPTION_REFUSED)
|}.

(** * What is relied on *)

(** The documented results of the calls: a connect answers 0 or -1, a receive no more
    than it was asked for, and one on no descriptor fails, and not as a would-block;
    error numbers are not 0. *)
Record sockets_ok {E} `{Sockets E} (codes : socket_codes) (D : socket_dialect) : Prop := {
  connect_answers : forall fd addr e, fst (fst (sys_connect fd addr e)) = 0 \/ fst (fst (sys_connect fd addr e)) = -1;
  timed_connect_answers : forall fd addr seconds micros e,
    fst (fst (sys_connectWithTimeout fd addr seconds micros e)) = 0 \/ fst (fst (sys_connectWithTimeout fd addr seconds micros e)) = -1;
  recv_answers : forall fd memory len flags e, fst (fst (fst (sys_recv fd memory len flags e))) <= Z.max 0 len;
  recv_on_none : forall fd memory len flags e, sd_IsSocketValid D fd = false ->
    fst (fst (fst (sys_recv fd memory len flags e))) = -1 /\ sd_WouldBlock D (snd (fst (fst (sys_recv fd memory len flags e)))) = false;
  codes_ok : EINPROGRESS codes <> 0 /\ ECONNREFUSED codes <> 0 /\ ETIMEDOUT codes <> 0 /\ WSAECONNREFUSED codes <> 0 /\ WSAETIMEDOUT codes <> 0
}.
Record dialect_ok (D : socket_dialect) : Prop := {
  no_socket_is_none : sd_IsSocketValid D (sd_InvalidSocket D) = false;
  error_is_failure : sd_Failed D (-1) = true;
  success_is_none : sd_Failed D 0 = false;
  read_length_fits : forall size, 0 <= size -> Z.max 0 (sd_ReadLength D size) <= size
}.

(** * Running an operation in what is seen *)

Lemma extend_last_snoc before conn data : extend_last (before ++ [conn]) data = before ++ [conn ++ data].
Proof. induction before as [| b before IH]; [done |]. cbn. rewrite IH. by destruct before. Qed.

Section leads.
Context {E : Type} `{HT : ErrorTap E} `{HS : Sockets E} (codes : socket_codes) (D : socket_dialect).
Context (SO : sockets_ok codes D) (DO : dialect_ok D).
Abbreviation op := (@tcp_op E).
Implicit Types (w : tcp_world E) (self : tcp_stream E) (s : tcp_seen).

Definition stands self s w : Prop := tw_Self w = self /\ observed codes D (tw_Trace w) = Some s.
(** An operation whose calls keep the protocol ends in a stream, and in what is then
    seen, that [Q] allows, whatever the library answered. *)
Definition leads {A} (m : op A) self s (Q : A -> tcp_stream E -> tcp_seen -> Prop) : Prop :=
  forall w, stands self s w -> wp m (fun a w' => exists self' s', stands self' s' w' /\ Q a self' s') w.

Lemma leads_bind {A B} (m : op A) (k : A -> op B) self s Q :
  leads m self s (fun a self' s' => leads (k a) self' s' Q) -> leads (let! a := m in k a) self s Q.
Proof using. intros Hm w Hw. apply wp_bind. eapply wp_mono; [by apply Hm |]. intros a w' (self' & s' & Hw' & Hk). by apply Hk. Qed.
Lemma leads_ret {A} (a : A) self s (Q : A -> tcp_stream E -> tcp_seen -> Prop) : Q a self s -> leads (st_ret a) self s Q.
Proof using. intros HQ w Hw. apply wp_ret. eauto. Qed.
Lemma leads_mono {A} (m : op A) self s (Q Q' : A -> tcp_stream E -> tcp_seen -> Prop) :
  leads m self s Q -> (forall a self' s', Q a self' s' -> Q' a self' s') -> leads m self s Q'.
Proof using. intros Hm HQ w Hw. eapply wp_mono; [by apply Hm |]. intros a w' (self' & s' & Hw' & Ha). eauto 6. Qed.
Lemma leads_get {A} (f : tcp_stream E -> A) self s Q : Q (f self) self s -> leads (tcp_get f) self s Q.
Proof using. intros HQ w Hw. apply wp_get. destruct Hw as [<- Hs]. exists (tw_Self w), s. by split. Qed.
Lemma leads_set (f : tcp_stream E -> tcp_stream E) self s (Q : unit -> tcp_stream E -> tcp_seen -> Prop) :
  Q tt (f self) s -> leads (tcp_set f) self s Q.
Proof using. intros HQ w [<- Hs]. apply wp_mod. exists (f (tw_Self w)), s. by split. Qed.
Lemma leads_env {A} (m : ST E A) (P : A -> Prop) self s (Q : A -> tcp_stream E -> tcp_seen -> Prop) :
  (forall e, P (fst (m e))) -> (forall a, P a -> Q a self s) -> leads (tcp_env m) self s Q.
Proof using.
  intros HP HQ w Hw. apply wp_zoom. unfold wp. exists self, s. split; [by destruct Hw; split | apply HQ, HP].
Qed.
Lemma leads_happens e self s s' (Q : unit -> tcp_stream E -> tcp_seen -> Prop) :
  observe codes D s e = Some s' -> Q tt self s' -> leads (tcp_happens e) self s Q.
Proof using.
  intros Ho HQ w [<- Hs]. apply wp_mod. exists (tw_Self w), s'. split; [| done]. split; [done |].
  change (observed codes D (tw_Trace w ++ [e]) = Some s'). by rewrite observed_snoc, Hs.
Qed.
(** A call with documented results: what it is seen as keeps the protocol. *)
Lemma leads_call {A} (m : ST E A) (said : A -> tcp_event) (P : A -> Prop) self s (Q : A -> tcp_stream E -> tcp_seen -> Prop) :
  (forall e, P (fst (m e))) -> (forall a, P a -> exists s', observe codes D s (said a) = Some s' /\ Q a self s') ->
  leads (tcp_call m said) self s Q.
Proof using.
  intros HP HQ. apply leads_bind, (leads_env m P); [done |]. intros a Ha. destruct (HQ a Ha) as (s' & Ho & Hq).
  apply leads_bind. by eapply leads_happens, leads_ret.
Qed.
Lemma leads_any_call {A} (m : ST E A) (said : A -> tcp_event) self s (Q : A -> tcp_stream E -> tcp_seen -> Prop) :
  (forall a, exists s', observe codes D s (said a) = Some s' /\ Q a self s') -> leads (tcp_call m said) self s Q.
Proof using. intros HQ. by apply (leads_call m said (fun _ => True)). Qed.
End leads.

(** One step of an operation, on a stream and a view that are constructor terms. *)
Ltac lead_step :=
  lazymatch goal with
  | |- leads _ _ (st_bind _ _) _ _ _ => apply leads_bind
  | |- leads _ _ (st_ret _) _ _ _ => apply leads_ret
  | |- leads _ _ (tcp_get _) _ _ _ => apply leads_get; cbn [tcp_Base tcp_GetConnectTimeoutMs tcp_ConnectTimeoutContext tcp_Fd tcp_OpenHealth]
  | |- leads _ _ (tcp_set _) _ _ _ => apply leads_set; cbn [set_field tcp_Base tcp_GetConnectTimeoutMs tcp_ConnectTimeoutContext tcp_Fd tcp_OpenHealth]
  end.
Ltac leads_on := cbv beta iota; repeat (lead_step; cbv beta iota).

Section common_steps.
Context {E : Type} `{HT : ErrorTap E} `{HS : Sockets E} (codes : socket_codes) (D : socket_dialect).
Context (SO : sockets_ok codes D) (DO : dialect_ok D).
Abbreviation op := (@tcp_op E).
Abbreviation leads := (leads codes D).
Context (base : stream_vtable) (getter : @SolidSyslogTcpConnectTimeoutFunction E) (context : option Z).
Abbreviation stream := (mkTcpStream base getter context).

(** A fault of Open: its event, and what the latch makes of it. *)
Definition connect_fault (severity detail errno : Z) : SolidSyslogErrorEvent :=
  mkErrorEvent severity SOLIDSYSLOG_CAT_STREAM_CONNECT_FAILED (negb (errno =? 0)) (Some (sd_Source D)) detail errno.
Definition latched (h : SolidSyslogStreamOpenHealth) (detail : Z) : SolidSyslogStreamOpenHealth := snd (StreamOpenHealth_Admit h detail).
Definition fault_reports (h : SolidSyslogStreamOpenHealth) (severity detail errno : Z) : list SolidSyslogErrorEvent :=
  if fst (StreamOpenHealth_Admit h detail) then [connect_fault severity detail errno] else [].

Lemma health_report_leads detail m event fd h k rs ws Q :
  (forall e, fst (m h e) = latched h detail) ->
  Q tt (stream fd (latched h detail)) (mkSeen k (rs ++ if fst (StreamOpenHealth_Admit h detail) then [event] else []) ws) ->
  leads (health_report detail m event) (stream fd h) (mkSeen k rs ws) Q.
Proof using.
  intros Hm HQ. unfold health_report. leads_on. apply (leads_env _ _ _ (fun after => after = latched h detail)); [exact Hm |]. intros _ ->. leads_on.
  destruct (fst (StreamOpenHealth_Admit h detail)).
  - by eapply leads_happens.
  - rewrite app_nil_r in HQ. by leads_on.
Qed.
Lemma fault_leads severity detail errno fd h k rs ws Q :
  Q tt (stream fd (latched h detail)) (mkSeen k (rs ++ fault_reports h severity detail errno) ws) ->
  leads (TcpStream_ReportConnectFailureWithErrno D severity detail errno) (stream fd h) (mkSeen k rs ws) Q.
Proof using.
  intros HQ. unfold TcpStream_ReportConnectFailureWithErrno, TcpStream_ReportConnectFailure. unfold fault_reports, connect_fault in HQ.
  destruct (Z.eqb_spec errno 0) as [-> | Hne]; cbn [negb] in *; (apply health_report_leads; [| exact HQ]); intros e;
    unfold SolidSyslogStreamOpenHealth_ReportFailure, SolidSyslogStreamOpenHealth_ReportFailureWithNativeCode, latched;
    by destruct (StreamOpenHealth_Admit h detail) as [[] h'].
Qed.
Lemma Report_leads severity category code fd h k rs ws Q :
  Q tt (stream fd h) (mkSeen k (rs ++ [mkErrorEvent severity category false (Some (sd_Source D)) code 0]) ws) ->
  leads (TcpStream_Report D severity category code) (stream fd h) (mkSeen k rs ws) Q.
Proof using. intros HQ. unfold TcpStream_Report. leads_on. apply (leads_env _ _ _ (fun _ => True)); [done |]. intros _ _. leads_on. by eapply leads_happens. Qed.

Lemma drop_socket_leads fd h nb live rs ws Q :
  Q tt (stream (sd_InvalidSocket D) h) (mkSeen None rs ws) ->
  leads (drop_socket D) (stream fd h) (mkSeen (Some (mkHeld fd nb live)) rs ws) Q.
Proof using.
  intros HQ. unfold drop_socket. leads_on. apply leads_any_call. intros _. cbn [observe h_Fd]. rewrite Z.eqb_refl.
  eexists. split; [done |]. by leads_on.
Qed.
Lemma CloseSocket_leads fd h k rs ws Q :
  match k with Some held => h_Fd held = fd /\ sd_IsSocketValid D fd = true | None => sd_IsSocketValid D fd = false end ->
  (forall fd', sd_IsSocketValid D fd' = false -> Q tt (stream fd' h) (mkSeen None rs ws)) ->
  leads (TcpStream_CloseSocket D) (stream fd h) (mkSeen k rs ws) Q.
Proof using DO.
  intros Hk HQ. unfold TcpStream_CloseSocket. leads_on. destruct k as [[fd' nb live] |].
  - destruct Hk as [Hfd Hv]. cbn in Hfd. subst fd'. rewrite Hv. by apply drop_socket_leads, HQ, no_socket_is_none.
  - rewrite Hk. leads_on. by apply HQ.
Qed.
Lemma take_socket_leads fd h rs ws Q :
  sd_IsSocketValid D fd = false ->
  (forall fd', sd_IsSocketValid D fd' = true -> Q true (stream fd' h) (mkSeen (Some (mkHeld fd' false false)) rs ws)) ->
  (forall fd' errno, sd_IsSocketValid D fd' = false ->
    Q false (stream fd' (latched h SOLIDSYSLOG_TCP_STREAM_ERROR_ENDPOINT_UNAVAILABLE))
      (mkSeen None (rs ++ fault_reports h SOLIDSYSLOG_STREAM_CONNECT_LOCAL_SEVERITY SOLIDSYSLOG_TCP_STREAM_ERROR_ENDPOINT_UNAVAILABLE errno) ws)) ->
  leads (take_socket D) (stream fd h) (mkSeen None rs ws) Q.
Proof using.
  intros Hfd Ht Hf. unfold take_socket. leads_on. apply leads_any_call. intros [fd' errno]. cbn [observe fst snd].
  eexists. split; [done |]. leads_on. destruct (sd_IsSocketValid D fd') eqn:Ev; leads_on.
  - by apply Ht.
  - by apply fault_leads, leads_ret, Hf.
Qed.
Lemma set_option_leads fd level option value h nb live rs ws (Q : Z -> tcp_stream E -> tcp_seen -> Prop) :
  (forall rc, Q rc (stream fd h) (mkSeen (Some (mkHeld fd nb live)) rs ws)) ->
  leads (set_option fd level option value) (stream fd h) (mkSeen (Some (mkHeld fd nb live)) rs ws) Q.
Proof using. intros HQ. apply leads_any_call. intros rc. cbn [observe h_Fd]. rewrite Z.eqb_refl. eauto. Qed.
Lemma ResolveConnectTimeoutMs_leads fd h k rs ws (Q : Z -> tcp_stream E -> tcp_seen -> Prop) :
  (forall ms, 0 <= ms <= SOLIDSYSLOG_TCP_CONNECT_TIMEOUT_MS_MAX -> Q ms (stream fd h) (mkSeen k rs ws)) ->
  leads TcpStream_ResolveConnectTimeoutMs (stream fd h) (mkSeen k rs ws) Q.
Proof using.
  intros HQ. unfold TcpStream_ResolveConnectTimeoutMs. leads_on. apply (leads_env _ _ _ (fun _ => True)); [done |]. intros ms _. leads_on.
  pose proof (Z.mod_pos_bound ms (2 ^ 32)). apply HQ. unfold u32, SOLIDSYSLOG_TCP_CONNECT_TIMEOUT_MS_MAX in *. destruct (Z.ltb_spec 300000 (ms mod 2 ^ 32)); lia.
Qed.

(** ** The wait *)

(** A connect that is over: made, or failed with one fault, the socket still held. *)
Definition connect_over h nb rs ws (Q : bool -> tcp_stream E -> tcp_seen -> Prop) fd : Prop :=
  Q true (stream fd h) (mkSeen (Some (mkHeld fd nb false)) rs ws) /\
  forall severity detail errno,
    Q false (stream fd (latched h detail)) (mkSeen (Some (mkHeld fd nb false)) (rs ++ fault_reports h severity detail errno) ws).
Lemma ReadSocketError_leads fd h nb live rs ws (Q : bool * Z -> tcp_stream E -> tcp_seen -> Prop) :
  (forall r, Q r (stream fd h) (mkSeen (Some (mkHeld fd nb live)) rs ws)) ->
  leads (TcpStream_ReadSocketError D fd) (stream fd h) (mkSeen (Some (mkHeld fd nb live)) rs ws) Q.
Proof using.
  intros HQ. unfold TcpStream_ReadSocketError. leads_on. apply leads_any_call. intros [[rc e] v]. cbn [observe h_Fd]. rewrite Z.eqb_refl.
  eexists. split; [done |]. by leads_on.
Qed.
Lemma ReadDeferredConnectError_leads fd h nb rs ws Q :
  connect_over h nb rs ws Q fd -> leads (TcpStream_ReadDeferredConnectError D) (stream fd h) (mkSeen (Some (mkHeld fd nb false)) rs ws) Q.
Proof using.
  intros [Ht Hf]. unfold TcpStream_ReadDeferredConnectError. leads_on. apply ReadSocketError_leads. intros [a c]. leads_on. cbn [fst snd].
  destruct (a && (c =? 0)); cbn [negb]; leads_on; [done |]. by apply fault_leads, leads_ret, Hf.
Qed.
Lemma finish_connect_leads seconds micros fd h rs ws Q :
  bounded_wait seconds micros = true -> connect_over h true rs ws Q fd ->
  leads (finish_connect D (TcpStream_WaitForConnectCompletion D seconds micros)) (stream fd h) (mkSeen (Some (mkHeld fd true false)) rs ws) Q.
Proof using.
  intros Hb Ho. pose proof Ho as [Ht Hf]. unfold finish_connect, TcpStream_WaitForConnectCompletion. leads_on. apply leads_any_call. intros [[[rc e] wr] ex].
  cbn [observe h_Fd h_NonBlocking h_Live]. rewrite Z.eqb_refl, Hb. eexists. split; [done |]. leads_on.
  destruct ((0 <? rc) && wr && negb ex); cbn [negb]; leads_on; [by apply ReadDeferredConnectError_leads |].
  unfold TcpStream_ReportUnfinishedWait. destruct (TcpStream_WaitTimedOut rc); leads_on.
  - apply (fault_leads _ _ 0). leads_on. apply Hf.
  - destruct (0 <? rc); leads_on; [apply ReadSocketError_leads; intros r; leads_on |]; apply fault_leads; leads_on; apply Hf.
Qed.
Lemma refuse_connect_leads errno fd h nb rs ws (Q : unit -> tcp_stream E -> tcp_seen -> Prop) :
  (forall severity detail, Q tt (stream fd (latched h detail)) (mkSeen (Some (mkHeld fd nb false)) (rs ++ fault_reports h severity detail errno) ws)) ->
  leads (refuse_connect D errno) (stream fd h) (mkSeen (Some (mkHeld fd nb false)) rs ws) Q.
Proof using. intros HQ. unfold refuse_connect. destruct (sd_IsRemoteConnectError D errno); apply fault_leads, HQ. Qed.
Lemma call_connect_leads addr fd h rs ws (Q : Z * Z -> tcp_stream E -> tcp_seen -> Prop) :
  (forall rc errno, rc = 0 \/ rc = -1 -> Q (rc, errno) (stream fd h) (mkSeen (Some (mkHeld fd true false)) rs ws)) ->
  leads (call_connect addr) (stream fd h) (mkSeen (Some (mkHeld fd true false)) rs ws) Q.
Proof using SO.
  intros HQ. unfold call_connect. leads_on. eapply (leads_call _ _ _ _ (fun a => fst a = 0 \/ fst a = -1)); [intros e; by apply (connect_answers codes D SO) |].
  intros [rc errno] Hrc. cbn [observe h_Fd h_NonBlocking h_Live fst]. rewrite Z.eqb_refl. eexists. split; [done |]. by apply HQ.
Qed.
End common_steps.

(** * The contract, for any way to take and connect a socket *)

Section contract.
Context {E : Type} `{HT : ErrorTap E} `{HS : Sockets E} (codes : socket_codes) (D : socket_dialect).
Context (SO : sockets_ok codes D) (DO : dialect_ok D).
Abbreviation op := (@tcp_op E).
Abbreviation leads := (leads codes D).
Abbreviation kind := (tcp_kind (sd_Source D)).
Implicit Types (self : tcp_stream E) (s : tcp_seen).

(** What an attempt to take and connect a socket leaves: a held socket whose calls will
    not block, or none and one fault. *)
Definition ready (nb : bool) : Prop :=
  let h := mkHeld 0 nb true in
  never_blocks codes h (sd_PeekFlags D) && never_blocks codes h (sd_SendFlags D) && never_blocks codes h (sd_ReadFlags D) = true.
Definition attempt_over base getter context (h : SolidSyslogStreamOpenHealth) rs ws (Q : bool -> tcp_stream E -> tcp_seen -> Prop) : Prop :=
  (forall fd nb warnings, sd_IsSocketValid D fd = true -> ready nb -> Forall (fun e => sk_Warning kind e = true) warnings ->
    Q true (mkTcpStream base getter context fd h) (mkSeen (Some (mkHeld fd nb false)) (rs ++ warnings) ws)) /\
  (forall fd severity detail errno, sd_IsSocketValid D fd = false ->
    Q false (mkTcpStream base getter context fd (latched h detail)) (mkSeen None (rs ++ fault_reports D h severity detail errno) ws)).
Definition attempts (F : SolidSyslogAddress -> op bool) : Prop :=
  forall addr base getter context fd h rs ws Q, sd_IsSocketValid D fd = false -> attempt_over base getter context h rs ws Q ->
  leads (F addr) (mkTcpStream base getter context fd h) (mkSeen None rs ws) Q.

(** The step of the contract a stream and its view make. *)
Definition contracted (self : tcp_stream E) (s : tcp_seen) (step : stream_state -> list SolidSyslogErrorEvent -> stream_state -> Prop)
    (self' : tcp_stream E) (s' : tcp_seen) : Prop :=
  tcp_Base self' = tcp_Base self /\ tcp_agrees codes D self' s' /\
  exists rs, step (contract_view D self s) rs (contract_view D self' s') /\ seen_Reports s' = seen_Reports s ++ rs.

Lemma latch_latched h detail : latch_of (latched h detail) = Some detail.
Proof using.
  unfold latched, StreamOpenHealth_Admit, latch_of. destruct h as [[] d]; cbn; [| done]. by destruct (Z.eqb_spec d detail) as [-> |].
Qed.
Lemma Admit_news h detail : fst (StreamOpenHealth_Admit h detail) = negb (bool_decide (latch_of h = Some detail)).
Proof using.
  unfold StreamOpenHealth_Admit, latch_of. destruct h as [[] d]; cbn [oh_Failing oh_FailedDetail fst andb]; [| by rewrite bool_decide_false].
  f_equal. apply Bool.eq_iff_eq_true. rewrite bool_decide_eq_true, Z.eqb_eq. split; [by intros -> | by intros [=]].
Qed.
Lemma ReportFailure_latches h source severity category detail native (e : E) :
  fst (SolidSyslogStreamOpenHealth_ReportFailure h source severity category detail e) = latched h detail /\
  fst (SolidSyslogStreamOpenHealth_ReportFailureWithNativeCode h source severity category detail native e) = latched h detail.
Proof using.
  unfold SolidSyslogStreamOpenHealth_ReportFailure, SolidSyslogStreamOpenHealth_ReportFailureWithNativeCode, latched. by destruct (StreamOpenHealth_Admit h detail) as [[] h'].
Qed.
Lemma fault_reports_once h severity detail errno :
  fault_reports D h severity detail errno = if bool_decide (latch_of h = Some detail) then [] else [connect_fault D severity detail errno].
Proof using. unfold fault_reports. rewrite Admit_news. by case_bool_decide. Qed.
Lemma ready_agrees nb fd : ready nb -> let h := mkHeld fd nb true in
  never_blocks codes h (sd_PeekFlags D) && never_blocks codes h (sd_SendFlags D) && never_blocks codes h (sd_ReadFlags D) = true.
Proof using. exact id. Qed.

Lemma Open_contract F addr self s : attempts F -> tcp_agrees codes D self s ->
  leads (TcpStream_Open D (take_and_connect F) addr) self s (fun b => contracted self s (fun t rs => opens kind false t b rs)).
Proof using.
  intros HF Ha. destruct self as [base getter context fd h], s as [k rs ws]. unfold TcpStream_Open. leads_on.
  destruct (sd_IsSocketValid D fd) eqn:Ev.
  - leads_on. apply Report_leads. leads_on. split; [done |]. split; [exact Ha |]. eexists. split; [| done]. by apply opens_refused.
  - destruct k as [h0 |]; [destruct Ha as (_ & Hv & _); cbn in Hv; congruence |]. unfold take_and_connect. leads_on. apply HF; [done |]. split.
    + intros fd' nb warnings Hv Hr Hw. leads_on. eapply leads_happens; [done |]. leads_on. split; [done |]. cbn [h_Fd h_NonBlocking]. split.
      { cbn. split; [done |]. split; [done |]. split; [done |]. split; [by apply ready_agrees | eauto]. }
      exists warnings. split; [| done]. unfold contract_view. cbn. rewrite Hv, Ev. by apply opens_made.
    + intros fd' severity detail errno Hv. leads_on. split; [done |]. split; [done |]. eexists. split; [| done].
      unfold contract_view. cbn [tcp_Fd tcp_OpenHealth seen_Wires]. rewrite Ev, Hv, latch_latched, fault_reports_once.
      by apply (opens_failed kind false (mkStreamState false (latch_of h) ws) [] severity SOLIDSYSLOG_CAT_STREAM_CONNECT_FAILED (negb (errno =? 0)) detail errno).
Qed.

Lemma CloseSocket_contract self s : tcp_agrees codes D self s ->
  leads (TcpStream_CloseSocket D) self s (fun _ self' s' => tcp_Base self' = tcp_Base self /\ tcp_agrees codes D self' s' /\
    contract_view D self' s' = (contract_view D self s) <| st_Open := false |> /\ seen_Reports s' = seen_Reports s /\ seen_Socket s' = None).
Proof using DO.
  intros Ha. destruct self as [base getter context fd h], s as [k rs ws]. apply CloseSocket_leads; [done | |].
  - destruct k; [by destruct Ha as (? & ? & _) | exact Ha].
  - intros fd' Hv. split; [done |]. split; [exact Hv |]. split; [| done]. unfold contract_view. cbn. by rewrite Hv.
Qed.

(** What is asked before a record is offered: it changes nothing, and of a stream with
    no connection the answer is no. *)
Definition asks (accepts : Z -> op bool) : Prop :=
  forall size self s Q, tcp_agrees codes D self s ->
  (forall b, (b = true -> is_Some (seen_Socket s)) -> Q b self s) -> leads (accepts size) self s Q.
Lemma recv_leads fd memory len flags self s (Q : Z * Z * bytes -> tcp_stream E -> tcp_seen -> Prop) :
  tcp_agrees codes D self s -> fd = tcp_Fd self -> flags = sd_PeekFlags D \/ flags = sd_ReadFlags D ->
  (forall n err memory, n <= Z.max 0 len ->
    (seen_Socket s = None -> n = -1 /\ sd_WouldBlock D err = false) -> Q (n, err, memory) self s) ->
  leads (tcp_call (sys_recv fd memory len flags) (fun _ => ReceivedOn fd flags)) self s Q.
Proof using SO.
  intros Ha -> Hflags HQ.
  apply (leads_call _ _ _ _ (fun a => fst (fst a) <= Z.max 0 len /\ (sd_IsSocketValid D (tcp_Fd self) = false -> fst (fst a) = -1 /\ sd_WouldBlock D (snd (fst a)) = false))).
  { intros e. split; [apply (recv_answers codes D SO) |]. intros Hv. split; by apply (recv_on_none codes D SO). }
  intros [[n err] memory'] [Hn Hc]. cbn [fst snd] in *. exists s. destruct s as [[held |] rs ws]; cbn [observe].
  - destruct Ha as (Hfd & Hv & Hl & Hr & _). rewrite Hfd, Z.eqb_refl, Hl. split; [| by apply HQ].
    apply andb_prop in Hr as [[Hp _]%andb_prop Hrd]. by destruct Hflags as [-> | ->]; rewrite ?Hp, ?Hrd.
  - unfold tcp_agrees in Ha. cbn in Ha. rewrite Ha. split; [done |]. apply HQ; auto.
Qed.
Lemma PeerIsStillThere_asks : asks (fun _ => TcpStream_PeerIsStillThere D).
Proof using SO DO.
  intros size self s Q Ha HQ. unfold TcpStream_PeerIsStillThere. leads_on. apply recv_leads; [done | done | by left |].
  intros n err memory _ Hc. leads_on. apply HQ. intros Hb. destruct (seen_Socket s) eqn:Es; [eauto |]. destruct (Hc eq_refl) as [-> Hw].
  unfold error_of in Hb. cbn [fst snd] in Hb. by rewrite (error_is_failure D DO), Hw in Hb.
Qed.

Lemma agrees_open self s : tcp_agrees codes D self s -> sd_IsSocketValid D (tcp_Fd self) = bool_decide (is_Some (seen_Socket s)).
Proof using. unfold tcp_agrees. destruct (seen_Socket s); [by intros (_ & ? & _) | done]. Qed.
Lemma part_of {A} (l : list A) n : exists rest, l = takeZ n l ++ rest.
Proof using. exists (dropZ n l). by rewrite takeZ_dropZ. Qed.
(** A stream that is closed while it agrees ends as the contract says. *)
Lemma wire_moved self s h data before conn :
  tcp_agrees codes D self s -> seen_Socket s = Some h -> seen_Wires s = before ++ [conn] ->
  tcp_agrees codes D self (mkSeen (Some h) (seen_Reports s) (before ++ [conn ++ data])).
Proof using. intros Ha Es _. unfold tcp_agrees in *. rewrite Es in Ha. cbn. destruct Ha as (? & ? & ? & ? & _). eauto 8. Qed.

Lemma Send_contract accepts buffer size self s : asks accepts ->
  tcp_agrees codes D self s ->
  leads (TcpStream_Send D accepts buffer size) self s
    (fun b => contracted self s (fun t rs t' => rs = [] /\ sends (takeZ size buffer) t b t')).
Proof using SO DO.
  intros Hacc Ha. unfold TcpStream_Send. leads_on. apply Hacc; [done |]. intros b Hb. leads_on.
  pose proof (agrees_open self s Ha) as Ho. destruct b; leads_on.
  - destruct (Hb eq_refl) as (h & Es). rewrite Es in Ho. rewrite bool_decide_true in Ho by eauto. pose proof Ha as Ha'. unfold tcp_agrees in Ha'. rewrite Es in Ha'.
    destruct Ha' as (Hfd & _ & Hl & Hr & before & conn & Ew). apply andb_prop in Hr as [[_ Hs]%andb_prop _].
    apply leads_any_call. intros [n err]. destruct s as [k rs ws]. cbn [seen_Socket seen_Wires fst] in *. subst k ws.
    cbn [observe]. rewrite <- Hfd, Z.eqb_refl, Hl, Hs, extend_last_snoc. eexists. split; [done |]. leads_on.
    pose proof (wire_moved self (mkSeen (Some h) rs (before ++ [conn])) h (takeZ n (takeZ size buffer)) before conn Ha eq_refl eq_refl) as Ha1.
    destruct (TcpStream_WroteAllBytes n size) eqn:Ewrote; cbn [negb]; leads_on.
    + split; [done |]. split; [exact Ha1 |]. exists []. rewrite app_nil_r. split; [| done]. split; [done |].
      unfold TcpStream_WroteAllBytes in Ewrote. apply andb_prop in Ewrote as [_ ->%Z.eqb_eq].
      unfold contract_view. cbn [seen_Wires]. rewrite takeZ_takeZ, Z.min_id. by apply (sends_whole _ (mkStreamState _ _ _)).
    + eapply leads_mono; [by apply CloseSocket_contract |]. intros _ self' s' (Eb & Ha' & Ec & Er & _). leads_on. split; [done |]. split; [done |].
      exists []. rewrite app_nil_r. split; [| by rewrite Er]. split; [done |]. rewrite Ec. unfold contract_view. cbn [seen_Wires]. rewrite Ho.
      destruct (part_of (takeZ size buffer) n) as [rest Er'].
      exact (sends_part (takeZ size buffer) (mkStreamState true (latch_of (tcp_OpenHealth self)) (before ++ [conn])) before conn _ rest eq_refl eq_refl Er').
  - eapply leads_mono; [by apply CloseSocket_contract |]. intros _ self' s' (Eb & Ha' & Ec & Er & _). leads_on. split; [done |]. split; [done |].
    exists []. rewrite app_nil_r. split; [| done]. split; [done |]. rewrite Ec. unfold contract_view. rewrite Ho.
    case_bool_decide as Hk; [| by apply sends_closed].
    unfold tcp_agrees in Ha. destruct (seen_Socket s); [| by destruct Hk]. destruct Ha as (_ & _ & _ & _ & before & conn & Ew).
    pose proof (sends_part (takeZ size buffer) (mkStreamState true (latch_of (tcp_OpenHealth self)) (seen_Wires s)) before conn [] (takeZ size buffer) eq_refl Ew eq_refl) as Hp.
    rewrite app_nil_r in Hp. cbn in Hp. by rewrite <- Ew in Hp.
Qed.

Lemma Read_contract buffer size self s : 0 <= size -> tcp_agrees codes D self s ->
  leads (TcpStream_Read D buffer size) self s
    (fun r => contracted self s (fun t rs t' => rs = [] /\ reads size t (fst r) t')).
Proof using SO DO.
  intros Hsize Ha. unfold TcpStream_Read. leads_on. apply recv_leads; [done | done | by right |]. intros n err memory Hn Hc. leads_on.
  pose proof (agrees_open self s Ha) as Ho. pose proof (read_length_fits D DO size Hsize).
  assert (Hopen : n <> -1 \/ sd_WouldBlock D err = true -> st_Open (contract_view D self s) = true).
  { intros Hn'. cbn [contract_view st_Open]. rewrite Ho. destruct (seen_Socket s); [by apply bool_decide_true |]. destruct (Hc eq_refl). destruct Hn'; congruence. }
  assert (Hkeep : forall r, (reads size (contract_view D self s) r (contract_view D self s)) ->
    contracted self s (fun t rs t' => rs = [] /\ reads size t r t') self s).
  { intros r Hr. split; [done |]. split; [done |]. exists []. by rewrite app_nil_r. }
  destruct (Z.ltb_spec 0 n) as [Hpos |]; [| destruct (sd_Failed D n && _) eqn:Ef]; leads_on.
  - apply Hkeep, reads_some; [apply Hopen; left; clear -Hpos; lia | clear -Hpos Hn H; cbn [fst]; lia].
  - apply Hkeep, reads_none, Hopen. apply andb_prop in Ef as [Ef1 Ef2]. unfold error_of in Ef2. cbn [fst snd] in Ef2. rewrite Ef1 in Ef2. by right.
  - eapply leads_mono; [by apply CloseSocket_contract |]. intros _ self' s' (Eb & Ha' & Ec & Er & _). leads_on. split; [done |]. split; [done |].
    exists []. rewrite app_nil_r. split; [| done]. split; [done |]. rewrite Ec. apply reads_end.
Qed.
End contract.

(** * The four platforms *)

Lemma bounded_micros ms : 0 <= ms <= SOLIDSYSLOG_TCP_CONNECT_TIMEOUT_MS_MAX ->
  bounded_wait (Z.quot (ms * 1000) 1000000) (Z.rem (ms * 1000) 1000000) = true.
Proof.
  intros Hms. unfold SOLIDSYSLOG_TCP_CONNECT_TIMEOUT_MS_MAX in *. pose proof (Z.quot_rem' (ms * 1000) 1000000).
  pose proof (Z.rem_bound_pos (ms * 1000) 1000000 ltac:(lia) ltac:(lia)). pose proof (Z.quot_pos (ms * 1000) 1000000 ltac:(lia) ltac:(lia)).
  unfold bounded_wait, SOLIDSYSLOG_TCP_CONNECT_TIMEOUT_MS_MAX. rewrite !andb_true_iff. lia.
Qed.
Lemma bounded_millis ms : 0 <= ms <= SOLIDSYSLOG_TCP_CONNECT_TIMEOUT_MS_MAX ->
  bounded_wait (ms / MILLISECONDS_PER_SECOND) ((ms mod MILLISECONDS_PER_SECOND) * MICROSECONDS_PER_MILLISECOND) = true.
Proof.
  intros Hms. unfold MILLISECONDS_PER_SECOND, MICROSECONDS_PER_MILLISECOND, SOLIDSYSLOG_TCP_CONNECT_TIMEOUT_MS_MAX in *.
  pose proof (Z.div_mod ms 1000 ltac:(lia)). pose proof (Z.mod_pos_bound ms 1000 ltac:(lia)). pose proof (Z.div_pos ms 1000 ltac:(lia) ltac:(lia)).
  unfold bounded_wait, SOLIDSYSLOG_TCP_CONNECT_TIMEOUT_MS_MAX. rewrite !andb_true_iff. lia.
Qed.
Lemma to_int_fits size : 0 <= size -> Z.max 0 (to_int size) <= size.
Proof. unfold to_int, INT_MAX. destruct (Z.leb_spec size (2 ^ 31 - 1)); lia. Qed.

Section platforms.
Context {E : Type} `{HT : ErrorTap E} `{HS : Sockets E} (codes : socket_codes).

Lemma posix_ok : dialect_ok (posix codes).
Proof using. constructor; cbn; [done.. |]. lia. Qed.
Lemma winsock_ok : dialect_ok (winsock codes).
Proof using. constructor; cbn; [| done | done | apply to_int_fits]. unfold WinsockTcpStream_IsSocketValid. by rewrite Z.eqb_refl. Qed.
Lemma lwip_socket_ok : dialect_ok (lwip_socket codes).
Proof using. constructor; cbn; [done.. |]. lia. Qed.
Lemma vxworks_ok : dialect_ok (vxworks codes).
Proof using.
  constructor; cbn; [done.. |]. unfold VxWorks64TcpStream_ClampToTheStack, VxWorks64TcpStream_FitsTheStack. intros size. destruct (Z.leb_spec size INT_MAX); lia.
Qed.
Lemma nonblocking_ready D : ready codes D true.
Proof using. done. Qed.
Lemma includes_self a b : includes (Z.lor a b) b = true.
Proof using.
  apply Z.eqb_eq, Z.bits_inj'. intros n _. rewrite Z.land_spec, Z.lor_spec. destruct (Z.testbit a n), (Z.testbit b n); done.
Qed.
Lemma vxworks_ready nb : ready codes (vxworks codes) nb.
Proof using.
  unfold ready, never_blocks, vxworks. cbn. rewrite includes_self. change (MSG_DONTWAIT codes) with (Z.lor 0 (MSG_DONTWAIT codes)) at 1 3.
  rewrite includes_self. by rewrite !orb_true_r.
Qed.

(** A connect that is over, and the socket dropped when it failed. *)
Lemma connected_or_dropped D base getter context fd h rs ws Q : dialect_ok D ->
  sd_IsSocketValid D fd = true -> attempt_over codes D base getter context h rs ws Q ->
  connect_over D base getter context h true rs ws (fun connected self s => leads codes D (
    if! negb connected then drop_socket D end! ;;; st_ret connected) self s Q) fd.
Proof using.
  intros DO Hv [Ht Hf]. split.
  - cbn [negb]. leads_on. rewrite <- (app_nil_r rs). by apply Ht.
  - intros severity detail errno. cbn [negb]. leads_on. apply drop_socket_leads. leads_on. apply Hf, no_socket_is_none, DO.
Qed.
Lemma Posix_connects sin base getter context fd h rs ws Q : sockets_ok codes (posix codes) ->
  PosixTcpStream_IsFileDescriptorValid fd = true -> attempt_over codes (posix codes) base getter context h rs ws Q ->
  leads codes (posix codes) (PosixTcpStream_ConnectOrCloseOnFailure codes sin) (mkTcpStream base getter context fd h)
    (mkSeen (Some (mkHeld fd true false)) rs ws) Q.
Proof using.
  intros SO Hv Hover. pose proof (connected_or_dropped _ _ _ _ fd _ _ _ _ posix_ok Hv Hover) as Hco. pose proof Hco as [Ht Hf].
  unfold PosixTcpStream_ConnectOrCloseOnFailure, PosixTcpStream_ResolveConnectTimeoutMicros. leads_on.
  apply ResolveConnectTimeoutMs_leads. intros ms Hms. unfold PosixTcpStream_Connect. leads_on. apply call_connect_leads; [done |]. intros rc errno Hrc. leads_on.
  cbn [fst]. destruct (rc =? 0); [by apply leads_ret |]. destruct (error_of (posix codes) (rc, errno) =? EINPROGRESS codes).
  - apply finish_connect_leads; [by apply bounded_micros | exact Hco].
  - leads_on. apply refuse_connect_leads. intros severity detail. apply leads_ret, Hf.
Qed.
Lemma Posix_attempts : sockets_ok codes (posix codes) -> attempts codes (posix codes) (PosixTcpStream_attempt codes).
Proof using.
  intros SO addr base getter context fd h rs ws Q Hfd Hover. pose proof Hover as [Ht Hf].
  unfold PosixTcpStream_attempt, PosixTcpStream_OpenAndConfigureSocket. leads_on. apply take_socket_leads; [done | |].
  2: { intros fd' errno Hv. leads_on. cbn [posix sd_IsSocketValid] in Hv. rewrite Hv. leads_on. by apply Hf. }
  intros fd' Hv. unfold PosixTcpStream_ConfigureSocket, PosixTcpStream_EnableTcpNoDelay, PosixTcpStream_EnableKeepalive, PosixTcpStream_SetNonBlocking.
  leads_on. do 6 (apply set_option_leads; intros _; leads_on). apply leads_any_call. intros flags. cbn [observe h_Fd]. rewrite Z.eqb_refl.
  eexists. split; [done |]. leads_on. destruct (0 <=? fst flags); leads_on.
  - apply leads_any_call. intros [rc errno]. cbn [observe h_Fd h_NonBlocking h_Live fst snd]. rewrite Z.eqb_refl. eexists. split; [done |]. leads_on.
    destruct (rc =? -1); cbn [negb orb]; leads_on.
    + apply fault_leads. leads_on. apply drop_socket_leads. leads_on. change (PosixTcpStream_IsFileDescriptorValid (sd_InvalidSocket (posix codes))) with false. leads_on. by apply Hf.
    + cbn [negb]. leads_on. cbn [posix sd_IsSocketValid] in Hv. rewrite Hv. by apply Posix_connects.
  - apply fault_leads. leads_on. apply drop_socket_leads. leads_on. change (PosixTcpStream_IsFileDescriptorValid (sd_InvalidSocket (posix codes))) with false. leads_on. by apply Hf.
Qed.

Lemma Winsock_connects sin base getter context fd h rs ws Q : sockets_ok codes (winsock codes) ->
  WinsockTcpStream_IsSocketValid codes fd = true -> attempt_over codes (winsock codes) base getter context h rs ws Q ->
  leads codes (winsock codes) (WinsockTcpStream_ConnectOrCloseOnFailure codes sin) (mkTcpStream base getter context fd h)
    (mkSeen (Some (mkHeld fd true false)) rs ws) Q.
Proof using.
  intros SO Hv Hover. pose proof (connected_or_dropped _ _ _ _ fd _ _ _ _ winsock_ok Hv Hover) as Hco. pose proof Hco as [Ht Hf].
  unfold WinsockTcpStream_ConnectOrCloseOnFailure, WinsockTcpStream_ResolveConnectTimeoutMs. leads_on.
  apply ResolveConnectTimeoutMs_leads. intros ms Hms. unfold WinsockTcpStream_Connect. leads_on. apply call_connect_leads; [done |]. intros rc errno Hrc. leads_on.
  cbn [fst]. destruct (rc =? SOCKET_ERROR); cbn [negb]; [| by apply leads_ret]. destruct (error_of (winsock codes) (rc, errno) =? WSAEWOULDBLOCK codes).
  - apply finish_connect_leads; [by apply bounded_millis | exact Hco].
  - leads_on. apply refuse_connect_leads. intros severity detail. apply leads_ret, Hf.
Qed.
Lemma Winsock_attempts : sockets_ok codes (winsock codes) -> attempts codes (winsock codes) (WinsockTcpStream_attempt codes).
Proof using.
  intros SO addr base getter context fd h rs ws Q Hfd Hover. pose proof Hover as [Ht Hf].
  unfold WinsockTcpStream_attempt, WinsockTcpStream_OpenAndConfigureSocket. leads_on. apply take_socket_leads; [done | |].
  2: { intros fd' errno Hv. leads_on. cbn [winsock sd_IsSocketValid] in Hv. rewrite Hv. leads_on. by apply Hf. }
  intros fd' Hv. unfold WinsockTcpStream_ConfigureSocket, WinsockTcpStream_EnableTcpNoDelay, WinsockTcpStream_EnableKeepalive, WinsockTcpStream_SetNonBlocking.
  leads_on. do 5 (apply set_option_leads; intros _; leads_on). apply leads_any_call. intros [rc errno]. cbn [observe h_Fd h_NonBlocking h_Live fst].
  rewrite Z.eqb_refl. eexists. split; [done |]. leads_on. change SOCKET_ERROR with (-1). destruct (rc =? -1); cbn [negb orb]; leads_on.
  - apply fault_leads. leads_on. apply drop_socket_leads. leads_on. 
    rewrite (no_socket_is_none _ winsock_ok : WinsockTcpStream_IsSocketValid codes (sd_InvalidSocket (winsock codes)) = false). leads_on. apply Hf, no_socket_is_none, winsock_ok.
  - cbn [negb]. leads_on. cbn [winsock sd_IsSocketValid] in Hv. rewrite Hv. by apply Winsock_connects.
Qed.

(** Refused options of a connection that stands are one warning. *)
Definition option_warnings D (accepted : bool) : list SolidSyslogErrorEvent :=
  if accepted then [] else [mkErrorEvent SOLIDSYSLOG_SEVERITY_WARNING SOLIDSYSLOG_CAT_STREAM_OPTION_REFUSED false (Some (sd_Source D)) SOLIDSYSLOG_TCP_STREAM_ERROR_SOCKET_OPTION_REFUSED 0].
Lemma option_warnings_ok D accepted : Forall (fun e => sk_Warning (tcp_kind (sd_Source D)) e = true) (option_warnings D accepted).
Proof using. destruct accepted; repeat constructor. Qed.
Lemma warn_leads D (accepted : bool) base getter context fd h k rs ws Q :
  Q tt (mkTcpStream base getter context fd h) (mkSeen k (rs ++ option_warnings D accepted) ws) ->
  leads codes D (if! negb accepted then TcpStream_ReportOptionRefused D end!) (mkTcpStream base getter context fd h) (mkSeen k rs ws) Q.
Proof using.
  intros HQ. destruct accepted; cbn [negb option_warnings] in *; [rewrite app_nil_r in HQ; by leads_on | by apply Report_leads].
Qed.
(** A connect that is over, the options set or the socket closed. *)
Lemma connected_or_closed D base getter context fd h nb rs ws (apply_options : Z -> @tcp_op E unit) Q : dialect_ok D ->
  sd_IsSocketValid D fd = true -> ready codes D nb -> attempt_over codes D base getter context h rs ws Q ->
  (forall Q', (forall accepted, Q' tt (mkTcpStream base getter context fd h) (mkSeen (Some (mkHeld fd nb false)) (rs ++ option_warnings D accepted) ws)) ->
    leads codes D (apply_options fd) (mkTcpStream base getter context fd h) (mkSeen (Some (mkHeld fd nb false)) rs ws) Q') ->
  connect_over D base getter context h nb rs ws (fun connected self s => leads codes D (
    (if connected : bool then let! fd := tcp_get tcp_Fd in apply_options fd else TcpStream_CloseSocket D) ;;; st_ret connected) self s Q) fd.
Proof using.
  intros DO Hv Hr [Ht Hf] Ho. split.
  - leads_on. apply Ho. intros accepted. leads_on. apply Ht; [done | done | apply option_warnings_ok].
  - intros severity detail errno. leads_on. apply CloseSocket_leads; [done | by split |]. intros fd' Hfd'. leads_on. by apply Hf.
Qed.

Lemma Lwip_options variant fd base getter context h nb rs ws Q' :
  (forall accepted, Q' tt (mkTcpStream base getter context fd h) (mkSeen (Some (mkHeld fd nb false)) (rs ++ option_warnings (lwip_socket codes) accepted) ws)) ->
  leads codes (lwip_socket codes) (LwipSocketTcpStream_ApplySocketOptions codes variant fd)
    (mkTcpStream base getter context fd h) (mkSeen (Some (mkHeld fd nb false)) rs ws) Q'.
Proof using.
  intros HQ. unfold LwipSocketTcpStream_ApplySocketOptions. leads_on. do 2 (apply set_option_leads; intros ?; leads_on).
  destruct variant; unfold SolidSyslogLwipSocketTcpStream_ApplyKeepalive, ApplyKeepalive_All, ApplyKeepalive_IdleOnly; leads_on;
    repeat (apply set_option_leads; intros ?; leads_on); apply warn_leads, HQ.
Qed.
Lemma Lwip_connects variant sin base getter context fd h rs ws Q : sockets_ok codes (lwip_socket codes) ->
  LwipSocketTcpStream_IsSocketValid fd = true -> attempt_over codes (lwip_socket codes) base getter context h rs ws Q ->
  leads codes (lwip_socket codes) (LwipSocketTcpStream_ConnectOrCloseOnFailure codes variant sin) (mkTcpStream base getter context fd h)
    (mkSeen (Some (mkHeld fd true false)) rs ws) Q.
Proof using.
  intros SO Hv Hover.
  pose proof (connected_or_closed _ _ _ _ fd _ true _ _ _ _ lwip_socket_ok Hv (nonblocking_ready _) Hover (Lwip_options variant fd _ _ _ _ _ _ _)) as Hco.
  pose proof Hco as [Ht Hf]. unfold LwipSocketTcpStream_ConnectOrCloseOnFailure, LwipSocketTcpStream_Connect. leads_on.
  apply call_connect_leads; [done |]. intros rc errno Hrc. leads_on. cbn [fst].
  destruct (Z.eqb_spec (error_of (lwip_socket codes) (rc, errno)) (EINPROGRESS codes)).
  - leads_on. unfold LwipSocketTcpStream_ResolveConnectTimeoutMicros. leads_on. apply ResolveConnectTimeoutMs_leads. intros ms Hms. leads_on.
    apply finish_connect_leads; [by apply bounded_micros | exact Hco].
  - destruct (codes_ok codes _ SO) as (_ & Hr & Ht' & _). destruct Hrc as [-> | ->].
    + change (error_of (lwip_socket codes) (0, errno)) with 0. unfold LwipSocketTcpStream_IsRemoteConnectError.
      rewrite !(proj2 (Z.eqb_neq 0 _)) by congruence. by apply leads_ret.
    + rewrite orb_true_r. leads_on. apply refuse_connect_leads. intros severity detail. apply leads_ret, Hf.
Qed.
Lemma Lwip_attempts variant : sockets_ok codes (lwip_socket codes) -> attempts codes (lwip_socket codes) (LwipSocketTcpStream_attempt codes variant).
Proof using.
  intros SO addr base getter context fd h rs ws Q Hfd Hover. pose proof Hover as [Ht Hf].
  unfold LwipSocketTcpStream_attempt, LwipSocketTcpStream_TakeSocket. leads_on. apply take_socket_leads; [done | |].
  2: { intros fd' errno Hv. leads_on. cbn [lwip_socket sd_IsSocketValid] in Hv. rewrite Hv. leads_on. by apply Hf. }
  intros fd' Hv. leads_on. apply leads_any_call. intros [rc errno]. cbn [observe h_Fd h_NonBlocking h_Live fst snd]. rewrite Z.eqb_refl.
  eexists. split; [done |]. leads_on. destruct (Z.eqb_spec rc 0) as [-> | Hne]; cbn [negb orb]; leads_on.
  - cbn [lwip_socket sd_IsSocketValid] in Hv. rewrite Hv. by apply Lwip_connects.
  - apply fault_leads. leads_on. apply drop_socket_leads. leads_on. change (LwipSocketTcpStream_IsSocketValid (sd_InvalidSocket (lwip_socket codes))) with false. leads_on. by apply Hf.
Qed.

Lemma VxWorks_options fd base getter context h nb rs ws Q' :
  (forall accepted, Q' tt (mkTcpStream base getter context fd h) (mkSeen (Some (mkHeld fd nb false)) (rs ++ option_warnings (vxworks codes) accepted) ws)) ->
  leads codes (vxworks codes) (VxWorks64TcpStream_ApplySocketOptions codes fd)
    (mkTcpStream base getter context fd h) (mkSeen (Some (mkHeld fd nb false)) rs ws) Q'.
Proof using.
  intros HQ. unfold VxWorks64TcpStream_ApplySocketOptions. leads_on. do 2 (apply set_option_leads; intros ?; leads_on). apply warn_leads, HQ.
Qed.
Lemma VxWorks_connects sin base getter context fd h rs ws Q : sockets_ok codes (vxworks codes) ->
  VxWorks64TcpStream_IsSocketValid fd = true -> attempt_over codes (vxworks codes) base getter context h rs ws Q ->
  leads codes (vxworks codes) (VxWorks64TcpStream_ConnectOrCloseOnFailure codes sin) (mkTcpStream base getter context fd h)
    (mkSeen (Some (mkHeld fd false false)) rs ws) Q.
Proof using.
  intros SO Hv Hover.
  pose proof (connected_or_closed _ _ _ _ fd _ false _ _ _ _ vxworks_ok Hv (vxworks_ready _) Hover (VxWorks_options fd _ _ _ _ _ _ _)) as Hco.
  pose proof Hco as [Ht Hf]. unfold VxWorks64TcpStream_ConnectOrCloseOnFailure, VxWorks64TcpStream_Connect, VxWorks64TcpStream_ResolveConnectTimeout. leads_on.
  apply ResolveConnectTimeoutMs_leads. intros ms Hms. leads_on. cbn [fst snd].
  apply (leads_call _ _ _ _ (fun a => fst a = 0 \/ fst a = -1)); [intros e; apply (timed_connect_answers codes _ SO) |]. intros [rc errno] Hrc.
  cbn [observe h_Fd h_NonBlocking h_Live fst]. rewrite Z.eqb_refl, bounded_millis by done. eexists. split; [done |]. leads_on.
  destruct (codes_ok codes _ SO) as (Hp & Hr & Ht' & _). cbn [fst] in Hrc. destruct Hrc as [-> | ->].
  - change (error_of (vxworks codes) (0, errno)) with 0. unfold VxWorks64TcpStream_IsRemoteConnectError.
    rewrite !(proj2 (Z.eqb_neq 0 _)) by congruence. change (0 =? VX_OK) with true. apply leads_ret, leads_ret, Ht.
  - destruct (error_of (vxworks codes) (-1, errno) =? EINPROGRESS codes); [apply fault_leads, leads_ret, Hf |].
    cbn [Z.eqb VX_OK negb]. rewrite orb_true_r. apply refuse_connect_leads. intros severity detail. apply leads_ret, Hf.
Qed.
Lemma VxWorks_attempts : sockets_ok codes (vxworks codes) -> attempts codes (vxworks codes) (VxWorks64TcpStream_attempt codes).
Proof using.
  intros SO addr base getter context fd h rs ws Q Hfd Hover. pose proof Hover as [Ht Hf]. unfold VxWorks64TcpStream_attempt. leads_on.
  apply take_socket_leads; [done | |].
  - intros fd' Hv. leads_on. by apply VxWorks_connects.
  - intros fd' errno Hv. leads_on. by apply Hf.
Qed.
Lemma VxWorks_asks : sockets_ok codes (vxworks codes) ->
  asks codes (vxworks codes) (fun size => if VxWorks64TcpStream_FitsTheStack size then VxWorks64TcpStream_PeerIsStillThere codes else st_ret false).
Proof using.
  intros SO size self s Q Ha HQ. destruct (VxWorks64TcpStream_FitsTheStack size); [| by apply leads_ret, HQ].
  by apply (PeerIsStillThere_asks codes (vxworks codes) SO vxworks_ok size).
Qed.
End platforms.

(** * From one call to any run of calls *)

Inductive stream_input (E : Type) :=
| OpenNow (addr : SolidSyslogAddress)
| SendNow (buffer : bytes) (size : Z)
| ReadNow (buffer : bytes) (size : Z)
| CloseNow
| DestroyNow
| StreamMeanwhile (change : E -> E).
Arguments OpenNow {E} _.
Arguments SendNow {E} _ _.
Arguments ReadNow {E} _ _.
Arguments CloseNow {E}.
Arguments DestroyNow {E}.
Arguments StreamMeanwhile {E} _.

Section runs.
Context {E : Type}.
(** A run of calls of a stream; what else happens changes its environment only. *)
Definition stream_call (stream : SolidSyslogStream (tcp_world E)) (cleanup : @tcp_op E unit) (input : stream_input E) : @tcp_op E unit :=
  match input with
  | OpenNow addr => let! _ := SolidSyslogStream_Open (SolidSyslogStream := stream) addr in st_ret tt
  | SendNow buffer size => let! _ := SolidSyslogStream_Send (SolidSyslogStream := stream) buffer size in st_ret tt
  | ReadNow buffer size => let! _ := SolidSyslogStream_Read (SolidSyslogStream := stream) buffer size in st_ret tt
  | CloseNow => SolidSyslogStream_Close (SolidSyslogStream := stream)
  | DestroyNow => cleanup
  | StreamMeanwhile change => st_mod (fun w => w <| tw_Env := change (tw_Env w) |>)
  end.
Fixpoint stream_feed (stream : SolidSyslogStream (tcp_world E)) (cleanup : @tcp_op E unit) (inputs : list (stream_input E)) : @tcp_op E unit :=
  match inputs with
  | [] => st_ret tt
  | input :: inputs => stream_call stream cleanup input ;;; stream_feed stream cleanup inputs
  end.
Definition tcp_fresh (self : tcp_stream E) (e : E) : tcp_world E := mkTcpWorld self e [].
(** What a size_t is. *)
Definition stream_input_ok (input : stream_input E) : Prop := match input with ReadNow _ size => 0 <= size | _ => True end.
End runs.

Section any_dialect.
Context {E : Type} `{HT : ErrorTap E} `{HS : Sockets E} (codes : socket_codes) (D : socket_dialect).
Context (SO : sockets_ok codes D) (DO : dialect_ok D).
Context (F : SolidSyslogAddress -> @tcp_op E bool) (HF : attempts codes D F) (accepts : Z -> @tcp_op E bool) (Hacc : asks codes D accepts).
Implicit Types (w : tcp_world E).
Abbreviation stream := (TcpStream_vtable D (TcpStream_Open D (take_and_connect F)) (TcpStream_Send D accepts)).

Lemma contracted_world {A} (m : @tcp_op E A) (step : A -> stream_state -> list SolidSyslogErrorEvent -> stream_state -> Prop) :
  (forall self s, tcp_agrees codes D self s -> leads codes D m self s (fun a => contracted codes D self s (step a))) ->
  forall w, tcp_ok codes D w -> wp m (fun a w' => tcp_ok codes D w' /\
    exists rs, step a (tcp_state codes D w) rs (tcp_state codes D w') /\ tcp_reports codes D w' = tcp_reports codes D w ++ rs) w.
Proof using.
  intros Hm w (Hb & s & Hs & Ha). eapply wp_mono; [apply (Hm (tw_Self w) s Ha w); by split |].
  intros a w' (self' & s' & [<- Hs'] & Hb' & Ha' & rs & Hstep & Hr). cbn. split; [split; [congruence | eauto] |].
  exists rs. unfold tcp_state, tcp_reports, tcp_seen_of. rewrite Hs, Hs'. by split.
Qed.
Lemma own_vtable {A} (m null : @tcp_op E A) w Q : tcp_Base (tw_Self w) = OwnStreamVtable -> wp m Q w ->
  wp (let! base := tcp_get tcp_Base in match base with OwnStreamVtable => m | NullStreamVtable => null end) Q w.
Proof using. intros Hb Hm. apply wp_bind, wp_get. by rewrite Hb. Qed.
Lemma own_of w : tcp_ok codes D w -> tcp_Base (tw_Self w) = OwnStreamVtable.
Proof using. by intros [? _]. Qed.

Lemma socket_stream_contract : stream_contract (tcp_kind (sd_Source D)) stream (tcp_ok codes D) (fun _ => True) (tcp_state codes D) (tcp_reports codes D) (fun _ => false).
Proof using SO DO HF Hacc.
  constructor; [intros addr w Hw | intros buffer size w Hw _ | intros buffer size w Hw _ Hsize | intros w Hw | intros w Hw];
    cbn [TcpStream_vtable SolidSyslogStream_Open SolidSyslogStream_Send SolidSyslogStream_Read SolidSyslogStream_Close SolidSyslogStream_Version];
    (apply own_vtable; [by apply own_of |]).
  - apply (contracted_world (TcpStream_Open D (take_and_connect F) addr) (fun b t rs => opens (tcp_kind (sd_Source D)) false t b rs)); [| done].
    intros self s Ha. by apply Open_contract.
  - eapply wp_mono; [apply (contracted_world _ (fun b t rs t' => rs = [] /\ sends (takeZ size buffer) t b t')); [| done]; intros self s Ha; by apply Send_contract |].
    intros b w' (Hok & rs & [-> Hs] & Hr). by rewrite app_nil_r in Hr.
  - eapply wp_mono; [apply (contracted_world _ (fun r t rs t' => rs = [] /\ reads size t (fst r) t')); [| done]; intros self s Ha; by apply Read_contract |].
    intros r w' (Hok & rs & [-> Hs] & Hr). by rewrite app_nil_r in Hr.
  - eapply wp_mono; [apply (contracted_world _ (fun _ t rs t' => rs = [] /\ t' = t <| st_Open := false |>)); [| done] |].
    + intros self s Ha. eapply leads_mono; [by apply CloseSocket_contract |]. intros _ self' s' (Eb & Ha' & Ec & Er & _).
      split; [done |]. split; [done |]. exists []. by rewrite app_nil_r.
    + intros _ w' (Hok & rs & [-> Hs] & Hr). by rewrite app_nil_r in Hr.
  - apply wp_ret. by split.
Qed.

(** A stream in order, or one destroyed that holds nothing. *)
Definition tcp_orderly w : Prop :=
  tcp_ok codes D w \/ tcp_Base (tw_Self w) = NullStreamVtable /\ exists s, observed codes D (tw_Trace w) = Some s /\ seen_Socket s = None /\ sd_IsSocketValid D (tcp_Fd (tw_Self w)) = false.
Lemma Cleanup_orderly w : tcp_orderly w -> wp (TcpStream_Cleanup D) (fun _ w' => tcp_Base (tw_Self w') = NullStreamVtable /\
  exists s, observed codes D (tw_Trace w') = Some s /\ seen_Socket s = None /\ sd_IsSocketValid D (tcp_Fd (tw_Self w')) = false) w.
Proof using DO.
  intros [(Hb & s & Hs & Ha) | (Hb & s & Hs & Hn & Hv)]; unfold TcpStream_Cleanup; apply wp_bind.
  - eapply wp_mono; [apply (CloseSocket_contract codes D DO (tw_Self w) s Ha w); by split |].
    intros _ w' (self' & s' & [<- Hs'] & _ & Ha' & _ & _ & Hn). apply wp_mod. split; [done |]. exists s'. split; [exact Hs' |]. split; [done |].
    unfold tcp_agrees in Ha'. by rewrite Hn in Ha'.
  - unfold TcpStream_CloseSocket. wp_step. apply wp_get. rewrite Hv. apply wp_ret, wp_mod. split; [done |]. exists s. by split.
Qed.
Lemma call_orderly cleanup input w : cleanup = TcpStream_Cleanup D -> stream_input_ok input -> tcp_orderly w ->
  wp (stream_call stream cleanup input) (fun _ w' => tcp_orderly w' /\ match input with CloseNow | DestroyNow => sd_IsSocketValid D (tcp_Fd (tw_Self w')) = false | _ => True end) w.
Proof using SO DO HF Hacc.
  intros -> Hi Hw. destruct input as [addr | buffer size | buffer size | | | change]; cbn [stream_call].
  5: { eapply wp_mono; [by apply Cleanup_orderly |]. intros _ w' (Hb & s & Hs & Hn & Hv). split; [right; eauto 6 | done]. }
  5: { apply wp_mod. split; [| done]. destruct Hw as [(Hb & s & Hs) | (Hb & s & Hs)]; [left; split; eauto | right; split; eauto]. }
  all: destruct Hw as [Hw | Hw]; [pose proof socket_stream_contract as SC |
    try (apply wp_bind); unfold wp; cbn; unfold st_bind, tcp_get, st_get; cbn; rewrite (proj1 Hw); cbn; split; [by right |]; try done; by destruct Hw as (_ & s & _ & _ & Hv)].
  - apply wp_bind. eapply wp_mono; [by apply (contract_Open _ _ _ _ _ _ _ SC) |]. intros b w' [Hok _]. apply wp_ret. split; [by left | done].
  - apply wp_bind. eapply wp_mono; [by apply (contract_Send _ _ _ _ _ _ _ SC) |]. intros b w' [Hok _]. apply wp_ret. split; [by left | done].
  - apply wp_bind. eapply wp_mono; [by apply (contract_Read _ _ _ _ _ _ _ SC) |]. intros b w' [Hok _]. apply wp_ret. split; [by left | done].
  - eapply wp_mono; [by apply (contract_Close _ _ _ _ _ _ _ SC) |]. intros b w' (Hok & Ec & _). split; [by left |].
    apply (f_equal st_Open) in Ec. exact Ec.
Qed.
Lemma feed_orderly cleanup inputs : cleanup = TcpStream_Cleanup D -> forall w, Forall stream_input_ok inputs -> tcp_orderly w ->
  wp (stream_feed stream cleanup inputs) (fun _ w' => tcp_orderly w') w.
Proof using SO DO HF Hacc.
  intros Hc. induction inputs as [| input inputs IH]; intros w Hi Hw; cbn [stream_feed]; [by apply wp_ret |]. apply Forall_cons_1 in Hi as [Hi His].
  apply wp_bind. eapply wp_mono; [by apply call_orderly |]. intros _ w' [Hw' _]. by apply IH.
Qed.
Lemma fresh_ok config (e : E) : tcp_ok codes D (tcp_fresh (TcpStream_Initialise D config) e).
Proof using DO.
  split; [by destruct config as [[[] ?] |] |]. exists nothing_seen. split; [done |]. pose proof (no_socket_is_none D DO). by destruct config as [[[] ?] |].
Qed.
End any_dialect.

(** * Properties *)

Section properties.
Context {E : Type} `{HT : ErrorTap E} `{HS : Sockets E} (codes : socket_codes).

Definition keeps_contract (D : socket_dialect) (initialise : option (tcp_config E) -> tcp_stream E) (stream : SolidSyslogStream (tcp_world E)) : Prop :=
  stream_contract (tcp_kind (sd_Source D)) stream (tcp_ok codes D) (fun _ => True) (tcp_state codes D) (tcp_reports codes D) (fun _ => false) /\
  forall config e, tcp_ok codes D (tcp_fresh (initialise config) e).
Definition keeps_protocol (D : socket_dialect) (initialise : option (tcp_config E) -> tcp_stream E)
    (stream : SolidSyslogStream (tcp_world E)) (cleanup : @tcp_op E unit) : Prop :=
  forall config e inputs, Forall stream_input_ok inputs ->
  let w := snd (stream_feed stream cleanup inputs (tcp_fresh (initialise config) e)) in
  (exists s, observed codes D (tw_Trace w) = Some s /\ (seen_Socket s = None <-> sd_IsSocketValid D (tcp_Fd (tw_Self w)) = false)) /\
  (exists s, observed codes D (tw_Trace (snd (cleanup w))) = Some s /\ seen_Socket s = None).

Lemma attempts_keep_protocol D F accepts : sockets_ok codes D -> dialect_ok D -> attempts codes D F -> asks codes D accepts ->
  keeps_protocol D (TcpStream_Initialise D) (TcpStream_vtable D (TcpStream_Open D (take_and_connect F)) (TcpStream_Send D accepts)) (TcpStream_Cleanup D).
Proof using.
  intros SO DO HF Hacc config e inputs Hi.
  pose proof (feed_orderly codes D SO DO F HF accepts Hacc _ inputs eq_refl _ Hi (or_introl (fresh_ok codes D DO config e))) as Hw. unfold wp in Hw.
  set (w := snd (stream_feed _ _ _ _)) in *. cbv zeta. split.
  - destruct Hw as [(_ & s & Hs & Ha) | (_ & s & Hs & Hn & Hv)]; exists s; (split; [done |]); [| by split].
    unfold tcp_agrees in Ha. destruct (seen_Socket s); [destruct Ha as (_ & -> & _); split; congruence | by split].
  - pose proof (Cleanup_orderly codes D DO w Hw) as Hc. unfold wp in Hc. destruct Hc as (_ & s & Hs & Hn & _). eauto.
Qed.
Lemma attempts_keep_contract D F accepts : sockets_ok codes D -> dialect_ok D -> attempts codes D F -> asks codes D accepts ->
  keeps_contract D (TcpStream_Initialise D) (TcpStream_vtable D (TcpStream_Open D (take_and_connect F)) (TcpStream_Send D accepts)).
Proof using. intros SO DO HF Hacc. split; [by apply socket_stream_contract | by apply fresh_ok]. Qed.

Lemma posix_keeps : sockets_ok codes (posix codes) -> keeps_contract (posix codes) (SolidSyslogPosixTcpStream_Initialise codes) (PosixTcpStream_vtable codes).
Proof using. intros SO. apply attempts_keep_contract; [done | apply posix_ok | by apply Posix_attempts | apply PeerIsStillThere_asks; [done | apply posix_ok]]. Qed.
Lemma winsock_keeps : sockets_ok codes (winsock codes) -> keeps_contract (winsock codes) (SolidSyslogWinsockTcpStream_Initialise codes) (WinsockTcpStream_vtable codes).
Proof using. intros SO. apply attempts_keep_contract; [done | apply winsock_ok | by apply Winsock_attempts | apply PeerIsStillThere_asks; [done | apply winsock_ok]]. Qed.
Lemma lwip_socket_keeps variant : sockets_ok codes (lwip_socket codes) ->
  keeps_contract (lwip_socket codes) (SolidSyslogLwipSocketTcpStream_Initialise codes) (LwipSocketTcpStream_vtable codes variant).
Proof using. intros SO. apply attempts_keep_contract; [done | apply lwip_socket_ok | by apply Lwip_attempts | apply PeerIsStillThere_asks; [done | apply lwip_socket_ok]]. Qed.
Lemma vxworks_keeps : sockets_ok codes (vxworks codes) -> keeps_contract (vxworks codes) (SolidSyslogVxWorks64TcpStream_Initialise codes) (VxWorks64TcpStream_vtable codes).
Proof using. intros SO. apply attempts_keep_contract; [done | apply vxworks_ok | by apply VxWorks_attempts | by apply VxWorks_asks]. Qed.
Lemma fresh_state D config (e : E) : dialect_ok D -> tcp_state codes D (tcp_fresh (TcpStream_Initialise D config) e) = mkStreamState false None [].
Proof using.
  intros DO. unfold tcp_state, contract_view. destruct config as [[[] ?] |]; cbn; by rewrite (no_socket_is_none D DO).
Qed.

(** C23. Each of the four socket streams keeps the contract of a stream, whatever the socket
    library answers: an Open of an open stream is refused and reported and changes
    nothing; one that fails leaves nothing open and is reported once per run of its
    detail; one that succeeds re-arms the report; a Send answers true exactly when the
    connection took the whole record, and otherwise closes behind the part it took; a
    Read answers 0 when nothing is there and a negative only after a teardown; Close is
    idempotent; and neither Send, Read nor Close reports. *)
Theorem socket_streams_keep_contract :
  (sockets_ok codes (posix codes) -> keeps_contract (posix codes) (SolidSyslogPosixTcpStream_Initialise codes) (PosixTcpStream_vtable codes)) /\
  (sockets_ok codes (winsock codes) -> keeps_contract (winsock codes) (SolidSyslogWinsockTcpStream_Initialise codes) (WinsockTcpStream_vtable codes)) /\
  (forall variant, sockets_ok codes (lwip_socket codes) ->
    keeps_contract (lwip_socket codes) (SolidSyslogLwipSocketTcpStream_Initialise codes) (LwipSocketTcpStream_vtable codes variant)) /\
  (sockets_ok codes (vxworks codes) -> keeps_contract (vxworks codes) (SolidSyslogVxWorks64TcpStream_Initialise codes) (VxWorks64TcpStream_vtable codes)).
Proof using. split; [apply posix_keeps |]. split; [apply winsock_keeps |]. split; [apply lwip_socket_keeps | apply vxworks_keeps]. Qed.

(** C24. Each of the four socket streams keeps the protocol of the socket library in any run
    of Opens, Sends, Reads, Closes and destructions: a socket is taken only while none is
    held and each is closed exactly once; every call names the one that is held; a
    connect, a wait, a send or a receive is of a socket that does not block, or is told
    not to, or has a bound of at most [SOLIDSYSLOG_TCP_CONNECT_TIMEOUT_MS_MAX]; data goes
    only on an established connection; and a stream that is destroyed holds nothing. *)
Theorem socket_calls_keep_protocol :
  (sockets_ok codes (posix codes) ->
    keeps_protocol (posix codes) (SolidSyslogPosixTcpStream_Initialise codes) (PosixTcpStream_vtable codes) (SolidSyslogPosixTcpStream_Cleanup codes)) /\
  (sockets_ok codes (winsock codes) ->
    keeps_protocol (winsock codes) (SolidSyslogWinsockTcpStream_Initialise codes) (WinsockTcpStream_vtable codes) (SolidSyslogWinsockTcpStream_Cleanup codes)) /\
  (forall variant, sockets_ok codes (lwip_socket codes) ->
    keeps_protocol (lwip_socket codes) (SolidSyslogLwipSocketTcpStream_Initialise codes) (LwipSocketTcpStream_vtable codes variant) (SolidSyslogLwipSocketTcpStream_Cleanup codes)) /\
  (sockets_ok codes (vxworks codes) ->
    keeps_protocol (vxworks codes) (SolidSyslogVxWorks64TcpStream_Initialise codes) (VxWorks64TcpStream_vtable codes) (SolidSyslogVxWorks64TcpStream_Cleanup codes)).
Proof using.
  split; [| split; [| split]].
  - intros SO. apply attempts_keep_protocol; [done | apply posix_ok | by apply Posix_attempts | apply PeerIsStillThere_asks; [done | apply posix_ok]].
  - intros SO. apply attempts_keep_protocol; [done | apply winsock_ok | by apply Winsock_attempts | apply PeerIsStillThere_asks; [done | apply winsock_ok]].
  - intros variant SO. apply attempts_keep_protocol; [done | apply lwip_socket_ok | by apply Lwip_attempts | apply PeerIsStillThere_asks; [done | apply lwip_socket_ok]].
  - intros SO. apply attempts_keep_protocol; [done | apply vxworks_ok | by apply VxWorks_attempts | by apply VxWorks_asks].
Qed.
End properties.

(** * A small stack *)

(** Descriptors from 3 up; a connect that is under way until it is waited for; room for
    so many bytes; errors as Linux numbers them. *)
Record small_stack := mkSmallStack { ss_Next : Z; ss_Room : Z; ss_Slots : pending_slots }.
#[export] Instance settable_small_stack : Settable small_stack := fun k => mkSmallStack (ss_Next k) (ss_Room k) (ss_Slots k).
#[export] Instance small_stack_tap : ErrorTap small_stack := {
  tap_Handler := fun _ k => k;
  tap_Slots := ss_Slots;
  tap_SetSlots := fun slots k => k <| ss_Slots := slots |>
}.
Definition linux_codes : socket_codes :=
  mkSocketCodes 11 11 115 111 110 10035 10061 10060 2 64 16384 2048 6 1 1 9 4 5 6 18 2 (2 ^ 32 - 1).
#[export] Instance small_sockets : Sockets small_stack := {
  sys_socket := fun k => ((ss_Next k, 0), k <| ss_Next := ss_Next k + 1 |>);
  sys_close := fun _ => st_ret 0;
  sys_setsockopt := fun _ _ _ _ => st_ret 0;
  sys_getfl := fun _ => st_ret (2, 0);
  sys_setfl := fun _ _ => st_ret (0, 0);
  sys_fionbio := fun _ _ => st_ret (0, 0);
  sys_connect := fun _ _ => st_ret (-1, 115);
  sys_connectWithTimeout := fun _ _ _ _ => st_ret (0, 0);
  sys_select := fun _ _ _ => st_ret (1, 0, true, false);
  sys_so_error := fun _ => st_ret (0, 0, 0);
  sys_send := fun fd data len flags k => ((Z.min len (ss_Room k), 0), k <| ss_Room := ss_Room k - Z.min len (ss_Room k) |>);
  sys_recv := fun fd memory len flags => st_ret (-1, if (0 <=? fd) && negb (fd =? 2 ^ 32 - 1) then 11 else 9, memory)
}.
Definition a_small_stack : small_stack := mkSmallStack 3 8 initial_slots.
Lemma small_stack_ok D : (forall fd, sd_IsSocketValid D fd = (0 <=? fd)) \/ (forall fd, sd_IsSocketValid D fd = negb (fd =? 2 ^ 32 - 1)) ->
  sd_WouldBlock D 9 = false -> sockets_ok linux_codes D.
Proof.
  intros Hv Hw. constructor; cbn; [by right | by left | lia | | done]. intros fd _ _ _ _ Hfd. split; [done |].
  destruct Hv as [Hv | Hv]; rewrite Hv in Hfd; [by rewrite Hfd | by rewrite Hfd, andb_false_r].
Qed.
Lemma small_stack_all : sockets_ok linux_codes (posix linux_codes) /\ sockets_ok linux_codes (winsock linux_codes) /\
  sockets_ok linux_codes (lwip_socket linux_codes) /\ sockets_ok linux_codes (vxworks linux_codes).
Proof. split; [| split; [| split]]; apply small_stack_ok; try done; [left | right | left | left]; done. Qed.
(** One record goes whole; the second finds room for a part, and the stream is closed
    behind it; the third goes on the next connection once there is room. *)
Definition small_run : list (stream_input small_stack) :=
  [OpenNow 1; SendNow (str "first") 5; OpenNow 1; SendNow (str "second") 6; SendNow (str "lost") 4;
   StreamMeanwhile (fun k => k <| ss_Room := 100 |>); OpenNow 1; SendNow (str "second") 6; DestroyNow; SendNow (str "late") 4].
Abbreviation posix_run := (snd (stream_feed (PosixTcpStream_vtable linux_codes) (SolidSyslogPosixTcpStream_Cleanup linux_codes) small_run
  (tcp_fresh (SolidSyslogPosixTcpStream_Initialise linux_codes None) a_small_stack))).
Lemma socket_calls_keep_protocol_witness :
  option_map seen_Wires (observed linux_codes (posix linux_codes) (tw_Trace posix_run)) = Some [str "firstsec"; str "second"] /\
  (exists s, observed linux_codes (posix linux_codes) (tw_Trace posix_run) = Some s /\ (seen_Socket s = None <-> PosixTcpStream_IsFileDescriptorValid (tcp_Fd (tw_Self posix_run)) = false)).
Proof.
  split; [by vm_compute |].
  pose proof (proj1 (socket_calls_keep_protocol linux_codes) (proj1 small_stack_all) None a_small_stack small_run ltac:(repeat constructor)) as [Hs _].
  exact Hs.
Defined.
Lemma socket_streams_keep_contract_witness :
  map ev_Detail (tcp_reports linux_codes (posix linux_codes) posix_run) = [SOLIDSYSLOG_TCP_STREAM_ERROR_ALREADY_OPEN] /\
  keeps_contract linux_codes (posix linux_codes) (SolidSyslogPosixTcpStream_Initialise linux_codes) (PosixTcpStream_vtable linux_codes) (E := small_stack).
Proof. split; [by vm_compute |]. exact (proj1 (socket_streams_keep_contract linux_codes) (proj1 small_stack_all)). Defined.
