(* ===== verification/DatagramContract.v ===== *)
(** The contract of a datagram, as [SolidSyslogDatagramDefinition.h] and
    [SolidSyslogDatagram.h] give it to implementers and callers: what an Open, a SendTo
    and a Close may answer, report and leave behind.  A datagram is seen as whether it is
    open, the destination whose next hop it last found unresolved, how long it has waited
    for link addresses, how often it has offered the stack a datagram, and the datagrams
    the stack took; [datagram_contract] says that an implementation of the vtable behaves
    so. *)
From S2P Require Import Prelude Errors PendingEvents Interfaces Transport.

(** * States and steps *)

Record datagram_state := mkDatagramState {
  da_Open : bool;
  da_Latch : option Z;
  da_Waited : Z;
  da_Offered : Z;
  da_Sent : list bytes
}.
#[export] Instance settable_datagram_state : Settable datagram_state :=
  fun s => mkDatagramState (da_Open s) (da_Latch s) (da_Waited s) (da_Offered s) (da_Sent s).

(** What tells one class from another: the source of its reports, and whether it confirms
    the next hop before it hands a datagram over. *)
Record datagram_kind := mkDatagramKind { dk_Source : SolidSyslogErrorSource; dk_Confirms : bool }.
(** The largest message the tunables allow, with room to spare, and the most one UDP
    datagram can be: an implementation may pass a length on in 16 bits. *)
Definition UDP_LENGTH_MAX : Z := 65535.

Section steps.
Context (kind : datagram_kind).
Definition already_open : SolidSyslogErrorEvent :=
  mkErrorEvent SOLIDSYSLOG_BAD_ARGUMENT_SEVERITY SOLIDSYSLOG_CAT_BAD_ARGUMENT false (Some (dk_Source kind)) SOLIDSYSLOG_DATAGRAM_ERROR_ALREADY_OPEN 0.
Definition hop_unresolved (native : Z) : SolidSyslogErrorEvent :=
  mkErrorEvent SOLIDSYSLOG_SEVERITY_WARNING SOLIDSYSLOG_CAT_DATAGRAM_NEXT_HOP_UNRESOLVED true (Some (dk_Source kind)) SOLIDSYSLOG_DATAGRAM_ERROR_NEXT_HOP_UNRESOLVED native.

(** An Open of what is open is refused, reported, and changes nothing. *)
Inductive dg_opens (s : datagram_state) : bool -> list SolidSyslogErrorEvent -> datagram_state -> Prop :=
| open_refused : da_Open s = true -> dg_opens s false [already_open] s
| open_tried b : da_Open s = false -> dg_opens s b [] (s <| da_Open := b |>).

(** A wait is for a next hop that is not known to be failing. *)
Definition waits_once (s : datagram_state) (dest waited : Z) : Prop :=
  da_Waited s <= waited /\ (da_Latch s = Some dest \/ dk_Confirms kind = false -> waited = da_Waited s).
(** A destination that is offered a datagram is not latched afterwards, so its next
    outage is waited for and reported; the latch of another may stay. *)
Definition latch_clears (s : datagram_state) (dest : Z) (latch : option Z) : Prop :=
  (latch = da_Latch s \/ latch = None) /\ latch <> Some dest.
(** SENT is the whole record, handed over once and taken.  Anything else leaves nothing
    with the stack; where next hops are confirmed, FAILED is a stack that refused what it
    was offered, or a next hop that did not resolve: then nothing is offered, and it is
    reported when it starts, not while it lasts. *)
Inductive dg_hands (data : bytes) (dest : Z) (s : datagram_state) : SolidSyslogDatagramSendResult -> list SolidSyslogErrorEvent -> datagram_state -> Prop :=
| hands_sent latch waited :
    latch_clears s dest latch -> waits_once s dest waited ->
    dg_hands data dest s SOLIDSYSLOG_DATAGRAM_SEND_RESULT_SENT [] (mkDatagramState (da_Open s) latch waited (da_Offered s + 1) (da_Sent s ++ [data]))
| hands_refused result latch waited :
    result <> SOLIDSYSLOG_DATAGRAM_SEND_RESULT_SENT -> latch_clears s dest latch -> waits_once s dest waited ->
    dg_hands data dest s result [] (mkDatagramState (da_Open s) latch waited (da_Offered s + 1) (da_Sent s))
| hands_withheld result :
    result <> SOLIDSYSLOG_DATAGRAM_SEND_RESULT_SENT -> result = SOLIDSYSLOG_DATAGRAM_SEND_RESULT_OVERSIZE \/ dk_Confirms kind = false ->
    dg_hands data dest s result [] s
| hands_unresolved waited native :
    dk_Confirms kind = true -> da_Latch s <> Some dest -> waits_once s dest waited ->
    dg_hands data dest s SOLIDSYSLOG_DATAGRAM_SEND_RESULT_FAILED [hop_unresolved native]
      (mkDatagramState (da_Open s) (Some dest) waited (da_Offered s) (da_Sent s))
| hands_still_unresolved :
    dk_Confirms kind = true -> da_Latch s = Some dest ->
    dg_hands data dest s SOLIDSYSLOG_DATAGRAM_SEND_RESULT_FAILED [] s.
End steps.

(** * The contract *)

Section contract.
Context {W : Type} (kind : datagram_kind) (datagram : SolidSyslogDatagram W).
(** Where the datagram is in order; how a world shows it, and the reports it has made;
    the destination an address stands for. *)
Context (ok : W -> Prop) (state : W -> datagram_state) (reports : W -> list SolidSyslogErrorEvent) (dest : SolidSyslogAddress -> W -> Z).

(** A SendTo is of an open datagram, and of a buffer that holds what it says. *)
Record datagram_contract : Prop := {
  datagram_Open : forall w, ok w -> wp (SolidSyslogDatagram_Open (SolidSyslogDatagram := datagram)) (fun b w' =>
    ok w' /\ exists rs, dg_opens kind (state w) b rs (state w') /\ reports w' = reports w ++ rs) w;
  datagram_SendTo : forall buffer size addr w, ok w -> da_Open (state w) = true -> 0 <= size <= lenZ buffer -> size <= UDP_LENGTH_MAX ->
    wp (SolidSyslogDatagram_SendTo (SolidSyslogDatagram := datagram) buffer size addr) (fun r w' =>
      ok w' /\ exists rs, dg_hands kind (takeZ size buffer) (dest addr w) (state w) r rs (state w') /\ reports w' = reports w ++ rs) w;
  datagram_MaxPayload : forall w, ok w -> wp (SolidSyslogDatagram_MaxPayload (SolidSyslogDatagram := datagram)) (fun n w' =>
    ok w' /\ 0 <= n <= SIZE_MAX /\ state w' = state w /\ reports w' = reports w) w;
  datagram_Close : forall w, ok w -> wp (SolidSyslogDatagram_Close (SolidSyslogDatagram := datagram)) (fun _ w' =>
    ok w' /\ state w' = (state w) <| da_Open := false |> /\ reports w' = reports w) w
}.
End contract.
