(* ===== verification/Datagrams.v ===== *)
(** UDP datagrams over the stacks of six platforms
    ([src/Platform/{Posix,Windows,LwipSocket,VxWorks64,PlusTcp,LwipRaw}/Source/SolidSyslog*Datagram.c],
    and lwIP's marshal seam).  They differ in what has to be done before a datagram may
    be handed over: nothing, a connected path, a resolved link address, an allocated
    buffer.  The stack is the class [DatagramStack]: the theorems hold whatever it
    answers.  The monitor [observe_dg] says what a trace of its calls must be. *)
From S2P Require Import Prelude Errors PendingEvents Interfaces Transport TcpStreams DatagramContract.

(** * The stacks *)

(** A call that fails leaves its error number, read at once: [errno], or what
    [WSAGetLastError] gives.  A pair is the result and that number.  A pointer of the
    stack's, to a control block or a packet buffer, is a number, NULL being 0. *)
Class DatagramStack (E : Type) := {
  ds_socket : ST E Z;
  ds_connect : Z -> SolidSyslogAddress -> ST E Z;
  (** descriptor, level, option, value *)
  ds_setsockopt : Z -> Z -> Z -> Z -> ST E Z;
  (** [getsockopt] of [IP_MTU] at [IPPROTO_IP]: the result and the value *)
  ds_getsockopt : Z -> Z -> Z -> ST E (Z * Z);
  (** descriptor, data, length, address *)
  ds_sendto : Z -> bytes -> Z -> SolidSyslogAddress -> ST E (Z * Z);
  ds_close : Z -> ST E Z;
  (** the IPv4 address an address holds *)
  ds_in_addr : SolidSyslogAddress -> E -> Z;
  (** VxWorks: the address, as [inet_ntoa_b] writes it; the tries and the ticks between them *)
  ds_arpResolve : Z -> Z -> Z -> ST E (Z * Z);
  ds_sysClkRateGet : ST E Z;
  (** FreeRTOS-Plus-TCP: the lookup's answer, and the next hop it left *)
  ds_eARPGetCacheEntry : Z -> ST E (Z * Z);
  ds_OutputARPRequest : Z -> ST E unit;
  ds_vTaskDelay : Z -> ST E unit;
  (** lwIP's raw API; the data is the buffer's payload *)
  ds_udp_new : ST E Z;
  ds_udp_remove : Z -> ST E unit;
  ds_pbuf_alloc : Z -> ST E Z;
  ds_udp_sendto : Z -> Z -> bytes -> SolidSyslogAddress -> ST E Z;
  ds_pbuf_free : Z -> ST E Z
}.
(** The numbers of the platform's headers, and the tick rate its build sets. *)
Record datagram_codes := mkDatagramCodes {
  EMSGSIZE : Z; WSAEMSGSIZE : Z; IPPROTO_IP : Z; IP_MTU_DISCOVER : Z; IP_MTU : Z; IP_PMTUDISC_DO : Z;
  (** [WSA_INVALID], [FREERTOS_INVALID_SOCKET]: what stands for no socket *)
  WSA_INVALID : Z; FREERTOS_INVALID_SOCKET : Z;
  STATUS_OK : Z; STATUS_ERROR : Z; S_arpLib_INVALID_HOST : Z;
  eARPCacheHit : Z; configTICK_RATE_HZ : Z; ERR_OK : Z
}.

(** The tunable's default, and the constants of the files. *)
Definition SOLIDSYSLOG_DATAGRAM_RESOLVE_WAIT_MS : Z := 100.
Definition VXWORKS64_DATAGRAM_NO_SOCKET : Z := -1.
Definition VXWORKS64_DATAGRAM_RESOLVE_INTERVAL_TICKS : Z := 1.
Definition VXWORKS64_DATAGRAM_RESOLVE_TRIES_NOT_WAITING : Z := 1.
Definition VXWORKS64_DATAGRAM_MILLISECONDS_PER_SECOND : Z := 1000.
Definition PLUSTCP_DATAGRAM_MILLISECONDS_PER_SECOND : Z := 1000.

(** * A datagram in its environment *)

(** A datagram's vtable is its own or, once cleaned up, the null datagram's. *)
Inductive datagram_vtable := OwnDatagramVtable | NullDatagramVtable.

Section dg_world.
Context {E : Type}.

(** The configuration of the classes that have one. *)
Record datagram_config := mkDatagramConfig {
  dc_GetPayloadLimit : option (SolidSyslogUdpPayloadLimitFunction E);
  dc_PayloadLimitContext : option Z
}.
(** One record for the six structures: a class that lacks a field leaves it alone.
    [dg_Fd] is [Fd], [Socket] or [Pcb]. *)
Record datagram := mkDatagram {
  dg_Base : datagram_vtable;
  dg_Fd : Z;
  dg_Connected : bool;
  dg_Config : datagram_config;
  dg_ResolveFailing : bool;
  dg_FailedDestination : Z;
  dg_HasOffSubnetDestination : bool;
  dg_OffSubnetDestination : Z
}.
#[export] Instance settable_datagram : Settable datagram := fun d =>
  mkDatagram (dg_Base d) (dg_Fd d) (dg_Connected d) (dg_Config d) (dg_ResolveFailing d) (dg_FailedDestination d) (dg_HasOffSubnetDestination d) (dg_OffSubnetDestination d).

(** Each call of the stack with what it answered, and each report. *)
Inductive dg_event :=
| DgTaken (fd : Z)
| DgConnected (fd rc : Z)
| DgOption (fd level option value : Z)
| DgMtuRead (fd : Z)
| DgHanded (fd : Z) (data : bytes) (length ip result : Z)
| DgClosed (fd : Z)
| ArpResolved (ip tries interval status err : Z)
| ArpLookedUp (ip lookup : Z)
| ArpRequested (hop : Z)
| DgDelayed (ticks : Z)
| PbufTaken (p : Z)
| PbufFreed (p : Z)
| DgReported (event : SolidSyslogErrorEvent).

Record dg_world := mkDgWorld { dw_Self : datagram; dw_Env : E; dw_Trace : list dg_event }.
#[export] Instance settable_dg_world : Settable dg_world := fun w => mkDgWorld (dw_Self w) (dw_Env w) (dw_Trace w).
Definition dg_op (A : Type) : Type := ST dg_world A.

Definition dg_get {A} (f : datagram -> A) : dg_op A := st_get (fun w => f (dw_Self w)).
Definition dg_set (f : datagram -> datagram) : dg_op unit := st_mod (fun w => w <| dw_Self := f (dw_Self w) |>).
Definition dg_happens (e : dg_event) : dg_op unit := st_mod (fun w => w <| dw_Trace := dw_Trace w ++ [e] |>).
Definition dg_env {A} (m : ST E A) : dg_op A := zoom dw_Env (fun e w => w <| dw_Env := e |>) m.
Definition dg_call {A} (m : ST E A) (said : A -> dg_event) : dg_op A :=
  let! a := dg_env m in
  dg_happens (said a) ;;;
  st_ret a.
End dg_world.
Arguments datagram_config : clear implicits.
Arguments datagram : clear implicits.
Arguments dg_world : clear implicits.

(** Around the datagram, others report too. *)
#[export] Instance dg_world_tap {E} `{ErrorTap E} : ErrorTap (dg_world E) := {
  tap_Handler := fun event w => w <| dw_Env := tap_Handler event (dw_Env w) |>;
  tap_Slots := fun w => tap_Slots (dw_Env w);
  tap_SetSlots := fun slots w => w <| dw_Env := tap_SetSlots slots (dw_Env w) |>
}.

(** * What the six do alike *)

(** What has to be done before a datagram may be handed over: nothing; the socket
    connected, for the path's MTU; the link address of the next hop resolved, by a call
    that waits or in the stack's cache; a packet buffer allocated. *)
Inductive before_handing := NothingBefore | PathConnected | HopResolved | HopCached | BufferAllocated.
#[export] Instance before_handing_eq_dec : EqDecision before_handing.
Proof. solve_decision. Defined.
(** What tells the platforms apart in the common code: the source of the reports, the
    socket that is none and the test for one, the result that means the stack took a
    datagram, and the one that means it connected. *)
Record datagram_dialect := mkDatagramDialect {
  dd_Source : SolidSyslogErrorSource;
  dd_NoSocket : Z;
  dd_IsOpen : Z -> bool;
  dd_Took : Z -> bool;
  dd_Joined : Z -> bool;
  dd_Before : before_handing
}.

(** The address as it is lent for a call: where it is, and the IPv4 address there, which
    nothing writes while it is lent. *)
Record sockaddr_in := mkSockaddrIn { sin_Address : SolidSyslogAddress; sin_addr : Z }.

Section datagram_operations.
Context {E : Type} `{ErrorTap E} `{DatagramStack E} (codes : datagram_codes) (D : datagram_dialect).
Abbreviation op := (@dg_op E).

Definition Datagram_AsConstSockaddrIn (addr : SolidSyslogAddress) : op sockaddr_in := st_get (fun w => mkSockaddrIn addr (ds_in_addr addr (dw_Env w))).
Definition Datagram_Report (severity category code : Z) : op unit :=
  dg_env (st_mod (tap_error severity (Some (dd_Source D)) category code)) ;;;
  dg_happens (DgReported (mkErrorEvent severity category false (Some (dd_Source D)) code 0)).
Definition Datagram_ReportUnresolved (native : Z) : op unit :=
  let event := mkErrorEvent SOLIDSYSLOG_SEVERITY_WARNING SOLIDSYSLOG_CAT_DATAGRAM_NEXT_HOP_UNRESOLVED true (Some (dd_Source D))
    SOLIDSYSLOG_DATAGRAM_ERROR_NEXT_HOP_UNRESOLVED native in
  dg_env (st_mod (tap_emit event)) ;;;
  dg_happens (DgReported event).
Definition Datagram_IsOpen (self : datagram E) : bool := dd_IsOpen D (dg_Fd self).

(** [self->Config] is the caller's, or empty. *)
Definition copy_limit (config : option (datagram_config E)) : datagram_config E := default (mkDatagramConfig None None) config.
(** Every class sets its vtable and its socket. *)
Definition Datagram_Initialise (self : datagram E) : datagram E := self <| dg_Base := OwnDatagramVtable |> <| dg_Fd := dd_NoSocket D |>.

(** [Take] sets the socket. *)
Definition take_datagram_socket (create : ST E Z) : op unit :=
  let! fd := dg_call create DgTaken in
  dg_set (fun self => self <| dg_Fd := fd |>).
Definition Datagram_Open (Take : op unit) : op bool :=
  let! open := dg_get Datagram_IsOpen in
  if open : bool then
    Datagram_Report SOLIDSYSLOG_BAD_ARGUMENT_SEVERITY SOLIDSYSLOG_CAT_BAD_ARGUMENT SOLIDSYSLOG_DATAGRAM_ERROR_ALREADY_OPEN ;;;
    st_ret false
  else
    Take ;;;
    dg_get Datagram_IsOpen.
Definition drop_datagram_socket {A} (close : Z -> ST E A) : op unit :=
  let! fd := dg_get dg_Fd in
  dg_call (close fd) (fun _ => DgClosed fd) ;;;
  dg_set (fun self => self <| dg_Fd := dd_NoSocket D |>).
Definition Datagram_Close (Drop : op unit) : op unit :=
  let! open := dg_get Datagram_IsOpen in
  if! open : bool then Drop end!.
Definition Datagram_Cleanup (Close : op unit) : op unit :=
  Close ;;;
  dg_set (fun self => self <| dg_Base := NullDatagramVtable |>).

(** The call of [sendto] on the socket, the length as it is passed. *)
Definition call_sendto (buffer : bytes) (size length : Z) (sin : sockaddr_in) : op (Z * Z) :=
  let! fd := dg_get dg_Fd in
  dg_call (ds_sendto fd (takeZ size buffer) length (sin_Address sin)) (fun answer => DgHanded fd (takeZ size buffer) length (sin_addr sin) (fst answer)).
(** The three outcomes, where the stack says a datagram was too long. *)
Definition outcome_of (oversize : Z) (answer : Z * Z) : SolidSyslogDatagramSendResult :=
  if dd_Took D (fst answer) then SOLIDSYSLOG_DATAGRAM_SEND_RESULT_SENT
  else if snd answer =? oversize then SOLIDSYSLOG_DATAGRAM_SEND_RESULT_OVERSIZE
  else SOLIDSYSLOG_DATAGRAM_SEND_RESULT_FAILED.

(** The integrator's function gives a [size_t]. *)
Definition size_typed (limit : SolidSyslogUdpPayloadLimitFunction E) : SolidSyslogUdpPayloadLimitFunction E := fun context =>
  let! stated := limit context in
  st_ret (u32 stated).
Definition Datagram_StatedPayload : op Z :=
  let! config := dg_get dg_Config in
  dg_env (SolidSyslogUdpPayload_Stated (option_map size_typed (dc_GetPayloadLimit config)) (dc_PayloadLimitContext config)).

(** Dispatch through the vtable. *)
Definition Datagram_vtable (Take : op unit) (SendTo : bytes -> Z -> SolidSyslogAddress -> op SolidSyslogDatagramSendResult) (MaxPayload : op Z) (Close : op unit)
    : SolidSyslogDatagram (dg_world E) :=
  let own {A} (m null : op A) : op A :=
    let! base := dg_get dg_Base in match base with OwnDatagramVtable => m | NullDatagramVtable => null end in {|
  SolidSyslogDatagram_Open := own (Datagram_Open Take) NullDatagram_Open;
  SolidSyslogDatagram_SendTo := fun buffer size addr => own (SendTo buffer size addr) (NullDatagram_SendTo buffer size addr);
  SolidSyslogDatagram_MaxPayload := own MaxPayload NullDatagram_MaxPayload;
  SolidSyslogDatagram_Close := own Close NullDatagram_Close
|}.

(** ** A connected path (POSIX and Winsock) *)

Section path.
Definition Datagram_ConnectIfNeeded (sin : sockaddr_in) : op bool :=
  let! self := dg_get (fun self => self) in
  if! negb (dg_Connected self) then
    let! rc := dg_call (ds_connect (dg_Fd self) (sin_Address sin)) (DgConnected (dg_Fd self)) in
    if! dd_Joined D rc then
      let! _ := dg_call (ds_setsockopt (dg_Fd self) (IPPROTO_IP codes) (IP_MTU_DISCOVER codes) (IP_PMTUDISC_DO codes))
        (fun _ => DgOption (dg_Fd self) (IPPROTO_IP codes) (IP_MTU_DISCOVER codes) (IP_PMTUDISC_DO codes)) in
      dg_set (fun self => self <| dg_Connected := true |>)
    end!
  end! ;;;
  dg_get dg_Connected.
Definition path_SendTo (as_length : Z -> Z) (oversize : Z) (buffer : bytes) (size : Z) (addr : SolidSyslogAddress) : op SolidSyslogDatagramSendResult :=
  let! sin := Datagram_AsConstSockaddrIn addr in
  let! connected := Datagram_ConnectIfNeeded sin in
  if connected : bool then
    let! answer := call_sendto buffer size (as_length size) sin in
    st_ret (outcome_of oversize answer)
  else st_ret SOLIDSYSLOG_DATAGRAM_SEND_RESULT_FAILED.
Definition path_MaxPayload : op Z :=
  let! self := dg_get (fun self => self) in
  if dg_Connected self then
    let! answer := dg_call (ds_getsockopt (dg_Fd self) (IPPROTO_IP codes) (IP_MTU codes)) (fun _ => DgMtuRead (dg_Fd self)) in
    st_ret (if dd_Joined D (fst answer) && (0 <? snd answer) then SolidSyslogUdpPayload_FromMtu (u32 (snd answer)) false
            else SolidSyslogUdpPayload_UnknownPath false)
  else st_ret (SolidSyslogUdpPayload_UnknownPath false).
Definition path_Drop : op unit :=
  drop_datagram_socket ds_close ;;;
  dg_set (fun self => self <| dg_Connected := false |>).
End path.
End datagram_operations.

(** * POSIX *)

Section posix.
Context {E : Type} `{ErrorTap E} `{DatagramStack E} (codes : datagram_codes).
Abbreviation op := (@dg_op E).

Definition PosixDatagram_IsFileDescriptorValid (fd : Z) : bool := 0 <=? fd.
Definition posix_datagram : datagram_dialect := {|
  dd_Source := SolidSyslogPosixDatagramErrorSource;
  dd_NoSocket := INVALID_FD;
  dd_IsOpen := PosixDatagram_IsFileDescriptorValid;
  dd_Took := fun sent => 0 <=? sent;
  dd_Joined := fun rc => rc =? 0;
  dd_Before := PathConnected
|}.
Definition PosixDatagram_Report : Z -> Z -> Z -> op unit := Datagram_Report posix_datagram.
Definition SolidSyslogPosixDatagram_Initialise : op unit :=
  dg_set (fun self => (Datagram_Initialise posix_datagram self) <| dg_Connected := false |>).
Definition PosixDatagram_Open : op bool := Datagram_Open posix_datagram (take_datagram_socket ds_socket).
Definition PosixDatagram_ConnectIfNeeded : sockaddr_in -> op bool := Datagram_ConnectIfNeeded codes posix_datagram.
Definition PosixDatagram_SendTo : bytes -> Z -> SolidSyslogAddress -> op SolidSyslogDatagramSendResult :=
  path_SendTo codes posix_datagram (fun size => size) (EMSGSIZE codes).
Definition PosixDatagram_MaxPayload : op Z := path_MaxPayload codes posix_datagram.
Definition PosixDatagram_Close : op unit := Datagram_Close posix_datagram (path_Drop posix_datagram).
Definition SolidSyslogPosixDatagram_Cleanup : op unit := Datagram_Cleanup PosixDatagram_Close.
Definition PosixDatagram_vtable : SolidSyslogDatagram (dg_world E) :=
  Datagram_vtable posix_datagram (take_datagram_socket ds_socket) PosixDatagram_SendTo PosixDatagram_MaxPayload PosixDatagram_Close.
End posix.

(** * Winsock *)

Section winsock.
Context {E : Type} `{ErrorTap E} `{DatagramStack E} (codes : datagram_codes).
Abbreviation op := (@dg_op E).

Definition WinsockDatagram_IsSocketValid (fd : Z) : bool := negb (fd =? WSA_INVALID codes).
Definition winsock_datagram : datagram_dialect := {|
  dd_Source := SolidSyslogWinsockDatagramErrorSource;
  dd_NoSocket := WSA_INVALID codes;
  dd_IsOpen := WinsockDatagram_IsSocketValid;
  dd_Took := fun sent => negb (sent =? SOCKET_ERROR);
  dd_Joined := fun rc => negb (rc =? SOCKET_ERROR);
  dd_Before := PathConnected
|}.
(** The forwarders [Winsock_socket] and the rest call the function they are named for. *)
Definition WinsockDatagram_CallSocket : ST E Z := ds_socket.
Definition WinsockDatagram_CallCloseSocket : Z -> ST E Z := ds_close.
Definition WinsockDatagram_CallConnect : Z -> SolidSyslogAddress -> ST E Z := ds_connect.
Definition WinsockDatagram_CallSetSockOpt : Z -> Z -> Z -> Z -> ST E Z := ds_setsockopt.
Definition WinsockDatagram_CallGetSockOpt : Z -> Z -> Z -> ST E (Z * Z) := ds_getsockopt.
Definition WinsockDatagram_CallSendTo : Z -> bytes -> Z -> SolidSyslogAddress -> ST E (Z * Z) := ds_sendto.
Definition WinsockDatagram_Report : Z -> Z -> Z -> op unit := Datagram_Report winsock_datagram.
Definition SolidSyslogWinsockDatagram_Initialise : op unit :=
  dg_set (fun self => (Datagram_Initialise winsock_datagram self) <| dg_Connected := false |>).
Definition WinsockDatagram_Open : op bool := Datagram_Open winsock_datagram (take_datagram_socket WinsockDatagram_CallSocket).
Definition WinsockDatagram_ConnectIfNeeded : sockaddr_in -> op bool := Datagram_ConnectIfNeeded codes winsock_datagram.
Definition WinsockDatagram_SendTo : bytes -> Z -> SolidSyslogAddress -> op SolidSyslogDatagramSendResult :=
  path_SendTo codes winsock_datagram to_int (WSAEMSGSIZE codes).
Definition WinsockDatagram_MaxPayload : op Z := path_MaxPayload codes winsock_datagram.
Definition WinsockDatagram_Close : op unit := Datagram_Close winsock_datagram (path_Drop winsock_datagram).
Definition SolidSyslogWinsockDatagram_Cleanup : op unit := Datagram_Cleanup WinsockDatagram_Close.
Definition WinsockDatagram_vtable : SolidSyslogDatagram (dg_world E) :=
  Datagram_vtable winsock_datagram (take_datagram_socket WinsockDatagram_CallSocket) WinsockDatagram_SendTo WinsockDatagram_MaxPayload WinsockDatagram_Close.
End winsock.

(** * lwIP's sockets *)

Section lwip_socket.
Context {E : Type} `{ErrorTap E} `{DatagramStack E} (codes : datagram_codes).
Abbreviation op := (@dg_op E).

Definition LwipSocketDatagram_IsSocketValid (fd : Z) : bool := 0 <=? fd.
Definition lwip_socket_datagram : datagram_dialect := {|
  dd_Source := SolidSyslogLwipSocketDatagramErrorSource;
  dd_NoSocket := INVALID_FD;
  dd_IsOpen := LwipSocketDatagram_IsSocketValid;
  dd_Took := fun sent => 0 <=? sent;
  dd_Joined := fun _ => false;
  dd_Before := NothingBefore
|}.
Definition LwipSocketDatagram_Report : Z -> Z -> Z -> op unit := Datagram_Report lwip_socket_datagram.
Definition SolidSyslogLwipSocketDatagram_Initialise (config : option (datagram_config E)) : op unit :=
  dg_set (fun self => Datagram_Initialise lwip_socket_datagram (self <| dg_Config := copy_limit config |>)).
Definition LwipSocketDatagram_Open : op bool := Datagram_Open lwip_socket_datagram (take_datagram_socket ds_socket).
Definition LwipSocketDatagram_SendTo (buffer : bytes) (size : Z) (addr : SolidSyslogAddress) : op SolidSyslogDatagramSendResult :=
  let! sin := Datagram_AsConstSockaddrIn addr in
  let! answer := call_sendto buffer size size sin in
  let sendErrno := if fst answer <? 0 then snd answer else 0 in
  st_ret (if fst answer <? 0 then
            if sendErrno =? EMSGSIZE codes then SOLIDSYSLOG_DATAGRAM_SEND_RESULT_OVERSIZE else SOLIDSYSLOG_DATAGRAM_SEND_RESULT_FAILED
          else SOLIDSYSLOG_DATAGRAM_SEND_RESULT_SENT).
Definition LwipSocketDatagram_MaxPayload : op Z := Datagram_StatedPayload.
Definition LwipSocketDatagram_Close : op unit := Datagram_Close lwip_socket_datagram (drop_datagram_socket lwip_socket_datagram ds_close).
Definition SolidSyslogLwipSocketDatagram_Cleanup : op unit := Datagram_Cleanup LwipSocketDatagram_Close.
Definition LwipSocketDatagram_vtable : SolidSyslogDatagram (dg_world E) :=
  Datagram_vtable lwip_socket_datagram (take_datagram_socket ds_socket) LwipSocketDatagram_SendTo LwipSocketDatagram_MaxPayload LwipSocketDatagram_Close.
End lwip_socket.

(** * VxWorks *)

Section vxworks.
Context {E : Type} `{ErrorTap E} `{DatagramStack E} (codes : datagram_codes).
Abbreviation op := (@dg_op E).

Definition vxworks_HasSocket (fd : Z) : bool := 0 <=? fd.
Definition vxworks_datagram : datagram_dialect := {|
  dd_Source := SolidSyslogVxWorks64DatagramErrorSource;
  dd_NoSocket := VXWORKS64_DATAGRAM_NO_SOCKET;
  dd_IsOpen := vxworks_HasSocket;
  dd_Took := fun sent => negb (sent =? STATUS_ERROR codes);
  dd_Joined := fun _ => false;
  dd_Before := HopResolved
|}.
Definition VxWorks64Datagram_HasSocket (self : datagram E) : bool := vxworks_HasSocket (dg_Fd self).
Definition VxWorks64Datagram_Report : Z -> Z -> Z -> op unit := Datagram_Report vxworks_datagram.
Definition SolidSyslogVxWorks64Datagram_Initialise (config : option (datagram_config E)) : op unit :=
  dg_set (fun self => (Datagram_Initialise vxworks_datagram (self <| dg_Config := copy_limit config |>))
    <| dg_ResolveFailing := false |> <| dg_FailedDestination := 0 |> <| dg_HasOffSubnetDestination := false |> <| dg_OffSubnetDestination := 0 |>).
Definition VxWorks64Datagram_Open : op bool := Datagram_Open vxworks_datagram (take_datagram_socket ds_socket).
Definition VxWorks64Datagram_MaxPayload : op Z := Datagram_StatedPayload.

Definition VxWorks64Datagram_IsKnownOffTheSubnet (self : datagram E) (sin : sockaddr_in) : bool :=
  dg_HasOffSubnetDestination self && (dg_OffSubnetDestination self =? sin_addr sin).
Definition VxWorks64Datagram_IsStillFailing (self : datagram E) (sin : sockaddr_in) : bool :=
  dg_ResolveFailing self && (dg_FailedDestination self =? sin_addr sin).
Definition VxWorks64Datagram_IsOffTheSubnet (status resolveErrno : Z) : bool :=
  (status =? STATUS_ERROR codes) && (resolveErrno =? S_arpLib_INVALID_HOST codes).
(** The clock's rate is an [int]; the division truncates. *)
Definition VxWorks64Datagram_TicksFor (milliseconds : Z) : op Z :=
  let! rate := dg_env ds_sysClkRateGet in
  st_ret (to_int (u32 (Z.quot (milliseconds * rate + (VXWORKS64_DATAGRAM_MILLISECONDS_PER_SECOND - 1)) VXWORKS64_DATAGRAM_MILLISECONDS_PER_SECOND))).
Definition VxWorks64Datagram_TriesWaiting : op Z :=
  let! ticks := VxWorks64Datagram_TicksFor SOLIDSYSLOG_DATAGRAM_RESOLVE_WAIT_MS in
  st_ret (ticks + 1).
Definition VxWorks64Datagram_ReportUnresolved : Z -> op unit := Datagram_ReportUnresolved vxworks_datagram.
Definition VxWorks64Datagram_AskForTheLinkAddress (sin : sockaddr_in) : op bool :=
  let! self := dg_get (fun self => self) in
  let! tries := if VxWorks64Datagram_IsStillFailing self sin then st_ret VXWORKS64_DATAGRAM_RESOLVE_TRIES_NOT_WAITING else VxWorks64Datagram_TriesWaiting in
  let! answer := dg_call (ds_arpResolve (sin_addr sin) tries VXWORKS64_DATAGRAM_RESOLVE_INTERVAL_TICKS)
    (fun answer => ArpResolved (sin_addr sin) tries VXWORKS64_DATAGRAM_RESOLVE_INTERVAL_TICKS (fst answer) (if fst answer =? STATUS_ERROR codes then snd answer else 0)) in
  let status := fst answer in
  let resolveErrno := if status =? STATUS_ERROR codes then snd answer else 0 in
  let offTheSubnet := VxWorks64Datagram_IsOffTheSubnet status resolveErrno in
  if! offTheSubnet then
    dg_set (fun self => self <| dg_HasOffSubnetDestination := true |> <| dg_OffSubnetDestination := sin_addr sin |>)
  end! ;;;
  let resolved := (status =? STATUS_OK codes) || offTheSubnet in
  let! self := dg_get (fun self => self) in
  if! negb resolved && negb (VxWorks64Datagram_IsStillFailing self sin) then VxWorks64Datagram_ReportUnresolved resolveErrno end! ;;;
  dg_set (fun self => self <| dg_ResolveFailing := negb resolved |> <| dg_FailedDestination := sin_addr sin |>) ;;;
  st_ret resolved.
Definition VxWorks64Datagram_ResolveNextHop (sin : sockaddr_in) : op bool :=
  let! clear := dg_get (fun self => VxWorks64Datagram_IsKnownOffTheSubnet self sin) in
  if clear : bool then st_ret true else VxWorks64Datagram_AskForTheLinkAddress sin.
Definition VxWorks64Datagram_SendToStack (buffer : bytes) (size : Z) (sin : sockaddr_in) : op SolidSyslogDatagramSendResult :=
  let! answer := call_sendto buffer size (to_int size) sin in
  st_ret (outcome_of vxworks_datagram (EMSGSIZE codes) answer).
Definition VxWorks64Datagram_SendTo (buffer : bytes) (size : Z) (addr : SolidSyslogAddress) : op SolidSyslogDatagramSendResult :=
  let! sin := Datagram_AsConstSockaddrIn addr in
  let! limit := VxWorks64Datagram_MaxPayload in
  if size <=? limit then
    let! clear := VxWorks64Datagram_ResolveNextHop sin in
    if clear : bool then VxWorks64Datagram_SendToStack buffer size sin else st_ret SOLIDSYSLOG_DATAGRAM_SEND_RESULT_FAILED
  else st_ret SOLIDSYSLOG_DATAGRAM_SEND_RESULT_OVERSIZE.
Definition VxWorks64Datagram_Close : op unit := Datagram_Close vxworks_datagram (drop_datagram_socket vxworks_datagram ds_close).
Definition SolidSyslogVxWorks64Datagram_Cleanup : op unit := Datagram_Cleanup VxWorks64Datagram_Close.
Definition VxWorks64Datagram_vtable : SolidSyslogDatagram (dg_world E) :=
  Datagram_vtable vxworks_datagram (take_datagram_socket ds_socket) VxWorks64Datagram_SendTo VxWorks64Datagram_MaxPayload VxWorks64Datagram_Close.
End vxworks.

(** * FreeRTOS-Plus-TCP *)

Section plus_tcp.
Context {E : Type} `{ErrorTap E} `{DatagramStack E} (codes : datagram_codes).
Abbreviation op := (@dg_op E).

Definition plus_tcp_IsOpen (socket : Z) : bool := negb (socket =? FREERTOS_INVALID_SOCKET codes).
Definition plus_tcp_datagram : datagram_dialect := {|
  dd_Source := SolidSyslogPlusTcpDatagramErrorSource;
  dd_NoSocket := FREERTOS_INVALID_SOCKET codes;
  dd_IsOpen := plus_tcp_IsOpen;
  dd_Took := fun sent => 0 <? sent;
  dd_Joined := fun _ => false;
  dd_Before := HopCached
|}.
Definition PlusTcpDatagram_IsOpen (self : datagram E) : bool := plus_tcp_IsOpen (dg_Fd self).
Definition PlusTcpDatagram_Report : Z -> Z -> Z -> op unit := Datagram_Report plus_tcp_datagram.
Definition SolidSyslogPlusTcpDatagram_Initialise (config : option (datagram_config E)) : op unit :=
  dg_set (fun self => (Datagram_Initialise plus_tcp_datagram (self <| dg_Config := copy_limit config |>)) <| dg_ResolveFailing := false |>).
Definition PlusTcpDatagram_Open : op bool := Datagram_Open plus_tcp_datagram (take_datagram_socket ds_socket).

(** The answer, and the next hop in the caller's variable. *)
Definition PlusTcpDatagram_LookUpNextHop (ip : Z) : op (Z * Z) := dg_call (ds_eARPGetCacheEntry ip) (fun answer => ArpLookedUp ip (fst answer)).
(** In 32 bits. *)
Definition PlusTcpDatagram_ResolveWaitTicks : Z :=
  u32 (u32 (SOLIDSYSLOG_DATAGRAM_RESOLVE_WAIT_MS * configTICK_RATE_HZ codes) + (PLUSTCP_DATAGRAM_MILLISECONDS_PER_SECOND - 1)) / PLUSTCP_DATAGRAM_MILLISECONDS_PER_SECOND.
Definition PlusTcpDatagram_ReportUnresolved : Z -> op unit := Datagram_ReportUnresolved plus_tcp_datagram.
(** One round of the wait: the tick and the last lookup. *)
Definition next_hop_round (ip ticksToWait : Z) (l : Z * Z) : op (bool * (Z * Z)) :=
  let '(tick, lookup) := l in
  if (tick <? ticksToWait) && negb (lookup =? eARPCacheHit codes) then
    dg_call (ds_vTaskDelay 1) (fun _ => DgDelayed 1) ;;;
    let! answer := PlusTcpDatagram_LookUpNextHop ip in
    st_ret (true, (tick + 1, fst answer))
  else st_ret (false, l).
Definition PlusTcpDatagram_NextHopResolves (ip : Z) : op bool :=
  let! answer := PlusTcpDatagram_LookUpNextHop ip in
  let '(lookup, nextHop) := answer in
  if! negb (lookup =? eARPCacheHit codes) then dg_call (ds_OutputARPRequest nextHop) (fun _ => ArpRequested nextHop) end! ;;;
  let! failing := dg_get dg_ResolveFailing in
  let ticksToWait := if failing : bool then 0 else PlusTcpDatagram_ResolveWaitTicks in
  let! l := loopM (S (Z.to_nat ticksToWait)) (next_hop_round ip ticksToWait) (0, lookup) in
  let resolved := snd l =? eARPCacheHit codes in
  let! failing := dg_get dg_ResolveFailing in
  if! negb resolved && negb failing then PlusTcpDatagram_ReportUnresolved (snd l) end! ;;;
  dg_set (fun self => self <| dg_ResolveFailing := negb resolved |>) ;;;
  st_ret resolved.
Definition PlusTcpDatagram_SendTo (buffer : bytes) (size : Z) (addr : SolidSyslogAddress) : op SolidSyslogDatagramSendResult :=
  let! open := dg_get PlusTcpDatagram_IsOpen in
  if open : bool then
    let! dest := Datagram_AsConstSockaddrIn addr in
    let! resolves := PlusTcpDatagram_NextHopResolves (sin_addr dest) in
    if resolves : bool then
      let! sent := call_sendto buffer size size dest in
      st_ret (if 0 <? fst sent then SOLIDSYSLOG_DATAGRAM_SEND_RESULT_SENT else SOLIDSYSLOG_DATAGRAM_SEND_RESULT_FAILED)
    else st_ret SOLIDSYSLOG_DATAGRAM_SEND_RESULT_FAILED
  else st_ret SOLIDSYSLOG_DATAGRAM_SEND_RESULT_FAILED.
Definition PlusTcpDatagram_MaxPayload : op Z := Datagram_StatedPayload.
Definition PlusTcpDatagram_Close : op unit := Datagram_Close plus_tcp_datagram (drop_datagram_socket plus_tcp_datagram ds_close).
Definition SolidSyslogPlusTcpDatagram_Cleanup : op unit := Datagram_Cleanup PlusTcpDatagram_Close.
Definition PlusTcpDatagram_vtable : SolidSyslogDatagram (dg_world E) :=
  Datagram_vtable plus_tcp_datagram (take_datagram_socket ds_socket) PlusTcpDatagram_SendTo PlusTcpDatagram_MaxPayload PlusTcpDatagram_Close.
End plus_tcp.

(** * lwIP's raw API *)

(** ** The marshal seam ([SolidSyslogLwipRawMarshal.c])

    The integrator's function runs what it is given on the thread that owns the stack. *)

Definition SolidSyslogLwipRawMarshalFunction (W : Type) : Type := forall A, ST W A -> ST W A.
Definition Marshal_NullMarshal {W} : SolidSyslogLwipRawMarshalFunction W := fun A callback => callback.
(** [currentMarshal] after it, whatever it was. *)
Definition SolidSyslogLwipRaw_SetMarshal {W} (marshal : option (SolidSyslogLwipRawMarshalFunction W)) : SolidSyslogLwipRawMarshalFunction W :=
  match marshal with None => Marshal_NullMarshal | Some marshal => marshal end.
Definition SolidSyslogLwipRaw_Marshal {W} (currentMarshal : SolidSyslogLwipRawMarshalFunction W) {A} (callback : ST W A) : ST W A := currentMarshal A callback.
(** It must run its callback, once, before it returns; what else it does is the
    environment's: a lock, a post to a mailbox, a wait. *)
Definition runs_in_place {E} (marshal : SolidSyslogLwipRawMarshalFunction (dg_world E)) : Prop :=
  exists enter leave : ST E unit, forall A (callback : dg_op A) w, marshal A callback w = (dg_env enter ;;; let! a := callback in dg_env leave ;;; st_ret a) w.

Section lwip_raw.
Context {E : Type} `{ErrorTap E} `{DatagramStack E} (codes : datagram_codes) (currentMarshal : SolidSyslogLwipRawMarshalFunction (dg_world E)).
Abbreviation op := (@dg_op E).

Definition lwip_raw_IsOpen (pcb : Z) : bool := negb (pcb =? 0).
Definition lwip_raw_datagram : datagram_dialect := {|
  dd_Source := SolidSyslogLwipRawDatagramErrorSource;
  dd_NoSocket := 0;
  dd_IsOpen := lwip_raw_IsOpen;
  dd_Took := fun err => err =? ERR_OK codes;
  dd_Joined := fun _ => false;
  dd_Before := BufferAllocated
|}.
Definition LwipRawDatagram_IsOpen (self : datagram E) : bool := lwip_raw_IsOpen (dg_Fd self).
Definition LwipRawDatagram_Report : Z -> Z -> Z -> op unit := Datagram_Report lwip_raw_datagram.
Definition SolidSyslogLwipRawDatagram_Initialise (config : option (datagram_config E)) : op unit :=
  dg_set (fun self => Datagram_Initialise lwip_raw_datagram (self <| dg_Config := copy_limit config |>)).
Definition LwipRawDatagram_DoOpen : op unit := take_datagram_socket ds_udp_new.
Definition LwipRawDatagram_DoClose : op unit :=
  let! pcb := dg_get dg_Fd in
  dg_call (ds_udp_remove pcb) (fun _ => DgClosed pcb) ;;;
  dg_set (fun self => self <| dg_Fd := 0 |>).
(** The result is the call's [Result]; the payload is what the caller's buffer has, as
    far as the packet buffer's own length goes. *)
Definition LwipRawDatagram_DoSendTo (buffer : bytes) (size : Z) (dst : sockaddr_in) : op SolidSyslogDatagramSendResult :=
  let! p := dg_call (ds_pbuf_alloc (u16 size)) PbufTaken in
  if negb (p =? 0) then
    let! pcb := dg_get dg_Fd in
    let payload := takeZ (u16 size) buffer in
    let! err := dg_call (ds_udp_sendto pcb p payload (sin_Address dst)) (DgHanded pcb payload (u16 size) (sin_addr dst)) in
    dg_call (ds_pbuf_free p) (fun _ => PbufFreed p) ;;;
    st_ret (if err =? ERR_OK codes then SOLIDSYSLOG_DATAGRAM_SEND_RESULT_SENT else SOLIDSYSLOG_DATAGRAM_SEND_RESULT_FAILED)
  else st_ret SOLIDSYSLOG_DATAGRAM_SEND_RESULT_FAILED.
Definition LwipRawDatagram_Open : op bool := Datagram_Open lwip_raw_datagram (SolidSyslogLwipRaw_Marshal currentMarshal LwipRawDatagram_DoOpen).
Definition LwipRawDatagram_SendTo (buffer : bytes) (size : Z) (addr : SolidSyslogAddress) : op SolidSyslogDatagramSendResult :=
  let! open := dg_get LwipRawDatagram_IsOpen in
  if open : bool then
    let! dst := Datagram_AsConstSockaddrIn addr in
    SolidSyslogLwipRaw_Marshal currentMarshal (LwipRawDatagram_DoSendTo buffer size dst)
  else st_ret SOLIDSYSLOG_DATAGRAM_SEND_RESULT_FAILED.
Definition LwipRawDatagram_MaxPayload : op Z := Datagram_StatedPayload.
Definition LwipRawDatagram_Close : op unit := Datagram_Close lwip_raw_datagram (SolidSyslogLwipRaw_Marshal currentMarshal LwipRawDatagram_DoClose).
Definition SolidSyslogLwipRawDatagram_Cleanup : op unit := Datagram_Cleanup LwipRawDatagram_Close.
Definition LwipRawDatagram_vtable : SolidSyslogDatagram (dg_world E) :=
  Datagram_vtable lwip_raw_datagram (SolidSyslogLwipRaw_Marshal currentMarshal LwipRawDatagram_DoOpen) LwipRawDatagram_SendTo LwipRawDatagram_MaxPayload LwipRawDatagram_Close.
End lwip_raw.

(** * What a trace must be *)

(** The socket held, its path, the destination whose link address was last confirmed and
    the one last found off the subnet, the packet buffer held; the ticks waited, the
    datagrams offered, those taken, and the reports. *)
Record dg_seen := mkDgSeen {
  dn_Socket : option Z;
  dn_Path : bool;
  dn_Hop : option Z;
  dn_Routed : option Z;
  dn_Pbuf : option Z;
  dn_Waited : Z;
  dn_Offered : Z;
  dn_Sent : list bytes;
  dn_Reports : list SolidSyslogErrorEvent
}.
Definition nothing_sent : dg_seen := mkDgSeen None false None None None 0 0 [] [].

Section observer.
Context (codes : datagram_codes) (D : datagram_dialect).
Definition may_hand (s : dg_seen) (ip : Z) : bool :=
  match dd_Before D with
  | NothingBefore => true
  | PathConnected => dn_Path s
  | HopResolved | HopCached => bool_decide (dn_Hop s = Some ip) || bool_decide (dn_Routed s = Some ip)
  | BufferAllocated => match dn_Pbuf s with Some _ => true | None => false end
  end.
(** A socket is taken while none is held, used while it is held, and closed once; a path
    is connected once; a datagram is handed over whole, after what has to come before it,
    and a confirmed link address is good for one; a packet buffer is given back. *)
Definition observe_dg (s : dg_seen) (e : dg_event) : option dg_seen :=
  let '(mkDgSeen socket path hop routed pbuf waited offered sent reports) := s in
  match e with
  | DgTaken fd =>
      if bool_decide (socket = None)
      then Some (mkDgSeen (if dd_IsOpen D fd then Some fd else None) false hop routed pbuf waited offered sent reports) else None
  | DgConnected fd rc =>
      if bool_decide (socket = Some fd) && negb path
      then Some (mkDgSeen socket (dd_Joined D rc) hop routed pbuf waited offered sent reports) else None
  | DgOption fd _ _ _ => if bool_decide (socket = Some fd) then Some s else None
  | DgMtuRead fd => if bool_decide (socket = Some fd) && path then Some s else None
  | DgHanded fd data length ip result =>
      if bool_decide (socket = Some fd) && may_hand s ip && (length =? lenZ data)
      then Some (mkDgSeen socket path None routed pbuf waited (offered + 1) (if dd_Took D result then sent ++ [data] else sent) reports) else None
  | DgClosed fd =>
      if bool_decide (socket = Some fd) && bool_decide (pbuf = None)
      then Some (mkDgSeen None false hop routed pbuf waited offered sent reports) else None
  | ArpResolved ip tries interval status err =>
      Some (mkDgSeen socket path (if status =? STATUS_OK codes then Some ip else None)
              (if (status =? STATUS_ERROR codes) && (err =? S_arpLib_INVALID_HOST codes) then Some ip else routed)
              pbuf (waited + Z.max 0 ((tries - 1) * interval)) offered sent reports)
  | ArpLookedUp ip lookup => Some (mkDgSeen socket path (if lookup =? eARPCacheHit codes then Some ip else None) routed pbuf waited offered sent reports)
  | ArpRequested _ => Some s
  | DgDelayed ticks => Some (mkDgSeen socket path None routed pbuf (waited + ticks) offered sent reports)
  | PbufTaken p =>
      if bool_decide (pbuf = None)
      then Some (mkDgSeen socket path hop routed (if p =? 0 then None else Some p) waited offered sent reports) else None
  | PbufFreed p => if bool_decide (pbuf = Some p) then Some (mkDgSeen socket path hop routed None waited offered sent reports) else None
  | DgReported event => Some (mkDgSeen socket path hop routed pbuf waited offered sent (reports ++ [event]))
  end.
Definition dg_observed (es : list dg_event) : option dg_seen :=
  fold_left (fun s e => match s with Some s => observe_dg s e | None => None end) es (Some nothing_sent).
Lemma dg_observed_snoc es e : dg_observed (es ++ [e]) = match dg_observed es with Some s => observe_dg s e | None => None end.
Proof. unfold dg_observed. by rewrite fold_left_app. Qed.
Definition dg_seen_of {E} (w : dg_world E) : dg_seen := default nothing_sent (dg_observed (dw_Trace w)).

(** ** A datagram in order *)

Definition dg_latch {E} (self : datagram E) : option Z :=
  match dd_Before D with
  | HopResolved => if dg_ResolveFailing self then Some (dg_FailedDestination self) else None
  | HopCached => if dg_ResolveFailing self then Some 0 else None
  | _ => None
  end.
(** What the fields of a class say is what has been seen. *)
Definition dg_tied {E} (self : datagram E) (s : dg_seen) : Prop :=
  dn_Socket s = (if dd_IsOpen D (dg_Fd self) then Some (dg_Fd self) else None) /\ dn_Pbuf s = None /\
  match dd_Before D with
  | PathConnected => dn_Path s = dg_Connected self /\ (dg_Connected self = true -> dd_IsOpen D (dg_Fd self) = true)
  | HopResolved => dg_HasOffSubnetDestination self = true ->
      dn_Routed s = Some (dg_OffSubnetDestination self) /\ dg_latch self <> Some (dg_OffSubnetDestination self)
  | _ => True
  end.
Definition dg_ok {E} (w : dg_world E) : Prop :=
  dg_Base (dw_Self w) = OwnDatagramVtable /\ exists s, dg_observed (dw_Trace w) = Some s /\ dg_tied (dw_Self w) s.
(** The destination the latch is for: one for all where the class keeps but one bit. *)
Definition dg_dest {E} `{DatagramStack E} (addr : SolidSyslogAddress) (w : dg_world E) : Z :=
  match dd_Before D with HopResolved => ds_in_addr addr (dw_Env w) | _ => 0 end.
Definition dg_view {E} (self : datagram E) (s : dg_seen) : datagram_state :=
  mkDatagramState (dd_IsOpen D (dg_Fd self)) (dg_latch self) (dn_Waited s) (dn_Offered s) (dn_Sent s).
Definition dg_state {E} (w : dg_world E) : datagram_state := dg_view (dw_Self w) (dg_seen_of w).
Definition dg_reports {E} (w : dg_world E) : list SolidSyslogErrorEvent := dn_Reports (dg_seen_of w).
Definition dg_kind : datagram_kind := {|
  dk_Source := dd_Source D;
  dk_Confirms := match dd_Before D with HopResolved | HopCached => true | _ => false end
|}.
End observer.

(** * Running an operation in what is seen *)

Section leads.
Context {E : Type} `{HT : ErrorTap E} `{HS : DatagramStack E} (codes : datagram_codes) (D : datagram_dialect).
Abbreviation op := (@dg_op E).
Implicit Types (w : dg_world E) (self : datagram E) (s : dg_seen).

Definition dg_stands self s w : Prop := dw_Self w = self /\ dg_observed codes D (dw_Trace w) = Some s.
(** An operation whose calls keep the protocol ends in a datagram, and in what is then
    seen, that [Q] allows, whatever the stack and the integrator's functions answered. *)
Definition dg_leads {A} (m : op A) self s (Q : A -> datagram E -> dg_seen -> Prop) : Prop :=
  forall w, dg_stands self s w -> wp m (fun a w' => exists self' s', dg_stands self' s' w' /\ Q a self' s') w.

Lemma dleads_bind {A B} (m : op A) (k : A -> op B) self s Q :
  dg_leads m self s (fun a self' s' => dg_leads (k a) self' s' Q) -> dg_leads (let! a := m in k a) self s Q.
Proof using. intros Hm w Hw. apply wp_bind. eapply wp_mono; [by apply Hm |]. intros a w' (self' & s' & Hw' & Hk). by apply Hk. Qed.
Lemma dleads_ret {A} (a : A) self s (Q : A -> datagram E -> dg_seen -> Prop) : Q a self s -> dg_leads (st_ret a) self s Q.
Proof using. intros HQ w Hw. apply wp_ret. eauto. Qed.
Lemma dleads_mono {A} (m : op A) self s (Q Q' : A -> datagram E -> dg_seen -> Prop) :
  dg_leads m self s Q -> (forall a self' s', Q a self' s' -> Q' a self' s') -> dg_leads m self s Q'.
Proof using. intros Hm HQ w Hw. eapply wp_mono; [by apply Hm |]. intros a w' (self' & s' & Hw' & Ha). eauto 6. Qed.
Lemma dleads_get {A} (f : datagram E -> A) self s Q : Q (f self) self s -> dg_leads (dg_get f) self s Q.
Proof using. intros HQ w Hw. apply wp_get. destruct Hw as [<- Hs]. exists (dw_Self w), s. by split. Qed.
Lemma dleads_set (f : datagram E -> datagram E) self s (Q : unit -> datagram E -> dg_seen -> Prop) : Q tt (f self) s -> dg_leads (dg_set f) self s Q.
Proof using. intros HQ w [<- Hs]. apply wp_mod. exists (f (dw_Self w)), s. by split. Qed.
Lemma dleads_env {A} (m : ST E A) (F : A -> Prop) self s (Q : A -> datagram E -> dg_seen -> Prop) :
  (forall e, F (fst (m e))) -> (forall a, F a -> Q a self s) -> dg_leads (dg_env m) self s Q.
Proof using.
  intros HF HQ w Hw. apply wp_zoom. unfold wp. exists self, s. split; [by destruct Hw; split | apply HQ, HF].
Qed.
Lemma dleads_any_env {A} (m : ST E A) self s (Q : A -> datagram E -> dg_seen -> Prop) : (forall a, Q a self s) -> dg_leads (dg_env m) self s Q.
Proof using. intros HQ. by apply (dleads_env m (fun _ => True)). Qed.
Lemma dleads_happens e self s s' (Q : unit -> datagram E -> dg_seen -> Prop) : observe_dg codes D s e = Some s' -> Q tt self s' -> dg_leads (dg_happens e) self s Q.
Proof using.
  intros Ho HQ w [<- Hs]. apply wp_mod. exists (dw_Self w), s'. split; [| done]. split; [done |].
  change (dg_observed codes D (dw_Trace w ++ [e]) = Some s'). by rewrite dg_observed_snoc, Hs.
Qed.
Lemma dleads_call {A} (m : ST E A) said self s (Q : A -> datagram E -> dg_seen -> Prop) :
  (forall a, exists s', observe_dg codes D s (said a) = Some s' /\ Q a self s') -> dg_leads (dg_call m said) self s Q.
Proof using.
  intros HQ. apply dleads_bind, dleads_any_env. intros a. destruct (HQ a) as (s' & Ho & Hq). apply dleads_bind.
  by eapply dleads_happens, dleads_ret.
Qed.
(** Each round that goes on brings the measure down. *)
Lemma dleads_loop {A} (I : A -> datagram E -> dg_seen -> Prop) (m : A -> Z) (body : A -> op (bool * A)) : forall fuel a self s (Q : A -> datagram E -> dg_seen -> Prop),
  I a self s -> m a < Z.of_nat fuel ->
  (forall a self s, I a self s -> 0 <= m a /\ dg_leads (body a) self s (fun r self' s' => if fst r then I (snd r) self' s' /\ m (snd r) < m a else Q (snd r) self' s')) ->
  dg_leads (loopM fuel body a) self s Q.
Proof using.
  induction fuel as [| fuel IH]; intros a self s Q HI Hm Hstep; cbn [loopM]; [destruct (Hstep a self s HI); lia |].
  apply dleads_bind. eapply dleads_mono; [apply Hstep, HI |]. intros [[] a'] self' s'; cbn [fst snd]; [| by apply dleads_ret].
  intros [HI' Hm']. apply IH; [done | lia | done].
Qed.
(** What runs in place does what it runs. *)
Lemma dleads_marshal marshal {A} (callback : op A) self s Q : runs_in_place marshal -> dg_leads callback self s Q ->
  dg_leads (SolidSyslogLwipRaw_Marshal marshal callback) self s Q.
Proof using.
  intros (enter & leave & Hm) Hc w Hw. unfold SolidSyslogLwipRaw_Marshal, wp. rewrite Hm. revert w Hw.
  change (dg_leads (dg_env enter ;;; let! a := callback in dg_env leave ;;; st_ret a) self s Q).
  apply dleads_bind, dleads_any_env. intros _. apply dleads_bind. eapply dleads_mono; [exact Hc |]. intros a self' s' HQ.
  apply dleads_bind, dleads_any_env. intros _. by apply dleads_ret.
Qed.
Lemma Datagram_Report_leads severity category code self s (Q : unit -> datagram E -> dg_seen -> Prop) :
  (forall s', observe_dg codes D s (DgReported (mkErrorEvent severity category false (Some (dd_Source D)) code 0)) = Some s' -> Q tt self s') ->
  dg_leads (Datagram_Report D severity category code) self s Q.
Proof using. intros HQ. apply dleads_bind, dleads_any_env. intros _. destruct s. eapply dleads_happens; [done |]. by apply HQ. Qed.
Lemma Datagram_ReportUnresolved_leads native self s (Q : unit -> datagram E -> dg_seen -> Prop) :
  (forall s', observe_dg codes D s (DgReported (hop_unresolved (dg_kind D) native)) = Some s' -> Q tt self s') ->
  dg_leads (Datagram_ReportUnresolved D native) self s Q.
Proof using. intros HQ. apply dleads_bind, dleads_any_env. intros _. destruct s. eapply dleads_happens; [done |]. by apply HQ. Qed.
End leads.

(** One step of an operation, on a datagram that is a constructor term. *)
Ltac dlead_step :=
  lazymatch goal with
  | |- dg_leads _ _ (st_bind _ _) _ _ _ => apply dleads_bind
  | |- dg_leads _ _ (st_ret _) _ _ _ => apply dleads_ret
  | |- dg_leads _ _ (dg_get _) _ _ _ => apply dleads_get; cbn [dg_Base dg_Fd dg_Connected dg_Config dg_ResolveFailing dg_FailedDestination dg_HasOffSubnetDestination dg_OffSubnetDestination]
  | |- dg_leads _ _ (dg_set _) _ _ _ => apply dleads_set; cbn [set_field dg_Base dg_Fd dg_Connected dg_Config dg_ResolveFailing dg_FailedDestination dg_HasOffSubnetDestination dg_OffSubnetDestination]
  end.
Ltac dleads_on := cbv beta iota; repeat (dlead_step; cbv beta iota).

(** * The contract, for any class *)

Section contract.
Context {E : Type} `{HT : ErrorTap E} `{HS : DatagramStack E} (codes : datagram_codes) (D : datagram_dialect).
Context (no_socket : dd_IsOpen D (dd_NoSocket D) = false).
Abbreviation op := (@dg_op E).
Abbreviation leads := (dg_leads codes D).
Implicit Types (w : dg_world E) (self : datagram E) (s : dg_seen) (st : datagram_state).

(** In order, with what it shows. *)
Definition in_state st (rs : list SolidSyslogErrorEvent) self s : Prop :=
  dg_Base self = OwnDatagramVtable /\ dg_tied D self s /\ dg_view D self s = st /\ dn_Reports s = rs.
Lemma ok_in_state w : dg_ok codes D w <-> exists s, dg_stands codes D (dw_Self w) s w /\ in_state (dg_state codes D w) (dg_reports codes D w) (dw_Self w) s.
Proof using.
  unfold dg_ok, in_state, dg_state, dg_reports, dg_seen_of, dg_stands. split.
  - intros (Hb & s & Hs & Ht). exists s. rewrite Hs. by repeat split; try done; apply Ht.
  - intros (s & [_ Hs] & Hb & Ht & _). eauto.
Qed.
(** From what an operation leads to, to the worlds. *)
Lemma leads_ok {A} (m : op A) w (R : A -> datagram_state -> list SolidSyslogErrorEvent -> Prop) s :
  dg_stands codes D (dw_Self w) s w ->
  leads m (dw_Self w) s (fun a self' s' => exists st' rs', in_state st' rs' self' s' /\ R a st' rs') ->
  wp m (fun a w' => dg_ok codes D w' /\ R a (dg_state codes D w') (dg_reports codes D w')) w.
Proof using.
  intros Hs Hm. eapply wp_mono; [by apply Hm |]. intros a w' (self' & s' & [<- Ho] & st' & rs' & (Hb & Ht & Hv & Hr) & HR).
  split; [split; eauto |]. unfold dg_state, dg_reports, dg_seen_of. rewrite Ho. cbn. by rewrite Hv, Hr.
Qed.

(** What a class has to show of its own operations. *)
Context (Take : op unit) (SendTo : bytes -> Z -> SolidSyslogAddress -> op SolidSyslogDatagramSendResult) (MaxPayload : op Z) (Drop : op unit).
Record class_ok : Prop := {
  class_Take : forall st rs self s, in_state st rs self s -> da_Open st = false -> leads Take self s (fun _ self' s' => exists b, in_state (st <| da_Open := b |>) rs self' s');
  class_SendTo : forall buffer size addr w s, dg_stands codes D (dw_Self w) s w -> in_state (dg_state codes D w) (dg_reports codes D w) (dw_Self w) s ->
    da_Open (dg_state codes D w) = true -> 0 <= size <= lenZ buffer -> size <= UDP_LENGTH_MAX ->
    wp (SendTo buffer size addr) (fun r w' => exists self' s' st' rs, dg_stands codes D self' s' w' /\ in_state st' (dg_reports codes D w ++ rs) self' s' /\
      dg_hands (dg_kind D) (takeZ size buffer) (dg_dest D addr w) (dg_state codes D w) r rs st') w;
  class_MaxPayload : forall st rs self s, in_state st rs self s -> leads MaxPayload self s (fun n self' s' => 0 <= n <= SIZE_MAX /\ in_state st rs self' s');
  class_Drop : forall st rs self s, in_state st rs self s -> da_Open st = true -> leads Drop self s (fun _ self' s' => in_state (st <| da_Open := false |>) rs self' s')
}.
Context (CK : class_ok).

Lemma closed_same st : da_Open st = false -> st <| da_Open := false |> = st.
Proof using. destruct st. cbn. by intros ->. Qed.
Lemma in_state_open st rs self s : in_state st rs self s -> Datagram_IsOpen D self = da_Open st.
Proof using. intros (_ & _ & <- & _). done. Qed.
Lemma Datagram_Close_leads st rs self s : in_state st rs self s -> leads (Datagram_Close D Drop) self s (fun _ self' s' => in_state (st <| da_Open := false |>) rs self' s').
Proof using CK.
  intros Hi. apply dleads_bind, dleads_get. rewrite (in_state_open _ _ _ _ Hi). destruct (da_Open st) eqn:Eo; [by apply (class_Drop CK) |].
  apply dleads_ret. by rewrite closed_same.
Qed.
Lemma Datagram_Open_leads st rs self s : in_state st rs self s ->
  leads (Datagram_Open D Take) self s (fun b self' s' => exists st' rs', in_state st' (rs ++ rs') self' s' /\ dg_opens (dg_kind D) st b rs' st').
Proof using CK.
  intros Hi. apply dleads_bind, dleads_get. rewrite (in_state_open _ _ _ _ Hi). destruct (da_Open st) eqn:Eo.
  - apply dleads_bind, Datagram_Report_leads. intros s' Hs'. apply dleads_ret. exists st, [already_open (dg_kind D)]. split; [| by constructor].
    destruct s. injection Hs' as <-. destruct Hi as (? & ? & <- & <-). done.
  - apply dleads_bind. eapply dleads_mono; [by apply (class_Take CK) |]. intros _ self' s' (b & Hi'). apply dleads_get.
    rewrite (in_state_open _ _ _ _ Hi'). exists (st <| da_Open := b |>), []. rewrite app_nil_r. split; [done | by constructor].
Qed.

Abbreviation vtable := (Datagram_vtable D Take SendTo MaxPayload (Datagram_Close D Drop)).
Lemma own_datagram_vtable {A} (m null : op A) w (Q : A -> dg_world E -> Prop) : dg_ok codes D w -> wp m Q w ->
  wp (let! base := dg_get dg_Base in match base with OwnDatagramVtable => m | NullDatagramVtable => null end) Q w.
Proof using. intros [Hb _] Hm. apply wp_bind, wp_get. by rewrite Hb. Qed.
Lemma class_contract : datagram_contract (dg_kind D) vtable (dg_ok codes D) (dg_state codes D) (dg_reports codes D) (dg_dest D).
Proof using CK.
  constructor.
  - intros w Hw. apply own_datagram_vtable; [done |]. apply ok_in_state in Hw as (s & Hs & Hi).
    refine (leads_ok _ _ (fun b st' rs' => exists rs, dg_opens (dg_kind D) (dg_state codes D w) b rs st' /\ rs' = dg_reports codes D w ++ rs) s Hs _).
    eapply dleads_mono; [by apply Datagram_Open_leads |]. intros b self' s' (st' & rs' & Hi' & Ho). do 2 eexists. split; [done |]. by exists rs'.
  - intros buffer size addr w Hw Ho Hsize Hmax. apply own_datagram_vtable; [done |]. apply ok_in_state in Hw as (s & Hs & Hi).
    eapply wp_mono; [by eapply (class_SendTo CK) |]. intros r w' (self' & s' & st' & rs & [<- Hs'] & (Hb & Ht & Hv & Hr) & Hh). split; [split; eauto |].
    exists rs. unfold dg_state at 2, dg_reports at 1, dg_seen_of. rewrite Hs'. cbn. by rewrite Hv, Hr.
  - intros w Hw. apply own_datagram_vtable; [done |]. apply ok_in_state in Hw as (s & Hs & Hi).
    refine (leads_ok _ _ (fun n st' rs' => 0 <= n <= SIZE_MAX /\ st' = dg_state codes D w /\ rs' = dg_reports codes D w) s Hs _).
    eapply dleads_mono; [by eapply (class_MaxPayload CK) |]. intros n self' s' [Hn Hi']. do 2 eexists. split; [exact Hi' | split; [exact Hn | by split]].
  - intros w Hw. apply own_datagram_vtable; [done |]. apply ok_in_state in Hw as (s & Hs & Hi).
    refine (leads_ok _ _ (fun _ st' rs' => st' = (dg_state codes D w) <| da_Open := false |> /\ rs' = dg_reports codes D w) s Hs _).
    eapply dleads_mono; [by apply Datagram_Close_leads |]. intros ? self' s' Hi'. do 2 eexists. split; [exact Hi' | by split].
Qed.
(** Destroyed, it holds nothing of the stack's. *)
Definition leaves_nothing (cleanup : op unit) : Prop := forall w, dg_ok codes D w ->
  wp cleanup (fun _ w' => dg_Base (dw_Self w') = NullDatagramVtable /\
    exists s, dg_observed codes D (dw_Trace w') = Some s /\ dn_Socket s = None /\ dn_Pbuf s = None) w.
Lemma class_cleanup : leaves_nothing (Datagram_Cleanup (Datagram_Close D Drop)).
Proof using CK.
  intros w Hw. apply ok_in_state in Hw as (s & Hs & Hi). apply wp_bind. eapply wp_mono; [by eapply Datagram_Close_leads |].
  intros _ w' (self' & s' & [<- Hs'] & _ & (Hk & Hp & _) & Hv & _). apply wp_mod. split; [done |]. exists s'. split; [done |]. split; [| done].
  rewrite Hk. pose proof (f_equal da_Open Hv : dd_IsOpen D _ = false) as ->. done.
Qed.
End contract.

(** * The steps the classes share *)

Section shared.
Context {E : Type} `{HT : ErrorTap E} `{HS : DatagramStack E} (codes : datagram_codes) (D : datagram_dialect).
Context (no_socket : dd_IsOpen D (dd_NoSocket D) = false).
Abbreviation leads := (dg_leads codes D).
Implicit Types (w : dg_world E) (self : datagram E) (s : dg_seen) (st : datagram_state).

Lemma take_leads create st rs self s : in_state D st rs self s -> da_Open st = false ->
  leads (take_datagram_socket create) self s (fun _ self' s' => exists b, in_state D (st <| da_Open := b |>) rs self' s').
Proof using.
  intros (Hb & (Hk & Hp & Ht) & <- & <-) Ho. cbn in Ho. rewrite Ho in Hk, Ht. destruct s. cbn in *. subst.
  apply dleads_bind, dleads_call. intros fd. eexists. split; [done |]. apply dleads_set. exists (dd_IsOpen D fd).
  split; [done |]. split; [| done]. split; [done |]. split; [done |]. cbn.
  destruct (dd_Before D); try done. destruct Ht as [_ Hc]. destruct (dg_Connected self); [by specialize (Hc eq_refl) | done].
Qed.
Lemma drop_leads {A} (close : Z -> ST E A) st rs self s : dd_Before D <> PathConnected -> in_state D st rs self s -> da_Open st = true ->
  leads (drop_datagram_socket D close) self s (fun _ self' s' => in_state D (st <| da_Open := false |>) rs self' s').
Proof using no_socket.
  intros Hn (Hb & (Hk & Hp & Ht) & <- & <-) Ho. cbn in Ho. rewrite Ho in Hk. destruct s. cbn in *. subst.
  apply dleads_bind, dleads_get, dleads_bind, dleads_call. intros a. eexists. split; [cbn; by rewrite !bool_decide_true |].
  apply dleads_set. split; [done |]. unfold dg_tied, dg_view. cbn. rewrite no_socket. split; [| done]. by destruct (dd_Before D).
Qed.

(** What a step makes of the view that waits, or moves the latch. *)
Lemma view_moved st self self' s s' waited : dg_view D self s = st -> dg_Fd self' = dg_Fd self -> dn_Waited s' = waited -> dn_Offered s' = dn_Offered s -> dn_Sent s' = dn_Sent s ->
  dg_view D self' s' = mkDatagramState (da_Open st) (dg_latch D self') waited (da_Offered st) (da_Sent st).
Proof using. intros <- Hf Hw Ho Hs. unfold dg_view. cbn. by rewrite Hf, Hw, Ho, Hs. Qed.
(** What offering a datagram makes of the state. *)
Definition offered_state st (data : bytes) (taken : bool) : datagram_state :=
  mkDatagramState (da_Open st) (da_Latch st) (da_Waited st) (da_Offered st + 1) (if taken then da_Sent st ++ [data] else da_Sent st).
Lemma handed_state st rs self s data ip result pbuf' :
  dg_Base self = OwnDatagramVtable -> dg_view D self s = st -> dn_Reports s = rs -> da_Open st = true ->
  dn_Socket s = Some (dg_Fd self) -> may_hand D s ip = true -> dn_Pbuf s = pbuf' ->
  match dd_Before D with
  | PathConnected => dn_Path s = dg_Connected self /\ (dg_Connected self = true -> dd_IsOpen D (dg_Fd self) = true)
  | HopResolved => dg_HasOffSubnetDestination self = true ->
      dn_Routed s = Some (dg_OffSubnetDestination self) /\ dg_latch D self <> Some (dg_OffSubnetDestination self)
  | _ => True
  end ->
  exists s', observe_dg codes D s (DgHanded (dg_Fd self) data (lenZ data) ip result) = Some s' /\ dn_Pbuf s' = pbuf' /\ dn_Socket s' = Some (dg_Fd self) /\
    (pbuf' = None -> in_state D (offered_state st data (dd_Took D result)) rs self s') /\ dg_view D self s' = offered_state st data (dd_Took D result) /\ dn_Reports s' = rs.
Proof using.
  intros Hb <- <- Ho Hk Hm <- Ht. destruct s. cbn [dn_Socket] in Hk. subst. unfold observe_dg. rewrite bool_decide_true, Hm, Z.eqb_refl by done. cbn [andb].
  eexists. split; [reflexivity |]. cbn in *. split; [done |]. split; [done |]. split; [| done]. intros ->.
  split; [done |]. split; [| done]. split; [cbn; by rewrite Ho |]. split; [done |]. by destruct (dd_Before D).
Qed.
Lemma call_sendto_leads st rs self s buffer size sin : in_state D st rs self s -> da_Open st = true -> may_hand D s (sin_addr sin) = true -> 0 <= size <= lenZ buffer ->
  leads (call_sendto buffer size size sin) self s (fun answer self' s' => in_state D (offered_state st (takeZ size buffer) (dd_Took D (fst answer))) rs self' s').
Proof using.
  intros (Hb & (Hk & Hp & Ht) & Hv & Hr) Ho Hm Hs. pose proof (f_equal da_Open Hv : dd_IsOpen D _ = _) as Hi. rewrite Ho in Hi. rewrite Hi in Hk.
  apply dleads_bind, dleads_get, dleads_call. intros answer.
  destruct (handed_state st rs self s (takeZ size buffer) (sin_addr sin) (fst answer) None Hb Hv Hr Ho Hk Hm Hp) as (s' & Hs' & _ & _ & Hi' & _).
  { by destruct (dd_Before D). }
  rewrite lenZ_takeZ in Hs' by lia. exists s'. split; [done | by apply Hi'].
Qed.
(** The answer to an offer, after what came before it. *)
Lemma offer_hands st latch waited data dest result taken : latch_clears st dest latch -> waits_once (dg_kind D) st dest waited ->
  (result = SOLIDSYSLOG_DATAGRAM_SEND_RESULT_SENT <-> taken = true) ->
  dg_hands (dg_kind D) data dest st result [] (offered_state (mkDatagramState (da_Open st) latch waited (da_Offered st) (da_Sent st)) data taken).
Proof using.
  intros Hl Hw Hr. unfold offered_state. cbn. destruct taken.
  - rewrite (proj2 Hr) by done. by apply hands_sent.
  - apply hands_refused; [by intros Er%Hr | done | done].
Qed.
(** A class that confirms no next hop latches none. *)
Lemma never_latched st rs self s dest : in_state D st rs self s -> dk_Confirms (dg_kind D) = false -> latch_clears st dest (da_Latch st).
Proof using. intros (_ & _ & <- & _). unfold latch_clears, dg_kind, dg_view, dg_latch. cbn. destruct (dd_Before D); by auto. Qed.
Lemma waits_none st dest : waits_once (dg_kind D) st dest (da_Waited st).
Proof using. split; [lia | done]. Qed.
Lemma outcome_took oversize answer : outcome_of D oversize answer = SOLIDSYSLOG_DATAGRAM_SEND_RESULT_SENT <-> dd_Took D (fst answer) = true.
Proof using. unfold outcome_of. destruct (dd_Took D (fst answer)); [done |]. by destruct (snd answer =? oversize). Qed.
Lemma state_eta st : mkDatagramState (da_Open st) (da_Latch st) (da_Waited st) (da_Offered st) (da_Sent st) = st.
Proof using. by destruct st. Qed.

Lemma stated_leads st rs self s : in_state D st rs self s -> leads Datagram_StatedPayload self s (fun n self' s' => 0 <= n <= SIZE_MAX /\ in_state D st rs self' s').
Proof using.
  intros Hi. apply dleads_bind, dleads_get. apply (dleads_env _ _ _ (fun n => 0 <= n <= SIZE_MAX)); [| done]. intros e.
  unfold SolidSyslogUdpPayload_Stated, size_typed, SIZE_MAX. destruct (dc_GetPayloadLimit (dg_Config self)) as [f |]; cbn.
  - unfold st_bind. destruct (f _ e) as [n e']. cbn. destruct (u32 n =? 0); cbn; [by vm_compute |]. unfold u32. pose proof (Z.mod_pos_bound n (2 ^ 32)). lia.
  - by vm_compute.
Qed.
(** What a SendTo leads to from the address as it is read. *)
Lemma hands_here {A} (m : @dg_op E A) self s w (Q : A -> datagram_state -> list SolidSyslogErrorEvent -> Prop) rs : dg_stands codes D self s w ->
  leads m self s (fun r self' s' => exists st' rs', in_state D st' (rs ++ rs') self' s' /\ Q r st' rs') ->
  wp m (fun r w' => exists self' s' st' rs', dg_stands codes D self' s' w' /\ in_state D st' (rs ++ rs') self' s' /\ Q r st' rs') w.
Proof using. intros Hs Hm. eapply wp_mono; [by apply Hm |]. intros r w' (self' & s' & Hs' & st' & rs' & Hi & HQ). eauto 8. Qed.
End shared.

(** * The classes *)

Lemma to_int_udp size : 0 <= size <= UDP_LENGTH_MAX -> to_int size = size.
Proof. unfold to_int, INT_MAX, UDP_LENGTH_MAX. intros Hs. by rewrite (proj2 (Z.leb_le _ _)) by lia. Qed.
Lemma FromMtu_range mtu isIpv6 : 0 <= SolidSyslogUdpPayload_FromMtu mtu isIpv6 <= SIZE_MAX.
Proof.
  unfold SolidSyslogUdpPayload_FromMtu, size_sub, SIZE_MAX. destruct (_ <? mtu); [| lia].
  match goal with |- context [?a mod _] => pose proof (Z.mod_pos_bound a (2 ^ 32)) end. lia.
Qed.
(** An initialised datagram is in order. *)
Definition starts_ok {E} codes D (Initialise : @dg_op E unit) : Prop :=
  forall slot e, dg_ok codes D (snd (Initialise (mkDgWorld slot e []))).

Section path_classes.
Context {E : Type} `{HT : ErrorTap E} `{HS : DatagramStack E} (codes : datagram_codes) (D : datagram_dialect).
Context (no_socket : dd_IsOpen D (dd_NoSocket D) = false) (before : dd_Before D = PathConnected).
Abbreviation leads := (dg_leads codes D).
Implicit Types (w : dg_world E) (self : datagram E) (s : dg_seen) (st : datagram_state).

Lemma ConnectIfNeeded_leads sin st rs self s : in_state D st rs self s -> da_Open st = true ->
  leads (Datagram_ConnectIfNeeded codes D sin) self s (fun b self' s' => in_state D st rs self' s' /\ dn_Path s' = b).
Proof using before.
  intros Hi Ho. pose proof (in_state_open D _ _ _ _ Hi) as Hd. rewrite Ho in Hd. destruct Hi as (Hb & (Hk & Hp & Ht) & Hv & Hr).
  unfold Datagram_IsOpen in Hd. rewrite Hd in Hk. rewrite before in Ht. destruct Ht as [Hpath _].
  apply dleads_bind, dleads_get. cbv beta. destruct s. cbn in Hk, Hp, Hpath, Hr. subst. unfold dg_view. apply dleads_bind. destruct (dg_Connected self) eqn:Ec; cbn [negb].
  - apply dleads_ret, dleads_get. rewrite Ec. split; [| done]. split; [done |]. split; [| done]. split; [by rewrite Hd |]. split; [done |]. by rewrite before, Ec.
  - apply dleads_bind, dleads_call. intros rc. eexists. split; [cbn; by rewrite bool_decide_true |]. destruct (dd_Joined D rc).
    + apply dleads_bind, dleads_call. intros a. eexists. split; [cbn; by rewrite bool_decide_true |]. apply dleads_set, dleads_get. split; [| done].
      split; [done |]. unfold dg_tied, dg_view. rewrite before. cbn. by rewrite Hd.
    + apply dleads_ret, dleads_get. rewrite Ec. split; [| done]. split; [done |]. unfold dg_tied, dg_view. rewrite before, Ec. cbn. by rewrite Hd.
Qed.
Lemma path_class as_length oversize : (forall size, 0 <= size <= UDP_LENGTH_MAX -> as_length size = size) ->
  class_ok codes D (take_datagram_socket ds_socket) (path_SendTo codes D as_length oversize) (path_MaxPayload codes D) (path_Drop D).
Proof using no_socket before.
  intros Hlen. constructor.
  - intros. by apply take_leads.
  - intros buffer size addr w s Hs Hi Ho Hsize Hmax. apply wp_bind, wp_get. cbv beta. set (sin := mkSockaddrIn addr _).
    apply (hands_here codes D _ (dw_Self w) s w (fun r st' rs => dg_hands (dg_kind D) _ _ _ r rs st')); [exact Hs |].
    apply dleads_bind. eapply dleads_mono; [by apply ConnectIfNeeded_leads |]. intros b self' s' [Hi' Hp]. destruct b.
    + apply dleads_bind. rewrite Hlen by lia. eapply dleads_mono; [apply (call_sendto_leads codes D _ _ _ _ buffer size sin Hi' Ho); [unfold may_hand; by rewrite before | done] |].
      intros answer self2 s2 Hi2. apply dleads_ret. eexists _, []. rewrite app_nil_r. split; [exact Hi2 |].
      rewrite <- (state_eta (dg_state codes D w)) at 2. apply offer_hands; [eapply never_latched; [exact Hi | cbn; by rewrite before] | apply waits_none | apply outcome_took].
    + apply dleads_ret. exists (dg_state codes D w), []. rewrite app_nil_r. split; [done |].
      apply hands_withheld; [done | right; unfold dg_kind; cbn; by rewrite before].
  - intros st rs self s Hi. apply dleads_bind, dleads_get. cbv beta. destruct (dg_Connected self) eqn:Ec; [| by apply dleads_ret].
    destruct Hi as (Hb & (Hk & Hp & Ht) & Hv & Hr). rewrite before in Ht. destruct Ht as [Hpath Ho]. rewrite Ec in Hpath. specialize (Ho Ec). rewrite Ho in Hk.
    destruct s. cbn in *. subst. apply dleads_bind, dleads_call. intros a. eexists. split; [cbn; by rewrite bool_decide_true |]. apply dleads_ret.
    split; [destruct (_ && _); [apply FromMtu_range | by vm_compute] |]. split; [done |]. split; [| done]. unfold dg_tied. rewrite before, Ec. cbn. by rewrite Ho.
  - intros st rs self s (Hb & (Hk & Hp & Ht) & <- & <-) Ho. cbn in Ho. rewrite Ho in Hk. destruct s. cbn in *. subst.
    apply dleads_bind, dleads_bind, dleads_get, dleads_bind, dleads_call. intros a. eexists. split; [cbn; by rewrite !bool_decide_true |].
    apply dleads_set, dleads_set. split; [done |]. unfold dg_tied, dg_view. rewrite before. cbn. by rewrite no_socket.
Qed.
Lemma path_starts : starts_ok codes D (dg_set (E := E) (fun self => (Datagram_Initialise D self) <| dg_Connected := false |>)).
Proof using no_socket before. intros slot e. split; [done |]. exists nothing_sent. split; [done |]. unfold dg_tied. rewrite before. cbn. by rewrite no_socket. Qed.
End path_classes.

Section classes.
Context {E : Type} `{HT : ErrorTap E} `{HS : DatagramStack E} (codes : datagram_codes).
Implicit Types (w : dg_world E) (self : datagram E) (s : dg_seen) (st : datagram_state).

Lemma lwip_socket_class : class_ok codes lwip_socket_datagram (take_datagram_socket ds_socket) (LwipSocketDatagram_SendTo codes) LwipSocketDatagram_MaxPayload
  (drop_datagram_socket lwip_socket_datagram ds_close).
Proof using.
  constructor.
  - intros. by apply take_leads.
  - intros buffer size addr w s Hs Hi Ho Hsize Hmax. apply wp_bind, wp_get. cbv beta. set (sin := mkSockaddrIn addr _).
    apply (hands_here codes _ _ (dw_Self w) s w (fun r st' rs => dg_hands (dg_kind _) _ _ _ r rs st')); [exact Hs |].
    apply dleads_bind. eapply dleads_mono; [by apply (call_sendto_leads codes lwip_socket_datagram _ _ _ _ buffer size sin Hi Ho) |].
    intros answer self2 s2 Hi2. apply dleads_ret. eexists _, []. rewrite app_nil_r. split; [exact Hi2 |].
    rewrite <- (state_eta (dg_state codes _ w)) at 2. apply offer_hands; [by eapply never_latched | apply waits_none |]. cbn.
    destruct (Z.ltb_spec (fst answer) 0), (Z.leb_spec 0 (fst answer)); try lia; [by destruct (_ =? _) | done].
  - intros. by apply stated_leads.
  - intros. by apply drop_leads.
Qed.
Lemma lwip_socket_starts config : starts_ok codes lwip_socket_datagram (SolidSyslogLwipSocketDatagram_Initialise (E := E) config).
Proof using. intros slot e. split; [done |]. by exists nothing_sent. Qed.

(** ** lwIP's raw API *)

Section raw.
Context (marshal : SolidSyslogLwipRawMarshalFunction (dg_world E)) (MR : runs_in_place marshal).
Abbreviation D := (lwip_raw_datagram codes).
Abbreviation leads := (dg_leads codes D).

Lemma DoSendTo_leads st rs self s buffer size dst : in_state D st rs self s -> da_Open st = true -> 0 <= size <= lenZ buffer -> size <= UDP_LENGTH_MAX ->
  leads (LwipRawDatagram_DoSendTo codes buffer size dst) self s (fun r self' s' => exists st' rs', in_state D st' (rs ++ rs') self' s' /\
    dg_hands (dg_kind D) (takeZ size buffer) 0 st r rs' st').
Proof using.
  intros Hi Ho Hs Hm. pose proof (in_state_open D _ _ _ _ Hi) as Hd. rewrite Ho in Hd. destruct Hi as (Hb & (Hk & Hp & _) & Hv & Hr).
  unfold Datagram_IsOpen in Hd. rewrite Hd in Hk. unfold LwipRawDatagram_DoSendTo.
  assert (Eu : u16 size = size) by (apply Z.mod_small; unfold UDP_LENGTH_MAX in *; lia). rewrite Eu. destruct s. cbn in Hk, Hp. subst.
  apply dleads_bind, dleads_call. intros p. eexists. split; [done |]. destruct (Z.eqb_spec p 0) as [-> | Hp0]; cbn [negb].
  - apply dleads_ret. exists (dg_view D self (mkDgSeen (Some (dg_Fd self)) dn_Path0 dn_Hop0 dn_Routed0 None dn_Waited0 dn_Offered0 dn_Sent0 dn_Reports0)), [].
    rewrite app_nil_r. split; [split; [done |]; split; [split; [cbn [dn_Socket]; by rewrite Hd | done] | done] |].
    apply hands_withheld; [done | by right].
  - apply dleads_bind, dleads_get, dleads_bind, dleads_call. intros err. cbv beta.
    destruct (handed_state codes D _ _ self (mkDgSeen (Some (dg_Fd self)) dn_Path0 dn_Hop0 dn_Routed0 (Some p) dn_Waited0 dn_Offered0 dn_Sent0 dn_Reports0)
      (takeZ size buffer) (sin_addr dst) err (Some p) Hb eq_refl eq_refl Hd eq_refl eq_refl eq_refl I) as (s' & Hs' & Hp' & Hk' & _ & Hv' & Hr').
    rewrite lenZ_takeZ in Hs' by lia. exists s'. split; [exact Hs' |]. destruct s'. cbn in Hp', Hk', Hr'. subst.
    apply dleads_bind, dleads_call. intros _. eexists. split; [cbn; by rewrite bool_decide_true |]. apply dleads_ret.
    eexists _, []. rewrite app_nil_r. split; [split; [done |]; split; [split; [cbn [dn_Socket]; by rewrite Hd | done] |]; split; [exact Hv' | done] |].
    refine (offer_hands D (dg_view D self (mkDgSeen (Some (dg_Fd self)) dn_Path0 dn_Hop0 dn_Routed0 None dn_Waited0 dn_Offered0 dn_Sent0 dn_Reports0))
      (dg_latch D self) dn_Waited0 _ _ _ _ _ _ _); [split; [by left | done] | apply waits_none |]. cbn. by destruct (err =? ERR_OK codes).
Qed.
Lemma lwip_raw_class : class_ok codes D (SolidSyslogLwipRaw_Marshal marshal LwipRawDatagram_DoOpen) (LwipRawDatagram_SendTo codes marshal) LwipRawDatagram_MaxPayload
  (SolidSyslogLwipRaw_Marshal marshal LwipRawDatagram_DoClose).
Proof using MR.
  constructor.
  - intros. apply dleads_marshal; [done |]. by apply take_leads.
  - intros buffer size addr w s Hs Hi Ho Hsize Hmax. apply wp_bind, wp_get. unfold LwipRawDatagram_IsOpen.
    pose proof (f_equal da_Open (proj1 (proj2 (proj2 Hi))) : lwip_raw_IsOpen _ = _) as ->. rewrite Ho. apply wp_bind, wp_get. cbv beta.
    apply (hands_here codes _ _ (dw_Self w) s w (fun r st' rs => dg_hands (dg_kind _) _ _ _ r rs st')); [exact Hs |].
    apply dleads_marshal; [done |]. by apply DoSendTo_leads.
  - intros. by apply stated_leads.
  - intros st rs self s Hi Ho. apply dleads_marshal; [done |]. by apply (drop_leads codes D eq_refl ds_udp_remove).
Qed.
Lemma lwip_raw_starts config : starts_ok codes D (SolidSyslogLwipRawDatagram_Initialise codes (E := E) config).
Proof using. intros slot e. split; [done |]. by exists nothing_sent. Qed.
End raw.

(** ** The next hop *)

Section hop.
Context (D : datagram_dialect) (confirms : dd_Before D = HopResolved \/ dd_Before D = HopCached).
Abbreviation leads := (dg_leads codes D).

(** What asking for a next hop leads to: a state in which the datagram may be handed
    over, or a SendTo that failed. *)
Definition hop_settled (data : bytes) (dest ip : Z) st rs (b : bool) self s : Prop :=
  if b then exists latch waited, in_state D (mkDatagramState (da_Open st) latch waited (da_Offered st) (da_Sent st)) rs self s /\
    latch_clears st dest latch /\ waits_once (dg_kind D) st dest waited /\ may_hand D s ip = true
  else exists st' rs', in_state D st' (rs ++ rs') self s /\ dg_hands (dg_kind D) data dest st SOLIDSYSLOG_DATAGRAM_SEND_RESULT_FAILED rs' st'.
(** Hand it over, then. *)
Lemma hop_then_hand (m : dg_op bool) buffer size sin dest st rs self s (result : Z * Z -> SolidSyslogDatagramSendResult) :
  (forall answer, result answer = SOLIDSYSLOG_DATAGRAM_SEND_RESULT_SENT <-> dd_Took D (fst answer) = true) -> da_Open st = true -> 0 <= size <= lenZ buffer ->
  leads m self s (hop_settled (takeZ size buffer) dest (sin_addr sin) st rs) ->
  leads (let! clear := m in if clear : bool then let! answer := call_sendto buffer size size sin in st_ret (result answer) else st_ret SOLIDSYSLOG_DATAGRAM_SEND_RESULT_FAILED)
    self s (fun r self' s' => exists st' rs', in_state D st' (rs ++ rs') self' s' /\ dg_hands (dg_kind D) (takeZ size buffer) dest st r rs' st').
Proof using.
  intros Hr Ho Hs Hm. apply dleads_bind. eapply dleads_mono; [exact Hm |]. intros [] self1 s1; cbn [hop_settled]; [| intros H1; by apply dleads_ret].
  intros (latch & waited & Hi & Hl & Hw & Hmay). apply dleads_bind. eapply dleads_mono; [by apply (call_sendto_leads codes D _ _ _ _ buffer size sin Hi) |].
  intros answer self2 s2 Hi2. apply dleads_ret. eexists _, []. rewrite app_nil_r. split; [exact Hi2 | by apply offer_hands].
Qed.
Lemma unresolved_leads (still : bool) (native : Z) data dest ip st rs self s waited (mark : datagram E -> datagram E) :
  in_state D (mkDatagramState (da_Open st) (da_Latch st) waited (da_Offered st) (da_Sent st)) rs self s ->
  (still = true <-> da_Latch st = Some dest) -> waits_once (dg_kind D) st dest waited ->
  (forall s', dg_tied D self s' -> dg_tied D (mark self) s') -> dg_Base (mark self) = dg_Base self -> dg_Fd (mark self) = dg_Fd self -> dg_latch D (mark self) = Some dest ->
  leads (if! negb still then Datagram_ReportUnresolved D native end! ;;; dg_set mark ;;; st_ret false) self s (hop_settled data dest ip st rs).
Proof using confirms.
  intros (Hb & Ht & Hv & Hr) Hst Hw Hmt Hmb Hmf Hml. assert (Hc : dk_Confirms (dg_kind D) = true) by (cbn; by destruct confirms as [-> | ->]).
  assert (Hview : forall s', dn_Waited s' = dn_Waited s -> dn_Offered s' = dn_Offered s -> dn_Sent s' = dn_Sent s ->
    dg_view D (mark self) s' = mkDatagramState (da_Open st) (Some dest) waited (da_Offered st) (da_Sent st)).
  { intros s' E1 E2 E3. rewrite (view_moved D _ self _ _ _ waited Hv), Hml by (done || (rewrite E1; exact (f_equal da_Waited Hv))). done. }
  apply dleads_bind. destruct still; cbn [negb].
  - apply dleads_ret, dleads_bind, dleads_set, dleads_ret. pose proof (proj1 Hst eq_refl) as El. exists st, []. rewrite app_nil_r.
    destruct Hw as [_ Hw]. split; [| by apply hands_still_unresolved]. split; [congruence |]. split; [by apply Hmt |]. split; [| done].
    rewrite Hview, Hw, <- El by (done || by left). apply state_eta.
  - apply Datagram_ReportUnresolved_leads. intros s' Hs'. destruct s. injection Hs' as <-. apply dleads_bind, dleads_set, dleads_ret.
    eexists _, [hop_unresolved (dg_kind D) native]. split; [| apply hands_unresolved; [done | by intros E'%Hst | exact Hw]].
    split; [congruence |]. split; [by apply Hmt |]. split; [by apply Hview |]. cbn in *. by subst.
Qed.
End hop.

(** ** VxWorks *)

Section vx.
Abbreviation D := (vxworks_datagram codes).
Abbreviation leads := (dg_leads codes D).

Lemma StillFailing_latch self sin : VxWorks64Datagram_IsStillFailing self sin = true <-> dg_latch D self = Some (sin_addr sin).
Proof using.
  unfold VxWorks64Datagram_IsStillFailing, dg_latch. cbn. destruct (dg_ResolveFailing self); cbn; [| done]. rewrite Z.eqb_eq. split; [by intros -> | by intros [=]].
Qed.
Lemma ResolveNextHop_leads data sin st rs self s : in_state D st rs self s ->
  leads (VxWorks64Datagram_ResolveNextHop codes sin) self s (hop_settled D data (sin_addr sin) (sin_addr sin) st rs).
Proof using.
  intros Hi. apply dleads_bind, dleads_get. destruct (VxWorks64Datagram_IsKnownOffTheSubnet self sin) eqn:Ek.
  { apply dleads_ret. exists (da_Latch st), (da_Waited st). rewrite state_eta. split; [done |].
    apply andb_prop in Ek as [Eh Eo%Z.eqb_eq]. destruct Hi as (_ & (_ & _ & Ht) & Hv & _). destruct (Ht Eh) as [Er Hl]. rewrite Eo in Er, Hl.
    split; [split; [by left |]; intros El; apply Hl; by rewrite <- El, <- Hv |]. split; [apply waits_none |]. unfold may_hand. cbn. rewrite Er.
    by rewrite (bool_decide_true (Some _ = Some _)), orb_true_r. }
  pose proof (StillFailing_latch self sin) as Hst. destruct Hi as (Hb & (Hk & Hp & Ht) & Hv & Hr).
  pose proof (f_equal da_Latch Hv : dg_latch D self = _) as El. rewrite El in Hst.
  apply dleads_bind, dleads_get. apply dleads_bind.
  apply (dleads_mono codes D _ _ _ (fun tries self' s' => (self' = self /\ s' = s) /\ (VxWorks64Datagram_IsStillFailing self sin = true -> tries = 1))).
  { destruct (VxWorks64Datagram_IsStillFailing self sin); [by apply dleads_ret |]. apply dleads_bind, dleads_bind, dleads_any_env. intros rate. by apply dleads_ret, dleads_ret. }
  intros tries ? ? [[-> ->] Htries]. destruct s. apply dleads_bind, dleads_call. intros [status err]. cbn [fst snd]. eexists. split; [done |].
  set (resolveErrno := if status =? STATUS_ERROR codes then err else 0). unfold VxWorks64Datagram_IsOffTheSubnet.
  set (off := (status =? STATUS_ERROR codes) && (resolveErrno =? S_arpLib_INVALID_HOST codes)). clearbody off resolveErrno.
  apply dleads_bind. set (interval := VXWORKS64_DATAGRAM_RESOLVE_INTERVAL_TICKS). set (waited := dn_Waited0 + Z.max 0 ((tries - 1) * interval)).
  assert (Hw : waits_once (dg_kind D) st (sin_addr sin) waited).
  { split; [subst st; cbn; lia |]. intros [Hl | Hl]; [| done]. apply Hst in Hl. unfold waited. rewrite (Htries Hl). subst st. cbn. lia. }
  cbn [dn_Socket dn_Pbuf] in Hk, Hp, Ht. destruct off.
  - apply dleads_set. rewrite orb_true_r. cbn [negb andb]. apply dleads_bind, dleads_get, dleads_bind, dleads_ret, dleads_bind, dleads_set, dleads_ret.
    exists None, waited. subst st rs. split; [split; [done |]; split; [by split_and! | done] |]. split; [split; [by right | done] |]. split; [done |].
    unfold may_hand. cbn. by rewrite (bool_decide_true (Some _ = Some _)), orb_true_r.
  - apply dleads_ret. rewrite orb_false_r. apply dleads_bind, dleads_get. destruct (status =? STATUS_OK codes); cbn [negb andb].
    + apply dleads_bind, dleads_ret, dleads_bind, dleads_set, dleads_ret.
      exists None, waited. subst st rs. split; [split; [done |]; split; [| done]; split_and!; [done | done |]; intros Eh; by destruct (Ht Eh) |].
      split; [split; [by right | done] |]. split; [done |]. unfold may_hand. cbn. by rewrite (bool_decide_true (Some _ = Some _)).
    + eapply (unresolved_leads D (or_introl eq_refl) _ resolveErrno data (sin_addr sin) (sin_addr sin) st rs _ _ waited); try done.
      { subst st rs. split; [done |]. by split_and!. }
      intros s' (Hk' & Hp' & Ht'). split_and!; [done | done |]. intros Eh. destruct (Ht' Eh) as [Er _]. split; [exact Er |]. cbn.
      intros [= Eo]. cbn in Eh. unfold VxWorks64Datagram_IsKnownOffTheSubnet in Ek. rewrite Eh, <- Eo, Z.eqb_refl in Ek. done.
Qed.
Lemma vxworks_class : class_ok codes D (take_datagram_socket ds_socket) (VxWorks64Datagram_SendTo codes) VxWorks64Datagram_MaxPayload
  (drop_datagram_socket D ds_close).
Proof using.
  constructor.
  - intros. by apply take_leads.
  - intros buffer size addr w s Hs Hi Ho Hsize Hmax. apply wp_bind, wp_get. cbv beta.
    apply (hands_here codes _ _ (dw_Self w) s w (fun r st' rs => dg_hands (dg_kind _) _ _ _ r rs st')); [exact Hs |].
    apply dleads_bind. eapply dleads_mono; [by apply stated_leads |]. intros limit self1 s1 [_ Hi1]. destruct (size <=? limit).
    + unfold VxWorks64Datagram_SendToStack. rewrite to_int_udp by lia.
      apply (hop_then_hand D _ buffer size _ _ _ _ _ _ (outcome_of D (EMSGSIZE codes))); [apply outcome_took | done | done | by apply ResolveNextHop_leads].
    + apply dleads_ret. exists (dg_state codes D w), []. rewrite app_nil_r. split; [done |].
      apply hands_withheld; [done | by left].
  - intros. by apply stated_leads.
  - intros. by apply drop_leads.
Qed.
Lemma vxworks_starts config : starts_ok codes D (SolidSyslogVxWorks64Datagram_Initialise codes (E := E) config).
Proof using. intros slot e. split; [done |]. by exists nothing_sent. Qed.
End vx.

(** ** FreeRTOS-Plus-TCP *)

Section plus.
Abbreviation D := (plus_tcp_datagram codes).
Abbreviation leads := (dg_leads codes D).

Lemma LookUp_leads ip st rs self s : in_state D st rs self s ->
  leads (PlusTcpDatagram_LookUpNextHop ip) self s (fun answer self' s' => self' = self /\ in_state D st rs self s' /\ ((fst answer =? eARPCacheHit codes) = true -> dn_Hop s' = Some ip)).
Proof using.
  intros (Hb & (Hk & Hp & Ht) & Hv & Hr). destruct s. apply dleads_call. intros [lookup nextHop]. cbn [fst]. eexists. split; [done |].
  split; [done |]. split; [split; [done |]; split; [by split_and! | done] |]. by intros ->.
Qed.
(** What holds between the rounds of the wait. *)
Definition waiting ip st rs (ticksToWait : Z) (l : Z * Z) self s : Prop :=
  0 <= fst l <= ticksToWait /\ ((snd l =? eARPCacheHit codes) = true -> dn_Hop s = Some ip) /\ dg_ResolveFailing self = bool_decide (da_Latch st = Some 0) /\
  in_state D (mkDatagramState (da_Open st) (da_Latch st) (da_Waited st + fst l) (da_Offered st) (da_Sent st)) rs self s.
Lemma wait_leads ip st rs ticksToWait lookup self s : 0 <= ticksToWait -> waiting ip st rs ticksToWait (0, lookup) self s ->
  leads (loopM (S (Z.to_nat ticksToWait)) (next_hop_round codes ip ticksToWait) (0, lookup)) self s (fun l self' s' => waiting ip st rs ticksToWait l self' s').
Proof using.
  intros Ht Hw. apply (dleads_loop codes D (waiting ip st rs ticksToWait) (fun l => ticksToWait - fst l)); [done | cbn; lia |].
  clear. intros [tick lookup] self s (Hl & Hh & Hf & Hi). cbn [fst snd] in *. split; [lia |]. unfold next_hop_round.
  destruct (Z.ltb_spec tick ticksToWait); cbn [andb]; [| apply dleads_ret; split; [cbn; lia | by split]].
  destruct (lookup =? eARPCacheHit codes) eqn:El; cbn [negb]; [apply dleads_ret; cbn [fst snd]; split; [done |]; split; [intros _; by apply Hh | done] |].
  destruct Hi as (Hb & (Hk & Hp & _) & Hv & Hr). destruct s. apply dleads_bind, dleads_call. intros []. eexists. split; [done |].
  apply dleads_bind. eapply dleads_mono; [apply (LookUp_leads ip (mkDatagramState (da_Open st) (da_Latch st) (da_Waited st + (tick + 1)) (da_Offered st) (da_Sent st)) rs) |].
  - split; [done |]. split; [by split_and! |]. split; [| done].
    rewrite (view_moved D _ self self _ _ (dn_Waited0 + 1) Hv) by done.
    pose proof (f_equal da_Latch Hv : dg_latch D self = _) as ->. pose proof (f_equal da_Waited Hv : dn_Waited0 = _) as ->.
    cbn [da_Open da_Latch da_Waited da_Offered da_Sent fst]. f_equal. lia.
  - intros answer self' s' (-> & Hi' & Hh'). apply dleads_ret. cbn [fst snd]. split; [| lia]. split; [cbn [fst]; lia |]. split; [done |]. by split.
Qed.
Lemma ticks_nonneg : 0 <= PlusTcpDatagram_ResolveWaitTicks codes.
Proof using. unfold PlusTcpDatagram_ResolveWaitTicks, u32, PLUSTCP_DATAGRAM_MILLISECONDS_PER_SECOND. apply Z.div_pos; [| done]. by apply Z.mod_pos_bound. Qed.
Lemma NextHopResolves_leads data ip st rs self s : in_state D st rs self s ->
  leads (PlusTcpDatagram_NextHopResolves codes ip) self s (hop_settled D data 0 ip st rs).
Proof using.
  intros Hi. assert (El : da_Latch st = if dg_ResolveFailing self then Some 0 else None) by (by destruct Hi as (_ & _ & <- & _)).
  apply dleads_bind. eapply dleads_mono; [by apply LookUp_leads |]. clear s Hi. intros [lookup nextHop] ? s (-> & Hi & Hh). cbn [fst] in Hh. cbv beta iota.
  apply dleads_bind. apply (dleads_mono codes D _ _ _ (fun _ self' s' => self' = self /\ s' = s)).
  { destruct (negb _); [apply dleads_call; intros []; destruct s; by eexists | by apply dleads_ret]. }
  intros _ ? ? [-> ->]. apply dleads_bind, dleads_get. cbv beta. apply dleads_bind.
  set (ticksToWait := if dg_ResolveFailing self then 0 else _). assert (Ht : 0 <= ticksToWait) by (unfold ticksToWait; destruct (dg_ResolveFailing self); [done | apply ticks_nonneg]).
  eapply dleads_mono; [apply (wait_leads ip st rs ticksToWait); [done |] |].
  { split; [done |]. split; [exact Hh |]. split; [rewrite El; by destruct (dg_ResolveFailing self) |]. cbn [fst]. rewrite Z.add_0_r. by rewrite state_eta. }
  intros [tick last] self' s' (Hl & Hh' & Hf & Hi'). cbn [fst snd] in *.
  assert (Hw : waits_once (dg_kind D) st 0 (da_Waited st + tick)).
  { split; [lia |]. intros [Hs | Hs]; [| done]. rewrite El in Hs. unfold ticksToWait in Hl. destruct (dg_ResolveFailing self); [lia | done]. }
  apply dleads_bind, dleads_get. cbv beta. destruct (last =? eARPCacheHit codes) eqn:Eh; cbn [negb andb].
  - apply dleads_bind, dleads_ret, dleads_bind, dleads_set, dleads_ret. exists None, (da_Waited st + tick).
    destruct Hi' as (Hb & (Hk & Hp & _) & Hv & Hr). split; [| split; [split; [by right | done] |]; split; [done |]; unfold may_hand; cbn; by rewrite Hh', bool_decide_true].
    split; [done |]. split; [by split_and! |]. split; [| done].
    by rewrite (view_moved D _ self' _ _ _ (da_Waited st + tick) Hv) by (done || exact (f_equal da_Waited Hv)).
  - eapply (unresolved_leads D (or_intror eq_refl) (dg_ResolveFailing self') last data 0 ip st rs _ _ (da_Waited st + tick)); try done.
    rewrite Hf. by rewrite bool_decide_eq_true.
Qed.
Lemma plus_tcp_class : class_ok codes D (take_datagram_socket ds_socket) (PlusTcpDatagram_SendTo codes) PlusTcpDatagram_MaxPayload (drop_datagram_socket D ds_close).
Proof using.
  constructor.
  - intros. by apply take_leads.
  - intros buffer size addr w s Hs Hi Ho Hsize Hmax. apply wp_bind, wp_get. unfold PlusTcpDatagram_IsOpen.
    pose proof (f_equal da_Open (proj1 (proj2 (proj2 Hi))) : plus_tcp_IsOpen codes _ = _) as ->. rewrite Ho. apply wp_bind, wp_get. cbv beta.
    apply (hands_here codes _ _ (dw_Self w) s w (fun r st' rs => dg_hands (dg_kind _) _ _ _ r rs st')); [exact Hs |].
    apply (hop_then_hand D _ buffer size _ _ _ _ _ _ (fun answer => if 0 <? fst answer then _ else _)); [| done | done | by apply NextHopResolves_leads].
    intros answer. cbn. by destruct (0 <? fst answer).
  - intros. by apply stated_leads.
  - intros. apply drop_leads; [| done..]. cbn. unfold plus_tcp_IsOpen. by rewrite Z.eqb_refl.
Qed.
Lemma plus_tcp_starts config : starts_ok codes D (SolidSyslogPlusTcpDatagram_Initialise codes (E := E) config).
Proof using. intros slot e. split; [done |]. exists nothing_sent. split; [done |]. split; [| done]. cbn. unfold plus_tcp_IsOpen. by rewrite Z.eqb_refl. Qed.
End plus.
End classes.

(** A wait in ticks covers the tunable's milliseconds, by less than a tick. *)
Lemma rounded_up ms rate : 0 <= ms * rate -> let ticks := (ms * rate + (1000 - 1)) / 1000 in ms * rate <= ticks * 1000 < ms * rate + 1000.
Proof. intros Hm. cbv zeta. pose proof (Z.div_mod (ms * rate + (1000 - 1)) 1000 ltac:(done)). pose proof (Z.mod_pos_bound (ms * rate + (1000 - 1)) 1000 ltac:(done)). lia. Qed.
Lemma ResolveWaitTicks_covers codes : 0 <= configTICK_RATE_HZ codes <= 40000000 ->
  let waited := SOLIDSYSLOG_DATAGRAM_RESOLVE_WAIT_MS * configTICK_RATE_HZ codes in
  waited <= PlusTcpDatagram_ResolveWaitTicks codes * PLUSTCP_DATAGRAM_MILLISECONDS_PER_SECOND < waited + PLUSTCP_DATAGRAM_MILLISECONDS_PER_SECOND.
Proof.
  intros Hr. unfold PlusTcpDatagram_ResolveWaitTicks, u32, SOLIDSYSLOG_DATAGRAM_RESOLVE_WAIT_MS, PLUSTCP_DATAGRAM_MILLISECONDS_PER_SECOND.
  rewrite (Z.mod_small (100 * _)) by lia. rewrite Z.mod_small by lia. apply rounded_up. lia.
Qed.
Lemma TicksFor_covers {E} `{DatagramStack E} ms (e : E) slot tr : 0 <= ms <= 60000 -> 0 <= fst (ds_sysClkRateGet e) <= 30000 ->
  let waited := ms * fst (ds_sysClkRateGet e) in
  waited <= fst (VxWorks64Datagram_TicksFor ms (mkDgWorld slot e tr)) * VXWORKS64_DATAGRAM_MILLISECONDS_PER_SECOND < waited + VXWORKS64_DATAGRAM_MILLISECONDS_PER_SECOND.
Proof.
  intros Hm Hr. unfold VxWorks64Datagram_TicksFor, dg_env, zoom, st_bind, st_ret, VXWORKS64_DATAGRAM_MILLISECONDS_PER_SECOND. cbn [dw_Env].
  destruct (ds_sysClkRateGet e) as [rate e']. cbn [fst] in *. assert (0 <= ms * rate) by nia. assert (ms * rate <= 60000 * 30000) by nia.
  rewrite Z.quot_div_nonneg by lia. set (ticks := _ / 1000). assert (0 <= ticks <= 1800001) by (unfold ticks; split; [apply Z.div_pos; lia | apply Z.div_le_upper_bound; lia]).
  unfold to_int, u32, INT_MAX. rewrite Z.mod_small by lia. rewrite (proj2 (Z.leb_le _ _)) by lia. unfold ticks. apply rounded_up. lia.
Qed.

(** * The six keep the contract *)

Section keeps.
Context {E : Type} `{HT : ErrorTap E} `{HS : DatagramStack E} (codes : datagram_codes).
(** From any slot it starts in order; its operations are as the contract has them, their
    calls as the protocol has them; destroyed, it holds nothing. *)
Definition keeps_datagram_contract (D : datagram_dialect) (Initialise : @dg_op E unit) (datagram : SolidSyslogDatagram (dg_world E)) (cleanup : @dg_op E unit) : Prop :=
  datagram_contract (dg_kind D) datagram (dg_ok codes D) (dg_state codes D) (dg_reports codes D) (dg_dest D) /\
  starts_ok codes D Initialise /\ leaves_nothing codes D cleanup.
Lemma class_keeps D Take SendTo MaxPayload Drop Initialise : class_ok codes D Take SendTo MaxPayload Drop -> starts_ok codes D Initialise ->
  keeps_datagram_contract D Initialise (Datagram_vtable D Take SendTo MaxPayload (Datagram_Close D Drop)) (Datagram_Cleanup (Datagram_Close D Drop)).
Proof using. intros CK HI. split; [by apply class_contract |]. split; [done | by eapply class_cleanup]. Qed.

Lemma posix_datagram_keeps : keeps_datagram_contract posix_datagram (SolidSyslogPosixDatagram_Initialise) (PosixDatagram_vtable codes) SolidSyslogPosixDatagram_Cleanup.
Proof using. apply class_keeps; [by apply path_class | by apply path_starts]. Qed.
Lemma winsock_datagram_keeps : keeps_datagram_contract (winsock_datagram codes) (SolidSyslogWinsockDatagram_Initialise codes) (WinsockDatagram_vtable codes) (SolidSyslogWinsockDatagram_Cleanup codes).
Proof using.
  assert (Hn : dd_IsOpen (winsock_datagram codes) (dd_NoSocket (winsock_datagram codes)) = false) by (cbn; unfold WinsockDatagram_IsSocketValid; by rewrite Z.eqb_refl).
  apply class_keeps; [apply path_class; [done | done | apply to_int_udp] | by apply path_starts].
Qed.
Lemma lwip_socket_datagram_keeps config : keeps_datagram_contract lwip_socket_datagram (SolidSyslogLwipSocketDatagram_Initialise config) (LwipSocketDatagram_vtable codes) SolidSyslogLwipSocketDatagram_Cleanup.
Proof using. apply class_keeps; [apply lwip_socket_class | apply lwip_socket_starts]. Qed.
Lemma vxworks_datagram_keeps config : keeps_datagram_contract (vxworks_datagram codes) (SolidSyslogVxWorks64Datagram_Initialise codes config) (VxWorks64Datagram_vtable codes) (SolidSyslogVxWorks64Datagram_Cleanup codes).
Proof using. apply class_keeps; [apply vxworks_class | apply vxworks_starts]. Qed.
Lemma plus_tcp_datagram_keeps config : keeps_datagram_contract (plus_tcp_datagram codes) (SolidSyslogPlusTcpDatagram_Initialise codes config) (PlusTcpDatagram_vtable codes) (SolidSyslogPlusTcpDatagram_Cleanup codes).
Proof using. apply class_keeps; [apply plus_tcp_class | apply plus_tcp_starts]. Qed.
Lemma lwip_raw_datagram_keeps marshal config : runs_in_place marshal ->
  keeps_datagram_contract (lwip_raw_datagram codes) (SolidSyslogLwipRawDatagram_Initialise codes config) (LwipRawDatagram_vtable codes marshal) (SolidSyslogLwipRawDatagram_Cleanup codes marshal).
Proof using. intros MR. apply class_keeps; [by apply lwip_raw_class | apply lwip_raw_starts]. Qed.

End keeps.

(** * A small stack

    It takes datagrams of forty-eight bytes while its neighbours answer. *)
Record small_net := mkSmallNet { sm_Up : bool; sm_Slots : pending_slots }.
#[export] Instance settable_small_net : Settable small_net := fun n => mkSmallNet (sm_Up n) (sm_Slots n).
#[export] Instance small_net_tap : ErrorTap small_net := {
  tap_Handler := fun _ n => n;
  tap_Slots := sm_Slots;
  tap_SetSlots := fun slots n => n <| sm_Slots := slots |>
}.
Definition small_codes : datagram_codes := mkDatagramCodes 90 10040 0 10 14 2 (2 ^ 32 - 1) (2 ^ 32 - 1) 0 (-1) 2555905 1 1000 0.
#[export] Instance small_net_stack : DatagramStack small_net := {
  ds_socket := st_ret 3;
  ds_connect := fun _ _ => st_ret 0;
  ds_setsockopt := fun _ _ _ _ => st_ret 0;
  ds_getsockopt := fun _ _ _ => st_ret (0, 76);
  ds_sendto := fun _ data size _ n => (if negb (sm_Up n) then (-1, 101) else if 48 <? size then (-1, 90) else (size, 0), n);
  ds_close := fun _ => st_ret 0;
  ds_in_addr := fun addr _ => addr;
  ds_arpResolve := fun _ _ _ n => (if sm_Up n then (0, 0) else (-1, 110), n);
  ds_sysClkRateGet := st_ret 60;
  ds_eARPGetCacheEntry := fun ip n => (if sm_Up n then 1 else 0, ip, n);
  ds_OutputARPRequest := fun _ => st_ret tt;
  ds_vTaskDelay := fun _ => st_ret tt;
  ds_udp_new := st_ret 8;
  ds_udp_remove := fun _ => st_ret tt;
  ds_pbuf_alloc := fun _ => st_ret 9;
  ds_udp_sendto := fun _ _ _ _ n => (if sm_Up n then 0 else -4, n);
  ds_pbuf_free := fun _ => st_ret 1
}.
Definition a_small_net : small_net := mkSmallNet true initial_slots.
Definition a_datagram : datagram small_net := mkDatagram NullDatagramVtable 0 false (mkDatagramConfig None None) false 0 false 0.
Lemma null_runs_in_place : runs_in_place (E := small_net) Marshal_NullMarshal.
Proof. exists (st_ret tt), (st_ret tt). intros A callback [self e tr]. unfold dg_env, zoom, st_bind, st_ret, set_field, Marshal_NullMarshal. cbn. by destruct (callback _) as [a []]. Qed.
(** The neighbour is away for two of three records: one wait, one report. *)
Definition away (away : bool) : @dg_op small_net unit := dg_env (st_mod (fun n => n <| sm_Up := negb away |>)).
Abbreviation small_outage := ((SolidSyslogVxWorks64Datagram_Initialise small_codes None ;;;
  let! _ := VxWorks64Datagram_Open small_codes in
  away true ;;;
  let! r1 := VxWorks64Datagram_SendTo small_codes (str "one") 3 7 in
  let! r2 := VxWorks64Datagram_SendTo small_codes (str "one") 3 7 in
  away false ;;;
  let! r3 := VxWorks64Datagram_SendTo small_codes (str "one") 3 7 in
  st_ret (r1, r2, r3)) (mkDgWorld a_datagram a_small_net [])).
