(* ===== verification/LwipRawTcp.v ===== *)
(** The TCP stream over lwIP's raw interface
    ([src/Platform/LwipRaw/Source/SolidSyslogLwipRawTcpStream.c], and its two keepalive
    variants).  The stack belongs to a thread of its own: a call of it runs in a hop to
    that thread, and what it has to tell, it tells by calling back, on its thread,
    between any two steps of the caller's that read what the callbacks write.  The stack
    is the class [RawTcp]; what it calls back at each of these moments is its choice,
    within [raw_tcp_ok].  The monitor [observe_raw] says what a trace must be. *)
From stdpp Require Import relations.
From S2P Require Import Prelude Errors PendingEvents Interfaces Transport TcpStreams Datagrams.
#[local] Open Scope Z_scope.

(** * The stack *)

(** A chain of packet buffers, as it is handed over: its identity, the [tot_len] its
    first link says it has, and what its links hold. *)
Record pbuf := mkPbuf { pb_Id : Z; pb_tot_len : Z; pb_Payload : bytes }.
#[export] Instance pbuf_eq_dec : EqDecision pbuf.
Proof. solve_decision. Defined.
Definition null_pbuf : pbuf := mkPbuf 0 0 [].
(** A callback, of a control block ([pcb]). *)
Inductive raw_callback :=
| CallsConnected (pcb err : Z)
| CallsRecv (pcb : Z) (p : option pbuf) (err : Z)
| CallsSent (pcb len : Z)
| CallsErr (pcb err : Z).
(** What is set of a control block: an option, or what it is to call back, where the
    argument of the callbacks is the stream, or nothing. *)
Inductive pcb_setting :=
| SofKeepalive
| KeepIdle (milliseconds : Z)
| KeepIntvl (milliseconds : Z)
| KeepCnt (count : Z)
| NagleDisabled
| Arg (set : bool)
| Recv (set : bool)
| Sent (set : bool)
| Err (set : bool).
(** A pointer to a control block is a number, NULL being 0. *)
Class RawTcp (E : Type) := {
  raw_tcp_new : ST E Z;
  raw_set : Z -> pcb_setting -> ST E unit;
  raw_tcp_connect : Z -> SolidSyslogAddress -> ST E Z;
  (** with [TCP_WRITE_FLAG_COPY] *)
  raw_tcp_write : Z -> bytes -> Z -> ST E Z;
  raw_tcp_output : Z -> ST E Z;
  raw_tcp_recved : Z -> Z -> ST E unit;
  raw_tcp_close : Z -> ST E Z;
  raw_tcp_abort : Z -> ST E unit;
  (** the chain, the memory, the length and the offset: how much was copied, and the
      memory after it *)
  raw_pbuf_copy_partial : pbuf -> bytes -> Z -> Z -> Z * bytes;
  raw_pbuf_free : pbuf -> ST E Z;
  (** what the stack's thread calls back when it gets to run *)
  raw_runs : ST E (list raw_callback)
}.
Record lwip_codes := mkLwipCodes { lw_ERR_OK : Z; lw_ERR_MEM : Z; lw_ERR_CLSD : Z }.

(** The defaults of the tunables. *)
Definition SOLIDSYSLOG_LWIP_RAW_TCP_RX_QUEUE_SIZE : Z := 8.
Definition SOLIDSYSLOG_LWIP_RAW_TCP_CONNECT_POLL_MS : Z := 10.

(** * A stream in its environment *)

Section raw_world.
Context {E : Type}.

Record raw_config := mkRawConfig {
  rc_GetConnectTimeoutMs : option (@SolidSyslogTcpConnectTimeoutFunction E);
  rc_ConnectTimeoutContext : option Z;
  rc_Sleep : Z -> ST E unit
}.
Record raw_stream := mkRawStream {
  rt_Base : stream_vtable;
  rt_GetConnectTimeoutMs : @SolidSyslogTcpConnectTimeoutFunction E;
  rt_ConnectTimeoutContext : option Z;
  rt_Sleep : Z -> ST E unit;
  rt_OpenHealth : SolidSyslogStreamOpenHealth;
  rt_Pcb : Z;
  rt_Connected : bool;
  rt_Errored : bool;
  rt_LastError : Z;
  rt_RxQueue : list pbuf;
  rt_RxQueueHead : Z;
  rt_RxQueueCount : Z;
  rt_RxHeadOffset : Z
}.
#[export] Instance settable_raw_stream : Settable raw_stream := fun s =>
  mkRawStream (rt_Base s) (rt_GetConnectTimeoutMs s) (rt_ConnectTimeoutContext s) (rt_Sleep s) (rt_OpenHealth s) (rt_Pcb s) (rt_Connected s)
    (rt_Errored s) (rt_LastError s) (rt_RxQueue s) (rt_RxQueueHead s) (rt_RxQueueCount s) (rt_RxHeadOffset s).

(** Each call of the stack with what it answered, each callback with what it was
    answered, each report, the bytes a read took and the moment a connection counts as
    made. *)
Inductive raw_event :=
| PcbTaken (pcb : Z)
| PcbSet (pcb : Z) (setting : pcb_setting)
| ConnectStarted (pcb err : Z)
| Wrote (pcb : Z) (data : bytes) (err : Z)
| OutputCalled (pcb err : Z)
| Acknowledged (pcb len : Z)
| CloseTried (pcb err : Z)
| Aborted (pcb : Z)
| Copied (data : bytes)
| ChainFreed (p : pbuf)
| ToldConnected (pcb err : Z)
| ToldRecv (pcb : Z) (p : option pbuf) (answer : Z)
| ToldSent (pcb : Z)
| ToldErr (pcb err : Z)
| Slept (milliseconds : Z)
| RawEstablished
| RawReported (event : SolidSyslogErrorEvent).

(** [rw_Armed]: the control blocks whose argument is this stream. *)
Record raw_world := mkRawWorld { rw_Self : raw_stream; rw_Armed : list Z; rw_Env : E; rw_Trace : list raw_event }.
#[export] Instance settable_raw_world : Settable raw_world := fun w => mkRawWorld (rw_Self w) (rw_Armed w) (rw_Env w) (rw_Trace w).
Definition raw_op (A : Type) : Type := ST raw_world A.

Definition raw_get {A} (f : raw_stream -> A) : raw_op A := st_get (fun w => f (rw_Self w)).
Definition raw_put (f : raw_stream -> raw_stream) : raw_op unit := st_mod (fun w => w <| rw_Self := f (rw_Self w) |>).
Definition raw_happens (e : raw_event) : raw_op unit := st_mod (fun w => w <| rw_Trace := rw_Trace w ++ [e] |>).
Definition raw_env {A} (m : ST E A) : raw_op A := zoom rw_Env (fun e w => w <| rw_Env := e |>) m.
Definition raw_call {A} (m : ST E A) (said : A -> raw_event) : raw_op A :=
  let! a := raw_env m in
  raw_happens (said a) ;;;
  st_ret a.
End raw_world.
Arguments raw_config : clear implicits.
Arguments raw_stream : clear implicits.
Arguments raw_world : clear implicits.

(** Around the stream, others report too. *)
#[export] Instance raw_world_tap {E} `{ErrorTap E} : ErrorTap (raw_world E) := {
  tap_Handler := fun event w => w <| rw_Env := tap_Handler event (rw_Env w) |>;
  tap_Slots := fun w => tap_Slots (rw_Env w);
  tap_SetSlots := fun slots w => w <| rw_Env := tap_SetSlots slots (rw_Env w) |>
}.

Section raw_tcp.
Context {E : Type} `{ErrorTap E} `{RawTcp E} (codes : lwip_codes) (variant : keepalive_variant).
Context (currentMarshal : SolidSyslogLwipRawMarshalFunction (raw_world E)).
Abbreviation op := (@raw_op E).

(** ** Reports *)

Definition LwipRawTcpStream_Report (severity category code : Z) : op unit :=
  raw_env (st_mod (tap_error severity (Some SolidSyslogLwipRawTcpStreamErrorSource) category code)) ;;;
  raw_happens (RawReported (mkErrorEvent severity category false (Some SolidSyslogLwipRawTcpStreamErrorSource) code 0)).
Definition raw_health_report (detail : Z) (m : SolidSyslogStreamOpenHealth -> ST E SolidSyslogStreamOpenHealth) (event : SolidSyslogErrorEvent) : op unit :=
  let! health := raw_get rt_OpenHealth in
  let! after := raw_env (m health) in
  raw_put (fun self => self <| rt_OpenHealth := after |>) ;;;
  if! fst (StreamOpenHealth_Admit health detail) then raw_happens (RawReported event) end!.
Definition LwipRawTcpStream_ReportConnectFailure (severity detail : Z) : op unit :=
  raw_health_report detail
    (fun health => SolidSyslogStreamOpenHealth_ReportFailure health (Some SolidSyslogLwipRawTcpStreamErrorSource) severity SOLIDSYSLOG_CAT_STREAM_CONNECT_FAILED detail)
    (mkErrorEvent severity SOLIDSYSLOG_CAT_STREAM_CONNECT_FAILED false (Some SolidSyslogLwipRawTcpStreamErrorSource) detail 0).
Definition LwipRawTcpStream_ReportConnectFailureWithCode (severity detail nativeCode : Z) : op unit :=
  raw_health_report detail
    (fun health => SolidSyslogStreamOpenHealth_ReportFailureWithNativeCode health (Some SolidSyslogLwipRawTcpStreamErrorSource) severity SOLIDSYSLOG_CAT_STREAM_CONNECT_FAILED detail nativeCode)
    (mkErrorEvent severity SOLIDSYSLOG_CAT_STREAM_CONNECT_FAILED true (Some SolidSyslogLwipRawTcpStreamErrorSource) detail nativeCode).

(** ** What a stream starts as *)

Definition LwipRawTcpStream_NullConnectTimeoutGetter : @SolidSyslogTcpConnectTimeoutFunction E := fun _ => st_ret SOLIDSYSLOG_TCP_CONNECT_TIMEOUT_MS.
Definition LwipRawTcpStream_ConfigProvidesGetter (config : raw_config E) : bool :=
  match rc_GetConnectTimeoutMs config with None => false | Some _ => true end.
Definition SolidSyslogLwipRawTcpStream_Initialise (config : raw_config E) : raw_stream E :=
  let self := mkRawStream OwnStreamVtable LwipRawTcpStream_NullConnectTimeoutGetter None (fun _ => st_ret tt) (mkStreamOpenHealth false 0)
    0 false false (lw_ERR_OK codes) (replicate (Z.to_nat SOLIDSYSLOG_LWIP_RAW_TCP_RX_QUEUE_SIZE) null_pbuf) 0 0 0 in
  let self := self <| rt_Sleep := rc_Sleep config |> <| rt_ConnectTimeoutContext := rc_ConnectTimeoutContext config |> in
  match rc_GetConnectTimeoutMs config with
  | Some getter => self <| rt_GetConnectTimeoutMs := getter |>
  | None => self
  end.

Definition LwipRawTcpStream_IsOpen (self : raw_stream E) : bool := negb (rt_Pcb self =? 0).
Definition LwipRawTcpStream_HasQueuedRx (self : raw_stream E) : bool := 0 <? rt_RxQueueCount self.
Definition LwipRawTcpStream_RxQueueIsFull (self : raw_stream E) : bool := SOLIDSYSLOG_LWIP_RAW_TCP_RX_QUEUE_SIZE <=? rt_RxQueueCount self.

(** ** The callbacks, on the stack's thread *)

Definition rx_at (self : raw_stream E) (index : Z) : pbuf := nth (Z.to_nat index) (rt_RxQueue self) null_pbuf.
Definition LwipRawTcpStream_EnqueueRxPbuf (p : pbuf) (self : raw_stream E) : raw_stream E :=
  let tail := size_add (rt_RxQueueHead self) (rt_RxQueueCount self) mod SOLIDSYSLOG_LWIP_RAW_TCP_RX_QUEUE_SIZE in
  self <| rt_RxQueue := updZ (rt_RxQueue self) tail p |> <| rt_RxQueueCount := size_add (rt_RxQueueCount self) 1 |>.
Definition LwipRawTcpStream_ConnectedCallback (err : Z) (self : raw_stream E) : raw_stream E :=
  if err =? lw_ERR_OK codes then self <| rt_Connected := true |>
  else self <| rt_LastError := err |> <| rt_Errored := true |>.
Definition LwipRawTcpStream_RecvCallback (p : option pbuf) (self : raw_stream E) : Z * raw_stream E :=
  match p with
  | None => (lw_ERR_OK codes, self <| rt_LastError := lw_ERR_CLSD codes |> <| rt_Errored := true |>)
  | Some p =>
      if LwipRawTcpStream_RxQueueIsFull self then (lw_ERR_MEM codes, self)
      else (lw_ERR_OK codes, LwipRawTcpStream_EnqueueRxPbuf p self)
  end.
Definition LwipRawTcpStream_SentCallback (len : Z) (self : raw_stream E) : Z * raw_stream E := (lw_ERR_OK codes, self).
Definition LwipRawTcpStream_ErrCallback (err : Z) (self : raw_stream E) : raw_stream E :=
  self <| rt_Pcb := 0 |> <| rt_LastError := err |> <| rt_Errored := true |>.

(** The stack calls back the stream whose pcb it is, while the pcb's argument is the
    stream; a pcb it calls [tcp_err] for is gone with it. *)
Definition disarm (pcb : Z) : op unit := st_mod (fun w => w <| rw_Armed := filter (fun armed => armed <> pcb) (rw_Armed w) |>).
Definition arm (pcb : Z) : op unit := st_mod (fun w => w <| rw_Armed := pcb :: rw_Armed w |>).
Definition if_armed (pcb : Z) (m : op unit) : op unit :=
  let! armed := st_get (fun w => bool_decide (pcb ∈ rw_Armed w)) in
  if! armed then m end!.
Definition deliver (callback : raw_callback) : op unit :=
  match callback with
  | CallsConnected pcb err =>
      if_armed pcb (raw_put (LwipRawTcpStream_ConnectedCallback err) ;;; raw_happens (ToldConnected pcb err))
  | CallsRecv pcb p err =>
      if_armed pcb
        (let! answered := raw_get (LwipRawTcpStream_RecvCallback p) in
         raw_put (fun _ => snd answered) ;;;
         raw_happens (ToldRecv pcb p (fst answered)))
  | CallsSent pcb len =>
      if_armed pcb (raw_put (fun self => snd (LwipRawTcpStream_SentCallback len self)) ;;; raw_happens (ToldSent pcb))
  | CallsErr pcb err =>
      if_armed pcb (raw_put (LwipRawTcpStream_ErrCallback err) ;;; disarm pcb ;;; raw_happens (ToldErr pcb err))
  end.
Fixpoint deliver_all (callbacks : list raw_callback) : op unit :=
  match callbacks with
  | [] => st_ret tt
  | callback :: callbacks => deliver callback ;;; deliver_all callbacks
  end.
Definition delivers (m : ST E (list raw_callback)) : op unit := let! callbacks := raw_env m in deliver_all callbacks.
Definition stack_runs : op unit := delivers raw_runs.
(** A read on the caller's thread of what the callbacks write: the stack may have run
    before it. *)
Definition raw_look {A} (f : raw_stream E -> A) : op A := stack_runs ;;; raw_get f.
Definition raw_hop {A} (m : op A) : op A := SolidSyslogLwipRaw_Marshal currentMarshal m.

(** ** The control block *)

Definition set_pcb (pcb : Z) (setting : pcb_setting) : op unit :=
  raw_call (raw_set pcb setting) (fun _ => PcbSet pcb setting) ;;;
  match setting with
  | Arg true => arm pcb
  | Arg false => disarm pcb
  | _ => st_ret tt
  end.
Definition SolidSyslogLwipRawTcpStream_ApplyKeepalive (pcb : Z) : op unit :=
  set_pcb pcb (KeepIdle (SOLIDSYSLOG_TCP_KEEPALIVE_IDLE_SECONDS * MILLISECONDS_PER_SECOND)) ;;;
  match variant with
  | KeepaliveAll =>
      set_pcb pcb (KeepIntvl (SOLIDSYSLOG_TCP_KEEPALIVE_INTERVAL_SECONDS * MILLISECONDS_PER_SECOND)) ;;;
      set_pcb pcb (KeepCnt SOLIDSYSLOG_TCP_KEEPALIVE_PROBE_COUNT)
  | KeepaliveIdleOnly => st_ret tt
  end.
Definition LwipRawTcpStream_OpenAndConfigurePcb : op Z :=
  let! pcb := raw_call raw_tcp_new PcbTaken in
  if! negb (pcb =? 0) then
    set_pcb pcb SofKeepalive ;;;
    SolidSyslogLwipRawTcpStream_ApplyKeepalive pcb ;;;
    set_pcb pcb NagleDisabled ;;;
    set_pcb pcb (Arg true) ;;;
    set_pcb pcb (Recv true) ;;;
    set_pcb pcb (Sent true) ;;;
    set_pcb pcb (Err true)
  end! ;;;
  st_ret pcb.
Definition LwipRawTcpStream_DetachPcb (pcb : Z) : op unit :=
  set_pcb pcb (Arg false) ;;;
  set_pcb pcb (Recv false) ;;;
  set_pcb pcb (Sent false) ;;;
  set_pcb pcb (Err false).

(** ** The queue of what was received *)

(** [pbuf_free] of the head, and the head past it. *)
Definition drop_head : op unit :=
  let! head := raw_get (fun self => rx_at self (rt_RxQueueHead self)) in
  raw_call (raw_pbuf_free head) (fun _ => ChainFreed head) ;;;
  raw_put (fun self => self <| rt_RxQueueHead := size_add (rt_RxQueueHead self) 1 mod SOLIDSYSLOG_LWIP_RAW_TCP_RX_QUEUE_SIZE |>
                            <| rt_RxQueueCount := size_sub (rt_RxQueueCount self) 1 |>).
Definition raw_drain_step (_ : unit) : op (bool * unit) :=
  let! queued := raw_get LwipRawTcpStream_HasQueuedRx in
  if! queued : bool then drop_head end! ;;;
  st_ret (queued, tt).
Definition LwipRawTcpStream_DrainAllQueuedPbufs : op unit :=
  let! count := raw_get rt_RxQueueCount in
  loopM (S (Z.to_nat count)) raw_drain_step tt ;;;
  raw_put (fun self => self <| rt_RxHeadOffset := 0 |>).
Definition LwipRawTcpStream_DrainHeadBytes (buffer : bytes) (size : Z) : op (Z * bytes) :=
  let! self := raw_get (fun self => self) in
  let head := rx_at self (rt_RxQueueHead self) in
  let available := size_sub (pb_tot_len head) (rt_RxHeadOffset self) in
  let toCopy := if size <? available then size else available in
  let '(copied, memory) := raw_pbuf_copy_partial head buffer (u16 toCopy) (u16 (rt_RxHeadOffset self)) in
  raw_happens (Copied (takeZ copied memory)) ;;;
  let offset := size_add (rt_RxHeadOffset self) copied in
  raw_put (fun self => self <| rt_RxHeadOffset := offset |>) ;;;
  if! pb_tot_len head <=? offset then
    drop_head ;;;
    raw_put (fun self => self <| rt_RxHeadOffset := 0 |>)
  end! ;;;
  st_ret (copied, memory).

Definition LwipRawTcpStream_ClosePcb : op unit :=
  LwipRawTcpStream_DrainAllQueuedPbufs ;;;
  let! open := raw_get LwipRawTcpStream_IsOpen in
  if! open : bool then
    let! pcb := raw_get rt_Pcb in
    raw_put (fun self => self <| rt_Pcb := 0 |>) ;;;
    LwipRawTcpStream_DetachPcb pcb ;;;
    let! err := raw_call (raw_tcp_close pcb) (CloseTried pcb) in
    if! negb (err =? lw_ERR_OK codes) then raw_call (raw_tcp_abort pcb) (fun _ => Aborted pcb) end!
  end!.

(** ** Open *)

(** [PcbCreated] and [ConnectErr] of the call. *)
Definition LwipRawTcpStream_DoOpenAndConnect (addr : SolidSyslogAddress) : op (bool * Z) :=
  let! pcb := LwipRawTcpStream_OpenAndConfigurePcb in
  raw_put (fun self => self <| rt_Pcb := pcb |>) ;;;
  let! pcbCreated := raw_get LwipRawTcpStream_IsOpen in
  if pcbCreated : bool then
    raw_put (fun self => self <| rt_Connected := false |> <| rt_Errored := false |> <| rt_LastError := lw_ERR_OK codes |>) ;;;
    let! pcb := raw_get rt_Pcb in
    let! connectErr := raw_call (raw_tcp_connect pcb addr) (ConnectStarted pcb) in
    st_ret (true, connectErr)
  else st_ret (false, 0).
Definition LwipRawTcpStream_ResolveConnectTimeoutMs : op Z :=
  let! self := raw_get (fun self => self) in
  let! ms := raw_env (rt_GetConnectTimeoutMs self (rt_ConnectTimeoutContext self)) in
  st_ret (if SOLIDSYSLOG_TCP_CONNECT_TIMEOUT_MS_MAX <? u32 ms then SOLIDSYSLOG_TCP_CONNECT_TIMEOUT_MS_MAX else u32 ms).
Definition wait_step (deadlineMs elapsedMs : Z) : op (bool * Z) :=
  let! connected := raw_look rt_Connected in
  let! errored := if connected : bool then st_ret false else raw_look rt_Errored in
  if negb connected && negb errored && (elapsedMs <? deadlineMs) then
    let! self := raw_get (fun self => self) in
    raw_env (rt_Sleep self SOLIDSYSLOG_LWIP_RAW_TCP_CONNECT_POLL_MS) ;;;
    raw_happens (Slept SOLIDSYSLOG_LWIP_RAW_TCP_CONNECT_POLL_MS) ;;;
    st_ret (true, u32 (elapsedMs + SOLIDSYSLOG_LWIP_RAW_TCP_CONNECT_POLL_MS))
  else st_ret (false, elapsedMs).
Definition wait_rounds (deadlineMs : Z) : nat := Z.to_nat (deadlineMs / SOLIDSYSLOG_LWIP_RAW_TCP_CONNECT_POLL_MS + 2).
Definition LwipRawTcpStream_WaitForConnectedCallback : op bool :=
  let! deadlineMs := LwipRawTcpStream_ResolveConnectTimeoutMs in
  loopM (wait_rounds deadlineMs) (wait_step deadlineMs) 0 ;;;
  raw_look rt_Connected.
(** [EndedByPeer] and [PeerError] of the call. *)
Definition LwipRawTcpStream_DoAbort : op (bool * Z) :=
  let! self := raw_get (fun self => self) in
  let! open := raw_get LwipRawTcpStream_IsOpen in
  if! open : bool then
    let! pcb := raw_get rt_Pcb in
    LwipRawTcpStream_DetachPcb pcb ;;;
    raw_call (raw_tcp_abort pcb) (fun _ => Aborted pcb) ;;;
    raw_put (fun self => self <| rt_Pcb := 0 |>)
  end! ;;;
  st_ret (rt_Errored self, rt_LastError self).
Definition LwipRawTcpStream_ReportFailedAttempt (connectErr : Z) (endedByPeer : bool) (peerError : Z) : op unit :=
  if negb (connectErr =? lw_ERR_OK codes) then
    LwipRawTcpStream_ReportConnectFailureWithCode SOLIDSYSLOG_STREAM_CONNECT_LOCAL_SEVERITY SOLIDSYSLOG_TCP_STREAM_ERROR_CONNECT_NOT_STARTED connectErr
  else if endedByPeer then
    LwipRawTcpStream_ReportConnectFailureWithCode SOLIDSYSLOG_STREAM_CONNECT_REMOTE_SEVERITY SOLIDSYSLOG_TCP_STREAM_ERROR_CONNECT_REFUSED peerError
  else
    LwipRawTcpStream_ReportConnectFailure SOLIDSYSLOG_STREAM_CONNECT_REMOTE_SEVERITY SOLIDSYSLOG_TCP_STREAM_ERROR_CONNECT_TIMED_OUT.
(** The attempt on a pcb that was made, and on none. *)
Definition finish_attempt (connectErr : Z) : op bool :=
  let! opened := if connectErr =? lw_ERR_OK codes then LwipRawTcpStream_WaitForConnectedCallback else st_ret false in
  if! negb opened then
    let! ended := raw_hop LwipRawTcpStream_DoAbort in
    LwipRawTcpStream_ReportFailedAttempt connectErr (fst ended) (snd ended)
  end! ;;;
  st_ret opened.
Definition LwipRawTcpStream_Open (addr : SolidSyslogAddress) : op bool :=
  let! open := raw_look LwipRawTcpStream_IsOpen in
  if open : bool then
    LwipRawTcpStream_Report SOLIDSYSLOG_BAD_ARGUMENT_SEVERITY SOLIDSYSLOG_CAT_BAD_ARGUMENT SOLIDSYSLOG_TCP_STREAM_ERROR_ALREADY_OPEN ;;;
    st_ret false
  else
    let! made := raw_hop (LwipRawTcpStream_DoOpenAndConnect addr) in
    let! opened :=
      if fst made then finish_attempt (snd made)
      else
        LwipRawTcpStream_ReportConnectFailure SOLIDSYSLOG_STREAM_CONNECT_LOCAL_SEVERITY SOLIDSYSLOG_TCP_STREAM_ERROR_ENDPOINT_UNAVAILABLE ;;;
        st_ret false in
    if! opened : bool then
      raw_put (fun self => self <| rt_OpenHealth := SolidSyslogStreamOpenHealth_Opened (rt_OpenHealth self) |>) ;;;
      raw_happens RawEstablished
    end! ;;;
    st_ret opened.

(** ** Send, Read and Close *)

Definition LwipRawTcpStream_IsWritable : op bool :=
  let! open := raw_look LwipRawTcpStream_IsOpen in
  if open : bool then let! errored := raw_look rt_Errored in st_ret (negb errored) else st_ret false.
Definition LwipRawTcpStream_OutputResultIsAcceptable (outputErr : Z) : bool := (outputErr =? lw_ERR_OK codes) || (outputErr =? lw_ERR_MEM codes).
Definition LwipRawTcpStream_SendOrCloseOnFailure (buffer : bytes) (size : Z) : op bool :=
  let! pcb := raw_get rt_Pcb in
  let data := takeZ (u16 size) buffer in
  let! writeErr := raw_call (raw_tcp_write pcb data (u16 size)) (Wrote pcb data) in
  let! ok :=
    if writeErr =? lw_ERR_OK codes then
      let! pcb := raw_get rt_Pcb in
      let! outputErr := raw_call (raw_tcp_output pcb) (OutputCalled pcb) in
      st_ret (LwipRawTcpStream_OutputResultIsAcceptable outputErr)
    else st_ret false in
  if! negb ok then LwipRawTcpStream_ClosePcb end! ;;;
  st_ret ok.
Definition LwipRawTcpStream_DoSend (buffer : bytes) (size : Z) : op bool := LwipRawTcpStream_SendOrCloseOnFailure buffer size.
Definition LwipRawTcpStream_Send (buffer : bytes) (size : Z) : op bool :=
  let! writable := LwipRawTcpStream_IsWritable in
  if writable : bool then raw_hop (LwipRawTcpStream_DoSend buffer size) else st_ret false.

Definition READ_FAILED : Z := -1.
Definition LwipRawTcpStream_HasReadWork : op bool :=
  let! queued := raw_look LwipRawTcpStream_HasQueuedRx in
  if queued : bool then st_ret true else raw_look rt_Errored.
Definition LwipRawTcpStream_DoRead (buffer : bytes) (size : Z) : op (Z * bytes) :=
  let! queued := raw_get LwipRawTcpStream_HasQueuedRx in
  if queued : bool then
    let! drained := LwipRawTcpStream_DrainHeadBytes buffer size in
    let! pcb := raw_get rt_Pcb in
    raw_call (raw_tcp_recved pcb (u16 (fst drained))) (fun _ => Acknowledged pcb (u16 (fst drained))) ;;;
    st_ret drained
  else
    LwipRawTcpStream_ClosePcb ;;;
    st_ret (READ_FAILED, buffer).
Definition LwipRawTcpStream_Read (buffer : bytes) (size : Z) : op (Z * bytes) :=
  let! open := raw_look LwipRawTcpStream_IsOpen in
  if open : bool then
    let! work := LwipRawTcpStream_HasReadWork in
    if work : bool then raw_hop (LwipRawTcpStream_DoRead buffer size) else st_ret (0, buffer)
  else st_ret (READ_FAILED, buffer).

Definition LwipRawTcpStream_DoClose : op unit := LwipRawTcpStream_ClosePcb.
Definition LwipRawTcpStream_HasCloseWork : op bool :=
  let! open := raw_look LwipRawTcpStream_IsOpen in
  if open : bool then st_ret true else raw_look LwipRawTcpStream_HasQueuedRx.
Definition LwipRawTcpStream_Close : op unit :=
  let! work := LwipRawTcpStream_HasCloseWork in
  if! work : bool then raw_hop LwipRawTcpStream_DoClose end!.
Definition LwipRawTcpStream_Version : op Z := st_ret 0.
Definition SolidSyslogLwipRawTcpStream_Cleanup : op unit :=
  LwipRawTcpStream_Close ;;;
  raw_put (fun self => self <| rt_Base := NullStreamVtable |>).

(** Dispatch through the vtable. *)
Definition LwipRawTcpStream_vtable : SolidSyslogStream (raw_world E) :=
  let own {A} (m null : op A) : op A :=
    let! base := raw_get rt_Base in match base with OwnStreamVtable => m | NullStreamVtable => null end in {|
  SolidSyslogStream_Open := fun addr => own (LwipRawTcpStream_Open addr) (NullStream_Open addr);
  SolidSyslogStream_Send := fun buffer size => own (LwipRawTcpStream_Send buffer size) (NullStream_Send buffer size);
  SolidSyslogStream_Read := fun buffer size => own (LwipRawTcpStream_Read buffer size) (NullStream_Read buffer size);
  SolidSyslogStream_Close := own LwipRawTcpStream_Close NullStream_Close;
  SolidSyslogStream_Version := own LwipRawTcpStream_Version NullStream_Version
|}.
End raw_tcp.

(** * What a trace must be *)

(** A control block that is held: what has been set of it, whether its connect was
    started, and whether it is a connection. *)
Record pcb_held := mkPcbHeld {
  ph_Pcb : Z;
  ph_Keepalive : bool;
  ph_NoDelay : bool;
  ph_Arg : bool;
  ph_Recv : bool;
  ph_Sent : bool;
  ph_Err : bool;
  ph_Started : bool;
  ph_Live : bool
}.
#[export] Instance settable_pcb_held : Settable pcb_held := fun h =>
  mkPcbHeld (ph_Pcb h) (ph_Keepalive h) (ph_NoDelay h) (ph_Arg h) (ph_Recv h) (ph_Sent h) (ph_Err h) (ph_Started h) (ph_Live h).
Definition bare_pcb (pcb : Z) : pcb_held := mkPcbHeld pcb false false false false false false false false.
Definition with_setting (setting : pcb_setting) (h : pcb_held) : pcb_held :=
  match setting with
  | SofKeepalive => h <| ph_Keepalive := true |>
  | NagleDisabled => h <| ph_NoDelay := true |>
  | Arg set => h <| ph_Arg := set |>
  | Recv set => h <| ph_Recv := set |>
  | Sent set => h <| ph_Sent := set |>
  | Err set => h <| ph_Err := set |>
  | KeepIdle _ | KeepIntvl _ | KeepCnt _ => h
  end.
Definition is_wired (h : pcb_held) : bool := ph_Keepalive h && ph_NoDelay h && ph_Arg h && ph_Recv h && ph_Sent h && ph_Err h.
Definition is_detached (h : pcb_held) : bool := negb (ph_Arg h || ph_Recv h || ph_Sent h || ph_Err h).

(** Besides the control block: the chains accepted and not given back, how far the first
    has been read, what each connection was given, and the reports. *)
Record raw_seen := mkRawSeen {
  rn_Pcb : option pcb_held;
  rn_Queue : list pbuf;
  rn_Offset : Z;
  rn_Wires : list bytes;
  rn_Reports : list SolidSyslogErrorEvent
}.
#[export] Instance settable_raw_seen : Settable raw_seen := fun s => mkRawSeen (rn_Pcb s) (rn_Queue s) (rn_Offset s) (rn_Wires s) (rn_Reports s).
Definition nothing_heard : raw_seen := mkRawSeen None [] 0 [] [].

Section observer.
Context (codes : lwip_codes).
Definition owned (s : raw_seen) (pcb : Z) (k : pcb_held -> option raw_seen) : option raw_seen :=
  match rn_Pcb s with Some h => if pcb =? ph_Pcb h then k h else None | None => None end.
Definition holding (s : raw_seen) (h : pcb_held) : raw_seen := s <| rn_Pcb := Some h |>.
Definition released (s : raw_seen) : raw_seen := s <| rn_Pcb := None |>.
(** The protocol of the stack, as a monitor of the trace.  A control block is taken only
    when none is held, wholly set up before its connect is started, written to only as a
    connection, and given up, by close or by abort, only after it has nothing left to
    call back; a failed close is followed by another.  Every call names the one that is
    held, or, of a write and an acknowledgement, none when none is held.  What calls back
    is the one that is held.  An accepted chain goes behind the others, at most as many
    as the queue has room for; the first is read in order, and given back once. *)
Definition observe_raw (s : raw_seen) (e : raw_event) : option raw_seen :=
  match e with
  | PcbTaken pcb => if bool_decide (rn_Pcb s = None) then Some (if pcb =? 0 then s else holding s (bare_pcb pcb)) else None
  | PcbSet pcb setting => owned s pcb (fun h => Some (holding s (with_setting setting h)))
  | ConnectStarted pcb err => owned s pcb (fun h => if is_wired h && negb (ph_Started h) then Some (holding s (h <| ph_Started := true |>)) else None)
  | Wrote pcb data err =>
      match rn_Pcb s with
      | Some h =>
          if (pcb =? ph_Pcb h) && ph_Live h
          then Some (if err =? lw_ERR_OK codes then s <| rn_Wires := extend_last (rn_Wires s) data |> else s) else None
      | None => if (pcb =? 0) && negb (err =? lw_ERR_OK codes) then Some s else None
      end
  | OutputCalled pcb err => owned s pcb (fun h => if ph_Live h then Some s else None)
  | Acknowledged pcb len => match rn_Pcb s with Some h => if pcb =? ph_Pcb h then Some s else None | None => if pcb =? 0 then Some s else None end
  | CloseTried pcb err => owned s pcb (fun h => if is_detached h then Some (if err =? lw_ERR_OK codes then released s else s) else None)
  | Aborted pcb => owned s pcb (fun h => if is_detached h then Some (released s) else None)
  | Copied data =>
      match rn_Queue s with
      | p :: _ => if bool_decide (data = spanZ (pb_Payload p) (rn_Offset s) (lenZ data)) then Some (s <| rn_Offset := rn_Offset s + lenZ data |>) else None
      | [] => None
      end
  | ChainFreed p =>
      match rn_Queue s with
      | q :: queue => if bool_decide (p = q) then Some (s <| rn_Queue := queue |> <| rn_Offset := 0 |>) else None
      | [] => None
      end
  | ToldConnected pcb err =>
      owned s pcb (fun h => if ph_Arg h && ph_Started h then Some (if err =? lw_ERR_OK codes then holding s (h <| ph_Live := true |>) else s) else None)
  | ToldRecv pcb None answer => owned s pcb (fun h => if ph_Arg h then Some s else None)
  | ToldRecv pcb (Some p) answer =>
      owned s pcb (fun h =>
        if ph_Arg h then
          if answer =? lw_ERR_OK codes
          then if lenZ (rn_Queue s) <? SOLIDSYSLOG_LWIP_RAW_TCP_RX_QUEUE_SIZE then Some (s <| rn_Queue := rn_Queue s ++ [p] |>) else None
          else Some s
        else None)
  | ToldSent pcb => owned s pcb (fun h => if ph_Arg h then Some s else None)
  | ToldErr pcb err => owned s pcb (fun h => if ph_Arg h then Some (released s) else None)
  | Slept milliseconds => Some s
  | RawEstablished => Some (s <| rn_Wires := rn_Wires s ++ [[]] |>)
  | RawReported event => Some (s <| rn_Reports := rn_Reports s ++ [event] |>)
  end.
Definition raw_observed (es : list raw_event) : option raw_seen :=
  fold_left (fun s e => match s with Some s => observe_raw s e | None => None end) es (Some nothing_heard).
Lemma raw_observed_snoc es e : raw_observed (es ++ [e]) = match raw_observed es with Some s => observe_raw s e | None => None end.
Proof. unfold raw_observed. by rewrite fold_left_app. Qed.
End observer.

(** * What a caller sees *)

(** The connection is down, up, or closed at the peer's end; what has come in and was not
    read; the fault that is latched; what each connection was given. *)
Inductive raw_phase := Down | Up | PeerClosed.
#[export] Instance raw_phase_eq_dec : EqDecision raw_phase.
Proof. solve_decision. Defined.
Record raw_view := mkRawView { rv_Phase : raw_phase; rv_Inbox : bytes; rv_Latch : option Z; rv_Wires : list bytes }.
#[export] Instance settable_raw_view : Settable raw_view := fun v => mkRawView (rv_Phase v) (rv_Inbox v) (rv_Latch v) (rv_Wires v).

(** What the peer and the stack do meanwhile: bytes come in, the peer closes its end, the
    connection is lost. *)
Inductive drift : raw_view -> raw_view -> Prop :=
| drift_heard v data : rv_Phase v <> Down -> drift v (v <| rv_Inbox := rv_Inbox v ++ data |>)
| drift_ended v : rv_Phase v <> Down -> drift v (v <| rv_Phase := PeerClosed |>)
| drift_lost v : drift v (v <| rv_Phase := Down |>).
Abbreviation drifts := (rtc drift).

Definition already_open_event : SolidSyslogErrorEvent :=
  mkErrorEvent SOLIDSYSLOG_BAD_ARGUMENT_SEVERITY SOLIDSYSLOG_CAT_BAD_ARGUMENT false (Some SolidSyslogLwipRawTcpStreamErrorSource) SOLIDSYSLOG_TCP_STREAM_ERROR_ALREADY_OPEN 0.
(** An Open of what is held changes nothing; one that fails leaves nothing held, and
    reports once per run of one detail; one that connects starts a wire, and what is
    unread stays so. *)
Inductive raw_opens (v : raw_view) : bool -> list SolidSyslogErrorEvent -> raw_view -> Prop :=
| raw_opens_refused : rv_Phase v <> Down -> raw_opens v false [already_open_event] v
| raw_opens_failed u severity hasNative detail native :
    rv_Phase v = Down -> drifts (v <| rv_Phase := Up |>) u ->
    raw_opens v false
      (if bool_decide (rv_Latch v = Some detail) then []
       else [mkErrorEvent severity SOLIDSYSLOG_CAT_STREAM_CONNECT_FAILED hasNative (Some SolidSyslogLwipRawTcpStreamErrorSource) detail native])
      (u <| rv_Phase := Down |> <| rv_Latch := Some detail |>)
| raw_opens_made : rv_Phase v = Down -> raw_opens v true [] (mkRawView Up (rv_Inbox v) None (rv_Wires v ++ [[]])).
(** All of a record on a connection that was up; or the connection closed, and what it
    was given of the record whole or not at all; or nothing done, the connection being
    down or closed by the peer. *)
Inductive raw_sends (data : bytes) (v : raw_view) : bool -> raw_view -> Prop :=
| raw_sends_whole : rv_Phase v = Up -> raw_sends data v true (v <| rv_Wires := extend_last (rv_Wires v) data |>)
| raw_sends_closed wires :
    wires = rv_Wires v \/ wires = extend_last (rv_Wires v) data ->
    raw_sends data v false (mkRawView Down [] (rv_Latch v) wires)
| raw_sends_refused : rv_Phase v <> Up -> raw_sends data v false v.
(** The next bytes that came in, as many as there is room for in the first chain, none
    when there are none; an end only when the peer has closed and all was read. *)
Inductive raw_reads (size : Z) (buffer : bytes) (v : raw_view) : Z * bytes -> raw_view -> Prop :=
| raw_reads_some data rest :
    rv_Inbox v = data ++ rest -> lenZ data <= size -> (data = [] -> size = 0) ->
    raw_reads size buffer v (lenZ data, spliceZ buffer 0 data) (v <| rv_Inbox := rest |>)
| raw_reads_none : rv_Phase v <> Down -> rv_Inbox v = [] -> raw_reads size buffer v (0, buffer) v
| raw_reads_end : rv_Phase v <> Up -> rv_Inbox v = [] -> raw_reads size buffer v (READ_FAILED, buffer) (v <| rv_Phase := Down |>)
| raw_reads_down : rv_Phase v = Down -> raw_reads size buffer v (READ_FAILED, buffer) v.
(** A call: what happens meanwhile, its step, what happens meanwhile. *)
Definition amid (R : raw_view -> raw_view -> Prop) (v v' : raw_view) : Prop := exists v1 v2, drifts v v1 /\ R v1 v2 /\ drifts v2 v'.

(** * What the stack's documentation says of its calls *)

Definition pbuf_ok (p : pbuf) : Prop := pb_tot_len p = lenZ (pb_Payload p) /\ 0 < lenZ (pb_Payload p) < 2 ^ 16.
Definition callback_ok (callback : raw_callback) : Prop := match callback with CallsRecv _ (Some p) _ => pbuf_ok p | _ => True end.
(** A chain's [tot_len] is the sum of its links; a write on no control block is refused;
    a copy is of what there is from the offset on, as far as the length goes. *)
Record raw_tcp_ok {E} `{RawTcp E} (codes : lwip_codes) : Prop := {
  ok_codes : lw_ERR_MEM codes <> lw_ERR_OK codes;
  ok_runs : forall e, Forall callback_ok (fst (raw_runs e));
  ok_write_null : forall data len e, fst (raw_tcp_write 0 data len e) <> lw_ERR_OK codes;
  ok_copy : forall p memory len offset, pbuf_ok p -> 0 <= offset <= pb_tot_len p -> 0 <= len <= lenZ memory ->
    raw_pbuf_copy_partial p memory len offset =
      (Z.min len (pb_tot_len p - offset), spliceZ memory 0 (spanZ (pb_Payload p) offset (Z.min len (pb_tot_len p - offset))))
}.
(** The integrator's marshal runs its callback once, before it returns; the stack's
    thread may have called back before the callback runs, and after it. *)
Definition raw_marshal_ok {E} `{RawTcp E} (codes : lwip_codes) (marshal : SolidSyslogLwipRawMarshalFunction (raw_world E)) : Prop :=
  exists enter leave : ST E (list raw_callback),
    (forall e, Forall callback_ok (fst (enter e)) /\ Forall callback_ok (fst (leave e))) /\
    forall A (callback : raw_op A) w, marshal A callback w = (delivers codes enter ;;; let! a := callback in delivers codes leave ;;; st_ret a) w.

(** * Running an operation in what is seen *)

Record conf (E : Type) := mkConf { cf_Self : raw_stream E; cf_Armed : list Z; cf_Seen : raw_seen }.
Arguments mkConf {E} _ _ _.
Arguments cf_Self {E} _.
Arguments cf_Armed {E} _.
Arguments cf_Seen {E} _.
#[export] Instance settable_conf {E} : Settable (conf E) := fun c => mkConf (cf_Self c) (cf_Armed c) (cf_Seen c).

Section leads.
Context {E : Type} `{HT : ErrorTap E} `{HS : RawTcp E} (codes : lwip_codes).
Abbreviation op := (@raw_op E).
Implicit Types (w : raw_world E) (c : conf E).

Definition raw_stands c w : Prop := rw_Self w = cf_Self c /\ rw_Armed w = cf_Armed c /\ raw_observed codes (rw_Trace w) = Some (cf_Seen c).
Definition raw_leads {A} (m : op A) c (Q : A -> conf E -> Prop) : Prop :=
  forall w, raw_stands c w -> wp m (fun a w' => exists c', raw_stands c' w' /\ Q a c') w.

Lemma rleads_bind {A B} (m : op A) (k : A -> op B) c Q :
  raw_leads m c (fun a c' => raw_leads (k a) c' Q) -> raw_leads (let! a := m in k a) c Q.
Proof using. intros Hm w Hw. apply wp_bind. eapply wp_mono; [by apply Hm |]. intros a w' (c' & Hw' & Hk). by apply Hk. Qed.
Lemma rleads_ret {A} (a : A) c (Q : A -> conf E -> Prop) : Q a c -> raw_leads (st_ret a) c Q.
Proof using. intros HQ w Hw. apply wp_ret. eauto. Qed.
Lemma rleads_mono {A} (m : op A) c (Q Q' : A -> conf E -> Prop) :
  raw_leads m c Q -> (forall a c', Q a c' -> Q' a c') -> raw_leads m c Q'.
Proof using. intros Hm HQ w Hw. eapply wp_mono; [by apply Hm |]. intros a w' (c' & Hw' & Ha). eauto 6. Qed.
Lemma rleads_get {A} (f : raw_stream E -> A) c Q : Q (f (cf_Self c)) c -> raw_leads (raw_get f) c Q.
Proof using. intros HQ w Hw. apply wp_get. pose proof Hw as (-> & _). eauto. Qed.
Lemma rleads_put (f : raw_stream E -> raw_stream E) c (Q : unit -> conf E -> Prop) :
  Q tt (c <| cf_Self := f (cf_Self c) |>) -> raw_leads (raw_put f) c Q.
Proof using. intros HQ w (Hs & Ha & Ho). apply wp_mod. eexists. split; [| exact HQ]. split; [cbn; by rewrite Hs | done]. Qed.
Lemma rleads_armed (f : list Z -> list Z) c (Q : unit -> conf E -> Prop) :
  Q tt (c <| cf_Armed := f (cf_Armed c) |>) -> raw_leads (st_mod (fun w => w <| rw_Armed := f (rw_Armed w) |>)) c Q.
Proof using. intros HQ w (Hs & Ha & Ho). apply wp_mod. eexists. split; [| exact HQ]. split; [done | split; [cbn; by rewrite Ha | done]]. Qed.
Lemma rleads_env {A} (m : ST E A) (F : A -> Prop) c (Q : A -> conf E -> Prop) :
  (forall e, F (fst (m e))) -> (forall a, F a -> Q a c) -> raw_leads (raw_env m) c Q.
Proof using.
  intros HF HQ w Hw. apply wp_zoom. unfold wp. exists c. split; [done | apply HQ, HF].
Qed.
Lemma rleads_any_env {A} (m : ST E A) c (Q : A -> conf E -> Prop) : (forall a, Q a c) -> raw_leads (raw_env m) c Q.
Proof using. intros HQ. by apply (rleads_env m (fun _ => True)). Qed.
Lemma rleads_happens e c s' (Q : unit -> conf E -> Prop) :
  observe_raw codes (cf_Seen c) e = Some s' -> Q tt (c <| cf_Seen := s' |>) -> raw_leads (raw_happens e) c Q.
Proof using.
  intros Ho HQ w (Hs & Ha & Hw). apply wp_mod. exists (c <| cf_Seen := s' |>). split; [| done]. split; [done |]. split; [done |].
  change (raw_observed codes (rw_Trace w ++ [e]) = Some s'). by rewrite raw_observed_snoc, Hw.
Qed.
Lemma rleads_call_such {A} (m : ST E A) (F : A -> Prop) said c (Q : A -> conf E -> Prop) : (forall e, F (fst (m e))) ->
  (forall a, F a -> exists s', observe_raw codes (cf_Seen c) (said a) = Some s' /\ Q a (c <| cf_Seen := s' |>)) -> raw_leads (raw_call m said) c Q.
Proof using.
  intros HF HQ. apply rleads_bind, (rleads_env m F); [done |]. intros a Ha. destruct (HQ a Ha) as (s' & Ho & Hq). apply rleads_bind.
  eapply rleads_happens; [done |]. by apply rleads_ret.
Qed.
Lemma rleads_call {A} (m : ST E A) said c (Q : A -> conf E -> Prop) :
  (forall a, exists s', observe_raw codes (cf_Seen c) (said a) = Some s' /\ Q a (c <| cf_Seen := s' |>)) -> raw_leads (raw_call m said) c Q.
Proof using. intros HQ. by apply (rleads_call_such m (fun _ => True)). Qed.
(** Each round that goes on brings the measure down. *)
Lemma rleads_loop {A} (I : A -> conf E -> Prop) (m : A -> conf E -> Z) (body : A -> op (bool * A)) : forall fuel a c (Q : A -> conf E -> Prop),
  I a c -> m a c < Z.of_nat fuel ->
  (forall a c, I a c -> 0 <= m a c /\ raw_leads (body a) c (fun r c' => if fst r then I (snd r) c' /\ m (snd r) c' < m a c else Q (snd r) c')) ->
  raw_leads (loopM fuel body a) c Q.
Proof using.
  induction fuel as [| fuel IH]; intros a c Q HI Hm Hstep; cbn [loopM]; [destruct (Hstep a c HI); lia |].
  apply rleads_bind. eapply rleads_mono; [apply Hstep, HI |]. intros [[] a'] c'; cbn [fst snd]; [| by apply rleads_ret].
  intros [HI' Hm']. apply IH; [done | lia | done].
Qed.
End leads.

Ltac rlead_step :=
  lazymatch goal with
  | |- raw_leads _ (st_bind _ _) _ _ => apply rleads_bind
  | |- raw_leads _ (st_ret _) _ _ => apply rleads_ret
  | |- raw_leads _ (raw_get _) _ _ => apply rleads_get
  | |- raw_leads _ (raw_put _) _ _ => apply rleads_put
  end.
Ltac rlead_on := cbv beta iota; repeat (rlead_step; cbv beta iota).

(** The fields of what was updated. *)
Ltac raw_cbn :=
  try unfold holding in *; try unfold released in *;
  cbn [set_field cf_Self cf_Armed cf_Seen rt_Base rt_GetConnectTimeoutMs rt_ConnectTimeoutContext rt_Sleep rt_OpenHealth rt_Pcb rt_Connected rt_Errored
       rt_LastError rt_RxQueue rt_RxQueueHead rt_RxQueueCount rt_RxHeadOffset rn_Pcb rn_Queue rn_Offset rn_Wires rn_Reports
       ph_Pcb ph_Keepalive ph_NoDelay ph_Arg ph_Recv ph_Sent ph_Err ph_Started ph_Live rv_Phase rv_Inbox rv_Latch rv_Wires] in *.

(** * The queue as a list *)

Section ring.
Context {E : Type}.
Implicit Types (self : raw_stream E).
Abbreviation SIZE := SOLIDSYSLOG_LWIP_RAW_TCP_RX_QUEUE_SIZE.

Record ring_ok self : Prop := {
  ring_length : lenZ (rt_RxQueue self) = SIZE;
  ring_head : 0 <= rt_RxQueueHead self < SIZE;
  ring_count : 0 <= rt_RxQueueCount self <= SIZE
}.
Definition rx_list self : list pbuf :=
  map (fun k => rx_at self ((rt_RxQueueHead self + Z.of_nat k) mod SIZE)) (seq 0 (Z.to_nat (rt_RxQueueCount self))).
Lemma rx_list_length self : ring_ok self -> lenZ (rx_list self) = rt_RxQueueCount self.
Proof using. intros []. unfold rx_list, lenZ. rewrite length_map, length_seq. lia. Qed.
Lemma rx_at_upd self i j p : ring_ok self -> 0 <= i < SIZE -> 0 <= j < SIZE ->
  nth (Z.to_nat j) (updZ (rt_RxQueue self) i p) null_pbuf = if j =? i then p else rx_at self j.
Proof using.
  intros [Hl _ _] Hi Hj. unfold updZ, rx_at, lenZ, SIZE in *. rewrite !nth_lookup. destruct (Z.eqb_spec j i) as [-> | Hne].
  - by rewrite list_lookup_insert_eq by lia.
  - by rewrite list_lookup_insert_ne by lia.
Qed.
Lemma Enqueue_ring p self : ring_ok self -> LwipRawTcpStream_RxQueueIsFull self = false ->
  ring_ok (LwipRawTcpStream_EnqueueRxPbuf p self) /\ rx_list (LwipRawTcpStream_EnqueueRxPbuf p self) = rx_list self ++ [p].
Proof using.
  intros Hr Hf. pose proof Hr as [Hl Hh Hc]. unfold LwipRawTcpStream_RxQueueIsFull in Hf. apply Z.leb_gt in Hf.
  unfold LwipRawTcpStream_EnqueueRxPbuf, SIZE in *.
  rewrite (size_add_small (rt_RxQueueHead self)), (size_add_small (rt_RxQueueCount self)) by (unfold SIZE_MAX; lia). cbn [set_field].
  set (tail := (rt_RxQueueHead self + rt_RxQueueCount self) mod 8). assert (Ht : 0 <= tail < 8) by (apply Z.mod_pos_bound; lia).
  split; [constructor; raw_cbn; rewrite ?lenZ_updZ; unfold SIZE; lia |].
  unfold rx_list. raw_cbn. rewrite Z2Nat.inj_add by lia. rewrite Nat.add_1_r, seq_S, map_app. cbn [map]. f_equal.
  - apply map_ext_in. intros k Hk. apply in_seq in Hk. unfold rx_at at 1. raw_cbn.
    rewrite rx_at_upd by first [done | exact Ht | by apply Z.mod_pos_bound].
    destruct (Z.eqb_spec ((rt_RxQueueHead self + Z.of_nat k) mod SIZE) tail) as [Hkt |]; [exfalso | done].
    unfold tail, SIZE in Hkt. Z.div_mod_to_equations. lia.
  - unfold rx_at. raw_cbn. rewrite rx_at_upd by first [done | exact Ht | by apply Z.mod_pos_bound].
    rewrite Nat.add_0_l, Z2Nat.id by lia. fold tail. by rewrite Z.eqb_refl.
Qed.
Definition past_head self : raw_stream E :=
  self <| rt_RxQueueHead := size_add (rt_RxQueueHead self) 1 mod SIZE |> <| rt_RxQueueCount := size_sub (rt_RxQueueCount self) 1 |>.
Lemma past_head_ring self : ring_ok self -> LwipRawTcpStream_HasQueuedRx self = true ->
  ring_ok (past_head self) /\ rx_list self = rx_at self (rt_RxQueueHead self) :: rx_list (past_head self) /\
  rt_RxQueueCount (past_head self) = rt_RxQueueCount self - 1.
Proof using.
  intros [Hl Hh Hc] Hq. unfold LwipRawTcpStream_HasQueuedRx in Hq. apply Z.ltb_lt in Hq. unfold past_head, SIZE in *.
  rewrite (size_add_small (rt_RxQueueHead self)), size_sub_small by (unfold SIZE_MAX; lia). cbn [set_field].
  pose proof (Z.mod_pos_bound (rt_RxQueueHead self + 1) 8 ltac:(lia)).
  split; [constructor; raw_cbn; unfold SIZE; lia |]. split; [| done].
  unfold rx_list at 1. replace (Z.to_nat (rt_RxQueueCount self)) with (S (Z.to_nat (rt_RxQueueCount self - 1))) by lia.
  cbn [seq map]. f_equal; [unfold SIZE; rewrite Z.add_0_r, Z.mod_small by lia; done |].
  unfold rx_list. raw_cbn. rewrite <- seq_shift, map_map. apply map_ext_in. intros k Hk.
  unfold rx_at, SIZE. raw_cbn. f_equal. f_equal. rewrite Zplus_mod_idemp_l. f_equal. lia.
Qed.
End ring.

(** * The stream between the hops *)

Section calm.
Context {E : Type} `{HT : ErrorTap E} `{HS : RawTcp E} (codes : lwip_codes) (OK : raw_tcp_ok codes).
Abbreviation op := (@raw_op E).
Abbreviation leads := (raw_leads codes).
Implicit Types (self : raw_stream E) (c : conf E) (s : raw_seen).

(** What the fields say of the control block is what has been seen of it. *)
Definition pcb_tied self (armed : list Z) s : Prop :=
  match rn_Pcb s with
  | None => rt_Pcb self = 0 /\ armed = []
  | Some h =>
      ph_Pcb h <> 0 /\ rt_Pcb self = ph_Pcb h /\ armed = [ph_Pcb h] /\ is_wired h = true /\ ph_Started h = true /\
      (rt_Connected self = true -> ph_Live h = true)
  end.
(** And of the queue. *)
Record queue_tied self s : Prop := {
  tied_ring : ring_ok self;
  tied_list : rx_list self = rn_Queue s;
  tied_offset : rt_RxHeadOffset self = rn_Offset s;
  tied_read : 0 <= rn_Offset s /\ match rn_Queue s with [] => rn_Offset s = 0 | p :: _ => rn_Offset s < pb_tot_len p end;
  tied_chains : Forall pbuf_ok (rn_Queue s)
}.
Lemma queue_tied_same self self' s s' : queue_tied self s ->
  rt_RxQueue self' = rt_RxQueue self -> rt_RxQueueHead self' = rt_RxQueueHead self -> rt_RxQueueCount self' = rt_RxQueueCount self ->
  rt_RxHeadOffset self' = rt_RxHeadOffset self -> rn_Queue s' = rn_Queue s -> rn_Offset s' = rn_Offset s -> queue_tied self' s'.
Proof using.
  intros [[] Hl Ho Hr Hc] E1 E2 E3 E4 E5 E6. constructor; rewrite ?E5, ?E6, ?E4; try done; [constructor; by rewrite ?E1, ?E2, ?E3 |].
  rewrite <- Hl. unfold rx_list, rx_at. by rewrite E1, E2, E3.
Qed.
Definition calm c : Prop := pcb_tied (cf_Self c) (cf_Armed c) (cf_Seen c) /\ queue_tied (cf_Self c) (cf_Seen c).

Definition inbox (queue : list pbuf) (offset : Z) : bytes := dropZ offset (concat (map pb_Payload queue)).
Definition phase_of self : raw_phase := if rt_Pcb self =? 0 then Down else if rt_Errored self then PeerClosed else Up.
Definition view c : raw_view :=
  mkRawView (phase_of (cf_Self c)) (inbox (rn_Queue (cf_Seen c)) (rn_Offset (cf_Seen c))) (latch_of (rt_OpenHealth (cf_Self c))) (rn_Wires (cf_Seen c)).

(** From one moment to a later one, the caller doing nothing. *)
Record meanwhile c c' : Prop := {
  mw_calm : calm c';
  mw_drifts : drifts (view c) (view c');
  mw_own : rt_Base (cf_Self c') = rt_Base (cf_Self c) /\ rt_GetConnectTimeoutMs (cf_Self c') = rt_GetConnectTimeoutMs (cf_Self c) /\
    rt_ConnectTimeoutContext (cf_Self c') = rt_ConnectTimeoutContext (cf_Self c) /\ rt_Sleep (cf_Self c') = rt_Sleep (cf_Self c) /\
    rt_OpenHealth (cf_Self c') = rt_OpenHealth (cf_Self c);
  mw_reports : rn_Reports (cf_Seen c') = rn_Reports (cf_Seen c);
  mw_wires : rn_Wires (cf_Seen c') = rn_Wires (cf_Seen c);
  mw_queue : exists more, rn_Queue (cf_Seen c') = rn_Queue (cf_Seen c) ++ more;
  mw_pcb : rt_Pcb (cf_Self c') = rt_Pcb (cf_Self c) \/ rt_Pcb (cf_Self c') = 0 /\ rt_Errored (cf_Self c') = true;
  mw_connected : rt_Connected (cf_Self c) = true -> rt_Connected (cf_Self c') = true;
  mw_errored : rt_Errored (cf_Self c) = true -> rt_Errored (cf_Self c') = true
}.
Lemma meanwhile_refl c : calm c -> meanwhile c c.
Proof using. intros Hc. constructor; [done | apply rtc_refl | done | done | done | exists []; by rewrite app_nil_r | by left | done | done]. Qed.
Lemma meanwhile_trans c1 c2 c3 : meanwhile c1 c2 -> meanwhile c2 c3 -> meanwhile c1 c3.
Proof using.
  intros [C1 D1 O1 R1 W1 (q1 & Q1) P1 N1 E1] [C2 D2 O2 R2 W2 (q2 & Q2) P2 N2 E2]. constructor; [done | by etrans | | congruence | congruence | | | by auto | by auto].
  - destruct O1 as (? & ? & ? & ? & ?), O2 as (? & ? & ? & ? & ?). repeat split; congruence.
  - exists (q1 ++ q2). by rewrite Q2, Q1, app_assoc.
  - destruct P2 as [-> | P2]; [| by right]. destruct P1 as [P1 | [P1 Er]]; [by left | right]. split; [done | by apply E2].
Qed.

Lemma inbox_snoc queue p offset : 0 <= offset <= lenZ (concat (map pb_Payload queue)) ->
  inbox (queue ++ [p]) offset = inbox queue offset ++ pb_Payload p.
Proof using. intros Ho. unfold inbox. rewrite map_app, concat_app. cbn [map concat]. rewrite app_nil_r. apply dropZ_app_le. lia. Qed.
Lemma tied_within self s : queue_tied self s -> 0 <= rn_Offset s <= lenZ (concat (map pb_Payload (rn_Queue s))).
Proof using.
  intros [_ _ _ [Ho Hq] Hc]. split; [done |]. destruct (rn_Queue s) as [|p queue]; [rewrite Hq; done |].
  apply Forall_cons_1 in Hc as [[Ht _] _]. cbn [map concat]. len_simpl. pose proof (lenZ_nonneg (concat (map pb_Payload queue))). lia.
Qed.
Lemma wired_fields h : is_wired h = true -> ph_Arg h = true /\ is_wired (h <| ph_Live := true |>) = true.
Proof using. destruct h as [pcb [] [] [] [] [] [] st live]; done. Qed.
Lemma armed_pcb c pcb : calm c -> pcb ∈ cf_Armed c -> exists h, rn_Pcb (cf_Seen c) = Some h /\ ph_Pcb h = pcb /\ cf_Armed c = [pcb] /\
  pcb <> 0 /\ rt_Pcb (cf_Self c) = pcb /\ ph_Arg h = true /\ is_wired h = true /\ ph_Started h = true /\ (rt_Connected (cf_Self c) = true -> ph_Live h = true).
Proof using.
  intros [Hp _] Ha. unfold pcb_tied in Hp. destruct (rn_Pcb (cf_Seen c)) as [h|]; [| destruct Hp as [_ Hp]; rewrite Hp in Ha; by apply elem_of_nil in Ha].
  destruct Hp as (Hn & Hs & Hr & Hw & Hst & Hl). rewrite Hr in Ha |- *. apply list_elem_of_singleton in Ha as ->. exists h. repeat split; try done. by apply wired_fields.
Qed.
Lemma if_armed_leads pcb (m : op unit) c (Q : unit -> conf E -> Prop) :
  (pcb ∈ cf_Armed c -> leads m c Q) -> Q tt c -> leads (if_armed pcb m) c Q.
Proof using.
  intros Hm HQ w Hw. pose proof Hw as (_ & Ha & _). unfold if_armed. apply wp_bind, wp_get. rewrite Ha. case_bool_decide; [by apply Hm |].
  apply wp_ret. eauto.
Qed.

(** ** What a callback does *)

Ltac observe_owned Hh := unfold observe_raw, owned; raw_cbn; rewrite Hh, Z.eqb_refl.
Lemma view_up c h : rn_Pcb (cf_Seen c) = Some h -> rt_Pcb (cf_Self c) <> 0 -> rv_Phase (view c) <> Down.
Proof using. intros _ Hn. unfold view, phase_of. raw_cbn. apply Z.eqb_neq in Hn. rewrite Hn. by destruct (rt_Errored (cf_Self c)). Qed.
Lemma ended_drifts v v' : rv_Phase v <> Down -> v' = v <| rv_Phase := PeerClosed |> -> drifts v v'.
Proof using. intros Hv ->. by apply rtc_once, drift_ended. Qed.
Lemma heard_drifts v v' data : rv_Phase v <> Down -> v' = v <| rv_Inbox := rv_Inbox v ++ data |> -> drifts v v'.
Proof using. intros Hv ->. by apply rtc_once, drift_heard. Qed.
Lemma lost_drifts v v' : v' = v <| rv_Phase := Down |> -> drifts v v'.
Proof using. intros ->. apply rtc_once, drift_lost. Qed.

Lemma connected_meanwhile pcb err c : calm c -> leads (deliver codes (CallsConnected pcb err)) c (fun _ c' => meanwhile c c').
Proof using.
  intros Hc. pose proof Hc as [Hp Hq]. apply if_armed_leads; [| by apply meanwhile_refl]. intros Ha.
  destruct (armed_pcb c pcb Hc Ha) as (h & Hh & Hhp & Har & Hn & Hs & Harg & Hw & Hst & Hl). destruct c as [self armed s]. raw_cbn. subst armed pcb.
  apply rleads_bind, rleads_put. destruct (wired_fields h Hw) as [_ Hwl]. unfold LwipRawTcpStream_ConnectedCallback. destruct (err =? lw_ERR_OK codes) eqn:Eerr.
  - eapply rleads_happens; [observe_owned Hh; by rewrite Harg, Hst, Eerr |]. constructor; raw_cbn; try done.
    + split; [| by eapply queue_tied_same]. unfold pcb_tied. raw_cbn. by repeat split.
    + exists []. by rewrite app_nil_r.
    + by left.
  - eapply rleads_happens; [observe_owned Hh; by rewrite Harg, Hst, Eerr |]. constructor; raw_cbn; try done.
    + split; [| by eapply queue_tied_same]. unfold pcb_tied. raw_cbn. rewrite Hh. by repeat split.
    + apply ended_drifts; [apply (view_up _ h); raw_cbn; congruence |].
      unfold view, phase_of. raw_cbn. rewrite Hs. apply Z.eqb_neq in Hn. by rewrite Hn.
    + exists []. by rewrite app_nil_r.
    + by left.
Qed.

Lemma queue_room self : ring_ok self -> LwipRawTcpStream_RxQueueIsFull self = false ->
  (lenZ (rx_list self) <? SOLIDSYSLOG_LWIP_RAW_TCP_RX_QUEUE_SIZE) = true.
Proof using. intros Hr Hf. rewrite rx_list_length by done. unfold LwipRawTcpStream_RxQueueIsFull in Hf. apply Z.leb_gt in Hf. by apply Z.ltb_lt. Qed.
Lemma recv_meanwhile pcb p err c : calm c -> callback_ok (CallsRecv pcb p err) -> leads (deliver codes (CallsRecv pcb p err)) c (fun _ c' => meanwhile c c').
Proof using OK.
  intros Hc Hok. pose proof Hc as [Hp Hq]. apply if_armed_leads; [| by apply meanwhile_refl]. intros Ha.
  destruct (armed_pcb c pcb Hc Ha) as (h & Hh & Hhp & Har & Hn & Hs & Harg & Hw & Hst & Hl). destruct c as [self armed s]. raw_cbn. subst armed pcb.
  rlead_on. raw_cbn. destruct p as [p|]; cbn [LwipRawTcpStream_RecvCallback]; [destruct (LwipRawTcpStream_RxQueueIsFull self) eqn:Ef|]; cbn [fst snd].
  - eapply rleads_happens; [observe_owned Hh; rewrite Harg; by rewrite (proj2 (Z.eqb_neq _ _) (ok_codes codes OK)) |].
    by apply meanwhile_refl.
  - pose proof Hq as [Hr Hlist Hoff Hread Hch]. destruct (Enqueue_ring p self Hr Ef) as [Hr' Hlist'].
    pose proof (queue_room self Hr Ef) as Hroom. rewrite Hlist in Hroom.
    eapply rleads_happens; [observe_owned Hh; rewrite Harg, Z.eqb_refl; by rewrite Hroom |].
    assert (Hcalm : calm (mkConf (LwipRawTcpStream_EnqueueRxPbuf p self) [ph_Pcb h] (s <| rn_Queue := rn_Queue s ++ [p] |>))).
    { split; [unfold pcb_tied; raw_cbn; rewrite Hh; by repeat split |]. constructor; raw_cbn; [done | by rewrite Hlist', Hlist | done | |].
      - destruct Hread as [Hge Hlt]. split; [done |]. destruct (rn_Queue s); [| done]. cbn. rewrite Hlt. destruct Hok. lia.
      - apply Forall_app. split; [done |]. by apply Forall_singleton. }
    constructor; raw_cbn; try done; [| by exists [p] | by left].
    apply (heard_drifts _ _ (pb_Payload p)); [apply (view_up _ h); raw_cbn; congruence |].
    unfold view. raw_cbn. by rewrite inbox_snoc by (by apply (tied_within self)).
  - eapply rleads_happens; [observe_owned Hh; by rewrite Harg |]. constructor; raw_cbn; try done.
    + split; [| by eapply queue_tied_same]. unfold pcb_tied. raw_cbn. rewrite Hh. by repeat split.
    + apply ended_drifts; [apply (view_up _ h); raw_cbn; congruence |].
      unfold view, phase_of. raw_cbn. rewrite Hs. apply Z.eqb_neq in Hn. by rewrite Hn.
    + exists []. by rewrite app_nil_r.
    + by left.
Qed.
Lemma filter_own (pcb : Z) : filter (fun armed => armed <> pcb) [pcb] = [].
Proof using. rewrite filter_cons_False by (by intros []). done. Qed.
Lemma err_meanwhile pcb err c : calm c -> leads (deliver codes (CallsErr pcb err)) c (fun _ c' => meanwhile c c').
Proof using.
  intros Hc. pose proof Hc as [Hp Hq]. apply if_armed_leads; [| by apply meanwhile_refl]. intros Ha.
  destruct (armed_pcb c pcb Hc Ha) as (h & Hh & Hhp & Har & Hn & Hs & Harg & Hw & Hst & Hl). destruct c as [self armed s]. raw_cbn. subst armed pcb.
  apply rleads_bind, rleads_put, rleads_bind, (rleads_armed _ (filter (fun armed => armed <> ph_Pcb h))). raw_cbn. rewrite filter_own.
  eapply rleads_happens; [observe_owned Hh; by rewrite Harg |]. constructor; raw_cbn; try done.
  - split; [by split | by eapply queue_tied_same].
  - by apply lost_drifts.
  - exists []. by rewrite app_nil_r.
  - by right.
Qed.
Lemma sent_meanwhile pcb len c : calm c -> leads (deliver codes (CallsSent pcb len)) c (fun _ c' => meanwhile c c').
Proof using.
  intros Hc. apply if_armed_leads; [| by apply meanwhile_refl]. intros Ha.
  destruct (armed_pcb c pcb Hc Ha) as (h & Hh & Hhp & Har & Hn & Hs & Harg & Hw & Hst & Hl). destruct c as [self armed s]. raw_cbn. subst armed pcb.
  apply rleads_bind, rleads_put. eapply rleads_happens; [observe_owned Hh; by rewrite Harg |]. by apply meanwhile_refl.
Qed.
Lemma delivers_meanwhile m c : (forall e, Forall callback_ok (fst (m e))) -> calm c -> leads (delivers codes m) c (fun _ c' => meanwhile c c').
Proof using OK.
  intros Hm Hc. apply rleads_bind, (rleads_env codes _ (Forall callback_ok)); [done |]. intros callbacks Hall.
  revert c Hc. induction Hall as [| callback callbacks Hcb Hall IH]; intros c Hc; [by apply rleads_ret, meanwhile_refl |].
  cbn [deliver_all]. apply rleads_bind.
  assert (Hone : leads (deliver codes callback) c (fun _ c' => meanwhile c c')).
  { destruct callback; [by apply connected_meanwhile | by apply recv_meanwhile | by apply sent_meanwhile | by apply err_meanwhile]. }
  eapply rleads_mono; [exact Hone |]. intros [] c1 H1. eapply rleads_mono; [apply IH, (mw_calm _ _ H1) |]. intros [] c2 H2. by eapply meanwhile_trans.
Qed.
Lemma look_leads {A} (f : raw_stream E -> A) c (Q : A -> conf E -> Prop) : calm c ->
  (forall c', meanwhile c c' -> Q (f (cf_Self c')) c') -> leads (raw_look codes f) c Q.
Proof using OK.
  intros Hc HQ. apply rleads_bind. eapply rleads_mono; [apply delivers_meanwhile; [apply (ok_runs codes OK) | done] |]. intros ? c' H'. by apply rleads_get, HQ.
Qed.
(** A hop: what goes on before it, what it does, what goes on after. *)
Lemma hop_leads marshal {A} (m : op A) c (Q : A -> conf E -> Prop) : raw_marshal_ok codes marshal -> calm c ->
  (forall c1, meanwhile c c1 -> leads m c1 (fun a c2 => calm c2 /\ forall c3, meanwhile c2 c3 -> Q a c3)) -> leads (raw_hop marshal m) c Q.
Proof using OK.
  intros (enter & leave & Hok & Hm) Hc Hrun w Hw. unfold raw_hop, SolidSyslogLwipRaw_Marshal, wp. rewrite Hm. revert w Hw.
  change (leads (delivers codes enter ;;; let! a := m in delivers codes leave ;;; st_ret a) c Q).
  apply rleads_bind. eapply rleads_mono; [apply delivers_meanwhile; [apply Hok | done] |]. intros [] c1 H1.
  apply rleads_bind. eapply rleads_mono; [by apply Hrun |]. intros a c2 [Hc2 HQ].
  apply rleads_bind. eapply rleads_mono; [apply delivers_meanwhile; [apply Hok | done] |]. intros [] c3 H3. by apply rleads_ret, HQ.
Qed.

(** ** What runs in a hop *)

(** All but the queue. *)
Definition outer self := (rt_Base self, rt_GetConnectTimeoutMs self, rt_ConnectTimeoutContext self, rt_Sleep self, rt_OpenHealth self, (rt_Pcb self, rt_Connected self, rt_Errored self)).
Definition queue_is (queue : list pbuf) c : Prop := ring_ok (cf_Self c) /\ rx_list (cf_Self c) = queue /\ rn_Queue (cf_Seen c) = queue.
Lemma drop_head_leads c p queue (Q : unit -> conf E -> Prop) : queue_is (p :: queue) c ->
  (forall self', outer self' = outer (cf_Self c) -> rt_RxHeadOffset self' = rt_RxHeadOffset (cf_Self c) ->
    let c' := mkConf self' (cf_Armed c) ((cf_Seen c) <| rn_Queue := queue |> <| rn_Offset := 0 |>) in queue_is queue c' -> Q tt c') ->
  leads drop_head c Q.
Proof using.
  intros (Hr & Hl & Hs) HQ. assert (Hq : LwipRawTcpStream_HasQueuedRx (cf_Self c) = true).
  { unfold LwipRawTcpStream_HasQueuedRx. rewrite <- rx_list_length, Hl by done. len_simpl. pose proof (lenZ_nonneg queue). apply Z.ltb_lt. lia. }
  destruct (past_head_ring _ Hr Hq) as (Hr' & Hl' & _). rewrite Hl in Hl'. injection Hl' as Hp Hl'.
  unfold drop_head. rlead_on. apply rleads_call. intros _. eexists. split; [unfold observe_raw; by rewrite Hs, <- Hp, bool_decide_true |].
  apply rleads_put. by apply (HQ (past_head (cf_Self c))).
Qed.
Lemma HasQueuedRx_list self : ring_ok self -> LwipRawTcpStream_HasQueuedRx self = match rx_list self with [] => false | _ => true end.
Proof using.
  intros Hr. unfold LwipRawTcpStream_HasQueuedRx. rewrite <- rx_list_length by done. destruct (rx_list self) as [|p l]; [done |].
  len_simpl. pose proof (lenZ_nonneg l). apply Z.ltb_lt. lia.
Qed.
Lemma Drain_leads c (Q : unit -> conf E -> Prop) : queue_tied (cf_Self c) (cf_Seen c) ->
  (forall self', outer self' = outer (cf_Self c) ->
    let c' := mkConf self' (cf_Armed c) ((cf_Seen c) <| rn_Queue := [] |> <| rn_Offset := 0 |>) in queue_tied self' (cf_Seen c') -> Q tt c') ->
  leads LwipRawTcpStream_DrainAllQueuedPbufs c Q.
Proof using.
  intros [Hr Hl Ho [_ Hread] _] HQ. unfold LwipRawTcpStream_DrainAllQueuedPbufs. rlead_on.
  apply (rleads_loop codes (fun _ c' => exists queue, queue_is queue c' /\ outer (cf_Self c') = outer (cf_Self c) /\ cf_Armed c' = cf_Armed c /\
           (queue = [] -> rn_Offset (cf_Seen c') = 0) /\ (cf_Seen c') <| rn_Queue := [] |> <| rn_Offset := 0 |> = (cf_Seen c) <| rn_Queue := [] |> <| rn_Offset := 0 |>)
         (fun _ c' => lenZ (rn_Queue (cf_Seen c')))).
  - exists (rn_Queue (cf_Seen c)). do 3 (split; [done |]). split; [| done]. intros Hq. by rewrite Hq in Hread.
  - rewrite <- Hl, rx_list_length by done. pose proof (ring_count _ Hr). lia.
  - intros [] c1 (queue & Hq & Hout & Harm & Hoff & Hseen). split; [apply lenZ_nonneg |]. pose proof Hq as (Hr1 & Hl1 & Hs1).
    apply rleads_bind, rleads_get. rewrite HasQueuedRx_list, Hl1 by done. destruct queue as [|p queue].
    + rlead_on. cbn [fst snd]. rlead_on. assert (Es : cf_Seen c1 = (cf_Seen c) <| rn_Queue := [] |> <| rn_Offset := 0 |>).
      { rewrite <- Hseen. specialize (Hoff eq_refl). destruct c1 as [self1 a1 [p1 q1 o1 w1 r1]]. raw_cbn. by subst. }
      destruct c1 as [self1 armed1 s1]. raw_cbn. subst s1 armed1. apply HQ; [done |].
      destruct Hr1. constructor; raw_cbn; try done; by constructor.
    + apply rleads_bind, (drop_head_leads c1 p queue); [done |]. intros self' Hout' _ c' Hq'. apply rleads_ret. cbn [fst snd].
      split; [| cbn [cf_Seen c']; raw_cbn; rewrite Hs1; len_simpl; lia].
      exists queue. split; [done |]. split; [by rewrite <- Hout |]. split; [done |]. split; [done |]. by rewrite <- Hseen.
Qed.

Lemma set_pcb_leads pcb setting h c (Q : unit -> conf E -> Prop) : rn_Pcb (cf_Seen c) = Some h -> ph_Pcb h = pcb ->
  Q tt (mkConf (cf_Self c) (match setting with Arg true => pcb :: cf_Armed c | Arg false => filter (fun armed => armed <> pcb) (cf_Armed c) | _ => cf_Armed c end)
    (holding (cf_Seen c) (with_setting setting h))) -> leads (set_pcb pcb setting) c Q.
Proof using.
  intros Hh Hp HQ. subst pcb. apply rleads_bind, rleads_call. intros _. eexists. split; [observe_owned Hh; done |].
  destruct setting as [| | | | | [] | | |]; try by apply rleads_ret.
  - by apply (rleads_armed codes (cons (ph_Pcb h))).
  - by apply (rleads_armed codes (filter (fun armed => armed <> ph_Pcb h))).
Qed.
Lemma Detach_leads pcb h c (Q : unit -> conf E -> Prop) : rn_Pcb (cf_Seen c) = Some h -> ph_Pcb h = pcb -> cf_Armed c = [pcb] ->
  (forall h', is_detached h' = true -> ph_Pcb h' = pcb -> Q tt (mkConf (cf_Self c) [] (holding (cf_Seen c) h'))) ->
  leads (LwipRawTcpStream_DetachPcb pcb) c Q.
Proof using.
  intros Hh Hp Ha HQ. unfold LwipRawTcpStream_DetachPcb. apply rleads_bind, (set_pcb_leads pcb _ h); [done | done |]. rewrite Ha, filter_own.
  apply rleads_bind, (set_pcb_leads pcb _ (with_setting (Arg false) h)); [done | done |].
  apply rleads_bind, (set_pcb_leads pcb _ (with_setting (Recv false) (with_setting (Arg false) h))); [done | done |].
  apply (set_pcb_leads pcb _ (with_setting (Sent false) (with_setting (Recv false) (with_setting (Arg false) h)))); [done | done |].
  raw_cbn. apply HQ; by destruct h.
Qed.

(** *** Closing *)

Definition own_same c c' : Prop := rt_Base (cf_Self c') = rt_Base (cf_Self c) /\ rn_Reports (cf_Seen c') = rn_Reports (cf_Seen c).
Lemma outer_fields self self' : outer self' = outer self ->
  rt_Base self' = rt_Base self /\ rt_OpenHealth self' = rt_OpenHealth self /\ rt_Pcb self' = rt_Pcb self /\ rt_Connected self' = rt_Connected self /\ rt_Errored self' = rt_Errored self.
Proof using. unfold outer. intros [= ? ? ? ? ? ? ? ?]. done. Qed.
(** Nothing is held after it. *)
Definition all_down c c' : Prop :=
  calm c' /\ rt_Pcb (cf_Self c') = 0 /\ rn_Pcb (cf_Seen c') = None /\ rn_Queue (cf_Seen c') = [] /\ own_same c c' /\
  view c' = mkRawView Down [] (rv_Latch (view c)) (rv_Wires (view c)).
Lemma ClosePcb_leads c : calm c -> leads (LwipRawTcpStream_ClosePcb codes) c (fun _ c' => all_down c c').
Proof using.
  intros [Hp Hq]. unfold LwipRawTcpStream_ClosePcb. apply rleads_bind, Drain_leads; [done |]. intros self1 Hout c1 Hq1.
  destruct (outer_fields _ _ Hout) as (Eb & Eh & Ep & Ec & Ee). apply rleads_bind, rleads_get. unfold LwipRawTcpStream_IsOpen. subst c1. raw_cbn.
  unfold pcb_tied in Hp. destruct (rn_Pcb (cf_Seen c)) as [h|] eqn:Eh0.
  - destruct Hp as (Hn & Hs & Ha & _). rewrite Ep, Hs, (proj2 (Z.eqb_neq _ _) Hn). cbn [negb]. rlead_on. raw_cbn. rewrite Ep, Hs.
    apply (Detach_leads (ph_Pcb h) h); [done | done | done |]. intros h' Hd Hh'. apply rleads_bind, rleads_call. intros err. raw_cbn.
    eexists. split; [unfold observe_raw, owned; raw_cbn; rewrite Hh', Z.eqb_refl, Hd; done |].
    assert (Hfin : all_down c (mkConf (self1 <| rt_Pcb := 0 |>) [] (released ((cf_Seen c) <| rn_Queue := [] |> <| rn_Offset := 0 |>)))).
    { unfold all_down, own_same, view, phase_of, calm. raw_cbn. split; [split; [done | by eapply queue_tied_same] |]. by rewrite Eb, Eh. }
    destruct (err =? lw_ERR_OK codes); cbn [negb]; [by apply rleads_ret |].
    apply rleads_call. intros _. eexists. split; [unfold observe_raw, owned; raw_cbn; rewrite Hh', Z.eqb_refl, Hd; done |]. exact Hfin.
  - destruct Hp as (Hs & Ha). rewrite Ep, Hs. cbn [Z.eqb negb]. apply rleads_ret. unfold all_down, own_same, view, phase_of, calm, pcb_tied. raw_cbn.
    rewrite Eh0, Eb, Eh, Ep, Hs. by split_and!.
Qed.
Lemma down_meanwhile c c' : calm c -> rt_Pcb (cf_Self c) = 0 -> meanwhile c c' ->
  rt_Pcb (cf_Self c') = 0 /\ rn_Pcb (cf_Seen c') = None.
Proof using.
  intros _ Hd [[Hp' _] _ _ _ _ _ Hp _ _]. assert (Hz : rt_Pcb (cf_Self c') = 0) by (destruct Hp as [-> | [-> _]]; done). split; [done |].
  unfold pcb_tied in Hp'. destruct (rn_Pcb (cf_Seen c')) as [h|]; [| done]. destruct Hp' as (Hn & Hs & _). congruence.
Qed.

(** *** What a call may change, step by step *)

Lemma drifts_down v v' : rv_Phase v = Down -> drifts v v' -> v' = v.
Proof using.
  intros Hv Hd. induction Hd as [| v v1 v2 H1 Hd IH]; [done |]. assert (v1 = v) as ->; [| by apply IH].
  destruct H1; [done | done |]. destruct v. raw_cbn. by subst.
Qed.
Lemma drift_keeps v v' : drifts v v' -> rv_Latch v' = rv_Latch v /\ rv_Wires v' = rv_Wires v.
Proof using. induction 1 as [| v v1 v2 H1 Hd [IH1 IH2]]; [done |]. rewrite IH1, IH2. by destruct H1. Qed.
(** What the caller does to the wires and the latch commutes with what goes on. *)
Lemma drifts_beside latch wires v v' : drifts v v' -> drifts (v <| rv_Latch := latch |> <| rv_Wires := wires |>) (v' <| rv_Latch := latch |> <| rv_Wires := wires |>).
Proof using.
  induction 1 as [| v v1 v2 H1 Hd IH]; [apply rtc_refl |]. eapply rtc_l; [| exact IH]. destruct H1 as [[ph ib la wi] data Hv | [ph ib la wi] Hv | [ph ib la wi]].
  - exact (drift_heard (mkRawView ph ib latch wires) data Hv).
  - exact (drift_ended (mkRawView ph ib latch wires) Hv).
  - exact (drift_lost (mkRawView ph ib latch wires)).
Qed.
Lemma meanwhile_same c c' : meanwhile c c' -> own_same c c'.
Proof using. intros [_ _ (Hb & _) Hr _ _ _ _ _]. by split. Qed.
Lemma own_same_trans c1 c2 c3 : own_same c1 c2 -> own_same c2 c3 -> own_same c1 c3.
Proof using. unfold own_same. intros [-> ->] [-> ->]. done. Qed.
Lemma own_same_meanwhile c1 c2 c3 : own_same c1 c2 -> meanwhile c2 c3 -> own_same c1 c3.
Proof using. intros H12 H23. eapply own_same_trans; [done | by apply meanwhile_same]. Qed.
Lemma view_phase c : rv_Phase (view c) = phase_of (cf_Self c).
Proof using. done. Qed.
Lemma phase_down self : phase_of self = Down <-> rt_Pcb self = 0.
Proof using. unfold phase_of. destruct (Z.eqb_spec (rt_Pcb self) 0); [done |]. by destruct (rt_Errored self). Qed.
Lemma phase_up self : phase_of self = Up <-> rt_Pcb self <> 0 /\ rt_Errored self = false.
Proof using. unfold phase_of. destruct (Z.eqb_spec (rt_Pcb self) 0); [by split; [| intros []] |]. destruct (rt_Errored self); naive_solver. Qed.
Lemma IsOpen_phase self : LwipRawTcpStream_IsOpen self = negb (bool_decide (phase_of self = Down)).
Proof using. unfold LwipRawTcpStream_IsOpen. f_equal. destruct (Z.eqb_spec (rt_Pcb self) 0) as [E0 | E0]; [by rewrite bool_decide_true by (by apply phase_down) | by rewrite bool_decide_false by (by rewrite phase_down)]. Qed.

(** A result, and the conclusion of an operation over what goes on around its step. *)
Definition concludes {A} (R : raw_view -> A -> raw_view -> Prop) c (a : A) c' : Prop :=
  calm c' /\ own_same c c' /\ amid (fun v v' => R v a v') (view c) (view c').
Lemma concludes_around {A} (R : raw_view -> A -> raw_view -> Prop) c c1 a c2 c3 :
  meanwhile c c1 -> own_same c1 c2 -> R (view c1) a (view c2) -> meanwhile c2 c3 -> concludes R c a c3.
Proof using.
  intros H1 Ho HR H3. split; [apply (mw_calm _ _ H3) |]. split; [| exists (view c1), (view c2); repeat split; [apply H1 | done | apply H3]].
  eapply own_same_meanwhile; [| done]. eapply own_same_trans; [by apply meanwhile_same | done].
Qed.
Lemma concludes_quiet {A} (R : raw_view -> A -> raw_view -> Prop) c a c1 : meanwhile c c1 -> R (view c1) a (view c1) -> concludes R c a c1.
Proof using. intros H1 HR. eapply (concludes_around R c c1 a c1 c1); [done | done | done |]. by apply meanwhile_refl, (mw_calm _ _ H1). Qed.

(** *** Close *)

Section hops.
Context (marshal : SolidSyslogLwipRawMarshalFunction (raw_world E)) (MR : raw_marshal_ok codes marshal).

(** Between the calls, a control block that is held is a connection. *)
Definition settled c : Prop := calm c /\ (rt_Pcb (cf_Self c) <> 0 -> rt_Connected (cf_Self c) = true).
Lemma settled_meanwhile c c' : settled c -> meanwhile c c' -> settled c'.
Proof using.
  intros [_ Hs] H. split; [apply H |]. intros Hn. apply (mw_connected _ _ H), Hs. destruct (mw_pcb _ _ H) as [<- | [? _]]; [done | congruence].
Qed.
Lemma settled_down c : calm c -> rt_Pcb (cf_Self c) = 0 -> settled c.
Proof using. intros Hc Hz. by split; [| intros []]. Qed.
Definition settles {A} (R : raw_view -> A -> raw_view -> Prop) c (a : A) c' : Prop := settled c' /\ concludes R c a c'.

Definition raw_closes (v : raw_view) (_ : unit) (v' : raw_view) : Prop := v' = mkRawView Down [] (rv_Latch v) (rv_Wires v).
Lemma hop_close c (R : raw_view -> unit -> raw_view -> Prop) c0 : settled c -> meanwhile c0 c -> (forall v, R v tt (mkRawView Down [] (rv_Latch v) (rv_Wires v))) ->
  leads (raw_hop marshal (LwipRawTcpStream_ClosePcb codes)) c (fun a c' => settles R c0 a c').
Proof using OK MR.
  intros [Hc _] H0 HR. apply hop_leads; [done | done |]. intros c1 H1. eapply rleads_mono; [apply ClosePcb_leads, (mw_calm _ _ H1) |].
  intros [] c2 (Hc2 & Hz & Hn & Hq & Ho & Hv). split; [done |]. intros c3 H3. split.
  - apply settled_down; [apply H3 |]. by eapply (down_meanwhile c2 c3).
  - eapply (concludes_around R c0 c1 tt c2 c3); [by eapply meanwhile_trans | done | by rewrite Hv | done].
Qed.
Lemma empty_inbox c : calm c -> rn_Queue (cf_Seen c) = [] -> rv_Inbox (view c) = [].
Proof using. intros [_ [_ _ _ [_ Hr] _]] Hq. unfold view, inbox. raw_cbn. rewrite Hq in Hr |- *. by rewrite Hr. Qed.
Lemma queued_seen c : calm c -> LwipRawTcpStream_HasQueuedRx (cf_Self c) = match rn_Queue (cf_Seen c) with [] => false | _ => true end.
Proof using. intros [_ [Hr Hl _ _ _]]. by rewrite HasQueuedRx_list, Hl. Qed.
Lemma raw_close_leads c : settled c -> leads (LwipRawTcpStream_Close codes marshal) c (fun a c' => settles raw_closes c a c').
Proof using OK MR.
  intros Hs. pose proof Hs as [Hc _]. apply rleads_bind, rleads_bind, look_leads; [done |]. intros c1 H1.
  pose proof (settled_meanwhile _ _ Hs H1) as Hs1. destruct (LwipRawTcpStream_IsOpen (cf_Self c1)) eqn:Eo.
  { apply rleads_ret. by apply hop_close. }
  apply look_leads; [apply Hs1 |]. intros c2 H2. pose proof (settled_meanwhile _ _ Hs1 H2) as Hs2.
  destruct (LwipRawTcpStream_HasQueuedRx (cf_Self c2)) eqn:Eq; [apply hop_close; [done | by eapply meanwhile_trans | done] |].
  apply rleads_ret. split; [done |]. apply concludes_quiet; [by eapply meanwhile_trans |]. unfold raw_closes.
  apply negb_false_iff, Z.eqb_eq in Eo. destruct (down_meanwhile c1 c2 (mw_calm _ _ H1) Eo H2) as [Hz _].
  pose proof (mw_calm _ _ H2) as Hc2. rewrite queued_seen in Eq by done. pose proof (empty_inbox c2 Hc2) as Hi.
  destruct (rn_Queue (cf_Seen c2)) eqn:Eqq; [| done]. specialize (Hi eq_refl). apply phase_down in Hz. rewrite <- view_phase in Hz.
  destruct (view c2). raw_cbn. congruence.
Qed.

(** *** Send *)

Lemma IsWritable_leads c : calm c -> leads (LwipRawTcpStream_IsWritable codes) c (fun b c' => meanwhile c c' /\ (b = true <-> rv_Phase (view c') = Up)).
Proof using OK.
  intros Hc. apply rleads_bind, look_leads; [done |]. intros c1 H1. unfold LwipRawTcpStream_IsOpen. destruct (Z.eqb_spec (rt_Pcb (cf_Self c1)) 0) as [Hz | Hn]; cbn [negb].
  - apply rleads_ret. split; [done |]. rewrite view_phase, phase_up. naive_solver.
  - apply rleads_bind, look_leads; [apply H1 |]. intros c2 H2. apply rleads_ret. split; [by eapply meanwhile_trans |].
    rewrite view_phase, phase_up. destruct (rt_Errored (cf_Self c2)) eqn:Ee; cbn; [naive_solver |]. split; [| done]. intros _. split; [| done].
    destruct (mw_pcb _ _ H2) as [-> | [_ ?]]; [done | congruence].
Qed.
Lemma view_wires c wires : view (c <| cf_Seen := (cf_Seen c) <| rn_Wires := wires |> |>) = (view c) <| rv_Wires := wires |>.
Proof using. done. Qed.
Lemma calm_wires c wires : calm c -> calm (c <| cf_Seen := (cf_Seen c) <| rn_Wires := wires |> |>).
Proof using. intros [Hp Hq]. split; [done | by eapply queue_tied_same]. Qed.
(** The write in its hop: whole, or everything closed. *)
Definition wrote_over (data : bytes) c (b : bool) c' : Prop :=
  if b then rt_Pcb (cf_Self c) <> 0 /\ c' = c <| cf_Seen := (cf_Seen c) <| rn_Wires := extend_last (rn_Wires (cf_Seen c)) data |> |>
  else calm c' /\ own_same c c' /\ rt_Pcb (cf_Self c') = 0 /\
    exists wires, view c' = mkRawView Down [] (rv_Latch (view c)) wires /\ (wires = rv_Wires (view c) \/ wires = extend_last (rv_Wires (view c)) data).
Lemma closed_over data c c1 wires : calm c1 -> own_same c c1 -> view c1 = (view c) <| rv_Wires := wires |> ->
  wires = rv_Wires (view c) \/ wires = extend_last (rv_Wires (view c)) data ->
  leads (LwipRawTcpStream_ClosePcb codes) c1 (fun _ c' => leads (st_ret false) c' (fun b c' => wrote_over data c b c')).
Proof using.
  intros Hc1 Ho Hv Hw. eapply rleads_mono; [by apply ClosePcb_leads |]. intros [] c2 (Hc2 & Hz & _ & _ & Ho2 & Hv2). apply rleads_ret.
  split; [done |]. split; [by eapply own_same_trans |]. split; [done |]. exists wires. by rewrite Hv2, Hv.
Qed.
Lemma SendOrClose_leads buffer size c : settled c -> 0 <= size < 2 ^ 16 ->
  leads (LwipRawTcpStream_SendOrCloseOnFailure codes buffer size) c (fun b c' => wrote_over (takeZ size buffer) c b c').
Proof using OK.
  intros [Hc Hconn] Hsz. pose proof Hc as [Hp _]. unfold LwipRawTcpStream_SendOrCloseOnFailure.
  assert (Hu : u16 size = size) by (unfold u16; apply Z.mod_small; lia). rewrite Hu. apply rleads_bind, rleads_get.
  unfold pcb_tied in Hp. destruct (rn_Pcb (cf_Seen c)) as [h|] eqn:Eh.
  - destruct Hp as (Hn & Hs & _ & _ & _ & Hl). specialize (Hl (Hconn ltac:(congruence))). rewrite Hs.
    apply rleads_bind, rleads_call. intros err. eexists. split; [unfold observe_raw; by rewrite Eh, Z.eqb_refl, Hl |].
    destruct (err =? lw_ERR_OK codes) eqn:Ee.
    + apply rleads_bind, rleads_bind, rleads_get. raw_cbn. rewrite Hs. apply rleads_bind, rleads_call. intros out.
      eexists. split; [unfold observe_raw, owned; raw_cbn; by rewrite Eh, Z.eqb_refl, Hl |]. apply rleads_ret.
      destruct (LwipRawTcpStream_OutputResultIsAcceptable codes out); cbn [negb]; apply rleads_bind.
      * apply rleads_ret, rleads_ret. split; [congruence | done].
      * apply (closed_over _ _ _ (extend_last (rn_Wires (cf_Seen c)) (takeZ size buffer))); [exact (calm_wires c _ Hc) | done | done | by right].
    + apply rleads_bind, rleads_ret, rleads_bind. cbn [negb]. apply (closed_over _ _ _ (rn_Wires (cf_Seen c))); [by destruct c | done | done | by left].
  - destruct Hp as (Hs & _). rewrite Hs. apply rleads_bind, (rleads_call_such codes _ (fun err => err <> lw_ERR_OK codes)); [intros e; apply (ok_write_null codes OK) |].
    intros err Herr. apply Z.eqb_neq in Herr. eexists. split; [unfold observe_raw; by rewrite Eh, Herr |].
    rewrite Herr. apply rleads_bind, rleads_ret, rleads_bind. cbn [negb].
    apply (closed_over _ _ _ (rn_Wires (cf_Seen c))); [by destruct c | done | done | by left].
Qed.
Lemma Send_leads buffer size c : settled c -> 0 <= size < 2 ^ 16 ->
  leads (LwipRawTcpStream_Send codes marshal buffer size) c (fun b c' => settles (raw_sends (takeZ size buffer)) c b c').
Proof using OK MR.
  intros Hs Hsz. pose proof Hs as [Hc _]. apply rleads_bind. eapply rleads_mono; [by apply IsWritable_leads |]. intros b c1 [H1 Hb].
  pose proof (settled_meanwhile _ _ Hs H1) as Hs1. destruct b.
  2: { apply rleads_ret. split; [done |]. apply concludes_quiet; [done |]. apply raw_sends_refused. intros Hup. by apply Hb in Hup. }
  apply hop_leads; [done | apply H1 |]. intros c2 H2. pose proof (settled_meanwhile _ _ Hs1 H2) as Hs2.
  eapply rleads_mono; [by apply SendOrClose_leads |]. intros [] c3 H3; unfold wrote_over in H3.
  - destruct H3 as [Hn ->]. split; [apply calm_wires, Hs2 |]. intros c4 H4.
    assert (Hs3 : settled (c2 <| cf_Seen := (cf_Seen c2) <| rn_Wires := extend_last (rn_Wires (cf_Seen c2)) (takeZ size buffer) |> |>)) by (split; [apply calm_wires, Hs2 | apply Hs2]).
    split; [by eapply settled_meanwhile |]. split; [apply H4 |]. split.
    { eapply own_same_meanwhile; [| done]. eapply own_same_trans; [apply meanwhile_same, H1 |]. exact (meanwhile_same _ _ H2). }
    exists (view c1), ((view c1) <| rv_Wires := extend_last (rv_Wires (view c1)) (takeZ size buffer) |>). split; [apply H1 |].
    split; [apply raw_sends_whole; by apply Hb |]. etrans; [| apply (mw_drifts _ _ H4)].
    destruct (drift_keeps _ _ (mw_drifts _ _ H2)) as [El Ew].
    pose proof (drifts_beside (rv_Latch (view c1)) (extend_last (rv_Wires (view c1)) (takeZ size buffer)) _ _ (mw_drifts _ _ H2)) as Hd.
    rewrite view_wires. change (rn_Wires (cf_Seen c2)) with (rv_Wires (view c2)). rewrite Ew. revert El Hd.
    generalize (extend_last (rv_Wires (view c1)) (takeZ size buffer)). intros wires El Hd.
    destruct (view c1), (view c2). raw_cbn. by subst.
  - destruct H3 as (Hc3 & Ho & Hz & wires & Hv & Hw). split; [done |]. intros c4 H4. split.
    + apply settled_down; [apply H4 |]. by eapply (down_meanwhile c3 c4).
    + eapply (concludes_around _ c c2 false c3 c4); [by eapply meanwhile_trans | done | | done]. rewrite Hv. by apply raw_sends_closed.
Qed.

(** *** Read *)

(** The first chain from the offset on, as far as the room goes. *)
Definition drained_over (buffer : bytes) (size : Z) c (r : Z * bytes) c' : Prop :=
  exists data rest, rv_Inbox (view c) = data ++ rest /\ lenZ data <= size /\ lenZ data < 2 ^ 16 /\ (data = [] -> size = 0) /\ r = (lenZ data, spliceZ buffer 0 data) /\
    calm c' /\ own_same c c' /\ rt_Pcb (cf_Self c') = rt_Pcb (cf_Self c) /\ rt_Connected (cf_Self c') = rt_Connected (cf_Self c) /\
    view c' = (view c) <| rv_Inbox := rest |>.
Lemma inbox_head p queue offset : 0 <= offset <= lenZ (pb_Payload p) -> inbox (p :: queue) offset = dropZ offset (pb_Payload p) ++ concat (map pb_Payload queue).
Proof using. intros Ho. unfold inbox. cbn [map concat]. apply dropZ_app_le. lia. Qed.
Lemma outer_tied self self' armed s s' : pcb_tied self armed s -> outer self' = outer self -> rn_Pcb s' = rn_Pcb s -> pcb_tied self' armed s'.
Proof using. intros Hp Ho Hs. destruct (outer_fields _ _ Ho) as (_ & _ & Ep & Ec & _). unfold pcb_tied in *. by rewrite Hs, Ep, Ec. Qed.
Lemma outer_phase self self' : outer self' = outer self -> phase_of self' = phase_of self.
Proof using. intros Ho. destruct (outer_fields _ _ Ho) as (_ & _ & Ep & _ & Ee). unfold phase_of. by rewrite Ep, Ee. Qed.
Lemma DrainHead_leads buffer size c p queue : calm c -> rn_Queue (cf_Seen c) = p :: queue -> 0 <= size <= lenZ buffer ->
  leads (LwipRawTcpStream_DrainHeadBytes buffer size) c (fun r c' => drained_over buffer size c r c').
Proof using OK.
  intros [Hp Hq] Hqueue Hsz. pose proof Hq as [Hr Hl Ho [Hge Hlt] Hch]. rewrite Hqueue in Hlt, Hch, Hl. apply Forall_cons_1 in Hch as [[Htot Hpl] Hch].
  assert (Hqr : LwipRawTcpStream_HasQueuedRx (cf_Self c) = true) by (by rewrite HasQueuedRx_list, Hl).
  destruct (past_head_ring _ Hr Hqr) as (Hr' & Hl' & _). rewrite Hl in Hl'. injection Hl' as Hhead Hl'.
  unfold LwipRawTcpStream_DrainHeadBytes. apply rleads_bind, rleads_get. rewrite <- Hhead, Ho.
  set (offset := rn_Offset (cf_Seen c)) in *. rewrite size_sub_small by (unfold SIZE_MAX; lia). rewrite Htot in *.
  set (n := if size <? lenZ (pb_Payload p) - offset then size else lenZ (pb_Payload p) - offset).
  assert (Hn : 0 <= n <= size /\ n <= lenZ (pb_Payload p) - offset /\ (n = 0 -> size = 0) /\ n = Z.min n (lenZ (pb_Payload p) - offset)).
  { unfold n. destruct (Z.ltb_spec size (lenZ (pb_Payload p) - offset)); lia. }
  destruct Hn as (Hn & Hn' & Hn0 & Hmin). unfold u16. rewrite !Z.mod_small, (ok_copy codes OK p buffer n offset), Htot, <- Hmin by (done || split; lia || lia).
  set (data := spanZ (pb_Payload p) offset n). assert (Hd : lenZ data = n) by (apply lenZ_spanZ; lia).
  assert (Htake : takeZ n (spliceZ buffer 0 data) = data).
  { rewrite spliceZ_0, takeZ_app_le by lia. apply takeZ_ge. lia. }
  rewrite Htake. apply rleads_bind. eapply rleads_happens; [unfold observe_raw; rewrite Hqueue, Hd, bool_decide_true by done; done |].
  apply rleads_bind, rleads_put. raw_cbn. rewrite size_add_small by (unfold SIZE_MAX; lia). fold offset.
  assert (Hin : rv_Inbox (view c) = data ++ (dropZ (offset + n) (pb_Payload p) ++ concat (map pb_Payload queue))).
  { unfold view. raw_cbn. rewrite Hqueue, inbox_head, app_assoc by lia. f_equal. unfold data, spanZ. rewrite <- (dropZ_dropZ n offset) by lia. by rewrite takeZ_dropZ. }
  apply rleads_bind. destruct (Z.leb_spec (lenZ (pb_Payload p)) (offset + n)) as [Hend | Hmore].
  - apply rleads_bind, (drop_head_leads _ p queue); [split; [by destruct Hr; constructor | by split] |]. intros self' Hout Hoff c' (Hr2 & Hl2 & Hs2).
    apply rleads_put, rleads_ret. subst c'. raw_cbn. rewrite (dropZ_ge (offset + n)), app_nil_l in Hin by lia.
    exists data, (concat (map pb_Payload queue)). rewrite Hd. destruct (outer_fields _ _ Hout) as (Eb & Eh & Ep & Ec & Ee). raw_cbn.
    split; [done |]. split; [lia |]. split; [lia |]. split; [intros E0; rewrite E0 in Hd; change (0 = n) in Hd; lia |]. split; [done |].
    split; [split; [by eapply outer_tied |] |].
    { constructor; raw_cbn; try done; [by destruct Hr2; constructor |]. split; [done |]. destruct queue as [|q queue]; [done |]. apply Forall_cons_1 in Hch as [[-> ?] _]. lia. }
    split; [by split |]. split; [done |]. split; [done |]. unfold view. raw_cbn. unfold inbox. rewrite dropZ_0.
    assert (phase_of (self' <| rt_RxHeadOffset := 0 |>) = phase_of (cf_Self c)) as Hph by exact (outer_phase (cf_Self c) self' Hout).
    raw_cbn. by rewrite Hph, Eh.
  - apply rleads_ret, rleads_ret. exists data, (dropZ (offset + n) (pb_Payload p) ++ concat (map pb_Payload queue)). rewrite Hd.
    split; [done |]. split; [lia |]. split; [lia |]. split; [intros E0; rewrite E0 in Hd; change (0 = n) in Hd; lia |]. split; [done |].
    split; [split; [done |] |].
    { constructor; raw_cbn; [by destruct Hr; constructor | by rewrite Hqueue | done | | rewrite Hqueue; by constructor].
      rewrite Hqueue. fold offset. rewrite Htot. lia. }
    split; [by split |]. split; [done |]. split; [done |]. unfold view. raw_cbn. fold offset. by rewrite Hqueue, inbox_head by lia.
Qed.
Lemma DoRead_leads buffer size c : settled c -> 0 <= size <= lenZ buffer -> (rn_Queue (cf_Seen c) = [] -> rt_Errored (cf_Self c) = true) ->
  leads (LwipRawTcpStream_DoRead codes buffer size) c (fun r c' => settled c' /\ own_same c c' /\ raw_reads size buffer (view c) r (view c')).
Proof using OK.
  intros [Hc Hconn] Hsz Herr. apply rleads_bind, rleads_get. rewrite queued_seen by done. destruct (rn_Queue (cf_Seen c)) as [|p queue] eqn:Eq.
  - apply rleads_bind. eapply rleads_mono; [by apply ClosePcb_leads |]. intros [] c2 (Hc2 & Hz & _ & _ & Ho & Hv). apply rleads_ret.
    split; [by apply settled_down |]. split; [done |]. rewrite Hv. pose proof (empty_inbox c Hc Eq) as Hi.
    replace (mkRawView Down [] (rv_Latch (view c)) (rv_Wires (view c))) with ((view c) <| rv_Phase := Down |>) by (destruct (view c); raw_cbn; by subst).
    apply raw_reads_end; [| done]. rewrite view_phase, phase_up. rewrite (Herr eq_refl). by intros [].
  - apply rleads_bind. eapply rleads_mono; [by apply (DrainHead_leads buffer size c p queue) |].
    intros r c2 (data & rest & Hin & Hle & Hsm & H0 & -> & Hc2 & Ho & Ep & Ec & Hv). apply rleads_bind, rleads_get.
    apply rleads_bind, rleads_call. intros _. exists (cf_Seen c2). split.
    { unfold observe_raw. destruct Hc2 as [Hp2 _]. unfold pcb_tied in Hp2. destruct (rn_Pcb (cf_Seen c2)) as [h|]; [destruct Hp2 as (_ & -> & _); by rewrite Z.eqb_refl | by destruct Hp2 as (-> & _)]. }
    apply rleads_ret. replace (c2 <| cf_Seen := cf_Seen c2 |>) with c2 by (by destruct c2). split; [split; [done |]; rewrite Ep, Ec; done |].
    split; [done |]. rewrite Hv. by apply raw_reads_some.
Qed.
Lemma Read_leads buffer size c : settled c -> 0 <= size <= lenZ buffer ->
  leads (LwipRawTcpStream_Read codes marshal buffer size) c (fun r c' => settles (raw_reads size buffer) c r c').
Proof using OK MR.
  intros Hs Hsz. pose proof Hs as [Hc _]. apply rleads_bind, look_leads; [done |]. intros c1 H1. pose proof (settled_meanwhile _ _ Hs H1) as Hs1.
  rewrite IsOpen_phase. case_bool_decide as Hph; cbn [negb].
  { apply rleads_ret. split; [done |]. apply concludes_quiet; [done |]. by apply raw_reads_down. }
  assert (Hhop : forall c2, meanwhile c c2 -> (rn_Queue (cf_Seen c2) = [] -> rt_Errored (cf_Self c2) = true) ->
            leads (raw_hop marshal (LwipRawTcpStream_DoRead codes buffer size)) c2 (fun r c' => settles (raw_reads size buffer) c r c')).
  { intros c2 H2 Hw. apply hop_leads; [done | apply H2 |]. intros c3 H3. pose proof (settled_meanwhile _ _ (settled_meanwhile _ _ Hs H2) H3) as Hs3.
    eapply rleads_mono; [apply DoRead_leads; [done | done |] |].
    - intros Hq. apply (mw_errored _ _ H3), Hw. destruct (mw_queue _ _ H3) as [more Hm]. rewrite Hq in Hm. symmetry in Hm. by apply app_eq_nil in Hm as [].
    - intros r c4 (Hs4 & Ho & HR). split; [apply Hs4 |]. intros c5 H5. split; [by eapply settled_meanwhile |].
      eapply (concludes_around _ c c3 r c4 c5); [by eapply meanwhile_trans | done.. ]. }
  apply rleads_bind, rleads_bind, look_leads; [apply H1 |]. intros c2 H2. pose proof (mw_calm _ _ H2) as Hc2. rewrite queued_seen by done.
  destruct (rn_Queue (cf_Seen c2)) as [|p queue] eqn:Eq.
  2: { apply rleads_ret. apply Hhop; [by eapply meanwhile_trans | by rewrite Eq]. }
  apply look_leads; [done |]. intros c3 H3. destruct (rt_Errored (cf_Self c3)) eqn:Ee.
  { apply Hhop; [exact (meanwhile_trans _ _ _ (meanwhile_trans _ _ _ H1 H2) H3) | done]. }
  apply rleads_ret. pose proof (meanwhile_trans _ _ _ (meanwhile_trans _ _ _ H1 H2) H3) as H13. split; [exact (settled_meanwhile _ _ Hs H13) |].
  eapply (concludes_around _ c c2 _ c2 c3); [exact (meanwhile_trans _ _ _ H1 H2) | done | | done]. apply raw_reads_none; [| by apply empty_inbox].
  rewrite view_phase, phase_down. destruct (mw_pcb _ _ H2) as [-> | [_ He2]]; [by rewrite phase_down in Hph |].
  apply (mw_errored _ _ H3) in He2. congruence.
Qed.

(** *** Open *)

(** What Open may ask of the health of the stream, and what it leaves alone. *)
Definition own_opens c c' : Prop := own_same c c' /\ rt_OpenHealth (cf_Self c') = rt_OpenHealth (cf_Self c).
Lemma meanwhile_opens c c' : meanwhile c c' -> own_opens c c'.
Proof using. intros H. split; [by apply meanwhile_same |]. by destruct (mw_own _ _ H) as (_ & _ & _ & _ & ?). Qed.
Lemma own_opens_trans c1 c2 c3 : own_opens c1 c2 -> own_opens c2 c3 -> own_opens c1 c3.
Proof using. intros [H1 E1] [H2 E2]. split; [by eapply own_same_trans | congruence]. Qed.

Ltac set_next := apply rleads_bind; eapply set_pcb_leads; [reflexivity | done |].
Lemma configure_leads variant c (Q : Z -> conf E -> Prop) : rn_Pcb (cf_Seen c) = None -> cf_Armed c = [] -> Q 0 c ->
  (forall h, ph_Pcb h <> 0 -> is_wired h = true -> ph_Started h = false ->
    Q (ph_Pcb h) (mkConf (cf_Self c) [ph_Pcb h] (holding (cf_Seen c) h))) ->
  leads (LwipRawTcpStream_OpenAndConfigurePcb variant) c Q.
Proof using.
  intros Hn Ha H0 HQ. apply rleads_bind, rleads_call. intros pcb. eexists. split; [unfold observe_raw; by rewrite bool_decide_true |].
  destruct c as [self armed s]. raw_cbn. subst armed. destruct (Z.eqb_spec pcb 0) as [-> | Hp]; cbn [negb].
  { apply rleads_bind, rleads_ret, rleads_ret. exact H0. }
  apply rleads_bind. set_next. apply rleads_bind. set_next.
  assert (Hlast : forall h, ph_Pcb h = pcb -> ph_Keepalive h = true -> ph_Started h = false ->
            leads (set_pcb pcb NagleDisabled ;;; set_pcb pcb (Arg true) ;;; set_pcb pcb (Recv true) ;;; set_pcb pcb (Sent true) ;;; set_pcb pcb (Err true))
              (mkConf self [] (holding s h)) (fun _ c' => leads (st_ret pcb) c' Q)).
  { intros h <- Hk Hs. set_next. set_next. set_next. set_next. eapply set_pcb_leads; [reflexivity | done |]. apply rleads_ret.
    set (h' := with_setting (Err true) (with_setting (Sent true) (with_setting (Recv true) (with_setting (Arg true) (with_setting NagleDisabled h))))).
    exact (HQ h' Hp ltac:(unfold h'; destruct h; cbn in Hk |- *; by rewrite Hk) Hs). }
  destruct variant.
  - set_next. eapply set_pcb_leads; [reflexivity | done |]. by apply Hlast.
  - apply rleads_ret. by apply Hlast.
Qed.

(** The attempt on a control block, its connect started or refused: calm, and up. *)
Definition made_over c (r : bool * Z) c' : Prop :=
  calm c' /\ own_opens c c' /\ if fst r then view c' = (view c) <| rv_Phase := Up |> else view c' = view c /\ rt_Pcb (cf_Self c') = 0.
Lemma DoOpen_leads variant addr c : calm c -> rt_Pcb (cf_Self c) = 0 ->
  leads (LwipRawTcpStream_DoOpenAndConnect codes variant addr) c (fun r c' => made_over c r c').
Proof using.
  intros [Hp Hq] Hz. assert (Hn : rn_Pcb (cf_Seen c) = None /\ cf_Armed c = []).
  { unfold pcb_tied in Hp. destruct (rn_Pcb (cf_Seen c)); [destruct Hp as (? & ? & _); congruence | by destruct Hp]. }
  destruct Hn as [Hn Ha]. apply rleads_bind, configure_leads; [done | done | |].
  - apply rleads_bind, rleads_put, rleads_bind, rleads_get. unfold LwipRawTcpStream_IsOpen. raw_cbn. cbn [Z.eqb negb]. apply rleads_ret.
    destruct c as [self armed s]. raw_cbn. split; [| split; [by repeat split |]].
    + split; [unfold pcb_tied; raw_cbn; by rewrite Hn | by eapply queue_tied_same].
    + split; [| done]. unfold view, phase_of. raw_cbn. by rewrite Hz.
  - intros h Hh Hw Hs. apply rleads_bind, rleads_put, rleads_bind, rleads_get. unfold LwipRawTcpStream_IsOpen. raw_cbn.
    rewrite (proj2 (Z.eqb_neq _ _) Hh). cbn [negb]. apply rleads_bind, rleads_put, rleads_bind, rleads_get, rleads_bind, rleads_call. intros err. raw_cbn.
    eexists. split; [unfold observe_raw, owned; raw_cbn; by rewrite Z.eqb_refl, Hw, Hs |]. apply rleads_ret.
    split; [| split; [by repeat split |]].
    + split; [unfold pcb_tied; raw_cbn; by repeat split | by eapply queue_tied_same].
    + unfold view, phase_of. raw_cbn. by rewrite (proj2 (Z.eqb_neq _ _) Hh).
Qed.
Lemma DoAbort_leads c : calm c -> leads LwipRawTcpStream_DoAbort c (fun _ c' =>
  calm c' /\ own_opens c c' /\ rt_Pcb (cf_Self c') = 0 /\ view c' = (view c) <| rv_Phase := Down |>).
Proof using.
  intros [Hp Hq]. apply rleads_bind, rleads_get, rleads_bind, rleads_get. unfold LwipRawTcpStream_IsOpen. unfold pcb_tied in Hp.
  destruct (rn_Pcb (cf_Seen c)) as [h|] eqn:Eh.
  - destruct Hp as (Hn & Hs & Ha & _). rewrite Hs, (proj2 (Z.eqb_neq _ _) Hn). cbn [negb]. apply rleads_bind, rleads_bind, rleads_get. rewrite Hs.
    apply rleads_bind, (Detach_leads (ph_Pcb h) h); [done | done | done |]. intros h' Hd Hh'. apply rleads_bind, rleads_call. intros _.
    eexists. split; [unfold observe_raw, owned; raw_cbn; by rewrite Hh', Z.eqb_refl, Hd |]. apply rleads_put, rleads_ret. raw_cbn.
    split; [split; [done | by eapply queue_tied_same] |]. by repeat split.
  - destruct Hp as (Hs & Ha). rewrite Hs. cbn [Z.eqb negb]. apply rleads_bind, rleads_ret, rleads_ret.
    split; [split; [unfold pcb_tied; by rewrite Eh | done] |]. split; [by repeat split |]. split; [done |]. unfold view, phase_of. raw_cbn. by rewrite Hs.
Qed.

(** The wait goes on for as long as its budget, and no longer than its rounds. *)
Lemma raw_wait_leads c : calm c -> leads (LwipRawTcpStream_WaitForConnectedCallback codes) c
  (fun b c' => meanwhile c c' /\ (b = true -> rt_Connected (cf_Self c') = true)).
Proof using OK.
  intros Hc. apply rleads_bind, rleads_bind, rleads_get, rleads_bind, (rleads_env codes _ (fun _ => True)); [done |]. intros ms _. apply rleads_ret.
  set (deadline := if _ <? _ then _ else _).
  assert (Hd : 0 <= deadline <= SOLIDSYSLOG_TCP_CONNECT_TIMEOUT_MS_MAX).
  { unfold deadline. pose proof (Z.mod_pos_bound ms (2 ^ 32) ltac:(lia)). destruct (Z.ltb_spec SOLIDSYSLOG_TCP_CONNECT_TIMEOUT_MS_MAX (u32 ms)); unfold SOLIDSYSLOG_TCP_CONNECT_TIMEOUT_MS_MAX, u32 in *; lia. }
  apply rleads_bind. unfold wait_rounds. 
  apply (rleads_loop codes (fun elapsed c' => meanwhile c c' /\ 0 <= elapsed <= deadline + SOLIDSYSLOG_LWIP_RAW_TCP_CONNECT_POLL_MS)
           (fun elapsed _ => (deadline - elapsed + SOLIDSYSLOG_LWIP_RAW_TCP_CONNECT_POLL_MS) / SOLIDSYSLOG_LWIP_RAW_TCP_CONNECT_POLL_MS)); unfold SOLIDSYSLOG_LWIP_RAW_TCP_CONNECT_POLL_MS in *.
  - split; [by apply meanwhile_refl | lia].
  - Z.div_mod_to_equations. lia.
  - intros elapsed c1 [H1 He]. split; [Z.div_mod_to_equations; lia |].
    assert (Hexit : forall c3, meanwhile c1 c3 -> leads (raw_look codes rt_Connected) c3 (fun b c' => meanwhile c c' /\ (b = true -> rt_Connected (cf_Self c') = true))).
    { intros c3 H3. apply look_leads; [apply H3 |]. intros c4 H4. split; [exact (meanwhile_trans _ _ _ (meanwhile_trans _ _ _ H1 H3) H4) | done]. }
    apply rleads_bind, look_leads; [apply H1 |]. intros c2 H2.
    assert (Hgo : forall errored c3, meanwhile c1 c3 ->
      leads (if negb (rt_Connected (cf_Self c2)) && negb errored && (elapsed <? deadline)
             then let! self := raw_get (fun self => self) in raw_env (rt_Sleep self 10) ;;; raw_happens (Slept 10) ;;; st_ret (true, u32 (elapsed + 10))
             else st_ret (false, elapsed)) c3
        (fun r c' => if fst r then (meanwhile c c' /\ 0 <= snd r <= deadline + 10) /\ (deadline - snd r + 10) / 10 < (deadline - elapsed + 10) / 10
                     else leads (raw_look codes rt_Connected) c' (fun b c' => meanwhile c c' /\ (b = true -> rt_Connected (cf_Self c') = true)))).
    { intros errored c3 H3. destruct (_ && _) eqn:Eg; [| apply rleads_ret; cbn [fst]; by apply Hexit]. apply andb_prop in Eg as [_ Eg]. apply Z.ltb_lt in Eg.
      apply rleads_bind, rleads_get, rleads_bind, (rleads_env codes _ (fun _ => True)); [done |]. intros _ _. apply rleads_bind. eapply rleads_happens; [done |]. apply rleads_ret. cbn [fst snd].
      replace (c3 <| cf_Seen := cf_Seen c3 |>) with c3 by (by destruct c3). unfold u32. rewrite Z.mod_small by (unfold SOLIDSYSLOG_TCP_CONNECT_TIMEOUT_MS_MAX in *; lia).
      split; [split; [by eapply meanwhile_trans | lia] |]. replace (deadline - elapsed + 10) with (deadline - (elapsed + 10) + 10 + 1 * 10) by lia. rewrite Z.div_add by lia. lia. }
    apply rleads_bind. destruct (rt_Connected (cf_Self c2)) eqn:Ec.
    + apply rleads_ret. by apply Hgo.
    + apply look_leads; [apply H2 |]. intros c3 H3. apply Hgo. by eapply meanwhile_trans.
Qed.

(** A fault of Open: reported once per run of one detail. *)
Lemma calm_health c f reports : calm c ->
  calm ((c <| cf_Self := (cf_Self c) <| rt_OpenHealth := f |> |>) <| cf_Seen := (cf_Seen c) <| rn_Reports := reports |> |>).
Proof using. intros [Hp Hq]. split; [done | by eapply queue_tied_same]. Qed.
Definition fault_once c (event : SolidSyslogErrorEvent) (detail : Z) : list SolidSyslogErrorEvent :=
  if bool_decide (rv_Latch (view c) = Some detail) then [] else [event].
Definition faulted c (es : list SolidSyslogErrorEvent) (detail : Z) c' : Prop :=
  calm c' /\ rt_Base (cf_Self c') = rt_Base (cf_Self c) /\ rn_Reports (cf_Seen c') = rn_Reports (cf_Seen c) ++ es /\
  rt_Pcb (cf_Self c') = rt_Pcb (cf_Self c) /\ view c' = (view c) <| rv_Latch := Some detail |>.
Lemma health_leads detail m event c : (forall h e, fst (m h e) = latched h detail) -> calm c ->
  leads (raw_health_report detail m event) c (fun _ c' => faulted c (fault_once c event detail) detail c').
Proof using.
  intros Hm Hc. apply rleads_bind, rleads_get, rleads_bind, (rleads_env codes _ (fun after => after = latched (rt_OpenHealth (cf_Self c)) detail)).
  { intros e. apply Hm. }
  intros _ ->. apply rleads_bind, rleads_put.
  assert (Hfin : forall reports, reports = rn_Reports (cf_Seen c) ++ fault_once c event detail ->
            faulted c (fault_once c event detail) detail
              ((c <| cf_Self := (cf_Self c) <| rt_OpenHealth := latched (rt_OpenHealth (cf_Self c)) detail |> |>) <| cf_Seen := (cf_Seen c) <| rn_Reports := reports |> |>)).
  { intros reports ->. split; [by apply calm_health |]. split; [done |]. split; [done |]. split; [done |]. unfold view. raw_cbn. by rewrite latch_latched. }
  unfold fault_once, view in Hfin |- *. raw_cbn.
  rewrite Admit_news. case_bool_decide; cbn [negb].
  - apply rleads_ret. destruct c as [self armed [pcb queue offset wires reports]]. raw_cbn. apply (Hfin reports). by rewrite app_nil_r.
  - eapply rleads_happens; [done |]. by apply Hfin.
Qed.
(** Whatever it is, it is some fault of a connect. *)
Definition some_fault c c' : Prop := exists severity hasNative detail native,
  faulted c (fault_once c (mkErrorEvent severity SOLIDSYSLOG_CAT_STREAM_CONNECT_FAILED hasNative (Some SolidSyslogLwipRawTcpStreamErrorSource) detail native) detail) detail c'.
Lemma ConnectFailure_leads severity detail c : calm c -> leads (LwipRawTcpStream_ReportConnectFailure severity detail) c (fun _ c' => some_fault c c').
Proof using.
  intros Hc. eapply rleads_mono; [apply health_leads; [| done] |]; [intros h e; exact (proj1 (ReportFailure_latches h _ _ _ detail 0 e)) |]. intros [] c' H'. by do 4 eexists.
Qed.
Lemma ConnectFailureWithCode_leads severity detail native c : calm c ->
  leads (LwipRawTcpStream_ReportConnectFailureWithCode severity detail native) c (fun _ c' => some_fault c c').
Proof using.
  intros Hc. eapply rleads_mono; [apply health_leads; [| done] |]; [intros h e; exact (proj2 (ReportFailure_latches h _ _ _ detail native e)) |]. intros [] c' H'. by do 4 eexists.
Qed.
Lemma FailedAttempt_leads err ended peer c : calm c -> leads (LwipRawTcpStream_ReportFailedAttempt codes err ended peer) c (fun _ c' => some_fault c c').
Proof using.
  intros Hc. unfold LwipRawTcpStream_ReportFailedAttempt. destruct (err =? lw_ERR_OK codes); cbn [negb]; [destruct ended |].
  - by apply ConnectFailureWithCode_leads.
  - by apply ConnectFailure_leads.
  - by apply ConnectFailureWithCode_leads.
Qed.

(** Where an Open ends, of what it has come to report. *)
Definition open_ends c (b : bool) c' : Prop := settled c' /\ rt_Base (cf_Self c') = rt_Base (cf_Self c) /\
  exists es, rn_Reports (cf_Seen c') = rn_Reports (cf_Seen c) ++ es /\ amid (fun v v' => raw_opens v b es v') (view c) (view c').
(** One that failed: what was up for a while is down. *)
Lemma failed_ends c c1 c2 c3 u : rt_Pcb (cf_Self c1) = 0 -> meanwhile c c1 -> drifts ((view c1) <| rv_Phase := Up |>) u ->
  own_opens c1 c2 -> rt_Pcb (cf_Self c2) = 0 -> view c2 = u <| rv_Phase := Down |> -> some_fault c2 c3 -> open_ends c false c3.
Proof using.
  intros Hz H1 Hu [[Eb Er] Eh] Hz2 Hv2 (severity & hasNative & detail & native & Hc3 & Eb3 & Er3 & Hz3 & Hv3).
  split; [apply settled_down; [done | congruence] |]. pose proof (meanwhile_same _ _ H1) as [Eb1 Er1]. split; [congruence |].
  eexists. split; [by rewrite Er3, Er, Er1 |]. exists (view c1), (view c3). split; [apply H1 |]. split; [| done].
  rewrite Hv3, Hv2. unfold fault_once. rewrite Hv2. destruct (drift_keeps _ _ Hu) as [El _]. raw_cbn. rewrite El. raw_cbn.
  replace (u <| rv_Phase := Down |> <| rv_Latch := Some detail |>) with (u <| rv_Phase := Down |> <| rv_Latch := Some detail |>) by done.
  apply raw_opens_failed; [by apply phase_down | done].
Qed.
Lemma Open_leads variant addr c : settled c -> leads (LwipRawTcpStream_Open codes variant marshal addr) c (fun b c' => open_ends c b c').
Proof using OK MR.
  intros Hs. pose proof Hs as [Hc _]. apply rleads_bind, look_leads; [done |]. intros c1 H1. pose proof (settled_meanwhile _ _ Hs H1) as Hs1.
  destruct (Z.eqb_spec (rt_Pcb (cf_Self c1)) 0) as [Hz | Hn]; unfold LwipRawTcpStream_IsOpen.
  2: { rewrite (proj2 (Z.eqb_neq _ _) Hn). cbn [negb]. apply rleads_bind, rleads_bind, rleads_any_env. intros _. eapply rleads_happens; [done |]. apply rleads_ret.
       pose proof (meanwhile_same _ _ H1) as [Eb Er]. split; [| split; [done |]].
       - split; [| apply Hs1]. destruct (mw_calm _ _ H1) as [Hp Hq]. split; [done | by eapply queue_tied_same].
       - exists [already_open_event]. raw_cbn. split; [by rewrite Er |]. exists (view c1), (view c1). split; [apply H1 |].
         split; [apply raw_opens_refused; by rewrite view_phase, phase_down | done]. }
  rewrite Hz. cbn [Z.eqb negb]. apply rleads_bind, hop_leads; [done | apply H1 |]. intros c2 H2.
  destruct (down_meanwhile c1 c2 (mw_calm _ _ H1) Hz H2) as [Hz2 _]. pose proof (meanwhile_trans _ _ _ H1 H2) as H12.
  eapply rleads_mono; [apply DoOpen_leads; [apply H2 | done] |]. intros [pcbCreated err] c3 (Hc3 & Ho3 & Hv3). split; [done |]. intros c4 H4. cbn [fst snd] in *.
  pose proof (own_opens_trans _ _ _ Ho3 (meanwhile_opens _ _ H4)) as Ho4. apply rleads_bind. destruct pcbCreated.
  - assert (Hd4 : drifts ((view c2) <| rv_Phase := Up |>) (view c4)) by (rewrite <- Hv3; apply H4).
    assert (Hfail : forall c5, meanwhile c4 c5 ->
      leads (let! ended := raw_hop marshal LwipRawTcpStream_DoAbort in LwipRawTcpStream_ReportFailedAttempt codes err (fst ended) (snd ended)) c5
        (fun _ c' => open_ends c false c')).
    { intros c5 H5. apply rleads_bind, hop_leads; [done | apply H5 |]. intros c6 H6. eapply rleads_mono; [apply DoAbort_leads, (mw_calm _ _ H6) |].
      intros [ended peer] c7 (Hc7 & Ho7 & Hz7 & Hv7). split; [done |]. intros c8 H8. cbn [fst snd].
      eapply rleads_mono; [apply FailedAttempt_leads, (mw_calm _ _ H8) |]. intros [] c9 H9.
      pose proof (meanwhile_trans _ _ _ H5 H6) as H56. destruct (down_meanwhile _ _ Hc7 Hz7 H8) as [Hz8 _].
      apply (failed_ends c c2 c8 c9 (view c6)); try done.
      - etrans; [exact Hd4 | apply H56].
      - eapply own_opens_trans; [exact Ho4 |]. eapply own_opens_trans; [by apply meanwhile_opens |]. eapply own_opens_trans; [exact Ho7 |]. by apply meanwhile_opens.
      - rewrite <- Hv7. apply drifts_down; [by rewrite Hv7 | apply H8]. }
    apply rleads_bind. destruct (err =? lw_ERR_OK codes).
    2: { apply rleads_ret, rleads_bind. cbn [negb]. eapply rleads_mono; [apply Hfail, meanwhile_refl, H4 |]. intros [] c9 H9. by apply rleads_ret, rleads_bind, rleads_ret, rleads_ret. }
    eapply rleads_mono; [apply raw_wait_leads, H4 |]. intros [] c5 [H5 Hconn]; apply rleads_bind; cbn [negb].
    + apply rleads_ret, rleads_ret, rleads_bind, rleads_bind, rleads_put. eapply rleads_happens; [done |]. apply rleads_ret.
      pose proof (own_opens_trans _ _ _ Ho4 (meanwhile_opens _ _ H5)) as [[Eb5 Er5] Eh5]. pose proof (meanwhile_same _ _ H12) as [Eb Er].
      destruct (mw_calm _ _ H5) as [Hp5 Hq5]. split; [split; [split; [done | by eapply queue_tied_same] | by intros _; apply Hconn] |].
      split; [raw_cbn; congruence |]. exists []. rewrite app_nil_r. split; [raw_cbn; congruence |].
      pose proof (mw_drifts _ _ H5) as Hd5. pose proof (transitivity Hd4 Hd5) as Hd. destruct (drift_keeps _ _ Hd) as [_ Ew].
      exists (view c2), (mkRawView Up (rv_Inbox (view c2)) None (rv_Wires (view c2) ++ [[]])). split; [apply H12 |].
      split; [apply raw_opens_made; by apply phase_down |].
      pose proof (drifts_beside None (rv_Wires (view c2) ++ [[]]) _ _ Hd) as Hb. unfold view in Hb, Ew |- *. raw_cbn. by rewrite Ew.
    + eapply rleads_mono; [by apply Hfail |]. intros [] c9 H9. by apply rleads_ret, rleads_bind, rleads_ret, rleads_ret.
  - destruct Hv3 as [Hv3 Hz3]. apply rleads_bind. eapply rleads_mono; [apply ConnectFailure_leads, H4 |]. intros [] c5 H5.
    apply rleads_ret, rleads_bind, rleads_ret, rleads_ret. destruct (down_meanwhile _ _ Hc3 Hz3 H4) as [Hz4 _].
    apply (failed_ends c c2 c4 c5 ((view c2) <| rv_Phase := Up |>)); try done.
    rewrite (drifts_down (view c3) (view c4)); [| by apply phase_down | apply H4]. rewrite Hv3.
    assert (Hdn : rv_Phase (view c2) = Down) by (by apply phase_down). destruct (view c2). raw_cbn. by subst.
Qed.

(** ** In the world *)

Definition raw_conf (w : raw_world E) (s : raw_seen) : conf E := mkConf (rw_Self w) (rw_Armed w) s.
(** The trace is what it must be, the stream agrees with it, and to its caller it is this. *)
Definition raw_shows (v : raw_view) (reports : list SolidSyslogErrorEvent) (w : raw_world E) : Prop :=
  rt_Base (rw_Self w) = OwnStreamVtable /\
  exists s, raw_observed codes (rw_Trace w) = Some s /\ settled (raw_conf w s) /\ view (raw_conf w s) = v /\ rn_Reports s = reports.
Lemma raw_stands_conf w s : raw_observed codes (rw_Trace w) = Some s -> raw_stands codes (raw_conf w s) w.
Proof using. done. Qed.
Lemma stands_is w c : raw_stands codes c w -> c = raw_conf w (cf_Seen c) /\ raw_observed codes (rw_Trace w) = Some (cf_Seen c).
Proof using. intros (Hs & Ha & Ho). split; [| done]. unfold raw_conf. rewrite Hs, Ha. by destruct c. Qed.
Lemma leads_shows {A} (m : op A) v reports w (R : raw_view -> A -> list SolidSyslogErrorEvent -> raw_view -> Prop) : raw_shows v reports w ->
  (forall c, settled c -> leads m c (fun a c' => settled c' /\ rt_Base (cf_Self c') = rt_Base (cf_Self c) /\
    exists es, rn_Reports (cf_Seen c') = rn_Reports (cf_Seen c) ++ es /\ amid (fun v v' => R v a es v') (view c) (view c'))) ->
  wp m (fun a w' => exists v' es, raw_shows v' (reports ++ es) w' /\ amid (fun v v' => R v a es v') v v') w.
Proof using.
  intros (Hb & s & Ho & Hs & <- & <-) Hm. eapply wp_mono; [exact (Hm (raw_conf w s) Hs w (raw_stands_conf w s Ho)) |].
  intros a w' (c' & Hst & Hs' & Hb' & es & Er & HR). destruct (stands_is _ _ Hst) as [Ec Ho']. rewrite Ec in Hs', Hb', HR. exists (view (raw_conf w' (cf_Seen c'))), es.
  split; [| exact HR]. split; [by rewrite <- Hb; exact Hb' |]. by exists (cf_Seen c').
Qed.
Lemma own_leads {A} (m null : op A) v reports w (R : raw_view -> A -> list SolidSyslogErrorEvent -> raw_view -> Prop) : raw_shows v reports w ->
  (forall c, settled c -> leads m c (fun a c' => settles (fun v a v' => R v a [] v') c a c')) ->
  wp m (fun a w' => exists v', raw_shows v' reports w' /\ amid (fun v v' => R v a [] v') v v') w.
Proof using.
  intros Hsh Hm. eapply wp_mono.
  { apply (leads_shows m v reports w (fun v a es v' => es = [] /\ R v a [] v') Hsh). intros c Hs. eapply rleads_mono; [by apply Hm |].
    intros a c' (Hs' & _ & [Eb Er] & v1 & v2 & Hd1 & HR & Hd2). split; [done |]. split; [done |]. exists []. rewrite app_nil_r. split; [done |]. by exists v1, v2. }
  cbv beta. intros a w' (v' & es & Hsh' & v1 & v2 & Hd1 & (-> & HR) & Hd2). rewrite app_nil_r in Hsh'. exists v'. split; [done |]. by exists v1, v2.
Qed.
Lemma own_dispatch {A} (m null : op A) v reports w (Q : A -> raw_world E -> Prop) : raw_shows v reports w ->
  wp m Q w -> wp (let! base := raw_get rt_Base in match base with OwnStreamVtable => m | NullStreamVtable => null end) Q w.
Proof using. intros (Hb & _) HQ. apply wp_bind, wp_get. by rewrite Hb. Qed.
Lemma down_is_empty c : calm c -> rv_Phase (view c) = Down -> rv_Inbox (view c) = [] -> rn_Pcb (cf_Seen c) = None /\ rn_Queue (cf_Seen c) = [].
Proof using.
  intros [Hp [_ _ _ [Hge Hlt] Hch]] Hd Hi. rewrite view_phase, phase_down in Hd. split.
  - unfold pcb_tied in Hp. destruct (rn_Pcb (cf_Seen c)); [| done]. destruct Hp as (? & ? & _). congruence.
  - unfold view in Hi. raw_cbn. destruct (rn_Queue (cf_Seen c)) as [|p queue]; [done |]. apply Forall_cons_1 in Hch as [[Ht _] _].
    rewrite inbox_head in Hi by lia. apply app_eq_nil in Hi as [Hi _]. apply (f_equal lenZ) in Hi. rewrite lenZ_dropZ in Hi by lia. unfold lenZ in *. cbn in Hi. lia.
Qed.
Lemma Cleanup_leads c : settled c -> leads (SolidSyslogLwipRawTcpStream_Cleanup codes marshal) c (fun _ c' =>
  rt_Base (cf_Self c') = NullStreamVtable /\ rn_Pcb (cf_Seen c') = None /\ rn_Queue (cf_Seen c') = [] /\ rn_Reports (cf_Seen c') = rn_Reports (cf_Seen c)).
Proof using OK MR.
  intros Hs. apply rleads_bind. eapply rleads_mono; [by apply raw_close_leads |]. intros [] c' ([Hc' _] & _ & [_ Er] & v1 & v2 & _ & Hcl & Hd).
  unfold raw_closes in Hcl. pose proof (drifts_down v2 (view c') ltac:(by rewrite Hcl) Hd) as Hv.
  destruct (down_is_empty c' Hc') as [Hp Hq]; [by rewrite Hv, Hcl | by rewrite Hv, Hcl |]. by apply rleads_put.
Qed.
End hops.
End calm.

(** * The contract of the stream *)

Section keeps.
Context {E : Type} `{HT : ErrorTap E} `{HS : RawTcp E} (codes : lwip_codes).

(** From the start and over every call, the stack's thread doing as it likes between any
    two steps: the trace is what it must be, and the call is its step amid what goes on
    meanwhile. *)
Record raw_stream_contract (config : raw_config E) (stream : SolidSyslogStream (raw_world E)) (cleanup : @raw_op E unit) : Prop := {
  raw_starts : forall e, raw_shows codes (mkRawView Down [] None []) [] (mkRawWorld (SolidSyslogLwipRawTcpStream_Initialise codes config) [] e []);
  raw_Open : forall addr v reports w, raw_shows codes v reports w ->
    wp (SolidSyslogStream_Open (SolidSyslogStream := stream) addr)
      (fun opened w' => exists v' es, raw_shows codes v' (reports ++ es) w' /\ amid (fun v v' => raw_opens v opened es v') v v') w;
  raw_Send : forall buffer size v reports w, raw_shows codes v reports w -> 0 <= size < 2 ^ 16 ->
    wp (SolidSyslogStream_Send (SolidSyslogStream := stream) buffer size)
      (fun sent w' => exists v', raw_shows codes v' reports w' /\ amid (fun v v' => raw_sends (takeZ size buffer) v sent v') v v') w;
  raw_Read : forall buffer size v reports w, raw_shows codes v reports w -> 0 <= size <= lenZ buffer ->
    wp (SolidSyslogStream_Read (SolidSyslogStream := stream) buffer size)
      (fun r w' => exists v', raw_shows codes v' reports w' /\ amid (fun v v' => raw_reads size buffer v r v') v v') w;
  raw_Close : forall v reports w, raw_shows codes v reports w ->
    wp (SolidSyslogStream_Close (SolidSyslogStream := stream))
      (fun closed w' => exists v', raw_shows codes v' reports w' /\ amid (fun v v' => raw_closes v closed v') v v') w;
  raw_Version : forall v reports w, raw_shows codes v reports w -> SolidSyslogStream_Version (SolidSyslogStream := stream) w = (0, w);
  raw_Cleanup : forall v reports w, raw_shows codes v reports w ->
    wp cleanup (fun _ w' => rt_Base (rw_Self w') = NullStreamVtable /\
      exists s, raw_observed codes (rw_Trace w') = Some s /\ rn_Pcb s = None /\ rn_Queue s = [] /\ rn_Reports s = reports) w
}.

Lemma Initialise_shows (config : raw_config E) (e : E) :
  raw_shows codes (mkRawView Down [] None []) [] (mkRawWorld (SolidSyslogLwipRawTcpStream_Initialise codes config) [] e []).
Proof using.
  unfold SolidSyslogLwipRawTcpStream_Initialise. set (self := _ <| rt_Sleep := _ |> <| rt_ConnectTimeoutContext := _ |>).
  destruct (rc_GetConnectTimeoutMs config); (split; [done |]; exists nothing_heard; split; [done |]; split; [| done];
    split; [| done]; split; [done | constructor; [constructor | | | |]; done]).
Qed.

Lemma raw_open_shows variant marshal addr v reports w : raw_tcp_ok codes -> raw_marshal_ok codes marshal -> raw_shows codes v reports w ->
  wp (SolidSyslogStream_Open (SolidSyslogStream := LwipRawTcpStream_vtable codes variant marshal) addr)
    (fun opened w' => exists v' es, raw_shows codes v' (reports ++ es) w' /\ amid (fun v v' => raw_opens v opened es v') v v') w.
Proof using.
  intros OK MR Hw. eapply own_dispatch; [done |].
  by apply (leads_shows codes _ v reports w (fun v b es v' => raw_opens v b es v') Hw), Open_leads.
Qed.
Lemma raw_send_shows variant marshal buffer size v reports w : raw_tcp_ok codes -> raw_marshal_ok codes marshal -> raw_shows codes v reports w -> 0 <= size < 2 ^ 16 ->
  wp (SolidSyslogStream_Send (SolidSyslogStream := LwipRawTcpStream_vtable codes variant marshal) buffer size)
    (fun sent w' => exists v', raw_shows codes v' reports w' /\ amid (fun v v' => raw_sends (takeZ size buffer) v sent v') v v') w.
Proof using.
  intros OK MR Hw Hsz. eapply own_dispatch; [done |].
  apply (own_leads codes _ (st_ret false) v reports w (fun v b _ v' => raw_sends (takeZ size buffer) v b v') Hw). intros c Hc. by apply Send_leads.
Qed.
Lemma raw_read_shows variant marshal buffer size v reports w : raw_tcp_ok codes -> raw_marshal_ok codes marshal -> raw_shows codes v reports w -> 0 <= size <= lenZ buffer ->
  wp (SolidSyslogStream_Read (SolidSyslogStream := LwipRawTcpStream_vtable codes variant marshal) buffer size)
    (fun r w' => exists v', raw_shows codes v' reports w' /\ amid (fun v v' => raw_reads size buffer v r v') v v') w.
Proof using.
  intros OK MR Hw Hsz. eapply own_dispatch; [done |].
  apply (own_leads codes _ (st_ret (0, buffer)) v reports w (fun v r _ v' => raw_reads size buffer v r v') Hw). intros c Hc. by apply Read_leads.
Qed.
Lemma raw_close_shows variant marshal v reports w : raw_tcp_ok codes -> raw_marshal_ok codes marshal -> raw_shows codes v reports w ->
  wp (SolidSyslogStream_Close (SolidSyslogStream := LwipRawTcpStream_vtable codes variant marshal))
    (fun closed w' => exists v', raw_shows codes v' reports w' /\ amid (fun v v' => raw_closes v closed v') v v') w.
Proof using.
  intros OK MR Hw. eapply own_dispatch; [done |].
  apply (own_leads codes _ (st_ret tt) v reports w (fun v a _ v' => raw_closes v a v') Hw). intros c Hc. by apply raw_close_leads.
Qed.
Lemma raw_version_shows variant marshal v reports w : raw_shows codes v reports w ->
  SolidSyslogStream_Version (SolidSyslogStream := LwipRawTcpStream_vtable codes variant marshal) w = (0, w).
Proof using. intros (Hb & _). cbn. unfold st_bind, raw_get, st_get. by rewrite Hb. Qed.
Lemma raw_cleanup_shows marshal v reports w : raw_tcp_ok codes -> raw_marshal_ok codes marshal -> raw_shows codes v reports w ->
  wp (SolidSyslogLwipRawTcpStream_Cleanup codes marshal) (fun _ w' => rt_Base (rw_Self w') = NullStreamVtable /\
    exists s, raw_observed codes (rw_Trace w') = Some s /\ rn_Pcb s = None /\ rn_Queue s = [] /\ rn_Reports s = reports) w.
Proof using.
  intros OK MR (_ & s & Ho & Hs & _ & <-). eapply wp_mono; [exact (Cleanup_leads codes OK marshal MR (raw_conf w s) Hs w (raw_stands_conf codes w s Ho)) |].
  intros [] w' (c' & (Es & _ & Ho') & Hb & Hrest). split; [by rewrite Es |]. by exists (cf_Seen c').
Qed.

End keeps.

(** * A small stack

    It calls back what a script says, a step of it each time its thread gets to run, and
    takes what it is given while it has control blocks to give. *)
Inductive small_step := Idle | Accepts | Hears | Ends | Drops.
Record small_tcp := mkSmallTcp { sp_Script : list small_step; sp_Slots : pending_slots }.
#[export] Instance settable_small_tcp : Settable small_tcp := fun n => mkSmallTcp (sp_Script n) (sp_Slots n).
#[export] Instance small_tcp_tap : ErrorTap small_tcp := {
  tap_Handler := fun _ n => n;
  tap_Slots := sp_Slots;
  tap_SetSlots := fun slots n => n <| sp_Slots := slots |>
}.
Definition small_lwip_codes : lwip_codes := mkLwipCodes 0 (-1) (-15).
Definition small_chain : pbuf := mkPbuf 40 3 (str "ack").
Definition small_calls (step : small_step) : list raw_callback :=
  match step with
  | Idle => []
  | Accepts => [CallsConnected 7 0]
  | Hears => [CallsRecv 7 (Some small_chain) 0]
  | Ends => [CallsRecv 7 None 0]
  | Drops => [CallsErr 7 (-14)]
  end.
#[export] Instance small_tcp_stack : RawTcp small_tcp := {
  raw_tcp_new := st_ret 7;
  raw_set := fun _ _ => st_ret tt;
  raw_tcp_connect := fun _ _ => st_ret 0;
  raw_tcp_write := fun pcb _ _ => st_ret (if pcb =? 0 then -16 else 0);
  raw_tcp_output := fun _ => st_ret 0;
  raw_tcp_recved := fun _ _ => st_ret tt;
  raw_tcp_close := fun _ => st_ret 0;
  raw_tcp_abort := fun _ => st_ret tt;
  raw_pbuf_copy_partial := fun p memory len offset =>
    let n := Z.min len (pb_tot_len p - offset) in (n, spliceZ memory 0 (spanZ (pb_Payload p) offset n));
  raw_pbuf_free := fun _ => st_ret 1;
  raw_runs := fun n => match sp_Script n with [] => ([], n) | step :: script => (small_calls step, n <| sp_Script := script |>) end
}.
Lemma small_tcp_ok : raw_tcp_ok (E := small_tcp) small_lwip_codes.
Proof.
  constructor; [done | | done | done]. intros n. cbn. destruct (sp_Script n) as [| [] script]; cbn; repeat constructor; done.
Qed.
Lemma null_marshal_ok : raw_marshal_ok (E := small_tcp) small_lwip_codes Marshal_NullMarshal.
Proof.
  exists (st_ret []), (st_ret []). split; [by repeat constructor |]. intros A callback [self armed e tr].
  unfold delivers, raw_env, zoom, st_bind, st_ret, set_field, Marshal_NullMarshal. cbn. by destruct (callback _) as [a []].
Qed.
Definition small_config : raw_config small_tcp := mkRawConfig None None (fun _ => st_ret tt).
Definition a_small_tcp (script : list small_step) : raw_world small_tcp :=
  mkRawWorld (SolidSyslogLwipRawTcpStream_Initialise small_lwip_codes small_config) [] (mkSmallTcp script initial_slots) [].
(** A connection that takes a record and gives an answer in two reads, and then the end. *)
Abbreviation small_session := ((
  let! opened := LwipRawTcpStream_Open small_lwip_codes KeepaliveAll Marshal_NullMarshal 5 in
  let! sent := LwipRawTcpStream_Send small_lwip_codes Marshal_NullMarshal (str "record") 6 in
  let! r1 := LwipRawTcpStream_Read small_lwip_codes Marshal_NullMarshal (str "..") 2 in
  let! r2 := LwipRawTcpStream_Read small_lwip_codes Marshal_NullMarshal (str "..") 2 in
  let! r3 := LwipRawTcpStream_Read small_lwip_codes Marshal_NullMarshal (str "..") 2 in
  st_ret (opened, sent, r1, r2, r3)) (a_small_tcp [Idle; Idle; Idle; Accepts; Hears; Idle; Idle; Idle; Ends])).

(** What the contract does not promise.  A Send after the peer closed its end answers
    false and leaves the control block held; and the bytes of a connection that was lost
    before they were read are the first that are read of the next one, when nobody
    closed the stream in between. *)
Abbreviation open_small := (LwipRawTcpStream_Open small_lwip_codes KeepaliveIdleOnly Marshal_NullMarshal 5).
Abbreviation send_small data := (LwipRawTcpStream_Send small_lwip_codes Marshal_NullMarshal (str data) (strlen (str data))).
Abbreviation read_small := (LwipRawTcpStream_Read small_lwip_codes Marshal_NullMarshal (str "...") 3).
Lemma peer_closed_send_keeps_pcb :
  let run := (open_small ;;; send_small "record"%string) (a_small_tcp [Idle; Accepts; Idle; Ends]) in
  fst run = false /\ rt_Pcb (rw_Self (snd run)) = 7.
Proof. by vm_compute. Qed.
Lemma lost_bytes_survive_reopen :
  let run := (open_small ;;; let! sent := send_small "record"%string in let! opened := open_small in let! r := read_small in st_ret (sent, opened, r))
    (a_small_tcp [Idle; Accepts; Hears; Drops; Idle; Idle; Accepts; Idle; Idle; Idle]) in
  fst run = (false, true, (3, str "ack")).
Proof. by vm_compute. Qed.
