(* ===== verification/PlusTcpStream.v ===== *)
(** The TCP stream over FreeRTOS-Plus-TCP
    ([src/Platform/PlusTcp/Source/SolidSyslogPlusTcpTcpStream.c]).  It connects with a
    bounded wait and clears both of the socket's timeouts behind it, so that no Send and
    no Read waits.  The stack is the class [PlusSockets], with no assumption on what it
    answers but the length of a receive; a monitor of the trace, [observe_plus], says how
    its calls may come. *)
From S2P Require Import Prelude Errors PendingEvents Interfaces Transport StreamContract TcpStreams.
#[local] Open Scope Z_scope.

(** * The stack *)

Class PlusSockets (E : Type) := {
  ps_socket : ST E Z;
  ps_closesocket : Z -> ST E Z;
  (** socket, option, ticks *)
  ps_setsockopt : Z -> Z -> Z -> ST E Z;
  ps_connect : Z -> SolidSyslogAddress -> ST E Z;
  ps_send : Z -> bytes -> Z -> Z -> ST E Z;
  (** socket, memory, length, flags; gives the memory back as it is left *)
  ps_recv : Z -> bytes -> Z -> Z -> ST E (Z * bytes);
  ps_xIsIPInARPCache : Z -> ST E Z;
  ps_OutputARPRequest : Z -> ST E unit;
  ps_vTaskDelay : Z -> ST E unit;
  (** [sin_address.ulIP_IPv4] of an address *)
  ps_ulIP_IPv4 : SolidSyslogAddress -> E -> Z
}.
(** The numbers of the stack's headers, and the kernel's macro. *)
Record plus_tcp_codes := mkPlusTcpCodes {
  FREERTOS_INVALID_SOCKET : Z; FREERTOS_SO_SNDTIMEO : Z; FREERTOS_SO_RCVTIMEO : Z;
  pdFREERTOS_ERRNO_ETIMEDOUT : Z; pdFREERTOS_ERRNO_ENOTCONN : Z;
  pdMS_TO_TICKS : Z -> Z
}.
Definition SEND_RECV_FLAGS_DEFAULT : Z := 0.
Definition pdFALSE : Z := 0.

(** * A stream in its environment *)

Section plus_world.
Context {E : Type}.

Record plus_stream := mkPlusStream {
  pt_Base : stream_vtable;
  pt_GetConnectTimeoutMs : @SolidSyslogTcpConnectTimeoutFunction E;
  pt_ConnectTimeoutContext : option Z;
  pt_Socket : Z;
  pt_OpenHealth : SolidSyslogStreamOpenHealth
}.
#[export] Instance settable_plus_stream : Settable plus_stream := fun s =>
  mkPlusStream (pt_Base s) (pt_GetConnectTimeoutMs s) (pt_ConnectTimeoutContext s) (pt_Socket s) (pt_OpenHealth s).

(** Each call of the stack with what it answered, each report, and the moment a
    connection counts as made. *)
Inductive plus_event :=
| PlusTaken (socket : Z)
| ArpAsked (ip : Z)
| ArpProbed (ip : Z)
| PlusDelayed (ticks : Z)
| TimeoutSet (socket option ticks : Z)
| PlusConnect (socket result : Z)
| PlusEstablished
| PlusSent (socket : Z) (data : bytes) (sent : Z)
| PlusReceived (socket : Z)
| PlusClosed (socket : Z)
| PlusReported (event : SolidSyslogErrorEvent).

Record plus_world := mkPlusWorld { pw_Self : plus_stream; pw_Env : E; pw_Trace : list plus_event }.
#[export] Instance settable_plus_world : Settable plus_world := fun w => mkPlusWorld (pw_Self w) (pw_Env w) (pw_Trace w).
Definition plus_op (A : Type) : Type := ST plus_world A.

Definition plus_get {A} (f : plus_stream -> A) : plus_op A := st_get (fun w => f (pw_Self w)).
Definition plus_put (f : plus_stream -> plus_stream) : plus_op unit := st_mod (fun w => w <| pw_Self := f (pw_Self w) |>).
Definition plus_happens (e : plus_event) : plus_op unit := st_mod (fun w => w <| pw_Trace := pw_Trace w ++ [e] |>).
Definition plus_env {A} (m : ST E A) : plus_op A := zoom pw_Env (fun e w => w <| pw_Env := e |>) m.
Definition plus_call {A} (m : ST E A) (said : A -> plus_event) : plus_op A :=
  let! a := plus_env m in
  plus_happens (said a) ;;;
  st_ret a.
End plus_world.
Arguments plus_stream : clear implicits.
Arguments plus_world : clear implicits.

(** Around the stream, others report too. *)
#[export] Instance plus_world_tap {E} `{ErrorTap E} : ErrorTap (plus_world E) := {
  tap_Handler := fun event w => w <| pw_Env := tap_Handler event (pw_Env w) |>;
  tap_Slots := fun w => tap_Slots (pw_Env w);
  tap_SetSlots := fun slots w => w <| pw_Env := tap_SetSlots slots (pw_Env w) |>
}.

Section plus_tcp.
Context {E : Type} `{ErrorTap E} `{PlusSockets E} (codes : plus_tcp_codes).
Abbreviation op := (@plus_op E).

(** ** Reports *)

Definition PlusTcpTcpStream_Report (severity category code : Z) : op unit :=
  plus_env (st_mod (tap_error severity (Some SolidSyslogPlusTcpTcpStreamErrorSource) category code)) ;;;
  plus_happens (PlusReported (mkErrorEvent severity category false (Some SolidSyslogPlusTcpTcpStreamErrorSource) code 0)).
Definition plus_health_report (detail : Z) (m : SolidSyslogStreamOpenHealth -> ST E SolidSyslogStreamOpenHealth) (event : SolidSyslogErrorEvent) : op unit :=
  let! health := plus_get pt_OpenHealth in
  let! after := plus_env (m health) in
  plus_put (fun self => self <| pt_OpenHealth := after |>) ;;;
  if! fst (StreamOpenHealth_Admit health detail) then plus_happens (PlusReported event) end!.
Definition PlusTcpTcpStream_ReportConnectFailure (severity detail : Z) : op unit :=
  plus_health_report detail
    (fun health => SolidSyslogStreamOpenHealth_ReportFailure health (Some SolidSyslogPlusTcpTcpStreamErrorSource) severity SOLIDSYSLOG_CAT_STREAM_CONNECT_FAILED detail)
    (mkErrorEvent severity SOLIDSYSLOG_CAT_STREAM_CONNECT_FAILED false (Some SolidSyslogPlusTcpTcpStreamErrorSource) detail 0).
Definition PlusTcpTcpStream_ReportConnectFailureWithCode (severity detail connectResult : Z) : op unit :=
  plus_health_report detail
    (fun health => SolidSyslogStreamOpenHealth_ReportFailureWithNativeCode health (Some SolidSyslogPlusTcpTcpStreamErrorSource) severity SOLIDSYSLOG_CAT_STREAM_CONNECT_FAILED detail connectResult)
    (mkErrorEvent severity SOLIDSYSLOG_CAT_STREAM_CONNECT_FAILED true (Some SolidSyslogPlusTcpTcpStreamErrorSource) detail connectResult).
Definition PlusTcpTcpStream_ReportFailedAttempt (connectResult : Z) : op unit :=
  if connectResult =? - pdFREERTOS_ERRNO_ETIMEDOUT codes then
    PlusTcpTcpStream_ReportConnectFailureWithCode SOLIDSYSLOG_STREAM_CONNECT_REMOTE_SEVERITY SOLIDSYSLOG_TCP_STREAM_ERROR_CONNECT_TIMED_OUT connectResult
  else if connectResult =? - pdFREERTOS_ERRNO_ENOTCONN codes then
    PlusTcpTcpStream_ReportConnectFailureWithCode SOLIDSYSLOG_STREAM_CONNECT_REMOTE_SEVERITY SOLIDSYSLOG_TCP_STREAM_ERROR_CONNECT_REFUSED connectResult
  else
    PlusTcpTcpStream_ReportConnectFailureWithCode SOLIDSYSLOG_STREAM_CONNECT_LOCAL_SEVERITY SOLIDSYSLOG_TCP_STREAM_ERROR_CONNECT_NOT_STARTED connectResult.

(** ** What a stream starts as *)

Definition PlusTcpTcpStream_NullConnectTimeoutGetter : @SolidSyslogTcpConnectTimeoutFunction E := fun _ => st_ret SOLIDSYSLOG_TCP_CONNECT_TIMEOUT_MS.
Definition PlusTcpTcpStream_ConfigProvidesGetter (config : option (tcp_config E)) : bool :=
  match config with
  | None => false
  | Some config => match tc_GetConnectTimeoutMs config with None => false | Some _ => true end
  end.
Definition SolidSyslogPlusTcpTcpStream_Initialise (config : option (tcp_config E)) : plus_stream E :=
  let self := mkPlusStream OwnStreamVtable PlusTcpTcpStream_NullConnectTimeoutGetter None (FREERTOS_INVALID_SOCKET codes) (mkStreamOpenHealth false 0) in
  match config with
  | None => self
  | Some config =>
      match tc_GetConnectTimeoutMs config with
      | None => self
      | Some getter => self <| pt_GetConnectTimeoutMs := getter |> <| pt_ConnectTimeoutContext := tc_ConnectTimeoutContext config |>
      end
  end.

(** ** Open *)

Definition PlusTcpTcpStream_IsOpen (self : plus_stream E) : bool := negb (pt_Socket self =? FREERTOS_INVALID_SOCKET codes).
Definition PlusTcpTcpStream_CloseSocket : op unit :=
  let! open := plus_get PlusTcpTcpStream_IsOpen in
  if! open : bool then
    let! socket := plus_get pt_Socket in
    plus_call (ps_closesocket socket) (fun _ => PlusClosed socket) ;;;
    plus_put (fun self => self <| pt_Socket := FREERTOS_INVALID_SOCKET codes |>)
  end!.
Definition PlusTcpTcpStream_OpenSocket : op unit :=
  let! socket := plus_call ps_socket PlusTaken in
  plus_put (fun self => self <| pt_Socket := socket |>).
Definition PlusTcpTcpStream_ResolveConnectTimeoutMs : op Z :=
  let! self := plus_get (fun self => self) in
  let! ms := plus_env (pt_GetConnectTimeoutMs self (pt_ConnectTimeoutContext self)) in
  st_ret (if SOLIDSYSLOG_TCP_CONNECT_TIMEOUT_MS_MAX <? u32 ms then SOLIDSYSLOG_TCP_CONNECT_TIMEOUT_MS_MAX else u32 ms).
Definition PlusTcpTcpStream_PrimeArpIfMissing (ip : Z) : op unit :=
  let! cached := plus_call (ps_xIsIPInARPCache ip) (fun _ => ArpAsked ip) in
  if! cached =? pdFALSE then
    plus_call (ps_OutputARPRequest ip) (fun _ => ArpProbed ip) ;;;
    plus_call (ps_vTaskDelay (pdMS_TO_TICKS codes 50)) (fun _ => PlusDelayed (pdMS_TO_TICKS codes 50))
  end!.
Definition set_timeout (socket option ticks : Z) : op unit :=
  plus_call (ps_setsockopt socket option ticks) (fun _ => TimeoutSet socket option ticks) ;;;
  st_ret tt.
Definition PlusTcpTcpStream_SetSendTimeout (socket ticks : Z) : op unit := set_timeout socket (FREERTOS_SO_SNDTIMEO codes) ticks.
Definition PlusTcpTcpStream_SetRecvTimeout (socket ticks : Z) : op unit := set_timeout socket (FREERTOS_SO_RCVTIMEO codes) ticks.
Definition PlusTcpTcpStream_ClearTimeouts (socket : Z) : op unit :=
  PlusTcpTcpStream_SetSendTimeout socket 0 ;;;
  PlusTcpTcpStream_SetRecvTimeout socket 0.
Definition PlusTcpTcpStream_TryConnect (addr : SolidSyslogAddress) : op Z :=
  let! ms := PlusTcpTcpStream_ResolveConnectTimeoutMs in
  let connectTimeoutTicks := pdMS_TO_TICKS codes ms in
  let! ip := plus_env (st_get (ps_ulIP_IPv4 addr)) in
  PlusTcpTcpStream_PrimeArpIfMissing ip ;;;
  let! socket := plus_get pt_Socket in
  PlusTcpTcpStream_SetSendTimeout socket connectTimeoutTicks ;;;
  PlusTcpTcpStream_SetRecvTimeout socket connectTimeoutTicks ;;;
  plus_call (ps_connect socket addr) (PlusConnect socket).
Definition PlusTcpTcpStream_ConnectOrCloseOnFailure (addr : SolidSyslogAddress) : op unit :=
  let! connectResult := PlusTcpTcpStream_TryConnect addr in
  if connectResult =? 0 then
    let! socket := plus_get pt_Socket in
    PlusTcpTcpStream_ClearTimeouts socket
  else
    PlusTcpTcpStream_ReportFailedAttempt connectResult ;;;
    PlusTcpTcpStream_CloseSocket.
Definition PlusTcpTcpStream_Open (addr : SolidSyslogAddress) : op bool :=
  let! open := plus_get PlusTcpTcpStream_IsOpen in
  if open : bool then
    PlusTcpTcpStream_Report SOLIDSYSLOG_BAD_ARGUMENT_SEVERITY SOLIDSYSLOG_CAT_BAD_ARGUMENT SOLIDSYSLOG_TCP_STREAM_ERROR_ALREADY_OPEN ;;;
    st_ret false
  else
    PlusTcpTcpStream_OpenSocket ;;;
    let! taken := plus_get PlusTcpTcpStream_IsOpen in
    (if taken : bool then PlusTcpTcpStream_ConnectOrCloseOnFailure addr
     else PlusTcpTcpStream_ReportConnectFailure SOLIDSYSLOG_STREAM_CONNECT_LOCAL_SEVERITY SOLIDSYSLOG_TCP_STREAM_ERROR_ENDPOINT_UNAVAILABLE) ;;;
    let! opened := plus_get PlusTcpTcpStream_IsOpen in
    if! opened : bool then
      plus_put (fun self => self <| pt_OpenHealth := SolidSyslogStreamOpenHealth_Opened (pt_OpenHealth self) |>) ;;;
      plus_happens PlusEstablished
    end! ;;;
    st_ret opened.

(** ** Send, Read and Close *)

Definition PlusTcpTcpStream_AllBytesSent (sentCount expected : Z) : bool := (0 <=? sentCount) && (sentCount =? expected).
Definition PlusTcpTcpStream_TrySend (buffer : bytes) (size : Z) : op bool :=
  let! socket := plus_get pt_Socket in
  let! sentCount := plus_call (ps_send socket (takeZ size buffer) size SEND_RECV_FLAGS_DEFAULT) (PlusSent socket (takeZ size buffer)) in
  st_ret (PlusTcpTcpStream_AllBytesSent sentCount size).
Definition PlusTcpTcpStream_SendOrCloseOnFailure (buffer : bytes) (size : Z) : op bool :=
  let! sent := PlusTcpTcpStream_TrySend buffer size in
  if! negb sent then PlusTcpTcpStream_CloseSocket end! ;;;
  st_ret sent.
Definition PlusTcpTcpStream_Send (buffer : bytes) (size : Z) : op bool :=
  let! open := plus_get PlusTcpTcpStream_IsOpen in
  if open : bool then PlusTcpTcpStream_SendOrCloseOnFailure buffer size else st_ret false.
Definition PlusTcpTcpStream_ReceiveOrCloseOnFailure (buffer : bytes) (size : Z) : op (Z * bytes) :=
  let! socket := plus_get pt_Socket in
  let! answer := plus_call (ps_recv socket buffer size SEND_RECV_FLAGS_DEFAULT) (fun _ => PlusReceived socket) in
  let '(receivedCount, memory) := answer in
  if 0 <=? receivedCount then st_ret (receivedCount, memory)
  else
    PlusTcpTcpStream_CloseSocket ;;;
    st_ret (-1, memory).
Definition PlusTcpTcpStream_Read (buffer : bytes) (size : Z) : op (Z * bytes) :=
  let! open := plus_get PlusTcpTcpStream_IsOpen in
  if open : bool then PlusTcpTcpStream_ReceiveOrCloseOnFailure buffer size else st_ret (-1, buffer).
Definition PlusTcpTcpStream_Close : op unit := PlusTcpTcpStream_CloseSocket.
Definition PlusTcpTcpStream_Version : op Z := st_ret 0.
Definition SolidSyslogPlusTcpTcpStream_Cleanup : op unit :=
  PlusTcpTcpStream_CloseSocket ;;;
  plus_put (fun self => self <| pt_Base := NullStreamVtable |>).

(** Dispatch through the vtable. *)
Definition PlusTcpTcpStream_vtable : SolidSyslogStream (plus_world E) :=
  let own {A} (m null : op A) : op A :=
    let! base := plus_get pt_Base in match base with OwnStreamVtable => m | NullStreamVtable => null end in {|
  SolidSyslogStream_Open := fun addr => own (PlusTcpTcpStream_Open addr) (NullStream_Open addr);
  SolidSyslogStream_Send := fun buffer size => own (PlusTcpTcpStream_Send buffer size) (NullStream_Send buffer size);
  SolidSyslogStream_Read := fun buffer size => own (PlusTcpTcpStream_Read buffer size) (NullStream_Read buffer size);
  SolidSyslogStream_Close := own PlusTcpTcpStream_Close NullStream_Close;
  SolidSyslogStream_Version := own PlusTcpTcpStream_Version NullStream_Version
|}.
End plus_tcp.

(** * What a trace must be *)

(** A socket that is held: its timeouts in ticks, once they are set, and whether it is a
    connection. *)
Record plus_held := mkPlusHeld { pk_Socket : Z; pk_Snd : option Z; pk_Rcv : option Z; pk_Live : bool }.
#[export] Instance settable_plus_held : Settable plus_held := fun h => mkPlusHeld (pk_Socket h) (pk_Snd h) (pk_Rcv h) (pk_Live h).
Record plus_seen := mkPlusSeen { ps_Held : option plus_held; ps_Reports : list SolidSyslogErrorEvent; ps_Wires : list bytes }.
#[export] Instance settable_plus_seen : Settable plus_seen := fun s => mkPlusSeen (ps_Held s) (ps_Reports s) (ps_Wires s).
Definition no_calls : plus_seen := mkPlusSeen None [] [].

Section observer.
Context (codes : plus_tcp_codes).
(** A wait that is bounded by [SOLIDSYSLOG_TCP_CONNECT_TIMEOUT_MS_MAX]. *)
Definition bounded_ticks (timeout : option Z) : bool :=
  match timeout with Some ticks => (0 <=? ticks) && (ticks <=? pdMS_TO_TICKS codes SOLIDSYSLOG_TCP_CONNECT_TIMEOUT_MS_MAX) | None => false end.
Definition returns_at_once (timeout : option Z) : bool := bool_decide (timeout = Some 0).
Definition of_held (s : plus_seen) (socket : Z) (k : plus_held -> option plus_seen) : option plus_seen :=
  match ps_Held s with Some h => if socket =? pk_Socket h then k h else None | None => None end.
(** The protocol of the stack, as a monitor of the trace.  A socket is taken only when
    none is held and closed only while it is held; every call names the one that is held;
    a connect has a bound both ways; data goes and comes only on a connection, and where
    the socket does not wait.  Besides, what was reported and what each connection took. *)
Definition observe_plus (s : plus_seen) (e : plus_event) : option plus_seen :=
  match e with
  | PlusTaken socket =>
      if bool_decide (ps_Held s = None)
      then Some (if socket =? FREERTOS_INVALID_SOCKET codes then s else s <| ps_Held := Some (mkPlusHeld socket None None false) |>) else None
  | ArpAsked _ | ArpProbed _ | PlusDelayed _ => Some s
  | TimeoutSet socket option ticks =>
      of_held s socket (fun h =>
        if option =? FREERTOS_SO_SNDTIMEO codes then Some (s <| ps_Held := Some (h <| pk_Snd := Some ticks |>) |>)
        else if option =? FREERTOS_SO_RCVTIMEO codes then Some (s <| ps_Held := Some (h <| pk_Rcv := Some ticks |>) |>)
        else None)
  | PlusConnect socket _ => of_held s socket (fun h => if bounded_ticks (pk_Snd h) && bounded_ticks (pk_Rcv h) && negb (pk_Live h) then Some s else None)
  | PlusEstablished =>
      match ps_Held s with
      | Some h => if pk_Live h then None else Some (s <| ps_Held := Some (h <| pk_Live := true |>) |> <| ps_Wires := ps_Wires s ++ [[]] |>)
      | None => None
      end
  | PlusSent socket data sent =>
      of_held s socket (fun h => if returns_at_once (pk_Snd h) && pk_Live h then Some (s <| ps_Wires := extend_last (ps_Wires s) (takeZ sent data) |>) else None)
  | PlusReceived socket => of_held s socket (fun h => if returns_at_once (pk_Rcv h) && pk_Live h then Some s else None)
  | PlusClosed socket => of_held s socket (fun h => Some (s <| ps_Held := None |>))
  | PlusReported event => Some (s <| ps_Reports := ps_Reports s ++ [event] |>)
  end.
Definition plus_observed (es : list plus_event) : option plus_seen :=
  fold_left (fun s e => match s with Some s => observe_plus s e | None => None end) es (Some no_calls).
Lemma plus_observed_snoc es e : plus_observed (es ++ [e]) = match plus_observed es with Some s => observe_plus s e | None => None end.
Proof. unfold plus_observed. by rewrite fold_left_app. Qed.

(** A stream agrees with what is seen: what it holds is a connection on which no call
    waits. *)
Definition plus_agrees {E} (self : plus_stream E) (s : plus_seen) : Prop :=
  match ps_Held s with
  | None => pt_Socket self = FREERTOS_INVALID_SOCKET codes
  | Some h => h = mkPlusHeld (pt_Socket self) (Some 0) (Some 0) true /\ pt_Socket self <> FREERTOS_INVALID_SOCKET codes /\
      exists before conn, ps_Wires s = before ++ [conn]
  end.
Definition plus_ok {E} (w : plus_world E) : Prop :=
  pt_Base (pw_Self w) = OwnStreamVtable /\ exists s, plus_observed (pw_Trace w) = Some s /\ plus_agrees (pw_Self w) s.
(** The world as the contract sees it. *)
Definition plus_seen_of {E} (w : plus_world E) : plus_seen := default no_calls (plus_observed (pw_Trace w)).
Definition plus_view {E} (self : plus_stream E) (s : plus_seen) : stream_state :=
  mkStreamState (PlusTcpTcpStream_IsOpen codes self) (latch_of (pt_OpenHealth self)) (ps_Wires s).
Definition plus_state {E} (w : plus_world E) : stream_state := plus_view (pw_Self w) (plus_seen_of w).
Definition plus_reports {E} (w : plus_world E) : list SolidSyslogErrorEvent := ps_Reports (plus_seen_of w).
End observer.
Definition plus_kind : stream_kind := tcp_kind SolidSyslogPlusTcpTcpStreamErrorSource.

(** What is relied on: a receive answers no more than it was asked for, the two options
    are two, and more time is not fewer ticks. *)
Record plus_sockets_ok {E} `{PlusSockets E} (codes : plus_tcp_codes) : Prop := {
  plus_recv_answers : forall socket memory len flags e, 0 <= len -> fst (fst (ps_recv socket memory len flags e)) <= len;
  plus_options : FREERTOS_SO_SNDTIMEO codes <> FREERTOS_SO_RCVTIMEO codes;
  plus_ticks : forall ms, 0 <= ms <= SOLIDSYSLOG_TCP_CONNECT_TIMEOUT_MS_MAX ->
    0 <= pdMS_TO_TICKS codes ms <= pdMS_TO_TICKS codes SOLIDSYSLOG_TCP_CONNECT_TIMEOUT_MS_MAX
}.

(** * Running an operation in what is seen *)

Section leads.
Context {E : Type} `{HT : ErrorTap E} `{HS : PlusSockets E} (codes : plus_tcp_codes).
Abbreviation op := (@plus_op E).
Implicit Types (w : plus_world E) (self : plus_stream E) (s : plus_seen).

Definition plus_stands self s w : Prop := pw_Self w = self /\ plus_observed codes (pw_Trace w) = Some s.
Definition plus_leads {A} (m : op A) self s (Q : A -> plus_stream E -> plus_seen -> Prop) : Prop :=
  forall w, plus_stands self s w -> wp m (fun a w' => exists self' s', plus_stands self' s' w' /\ Q a self' s') w.

Lemma pleads_bind {A B} (m : op A) (k : A -> op B) self s Q :
  plus_leads m self s (fun a self' s' => plus_leads (k a) self' s' Q) -> plus_leads (let! a := m in k a) self s Q.
Proof using. intros Hm w Hw. apply wp_bind. eapply wp_mono; [by apply Hm |]. intros a w' (self' & s' & Hw' & Hk). by apply Hk. Qed.
Lemma pleads_ret {A} (a : A) self s (Q : A -> plus_stream E -> plus_seen -> Prop) : Q a self s -> plus_leads (st_ret a) self s Q.
Proof using. intros HQ w Hw. apply wp_ret. eauto. Qed.
Lemma pleads_mono {A} (m : op A) self s (Q Q' : A -> plus_stream E -> plus_seen -> Prop) :
  plus_leads m self s Q -> (forall a self' s', Q a self' s' -> Q' a self' s') -> plus_leads m self s Q'.
Proof using. intros Hm HQ w Hw. eapply wp_mono; [by apply Hm |]. intros a w' (self' & s' & Hw' & Ha). eauto 6. Qed.
Lemma pleads_get {A} (f : plus_stream E -> A) self s Q : Q (f self) self s -> plus_leads (plus_get f) self s Q.
Proof using. intros HQ w Hw. apply wp_get. destruct Hw as [<- Hs]. exists (pw_Self w), s. by split. Qed.
Lemma pleads_put (f : plus_stream E -> plus_stream E) self s (Q : unit -> plus_stream E -> plus_seen -> Prop) :
  Q tt (f self) s -> plus_leads (plus_put f) self s Q.
Proof using. intros HQ w [<- Hs]. apply wp_mod. exists (f (pw_Self w)), s. by split. Qed.
Lemma pleads_env {A} (m : ST E A) (P : A -> Prop) self s (Q : A -> plus_stream E -> plus_seen -> Prop) :
  (forall e, P (fst (m e))) -> (forall a, P a -> Q a self s) -> plus_leads (plus_env m) self s Q.
Proof using.
  intros HP HQ w Hw. apply wp_zoom. unfold wp. exists self, s. split; [by destruct Hw; split | apply HQ, HP].
Qed.
Lemma pleads_happens e self s s' (Q : unit -> plus_stream E -> plus_seen -> Prop) :
  observe_plus codes s e = Some s' -> Q tt self s' -> plus_leads (plus_happens e) self s Q.
Proof using.
  intros Ho HQ w [<- Hs]. apply wp_mod. exists (pw_Self w), s'. split; [| done]. split; [done |].
  change (plus_observed codes (pw_Trace w ++ [e]) = Some s'). by rewrite plus_observed_snoc, Hs.
Qed.
Lemma pleads_call {A} (m : ST E A) (said : A -> plus_event) (P : A -> Prop) self s (Q : A -> plus_stream E -> plus_seen -> Prop) :
  (forall e, P (fst (m e))) -> (forall a, P a -> exists s', observe_plus codes s (said a) = Some s' /\ Q a self s') ->
  plus_leads (plus_call m said) self s Q.
Proof using.
  intros HP HQ. apply pleads_bind, (pleads_env m P); [done |]. intros a Ha. destruct (HQ a Ha) as (s' & Ho & Hq).
  apply pleads_bind. by eapply pleads_happens, pleads_ret.
Qed.
Lemma pleads_any_call {A} (m : ST E A) (said : A -> plus_event) self s (Q : A -> plus_stream E -> plus_seen -> Prop) :
  (forall a, exists s', observe_plus codes s (said a) = Some s' /\ Q a self s') -> plus_leads (plus_call m said) self s Q.
Proof using. intros HQ. by apply (pleads_call m said (fun _ => True)). Qed.
End leads.

Ltac plead_step :=
  lazymatch goal with
  | |- plus_leads _ (st_bind _ _) _ _ _ => apply pleads_bind
  | |- plus_leads _ (st_ret _) _ _ _ => apply pleads_ret
  | |- plus_leads _ (plus_get _) _ _ _ => apply pleads_get
  | |- plus_leads _ (plus_put _) _ _ _ => apply pleads_put
  end.
Ltac pleads_on := cbv beta iota; repeat (plead_step; cbv beta iota).
Ltac plus_cbn := cbn [set_field pt_Base pt_GetConnectTimeoutMs pt_ConnectTimeoutContext pt_Socket pt_OpenHealth pk_Socket pk_Snd pk_Rcv pk_Live ps_Held ps_Reports ps_Wires
  st_Open st_Latch st_Wires] in *.

(** * The contract *)

Section contract.
Context {E : Type} `{HT : ErrorTap E} `{HS : PlusSockets E} (codes : plus_tcp_codes) (SO : plus_sockets_ok codes).
Abbreviation op := (@plus_op E).
Abbreviation leads := (plus_leads codes).
Implicit Types (self : plus_stream E) (s : plus_seen).

Lemma IsOpen_held self s : plus_agrees codes self s -> PlusTcpTcpStream_IsOpen codes self = bool_decide (is_Some (ps_Held s)).
Proof using.
  unfold plus_agrees, PlusTcpTcpStream_IsOpen. destruct (ps_Held s); [intros (_ & Hn & _); by apply Z.eqb_neq in Hn as -> | intros ->; by rewrite Z.eqb_refl].
Qed.

(** The step of the contract a stream and its view make. *)
Definition plus_contracted self s (step : stream_state -> list SolidSyslogErrorEvent -> stream_state -> Prop) self' s' : Prop :=
  pt_Base self' = pt_Base self /\ plus_agrees codes self' s' /\
  exists rs, step (plus_view codes self s) rs (plus_view codes self' s') /\ ps_Reports s' = ps_Reports s ++ rs.

(** What is held, a connection or not yet, is closed. *)
Definition names_held self s : Prop :=
  match ps_Held s with None => pt_Socket self = FREERTOS_INVALID_SOCKET codes | Some h => pk_Socket h = pt_Socket self /\ pt_Socket self <> FREERTOS_INVALID_SOCKET codes end.
Lemma agrees_names self s : plus_agrees codes self s -> names_held self s.
Proof using. unfold plus_agrees, names_held. destruct (ps_Held s); [by intros (-> & ? & _) | done]. Qed.
Lemma CloseSocket_held self s : names_held self s ->
  leads (PlusTcpTcpStream_CloseSocket codes) self s (fun _ self' s' => self' = self <| pt_Socket := FREERTOS_INVALID_SOCKET codes |> /\ s' = s <| ps_Held := None |>).
Proof using.
  intros Hn. unfold PlusTcpTcpStream_CloseSocket. pleads_on. unfold PlusTcpTcpStream_IsOpen, names_held in *. destruct (ps_Held s) as [h|] eqn:Eh.
  - destruct Hn as [Hs Hn]. rewrite (proj2 (Z.eqb_neq _ _) Hn). cbn [negb]. pleads_on. apply pleads_any_call. intros _.
    unfold observe_plus, of_held. rewrite Eh, Hs, Z.eqb_refl. eexists. split; [done |]. by pleads_on.
  - rewrite Hn, Z.eqb_refl. cbn [negb]. pleads_on. destruct self, s. plus_cbn. by subst.
Qed.
Lemma CloseSocket_contracted self s :
  plus_agrees codes self s -> leads (PlusTcpTcpStream_CloseSocket codes) self s (fun _ self' s' => pt_Base self' = pt_Base self /\ plus_agrees codes self' s' /\
    plus_view codes self' s' = (plus_view codes self s) <| st_Open := false |> /\ ps_Reports s' = ps_Reports s /\ ps_Held s' = None).
Proof using.
  intros Ha. eapply pleads_mono; [by apply CloseSocket_held, agrees_names |]. intros [] self' s' [-> ->]. split; [done |]. split; [done |].
  split; [| done]. unfold plus_view, PlusTcpTcpStream_IsOpen. plus_cbn. by rewrite Z.eqb_refl.
Qed.

(** ** Open *)

Lemma plus_health_leads detail m event self s (Q : unit -> plus_stream E -> plus_seen -> Prop) :
  (forall h e, fst (m h e) = latched h detail) ->
  Q tt (self <| pt_OpenHealth := latched (pt_OpenHealth self) detail |>)
    (s <| ps_Reports := ps_Reports s ++ if bool_decide (latch_of (pt_OpenHealth self) = Some detail) then [] else [event] |>) ->
  leads (plus_health_report detail m event) self s Q.
Proof using.
  intros Hm HQ. apply pleads_bind, pleads_get, pleads_bind, (pleads_env codes _ (fun after => after = latched (pt_OpenHealth self) detail)); [intros e; apply Hm |].
  intros _ ->. apply pleads_bind, pleads_put. rewrite Admit_news. case_bool_decide; cbn [negb].
  - apply pleads_ret. rewrite app_nil_r in HQ. by destruct s.
  - by eapply pleads_happens.
Qed.
(** An attempt that has failed: some fault of a connect, once. *)
Definition faults self s (Q : unit -> plus_stream E -> plus_seen -> Prop) : Prop :=
  forall severity hasNative detail native,
    Q tt (self <| pt_OpenHealth := latched (pt_OpenHealth self) detail |>)
      (s <| ps_Reports := ps_Reports s ++ if bool_decide (latch_of (pt_OpenHealth self) = Some detail) then []
        else [mkErrorEvent severity SOLIDSYSLOG_CAT_STREAM_CONNECT_FAILED hasNative (Some SolidSyslogPlusTcpTcpStreamErrorSource) detail native] |>).
Lemma plus_failure_leads severity detail self s Q : faults self s Q -> leads (PlusTcpTcpStream_ReportConnectFailure severity detail) self s Q.
Proof using. intros HQ. apply plus_health_leads; [intros h e; exact (proj1 (ReportFailure_latches h _ _ _ detail 0 e)) | apply HQ]. Qed.
Lemma plus_failure_code_leads severity detail result self s Q : faults self s Q -> leads (PlusTcpTcpStream_ReportConnectFailureWithCode severity detail result) self s Q.
Proof using. intros HQ. apply plus_health_leads; [intros h e; exact (proj2 (ReportFailure_latches h _ _ _ detail result e)) | apply HQ]. Qed.
Lemma plus_attempt_leads result self s Q : faults self s Q -> leads (PlusTcpTcpStream_ReportFailedAttempt codes result) self s Q.
Proof using.
  intros HQ. unfold PlusTcpTcpStream_ReportFailedAttempt. destruct (_ =? _); [by apply plus_failure_code_leads |]. destruct (_ =? _); by apply plus_failure_code_leads.
Qed.

Lemma set_timeout_leads option ticks h h' self s (Q : unit -> plus_stream E -> plus_seen -> Prop) : ps_Held s = Some h -> pk_Socket h = pt_Socket self ->
  observe_plus codes s (TimeoutSet (pt_Socket self) option ticks) = Some (s <| ps_Held := Some h' |>) ->
  Q tt self (s <| ps_Held := Some h' |>) -> leads (set_timeout (pt_Socket self) option ticks) self s Q.
Proof using. intros Hh Hs Ho HQ. unfold set_timeout. pleads_on. apply pleads_any_call. intros _. eexists. split; [exact Ho |]. by pleads_on. Qed.
(** Both timeouts, and then what follows. *)
Lemma set_timeouts_leads ticks h self s (Q : unit -> plus_stream E -> plus_seen -> Prop) : ps_Held s = Some h -> pk_Socket h = pt_Socket self ->
  Q tt self (s <| ps_Held := Some (h <| pk_Snd := Some ticks |> <| pk_Rcv := Some ticks |>) |>) ->
  leads (PlusTcpTcpStream_SetSendTimeout codes (pt_Socket self) ticks) self s (fun _ self1 s1 => leads (PlusTcpTcpStream_SetRecvTimeout codes (pt_Socket self) ticks) self1 s1 Q).
Proof using SO.
  intros Hh Hs HQ. apply (set_timeout_leads _ _ h (h <| pk_Snd := Some ticks |>)); [done | done | |].
  { unfold observe_plus, of_held. by rewrite Hh, Hs, !Z.eqb_refl. }
  apply (set_timeout_leads _ _ (h <| pk_Snd := Some ticks |>) (h <| pk_Snd := Some ticks |> <| pk_Rcv := Some ticks |>)); [done | done | | done].
  unfold observe_plus, of_held. plus_cbn. rewrite Hs, !Z.eqb_refl.
  by rewrite (proj2 (Z.eqb_neq (FREERTOS_SO_RCVTIMEO codes) _)) by (pose proof (plus_options codes SO); congruence).
Qed.
Lemma TryConnect_leads addr h self s (Q : Z -> plus_stream E -> plus_seen -> Prop) : ps_Held s = Some h -> pk_Socket h = pt_Socket self -> pk_Live h = false ->
  (forall result ticks, Q result self (s <| ps_Held := Some (h <| pk_Snd := Some ticks |> <| pk_Rcv := Some ticks |>) |>)) ->
  leads (PlusTcpTcpStream_TryConnect codes addr) self s Q.
Proof using SO.
  intros Hh Hs Hl HQ. unfold PlusTcpTcpStream_TryConnect, PlusTcpTcpStream_ResolveConnectTimeoutMs. pleads_on.
  apply (pleads_env codes _ (fun _ => True)); [done |]. intros ms0 _. pleads_on. set (ms := if _ <? _ then _ else _).
  assert (Hms : 0 <= ms <= SOLIDSYSLOG_TCP_CONNECT_TIMEOUT_MS_MAX).
  { unfold ms. pose proof (Z.mod_pos_bound ms0 (2 ^ 32) ltac:(lia)). destruct (Z.ltb_spec SOLIDSYSLOG_TCP_CONNECT_TIMEOUT_MS_MAX (u32 ms0)); unfold SOLIDSYSLOG_TCP_CONNECT_TIMEOUT_MS_MAX, u32 in *; lia. }
  pose proof (plus_ticks codes SO ms Hms) as Ht. apply (pleads_env codes _ (fun _ => True)); [done |]. intros ip _. pleads_on.
  assert (Hend : leads (let! socket := plus_get pt_Socket in
      PlusTcpTcpStream_SetSendTimeout codes socket (pdMS_TO_TICKS codes ms) ;;; PlusTcpTcpStream_SetRecvTimeout codes socket (pdMS_TO_TICKS codes ms) ;;;
      plus_call (ps_connect socket addr) (PlusConnect socket)) self s Q).
  { pleads_on. eapply pleads_mono; [apply (set_timeouts_leads (pdMS_TO_TICKS codes ms) h _ _ (fun _ self' s' => leads (plus_call (ps_connect (pt_Socket self) addr) (PlusConnect (pt_Socket self))) self' s' Q)); [done | done |] |].
    2: { intros [] self' s' Hw. apply pleads_bind. exact Hw. }
    apply pleads_any_call. intros result.
    unfold observe_plus, of_held. plus_cbn. rewrite ?Hs, Z.eqb_refl, Hl. unfold bounded_ticks.
    rewrite (proj2 (Z.leb_le 0 _)), (proj2 (Z.leb_le _ _)) by lia. eexists. split; [done |]. apply HQ. }
  unfold PlusTcpTcpStream_PrimeArpIfMissing. pleads_on. apply pleads_any_call. intros cached. eexists. split; [done |]. pleads_on.
  destruct (cached =? pdFALSE); [| by apply pleads_ret].
  pleads_on. apply pleads_any_call. intros _. eexists. split; [done |]. apply pleads_any_call. intros _. by eexists.
Qed.

Lemma PlusOpen_contract addr self s : plus_agrees codes self s ->
  leads (PlusTcpTcpStream_Open codes addr) self s (fun b => plus_contracted self s (fun t rs => opens plus_kind false t b rs)).
Proof using SO.
  intros Ha. unfold PlusTcpTcpStream_Open. pleads_on. pose proof (IsOpen_held self s Ha) as Ho. rewrite Ho.
  case_bool_decide as Hh; pleads_on.
  { unfold PlusTcpTcpStream_Report. pleads_on. apply (pleads_env codes _ (fun _ => True)); [done |]. intros _ _. eapply pleads_happens; [done |]. pleads_on.
    split; [done |]. split; [exact Ha |]. eexists. split; [| done]. by apply opens_refused. }
  destruct (ps_Held s) as [h|] eqn:Eh; [by destruct Hh |]. unfold PlusTcpTcpStream_OpenSocket. pleads_on. apply pleads_any_call. intros socket. unfold observe_plus. rewrite Eh, bool_decide_true by done.
  eexists. split; [done |]. pleads_on. unfold PlusTcpTcpStream_IsOpen at 1. plus_cbn.
  assert (Hfail : forall self' s' severity hasNative detail native, pt_Base self' = pt_Base self -> pt_OpenHealth self' = latched (pt_OpenHealth self) detail ->
            pt_Socket self' = FREERTOS_INVALID_SOCKET codes -> ps_Held s' = None -> ps_Wires s' = ps_Wires s ->
            ps_Reports s' = (ps_Reports s ++ if bool_decide (latch_of (pt_OpenHealth self) = Some detail) then []
              else [mkErrorEvent severity SOLIDSYSLOG_CAT_STREAM_CONNECT_FAILED hasNative (Some SolidSyslogPlusTcpTcpStreamErrorSource) detail native]) ->
            leads (let! opened := plus_get (PlusTcpTcpStream_IsOpen codes) in
              if! opened : bool then plus_put (fun self => self <| pt_OpenHealth := SolidSyslogStreamOpenHealth_Opened (pt_OpenHealth self) |>) ;;; plus_happens PlusEstablished end! ;;;
              st_ret opened) self' s' (fun b => plus_contracted self s (fun t rs => opens plus_kind false t b rs))).
  { intros self' s' severity hasNative detail native Eb El Es En Ew Er. pleads_on. unfold PlusTcpTcpStream_IsOpen. rewrite Es, Z.eqb_refl. cbn [negb]. pleads_on.
    split; [done |]. split; [unfold plus_agrees; by rewrite En |]. eexists. split; [| exact Er].
    replace (plus_view codes self' s') with ((plus_view codes self s) <| st_Latch := Some detail |>).
    - apply (opens_failed plus_kind false (plus_view codes self s) [] severity SOLIDSYSLOG_CAT_STREAM_CONNECT_FAILED hasNative detail native); [exact Ho | done | done | constructor].
    - unfold plus_view. plus_cbn. rewrite Ho, El, Ew, latch_latched. unfold PlusTcpTcpStream_IsOpen. by rewrite Es, Z.eqb_refl. }
  destruct (Z.eqb_spec socket (FREERTOS_INVALID_SOCKET codes)) as [-> | Hn]; cbn [negb].
  { apply plus_failure_leads. intros severity hasNative detail native. by eapply (Hfail _ _ severity hasNative detail native). }
  unfold PlusTcpTcpStream_ConnectOrCloseOnFailure. pleads_on. apply (TryConnect_leads addr (mkPlusHeld socket None None false)); [done | done | done |].
  intros result ticks. destruct (result =? 0); pleads_on.
  - unfold PlusTcpTcpStream_ClearTimeouts. pleads_on. eapply (set_timeouts_leads 0); [done | done |]. pleads_on. unfold PlusTcpTcpStream_IsOpen. plus_cbn. rewrite (proj2 (Z.eqb_neq _ _) Hn). cbn [negb]. pleads_on.
    eapply pleads_happens; [done |]. pleads_on. split; [done |]. split; [split; [done |]; split; [done |]; by exists (ps_Wires s), [] |].
    exists []. rewrite app_nil_r. split; [| done].
    lazymatch goal with |- opens _ _ _ _ _ ?after => replace after with (mkStreamState true None (st_Wires (plus_view codes self s) ++ [[]])) end.
    + apply opens_made; [exact Ho | done | constructor].
    + unfold plus_view, PlusTcpTcpStream_IsOpen. plus_cbn. by rewrite (proj2 (Z.eqb_neq _ _) Hn).
  - apply plus_attempt_leads. intros severity hasNative detail native. eapply pleads_mono; [apply CloseSocket_held; by split |]. intros [] self' s' [-> ->].
    by eapply (Hfail _ _ severity hasNative detail native).
Qed.

(** ** Send and Read *)

Lemma PlusSend_contract buffer size self s : plus_agrees codes self s ->
  leads (PlusTcpTcpStream_Send codes buffer size) self s
    (fun b => plus_contracted self s (fun t rs t' => rs = [] /\ sends (takeZ size buffer) t b t')).
Proof using.
  intros Ha. unfold PlusTcpTcpStream_Send. pleads_on. pose proof (IsOpen_held self s Ha) as Ho. rewrite Ho. case_bool_decide as Hh; pleads_on.
  2: { split; [done |]. split; [done |]. exists []. rewrite app_nil_r. split; [split; [done |] | done]. apply sends_closed. unfold plus_view. plus_cbn. exact Ho. }
  pose proof Ha as Ha0. unfold plus_agrees in Ha0. destruct (ps_Held s) as [h|] eqn:Eh; [| by destruct Hh]. destruct Ha0 as (-> & Hn & before & conn & Hw).
  unfold PlusTcpTcpStream_SendOrCloseOnFailure, PlusTcpTcpStream_TrySend. pleads_on. apply pleads_any_call. intros n.
  unfold observe_plus, of_held, returns_at_once. rewrite Eh. plus_cbn. rewrite Z.eqb_refl. cbn [bool_decide decide_rel andb]. rewrite bool_decide_true by done. cbn [andb].
  rewrite Hw, extend_last_snoc. eexists. split; [done |]. pleads_on.
  assert (Ha1 : plus_agrees codes self (s <| ps_Wires := before ++ [conn ++ takeZ n (takeZ size buffer)] |>)).
  { unfold plus_agrees. plus_cbn. rewrite Eh. eauto 6. }
  assert (Hopen : plus_view codes self s = mkStreamState true (latch_of (pt_OpenHealth self)) (before ++ [conn])).
  { unfold plus_view. by rewrite Ho, Hw. }
  destruct (PlusTcpTcpStream_AllBytesSent n size) eqn:En; cbn [negb]; pleads_on.
  - split; [done |]. split; [exact Ha1 |]. exists []. rewrite app_nil_r. split; [| done]. split; [done |].
    unfold PlusTcpTcpStream_AllBytesSent in En. apply andb_prop in En as [_ ->%Z.eqb_eq]. rewrite Hopen. unfold plus_view. plus_cbn. rewrite Ho.
    rewrite takeZ_takeZ, Z.min_id. by apply (sends_whole _ (mkStreamState _ _ _)).
  - eapply pleads_mono; [by apply CloseSocket_contracted |]. intros [] self' s' (Eb & Ha' & Ev & Er & _). pleads_on. split; [done |]. split; [done |].
    exists []. rewrite app_nil_r. split; [| by rewrite Er]. split; [done |]. rewrite Ev, Hopen. unfold plus_view. plus_cbn.
    destruct (part_of (takeZ size buffer) n) as [rest Er'].
    exact (sends_part (takeZ size buffer) (mkStreamState true (latch_of (pt_OpenHealth self)) (before ++ [conn])) before conn _ rest eq_refl eq_refl Er').
Qed.
Lemma PlusRead_contract buffer size self s : 0 <= size -> plus_agrees codes self s ->
  leads (PlusTcpTcpStream_Read codes buffer size) self s (fun r => plus_contracted self s (fun t rs t' => rs = [] /\ reads size t (fst r) t')).
Proof using SO.
  intros Hsize Ha. unfold PlusTcpTcpStream_Read. pleads_on. pose proof (IsOpen_held self s Ha) as Ho. rewrite Ho.
  assert (Hopen : forall b, PlusTcpTcpStream_IsOpen codes self = b -> st_Open (plus_view codes self s) = b) by done. rewrite Ho in Hopen.
  case_bool_decide as Hh; pleads_on.
  2: { split; [done |]. split; [done |]. exists []. rewrite app_nil_r. split; [split; [done |] | done]. cbn [fst].
       replace (plus_view codes self s) with ((plus_view codes self s) <| st_Open := false |>) at 2; [apply reads_end |].
       specialize (Hopen _ eq_refl). destruct (plus_view codes self s). plus_cbn. by subst. }
  pose proof Ha as Ha0. unfold plus_agrees in Ha0. destruct (ps_Held s) as [h|] eqn:Eh; [| by destruct Hh]. destruct Ha0 as (-> & Hn & _).
  unfold PlusTcpTcpStream_ReceiveOrCloseOnFailure. pleads_on.
  apply (pleads_call codes _ _ (fun a => fst a <= size)); [intros e; by apply (plus_recv_answers codes SO) |]. intros [n memory] Hle.
  unfold observe_plus, of_held, returns_at_once. rewrite Eh. plus_cbn. rewrite Z.eqb_refl, bool_decide_true by done. eexists. split; [done |]. pleads_on. cbn [fst] in Hle.
  destruct (Z.leb_spec 0 n); pleads_on.
  - split; [done |]. split; [done |]. exists []. rewrite app_nil_r. split; [split; [done |] | done]. cbn [fst].
    destruct (Z.eq_dec n 0) as [-> |]; [by apply reads_none, Hopen | apply reads_some; [by apply Hopen | lia]].
  - eapply pleads_mono; [by apply CloseSocket_contracted |]. intros [] self' s' (Eb & Ha' & Ev & Er & _). pleads_on. split; [done |]. split; [done |].
    exists []. rewrite app_nil_r. split; [| done]. split; [done |]. rewrite Ev. apply reads_end.
Qed.
End contract.

(** * In the world *)

Section plus_keeps.
Context {E : Type} `{HT : ErrorTap E} `{HS : PlusSockets E} (codes : plus_tcp_codes) (SO : plus_sockets_ok codes).
Implicit Types (w : plus_world E).
Abbreviation stream := (PlusTcpTcpStream_vtable codes).

Lemma plus_world_contracted {A} (m : @plus_op E A) (step : A -> stream_state -> list SolidSyslogErrorEvent -> stream_state -> Prop) :
  (forall self s, plus_agrees codes self s -> plus_leads codes m self s (fun a => plus_contracted codes self s (step a))) ->
  forall w, plus_ok codes w -> wp m (fun a w' => plus_ok codes w' /\
    exists rs, step a (plus_state codes w) rs (plus_state codes w') /\ plus_reports codes w' = plus_reports codes w ++ rs) w.
Proof using.
  intros Hm w (Hb & s & Hs & Ha). eapply wp_mono; [apply (Hm (pw_Self w) s Ha w); by split |].
  intros a w' (self' & s' & [<- Hs'] & Hb' & Ha' & rs & Hstep & Hr). cbn. split; [split; [congruence | eauto] |].
  exists rs. unfold plus_state, plus_reports, plus_seen_of. rewrite Hs, Hs'. by split.
Qed.
(** A call that reports nothing. *)
Lemma plus_silent {A} (m : @plus_op E A) (step : A -> stream_state -> stream_state -> Prop) :
  (forall self s, plus_agrees codes self s -> plus_leads codes m self s (fun a => plus_contracted codes self s (fun t rs t' => rs = [] /\ step a t t'))) ->
  forall w, plus_ok codes w -> wp m (fun a w' => plus_ok codes w' /\ step a (plus_state codes w) (plus_state codes w') /\ plus_reports codes w' = plus_reports codes w) w.
Proof using.
  intros Hm w Hw. eapply wp_mono; [by apply (plus_world_contracted m (fun a t rs t' => rs = [] /\ step a t t') Hm) |].
  intros a w' (Hok & rs & [-> Hs] & Hr). by rewrite app_nil_r in Hr.
Qed.
Lemma own_plus_vtable {A} (m null : @plus_op E A) w Q : plus_ok codes w -> wp m Q w ->
  wp (let! base := plus_get pt_Base in match base with OwnStreamVtable => m | NullStreamVtable => null end) Q w.
Proof using. intros [Hb _] Hm. apply wp_bind, wp_get. by rewrite Hb. Qed.

(** The stream over FreeRTOS-Plus-TCP keeps the contract of a stream, whatever the stack
    answers; and since a world in order is one whose trace [observe_plus] accepts, no call
    waits but a connect, which is bounded, and a socket is held once and closed once. *)
Theorem plus_stream_keeps_contract : stream_contract plus_kind stream (plus_ok codes) (fun _ => True) (plus_state codes) (plus_reports codes) (fun _ => false).
Proof using SO.
  constructor; [intros addr w Hw | intros buffer size w Hw _ | intros buffer size w Hw _ Hsize | intros w Hw | intros w Hw];
    cbn [PlusTcpTcpStream_vtable SolidSyslogStream_Open SolidSyslogStream_Send SolidSyslogStream_Read SolidSyslogStream_Close SolidSyslogStream_Version];
    (apply own_plus_vtable; [done |]).
  - apply (plus_world_contracted (PlusTcpTcpStream_Open codes addr) (fun b t rs => opens plus_kind false t b rs)); [| done].
    intros self s Ha. by apply PlusOpen_contract.
  - apply (plus_silent _ (fun b t t' => sends (takeZ size buffer) t b t')); [| done]. intros self s Ha. by apply PlusSend_contract.
  - apply (plus_silent _ (fun r t t' => reads size t (fst r) t')); [| done]. intros self s Ha. by apply PlusRead_contract.
  - apply (plus_silent _ (fun _ t t' => t' = t <| st_Open := false |>)); [| done]. intros self s Ha.
    eapply pleads_mono; [by apply CloseSocket_contracted |]. intros [] self' s' (Eb & Ha' & Ec & Er & _).
    split; [done |]. split; [done |]. exists []. by rewrite app_nil_r.
  - apply wp_ret. by split.
Qed.

Definition plus_fresh (config : option (tcp_config E)) (e : E) : plus_world E := mkPlusWorld (SolidSyslogPlusTcpTcpStream_Initialise codes config) e [].
Lemma plus_fresh_ok config e : plus_ok codes (plus_fresh config e) /\ plus_state codes (plus_fresh config e) = mkStreamState false None [].
Proof using.
  unfold plus_state, plus_view, PlusTcpTcpStream_IsOpen. destruct config as [[[] ?] |]; cbn; rewrite Z.eqb_refl; (split; [split; [done |]; by exists no_calls | done]).
Qed.
Lemma plus_cleanup_holds_nothing w : plus_ok codes w -> wp (SolidSyslogPlusTcpTcpStream_Cleanup codes) (fun _ w' =>
  pt_Base (pw_Self w') = NullStreamVtable /\ exists s, plus_observed codes (pw_Trace w') = Some s /\ ps_Held s = None) w.
Proof using.
  intros (Hb & s & Hs & Ha). apply wp_bind. eapply wp_mono; [apply (CloseSocket_contracted codes (pw_Self w) s Ha w); by split |].
  intros [] w' (self' & s' & [_ Hs'] & _ & _ & _ & _ & Hn). apply wp_mod. split; [done |]. by exists s'.
Qed.
End plus_keeps.

(** * A small stack *)

(** One socket at a time; a connect that is made while the peer is there, a send that
    takes what there is room for. *)
Record small_plus := mkSmallPlus { sx_Peer : bool; sx_Room : Z; sx_Slots : pending_slots }.
#[export] Instance settable_small_plus : Settable small_plus := fun n => mkSmallPlus (sx_Peer n) (sx_Room n) (sx_Slots n).
#[export] Instance small_plus_tap : ErrorTap small_plus := {
  tap_Handler := fun _ n => n;
  tap_Slots := sx_Slots;
  tap_SetSlots := fun slots n => n <| sx_Slots := slots |>
}.
Definition small_plus_codes : plus_tcp_codes := mkPlusTcpCodes (2 ^ 32 - 1) 1 0 116 128 (fun ms => ms / 10).
#[export] Instance small_plus_sockets : PlusSockets small_plus := {
  ps_socket := st_ret 9;
  ps_closesocket := fun _ => st_ret 1;
  ps_setsockopt := fun _ _ _ => st_ret 0;
  ps_connect := fun _ _ n => (if sx_Peer n then 0 else -116, n);
  ps_send := fun _ _ len _ n => (Z.min len (sx_Room n), n <| sx_Room := sx_Room n - Z.min len (sx_Room n) |>);
  ps_recv := fun _ memory _ _ => st_ret (0, memory);
  ps_xIsIPInARPCache := fun _ => st_ret 0;
  ps_OutputARPRequest := fun _ => st_ret tt;
  ps_vTaskDelay := fun _ => st_ret tt;
  ps_ulIP_IPv4 := fun addr _ => addr
}.
Lemma small_plus_ok : plus_sockets_ok (E := small_plus) small_plus_codes.
Proof.
  constructor; [cbn; lia | done |]. intros ms Hms. cbn [pdMS_TO_TICKS small_plus_codes].
  split; [apply Z.div_pos; lia | apply Z.div_le_mono; lia].
Qed.
