(* ===== verification/TlsStreams.v ===== *)
(** TLS streams over a TLS library and a byte stream that carries the ciphertext
    ([src/Platform/{OpenSsl,MbedTls,WolfSsl}/Source/SolidSyslog*Stream.c]): what the three
    do alike, over a [tls_pack].  The library is the class [TlsLibrary]: quiet calls, and
    calls that may call back, for a verdict on a certificate or to move bytes of the
    transport, as trees of what they ask.  Everything that happens is in a trace; the
    monitor [observe_tls] says what a trace must be, and what holds of a stream is proved
    once, for every pack that keeps [pack_ok]. *)
From S2P Require Import Prelude Errors PendingEvents Interfaces TlsFingerprint Transport StreamContract TcpStreams.

(** Both, the second only after the first answered true: C's [&&]. *)
Definition andM {S} (m k : ST S bool) : ST S bool := let! ok := m in if ok : bool then k else st_ret false.
Notation "m '&&!' k" := (andM m k) (at level 41, right associativity) : c_scope.

(** * The library *)

(** The calls that may call back, on a session. *)
Inductive tls_act :=
| Handshake (ssl : Z)
| ReadFrom (ssl : Z) (buffer : bytes) (size : Z)
| WriteTo (ssl : Z) (data : bytes) (size : Z)
| Shutdown (ssl : Z).
Definition act_session (act : tls_act) : Z :=
  match act with Handshake ssl | ReadFrom ssl _ _ | WriteTo ssl _ _ | Shutdown ssl => ssl end.

(** What such a call does: it ends, with a result and the caller's memory, or calls the
    verify callback with a certificate, or a transport callback with the handle it was
    given, to receive, to transmit or for a control command, and goes on with the
    answer. *)
Inductive tls_activity (V R E : Type) :=
| Ends (rc : Z) (buffer : bytes) (e : E)
| Judges (check : V) (e : E) (k : R -> E -> tls_activity V R E)
| Receives (handle : Z) (buffer : bytes) (size : Z) (e : E) (k : Z * bytes -> E -> tls_activity V R E)
| Transmits (handle : Z) (data : bytes) (size : Z) (e : E) (k : Z -> E -> tls_activity V R E)
| Controls (handle cmd : Z) (e : E) (k : Z -> E -> tls_activity V R E).
Arguments Ends {V R E}.
Arguments Judges {V R E}.
Arguments Receives {V R E}.
Arguments Transmits {V R E}.
Arguments Controls {V R E}.
(** Every end of it is as [P] says. *)
Fixpoint ends_in {V R E} (P : Z -> Prop) (t : tls_activity V R E) : Prop :=
  match t with
  | Ends rc _ _ => P rc
  | Judges _ _ k => forall r e, ends_in P (k r e)
  | Receives _ _ _ _ k => forall r e, ends_in P (k r e)
  | Transmits _ _ _ _ k => forall r e, ends_in P (k r e)
  | Controls _ _ _ k => forall r e, ends_in P (k r e)
  end.

(** A quiet call answers a number: a result, or the handle of what it made.  [tls_hash]
    examines a certificate: it answers a result, a length and the bytes of a digest,
    if it makes one. *)
Class TlsLibrary (C V R E : Type) := {
  tls_do : C -> ST E Z;
  tls_hash : C -> ST E (Z * Z * bytes);
  tls_run : tls_act -> E -> tls_activity V R E
}.

(** The default of the tunable, and the constants of the three files. *)
Definition SOLIDSYSLOG_TLS_HANDSHAKE_TIMEOUT_MS : Z := 5000.
Definition HANDSHAKE_POLL_INTERVAL_MILLISECONDS : Z := 10.
Definition STREAM_DISCARD_BYTES : Z := 16.
Definition STREAM_MAX_READS_BEFORE_WRITE : Z := 8.

(** * A stream in its environment *)

Record SolidSyslogTlsCredentialsInstalled := mkInstalled {
  in_TrustAnchorsInstalled : bool;
  in_Fingerprints : option pin_list;
  in_FingerprintCount : Z
}.
(** [Install] is given the library's own configuration object and the report to fill. *)
Record SolidSyslogTlsCredentials (E : Type) := mkCredentials {
  cr_Install : Z -> SolidSyslogTlsCredentialsInstalled -> ST E (bool * SolidSyslogTlsCredentialsInstalled);
  cr_Release : ST E unit
}.
Arguments mkCredentials {E}.
Arguments cr_Install {E}.
Arguments cr_Release {E}.

(** The configuration the integrator gives, and the stream's copy of it, in which what
    was NULL is a null object.  [Library] is mbedTLS's [Rng], wolfSSL's [Heap]. *)
Section config.
Context (P E : Type).
Definition SolidSyslogTlsHandshakeTimeoutFunction : Type := option Z -> ST E Z.
Definition SolidSyslogTlsProfileFunction : Type := P -> option Z -> ST E P.
Definition SolidSyslogStreamVersionFunction : Type := option Z -> ST E Z.
Record tls_config := mkTlsConfig {
  cf_Transport : SolidSyslogStream E;
  cf_Credentials : SolidSyslogTlsCredentials E;
  cf_Sleep : Z -> ST E unit;
  cf_GetHandshakeTimeoutMs : option SolidSyslogTlsHandshakeTimeoutFunction;
  cf_HandshakeTimeoutContext : option Z;
  cf_Library : Z;
  cf_Profile : option SolidSyslogTlsProfileFunction;
  cf_ProfileContext : option Z;
  cf_Version : option SolidSyslogStreamVersionFunction;
  cf_VersionContext : option Z
}.
Record tls_wiring := mkTlsWiring {
  wi_Transport : SolidSyslogStream E;
  wi_Credentials : SolidSyslogTlsCredentials E;
  wi_Sleep : Z -> ST E unit;
  wi_GetHandshakeTimeoutMs : SolidSyslogTlsHandshakeTimeoutFunction;
  wi_HandshakeTimeoutContext : option Z;
  wi_Library : Z;
  wi_Profile : SolidSyslogTlsProfileFunction;
  wi_ProfileContext : option Z;
  wi_Version : SolidSyslogStreamVersionFunction;
  wi_VersionContext : option Z
}.
End config.
Arguments mkTlsConfig {P E}.
Arguments cf_Transport {P E}.
Arguments cf_Credentials {P E}.
Arguments cf_Sleep {P E}.
Arguments cf_GetHandshakeTimeoutMs {P E}.
Arguments cf_HandshakeTimeoutContext {P E}.
Arguments cf_Library {P E}.
Arguments cf_Profile {P E}.
Arguments cf_ProfileContext {P E}.
Arguments cf_Version {P E}.
Arguments cf_VersionContext {P E}.
Arguments mkTlsWiring {P E}.
Arguments wi_Transport {P E}.
Arguments wi_Credentials {P E}.
Arguments wi_Sleep {P E}.
Arguments wi_GetHandshakeTimeoutMs {P E}.
Arguments wi_HandshakeTimeoutContext {P E}.
Arguments wi_Library {P E}.
Arguments wi_Profile {P E}.
Arguments wi_ProfileContext {P E}.
Arguments wi_Version {P E}.
Arguments wi_VersionContext {P E}.

(** The handles of the library that a pack's stream holds are its [H], what its verify
    callback keeps is its [N], and its profile is its [P]. *)
Section stream.
Context {H N P E : Type}.
Record tls_stream := mkTlsStream {
  tl_Base : stream_vtable;
  tl_Config : tls_wiring P E;
  tl_OpenHealth : SolidSyslogStreamOpenHealth;
  tl_CredentialsInstalled : bool;
  tl_Installed : SolidSyslogTlsCredentialsInstalled;
  tl_Profile : P;
  tl_Handles : H;
  tl_Notes : N
}.
#[export] Instance settable_tls_stream : Settable tls_stream := fun s =>
  mkTlsStream (tl_Base s) (tl_Config s) (tl_OpenHealth s) (tl_CredentialsInstalled s) (tl_Installed s) (tl_Profile s) (tl_Handles s) (tl_Notes s).
End stream.
Arguments tls_stream : clear implicits.

(** Each quiet call with its answer, each digest made, each call that may call back with
    its result, each certificate judged with the answer; what is done to the transport
    and to the credentials; the handshake's budget and its sleeps; the moment the
    session counts as made; each report. *)
Inductive tls_event (C V R : Type) :=
| Did (call : C) (answer : Z)
| Hashed (call : C) (rc length : Z) (digest : bytes)
| Ran (act : tls_act) (rc : Z)
| Judged (check : V) (answer : R)
| TransportOpened (ok : bool)
| TransportClosed
| CredentialsAsked (context : Z) (ok : bool) (installed : SolidSyslogTlsCredentialsInstalled)
| CredentialsReleased
| BudgetTaken (ms : Z)
| Slept (ms : Z)
| SessionMade
| TlsReported (event : SolidSyslogErrorEvent).
Arguments Did {C V R}.
Arguments Hashed {C V R}.
Arguments Ran {C V R}.
Arguments Judged {C V R}.
Arguments TransportOpened {C V R}.
Arguments TransportClosed {C V R}.
Arguments CredentialsAsked {C V R}.
Arguments CredentialsReleased {C V R}.
Arguments BudgetTaken {C V R}.
Arguments Slept {C V R}.
Arguments SessionMade {C V R}.
Arguments TlsReported {C V R}.

Section tls_world.
Context {C V R H N P E : Type}.
Record tls_world := mkTlsWorld { tv_Self : tls_stream H N P E; tv_Env : E; tv_Trace : list (tls_event C V R) }.
#[export] Instance settable_tls_world : Settable tls_world := fun w => mkTlsWorld (tv_Self w) (tv_Env w) (tv_Trace w).
Definition tls_op (A : Type) : Type := ST tls_world A.

Definition tls_get {A} (f : tls_stream H N P E -> A) : tls_op A := st_get (fun w => f (tv_Self w)).
Definition tls_set (f : tls_stream H N P E -> tls_stream H N P E) : tls_op unit := st_mod (fun w => w <| tv_Self := f (tv_Self w) |>).
Definition tls_happens (e : tls_event C V R) : tls_op unit := st_mod (fun w => w <| tv_Trace := tv_Trace w ++ [e] |>).
Definition tls_env {A} (m : ST E A) : tls_op A := zoom tv_Env (fun e w => w <| tv_Env := e |>) m.
End tls_world.
Arguments tls_world : clear implicits.
Arguments tls_op : clear implicits.

#[export] Instance tls_world_tap {C V R H N P E} `{ErrorTap E} : ErrorTap (tls_world C V R H N P E) := {
  tap_Handler := fun event w => w <| tv_Env := tap_Handler event (tv_Env w) |>;
  tap_Slots := fun w => tap_Slots (tv_Env w);
  tap_SetSlots := fun slots w => w <| tv_Env := tap_SetSlots slots (tv_Env w) |>
}.

(** * What the three do alike *)

(** What tells the packs apart in the common code: the source of the reports, the
    session among the handles, how a length is passed, the profile nobody filled in, the
    callbacks given to the library, and the memory a pin and a digest are read into, as
    the stack has it. *)
Record tls_pack (C V R H N P E : Type) := mkPack {
  tp_Source : SolidSyslogErrorSource;
  tp_Session : H -> Z;
  tp_Length : Z -> Z;
  tp_NoProfile : P;
  tp_Judge : V -> tls_op C V R H N P E R;
  tp_Receive : Z -> bytes -> Z -> tls_op C V R H N P E (Z * bytes);
  tp_Transmit : Z -> bytes -> Z -> tls_op C V R H N P E Z;
  tp_Control : Z -> Z -> Z;
  tp_Scratch : SolidSyslogTlsFingerprint
}.
Arguments mkPack {C V R H N P E}.
Arguments tp_Source {C V R H N P E}.
Arguments tp_Session {C V R H N P E}.
Arguments tp_Length {C V R H N P E}.
Arguments tp_NoProfile {C V R H N P E}.
Arguments tp_Judge {C V R H N P E}.
Arguments tp_Receive {C V R H N P E}.
Arguments tp_Transmit {C V R H N P E}.
Arguments tp_Control {C V R H N P E}.
Arguments tp_Scratch {C V R H N P E}.

(** How a call of the handshake ended. *)
Inductive handshake_turn := HandshakeOver (result : bool) | HandshakeRefused (detail : Z) | HandshakeUnfinished.

(** The calls, before there is a pack. *)
Section tls_calls.
Context {C V R H N P E : Type} `{ErrorTap E} `{TlsLibrary C V R E}.
Abbreviation op := (tls_op C V R H N P E).

Definition tls_call (c : C) : op Z :=
  let! answer := tls_env (tls_do c) in
  tls_happens (Did c answer) ;;;
  st_ret answer.
Definition tls_quiet (c : C) : op unit := let! _ := tls_call c in st_ret tt.
Definition tls_digest (c : C) : op (Z * Z * bytes) :=
  let! answer := tls_env (tls_hash c) in
  let '(rc, length, digest) := answer in
  tls_happens (Hashed c rc length digest) ;;;
  st_ret answer.

(** The transport as the callbacks reach it: through the stream's configuration. *)
Definition transport_read (buffer : bytes) (size : Z) : op (Z * bytes) :=
  let! config := tls_get tl_Config in
  tls_env (SolidSyslogStream_Read (SolidSyslogStream := wi_Transport config) buffer size).
Definition transport_send (data : bytes) (size : Z) : op bool :=
  let! config := tls_get tl_Config in
  tls_env (SolidSyslogStream_Send (SolidSyslogStream := wi_Transport config) data size).
Definition open_transport (addr : SolidSyslogAddress) : op bool :=
  let! config := tls_get tl_Config in
  let! ok := tls_env (SolidSyslogStream_Open (SolidSyslogStream := wi_Transport config) addr) in
  tls_happens (TransportOpened ok) ;;;
  st_ret ok.
Definition close_transport : op unit :=
  let! config := tls_get tl_Config in
  tls_env (SolidSyslogStream_Close (SolidSyslogStream := wi_Transport config)) ;;;
  tls_happens TransportClosed.
End tls_calls.

Section tls_stream.
Context {C V R H N P E : Type} `{ErrorTap E} `{TlsLibrary C V R E} (K : tls_pack C V R H N P E).
Abbreviation op := (tls_op C V R H N P E).
Abbreviation stream := (tls_stream H N P E).

(** A call that may call back, run with the pack's callbacks. *)
Definition environment_is (e : E) : op unit := st_mod (fun w => w <| tv_Env := e |>).
Fixpoint tls_play (t : tls_activity V R E) : op (Z * bytes) :=
  match t with
  | Ends rc buffer e =>
      environment_is e ;;;
      st_ret (rc, buffer)
  | Judges check e k =>
      environment_is e ;;;
      let! r := tp_Judge K check in
      tls_happens (Judged check r) ;;;
      let! e := st_get tv_Env in
      tls_play (k r e)
  | Receives handle buffer size e k =>
      environment_is e ;;;
      let! r := tp_Receive K handle buffer size in
      let! e := st_get tv_Env in
      tls_play (k r e)
  | Transmits handle data size e k =>
      environment_is e ;;;
      let! r := tp_Transmit K handle data size in
      let! e := st_get tv_Env in
      tls_play (k r e)
  | Controls handle cmd e k => tls_play (k (tp_Control K handle cmd) e)
  end.
Definition tls_perform (act : tls_act) : op (Z * bytes) :=
  let! e := st_get tv_Env in
  let! r := tls_play (tls_run act e) in
  tls_happens (Ran act (fst r)) ;;;
  st_ret r.
Definition session : op Z := tls_get (fun self => tp_Session K (tl_Handles self)).

(** ** Reports *)

Definition TlsStream_Report (severity category code : Z) : op unit :=
  tls_env (st_mod (tap_error severity (Some (tp_Source K)) category code)) ;;;
  tls_happens (TlsReported (mkErrorEvent severity category false (Some (tp_Source K)) code 0)).
(** Made when the latch admits it. *)
Definition TlsStream_ReportOpenFailure (severity category code : Z) : op unit :=
  let! health := tls_get tl_OpenHealth in
  let! after := tls_env (SolidSyslogStreamOpenHealth_ReportFailure health (Some (tp_Source K)) severity category code) in
  tls_set (fun self => self <| tl_OpenHealth := after |>) ;;;
  if! fst (StreamOpenHealth_Admit health code) then
    tls_happens (TlsReported (mkErrorEvent severity category false (Some (tp_Source K)) code 0))
  end!.
(** [if (!ok) report; return ok], as each step of Open ends. *)
Definition or_report (ok : bool) (category code : Z) : op bool :=
  if! negb ok then TlsStream_ReportOpenFailure SOLIDSYSLOG_SEVERITY_ERROR category code end! ;;;
  st_ret ok.

(** ** Configuration *)

Definition TlsStream_NullHandshakeTimeoutGetter : SolidSyslogTlsHandshakeTimeoutFunction E := fun _ => st_ret SOLIDSYSLOG_TLS_HANDSHAKE_TIMEOUT_MS.
Definition TlsStream_NullVersion : SolidSyslogStreamVersionFunction E := fun _ => st_ret 0.
Definition TlsStream_NullProfile : SolidSyslogTlsProfileFunction P E := fun profile _ => st_ret profile.
Definition TlsStream_ConfigProvidesHandshakeGetter (config : option (tls_config P E)) : bool :=
  match config with None => false | Some config => match cf_GetHandshakeTimeoutMs config with None => false | Some _ => true end end.
Definition TlsStream_ConfigProvidesVersion (config : option (tls_config P E)) : bool :=
  match config with None => false | Some config => match cf_Version config with None => false | Some _ => true end end.
Definition TlsStream_ConfigProvidesProfile (config : option (tls_config P E)) : bool :=
  match config with None => false | Some config => match cf_Profile config with None => false | Some _ => true end end.
(** [self->Config = *config], and a null object with no context for each function that
    is not provided. *)
Definition copy_config (config : tls_config P E) : tls_wiring P E := {|
  wi_Transport := cf_Transport config;
  wi_Credentials := cf_Credentials config;
  wi_Sleep := cf_Sleep config;
  wi_GetHandshakeTimeoutMs := default TlsStream_NullHandshakeTimeoutGetter (cf_GetHandshakeTimeoutMs config);
  wi_HandshakeTimeoutContext := if TlsStream_ConfigProvidesHandshakeGetter (Some config) then cf_HandshakeTimeoutContext config else None;
  wi_Library := cf_Library config;
  wi_Profile := default TlsStream_NullProfile (cf_Profile config);
  wi_ProfileContext := if TlsStream_ConfigProvidesProfile (Some config) then cf_ProfileContext config else None;
  wi_Version := default TlsStream_NullVersion (cf_Version config);
  wi_VersionContext := if TlsStream_ConfigProvidesVersion (Some config) then cf_VersionContext config else None
|}.
(** The fields every pack sets; what the others hold is what the slot held. *)
Definition TlsStream_Initialise (config : tls_config P E) : op unit :=
  tls_set (fun self => self <| tl_Base := OwnStreamVtable |> <| tl_Config := copy_config config |>
    <| tl_OpenHealth := mkStreamOpenHealth false 0 |> <| tl_CredentialsInstalled := false |>).
Definition TlsStream_PullProfile : op unit :=
  tls_set (fun self => self <| tl_Profile := tp_NoProfile K |>) ;;;
  let! self := tls_get (fun self => self) in
  let! profile := tls_env (wi_Profile (tl_Config self) (tl_Profile self) (wi_ProfileContext (tl_Config self))) in
  tls_set (fun self => self <| tl_Profile := profile |>).
Definition TlsStream_Version : op Z :=
  let! config := tls_get tl_Config in
  tls_env (wi_Version config (wi_VersionContext config)).
Definition TlsStream_ResolveHandshakeTimeoutMs : op Z :=
  let! config := tls_get tl_Config in
  let! ms := tls_env (wi_GetHandshakeTimeoutMs config (wi_HandshakeTimeoutContext config)) in
  tls_happens (BudgetTaken (u32 ms)) ;;;
  st_ret (u32 ms).

(** ** Credentials *)

(** [Installed] emptied, the flag set, the source asked. *)
Definition ask_credentials (context : Z) : op bool :=
  tls_set (fun self => self <| tl_Installed := mkInstalled false None 0 |>) ;;;
  tls_set (fun self => self <| tl_CredentialsInstalled := true |>) ;;;
  let! self := tls_get (fun self => self) in
  let! answer := tls_env (cr_Install (wi_Credentials (tl_Config self)) context (tl_Installed self)) in
  tls_set (fun self => self <| tl_Installed := snd answer |>) ;;;
  tls_happens (CredentialsAsked context (fst answer) (snd answer)) ;;;
  st_ret (fst answer).
Definition TlsStream_PeerIsAuthorisable (installed : SolidSyslogTlsCredentialsInstalled) : bool :=
  in_TrustAnchorsInstalled installed || (0 <? in_FingerprintCount installed).
Definition TlsStream_FingerprintsAreUsable : op bool :=
  let! installed := tls_get tl_Installed in
  match SolidSyslogTlsFingerprint_InspectList (tp_Scratch K) (in_Fingerprints installed) (in_FingerprintCount installed) with
  | SOLIDSYSLOG_TLS_FINGERPRINT_LIST_MALFORMED =>
      or_report false SOLIDSYSLOG_CAT_BAD_CONFIG SOLIDSYSLOG_TLS_STREAM_ERROR_FINGERPRINT_MALFORMED
  | SOLIDSYSLOG_TLS_FINGERPRINT_LIST_USES_SHA1 =>
      TlsStream_Report SOLIDSYSLOG_SEVERITY_WARNING SOLIDSYSLOG_CAT_BAD_CONFIG SOLIDSYSLOG_TLS_STREAM_ERROR_FINGERPRINT_SHA1 ;;;
      st_ret true
  | SOLIDSYSLOG_TLS_FINGERPRINT_LIST_WELL_FORMED => st_ret true
  end.
(** Asked, and both checks of what was installed. *)
Definition TlsStream_InstallCredentials (context : Z) : op bool :=
  ask_credentials context &&!
  (let! installed := tls_get tl_Installed in
   or_report (TlsStream_PeerIsAuthorisable installed) SOLIDSYSLOG_CAT_BAD_CONFIG SOLIDSYSLOG_TLS_STREAM_ERROR_NO_PEER_AUTHORISATION) &&!
  TlsStream_FingerprintsAreUsable.
Definition TlsStream_ReleaseCredentials : op unit :=
  let! self := tls_get (fun self => self) in
  if! tl_CredentialsInstalled self then
    tls_set (fun self => self <| tl_CredentialsInstalled := false |>) ;;;
    tls_env (cr_Release (wi_Credentials (tl_Config self))) ;;;
    tls_happens CredentialsReleased
  end!.

(** ** The handshake *)

Definition TlsStream_IsHandshakeBudgetExhausted (totalSleptMs budgetMs : Z) : bool := budgetMs <=? totalSleptMs.
Definition TlsStream_HandshakePollMs (totalSleptMs budgetMs : Z) : Z :=
  let remainingMs := u32 (budgetMs - totalSleptMs) in
  if remainingMs <? HANDSHAKE_POLL_INTERVAL_MILLISECONDS then remainingMs else HANDSHAKE_POLL_INTERVAL_MILLISECONDS.
(** One round of the loop: [Turn] is the library's call and what the pack makes of its
    result.  The loop's variables are what was slept and the result. *)
Definition handshake_round (Turn : op handshake_turn) (budgetMs : Z) (l : Z * bool) : op (bool * (Z * bool)) :=
  let totalSleptMs := fst l in
  let! turn := Turn in
  match turn with
  | HandshakeOver result => st_ret (false, (totalSleptMs, result))
  | HandshakeRefused detail =>
      TlsStream_ReportOpenFailure SOLIDSYSLOG_SEVERITY_ERROR SOLIDSYSLOG_CAT_TLS_STREAM_HANDSHAKE_FAILED detail ;;;
      st_ret (false, (totalSleptMs, false))
  | HandshakeUnfinished =>
      if TlsStream_IsHandshakeBudgetExhausted totalSleptMs budgetMs then
        TlsStream_ReportOpenFailure SOLIDSYSLOG_SEVERITY_WARNING SOLIDSYSLOG_CAT_TLS_STREAM_HANDSHAKE_FAILED SOLIDSYSLOG_TLS_STREAM_ERROR_HANDSHAKE_TIMEOUT ;;;
        st_ret (false, (totalSleptMs, false))
      else
        let pollMs := TlsStream_HandshakePollMs totalSleptMs budgetMs in
        let! config := tls_get tl_Config in
        tls_env (wi_Sleep config pollMs) ;;;
        tls_happens (Slept pollMs) ;;;
        st_ret (true, (u32 (totalSleptMs + pollMs), false))
  end.
(** Each round that goes on sleeps the interval, or the last of the budget. *)
Definition handshake_fuel (budgetMs : Z) : nat := S (S (S (Z.to_nat (budgetMs / HANDSHAKE_POLL_INTERVAL_MILLISECONDS)))).
Definition TlsStream_PerformHandshake (Turn : op handshake_turn) : op bool :=
  let! budgetMs := TlsStream_ResolveHandshakeTimeoutMs in
  let! l := loopM (handshake_fuel budgetMs) (handshake_round Turn budgetMs) (0, false) in
  st_ret (snd l).

(** ** Open, Read, Send *)

Definition TlsStream_Open (IsOpen : stream -> bool) (Establish : SolidSyslogAddress -> op bool) (addr : SolidSyslogAddress) : op bool :=
  let! open := tls_get IsOpen in
  if open : bool then
    TlsStream_Report SOLIDSYSLOG_BAD_ARGUMENT_SEVERITY SOLIDSYSLOG_CAT_BAD_ARGUMENT SOLIDSYSLOG_TLS_STREAM_ERROR_ALREADY_OPEN ;;;
    st_ret false
  else
    let! ok := Establish addr in
    if! ok : bool then
      tls_set (fun self => self <| tl_OpenHealth := SolidSyslogStreamOpenHealth_Opened (tl_OpenHealth self) |>) ;;;
      tls_happens SessionMade
    end! ;;;
    st_ret ok.

Section io.
(** Whether a read that gave nothing says only that nothing is there. *)
Context (NothingYet : Z -> op bool) (Close : op unit).
Definition TlsStream_Read (buffer : bytes) (size : Z) : op (Z * bytes) :=
  let! ssl := session in
  let! answer := tls_perform (ReadFrom ssl buffer (tp_Length K size)) in
  if 0 <? fst answer then st_ret answer
  else
    let! nothing := NothingYet (fst answer) in
    if nothing : bool then st_ret (0, snd answer)
    else Close ;;; st_ret (-1, snd answer).
(** The loop's variables: what the last read answered, and the reads so far.  What
    [discard] holds is of no account. *)
Definition probe_round (l : Z * Z) : op (bool * (Z * Z)) :=
  let '(pending, reads) := l in
  if (0 <? pending) && (reads <? STREAM_MAX_READS_BEFORE_WRITE) then
    let! answer := TlsStream_Read (replicate (Z.to_nat STREAM_DISCARD_BYTES) 0) STREAM_DISCARD_BYTES in
    st_ret (true, (fst answer, reads + 1))
  else st_ret (false, l).
Definition TlsStream_SessionIsStillOpen : op bool :=
  let! answer := TlsStream_Read (replicate (Z.to_nat STREAM_DISCARD_BYTES) 0) STREAM_DISCARD_BYTES in
  let! l := loopM (S (Z.to_nat STREAM_MAX_READS_BEFORE_WRITE)) probe_round (fst answer, 1) in
  st_ret (0 <=? fst l).
Definition TlsStream_Send (buffer : bytes) (size : Z) : op bool :=
  let! open := TlsStream_SessionIsStillOpen in
  if open : bool then
    let! ssl := session in
    let! answer := tls_perform (WriteTo ssl (takeZ size buffer) (tp_Length K size)) in
    let ok := (0 <? fst answer) && (fst answer =? size) in
    if! negb ok then Close end! ;;;
    st_ret ok
  else st_ret false.
Definition TlsStream_Cleanup : op unit :=
  Close ;;;
  tls_set (fun self => self <| tl_Base := NullStreamVtable |>).
(** Dispatch through the vtable. *)
Definition TlsStream_vtable (Open : SolidSyslogAddress -> op bool) : SolidSyslogStream (tls_world C V R H N P E) :=
  let own {A} (m null : op A) : op A :=
    let! base := tls_get tl_Base in match base with OwnStreamVtable => m | NullStreamVtable => null end in {|
  SolidSyslogStream_Open := fun addr => own (Open addr) (NullStream_Open addr);
  SolidSyslogStream_Send := fun buffer size => own (TlsStream_Send buffer size) (NullStream_Send buffer size);
  SolidSyslogStream_Read := fun buffer size => own (TlsStream_Read buffer size) (NullStream_Read buffer size);
  SolidSyslogStream_Close := own Close NullStream_Close;
  SolidSyslogStream_Version := own TlsStream_Version NullStream_Version
|}.
End io.
End tls_stream.

(** * What a trace must be *)

(** What a verify callback was given and answered, and the digests it made. *)
Record tls_check (C V R : Type) := mkCheck { ck_Given : V; ck_Answer : R; ck_Digests : list (C * Z * Z * bytes) }.
Arguments mkCheck {C V R}.
Arguments ck_Given {C V R}.
Arguments ck_Answer {C V R}.
Arguments ck_Digests {C V R}.
(** Of the session at hand: what was installed, each certificate judged, the digests
    made since, and whether the transport or the credentials were refused. *)
Record tls_evidence (C V R : Type) := mkEvidence {
  te_Installed : SolidSyslogTlsCredentialsInstalled;
  te_Checks : list (tls_check C V R);
  te_Digests : list (C * Z * Z * bytes);
  te_Below : bool
}.
Arguments mkEvidence {C V R}.
Arguments te_Installed {C V R}.
Arguments te_Checks {C V R}.
Arguments te_Digests {C V R}.
Arguments te_Below {C V R}.
Record tls_seen (C V R L : Type) := mkTlsSeen {
  tn_Library : L;
  tn_Transport : bool;
  tn_Credentials : bool;
  tn_Up : bool;
  tn_Budget : Z;
  tn_Reports : list SolidSyslogErrorEvent;
  tn_Wires : list bytes;
  tn_Evidence : tls_evidence C V R
}.
Arguments mkTlsSeen {C V R L}.
Arguments tn_Library {C V R L}.
Arguments tn_Transport {C V R L}.
Arguments tn_Credentials {C V R L}.
Arguments tn_Up {C V R L}.
Arguments tn_Budget {C V R L}.
Arguments tn_Reports {C V R L}.
Arguments tn_Wires {C V R L}.
Arguments tn_Evidence {C V R L}.
Definition no_evidence {C V R} : tls_evidence C V R := mkEvidence (mkInstalled false None 0) [] [] false.

(** The protocol of one library: its state as the calls make it, what each quiet call
    makes of it where it is allowed, what a call that may call back needs, the state in
    which nothing is held, and the object that credentials may be installed on. *)
Record lib_protocol (C L : Type) := mkProtocol {
  lp_Start : L;
  lp_Step : L -> C -> Z -> option L;
  lp_Runs : L -> tls_act -> bool;
  lp_IsIdle : L -> bool;
  lp_Takes : L -> Z -> bool
}.
Arguments mkProtocol {C L}.
Arguments lp_Start {C L}.
Arguments lp_Step {C L}.
Arguments lp_Runs {C L}.
Arguments lp_IsIdle {C L}.
Arguments lp_Takes {C L}.

Section observer.
Context {C V R L : Type} (LP : lib_protocol C L).
Abbreviation seen := (tls_seen C V R L).
Definition nothing_done : seen := mkTlsSeen (lp_Start LP) false false false 0 [] [] no_evidence.

(** The library's calls keep its protocol.  The transport is opened only while nothing
    is held, and closed after all is released; the credentials are asked for once, on
    the object the session is made from, and released once, after the library has let
    go of it; a handshake needs both, and its sleeps stay in its budget; data is read
    and written in a session that was made.  Besides, what was reported, what the
    connections took, and the evidence on which the peer was accepted. *)
Definition observe_tls (s : seen) (e : tls_event C V R) : option seen :=
  let '(mkTlsSeen lib transport credentials up budget reports wires evidence) := s in
  let checks := te_Checks evidence in
  let digests := te_Digests evidence in
  match e with
  | Did call answer =>
      match lp_Step LP lib call answer with
      | Some lib => Some (mkTlsSeen lib transport credentials up budget reports wires evidence)
      | None => None
      end
  | Hashed call rc length digest =>
      Some (mkTlsSeen lib transport credentials up budget reports wires (mkEvidence (te_Installed evidence) checks (digests ++ [(call, rc, length, digest)]) (te_Below evidence)))
  | Judged check answer =>
      Some (mkTlsSeen lib transport credentials up budget reports wires (mkEvidence (te_Installed evidence) (checks ++ [mkCheck check answer digests]) [] (te_Below evidence)))
  | Ran act rc =>
      if lp_Runs LP lib act && match act with Handshake _ => transport && credentials && negb up | ReadFrom _ _ _ | WriteTo _ _ _ => up | Shutdown _ => true end
      then Some (mkTlsSeen lib transport credentials up budget reports
                   (match act with WriteTo _ data _ => extend_last wires (takeZ rc data) | _ => wires end) evidence)
      else None
  | TransportOpened ok =>
      if negb transport && negb credentials && lp_IsIdle LP lib
      then Some (mkTlsSeen lib ok credentials up budget reports wires (mkEvidence (mkInstalled false None 0) [] [] (negb ok))) else None
  | TransportClosed =>
      if negb credentials && lp_IsIdle LP lib
      then Some (mkTlsSeen lib false credentials false budget reports wires evidence) else None
  | CredentialsAsked context ok installed =>
      if transport && negb credentials && negb up && lp_Takes LP lib context
      then Some (mkTlsSeen lib transport true up budget reports wires (mkEvidence installed checks digests (negb ok))) else None
  | CredentialsReleased =>
      if credentials && lp_IsIdle LP lib
      then Some (mkTlsSeen lib transport false up budget reports wires evidence) else None
  | BudgetTaken ms =>
      if transport && credentials && negb up
      then Some (mkTlsSeen lib transport credentials up ms reports wires evidence) else None
  | Slept ms =>
      if transport && credentials && negb up && (0 <? ms) && (ms <=? budget)
      then Some (mkTlsSeen lib transport credentials up (budget - ms) reports wires evidence) else None
  | SessionMade =>
      if transport && credentials && negb up && negb (lp_IsIdle LP lib)
      then Some (mkTlsSeen lib transport credentials true budget reports (wires ++ [[]]) evidence) else None
  | TlsReported event => Some (mkTlsSeen lib transport credentials up budget (reports ++ [event]) wires evidence)
  end.
Definition tls_observed (es : list (tls_event C V R)) : option seen :=
  fold_left (fun s e => match s with Some s => observe_tls s e | None => None end) es (Some nothing_done).
Lemma tls_observed_snoc es e : tls_observed (es ++ [e]) = match tls_observed es with Some s => observe_tls s e | None => None end.
Proof. unfold tls_observed. by rewrite fold_left_app. Qed.
Definition tls_seen_of {H N P E} (w : tls_world C V R H N P E) : seen := default nothing_done (tls_observed (tv_Trace w)).
End observer.

(** The reports of a TLS stream. *)
Definition tls_kind (source : SolidSyslogErrorSource) : stream_kind := {|
  sk_Source := source;
  sk_AlreadyOpen := SOLIDSYSLOG_TLS_STREAM_ERROR_ALREADY_OPEN;
  sk_FailedCategory := fun category => bool_decide (category ∈ [SOLIDSYSLOG_CAT_TLS_STREAM_INIT_FAILED; SOLIDSYSLOG_CAT_TLS_STREAM_HANDSHAKE_FAILED; SOLIDSYSLOG_CAT_BAD_CONFIG]);
  sk_Warning := fun event => bool_decide (ev_Severity event = SOLIDSYSLOG_SEVERITY_WARNING /\ ev_Category event = SOLIDSYSLOG_CAT_BAD_CONFIG)
|}.

(** * Running an operation in what is seen *)

Section leads.
Context {C V R H N P E L : Type} `{HT : ErrorTap E} `{HL : TlsLibrary C V R E} (LP : lib_protocol C L).
Abbreviation op := (tls_op C V R H N P E).
Abbreviation stream := (tls_stream H N P E).
Abbreviation seen := (tls_seen C V R L).
Implicit Types (w : tls_world C V R H N P E) (self : stream) (s : seen).

Definition tls_stands self s w : Prop := tv_Self w = self /\ tls_observed LP (tv_Trace w) = Some s.
(** An operation whose calls keep the protocols ends in a stream, and in what is then
    seen, that [Q] allows, whatever the library, the transport and the integrator's
    functions answered. *)
Definition tls_leads {A} (m : op A) self s (Q : A -> stream -> seen -> Prop) : Prop :=
  forall w, tls_stands self s w -> wp m (fun a w' => exists self' s', tls_stands self' s' w' /\ Q a self' s') w.

Lemma tleads_bind {A B} (m : op A) (k : A -> op B) self s Q :
  tls_leads m self s (fun a self' s' => tls_leads (k a) self' s' Q) -> tls_leads (let! a := m in k a) self s Q.
Proof using. intros Hm w Hw. apply wp_bind. eapply wp_mono; [by apply Hm |]. intros a w' (self' & s' & Hw' & Hk). by apply Hk. Qed.
Lemma tleads_ret {A} (a : A) self s (Q : A -> stream -> seen -> Prop) : Q a self s -> tls_leads (st_ret a) self s Q.
Proof using. intros HQ w Hw. apply wp_ret. eauto. Qed.
Lemma tleads_mono {A} (m : op A) self s (Q Q' : A -> stream -> seen -> Prop) :
  tls_leads m self s Q -> (forall a self' s', Q a self' s' -> Q' a self' s') -> tls_leads m self s Q'.
Proof using. intros Hm HQ w Hw. eapply wp_mono; [by apply Hm |]. intros a w' (self' & s' & Hw' & Ha). eauto 6. Qed.
Lemma tleads_and (m k : op bool) self s Q :
  tls_leads m self s (fun b self' s' => if b : bool then tls_leads k self' s' Q else Q false self' s') -> tls_leads (m &&! k) self s Q.
Proof using. intros Hm. apply tleads_bind. eapply tleads_mono; [exact Hm |]. intros [] self' s'; [done | by apply tleads_ret]. Qed.
Lemma tleads_get {A} (f : stream -> A) self s Q : Q (f self) self s -> tls_leads (tls_get f) self s Q.
Proof using. intros HQ w Hw. apply wp_get. destruct Hw as [<- Hs]. exists (tv_Self w), s. by split. Qed.
Lemma tleads_set (f : stream -> stream) self s (Q : unit -> stream -> seen -> Prop) : Q tt (f self) s -> tls_leads (tls_set f) self s Q.
Proof using. intros HQ w [<- Hs]. apply wp_mod. exists (f (tv_Self w)), s. by split. Qed.
Lemma tleads_env {A} (m : ST E A) (F : A -> Prop) self s (Q : A -> stream -> seen -> Prop) :
  (forall e, F (fst (m e))) -> (forall a, F a -> Q a self s) -> tls_leads (tls_env m) self s Q.
Proof using.
  intros HF HQ w Hw. apply wp_zoom. unfold wp. exists self, s. split; [by destruct Hw; split | apply HQ, HF].
Qed.
Lemma tleads_any_env {A} (m : ST E A) self s (Q : A -> stream -> seen -> Prop) : (forall a, Q a self s) -> tls_leads (tls_env m) self s Q.
Proof using. intros HQ. by apply (tleads_env m (fun _ => True)). Qed.
Lemma tleads_look self s (Q : E -> stream -> seen -> Prop) : (forall e, Q e self s) -> tls_leads (st_get tv_Env) self s Q.
Proof using. intros HQ w Hw. apply wp_get. exists self, s. by split. Qed.
Lemma tleads_environment e self s (Q : unit -> stream -> seen -> Prop) : Q tt self s -> tls_leads (environment_is e) self s Q.
Proof using. intros HQ w Hw. apply wp_mod. exists self, s. split; [by destruct Hw; split | done]. Qed.
Lemma tleads_happens e self s s' (Q : unit -> stream -> seen -> Prop) : observe_tls LP s e = Some s' -> Q tt self s' -> tls_leads (tls_happens e) self s Q.
Proof using.
  intros Ho HQ w [<- Hs]. apply wp_mod. exists (tv_Self w), s'. split; [| done]. split; [done |].
  change (tls_observed LP (tv_Trace w ++ [e]) = Some s'). by rewrite tls_observed_snoc, Hs.
Qed.
(** Each round that goes on brings the measure down. *)
Lemma tleads_loop {A} (I : A -> stream -> seen -> Prop) (m : A -> Z) (body : A -> op (bool * A)) : forall fuel a self s (Q : A -> stream -> seen -> Prop),
  I a self s -> m a < Z.of_nat fuel ->
  (forall a self s, I a self s -> 0 <= m a /\ tls_leads (body a) self s (fun r self' s' => if fst r then I (snd r) self' s' /\ m (snd r) < m a else Q (snd r) self' s')) ->
  tls_leads (loopM fuel body a) self s Q.
Proof using.
  induction fuel as [| fuel IH]; intros a self s Q HI Hm Hstep; cbn [loopM]; [destruct (Hstep a self s HI); lia |].
  apply tleads_bind. eapply tleads_mono; [apply Hstep, HI |]. intros [[] a'] self' s'; cbn [fst snd]; [| by apply tleads_ret].
  intros [HI' Hm']. apply IH; [done | lia | done].
Qed.
Lemma tleads_call (c : C) self lib tr cr up bu rs ws te (Q : Z -> stream -> seen -> Prop) :
  (forall answer, exists lib', lp_Step LP lib c answer = Some lib' /\ Q answer self (mkTlsSeen lib' tr cr up bu rs ws te)) ->
  tls_leads (tls_call c) self (mkTlsSeen lib tr cr up bu rs ws te) Q.
Proof using.
  intros HQ. apply tleads_bind, tleads_any_env. intros answer. destruct (HQ answer) as (lib' & Hs & Hq). apply tleads_bind.
  eapply tleads_happens; [| by apply tleads_ret]. cbn. by rewrite Hs.
Qed.
Lemma tleads_quiet (c : C) self lib tr cr up bu rs ws te (Q : unit -> stream -> seen -> Prop) :
  (forall answer, exists lib', lp_Step LP lib c answer = Some lib' /\ Q tt self (mkTlsSeen lib' tr cr up bu rs ws te)) ->
  tls_leads (tls_quiet c) self (mkTlsSeen lib tr cr up bu rs ws te) Q.
Proof using.
  intros HQ. apply tleads_bind, tleads_call. intros answer. destruct (HQ answer) as (lib' & Hs & Hq). exists lib'. split; [done | by apply tleads_ret].
Qed.
End leads.

(** One step of an operation, on a stream and a view that are constructor terms. *)
Ltac tlead_step :=
  lazymatch goal with
  | |- tls_leads _ (st_bind _ _) _ _ _ => apply tleads_bind
  | |- tls_leads _ (st_ret _) _ _ _ => apply tleads_ret
  | |- tls_leads _ (andM _ _) _ _ _ => apply tleads_and
  | |- tls_leads _ (tls_get _) _ _ _ => apply tleads_get; cbn [tl_Base tl_Config tl_OpenHealth tl_CredentialsInstalled tl_Installed tl_Profile tl_Handles tl_Notes]
  | |- tls_leads _ (tls_set _) _ _ _ => apply tleads_set; cbn [set_field tl_Base tl_Config tl_OpenHealth tl_CredentialsInstalled tl_Installed tl_Profile tl_Handles tl_Notes]
  end.
Ltac tleads_on := cbv beta iota; repeat (tlead_step; cbv beta iota).

(** * The steps of Open, for any pack *)

(** What a pack's quiet callbacks keep: the verdict changes its notes and makes digests,
    the others change nothing of the stream's. *)
Section steps.
Context {C V R H N P E L : Type} `{HT : ErrorTap E} `{HL : TlsLibrary C V R E} (K : tls_pack C V R H N P E) (LP : lib_protocol C L).
Abbreviation op := (tls_op C V R H N P E).
Abbreviation stream := (tls_stream H N P E).
Abbreviation seen := (tls_seen C V R L).
Abbreviation leads := (tls_leads LP).
Abbreviation evidence := (tls_evidence C V R).
Abbreviation kind := (tls_kind (tp_Source K)).
Implicit Types (self : stream) (s : seen).

Record callbacks_ok : Prop := {
  judge_stirs : forall check base cfg h ci inst p Hd n lib tr cr up bu rs ws te,
    leads (tp_Judge K check) (mkTlsStream base cfg h ci inst p Hd n) (mkTlsSeen lib tr cr up bu rs ws te)
      (fun _ self' s' => exists n' digests, self' = mkTlsStream base cfg h ci inst p Hd n' /\
        s' = mkTlsSeen lib tr cr up bu rs ws (mkEvidence (te_Installed te) (te_Checks te) digests (te_Below te)));
  receive_keeps : forall handle buffer size self s (Q : Z * bytes -> stream -> seen -> Prop),
    (forall r, Q r self s) -> leads (tp_Receive K handle buffer size) self s Q;
  transmit_keeps : forall handle data size self s (Q : Z -> stream -> seen -> Prop),
    (forall r, Q r self s) -> leads (tp_Transmit K handle data size) self s Q
}.

Section playing.
Context (CB : callbacks_ok).
Context (base : stream_vtable) (cfg : tls_wiring P E) (h : SolidSyslogStreamOpenHealth) (ci : bool) (inst : SolidSyslogTlsCredentialsInstalled) (p : P) (Hd : H).
Context (lib : L) (tr cr up : bool) (bu : Z) (rs : list SolidSyslogErrorEvent) (ws : list bytes).
Abbreviation self_of n := (mkTlsStream base cfg h ci inst p Hd n).
Abbreviation seen_of te := (mkTlsSeen lib tr cr up bu rs ws te).

(** A call that may call back keeps what its verdicts keep of the notes and the
    evidence. *)
Definition judging_keeps (J : N -> evidence -> Prop) : Prop := forall check n te, J n te ->
  leads (tp_Judge K check) (self_of n) (seen_of te) (fun r self' s' => exists n' digests, self' = self_of n' /\
    s' = seen_of (mkEvidence (te_Installed te) (te_Checks te) digests (te_Below te)) /\
    J n' (mkEvidence (te_Installed te) (te_Checks te ++ [mkCheck check r digests]) [] (te_Below te))).
Lemma play_leads (J : N -> evidence -> Prop) (F : Z -> Prop) : judging_keeps J -> forall t n te, J n te -> ends_in F t ->
  leads (tls_play K t) (self_of n) (seen_of te) (fun r self' s' => exists n' te', self' = self_of n' /\ s' = seen_of te' /\ te_Below te' = te_Below te /\ J n' te' /\ F (fst r)).
Proof using CB.
  intros HJ. induction t as [rc buffer e | check e k IH | handle buffer size e k IH | handle data size e k IH | handle cmd e k IH];
    intros n te Hn Hf; cbn [tls_play ends_in] in *; try (apply tleads_bind, tleads_environment).
  - apply tleads_ret. eauto 8.
  - apply tleads_bind. eapply tleads_mono; [by apply HJ |]. intros r self' s' (n' & digests & -> & -> & Hn'). apply tleads_bind.
    eapply tleads_happens; [done |]. apply tleads_bind, tleads_look. intros e'.
    by apply (IH r e' n' (mkEvidence (te_Installed te) (te_Checks te ++ [mkCheck check r digests]) [] (te_Below te))).
  - apply tleads_bind, (receive_keeps CB). intros r. apply tleads_bind, tleads_look. intros e'. by apply IH.
  - apply tleads_bind, (transmit_keeps CB). intros r. apply tleads_bind, tleads_look. intros e'. by apply IH.
  - by apply IH.
Qed.
Lemma judging_stirs : judging_keeps (fun _ _ => True).
Proof using CB.
  intros check n te _. eapply tleads_mono; [apply (judge_stirs CB) |]. intros r self' s' (n' & digests & -> & ->). eauto 6.
Qed.
(** What a call makes of the wires. *)
Definition act_wires (act : tls_act) (rc : Z) : list bytes := match act with WriteTo _ data _ => extend_last ws (takeZ rc data) | _ => ws end.
Lemma perform_leads (J : N -> evidence -> Prop) (F : Z -> Prop) act n te : judging_keeps J -> J n te -> (forall e, ends_in F (tls_run act e)) ->
  lp_Runs LP lib act && match act with Handshake _ => tr && cr && negb up | ReadFrom _ _ _ | WriteTo _ _ _ => up | Shutdown _ => true end = true ->
  leads (tls_perform K act) (self_of n) (seen_of te) (fun r self' s' => exists n' te', self' = self_of n' /\
    s' = mkTlsSeen lib tr cr up bu rs (act_wires act (fst r)) te' /\ te_Below te' = te_Below te /\ J n' te' /\ F (fst r)).
Proof using CB.
  intros HJ Hn Hf Hr. unfold tls_perform. apply tleads_bind, tleads_look. intros e. apply tleads_bind. eapply tleads_mono; [by apply play_leads |].
  intros r self' s' (n' & te' & -> & -> & Hb & Hn' & HF). apply tleads_bind. eapply tleads_happens.
  - cbn [observe_tls]. rewrite Hr. reflexivity.
  - apply tleads_ret. exists n', te'. split; [done |]. split; [by destruct act | done].
Qed.
Lemma ends_anyhow {V' R' E'} (t : tls_activity V' R' E') : ends_in (fun _ => True) t.
Proof using. induction t; cbn [ends_in]; auto. Qed.
Lemma perform_quietly (F : Z -> Prop) act n te (Q : Z * bytes -> stream -> seen -> Prop) : (forall e, ends_in F (tls_run act e)) ->
  lp_Runs LP lib act && match act with Handshake _ => tr && cr && negb up | ReadFrom _ _ _ | WriteTo _ _ _ => up | Shutdown _ => true end = true ->
  (forall r n' te', F (fst r) -> te_Below te' = te_Below te -> Q r (self_of n') (mkTlsSeen lib tr cr up bu rs (act_wires act (fst r)) te')) ->
  leads (tls_perform K act) (self_of n) (seen_of te) Q.
Proof using CB.
  intros Hf Hr HQ. eapply tleads_mono; [by apply (perform_leads (fun _ _ => True) F); [apply judging_stirs | | |] |].
  intros r self' s' (n' & te' & -> & -> & Hb & _ & HF). by apply HQ.
Qed.
End playing.

(** ** Reports *)

Definition tls_fault (severity category code : Z) : SolidSyslogErrorEvent := mkErrorEvent severity category false (Some (tp_Source K)) code 0.
Definition open_faults (h : SolidSyslogStreamOpenHealth) (severity category code : Z) : list SolidSyslogErrorEvent :=
  if fst (StreamOpenHealth_Admit h code) then [tls_fault severity category code] else [].
Lemma open_faults_once h severity category code :
  open_faults h severity category code = if bool_decide (latch_of h = Some code) then [] else [tls_fault severity category code].
Proof using.
  unfold open_faults, StreamOpenHealth_Admit, latch_of. destruct h as [[] d]; cbn [oh_Failing oh_FailedDetail fst andb negb]; [| done].
  destruct (Z.eqb_spec d code) as [-> | Hne]; cbn [negb]; [by rewrite bool_decide_true | by rewrite bool_decide_false by congruence].
Qed.
Lemma ReportOpenFailure_leads severity category code base cfg h ci inst p Hd n lib tr cr up bu rs ws te (Q : unit -> stream -> seen -> Prop) :
  Q tt (mkTlsStream base cfg (latched h code) ci inst p Hd n) (mkTlsSeen lib tr cr up bu (rs ++ open_faults h severity category code) ws te) ->
  leads (TlsStream_ReportOpenFailure K severity category code) (mkTlsStream base cfg h ci inst p Hd n) (mkTlsSeen lib tr cr up bu rs ws te) Q.
Proof using.
  intros HQ. unfold TlsStream_ReportOpenFailure. tleads_on. apply (tleads_env _ _ (fun after => after = latched h code)).
  { intros e. unfold SolidSyslogStreamOpenHealth_ReportFailure, latched. by destruct (StreamOpenHealth_Admit h code) as [[] h']. }
  intros _ ->. tleads_on. unfold open_faults in HQ. destruct (fst (StreamOpenHealth_Admit h code)).
  - by eapply tleads_happens.
  - rewrite app_nil_r in HQ. by tleads_on.
Qed.
Lemma TlsReport_leads severity category code self lib tr cr up bu rs ws te (Q : unit -> stream -> seen -> Prop) :
  Q tt self (mkTlsSeen lib tr cr up bu (rs ++ [tls_fault severity category code]) ws te) ->
  leads (TlsStream_Report K severity category code) self (mkTlsSeen lib tr cr up bu rs ws te) Q.
Proof using. intros HQ. unfold TlsStream_Report. tleads_on. apply tleads_any_env. intros _. tleads_on. by eapply tleads_happens. Qed.

(** What Close lets go of last. *)
Lemma ReleaseCredentials_leads base cfg h ci inst p Hd n lib tr up bu rs ws te (Q : unit -> stream -> seen -> Prop) : lp_IsIdle LP lib = true ->
  Q tt (mkTlsStream base cfg h false inst p Hd n) (mkTlsSeen lib tr false up bu rs ws te) ->
  leads TlsStream_ReleaseCredentials (mkTlsStream base cfg h ci inst p Hd n) (mkTlsSeen lib tr ci up bu rs ws te) Q.
Proof using.
  intros Hi HQ. unfold TlsStream_ReleaseCredentials. tleads_on. destruct ci; tleads_on; [| done]. apply tleads_any_env. intros _. tleads_on.
  eapply tleads_happens; [cbn; rewrite Hi; reflexivity | exact HQ].
Qed.
Lemma close_transport_leads self lib tr up bu rs ws te (Q : unit -> stream -> seen -> Prop) : lp_IsIdle LP lib = true ->
  Q tt self (mkTlsSeen lib false false false bu rs ws te) -> leads close_transport self (mkTlsSeen lib tr false up bu rs ws te) Q.
Proof using.
  intros Hi HQ. unfold close_transport. tleads_on. apply tleads_any_env. intros _. tleads_on. eapply tleads_happens; [cbn; rewrite Hi; reflexivity | exact HQ].
Qed.

(** ** On the way up, and down *)

(** What is held, and what is relied on at each stage of an Open. *)
Definition tls_stage : Type := L -> H -> P -> SolidSyslogTlsCredentialsInstalled -> N -> evidence -> Prop.
Definition warns : list SolidSyslogErrorEvent -> Prop := Forall (fun e => sk_Warning kind e = true).
Lemma warned_again warnings e (te : evidence) : warns warnings /\ te_Below te = false -> sk_Warning kind e = true -> warns (warnings ++ [e]) /\ te_Below te = false.
Proof using. intros [Hw Hb] He. split; [| exact Hb]. apply Forall_app. split; [exact Hw | by apply Forall_singleton]. Qed.
(** What an Open that failed has reported, and its latch, by whether it fell with what is
    below it. *)
Definition failed (below : bool) (h : SolidSyslogStreamOpenHealth) (faults : list SolidSyslogErrorEvent) (h' : SolidSyslogStreamOpenHealth) : Prop :=
  (below = true /\ h' = h /\ warns faults) \/
  below = false /\ exists warnings severity category code, faults = warnings ++ open_faults h severity category code /\ h' = latched h code /\
    sk_FailedCategory kind category = true /\ warns warnings.

Section attempt.
(** The stream as the Open finds it; [Linked] is what Close needs. *)
Context (base : stream_vtable) (cfg : tls_wiring P E) (h0 : SolidSyslogStreamOpenHealth) (rs0 : list SolidSyslogErrorEvent) (ws : list bytes).
Context (Linked : L -> H -> Prop).

Definition climbing (cr : bool) (bu : Z) (T : tls_stage) self s : Prop :=
  exists inst p Hd n lib warnings te,
    self = mkTlsStream base cfg h0 cr inst p Hd n /\ s = mkTlsSeen lib true cr false bu (rs0 ++ warnings) ws te /\
    (warns warnings /\ te_Below te = false) /\ T lib Hd p inst n te.
Definition falling self s : Prop :=
  exists cr h1 inst p Hd n lib tr bu faults te,
    self = mkTlsStream base cfg h1 cr inst p Hd n /\ s = mkTlsSeen lib tr cr false bu (rs0 ++ faults) ws te /\
    failed (te_Below te) h0 faults h1 /\ Linked lib Hd.
Definition linked (T : tls_stage) : Prop := forall lib Hd p inst n te, T lib Hd p inst n te -> Linked lib Hd.
(** Up a stage, or down. *)
Definition climbs (m : op bool) (cr : bool) (T : tls_stage) (cr' : bool) (T' : tls_stage) : Prop :=
  forall bu self s, climbing cr bu T self s -> leads m self s (fun b self' s' => if b : bool then climbing cr' bu T' self' s' else falling self' s').

Lemma climbs_and m k cr T cr1 T1 cr' T' : climbs m cr T cr1 T1 -> climbs k cr1 T1 cr' T' -> climbs (m &&! k) cr T cr' T'.
Proof using.
  intros Hm Hk bu self s Hs. apply tleads_and. eapply tleads_mono; [by apply Hm |]. intros [] self1 s1 Hs1; [by apply Hk | done].
Qed.
Lemma climbs_weaken m cr T T1 cr' T' T1' : (forall lib Hd p inst n te, T lib Hd p inst n te -> T1 lib Hd p inst n te) ->
  (forall lib Hd p inst n te, T1' lib Hd p inst n te -> T' lib Hd p inst n te) -> climbs m cr T1 cr' T1' -> climbs m cr T cr' T'.
Proof using.
  intros HT1 HT2 Hm bu self s (inst & p & Hd & n & lib & warnings & te & -> & -> & Hw & Ht). eapply tleads_mono; [apply Hm; do 7 eexists; eauto |].
  intros [] self' s'; [| done]. intros (inst' & p' & Hd' & n' & lib' & warnings' & te' & -> & -> & Hw' & Ht'). do 7 eexists; eauto.
Qed.
Lemma falls T cr bu severity category code self s : linked T -> sk_FailedCategory kind category = true -> climbing cr bu T self s ->
  leads (TlsStream_ReportOpenFailure K severity category code) self s (fun _ => falling).
Proof using.
  intros Hl Hc (inst & p & Hd & n & lib & warnings & te & -> & -> & Hw & Ht). apply ReportOpenFailure_leads. rewrite <- app_assoc.
  do 11 eexists. split; [done |]. split; [done |]. split; [| by eapply Hl]. right. destruct Hw. split; [done |]. eauto 8.
Qed.
Lemma or_report_leads T cr bu ok category code self s (Q : bool -> stream -> seen -> Prop) : linked T -> sk_FailedCategory kind category = true -> climbing cr bu T self s ->
  (ok = true -> climbing cr bu T self s -> Q true self s) -> (forall self' s', ok = false -> falling self' s' -> Q false self' s') ->
  leads (or_report K ok category code) self s Q.
Proof using.
  intros Hl Hc Hs Ht Hf. unfold or_report. destruct ok; cbn [negb]; tleads_on; [by apply Ht |].
  eapply tleads_mono; [by eapply falls |]. intros [] self' s' Hs'. tleads_on. by apply Hf.
Qed.
Lemma climbs_or_report T cr ok category code : linked T -> sk_FailedCategory kind category = true ->
  climbs (or_report K ok category code) cr T cr (fun lib Hd p inst n te => T lib Hd p inst n te /\ ok = true).
Proof using.
  intros Hl Hc bu self s Hs. eapply or_report_leads; [done | done | exact Hs | |]; [| done].
  intros Hok (inst & p & Hd & n & lib & warnings & te & -> & -> & Hw & Ht). do 7 eexists; eauto.
Qed.

(** A step that may fail and has nothing to let go of: what is reported is its caller's. *)
Definition tries (m : op bool) (cr : bool) (T T' Tf : tls_stage) : Prop :=
  forall bu self s, climbing cr bu T self s -> leads m self s (fun b self' s' => climbing cr bu (if b : bool then T' else Tf) self' s').
Lemma tries_and m k cr T T1 T' Tf : tries m cr T T1 Tf -> tries k cr T1 T' Tf -> tries (m &&! k) cr T T' Tf.
Proof using.
  intros Hm Hk bu self s Hs. apply tleads_and. eapply tleads_mono; [by apply Hm |]. intros [] self1 s1 Hs1; [by apply Hk | done].
Qed.
Lemma tries_ret T cr (T' Tf : tls_stage) : (forall lib Hd p inst n te, T lib Hd p inst n te -> T' lib Hd p inst n te) -> tries (st_ret true) cr T T' Tf.
Proof using. intros HT' bu self s (inst & p & Hd & n & lib & warnings & te & -> & -> & Hw & Ht). tleads_on. do 7 eexists. eauto. Qed.
Lemma call_tries T T' Tf cr (c : C) (ok : Z -> bool) :
  (forall lib Hd p inst n te answer, T lib Hd p inst n te -> exists lib', lp_Step LP lib c answer = Some lib' /\
     (if ok answer then T' else Tf) lib' Hd p inst n te) ->
  tries (let! answer := tls_call c in st_ret (ok answer)) cr T T' Tf.
Proof using.
  intros Hc bu self s (inst & p & Hd & n & lib & warnings & te & -> & -> & Hw & Ht). tleads_on. apply tleads_call. intros answer.
  destruct (Hc _ _ _ _ _ _ answer Ht) as (lib' & Hs & Ht'). exists lib'. split; [exact Hs |]. tleads_on. do 7 eexists. eauto.
Qed.
Lemma reported_leads T' Tf cr bu (b : bool) category code self s : linked Tf -> sk_FailedCategory kind category = true ->
  climbing cr bu (if b then T' else Tf) self s -> leads (or_report K b category code) self s (fun b self' s' => if b : bool then climbing cr bu T' self' s' else falling self' s').
Proof using.
  intros Hl Hc Hs. destruct b; unfold or_report; cbn [negb]; tleads_on; [done |]. eapply tleads_mono; [by eapply falls |]. intros [] self' s' Hs'. by tleads_on.
Qed.
Lemma climbs_reported m cr T T' Tf category code : tries m cr T T' Tf -> linked Tf -> sk_FailedCategory kind category = true ->
  climbs (let! ok := m in or_report K ok category code) cr T cr T'.
Proof using.
  intros Hm Hl Hc bu self s Hs. apply tleads_bind. eapply tleads_mono; [by apply Hm |]. intros b self1 s1 Hs1. by eapply reported_leads.
Qed.
(** A quiet call on the way up. *)
Lemma quiet_climbing T T' cr bu (c : C) self s (Q : unit -> stream -> seen -> Prop) : climbing cr bu T self s ->
  (forall lib Hd p inst n te answer, T lib Hd p inst n te -> exists lib', lp_Step LP lib c answer = Some lib' /\ T' lib' Hd p inst n te) ->
  (forall self' s', climbing cr bu T' self' s' -> Q tt self' s') -> leads (tls_quiet c) self s Q.
Proof using.
  intros (inst & p & Hd & n & lib & warnings & te & -> & -> & Hw & Ht) Hc HQ. apply tleads_quiet. intros answer.
  destruct (Hc _ _ _ _ _ _ answer Ht) as (lib' & Hs & Ht'). exists lib'. split; [exact Hs |]. apply HQ. do 7 eexists. eauto.
Qed.
Lemma climbing_weaken T T' cr bu self s : (forall lib Hd p inst n te, T lib Hd p inst n te -> T' lib Hd p inst n te) -> climbing cr bu T self s -> climbing cr bu T' self s.
Proof using. intros HT' (inst & p & Hd & n & lib & warnings & te & -> & -> & Hw & Ht). do 7 eexists. eauto. Qed.

(** The transport: what is held before and after is the same nothing. *)
Lemma open_transport_leads addr inst p Hd n lib bu te : lp_IsIdle LP lib = true -> Linked lib Hd ->
  leads (open_transport addr) (mkTlsStream base cfg h0 false inst p Hd n) (mkTlsSeen lib false false false bu rs0 ws te)
    (fun b self' s' => if b : bool then climbing false bu (fun lib' Hd' p' inst' n' te' => lib' = lib /\ Hd' = Hd /\ p' = p /\ inst' = inst /\ n' = n /\ te' = no_evidence) self' s' else falling self' s').
Proof using.
  intros Hi Hl. unfold open_transport. tleads_on. apply tleads_any_env. intros ok. tleads_on. eapply tleads_happens; [cbn; rewrite Hi; reflexivity |].
  tleads_on. destruct ok.
  - exists inst, p, Hd, n, lib, [], no_evidence. rewrite app_nil_r. do 2 (split; [done |]). split; [by split; [constructor |] | done].
  - exists false, h0, inst, p, Hd, n, lib, false, bu, [], (mkEvidence (mkInstalled false None 0) [] [] true). rewrite app_nil_r.
    split; [done |]. split; [done |]. split; [| done]. left. split; [done |]. split; [done | constructor].
Qed.

(** Credentials, once per Open: the peer can be authorised by what was installed. *)
Definition with_credentials (T : tls_stage) : tls_stage := fun lib Hd p inst n te =>
  TlsStream_PeerIsAuthorisable inst = true /\ exists inst0 te0, T lib Hd p inst0 n te0 /\ te = mkEvidence inst (te_Checks te0) (te_Digests te0) false.
Lemma InstallCredentials_climbs T context : linked T -> (forall lib Hd p inst n te, T lib Hd p inst n te -> lp_Takes LP lib context = true) ->
  climbs (TlsStream_InstallCredentials K context) false T true (with_credentials T).
Proof using.
  intros Hl Ht. set (T1 := fun lib Hd p (inst : SolidSyslogTlsCredentialsInstalled) n (te : evidence) => exists inst0 te0, T lib Hd p inst0 n te0 /\ te = mkEvidence inst (te_Checks te0) (te_Digests te0) false).
  assert (Hl1 : linked T1) by (intros lib Hd p inst n te (inst0 & te0 & Ht0 & _); by eapply Hl).
  assert (Hl2 : linked (with_credentials T)) by (intros lib Hd p inst n te (_ & inst0 & te0 & Ht0 & _); by eapply Hl).
  unfold TlsStream_InstallCredentials. apply climbs_and with true T1; [| apply climbs_and with true (with_credentials T)].
  - intros bu self s (inst & p & Hd & n & lib & warnings & te & -> & -> & Hw & H0). unfold ask_credentials. tleads_on. apply tleads_any_env.
    intros [ok inst']. tleads_on. cbn [fst snd]. eapply tleads_happens; [cbn; rewrite (Ht _ _ _ _ _ _ H0); reflexivity |]. tleads_on.
    assert (Hc : climbing true bu T1 (mkTlsStream base cfg h0 true inst' p Hd n) (mkTlsSeen lib true true false bu (rs0 ++ warnings) ws (mkEvidence inst' (te_Checks te) (te_Digests te) false))).
    { do 7 eexists. split; [done |]. split; [done |]. split; [by destruct Hw |]. by exists inst, te. }
    destruct ok; [exact Hc |]. do 11 eexists. split; [done |]. split; [done |]. split; [left; split; [done |]; by destruct Hw | by eapply Hl].
  - intros bu self s Hs. pose proof Hs as (inst & p & Hd & n & lib & warnings & te & -> & -> & Hw & H0). tleads_on.
    eapply or_report_leads; [exact Hl1 | done | exact Hs | | done]. intros Hok _. do 7 eexists. split; [done |]. split; [done |]. split; [done |]. by split.
  - intros bu self s Hs. pose proof Hs as (inst & p & Hd & n & lib & warnings & te & -> & -> & Hw & H0). unfold TlsStream_FingerprintsAreUsable. tleads_on.
    destruct (SolidSyslogTlsFingerprint_InspectList _ _ _); tleads_on; [exact Hs | |].
    + apply TlsReport_leads. tleads_on. rewrite <- app_assoc. do 7 eexists. split; [done |]. split; [done |]. split; [| done]. by apply warned_again.
    + eapply or_report_leads; [exact Hl2 | done | exact Hs | done | done].
Qed.

(** ** The handshake *)

Lemma u32_min slept budget : 0 <= slept < budget -> budget < 2 ^ 32 -> let poll := TlsStream_HandshakePollMs slept budget in
  0 < poll <= budget - slept /\ u32 (slept + poll) = slept + poll /\ ((budget - (slept + poll)) + 9) / 10 < (budget - slept + 9) / 10.
Proof using.
  intros Hs Hb. unfold TlsStream_HandshakePollMs, HANDSHAKE_POLL_INTERVAL_MILLISECONDS. cbv zeta. rewrite (u32_small (budget - slept)) by lia.
  destruct (Z.ltb_spec (budget - slept) 10); (split; [lia |]); (split; [apply u32_small; lia |]).
  - replace (budget - (slept + (budget - slept)) + 9) with 9 by lia. change (9 / 10) with 0. apply Z.div_str_pos. lia.
  - replace (budget - slept + 9) with (budget - (slept + 10) + 9 + 1 * 10) by lia. rewrite Z.div_add by lia. lia.
Qed.
(** The loop ends, within its budget, however often the library is not done yet. *)
Lemma PerformHandshake_leads T T' (Turn : op handshake_turn) : linked T ->
  (forall bu self s, climbing true bu T self s -> leads Turn self s (fun turn self' s' =>
     match turn with HandshakeOver true => climbing true bu T' self' s' | HandshakeOver false => falling self' s' | _ => climbing true bu T self' s' end)) ->
  forall bu self s, climbing true bu T self s ->
  leads (TlsStream_PerformHandshake K Turn) self s (fun b self' s' => if b : bool then exists bu', climbing true bu' T' self' s' else falling self' s').
Proof using.
  intros Hl Hturn bu self s (inst & p & Hd & n & lib & warnings & te & -> & -> & Hw & H0). unfold TlsStream_PerformHandshake, TlsStream_ResolveHandshakeTimeoutMs. tleads_on.
  apply tleads_any_env. intros ms. tleads_on. eapply tleads_happens; [reflexivity |]. tleads_on. pose proof (Z.mod_pos_bound ms (2 ^ 32)). set (budget := u32 ms).
  assert (Hb : 0 <= budget < 2 ^ 32) by (unfold budget, u32; lia).
  apply (tleads_loop LP (fun l self s => 0 <= fst l <= budget /\ climbing true (budget - fst l) T self s) (fun l => (budget - fst l + 9) / 10)).
  - split; [cbn; lia |]. cbn [fst]. rewrite Z.sub_0_r. do 7 eexists. split; [done |]. by split.
  - cbn [fst]. unfold handshake_fuel, HANDSHAKE_POLL_INTERVAL_MILLISECONDS. fold budget. pose proof (Z.div_pos budget 10 ltac:(lia) ltac:(lia)).
    pose proof (Z.div_le_mono (budget - 0 + 9) (budget + 1 * 10) 10 ltac:(lia) ltac:(lia)) as Hd'. rewrite Z.div_add in Hd' by lia. lia.
  - intros [slept r] self s [Hs Hc]. cbn [fst] in *. split; [apply Z.div_pos; lia |]. unfold handshake_round. cbn [fst]. tleads_on.
    eapply tleads_mono; [by apply Hturn |]. intros [[] | detail |] self' s' Hs'; tleads_on; cbn [fst snd]; tleads_on; cbn [fst snd].
    + by exists (budget - slept).
    + exact Hs'.
    + eapply tleads_mono; [by eapply falls |]. intros [] self1 s1 Hf. tleads_on. cbn [fst snd]. by tleads_on.
    + unfold TlsStream_IsHandshakeBudgetExhausted. destruct (Z.leb_spec budget slept); tleads_on.
      * eapply tleads_mono; [by eapply falls |]. intros [] self1 s1 Hf. tleads_on. cbn [fst snd]. by tleads_on.
      * destruct (u32_min slept budget) as (Hp & -> & Hm); [lia | lia |]. destruct Hs' as (inst' & p' & Hd1 & n' & lib' & warnings' & te' & -> & -> & Hw' & Ht').
        tleads_on. apply tleads_any_env. intros _. tleads_on. eapply tleads_happens.
        { cbn [observe_tls andb negb]. rewrite (proj2 (Z.ltb_lt _ _)), (proj2 (Z.leb_le _ _)) by lia. reflexivity. }
        tleads_on. cbn [fst snd]. split; [| lia]. split; [lia |]. do 7 eexists. split; [done |]. split; [| done]. f_equal. lia.
Qed.
End attempt.
End steps.

(** * The contract and the protocol, for any pack that keeps its laws *)

Section contract.
Context {C V R H N P E L : Type} `{HT : ErrorTap E} `{HL : TlsLibrary C V R E} (K : tls_pack C V R H N P E) (LP : lib_protocol C L).
Abbreviation op := (tls_op C V R H N P E).
Abbreviation stream := (tls_stream H N P E).
Abbreviation seen := (tls_seen C V R L).
Abbreviation leads := (tls_leads LP).
Abbreviation kind := (tls_kind (tp_Source K)).
Context (IsOpen : stream -> bool) (Establish : SolidSyslogAddress -> op bool) (NothingYet : Z -> op bool) (Close : op unit).
(** What the library holds and what the handles are: nothing, a session that is made,
    and what Close can release. *)
Context (Idle Live Linked : L -> H -> Prop).
Implicit Types (self : stream) (s : seen) (w : tls_world C V R H N P E).

(** A session that is up, and nothing at all. *)
Definition is_live base cfg h rs ws self s : Prop := exists inst p Hd n lib bu te,
  self = mkTlsStream base cfg h true inst p Hd n /\ s = mkTlsSeen lib true true true bu rs ws te /\ Live lib Hd.
Definition is_down base cfg h rs ws self s : Prop := exists inst p Hd n lib bu te,
  self = mkTlsStream base cfg h false inst p Hd n /\ s = mkTlsSeen lib false false false bu rs ws te /\ Idle lib Hd.

Definition fell_below s : bool := te_Below (tn_Evidence s).

(** What a pack owes the common code. *)
Record pack_ok : Prop := {
  pk_callbacks : callbacks_ok K LP;
  pk_idle : forall lib Hd, Idle lib Hd -> lp_IsIdle LP lib = true /\ Linked lib Hd;
  pk_live : forall lib Hd, Live lib Hd -> lp_IsIdle LP lib = false /\ Linked lib Hd /\
    (forall buffer size, lp_Runs LP lib (ReadFrom (tp_Session K Hd) buffer size) = true) /\
    (forall data size, lp_Runs LP lib (WriteTo (tp_Session K Hd) data size) = true);
  pk_open_up : forall base cfg h inst p Hd n lib, Live lib Hd -> IsOpen (mkTlsStream base cfg h true inst p Hd n) = true;
  pk_open_down : forall base cfg h inst p Hd n lib, Idle lib Hd -> IsOpen (mkTlsStream base cfg h false inst p Hd n) = false;
  pk_length : forall size, 0 <= size -> Z.max 0 (tp_Length K size) <= size;
  pk_read : forall ssl buffer size e, ends_in (fun rc => rc <= Z.max 0 size) (tls_run (ReadFrom ssl buffer size) e);
  pk_nothing : forall rc base cfg h inst p Hd n lib bu rs ws te (Q : bool -> stream -> seen -> Prop), Live lib Hd ->
    (forall b, Q b (mkTlsStream base cfg h true inst p Hd n) (mkTlsSeen lib true true true bu rs ws te)) ->
    leads (NothingYet rc) (mkTlsStream base cfg h true inst p Hd n) (mkTlsSeen lib true true true bu rs ws te) Q;
  pk_close : forall base cfg h ci inst p Hd n lib tr up bu rs ws te, Linked lib Hd ->
    leads Close (mkTlsStream base cfg h ci inst p Hd n) (mkTlsSeen lib tr ci up bu rs ws te) (fun _ self' s' => is_down base cfg h rs ws self' s' /\ fell_below s' = te_Below te);
  pk_establish : forall addr base cfg h rs ws self s, is_down base cfg h rs ws self s ->
    leads (Establish addr) self s (fun b self' s' => if b : bool
      then exists bu, climbing K base cfg h rs ws true bu (fun lib Hd _ _ _ _ => Live lib Hd) self' s'
      else exists faults h1, failed K (fell_below s') h faults h1 /\ is_down base cfg h1 (rs ++ faults) ws self' s')
}.
Context (PK : pack_ok).

Definition tls_agrees self s : Prop := exists base cfg h rs,
  (exists before conn, is_live base cfg h rs (before ++ [conn]) self s) \/ (exists ws, is_down base cfg h rs ws self s).
Definition tls_ok w : Prop := tl_Base (tv_Self w) = OwnStreamVtable /\ exists s, tls_observed LP (tv_Trace w) = Some s /\ tls_agrees (tv_Self w) s.
(** The world as the contract sees it. *)
Definition tls_view self s : stream_state := mkStreamState (IsOpen self) (latch_of (tl_OpenHealth self)) (tn_Wires s).
Definition tls_state w : stream_state := tls_view (tv_Self w) (tls_seen_of LP w).
Definition tls_reports w : list SolidSyslogErrorEvent := tn_Reports (tls_seen_of LP w).
Definition tls_below w : bool := fell_below (tls_seen_of LP w).
Definition tls_usable w : Prop := IsOpen (tv_Self w) = true.

(** The step of the contract a stream and its view make. *)
Definition tls_contracted self s (step : bool -> stream_state -> list SolidSyslogErrorEvent -> stream_state -> Prop) self' s' : Prop :=
  tl_Base self' = tl_Base self /\ tls_agrees self' s' /\ exists rs, step (fell_below s') (tls_view self s) rs (tls_view self' s') /\ tn_Reports s' = tn_Reports s ++ rs.

Lemma live_view base cfg h rs ws self s : is_live base cfg h rs ws self s -> tls_view self s = mkStreamState true (latch_of h) ws /\ tn_Reports s = rs /\ tl_Base self = base.
Proof using PK. intros (inst & p & Hd & n & lib & bu & te & -> & -> & Hl). unfold tls_view. by rewrite (pk_open_up PK _ _ _ _ _ _ _ _ Hl). Qed.
Lemma down_view base cfg h rs ws self s : is_down base cfg h rs ws self s -> tls_view self s = mkStreamState false (latch_of h) ws /\ tn_Reports s = rs /\ tl_Base self = base.
Proof using PK. intros (inst & p & Hd & n & lib & bu & te & -> & -> & Hl). unfold tls_view. by rewrite (pk_open_down PK _ _ _ _ _ _ _ _ Hl). Qed.
Lemma live_agrees base cfg h rs before conn self s : is_live base cfg h rs (before ++ [conn]) self s -> tls_agrees self s.
Proof using. intros. exists base, cfg, h, rs. left. eauto. Qed.
Lemma down_agrees base cfg h rs ws self s : is_down base cfg h rs ws self s -> tls_agrees self s.
Proof using. intros. exists base, cfg, h, rs. right. eauto. Qed.
Hint Resolve live_agrees down_agrees : core.

Lemma close_leads base cfg h ci inst p Hd n lib tr up bu rs ws te : Linked lib Hd ->
  leads Close (mkTlsStream base cfg h ci inst p Hd n) (mkTlsSeen lib tr ci up bu rs ws te) (fun _ => is_down base cfg h rs ws).
Proof using PK. intros Hl. eapply tleads_mono; [by apply (pk_close PK) |]. by intros _ self' s' [Hd' _]. Qed.
Lemma Close_down base cfg h rs ws self s : is_live base cfg h rs ws self s \/ is_down base cfg h rs ws self s ->
  leads Close self s (fun _ => is_down base cfg h rs ws).
Proof using PK.
  intros [(inst & p & Hd & n & lib & bu & te & -> & -> & Hl) | (inst & p & Hd & n & lib & bu & te & -> & -> & Hl)]; apply close_leads.
  - by apply (pk_live PK) in Hl as (_ & ? & _).
  - by apply (pk_idle PK) in Hl as [_ ?].
Qed.

Lemma TlsOpen_contract addr self s : tls_agrees self s ->
  leads (TlsStream_Open K IsOpen Establish addr) self s (fun b => tls_contracted self s (fun fell t rs => opens kind fell t b rs)).
Proof using PK.
  intros (base & cfg & h & rs & [(before & conn & Hs) | (ws & Hs)]); unfold TlsStream_Open; tleads_on.
  - destruct (live_view _ _ _ _ _ _ _ Hs) as (Ev & Er0 & Eb). unfold tls_contracted. rewrite Ev, Er0, Eb. pose proof (f_equal st_Open Ev) as Eo. cbn in Eo. rewrite Eo.
    tleads_on. destruct Hs as (inst & p & Hd & n & lib & bu & te & -> & -> & Hl). apply TlsReport_leads. tleads_on. split; [done |].
    assert (Hs' : is_live base cfg h (rs ++ [tls_fault K SOLIDSYSLOG_BAD_ARGUMENT_SEVERITY SOLIDSYSLOG_CAT_BAD_ARGUMENT SOLIDSYSLOG_TLS_STREAM_ERROR_ALREADY_OPEN]) (before ++ [conn])
      (mkTlsStream base cfg h true inst p Hd n) (mkTlsSeen lib true true true bu (rs ++ [tls_fault K SOLIDSYSLOG_BAD_ARGUMENT_SEVERITY SOLIDSYSLOG_CAT_BAD_ARGUMENT SOLIDSYSLOG_TLS_STREAM_ERROR_ALREADY_OPEN]) (before ++ [conn]) te)) by (do 7 eexists; eauto).
    split; [eauto |]. eexists. split; [| done]. destruct (live_view _ _ _ _ _ _ _ Hs') as (-> & _). by apply opens_refused.
  - destruct (down_view _ _ _ _ _ _ _ Hs) as (Ev & Er0 & Eb). unfold tls_contracted. rewrite Ev, Er0, Eb. pose proof (f_equal st_Open Ev) as Eo. cbn in Eo. rewrite Eo.
    tleads_on. eapply tleads_mono; [by apply (pk_establish PK) |]. intros [] self' s' Hs'; tleads_on.
    + destruct Hs' as (bu & inst & p & Hd & n & lib & warnings & te & -> & -> & Hw & Hl). tleads_on. eapply tleads_happens.
      { cbn [observe_tls andb negb]. rewrite (proj1 (pk_live PK _ _ Hl)). reflexivity. }
      tleads_on. split; [done |].
      assert (Hs' : is_live base cfg (SolidSyslogStreamOpenHealth_Opened h) (rs ++ warnings) (ws ++ [[]])
        (mkTlsStream base cfg (SolidSyslogStreamOpenHealth_Opened h) true inst p Hd n) (mkTlsSeen lib true true true bu (rs ++ warnings) (ws ++ [[]]) te)) by (do 7 eexists; eauto).
      destruct Hw as [Hw Hb]. split; [exact (live_agrees _ _ _ _ _ _ _ _ Hs') |]. exists warnings. split; [| done].
      refine (eq_ind_r (fun t => opens kind _ _ true warnings t) _ (proj1 (live_view _ _ _ _ _ _ _ Hs'))). by apply (opens_made kind _ (mkStreamState false (latch_of h) ws)).
    + destruct Hs' as (faults & h1 & Hf & Hs'). destruct (down_view _ _ _ _ _ _ _ Hs') as (Ev' & Er' & Eb'). split; [congruence |]. split; [eauto |]. exists faults. split; [| done].
      rewrite Ev'. destruct Hf as [(Hb & -> & Hw) | (Hb & warnings & severity & category & code & -> & -> & Hc & Hw)].
      * by apply (opens_failed_below kind _ (mkStreamState false (latch_of h) ws)).
      * rewrite latch_latched, open_faults_once. by apply (opens_failed kind _ (mkStreamState false (latch_of h) ws) warnings severity category false code 0).
Qed.

Lemma TlsRead_leads buffer size base cfg h rs ws self s : 0 <= size -> is_live base cfg h rs ws self s ->
  leads (TlsStream_Read K NothingYet Close buffer size) self s (fun r self' s' =>
    0 <= fst r <= size /\ is_live base cfg h rs ws self' s' \/ fst r = -1 /\ is_down base cfg h rs ws self' s').
Proof using PK.
  intros Hsize (inst & p & Hd & n & lib & bu & te & -> & -> & Hl). destruct (pk_live PK _ _ Hl) as (_ & Hlk & Hr & _).
  unfold TlsStream_Read, session. tleads_on. eapply (perform_quietly K LP (pk_callbacks PK)); [intros e; apply (pk_read PK) | by rewrite Hr |].
  intros [rc m] n' te' Hrc _. cbn [fst snd act_wires] in *. pose proof (pk_length PK size Hsize). tleads_on. destruct (Z.ltb_spec 0 rc); tleads_on.
  - left. cbn [fst]. split; [lia |]. do 7 eexists; eauto.
  - apply (pk_nothing PK); [done |]. intros [].
    + tleads_on. left. cbn [fst]. split; [lia |]. do 7 eexists; eauto.
    + tleads_on. eapply tleads_mono; [by apply close_leads |]. intros [] self' s' Hs'. tleads_on. by right.
Qed.
Lemma SessionIsStillOpen_leads base cfg h rs ws self s : is_live base cfg h rs ws self s ->
  leads (TlsStream_SessionIsStillOpen K NothingYet Close) self s (fun b self' s' => if b : bool then is_live base cfg h rs ws self' s' else is_down base cfg h rs ws self' s').
Proof using PK.
  intros Hs. unfold TlsStream_SessionIsStillOpen. tleads_on. eapply tleads_mono; [apply TlsRead_leads; [by unfold STREAM_DISCARD_BYTES | exact Hs] |].
  intros r self1 s1 Hr. tleads_on.
  set (I := fun (l : Z * Z) self s => 1 <= snd l <= STREAM_MAX_READS_BEFORE_WRITE /\ (0 <= fst l /\ is_live base cfg h rs ws self s \/ fst l = -1 /\ is_down base cfg h rs ws self s)).
  apply (tleads_loop LP I (fun l => STREAM_MAX_READS_BEFORE_WRITE - snd l)).
  - split; [unfold STREAM_MAX_READS_BEFORE_WRITE; cbn; lia |]. cbn [fst]. destruct Hr as [[? ?] | ?]; [left; split; [lia | done] | by right].
  - unfold STREAM_MAX_READS_BEFORE_WRITE. cbn. lia.
  - intros [pending reads] self' s' [Hn Hs']. cbn [fst snd] in *. split; [lia |]. unfold probe_round. destruct (Z.ltb_spec 0 pending); cbn [andb].
    2: { tleads_on. cbn [fst snd]. tleads_on. destruct Hs' as [[? Hs'] | [-> Hs']]; [rewrite (proj2 (Z.leb_le _ _)) by lia |]; done. }
    destruct (Z.ltb_spec reads STREAM_MAX_READS_BEFORE_WRITE).
    + destruct Hs' as [[_ Hs'] | [-> _]]; [| lia]. tleads_on. eapply tleads_mono; [apply TlsRead_leads; [by unfold STREAM_DISCARD_BYTES | exact Hs'] |].
      intros r' self2 s2 Hr'. tleads_on. cbn [fst snd]. split; [| lia]. split; [cbn; lia |]. cbn [fst]. destruct Hr' as [[? ?] | ?]; [left; split; [lia | done] | by right].
    + tleads_on. cbn [fst snd]. tleads_on. destruct Hs' as [[? Hs'] | [-> Hs']]; [| lia]. by rewrite (proj2 (Z.leb_le _ _)) by lia.
Qed.
Lemma TlsSend_contract buffer size self s : tls_agrees self s -> IsOpen self = true ->
  leads (TlsStream_Send K NothingYet Close buffer size) self s (fun b => tls_contracted self s (fun _ t rs t' => rs = [] /\ sends (takeZ size buffer) t b t')).
Proof using PK.
  intros (base & cfg & h & rs & [(before & conn & Hs) | (ws & Hs)]) Ho.
  2: { destruct (down_view _ _ _ _ _ _ _ Hs) as (Ev & _). apply (f_equal st_Open) in Ev. cbn in Ev. congruence. }
  destruct (live_view _ _ _ _ _ _ _ Hs) as (Ev & Er0 & Eb). unfold tls_contracted. rewrite Ev, Er0, Eb. unfold TlsStream_Send. tleads_on.
  eapply tleads_mono; [by apply SessionIsStillOpen_leads |]. intros [] self' s' Hs'; tleads_on.
  - destruct Hs' as (inst & p & Hd & n & lib & bu & te & -> & -> & Hl). destruct (pk_live PK _ _ Hl) as (_ & Hlk & _ & Hr). unfold session. tleads_on.
    eapply (perform_quietly K LP (pk_callbacks PK) _ _ _ _ _ _ _ _ _ _ _ _ _ _ (fun _ => True)); [intros e; apply ends_anyhow | by rewrite Hr |].
    intros [rc m] n' te' _ _. cbn [fst act_wires]. rewrite extend_last_snoc. tleads_on. destruct ((0 <? rc) && (rc =? size)) eqn:Eok; cbn [negb]; tleads_on.
    + apply andb_prop in Eok as [_ ->%Z.eqb_eq]. rewrite takeZ_takeZ, Z.min_id.
      assert (Hs' : is_live base cfg h rs (before ++ [conn ++ takeZ size buffer])
        (mkTlsStream base cfg h true inst p Hd n') (mkTlsSeen lib true true true bu rs (before ++ [conn ++ takeZ size buffer]) te')) by (do 7 eexists; eauto).
      split; [done |]. split; [eauto |]. exists []. rewrite app_nil_r. split; [| done]. split; [done |].
      destruct (live_view _ _ _ _ _ _ _ Hs') as (-> & _). by apply (sends_whole _ (mkStreamState _ _ _)).
    + eapply tleads_mono; [by apply close_leads |]. intros [] self' s' Hs'. tleads_on. destruct (down_view _ _ _ _ _ _ _ Hs') as (-> & Er & Eb').
      split; [congruence |]. split; [eauto |]. exists []. rewrite app_nil_r. split; [| done]. split; [done |]. destruct (part_of (takeZ size buffer) rc) as [rest Er'].
      exact (sends_part (takeZ size buffer) (mkStreamState true (latch_of h) (before ++ [conn])) before conn _ rest eq_refl eq_refl Er').
  - destruct (down_view _ _ _ _ _ _ _ Hs') as (-> & Er & Eb'). split; [congruence |]. split; [eauto |]. exists []. rewrite app_nil_r. split; [| done]. split; [done |].
    pose proof (sends_part (takeZ size buffer) (mkStreamState true (latch_of h) (before ++ [conn])) before conn [] (takeZ size buffer) eq_refl eq_refl eq_refl) as Hp.
    by rewrite app_nil_r in Hp.
Qed.
Lemma TlsRead_contract buffer size self s : 0 <= size -> tls_agrees self s -> IsOpen self = true ->
  leads (TlsStream_Read K NothingYet Close buffer size) self s (fun r => tls_contracted self s (fun _ t rs t' => rs = [] /\ reads size t (fst r) t')).
Proof using PK.
  intros Hsize (base & cfg & h & rs & [(before & conn & Hs) | (ws & Hs)]) Ho.
  2: { destruct (down_view _ _ _ _ _ _ _ Hs) as (Ev & _). apply (f_equal st_Open) in Ev. cbn in Ev. congruence. }
  destruct (live_view _ _ _ _ _ _ _ Hs) as (Ev & Er0 & Eb). unfold tls_contracted. rewrite Ev, Er0, Eb.
  eapply tleads_mono; [by apply TlsRead_leads |]. intros [r m] self' s' [[Hr Hs'] | [Hr Hs']]; cbn [fst] in *.
  - destruct (live_view _ _ _ _ _ _ _ Hs') as (-> & Er & Eb'). split; [congruence |]. split; [eauto |]. exists []. rewrite app_nil_r. split; [| done]. split; [done |].
    destruct (Z.eq_dec r 0) as [-> |]; [by apply reads_none | apply reads_some; [done | lia]].
  - subst r. destruct (down_view _ _ _ _ _ _ _ Hs') as (-> & Er & Eb'). split; [congruence |]. split; [eauto |]. exists []. rewrite app_nil_r. split; [| done]. split; [done |].
    exact (reads_end size (mkStreamState true (latch_of h) (before ++ [conn]))).
Qed.
Lemma TlsClose_contract self s : tls_agrees self s ->
  leads Close self s (fun _ => tls_contracted self s (fun _ t rs t' => rs = [] /\ t' = t <| st_Open := false |>)).
Proof using PK.
  intros (base & cfg & h & rs & Hs). assert (exists ws, (is_live base cfg h rs ws self s \/ is_down base cfg h rs ws self s)) as (ws & Hs') by (destruct Hs as [(? & ? & ?) | (? & ?)]; eauto).
  eapply tleads_mono; [by apply Close_down |]. intros [] self' s' Hd. destruct (down_view _ _ _ _ _ _ _ Hd) as (Ev' & Er' & Eb'). unfold tls_contracted. rewrite Ev'.
  destruct Hs' as [Hs' | Hs']; [destruct (live_view _ _ _ _ _ _ _ Hs') as (-> & -> & ->) | destruct (down_view _ _ _ _ _ _ _ Hs') as (-> & -> & ->)];
    (split; [done |]; split; [eauto |]; exists []; by rewrite app_nil_r).
Qed.
Lemma TlsVersion_contract self s : tls_agrees self s -> leads TlsStream_Version self s (fun _ => tls_contracted self s (fun _ t rs t' => rs = [] /\ t' = t)).
Proof using. intros Hs. unfold TlsStream_Version. tleads_on. apply tleads_any_env. intros v. split; [done |]. split; [done |]. exists []. by rewrite app_nil_r. Qed.

Abbreviation vtable := (TlsStream_vtable K NothingYet Close (TlsStream_Open K IsOpen Establish)).
Lemma tls_world_contracted {A} (m : op A) (step : A -> bool -> stream_state -> list SolidSyslogErrorEvent -> stream_state -> Prop) w :
  (forall s, tls_agrees (tv_Self w) s -> leads m (tv_Self w) s (fun a => tls_contracted (tv_Self w) s (step a))) ->
  tls_ok w -> wp m (fun a w' => tls_ok w' /\ exists rs, step a (tls_below w') (tls_state w) rs (tls_state w') /\ tls_reports w' = tls_reports w ++ rs) w.
Proof using.
  intros Hm (Hb & s & Hs & Ha). eapply wp_mono; [apply (Hm s Ha w); by split |].
  intros a w' (self' & s' & [<- Hs'] & Hb' & Ha' & rs & Hstep & Hr). cbn. split; [split; [congruence | eauto] |].
  exists rs. unfold tls_state, tls_below, tls_reports, tls_seen_of. rewrite Hs, Hs'. by split.
Qed.
Lemma own_tls_vtable {A} (m null : op A) w Q : tls_ok w -> wp m Q w ->
  wp (let! base := tls_get tl_Base in match base with OwnStreamVtable => m | NullStreamVtable => null end) Q w.
Proof using. intros [Hb _] Hm. apply wp_bind, wp_get. by rewrite Hb. Qed.

Lemma tls_stream_contract : stream_contract kind vtable tls_ok tls_usable tls_state tls_reports tls_below.
Proof using PK.
  constructor; [intros addr w Hw | intros buffer size w Hw Hu | intros buffer size w Hw Hu Hsize | intros w Hw | intros w Hw];
    cbn [TlsStream_vtable SolidSyslogStream_Open SolidSyslogStream_Send SolidSyslogStream_Read SolidSyslogStream_Close SolidSyslogStream_Version];
    (apply own_tls_vtable; [done |]).
  - apply (tls_world_contracted _ (fun b fell t rs => opens kind fell t b rs)); [| done]. intros s Ha. by apply TlsOpen_contract.
  - eapply wp_mono; [apply (tls_world_contracted _ (fun b _ t rs t' => rs = [] /\ sends (takeZ size buffer) t b t')); [| done]; intros s Ha; by apply TlsSend_contract |].
    intros b w' (Hok & rs & [-> Hs] & Hr). by rewrite app_nil_r in Hr.
  - eapply wp_mono; [apply (tls_world_contracted _ (fun r _ t rs t' => rs = [] /\ reads size t (fst r) t')); [| done]; intros s Ha; by apply TlsRead_contract |].
    intros r w' (Hok & rs & [-> Hs] & Hr). by rewrite app_nil_r in Hr.
  - eapply wp_mono; [apply (tls_world_contracted _ (fun _ _ t rs t' => rs = [] /\ t' = t <| st_Open := false |>)); [| done]; intros s Ha; by apply TlsClose_contract |].
    intros _ w' (Hok & rs & [-> Hs] & Hr). by rewrite app_nil_r in Hr.
  - eapply wp_mono; [apply (tls_world_contracted _ (fun _ _ t rs t' => rs = [] /\ t' = t)); [| done]; intros s Ha; by apply TlsVersion_contract |].
    intros _ w' (Hok & rs & [-> Hs] & Hr). by rewrite app_nil_r in Hr.
Qed.
End contract.

(** * Runs *)

Section runs.
Context {C V R H N P E L : Type} `{HT : ErrorTap E} `{HL : TlsLibrary C V R E} (K : tls_pack C V R H N P E) (LP : lib_protocol C L).
Abbreviation op := (tls_op C V R H N P E).
Abbreviation world := (tls_world C V R H N P E).
Context (IsOpen : tls_stream H N P E -> bool).
(** A run of calls by a caller that, as [SolidSyslogStreamSender] does, sends and reads
    only on an open stream; what else happens changes its environment only. *)
Definition tls_input (stream : SolidSyslogStream world) (cleanup : op unit) (input : stream_input E) : op unit :=
  let! open := tls_get IsOpen in
  match input with
  | OpenNow addr => let! _ := SolidSyslogStream_Open (SolidSyslogStream := stream) addr in st_ret tt
  | SendNow buffer size => if! open : bool then let! _ := SolidSyslogStream_Send (SolidSyslogStream := stream) buffer size in st_ret tt end!
  | ReadNow buffer size => if! open : bool then let! _ := SolidSyslogStream_Read (SolidSyslogStream := stream) buffer size in st_ret tt end!
  | CloseNow => SolidSyslogStream_Close (SolidSyslogStream := stream)
  | DestroyNow => cleanup
  | StreamMeanwhile change => st_mod (fun w => w <| tv_Env := change (tv_Env w) |>)
  end.
Fixpoint tls_feed (stream : SolidSyslogStream world) (cleanup : op unit) (inputs : list (stream_input E)) : op unit :=
  match inputs with
  | [] => st_ret tt
  | input :: inputs => tls_input stream cleanup input ;;; tls_feed stream cleanup inputs
  end.

(** Nothing is held: of the library, the credentials or the transport. *)
Definition all_released (s : tls_seen C V R L) : Prop :=
  lp_IsIdle LP (tn_Library s) = true /\ tn_Credentials s = false /\ tn_Transport s = false /\ tn_Up s = false.
Definition keeps_tls_protocol (Initialise : tls_config P E -> op unit) (stream : SolidSyslogStream world) (cleanup : op unit) : Prop :=
  forall config slot e inputs, Forall stream_input_ok inputs ->
  let w := snd (tls_feed stream cleanup inputs (snd (Initialise config (mkTlsWorld slot e [])))) in
  (exists s, tls_observed LP (tv_Trace w) = Some s /\ tn_Up s = IsOpen (tv_Self w) /\ (IsOpen (tv_Self w) = false -> all_released s)) /\
  (exists s, tls_observed LP (tv_Trace (snd (cleanup w))) = Some s /\ all_released s).

Context (Establish : SolidSyslogAddress -> op bool) (NothingYet : Z -> op bool) (Close : op unit) (Idle Live Linked : L -> H -> Prop).
Context (PK : pack_ok K LP IsOpen Establish NothingYet Close Idle Live Linked).
Abbreviation vtable := (TlsStream_vtable K NothingYet Close (TlsStream_Open K IsOpen Establish)).
Abbreviation cleanup := (TlsStream_Cleanup Close).
Abbreviation ok := (tls_ok LP Idle Live).
Implicit Types (w : world).

(** A stream in order, or one destroyed that holds nothing. *)
Definition tls_orderly w : Prop :=
  ok w \/ tl_Base (tv_Self w) = NullStreamVtable /\ exists s base cfg h rs ws, tls_observed LP (tv_Trace w) = Some s /\ is_down Idle base cfg h rs ws (tv_Self w) s.
Lemma down_released base cfg h rs ws self s : is_down (C := C) (V := V) (R := R) (N := N) (P := P) (E := E) Idle base cfg h rs ws self s -> all_released s.
Proof using PK. intros (inst & p & Hd & n & lib & bu & te & -> & -> & Hi). apply (pk_idle _ _ _ _ _ _ _ _ _ PK) in Hi as [Hi _]. by split. Qed.
Lemma orderly_view w : tls_orderly w -> exists s, tls_observed LP (tv_Trace w) = Some s /\ tn_Up s = IsOpen (tv_Self w) /\ (IsOpen (tv_Self w) = false -> all_released s).
Proof using PK.
  intros [(Hb & s & Hs & base & cfg & h & rs & [(before & conn & Hl) | (ws & Hd)]) | (Hb & s & base & cfg & h & rs & ws & Hs & Hd)]; exists s; (split; [exact Hs |]).
  - destruct (live_view K LP _ _ _ _ _ _ _ PK _ _ _ _ _ _ _ Hl) as (Ev & _). pose proof (f_equal st_Open Ev : IsOpen _ = true) as ->. destruct Hl as (? & ? & ? & ? & ? & ? & ? & _ & -> & _). by split.
  - destruct (down_view K LP _ _ _ _ _ _ _ PK _ _ _ _ _ _ _ Hd) as (Ev & _). pose proof (f_equal st_Open Ev : IsOpen _ = false) as ->. pose proof (down_released _ _ _ _ _ _ _ Hd) as Hr.
    split; [by destruct Hr as (_ & _ & _ & ->) | done].
  - destruct (down_view K LP _ _ _ _ _ _ _ PK _ _ _ _ _ _ _ Hd) as (Ev & _). pose proof (f_equal st_Open Ev : IsOpen _ = false) as ->. pose proof (down_released _ _ _ _ _ _ _ Hd) as Hr.
    split; [by destruct Hr as (_ & _ & _ & ->) | done].
Qed.
Lemma tls_cleanup_orderly w : tls_orderly w ->
  wp cleanup (fun _ w' => tl_Base (tv_Self w') = NullStreamVtable /\ exists s base cfg h rs ws, tls_observed LP (tv_Trace w') = Some s /\ is_down Idle base cfg h rs ws (tv_Self w') s) w.
Proof using PK.
  intros Hw. assert (exists s base cfg h rs ws, tls_observed LP (tv_Trace w) = Some s /\ (is_live Live base cfg h rs ws (tv_Self w) s \/ is_down Idle base cfg h rs ws (tv_Self w) s))
    as (s & base & cfg & h & rs & ws & Hs & Hd).
  { destruct Hw as [(_ & s & Hs & base & cfg & h & rs & [(before & conn & Hl) | (ws & Hd)]) | (_ & s & base & cfg & h & rs & ws & Hs & Hd)]; eauto 10. }
  unfold TlsStream_Cleanup. apply wp_bind. eapply wp_mono; [apply (Close_down _ _ _ _ _ _ _ _ _ PK base cfg h rs ws _ s Hd w); by split |].
  intros _ w' (self' & s' & [<- Hs'] & Hd'). apply wp_mod. split; [done |]. exists s', NullStreamVtable, cfg, h, rs, ws. split; [done |].
  destruct Hd' as (inst & p & H1 & n & lib & bu & te & Es & -> & Hi). cbn. rewrite Es. do 7 eexists. by split.
Qed.
Lemma input_orderly input w : stream_input_ok input -> tls_orderly w -> wp (tls_input vtable cleanup input) (fun _ w' => tls_orderly w') w.
Proof using PK.
  intros Hi Hw. unfold tls_input. apply wp_bind, wp_get. destruct input as [addr | buffer size | buffer size | | | change].
  5: { eapply wp_mono; [by apply tls_cleanup_orderly |]. intros [] w' H'. by right. }
  5: { apply wp_mod. destruct Hw as [(Hb & s & Hs) | (Hb & s & Hs)]; [left; split; eauto | right; split; eauto]. }
  all: destruct Hw as [Hw | Hw]; [pose proof (tls_stream_contract K LP _ _ _ _ _ _ _ PK) as SC |].
  all: try (destruct (IsOpen (tv_Self w)) eqn:Eo; [| apply wp_ret; by (left + right)]).
  all: try (try (apply wp_bind); unfold wp; cbn; unfold st_bind, tls_get, st_get; cbn; rewrite (proj1 Hw); cbn; by right).
  - apply wp_bind. eapply wp_mono; [by apply (contract_Open _ _ _ _ _ _ _ SC) |]. intros b w' [Hok _]. apply wp_ret. by left.
  - apply wp_bind. eapply wp_mono; [by apply (contract_Send _ _ _ _ _ _ _ SC) |]. intros b w' [Hok _]. apply wp_ret. by left.
  - apply wp_bind. eapply wp_mono; [by apply (contract_Read _ _ _ _ _ _ _ SC) |]. intros b w' [Hok _]. apply wp_ret. by left.
  - eapply wp_mono; [by apply (contract_Close _ _ _ _ _ _ _ SC) |]. intros b w' (Hok & _). by left.
Qed.
Lemma feed_keeps inputs : forall w, Forall stream_input_ok inputs -> tls_orderly w -> wp (tls_feed vtable cleanup inputs) (fun _ w' => tls_orderly w') w.
Proof using PK.
  induction inputs as [| input inputs IH]; intros w Hi Hw; cbn [tls_feed]; [by apply wp_ret |]. apply Forall_cons_1 in Hi as [Hi His].
  apply wp_bind. eapply wp_mono; [by apply input_orderly |]. intros [] w' Hw'. by apply IH.
Qed.

(** A pack's Initialise, in a slot that held anything. *)
Definition initialises (Initialise : tls_config P E -> op unit) : Prop := forall config slot,
  tls_leads LP (Initialise config) slot (nothing_done LP) (fun _ => is_down Idle OwnStreamVtable (copy_config config) (mkStreamOpenHealth false 0) [] []).
Lemma initialised_ok Initialise config slot e : initialises Initialise -> ok (snd (Initialise config (mkTlsWorld slot e []))).
Proof using.
  intros HI. assert (Hs : tls_stands LP slot (nothing_done LP) (mkTlsWorld slot e [] : world)) by done.
  pose proof (HI config slot _ Hs) as (self' & s' & [Es Ho] & Hd). split.
  - rewrite Es. by destruct Hd as (? & ? & ? & ? & ? & ? & ? & -> & _).
  - exists s'. split; [exact Ho |]. rewrite Es. exists OwnStreamVtable, (copy_config config), (mkStreamOpenHealth false 0), []. right. eauto.
Qed.
Lemma pack_keeps_protocol Initialise : initialises Initialise -> keeps_tls_protocol Initialise vtable cleanup.
Proof using PK.
  intros HI config slot e inputs Hi. pose proof (feed_keeps inputs _ Hi (or_introl (initialised_ok _ config slot e HI))) as Hw. unfold wp in Hw.
  set (w := snd (tls_feed _ _ _ _)) in *. cbv zeta. split; [by apply orderly_view |].
  pose proof (tls_cleanup_orderly w Hw) as Hc. unfold wp in Hc. destruct Hc as (_ & s & base & cfg & h & rs & ws & Hs & Hd). exists s. split; [done |]. by eapply down_released.
Qed.
Definition keeps_tls_contract (Initialise : tls_config P E -> op unit) (stream : SolidSyslogStream world) : Prop :=
  stream_contract (tls_kind (tp_Source K)) stream ok (tls_usable IsOpen) (tls_state LP IsOpen) (tls_reports LP) (tls_below LP) /\
  forall config slot e, ok (snd (Initialise config (mkTlsWorld slot e []))).
Lemma pack_keeps_contract Initialise : initialises Initialise -> keeps_tls_contract Initialise vtable.
Proof using PK. intros HI. split; [by apply (tls_stream_contract K LP _ _ _ _ _ _ _ PK) | intros; by apply initialised_ok]. Qed.
End runs.

(** * The walk over the pins, in what is seen *)

Section pins.
Context {C V R H N P E L : Type} `{HT : ErrorTap E} `{HL : TlsLibrary C V R E} (LP : lib_protocol C L).
Abbreviation op := (tls_op C V R H N P E).
Abbreviation stream := (tls_stream H N P E).
Abbreviation seen := (tls_seen C V R L).
Abbreviation leads := (tls_leads LP).
Abbreviation digests := (list (C * Z * Z * bytes)).

Lemma tleads_loop_inv {A} (I : A -> stream -> seen -> Prop) (body : A -> op (bool * A)) : forall fuel a self s, I a self s ->
  (forall a self s, I a self s -> leads (body a) self s (fun r self' s' => I (snd r) self' s')) -> leads (loopM fuel body a) self s (fun a self' s' => I a self' s').
Proof using.
  induction fuel as [| fuel IH]; intros a self s HI Hstep; cbn [loopM]; [by apply tleads_ret |].
  apply tleads_bind. eapply tleads_mono; [by apply Hstep |]. intros [[] a'] self' s' HI'; cbn [fst snd] in *; [by apply IH | by apply tleads_ret].
Qed.

(** One of the installed pins names a hash and bytes, and [made] shows the bytes as that
    hash of the certificate. *)
Definition a_pin_matches (installed : SolidSyslogTlsCredentialsInstalled) (made : SolidSyslogTlsHashAlgorithm -> bytes -> Prop) : Prop :=
  exists pins t alg d, in_Fingerprints installed = Some pins /\ In (Some t) (takeZ (in_FingerprintCount installed) pins) /\
    fingerprint_text alg d (cstr t) /\ made alg d.

Section authorise.
Context (scratch : SolidSyslogTlsFingerprint) (area : bytes) (fits : DIGEST_AREA scratch) (scratch_bytes : all_bytes (fp_Digest scratch)).
Context {X : Type} (digest : X -> SolidSyslogTlsHashAlgorithm -> bytes -> Z -> op (bool * bytes * Z)) (context : X).
Context (made : SolidSyslogTlsHashAlgorithm -> bytes -> digests -> Prop) (made_more : forall alg d ds more, made alg d ds -> made alg d (ds ++ more)).
(** Only digests happen. *)
Definition hashes_only {A} (m : op A) (F : A -> digests -> Prop) : Prop := forall self lib tr cr up bu rs ws te,
  leads m self (mkTlsSeen lib tr cr up bu rs ws te) (fun a self' s' => self' = self /\ exists more,
    s' = mkTlsSeen lib tr cr up bu rs ws (mkEvidence (te_Installed te) (te_Checks te) (te_Digests te ++ more) (te_Below te)) /\ F a (te_Digests te ++ more)).
Context (digests_ok : forall alg, hashes_only (digest context alg area 0) (fun r ds =>
  lenZ (snd (fst r)) = SOLIDSYSLOG_TLS_FINGERPRINT_DIGEST_MAX /\ all_bytes (snd (fst r)) /\
  (fst (fst r) = true -> snd r = digest_length alg -> made alg (takeZ (digest_length alg) (snd (fst r))) ds))).

Lemma AuthoriseOne_leads pin : hashes_only (TlsFingerprint_AuthoriseOne scratch digest context area pin) (fun v ds =>
  v = SOLIDSYSLOG_TLS_AUTHORISATION_MATCHED -> exists t alg d, pin = Some t /\ fingerprint_text alg d (cstr t) /\ made alg d ds).
Proof using fits scratch_bytes digests_ok.
  intros self lib tr cr up bu rs ws te. unfold TlsFingerprint_AuthoriseOne. destruct (Parse_cases pin scratch fits) as [(t & alg & d & -> & Ht & ->) | [Hm Hp]].
  2: { destruct (SolidSyslogTlsFingerprint_Parse pin (Some scratch)) as [[] o]; [done |]. apply tleads_ret. split; [done |]. exists []. rewrite app_nil_r. by destruct te. }
  cbn [fp_Algorithm]. apply tleads_bind. eapply tleads_mono; [apply digests_ok |]. intros [[ok made_area] n] self' s' (-> & more & -> & Hl & Hb & Hm). cbn [fst snd] in *.
  apply tleads_ret. split; [done |]. exists more. split; [done |]. destruct ok; [| done]. destruct Ht as (Hlen & Ht). pose proof Ht as (pairs & _ & Hhex).
  assert (Hd : all_bytes d) by (by eapply hex_text_bytes). assert (20 <= lenZ d <= 32) by (rewrite Hlen; destruct alg; simpl; lia).
  unfold DIGEST_AREA, SOLIDSYSLOG_TLS_FINGERPRINT_DIGEST_MAX in *.
  set (parsed := mkTlsFingerprint _ _ _). pose proof (DigestEquals_spec parsed made_area n) as Hs.
  assert (Hp : takeZ (digest_length alg) (fp_Digest parsed) = d) by (cbn [parsed fp_Digest]; by rewrite spliceZ_0, takeZ_app_le, takeZ_ge by lia).
  assert (Hk : all_bytes (fp_Digest parsed)) by (cbn [parsed fp_Digest]; rewrite spliceZ_0; apply Forall_app; split; [done | by apply all_bytes_dropZ]).
  destruct (TlsFingerprint_DigestEquals parsed made_area n); [| done]. intros _.
  destruct (proj1 (Hs ltac:(cbn [parsed fp_Length]; lia) ltac:(cbn [parsed fp_Digest fp_Length]; rewrite lenZ_spliceZ by lia; lia) Hk Hb) eq_refl) as [-> Hq].
  change (fp_Length parsed) with (digest_length alg) in *. exists t, alg, d. split; [done |]. split; [split; [done | exact Ht] |]. rewrite <- Hp, <- Hq. by apply Hm.
Qed.
Lemma pin_at_in pins i count t : 0 <= i < count -> pin_at pins i = Some t -> In (Some t) (takeZ count pins).
Proof using.
  intros Hi Hp. unfold pin_at in Hp. destruct (Nat.lt_ge_cases (Z.to_nat i) (length pins)) as [Hl | Hl]; [| by rewrite nth_overflow in Hp by lia].
  rewrite <- Hp. unfold takeZ. rewrite <- (take_drop (Z.to_nat count) pins) at 1. rewrite app_nth1 by (rewrite length_take; lia).
  apply nth_In. rewrite length_take. lia.
Qed.
Lemma Authorise_leads installed : hashes_only
  (SolidSyslogTlsFingerprint_Authorise scratch digest context area (in_Fingerprints installed) (in_FingerprintCount installed))
  (fun v ds => v = SOLIDSYSLOG_TLS_AUTHORISATION_MATCHED -> a_pin_matches installed (fun alg d => made alg d ds)).
Proof using fits scratch_bytes digests_ok made_more.
  intros self lib tr cr up bu rs ws te. unfold SolidSyslogTlsFingerprint_Authorise. apply tleads_bind.
  set (I := fun (l : pin_loop) (self' : stream) s' => 0 <= pl_i l /\ self' = self /\ exists more,
    s' = mkTlsSeen lib tr cr up bu rs ws (mkEvidence (te_Installed te) (te_Checks te) (te_Digests te ++ more) (te_Below te)) /\
    (pl_verdict l = SOLIDSYSLOG_TLS_AUTHORISATION_MATCHED -> a_pin_matches installed (fun alg d => made alg d (te_Digests te ++ more)))).
  eapply tleads_mono; [apply (tleads_loop_inv I) |].
  - split; [done |]. split; [done |]. exists []. rewrite app_nil_r. split; [by destruct te |]. cbn [pl_verdict].
    by destruct (negb (TlsFingerprint_ListIsReadable (in_Fingerprints installed) (in_FingerprintCount installed))).
  - intros [i v skipped] self' s' (Hi & -> & more & -> & Hv). cbn [pl_i pl_verdict pl_anySkipped] in *. unfold Authorise_step. cbn [pl_i pl_verdict pl_anySkipped].
    destruct (Z.ltb_spec i (in_FingerprintCount installed)) as [Hlt |]; [| apply tleads_ret; split; [done |]; split; [done |]; by exists more].
    case_bool_decide as Ev; cbn [andb]; [| apply tleads_ret; split; [done |]; split; [done |]; by exists more].
    apply tleads_bind. eapply tleads_mono; [apply AuthoriseOne_leads |]. intros v' self' s' (-> & more' & -> & Hv'). cbn [te_Installed te_Checks te_Digests] in *.
    apply tleads_ret. cbn [snd]. pose proof (size_add_range i 1). rewrite <- app_assoc in *.
    destruct (decide (v' = SOLIDSYSLOG_TLS_AUTHORISATION_DIGEST_UNAVAILABLE)) as [-> | _]; cbn [pl_i pl_verdict]; (split; [cbn; lia |]; split; [done |]; exists (more ++ more'); split; [done |]; [done || idtac]).
    intros E'. destruct (Hv' E') as (t & alg & d & Hp & Ht & Hm). unfold list_pin in Hp. destruct (in_Fingerprints installed) as [pins |] eqn:Ef; [| done].
    exists pins, t, alg, d. split; [done |]. split; [by eapply pin_at_in | done].
  - intros [i v skipped] self' s' (_ & -> & more & -> & Hv). apply tleads_ret. split; [done |]. exists more. split; [done |]. cbn [pl_verdict pl_anySkipped] in *.
    destruct (bool_decide _ && skipped); [done | exact Hv].
Qed.
End authorise.
End pins.

(** * A small environment *)

(** What the transport took, and the slots of the error tap. *)
Record small_tls := mkSmallTls { sl_Received : bytes; sl_Slots : pending_slots }.
#[export] Instance settable_small_tls : Settable small_tls := fun e => mkSmallTls (sl_Received e) (sl_Slots e).
#[export] Instance small_tls_tap : ErrorTap small_tls := {
  tap_Handler := fun _ e => e;
  tap_Slots := sl_Slots;
  tap_SetSlots := fun slots e => e <| sl_Slots := slots |>
}.
Definition small_transport : SolidSyslogStream small_tls := {|
  SolidSyslogStream_Open := fun _ => st_ret true;
  SolidSyslogStream_Send := fun data size e => (true, e <| sl_Received := sl_Received e ++ takeZ size data |>);
  SolidSyslogStream_Read := fun buffer _ => st_ret (0, buffer);
  SolidSyslogStream_Close := st_ret tt;
  SolidSyslogStream_Version := st_ret 0
|}.
Definition small_credentials : SolidSyslogTlsCredentials small_tls := mkCredentials (fun _ _ => st_ret (true, mkInstalled false (Some [Some sample_sha256]) 1)) (st_ret tt).
Definition small_config {P} : tls_config P small_tls := mkTlsConfig small_transport small_credentials (fun _ => st_ret tt) None None 0 None None None None.
Definition a_small_tls : small_tls := mkSmallTls [] initial_slots.
