(* ===== verification/OpenSslStream.v ===== *)
(** The OpenSSL stream ([src/Platform/OpenSsl/Source/SolidSyslogOpenSslStream.c]) over
    what [TlsStreams] gives: the context and the session it builds and frees, the verify
    callback that pins the leaf and carries objections to it, the transport BIO, and the
    handshake.  It is proved to be a pack, and a peer it accepts to be one the installed
    anchors and pins authorise. *)
From S2P Require Import Prelude Errors PendingEvents Interfaces TlsFingerprint Transport StreamContract TcpStreams TlsStreams.

(** * The library *)

(** The constants of OpenSSL's headers. *)
Record openssl_codes := mkOpenSslCodes {
  X509_V_OK : Z;
  X509_V_ERR_UNABLE_TO_GET_ISSUER_CERT : Z;
  X509_V_ERR_CERT_NOT_YET_VALID : Z;
  X509_V_ERR_CERT_HAS_EXPIRED : Z;
  X509_V_ERR_DEPTH_ZERO_SELF_SIGNED_CERT : Z;
  X509_V_ERR_SELF_SIGNED_CERT_IN_CHAIN : Z;
  X509_V_ERR_UNABLE_TO_GET_ISSUER_CERT_LOCALLY : Z;
  X509_V_ERR_UNABLE_TO_VERIFY_LEAF_SIGNATURE : Z;
  X509_V_ERR_CERT_UNTRUSTED : Z;
  X509_V_ERR_APPLICATION_VERIFICATION : Z;
  X509_V_ERR_HOSTNAME_MISMATCH : Z;
  X509_V_ERR_IP_ADDRESS_MISMATCH : Z;
  SSL_ERROR_WANT_READ : Z;
  SSL_ERROR_WANT_WRITE : Z;
  SSL_VERIFY_PEER : Z;
  TLS1_2_VERSION : Z;
  SSL_OP_LEGACY_SERVER_CONNECT : Z;
  SSL_OP_ALLOW_UNSAFE_LEGACY_RENEGOTIATION : Z;
  SSL_OP_NO_RENEGOTIATION : Z;
  X509_CHECK_FLAG_NO_PARTIAL_WILDCARDS : Z;
  BIO_CTRL_FLUSH : Z; BIO_CTRL_PUSH : Z; BIO_CTRL_POP : Z; BIO_CTRL_DUP : Z
}.
Definition OPENSSL_STREAM_SECURITY_LEVEL_FLOOR : Z := 2.

(** A digest method, as [EVP_sha1] and [EVP_sha256] give it. *)
Inductive EVP_MD := EVP_sha1 | EVP_sha256.
(** The quiet calls.  The callbacks given to some are this file's. *)
Inductive openssl_call :=
| SSL_CTX_new
| SSL_CTX_set_verify (ctx mode : Z)
| SSL_CTX_get_min_proto_version (ctx : Z)
| SSL_CTX_set_min_proto_version (ctx version : Z)
| SSL_CTX_set_cipher_list (ctx : Z) (list : bytes)
| SSL_CTX_set_ciphersuites (ctx : Z) (suites : bytes)
| SSL_CTX_get_security_level (ctx : Z)
| SSL_CTX_set_security_level (ctx level : Z)
| SSL_CTX_clear_options (ctx options : Z)
| SSL_CTX_set_default_passwd_cb (ctx : Z)
| SSL_CTX_free (ctx : Z)
| SSL_new (ctx : Z)
| SSL_set_app_data (ssl : Z)
| SSL_set_hostflags (ssl flags : Z)
| SSL_set_options (ssl options : Z)
| SSL_set_bio (ssl bio : Z)
| SSL_set_tlsext_host_name (ssl : Z) (name : bytes)
| SSL_set1_host (ssl : Z) (name : bytes)
| SSL_get_error (ssl rc : Z)
| SSL_get_verify_result (ssl : Z)
| SSL_get0_peer_certificate (ssl : Z)
| SSL_free (ssl : Z)
| BIO_meth_new
| BIO_meth_set_create (method : Z)
| BIO_meth_set_read (method : Z)
| BIO_meth_set_write (method : Z)
| BIO_meth_set_ctrl (method : Z)
| BIO_new (method : Z)
| BIO_set_init (bio init : Z)
| BIO_set_data (bio : Z)
| BIO_set_retry_read (bio : Z)
| BIO_clear_retry_flags (bio : Z)
| BIO_meth_free (method : Z)
| X509_digest (cert : Z) (md : EVP_MD).

(** A verification under way: the error, the depth and the certificate it is at.  The
    callback is given this and whether the certificate passed so far, and answers its
    verdict and the store as it leaves it. *)
Record X509_STORE_CTX := mkStoreCtx { sc_error : Z; sc_error_depth : Z; sc_current_cert : Z }.
#[export] Instance settable_store_ctx : Settable X509_STORE_CTX := fun s => mkStoreCtx (sc_error s) (sc_error_depth s) (sc_current_cert s).
Definition openssl_given : Type := Z * X509_STORE_CTX.
Definition openssl_answer : Type := Z * X509_STORE_CTX.

(** * The stream *)

Record openssl_handles := mkOpenSslHandles { os_Ctx : Z; os_Ssl : Z; os_BioMethod : Z }.
#[export] Instance settable_openssl_handles : Settable openssl_handles := fun h => mkOpenSslHandles (os_Ctx h) (os_Ssl h) (os_BioMethod h).
Record openssl_notes := mkOpenSslNotes {
  os_ChainObjection : Z;
  os_ValidityObjection : Z;
  os_NameObjection : Z;
  os_PinVerdict : SolidSyslogTlsAuthorisation
}.
#[export] Instance settable_openssl_notes : Settable openssl_notes := fun n =>
  mkOpenSslNotes (os_ChainObjection n) (os_ValidityObjection n) (os_NameObjection n) (os_PinVerdict n).
Record SolidSyslogOpenSslProfile := mkOpenSslProfile { op_ServerName : option bytes; op_CipherList : option bytes; op_CipherSuites : option bytes }.

Section openssl.
Context {E : Type} `{ErrorTap E} `{TlsLibrary openssl_call openssl_given openssl_answer E} (codes : openssl_codes).
(** The stack a pin, and a digest, is read into. *)
Context (scratch : SolidSyslogTlsFingerprint) (area : bytes).
Abbreviation op := (tls_op openssl_call openssl_given openssl_answer openssl_handles openssl_notes SolidSyslogOpenSslProfile E).
Abbreviation stream := (tls_stream openssl_handles openssl_notes SolidSyslogOpenSslProfile E).

Definition set_handles (f : openssl_handles -> openssl_handles) : op unit := tls_set (fun self => self <| tl_Handles := f (tl_Handles self) |>).
Definition set_notes (f : openssl_notes -> openssl_notes) : op unit := tls_set (fun self => self <| tl_Notes := f (tl_Notes self) |>).

(** ** The transport BIO *)

Definition OpenSslStream_TransportBioCreate (bio : Z) : op Z :=
  tls_quiet (BIO_set_init bio 1) ;;;
  st_ret 1.
Definition OpenSslStream_TransportBioRead (bio : Z) (buffer : bytes) (size : Z) : op (Z * bytes) :=
  let! answer := transport_read buffer size in
  let n := fst answer in
  if 0 <? n then st_ret answer
  else if n =? 0 then tls_quiet (BIO_set_retry_read bio) ;;; st_ret (-1, snd answer)
  else tls_quiet (BIO_clear_retry_flags bio) ;;; st_ret (-1, snd answer).
Definition OpenSslStream_TransportBioWrite (bio : Z) (data : bytes) (size : Z) : op Z :=
  let! ok := transport_send data size in
  if ok : bool then st_ret size
  else tls_quiet (BIO_clear_retry_flags bio) ;;; st_ret (-1).
Definition OpenSslStream_TransportBioCtrl (bio cmd : Z) : Z :=
  if (cmd =? BIO_CTRL_FLUSH codes) || (cmd =? BIO_CTRL_PUSH codes) || (cmd =? BIO_CTRL_POP codes) || (cmd =? BIO_CTRL_DUP codes) then 1 else 0.

(** ** The verify callback *)

Definition OpenSslStream_IsChainTrustError (error : Z) : bool :=
  (error =? X509_V_ERR_DEPTH_ZERO_SELF_SIGNED_CERT codes) || (error =? X509_V_ERR_SELF_SIGNED_CERT_IN_CHAIN codes) ||
  (error =? X509_V_ERR_UNABLE_TO_GET_ISSUER_CERT_LOCALLY codes) || (error =? X509_V_ERR_UNABLE_TO_GET_ISSUER_CERT codes) ||
  (error =? X509_V_ERR_UNABLE_TO_VERIFY_LEAF_SIGNATURE codes) || (error =? X509_V_ERR_CERT_UNTRUSTED codes).
Definition OpenSslStream_IsValidityError (error : Z) : bool :=
  (error =? X509_V_ERR_CERT_HAS_EXPIRED codes) || (error =? X509_V_ERR_CERT_NOT_YET_VALID codes).
Definition OpenSslStream_IsPeerNameMismatch (verdict : Z) : bool :=
  (verdict =? X509_V_ERR_HOSTNAME_MISMATCH codes) || (verdict =? X509_V_ERR_IP_ADDRESS_MISMATCH codes).
Definition OpenSslStream_IsChainTrustWaived (self : stream) (storeCtx : X509_STORE_CTX) : bool :=
  (0 <? in_FingerprintCount (tl_Installed self)) && negb (in_TrustAnchorsInstalled (tl_Installed self)) &&
  OpenSslStream_IsChainTrustError (sc_error storeCtx).
Definition OpenSslStream_CarriedChainObjectionStands (self : stream) : bool :=
  in_TrustAnchorsInstalled (tl_Installed self) && negb (os_ChainObjection (tl_Notes self) =? X509_V_OK codes).
Definition OpenSslStream_CarriedValidityObjectionStands (self : stream) (verdict : Z) : bool :=
  (verdict =? 1) && negb (os_ValidityObjection (tl_Notes self) =? X509_V_OK codes).

Definition OpenSslStream_DigestFor (algorithm : SolidSyslogTlsHashAlgorithm) : option EVP_MD :=
  match algorithm with SOLIDSYSLOG_TLS_HASH_SHA1 => Some EVP_sha1 | SOLIDSYSLOG_TLS_HASH_SHA256 => Some EVP_sha256 end.
(** The digest is written over the area; [*length] is what was written, 0 where nothing
    was. *)
Definition OpenSslStream_DigestCertificate (leaf : Z) (algorithm : SolidSyslogTlsHashAlgorithm) (digest : bytes) (length : Z) : op (bool * bytes * Z) :=
  match OpenSslStream_DigestFor algorithm with
  | None => st_ret (false, digest, 0)
  | Some md =>
      let! answer := tls_digest (X509_digest leaf md) in
      let '(rc, written, made) := answer in
      st_ret (rc =? 1, spliceZ digest 0 made, written)
  end.
Definition OpenSslStream_LeafMatchesAPin (storeCtx : X509_STORE_CTX) : op bool :=
  let! installed := tls_get tl_Installed in
  let! verdict := SolidSyslogTlsFingerprint_Authorise scratch OpenSslStream_DigestCertificate (sc_current_cert storeCtx) area
                    (in_Fingerprints installed) (in_FingerprintCount installed) in
  set_notes (fun n => n <| os_PinVerdict := verdict |>) ;;;
  st_ret (bool_decide (verdict = SOLIDSYSLOG_TLS_AUTHORISATION_MATCHED)).

Definition OpenSslStream_VerifyPinnedLeaf (preverifyOk : Z) (storeCtx : X509_STORE_CTX) : op openssl_answer :=
  let! matches := OpenSslStream_LeafMatchesAPin storeCtx in
  let! self := tls_get (fun self => self) in
  let '(verdict, storeCtx) :=
    if negb matches then (0, storeCtx <| sc_error := X509_V_ERR_APPLICATION_VERIFICATION codes |>)
    else if OpenSslStream_CarriedChainObjectionStands self then (0, storeCtx <| sc_error := os_ChainObjection (tl_Notes self) |>)
    else if OpenSslStream_IsChainTrustWaived self storeCtx then (1, storeCtx)
    else (preverifyOk, storeCtx) in
  st_ret (if OpenSslStream_CarriedValidityObjectionStands self verdict
          then (0, storeCtx <| sc_error := os_ValidityObjection (tl_Notes self) |>) else (verdict, storeCtx)).
Definition OpenSslStream_ResolveNameObjection (verdict : Z) (storeCtx : X509_STORE_CTX) : op openssl_answer :=
  let! notes := tls_get tl_Notes in
  let error := sc_error storeCtx in
  if (verdict =? 0) && OpenSslStream_IsPeerNameMismatch error then
    set_notes (fun n => n <| os_NameObjection := error |>) ;;;
    st_ret (1, storeCtx)
  else if (verdict =? 1) && negb (os_NameObjection notes =? X509_V_OK codes) then
    st_ret (0, storeCtx <| sc_error := os_NameObjection notes |>)
  else st_ret (verdict, storeCtx).
Definition OpenSslStream_CarryObjectionToTheLeaf (storeCtx : X509_STORE_CTX) : op bool :=
  let! installed := tls_get tl_Installed in
  let error := sc_error storeCtx in
  let carry := 0 <? in_FingerprintCount installed in
  if carry && OpenSslStream_IsChainTrustError error then
    set_notes (fun n => n <| os_ChainObjection := error |>) ;;; st_ret carry
  else if carry && OpenSslStream_IsValidityError error then
    set_notes (fun n => n <| os_ValidityObjection := error |>) ;;; st_ret carry
  else st_ret false.
Definition OpenSslStream_VerifyPeer (given : openssl_given) : op openssl_answer :=
  let '(preverifyOk, storeCtx) := given in
  if sc_error_depth storeCtx =? 0 then
    let! installed := tls_get tl_Installed in
    let! pinned :=
      if 0 <? in_FingerprintCount installed then OpenSslStream_VerifyPinnedLeaf preverifyOk storeCtx
      else st_ret (preverifyOk, storeCtx) in
    OpenSslStream_ResolveNameObjection (fst pinned) (snd pinned)
  else
    let! carried := OpenSslStream_CarryObjectionToTheLeaf storeCtx in
    st_ret (if carried : bool then 1 else preverifyOk, storeCtx).

Definition openssl : tls_pack openssl_call openssl_given openssl_answer openssl_handles openssl_notes SolidSyslogOpenSslProfile E := {|
  tp_Source := SolidSyslogOpenSslStreamErrorSource;
  tp_Session := os_Ssl;
  tp_Length := to_int;
  tp_NoProfile := mkOpenSslProfile None None None;
  tp_Judge := OpenSslStream_VerifyPeer;
  tp_Receive := OpenSslStream_TransportBioRead;
  tp_Transmit := OpenSslStream_TransportBioWrite;
  tp_Control := OpenSslStream_TransportBioCtrl;
  tp_Scratch := scratch
|}.

(** ** Close *)

Definition OpenSslStream_ReleaseSsl : op unit :=
  let! handles := tls_get tl_Handles in
  if! negb (os_Ssl handles =? 0) then
    tls_quiet (SSL_free (os_Ssl handles)) ;;;
    set_handles (fun h => h <| os_Ssl := 0 |>)
  end!.
Definition OpenSslStream_ReleaseBioMethod : op unit :=
  let! handles := tls_get tl_Handles in
  if! negb (os_BioMethod handles =? 0) then
    tls_quiet (BIO_meth_free (os_BioMethod handles)) ;;;
    set_handles (fun h => h <| os_BioMethod := 0 |>)
  end!.
Definition OpenSslStream_ReleaseHandshakeState : op unit :=
  OpenSslStream_ReleaseSsl ;;;
  OpenSslStream_ReleaseBioMethod.
Definition OpenSslStream_ReleaseSslContext : op unit :=
  let! handles := tls_get tl_Handles in
  if! negb (os_Ctx handles =? 0) then
    tls_quiet (SSL_CTX_free (os_Ctx handles)) ;;;
    set_handles (fun h => h <| os_Ctx := 0 |>)
  end!.
Definition OpenSslStream_ReleaseCredentials : op unit := TlsStream_ReleaseCredentials.
Definition OpenSslStream_Close : op unit :=
  let! handles := tls_get tl_Handles in
  if! negb (os_Ssl handles =? 0) then
    let! _ := tls_perform openssl (Shutdown (os_Ssl handles)) in
    OpenSslStream_ReleaseHandshakeState
  end! ;;;
  OpenSslStream_ReleaseSslContext ;;;
  OpenSslStream_ReleaseCredentials ;;;
  close_transport.

(** ** Open, a step at a time *)

Definition OpenSslStream_Report : Z -> Z -> Z -> op unit := TlsStream_Report openssl.
Definition OpenSslStream_ReportOpenFailure : Z -> Z -> Z -> op unit := TlsStream_ReportOpenFailure openssl.
Abbreviation or_report := (or_report openssl).
Definition OpenSslStream_PullProfile : op unit := TlsStream_PullProfile openssl.

Definition OpenSslStream_RequirePeerVerification (ctx : Z) : op bool :=
  tls_quiet (SSL_CTX_set_verify ctx (SSL_VERIFY_PEER codes)) ;;;
  st_ret true.
Definition OpenSslStream_ConfigureProtocolFloor (ctx : Z) : op bool :=
  let! minimum := tls_call (SSL_CTX_get_min_proto_version ctx) in
  if minimum <? TLS1_2_VERSION codes then
    let! rc := tls_call (SSL_CTX_set_min_proto_version ctx (TLS1_2_VERSION codes)) in
    st_ret (rc =? 1)
  else st_ret true.
Definition OpenSslStream_ConfigureCipherList (ctx : Z) (cipherList : option bytes) : op bool :=
  match cipherList with
  | Some cipherList => let! rc := tls_call (SSL_CTX_set_cipher_list ctx cipherList) in st_ret (rc =? 1)
  | None => st_ret true
  end.
Definition OpenSslStream_ConfigureCipherSuites (ctx : Z) (cipherSuites : option bytes) : op bool :=
  match cipherSuites with
  | Some cipherSuites => let! rc := tls_call (SSL_CTX_set_ciphersuites ctx cipherSuites) in st_ret (rc =? 1)
  | None => st_ret true
  end.
Definition OpenSslStream_ConfigureCipherPolicy (ctx : Z) (profile : SolidSyslogOpenSslProfile) : op bool :=
  OpenSslStream_ConfigureCipherList ctx (op_CipherList profile) &&! OpenSslStream_ConfigureCipherSuites ctx (op_CipherSuites profile).
Definition OpenSslStream_RaiseSecurityLevel (ctx : Z) : op unit :=
  let! level := tls_call (SSL_CTX_get_security_level ctx) in
  if! level <? OPENSSL_STREAM_SECURITY_LEVEL_FLOOR then tls_quiet (SSL_CTX_set_security_level ctx OPENSSL_STREAM_SECURITY_LEVEL_FLOOR) end!.
Definition OpenSslStream_RequireSecureRenegotiation (ctx : Z) : op unit :=
  tls_quiet (SSL_CTX_clear_options ctx (Z.lor (SSL_OP_LEGACY_SERVER_CONNECT codes) (SSL_OP_ALLOW_UNSAFE_LEGACY_RENEGOTIATION codes))).
Definition OpenSslStream_RefusePassphrasePrompts (ctx : Z) : op unit := tls_quiet (SSL_CTX_set_default_passwd_cb ctx).
Definition OpenSslStream_InitSslContext : op bool :=
  let! ctx := tls_call SSL_CTX_new in
  set_handles (fun h => h <| os_Ctx := ctx |>) ;;;
  let! profile := tls_get tl_Profile in
  let! ok := st_ret (negb (ctx =? 0)) &&! OpenSslStream_RequirePeerVerification ctx &&! OpenSslStream_ConfigureProtocolFloor ctx in
  let! ok :=
    if negb ok then or_report false SOLIDSYSLOG_CAT_TLS_STREAM_INIT_FAILED SOLIDSYSLOG_TLS_STREAM_ERROR_CONTEXT_INIT_FAILED
    else
      let! accepted := OpenSslStream_ConfigureCipherPolicy ctx profile in
      if negb accepted then or_report false SOLIDSYSLOG_CAT_BAD_CONFIG SOLIDSYSLOG_TLS_STREAM_ERROR_CIPHER_POLICY_REJECTED
      else
        OpenSslStream_RaiseSecurityLevel ctx ;;;
        OpenSslStream_RequireSecureRenegotiation ctx ;;;
        OpenSslStream_RefusePassphrasePrompts ctx ;;;
        st_ret ok in
  if! negb ok then OpenSslStream_ReleaseSslContext end! ;;;
  st_ret ok.

Definition OpenSslStream_PeerIsAuthorisable : SolidSyslogTlsCredentialsInstalled -> bool := TlsStream_PeerIsAuthorisable.
Definition OpenSslStream_FingerprintsAreUsable : op bool := TlsStream_FingerprintsAreUsable openssl.
Definition OpenSslStream_InstallCredentials : op bool :=
  let! handles := tls_get tl_Handles in
  TlsStream_InstallCredentials openssl (os_Ctx handles).

Definition OpenSslStream_ApplySessionPolicy (ssl : Z) : op unit :=
  tls_quiet (SSL_set_hostflags ssl (X509_CHECK_FLAG_NO_PARTIAL_WILDCARDS codes)) ;;;
  tls_quiet (SSL_set_options ssl (SSL_OP_NO_RENEGOTIATION codes)).
Definition OpenSslStream_InitSslSession : op bool :=
  let! handles := tls_get tl_Handles in
  let! ssl := tls_call (SSL_new (os_Ctx handles)) in
  set_handles (fun h => h <| os_Ssl := ssl |>) ;;;
  let! ok := st_ret (negb (ssl =? 0)) &&! (let! rc := tls_call (SSL_set_app_data ssl) in st_ret (rc =? 1)) in
  if! ok : bool then OpenSslStream_ApplySessionPolicy ssl end! ;;;
  or_report ok SOLIDSYSLOG_CAT_TLS_STREAM_INIT_FAILED SOLIDSYSLOG_TLS_STREAM_ERROR_SESSION_INIT_FAILED.

Definition OpenSslStream_CreateTransportBioMethod : op Z :=
  let! method := tls_call BIO_meth_new in
  if! negb (method =? 0) then
    tls_quiet (BIO_meth_set_create method) ;;;
    tls_quiet (BIO_meth_set_read method) ;;;
    tls_quiet (BIO_meth_set_write method) ;;;
    tls_quiet (BIO_meth_set_ctrl method)
  end! ;;;
  st_ret method.
(** [BIO_new] runs the method's create on what it makes. *)
Definition new_bio (method : Z) : op Z :=
  let! bio := tls_call (BIO_new method) in
  if! negb (bio =? 0) then let! _ := OpenSslStream_TransportBioCreate bio in st_ret tt end! ;;;
  st_ret bio.
Definition OpenSslStream_CreateTransportBio : op Z :=
  let! method := OpenSslStream_CreateTransportBioMethod in
  set_handles (fun h => h <| os_BioMethod := method |>) ;;;
  if negb (method =? 0) then
    let! bio := new_bio method in
    if! bio =? 0 then OpenSslStream_ReleaseBioMethod end! ;;;
    st_ret bio
  else st_ret 0.
Definition OpenSslStream_AttachTransportBio : op bool :=
  let! bio := OpenSslStream_CreateTransportBio in
  let! handles := tls_get tl_Handles in
  let ok := negb (bio =? 0) in
  if! ok then
    tls_quiet (BIO_set_data bio) ;;;
    tls_quiet (SSL_set_bio (os_Ssl handles) bio)
  end! ;;;
  or_report ok SOLIDSYSLOG_CAT_TLS_STREAM_INIT_FAILED SOLIDSYSLOG_TLS_STREAM_ERROR_SESSION_INIT_FAILED.

Definition OpenSslStream_NameBeginsWithADot (name : bytes) : bool := name.[0] =? 46.
Definition OpenSslStream_ConfigureExpectedHostname : op bool :=
  let! self := tls_get (fun self => self) in
  let ssl := os_Ssl (tl_Handles self) in
  match op_ServerName (tl_Profile self) with
  | None =>
      if! in_FingerprintCount (tl_Installed self) =? 0 then
        OpenSslStream_Report SOLIDSYSLOG_SEVERITY_WARNING SOLIDSYSLOG_CAT_BAD_CONFIG SOLIDSYSLOG_TLS_STREAM_ERROR_SERVER_NAME_NOT_SET
      end! ;;;
      st_ret true
  | Some serverName =>
      if OpenSslStream_NameBeginsWithADot serverName then
        or_report false SOLIDSYSLOG_CAT_BAD_CONFIG SOLIDSYSLOG_TLS_STREAM_ERROR_SERVER_NAME_NOT_APPLIED
      else if negb (serverName.[0] =? 0) then
        let! ok :=
          (let! rc := tls_call (SSL_set_tlsext_host_name ssl serverName) in st_ret (rc =? 1)) &&!
          (let! rc := tls_call (SSL_set1_host ssl serverName) in st_ret (rc =? 1)) in
        or_report ok SOLIDSYSLOG_CAT_BAD_CONFIG SOLIDSYSLOG_TLS_STREAM_ERROR_SERVER_NAME_NOT_APPLIED
      else st_ret true
  end.

(** ** The handshake *)

Definition OpenSslStream_IsRetryableSslError (err : Z) : bool := (err =? SSL_ERROR_WANT_READ codes) || (err =? SSL_ERROR_WANT_WRITE codes).
Definition OpenSslStream_ChainTrustWasWaivedByPolicy (self : stream) (verdict : Z) : bool :=
  (0 <? in_FingerprintCount (tl_Installed self)) && negb (in_TrustAnchorsInstalled (tl_Installed self)) && OpenSslStream_IsChainTrustError verdict.
Definition OpenSslStream_RefusalDetail : op Z :=
  let! self := tls_get (fun self => self) in
  let! verdict := tls_call (SSL_get_verify_result (os_Ssl (tl_Handles self))) in
  st_ret (
    if decide (os_PinVerdict (tl_Notes self) = SOLIDSYSLOG_TLS_AUTHORISATION_DIGEST_UNAVAILABLE) then SOLIDSYSLOG_TLS_STREAM_ERROR_FINGERPRINT_DIGEST_UNAVAILABLE
    else if verdict =? X509_V_ERR_APPLICATION_VERIFICATION codes then SOLIDSYSLOG_TLS_STREAM_ERROR_PEER_FINGERPRINT_MISMATCHED
    else if OpenSslStream_IsPeerNameMismatch verdict then SOLIDSYSLOG_TLS_STREAM_ERROR_PEER_NAME_MISMATCHED
    else if verdict =? X509_V_ERR_CERT_HAS_EXPIRED codes then SOLIDSYSLOG_TLS_STREAM_ERROR_PEER_CERTIFICATE_EXPIRED
    else if verdict =? X509_V_ERR_CERT_NOT_YET_VALID codes then SOLIDSYSLOG_TLS_STREAM_ERROR_PEER_CERTIFICATE_NOT_YET_VALID
    else if negb (verdict =? X509_V_OK codes) && negb (OpenSslStream_ChainTrustWasWaivedByPolicy self verdict) then SOLIDSYSLOG_TLS_STREAM_ERROR_PEER_CERTIFICATE_UNTRUSTED
    else SOLIDSYSLOG_TLS_STREAM_ERROR_HANDSHAKE_REJECTED).
(** One call of [SSL_connect]. *)
Definition OpenSslStream_Turn : op handshake_turn :=
  let! ssl := session openssl in
  let! answer := tls_perform openssl (Handshake ssl) in
  let rc := fst answer in
  if 0 <? rc then st_ret (HandshakeOver true)
  else
    let! err := tls_call (SSL_get_error ssl rc) in
    if negb (OpenSslStream_IsRetryableSslError err) then
      let! detail := OpenSslStream_RefusalDetail in
      st_ret (HandshakeRefused detail)
    else st_ret HandshakeUnfinished.
Definition OpenSslStream_PerformHandshake : op bool := TlsStream_PerformHandshake openssl OpenSslStream_Turn.
Definition OpenSslStream_PeerPresentedACertificate : op bool :=
  let! handles := tls_get tl_Handles in
  let! certificate := tls_call (SSL_get0_peer_certificate (os_Ssl handles)) in
  or_report (negb (certificate =? 0)) SOLIDSYSLOG_CAT_BAD_CONFIG SOLIDSYSLOG_TLS_STREAM_ERROR_NO_PEER_AUTHORISATION.
Definition OpenSslStream_NoNameObjectionIsOutstanding : op bool :=
  let! notes := tls_get tl_Notes in
  or_report (os_NameObjection notes =? X509_V_OK codes) SOLIDSYSLOG_CAT_TLS_STREAM_HANDSHAKE_FAILED SOLIDSYSLOG_TLS_STREAM_ERROR_PEER_NAME_MISMATCHED.

Definition OpenSslStream_IsOpen (self : stream) : bool := negb (os_Ctx (tl_Handles self) =? 0).
Definition OpenSslStream_Establish (addr : SolidSyslogAddress) : op bool :=
  OpenSslStream_PullProfile ;;;
  set_notes (fun _ => mkOpenSslNotes (X509_V_OK codes) (X509_V_OK codes) (X509_V_OK codes) SOLIDSYSLOG_TLS_AUTHORISATION_NO_MATCH) ;;;
  let! ok := open_transport addr &&! OpenSslStream_InitSslContext &&! OpenSslStream_InstallCredentials &&! OpenSslStream_InitSslSession &&!
             OpenSslStream_AttachTransportBio &&! OpenSslStream_ConfigureExpectedHostname &&! OpenSslStream_PerformHandshake &&!
             OpenSslStream_PeerPresentedACertificate &&! OpenSslStream_NoNameObjectionIsOutstanding in
  if! negb ok then OpenSslStream_Close end! ;;;
  st_ret ok.
Definition OpenSslStream_Open : SolidSyslogAddress -> op bool := TlsStream_Open openssl OpenSslStream_IsOpen OpenSslStream_Establish.

(** ** The vtable *)

Definition OpenSslStream_NothingYet (rc : Z) : op bool :=
  let! ssl := session openssl in
  let! err := tls_call (SSL_get_error ssl rc) in
  st_ret (err =? SSL_ERROR_WANT_READ codes).
Definition OpenSslStream_Read : bytes -> Z -> op (Z * bytes) := TlsStream_Read openssl OpenSslStream_NothingYet OpenSslStream_Close.
Definition OpenSslStream_SessionIsStillOpen : op bool := TlsStream_SessionIsStillOpen openssl OpenSslStream_NothingYet OpenSslStream_Close.
Definition OpenSslStream_Send : bytes -> Z -> op bool := TlsStream_Send openssl OpenSslStream_NothingYet OpenSslStream_Close.
Definition OpenSslStream_Version : op Z := TlsStream_Version.
Definition SolidSyslogOpenSslStream_Initialise (config : tls_config SolidSyslogOpenSslProfile E) : op unit :=
  TlsStream_Initialise config ;;;
  set_handles (fun _ => mkOpenSslHandles 0 0 0).
Definition SolidSyslogOpenSslStream_Cleanup : op unit := TlsStream_Cleanup OpenSslStream_Close.
Definition OpenSslStream_vtable : SolidSyslogStream (tls_world openssl_call openssl_given openssl_answer openssl_handles openssl_notes SolidSyslogOpenSslProfile E) :=
  TlsStream_vtable openssl OpenSslStream_NothingYet OpenSslStream_Close OpenSslStream_Open.
End openssl.

(** * OpenSSL's protocol *)

(** The objects that are held, and what was set on them: of the context, that peers are
    verified, the protocol floor, the security level, that unsafe renegotiation is off;
    of the session, the stream as its app data, that it does not renegotiate, the name
    the peer is checked for, the BIO, and whether the peer was last seen to have presented
    a certificate. *)
Record openssl_held := mkOpenSslHeld {
  ol_Ctx : Z; ol_Ssl : Z; ol_Method : Z; ol_Bio : Z;
  ol_Verifies : bool; ol_Floor : bool; ol_Level : bool; ol_Renegotiates : bool;
  ol_AppData : bool; ol_Name : option bytes; ol_Attached : bool; ol_Peer : bool
}.
#[export] Instance settable_openssl_held : Settable openssl_held := fun l => mkOpenSslHeld
  (ol_Ctx l) (ol_Ssl l) (ol_Method l) (ol_Bio l) (ol_Verifies l) (ol_Floor l) (ol_Level l) (ol_Renegotiates l) (ol_AppData l) (ol_Name l) (ol_Attached l) (ol_Peer l).
Definition openssl_nothing : openssl_held := mkOpenSslHeld 0 0 0 0 false false false true false None false false.

Section protocol.
Context (codes : openssl_codes).
(** A context is made when none is held, and freed once, after its session; a session is
    made from a context that verifies peers and keeps the floors, and freed once, with the BIO
    it was given; the
    BIO's method outlives the session that uses it, and is freed once.  A cipher string
    may move the security level, so it is looked at after.  No call names what is not
    held. *)
Definition openssl_step (l : openssl_held) (c : openssl_call) (answer : Z) : option openssl_held :=
  let on_ctx ctx l' := if (ctx =? ol_Ctx l) && negb (ctx =? 0) then Some l' else None in
  let on_ssl ssl l' := if (ssl =? ol_Ssl l) && negb (ssl =? 0) then Some l' else None in
  let on_method method l' := if (method =? ol_Method l) && negb (method =? 0) then Some l' else None in
  let on_bio bio l' := if (bio =? ol_Bio l) && negb (bio =? 0) then Some l' else None in
  match c with
  | SSL_CTX_new => if ol_Ctx l =? 0 then Some (openssl_nothing <| ol_Ctx := answer |>) else None
  | SSL_CTX_set_verify ctx mode => on_ctx ctx (l <| ol_Verifies := mode =? SSL_VERIFY_PEER codes |>)
  | SSL_CTX_get_min_proto_version ctx => on_ctx ctx (l <| ol_Floor := TLS1_2_VERSION codes <=? answer |>)
  | SSL_CTX_set_min_proto_version ctx version => on_ctx ctx (l <| ol_Floor := (answer =? 1) && (TLS1_2_VERSION codes <=? version) |>)
  | SSL_CTX_set_cipher_list ctx _ | SSL_CTX_set_ciphersuites ctx _ => on_ctx ctx (l <| ol_Level := false |>)
  | SSL_CTX_get_security_level ctx => on_ctx ctx (l <| ol_Level := OPENSSL_STREAM_SECURITY_LEVEL_FLOOR <=? answer |>)
  | SSL_CTX_set_security_level ctx level => on_ctx ctx (l <| ol_Level := OPENSSL_STREAM_SECURITY_LEVEL_FLOOR <=? level |>)
  | SSL_CTX_clear_options ctx options =>
      on_ctx ctx (l <| ol_Renegotiates := negb (options =? Z.lor (SSL_OP_LEGACY_SERVER_CONNECT codes) (SSL_OP_ALLOW_UNSAFE_LEGACY_RENEGOTIATION codes)) |>)
  | SSL_CTX_set_default_passwd_cb ctx => on_ctx ctx l
  | SSL_CTX_free ctx => if ol_Ssl l =? 0 then on_ctx ctx openssl_nothing else None
  | SSL_new ctx =>
      if (ol_Ssl l =? 0) && (ol_Method l =? 0) && ol_Verifies l && ol_Floor l && ol_Level l && negb (ol_Renegotiates l)
      then on_ctx ctx (l <| ol_Ssl := answer |>) else None
  | SSL_set_app_data ssl => on_ssl ssl (l <| ol_AppData := answer =? 1 |>)
  | SSL_set_hostflags ssl _ | SSL_set_options ssl _ | SSL_set_tlsext_host_name ssl _ => on_ssl ssl l
  | SSL_set1_host ssl name => on_ssl ssl (l <| ol_Name := if answer =? 1 then Some name else None |>)
  | SSL_set_bio ssl bio => if (bio =? ol_Bio l) && negb (bio =? 0) then on_ssl ssl (l <| ol_Attached := true |>) else None
  | SSL_get_error ssl _ | SSL_get_verify_result ssl => on_ssl ssl l
  | SSL_get0_peer_certificate ssl => on_ssl ssl (l <| ol_Peer := negb (answer =? 0) |>)
  | SSL_free ssl => if (ol_Bio l =? 0) || ol_Attached l then on_ssl ssl (l <| ol_Ssl := 0 |> <| ol_Bio := 0 |> <| ol_AppData := false |> <| ol_Name := None |> <| ol_Attached := false |> <| ol_Peer := false |>) else None
  | BIO_meth_new => if ol_Method l =? 0 then Some (l <| ol_Method := answer |>) else None
  | BIO_meth_set_create method | BIO_meth_set_read method | BIO_meth_set_write method | BIO_meth_set_ctrl method => on_method method l
  | BIO_new method => if ol_Bio l =? 0 then on_method method (l <| ol_Bio := answer |>) else None
  | BIO_set_init bio _ | BIO_set_data bio => on_bio bio l
  | BIO_set_retry_read _ | BIO_clear_retry_flags _ => Some l
  | BIO_meth_free method => if ol_Bio l =? 0 then on_method method (l <| ol_Method := 0 |>) else None
  | X509_digest _ _ => Some l
  end.
(** Every call that may call back is on the session that is held; a handshake is on one
    that is whole. *)
Definition openssl_protocol : lib_protocol openssl_call openssl_held := {|
  lp_Start := openssl_nothing;
  lp_Step := openssl_step;
  lp_Runs := fun l act => (act_session act =? ol_Ssl l) && negb (act_session act =? 0) &&
    match act with Handshake _ => ol_AppData l && ol_Attached l | _ => true end;
  lp_IsIdle := fun l => (ol_Ctx l =? 0) && (ol_Ssl l =? 0) && (ol_Method l =? 0);
  lp_Takes := fun l context => (context =? ol_Ctx l) && negb (context =? 0)
|}.
End protocol.

(** What is relied on: reads give no more than was asked for; a digest is of at most the
    largest size, in bytes, and [written] is its length; error codes are told apart. *)
Record openssl_ok {E} `{TlsLibrary openssl_call openssl_given openssl_answer E} (codes : openssl_codes) : Prop := {
  os_read_answers : forall ssl buffer size e, ends_in (fun rc => rc <= Z.max 0 size) (tls_run (ReadFrom ssl buffer size) e);
  os_digest_answers : forall leaf md e, let '(rc, written, made) := fst (tls_hash (X509_digest leaf md) e) in
    lenZ made <= SOLIDSYSLOG_TLS_FINGERPRINT_DIGEST_MAX /\ all_bytes made /\ (rc = 1 -> written = lenZ made);
  os_codes_apart : NoDup [X509_V_OK codes; X509_V_ERR_UNABLE_TO_GET_ISSUER_CERT codes; X509_V_ERR_CERT_NOT_YET_VALID codes; X509_V_ERR_CERT_HAS_EXPIRED codes;
    X509_V_ERR_DEPTH_ZERO_SELF_SIGNED_CERT codes; X509_V_ERR_SELF_SIGNED_CERT_IN_CHAIN codes; X509_V_ERR_UNABLE_TO_GET_ISSUER_CERT_LOCALLY codes;
    X509_V_ERR_UNABLE_TO_VERIFY_LEAF_SIGNATURE codes; X509_V_ERR_CERT_UNTRUSTED codes; X509_V_ERR_APPLICATION_VERIFICATION codes;
    X509_V_ERR_HOSTNAME_MISMATCH codes; X509_V_ERR_IP_ADDRESS_MISMATCH codes]
}.

(** * A pack *)

Section pack.
Context {E : Type} `{HT : ErrorTap E} `{HL : TlsLibrary openssl_call openssl_given openssl_answer E} (codes : openssl_codes).
Context (scratch : SolidSyslogTlsFingerprint) (area : bytes).
Context (OK : openssl_ok codes) (fits : DIGEST_AREA scratch) (scratch_bytes : all_bytes (fp_Digest scratch))
  (area_fits : lenZ area = SOLIDSYSLOG_TLS_FINGERPRINT_DIGEST_MAX) (area_bytes : all_bytes area).
Abbreviation op := (tls_op openssl_call openssl_given openssl_answer openssl_handles openssl_notes SolidSyslogOpenSslProfile E).
Abbreviation stream := (tls_stream openssl_handles openssl_notes SolidSyslogOpenSslProfile E).
Abbreviation seen := (tls_seen openssl_call openssl_given openssl_answer openssl_held).
Abbreviation evidence := (tls_evidence openssl_call openssl_given openssl_answer).
Abbreviation check := (tls_check openssl_call openssl_given openssl_answer).
Abbreviation K := (openssl codes scratch area).
Abbreviation LP := (openssl_protocol codes).
Abbreviation leads := (tls_leads LP).
Implicit Types (self : stream) (s : seen) (ck : check) (inst : SolidSyslogTlsCredentialsInstalled) (n : openssl_notes) (te : evidence).

(** ** What the verify callback keeps *)

Definition verdict_of ck : Z := fst (ck_Answer ck).
Definition passed ck : Prop := fst (ck_Given ck) = 1.
Definition error_at ck : Z := sc_error (snd (ck_Given ck)).
Definition depth_at ck : Z := sc_error_depth (snd (ck_Given ck)).
Definition cert_at ck : Z := sc_current_cert (snd (ck_Given ck)).
Definition pinned inst : bool := 0 <? in_FingerprintCount inst.
Definition pin_alone inst : Prop := pinned inst = true /\ in_TrustAnchorsInstalled inst = false.
(** The leaf's digest, as OpenSSL made it for the callback, is one of the pins. *)
Definition digest_made (cert : Z) (ds : list (openssl_call * Z * Z * bytes)) (alg : SolidSyslogTlsHashAlgorithm) (d : bytes) : Prop :=
  exists md, OpenSslStream_DigestFor alg = Some md /\ In (X509_digest cert md, 1, digest_length alg, d) ds.
Definition leaf_pinned inst ck : Prop := a_pin_matches inst (digest_made (cert_at ck) (ck_Digests ck)).

Lemma DigestCertificate_hashes cert alg : hashes_only LP (OpenSslStream_DigestCertificate (E := E) cert alg area 0) (fun r ds =>
  lenZ (snd (fst r)) = SOLIDSYSLOG_TLS_FINGERPRINT_DIGEST_MAX /\ all_bytes (snd (fst r)) /\
  (fst (fst r) = true -> snd r = digest_length alg -> digest_made cert ds alg (takeZ (digest_length alg) (snd (fst r))))).
Proof using OK area_fits area_bytes.
  intros self lib tr cr up bu rs ws te. unfold OpenSslStream_DigestCertificate. assert (exists md, OpenSslStream_DigestFor alg = Some md) as [md Emd] by (destruct alg; eauto).
  rewrite Emd. apply tleads_bind. unfold tls_digest. apply tleads_bind.
  apply (tleads_env _ _ (fun a => lenZ (snd a) <= SOLIDSYSLOG_TLS_FINGERPRINT_DIGEST_MAX /\ all_bytes (snd a) /\ (fst (fst a) = 1 -> snd (fst a) = lenZ (snd a)))).
  { intros e. pose proof (os_digest_answers codes OK cert md e) as Ho. by destruct (fst (tls_hash (X509_digest cert md) e)) as [[rc written] made]. }
  intros [[rc written] made] (Hl & Hb & Hw). cbn [fst snd] in *. tleads_on. eapply tleads_happens; [reflexivity |]. tleads_on. cbn [fst snd].
  split; [done |]. eexists. split; [done |]. unfold SOLIDSYSLOG_TLS_FINGERPRINT_DIGEST_MAX in *. pose proof (lenZ_nonneg made).
  split; [rewrite lenZ_spliceZ by lia; lia |]. split; [rewrite spliceZ_0; apply Forall_app; split; [done | by apply all_bytes_dropZ] |].
  intros Hrc%Z.eqb_eq Hn. exists md. split; [done |]. apply in_app_iff. right. left. rewrite spliceZ_0, takeZ_app_le, takeZ_ge by (rewrite <- Hw by done; lia).
  by rewrite Hrc, Hn.
Qed.
Lemma LeafMatchesAPin_leads store base cfg h ci inst p Hd n lib tr cr up bu rs ws te (Q : bool -> stream -> seen -> Prop) :
  (forall v more, (v = SOLIDSYSLOG_TLS_AUTHORISATION_MATCHED -> a_pin_matches inst (digest_made (sc_current_cert store) (te_Digests te ++ more))) ->
    Q (bool_decide (v = SOLIDSYSLOG_TLS_AUTHORISATION_MATCHED)) (mkTlsStream base cfg h ci inst p Hd (n <| os_PinVerdict := v |>))
      (mkTlsSeen lib tr cr up bu rs ws (mkEvidence (te_Installed te) (te_Checks te) (te_Digests te ++ more) (te_Below te)))) ->
  leads (OpenSslStream_LeafMatchesAPin scratch area store) (mkTlsStream base cfg h ci inst p Hd n) (mkTlsSeen lib tr cr up bu rs ws te) Q.
Proof using OK fits scratch_bytes area_fits area_bytes.
  intros HQ. unfold OpenSslStream_LeafMatchesAPin, set_notes. tleads_on.
  eapply tleads_mono; [apply (Authorise_leads LP scratch area fits scratch_bytes OpenSslStream_DigestCertificate (sc_current_cert store) (fun alg d ds => digest_made (sc_current_cert store) ds alg d)) |].
  - intros alg d ds more (md & Hmd & Hin). exists md. split; [done |]. apply in_app_iff. by left.
  - apply DigestCertificate_hashes.
  - intros v self' s' (-> & more & -> & Hv). tleads_on. by apply HQ.
Qed.

(** The error codes the callback sorts by. *)
Lemma codes_sorted e :
  (OpenSslStream_IsChainTrustError codes e = true -> e <> X509_V_OK codes /\ OpenSslStream_IsPeerNameMismatch codes e = false) /\
  (OpenSslStream_IsValidityError codes e = true -> e <> X509_V_OK codes /\ OpenSslStream_IsPeerNameMismatch codes e = false) /\
  (OpenSslStream_IsPeerNameMismatch codes e = true -> e <> X509_V_OK codes) /\
  OpenSslStream_IsPeerNameMismatch codes (X509_V_ERR_APPLICATION_VERIFICATION codes) = false.
Proof using OK.
  pose proof (os_codes_apart codes OK) as Hn. unfold OpenSslStream_IsChainTrustError, OpenSslStream_IsValidityError, OpenSslStream_IsPeerNameMismatch.
  rewrite !list.NoDup_cons, !not_elem_of_cons in Hn. rewrite !orb_true_iff, !orb_false_iff, !Z.eqb_eq, !Z.eqb_neq.
  intuition congruence.
Qed.

(** What the callback does at a leaf, once the pin is looked up, and above it. *)
Definition pin_answer inst n (matches : bool) (given : openssl_given) : openssl_answer :=
  let '(preverifyOk, store) := given in
  let '(verdict, store) :=
    if negb matches then (0, store <| sc_error := X509_V_ERR_APPLICATION_VERIFICATION codes |>)
    else if in_TrustAnchorsInstalled inst && negb (os_ChainObjection n =? X509_V_OK codes) then (0, store <| sc_error := os_ChainObjection n |>)
    else if pinned inst && negb (in_TrustAnchorsInstalled inst) && OpenSslStream_IsChainTrustError codes (sc_error store) then (1, store)
    else (preverifyOk, store) in
  if (verdict =? 1) && negb (os_ValidityObjection n =? X509_V_OK codes) then (0, store <| sc_error := os_ValidityObjection n |>) else (verdict, store).
Definition name_answer n (a : openssl_answer) : openssl_notes * openssl_answer :=
  let '(verdict, store) := a in
  if (verdict =? 0) && OpenSslStream_IsPeerNameMismatch codes (sc_error store) then (n <| os_NameObjection := sc_error store |>, (1, store))
  else if (verdict =? 1) && negb (os_NameObjection n =? X509_V_OK codes) then (n, (0, store <| sc_error := os_NameObjection n |>))
  else (n, (verdict, store)).
Definition carry_answer inst n (given : openssl_given) : openssl_notes * openssl_answer :=
  let '(preverifyOk, store) := given in
  if pinned inst && OpenSslStream_IsChainTrustError codes (sc_error store) then (n <| os_ChainObjection := sc_error store |>, (1, store))
  else if pinned inst && OpenSslStream_IsValidityError codes (sc_error store) then (n <| os_ValidityObjection := sc_error store |>, (1, store))
  else (n, given).
(** The callback, given what the walk over the pins found at a pinned leaf. *)
Inductive judged inst n (given : openssl_given) (made : SolidSyslogTlsHashAlgorithm -> bytes -> Prop) : openssl_notes -> openssl_answer -> Prop :=
| judged_above :
    sc_error_depth (snd given) <> 0 ->
    judged inst n given made (fst (carry_answer inst n given)) (snd (carry_answer inst n given))
| judged_leaf :
    sc_error_depth (snd given) = 0 -> pinned inst = false ->
    judged inst n given made (fst (name_answer n given)) (snd (name_answer n given))
| judged_pinned_leaf v :
    sc_error_depth (snd given) = 0 -> pinned inst = true ->
    (v = SOLIDSYSLOG_TLS_AUTHORISATION_MATCHED -> a_pin_matches inst made) ->
    let n1 := n <| os_PinVerdict := v |> in
    let a := pin_answer inst n1 (bool_decide (v = SOLIDSYSLOG_TLS_AUTHORISATION_MATCHED)) given in
    judged inst n given made (fst (name_answer n1 a)) (snd (name_answer n1 a)).

Lemma ResolveNameObjection_leads verdict store base cfg h ci inst p Hd n s (Q : openssl_answer -> stream -> seen -> Prop) :
  Q (snd (name_answer n (verdict, store))) (mkTlsStream base cfg h ci inst p Hd (fst (name_answer n (verdict, store)))) s ->
  leads (OpenSslStream_ResolveNameObjection codes verdict store) (mkTlsStream base cfg h ci inst p Hd n) s Q.
Proof using.
  unfold OpenSslStream_ResolveNameObjection, set_notes, name_answer. intros HQ. tleads_on. destruct (_ && _); [by tleads_on |]. destruct (_ && _); by tleads_on.
Qed.
Lemma VerifyPeer_leads given base cfg h ci inst p Hd n lib tr cr up bu rs ws te :
  leads (OpenSslStream_VerifyPeer codes scratch area given) (mkTlsStream base cfg h ci inst p Hd n) (mkTlsSeen lib tr cr up bu rs ws te)
    (fun r self' s' => exists n' digests, self' = mkTlsStream base cfg h ci inst p Hd n' /\
      s' = mkTlsSeen lib tr cr up bu rs ws (mkEvidence (te_Installed te) (te_Checks te) digests (te_Below te)) /\
      judged inst n given (digest_made (sc_current_cert (snd given)) digests) n' r).
Proof using OK fits scratch_bytes area_fits area_bytes.
  destruct given as [preverifyOk store]. unfold OpenSslStream_VerifyPeer. destruct (Z.eqb_spec (sc_error_depth store) 0) as [Hd0 | Hd0]; tleads_on.
  - change (0 <? in_FingerprintCount inst) with (pinned inst). destruct (pinned inst) eqn:Ep; tleads_on.
    + unfold OpenSslStream_VerifyPinnedLeaf. tleads_on. apply LeafMatchesAPin_leads. intros v more Hv. tleads_on.
      match goal with |- tls_leads _ (let '(verdict, store) := ?x in _) _ _ _ => destruct x as [verdict store'] eqn:Ea end. tleads_on.
      match goal with |- tls_leads _ (OpenSslStream_ResolveNameObjection _ (fst ?x) (snd ?x)) _ _ _ => destruct x as [verdict' store''] eqn:Ea' end. cbn [fst snd].
      apply ResolveNameObjection_leads. do 2 eexists. split; [done |]. split; [by destruct te |].
      assert (Epa : (verdict', store'') = pin_answer inst (n <| os_PinVerdict := v |>) (bool_decide (v = SOLIDSYSLOG_TLS_AUTHORISATION_MATCHED)) (preverifyOk, store)).
      { rewrite <- Ea'. unfold pin_answer. 
        unfold OpenSslStream_CarriedChainObjectionStands, OpenSslStream_IsChainTrustWaived, OpenSslStream_CarriedValidityObjectionStands in *.
        cbn [tl_Installed tl_Notes] in *. fold (pinned inst) in Ea. by rewrite Ea. }
      rewrite Epa. by apply judged_pinned_leaf.
    + apply ResolveNameObjection_leads. cbn [fst snd]. exists (fst (name_answer n (preverifyOk, store))), (te_Digests te). split; [done |]. split; [by destruct te |]. by apply (judged_leaf inst n (preverifyOk, store)).
  - unfold OpenSslStream_CarryObjectionToTheLeaf, set_notes. tleads_on. fold (pinned inst).
    pose proof (judged_above inst n (preverifyOk, store) (digest_made (sc_current_cert store) (te_Digests te)) Hd0) as Hj. cbn [carry_answer] in Hj.
    destruct (pinned inst && OpenSslStream_IsChainTrustError codes (sc_error store)) eqn:E1;
      [| destruct (pinned inst && OpenSslStream_IsValidityError codes (sc_error store)) eqn:E2]; tleads_on;
      repeat match goal with Hand : pinned inst && _ = true |- _ => apply andb_prop in Hand as [-> _] end; eexists _, (te_Digests te); (split; [done |]); (split; [by destruct te |]); exact Hj.
Qed.

(** ** The ledger of objections *)

(** An objection that a verdict of 1 passed over: waived for a pin that stands alone, or
    carried in the notes. *)
Definition waived inst (e : Z) : Prop := pin_alone inst /\ OpenSslStream_IsChainTrustError codes e = true.
Definition carried inst n : Prop :=
  in_TrustAnchorsInstalled inst = true /\ os_ChainObjection n <> X509_V_OK codes \/ os_ValidityObjection n <> X509_V_OK codes \/ os_NameObjection n <> X509_V_OK codes.
(** What a leaf's verdict of 1 says. *)
Definition leaf_settled inst n ck : Prop := depth_at ck = 0 -> verdict_of ck = 1 ->
  (pinned inst = true -> leaf_pinned inst ck) /\
  (os_NameObjection n = X509_V_OK codes -> (in_TrustAnchorsInstalled inst = true -> os_ChainObjection n = X509_V_OK codes) /\ os_ValidityObjection n = X509_V_OK codes).
Record ledger inst n (checks : list check) : Prop := {
  lg_chain : os_ChainObjection n = X509_V_OK codes \/ pinned inst = true /\ OpenSslStream_IsChainTrustError codes (os_ChainObjection n) = true;
  lg_validity : os_ValidityObjection n = X509_V_OK codes \/ pinned inst = true /\ OpenSslStream_IsValidityError codes (os_ValidityObjection n) = true;
  lg_objections : Forall (fun ck => verdict_of ck = 1 -> passed ck \/ waived inst (error_at ck) \/ carried inst n) checks;
  lg_leaf : forall before ck, checks = before ++ [ck] -> leaf_settled inst n ck
}.
(** What is carried stays carried. *)
Definition keeps_carried inst n n' : Prop := carried inst n -> carried inst n'.

Lemma name_answer_tells n verdict store : let '(n', (verdict', _)) := name_answer n (verdict, store) in
  os_ChainObjection n' = os_ChainObjection n /\ os_ValidityObjection n' = os_ValidityObjection n /\
  (os_NameObjection n <> X509_V_OK codes -> os_NameObjection n' <> X509_V_OK codes) /\
  (verdict' = 1 -> verdict = 1 /\ n' = n /\ os_NameObjection n = X509_V_OK codes \/
                   verdict = 0 /\ OpenSslStream_IsPeerNameMismatch codes (sc_error store) = true /\ os_NameObjection n' <> X509_V_OK codes).
Proof using OK.
  unfold name_answer. destruct (codes_sorted (sc_error store)) as (_ & _ & Hn & _).
  destruct ((verdict =? 0) && OpenSslStream_IsPeerNameMismatch codes (sc_error store)) eqn:E1.
  - apply andb_prop in E1 as [->%Z.eqb_eq Em]. split; [done |]. split; [done |]. split; [cbn; auto |]. right. auto.
  - destruct (Z.eqb_spec verdict 1) as [-> | Hv]; cbn [andb].
    + destruct (Z.eqb_spec (os_NameObjection n) (X509_V_OK codes)); cbn [negb]; do 3 (split; [done |]); [by left | done].
    + by do 3 (split; [done |]).
Qed.
Lemma carry_answer_tells inst n given : let '(n', r) := carry_answer inst n given in
  (os_ChainObjection n = X509_V_OK codes \/ pinned inst = true /\ OpenSslStream_IsChainTrustError codes (os_ChainObjection n) = true ->
   os_ChainObjection n' = X509_V_OK codes \/ pinned inst = true /\ OpenSslStream_IsChainTrustError codes (os_ChainObjection n') = true) /\
  (os_ValidityObjection n = X509_V_OK codes \/ pinned inst = true /\ OpenSslStream_IsValidityError codes (os_ValidityObjection n) = true ->
   os_ValidityObjection n' = X509_V_OK codes \/ pinned inst = true /\ OpenSslStream_IsValidityError codes (os_ValidityObjection n') = true) /\
  keeps_carried inst n n' /\
  (fst r = 1 -> fst given = 1 \/ waived inst (sc_error (snd given)) \/ carried inst n').
Proof using OK.
  destruct given as [preverifyOk store]. unfold carry_answer, keeps_carried, carried, waived, pin_alone. destruct (codes_sorted (sc_error store)) as (Hc & Hv & _ & _).
  destruct (pinned inst) eqn:Ep; cbn [andb]; [| repeat split; auto].
  destruct (OpenSslStream_IsChainTrustError codes (sc_error store)) eqn:E1.
  - destruct (Hc eq_refl) as [Hne _]. cbn. split; [auto |]. split; [auto |]. split; [tauto |]. intros _. destruct (in_TrustAnchorsInstalled inst); tauto.
  - destruct (OpenSslStream_IsValidityError codes (sc_error store)) eqn:E2.
    + destruct (Hv eq_refl) as [Hne _]. cbn. split; [auto |]. split; [auto |]. split; tauto.
    + cbn. tauto.
Qed.
(** A pinned leaf with a verdict of 1 matched, and nothing carried stands; its own
    objection is waived, or a name. *)
Lemma pin_answer_tells inst n matches given : let '(verdict, store) := pin_answer inst n matches given in
  os_ChainObjection n = X509_V_OK codes \/ OpenSslStream_IsChainTrustError codes (os_ChainObjection n) = true ->
  os_ValidityObjection n = X509_V_OK codes \/ OpenSslStream_IsValidityError codes (os_ValidityObjection n) = true ->
  (verdict = 1 -> matches = true /\ (fst given = 1 \/ waived inst (sc_error (snd given))) /\
     (in_TrustAnchorsInstalled inst = true -> os_ChainObjection n = X509_V_OK codes) /\ os_ValidityObjection n = X509_V_OK codes) /\
  (verdict = 0 -> OpenSslStream_IsPeerNameMismatch codes (sc_error store) = true -> matches = true).
Proof using OK.
  destruct given as [preverifyOk store]. unfold pin_answer, waived, pin_alone. destruct (codes_sorted (sc_error store)) as (_ & _ & _ & Ha).
  destruct (codes_sorted (os_ChainObjection n)) as (Hc & _). destruct (codes_sorted (os_ValidityObjection n)) as (_ & Hv & _).
  destruct matches; cbn [negb]; [| cbn; intros _ _; rewrite Ha; split; [lia | done]].
  destruct (in_TrustAnchorsInstalled inst) eqn:Et, (Z.eqb_spec (os_ChainObjection n) (X509_V_OK codes)) as [Ec | Ec]; cbn [negb andb];
    [| cbn; intros [|Hce] _; [done | split; [done |]; by rewrite (proj2 (Hc Hce))] | |].
  all: rewrite ?andb_false_r, ?andb_true_r; cbn [andb].
  all: try destruct (pinned inst && OpenSslStream_IsChainTrustError codes (sc_error store)) eqn:Ew.
  all: destruct (Z.eqb_spec (os_ValidityObjection n) (X509_V_OK codes)) as [Ev | Ev]; cbn [negb]; rewrite ?andb_false_r, ?andb_true_r.
  all: try (destruct (Z.eqb_spec preverifyOk 1) as [Ep | Ep]); cbn [fst snd sc_error set_field Z.eqb Pos.eqb].
  all: intros _ [|Hve]; try done; (split; [intros Hv1 | try done; intros _; cbn; try by rewrite (proj2 (Hv Hve))]); try done.
  all: try (split; [done |]); try (apply andb_prop in Ew as [? ?]); intuition (auto; congruence).
Qed.

Lemma ledger_start inst p : ledger inst (mkOpenSslNotes (X509_V_OK codes) (X509_V_OK codes) (X509_V_OK codes) p) [].
Proof using. constructor; [by left | by left | constructor |]. intros before ck E0. by destruct before. Qed.
Lemma carried_more inst n n' checks : keeps_carried inst n n' ->
  Forall (fun ck => verdict_of ck = 1 -> passed ck \/ waived inst (error_at ck) \/ carried inst n) checks ->
  Forall (fun ck => verdict_of ck = 1 -> passed ck \/ waived inst (error_at ck) \/ carried inst n') checks.
Proof using. intros Hk. apply Forall_impl. intros ck Hck Hv. destruct (Hck Hv) as [|[|]]; auto. Qed.
Lemma ledger_judged inst n checks given r digests n' : ledger inst n checks ->
  judged inst n given (digest_made (sc_current_cert (snd given)) digests) n' r -> ledger inst n' (checks ++ [mkCheck given r digests]).
Proof using OK.
  intros [Hc Hv Ho Hl] Hj. set (ck := mkCheck given r digests).
  assert (Hlast : forall (P : check -> Prop), P ck -> forall before ck', checks ++ [ck] = before ++ [ck'] -> P ck').
  { intros P HP before ck' Es. by apply app_inj_tail in Es as [_ <-]. }
  inversion Hj as [Hd En Er | Hd Hp En Er | v Hd Hp Hm n1 a En Er]; clear Hj.
  - pose proof (carry_answer_tells inst n given) as Ht. destruct (carry_answer inst n given) as [n2 r2]. cbn [fst snd] in *. subst n2 r2.
    destruct Ht as (Hc' & Hv' & Hk & Hob). constructor; [auto | auto | |].
    + apply Forall_app. split; [by eapply carried_more |]. constructor; [exact Hob | constructor].
    + apply (Hlast (leaf_settled inst _)). by intros Hz.
  - destruct given as [preverifyOk store]. pose proof (name_answer_tells n preverifyOk store) as Ht. destruct (name_answer n (preverifyOk, store)) as [n2 [verdict2 store2]]. cbn [fst snd] in *. subst n2 r.
    destruct Ht as (Ec & Ev & Hn & Hob). constructor; [by rewrite Ec | by rewrite Ev | |].
    + apply Forall_app. split; [eapply carried_more; [| exact Ho]; unfold keeps_carried, carried; rewrite Ec, Ev; tauto |]. constructor; [| constructor].
      intros Hv1. unfold carried. destruct (Hob Hv1) as [(-> & _) | (_ & _ & ?)]; [by left | auto].
    + apply (Hlast (leaf_settled inst _)). intros _ _. split; [congruence |]. intros _. rewrite Ec, Ev.
      split; [intros _ |]; [destruct Hc as [|[? ?]] | destruct Hv as [|[? ?]]]; congruence.
  - destruct given as [preverifyOk store]. pose proof (pin_answer_tells inst n1 (bool_decide (v = SOLIDSYSLOG_TLS_AUTHORISATION_MATCHED)) (preverifyOk, store)) as Hp'.
    subst a. destruct (pin_answer inst n1 _ (preverifyOk, store)) as [verdict1 store1]. pose proof (name_answer_tells n1 verdict1 store1) as Ht.
    destruct (name_answer n1 (verdict1, store1)) as [n2 [verdict2 store2]]. cbn [fst snd] in *. subst n2 r.
    change (os_ChainObjection n1) with (os_ChainObjection n) in *. change (os_ValidityObjection n1) with (os_ValidityObjection n) in *. change (os_NameObjection n1) with (os_NameObjection n) in *.
    destruct (Hp' ltac:(tauto) ltac:(tauto)) as [H1 H0]. destruct Ht as (Ec & Ev & Hn & Hob). constructor; [by rewrite Ec | by rewrite Ev | |].
    + apply Forall_app. split; [eapply carried_more; [| exact Ho]; unfold keeps_carried, carried; rewrite Ec, Ev; tauto |]. constructor; [| constructor].
      intros Hv1. unfold carried. destruct (Hob Hv1) as [(Ev1 & _) | (_ & _ & ?)]; [| auto]. destruct (H1 Ev1) as (_ & [? | ?] & _); [by left | auto].
    + apply (Hlast (leaf_settled inst _)). intros _ Hv1. unfold verdict_of, ck in Hv1. cbn [ck_Answer fst] in Hv1. rewrite Ec, Ev. destruct (Hob Hv1) as [(Ev1 & En1 & Hok) | (Ev0 & Hname & Hne)].
      * destruct (H1 Ev1) as (Hmatch & _ & Hcs & Hvs). apply bool_decide_eq_true in Hmatch. split; [intros _; by apply Hm | auto].
      * pose proof (H0 Ev0 Hname) as Hmatch. apply bool_decide_eq_true in Hmatch. split; [intros _; by apply Hm | done].
Qed.

(** ** The callbacks, and Close *)

Lemma openssl_callbacks : callbacks_ok K LP.
Proof using OK fits scratch_bytes area_fits area_bytes.
  constructor.
  - intros given base cfg h ci inst p Hd n lib tr cr up bu rs ws te. eapply tleads_mono; [apply VerifyPeer_leads |].
    intros r self' s' (n' & digests & -> & -> & _). eauto.
  - intros bio buffer size self s Q HQ. cbn [tp_Receive openssl]. unfold OpenSslStream_TransportBioRead, transport_read. tleads_on. apply tleads_any_env. intros [n m].
    tleads_on. destruct s as [lib tr cr up bu rs ws te]. cbn [fst snd]. destruct (0 <? n); [by tleads_on |]. destruct (n =? 0); tleads_on; apply tleads_quiet; intros answer; exists lib; (split; [done |]); by tleads_on.
  - intros bio data size self s Q HQ. cbn [tp_Transmit openssl]. unfold OpenSslStream_TransportBioWrite, transport_send. tleads_on. apply tleads_any_env. intros [].
    + by tleads_on.
    + tleads_on. destruct s as [lib tr cr up bu rs ws te]. apply tleads_quiet. intros answer. exists lib. split; [done |]. by tleads_on.
Qed.

Definition openssl_idle (lib : openssl_held) (Hd : openssl_handles) : Prop :=
  Hd = mkOpenSslHandles 0 0 0 /\ ol_Ctx lib = 0 /\ ol_Ssl lib = 0 /\ ol_Method lib = 0 /\ ol_Bio lib = 0.
(** The handles are what is held; a session stands on a context, and a BIO's method and
    the BIO are there only with the session they are attached to. *)
Definition openssl_linked (lib : openssl_held) (Hd : openssl_handles) : Prop :=
  Hd = mkOpenSslHandles (ol_Ctx lib) (ol_Ssl lib) (ol_Method lib) /\ (ol_Ssl lib <> 0 -> ol_Ctx lib <> 0) /\
  (ol_Ssl lib = 0 -> ol_Method lib = 0 /\ ol_Bio lib = 0) /\ (ol_Bio lib <> 0 -> ol_Attached lib = true).
Definition openssl_live (lib : openssl_held) (Hd : openssl_handles) : Prop := openssl_linked lib Hd /\ ol_Ssl lib <> 0.

Lemma ReleaseBioMethod_leads base cfg h ci inst p n lib tr cr up bu rs ws te c m (Q : unit -> stream -> seen -> Prop) : ol_Method lib = m -> ol_Bio lib = 0 ->
  Q tt (mkTlsStream base cfg h ci inst p (mkOpenSslHandles c (ol_Ssl lib) 0) n) (mkTlsSeen (lib <| ol_Method := 0 |>) tr cr up bu rs ws te) ->
  leads OpenSslStream_ReleaseBioMethod (mkTlsStream base cfg h ci inst p (mkOpenSslHandles c (ol_Ssl lib) m) n) (mkTlsSeen lib tr cr up bu rs ws te) Q.
Proof using.
  intros <- Eb HQ. unfold OpenSslStream_ReleaseBioMethod, set_handles. tleads_on. cbn [os_BioMethod]. destruct (Z.eqb_spec (ol_Method lib) 0) as [Em | Em]; cbn [negb]; tleads_on.
  - rewrite Em. by replace (lib <| ol_Method := 0 |>) with lib in HQ by (rewrite <- Em; by destruct lib).
  - apply tleads_quiet. intros answer. eexists. split; [cbn; by rewrite Eb, !Z.eqb_refl, (proj2 (Z.eqb_neq _ _) Em) |]. by tleads_on.
Qed.
Lemma ReleaseSslContext_leads base cfg h ci inst p n lib tr cr up bu rs ws te c x m (Q : unit -> stream -> seen -> Prop) : ol_Ctx lib = c -> ol_Ssl lib = 0 -> ol_Method lib = 0 -> ol_Bio lib = 0 ->
  (forall lib', ol_Ctx lib' = 0 -> ol_Ssl lib' = 0 -> ol_Method lib' = 0 -> ol_Bio lib' = 0 ->
    Q tt (mkTlsStream base cfg h ci inst p (mkOpenSslHandles 0 x m) n) (mkTlsSeen lib' tr cr up bu rs ws te)) ->
  leads OpenSslStream_ReleaseSslContext (mkTlsStream base cfg h ci inst p (mkOpenSslHandles c x m) n) (mkTlsSeen lib tr cr up bu rs ws te) Q.
Proof using.
  intros <- Es Em Eb HQ. unfold OpenSslStream_ReleaseSslContext, set_handles. tleads_on. cbn [os_Ctx]. destruct (Z.eqb_spec (ol_Ctx lib) 0) as [E0 | E0]; cbn [negb]; tleads_on.
  - rewrite E0. by apply HQ.
  - apply tleads_quiet. intros answer. exists openssl_nothing. split; [cbn; by rewrite Es, !Z.eqb_refl, (proj2 (Z.eqb_neq _ _) E0) |]. tleads_on. by apply HQ.
Qed.
Lemma Close_leads base cfg h ci inst p Hd n lib tr up bu rs ws te : openssl_linked lib Hd ->
  leads (OpenSslStream_Close codes scratch area) (mkTlsStream base cfg h ci inst p Hd n) (mkTlsSeen lib tr ci up bu rs ws te) (fun _ self' s' => is_down openssl_idle base cfg h rs ws self' s' /\ fell_below s' = te_Below te).
Proof using OK fits scratch_bytes area_fits area_bytes.
  intros (-> & Hc & Hs & Hb). unfold OpenSslStream_Close. tleads_on. cbn [os_Ctx os_Ssl os_BioMethod].
  assert (Hrest : forall lib' n' te', te_Below te' = te_Below te -> ol_Ctx lib' = ol_Ctx lib -> ol_Ssl lib' = 0 -> ol_Method lib' = 0 -> ol_Bio lib' = 0 ->
    leads OpenSslStream_ReleaseSslContext (mkTlsStream base cfg h ci inst p (mkOpenSslHandles (ol_Ctx lib) 0 0) n') (mkTlsSeen lib' tr ci up bu rs ws te') (fun _ self' s' =>
      leads (OpenSslStream_ReleaseCredentials ;;; close_transport) self' s' (fun _ self' s' => is_down openssl_idle base cfg h rs ws self' s' /\ fell_below s' = te_Below te))).
  { intros lib' n' te' Hbelow Ec Es Em Eb. apply ReleaseSslContext_leads; [done | done | done | done |]. clear Ec Es Em Eb. intros lib'' Ec Es Em Eb.
    assert (Hidle : lp_IsIdle LP lib'' = true) by (cbn; by rewrite Ec, Es, Em).
    apply tleads_bind, ReleaseCredentials_leads; [done |]. apply close_transport_leads; [done |]. split; [do 7 eexists; by split | exact Hbelow]. }
  destruct (Z.eqb_spec (ol_Ssl lib) 0) as [E0 | E0]; cbn [negb].
  - tleads_on. destruct (Hs E0) as [Em Eb]. rewrite E0, Em. by apply Hrest.
  - tleads_on. eapply (perform_quietly K LP openssl_callbacks _ _ _ _ _ _ _ _ _ _ _ _ _ _ (fun _ => True)); [intros e; apply ends_anyhow | |].
    { cbn. by rewrite Z.eqb_refl, (proj2 (Z.eqb_neq _ _) E0). }
    intros r n' te' _ Hbelow. unfold OpenSslStream_ReleaseHandshakeState, OpenSslStream_ReleaseSsl, set_handles. tleads_on. cbn [os_Ctx os_Ssl os_BioMethod act_wires].
    rewrite (proj2 (Z.eqb_neq _ _) E0). cbn [negb]. tleads_on. apply tleads_quiet. intros answer. eexists. split.
    { cbn. rewrite Z.eqb_refl, (proj2 (Z.eqb_neq _ _) E0). cbn. destruct (Z.eqb_spec (ol_Bio lib) 0); cbn; [reflexivity |]. by rewrite Hb. }
    tleads_on. cbn [os_Ctx os_Ssl os_BioMethod set_field].
    match goal with |- tls_leads _ _ _ (mkTlsSeen ?l _ _ _ _ _ _ _) _ => apply (ReleaseBioMethod_leads _ _ _ _ _ _ _ l); [done | done |] end. tleads_on. by apply Hrest.
Qed.

(** ** The stages of an Open *)

Section opening.
Context (base : stream_vtable) (cfg : tls_wiring SolidSyslogOpenSslProfile E) (h : SolidSyslogStreamOpenHealth) (rs : list SolidSyslogErrorEvent) (ws : list bytes).
Abbreviation stage := (tls_stage (C := openssl_call) (V := openssl_given) (R := openssl_answer) (H := openssl_handles) (N := openssl_notes) (P := SolidSyslogOpenSslProfile) (L := openssl_held)).
Abbreviation rises := (climbs K LP base cfg h rs ws).
Abbreviation attempts := (tries K LP base cfg h rs ws).
Abbreviation climbing := (climbing K base cfg h rs ws).
Abbreviation falling := (falling K base cfg h rs ws).

Definition no_objections : openssl_notes := mkOpenSslNotes (X509_V_OK codes) (X509_V_OK codes) (X509_V_OK codes) SOLIDSYSLOG_TLS_AUTHORISATION_NO_MATCH.
(** A context, and nothing else. *)
Definition bare (lib : openssl_held) (Hd : openssl_handles) : Prop :=
  Hd = mkOpenSslHandles (ol_Ctx lib) 0 0 /\ ol_Ssl lib = 0 /\ ol_Method lib = 0 /\ ol_Bio lib = 0.
Definition at_context (ctx : Z) (flags : openssl_held -> Prop) : stage := fun lib Hd p inst n te =>
  bare lib Hd /\ ol_Ctx lib = ctx /\ ctx <> 0 /\ n = no_objections /\ te = no_evidence /\ flags lib.
Definition guarded (lib : openssl_held) : Prop := ol_Verifies lib = true /\ ol_Floor lib = true /\ ol_Level lib = true /\ ol_Renegotiates lib = false.
(** What may authorise the peer, and what its certificates were found to be. *)
Definition peer_noted inst n te : Prop := TlsStream_PeerIsAuthorisable inst = true /\ te_Installed te = inst /\ ledger inst n (te_Checks te).
Definition at_credentials : stage := fun lib Hd p inst n te => bare lib Hd /\ ol_Ctx lib <> 0 /\ guarded lib /\ peer_noted inst n te.
Definition session_held (lib : openssl_held) (Hd : openssl_handles) : Prop := Hd = mkOpenSslHandles (ol_Ctx lib) (ol_Ssl lib) (ol_Method lib) /\ ol_Ctx lib <> 0 /\ ol_Ssl lib <> 0 /\ ol_AppData lib = true.
Definition at_session : stage := fun lib Hd p inst n te => session_held lib Hd /\ ol_Method lib = 0 /\ ol_Bio lib = 0 /\ peer_noted inst n te.
Definition at_bio : stage := fun lib Hd p inst n te => session_held lib Hd /\ ol_Attached lib = true /\ peer_noted inst n te.
(** The name the profile gives is the one the peer is checked for. *)
Definition named (lib : openssl_held) (p : SolidSyslogOpenSslProfile) : Prop :=
  forall name, op_ServerName p = Some name -> name.[0] <> 0 -> ol_Name lib = Some name.
Definition at_name : stage := fun lib Hd p inst n te => session_held lib Hd /\ ol_Attached lib = true /\ peer_noted inst n te /\ named lib p.
Definition at_certificate : stage := fun lib Hd p inst n te => at_name lib Hd p inst n te /\ ol_Peer lib = true.
Definition at_peer : stage := fun lib Hd p inst n te => at_certificate lib Hd p inst n te /\ os_NameObjection n = X509_V_OK codes.

Lemma bare_linked lib Hd : bare lib Hd -> openssl_linked lib Hd.
Proof using. intros (-> & Es & Em & Eb). unfold openssl_linked. rewrite Es, Em, Eb. done. Qed.
(** A call on the context changes what it is said to. *)
Lemma context_call call (set : openssl_held -> Z -> openssl_held) ctx lib Hd p inst n te flags flags' answer :
  (forall l answer, openssl_step codes l call answer = if (ctx =? ol_Ctx l) && negb (ctx =? 0) then Some (set l answer) else None) ->
  (forall l answer, ol_Ctx (set l answer) = ol_Ctx l /\ ol_Ssl (set l answer) = ol_Ssl l /\ ol_Method (set l answer) = ol_Method l /\ ol_Bio (set l answer) = ol_Bio l) ->
  (flags lib -> flags' (set lib answer)) ->
  at_context ctx flags lib Hd p inst n te -> openssl_step codes lib call answer = Some (set lib answer) /\ at_context ctx flags' (set lib answer) Hd p inst n te.
Proof using.
  intros Hstep Hset Hf ((-> & Es & Em & Eb) & <- & Hne & -> & -> & Hfl). rewrite Hstep, Z.eqb_refl, (proj2 (Z.eqb_neq _ _) Hne). split; [done |].
  destruct (Hset lib answer) as (E1 & E2 & E3 & E4). split; [unfold bare; by rewrite E1, E2, E3, E4 |]. rewrite E1. auto 6.
Qed.
Definition floored (l : openssl_held) : Prop := ol_Verifies l = true /\ ol_Floor l = true.
Lemma ConfigureProtocolFloor_tries ctx : let F l := ol_Verifies l = true in
  attempts (OpenSslStream_ConfigureProtocolFloor codes ctx) false (at_context ctx F) (at_context ctx floored) (at_context ctx (fun _ => True)).
Proof using.
  intros F bu self s (inst & p & Hd & n & lib & warnings & te & -> & -> & Hw & Ht). unfold OpenSslStream_ConfigureProtocolFloor. tleads_on. apply tleads_call. intros minimum.
  destruct (context_call (SSL_CTX_get_min_proto_version ctx) (fun l answer => l <| ol_Floor := TLS1_2_VERSION codes <=? answer |>) ctx lib Hd p inst n te F
    (fun l => F l /\ ol_Floor l = (TLS1_2_VERSION codes <=? minimum)) minimum) as [Hs Ht1]; [done | done | done | exact Ht |].
  eexists. split; [exact Hs |]. destruct (Z.ltb_spec minimum (TLS1_2_VERSION codes)).
  - eapply (call_tries K LP base cfg h rs ws (at_context ctx F) (at_context ctx floored) (at_context ctx (fun _ => True)) false _ (fun rc => rc =? 1)); [| do 7 eexists; split; [done |]; split; [done |]; split; [done |]; by (destruct Ht1 as (? & ? & ? & ? & ? & ? & ?))].
    clear. intros lib Hd p inst n te answer Ht.
    destruct (context_call (SSL_CTX_set_min_proto_version ctx (TLS1_2_VERSION codes)) (fun l answer => l <| ol_Floor := (answer =? 1) && (TLS1_2_VERSION codes <=? TLS1_2_VERSION codes) |>) ctx lib Hd p inst n te F
      (fun l => F l /\ ol_Floor l = (answer =? 1)) answer) as [Hs Ht1]; [done | done | rewrite Z.leb_refl, andb_true_r; done | exact Ht |].
    eexists. split; [exact Hs |]. destruct Ht1 as (Hb & Hc & Hne & Hn & Hte & HF & Hfl). destruct (answer =? 1); by split.
  - tleads_on. do 7 eexists. split; [done |]. split; [done |]. split; [done |]. destruct Ht1 as (Hb & Hc & Hne & Hn & Hte & HF & Hfl). do 6 (split; [done |]). rewrite Hfl. by apply Z.leb_le.
Qed.
Lemma string_call ctx call : let set (l : openssl_held) (_ : Z) := l <| ol_Level := false |> in
  (forall l answer, openssl_step codes l call answer = if (ctx =? ol_Ctx l) && negb (ctx =? 0) then Some (set l answer) else None) ->
  attempts (let! rc := tls_call call in st_ret (rc =? 1)) false (at_context ctx floored) (at_context ctx floored) (at_context ctx floored).
Proof using.
  intros set Hstep. apply (call_tries K LP base cfg h rs ws _ _ _ false call (fun rc => rc =? 1)). intros lib Hd p inst n te answer Ht.
  destruct (context_call call set ctx lib Hd p inst n te floored floored answer) as [Hs Ht1]; [done | done | done | done |].
  eexists. split; [exact Hs |]. by destruct (answer =? 1).
Qed.
Lemma ConfigureCipherPolicy_tries ctx profile : attempts (OpenSslStream_ConfigureCipherPolicy ctx profile) false (at_context ctx floored) (at_context ctx floored) (at_context ctx floored).
Proof using.
  unfold OpenSslStream_ConfigureCipherPolicy. eapply tries_and.
  - unfold OpenSslStream_ConfigureCipherList. destruct (op_CipherList profile); [by apply string_call | by apply tries_ret].
  - unfold OpenSslStream_ConfigureCipherSuites. destruct (op_CipherSuites profile); [by apply string_call | by apply tries_ret].
Qed.
(** The rest of the context's settings. *)
Lemma context_guards_leads {A} ctx (k : op A) bu self s (Q : A -> stream -> seen -> Prop) : climbing false bu (at_context ctx floored) self s ->
  (forall self' s', climbing false bu (at_context ctx guarded) self' s' -> leads k self' s' Q) ->
  leads (OpenSslStream_RaiseSecurityLevel ctx ;;; OpenSslStream_RequireSecureRenegotiation codes ctx ;;; OpenSslStream_RefusePassphrasePrompts ctx ;;; k) self s Q.
Proof using.
  intros (inst & p & Hd & n & lib & warnings & te & -> & -> & Hw & Ht) HQ. apply tleads_bind. unfold OpenSslStream_RaiseSecurityLevel. tleads_on. apply tleads_call. intros level.
  set (F l := floored l /\ ol_Level l = true).
  destruct (context_call (SSL_CTX_get_security_level ctx) (fun l answer => l <| ol_Level := OPENSSL_STREAM_SECURITY_LEVEL_FLOOR <=? answer |>) ctx lib Hd p inst n te floored
    (fun l => floored l /\ ol_Level l = (OPENSSL_STREAM_SECURITY_LEVEL_FLOOR <=? level)) level) as [Hs Ht1]; [done | done | done | exact Ht |].
  eexists. split; [exact Hs |]. clear Hs Ht.
  assert (Hrest : forall self s, climbing false bu (at_context ctx F) self s -> leads (OpenSslStream_RequireSecureRenegotiation codes ctx ;;; OpenSslStream_RefusePassphrasePrompts ctx ;;; k) self s Q).
  { clear -HQ. intros self s Hs. apply tleads_bind. eapply (quiet_climbing K LP base cfg h rs ws (at_context ctx F) (at_context ctx guarded)); [exact Hs | |].
    - clear. intros lib Hd p inst n te answer Ht. eexists. set (unsafe := Z.lor (SSL_OP_LEGACY_SERVER_CONNECT codes) (SSL_OP_ALLOW_UNSAFE_LEGACY_RENEGOTIATION codes)).
      apply (context_call (SSL_CTX_clear_options ctx unsafe) (fun l _ => l <| ol_Renegotiates := negb (unsafe =? unsafe) |>) ctx lib Hd p inst n te F guarded answer); [done | done | | exact Ht].
      intros [[? ?] ?]. unfold guarded. cbn. by rewrite Z.eqb_refl.
    - clear -HQ. intros self s Hs. apply tleads_bind. eapply (quiet_climbing K LP base cfg h rs ws (at_context ctx guarded) (at_context ctx guarded)); [exact Hs | | exact HQ].
      intros lib Hd p inst n te answer Ht. eexists. by apply (context_call (SSL_CTX_set_default_passwd_cb ctx) (fun l _ => l) ctx lib Hd p inst n te guarded guarded answer). }
  destruct (Z.ltb_spec level OPENSSL_STREAM_SECURITY_LEVEL_FLOOR).
  - eapply (quiet_climbing K LP base cfg h rs ws (at_context ctx floored) (at_context ctx F)); [do 7 eexists; split; [done |]; split; [done |]; split; [done |]; by (destruct Ht1 as (? & ? & ? & ? & ? & ? & ?)) | | exact Hrest].
    clear. intros lib Hd p inst n te answer Ht. eexists.
    by apply (context_call (SSL_CTX_set_security_level ctx OPENSSL_STREAM_SECURITY_LEVEL_FLOOR)
      (fun l _ => l <| ol_Level := OPENSSL_STREAM_SECURITY_LEVEL_FLOOR <=? OPENSSL_STREAM_SECURITY_LEVEL_FLOOR |>) ctx lib Hd p inst n te floored F answer).
  - apply tleads_ret, Hrest. do 7 eexists. split; [done |]. split; [done |]. split; [done |]. destruct Ht1 as (Hb & Hc & Hne & Hn & Hte & HF & Hfl). do 6 (split; [done |]). rewrite Hfl. by apply Z.leb_le.
Qed.
Definition at_nothing : stage := fun lib Hd p inst n te => openssl_idle lib Hd /\ n = no_objections /\ te = no_evidence.
Lemma falling_weaken (L1 L2 : openssl_held -> openssl_handles -> Prop) self s : (forall lib Hd, L1 lib Hd -> L2 lib Hd) -> falling L1 self s -> falling L2 self s.
Proof using. intros Hl (cr & h1 & inst & p & Hd & n & lib & tr & bu & faults & te & -> & -> & Hf & Hk). do 11 eexists. eauto. Qed.
Lemma release_context_falling self s (Q : unit -> stream -> seen -> Prop) : falling bare self s ->
  (forall self' s', falling openssl_linked self' s' -> Q tt self' s') -> leads OpenSslStream_ReleaseSslContext self s Q.
Proof using.
  intros (cr & h1 & inst & p & Hd & n & lib & tr & bu & faults & te & -> & -> & Hf & (-> & Es & Em & Eb)) HQ. apply ReleaseSslContext_leads; [done | done | done | done |].
  clear Es Em Eb. intros lib' Ec Es Em Eb. apply HQ. do 11 eexists. split; [done |]. split; [done |]. split; [done |]. unfold openssl_linked. by rewrite Ec, Es, Em, Eb.
Qed.
Lemma InitSslContext_climbs : rises openssl_linked (OpenSslStream_InitSslContext codes scratch area) false at_nothing false (fun lib Hd p inst n te => exists ctx, at_context ctx guarded lib Hd p inst n te).
Proof using.
  intros bu self s (inst & p & Hd & n & lib & warnings & te & -> & -> & Hw & ((-> & Ec & Es & Em & Eb) & -> & ->)). unfold OpenSslStream_InitSslContext.
  apply tleads_bind, tleads_call. intros ctx. eexists. split; [cbn; rewrite Ec; reflexivity |]. unfold set_handles. apply tleads_bind, tleads_set, tleads_bind, tleads_get. cbn [tl_Profile tl_Handles set_field].
  set (s0 := mkTlsSeen _ _ _ _ _ _ _ _). set (self0 := set_field _ _).
  set (Q := fun (b : bool) self' s' => if b then climbing false bu (fun lib Hd p inst n te => exists ctx, at_context ctx guarded lib Hd p inst n te) self' s' else falling openssl_linked self' s').
  (* What follows a step that failed. *)
  assert (Hdown : forall self s, falling bare self s -> leads (if! negb false then OpenSslStream_ReleaseSslContext end! ;;; st_ret false) self s Q).
  { intros self s Hs. apply tleads_bind, (release_context_falling _ _ _ Hs). intros self' s' Hs'. by tleads_on. }
  assert (Hreport : forall T cr category code self s, linked bare T -> sk_FailedCategory (tls_kind SolidSyslogOpenSslStreamErrorSource) category = true -> climbing cr bu T self s ->
    leads (or_report K false category code) self s (fun b self' s' => leads (if! negb b then OpenSslStream_ReleaseSslContext end! ;;; st_ret b) self' s' Q)).
  { intros T cr category code self s Hl Hc Hs. eapply or_report_leads; [exact Hl | exact Hc | exact Hs | done |]. intros self' s' _. apply Hdown. }
  apply tleads_bind, tleads_and, tleads_ret. destruct (Z.eqb_spec ctx 0) as [-> | Hne]; cbn [negb].
  { apply tleads_bind. apply (Hreport at_nothing false); [by intros ? ? ? ? ? ? [(-> & E1 & E2 & E3 & E4) _]; unfold bare; rewrite E1, E2, E3, E4 | done |].
    do 7 eexists. split; [done |]. split; [done |]. by split. }
  set (C0 := at_context ctx). assert (Hbare : forall F, linked bare (C0 F)) by (by intros F lib' Hd' p' inst' n' te' [Hb _]).
  assert (Hs : climbing false bu (C0 (fun _ => True)) self0 s0) by (do 7 eexists; split; [done |]; split; [done |]; by split). clearbody self0 s0.
  apply tleads_and. unfold OpenSslStream_RequirePeerVerification. apply tleads_bind. eapply (quiet_climbing K LP base cfg h rs ws (C0 (fun _ => True)) (C0 (fun l => ol_Verifies l = true))); [exact Hs | |].
  { clear. intros lib Hd p inst n te answer Ht. eexists.
    apply (context_call (SSL_CTX_set_verify ctx (SSL_VERIFY_PEER codes)) (fun l _ => l <| ol_Verifies := SSL_VERIFY_PEER codes =? SSL_VERIFY_PEER codes |>) ctx lib Hd p inst n te (fun _ => True) _ answer); [done | done | | exact Ht].
    intros _. apply Z.eqb_refl. }
  clear s0 self0 Hs. intros self s Hs. apply tleads_ret. eapply tleads_mono; [by apply ConfigureProtocolFloor_tries |]. clear self s Hs. intros ok self s Hs. apply tleads_bind.
  destruct ok; cbn [negb]; [| by apply (Hreport (C0 (fun _ => True)) false)].
  apply tleads_bind. eapply tleads_mono; [by apply ConfigureCipherPolicy_tries |]. clear self s Hs. intros ok self s Hs.
  destruct ok; cbn [negb]; [| by apply (Hreport (C0 floored) false)].
  apply (context_guards_leads _ _ _ _ _ _ Hs). clear self s Hs. intros self s Hs. apply tleads_ret. cbn [negb]. tleads_on. eapply climbing_weaken; [| exact Hs]. eauto.
Qed.
Abbreviation context_ready := (fun lib Hd p inst n te => exists ctx, at_context ctx guarded lib Hd p inst n te).
Lemma InstallCredentials_rises : rises openssl_linked (OpenSslStream_InstallCredentials codes scratch area) false context_ready true at_credentials.
Proof using.
  intros bu self s (inst & p & Hd & n & lib & warnings & te & -> & -> & Hw & (ctx & Ht)). unfold OpenSslStream_InstallCredentials. tleads_on.
  assert (os_Ctx Hd = ctx) as -> by (destruct Ht as [(-> & _) (<- & _)]; done).
  eapply tleads_mono; [apply (InstallCredentials_climbs K LP base cfg h rs ws openssl_linked (at_context ctx guarded) ctx) |].
  - intros lib' Hd' p' inst' n' te' [Hb _]. by apply bare_linked.
  - intros lib' Hd' p' inst' n' te' (_ & <- & Hne & _). cbn. by rewrite Z.eqb_refl, (proj2 (Z.eqb_neq _ _) Hne).
  - do 7 eexists. split; [done |]. split; [done |]. by split.
  - intros [] self' s'; [| done]. apply climbing_weaken.
    intros lib' Hd' p' inst' n' te' (Ha & inst0 & te0 & (Hb & <- & Hne & -> & -> & Hg) & ->). split; [done |]. split; [done |]. split; [done |]. split; [done |]. split; [done | apply ledger_start].
Qed.

Definition session_made (ssl : Z) : stage := fun lib Hd p inst n te =>
  Hd = mkOpenSslHandles (ol_Ctx lib) (ol_Ssl lib) (ol_Method lib) /\ ol_Ctx lib <> 0 /\ ol_Ssl lib = ssl /\ ssl <> 0 /\ ol_Method lib = 0 /\ ol_Bio lib = 0 /\ peer_noted inst n te.
Abbreviation as_linked := (fun lib Hd _ _ _ _ => openssl_linked lib Hd).
Lemma made_linked ssl lib Hd p inst n te : session_made ssl lib Hd p inst n te -> openssl_linked lib Hd.
Proof using. intros (-> & Hc & <- & Hs & Em & Eb & _). split; [done |]. by rewrite Em, Eb. Qed.
Lemma InitSslSession_rises : rises openssl_linked (OpenSslStream_InitSslSession codes scratch area) true at_credentials true at_session.
Proof using.
  intros bu self s (inst & p & Hd & n & lib & warnings & te & -> & -> & Hw & ((-> & Es & Em & Eb) & Hc & (G1 & G2 & G3 & G4) & Hp)).
  unfold OpenSslStream_InitSslSession, set_handles. apply tleads_bind, tleads_get. cbn [tl_Handles os_Ctx]. apply tleads_bind, tleads_call. intros ssl. eexists.
  split; [cbn; rewrite Es, Em, G1, G2, G3, G4; cbn; rewrite Z.eqb_refl, (proj2 (Z.eqb_neq _ _) Hc); reflexivity |].
  apply tleads_bind, tleads_set. cbn [set_field tl_Handles]. apply tleads_bind, tleads_and, tleads_ret. destruct (Z.eqb_spec ssl 0) as [-> | Hne]; cbn [negb].
  { apply tleads_bind, tleads_ret. apply (reported_leads K LP base cfg h rs ws openssl_linked at_session as_linked true bu false); [by intros ? | done |].
    do 7 eexists. split; [done |]. split; [done |]. split; [done |]. unfold openssl_linked. cbn. by rewrite Em, Eb. }
  eapply tleads_mono.
  - apply (call_tries K LP base cfg h rs ws (session_made ssl) (fun lib Hd p inst n te => session_made ssl lib Hd p inst n te /\ ol_AppData lib = true) (session_made ssl) true _ (fun rc => rc =? 1)).
    + clear. intros lib Hd p inst n te answer (-> & Hc & <- & Hs & Em & Eb & Hp). eexists.
      split; [cbn; rewrite Z.eqb_refl, (proj2 (Z.eqb_neq _ _) Hs); reflexivity |].
      destruct (answer =? 1); unfold at_session, session_held, session_made; split_and!; done.
    + do 7 eexists. split; [done |]. split; [done |]. split; [done |]. split; [cbn; by rewrite Em |]. unfold at_session, session_held, session_made; split_and!; done.
  - clear. intros ok self s Hs. apply tleads_bind. destruct ok.
    + unfold OpenSslStream_ApplySessionPolicy. set (T := fun lib Hd p inst n te => session_made ssl lib Hd p inst n te /\ ol_AppData lib = true) in *.
      assert (Hon : forall call lib Hd p inst n te (answer : Z), (forall l answer, openssl_step codes l call answer = if (ssl =? ol_Ssl l) && negb (ssl =? 0) then Some l else None) ->
        T lib Hd p inst n te -> exists lib', openssl_step codes lib call answer = Some lib' /\ T lib' Hd p inst n te).
      { intros call lib Hd p inst n te answer Hstep Ht. exists lib. rewrite Hstep. split; [| done]. destruct Ht as [(_ & _ & -> & Hne & _) _]. by rewrite Z.eqb_refl, (proj2 (Z.eqb_neq _ _) Hne). }
      apply tleads_bind. eapply (quiet_climbing K LP base cfg h rs ws T T); [exact Hs | intros; by apply Hon |]. clear self s Hs. intros self s Hs.
      eapply (quiet_climbing K LP base cfg h rs ws T T); [exact Hs | intros; by apply Hon |]. clear self s Hs. intros self s Hs.
      apply (reported_leads K LP base cfg h rs ws openssl_linked at_session as_linked true bu true); [by intros ? | done |]. eapply climbing_weaken; [| exact Hs].
      clear. intros lib Hd p inst n te [(-> & Hc & <- & Hs & Em & Eb & Hp) Ha]. unfold at_session, session_held, session_made; split_and!; done.
    + apply tleads_ret, (reported_leads K LP base cfg h rs ws openssl_linked at_session as_linked true bu false); [by intros ? | done |]. eapply climbing_weaken; [| exact Hs].
      clear. intros lib Hd p inst n te. apply made_linked.
Qed.

Definition bio_made (bio : Z) : stage := fun lib Hd p inst n te => session_held lib Hd /\ ol_Bio lib = bio /\ bio <> 0 /\ peer_noted inst n te.
(** Calls on the method change nothing that is held. *)
Lemma method_quiet m call self lib tr cr up bu reports wires te (Q : unit -> stream -> seen -> Prop) : ol_Method lib = m -> m <> 0 ->
  (forall l answer, openssl_step codes l call answer = if (m =? ol_Method l) && negb (m =? 0) then Some l else None) ->
  Q tt self (mkTlsSeen lib tr cr up bu reports wires te) -> leads (tls_quiet call) self (mkTlsSeen lib tr cr up bu reports wires te) Q.
Proof using. intros <- Hm Hstep HQ. apply tleads_quiet. intros answer. exists lib. cbn. by rewrite Hstep, Z.eqb_refl, (proj2 (Z.eqb_neq _ _) Hm). Qed.
Lemma CreateTransportBio_leads bu self s : climbing true bu at_session self s ->
  leads OpenSslStream_CreateTransportBio self s (fun bio self' s' => climbing true bu (if bio =? 0 then at_session else bio_made bio) self' s').
Proof using.
  intros (inst & p & Hd & n & lib & warnings & te & -> & -> & Hw & ((-> & Hc & Hs & Ha) & Em & Eb & Hp)).
  unfold OpenSslStream_CreateTransportBio, OpenSslStream_CreateTransportBioMethod, set_handles. apply tleads_bind, tleads_bind, tleads_call. intros m. eexists.
  split; [cbn; rewrite Em; reflexivity |]. destruct (Z.eqb_spec m 0) as [-> | Hm]; cbn [negb]; tleads_on.
  { cbn [negb Z.eqb]. tleads_on. cbn [Z.eqb]. do 7 eexists. split; [done |]. split; [done |]. split; [done |]. unfold at_session, session_held. split_and!; done. }
  do 4 (apply (method_quiet m); [done | done | done |]; tleads_on). rewrite (proj2 (Z.eqb_neq _ _) Hm). cbn [negb]. unfold new_bio. tleads_on.
  apply tleads_call. intros bio. eexists. split; [cbn; rewrite Eb; cbn; rewrite Z.eqb_refl, (proj2 (Z.eqb_neq _ _) Hm); reflexivity |].
  destruct (Z.eqb_spec bio 0) as [-> | Hbio]; cbn [negb].
  - tleads_on. cbn [Z.eqb]. tleads_on. match goal with |- tls_leads _ _ _ (mkTlsSeen ?l _ _ _ _ _ _ _) _ => apply (ReleaseBioMethod_leads _ _ _ _ _ _ _ l); [done | done |] end.
    tleads_on. do 7 eexists. split; [done |]. split; [done |]. split; [done |]. unfold at_session, session_held. split_and!; done.
  - unfold OpenSslStream_TransportBioCreate. tleads_on. apply tleads_quiet. intros answer. eexists. split; [cbn; rewrite Z.eqb_refl, (proj2 (Z.eqb_neq _ _) Hbio); reflexivity |].
    tleads_on. rewrite (proj2 (Z.eqb_neq _ _) Hbio). tleads_on. do 7 eexists. split; [done |]. split; [done |]. split; [done |].
    rewrite (proj2 (Z.eqb_neq _ _) Hbio). unfold bio_made, session_held. split_and!; done.
Qed.
Lemma AttachTransportBio_rises : rises openssl_linked (OpenSslStream_AttachTransportBio codes scratch area) true at_session true at_bio.
Proof using.
  intros bu self s Hs. unfold OpenSslStream_AttachTransportBio. apply tleads_bind. eapply tleads_mono; [by apply CreateTransportBio_leads |].
  clear self s Hs. intros bio self s. cbv beta. destruct (Z.eqb_spec bio 0) as [-> | Hbio]; intros Hs.
  - tleads_on. cbn [negb Z.eqb]. tleads_on. apply (reported_leads K LP base cfg h rs ws openssl_linked at_bio at_session true bu false); [| done | done].
    intros lib Hd p inst n te ((-> & Hc & Hs0 & Ha) & Em & Eb & Hp). unfold openssl_linked. rewrite Em, Eb. by split_and!.
  - destruct Hs as (inst & p & Hd & n & lib & warnings & te & -> & -> & Hw & ((-> & Hc & Hs & Ha) & <- & Hb & Hp)). tleads_on.
    cbn [negb os_Ssl]. tleads_on. apply tleads_quiet. intros answer. exists lib. split; [cbn; by rewrite Z.eqb_refl, (proj2 (Z.eqb_neq _ _) Hb) |].
    tleads_on. apply tleads_quiet. intros answer'. eexists. split; [cbn; rewrite !Z.eqb_refl, (proj2 (Z.eqb_neq _ _) Hb), (proj2 (Z.eqb_neq _ _) Hs); reflexivity |].
    apply (reported_leads K LP base cfg h rs ws openssl_linked at_bio as_linked true bu true); [by intros ? | done |].
    do 7 eexists. split; [done |]. split; [done |]. split; [done |]. unfold at_bio, session_held. split_and!; done.
Qed.

Lemma session_quiet_call ssl call lib Hd p inst n te (T : stage) answer : (forall l answer, openssl_step codes l call answer = if (ssl =? ol_Ssl l) && negb (ssl =? 0) then Some l else None) ->
  session_held lib Hd -> ol_Ssl lib = ssl -> T lib Hd p inst n te -> exists lib', openssl_step codes lib call answer = Some lib' /\ T lib' Hd p inst n te.
Proof using. intros Hstep (_ & _ & Hne & _) <- Ht. exists lib. by rewrite Hstep, Z.eqb_refl, (proj2 (Z.eqb_neq _ _) Hne). Qed.
Lemma bio_linked lib Hd p inst n te : at_bio lib Hd p inst n te -> openssl_linked lib Hd.
Proof using. intros ((-> & Hc & Hs & _) & Ha & _). unfold openssl_linked. split_and!; done. Qed.
Lemma ConfigureExpectedHostname_rises : rises openssl_linked (OpenSslStream_ConfigureExpectedHostname codes scratch area) true at_bio true at_name.
Proof using.
  intros bu self s Hs. pose proof Hs as (inst & p & Hd & n & lib & warnings & te & -> & -> & Hw & Ht). pose proof Ht as (Hh & Ha & Hp).
  unfold OpenSslStream_ConfigureExpectedHostname. tleads_on. destruct (op_ServerName p) as [name |] eqn:Ename.
  2: { assert (Hn : at_name lib Hd p inst n te) by (unfold at_name, named; split_and!; [done | done | done | congruence]).
       destruct (in_FingerprintCount inst =? 0); tleads_on; [| by do 7 eexists].
       apply TlsReport_leads. tleads_on. rewrite <- app_assoc. do 7 eexists. split; [done |]. split; [done |]. split; [| done]. by apply (warned_again K). }
  destruct (OpenSslStream_NameBeginsWithADot name).
  { apply (reported_leads K LP base cfg h rs ws openssl_linked at_name at_bio true bu false); [exact bio_linked | done | exact Hs]. }
  destruct (Z.eqb_spec (name.[0]) 0) as [E0 | E0]; cbn [negb].
  { tleads_on. do 7 eexists. split; [done |]. split; [done |]. split; [done |]. unfold at_name, named. split_and!; [done | done | done | congruence]. }
  set (ssl := os_Ssl Hd). set (T := fun lib Hd p inst n te => at_bio lib Hd p inst n te /\ ol_Ssl lib = ssl /\ op_ServerName p = Some name).
  set (T' := fun lib Hd p inst n te => at_name lib Hd p inst n te). apply (climbs_reported K LP base cfg h rs ws openssl_linked _ true T T' T); [| | done |].
  - apply (tries_and K LP base cfg h rs ws _ _ true T T); (apply call_tries; intros lib1 Hd1 p1 inst1 n1 te1 answer ([Hh1 [Ha1 Hp1]] & Es & En)).
    + destruct (session_quiet_call ssl (SSL_set_tlsext_host_name ssl name) lib1 Hd1 p1 inst1 n1 te1 T answer) as (lib' & Hs1 & Ht'); [done | done | done | done |]. exists lib'. split; [done |]. by destruct (answer =? 1).
    + destruct Hh1 as (-> & Hc & Hne & Hd0). subst T T'. cbv beta. eexists. split; [cbn; rewrite Es, Z.eqb_refl, <- Es, (proj2 (Z.eqb_neq _ _) Hne); reflexivity |].
      destruct (answer =? 1); unfold at_name, at_bio, session_held, named; cbn; split_and!; try done. intros name' Hn _. congruence.
  - intros lib' Hd' p' inst' n' te' [Hb _]. by eapply bio_linked.
  - do 7 eexists. split; [done |]. split; [done |]. split; [done |]. split; [done |]. split; [by destruct Hh as (-> & _) | done].
Qed.

Lemma name_linked lib Hd p inst n te : at_name lib Hd p inst n te -> openssl_linked lib Hd.
Proof using. intros (Hh & Ha & Hp & _). apply (bio_linked lib Hd p inst n te). by split_and!. Qed.
(** A quiet call on a session that is held. *)
Lemma session_call_leads T call bu self s ssl (Q : Z -> stream -> seen -> Prop) : climbing true bu T self s ->
  (forall lib Hd p inst n te, T lib Hd p inst n te -> session_held lib Hd) -> os_Ssl (tl_Handles self) = ssl ->
  (forall l answer, openssl_step codes l call answer = if (ssl =? ol_Ssl l) && negb (ssl =? 0) then Some l else None) ->
  (forall answer, Q answer self s) -> leads (tls_call call) self s Q.
Proof using.
  intros (inst & p & Hd & n & lib & warnings & te & -> & -> & Hw & Ht) Hh <- Hstep HQ. apply tleads_call. intros answer. exists lib. split; [| done].
  destruct (Hh _ _ _ _ _ _ Ht) as (-> & _ & Hne & _). change (openssl_step codes lib call answer = Some lib). rewrite Hstep. cbn. by rewrite Z.eqb_refl, (proj2 (Z.eqb_neq _ _) Hne).
Qed.
Lemma handshake_judging h' inst p Hd lib tr cr up bu rs' ws' : judging_keeps K LP base cfg h' cr inst p Hd lib tr cr up bu rs' ws'
  (fun n te => te_Installed te = inst /\ ledger inst n (te_Checks te)).
Proof using OK fits scratch_bytes area_fits area_bytes.
  intros check n te [Hi Hl]. eapply tleads_mono; [apply VerifyPeer_leads |]. intros r self' s' (n' & digests & -> & -> & Hj). exists n', digests. split; [done |]. split; [done |].
  split; [done |]. cbn [te_Checks]. by eapply ledger_judged.
Qed.
Lemma Turn_leads bu self s : climbing true bu at_name self s -> leads (OpenSslStream_Turn codes scratch area) self s (fun turn self' s' =>
  match turn with HandshakeOver true => climbing true bu at_name self' s' | HandshakeOver false => falling openssl_linked self' s' | _ => climbing true bu at_name self' s' end).
Proof using OK fits scratch_bytes area_fits area_bytes.
  intros (inst & p & Hd & n & lib & warnings & te & -> & -> & Hw & ((-> & Hc & Hs & Ha) & Hat & (Hpa & Hpi & Hpl) & Hn)). unfold OpenSslStream_Turn, session. tleads_on.
  eapply tleads_mono; [apply (perform_leads K LP openssl_callbacks) with (J := fun n te => te_Installed te = inst /\ ledger inst n (te_Checks te)) (F := fun _ => True) |].
  - apply handshake_judging.
  - done.
  - intros e. apply ends_anyhow.
  - cbn. rewrite Z.eqb_refl, (proj2 (Z.eqb_neq _ _) Hs), Ha, Hat. done.
  - intros r self' s' (n' & te' & -> & -> & Hbelow & [Hi Hl] & _).
    match goal with |- leads _ ?self' ?s' _ => assert (Hs' : climbing true bu at_name self' s') end.
    { do 7 eexists. split; [done |]. split; [done |]. split; [by rewrite Hbelow |]. unfold at_name, session_held, peer_noted. split_and!; done. }
    assert (Hh : forall lib Hd p inst n te, at_name lib Hd p inst n te -> session_held lib Hd) by (by intros ? ? ? ? ? ? [? _]).
    tleads_on. destruct (0 <? fst r); tleads_on; [done |]. apply (session_call_leads at_name _ bu _ _ _ _ Hs' Hh eq_refl); [done |]. intros err. tleads_on.
    destruct (negb _); [| by tleads_on]. unfold OpenSslStream_RefusalDetail. tleads_on. apply (session_call_leads at_name _ bu _ _ _ _ Hs' Hh eq_refl); [done |]. intros verdict. by tleads_on.
Qed.
Lemma PerformHandshake_ends bu self s : climbing true bu at_name self s ->
  leads (OpenSslStream_PerformHandshake codes scratch area) self s (fun b self' s' => if b : bool then exists bu', climbing true bu' at_name self' s' else falling openssl_linked self' s').
Proof using OK fits scratch_bytes area_fits area_bytes.
  apply (PerformHandshake_leads K LP base cfg h rs ws openssl_linked at_name at_name); [exact name_linked |]. intros. by apply Turn_leads.
Qed.
Lemma peer_checked_leads bu self s : climbing true bu at_name self s ->
  leads (OpenSslStream_PeerPresentedACertificate codes scratch area &&! OpenSslStream_NoNameObjectionIsOutstanding codes scratch area) self s
    (fun b self' s' => if b : bool then climbing true bu at_peer self' s' else falling openssl_linked self' s').
Proof using.
  intros (inst & p & Hd & n & lib & warnings & te & -> & -> & Hw & Ht). pose proof Ht as ((-> & Hc & Hne & Ha) & Hat & Hpn & Hnm).
  apply tleads_and. unfold OpenSslStream_PeerPresentedACertificate, session. tleads_on. apply tleads_call. intros certificate.
  eexists. split; [cbn; rewrite Z.eqb_refl, (proj2 (Z.eqb_neq _ _) Hne); reflexivity |].
  eapply tleads_mono; [apply (reported_leads K LP base cfg h rs ws openssl_linked at_certificate at_name true bu (negb (certificate =? 0))); [exact name_linked | done |] |].
  { destruct (negb (certificate =? 0)) eqn:Ec; do 7 eexists; (split; [done |]); (split; [done |]); (split; [exact Hw |]); [split; [| done] |]; by split_and!. }
  intros [] self s Hs; [| done]. unfold OpenSslStream_NoNameObjectionIsOutstanding. tleads_on.
  apply (reported_leads K LP base cfg h rs ws openssl_linked at_peer at_certificate true bu); [by intros ? ? ? ? ? ? [?%name_linked _] | done |].
  clear -Hs. destruct Hs as (inst & p & Hd & n & lib & warnings & te & -> & -> & Hw & Ht). cbn [tl_Notes].
  destruct (Z.eqb_spec (os_NameObjection n) (X509_V_OK codes)); do 7 eexists; (split; [done |]); (split; [done |]); (split; [exact Hw |]); [by split | done].
Qed.
(** An Open up to the session, on which the peer is what the stage says; or down again. *)
Lemma Establish_leads addr self s : is_down openssl_idle base cfg h rs ws self s ->
  leads (OpenSslStream_Establish codes scratch area addr) self s (fun b self' s' => if b : bool
    then exists bu, climbing true bu at_peer self' s'
    else exists faults h1, failed K (fell_below s') h faults h1 /\ is_down openssl_idle base cfg h1 (rs ++ faults) ws self' s').
Proof using OK fits scratch_bytes area_fits area_bytes.
  intros (inst & p & Hd & n & lib & bu & te & -> & -> & Hi). unfold OpenSslStream_Establish, OpenSslStream_PullProfile, TlsStream_PullProfile, set_notes.
  tleads_on. apply tleads_any_env. intros profile. tleads_on.
  set (Q := fun (b : bool) self' s' => if b then exists bu, climbing true bu at_peer self' s'
    else exists faults h1, failed K (fell_below s') h faults h1 /\ is_down openssl_idle base cfg h1 (rs ++ faults) ws self' s').
  assert (Hfall : forall self s, falling openssl_linked self s -> leads (if! negb false then OpenSslStream_Close codes scratch area end! ;;; st_ret false) self s Q).
  { intros self s (cr & h1 & inst1 & p1 & Hd1 & n1 & lib1 & tr & bu1 & faults & te1 & -> & -> & Hf & Hl). cbn [negb]. apply tleads_bind. eapply tleads_mono; [by apply Close_leads |].
    intros [] self' s' [Hd' Hbelow]. apply tleads_ret. exists faults, h1. by rewrite Hbelow. }
  destruct Hi as (-> & Ec & Es & Em & Eb). pose proof (conj Ec (conj Es (conj Em Eb))) as Hheld.
  eapply tleads_mono; [apply (open_transport_leads K LP base cfg h rs ws openssl_linked); [cbn; by rewrite Ec, Es, Em | unfold openssl_linked; by rewrite Ec, Es, Em, Eb] |].
  intros [] self s Hs; [| by apply Hfall]. apply tleads_and. eapply tleads_mono; [apply (InitSslContext_climbs bu) |].
  { eapply climbing_weaken; [| exact Hs]. intros lib' Hd' p' inst' n' te' (-> & -> & _ & _ & -> & ->). by repeat split. }
  clear self s Hs. intros [] self s Hs; [| by apply Hfall]. apply tleads_and. eapply tleads_mono; [eapply InstallCredentials_rises; exact Hs |].
  clear self s Hs. intros [] self s Hs; [| by apply Hfall]. apply tleads_and. eapply tleads_mono; [eapply InitSslSession_rises; exact Hs |].
  clear self s Hs. intros [] self s Hs; [| by apply Hfall]. apply tleads_and. eapply tleads_mono; [eapply AttachTransportBio_rises; exact Hs |].
  clear self s Hs. intros [] self s Hs; [| by apply Hfall]. apply tleads_and. eapply tleads_mono; [eapply ConfigureExpectedHostname_rises; exact Hs |].
  clear self s Hs. intros [] self s Hs; [| by apply Hfall]. apply tleads_and. eapply tleads_mono; [eapply PerformHandshake_ends; exact Hs |].
  clear self s Hs. intros [] self s Hs; [| by apply Hfall]. destruct Hs as [bu' Hs]. eapply tleads_mono; [eapply peer_checked_leads; exact Hs |].
  clear self s Hs. intros [] self s Hs; [| by apply Hfall]. cbn [negb]. tleads_on. by exists bu'.
Qed.
End opening.

(** ** The pack *)

Lemma openssl_pack_ok : pack_ok K LP OpenSslStream_IsOpen (OpenSslStream_Establish codes scratch area) (OpenSslStream_NothingYet codes scratch area)
  (OpenSslStream_Close codes scratch area) openssl_idle openssl_live openssl_linked.
Proof using OK fits scratch_bytes area_fits area_bytes.
  constructor.
  - apply openssl_callbacks.
  - intros lib Hd (-> & Ec & Es & Em & Eb). cbn. unfold openssl_linked. rewrite Ec, Es, Em, Eb. by split_and!.
  - intros lib Hd [Hl Hs]. pose proof Hl as (-> & Hc & _). cbn. rewrite Z.eqb_refl, (proj2 (Z.eqb_neq _ _) Hs), (proj2 (Z.eqb_neq _ _) (Hc Hs)). by split_and!.
  - intros base cfg h inst p Hd n lib [(-> & Hc & _) Hs]. unfold OpenSslStream_IsOpen. cbn. by rewrite (proj2 (Z.eqb_neq _ _) (Hc Hs)).
  - intros base cfg h inst p Hd n lib (-> & _). done.
  - apply to_int_fits.
  - intros. by apply (os_read_answers codes OK).
  - intros rc base cfg h inst p Hd n lib bu rs ws te Q [(-> & Hc & _) Hs] HQ. unfold OpenSslStream_NothingYet, session. tleads_on. apply tleads_call. intros err. exists lib.
    split; [cbn; by rewrite Z.eqb_refl, (proj2 (Z.eqb_neq _ _) Hs) |]. tleads_on. apply HQ.
  - intros. by apply Close_leads.
  - intros addr base cfg h rs ws self s Hs. eapply tleads_mono; [by apply Establish_leads |]. intros [] self' s'; [| done]. intros [bu Hc]. exists bu.
    eapply climbing_weaken; [| exact Hc]. intros lib Hd p inst n te ((Hn & _) & _). split; [by eapply name_linked | by destruct Hn as [(_ & _ & ? & _) _]].
Qed.
Lemma openssl_initialises : initialises (V := openssl_given) (R := openssl_answer) (N := openssl_notes) (P := SolidSyslogOpenSslProfile) (E := E) LP openssl_idle SolidSyslogOpenSslStream_Initialise.
Proof using.
  intros config slot. unfold SolidSyslogOpenSslStream_Initialise, TlsStream_Initialise, set_handles. destruct slot as [base cfg h ci inst p Hd n]. tleads_on.
  do 7 eexists. split; [reflexivity |]. by split_and!.
Qed.

(** What the handshake's walk over the peer's chain must have been: every certificate
    given a verdict of 1, the leaf last. *)
Definition chain_walked (checks : list check) : Prop := Forall (fun ck => verdict_of ck = 1) checks /\ exists before leaf, checks = before ++ [leaf] /\ depth_at leaf = 0.
Record vouched inst (checks : list check) : Prop := {
  vo_Chain : Forall (fun ck => passed ck \/ waived inst (error_at ck)) checks;
  vo_Pin : pinned inst = true -> exists before leaf, checks = before ++ [leaf] /\ leaf_pinned inst leaf
}.
Lemma ledger_vouches inst n checks : ledger inst n checks -> os_NameObjection n = X509_V_OK codes -> chain_walked checks -> vouched inst checks.
Proof using.
  intros [_ _ Ho Hl] Hn (Hall & before & leaf & -> & Hd).
  assert (Hv : verdict_of leaf = 1) by (apply Forall_app in Hall as [_ Hall]; by inversion Hall).
  destruct (Hl _ _ eq_refl Hd Hv) as [Hpin Hc]. destruct (Hc Hn) as [Hchain Hvalid]. constructor.
  - rewrite Forall_forall in *. intros ck Hin. destruct (Ho ck Hin (Hall ck Hin)) as [? | [? | [[Ha Hne] | [? | ?]]]]; [by left | by right | destruct Hne; auto | done | done].
  - intros Hpinned. exists before, leaf. auto.
Qed.
(** The session an Open made, as it is seen. *)
Record session_vouched self s : Prop := {
  sv_Up : tn_Up s = true;
  sv_Installed : in_TrustAnchorsInstalled (te_Installed (tn_Evidence s)) = true \/ pinned (te_Installed (tn_Evidence s)) = true;
  sv_Certificate : ol_Peer (tn_Library s) = true;
  sv_Named : named (tn_Library s) (tl_Profile self);
  sv_Vouched : chain_walked (te_Checks (tn_Evidence s)) -> vouched (te_Installed (tn_Evidence s)) (te_Checks (tn_Evidence s))
}.
Lemma Open_vouches addr self s : tls_agrees openssl_idle openssl_live self s ->
  leads (OpenSslStream_Open codes scratch area addr) self s (fun b self' s' => b = true -> session_vouched self' s').
Proof using OK fits scratch_bytes area_fits area_bytes.
  intros (base & cfg & h & rs & [(before & conn & (inst & p & Hd & n & lib & bu & te & -> & -> & Hl)) | (ws & Hs)]); unfold OpenSslStream_Open, TlsStream_Open.
  - tleads_on. rewrite (pk_open_up _ _ _ _ _ _ _ _ _ openssl_pack_ok _ _ _ _ _ _ _ _ Hl). tleads_on. apply TlsReport_leads. by tleads_on.
  - pose proof Hs as (inst & p & Hd & n & lib & bu & te & -> & -> & Hi). tleads_on. rewrite (pk_open_down _ _ _ _ _ _ _ _ _ openssl_pack_ok _ _ _ _ _ _ _ _ Hi). tleads_on.
    eapply tleads_mono; [by apply Establish_leads |]. clear Hs Hi. intros [] self s; [| by intros; tleads_on].
    intros (bu1 & inst1 & p1 & Hd1 & n1 & lib1 & warnings & te1 & -> & -> & Hw & ((((-> & Hc & Hss & _) & Ha & (Hp & <- & Hlg) & Hnm) & Hpeer) & Hn)). tleads_on.
    eapply tleads_happens; [cbn; rewrite (proj2 (Z.eqb_neq _ _) Hc); reflexivity |]. tleads_on. intros _. constructor; [done | by apply orb_prop in Hp | exact Hpeer | exact Hnm |].
    cbn. by eapply ledger_vouches.
Qed.

(** C9. A peer the OpenSSL stream accepts is vouched for.  Open answers true only with a
    session made under trust anchors or pins, in which the peer presented a certificate,
    and which checks it for the name the profile gives.  What its certificates were found
    to be is stated for a walk over the chain that OpenSSL made in this Open and let pass:
    if every certificate the verify callback was given had a verdict of 1 and the leaf's
    came last, then every certificate passed OpenSSL's own checks, or objected only to the
    chain's trust under pins that stand alone; no objection that was carried to the leaf
    is lost; and under pins the leaf's digest is one of them.  (That it walks so when it
    verifies peers is the library's part; where it did not, nothing is said of the chain.) *)
Theorem OpenSslStream_Open_vouches addr w : tls_ok LP openssl_idle openssl_live w -> fst (OpenSslStream_Open codes scratch area addr w) = true ->
  let w' := snd (OpenSslStream_Open codes scratch area addr w) in
  exists s, tls_observed LP (tv_Trace w') = Some s /\ session_vouched (tv_Self w') s.
Proof using OK fits scratch_bytes area_fits area_bytes.
  intros (_ & s & Hs & Ha) Hok. destruct (Open_vouches addr _ _ Ha w) as (self' & s' & [<- Hs'] & Hv); [by split |]. exists s'. split; [exact Hs' | by apply Hv].
Qed.
End pack.

(** * A small OpenSSL *)

Definition openssl_3_codes : openssl_codes :=
  mkOpenSslCodes 0 2 9 10 18 19 20 21 27 50 62 64 2 3 1 0x0303 4 262144 1073741824 4 11 6 7 12.
(** A peer whose issuer nobody knows, and whose leaf has the sample's digest; what is
    written is sent as it is. *)
#[export] Instance small_openssl : TlsLibrary openssl_call openssl_given openssl_answer small_tls := {
  tls_do := fun c => st_ret match c with
    | SSL_CTX_new => 1 | SSL_new _ => 2 | BIO_meth_new => 3 | BIO_new _ => 4
    | SSL_CTX_get_min_proto_version _ => 0
    | SSL_get_error _ _ => 2
    | _ => 1
    end;
  tls_hash := fun _ => st_ret (1, 32, sample_digest);
  tls_run := fun act e => match act with
    | Handshake _ => Judges (0, mkStoreCtx 20 1 90) e (fun _ e => Judges (1, mkStoreCtx 20 0 91) e (fun _ e => Ends 1 [] e))
    | ReadFrom _ buffer size => Ends (-1) buffer e
    | WriteTo _ data size => Transmits 4 data size e (fun rc e => Ends rc data e)
    | Shutdown _ => Ends 1 [] e
    end
}.
Definition openssl_area : bytes := repeat 0xAA 32.
Lemma small_openssl_ok : openssl_ok openssl_3_codes.
Proof.
  constructor.
  - intros ssl buffer size e. cbn. lia.
  - intros leaf md e. cbn. split; [by vm_compute |]. split; [| done]. repeat constructor; unfold is_byte; lia.
  - apply (bool_decide_unpack _). by vm_compute.
Qed.
Definition openssl_slot : tls_stream openssl_handles openssl_notes SolidSyslogOpenSslProfile small_tls :=
  mkTlsStream NullStreamVtable (copy_config small_config) (mkStreamOpenHealth true 7) true (mkInstalled true None 0) (mkOpenSslProfile None None None)
    (mkOpenSslHandles 5 6 7) (mkOpenSslNotes 1 1 1 SOLIDSYSLOG_TLS_AUTHORISATION_MATCHED).
Definition openssl_start : tls_world openssl_call openssl_given openssl_answer openssl_handles openssl_notes SolidSyslogOpenSslProfile small_tls :=
  snd (SolidSyslogOpenSslStream_Initialise small_config (mkTlsWorld openssl_slot a_small_tls [])).
Abbreviation openssl_opened := (OpenSslStream_Open openssl_3_codes sample_area openssl_area 1 openssl_start).
Lemma OpenSslStream_Open_vouches_witness :
  fst openssl_opened = true /\
  exists s, tls_observed (openssl_protocol openssl_3_codes) (tv_Trace (snd openssl_opened)) = Some s /\
    map (fun ck => (fst (ck_Given ck), fst (ck_Answer ck))) (te_Checks (tn_Evidence s)) = [(0, 1); (1, 1)] /\
    ol_Peer (tn_Library s) = true /\ vouched openssl_3_codes (te_Installed (tn_Evidence s)) (te_Checks (tn_Evidence s)).
Proof.
  split; [by vm_compute |].
  assert (Hbytes : all_bytes (fp_Digest sample_area) /\ all_bytes openssl_area) by (split; repeat constructor; unfold is_byte; lia).
  destruct (OpenSslStream_Open_vouches openssl_3_codes sample_area openssl_area small_openssl_ok eq_refl (proj1 Hbytes) eq_refl (proj2 Hbytes) 1 openssl_start) as (s & Hs & [_ _ Hc _ Hv]).
  - apply (initialised_ok (openssl_protocol openssl_3_codes) openssl_idle openssl_live), openssl_initialises.
  - by vm_compute.
  - exists s. split; [exact Hs |]. revert Hs Hc Hv. vm_compute (tls_observed _ _). intros [= <-] Hc Hv.
    split; [done |]. split; [exact Hc |]. apply Hv. split; [by repeat constructor |]. eexists [_], _. split; [reflexivity | done].
Defined.
