(* ===== verification/MbedTlsStream.v ===== *)
(** The mbedTLS stream ([src/Platform/MbedTls/Source/SolidSyslogMbedTlsStream.c]) over
    what [TlsStreams] gives: the configuration and the context, both within the stream,
    that it sets up and frees, the verify callback that clears, pins and, where mbedTLS
    would not, refuses, the transport callbacks, and the handshake.  It is proved to be a
    pack, and a peer it accepts to be one the installed anchors and pins authorise. *)
From S2P Require Import Prelude Errors PendingEvents Interfaces TlsFingerprint Transport StreamContract TcpStreams TlsStreams.

(** * The library *)

(** The constants of mbedTLS's headers, and whether the build has finite-field
    Diffie-Hellman in its client. *)
Record mbedtls_codes := mkMbedTlsCodes {
  MBEDTLS_ERR_SSL_WANT_READ : Z;
  MBEDTLS_ERR_SSL_WANT_WRITE : Z;
  MBEDTLS_ERR_SSL_ALLOC_FAILED : Z;
  MBEDTLS_ERR_X509_ALLOC_FAILED : Z;
  MBEDTLS_ERR_PK_ALLOC_FAILED : Z;
  MBEDTLS_ERR_X509_FATAL_ERROR : Z;
  MBEDTLS_SSL_IS_CLIENT : Z;
  MBEDTLS_SSL_TRANSPORT_STREAM : Z;
  MBEDTLS_SSL_PRESET_DEFAULT : Z;
  MBEDTLS_SSL_VERSION_TLS1_2 : Z;
  MBEDTLS_SSL_LEGACY_BREAK_HANDSHAKE : Z;
  MBEDTLS_SSL_VERIFY_REQUIRED : Z;
  MBEDTLS_SSL_VERIFY_OPTIONAL : Z;
  MBEDTLS_X509_BADCERT_EXPIRED : Z;
  MBEDTLS_X509_BADCERT_CN_MISMATCH : Z;
  MBEDTLS_X509_BADCERT_NOT_TRUSTED : Z;
  MBEDTLS_X509_BADCERT_MISSING : Z;
  MBEDTLS_X509_BADCERT_OTHER : Z;
  MBEDTLS_X509_BADCERT_FUTURE : Z;
  MBEDTLS_DHM_C_AND_SSL_CLI_C : bool
}.
Definition MBEDTLS_STREAM_DHM_MIN_BITLEN : Z := 2048.

(** A hash's description is named by its type. *)
Inductive mbedtls_md_type_t := MBEDTLS_MD_NONE | MBEDTLS_MD_SHA1 | MBEDTLS_MD_SHA256.
(** The quiet calls.  The callbacks given to some are this file's. *)
Inductive mbedtls_call :=
| mbedtls_ssl_init (ssl : Z)
| mbedtls_ssl_config_init (conf : Z)
| mbedtls_ssl_config_defaults (conf endpoint transport preset : Z)
| mbedtls_ssl_conf_min_tls_version (conf version : Z)
| mbedtls_ssl_conf_legacy_renegotiation (conf allow : Z)
| mbedtls_ssl_conf_dhm_min_bitlen (conf bits : Z)
| mbedtls_ssl_conf_rng (conf rng : Z)
| mbedtls_ssl_conf_ciphersuites (conf : Z) (suites : list Z)
| mbedtls_ssl_conf_cert_profile (conf profile : Z)
| mbedtls_ssl_conf_authmode (conf mode : Z)
| mbedtls_ssl_conf_verify (conf : Z)
| mbedtls_ssl_setup (ssl conf : Z)
| mbedtls_ssl_set_hostname (ssl : Z) (name : option bytes)
| mbedtls_ssl_set_bio (ssl : Z)
| mbedtls_ssl_get_verify_result (ssl : Z)
| mbedtls_ssl_free (ssl : Z)
| mbedtls_ssl_config_free (conf : Z)
| mbedtls_md_info_from_type (type : mbedtls_md_type_t)
| mbedtls_md (type : mbedtls_md_type_t) (crt : Z)
| mbedtls_md_get_size (type : mbedtls_md_type_t).

(** The verify callback is given a certificate, its depth and its flags; it answers a
    result and the flags as it leaves them. *)
Record mbedtls_given := mkMbedTlsGiven { mg_crt : Z; mg_depth : Z; mg_flags : Z }.
Record mbedtls_answer := mkMbedTlsAnswer { ma_result : Z; ma_flags : Z }.

(** * The stream *)

(** Where the two structures within the stream are. *)
Record mbedtls_handles := mkMbedTlsHandles { ms_SslConfig : Z; ms_SslContext : Z }.
Record mbedtls_notes := mkMbedTlsNotes { ms_RefusedVerdict : Z; ms_PinVerdict : SolidSyslogTlsAuthorisation }.
#[export] Instance settable_mbedtls_notes : Settable mbedtls_notes := fun n => mkMbedTlsNotes (ms_RefusedVerdict n) (ms_PinVerdict n).
Record SolidSyslogMbedTlsProfile := mkMbedTlsProfile { mp_ServerName : option bytes; mp_CipherSuites : option (list Z); mp_CertProfile : option Z }.

Section mbedtls.
Context {E : Type} `{ErrorTap E} `{TlsLibrary mbedtls_call mbedtls_given mbedtls_answer E} (codes : mbedtls_codes).
(** The stack a pin, and a digest, is read into. *)
Context (scratch : SolidSyslogTlsFingerprint) (area : bytes).
Abbreviation op := (tls_op mbedtls_call mbedtls_given mbedtls_answer mbedtls_handles mbedtls_notes SolidSyslogMbedTlsProfile E).
Abbreviation stream := (tls_stream mbedtls_handles mbedtls_notes SolidSyslogMbedTlsProfile E).

Definition mbedtls_set_notes (f : mbedtls_notes -> mbedtls_notes) : op unit := tls_set (fun self => self <| tl_Notes := f (tl_Notes self) |>).
Definition SslConfig : op Z := tls_get (fun self => ms_SslConfig (tl_Handles self)).
Definition SslContext : op Z := tls_get (fun self => ms_SslContext (tl_Handles self)).

(** ** The transport callbacks *)

Definition MbedTlsStream_BioSend (ctx : Z) (buf : bytes) (len : Z) : op Z :=
  let! ok := transport_send buf len in
  st_ret (if ok : bool then to_int len else -1).
Definition MbedTlsStream_BioRecv (ctx : Z) (buf : bytes) (len : Z) : op (Z * bytes) :=
  let! answer := transport_read buf len in
  let n := fst answer in
  st_ret (if 0 <? n then n else if n =? 0 then MBEDTLS_ERR_SSL_WANT_READ codes else -1, snd answer).

(** ** The verify callback *)

Definition MbedTlsStream_ChainTrustFlags : Z := Z.lor (MBEDTLS_X509_BADCERT_NOT_TRUSTED codes) (MBEDTLS_X509_BADCERT_MISSING codes).
Definition MbedTlsStream_MdTypeFor (algorithm : SolidSyslogTlsHashAlgorithm) : mbedtls_md_type_t :=
  match algorithm with SOLIDSYSLOG_TLS_HASH_SHA1 => MBEDTLS_MD_SHA1 | SOLIDSYSLOG_TLS_HASH_SHA256 => MBEDTLS_MD_SHA256 end.
(** The digest is written over the area. *)
Definition MbedTlsStream_DigestCertificate (leaf : Z) (algorithm : SolidSyslogTlsHashAlgorithm) (digest : bytes) (length : Z) : op (bool * bytes * Z) :=
  let type := MbedTlsStream_MdTypeFor algorithm in
  let! info := tls_call (mbedtls_md_info_from_type type) in
  if negb (info =? 0) then
    let! answer := tls_digest (mbedtls_md type leaf) in
    let '(rc, _, made) := answer in
    let! size := tls_call (mbedtls_md_get_size type) in
    st_ret (rc =? 0, spliceZ digest 0 made, size)
  else st_ret (false, digest, length).
Definition MbedTlsStream_LeafMatchesAPin (leaf : Z) : op bool :=
  let! installed := tls_get tl_Installed in
  let! verdict := SolidSyslogTlsFingerprint_Authorise scratch MbedTlsStream_DigestCertificate leaf area
                    (in_Fingerprints installed) (in_FingerprintCount installed) in
  mbedtls_set_notes (fun n => n <| ms_PinVerdict := verdict |>) ;;;
  st_ret (bool_decide (verdict = SOLIDSYSLOG_TLS_AUTHORISATION_MATCHED)).
Definition MbedTlsStream_EnforceWhereTheLibraryWillNot (depth flags : Z) : op Z :=
  let! installed := tls_get tl_Installed in
  if negb (in_TrustAnchorsInstalled installed) then
    mbedtls_set_notes (fun n => n <| ms_RefusedVerdict := Z.lor (ms_RefusedVerdict n) flags |>) ;;;
    let! notes := tls_get tl_Notes in
    st_ret (if (depth =? 0) && negb (ms_RefusedVerdict notes =? 0) then MBEDTLS_ERR_X509_FATAL_ERROR codes else 0)
  else st_ret 0.
Definition MbedTlsStream_VerifyPeer (given : mbedtls_given) : op mbedtls_answer :=
  let! installed := tls_get tl_Installed in
  let! flags :=
    if 0 <? in_FingerprintCount installed then
      let flags := if negb (in_TrustAnchorsInstalled installed) then Z.land (mg_flags given) (u32 (Z.lnot MbedTlsStream_ChainTrustFlags)) else mg_flags given in
      let! refused := (if mg_depth given =? 0 then let! matches := MbedTlsStream_LeafMatchesAPin (mg_crt given) in st_ret (negb matches) else st_ret false) in
      st_ret (if refused : bool then Z.lor flags (MBEDTLS_X509_BADCERT_OTHER codes) else flags)
    else st_ret (mg_flags given) in
  let! result := MbedTlsStream_EnforceWhereTheLibraryWillNot (mg_depth given) flags in
  st_ret (mkMbedTlsAnswer result flags).

Definition mbedtls : tls_pack mbedtls_call mbedtls_given mbedtls_answer mbedtls_handles mbedtls_notes SolidSyslogMbedTlsProfile E := {|
  tp_Source := SolidSyslogMbedTlsStreamErrorSource;
  tp_Session := ms_SslContext;
  tp_Length := fun size => size;
  tp_NoProfile := mkMbedTlsProfile None None None;
  tp_Judge := MbedTlsStream_VerifyPeer;
  tp_Receive := MbedTlsStream_BioRecv;
  tp_Transmit := MbedTlsStream_BioSend;
  tp_Control := fun _ _ => 0;
  tp_Scratch := scratch
|}.

(** ** Close *)

Definition MbedTlsStream_ReleaseCredentials : op unit := TlsStream_ReleaseCredentials.
Definition MbedTlsStream_Close : op unit :=
  let! ssl := SslContext in
  let! conf := SslConfig in
  let! _ := tls_perform mbedtls (Shutdown ssl) in
  tls_quiet (mbedtls_ssl_free ssl) ;;;
  tls_quiet (mbedtls_ssl_config_free conf) ;;;
  MbedTlsStream_ReleaseCredentials ;;;
  close_transport.

(** ** Open, a step at a time *)

Definition MbedTlsStream_Report : Z -> Z -> Z -> op unit := TlsStream_Report mbedtls.
Definition MbedTlsStream_ReportOpenFailure : Z -> Z -> Z -> op unit := TlsStream_ReportOpenFailure mbedtls.
Abbreviation or_report := (or_report mbedtls).
Definition MbedTlsStream_PullProfile : op unit := TlsStream_PullProfile mbedtls.
Definition MbedTlsStream_IsAllocationFailure (rc : Z) : bool :=
  (rc =? MBEDTLS_ERR_SSL_ALLOC_FAILED codes) || (rc =? MBEDTLS_ERR_X509_ALLOC_FAILED codes) || (rc =? MBEDTLS_ERR_PK_ALLOC_FAILED codes).
Definition MbedTlsStream_InitDetail (rc otherwise : Z) : Z :=
  if MbedTlsStream_IsAllocationFailure rc then SOLIDSYSLOG_TLS_STREAM_ERROR_LIBRARY_OUT_OF_MEMORY else otherwise.

Definition MbedTlsStream_ApplySslConfigDefaults : op bool :=
  let! conf := SslConfig in
  let! rc := tls_call (mbedtls_ssl_config_defaults conf (MBEDTLS_SSL_IS_CLIENT codes) (MBEDTLS_SSL_TRANSPORT_STREAM codes) (MBEDTLS_SSL_PRESET_DEFAULT codes)) in
  or_report (rc =? 0) SOLIDSYSLOG_CAT_TLS_STREAM_INIT_FAILED (MbedTlsStream_InitDetail rc SOLIDSYSLOG_TLS_STREAM_ERROR_DEFAULTS_NOT_APPLIED).
Definition MbedTlsStream_ApplyTlsPolicy : op unit :=
  let! conf := SslConfig in
  let! config := tls_get tl_Config in
  tls_quiet (mbedtls_ssl_conf_min_tls_version conf (MBEDTLS_SSL_VERSION_TLS1_2 codes)) ;;;
  tls_quiet (mbedtls_ssl_conf_legacy_renegotiation conf (MBEDTLS_SSL_LEGACY_BREAK_HANDSHAKE codes)) ;;;
  if! MBEDTLS_DHM_C_AND_SSL_CLI_C codes then tls_quiet (mbedtls_ssl_conf_dhm_min_bitlen conf MBEDTLS_STREAM_DHM_MIN_BITLEN) end! ;;;
  tls_quiet (mbedtls_ssl_conf_rng conf (wi_Library config)).
Definition MbedTlsStream_ApplyCipherPolicy : op unit :=
  let! conf := SslConfig in
  let! profile := tls_get tl_Profile in
  match mp_CipherSuites profile with
  | Some suites => tls_quiet (mbedtls_ssl_conf_ciphersuites conf suites)
  | None => st_ret tt
  end.
Definition MbedTlsStream_ApplyCertProfilePolicy : op unit :=
  let! conf := SslConfig in
  let! profile := tls_get tl_Profile in
  match mp_CertProfile profile with
  | Some certProfile => tls_quiet (mbedtls_ssl_conf_cert_profile conf certProfile)
  | None => st_ret tt
  end.
Definition MbedTlsStream_PeerIsAuthorisable : SolidSyslogTlsCredentialsInstalled -> bool := TlsStream_PeerIsAuthorisable.
Definition MbedTlsStream_FingerprintsAreUsable : op bool := TlsStream_FingerprintsAreUsable mbedtls.
Definition MbedTlsStream_ApplyPeerVerificationPolicy : op unit :=
  let! conf := SslConfig in
  let! installed := tls_get tl_Installed in
  let authmode := if in_TrustAnchorsInstalled installed then MBEDTLS_SSL_VERIFY_REQUIRED codes else MBEDTLS_SSL_VERIFY_OPTIONAL codes in
  tls_quiet (mbedtls_ssl_conf_authmode conf authmode) ;;;
  tls_quiet (mbedtls_ssl_conf_verify conf).
Definition MbedTlsStream_InstallCredentials : op bool :=
  let! conf := SslConfig in
  TlsStream_InstallCredentials mbedtls conf &&! (MbedTlsStream_ApplyPeerVerificationPolicy ;;; st_ret true).
Definition MbedTlsStream_BindContextToConfig : op bool :=
  let! ssl := SslContext in
  let! conf := SslConfig in
  let! rc := tls_call (mbedtls_ssl_setup ssl conf) in
  or_report (rc =? 0) SOLIDSYSLOG_CAT_TLS_STREAM_INIT_FAILED (MbedTlsStream_InitDetail rc SOLIDSYSLOG_TLS_STREAM_ERROR_SESSION_INIT_FAILED).

Definition MbedTlsStream_NameBeginsWithADot (name : bytes) : bool := name.[0] =? 46.
Definition MbedTlsStream_DeclareNoPeerName : op unit :=
  let! ssl := SslContext in
  tls_quiet (mbedtls_ssl_set_hostname ssl None).
Definition MbedTlsStream_ConfigureExpectedHostname : op bool :=
  let! self := tls_get (fun self => self) in
  match mp_ServerName (tl_Profile self) with
  | None =>
      MbedTlsStream_DeclareNoPeerName ;;;
      if! in_FingerprintCount (tl_Installed self) =? 0 then
        MbedTlsStream_Report SOLIDSYSLOG_SEVERITY_WARNING SOLIDSYSLOG_CAT_BAD_CONFIG SOLIDSYSLOG_TLS_STREAM_ERROR_SERVER_NAME_NOT_SET
      end! ;;;
      st_ret true
  | Some serverName =>
      if MbedTlsStream_NameBeginsWithADot serverName then
        or_report false SOLIDSYSLOG_CAT_BAD_CONFIG SOLIDSYSLOG_TLS_STREAM_ERROR_SERVER_NAME_NOT_APPLIED
      else if negb (serverName.[0] =? 0) then
        let! rc := tls_call (mbedtls_ssl_set_hostname (ms_SslContext (tl_Handles self)) (Some serverName)) in
        or_report (rc =? 0) SOLIDSYSLOG_CAT_BAD_CONFIG (MbedTlsStream_InitDetail rc SOLIDSYSLOG_TLS_STREAM_ERROR_SERVER_NAME_NOT_APPLIED)
      else
        MbedTlsStream_DeclareNoPeerName ;;;
        st_ret true
  end.
Definition MbedTlsStream_InstallTransportCallbacks : op unit :=
  let! ssl := SslContext in
  tls_quiet (mbedtls_ssl_set_bio ssl).

(** ** The handshake *)

Definition MbedTlsStream_IsRetryableHandshakeRc (rc : Z) : bool := (rc =? MBEDTLS_ERR_SSL_WANT_READ codes) || (rc =? MBEDTLS_ERR_SSL_WANT_WRITE codes).
Definition MbedTlsStream_IsVerifyFailure (verdict : Z) : bool := negb (verdict =? 0) && negb (verdict =? 0xFFFFFFFF).
Definition MbedTlsStream_HasUnnamedVerifyFailure (verdict : Z) : bool :=
  let named := Z.lor (MBEDTLS_X509_BADCERT_CN_MISMATCH codes) (Z.lor (MBEDTLS_X509_BADCERT_EXPIRED codes)
                 (Z.lor (MBEDTLS_X509_BADCERT_FUTURE codes) (MBEDTLS_X509_BADCERT_OTHER codes))) in
  negb (Z.land verdict (u32 (Z.lnot named)) =? 0).
Definition MbedTlsStream_DetailForVerifyFailure (verdict : Z) : Z :=
  if negb (Z.land verdict (MBEDTLS_X509_BADCERT_OTHER codes) =? 0) then SOLIDSYSLOG_TLS_STREAM_ERROR_PEER_FINGERPRINT_MISMATCHED
  else if MbedTlsStream_HasUnnamedVerifyFailure verdict then SOLIDSYSLOG_TLS_STREAM_ERROR_PEER_CERTIFICATE_UNTRUSTED
  else if negb (Z.land verdict (MBEDTLS_X509_BADCERT_EXPIRED codes) =? 0) then SOLIDSYSLOG_TLS_STREAM_ERROR_PEER_CERTIFICATE_EXPIRED
  else if negb (Z.land verdict (MBEDTLS_X509_BADCERT_FUTURE codes) =? 0) then SOLIDSYSLOG_TLS_STREAM_ERROR_PEER_CERTIFICATE_NOT_YET_VALID
  else SOLIDSYSLOG_TLS_STREAM_ERROR_PEER_NAME_MISMATCHED.
Definition MbedTlsStream_RefusalDetail : op Z :=
  let! notes := tls_get tl_Notes in
  let! verdict :=
    if ms_RefusedVerdict notes =? 0 then
      let! ssl := SslContext in
      tls_call (mbedtls_ssl_get_verify_result ssl)
    else st_ret (ms_RefusedVerdict notes) in
  st_ret (
    if decide (ms_PinVerdict notes = SOLIDSYSLOG_TLS_AUTHORISATION_DIGEST_UNAVAILABLE) then SOLIDSYSLOG_TLS_STREAM_ERROR_FINGERPRINT_DIGEST_UNAVAILABLE
    else if MbedTlsStream_IsVerifyFailure verdict then MbedTlsStream_DetailForVerifyFailure verdict
    else SOLIDSYSLOG_TLS_STREAM_ERROR_HANDSHAKE_REJECTED).
(** One call of [mbedtls_ssl_handshake]. *)
Definition MbedTlsStream_Turn : op handshake_turn :=
  let! ssl := session mbedtls in
  let! answer := tls_perform mbedtls (Handshake ssl) in
  let rc := fst answer in
  if rc =? 0 then st_ret (HandshakeOver true)
  else if negb (MbedTlsStream_IsRetryableHandshakeRc rc) then
    let! detail := MbedTlsStream_RefusalDetail in
    st_ret (HandshakeRefused (MbedTlsStream_InitDetail rc detail))
  else st_ret HandshakeUnfinished.
Definition MbedTlsStream_PerformHandshake : op bool := TlsStream_PerformHandshake mbedtls MbedTlsStream_Turn.
(** The detail is looked for only where there is one to report. *)
Definition MbedTlsStream_PeerPassedVerification : op bool :=
  let! ssl := SslContext in
  let! verdict := tls_call (mbedtls_ssl_get_verify_result ssl) in
  if negb (MbedTlsStream_IsVerifyFailure verdict) then st_ret true
  else
    let! detail := MbedTlsStream_RefusalDetail in
    or_report false SOLIDSYSLOG_CAT_TLS_STREAM_HANDSHAKE_FAILED detail.

Definition MbedTlsStream_IsOpen (self : stream) : bool := tl_CredentialsInstalled self.
Definition MbedTlsStream_Establish (addr : SolidSyslogAddress) : op bool :=
  MbedTlsStream_PullProfile ;;;
  mbedtls_set_notes (fun _ => mkMbedTlsNotes 0 SOLIDSYSLOG_TLS_AUTHORISATION_NO_MATCH) ;;;
  let! ok := open_transport addr &&! MbedTlsStream_ApplySslConfigDefaults in
  let! ok :=
    if ok : bool then
      MbedTlsStream_ApplyTlsPolicy ;;;
      MbedTlsStream_ApplyCipherPolicy ;;;
      MbedTlsStream_ApplyCertProfilePolicy ;;;
      MbedTlsStream_InstallCredentials &&! MbedTlsStream_BindContextToConfig &&! MbedTlsStream_ConfigureExpectedHostname
    else st_ret ok in
  let! ok :=
    if ok : bool then
      MbedTlsStream_InstallTransportCallbacks ;;;
      MbedTlsStream_PerformHandshake &&! MbedTlsStream_PeerPassedVerification
    else st_ret ok in
  if! negb ok then MbedTlsStream_Close end! ;;;
  st_ret ok.
Definition MbedTlsStream_Open : SolidSyslogAddress -> op bool := TlsStream_Open mbedtls MbedTlsStream_IsOpen MbedTlsStream_Establish.

(** ** The vtable *)

Definition MbedTlsStream_NothingYet (rc : Z) : op bool := st_ret (rc =? MBEDTLS_ERR_SSL_WANT_READ codes).
Definition MbedTlsStream_Read : bytes -> Z -> op (Z * bytes) := TlsStream_Read mbedtls MbedTlsStream_NothingYet MbedTlsStream_Close.
Definition MbedTlsStream_SessionIsStillOpen : op bool := TlsStream_SessionIsStillOpen mbedtls MbedTlsStream_NothingYet MbedTlsStream_Close.
Definition MbedTlsStream_Send : bytes -> Z -> op bool := TlsStream_Send mbedtls MbedTlsStream_NothingYet MbedTlsStream_Close.
Definition MbedTlsStream_Version : op Z := TlsStream_Version.
Definition SolidSyslogMbedTlsStream_Initialise (config : tls_config SolidSyslogMbedTlsProfile E) : op unit :=
  TlsStream_Initialise config ;;;
  let! ssl := SslContext in
  let! conf := SslConfig in
  tls_quiet (mbedtls_ssl_init ssl) ;;;
  tls_quiet (mbedtls_ssl_config_init conf).
Definition SolidSyslogMbedTlsStream_Cleanup : op unit := TlsStream_Cleanup MbedTlsStream_Close.
Definition MbedTlsStream_vtable : SolidSyslogStream (tls_world mbedtls_call mbedtls_given mbedtls_answer mbedtls_handles mbedtls_notes SolidSyslogMbedTlsProfile E) :=
  TlsStream_vtable mbedtls MbedTlsStream_NothingYet MbedTlsStream_Close MbedTlsStream_Open.
End mbedtls.

(** * mbedTLS's protocol *)

(** The structures that were initialised; of the configuration, whether it was used since
    it was last freed, whether its defaults are on it, the protocol floor, that a server
    without secure renegotiation is refused, the random number generator, how peers are
    verified and whether by the callback; of the context, whether it was used, is set up,
    was told a name or that there is none, has the transport, and the verdict it was last
    asked for. *)
Record mbedtls_held := mkMbedTlsHeld {
  ml_Config : option Z; ml_Context : option Z;
  ml_ConfigUsed : bool; ml_Defaults : bool; ml_Floor : bool; ml_Secure : bool; ml_Rng : bool; ml_Authmode : option Z; ml_Verify : bool;
  ml_ContextUsed : bool; ml_Bound : bool; ml_Name : option (option bytes); ml_Bio : bool; ml_Verdict : option Z
}.
#[export] Instance settable_mbedtls_held : Settable mbedtls_held := fun l => mkMbedTlsHeld (ml_Config l) (ml_Context l)
  (ml_ConfigUsed l) (ml_Defaults l) (ml_Floor l) (ml_Secure l) (ml_Rng l) (ml_Authmode l) (ml_Verify l) (ml_ContextUsed l) (ml_Bound l) (ml_Name l) (ml_Bio l) (ml_Verdict l).
(** As [mbedtls_ssl_init] and [mbedtls_ssl_config_init], and the freeing of each, leave
    them. *)
Definition mbedtls_fresh (conf ssl : option Z) : mbedtls_held := mkMbedTlsHeld conf ssl false false false false false None false false false None false None.

Section protocol.
Context (codes : mbedtls_codes).
(** Both structures are initialised before all else; defaults go on a configuration that
    is not in use; everything is set on one with its defaults; the context is set up
    once, from a configuration that keeps the floors and verifies peers by the callback;
    a name, and the transport, go on a context that is set up; the configuration is
    freed after the context that refers to it. *)
Definition mbedtls_step (l : mbedtls_held) (c : mbedtls_call) (answer : Z) : option mbedtls_held :=
  let on_conf conf l' := if bool_decide (ml_Config l = Some conf) && ml_Defaults l then Some l' else None in
  let on_ssl ssl l' := if bool_decide (ml_Context l = Some ssl) && ml_Bound l then Some l' else None in
  match c with
  | mbedtls_ssl_init ssl => match ml_Context l with None => Some (l <| ml_Context := Some ssl |>) | Some _ => None end
  | mbedtls_ssl_config_init conf => match ml_Config l with None => Some (l <| ml_Config := Some conf |>) | Some _ => None end
  | mbedtls_ssl_config_defaults conf _ _ _ =>
      if bool_decide (ml_Config l = Some conf) && negb (ml_ConfigUsed l) && negb (ml_ContextUsed l)
      then Some ((mbedtls_fresh (ml_Config l) (ml_Context l)) <| ml_ConfigUsed := true |> <| ml_Defaults := answer =? 0 |>) else None
  | mbedtls_ssl_conf_min_tls_version conf version => on_conf conf (l <| ml_Floor := version =? MBEDTLS_SSL_VERSION_TLS1_2 codes |>)
  | mbedtls_ssl_conf_legacy_renegotiation conf allow => on_conf conf (l <| ml_Secure := allow =? MBEDTLS_SSL_LEGACY_BREAK_HANDSHAKE codes |>)
  | mbedtls_ssl_conf_dhm_min_bitlen conf _ | mbedtls_ssl_conf_ciphersuites conf _ | mbedtls_ssl_conf_cert_profile conf _ => on_conf conf l
  | mbedtls_ssl_conf_rng conf _ => on_conf conf (l <| ml_Rng := true |>)
  | mbedtls_ssl_conf_authmode conf mode => on_conf conf (l <| ml_Authmode := Some mode |>)
  | mbedtls_ssl_conf_verify conf => on_conf conf (l <| ml_Verify := true |>)
  | mbedtls_ssl_setup ssl conf =>
      if bool_decide (ml_Context l = Some ssl) && negb (ml_ContextUsed l) && ml_Floor l && ml_Secure l && ml_Rng l && bool_decide (is_Some (ml_Authmode l)) && ml_Verify l
      then on_conf conf (l <| ml_ContextUsed := true |> <| ml_Bound := answer =? 0 |>) else None
  | mbedtls_ssl_set_hostname ssl name => on_ssl ssl (l <| ml_Name := match name with None => Some None | Some _ => if answer =? 0 then Some name else None end |>)
  | mbedtls_ssl_set_bio ssl => on_ssl ssl (l <| ml_Bio := true |>)
  | mbedtls_ssl_get_verify_result ssl => on_ssl ssl (l <| ml_Verdict := Some answer |>)
  | mbedtls_ssl_free ssl =>
      if bool_decide (ml_Context l = Some ssl) then Some (l <| ml_ContextUsed := false |> <| ml_Bound := false |> <| ml_Name := None |> <| ml_Bio := false |> <| ml_Verdict := None |>) else None
  | mbedtls_ssl_config_free conf =>
      if bool_decide (ml_Config l = Some conf) && negb (ml_ContextUsed l) then Some (mbedtls_fresh (ml_Config l) (ml_Context l)) else None
  | mbedtls_md_info_from_type _ | mbedtls_md _ _ | mbedtls_md_get_size _ => Some l
  end.
(** A close notification may be asked of a context that is not set up, and does nothing. *)
Definition mbedtls_protocol : lib_protocol mbedtls_call mbedtls_held := {|
  lp_Start := mbedtls_fresh None None;
  lp_Step := mbedtls_step;
  lp_Runs := fun l act => bool_decide (ml_Context l = Some (act_session act)) &&
    match act with Handshake _ => ml_Bound l && ml_Bio l && bool_decide (is_Some (ml_Name l)) | ReadFrom _ _ _ | WriteTo _ _ _ => ml_Bound l && ml_Bio l | Shutdown _ => true end;
  lp_IsIdle := fun l => negb (ml_ConfigUsed l) && negb (ml_ContextUsed l);
  lp_Takes := fun l conf => bool_decide (ml_Config l = Some conf) && ml_Defaults l && negb (ml_ContextUsed l)
|}.
End protocol.

(** What is relied on: reads give no more than was asked for; a digest of the hashes asked
    for is of at most the largest size, in bytes, and as long as the hash's size; a flag and an error are
    not zero. *)
Record mbedtls_ok {E} `{TlsLibrary mbedtls_call mbedtls_given mbedtls_answer E} (codes : mbedtls_codes) : Prop := {
  ms_read_answers : forall ssl buffer size e, ends_in (fun rc => rc <= Z.max 0 size) (tls_run (ReadFrom ssl buffer size) e);
  ms_digest_answers : forall algorithm leaf e, let type := MbedTlsStream_MdTypeFor algorithm in let '(rc, _, made) := fst (tls_hash (mbedtls_md type leaf) e) in
    lenZ made <= SOLIDSYSLOG_TLS_FINGERPRINT_DIGEST_MAX /\ all_bytes made /\ (rc = 0 -> forall e', fst (tls_do (mbedtls_md_get_size type) e') = lenZ made);
  ms_codes_are_set : MBEDTLS_X509_BADCERT_OTHER codes <> 0 /\ MBEDTLS_ERR_X509_FATAL_ERROR codes <> 0
}.

(** * A pack *)

Section pack.
Context {E : Type} `{HT : ErrorTap E} `{HL : TlsLibrary mbedtls_call mbedtls_given mbedtls_answer E} (codes : mbedtls_codes).
Context (scratch : SolidSyslogTlsFingerprint) (area : bytes).
Context (OK : mbedtls_ok codes) (fits : DIGEST_AREA scratch) (scratch_bytes : all_bytes (fp_Digest scratch))
  (area_fits : lenZ area = SOLIDSYSLOG_TLS_FINGERPRINT_DIGEST_MAX) (area_bytes : all_bytes area).
Abbreviation op := (tls_op mbedtls_call mbedtls_given mbedtls_answer mbedtls_handles mbedtls_notes SolidSyslogMbedTlsProfile E).
Abbreviation stream := (tls_stream mbedtls_handles mbedtls_notes SolidSyslogMbedTlsProfile E).
Abbreviation seen := (tls_seen mbedtls_call mbedtls_given mbedtls_answer mbedtls_held).
Abbreviation evidence := (tls_evidence mbedtls_call mbedtls_given mbedtls_answer).
Abbreviation check := (tls_check mbedtls_call mbedtls_given mbedtls_answer).
Abbreviation K := (mbedtls codes scratch area).
Abbreviation LP := (mbedtls_protocol codes).
Abbreviation leads := (tls_leads LP).
Implicit Types (self : stream) (s : seen) (ck : check) (inst : SolidSyslogTlsCredentialsInstalled) (n : mbedtls_notes) (te : evidence).

(** ** What the verify callback keeps *)

Definition anchored inst : bool := in_TrustAnchorsInstalled inst.
Definition mbed_pinned inst : bool := 0 <? in_FingerprintCount inst.
(** The leaf's digest, as mbedTLS made it for the callback, is one of the pins. *)
Definition mbed_digest_made (crt : Z) (ds : list (mbedtls_call * Z * Z * bytes)) (alg : SolidSyslogTlsHashAlgorithm) (d : bytes) : Prop :=
  exists length, In (mbedtls_md (MbedTlsStream_MdTypeFor alg) crt, 0, length, d) ds.
Definition mbed_leaf_pinned inst ck : Prop := a_pin_matches inst (mbed_digest_made (mg_crt (ck_Given ck)) (ck_Digests ck)).

Lemma MbedDigestCertificate_hashes leaf alg : hashes_only LP (MbedTlsStream_DigestCertificate (E := E) leaf alg area 0) (fun r ds =>
  lenZ (snd (fst r)) = SOLIDSYSLOG_TLS_FINGERPRINT_DIGEST_MAX /\ all_bytes (snd (fst r)) /\
  (fst (fst r) = true -> snd r = digest_length alg -> mbed_digest_made leaf ds alg (takeZ (digest_length alg) (snd (fst r))))).
Proof using OK area_fits area_bytes.
  intros self lib tr cr up bu rs ws te. unfold MbedTlsStream_DigestCertificate. set (type := MbedTlsStream_MdTypeFor alg). tleads_on.
  apply tleads_call. intros info. exists lib. split; [done |]. destruct (Z.eqb_spec info 0); cbn [negb].
  { tleads_on. cbn [fst snd]. split; [done |]. exists []. rewrite app_nil_r. split; [by destruct te | done]. }
  unfold tls_digest. tleads_on.
  apply (tleads_env _ _ (fun a => lenZ (snd a) <= SOLIDSYSLOG_TLS_FINGERPRINT_DIGEST_MAX /\ all_bytes (snd a) /\ (fst (fst a) = 0 -> forall e', fst (tls_do (mbedtls_md_get_size type) e') = lenZ (snd a)))).
  { intros e. pose proof (ms_digest_answers codes OK alg leaf e) as Ho. cbv zeta in Ho. fold type in Ho. by destruct (fst (tls_hash (mbedtls_md type leaf) e)) as [[rc written] made]. }
  intros [[rc written] made] (Hl & Hb & Hw). cbn [fst snd] in *. tleads_on. eapply tleads_happens; [reflexivity |]. tleads_on. unfold tls_call. tleads_on.
  apply (tleads_env _ _ (fun size => rc = 0 -> size = lenZ made)); [auto |]. intros size Hsize. tleads_on. eapply tleads_happens; [reflexivity |]. tleads_on. cbn [fst snd].
  split; [done |]. eexists. split; [done |]. unfold SOLIDSYSLOG_TLS_FINGERPRINT_DIGEST_MAX in *. pose proof (lenZ_nonneg made).
  split; [rewrite lenZ_spliceZ by lia; lia |]. split; [rewrite spliceZ_0; apply Forall_app; split; [done | by apply all_bytes_dropZ] |].
  intros Hrc%Z.eqb_eq Hn. exists written. apply in_app_iff. right. left. rewrite <- Hn, (Hsize Hrc), spliceZ_0, takeZ_app_le, takeZ_ge by lia.
  by rewrite Hrc.
Qed.
Lemma MbedLeafMatchesAPin_leads leaf base cfg h ci inst p Hd n lib tr cr up bu rs ws te (Q : bool -> stream -> seen -> Prop) :
  (forall v more, (v = SOLIDSYSLOG_TLS_AUTHORISATION_MATCHED -> a_pin_matches inst (mbed_digest_made leaf (te_Digests te ++ more))) ->
    Q (bool_decide (v = SOLIDSYSLOG_TLS_AUTHORISATION_MATCHED)) (mkTlsStream base cfg h ci inst p Hd (n <| ms_PinVerdict := v |>))
      (mkTlsSeen lib tr cr up bu rs ws (mkEvidence (te_Installed te) (te_Checks te) (te_Digests te ++ more) (te_Below te)))) ->
  leads (MbedTlsStream_LeafMatchesAPin scratch area leaf) (mkTlsStream base cfg h ci inst p Hd n) (mkTlsSeen lib tr cr up bu rs ws te) Q.
Proof using OK fits scratch_bytes area_fits area_bytes.
  intros HQ. unfold MbedTlsStream_LeafMatchesAPin, mbedtls_set_notes. tleads_on.
  eapply tleads_mono; [apply (Authorise_leads LP scratch area fits scratch_bytes MbedTlsStream_DigestCertificate leaf (fun alg d ds => mbed_digest_made leaf ds alg d)) |].
  - intros alg d ds more (length & Hin). exists length. apply in_app_iff. by left.
  - apply MbedDigestCertificate_hashes.
  - intros v self' s' (-> & more & -> & Hv). tleads_on. by apply HQ.
Qed.

(** The flags the callback leaves, given whether a pinned leaf matched; what it makes of
    them; and both. *)
Definition objections inst (flags : Z) : Z := if mbed_pinned inst && negb (anchored inst) then Z.land flags (u32 (Z.lnot (MbedTlsStream_ChainTrustFlags codes))) else flags.
Definition flags_left inst (matches : bool) (given : mbedtls_given) : Z :=
  if mbed_pinned inst && (mg_depth given =? 0) && negb matches then Z.lor (objections inst (mg_flags given)) (MBEDTLS_X509_BADCERT_OTHER codes)
  else objections inst (mg_flags given).
Definition enforced inst n (depth flags : Z) : mbedtls_notes * Z :=
  if negb (anchored inst) then
    let n := n <| ms_RefusedVerdict := Z.lor (ms_RefusedVerdict n) flags |> in
    (n, if (depth =? 0) && negb (ms_RefusedVerdict n =? 0) then MBEDTLS_ERR_X509_FATAL_ERROR codes else 0)
  else (n, 0).
Definition mbed_judged inst n (given : mbedtls_given) (made : SolidSyslogTlsHashAlgorithm -> bytes -> Prop) n' (r : mbedtls_answer) : Prop :=
  exists matches n1, ms_RefusedVerdict n1 = ms_RefusedVerdict n /\
    (matches = true -> mbed_pinned inst = true -> mg_depth given = 0 -> a_pin_matches inst made) /\
    let flags := flags_left inst matches given in
    n' = fst (enforced inst n1 (mg_depth given) flags) /\ r = mkMbedTlsAnswer (snd (enforced inst n1 (mg_depth given) flags)) flags.

Lemma Enforce_leads depth flags base cfg h ci inst p Hd n s (Q : Z -> stream -> seen -> Prop) :
  Q (snd (enforced inst n depth flags)) (mkTlsStream base cfg h ci inst p Hd (fst (enforced inst n depth flags))) s ->
  leads (MbedTlsStream_EnforceWhereTheLibraryWillNot codes depth flags) (mkTlsStream base cfg h ci inst p Hd n) s Q.
Proof using.
  unfold MbedTlsStream_EnforceWhereTheLibraryWillNot, mbedtls_set_notes, enforced, anchored. intros HQ. tleads_on. destruct (negb _); by tleads_on.
Qed.
Lemma MbedVerifyPeer_leads given base cfg h ci inst p Hd n lib tr cr up bu rs ws te :
  leads (MbedTlsStream_VerifyPeer codes scratch area given) (mkTlsStream base cfg h ci inst p Hd n) (mkTlsSeen lib tr cr up bu rs ws te)
    (fun r self' s' => exists n' digests, self' = mkTlsStream base cfg h ci inst p Hd n' /\
      s' = mkTlsSeen lib tr cr up bu rs ws (mkEvidence (te_Installed te) (te_Checks te) digests (te_Below te)) /\
      mbed_judged inst n given (mbed_digest_made (mg_crt given) digests) n' r).
Proof using OK fits scratch_bytes area_fits area_bytes.
  assert (Hdone : forall matches n1 digests flags, ms_RefusedVerdict n1 = ms_RefusedVerdict n ->
    (matches = true -> mbed_pinned inst = true -> mg_depth given = 0 -> a_pin_matches inst (mbed_digest_made (mg_crt given) digests)) -> flags = flags_left inst matches given ->
    leads (let! result := MbedTlsStream_EnforceWhereTheLibraryWillNot codes (mg_depth given) flags in st_ret (mkMbedTlsAnswer result flags))
      (mkTlsStream base cfg h ci inst p Hd n1) (mkTlsSeen lib tr cr up bu rs ws (mkEvidence (te_Installed te) (te_Checks te) digests (te_Below te)))
      (fun r self' s' => exists n' digests, self' = mkTlsStream base cfg h ci inst p Hd n' /\
        s' = mkTlsSeen lib tr cr up bu rs ws (mkEvidence (te_Installed te) (te_Checks te) digests (te_Below te)) /\ mbed_judged inst n given (mbed_digest_made (mg_crt given) digests) n' r)).
  { intros matches n1 digests flags Hn Hm ->. apply tleads_bind, Enforce_leads. tleads_on. do 2 eexists. split; [done |]. split; [done |]. by exists matches, n1. }
  unfold MbedTlsStream_VerifyPeer. apply tleads_bind, tleads_get, tleads_bind. cbn [tl_Installed].
  unfold flags_left, objections in Hdone. change (in_TrustAnchorsInstalled inst) with (anchored inst). change (0 <? in_FingerprintCount inst) with (mbed_pinned inst).
  destruct (mbed_pinned inst) eqn:Ep; cbn [andb] in Hdone.
  - destruct (Z.eqb_spec (mg_depth given) 0) as [E0 | E0]; cbn [andb] in Hdone.
    + apply tleads_bind, tleads_bind, MbedLeafMatchesAPin_leads. intros v more Hv. apply tleads_ret, tleads_ret.
      apply (Hdone (bool_decide (v = SOLIDSYSLOG_TLS_AUTHORISATION_MATCHED))); [done | intros Hm%bool_decide_eq_true _ _; by apply Hv |]. by destruct (bool_decide _).
    + apply tleads_bind, tleads_ret, tleads_ret. replace te with (mkEvidence (te_Installed te) (te_Checks te) (te_Digests te) (te_Below te)) at 1 by (by destruct te). by apply (Hdone true).
  - apply tleads_ret. replace te with (mkEvidence (te_Installed te) (te_Checks te) (te_Digests te) (te_Below te)) at 1 by (by destruct te). by apply (Hdone true).
Qed.

(** ** The ledger of objections *)

Definition result_of ck : Z := ma_result (ck_Answer ck).
Definition flags_of ck : Z := ma_flags (ck_Answer ck).
Definition depth_of ck : Z := mg_depth (ck_Given ck).
Record mbed_ledger inst n (checks : list check) : Prop := {
  mo_Refused : anchored inst = false -> ms_RefusedVerdict n = 0 -> Forall (fun ck => flags_of ck = 0) checks;
  mo_Flags : Forall (fun ck => flags_of ck = 0 -> objections inst (mg_flags (ck_Given ck)) = 0) checks;
  mo_Leaf : forall before ck, checks = before ++ [ck] -> depth_of ck = 0 -> result_of ck = 0 ->
    (anchored inst = false -> ms_RefusedVerdict n = 0) /\ (mbed_pinned inst = true -> flags_of ck = 0 -> mbed_leaf_pinned inst ck)
}.
Lemma mbed_ledger_start inst v : mbed_ledger inst (mkMbedTlsNotes 0 v) [].
Proof using. constructor; [constructor | constructor |]. intros before ck E0. by destruct before. Qed.
Lemma flags_left_none inst matches given : flags_left inst matches given = 0 ->
  objections inst (mg_flags given) = 0 /\ (mbed_pinned inst = true -> mg_depth given = 0 -> matches = true).
Proof using OK.
  pose proof (proj1 (ms_codes_are_set codes OK)) as Ho. unfold flags_left. destruct (mbed_pinned inst && (mg_depth given =? 0) && negb matches) eqn:Ec.
  - intros [? ?]%Z.lor_eq_0_iff. done.
  - intros E0. split; [done |]. intros Hp Hd. rewrite Hp, Hd in Ec. by destruct matches.
Qed.
Lemma mbed_ledger_judged inst n checks given r digests n' : mbed_ledger inst n checks ->
  mbed_judged inst n given (mbed_digest_made (mg_crt given) digests) n' r -> mbed_ledger inst n' (checks ++ [mkCheck given r digests]).
Proof using OK.
  intros [Hr Hf Hl] (matches & n1 & En & Hm & -> & ->). set (flags := flags_left inst matches given). unfold enforced. rewrite En.
  pose proof (flags_left_none inst matches given) as Hnone. fold flags in Hnone. pose proof (proj2 (ms_codes_are_set codes OK)) as Hfatal.
  constructor.
  - intros Ea. rewrite Ea. cbn [negb fst ms_RefusedVerdict set_field]. intros [E1 E2]%Z.lor_eq_0_iff. apply Forall_app. split; [auto | by constructor].
  - apply Forall_app. split; [exact Hf |]. constructor; [| done]. intros E0. by apply Hnone.
  - intros before ck Es. apply app_inj_tail in Es as [_ <-]. unfold depth_of, result_of, flags_of, mbed_leaf_pinned. cbn [ck_Given ck_Answer ck_Digests ma_result ma_flags]. intros Hd Hres. split.
    + intros Ea. rewrite Ea, Hd in *. cbn [negb fst snd ms_RefusedVerdict set_field Z.eqb andb] in *. destruct (Z.eqb_spec (Z.lor (ms_RefusedVerdict n) flags) 0); [done | by destruct Hfatal].
    + intros Hp E0. apply Hm; [by apply Hnone | done | done].
Qed.

(** ** The callbacks, and Close *)

Lemma mbedtls_callbacks : callbacks_ok K LP.
Proof using OK fits scratch_bytes area_fits area_bytes.
  constructor.
  - intros given base cfg h ci inst p Hd n lib tr cr up bu rs ws te. eapply tleads_mono; [apply MbedVerifyPeer_leads |].
    intros r self' s' (n' & digests & -> & -> & _). eauto.
  - intros handle buffer size self s Q HQ. cbn [tp_Receive mbedtls]. unfold MbedTlsStream_BioRecv, transport_read. tleads_on. apply tleads_any_env. intros [n m]. by tleads_on.
  - intros handle data size self s Q HQ. cbn [tp_Transmit mbedtls]. unfold MbedTlsStream_BioSend, transport_send. tleads_on. apply tleads_any_env. intros ok. by tleads_on.
Qed.

Definition mbedtls_idle (lib : mbedtls_held) (Hd : mbedtls_handles) : Prop := lib = mbedtls_fresh (Some (ms_SslConfig Hd)) (Some (ms_SslContext Hd)).
(** The structures that were initialised are the stream's. *)
Definition mbedtls_linked (lib : mbedtls_held) (Hd : mbedtls_handles) : Prop := ml_Config lib = Some (ms_SslConfig Hd) /\ ml_Context lib = Some (ms_SslContext Hd).
Definition mbedtls_live (lib : mbedtls_held) (Hd : mbedtls_handles) : Prop := mbedtls_linked lib Hd /\ ml_ContextUsed lib = true /\ ml_Bound lib = true /\ ml_Bio lib = true.
Lemma same_address (a b : Z) : a = b -> bool_decide (Some a = Some b) = true.
Proof using. intros ->. by apply bool_decide_eq_true. Qed.

Lemma MbedClose_leads base cfg h ci inst p Hd n lib tr up bu rs ws te : mbedtls_linked lib Hd ->
  leads (MbedTlsStream_Close codes scratch area) (mkTlsStream base cfg h ci inst p Hd n) (mkTlsSeen lib tr ci up bu rs ws te) (fun _ self' s' => is_down mbedtls_idle base cfg h rs ws self' s' /\ fell_below s' = te_Below te).
Proof using OK fits scratch_bytes area_fits area_bytes.
  intros [Ec Es]. unfold MbedTlsStream_Close, SslContext, SslConfig. tleads_on.
  eapply (perform_quietly K LP mbedtls_callbacks _ _ _ _ _ _ _ _ _ _ _ _ _ _ (fun _ => True)); [intros e; apply ends_anyhow | cbn; by rewrite Es, same_address |].
  intros r n' te' _ Hbelow. cbn [act_wires]. tleads_on. apply tleads_quiet. intros answer. eexists. split; [cbn; rewrite Es, same_address; reflexivity |].
  tleads_on. apply tleads_quiet. intros answer'. eexists. split; [cbn; rewrite Ec, same_address; reflexivity |].
  tleads_on. apply ReleaseCredentials_leads; [done |]. apply close_transport_leads; [done |]. split; [| exact Hbelow].
  do 7 eexists. split; [done |]. split; [done |]. unfold mbedtls_idle. cbn. by rewrite Es.
Qed.

(** ** The stages of an Open *)

Section opening.
Context (base : stream_vtable) (cfg : tls_wiring SolidSyslogMbedTlsProfile E) (h : SolidSyslogStreamOpenHealth) (rs : list SolidSyslogErrorEvent) (ws : list bytes).
Abbreviation stage := (tls_stage (C := mbedtls_call) (V := mbedtls_given) (R := mbedtls_answer) (H := mbedtls_handles) (N := mbedtls_notes) (P := SolidSyslogMbedTlsProfile) (L := mbedtls_held)).
Abbreviation climbing := (climbing K base cfg h rs ws).
Abbreviation falling := (falling K base cfg h rs ws mbedtls_linked).
Abbreviation rises m cr T cr' T' := (climbs K LP base cfg h rs ws mbedtls_linked m cr T cr' T').
Abbreviation as_linked := (fun lib Hd _ _ _ _ => mbedtls_linked lib Hd).

Definition unjudged (inst : SolidSyslogTlsCredentialsInstalled) n te : Prop := n = mkMbedTlsNotes 0 SOLIDSYSLOG_TLS_AUTHORISATION_NO_MATCH /\ te = no_evidence.
(** What may authorise the peer, and what its certificates were found to be. *)
Definition mbed_peer_noted inst n te : Prop := TlsStream_PeerIsAuthorisable inst = true /\ te_Installed te = inst /\ mbed_ledger inst n (te_Checks te).
(** A configuration with its defaults, and more. *)
Definition configured (G : SolidSyslogTlsCredentialsInstalled -> mbedtls_notes -> evidence -> Prop) (F : SolidSyslogTlsCredentialsInstalled -> mbedtls_held -> Prop) : stage := fun lib Hd p inst n te =>
  mbedtls_linked lib Hd /\ ml_Defaults lib = true /\ ml_ContextUsed lib = false /\ F inst lib /\ G inst n te.
Definition policed (_ : SolidSyslogTlsCredentialsInstalled) (lib : mbedtls_held) : Prop := ml_Floor lib = true /\ ml_Secure lib = true /\ ml_Rng lib = true.
(** With anchors mbedTLS itself refuses. *)
Definition required inst (lib : mbedtls_held) : Prop := is_Some (ml_Authmode lib) /\ (anchored inst = true -> ml_Authmode lib = Some (MBEDTLS_SSL_VERIFY_REQUIRED codes)).
Definition at_mbedtls_nothing : stage := fun lib Hd p inst n te => mbedtls_idle lib Hd /\ unjudged inst n te.
Definition context_set_up (lib : mbedtls_held) (Hd : mbedtls_handles) : Prop := mbedtls_linked lib Hd /\ ml_ContextUsed lib = true /\ ml_Bound lib = true.
Definition at_mbed_session : stage := fun lib Hd p inst n te => context_set_up lib Hd /\ required inst lib /\ mbed_peer_noted inst n te.
(** The name the profile gives is the one the peer is checked for, or none is. *)
Definition mbed_named (lib : mbedtls_held) (p : SolidSyslogMbedTlsProfile) : Prop :=
  ml_Name lib = Some (match mp_ServerName p with Some name => if name.[0] =? 0 then None else Some name | None => None end).
Definition at_mbed_name : stage := fun lib Hd p inst n te => at_mbed_session lib Hd p inst n te /\ mbed_named lib p.
Definition at_mbed_bio : stage := fun lib Hd p inst n te => at_mbed_name lib Hd p inst n te /\ ml_Bio lib = true.
(** The verdict was asked for, and names no check the peer failed. *)
Definition verdict_passes (lib : mbedtls_held) : Prop := exists verdict, ml_Verdict lib = Some verdict /\ MbedTlsStream_IsVerifyFailure verdict = false.
Definition at_mbed_peer : stage := fun lib Hd p inst n te => at_mbed_bio lib Hd p inst n te /\ verdict_passes lib.

Lemma configured_linked G F lib Hd p inst n te : configured G F lib Hd p inst n te -> mbedtls_linked lib Hd.
Proof using. by intros [? _]. Qed.
Lemma session_linked lib Hd p inst n te : at_mbed_session lib Hd p inst n te -> mbedtls_linked lib Hd.
Proof using. by intros [[? _] _]. Qed.
Lemma ApplySslConfigDefaults_rises : rises (MbedTlsStream_ApplySslConfigDefaults codes scratch area) false at_mbedtls_nothing false (configured unjudged (fun _ _ => True)).
Proof using.
  intros bu self s (inst & p & Hd & n & lib & warnings & te & -> & -> & Hw & (-> & Hu)). unfold MbedTlsStream_ApplySslConfigDefaults, SslConfig. tleads_on.
  apply tleads_call. intros rc. eexists. split; [cbn; rewrite same_address; reflexivity |].
  apply (reported_leads K LP base cfg h rs ws mbedtls_linked (configured unjudged (fun _ _ => True)) as_linked false bu (rc =? 0)); [by intros ? | done |].
  destruct (rc =? 0); do 7 eexists; (split; [done |]); (split; [done |]); (split; [exact Hw |]); split_and!; done.
Qed.
(** A setting on the configuration. *)
Lemma conf_quiet call (set : mbedtls_held -> mbedtls_held) conf G F F' cr bu self s (Q : unit -> stream -> seen -> Prop) :
  (forall l answer, mbedtls_step codes l call answer = if bool_decide (ml_Config l = Some conf) && ml_Defaults l then Some (set l) else None) ->
  (forall l, ml_Config (set l) = ml_Config l /\ ml_Context (set l) = ml_Context l /\ ml_Defaults (set l) = ml_Defaults l /\ ml_ContextUsed (set l) = ml_ContextUsed l) ->
  (forall inst lib, in_FingerprintCount inst = in_FingerprintCount (tl_Installed self) -> anchored inst = anchored (tl_Installed self) -> F inst lib -> F' inst (set lib)) ->
  ms_SslConfig (tl_Handles self) = conf -> climbing cr bu (configured G F) self s ->
  (forall s', climbing cr bu (configured G F') self s' -> Q tt self s') -> leads (tls_quiet call) self s Q.
Proof using.
  intros Hstep Hset Hf Ec (inst & p & Hd & n & lib & warnings & te & -> & -> & Hw & ((E1 & E2) & Hdef & Hused & HF & HG)) HQ. cbn [tl_Handles tl_Installed] in *.
  apply tleads_quiet. intros answer. exists (set lib). split; [change (mbedtls_step codes lib call answer = Some (set lib)); by rewrite Hstep, E1, Ec, same_address, Hdef |].
  apply HQ. destruct (Hset lib) as (S1 & S2 & S3 & S4). do 7 eexists. split; [done |]. split; [done |]. split; [done |].
  unfold configured, mbedtls_linked. rewrite S1, S2, S3, S4. split_and!; auto.
Qed.
Definition floored_conf (_ : SolidSyslogTlsCredentialsInstalled) (lib : mbedtls_held) : Prop := ml_Floor lib = true /\ ml_Secure lib = true.
Lemma ApplyTlsPolicy_leads bu self s (Q : unit -> stream -> seen -> Prop) : climbing false bu (configured unjudged (fun _ _ => True)) self s ->
  (forall s', climbing false bu (configured unjudged policed) self s' -> Q tt self s') -> leads (MbedTlsStream_ApplyTlsPolicy codes) self s Q.
Proof using.
  intros Hs HQ. unfold MbedTlsStream_ApplyTlsPolicy, SslConfig. set (conf := ms_SslConfig (tl_Handles self)).
  tleads_on. apply (conf_quiet _ (fun l => l <| ml_Floor := MBEDTLS_SSL_VERSION_TLS1_2 codes =? MBEDTLS_SSL_VERSION_TLS1_2 codes |>) conf unjudged (fun _ _ => True) (fun _ lib => ml_Floor lib = true) false bu _ s);
    [done | done | by intros; apply Z.eqb_refl | done | done |]. clear s Hs. intros s Hs.
  tleads_on. apply (conf_quiet _ (fun l => l <| ml_Secure := MBEDTLS_SSL_LEGACY_BREAK_HANDSHAKE codes =? MBEDTLS_SSL_LEGACY_BREAK_HANDSHAKE codes |>) conf unjudged (fun _ lib => ml_Floor lib = true) floored_conf false bu _ s);
    [done | done | by intros; split; [| apply Z.eqb_refl] | done | done |]. clear s Hs. intros s Hs.
  assert (Hrng : forall s, climbing false bu (configured unjudged floored_conf) self s -> leads (tls_quiet (mbedtls_ssl_conf_rng conf (wi_Library (tl_Config self)))) self s Q).
  { clear s Hs. intros s Hs. by apply (conf_quiet _ (fun l => l <| ml_Rng := true |>) conf unjudged floored_conf policed false bu _ s); [done | done | intros ? ? _ _ [? ?] | done | |]. }
  apply tleads_bind. destruct (MBEDTLS_DHM_C_AND_SSL_CLI_C codes); [| apply tleads_ret; by apply Hrng].
  by apply (conf_quiet _ (fun l => l) conf unjudged floored_conf floored_conf false bu _ s).
Qed.
Lemma ApplyCipherPolicy_leads bu self s (Q : unit -> stream -> seen -> Prop) : climbing false bu (configured unjudged policed) self s ->
  (forall s', climbing false bu (configured unjudged policed) self s' -> Q tt self s') -> leads MbedTlsStream_ApplyCipherPolicy self s Q.
Proof using.
  intros Hs HQ. unfold MbedTlsStream_ApplyCipherPolicy, SslConfig. tleads_on. destruct (mp_CipherSuites (tl_Profile self)); [| apply tleads_ret; by apply HQ].
  by apply (conf_quiet _ (fun l => l) (ms_SslConfig (tl_Handles self)) unjudged policed policed false bu _ s).
Qed.
Lemma ApplyCertProfilePolicy_leads bu self s (Q : unit -> stream -> seen -> Prop) : climbing false bu (configured unjudged policed) self s ->
  (forall s', climbing false bu (configured unjudged policed) self s' -> Q tt self s') -> leads MbedTlsStream_ApplyCertProfilePolicy self s Q.
Proof using.
  intros Hs HQ. unfold MbedTlsStream_ApplyCertProfilePolicy, SslConfig. tleads_on. destruct (mp_CertProfile (tl_Profile self)); [| apply tleads_ret; by apply HQ].
  by apply (conf_quiet _ (fun l => l) (ms_SslConfig (tl_Handles self)) unjudged policed policed false bu _ s).
Qed.

Lemma MbedInstallCredentials_rises : rises (MbedTlsStream_InstallCredentials codes scratch area) false (configured unjudged policed) true
  (configured mbed_peer_noted (fun inst lib => policed inst lib /\ required inst lib /\ ml_Verify lib = true)).
Proof using.
  intros bu self s (inst & p & Hd & n & lib & warnings & te & -> & -> & Hw & Ht). unfold MbedTlsStream_InstallCredentials, SslConfig. tleads_on.
  set (conf := ms_SslConfig Hd). set (T := fun lib (Hd : mbedtls_handles) p inst n te => configured unjudged policed lib Hd p inst n te /\ ms_SslConfig Hd = conf).
  eapply tleads_mono; [apply (InstallCredentials_climbs K LP base cfg h rs ws mbedtls_linked T conf) |].
  - intros lib' Hd' p' inst' n' te' [Hc _]. by eapply configured_linked.
  - intros lib' Hd' p' inst' n' te' [([E1 _] & Hdef & Hused & _) Ec]. cbn. by rewrite E1, Ec, same_address, Hdef, Hused.
  - do 7 eexists. split; [done |]. split; [done |]. by split.
  - clear. intros [] self s Hs; [| done].
    assert (Hs' : climbing true bu (configured mbed_peer_noted policed) self s).
    { eapply climbing_weaken; [| exact Hs]. intros lib1 Hd1 p1 inst1 n1 te1 (Ha & inst0 & te0 & ((Hl & Hdef & Hused & Hp & -> & ->) & Ec) & ->).
      unfold configured, mbed_peer_noted. split_and!; try done; try apply Hl; try apply Hp. apply mbed_ledger_start. }
    clear Hs. rename Hs' into Hs. unfold MbedTlsStream_ApplyPeerVerificationPolicy, SslConfig. tleads_on.
    set (mode := if in_TrustAnchorsInstalled _ then _ else _).
    apply (conf_quiet _ (fun l => l <| ml_Authmode := Some mode |>) (ms_SslConfig (tl_Handles self)) mbed_peer_noted policed (fun inst lib => policed inst lib /\ required inst lib) true bu _ s); [done | done | | done | done |].
    { intros inst lib _ Ha Hp. split; [done |]. split; [by eexists |]. rewrite Ha. unfold mode, anchored. by intros ->. }
    clear s Hs. intros s Hs. tleads_on. apply (conf_quiet _ (fun l => l <| ml_Verify := true |>) (ms_SslConfig (tl_Handles self)) mbed_peer_noted (fun inst lib => policed inst lib /\ required inst lib)
      (fun inst lib => policed inst lib /\ required inst lib /\ ml_Verify lib = true) true bu _ s); [done | done | by intros ? ? _ _ [? ?] | done | done |].
    clear s Hs. intros s Hs. by tleads_on.
Qed.
Lemma BindContextToConfig_rises : rises (MbedTlsStream_BindContextToConfig codes scratch area) true
  (configured mbed_peer_noted (fun inst lib => policed inst lib /\ required inst lib /\ ml_Verify lib = true)) true at_mbed_session.
Proof using.
  intros bu self s (inst & p & Hd & n & lib & warnings & te & -> & -> & Hw & ([E1 E2] & Hdef & Hused & ((P1 & P2 & P3) & [R1 R2] & Hv) & Hp)).
  unfold MbedTlsStream_BindContextToConfig, SslConfig, SslContext. tleads_on. apply tleads_call. intros rc. eexists.
  split; [cbn; rewrite E1, E2, !same_address, Hused, P1, P2, P3, Hv, Hdef, (bool_decide_eq_true_2 _ R1) by done; reflexivity |].
  apply (reported_leads K LP base cfg h rs ws mbedtls_linked at_mbed_session as_linked true bu (rc =? 0)); [by intros ? | done |].
  unfold at_mbed_session, context_set_up, mbedtls_linked, required. destruct Hw. destruct (rc =? 0) eqn:Erc; do 7 eexists; split_and!; try done; cbn; by rewrite ?Erc.
Qed.
(** A call on the context. *)
Lemma ssl_call_leads call (set : mbedtls_held -> Z -> mbedtls_held) T ssl bu self s (Q : Z -> stream -> seen -> Prop) :
  (forall l answer, mbedtls_step codes l call answer = if bool_decide (ml_Context l = Some ssl) && ml_Bound l then Some (set l answer) else None) ->
  (forall lib Hd p inst n te, T lib Hd p inst n te -> at_mbed_session lib Hd p inst n te) -> ms_SslContext (tl_Handles self) = ssl -> climbing true bu T self s ->
  (forall answer s', climbing true bu (fun lib' Hd p inst n te => exists lib, T lib Hd p inst n te /\ lib' = set lib answer /\ p = tl_Profile self) self s' -> Q answer self s') ->
  leads (tls_call call) self s Q.
Proof using.
  intros Hstep HT' <- (inst & p & Hd & n & lib & warnings & te & -> & -> & Hw & Ht) HQ. cbn [tl_Handles tl_Profile] in *. apply tleads_call. intros answer. exists (set lib answer).
  destruct (HT' _ _ _ _ _ _ Ht) as (([_ E2] & _ & Hb) & _). split; [change (mbedtls_step codes lib call answer = Some (set lib answer)); by rewrite Hstep, E2, same_address, Hb |].
  apply HQ. do 7 eexists. split; [done |]. split; [done |]. split; [done |]. by exists lib.
Qed.
Lemma name_set lib Hd p inst n te x : at_mbed_session lib Hd p inst n te -> ml_Name (lib <| ml_Name := x |>) = Some (match mp_ServerName p with Some name => if name.[0] =? 0 then None else Some name | None => None end) ->
  at_mbed_name (lib <| ml_Name := x |>) Hd p inst n te.
Proof using. intros Hs Hn. by split. Qed.
Lemma DeclareNoPeerName_leads bu self s (Q : unit -> stream -> seen -> Prop) : climbing true bu at_mbed_session self s ->
  (match mp_ServerName (tl_Profile self) with Some name => name.[0] = 0 | None => True end) ->
  (forall s', climbing true bu at_mbed_name self s' -> Q tt self s') -> leads MbedTlsStream_DeclareNoPeerName self s Q.
Proof using.
  intros Hs Hname HQ. unfold MbedTlsStream_DeclareNoPeerName, SslContext, tls_quiet. tleads_on.
  eapply (ssl_call_leads _ (fun l _ => l <| ml_Name := Some None |>) at_mbed_session); [done | done | done | exact Hs |]. clear s Hs. intros answer s Hs. tleads_on. apply HQ.
  eapply climbing_weaken; [| exact Hs]. intros lib' Hd p inst n te (lib & Ht & -> & ->). apply name_set; [done |]. cbn. destruct (mp_ServerName (tl_Profile self)); [by rewrite Hname | done].
Qed.
Lemma MbedConfigureExpectedHostname_rises : rises (MbedTlsStream_ConfigureExpectedHostname codes scratch area) true at_mbed_session true at_mbed_name.
Proof using.
  intros bu self s Hs. unfold MbedTlsStream_ConfigureExpectedHostname. tleads_on. destruct (mp_ServerName (tl_Profile self)) as [name |] eqn:Ename.
  - destruct (MbedTlsStream_NameBeginsWithADot name).
    { apply (reported_leads K LP base cfg h rs ws mbedtls_linked at_mbed_name at_mbed_session true bu false); [exact session_linked | done | exact Hs]. }
    destruct (Z.eqb_spec (name.[0]) 0) as [E0 | E0]; cbn [negb].
    { tleads_on. eapply DeclareNoPeerName_leads; [exact Hs | by rewrite Ename |]. clear s Hs. intros s Hs. by tleads_on. }
    apply tleads_bind. eapply (ssl_call_leads _ (fun l answer => l <| ml_Name := if answer =? 0 then Some (Some name) else None |>) at_mbed_session); [done | done | done | exact Hs |].
    clear s Hs. intros rc s Hs. apply (reported_leads K LP base cfg h rs ws mbedtls_linked at_mbed_name as_linked true bu (rc =? 0)); [by intros ? | done |].
    eapply climbing_weaken; [| exact Hs]. intros lib' Hd p inst n te (lib & Ht & -> & ->). destruct (rc =? 0); [| by eapply session_linked in Ht].
    apply name_set; [done |]. cbn. by rewrite Ename, (proj2 (Z.eqb_neq _ _) E0).
  - tleads_on. eapply DeclareNoPeerName_leads; [exact Hs | by rewrite Ename |]. clear s Hs. intros s Hs. tleads_on.
    destruct (in_FingerprintCount _ =? 0); tleads_on; [| done]. destruct Hs as (inst & p & Hd & n & lib & warnings & te & -> & -> & Hw & Ht).
    apply TlsReport_leads. tleads_on. rewrite <- app_assoc. do 7 eexists. split; [done |]. split; [done |]. split; [| done]. by apply (warned_again K).
Qed.

Lemma InstallTransportCallbacks_leads bu self s (Q : unit -> stream -> seen -> Prop) : climbing true bu at_mbed_name self s ->
  (forall s', climbing true bu at_mbed_bio self s' -> Q tt self s') -> leads MbedTlsStream_InstallTransportCallbacks self s Q.
Proof using.
  intros Hs HQ. unfold MbedTlsStream_InstallTransportCallbacks, SslContext, tls_quiet. tleads_on.
  eapply (ssl_call_leads _ (fun l _ => l <| ml_Bio := true |>) at_mbed_name); [done | by intros ? ? ? ? ? ? [? _] | done | exact Hs |]. clear s Hs. intros answer s Hs. tleads_on. apply HQ.
  eapply climbing_weaken; [| exact Hs]. by intros lib' Hd p inst n te (lib & [Ht Hn] & -> & _).
Qed.
(** The verdict of mbedTLS, which changes nothing else. *)
Lemma verify_result_leads bu self s (Q : Z -> stream -> seen -> Prop) : climbing true bu at_mbed_bio self s ->
  (forall answer s', climbing true bu (fun lib Hd p inst n te => at_mbed_bio lib Hd p inst n te /\ ml_Verdict lib = Some answer) self s' -> Q answer self s') ->
  leads (tls_call (mbedtls_ssl_get_verify_result (ms_SslContext (tl_Handles self)))) self s Q.
Proof using.
  intros Hs HQ. eapply (ssl_call_leads _ (fun l answer => l <| ml_Verdict := Some answer |>) at_mbed_bio); [done | by intros ? ? ? ? ? ? [[? _] _] | done | exact Hs |].
  clear s Hs. intros answer s Hs. apply HQ. eapply climbing_weaken; [| exact Hs]. by intros lib' Hd p inst n te (lib & Ht & -> & _).
Qed.
Lemma MbedRefusalDetail_leads bu self s (Q : Z -> stream -> seen -> Prop) : climbing true bu at_mbed_bio self s ->
  (forall detail s', climbing true bu at_mbed_bio self s' -> Q detail self s') -> leads (MbedTlsStream_RefusalDetail codes) self s Q.
Proof using.
  intros Hs HQ. unfold MbedTlsStream_RefusalDetail, SslContext. tleads_on. destruct (ms_RefusedVerdict _ =? 0); tleads_on; [| by apply HQ].
  apply (verify_result_leads _ _ _ _ Hs). clear s Hs. intros answer s Hs. tleads_on. apply HQ. eapply climbing_weaken; [| exact Hs]. by intros ? ? ? ? ? ? [? _].
Qed.
Lemma mbed_handshake_judging h' inst p Hd lib tr cr up bu rs' ws' : judging_keeps K LP base cfg h' cr inst p Hd lib tr cr up bu rs' ws'
  (fun n te => te_Installed te = inst /\ mbed_ledger inst n (te_Checks te)).
Proof using OK fits scratch_bytes area_fits area_bytes.
  intros check n te [Hi Hl]. eapply tleads_mono; [apply MbedVerifyPeer_leads |]. intros r self' s' (n' & digests & -> & -> & Hj). exists n', digests. split; [done |]. split; [done |].
  split; [done |]. cbn [te_Checks]. by eapply mbed_ledger_judged.
Qed.
Lemma mbed_bio_linked lib Hd p inst n te : at_mbed_bio lib Hd p inst n te -> mbedtls_linked lib Hd.
Proof using. by intros [[Hs _] _]; eapply session_linked. Qed.
Lemma MbedTurn_leads bu self s : climbing true bu at_mbed_bio self s -> leads (MbedTlsStream_Turn codes scratch area) self s (fun turn self' s' =>
  match turn with HandshakeOver true => climbing true bu at_mbed_bio self' s' | HandshakeOver false => falling self' s' | _ => climbing true bu at_mbed_bio self' s' end).
Proof using OK fits scratch_bytes area_fits area_bytes.
  intros (inst & p & Hd & n & lib & warnings & te & -> & -> & Hw & (((([E1 E2] & Hu & Hb) & Hr & (Hpa & Hpi & Hpl)) & Hn) & Hbio)). unfold MbedTlsStream_Turn, session. tleads_on.
  eapply tleads_mono; [apply (perform_leads K LP mbedtls_callbacks) with (J := fun n te => te_Installed te = inst /\ mbed_ledger inst n (te_Checks te)) (F := fun _ => True) |].
  - apply mbed_handshake_judging.
  - done.
  - intros e. apply ends_anyhow.
  - cbn. rewrite E2, same_address, Hb, Hbio, Hn by done. done.
  - intros r self' s' (n' & te' & -> & -> & Hbelow & [Hi Hl] & _).
    match goal with |- leads _ ?self' ?s' _ => assert (Hs' : climbing true bu at_mbed_bio self' s') end.
    { do 7 eexists. split; [done |]. split; [done |]. split; [by rewrite Hbelow |]. unfold at_mbed_bio, at_mbed_name, at_mbed_session, context_set_up, mbedtls_linked, mbed_peer_noted. split_and!; done || apply Hr. }
    tleads_on. destruct (fst r =? 0); tleads_on; [done |]. destruct (negb _); tleads_on; [| done].
    apply (MbedRefusalDetail_leads _ _ _ _ Hs'). intros detail s1 Hs1. by tleads_on.
Qed.
Lemma PeerPassedVerification_rises : rises (MbedTlsStream_PeerPassedVerification codes scratch area) true at_mbed_bio true at_mbed_peer.
Proof using.
  intros bu self s Hs. unfold MbedTlsStream_PeerPassedVerification, SslContext. tleads_on. apply (verify_result_leads _ _ _ _ Hs). clear s Hs. intros verdict s Hs.
  destruct (MbedTlsStream_IsVerifyFailure verdict) eqn:Ev; cbn [negb]; tleads_on.
  2: { eapply climbing_weaken; [| exact Hs]. intros lib Hd p inst n te [Ht Hv]. split; [exact Ht | by exists verdict]. }
  assert (Hs' : climbing true bu at_mbed_bio self s) by (eapply climbing_weaken; [| exact Hs]; by intros ? ? ? ? ? ? [? _]).
  apply (MbedRefusalDetail_leads _ _ _ _ Hs'). clear s Hs Hs'. intros detail s Hs.
  apply (reported_leads K LP base cfg h rs ws mbedtls_linked at_mbed_peer at_mbed_bio true bu false); [exact mbed_bio_linked | done | exact Hs].
Qed.
Lemma MbedPrepare_rises : rises (MbedTlsStream_InstallCredentials codes scratch area &&! MbedTlsStream_BindContextToConfig codes scratch area &&! MbedTlsStream_ConfigureExpectedHostname codes scratch area)
  false (configured unjudged policed) true at_mbed_name.
Proof using.
  eapply climbs_and; [apply MbedInstallCredentials_rises |]. eapply climbs_and; [apply BindContextToConfig_rises | apply MbedConfigureExpectedHostname_rises].
Qed.
(** An Open up to the session, on which the peer is what the stage says; or down again. *)
Lemma MbedEstablish_leads addr self s : is_down mbedtls_idle base cfg h rs ws self s ->
  leads (MbedTlsStream_Establish codes scratch area addr) self s (fun b self' s' => if b : bool
    then exists bu, climbing true bu at_mbed_peer self' s'
    else exists faults h1, failed K (fell_below s') h faults h1 /\ is_down mbedtls_idle base cfg h1 (rs ++ faults) ws self' s').
Proof using OK fits scratch_bytes area_fits area_bytes.
  intros (inst & p & Hd & n & lib & bu & te & -> & -> & Hi). unfold MbedTlsStream_Establish, MbedTlsStream_PullProfile, TlsStream_PullProfile, mbedtls_set_notes.
  tleads_on. apply tleads_any_env. intros profile. tleads_on.
  set (Q := fun (b : bool) self' s' => if b then exists bu, climbing true bu at_mbed_peer self' s'
    else exists faults h1, failed K (fell_below s') h faults h1 /\ is_down mbedtls_idle base cfg h1 (rs ++ faults) ws self' s').
  assert (Hfall : forall self s, falling self s -> leads (if! negb false then MbedTlsStream_Close codes scratch area end! ;;; st_ret false) self s Q).
  { intros self s (cr & h1 & inst1 & p1 & Hd1 & n1 & lib1 & tr & bu1 & faults & te1 & -> & -> & Hf & Hl). cbn [negb]. apply tleads_bind. eapply tleads_mono; [by apply MbedClose_leads |].
    intros [] self' s' [Hd' Hbelow]. apply tleads_ret. exists faults, h1. by rewrite Hbelow. }
  rewrite Hi. eapply tleads_mono; [apply (open_transport_leads K LP base cfg h rs ws mbedtls_linked); [done | by split] |].
  intros [] self s Hs; [| do 2 (apply tleads_bind, tleads_ret); by apply Hfall]. eapply tleads_mono; [eapply ApplySslConfigDefaults_rises |].
  { eapply climbing_weaken; [| exact Hs]. by intros lib' Hd' p' inst' n' te' (-> & -> & _ & _ & -> & ->). }
  clear self s Hs. intros [] self s Hs; [| do 2 (apply tleads_bind, tleads_ret); by apply Hfall]. apply tleads_bind, tleads_bind.
  apply (ApplyTlsPolicy_leads _ _ _ _ Hs). clear s Hs. intros s Hs. apply tleads_bind, (ApplyCipherPolicy_leads _ _ _ _ Hs). clear s Hs. intros s Hs.
  apply tleads_bind, (ApplyCertProfilePolicy_leads _ _ _ _ Hs). clear s Hs. intros s Hs.
  eapply tleads_mono; [eapply MbedPrepare_rises; exact Hs |].
  clear self s Hs. intros [] self s Hs; [| apply tleads_bind, tleads_ret; by apply Hfall]. apply tleads_bind, tleads_bind.
  apply (InstallTransportCallbacks_leads _ _ _ _ Hs). clear s Hs. intros s Hs. apply tleads_and.
  eapply tleads_mono; [apply (PerformHandshake_leads K LP base cfg h rs ws mbedtls_linked at_mbed_bio at_mbed_bio (MbedTlsStream_Turn codes scratch area) mbed_bio_linked MbedTurn_leads bu _ _ Hs) |].
  clear self s Hs. intros [] self s Hs; [| by apply Hfall]. destruct Hs as [bu' Hs]. eapply tleads_mono; [eapply PeerPassedVerification_rises; exact Hs |].
  clear self s Hs. intros [] self s Hs; [| by apply Hfall]. cbn [negb]. tleads_on. by exists bu'.
Qed.
End opening.

(** ** The pack *)

Lemma mbedtls_pack_ok : pack_ok K LP MbedTlsStream_IsOpen (MbedTlsStream_Establish codes scratch area) (MbedTlsStream_NothingYet codes)
  (MbedTlsStream_Close codes scratch area) mbedtls_idle mbedtls_live mbedtls_linked.
Proof using OK fits scratch_bytes area_fits area_bytes.
  constructor.
  - apply mbedtls_callbacks.
  - by intros lib Hd ->.
  - intros lib Hd ([E1 E2] & Hu & Hb & Hbio). cbn. rewrite E2, same_address, Hu, Hb, Hbio, andb_false_r by done. by split_and!.
  - done.
  - done.
  - intros size Hsize. cbn. lia.
  - intros. by apply (ms_read_answers codes OK).
  - intros rc base cfg h inst p Hd n lib bu rs ws te Q _ HQ. unfold MbedTlsStream_NothingYet. by tleads_on.
  - intros. by apply MbedClose_leads.
  - intros addr base cfg h rs ws self s Hs. eapply tleads_mono; [by apply MbedEstablish_leads |]. intros [] self' s'; [| done]. intros [bu Hc]. exists bu.
    eapply climbing_weaken; [| exact Hc]. by intros lib Hd p inst n te [[[[(? & ? & ?) _] _] ?] _].
Qed.
Lemma mbedtls_initialises : initialises (V := mbedtls_given) (R := mbedtls_answer) (N := mbedtls_notes) (P := SolidSyslogMbedTlsProfile) (E := E) LP mbedtls_idle SolidSyslogMbedTlsStream_Initialise.
Proof using.
  intros config slot. unfold SolidSyslogMbedTlsStream_Initialise, TlsStream_Initialise, SslConfig, SslContext, nothing_done. destruct slot as [base cfg h ci inst p Hd n]. tleads_on.
  apply tleads_quiet. intros answer. eexists. split; [reflexivity |]. tleads_on. apply tleads_quiet. intros answer'. eexists. split; [reflexivity |].
  do 7 eexists. split; [reflexivity |]. by split_and!.
Qed.

(** What the handshake's walk over the peer's chain must have been: no certificate was
    refused, the leaf was the last, and under anchors, where the refusing is mbedTLS's, the
    verdict it kept holds every flag that was left of any. *)
Record mbed_chain_walked inst (verdict : option Z) (checks : list check) : Prop := {
  mw_Passed : Forall (fun ck => result_of ck = 0) checks;
  mw_Leaf : exists before leaf, checks = before ++ [leaf] /\ depth_of leaf = 0;
  mw_Verdict : forall v, anchored inst = true -> verdict = Some v -> v <> 0xFFFFFFFF /\ Forall (fun ck => Z.land (flags_of ck) (Z.lnot v) = 0) checks
}.
Record mbed_vouched inst (checks : list check) : Prop := {
  mv_Chain : Forall (fun ck => objections inst (mg_flags (ck_Given ck)) = 0) checks;
  mv_Pin : mbed_pinned inst = true -> exists before leaf, checks = before ++ [leaf] /\ mbed_leaf_pinned inst leaf
}.
Lemma mbed_ledger_vouches inst n lib checks : mbed_ledger inst n checks -> verdict_passes lib -> mbed_chain_walked inst (ml_Verdict lib) checks -> mbed_vouched inst checks.
Proof using.
  intros [Hr Hf Hl] (v & Ev & Hv) [Hall (before & leaf & -> & Hd) Hkept].
  assert (Hv0 : result_of leaf = 0) by (apply Forall_app in Hall as [_ Hall]; by inversion Hall).
  destruct (Hl _ _ eq_refl Hd Hv0) as [Href Hpin].
  assert (Hzero : Forall (fun ck => flags_of ck = 0) (before ++ [leaf])).
  { destruct (anchored inst); [| auto]. destruct (Hkept v eq_refl Ev) as [Hne Hflags].
    assert (v = 0) as -> by (unfold MbedTlsStream_IsVerifyFailure in Hv; destruct (Z.eqb_spec v 0), (Z.eqb_spec v 0xFFFFFFFF); done).
    rewrite Forall_forall in *. intros ck Hin. specialize (Hflags ck Hin). by rewrite Z.land_m1_r in Hflags. }
  constructor.
  - rewrite Forall_forall in *. auto.
  - intros Hpinned. exists before, leaf. split; [done |]. apply Hpin; [done |]. apply Forall_app in Hzero as [_ Hzero]. by inversion Hzero.
Qed.
(** The session an Open made, as it is seen. *)
Record mbed_session_vouched self s : Prop := {
  ms_Up : tn_Up s = true;
  ms_InstalledOne : anchored (te_Installed (tn_Evidence s)) = true \/ mbed_pinned (te_Installed (tn_Evidence s)) = true;
  ms_Named : mbed_named (tn_Library s) (tl_Profile self);
  ms_Required : required (te_Installed (tn_Evidence s)) (tn_Library s);
  ms_Verdict : verdict_passes (tn_Library s);
  ms_Vouched : mbed_chain_walked (te_Installed (tn_Evidence s)) (ml_Verdict (tn_Library s)) (te_Checks (tn_Evidence s)) -> mbed_vouched (te_Installed (tn_Evidence s)) (te_Checks (tn_Evidence s))
}.
Lemma MbedOpen_vouches addr self s : tls_agrees mbedtls_idle mbedtls_live self s ->
  leads (MbedTlsStream_Open codes scratch area addr) self s (fun b self' s' => b = true -> mbed_session_vouched self' s').
Proof using OK fits scratch_bytes area_fits area_bytes.
  intros (base & cfg & h & rs & [(before & conn & (inst & p & Hd & n & lib & bu & te & -> & -> & Hl)) | (ws & Hs)]); unfold MbedTlsStream_Open, TlsStream_Open.
  - tleads_on. rewrite (pk_open_up _ _ _ _ _ _ _ _ _ mbedtls_pack_ok _ _ _ _ _ _ _ _ Hl). tleads_on. apply TlsReport_leads. by tleads_on.
  - pose proof Hs as (inst & p & Hd & n & lib & bu & te & -> & -> & Hi). tleads_on. rewrite (pk_open_down _ _ _ _ _ _ _ _ _ mbedtls_pack_ok _ _ _ _ _ _ _ _ Hi). tleads_on.
    eapply tleads_mono; [by apply MbedEstablish_leads |]. clear Hs Hi. intros [] self s; [| by intros; tleads_on].
    intros (bu1 & inst1 & p1 & Hd1 & n1 & lib1 & warnings & te1 & -> & -> & Hw & ((((([E1 E2] & Hu & Hb) & Hr & (Hp & <- & Hlg)) & Hn) & Hbio) & Hv)). tleads_on.
    eapply tleads_happens; [cbn; rewrite Hu, andb_false_r; reflexivity |]. tleads_on. intros _. constructor; [done | by apply orb_prop in Hp | exact Hn | exact Hr | exact Hv |].
    cbn. by eapply mbed_ledger_vouches.
Qed.

(** C10. A peer the mbedTLS stream accepts is vouched for.  Open answers true only with a
    session made under trust anchors, and then mbedTLS was told to refuse, or under pins;
    checked for the name the profile gives; and with a verdict asked of mbedTLS after the
    handshake that names no check the peer failed.  What its certificates were found to be
    is stated for a walk over the chain that mbedTLS made in this Open and let pass: if
    the verify callback refused no certificate, the leaf being the last, and under anchors
    the verdict holds every flag the callback left, then every certificate had no flag at all, or,
    under pins that stand alone, none but for the chain's trust; and under pins the leaf's
    digest is one of them.  (That it walks so, and keeps the flags, when it verifies peers
    is the library's part; where it did not, nothing is said of the chain.) *)
Theorem MbedTlsStream_Open_vouches addr w : tls_ok LP mbedtls_idle mbedtls_live w -> fst (MbedTlsStream_Open codes scratch area addr w) = true ->
  let w' := snd (MbedTlsStream_Open codes scratch area addr w) in
  exists s, tls_observed LP (tv_Trace w') = Some s /\ mbed_session_vouched (tv_Self w') s.
Proof using OK fits scratch_bytes area_fits area_bytes.
  intros (_ & s & Hs & Ha) Hok. destruct (MbedOpen_vouches addr _ _ Ha w) as (self' & s' & [<- Hs'] & Hv); [by split |]. exists s'. split; [exact Hs' | by apply Hv].
Qed.
End pack.

(** * A small mbedTLS *)

Definition mbedtls_3_codes : mbedtls_codes :=
  mkMbedTlsCodes (-0x6900) (-0x6880) (-0x7F00) (-0x2880) (-0x3F80) (-0x3000) 0 0 0 0x0303 2 2 1 0x01 0x04 0x08 0x40 0x100 0x200 true.
(** A peer whose chain ends in nothing trusted, and whose leaf has the sample's digest. *)
#[export] Instance small_mbedtls : TlsLibrary mbedtls_call mbedtls_given mbedtls_answer small_tls := {
  tls_do := fun c => st_ret match c with mbedtls_md_info_from_type _ => 1 | mbedtls_md_get_size _ => 32 | _ => 0 end;
  tls_hash := fun _ => st_ret (0, 0, sample_digest);
  tls_run := fun act e => match act with
    | Handshake _ => Judges (mkMbedTlsGiven 90 1 0x08) e (fun _ e => Judges (mkMbedTlsGiven 91 0 0) e (fun r e => Ends (ma_result r) [] e))
    | ReadFrom _ buffer size => Ends (-0x6900) buffer e
    | WriteTo _ data size => Transmits 4 data size e (fun rc e => Ends rc data e)
    | Shutdown _ => Ends 0 [] e
    end
}.
Definition mbedtls_area : bytes := repeat 0xAA 32.
Lemma small_mbedtls_ok : mbedtls_ok mbedtls_3_codes.
Proof.
  constructor.
  - intros ssl buffer size e. cbn. lia.
  - intros algorithm leaf e. cbn. split; [by vm_compute |]. split; [| by vm_compute]. repeat constructor; unfold is_byte; lia.
  - done.
Qed.
Definition mbedtls_start : tls_world mbedtls_call mbedtls_given mbedtls_answer mbedtls_handles mbedtls_notes SolidSyslogMbedTlsProfile small_tls :=
  snd (SolidSyslogMbedTlsStream_Initialise small_config (mkTlsWorld (mkTlsStream NullStreamVtable (copy_config small_config) (mkStreamOpenHealth true 7) true (mkInstalled true None 0)
    (mkMbedTlsProfile None None None) (mkMbedTlsHandles 500 600) (mkMbedTlsNotes 1 SOLIDSYSLOG_TLS_AUTHORISATION_MATCHED)) a_small_tls [])).
Abbreviation mbedtls_opened := (MbedTlsStream_Open mbedtls_3_codes sample_area mbedtls_area 1 mbedtls_start).
Lemma MbedTlsStream_Open_vouches_witness :
  fst mbedtls_opened = true /\
  exists s, tls_observed (mbedtls_protocol mbedtls_3_codes) (tv_Trace (snd mbedtls_opened)) = Some s /\
    map (fun ck => (mg_flags (ck_Given ck), ma_flags (ck_Answer ck))) (te_Checks (tn_Evidence s)) = [(8, 0); (0, 0)] /\
    ml_Verdict (tn_Library s) = Some 0 /\ mbed_vouched mbedtls_3_codes (te_Installed (tn_Evidence s)) (te_Checks (tn_Evidence s)).
Proof.
  split; [by vm_compute |].
  assert (Hbytes : all_bytes (fp_Digest sample_area) /\ all_bytes mbedtls_area) by (split; repeat constructor; unfold is_byte; lia).
  destruct (MbedTlsStream_Open_vouches mbedtls_3_codes sample_area mbedtls_area small_mbedtls_ok eq_refl (proj1 Hbytes) eq_refl (proj2 Hbytes) 1 mbedtls_start) as (s & Hs & [_ _ _ _ _ Hv]).
  - apply (initialised_ok (mbedtls_protocol mbedtls_3_codes) mbedtls_idle mbedtls_live), mbedtls_initialises.
  - by vm_compute.
  - exists s. split; [exact Hs |]. revert Hs Hv. vm_compute (tls_observed _ _). intros [= <-] Hv.
    split; [done |]. split; [done |]. apply Hv. constructor; [by repeat constructor | eexists [_], _; split; [reflexivity | done] |].
    by intros v Ha.
Defined.
