(* ===== verification/WolfSslStream.v ===== *)
(** The wolfSSL stream ([src/Platform/WolfSsl/Source/SolidSyslogWolfSslStream*.c]) over
    what [TlsStreams] gives: the context and the session it builds and frees, the verify
    callback that waives a missing signer for a pinned leaf and records what failed, the
    three builds that differ in where a pin beside anchors is checked, the transport
    callbacks, and the handshake.  It is proved to be a pack, and a peer it accepts to be
    one the installed anchors and pins authorise. *)
From S2P Require Import Prelude Errors PendingEvents Interfaces TlsFingerprint Transport StreamContract TcpStreams TlsStreams.

(** * The library *)

(** The constants of wolfSSL's headers. *)
Record wolfssl_codes := mkWolfSslCodes {
  WOLFSSL_SUCCESS : Z;
  WOLFSSL_TLSV1_2 : Z;
  WOLFSSL_VERIFY_PEER : Z;
  WOLFSSL_VERIFY_FAIL_IF_NO_PEER_CERT : Z;
  WOLFSSL_SNI_HOST_NAME : Z;
  WOLFSSL_ERROR_WANT_READ : Z;
  WOLFSSL_ERROR_WANT_WRITE : Z;
  WOLFSSL_CBIO_ERR_GENERAL : Z;
  WOLFSSL_CBIO_ERR_WANT_READ : Z;
  MEMORY_E : Z;
  ASN_NO_SIGNER_E : Z;
  ASN_AFTER_DATE_E : Z;
  ASN_BEFORE_DATE_E : Z;
  DOMAIN_NAME_MISMATCH : Z;
  IPADDR_MISMATCH : Z
}.
Definition WOLFSSL_STREAM_MIN_RSA_KEY_BITS : Z := 2048.
Definition WOLFSSL_STREAM_MIN_ECC_KEY_BITS : Z := 224.
Definition WOLFSSL_STREAM_MIN_DH_KEY_BITS : Z := 2048.
Definition WOLFSSL_STREAM_CHECK_CHAIN_TRUST : Z := 1.
Definition WOLFSSL_STREAM_CHECK_NAME : Z := 2.
Definition WOLFSSL_STREAM_CHECK_NOT_AFTER : Z := 4.
Definition WOLFSSL_STREAM_CHECK_NOT_BEFORE : Z := 8.
Definition WOLFSSL_STREAM_CHECK_FINGERPRINT : Z := 16.
Definition WOLFSSL_STREAM_CHECK_FINGERPRINT_DIGEST : Z := 32.

Inductive wc_HashType := WC_HASH_TYPE_SHA | WC_HASH_TYPE_SHA256.
(** A certificate in its encoding: where it is, NULL being 0, and how long it is. *)
Record WOLFSSL_BUFFER_INFO := mkBufferInfo { bi_buffer : Z; bi_length : Z }.
(** The quiet calls.  The callbacks given to some are this file's.  The length
    [wolfSSL_X509_get_der] writes is a call of its own; a parse, like a digest, is of a
    certificate, and answers an error and makes no bytes. *)
Inductive wolfssl_call :=
| wolfTLS_client_method_ex (heap : Z)
| wolfSSL_CTX_new_ex (method heap : Z)
| wolfSSL_CTX_free (ctx : Z)
| wolfSSL_new (ctx : Z)
| wolfSSL_SetMinVersion (ssl version : Z)
| wolfSSL_SetMinRsaKey_Sz (ssl bits : Z)
| wolfSSL_SetMinEccKey_Sz (ssl bits : Z)
| wolfSSL_SetMinDhKey_Sz (ssl bits : Z)
| wolfSSL_set_cipher_list (ssl : Z) (list : bytes)
| wolfSSL_check_domain_name (ssl : Z) (name : bytes)
| wolfSSL_check_ip_address (ssl : Z) (name : bytes)
| wolfSSL_UseSNI (ssl type : Z) (name : bytes) (length : Z)
| wolfSSL_SSLSetIORecv (ssl : Z)
| wolfSSL_SSLSetIOSend (ssl : Z)
| wolfSSL_SetIOReadCtx (ssl : Z)
| wolfSSL_SetIOWriteCtx (ssl : Z)
| wolfSSL_set_verify (ssl mode : Z)
| wolfSSL_SetCertCbCtx (ssl : Z)
| wolfSSL_get_error (ssl rc : Z)
| wolfSSL_free (ssl : Z)
| wolfSSL_get_peer_certificate (ssl : Z)
| wolfSSL_X509_get_der (x509 : Z)
| wolfSSL_X509_get_der_length (x509 : Z)
| wolfSSL_X509_free (x509 : Z)
| wc_HashGetDigestSize (type : wc_HashType)
| wc_Hash_ex (type : wc_HashType) (certificate : WOLFSSL_BUFFER_INFO) (heap : Z)
| wc_InitDecodedCert (certificate : WOLFSSL_BUFFER_INFO) (heap : Z)
| wc_ParseCert (certificate : WOLFSSL_BUFFER_INFO)
| wc_FreeDecodedCert.

(** The verify callback is given what the library found and the chain the peer presented,
    leaf first, and answers its verdict. *)
Record WOLFSSL_X509_STORE_CTX := mkWolfStore { ws_error : Z; ws_error_depth : Z; ws_certs : list WOLFSSL_BUFFER_INFO }.
Definition wolfssl_given : Type := Z * WOLFSSL_X509_STORE_CTX.
Definition wolfssl_answer : Type := Z.
Definition store_cert (store : WOLFSSL_X509_STORE_CTX) (i : Z) : WOLFSSL_BUFFER_INFO := nth (Z.to_nat i) (ws_certs store) (mkBufferInfo 0 0).

(** * The stream *)

Record wolfssl_handles := mkWolfSslHandles { wf_Context : Z; wf_Session : Z }.
#[export] Instance settable_wolfssl_handles : Settable wolfssl_handles := fun h => mkWolfSslHandles (wf_Context h) (wf_Session h).
Record wolfssl_notes := mkWolfSslNotes { wf_RefusedChecks : Z; wf_PeerPinned : bool }.
#[export] Instance settable_wolfssl_notes : Settable wolfssl_notes := fun n => mkWolfSslNotes (wf_RefusedChecks n) (wf_PeerPinned n).
Record SolidSyslogWolfSslProfile := mkWolfSslProfile { wp_ServerName : option bytes; wp_CipherList : option bytes }.
Inductive SolidSyslogWolfSslAnchoredPinCheck :=
| SOLIDSYSLOG_WOLFSSL_PIN_BESIDE_ANCHORS_IN_CALLBACK
| SOLIDSYSLOG_WOLFSSL_PIN_BESIDE_ANCHORS_AFTER_HANDSHAKE
| SOLIDSYSLOG_WOLFSSL_PIN_BESIDE_ANCHORS_REFUSED.
#[export] Instance pin_check_dec : EqDecision SolidSyslogWolfSslAnchoredPinCheck.
Proof. solve_decision. Defined.
(** The leaf, and the heap its digest is made on. *)
Record WolfSslStreamPeerCertificate := mkPeerCertificate { pc_Certificate : WOLFSSL_BUFFER_INFO; pc_Heap : Z }.

Section wolfssl.
(** [build] is the body the build selects. *)
Context {E : Type} `{ErrorTap E} `{TlsLibrary wolfssl_call wolfssl_given wolfssl_answer E} (codes : wolfssl_codes) (build : SolidSyslogWolfSslAnchoredPinCheck).
(** The stack a pin, and a digest, is read into. *)
Context (scratch : SolidSyslogTlsFingerprint) (area : bytes).
Abbreviation op := (tls_op wolfssl_call wolfssl_given wolfssl_answer wolfssl_handles wolfssl_notes SolidSyslogWolfSslProfile E).
Abbreviation stream := (tls_stream wolfssl_handles wolfssl_notes SolidSyslogWolfSslProfile E).

Definition wolf_set_handles (f : wolfssl_handles -> wolfssl_handles) : op unit := tls_set (fun self => self <| tl_Handles := f (tl_Handles self) |>).
Definition wolf_set_notes (f : wolfssl_notes -> wolfssl_notes) : op unit := tls_set (fun self => self <| tl_Notes := f (tl_Notes self) |>).
Definition refuse_check (check : Z) : op unit := wolf_set_notes (fun n => n <| wf_RefusedChecks := Z.lor (wf_RefusedChecks n) check |>).
Definition wolf_session : op Z := tls_get (fun self => wf_Session (tl_Handles self)).

(** ** The transport callbacks *)

Definition WolfSslStream_IoSend (ssl : Z) (buf : bytes) (sz : Z) : op Z :=
  let! ok := transport_send buf (u32 sz) in
  st_ret (if ok : bool then sz else WOLFSSL_CBIO_ERR_GENERAL codes).
Definition WolfSslStream_IoRecv (ssl : Z) (buf : bytes) (sz : Z) : op (Z * bytes) :=
  let! answer := transport_read buf (u32 sz) in
  let n := fst answer in
  st_ret (if 0 <? n then n else if n =? 0 then WOLFSSL_CBIO_ERR_WANT_READ codes else WOLFSSL_CBIO_ERR_GENERAL codes, snd answer).

(** ** The verify callback *)

Definition SolidSyslogWolfSslStream_AnchoredPinCheck : SolidSyslogWolfSslAnchoredPinCheck := build.
Definition WolfSslStream_IsPinned (self : stream) : bool := 0 <? in_FingerprintCount (tl_Installed self).
Definition WolfSslStream_CheckFailedFor (error : Z) : Z :=
  if error =? 0 then 0
  else if (error =? DOMAIN_NAME_MISMATCH codes) || (error =? IPADDR_MISMATCH codes) then WOLFSSL_STREAM_CHECK_NAME
  else if error =? ASN_AFTER_DATE_E codes then WOLFSSL_STREAM_CHECK_NOT_AFTER
  else if error =? ASN_BEFORE_DATE_E codes then WOLFSSL_STREAM_CHECK_NOT_BEFORE
  else WOLFSSL_STREAM_CHECK_CHAIN_TRUST.
Definition WolfSslStream_CheckFailedForPin (verdict : SolidSyslogTlsAuthorisation) : Z :=
  if decide (verdict = SOLIDSYSLOG_TLS_AUTHORISATION_MATCHED) then 0
  else if decide (verdict = SOLIDSYSLOG_TLS_AUTHORISATION_DIGEST_UNAVAILABLE) then WOLFSSL_STREAM_CHECK_FINGERPRINT_DIGEST
  else WOLFSSL_STREAM_CHECK_FINGERPRINT.
Definition WolfSslStream_HashTypeFor (algorithm : SolidSyslogTlsHashAlgorithm) : wc_HashType :=
  match algorithm with SOLIDSYSLOG_TLS_HASH_SHA1 => WC_HASH_TYPE_SHA | SOLIDSYSLOG_TLS_HASH_SHA256 => WC_HASH_TYPE_SHA256 end.
(** The digest is written over the area. *)
Definition WolfSslStream_DigestCertificate (certificate : WolfSslStreamPeerCertificate) (algorithm : SolidSyslogTlsHashAlgorithm) (digest : bytes) (length : Z) : op (bool * bytes * Z) :=
  let type := WolfSslStream_HashTypeFor algorithm in
  let! size := tls_call (wc_HashGetDigestSize type) in
  if negb (bi_buffer (pc_Certificate certificate) =? 0) && (0 <? size) then
    let! answer := tls_digest (wc_Hash_ex type (pc_Certificate certificate) (pc_Heap certificate)) in
    let '(rc, _, made) := answer in
    st_ret (rc =? 0, spliceZ digest 0 made, if rc =? 0 then size else length)
  else st_ret (false, digest, length).
Definition SolidSyslogWolfSslStream_AuthoriseLeaf (leaf : WOLFSSL_BUFFER_INFO) : op bool :=
  let! self := tls_get (fun self => self) in
  let! verdict := SolidSyslogTlsFingerprint_Authorise scratch WolfSslStream_DigestCertificate (mkPeerCertificate leaf (wi_Library (tl_Config self))) area
                    (in_Fingerprints (tl_Installed self)) (in_FingerprintCount (tl_Installed self)) in
  refuse_check (WolfSslStream_CheckFailedForPin verdict) ;;;
  wolf_set_notes (fun n => n <| wf_PeerPinned := bool_decide (verdict = SOLIDSYSLOG_TLS_AUTHORISATION_MATCHED) |>) ;;;
  st_ret (bool_decide (verdict = SOLIDSYSLOG_TLS_AUTHORISATION_MATCHED)).
Definition WolfSslStream_LeafMatchesAPin (store : WOLFSSL_X509_STORE_CTX) : op bool := SolidSyslogWolfSslStream_AuthoriseLeaf (store_cert store 0).
Definition WolfSslStream_StandsWithoutASigner (store : WOLFSSL_X509_STORE_CTX) : op bool :=
  let certificate := store_cert store (ws_error_depth store) in
  let! config := tls_get tl_Config in
  tls_quiet (wc_InitDecodedCert certificate (wi_Library config)) ;;;
  let! answer := tls_digest (wc_ParseCert certificate) in
  let error := fst (fst answer) in
  tls_quiet wc_FreeDecodedCert ;;;
  refuse_check (WolfSslStream_CheckFailedFor error) ;;;
  st_ret (error =? 0).
Definition WolfSslStream_IsMissingSignerAPinCanWaive (self : stream) (store : WOLFSSL_X509_STORE_CTX) : bool :=
  WolfSslStream_IsPinned self && negb (in_TrustAnchorsInstalled (tl_Installed self)) && (ws_error store =? ASN_NO_SIGNER_E codes).
Definition WolfSslStream_IsPinCheckedHere (self : stream) (store : WOLFSSL_X509_STORE_CTX) : bool :=
  WolfSslStream_IsPinned self &&
  (negb (in_TrustAnchorsInstalled (tl_Installed self)) || negb (ws_error store =? 0) ||
   bool_decide (SolidSyslogWolfSslStream_AnchoredPinCheck = SOLIDSYSLOG_WOLFSSL_PIN_BESIDE_ANCHORS_IN_CALLBACK)).
Definition WolfSslStream_VerifyPeer (given : wolfssl_given) : op wolfssl_answer :=
  let '(preverify, store) := given in
  let! self := tls_get (fun self => self) in
  if WolfSslStream_IsMissingSignerAPinCanWaive self store then
    let! stands := WolfSslStream_LeafMatchesAPin store &&! WolfSslStream_StandsWithoutASigner store in
    st_ret (if stands : bool then 1 else 0)
  else
    refuse_check (WolfSslStream_CheckFailedFor (ws_error store)) ;;;
    let! refused := (if WolfSslStream_IsPinCheckedHere self store then let! matches := WolfSslStream_LeafMatchesAPin store in st_ret (negb matches) else st_ret false) in
    st_ret (if refused : bool then 0 else preverify).

Definition wolfssl : tls_pack wolfssl_call wolfssl_given wolfssl_answer wolfssl_handles wolfssl_notes SolidSyslogWolfSslProfile E := {|
  tp_Source := SolidSyslogWolfSslStreamErrorSource;
  tp_Session := wf_Session;
  tp_Length := to_int;
  tp_NoProfile := mkWolfSslProfile None None;
  tp_Judge := WolfSslStream_VerifyPeer;
  tp_Receive := WolfSslStream_IoRecv;
  tp_Transmit := WolfSslStream_IoSend;
  tp_Control := fun _ _ => 0;
  tp_Scratch := scratch
|}.

(** ** Close *)

Definition WolfSslStream_ReleaseCredentials : op unit := TlsStream_ReleaseCredentials.
Definition WolfSslStream_Close : op unit :=
  let! ssl := wolf_session in
  if! negb (ssl =? 0) then
    let! _ := tls_perform wolfssl (Shutdown ssl) in
    tls_quiet (wolfSSL_free ssl) ;;;
    wolf_set_handles (fun h => h <| wf_Session := 0 |>)
  end! ;;;
  let! handles := tls_get tl_Handles in
  if! negb (wf_Context handles =? 0) then
    tls_quiet (wolfSSL_CTX_free (wf_Context handles)) ;;;
    wolf_set_handles (fun h => h <| wf_Context := 0 |>)
  end! ;;;
  WolfSslStream_ReleaseCredentials ;;;
  close_transport.

(** ** Open, a step at a time *)

Definition WolfSslStream_Report : Z -> Z -> Z -> op unit := TlsStream_Report wolfssl.
Definition WolfSslStream_ReportOpenFailure : Z -> Z -> Z -> op unit := TlsStream_ReportOpenFailure wolfssl.
Abbreviation or_report := (or_report wolfssl).
Definition WolfSslStream_PullProfile : op unit := TlsStream_PullProfile wolfssl.
Definition WolfSslStream_BuildContext : op bool :=
  let! config := tls_get tl_Config in
  let! method := tls_call (wolfTLS_client_method_ex (wi_Library config)) in
  let! ctx := tls_call (wolfSSL_CTX_new_ex method (wi_Library config)) in
  wolf_set_handles (fun h => h <| wf_Context := ctx |>) ;;;
  or_report (negb (ctx =? 0)) SOLIDSYSLOG_CAT_TLS_STREAM_INIT_FAILED SOLIDSYSLOG_TLS_STREAM_ERROR_CONTEXT_INIT_FAILED.
Definition WolfSslStream_PeerIsAuthorisable : SolidSyslogTlsCredentialsInstalled -> bool := TlsStream_PeerIsAuthorisable.
Definition WolfSslStream_FingerprintsAreUsable : op bool := TlsStream_FingerprintsAreUsable wolfssl.
Definition WolfSslStream_BuildCanEnforceBoth (installed : SolidSyslogTlsCredentialsInstalled) : bool :=
  let both := in_TrustAnchorsInstalled installed && (0 <? in_FingerprintCount installed) in
  negb both || negb (bool_decide (SolidSyslogWolfSslStream_AnchoredPinCheck = SOLIDSYSLOG_WOLFSSL_PIN_BESIDE_ANCHORS_REFUSED)).
Definition WolfSslStream_InstallCredentials : op bool :=
  let! handles := tls_get tl_Handles in
  TlsStream_InstallCredentials wolfssl (wf_Context handles) &&!
  (let! installed := tls_get tl_Installed in
   or_report (WolfSslStream_BuildCanEnforceBoth installed) SOLIDSYSLOG_CAT_BAD_CONFIG SOLIDSYSLOG_TLS_STREAM_ERROR_PINS_WITH_ANCHORS_UNSUPPORTED).
Definition WolfSslStream_CreateSession : op bool :=
  let! handles := tls_get tl_Handles in
  let! ssl := tls_call (wolfSSL_new (wf_Context handles)) in
  wolf_set_handles (fun h => h <| wf_Session := ssl |>) ;;;
  or_report (negb (ssl =? 0)) SOLIDSYSLOG_CAT_TLS_STREAM_INIT_FAILED SOLIDSYSLOG_TLS_STREAM_ERROR_SESSION_INIT_FAILED.
(** [wolfSSL_...(...) == WOLFSSL_SUCCESS]. *)
Definition succeeds (c : wolfssl_call) : op bool := let! rc := tls_call c in st_ret (rc =? WOLFSSL_SUCCESS codes).
Definition WolfSslStream_ApplyTlsPolicy : op bool :=
  let! ssl := wolf_session in
  let! ok := succeeds (wolfSSL_SetMinVersion ssl (WOLFSSL_TLSV1_2 codes)) &&!
             succeeds (wolfSSL_SetMinRsaKey_Sz ssl WOLFSSL_STREAM_MIN_RSA_KEY_BITS) &&!
             succeeds (wolfSSL_SetMinEccKey_Sz ssl WOLFSSL_STREAM_MIN_ECC_KEY_BITS) &&!
             succeeds (wolfSSL_SetMinDhKey_Sz ssl WOLFSSL_STREAM_MIN_DH_KEY_BITS) in
  or_report ok SOLIDSYSLOG_CAT_TLS_STREAM_INIT_FAILED SOLIDSYSLOG_TLS_STREAM_ERROR_DEFAULTS_NOT_APPLIED.
Definition WolfSslStream_ApplyCipherPolicy : op bool :=
  let! self := tls_get (fun self => self) in
  match wp_CipherList (tl_Profile self) with
  | Some list =>
      let! ok := succeeds (wolfSSL_set_cipher_list (wf_Session (tl_Handles self)) list) in
      or_report ok SOLIDSYSLOG_CAT_BAD_CONFIG SOLIDSYSLOG_TLS_STREAM_ERROR_CIPHER_POLICY_REJECTED
  | None => st_ret true
  end.

Definition WolfSslStream_IsDigitOrDot (c : Z) : bool := ((48 <=? c) && (c <=? 57)) || (c =? 46).
(** The loop over the name, with its two flags. *)
Definition WolfSslStream_IsAddressLiteral (name : bytes) : bool :=
  let '(onlyDigitsAndDots, hasColon) :=
    fold_left (fun '(onlyDigitsAndDots, hasColon) c =>
      (if negb (WolfSslStream_IsDigitOrDot c) then false else onlyDigitsAndDots, if c =? 58 then true else hasColon))
      (cstr name) (true, false) in
  hasColon || onlyDigitsAndDots.
Definition WolfSslStream_InitDetail (rc otherwise : Z) : Z := if rc =? MEMORY_E codes then SOLIDSYSLOG_TLS_STREAM_ERROR_LIBRARY_OUT_OF_MEMORY else otherwise.
Definition WolfSslStream_DeclareExpectedPeer (serverName : bytes) : op Z :=
  let! ssl := wolf_session in
  tls_call (if WolfSslStream_IsAddressLiteral serverName then wolfSSL_check_ip_address ssl serverName else wolfSSL_check_domain_name ssl serverName).
Definition WolfSslStream_ApplyExpectedPeerName (serverName : bytes) : op bool :=
  let! rc := WolfSslStream_DeclareExpectedPeer serverName in
  if negb (rc =? WOLFSSL_SUCCESS codes) then or_report false SOLIDSYSLOG_CAT_BAD_CONFIG SOLIDSYSLOG_TLS_STREAM_ERROR_SERVER_NAME_NOT_APPLIED
  else
    let! ssl := wolf_session in
    let! rc := tls_call (wolfSSL_UseSNI ssl (WOLFSSL_SNI_HOST_NAME codes) serverName (u16 (strlen serverName))) in
    or_report (rc =? WOLFSSL_SUCCESS codes) SOLIDSYSLOG_CAT_BAD_CONFIG (WolfSslStream_InitDetail rc SOLIDSYSLOG_TLS_STREAM_ERROR_SERVER_NAME_NOT_APPLIED).
Definition WolfSslStream_ConfigureExpectedPeerName : op bool :=
  let! self := tls_get (fun self => self) in
  match wp_ServerName (tl_Profile self) with
  | None =>
      if! negb (WolfSslStream_IsPinned self) then
        WolfSslStream_Report SOLIDSYSLOG_SEVERITY_WARNING SOLIDSYSLOG_CAT_BAD_CONFIG SOLIDSYSLOG_TLS_STREAM_ERROR_SERVER_NAME_NOT_SET
      end! ;;;
      st_ret true
  | Some serverName => if negb (serverName.[0] =? 0) then WolfSslStream_ApplyExpectedPeerName serverName else st_ret true
  end.
Definition WolfSslStream_InstallTransportCallbacks : op unit :=
  let! ssl := wolf_session in
  tls_quiet (wolfSSL_SSLSetIORecv ssl) ;;;
  tls_quiet (wolfSSL_SSLSetIOSend ssl) ;;;
  tls_quiet (wolfSSL_SetIOReadCtx ssl) ;;;
  tls_quiet (wolfSSL_SetIOWriteCtx ssl).
Definition WolfSslStream_ApplyPeerVerificationPolicy : op unit :=
  let! ssl := wolf_session in
  tls_quiet (wolfSSL_set_verify ssl (Z.lor (WOLFSSL_VERIFY_PEER codes) (WOLFSSL_VERIFY_FAIL_IF_NO_PEER_CERT codes))) ;;;
  tls_quiet (wolfSSL_SetCertCbCtx ssl).

(** ** The handshake *)

Definition WolfSslStream_Failed (notes : wolfssl_notes) (check : Z) : bool := negb (Z.land (wf_RefusedChecks notes) check =? 0).
Definition WolfSslStream_RefusalDetail (notes : wolfssl_notes) : Z :=
  if WolfSslStream_Failed notes WOLFSSL_STREAM_CHECK_FINGERPRINT_DIGEST then SOLIDSYSLOG_TLS_STREAM_ERROR_FINGERPRINT_DIGEST_UNAVAILABLE
  else if WolfSslStream_Failed notes WOLFSSL_STREAM_CHECK_FINGERPRINT then SOLIDSYSLOG_TLS_STREAM_ERROR_PEER_FINGERPRINT_MISMATCHED
  else if WolfSslStream_Failed notes WOLFSSL_STREAM_CHECK_CHAIN_TRUST then SOLIDSYSLOG_TLS_STREAM_ERROR_PEER_CERTIFICATE_UNTRUSTED
  else if WolfSslStream_Failed notes WOLFSSL_STREAM_CHECK_NOT_AFTER then SOLIDSYSLOG_TLS_STREAM_ERROR_PEER_CERTIFICATE_EXPIRED
  else if WolfSslStream_Failed notes WOLFSSL_STREAM_CHECK_NOT_BEFORE then SOLIDSYSLOG_TLS_STREAM_ERROR_PEER_CERTIFICATE_NOT_YET_VALID
  else if WolfSslStream_Failed notes WOLFSSL_STREAM_CHECK_NAME then SOLIDSYSLOG_TLS_STREAM_ERROR_PEER_NAME_MISMATCHED
  else SOLIDSYSLOG_TLS_STREAM_ERROR_HANDSHAKE_REJECTED.
(** The three bodies. *)
Definition AuthoriseKeptPeer_AfterHandshake : op unit :=
  let! ssl := wolf_session in
  let! peer := tls_call (wolfSSL_get_peer_certificate ssl) in
  let! der := tls_call (wolfSSL_X509_get_der peer) in
  let! length := tls_call (wolfSSL_X509_get_der_length peer) in
  let! _ := SolidSyslogWolfSslStream_AuthoriseLeaf (mkBufferInfo der (u32 length)) in
  tls_quiet (wolfSSL_X509_free peer).
Definition AuthoriseKeptPeer_InCallback : op unit := st_ret tt.
Definition AuthoriseKeptPeer_Refused : op unit := st_ret tt.
Definition SolidSyslogWolfSslStream_AuthoriseKeptPeer : op unit :=
  match build with
  | SOLIDSYSLOG_WOLFSSL_PIN_BESIDE_ANCHORS_AFTER_HANDSHAKE => AuthoriseKeptPeer_AfterHandshake
  | SOLIDSYSLOG_WOLFSSL_PIN_BESIDE_ANCHORS_IN_CALLBACK => AuthoriseKeptPeer_InCallback
  | SOLIDSYSLOG_WOLFSSL_PIN_BESIDE_ANCHORS_REFUSED => AuthoriseKeptPeer_Refused
  end.
Definition WolfSslStream_PinIsConfirmed : op bool :=
  let! self := tls_get (fun self => self) in
  if! WolfSslStream_IsPinned self && negb (wf_PeerPinned (tl_Notes self)) then SolidSyslogWolfSslStream_AuthoriseKeptPeer end! ;;;
  let! self := tls_get (fun self => self) in
  let ok := negb (WolfSslStream_IsPinned self) || wf_PeerPinned (tl_Notes self) in
  if! negb ok then
    refuse_check WOLFSSL_STREAM_CHECK_FINGERPRINT ;;;
    let! notes := tls_get tl_Notes in
    WolfSslStream_ReportOpenFailure SOLIDSYSLOG_SEVERITY_ERROR SOLIDSYSLOG_CAT_TLS_STREAM_HANDSHAKE_FAILED (WolfSslStream_RefusalDetail notes)
  end! ;;;
  st_ret ok.
Definition WolfSslStream_IsRetryableHandshakeError (error : Z) : bool := (error =? WOLFSSL_ERROR_WANT_READ codes) || (error =? WOLFSSL_ERROR_WANT_WRITE codes).
(** One call of [wolfSSL_connect]. *)
Definition WolfSslStream_Turn : op handshake_turn :=
  let! ssl := session wolfssl in
  let! answer := tls_perform wolfssl (Handshake ssl) in
  let rc := fst answer in
  let! error := tls_call (wolfSSL_get_error ssl rc) in
  if rc =? WOLFSSL_SUCCESS codes then
    let! result := WolfSslStream_PinIsConfirmed in
    st_ret (HandshakeOver result)
  else if negb (WolfSslStream_IsRetryableHandshakeError error) then
    let! notes := tls_get tl_Notes in
    st_ret (HandshakeRefused (WolfSslStream_InitDetail error (WolfSslStream_RefusalDetail notes)))
  else st_ret HandshakeUnfinished.
Definition WolfSslStream_PerformHandshake : op bool := TlsStream_PerformHandshake wolfssl WolfSslStream_Turn.

Definition WolfSslStream_IsOpen (self : stream) : bool := tl_CredentialsInstalled self.
Definition WolfSslStream_Establish (addr : SolidSyslogAddress) : op bool :=
  WolfSslStream_PullProfile ;;;
  wolf_set_notes (fun _ => mkWolfSslNotes 0 false) ;;;
  let! ok := open_transport addr &&! WolfSslStream_BuildContext &&! WolfSslStream_InstallCredentials &&! WolfSslStream_CreateSession &&!
             WolfSslStream_ApplyTlsPolicy &&! WolfSslStream_ApplyCipherPolicy &&! WolfSslStream_ConfigureExpectedPeerName in
  let! ok :=
    if ok : bool then
      WolfSslStream_InstallTransportCallbacks ;;;
      WolfSslStream_ApplyPeerVerificationPolicy ;;;
      WolfSslStream_PerformHandshake
    else st_ret ok in
  if! negb ok then WolfSslStream_Close end! ;;;
  st_ret ok.
Definition WolfSslStream_Open : SolidSyslogAddress -> op bool := TlsStream_Open wolfssl WolfSslStream_IsOpen WolfSslStream_Establish.

(** ** The vtable *)

Definition WolfSslStream_NothingYet (rc : Z) : op bool :=
  let! ssl := wolf_session in
  let! error := tls_call (wolfSSL_get_error ssl rc) in
  st_ret (error =? WOLFSSL_ERROR_WANT_READ codes).
Definition WolfSslStream_Read : bytes -> Z -> op (Z * bytes) := TlsStream_Read wolfssl WolfSslStream_NothingYet WolfSslStream_Close.
Definition WolfSslStream_SessionIsStillOpen : op bool := TlsStream_SessionIsStillOpen wolfssl WolfSslStream_NothingYet WolfSslStream_Close.
Definition WolfSslStream_Send : bytes -> Z -> op bool := TlsStream_Send wolfssl WolfSslStream_NothingYet WolfSslStream_Close.
Definition WolfSslStream_Version : op Z := TlsStream_Version.
Definition SolidSyslogWolfSslStream_Initialise (config : tls_config SolidSyslogWolfSslProfile E) : op unit :=
  TlsStream_Initialise config ;;;
  wolf_set_handles (fun _ => mkWolfSslHandles 0 0).
Definition SolidSyslogWolfSslStream_Cleanup : op unit := TlsStream_Cleanup WolfSslStream_Close.
Definition WolfSslStream_vtable : SolidSyslogStream (tls_world wolfssl_call wolfssl_given wolfssl_answer wolfssl_handles wolfssl_notes SolidSyslogWolfSslProfile E) :=
  TlsStream_vtable wolfssl WolfSslStream_NothingYet WolfSslStream_Close WolfSslStream_Open.
End wolfssl.

(** * wolfSSL's protocol *)

(** The objects that are held; of the session, that its floors stand, the name or the
    address it checks the peer for, that it reaches the transport, and how it verifies;
    the peer's certificate while it is borrowed, and its encoding as it was last asked
    for. *)
Record wolfssl_held := mkWolfSslHeld {
  wl_Ctx : Z; wl_Ssl : Z; wl_Peer : Z; wl_PeerDer : WOLFSSL_BUFFER_INFO;
  wl_Version : bool; wl_Rsa : bool; wl_Ecc : bool; wl_Dh : bool; wl_Name : option (bool * bytes);
  wl_Recv : bool; wl_Send : bool; wl_ReadCtx : bool; wl_WriteCtx : bool; wl_Verifies : bool; wl_CertCtx : bool
}.
#[export] Instance settable_wolfssl_held : Settable wolfssl_held := fun l => mkWolfSslHeld
  (wl_Ctx l) (wl_Ssl l) (wl_Peer l) (wl_PeerDer l) (wl_Version l) (wl_Rsa l) (wl_Ecc l) (wl_Dh l) (wl_Name l)
  (wl_Recv l) (wl_Send l) (wl_ReadCtx l) (wl_WriteCtx l) (wl_Verifies l) (wl_CertCtx l).
(** A context, a session, and nothing set. *)
Definition wolfssl_fresh (ctx ssl : Z) : wolfssl_held :=
  mkWolfSslHeld ctx ssl 0 (mkBufferInfo 0 0) false false false false None false false false false false false.

Section protocol.
Context (codes : wolfssl_codes).
(** A context is made when none is held, and freed once, after its session; a session is
    made from it, and freed once, when no certificate of its peer is borrowed; what is
    borrowed is given back. *)
Definition wolfssl_step (l : wolfssl_held) (c : wolfssl_call) (answer : Z) : option wolfssl_held :=
  let on_ctx ctx l' := if (ctx =? wl_Ctx l) && negb (ctx =? 0) then Some l' else None in
  let on_ssl ssl l' := if (ssl =? wl_Ssl l) && negb (ssl =? 0) then Some l' else None in
  let ok := answer =? WOLFSSL_SUCCESS codes in
  match c with
  | wolfTLS_client_method_ex _ => Some l
  | wolfSSL_CTX_new_ex _ _ => if (wl_Ctx l =? 0) && (wl_Ssl l =? 0) then Some (wolfssl_fresh answer 0) else None
  | wolfSSL_CTX_free ctx => if wl_Ssl l =? 0 then on_ctx ctx (wolfssl_fresh 0 0) else None
  | wolfSSL_new ctx => if wl_Ssl l =? 0 then on_ctx ctx (wolfssl_fresh ctx answer) else None
  | wolfSSL_SetMinVersion ssl version => on_ssl ssl (l <| wl_Version := ok && (version =? WOLFSSL_TLSV1_2 codes) |>)
  | wolfSSL_SetMinRsaKey_Sz ssl bits => on_ssl ssl (l <| wl_Rsa := ok && (WOLFSSL_STREAM_MIN_RSA_KEY_BITS <=? bits) |>)
  | wolfSSL_SetMinEccKey_Sz ssl bits => on_ssl ssl (l <| wl_Ecc := ok && (WOLFSSL_STREAM_MIN_ECC_KEY_BITS <=? bits) |>)
  | wolfSSL_SetMinDhKey_Sz ssl bits => on_ssl ssl (l <| wl_Dh := ok && (WOLFSSL_STREAM_MIN_DH_KEY_BITS <=? bits) |>)
  | wolfSSL_set_cipher_list ssl _ => on_ssl ssl l
  | wolfSSL_check_domain_name ssl name => on_ssl ssl (l <| wl_Name := if ok then Some (false, name) else None |>)
  | wolfSSL_check_ip_address ssl name => on_ssl ssl (l <| wl_Name := if ok then Some (true, name) else None |>)
  | wolfSSL_UseSNI ssl _ _ _ => on_ssl ssl l
  | wolfSSL_SSLSetIORecv ssl => on_ssl ssl (l <| wl_Recv := true |>)
  | wolfSSL_SSLSetIOSend ssl => on_ssl ssl (l <| wl_Send := true |>)
  | wolfSSL_SetIOReadCtx ssl => on_ssl ssl (l <| wl_ReadCtx := true |>)
  | wolfSSL_SetIOWriteCtx ssl => on_ssl ssl (l <| wl_WriteCtx := true |>)
  | wolfSSL_set_verify ssl mode => on_ssl ssl (l <| wl_Verifies := mode =? Z.lor (WOLFSSL_VERIFY_PEER codes) (WOLFSSL_VERIFY_FAIL_IF_NO_PEER_CERT codes) |>)
  | wolfSSL_SetCertCbCtx ssl => on_ssl ssl (l <| wl_CertCtx := true |>)
  | wolfSSL_get_error ssl _ => on_ssl ssl l
  | wolfSSL_free ssl => if wl_Peer l =? 0 then on_ssl ssl (wolfssl_fresh (wl_Ctx l) 0) else None
  | wolfSSL_get_peer_certificate ssl => if wl_Peer l =? 0 then on_ssl ssl (l <| wl_Peer := answer |>) else None
  | wolfSSL_X509_get_der x509 => if x509 =? wl_Peer l then Some (l <| wl_PeerDer := mkBufferInfo answer 0 |>) else None
  | wolfSSL_X509_get_der_length x509 => if x509 =? wl_Peer l then Some (l <| wl_PeerDer := mkBufferInfo (bi_buffer (wl_PeerDer l)) (u32 answer) |>) else None
  | wolfSSL_X509_free x509 => if x509 =? wl_Peer l then Some (l <| wl_Peer := 0 |>) else None
  | wc_HashGetDigestSize _ | wc_Hash_ex _ _ _ | wc_InitDecodedCert _ _ | wc_ParseCert _ | wc_FreeDecodedCert => Some l
  end.
(** The handshake is on a session whose floors stand, that verifies its peer and reaches
    the transport. *)
Definition wolf_ready (l : wolfssl_held) : bool :=
  wl_Version l && wl_Rsa l && wl_Ecc l && wl_Dh l && wl_Recv l && wl_Send l && wl_ReadCtx l && wl_WriteCtx l && wl_Verifies l && wl_CertCtx l.
Definition wolfssl_protocol : lib_protocol wolfssl_call wolfssl_held := {|
  lp_Start := wolfssl_fresh 0 0;
  lp_Step := wolfssl_step;
  lp_Runs := fun l act => (act_session act =? wl_Ssl l) && negb (act_session act =? 0) && match act with Shutdown _ => true | _ => wolf_ready l end;
  lp_IsIdle := fun l => (wl_Ctx l =? 0) && (wl_Ssl l =? 0) && (wl_Peer l =? 0);
  lp_Takes := fun l context => (context =? wl_Ctx l) && negb (context =? 0) && (wl_Ssl l =? 0)
|}.
End protocol.

(** What is relied on: reads give no more than was asked for; a digest of the hashes asked
    for is of at most the largest size, in bytes, and as long as the hash's size. *)
Record wolfssl_ok {E} `{TlsLibrary wolfssl_call wolfssl_given wolfssl_answer E} : Prop := {
  wf_read_answers : forall ssl buffer size e, ends_in (fun rc => rc <= Z.max 0 size) (tls_run (ReadFrom ssl buffer size) e);
  wf_digest_answers : forall type certificate heap e, let '(rc, _, made) := fst (tls_hash (wc_Hash_ex type certificate heap) e) in
    lenZ made <= SOLIDSYSLOG_TLS_FINGERPRINT_DIGEST_MAX /\ all_bytes made /\ (rc = 0 -> forall e', fst (tls_do (wc_HashGetDigestSize type) e') = lenZ made)
}.

(** * A pack *)

Section pack.
Context {E : Type} `{HT : ErrorTap E} `{HL : TlsLibrary wolfssl_call wolfssl_given wolfssl_answer E} (codes : wolfssl_codes) (build : SolidSyslogWolfSslAnchoredPinCheck).
Context (scratch : SolidSyslogTlsFingerprint) (area : bytes).
Context (OK : wolfssl_ok) (fits : DIGEST_AREA scratch) (scratch_bytes : all_bytes (fp_Digest scratch))
  (area_fits : lenZ area = SOLIDSYSLOG_TLS_FINGERPRINT_DIGEST_MAX) (area_bytes : all_bytes area).
Abbreviation op := (tls_op wolfssl_call wolfssl_given wolfssl_answer wolfssl_handles wolfssl_notes SolidSyslogWolfSslProfile E).
Abbreviation stream := (tls_stream wolfssl_handles wolfssl_notes SolidSyslogWolfSslProfile E).
Abbreviation seen := (tls_seen wolfssl_call wolfssl_given wolfssl_answer wolfssl_held).
Abbreviation evidence := (tls_evidence wolfssl_call wolfssl_given wolfssl_answer).
Abbreviation check := (tls_check wolfssl_call wolfssl_given wolfssl_answer).
Abbreviation digests := (list (wolfssl_call * Z * Z * bytes)).
Abbreviation K := (wolfssl codes build scratch area).
Abbreviation LP := (wolfssl_protocol codes).
Abbreviation leads := (tls_leads LP).
Implicit Types (self : stream) (s : seen) (ck : check) (inst : SolidSyslogTlsCredentialsInstalled) (n : wolfssl_notes) (te : evidence).

(** ** What the verify callback keeps *)

Definition wolf_anchored inst : bool := in_TrustAnchorsInstalled inst.
Definition wolf_pinned inst : bool := 0 <? in_FingerprintCount inst.
(** A certificate's digest, as wolfSSL made it, is one of the pins. *)
Definition wolf_digest_made (certificate : WOLFSSL_BUFFER_INFO) (ds : digests) (alg : SolidSyslogTlsHashAlgorithm) (d : bytes) : Prop :=
  exists heap length, In (wc_Hash_ex (WolfSslStream_HashTypeFor alg) certificate heap, 0, length, d) ds.
Definition wolf_pins inst (certificate : WOLFSSL_BUFFER_INFO) (ds : digests) : Prop := a_pin_matches inst (wolf_digest_made certificate ds).

Lemma wolf_pins_more inst certificate ds more : wolf_pins inst certificate ds -> wolf_pins inst certificate (ds ++ more).
Proof using.
  intros (pins & t & alg & d & Hf & Hin & Ht & heap & length & Hd). exists pins, t, alg, d. do 3 (split; [done |]). exists heap, length. apply in_app_iff. by left.
Qed.
Lemma WolfDigestCertificate_hashes leaf heap alg : hashes_only LP (WolfSslStream_DigestCertificate (E := E) (mkPeerCertificate leaf heap) alg area 0) (fun r ds =>
  lenZ (snd (fst r)) = SOLIDSYSLOG_TLS_FINGERPRINT_DIGEST_MAX /\ all_bytes (snd (fst r)) /\
  (fst (fst r) = true -> snd r = digest_length alg -> wolf_digest_made leaf ds alg (takeZ (digest_length alg) (snd (fst r))))).
Proof using OK area_fits area_bytes.
  intros self lib tr cr up bu rs ws te. unfold WolfSslStream_DigestCertificate. cbn [pc_Certificate pc_Heap]. set (type := WolfSslStream_HashTypeFor alg).
  apply tleads_bind. unfold tls_call. apply tleads_bind.
  apply (tleads_env _ _ (fun size => forall e made, let '(rc, _, made') := fst (tls_hash (wc_Hash_ex type leaf heap) e) in rc = 0 -> made = made' -> size = lenZ made)).
  { intros e' e made. pose proof (wf_digest_answers OK type leaf heap e) as Ho. destruct (fst (tls_hash (wc_Hash_ex type leaf heap) e)) as [[rc written] made'].
    intros Hrc ->. by apply Ho. }
  intros size Hsize. tleads_on. eapply tleads_happens; [reflexivity |]. tleads_on. destruct (negb _ && _); [| tleads_on; cbn [fst snd]; split; [done |]; exists []; rewrite app_nil_r; split; [by destruct te | done]].
  unfold tls_digest. tleads_on.
  apply (tleads_env _ _ (fun a => lenZ (snd a) <= SOLIDSYSLOG_TLS_FINGERPRINT_DIGEST_MAX /\ all_bytes (snd a) /\ (fst (fst a) = 0 -> size = lenZ (snd a)))).
  { intros e. pose proof (wf_digest_answers OK type leaf heap e) as Ho. specialize (Hsize e). destruct (fst (tls_hash (wc_Hash_ex type leaf heap) e)) as [[rc written] made]. cbn.
    destruct Ho as (? & ? & _). auto. }
  intros [[rc written] made] (Hl & Hb & Hw). cbn [fst snd] in *. tleads_on. eapply tleads_happens; [reflexivity |]. tleads_on. cbn [fst snd].
  split; [done |]. eexists. split; [done |]. unfold SOLIDSYSLOG_TLS_FINGERPRINT_DIGEST_MAX in *. pose proof (lenZ_nonneg made).
  split; [rewrite lenZ_spliceZ by lia; lia |]. split; [rewrite spliceZ_0; apply Forall_app; split; [done | by apply all_bytes_dropZ] |].
  destruct (Z.eqb_spec rc 0) as [Hrc |]; [| done]. intros _ Hn. exists heap, written. apply in_app_iff. right. left. rewrite <- Hn, (Hw Hrc), spliceZ_0, takeZ_app_le, takeZ_ge by lia.
  by rewrite Hrc.
Qed.
Lemma AuthoriseLeaf_leads leaf base cfg h ci inst p Hd n lib tr cr up bu rs ws te (Q : bool -> stream -> seen -> Prop) :
  (forall b checks more, (b = true -> wolf_pins inst leaf (te_Digests te ++ more)) ->
    Q b (mkTlsStream base cfg h ci inst p Hd (mkWolfSslNotes checks b)) (mkTlsSeen lib tr cr up bu rs ws (mkEvidence (te_Installed te) (te_Checks te) (te_Digests te ++ more) (te_Below te)))) ->
  leads (SolidSyslogWolfSslStream_AuthoriseLeaf scratch area leaf) (mkTlsStream base cfg h ci inst p Hd n) (mkTlsSeen lib tr cr up bu rs ws te) Q.
Proof using OK fits scratch_bytes area_fits area_bytes.
  intros HQ. unfold SolidSyslogWolfSslStream_AuthoriseLeaf, refuse_check, wolf_set_notes. tleads_on.
  eapply tleads_mono; [apply (Authorise_leads LP scratch area fits scratch_bytes WolfSslStream_DigestCertificate (mkPeerCertificate leaf (wi_Library cfg)) (fun alg d ds => wolf_digest_made leaf ds alg d)) |].
  - intros alg d ds more (heap & length & Hin). exists heap, length. apply in_app_iff. by left.
  - apply WolfDigestCertificate_hashes.
  - intros v self' s' (-> & more & -> & Hv). tleads_on. apply HQ. intros Hb%bool_decide_eq_true. by apply Hv.
Qed.

(** With pins and no anchors, a missing signer may be waived; where a pin is needed for a
    certificate to pass; and what passing says: that it did, or that it stands without a
    signer, and that the leaf is pinned where a pin is needed. *)
Definition waivable inst (store : WOLFSSL_X509_STORE_CTX) : bool := wolf_pinned inst && negb (wolf_anchored inst) && (ws_error store =? ASN_NO_SIGNER_E codes).
Definition pin_needed inst (store : WOLFSSL_X509_STORE_CTX) : bool :=
  wolf_pinned inst && (negb (wolf_anchored inst) || negb (ws_error store =? 0) || bool_decide (build = SOLIDSYSLOG_WOLFSSL_PIN_BESIDE_ANCHORS_IN_CALLBACK)).
Definition parses (certificate : WOLFSSL_BUFFER_INFO) (ds : digests) : Prop := exists length d, In (wc_ParseCert certificate, 0, length, d) ds.
Definition accepted inst (given : wolfssl_given) (ds : digests) : Prop :=
  let store := snd given in
  (if waivable inst store then parses (store_cert store (ws_error_depth store)) ds else fst given <> 0) /\
  (pin_needed inst store = true -> wolf_pins inst (store_cert store 0) ds).
Definition wolf_judged inst n (given : wolfssl_given) (ds : digests) n' (r : wolfssl_answer) : Prop :=
  (r <> 0 -> accepted inst given ds) /\ (wf_PeerPinned n' = true -> wf_PeerPinned n = true \/ wolf_pins inst (store_cert (snd given) 0) ds).

Lemma Stands_leads store base cfg h ci inst p Hd n lib tr cr up bu rs ws te (Q : bool -> stream -> seen -> Prop) :
  (forall b checks more, (b = true -> parses (store_cert store (ws_error_depth store)) (te_Digests te ++ more)) ->
    Q b (mkTlsStream base cfg h ci inst p Hd (mkWolfSslNotes checks (wf_PeerPinned n))) (mkTlsSeen lib tr cr up bu rs ws (mkEvidence (te_Installed te) (te_Checks te) (te_Digests te ++ more) (te_Below te)))) ->
  leads (WolfSslStream_StandsWithoutASigner codes store) (mkTlsStream base cfg h ci inst p Hd n) (mkTlsSeen lib tr cr up bu rs ws te) Q.
Proof using.
  intros HQ. unfold WolfSslStream_StandsWithoutASigner, refuse_check, wolf_set_notes. tleads_on. apply tleads_quiet. intros answer. exists lib. split; [done |].
  unfold tls_digest. tleads_on. apply tleads_any_env. intros [[error length] made]. tleads_on. eapply tleads_happens; [reflexivity |]. tleads_on. apply tleads_quiet. intros answer'. exists lib. split; [done |].
  tleads_on. apply HQ. intros He%Z.eqb_eq. cbn in He. exists length, made. apply in_app_iff. right. left. by rewrite He.
Qed.
Lemma WolfVerifyPeer_leads given base cfg h ci inst p Hd n lib tr cr up bu rs ws te :
  leads (WolfSslStream_VerifyPeer codes build scratch area given) (mkTlsStream base cfg h ci inst p Hd n) (mkTlsSeen lib tr cr up bu rs ws te)
    (fun r self' s' => exists n' ds, self' = mkTlsStream base cfg h ci inst p Hd n' /\
      s' = mkTlsSeen lib tr cr up bu rs ws (mkEvidence (te_Installed te) (te_Checks te) ds (te_Below te)) /\ wolf_judged inst n given ds n' r).
Proof using OK fits scratch_bytes area_fits area_bytes.
  destruct given as [preverify store]. unfold WolfSslStream_VerifyPeer, WolfSslStream_LeafMatchesAPin. tleads_on.
  change (WolfSslStream_IsMissingSignerAPinCanWaive codes _ store) with (waivable inst store). destruct (waivable inst store) eqn:Ew.
  - assert (Hneed : pin_needed inst store = true).
    { unfold waivable in Ew. apply andb_prop in Ew as [[Ep Ea]%andb_prop _]. unfold pin_needed. by rewrite Ep, Ea. }
    tleads_on. apply AuthoriseLeaf_leads. intros b checks more Hb. destruct b; cbn iota.
    + apply Stands_leads. intros b checks' more' Hp. cbn [te_Installed te_Checks te_Digests wf_PeerPinned] in *. tleads_on. do 2 eexists. split; [done |]. split; [done |].
      pose proof (wolf_pins_more _ _ _ more' (Hb eq_refl)) as Hpin. rewrite <- app_assoc in *. split; cbn [snd wf_PeerPinned]; [| by right]. intros Hr. unfold accepted. cbn [snd]. rewrite Ew.
      destruct b; [| done]. split; [by apply Hp | done].
    + tleads_on. do 2 eexists. split; [done |]. split; [done |]. by split.
  - unfold refuse_check, wolf_set_notes. tleads_on. change (WolfSslStream_IsPinCheckedHere build _ store) with (pin_needed inst store).
    destruct (pin_needed inst store) eqn:Ep.
    + tleads_on. apply AuthoriseLeaf_leads. intros b checks more Hb. tleads_on. do 2 eexists. split; [done |]. split; [done |]. split; cbn [snd wf_PeerPinned]; [| by intros ->; right; apply Hb].
      intros Hr. unfold accepted. cbn [fst snd]. rewrite Ew. destruct b; [| done]. split; [done |]. intros _. by apply Hb.
    + tleads_on. eexists _, (te_Digests te). split; [done |]. split; [by destruct te |]. split; cbn [snd wf_PeerPinned set_field]; [| by left]. intros Hr. unfold accepted. cbn [fst snd]. rewrite Ew, Ep. by split.
Qed.

(** ** The ledger *)

Record wolf_ledger inst n (checks : list check) : Prop := {
  wo_Checks : Forall (fun ck => ck_Answer ck <> 0 -> accepted inst (ck_Given ck) (ck_Digests ck)) checks;
  wo_Pinned : wf_PeerPinned n = true -> Exists (fun ck => wolf_pins inst (store_cert (snd (ck_Given ck)) 0) (ck_Digests ck)) checks
}.
Lemma wolf_ledger_start inst checks : wolf_ledger inst (mkWolfSslNotes checks false) [].
Proof using. by constructor. Qed.
Lemma wolf_ledger_judged inst n checks given r ds n' : wolf_ledger inst n checks -> wolf_judged inst n given ds n' r -> wolf_ledger inst n' (checks ++ [mkCheck given r ds]).
Proof using.
  intros [Hc Hp] [Ha Hn]. constructor.
  - apply Forall_app. split; [done |]. by constructor.
  - intros E1. apply Exists_app. destruct (Hn E1) as [E2 | Hpin]; [left; auto | right; by constructor].
Qed.

(** ** The callbacks, and Close *)

Lemma wolfssl_callbacks : callbacks_ok K LP.
Proof using OK fits scratch_bytes area_fits area_bytes.
  constructor.
  - intros given base cfg h ci inst p Hd n lib tr cr up bu rs ws te. eapply tleads_mono; [apply WolfVerifyPeer_leads |].
    intros r self' s' (n' & ds & -> & -> & _). eauto.
  - intros handle buffer size self s Q HQ. cbn [tp_Receive wolfssl]. unfold WolfSslStream_IoRecv, transport_read. tleads_on. apply tleads_any_env. intros [n m]. by tleads_on.
  - intros handle data size self s Q HQ. cbn [tp_Transmit wolfssl]. unfold WolfSslStream_IoSend, transport_send. tleads_on. apply tleads_any_env. intros ok. by tleads_on.
Qed.
Definition wolfssl_idle (lib : wolfssl_held) (Hd : wolfssl_handles) : Prop := Hd = mkWolfSslHandles 0 0 /\ wl_Ctx lib = 0 /\ wl_Ssl lib = 0 /\ wl_Peer lib = 0.
(** The handles are what is held; a session stands on a context; nothing is borrowed. *)
Definition wolfssl_linked (lib : wolfssl_held) (Hd : wolfssl_handles) : Prop :=
  Hd = mkWolfSslHandles (wl_Ctx lib) (wl_Ssl lib) /\ wl_Peer lib = 0.
Definition wolfssl_live (lib : wolfssl_held) (Hd : wolfssl_handles) : Prop := wolfssl_linked lib Hd /\ wl_Ssl lib <> 0 /\ wolf_ready lib = true.
Lemma WolfClose_leads base cfg h ci inst p Hd n lib tr up bu rs ws te : wolfssl_linked lib Hd ->
  leads (WolfSslStream_Close codes build scratch area) (mkTlsStream base cfg h ci inst p Hd n) (mkTlsSeen lib tr ci up bu rs ws te) (fun _ self' s' => is_down wolfssl_idle base cfg h rs ws self' s' /\ fell_below s' = te_Below te).
Proof using OK fits scratch_bytes area_fits area_bytes.
  intros (-> & Ep). unfold WolfSslStream_Close, wolf_session, WolfSslStream_ReleaseCredentials. tleads_on. cbn [wf_Session].
  assert (Hrest : forall lib' n' te', te_Below te' = te_Below te -> wl_Ctx lib' = wl_Ctx lib -> wl_Ssl lib' = 0 -> wl_Peer lib' = 0 ->
    leads (let! handles := tls_get tl_Handles in
           if! negb (wf_Context handles =? 0) then
             tls_quiet (wolfSSL_CTX_free (wf_Context handles)) ;;; wolf_set_handles (fun h => h <| wf_Context := 0 |>)
           end! ;;; TlsStream_ReleaseCredentials ;;; close_transport)
      (mkTlsStream base cfg h ci inst p (mkWolfSslHandles (wl_Ctx lib) 0) n') (mkTlsSeen lib' tr ci up bu rs ws te') (fun _ self' s' => is_down wolfssl_idle base cfg h rs ws self' s' /\ fell_below s' = te_Below te)).
  { intros lib' n' te' Hbelow Ec Es Ep'. apply tleads_bind, tleads_get. cbn [tl_Handles wf_Context]. apply tleads_bind.
    assert (Hend : forall lib'', wl_Ctx lib'' = 0 -> wl_Ssl lib'' = 0 -> wl_Peer lib'' = 0 -> leads (TlsStream_ReleaseCredentials ;;; close_transport)
      (mkTlsStream base cfg h ci inst p (mkWolfSslHandles 0 0) n') (mkTlsSeen lib'' tr ci up bu rs ws te') (fun _ self' s' => is_down wolfssl_idle base cfg h rs ws self' s' /\ fell_below s' = te_Below te)).
    { intros lib'' E1 E2 E3. assert (Hi : lp_IsIdle LP lib'' = true) by (cbn; by rewrite E1, E2, E3). apply tleads_bind, ReleaseCredentials_leads; [done |].
      apply close_transport_leads; [done |]. split; [do 7 eexists; by split | exact Hbelow]. }
    destruct (Z.eqb_spec (wl_Ctx lib) 0) as [E0 | E0]; cbn [negb].
    - apply tleads_ret. rewrite E0. by apply Hend; [congruence | |].
    - apply tleads_bind, tleads_quiet. intros answer. exists (wolfssl_fresh 0 0). split; [cbn; by rewrite Es, Ec, !Z.eqb_refl, (proj2 (Z.eqb_neq _ _) E0) |]. unfold wolf_set_handles. apply tleads_set. by apply Hend. }
  destruct (Z.eqb_spec (wl_Ssl lib) 0) as [E0 | E0]; cbn [negb].
  - apply tleads_ret. rewrite E0. by apply Hrest.
  - apply tleads_bind. eapply (perform_quietly K LP wolfssl_callbacks _ _ _ _ _ _ _ _ _ _ _ _ _ _ (fun _ => True)); [intros e; apply ends_anyhow | |].
    { cbn. by rewrite Z.eqb_refl, (proj2 (Z.eqb_neq _ _) E0). }
    intros r n' te' _ Hbelow. cbn [act_wires]. apply tleads_bind, tleads_quiet. intros answer. eexists. split; [cbn; rewrite Ep, !Z.eqb_refl, (proj2 (Z.eqb_neq _ _) E0); reflexivity |].
    unfold wolf_set_handles at 1. apply tleads_set. by apply Hrest.
Qed.

(** ** The stages of an Open *)

Section opening.
Context (base : stream_vtable) (cfg : tls_wiring SolidSyslogWolfSslProfile E) (h : SolidSyslogStreamOpenHealth) (rs : list SolidSyslogErrorEvent) (ws : list bytes).
Abbreviation stage := (tls_stage (C := wolfssl_call) (V := wolfssl_given) (R := wolfssl_answer) (H := wolfssl_handles) (N := wolfssl_notes) (P := SolidSyslogWolfSslProfile) (L := wolfssl_held)).
Abbreviation climbing := (climbing K base cfg h rs ws).
Abbreviation falling := (falling K base cfg h rs ws wolfssl_linked).
Abbreviation rises m cr T cr' T' := (climbs K LP base cfg h rs ws wolfssl_linked m cr T cr' T').
Abbreviation as_linked := (fun lib Hd _ _ _ _ => wolfssl_linked lib Hd).

Definition wolf_unjudged n te : Prop := n = mkWolfSslNotes 0 false /\ te = no_evidence.
(** What may authorise the peer, and what its certificates were found to be. *)
Definition wolf_noted inst n te : Prop :=
  TlsStream_PeerIsAuthorisable inst = true /\ WolfSslStream_BuildCanEnforceBoth build inst = true /\ te_Installed te = inst /\ wolf_ledger inst n (te_Checks te).
Definition at_wolf_nothing : stage := fun lib Hd p inst n te => wolfssl_idle lib Hd /\ wolf_unjudged n te.
Definition at_wolf_context (ctx : Z) : stage := fun lib Hd p inst n te => wolfssl_linked lib Hd /\ wl_Ctx lib = ctx /\ ctx <> 0 /\ wl_Ssl lib = 0 /\ wolf_unjudged n te.
Definition at_wolf_credentials : stage := fun lib Hd p inst n te => wolfssl_linked lib Hd /\ wl_Ctx lib <> 0 /\ wl_Ssl lib = 0 /\ wolf_noted inst n te.
(** A session, and what is set on it. *)
Definition on_session (ssl : Z) (F : wolfssl_held -> SolidSyslogWolfSslProfile -> Prop) : stage := fun lib Hd p inst n te =>
  wolfssl_linked lib Hd /\ wl_Ssl lib = ssl /\ ssl <> 0 /\ F lib p /\ wolf_noted inst n te.
Abbreviation any_session F := (fun lib Hd p inst n te => exists ssl, on_session ssl F lib Hd p inst n te).
Definition unset (_ : wolfssl_held) (_ : SolidSyslogWolfSslProfile) : Prop := True.
Definition strong (lib : wolfssl_held) (_ : SolidSyslogWolfSslProfile) : Prop := wl_Version lib = true /\ wl_Rsa lib = true /\ wl_Ecc lib = true /\ wl_Dh lib = true.
(** The name the profile gives is what the peer is checked for, as an address where it is
    one. *)
Definition wolf_named (lib : wolfssl_held) (p : SolidSyslogWolfSslProfile) : Prop :=
  forall name, wp_ServerName p = Some name -> name.[0] <> 0 -> wl_Name lib = Some (WolfSslStream_IsAddressLiteral name, name).
Definition named_strong (lib : wolfssl_held) (p : SolidSyslogWolfSslProfile) : Prop := strong lib p /\ wolf_named lib p.
Definition handshake_ready (lib : wolfssl_held) (p : SolidSyslogWolfSslProfile) : Prop := wolf_ready lib = true /\ wolf_named lib p.

Lemma on_session_linked ssl F lib Hd p inst n te : on_session ssl F lib Hd p inst n te -> wolfssl_linked lib Hd.
Proof using. by intros [? _]. Qed.
Lemma BuildContext_rises : rises (WolfSslStream_BuildContext codes build scratch area) false at_wolf_nothing false (fun lib Hd p inst n te => exists ctx, at_wolf_context ctx lib Hd p inst n te).
Proof using.
  intros bu self s (inst & p & Hd & n & lib & warnings & te & -> & -> & Hw & ((-> & Ec & Es & Ep) & Hu)). unfold WolfSslStream_BuildContext, wolf_set_handles. tleads_on.
  apply tleads_call. intros method. exists lib. split; [done |]. tleads_on. apply tleads_call. intros ctx. eexists. split; [cbn; rewrite Ec, Es; reflexivity |]. tleads_on.
  apply (reported_leads K LP base cfg h rs ws wolfssl_linked _ as_linked false bu (negb (ctx =? 0))); [by intros ? | done |].
  destruct (Z.eqb_spec ctx 0) as [-> | Hne]; cbn [negb]; do 7 eexists; (split; [done |]); (split; [done |]); (split; [done |]); [done | by exists ctx].
Qed.
Lemma WolfInstallCredentials_rises : rises (WolfSslStream_InstallCredentials codes build scratch area) false (fun lib Hd p inst n te => exists ctx, at_wolf_context ctx lib Hd p inst n te) true at_wolf_credentials.
Proof using.
  intros bu self s (inst & p & Hd & n & lib & warnings & te & -> & -> & Hw & (ctx & Ht)). unfold WolfSslStream_InstallCredentials. tleads_on.
  assert (wf_Context Hd = ctx) as -> by (destruct Ht as [(-> & _) (<- & _)]; done).
  eapply tleads_mono; [apply (InstallCredentials_climbs K LP base cfg h rs ws wolfssl_linked (at_wolf_context ctx) ctx) |].
  - by intros lib' Hd' p' inst' n' te' [? _].
  - intros lib' Hd' p' inst' n' te' (_ & <- & Hne & Es & _). cbn. by rewrite Z.eqb_refl, (proj2 (Z.eqb_neq _ _) Hne), Es.
  - do 7 eexists. split; [done |]. split; [done |]. by split.
  - clear. intros [] self s Hs; [| done]. tleads_on.
    set (T := fun lib Hd (p : SolidSyslogWolfSslProfile) inst n te => wolfssl_linked lib Hd).
    apply (reported_leads K LP base cfg h rs ws wolfssl_linked at_wolf_credentials as_linked true bu); [by intros ? | done |].
    destruct Hs as (inst & p & Hd & n & lib & warnings & te & -> & -> & Hw & (Ha & inst0 & te0 & (Hl & <- & Hne & Es & -> & ->) & ->)). cbn [tl_Installed].
    destruct (WolfSslStream_BuildCanEnforceBoth build inst) eqn:Eb; do 7 eexists; (split; [done |]); (split; [done |]); (split; [done |]); [| done].
    unfold at_wolf_credentials, wolf_noted. split_and!; done || apply wolf_ledger_start.
Qed.
Lemma CreateSession_rises : rises (WolfSslStream_CreateSession codes build scratch area) true at_wolf_credentials true (any_session unset).
Proof using.
  intros bu self s (inst & p & Hd & n & lib & warnings & te & -> & -> & Hw & ((-> & Ep) & Hc & Es & Hn)). unfold WolfSslStream_CreateSession, wolf_set_handles. tleads_on. cbn [wf_Context].
  apply tleads_call. intros ssl. eexists. split; [cbn; rewrite Es, !Z.eqb_refl, (proj2 (Z.eqb_neq _ _) Hc); reflexivity |]. tleads_on.
  apply (reported_leads K LP base cfg h rs ws wolfssl_linked _ as_linked true bu (negb (ssl =? 0))); [by intros ? | done |].
  destruct (Z.eqb_spec ssl 0) as [-> | Hne]; cbn [negb]; do 7 eexists; (split; [done |]); (split; [done |]); (split; [done |]); [done |]. exists ssl. unfold on_session. by split_and!.
Qed.

(** A call on the session, and one that must succeed. *)
Lemma session_call call (set : wolfssl_held -> Z -> wolfssl_held) ssl F F' lib Hd p inst n te answer :
  (forall l answer, wolfssl_step codes l call answer = if (ssl =? wl_Ssl l) && negb (ssl =? 0) then Some (set l answer) else None) ->
  (forall l answer, wl_Ctx (set l answer) = wl_Ctx l /\ wl_Ssl (set l answer) = wl_Ssl l /\ wl_Peer (set l answer) = wl_Peer l) ->
  (F lib p -> F' (set lib answer) p) ->
  on_session ssl F lib Hd p inst n te -> wolfssl_step codes lib call answer = Some (set lib answer) /\ on_session ssl F' (set lib answer) Hd p inst n te.
Proof using.
  intros Hstep Hset Hf ((-> & Ep) & <- & Hne & HF & Hn). rewrite Hstep, Z.eqb_refl, (proj2 (Z.eqb_neq _ _) Hne). split; [done |].
  destruct (Hset lib answer) as (E1 & E2 & E3). unfold on_session, wolfssl_linked. rewrite E1, E2, E3. by split_and!; auto.
Qed.
Lemma succeeds_tries call (set : wolfssl_held -> Z -> wolfssl_held) ssl F F' :
  (forall l answer, wolfssl_step codes l call answer = if (ssl =? wl_Ssl l) && negb (ssl =? 0) then Some (set l answer) else None) ->
  (forall l answer, wl_Ctx (set l answer) = wl_Ctx l /\ wl_Ssl (set l answer) = wl_Ssl l /\ wl_Peer (set l answer) = wl_Peer l) ->
  (forall lib p answer, (answer =? WOLFSSL_SUCCESS codes) = true -> F lib p -> F' (set lib answer) p) ->
  tries K LP base cfg h rs ws (succeeds codes call) true (on_session ssl F) (on_session ssl F') (on_session ssl unset).
Proof using.
  intros Hstep Hset Hf. apply (call_tries K LP base cfg h rs ws _ _ _ true call (fun rc => rc =? WOLFSSL_SUCCESS codes)). intros lib Hd p inst n te answer Ht. exists (set lib answer).
  destruct (answer =? WOLFSSL_SUCCESS codes) eqn:Ea; apply (session_call call set ssl F _ lib Hd p inst n te answer Hstep Hset); auto. done.
Qed.
Lemma quiet_on_session call (set : wolfssl_held -> wolfssl_held) ssl F F' bu self s (Q : unit -> stream -> seen -> Prop) : climbing true bu (on_session ssl F) self s ->
  (forall l answer, wolfssl_step codes l call answer = if (ssl =? wl_Ssl l) && negb (ssl =? 0) then Some (set l) else None) ->
  (forall l, wl_Ctx (set l) = wl_Ctx l /\ wl_Ssl (set l) = wl_Ssl l /\ wl_Peer (set l) = wl_Peer l) ->
  (forall lib p, F lib p -> F' (set lib) p) ->
  (forall s', climbing true bu (on_session ssl F') self s' -> Q tt self s') -> leads (tls_quiet call) self s Q.
Proof using.
  intros (inst & p & Hd & n & lib & warnings & te & -> & -> & Hw & Ht) Hstep Hset Hf HQ. apply tleads_quiet. intros answer. exists (set lib).
  destruct (session_call call (fun l _ => set l) ssl F F' lib Hd p inst n te answer Hstep) as [Hs Ht']; [auto | auto | done |]. split; [exact Hs |]. apply HQ. do 7 eexists. split; [done |]. split; [done |]. by split.
Qed.
Lemma session_at {ssl F bu self s} : climbing true bu (on_session ssl F) self s -> wf_Session (tl_Handles self) = ssl.
Proof using. by intros (inst & p & Hd & n & lib & warnings & te & -> & -> & Hw & ((-> & _) & <- & _)). Qed.
Lemma any_session_at {F bu self s} : climbing true bu (any_session F) self s -> climbing true bu (on_session (wf_Session (tl_Handles self)) F) self s.
Proof using. intros (inst & p & Hd & n & lib & warnings & te & -> & -> & Hw & (ssl & Ht)). pose proof Ht as ((-> & _) & <- & _). do 7 eexists. split; [done |]. split; [done |]. by split. Qed.
Lemma any_session_from {ssl F bu self s} : climbing true bu (on_session ssl F) self s -> climbing true bu (any_session F) self s.
Proof using. apply climbing_weaken. eauto. Qed.
Lemma WolfApplyTlsPolicy_rises : rises (WolfSslStream_ApplyTlsPolicy codes build scratch area) true (any_session unset) true (any_session strong).
Proof using.
  intros bu self s Hs. apply any_session_at in Hs. unfold WolfSslStream_ApplyTlsPolicy, wolf_session. apply tleads_bind, tleads_get. set (ssl := wf_Session _) in *.
  apply tleads_bind. eapply tleads_mono.
  - apply (tries_and K LP base cfg h rs ws _ _ true (on_session ssl unset) (on_session ssl (fun l _ => wl_Version l = true)) (on_session ssl strong) (on_session ssl unset)); [| | exact Hs].
    + apply (succeeds_tries _ (fun l answer => l <| wl_Version := (answer =? WOLFSSL_SUCCESS codes) && (WOLFSSL_TLSV1_2 codes =? WOLFSSL_TLSV1_2 codes) |>)); [done | done |].
      intros lib p answer Ha _. cbn. by rewrite Ha, Z.eqb_refl.
    + eapply (tries_and K LP base cfg h rs ws _ _ true _ (on_session ssl (fun l _ => wl_Version l = true /\ wl_Rsa l = true))).
      { apply (succeeds_tries _ (fun l answer => l <| wl_Rsa := (answer =? WOLFSSL_SUCCESS codes) && (WOLFSSL_STREAM_MIN_RSA_KEY_BITS <=? WOLFSSL_STREAM_MIN_RSA_KEY_BITS) |>)); [done | done |].
        intros lib p answer Ha Hv. cbn. by rewrite Ha. }
      eapply (tries_and K LP base cfg h rs ws _ _ true _ (on_session ssl (fun l _ => wl_Version l = true /\ wl_Rsa l = true /\ wl_Ecc l = true))).
      { apply (succeeds_tries _ (fun l answer => l <| wl_Ecc := (answer =? WOLFSSL_SUCCESS codes) && (WOLFSSL_STREAM_MIN_ECC_KEY_BITS <=? WOLFSSL_STREAM_MIN_ECC_KEY_BITS) |>)); [done | done |].
        intros lib p answer Ha [Hv Hr]. cbn. by rewrite Ha. }
      apply (succeeds_tries _ (fun l answer => l <| wl_Dh := (answer =? WOLFSSL_SUCCESS codes) && (WOLFSSL_STREAM_MIN_DH_KEY_BITS <=? WOLFSSL_STREAM_MIN_DH_KEY_BITS) |>)); [done | done |].
      intros lib p answer Ha (Hv & Hr & He). unfold strong. cbn. by rewrite Ha.
  - clear s Hs. intros ok self' s Hs. eapply tleads_mono; [apply (reported_leads K LP base cfg h rs ws wolfssl_linked (on_session ssl strong) (on_session ssl unset) true bu ok); [| done | by destruct ok] |].
    + intros ? ? ? ? ? ?. apply on_session_linked.
    + intros [] self1 s1; [| done]. apply any_session_from.
Qed.
Lemma WolfApplyCipherPolicy_rises : rises (WolfSslStream_ApplyCipherPolicy codes build scratch area) true (any_session strong) true (any_session strong).
Proof using.
  intros bu self s Hs. unfold WolfSslStream_ApplyCipherPolicy. apply tleads_bind, tleads_get. destruct (wp_CipherList (tl_Profile self)) as [list |]; [| by apply tleads_ret].
  apply any_session_at in Hs. set (ssl := wf_Session _) in *.
  eapply tleads_mono; [apply (climbs_reported K LP base cfg h rs ws wolfssl_linked _ true (on_session ssl strong) (on_session ssl strong) (on_session ssl unset)); [| | done | exact Hs] |].
  - by apply (succeeds_tries _ (fun l _ => l)).
  - intros ? ? ? ? ? ?. apply on_session_linked.
  - intros [] self1 s1; [| done]. apply any_session_from.
Qed.
Lemma DeclareExpectedPeer_leads serverName bu self s (Q : Z -> stream -> seen -> Prop) ssl : climbing true bu (on_session ssl strong) self s ->
  (forall rc s', climbing true bu (on_session ssl (fun l p => strong l p /\ wl_Name l = if rc =? WOLFSSL_SUCCESS codes then Some (WolfSslStream_IsAddressLiteral serverName, serverName) else None)) self s' -> Q rc self s') ->
  leads (WolfSslStream_DeclareExpectedPeer serverName) self s Q.
Proof using.
  intros Hs HQ. unfold WolfSslStream_DeclareExpectedPeer, wolf_session. apply tleads_bind, tleads_get. rewrite (session_at Hs).
  destruct Hs as (inst & p & Hd & n & lib & warnings & te & -> & -> & Hw & Ht). apply tleads_call. intros rc.
  set (call := if WolfSslStream_IsAddressLiteral serverName then _ else _).
  destruct (session_call call (fun l answer => l <| wl_Name := if answer =? WOLFSSL_SUCCESS codes then Some (WolfSslStream_IsAddressLiteral serverName, serverName) else None |>)
    ssl strong (fun l p => strong l p /\ wl_Name l = if rc =? WOLFSSL_SUCCESS codes then Some (WolfSslStream_IsAddressLiteral serverName, serverName) else None) lib Hd p inst n te rc) as [Hs Ht'].
  - intros l answer. unfold call. by destruct (WolfSslStream_IsAddressLiteral serverName).
  - done.
  - done.
  - exact Ht.
  - eexists. split; [exact Hs |]. apply HQ. do 7 eexists. split; [done |]. split; [done |]. by split.
Qed.
Lemma ConfigureExpectedPeerName_rises : rises (WolfSslStream_ConfigureExpectedPeerName codes build scratch area) true (any_session strong) true (any_session named_strong).
Proof using.
  intros bu self s Hs. unfold WolfSslStream_ConfigureExpectedPeerName. apply tleads_bind, tleads_get. apply any_session_at in Hs. set (ssl := wf_Session _) in *.
  destruct (wp_ServerName (tl_Profile self)) as [name |] eqn:Ename.
  - destruct (Z.eqb_spec (name.[0]) 0) as [E0 | E0]; cbn [negb].
    { apply tleads_ret. apply (any_session_from (ssl := ssl)). destruct Hs as (inst & p & Hd & n & lib & warnings & te & -> & -> & Hw & (Hl & Es & Hne & HF & Hn)).
      do 7 eexists. split; [done |]. split; [done |]. split; [done |]. unfold on_session, named_strong, wolf_named. cbn [tl_Profile] in Ename. split_and!; try done. intros name'. congruence. }
    unfold WolfSslStream_ApplyExpectedPeerName. apply tleads_bind, (DeclareExpectedPeer_leads _ _ _ _ _ _ Hs). clear s Hs. intros rc s Hs.
    destruct (rc =? WOLFSSL_SUCCESS codes); cbn [negb].
    2: { apply (reported_leads K LP base cfg h rs ws wolfssl_linked _ (on_session ssl (fun l p => strong l p /\ wl_Name l = None)) true bu false); [by intros ? ? ? ? ? ? [? _] | done | exact Hs]. }
    unfold wolf_session. apply tleads_bind, tleads_get. rewrite (session_at Hs). set (p0 := tl_Profile self) in *.
    destruct Hs as (inst & p & Hd & n & lib & warnings & te & -> & -> & Hw & Ht). apply tleads_bind, tleads_call. intros rc'. exists lib.
    split; [destruct Ht as (_ & Es & Hne & _); cbn; by rewrite Es, Z.eqb_refl, (proj2 (Z.eqb_neq _ _) Hne) |].
    apply (reported_leads K LP base cfg h rs ws wolfssl_linked (any_session named_strong) as_linked true bu); [by intros ? | done |].
    destruct Ht as (Hl & Es & Hne & [HF Hname] & Hn). destruct (rc' =? WOLFSSL_SUCCESS codes); do 7 eexists; (split; [done |]); (split; [done |]); (split; [done |]); [| done].
    exists ssl. unfold on_session, named_strong, wolf_named. split_and!; try done. intros name' En _. subst p0. cbn [tl_Profile] in *. congruence.
  - assert (Hdone : forall s, climbing true bu (on_session ssl strong) self s -> climbing true bu (any_session named_strong) self s).
    { clear s Hs. intros s (inst & p & Hd & n & lib & warnings & te & -> & -> & Hw & (Hl & Es & Hne & HF & Hn)).
      do 7 eexists. split; [done |]. split; [done |]. split; [done |]. exists ssl. unfold on_session, named_strong, wolf_named. cbn [tl_Profile] in Ename. split_and!; try done. intros name'. congruence. }
    apply tleads_bind. destruct (negb (WolfSslStream_IsPinned self)); [| apply tleads_ret, tleads_ret; by apply Hdone].
    pose proof Hs as (inst & p & Hd & n & lib & warnings & te & -> & -> & Hw & Ht). apply TlsReport_leads, tleads_ret, Hdone. rewrite <- app_assoc.
    do 7 eexists. split; [done |]. split; [done |]. split; [| done]. by apply (warned_again K).
Qed.
Lemma Callbacks_and_policy_leads {A} (k : op A) bu self s (Q : A -> stream -> seen -> Prop) : climbing true bu (any_session named_strong) self s ->
  (forall s', climbing true bu (any_session handshake_ready) self s' -> leads k self s' Q) ->
  leads (WolfSslStream_InstallTransportCallbacks ;;; WolfSslStream_ApplyPeerVerificationPolicy codes ;;; k) self s Q.
Proof using.
  intros Hs HQ. apply any_session_at in Hs. unfold WolfSslStream_InstallTransportCallbacks, WolfSslStream_ApplyPeerVerificationPolicy, wolf_session. set (ssl := wf_Session _) in *.
  set (F1 := fun l p => named_strong l p /\ wl_Recv l = true). set (F2 := fun l p => F1 l p /\ wl_Send l = true).
  set (F3 := fun l p => F2 l p /\ wl_ReadCtx l = true). set (F4 := fun l p => F3 l p /\ wl_WriteCtx l = true). set (F5 := fun l p => F4 l p /\ wl_Verifies l = true).
  apply tleads_bind, tleads_bind, tleads_get, tleads_bind. apply (quiet_on_session _ (fun l => l <| wl_Recv := true |>) ssl named_strong F1 bu _ s); [done | done | done | done |]. clear s Hs. intros s Hs.
  apply tleads_bind. apply (quiet_on_session _ (fun l => l <| wl_Send := true |>) ssl F1 F2 bu _ s); [done | done | done | done |]. clear s Hs. intros s Hs.
  apply tleads_bind. apply (quiet_on_session _ (fun l => l <| wl_ReadCtx := true |>) ssl F2 F3 bu _ s); [done | done | done | done |]. clear s Hs. intros s Hs.
  apply (quiet_on_session _ (fun l => l <| wl_WriteCtx := true |>) ssl F3 F4 bu _ s); [done | done | done | done |]. clear s Hs. intros s Hs.
  apply tleads_bind, tleads_bind, tleads_get, tleads_bind. set (mode := Z.lor _ _).
  apply (quiet_on_session _ (fun l => l <| wl_Verifies := mode =? mode |>) ssl F4 F5 bu _ s); [done | done | done | intros l p Hf; split; [done | apply Z.eqb_refl] |]. clear s Hs. intros s Hs.
  apply (quiet_on_session _ (fun l => l <| wl_CertCtx := true |>) ssl F5 handshake_ready bu _ s); [done | done | done | |].
  { intros l p (((((((E1 & E2 & E3 & E4) & Hn) & E5) & E6) & E7) & E8) & E9). split; [| done]. unfold wolf_ready. cbn. by rewrite E1, E2, E3, E4, E5, E6, E7, E8, E9. }
  clear s Hs. intros s Hs. apply HQ. by eapply any_session_from.
Qed.

Abbreviation at_wolf_ready := (any_session handshake_ready).
(** A pinned peer's leaf matched, in the callback or as the peer that was kept. *)
Definition pin_confirmed inst (lib : wolfssl_held) te : Prop := wolf_pinned inst = true ->
  Exists (fun ck => wolf_pins inst (store_cert (snd (ck_Given ck)) 0) (ck_Digests ck)) (te_Checks te) \/ wolf_pins inst (wl_PeerDer lib) (te_Digests te).
Definition at_wolf_peer : stage := fun lib Hd p inst n te => wolfssl_live lib Hd /\ wolf_named lib p /\ TlsStream_PeerIsAuthorisable inst = true /\ WolfSslStream_BuildCanEnforceBoth build inst = true /\
  te_Installed te = inst /\ Forall (fun ck => ck_Answer ck <> 0 -> accepted inst (ck_Given ck) (ck_Digests ck)) (te_Checks te) /\ pin_confirmed inst lib te.

Lemma AuthoriseKeptPeer_leads inst p lib n te bu reports (Q : unit -> stream -> seen -> Prop) : wl_Ssl lib <> 0 -> wl_Peer lib = 0 ->
  (forall lib' n' more, wl_Ctx lib' = wl_Ctx lib -> wl_Ssl lib' = wl_Ssl lib -> wl_Peer lib' = 0 -> wolf_ready lib' = wolf_ready lib -> wl_Name lib' = wl_Name lib ->
    (wf_PeerPinned n' = true -> wf_PeerPinned n = true \/ wolf_pins inst (wl_PeerDer lib') (te_Digests te ++ more)) ->
    Q tt (mkTlsStream base cfg h true inst p (mkWolfSslHandles (wl_Ctx lib) (wl_Ssl lib)) n')
      (mkTlsSeen lib' true true false bu reports ws (mkEvidence (te_Installed te) (te_Checks te) (te_Digests te ++ more) (te_Below te)))) ->
  leads (SolidSyslogWolfSslStream_AuthoriseKeptPeer build scratch area) (mkTlsStream base cfg h true inst p (mkWolfSslHandles (wl_Ctx lib) (wl_Ssl lib)) n) (mkTlsSeen lib true true false bu reports ws te) Q.
Proof using OK fits scratch_bytes area_fits area_bytes.
  intros Hs Hp HQ. assert (Hsame : leads (st_ret tt) (mkTlsStream base cfg h true inst p (mkWolfSslHandles (wl_Ctx lib) (wl_Ssl lib)) n) (mkTlsSeen lib true true false bu reports ws te) Q).
  { apply tleads_ret. specialize (HQ lib n []). rewrite app_nil_r in HQ. destruct te. apply HQ; auto. }
  unfold SolidSyslogWolfSslStream_AuthoriseKeptPeer. destruct build; [exact Hsame | | exact Hsame].
  unfold AuthoriseKeptPeer_AfterHandshake, wolf_session. tleads_on. cbn [wf_Session]. apply tleads_call. intros peer. eexists. split; [cbn; rewrite Hp, !Z.eqb_refl, (proj2 (Z.eqb_neq _ _) Hs); reflexivity |].
  tleads_on. apply tleads_call. intros der. eexists. split; [cbn; rewrite Z.eqb_refl; reflexivity |]. tleads_on. apply tleads_call. intros length. eexists. split; [cbn; rewrite Z.eqb_refl; reflexivity |].
  tleads_on. apply AuthoriseLeaf_leads. intros b checks more Hb. tleads_on. apply tleads_quiet. intros answer. eexists. split; [cbn; rewrite Z.eqb_refl; reflexivity |].
  apply HQ; try done. cbn. auto.
Qed.
Lemma PinIsConfirmed_leads bu self s : climbing true bu at_wolf_ready self s ->
  leads (WolfSslStream_PinIsConfirmed codes build scratch area) self s (fun b self' s' => if b : bool then climbing true bu at_wolf_peer self' s' else falling self' s').
Proof using OK fits scratch_bytes area_fits area_bytes.
  intros (inst & p & Hd & n & lib & warnings & te & -> & -> & Hw & (ssl & ((-> & Ep) & <- & Hne & [Hr Hnm] & (Ha & Hb & Hi & [Hc Hpin])))). unfold WolfSslStream_PinIsConfirmed.
  apply tleads_bind, tleads_get, tleads_bind. unfold WolfSslStream_IsPinned at 1. cbn [tl_Installed tl_Notes]. change (0 <? in_FingerprintCount inst) with (wolf_pinned inst).
  set (Q := fun (b : bool) self' s' => if b then climbing true bu at_wolf_peer self' s' else falling self' s').
  assert (Hrest : forall lib' n' te', wl_Ctx lib' = wl_Ctx lib -> wl_Ssl lib' = wl_Ssl lib -> wl_Peer lib' = 0 -> wolf_ready lib' = wolf_ready lib -> wl_Name lib' = wl_Name lib ->
    te_Below te' = te_Below te -> te_Installed te' = te_Installed te -> te_Checks te' = te_Checks te -> (wf_PeerPinned n' = true -> wf_PeerPinned n = true \/ wolf_pins inst (wl_PeerDer lib') (te_Digests te')) ->
    leads (let! self := tls_get (fun self => self) in
      let ok := negb (WolfSslStream_IsPinned self) || wf_PeerPinned (tl_Notes self) in
      if! negb ok then
        refuse_check WOLFSSL_STREAM_CHECK_FINGERPRINT ;;;
        let! notes := tls_get tl_Notes in
        WolfSslStream_ReportOpenFailure codes build scratch area SOLIDSYSLOG_SEVERITY_ERROR SOLIDSYSLOG_CAT_TLS_STREAM_HANDSHAKE_FAILED (WolfSslStream_RefusalDetail notes)
      end! ;;; st_ret ok)
      (mkTlsStream base cfg h true inst p (mkWolfSslHandles (wl_Ctx lib) (wl_Ssl lib)) n') (mkTlsSeen lib' true true false bu (rs ++ warnings) ws te') Q).
  { intros lib' n' te' E1 E2 E3 E4 E5 Hbelow E6 E7 Hn'. rewrite <- Hbelow in Hw. apply tleads_bind, tleads_get. unfold WolfSslStream_IsPinned. cbn [tl_Installed tl_Notes]. change (0 <? in_FingerprintCount inst) with (wolf_pinned inst).
    destruct (negb (wolf_pinned inst) || wf_PeerPinned n') eqn:Eok; cbn [negb]; tleads_on.
    - do 7 eexists. split; [done |]. split; [done |]. split; [exact Hw |]. unfold at_wolf_peer, wolfssl_live, wolfssl_linked, wolf_named, pin_confirmed. rewrite E1, E2, E3, E4, E5, E6, E7.
      split_and!; try done. intros Ep'. rewrite Ep' in Eok. cbn in Eok. destruct (Hn' Eok) as [En | Hpins]; [left; auto | by right].
    - unfold refuse_check, wolf_set_notes. tleads_on.
      match goal with |- tls_leads _ _ ?self' ?s' _ => assert (Hs' : climbing true bu as_linked self' s') end.
      { do 7 eexists. split; [done |]. split; [done |]. split; [exact Hw |]. unfold wolfssl_linked. by rewrite E1, E2, E3. }
      eapply tleads_mono; [eapply (falls K LP base cfg h rs ws wolfssl_linked as_linked); [by intros ? | done | exact Hs'] |]. intros [] self1 s1 Hf. by tleads_on. }
  destruct (wolf_pinned inst && negb (wf_PeerPinned n)) eqn:Eask; [| apply tleads_ret, Hrest; auto].
  apply AuthoriseKeptPeer_leads; [done | done |]. intros lib' n' more E1 E2 E3 E4 E5 Hn'. by apply Hrest.
Qed.
Lemma wolf_handshake_judging h' inst p Hd lib tr cr up bu rs' ws' : judging_keeps K LP base cfg h' cr inst p Hd lib tr cr up bu rs' ws'
  (fun n te => te_Installed te = inst /\ wolf_ledger inst n (te_Checks te)).
Proof using OK fits scratch_bytes area_fits area_bytes.
  intros check n te [Hi Hl]. eapply tleads_mono; [apply WolfVerifyPeer_leads |]. intros r self' s' (n' & ds & -> & -> & Hj). exists n', ds. split; [done |]. split; [done |].
  split; [done |]. cbn [te_Checks]. by eapply wolf_ledger_judged.
Qed.
Lemma ready_linked lib Hd p inst n te : at_wolf_ready lib Hd p inst n te -> wolfssl_linked lib Hd.
Proof using. by intros (ssl & ? & _). Qed.
Lemma WolfTurn_leads bu self s : climbing true bu at_wolf_ready self s -> leads (WolfSslStream_Turn codes build scratch area) self s (fun turn self' s' =>
  match turn with HandshakeOver true => climbing true bu at_wolf_peer self' s' | HandshakeOver false => falling self' s' | _ => climbing true bu at_wolf_ready self' s' end).
Proof using OK fits scratch_bytes area_fits area_bytes.
  intros (inst & p & Hd & n & lib & warnings & te & -> & -> & Hw & (ssl & ((-> & Ep) & <- & Hne & [Hr Hnm] & (Ha & Hb & Hi & Hl)))). unfold WolfSslStream_Turn, session. tleads_on.
  eapply tleads_mono; [apply (perform_leads K LP wolfssl_callbacks) with (J := fun n te => te_Installed te = inst /\ wolf_ledger inst n (te_Checks te)) (F := fun _ => True) |].
  - apply wolf_handshake_judging.
  - done.
  - intros e. apply ends_anyhow.
  - cbn. by rewrite Z.eqb_refl, (proj2 (Z.eqb_neq _ _) Hne), Hr.
  - clear Hi Hl. intros r self' s' (n' & te' & -> & -> & Hbelow & [Hi Hl] & _).
    match goal with |- leads _ ?self' ?s' _ => assert (Hs' : climbing true bu at_wolf_ready self' s') end.
    { do 7 eexists. split; [done |]. split; [done |]. split; [by rewrite Hbelow |]. exists (wl_Ssl lib). unfold on_session, wolfssl_linked, handshake_ready, wolf_noted. by split_and!. }
    tleads_on. apply tleads_call. intros error. exists lib. split; [cbn; by rewrite Z.eqb_refl, (proj2 (Z.eqb_neq _ _) Hne) |]. cbn [act_wires] in Hs'.
    destruct (fst r =? WOLFSSL_SUCCESS codes); tleads_on.
    + eapply tleads_mono; [by apply PinIsConfirmed_leads |]. intros [] self1 s1 Hs1; by tleads_on.
    + destruct (negb _); by tleads_on.
Qed.
(** An Open up to the session, on which the peer is what the stage says; or down again. *)
Lemma WolfPrepare_rises : rises (WolfSslStream_BuildContext codes build scratch area &&! WolfSslStream_InstallCredentials codes build scratch area &&! WolfSslStream_CreateSession codes build scratch area &&!
  WolfSslStream_ApplyTlsPolicy codes build scratch area &&! WolfSslStream_ApplyCipherPolicy codes build scratch area &&! WolfSslStream_ConfigureExpectedPeerName codes build scratch area)
  false at_wolf_nothing true (any_session named_strong).
Proof using.
  eapply climbs_and; [apply BuildContext_rises |]. eapply climbs_and; [apply WolfInstallCredentials_rises |]. eapply climbs_and; [apply CreateSession_rises |].
  eapply climbs_and; [apply WolfApplyTlsPolicy_rises |]. eapply climbs_and; [apply WolfApplyCipherPolicy_rises | apply ConfigureExpectedPeerName_rises].
Qed.
Lemma WolfEstablish_leads addr self s : is_down wolfssl_idle base cfg h rs ws self s ->
  leads (WolfSslStream_Establish codes build scratch area addr) self s (fun b self' s' => if b : bool
    then exists bu, climbing true bu at_wolf_peer self' s'
    else exists faults h1, failed K (fell_below s') h faults h1 /\ is_down wolfssl_idle base cfg h1 (rs ++ faults) ws self' s').
Proof using OK fits scratch_bytes area_fits area_bytes.
  intros (inst & p & Hd & n & lib & bu & te & -> & -> & (-> & Ec & Es & Ep)). unfold WolfSslStream_Establish, WolfSslStream_PullProfile, TlsStream_PullProfile, wolf_set_notes.
  tleads_on. apply tleads_any_env. intros profile. tleads_on.
  set (Q := fun (b : bool) self' s' => if b then exists bu, climbing true bu at_wolf_peer self' s'
    else exists faults h1, failed K (fell_below s') h faults h1 /\ is_down wolfssl_idle base cfg h1 (rs ++ faults) ws self' s').
  assert (Hfall : forall self s, falling self s -> leads (if! negb false then WolfSslStream_Close codes build scratch area end! ;;; st_ret false) self s Q).
  { intros self s (cr & h1 & inst1 & p1 & Hd1 & n1 & lib1 & tr & bu1 & faults & te1 & -> & -> & Hf & Hl). cbn [negb]. apply tleads_bind. eapply tleads_mono; [by apply WolfClose_leads |].
    intros [] self' s' [Hd' Hbelow]. apply tleads_ret. exists faults, h1. by rewrite Hbelow. }
  eapply tleads_mono; [apply (open_transport_leads K LP base cfg h rs ws wolfssl_linked); [cbn; by rewrite Ec, Es, Ep | unfold wolfssl_linked; by rewrite Ec, Es, Ep] |].
  intros [] self s Hs; [| apply tleads_bind, tleads_ret; by apply Hfall]. eapply tleads_mono; [eapply WolfPrepare_rises |].
  { eapply climbing_weaken; [| exact Hs]. intros lib' Hd' p' inst' n' te' (-> & -> & _ & _ & -> & ->). by repeat split. }
  clear self s Hs. intros [] self s Hs; [| apply tleads_bind, tleads_ret; by apply Hfall]. apply tleads_bind, (Callbacks_and_policy_leads _ _ _ _ _ Hs). clear s Hs. intros s Hs.
  eapply tleads_mono; [apply (PerformHandshake_leads K LP base cfg h rs ws wolfssl_linked at_wolf_ready at_wolf_peer (WolfSslStream_Turn codes build scratch area) ready_linked WolfTurn_leads bu _ _ Hs) |].
  clear self s Hs. intros [] self s Hs; [| by apply Hfall]. cbn [negb]. tleads_on. exact Hs.
Qed.
End opening.

(** ** The pack *)

Lemma wolfssl_pack_ok : pack_ok K LP WolfSslStream_IsOpen (WolfSslStream_Establish codes build scratch area) (WolfSslStream_NothingYet codes)
  (WolfSslStream_Close codes build scratch area) wolfssl_idle wolfssl_live wolfssl_linked.
Proof using OK fits scratch_bytes area_fits area_bytes.
  constructor.
  - apply wolfssl_callbacks.
  - intros lib Hd (-> & Ec & Es & Ep). cbn. unfold wolfssl_linked. by rewrite Ec, Es, Ep.
  - intros lib Hd ([-> Ep] & Hne & Hr). cbn. rewrite Z.eqb_refl, (proj2 (Z.eqb_neq _ _) Hne), Hr, andb_false_r. by split_and!.
  - done.
  - done.
  - apply to_int_fits.
  - intros. by apply (wf_read_answers OK).
  - intros rc base cfg h inst p Hd n lib bu rs ws te Q ([-> _] & Hne & _) HQ. unfold WolfSslStream_NothingYet, wolf_session. tleads_on. apply tleads_call. intros err. exists lib.
    split; [cbn; by rewrite Z.eqb_refl, (proj2 (Z.eqb_neq _ _) Hne) |]. tleads_on. apply HQ.
  - intros. by apply WolfClose_leads.
  - intros addr base cfg h rs ws self s Hs. eapply tleads_mono; [by apply WolfEstablish_leads |]. intros [] self' s'; [| done]. intros [bu Hc]. exists bu.
    eapply climbing_weaken; [| exact Hc]. by intros lib Hd p inst n te [? _].
Qed.
Lemma wolfssl_initialises : initialises (V := wolfssl_given) (R := wolfssl_answer) (N := wolfssl_notes) (P := SolidSyslogWolfSslProfile) (E := E) LP wolfssl_idle SolidSyslogWolfSslStream_Initialise.
Proof using.
  intros config slot. unfold SolidSyslogWolfSslStream_Initialise, TlsStream_Initialise, wolf_set_handles, nothing_done. destruct slot as [base cfg h ci inst p Hd n]. tleads_on.
  do 7 eexists. split; [reflexivity |]. by split_and!.
Qed.

(** The session an Open made, as it is seen, where no verdict of the callback was 0. *)
Record wolf_session_vouched self s : Prop := {
  wv_Up : tn_Up s = true;
  wv_Named : wolf_named (tn_Library s) (tl_Profile self);
  wv_Installed : let inst := te_Installed (tn_Evidence s) in
    (wolf_anchored inst = true \/ wolf_pinned inst = true) /\
    (wolf_anchored inst = true -> wolf_pinned inst = true -> build <> SOLIDSYSLOG_WOLFSSL_PIN_BESIDE_ANCHORS_REFUSED);
  wv_Chain : Forall (fun ck => ck_Answer ck <> 0) (te_Checks (tn_Evidence s)) ->
    Forall (fun ck => accepted (te_Installed (tn_Evidence s)) (ck_Given ck) (ck_Digests ck)) (te_Checks (tn_Evidence s));
  wv_Pin : pin_confirmed (te_Installed (tn_Evidence s)) (tn_Library s) (tn_Evidence s)
}.
Lemma WolfOpen_vouches addr self s : tls_agrees wolfssl_idle wolfssl_live self s ->
  leads (WolfSslStream_Open codes build scratch area addr) self s (fun b self' s' => b = true -> wolf_session_vouched self' s').
Proof using OK fits scratch_bytes area_fits area_bytes.
  intros (base & cfg & h & rs & [(before & conn & (inst & p & Hd & n & lib & bu & te & -> & -> & Hl)) | (ws & Hs)]); unfold WolfSslStream_Open, TlsStream_Open.
  - tleads_on. rewrite (pk_open_up _ _ _ _ _ _ _ _ _ wolfssl_pack_ok _ _ _ _ _ _ _ _ Hl). tleads_on. apply TlsReport_leads. by tleads_on.
  - pose proof Hs as (inst & p & Hd & n & lib & bu & te & -> & -> & Hi). tleads_on. rewrite (pk_open_down _ _ _ _ _ _ _ _ _ wolfssl_pack_ok _ _ _ _ _ _ _ _ Hi). tleads_on.
    eapply tleads_mono; [by apply WolfEstablish_leads |]. clear Hs Hi. intros [] self s; [| by intros; tleads_on].
    intros (bu1 & inst1 & p1 & Hd1 & n1 & lib1 & warnings & te1 & -> & -> & Hw & (Hl & Hn & Hp & Hb & <- & Hc & Hpin)). tleads_on.
    eapply tleads_happens; [cbn; rewrite (proj2 (Z.eqb_neq _ _) (proj1 (proj2 Hl))), andb_false_r; reflexivity |]. tleads_on. intros _. constructor; cbn [tn_Up tn_Library tn_Evidence tl_Profile]; [done | done | | | done].
    + split; [by apply orb_prop in Hp |]. intros Ha Hpd Hr. unfold WolfSslStream_BuildCanEnforceBoth, SolidSyslogWolfSslStream_AnchoredPinCheck in Hb.
      unfold wolf_anchored, wolf_pinned in *. rewrite Ha, Hpd, Hr in Hb. done.
    + intros Hall. rewrite Forall_forall in *. auto.
Qed.

(** C11. A peer the wolfSSL stream accepts is vouched for, in each of the three builds.
    Open answers true only with a session made under trust anchors or pins, not under
    both in a build that cannot check a pin beside anchors, and checked for the name or
    the address the profile gives; where the verify callback refused nothing, each
    certificate it was asked about had passed wolfSSL's checks, or lacked only a signer
    under pins that stand alone and parsed without fault; and under pins the digest of
    the leaf, in the callback or as the peer that was kept, is one of them. *)
Theorem WolfSslStream_Open_vouches addr w : tls_ok LP wolfssl_idle wolfssl_live w -> fst (WolfSslStream_Open codes build scratch area addr w) = true ->
  let w' := snd (WolfSslStream_Open codes build scratch area addr w) in
  exists s, tls_observed LP (tv_Trace w') = Some s /\ wolf_session_vouched (tv_Self w') s.
Proof using OK fits scratch_bytes area_fits area_bytes.
  intros (_ & s & Hs & Ha) Hok. destruct (WolfOpen_vouches addr _ _ Ha w) as (self' & s' & [<- Hs'] & Hv); [by split |]. exists s'. split; [exact Hs' | by apply Hv].
Qed.
End pack.

(** * A small wolfSSL *)

Definition wolfssl_5_codes : wolfssl_codes := mkWolfSslCodes 1 3 1 2 0 2 3 (-1) (-2) (-125) (-188) (-151) (-150) (-322) (-330).
(** A peer whose leaf has no signer known, and the sample's digest. *)
#[export] Instance small_wolfssl : TlsLibrary wolfssl_call wolfssl_given wolfssl_answer small_tls := {
  tls_do := fun c => st_ret match c with
    | wolfSSL_CTX_new_ex _ _ => 1 | wolfSSL_new _ => 2 | wolfSSL_get_error _ _ => 2
    | wc_HashGetDigestSize _ => 32
    | _ => 1
    end;
  tls_hash := fun c => st_ret match c with wc_ParseCert _ => (0, 0, []) | _ => (0, 0, sample_digest) end;
  tls_run := fun act e => match act with
    | Handshake _ => Judges (0, mkWolfStore (-188) 0 [mkBufferInfo 91 600]) e (fun r e => Ends r [] e)
    | ReadFrom _ buffer size => Ends (-1) buffer e
    | WriteTo _ data size => Transmits 4 data size e (fun rc e => Ends rc data e)
    | Shutdown _ => Ends 1 [] e
    end
}.
Definition wolfssl_area : bytes := repeat 0xAA 32.
Lemma small_wolfssl_ok : wolfssl_ok.
Proof.
  constructor.
  - intros ssl buffer size e. cbn. lia.
  - intros type certificate heap e. cbn. split; [by vm_compute |]. split; [| by vm_compute]. repeat constructor; unfold is_byte; lia.
Qed.
Definition wolfssl_start : tls_world wolfssl_call wolfssl_given wolfssl_answer wolfssl_handles wolfssl_notes SolidSyslogWolfSslProfile small_tls :=
  snd (SolidSyslogWolfSslStream_Initialise small_config (mkTlsWorld (mkTlsStream NullStreamVtable (copy_config small_config) (mkStreamOpenHealth true 7) true (mkInstalled true None 0)
    (mkWolfSslProfile None None) (mkWolfSslHandles 5 6) (mkWolfSslNotes 1 true)) a_small_tls [])).
Abbreviation wolfssl_opened := (WolfSslStream_Open wolfssl_5_codes SOLIDSYSLOG_WOLFSSL_PIN_BESIDE_ANCHORS_REFUSED sample_area wolfssl_area 1 wolfssl_start).
Lemma WolfSslStream_Open_vouches_witness :
  fst wolfssl_opened = true /\
  exists s, tls_observed (wolfssl_protocol wolfssl_5_codes) (tv_Trace (snd wolfssl_opened)) = Some s /\
    map (fun ck => (fst (ck_Given ck), ck_Answer ck)) (te_Checks (tn_Evidence s)) = [(0, 1)] /\
    wolf_session_vouched wolfssl_5_codes SOLIDSYSLOG_WOLFSSL_PIN_BESIDE_ANCHORS_REFUSED (tv_Self (snd wolfssl_opened)) s.
Proof.
  split; [by vm_compute |].
  assert (Hbytes : all_bytes (fp_Digest sample_area) /\ all_bytes wolfssl_area) by (split; repeat constructor; unfold is_byte; lia).
  destruct (WolfSslStream_Open_vouches wolfssl_5_codes SOLIDSYSLOG_WOLFSSL_PIN_BESIDE_ANCHORS_REFUSED sample_area wolfssl_area small_wolfssl_ok eq_refl (proj1 Hbytes) eq_refl (proj2 Hbytes) 1 wolfssl_start) as (s & Hs & Hv).
  - apply (initialised_ok (wolfssl_protocol wolfssl_5_codes) wolfssl_idle wolfssl_live), wolfssl_initialises.
  - by vm_compute.
  - exists s. split; [exact Hs |]. split; [| exact Hv]. revert Hs. vm_compute (tls_observed _ _). by intros [= <-].
Defined.
