(* ===== verification/Senders.v ===== *)
(** The senders: over datagrams ([SolidSyslogUdpSender.c]), over streams with octet
    counting ([SolidSyslogStreamSender.c]), and the one that routes to several
    ([SolidSyslogSwitchingSender.c]).  Each runs in a world that keeps, beside the
    sender and its environment, the list of what it did to its transport and what it
    reported: the theorems are about that list, for any environment. *)
From S2P Require Import Prelude Errors PendingEvents Interfaces Utf8 Formatter SdWriters Transport.

(** * A sender in its environment *)

Inductive sn_event :=
| Polled (endpoint stream : Z)
| Opened (ok : bool)
| Resolved (ok : bool)
| Closed
| Offered (datagram : bytes) (result : SolidSyslogDatagramSendResult)
| LimitAsked (limit : Z)
| Streamed (data : bytes) (ok : bool)
| Raised (severity category detail : Z).

Record sn_world (S E : Type) := mkSnWorld { sn_Self : S; sn_Env : E; sn_Trace : list sn_event }.
Arguments mkSnWorld {S E} _ _ _.
Arguments sn_Self {S E} _.
Arguments sn_Env {S E} _.
Arguments sn_Trace {S E} _.
#[export] Instance settable_SnWorld {S E} : Settable (sn_world S E) := fun w => mkSnWorld (sn_Self w) (sn_Env w) (sn_Trace w).

Section sender_operations.
Context {S E : Type} `{ErrorTap E}.
Definition sn_op (A : Type) : Type := ST (sn_world S E) A.
Definition sn_get {A} (f : S -> A) : sn_op A := st_get (fun w => f (sn_Self w)).
Definition sn_set (f : S -> S) : sn_op unit := st_mod (fun w => w <| sn_Self := f (sn_Self w) |>).
Definition sn_happens (e : sn_event) : sn_op unit := st_mod (fun w => w <| sn_Trace := sn_Trace w ++ [e] |>).
Definition sn_env {A} (m : ST E A) : sn_op A := zoom sn_Env (fun e w => w <| sn_Env := e |>) m.
(** A call of the transport, and the event that says what it answered. *)
Definition sn_call {A} (m : S -> ST E A) (said : A -> sn_event) : sn_op A :=
  let! self := st_get sn_Self in
  let! a := sn_env (m self) in
  sn_happens (said a) ;;;
  st_ret a.
Definition sn_report (source : SolidSyslogErrorSource) (severity category detail : Z) : sn_op unit :=
  sn_call (fun _ e => (tt, tap_error severity (Some source) category detail e)) (fun _ => Raised severity category detail).
(** [SolidSyslogSenderHealth_Update] on the sender's own bit: the report it makes. *)
Definition sn_health (get : S -> bool) (put : bool -> S -> S) (reporter : SolidSyslogSenderHealthReporter) (delivered : bool) : sn_op unit :=
  let! healthy := sn_get get in
  let! now := sn_env (SolidSyslogSenderHealth_Update healthy delivered reporter) in
  sn_set (put now) ;;;
  if! negb (Bool.eqb delivered healthy) then
    sn_happens (if delivered
      then Raised SOLIDSYSLOG_SEVERITY_NOTICE SOLIDSYSLOG_CAT_SENDER_DELIVERY_RESTORED (hr_RestoredDetail reporter)
      else Raised SOLIDSYSLOG_SEVERITY_WARNING SOLIDSYSLOG_CAT_SENDER_DELIVERY_FAILED (hr_FailedDetail reporter))
  end!.
End sender_operations.

(** A sender's vtable is its own or, once cleaned up, the null sender's. *)
Inductive sender_vtable := OwnVtable | NullSenderVtable.

(** * The UDP sender *)

Section udp_sender.
Context {E : Type} `{ErrorTap E} (frame : bytes).

Record SolidSyslogUdpSenderConfig := mkUdpSenderConfig {
  uc_Resolver : SolidSyslogResolver E;
  uc_Datagram : SolidSyslogDatagram E;
  uc_Address : SolidSyslogAddress;
  uc_Endpoint : SolidSyslogEndpointFunction E;
  uc_EndpointVersion : option (SolidSyslogEndpointVersionFunction E);
  uc_EndpointContext : option Z
}.
#[export] Instance settable_UdpSenderConfig : Settable SolidSyslogUdpSenderConfig :=
  fun c => mkUdpSenderConfig (uc_Resolver c) (uc_Datagram c) (uc_Address c) (uc_Endpoint c) (uc_EndpointVersion c) (uc_EndpointContext c).
Record SolidSyslogUdpSender := mkUdpSender {
  us_Base : sender_vtable;
  us_Config : SolidSyslogUdpSenderConfig;
  us_Connected : bool;
  us_DeliveryHealthy : bool;
  us_RecordTooLargeReported : bool;
  us_LastEndpointVersion : Z
}.
#[export] Instance settable_UdpSender : Settable SolidSyslogUdpSender :=
  fun s => mkUdpSender (us_Base s) (us_Config s) (us_Connected s) (us_DeliveryHealthy s) (us_RecordTooLargeReported s) (us_LastEndpointVersion s).

Definition us_world : Type := sn_world SolidSyslogUdpSender E.
Abbreviation us_op := (ST us_world).

Definition UdpSender_Report (severity category code : Z) : us_op unit := sn_report SolidSyslogUdpSenderErrorSource severity category code.
Definition UdpSender_NilEndpointVersion : SolidSyslogEndpointVersionFunction E := fun _ => st_ret 0.

Definition SolidSyslogUdpSender_Initialise (config : SolidSyslogUdpSenderConfig) (self : SolidSyslogUdpSender) : SolidSyslogUdpSender :=
  let self := self <| us_Base := OwnVtable |> <| us_Config := config |> in
  let self := match uc_EndpointVersion (us_Config self) with
    | None => self <| us_Config := (us_Config self) <| uc_EndpointVersion := Some UdpSender_NilEndpointVersion |> |>
    | Some _ => self
    end in
  self <| us_Connected := false |> <| us_DeliveryHealthy := true |> <| us_RecordTooLargeReported := false |> <| us_LastEndpointVersion := 0 |>.

(** ** The transport *)

Definition UdpSender_Address (self : SolidSyslogUdpSender) : SolidSyslogAddress := uc_Address (us_Config self).
Definition UdpSender_OpenSocket : us_op bool :=
  sn_call (fun s => SolidSyslogDatagram_Open (SolidSyslogDatagram := uc_Datagram (us_Config s))) Opened.
Definition UdpSender_CloseSocket : us_op unit :=
  sn_call (fun s => SolidSyslogDatagram_Close (SolidSyslogDatagram := uc_Datagram (us_Config s))) (fun _ => Closed) ;;;
  sn_set (fun s => s <| us_Connected := false |>).
Definition UdpSender_ResolveDestination (host : bytes) (port : Z) : us_op bool :=
  sn_call (fun s => SolidSyslogResolver_Resolve (SolidSyslogResolver := uc_Resolver (us_Config s)) SOLIDSYSLOG_TRANSPORT_UDP host port (UdpSender_Address s))
    Resolved.
Definition UdpSender_MaxPayload : us_op Z :=
  sn_call (fun s => SolidSyslogDatagram_MaxPayload (SolidSyslogDatagram := uc_Datagram (us_Config s))) LimitAsked.
(** [hostFormatter] after the callback wrote the host through the sink, and the port. *)
Definition UdpSender_QueryEndpointPort (hostFormatter : SolidSyslogFormatter) : us_op (SolidSyslogFormatter * Z) :=
  let! self := st_get sn_Self in
  let hostSink := SolidSyslogEndpointHost_FromFormatter hostFormatter in
  let! endpoint := sn_env (fill_endpoint (uc_Endpoint (us_Config self)) (uc_EndpointContext (us_Config self)) (mkEndpoint hostSink 0)) in
  st_ret (eh_Formatter (ep_Host endpoint), ep_Port endpoint).

(** ** Connecting *)

Definition UdpSender_Connected (self : SolidSyslogUdpSender) : bool := us_Connected self.
Definition UdpSender_Connect : us_op bool :=
  let hostFormatter := SolidSyslogFormatter_Create frame SOLIDSYSLOG_MAX_HOST_SIZE in
  let! endpoint := UdpSender_QueryEndpointPort hostFormatter in
  let host := fst (SolidSyslogFormatter_AsFormattedBuffer (fst endpoint)) in
  let port := snd endpoint in
  let! opened := UdpSender_OpenSocket in
  let! ready := if opened : bool then UdpSender_ResolveDestination host port else st_ret false in
  (if ready : bool then sn_set (fun s => s <| us_Connected := true |>)
   else UdpSender_CloseSocket) ;;;
  sn_get UdpSender_Connected.
Definition UdpSender_EnsureConnected : us_op bool :=
  let! connected := sn_get UdpSender_Connected in
  if connected : bool then st_ret true else UdpSender_Connect.
Definition UdpSender_Disconnect : us_op unit :=
  let! connected := sn_get UdpSender_Connected in
  if! connected : bool then UdpSender_CloseSocket end!.
(** The configured function is never NULL once initialised. *)
Definition UdpSender_EndpointVersion (self : SolidSyslogUdpSender) : ST E Z :=
  default UdpSender_NilEndpointVersion (uc_EndpointVersion (us_Config self)) (uc_EndpointContext (us_Config self)).
Definition UdpSender_DisconnectIfStale : us_op unit :=
  let! version := sn_call UdpSender_EndpointVersion (fun v => Polled v 0) in
  let! last := sn_get us_LastEndpointVersion in
  if! negb (version =? last) then
    UdpSender_Disconnect ;;;
    sn_set (fun s => s <| us_LastEndpointVersion := version |>)
  end!.
Definition UdpSender_Reconcile : us_op bool :=
  UdpSender_DisconnectIfStale ;;;
  UdpSender_EnsureConnected.

(** ** Transmitting *)

Definition UdpSender_SendTo (buffer : bytes) (size : Z) : us_op SolidSyslogDatagramSendResult :=
  let! result := sn_call (fun s => SolidSyslogDatagram_SendTo (SolidSyslogDatagram := uc_Datagram (us_Config s)) buffer size (UdpSender_Address s))
    (Offered (takeZ size buffer)) in
  if! bool_decide (result = SOLIDSYSLOG_DATAGRAM_SEND_RESULT_SENT) then
    sn_set (fun s => s <| us_RecordTooLargeReported := false |>)
  end! ;;;
  st_ret result.
Definition UdpSender_ReportRecordTooLarge : us_op unit :=
  let! reported := sn_get us_RecordTooLargeReported in
  if! negb reported then
    UdpSender_Report SOLIDSYSLOG_SEVERITY_ERROR SOLIDSYSLOG_CAT_SENDER_RECORDS_LOST SOLIDSYSLOG_UDP_SENDER_ERROR_RECORD_TOO_LARGE ;;;
    sn_set (fun s => s <| us_RecordTooLargeReported := true |>)
  end!.
Definition UdpSender_FailureWasOversize (size : Z) : us_op bool :=
  let! maxPayload := UdpSender_MaxPayload in
  st_ret ((0 <? maxPayload) && (maxPayload <? size)).
Definition UdpSender_RetryAfterOversize (buffer : bytes) (size : Z) : us_op SolidSyslogDatagramSendResult :=
  let! maxPayload := UdpSender_MaxPayload in
  let clipLimit := if size <? maxPayload then size else maxPayload in
  let trimmed := SolidSyslogUdpPayload_TrimToCodepointBoundary buffer clipLimit in
  let! result := if 0 <? trimmed then UdpSender_SendTo buffer trimmed else st_ret SOLIDSYSLOG_DATAGRAM_SEND_RESULT_OVERSIZE in
  if! bool_decide (result = SOLIDSYSLOG_DATAGRAM_SEND_RESULT_OVERSIZE) then UdpSender_ReportRecordTooLarge end! ;;;
  st_ret result.
Definition UdpSender_TransmitDatagram (buffer : bytes) (size : Z) : us_op SolidSyslogDatagramSendResult :=
  let! result := UdpSender_SendTo buffer size in
  let! wasOversize :=
    if bool_decide (result = SOLIDSYSLOG_DATAGRAM_SEND_RESULT_FAILED) then UdpSender_FailureWasOversize size else st_ret false in
  let result := if wasOversize then SOLIDSYSLOG_DATAGRAM_SEND_RESULT_OVERSIZE else result in
  if bool_decide (result = SOLIDSYSLOG_DATAGRAM_SEND_RESULT_OVERSIZE) then UdpSender_RetryAfterOversize buffer size else st_ret result.

(** ** Sending *)

Definition UdpSender_Deliver (buffer : bytes) (size : Z) : us_op SolidSyslogDatagramSendResult :=
  let! ready := UdpSender_Reconcile in
  if ready : bool then UdpSender_TransmitDatagram buffer size else st_ret SOLIDSYSLOG_DATAGRAM_SEND_RESULT_FAILED.
Definition UdpSender_WasDiscarded (outcome : SolidSyslogDatagramSendResult) : bool :=
  bool_decide (outcome = SOLIDSYSLOG_DATAGRAM_SEND_RESULT_OVERSIZE).
Definition UdpSender_UpdateDeliveryHealth (delivered : bool) : us_op unit :=
  sn_health us_DeliveryHealthy (fun b s => s <| us_DeliveryHealthy := b |>)
    (mkReporter (Some SolidSyslogUdpSenderErrorSource) SOLIDSYSLOG_UDP_SENDER_ERROR_DELIVERY_FAILED SOLIDSYSLOG_UDP_SENDER_ERROR_DELIVERY_RESTORED)
    delivered.
(** [None] is the null buffer. *)
Definition UdpSender_Send (buffer : option bytes) (size : Z) : us_op bool :=
  match buffer with
  | None =>
      UdpSender_Report SOLIDSYSLOG_BAD_ARGUMENT_SEVERITY SOLIDSYSLOG_CAT_BAD_ARGUMENT SOLIDSYSLOG_UDP_SENDER_ERROR_SEND_NULL_BUFFER ;;;
      st_ret false
  | Some buffer =>
      let! outcome := UdpSender_Deliver buffer size in
      if! negb (UdpSender_WasDiscarded outcome) then
        UdpSender_UpdateDeliveryHealth (bool_decide (outcome = SOLIDSYSLOG_DATAGRAM_SEND_RESULT_SENT))
      end! ;;;
      st_ret (bool_decide (outcome <> SOLIDSYSLOG_DATAGRAM_SEND_RESULT_FAILED))
  end.
Definition SolidSyslogUdpSender_Cleanup : us_op unit :=
  UdpSender_Disconnect ;;;
  sn_set (fun s => s <| us_Base := NullSenderVtable |>).

Definition UdpSender_vtable : SolidSyslogSender us_world := {|
  SolidSyslogSender_Send := fun buffer size =>
    let! base := sn_get us_Base in
    match base with OwnVtable => UdpSender_Send (Some buffer) size | NullSenderVtable => st_ret (NullSender_Send buffer size) end;
  SolidSyslogSender_Disconnect :=
    let! base := sn_get us_Base in
    match base with OwnVtable => UdpSender_Disconnect | NullSenderVtable => NullSender_Disconnect end
|}.
End udp_sender.

(** * The stream sender *)

Definition UINT32_MAX_DECIMAL_DIGITS : Z := 10.
Definition OCTET_COUNTING_SEPARATOR : Z := 1.
Definition OCTET_COUNTING_NULL_TERMINATOR : Z := 1.
Definition OCTET_COUNTING_PREFIX_CAPACITY : Z := UINT32_MAX_DECIMAL_DIGITS + OCTET_COUNTING_SEPARATOR + OCTET_COUNTING_NULL_TERMINATOR.

Section stream_sender.
Context {E : Type} `{ErrorTap E} (frame : bytes).

Record SolidSyslogStreamSenderConfig := mkStreamSenderConfig {
  tc_Resolver : SolidSyslogResolver E;
  tc_Stream : SolidSyslogStream E;
  tc_Address : SolidSyslogAddress;
  tc_Endpoint : option (SolidSyslogEndpointFunction E);
  tc_EndpointVersion : option (SolidSyslogEndpointVersionFunction E);
  tc_EndpointContext : option Z
}.
#[export] Instance settable_StreamSenderConfig : Settable SolidSyslogStreamSenderConfig :=
  fun c => mkStreamSenderConfig (tc_Resolver c) (tc_Stream c) (tc_Address c) (tc_Endpoint c) (tc_EndpointVersion c) (tc_EndpointContext c).
Record SolidSyslogStreamSender := mkStreamSender {
  ts_Base : sender_vtable;
  ts_Config : SolidSyslogStreamSenderConfig;
  ts_Connected : bool;
  ts_DeliveryHealthy : bool;
  ts_LastEndpointVersion : Z;
  ts_LastStreamVersion : Z
}.
#[export] Instance settable_StreamSender : Settable SolidSyslogStreamSender :=
  fun s => mkStreamSender (ts_Base s) (ts_Config s) (ts_Connected s) (ts_DeliveryHealthy s) (ts_LastEndpointVersion s) (ts_LastStreamVersion s).

Definition ts_world : Type := sn_world SolidSyslogStreamSender E.
Abbreviation ts_op := (ST ts_world).

Definition StreamSender_NilEndpoint : SolidSyslogEndpointFunction E := fun _ => st_ret ([([], 0)], 0).
Definition StreamSender_NilEndpointVersion : SolidSyslogEndpointVersionFunction E := fun _ => st_ret 0.
Definition SolidSyslogStreamSender_Initialise (config : SolidSyslogStreamSenderConfig) (self : SolidSyslogStreamSender) : SolidSyslogStreamSender :=
  mkStreamSender OwnVtable
    (mkStreamSenderConfig (tc_Resolver config) (tc_Stream config) (tc_Address config)
       (Some (default StreamSender_NilEndpoint (tc_Endpoint config)))
       (Some (default StreamSender_NilEndpointVersion (tc_EndpointVersion config)))
       (tc_EndpointContext config))
    false true 0 0.

(** ** Connecting *)

Definition StreamSender_Connected (self : SolidSyslogStreamSender) : bool := ts_Connected self.
Definition StreamSender_CloseStream : ts_op unit :=
  sn_call (fun s => SolidSyslogStream_Close (SolidSyslogStream := tc_Stream (ts_Config s))) (fun _ => Closed) ;;;
  sn_set (fun s => s <| ts_Connected := false |>).
Definition StreamSender_Disconnect : ts_op unit :=
  let! connected := sn_get StreamSender_Connected in
  if! connected : bool then StreamSender_CloseStream end!.
Definition StreamSender_ResolveDestination (addr : SolidSyslogAddress) : ts_op bool :=
  let! self := st_get sn_Self in
  let hostFormatter := SolidSyslogFormatter_Create frame SOLIDSYSLOG_MAX_HOST_SIZE in
  let! endpoint := sn_env (fill_endpoint (default StreamSender_NilEndpoint (tc_Endpoint (ts_Config self))) (tc_EndpointContext (ts_Config self))
    (mkEndpoint (SolidSyslogEndpointHost_FromFormatter hostFormatter) 0)) in
  let host := fst (SolidSyslogFormatter_AsFormattedBuffer (eh_Formatter (ep_Host endpoint))) in
  sn_call (fun s => SolidSyslogResolver_Resolve (SolidSyslogResolver := tc_Resolver (ts_Config s)) SOLIDSYSLOG_TRANSPORT_TCP host (ep_Port endpoint) addr)
    Resolved.
Definition StreamSender_Connect : ts_op bool :=
  let! addr := sn_get (fun s => tc_Address (ts_Config s)) in
  let! resolved := StreamSender_ResolveDestination addr in
  if! resolved : bool then
    let! opened := sn_call (fun s => SolidSyslogStream_Open (SolidSyslogStream := tc_Stream (ts_Config s)) addr) Opened in
    sn_set (fun s => s <| ts_Connected := opened |>)
  end! ;;;
  sn_get StreamSender_Connected.
Definition StreamSender_EnsureConnected : ts_op bool :=
  let! connected := sn_get StreamSender_Connected in
  if connected : bool then st_ret true else StreamSender_Connect.
Definition StreamSender_ConfigurationMoved (self : SolidSyslogStreamSender) (endpointVersion streamVersion : Z) : bool :=
  negb (endpointVersion =? ts_LastEndpointVersion self) || negb (streamVersion =? ts_LastStreamVersion self).
(** Both versions, the endpoint's first. *)
Definition StreamSender_Versions (self : SolidSyslogStreamSender) : ST E (Z * Z) :=
  let! endpointVersion := default StreamSender_NilEndpointVersion (tc_EndpointVersion (ts_Config self)) (tc_EndpointContext (ts_Config self)) in
  let! streamVersion := SolidSyslogStream_Version (SolidSyslogStream := tc_Stream (ts_Config self)) in
  st_ret (endpointVersion, streamVersion).
Definition StreamSender_DisconnectIfStale : ts_op unit :=
  let! versions := sn_call StreamSender_Versions (fun v => Polled (fst v) (snd v)) in
  let! moved := sn_get (fun s => StreamSender_ConfigurationMoved s (fst versions) (snd versions)) in
  if! moved : bool then
    StreamSender_Disconnect ;;;
    sn_set (fun s => s <| ts_LastEndpointVersion := fst versions |> <| ts_LastStreamVersion := snd versions |>)
  end!.
Definition StreamSender_Reconcile : ts_op bool :=
  StreamSender_DisconnectIfStale ;;;
  StreamSender_EnsureConnected.

(** ** Framing *)

Definition StreamSender_FormatOctetCountingPrefix (storage : bytes) (messageSize : Z) : SolidSyslogFormatter :=
  let f := SolidSyslogFormatter_Create storage OCTET_COUNTING_PREFIX_CAPACITY in
  let f := SolidSyslogFormatter_Uint32 f (u32 messageSize) in
  SolidSyslogFormatter_AsciiCharacter f 0x20.
Definition StreamSender_SendBytes (data : bytes) (len : Z) : ts_op bool :=
  let! sent := sn_call (fun s => SolidSyslogStream_Send (SolidSyslogStream := tc_Stream (ts_Config s)) data len) (Streamed (takeZ len data)) in
  if! negb sent then StreamSender_CloseStream end! ;;;
  st_ret sent.
Definition StreamSender_TransmitFramed (buffer : bytes) (size : Z) : ts_op bool :=
  let '(text, prefix) := SolidSyslogFormatter_AsFormattedBuffer (StreamSender_FormatOctetCountingPrefix frame size) in
  let! sent := StreamSender_SendBytes text (SolidSyslogFormatter_Length prefix) in
  if sent : bool then StreamSender_SendBytes buffer size else st_ret false.

(** ** Sending *)

Definition StreamSender_UpdateDeliveryHealth (delivered : bool) : ts_op unit :=
  sn_health ts_DeliveryHealthy (fun b s => s <| ts_DeliveryHealthy := b |>)
    (mkReporter (Some SolidSyslogStreamSenderErrorSource) SOLIDSYSLOG_STREAM_SENDER_ERROR_DELIVERY_FAILED SOLIDSYSLOG_STREAM_SENDER_ERROR_DELIVERY_RESTORED)
    delivered.
Definition StreamSender_Send (buffer : bytes) (size : Z) : ts_op bool :=
  let! ready := StreamSender_Reconcile in
  let! delivered := if ready : bool then StreamSender_TransmitFramed buffer size else st_ret false in
  StreamSender_UpdateDeliveryHealth delivered ;;;
  st_ret delivered.
Definition SolidSyslogStreamSender_Cleanup : ts_op unit :=
  StreamSender_Disconnect ;;;
  sn_set (fun s => s <| ts_Base := NullSenderVtable |>).

Definition StreamSender_vtable : SolidSyslogSender ts_world := {|
  SolidSyslogSender_Send := fun buffer size =>
    let! base := sn_get ts_Base in
    match base with OwnVtable => StreamSender_Send buffer size | NullSenderVtable => st_ret (NullSender_Send buffer size) end;
  SolidSyslogSender_Disconnect :=
    let! base := sn_get ts_Base in
    match base with OwnVtable => StreamSender_Disconnect | NullSenderVtable => NullSender_Disconnect end
|}.
End stream_sender.

(** * The switching sender

    A sender is known by the pointer to it; the array of pointers is the caller's, read
    on every Send. *)

Inductive sender_pointer := NullSenderPointer | SenderPointer (p : Z).
#[export] Instance sender_pointer_eq_dec : EqDecision sender_pointer.
Proof. solve_decision. Defined.

Section switching_sender.
Context {E : Type} `{ErrorTap E} (sender_at : Z -> SolidSyslogSender E).

Record SolidSyslogSwitchingSenderConfig := mkSwitchingSenderConfig {
  wc_Senders : E -> list sender_pointer;
  wc_SenderCount : Z;
  wc_Selector : option Z -> ST E Z;
  wc_SelectorContext : option Z
}.
Record SolidSyslogSwitchingSender := mkSwitchingSender {
  ws_Base : sender_vtable;
  ws_Config : SolidSyslogSwitchingSenderConfig;
  ws_CurrentSender : sender_pointer;
  ws_OutOfRangeReported : bool
}.
#[export] Instance settable_SwitchingSender : Settable SolidSyslogSwitchingSender :=
  fun s => mkSwitchingSender (ws_Base s) (ws_Config s) (ws_CurrentSender s) (ws_OutOfRangeReported s).

(** What it did: asked for an index, read the element there, sent through a sender, disconnected one, reported. *)
Inductive sw_event :=
| Selected (index : Z)
| ElementRead (index : Z) (p : sender_pointer)
| Routed (p : sender_pointer) (record : bytes) (taken : bool)
| Dropped (p : sender_pointer)
| OutOfRange (severity category detail : Z).
Record sw_world := mkSwWorld { sw_Self : SolidSyslogSwitchingSender; sw_Env : E; sw_Trace : list sw_event }.
#[export] Instance settable_SwWorld : Settable sw_world := fun w => mkSwWorld (sw_Self w) (sw_Env w) (sw_Trace w).
Abbreviation sw_op := (ST sw_world).
Definition sw_get {A} (f : SolidSyslogSwitchingSender -> A) : sw_op A := st_get (fun w => f (sw_Self w)).
Definition sw_set (f : SolidSyslogSwitchingSender -> SolidSyslogSwitchingSender) : sw_op unit := st_mod (fun w => w <| sw_Self := f (sw_Self w) |>).
Definition sw_call {A} (m : SolidSyslogSwitchingSender -> ST E A) (said : A -> sw_event) : sw_op A :=
  let! self := st_get sw_Self in
  let! a := zoom sw_Env (fun e w => w <| sw_Env := e |>) (m self) in
  st_mod (fun w => w <| sw_Trace := sw_Trace w ++ [said a] |>) ;;;
  st_ret a.

(** The vtable behind a pointer. *)
Definition sender_of (p : sender_pointer) : SolidSyslogSender E :=
  match p with NullSenderPointer => SolidSyslogNullSender_Get | SenderPointer p => sender_at p end.

Definition SolidSyslogSwitchingSender_Initialise (config : SolidSyslogSwitchingSenderConfig) (self : SolidSyslogSwitchingSender) : SolidSyslogSwitchingSender :=
  mkSwitchingSender OwnVtable config NullSenderPointer false.
Definition SwitchingSender_Report (severity category code : Z) : sw_op unit :=
  sw_call (fun _ e => (tt, tap_error severity (Some SolidSyslogSwitchingSenderErrorSource) category code e)) (fun _ => OutOfRange severity category code).
Definition SwitchingSender_ReportOutOfRange : sw_op unit :=
  let! reported := sw_get ws_OutOfRangeReported in
  if! negb reported then
    SwitchingSender_Report SOLIDSYSLOG_SEVERITY_CRITICAL SOLIDSYSLOG_CAT_SENDER_RECORDS_LOST SOLIDSYSLOG_SWITCHING_SENDER_ERROR_SELECTOR_OUT_OF_RANGE ;;;
    sw_set (fun s => s <| ws_OutOfRangeReported := true |>)
  end!.
(** The array's element; it has [wc_SenderCount] of them. *)
Definition sender_element (senders : list sender_pointer) (index : Z) : sender_pointer := nth (Z.to_nat index) senders NullSenderPointer.
Definition SwitchingSender_RequestedSender : sw_op sender_pointer :=
  let! index := sw_call (fun s => wc_Selector (ws_Config s) (wc_SelectorContext (ws_Config s))) Selected in
  let! self := st_get sw_Self in
  if index <? wc_SenderCount (ws_Config self) then
    let! result := sw_call (fun _ => st_get (fun e => sender_element (wc_Senders (ws_Config self) e) index)) (ElementRead index) in
    sw_set (fun s => s <| ws_OutOfRangeReported := false |>) ;;;
    st_ret result
  else
    SwitchingSender_ReportOutOfRange ;;;
    st_ret NullSenderPointer.
Definition SwitchingSender_SenderChanged (self : SolidSyslogSwitchingSender) (requestedSender : sender_pointer) : bool :=
  bool_decide (requestedSender <> ws_CurrentSender self).
Definition disconnect_current : sw_op unit :=
  let! current := sw_get ws_CurrentSender in
  sw_call (fun s => SolidSyslogSender_Disconnect (SolidSyslogSender := sender_of (ws_CurrentSender s))) (fun _ => Dropped current).
Definition SwitchingSender_SwitchTo (newCurrent : sender_pointer) : sw_op unit :=
  disconnect_current ;;;
  sw_set (fun s => s <| ws_CurrentSender := newCurrent |>).
Definition SwitchingSender_SelectSender : sw_op unit :=
  let! requestedSender := SwitchingSender_RequestedSender in
  let! changed := sw_get (fun s => SwitchingSender_SenderChanged s requestedSender) in
  if! changed : bool then SwitchingSender_SwitchTo requestedSender end!.
Definition SwitchingSender_Send (buffer : bytes) (size : Z) : sw_op bool :=
  SwitchingSender_SelectSender ;;;
  let! current := sw_get ws_CurrentSender in
  sw_call (fun s => SolidSyslogSender_Send (SolidSyslogSender := sender_of (ws_CurrentSender s)) buffer size) (Routed current (takeZ size buffer)).
Definition SwitchingSender_Disconnect : sw_op unit := disconnect_current.
Definition SolidSyslogSwitchingSender_Cleanup (self : SolidSyslogSwitchingSender) : SolidSyslogSwitchingSender := self <| ws_Base := NullSenderVtable |>.

Definition SwitchingSender_vtable : SolidSyslogSender sw_world := {|
  SolidSyslogSender_Send := fun buffer size =>
    let! base := sw_get ws_Base in
    match base with OwnVtable => SwitchingSender_Send buffer size | NullSenderVtable => st_ret (NullSender_Send buffer size) end;
  SolidSyslogSender_Disconnect :=
    let! base := sw_get ws_Base in
    match base with OwnVtable => SwitchingSender_Disconnect | NullSenderVtable => NullSender_Disconnect end
|}.
End switching_sender.

(** * Runs

    What a sender is put through: records to send, disconnections, and changes of its
    environment in between.  A run gives the records with what [Send] answered. *)

Inductive sn_input (E : Type) := SendRecord (buffer : bytes) (size : Z) | DisconnectNow | Meanwhile (change : E -> E).
Arguments SendRecord {E} _ _.
Arguments DisconnectNow {E}.
Arguments Meanwhile {E} _.
Fixpoint feed {W E} (meanwhile : (E -> E) -> W -> W) (sender : SolidSyslogSender W) (inputs : list (sn_input E)) : ST W (list (bytes * bool)) :=
  match inputs with
  | [] => st_ret []
  | SendRecord buffer size :: inputs =>
      let! taken := SolidSyslogSender_Send (SolidSyslogSender := sender) buffer size in
      let! rest := feed meanwhile sender inputs in
      st_ret ((takeZ size buffer, taken) :: rest)
  | DisconnectNow :: inputs =>
      SolidSyslogSender_Disconnect (SolidSyslogSender := sender) ;;;
      feed meanwhile sender inputs
  | Meanwhile change :: inputs =>
      st_mod (meanwhile change) ;;;
      feed meanwhile sender inputs
  end.
Definition sn_meanwhile {S E} (change : E -> E) (w : sn_world S E) : sn_world S E := w <| sn_Env := change (sn_Env w) |>.
Abbreviation sn_feed := (feed sn_meanwhile).

(** * What a trace must be *)

(** A connection as the trace tells it: open, to a destination that resolved, and the
    versions it was opened under beside the last ones polled. *)
Record link := mkLink { lk_Open : bool; lk_Resolved : bool; lk_Polled : Z * Z; lk_At : Z * Z }.
#[export] Instance settable_link : Settable link := fun l => mkLink (lk_Open l) (lk_Resolved l) (lk_Polled l) (lk_At l).
Definition initial_link : link := mkLink false false (0, 0) (0, 0).
(** Data may go: the connection is open, resolved, and of the current configuration. *)
Definition lk_ready (l : link) : bool := lk_Open l && lk_Resolved l && bool_decide (lk_At l = lk_Polled l).
(** [None] is a breach: an Open of what is open, or data where none may go.  A stream
    that failed to send has closed itself. *)
Definition link_step (l : link) (e : sn_event) : option link :=
  match e with
  | Polled endpoint stream => Some (l <| lk_Polled := (endpoint, stream) |>)
  | Opened ok => if lk_Open l then None else Some (if ok then l <| lk_Open := true |> <| lk_At := lk_Polled l |> else l)
  | Resolved ok => Some (l <| lk_Resolved := ok |>)
  | Closed => Some (l <| lk_Open := false |> <| lk_Resolved := false |>)
  | Offered _ _ => if lk_ready l then Some l else None
  | Streamed _ ok => if lk_ready l then Some (if ok then l else l <| lk_Open := false |>) else None
  | LimitAsked _ | Raised _ _ _ => Some l
  end.
Fixpoint link_run (l : link) (es : list sn_event) : option link :=
  match es with
  | [] => Some l
  | e :: es => match link_step l e with Some l => link_run l es | None => None end
  end.
Lemma link_run_app l es1 es2 : link_run l (es1 ++ es2) = match link_run l es1 with Some l => link_run l es2 | None => None end.
Proof. revert l. induction es1 as [| e es1 IH]; intros l; cbn [link_run app]; [done |]. destruct (link_step l e); [apply IH | done]. Qed.
Lemma link_run_snoc l es e l1 : link_run l es = Some l1 -> link_run l (es ++ [e]) = link_step l1 e.
Proof. intros H. rewrite link_run_app, H. cbn. by destruct (link_step l1 e). Qed.

(** The sender's own view of its connection is the trace's. *)
Definition link_agrees (tr : list sn_event) (connected : bool) (versions : Z * Z) : Prop :=
  exists l, link_run initial_link tr = Some l /\
    if connected then lk_Open l = true /\ lk_Resolved l = true /\ lk_At l = versions else lk_Open l = false.
(** It may send: the versions polled last are the ones it holds. *)
Definition link_ready (tr : list sn_event) (versions : Z * Z) : Prop :=
  exists l, link_run initial_link tr = Some l /\ lk_ready l = true /\ lk_At l = versions.
Lemma link_ready_agrees tr versions : link_ready tr versions -> link_agrees tr true versions.
Proof. intros (l & Hl & Hr & Ha). unfold lk_ready in Hr. exists l. split; [done |]. by destruct (lk_Open l), (lk_Resolved l). Qed.
Lemma link_ready_snoc tr e versions : link_ready tr versions ->
  match e with Offered _ _ | LimitAsked _ | Raised _ _ _ | Streamed _ true => True | _ => False end -> link_ready (tr ++ [e]) versions.
Proof.
  intros (l & Hl & Hr & Ha) He. exists l. rewrite (link_run_snoc _ _ _ _ Hl). split; [| done].
  destruct e; try done; cbn [link_step]; try by rewrite Hr. destruct ok; [by rewrite Hr | done].
Qed.
Lemma link_agrees_raised tr severity category detail connected versions :
  link_agrees tr connected versions -> link_agrees (tr ++ [Raised severity category detail]) connected versions.
Proof. intros (l & Hl & Hc). exists l. by rewrite (link_run_snoc _ _ _ _ Hl). Qed.
(** The events of a Reconcile. *)
Definition link_event (e : sn_event) : Prop := match e with Polled _ _ | Opened _ | Resolved _ | Closed => True | _ => False end.

Section sender_rules.
Context {S E : Type} `{ErrorTap E}.
Implicit Types (w : sn_world S E).
Lemma wp_sn_get {A} (f : S -> A) (Q : A -> sn_world S E -> Prop) w : Q (f (sn_Self w)) w -> wp (sn_get f) Q w.
Proof using. done. Qed.
Lemma wp_sn_set f (Q : unit -> sn_world S E -> Prop) w : Q tt (mkSnWorld (f (sn_Self w)) (sn_Env w) (sn_Trace w)) -> wp (sn_set f) Q w.
Proof using. done. Qed.
Lemma wp_sn_happens e (Q : unit -> sn_world S E -> Prop) w : Q tt (mkSnWorld (sn_Self w) (sn_Env w) (sn_Trace w ++ [e])) -> wp (sn_happens e) Q w.
Proof using. done. Qed.
Lemma wp_sn_env {A} (m : ST E A) (Q : A -> sn_world S E -> Prop) w :
  (forall a e, Q a (mkSnWorld (sn_Self w) e (sn_Trace w))) -> wp (sn_env m) Q w.
Proof using. intros HQ. unfold wp, sn_env, zoom. destruct (m (sn_Env w)). apply HQ. Qed.
(** Whatever the transport answers. *)
Lemma wp_sn_call {A} (m : S -> ST E A) said (Q : A -> sn_world S E -> Prop) w :
  (forall a e, m (sn_Self w) (sn_Env w) = (a, e) -> Q a (mkSnWorld (sn_Self w) e (sn_Trace w ++ [said a]))) -> wp (sn_call m said) Q w.
Proof using.
  intros HQ. unfold wp, sn_call, sn_env, sn_happens, zoom, st_bind, st_get, st_mod, st_ret.
  destruct (m (sn_Self w) (sn_Env w)) as [a e] eqn:Em. cbn. by apply HQ.
Qed.
(** The reports a change of health makes. *)
Definition health_reports (healthy delivered : bool) (failed restored : Z) : list sn_event :=
  if Bool.eqb delivered healthy then []
  else if delivered then [Raised SOLIDSYSLOG_SEVERITY_NOTICE SOLIDSYSLOG_CAT_SENDER_DELIVERY_RESTORED restored]
  else [Raised SOLIDSYSLOG_SEVERITY_WARNING SOLIDSYSLOG_CAT_SENDER_DELIVERY_FAILED failed].
Lemma wp_sn_health get put reporter delivered (Q : unit -> sn_world S E -> Prop) w :
  (forall e, Q tt (mkSnWorld (put delivered (sn_Self w)) e
     (sn_Trace w ++ health_reports (get (sn_Self w)) delivered (hr_FailedDetail reporter) (hr_RestoredDetail reporter)))) ->
  wp (sn_health get put reporter delivered) Q w.
Proof using.
  intros HQ. unfold sn_health. apply wp_bind, wp_sn_get, wp_bind, wp_zoom. unfold SolidSyslogSenderHealth_Update, health_reports in *.
  destruct delivered, (get (sn_Self w)); cbn [Bool.eqb negb] in *; wp_steps;
    first [rewrite app_nil_r in HQ; apply HQ | apply HQ].
Qed.
End sender_rules.

(** Run a sender's program, for every answer of its transport. *)
Ltac sn_step :=
  lazymatch goal with
  | |- wp (sn_get _) _ _ => apply wp_sn_get
  | |- wp (sn_set _) _ _ => apply wp_sn_set
  | |- wp (sn_happens _) _ _ => apply wp_sn_happens
  | |- wp (sn_call _ _) _ _ => apply wp_sn_call; let Ha := fresh "Ha" in intros ? ? Ha
  | |- wp (sn_env _) _ _ => apply wp_sn_env; intros ? ?
  | |- wp (sn_health _ _ _ _) _ _ => apply wp_sn_health; intros ?
  | |- _ => wp_step
  end.
Ltac sn_steps := cbv beta iota; repeat (sn_step; cbv beta iota); cbn [sn_Self sn_Env sn_Trace].

(** Follow the link over the events added to a trace. *)
Ltac link_follow Hl :=
  cbn [sn_Trace sn_Self]; rewrite ?link_run_app, Hl; cbn [link_run link_step app]; unfold set_field;
  repeat match goal with
  | Ho : lk_Open _ = _ |- _ => progress (cbn; rewrite ?Ho)
  end; cbn.

(** * The UDP sender *)

Section udp_theory.
Context {E : Type} `{ErrorTap E} (frame : bytes).
Implicit Types (w : @us_world E).

Definition us_linked w : Prop :=
  link_agrees (sn_Trace w) (us_Connected (sn_Self w)) (us_LastEndpointVersion (sn_Self w), 0).
(** The sender with its connection settled. *)
Definition us_settled (connected : bool) (version : Z) (self : @SolidSyslogUdpSender E) : @SolidSyslogUdpSender E :=
  self <| us_Connected := connected |> <| us_LastEndpointVersion := version |>.
Definition us_reconciled w (ready : bool) w' : Prop :=
  exists es version, sn_Trace w' = sn_Trace w ++ es /\ Forall link_event es /\ sn_Self w' = us_settled ready version (sn_Self w) /\
    if ready then link_ready (sn_Trace w') (version, 0) else link_agrees (sn_Trace w') false (version, 0).

Lemma Connect_spec self e tr version :
  us_Connected self = false -> us_LastEndpointVersion self = version ->
  (exists l, link_run initial_link tr = Some l /\ lk_Open l = false /\ lk_Polled l = (version, 0)) ->
  wp (UdpSender_Connect frame) (us_reconciled (mkSnWorld self e tr)) (mkSnWorld self e tr).
Proof using.
  intros Hc Hv (l & Hl & Ho & Hp). unfold UdpSender_Connect, UdpSender_QueryEndpointPort, UdpSender_OpenSocket, UdpSender_ResolveDestination, UdpSender_CloseSocket.
  destruct self as [base config connected healthy reported last]. cbn in Hc, Hv. subst connected last. sn_steps. destruct a0; sn_steps; [destruct a0; sn_steps |].
  - eexists _, version. split; [by rewrite <- app_assoc |]. split; [by repeat constructor |]. split; [done |].
    eexists. split; [link_follow Hl; reflexivity |]. by cbn; rewrite Hp, bool_decide_true.
  - eexists _, version. split; [by rewrite <- !app_assoc |]. split; [by repeat constructor |]. split; [done |].
    eexists. split; [link_follow Hl; reflexivity | done].
  - eexists _, version. split; [by rewrite <- !app_assoc |]. split; [by repeat constructor |]. split; [done |].
    eexists. split; [link_follow Hl; reflexivity | done].
Qed.
Lemma reconciled_after w w1 es ready w' :
  sn_Trace w1 = sn_Trace w ++ es -> Forall link_event es -> (forall c v, us_settled c v (sn_Self w1) = us_settled c v (sn_Self w)) ->
  us_reconciled w1 ready w' -> us_reconciled w ready w'.
Proof using.
  intros Et He Es (es1 & version & Et1 & He1 & Es1 & Hl). exists (es ++ es1), version. rewrite app_assoc, <- Et, <- Es.
  split; [done |]. split; [by apply Forall_app |]. by split.
Qed.
Lemma Reconcile_spec w : us_linked w -> wp (UdpSender_Reconcile frame) (us_reconciled w) w.
Proof using.
  destruct w as [self e tr]. intros (l & Hl & Hc). unfold UdpSender_Reconcile, UdpSender_DisconnectIfStale, UdpSender_EnsureConnected, UdpSender_Disconnect, UdpSender_CloseSocket, UdpSender_Connected.
  cbn [sn_Trace sn_Self] in *. sn_steps. rename a into version.
  assert (Hpolled : link_run initial_link (tr ++ [Polled version 0]) = Some (l <| lk_Polled := (version, 0) |>)) by (by rewrite (link_run_snoc _ _ _ _ Hl)).
  destruct (Z.eqb_spec version (us_LastEndpointVersion self)) as [Ev | Nv]; cbn [negb]; sn_steps; destruct (us_Connected self) eqn:Ec; sn_steps.
  - exists [Polled version 0], version. split; [done |]. split; [by repeat constructor |]. split.
    + cbn. subst version. by destruct self; cbn in *; rewrite Ec.
    + destruct Hc as (Ho & Hr & Hat). exists (l <| lk_Polled := (version, 0) |>). split; [done |]. cbn.
      unfold lk_ready; cbn. by rewrite Ho, Hr, Hat, <- Ev, bool_decide_true.
  - eapply wp_mono; [apply (Connect_spec self _ _ version); [done | done |] |].
    + exists (l <| lk_Polled := (version, 0) |>). by split.
    + intros ready w'. by apply (reconciled_after _ _ [Polled version 0]); [| repeat constructor |].
  - eapply wp_mono; [apply (Connect_spec _ _ _ version); [done | done |] |].
    + eexists. split; [by rewrite (link_run_snoc _ _ _ _ Hpolled) | by split].
    + intros ready w'. apply (reconciled_after _ _ [Polled version 0; Closed]); [by rewrite <- app_assoc | by repeat constructor | done].
  - change (us_Connected self <| us_LastEndpointVersion := version |>) with (us_Connected self). rewrite Ec.
    eapply wp_mono; [apply (Connect_spec _ _ _ version); [done | done |] |].
    + exists (l <| lk_Polled := (version, 0) |>). by split.
    + intros ready w'. by apply (reconciled_after _ _ [Polled version 0]); [| repeat constructor |].
Qed.

(** ** What becomes of a record *)

Inductive us_fate := Whole | Trimmed (n : Z) | Discarded | Kept.
#[export] Instance us_fate_eq_dec : EqDecision us_fate.
Proof using. solve_decision. Defined.
Definition fate_result (fate : us_fate) : SolidSyslogDatagramSendResult :=
  match fate with
  | Whole | Trimmed _ => SOLIDSYSLOG_DATAGRAM_SEND_RESULT_SENT
  | Discarded => SOLIDSYSLOG_DATAGRAM_SEND_RESULT_OVERSIZE
  | Kept => SOLIDSYSLOG_DATAGRAM_SEND_RESULT_FAILED
  end.
(** The path would not carry the whole record: it said so, or failed a record beyond
    its limit. *)
Inductive refused (record : bytes) : list sn_event -> Prop :=
| refused_told : refused record [Offered record SOLIDSYSLOG_DATAGRAM_SEND_RESULT_OVERSIZE]
| refused_inferred limit : 0 < limit < lenZ record ->
    refused record [Offered record SOLIDSYSLOG_DATAGRAM_SEND_RESULT_FAILED; LimitAsked limit].
(** The conversation over one record, and what becomes of the record. *)
Inductive transmits (record : bytes) : list sn_event -> us_fate -> Prop :=
| sent_whole : transmits record [Offered record SOLIDSYSLOG_DATAGRAM_SEND_RESULT_SENT] Whole
| failed_whole limit : limit = 0 \/ lenZ record <= limit ->
    transmits record [Offered record SOLIDSYSLOG_DATAGRAM_SEND_RESULT_FAILED; LimitAsked limit] Kept
| nothing_fits es limit : refused record es -> longest_valid record (Z.min (lenZ record) limit) 0 ->
    transmits record (es ++ [LimitAsked limit]) Discarded
| offered_trimmed es limit n result : refused record es -> 0 < n -> longest_valid record (Z.min (lenZ record) limit) n ->
    transmits record (es ++ [LimitAsked limit; Offered (takeZ n record) result])
      (match result with
       | SOLIDSYSLOG_DATAGRAM_SEND_RESULT_SENT => Trimmed n
       | SOLIDSYSLOG_DATAGRAM_SEND_RESULT_OVERSIZE => Discarded
       | SOLIDSYSLOG_DATAGRAM_SEND_RESULT_FAILED => Kept
       end).
(** One report stands for a run of discarded records; a record sent ends the run. *)
Definition loss_reports (reported : bool) (fate : us_fate) : list sn_event :=
  match fate with
  | Discarded => if reported then [] else [Raised SOLIDSYSLOG_SEVERITY_ERROR SOLIDSYSLOG_CAT_SENDER_RECORDS_LOST SOLIDSYSLOG_UDP_SENDER_ERROR_RECORD_TOO_LARGE]
  | _ => []
  end.
Definition loss_reported (reported : bool) (fate : us_fate) : bool :=
  match fate with Whole | Trimmed _ => false | Discarded => true | Kept => reported end.
(** Delivery health hears of the records sent and kept, not of those discarded. *)
Definition fate_healthy (healthy : bool) (fate : us_fate) : bool :=
  match fate with Whole | Trimmed _ => true | Discarded => healthy | Kept => false end.
Definition edge_reports (healthy : bool) (fate : us_fate) : list sn_event :=
  health_reports healthy (fate_healthy healthy fate) SOLIDSYSLOG_UDP_SENDER_ERROR_DELIVERY_FAILED SOLIDSYSLOG_UDP_SENDER_ERROR_DELIVERY_RESTORED.

Lemma longest_valid_takeZ buffer size limit n : 0 <= size <= lenZ buffer -> limit <= size ->
  longest_valid buffer limit n -> longest_valid (takeZ size buffer) limit n.
Proof using.
  intros Hs Hl (Hn & Hlt & Hv & Hmax). split; [done |]. split; [done |]. split; [by rewrite takeZ_takeZ, Z.min_l by lia |].
  intros m Hm. rewrite takeZ_takeZ, Z.min_l by lia. by apply Hmax.
Qed.

Section one_record.
Context (buffer : bytes) (size : Z).
Let record : bytes := takeZ size buffer.
Context (Hsize : 0 <= size <= lenZ buffer) (Hmax : size + 4 <= SIZE_MAX) (Hvalid : valid_utf8 record).

(** The datagram's limit is a [size_t]. *)
Definition limit_typed (self : @SolidSyslogUdpSender E) : Prop :=
  forall e, 0 <= fst (SolidSyslogDatagram_MaxPayload (SolidSyslogDatagram := uc_Datagram (us_Config self)) e).

Definition us_transmitted w (result : SolidSyslogDatagramSendResult) w' : Prop :=
  exists es fate, transmits record es fate /\ result = fate_result fate /\
    sn_Trace w' = sn_Trace w ++ es ++ loss_reports (us_RecordTooLargeReported (sn_Self w)) fate /\
    sn_Self w' = (sn_Self w) <| us_RecordTooLargeReported := loss_reported (us_RecordTooLargeReported (sn_Self w)) fate |>.

Lemma SendTo_spec data n w (Q : SolidSyslogDatagramSendResult -> @us_world E -> Prop) :
  (forall e, Q SOLIDSYSLOG_DATAGRAM_SEND_RESULT_SENT
     (mkSnWorld ((sn_Self w) <| us_RecordTooLargeReported := false |>) e (sn_Trace w ++ [Offered (takeZ n data) SOLIDSYSLOG_DATAGRAM_SEND_RESULT_SENT]))) ->
  (forall r e, r <> SOLIDSYSLOG_DATAGRAM_SEND_RESULT_SENT -> Q r (mkSnWorld (sn_Self w) e (sn_Trace w ++ [Offered (takeZ n data) r]))) ->
  wp (UdpSender_SendTo data n) Q w.
Proof using.
  intros HS HN. unfold UdpSender_SendTo. sn_steps. destruct (bool_decide_reflect (a = SOLIDSYSLOG_DATAGRAM_SEND_RESULT_SENT)) as [-> | Hne]; sn_steps; auto.
Qed.
Lemma ReportRecordTooLarge_spec w (Q : unit -> @us_world E -> Prop) :
  (forall e, Q tt (mkSnWorld ((sn_Self w) <| us_RecordTooLargeReported := true |>) e (sn_Trace w ++ loss_reports (us_RecordTooLargeReported (sn_Self w)) Discarded))) ->
  wp UdpSender_ReportRecordTooLarge Q w.
Proof using.
  intros HQ. unfold UdpSender_ReportRecordTooLarge, UdpSender_Report, sn_report. destruct w as [[base config connected healthy reported last] e tr].
  sn_steps. cbn in *. destruct reported; cbn [negb]; sn_steps; [| apply HQ]. specialize (HQ e). by rewrite app_nil_r in HQ.
Qed.
Lemma RetryAfterOversize_spec w es : refused record es -> limit_typed (sn_Self w) ->
  wp (UdpSender_RetryAfterOversize buffer size)
    (fun result w' => exists es' fate, transmits record (es ++ es') fate /\ result = fate_result fate /\
       sn_Trace w' = sn_Trace w ++ es' ++ loss_reports (us_RecordTooLargeReported (sn_Self w)) fate /\
       sn_Self w' = (sn_Self w) <| us_RecordTooLargeReported := loss_reported (us_RecordTooLargeReported (sn_Self w)) fate |>) w.
Proof using Hsize Hmax Hvalid.
  intros Hr Hlim. assert (Hrec : lenZ record = size) by (apply lenZ_takeZ; lia).
  unfold UdpSender_RetryAfterOversize, UdpSender_MaxPayload. sn_steps. rename a into limit.
  assert (Hl : 0 <= limit) by (specialize (Hlim (sn_Env w)); rewrite Ha in Hlim; done).
  replace (if size <? limit then size else limit) with (Z.min size limit) by (destruct (Z.ltb_spec size limit); lia).
  pose proof (TrimToCodepointBoundary_cuts buffer size (Z.min size limit) Hvalid ltac:(lia) ltac:(lia) Hmax) as Hcut.
  set (n := SolidSyslogUdpPayload_TrimToCodepointBoundary buffer (Z.min size limit)) in *. clearbody n.
  apply (longest_valid_takeZ buffer size) in Hcut; [| lia | lia]. fold record in Hcut. rewrite <- Hrec in Hcut.
  assert (Hn : 0 <= n <= size) by (destruct Hcut; lia).
  destruct (Z.ltb_spec 0 n).
  - apply SendTo_spec; [intros e1 | intros r e1 Hne]; cbn [sn_Trace sn_Self]; rewrite <- (Z.min_l n size), <- takeZ_takeZ by lia; fold record.
    + rewrite bool_decide_false by done. sn_steps. exists [LimitAsked limit; Offered (takeZ n record) SOLIDSYSLOG_DATAGRAM_SEND_RESULT_SENT], (Trimmed n).
      split; [by apply (offered_trimmed record es limit n SOLIDSYSLOG_DATAGRAM_SEND_RESULT_SENT) |]. split; [done |].
      cbn [loss_reports loss_reported]. by rewrite app_nil_r, <- app_assoc.
    + destruct r; [done | |].
      * rewrite bool_decide_true by done. sn_steps. apply ReportRecordTooLarge_spec. intros e2. sn_steps.
        exists [LimitAsked limit; Offered (takeZ n record) SOLIDSYSLOG_DATAGRAM_SEND_RESULT_OVERSIZE], Discarded.
        split; [by apply (offered_trimmed record es limit n SOLIDSYSLOG_DATAGRAM_SEND_RESULT_OVERSIZE) |]. split; [done |].
        split; [by rewrite <- !app_assoc | done].
      * rewrite bool_decide_false by done. sn_steps. exists [LimitAsked limit; Offered (takeZ n record) SOLIDSYSLOG_DATAGRAM_SEND_RESULT_FAILED], Kept.
        split; [by apply (offered_trimmed record es limit n SOLIDSYSLOG_DATAGRAM_SEND_RESULT_FAILED) |]. split; [done |].
        split; [by rewrite <- !app_assoc | by destruct w as [[] ? ?]].
  - sn_steps. rewrite bool_decide_true by done. sn_steps. apply ReportRecordTooLarge_spec. intros e1. sn_steps.
    exists [LimitAsked limit], Discarded. replace n with 0 in Hcut by lia.
    split; [by apply nothing_fits |]. split; [done |]. split; [by rewrite <- !app_assoc | done].
Qed.
Lemma TransmitDatagram_spec w : limit_typed (sn_Self w) -> wp (UdpSender_TransmitDatagram buffer size) (us_transmitted w) w.
Proof using Hsize Hmax Hvalid.
  intros Hlim. assert (Hrec : lenZ record = size) by (apply lenZ_takeZ; lia).
  unfold UdpSender_TransmitDatagram. sn_steps. apply SendTo_spec; [intros e1 | intros r e1 Hne]; fold record.
  - rewrite bool_decide_false by done. sn_steps. rewrite bool_decide_false by done. sn_steps.
    exists [Offered record SOLIDSYSLOG_DATAGRAM_SEND_RESULT_SENT], Whole. split; [constructor |]. done.
  - destruct r; [done | |].
    + rewrite bool_decide_false by done. sn_steps. rewrite bool_decide_true by done.
      eapply wp_mono; [apply (RetryAfterOversize_spec _ [Offered record SOLIDSYSLOG_DATAGRAM_SEND_RESULT_OVERSIZE]); [constructor | done] |].
      cbv beta. intros r w' (es & fate & Ht & Er & Et & Es). exists ([Offered record SOLIDSYSLOG_DATAGRAM_SEND_RESULT_OVERSIZE] ++ es), fate.
      split; [done |]. split; [done |]. split; [by rewrite Et; cbn; rewrite <- !app_assoc | done].
    + rewrite bool_decide_true by done. unfold UdpSender_FailureWasOversize, UdpSender_MaxPayload. sn_steps. rename a into limit.
      assert (Hl : 0 <= limit) by (specialize (Hlim e1); cbn in Ha; rewrite Ha in Hlim; done).
      destruct ((0 <? limit) && (limit <? size)) eqn:Eo.
      * rewrite bool_decide_true by done.
        eapply wp_mono; [apply (RetryAfterOversize_spec _ [Offered record SOLIDSYSLOG_DATAGRAM_SEND_RESULT_FAILED; LimitAsked limit]); [constructor; lia | done] |].
        cbv beta. intros r w' (es & fate & Ht & Er & Et & Es). exists ([Offered record SOLIDSYSLOG_DATAGRAM_SEND_RESULT_FAILED; LimitAsked limit] ++ es), fate.
        split; [done |]. split; [done |]. split; [by rewrite Et; cbn; rewrite <- !app_assoc | done].
      * rewrite bool_decide_false by done. sn_steps. exists [Offered record SOLIDSYSLOG_DATAGRAM_SEND_RESULT_FAILED; LimitAsked limit], Kept.
        split; [constructor; lia |]. split; [done |]. split; [by rewrite app_nil_r, <- app_assoc | by destruct w as [[] ? ?]].
Qed.
End one_record.

(** ** A run *)

(** A conversation leaves the link as it found it. *)
Definition talk_event (e : sn_event) : Prop := match e with Offered _ _ | LimitAsked _ | Raised _ _ _ => True | _ => False end.
Lemma link_ready_talk es : forall tr versions, Forall talk_event es -> link_ready tr versions -> link_ready (tr ++ es) versions.
Proof using.
  induction es as [| e es IH]; intros tr versions He Hl; [by rewrite app_nil_r |]. apply Forall_cons_1 in He as [He Hes].
  replace (tr ++ e :: es) with ((tr ++ [e]) ++ es) by (by rewrite <- app_assoc). apply IH; [done |].
  apply link_ready_snoc; [done |]. by destruct e.
Qed.
Lemma link_agrees_raises es : forall tr connected versions, Forall (fun e => match e with Raised _ _ _ => True | _ => False end) es ->
  link_agrees tr connected versions -> link_agrees (tr ++ es) connected versions.
Proof using.
  induction es as [| e es IH]; intros tr connected versions He Hl; [by rewrite app_nil_r |]. apply Forall_cons_1 in He as [He Hes].
  replace (tr ++ e :: es) with ((tr ++ [e]) ++ es) by (by rewrite <- app_assoc). apply IH; [done |].
  destruct e; try done. by apply link_agrees_raised.
Qed.
Lemma transmits_talk record es fate : transmits record es fate -> Forall talk_event es.
Proof using.
  intros Ht. destruct Ht as [| | es limit Hr | es limit n result Hr]; [by repeat constructor | by repeat constructor | |];
    destruct Hr; by repeat constructor.
Qed.
Lemma health_raises healthy delivered failed restored :
  Forall (fun e => match e with Raised _ _ _ => True | _ => False end) (health_reports healthy delivered failed restored).
Proof using. destruct healthy, delivered; by repeat constructor. Qed.
Lemma loss_raises reported fate : Forall (fun e => match e with Raised _ _ _ => True | _ => False end) (loss_reports reported fate).
Proof using. destruct fate, reported; by repeat constructor. Qed.

(** The story of one Send: the link is settled, then there is a conversation over the
    record unless there is no link, then what is to report is reported. *)
Definition one_send (healthy reported : bool) (record : bytes) (es : list sn_event) (fate : us_fate) : Prop :=
  exists settling tx, Forall link_event settling /\ (transmits record tx fate \/ tx = [] /\ fate = Kept) /\
    es = settling ++ tx ++ loss_reports reported fate ++ edge_reports healthy fate.
Inductive udp_story : bool -> bool -> list sn_event -> list (bytes * bool) -> Prop :=
| story_over healthy reported : udp_story healthy reported [] []
| story_send healthy reported record es fate rest answers : one_send healthy reported record es fate ->
    udp_story (fate_healthy healthy fate) (loss_reported reported fate) rest answers ->
    udp_story healthy reported (es ++ rest) ((record, bool_decide (fate_result fate <> SOLIDSYSLOG_DATAGRAM_SEND_RESULT_FAILED)) :: answers)
| story_closed healthy reported rest answers : udp_story healthy reported rest answers -> udp_story healthy reported (Closed :: rest) answers.

Definition us_owned w : Prop := us_linked w /\ us_Base (sn_Self w) = OwnVtable /\ limit_typed (sn_Self w).
Definition input_ok (input : sn_input E) : Prop :=
  match input with
  | SendRecord buffer size => 0 <= size <= lenZ buffer /\ size + 4 <= SIZE_MAX /\ valid_utf8 (takeZ size buffer)
  | _ => True
  end.
Definition us_step w (record : bytes) (taken : bool) w' : Prop :=
  us_owned w' /\ exists es fate, one_send (us_DeliveryHealthy (sn_Self w)) (us_RecordTooLargeReported (sn_Self w)) record es fate /\
    sn_Trace w' = sn_Trace w ++ es /\ taken = bool_decide (fate_result fate <> SOLIDSYSLOG_DATAGRAM_SEND_RESULT_FAILED) /\
    us_DeliveryHealthy (sn_Self w') = fate_healthy (us_DeliveryHealthy (sn_Self w)) fate /\
    us_RecordTooLargeReported (sn_Self w') = loss_reported (us_RecordTooLargeReported (sn_Self w)) fate.

Definition us_delivered w (record : bytes) (result : SolidSyslogDatagramSendResult) w' : Prop :=
  exists settling tx fate connected version, Forall link_event settling /\ (transmits record tx fate \/ tx = [] /\ fate = Kept) /\
    result = fate_result fate /\
    sn_Trace w' = sn_Trace w ++ settling ++ tx ++ loss_reports (us_RecordTooLargeReported (sn_Self w)) fate /\
    sn_Self w' = (us_settled connected version (sn_Self w))
      <| us_RecordTooLargeReported := loss_reported (us_RecordTooLargeReported (sn_Self w)) fate |> /\
    link_agrees (sn_Trace w') connected (version, 0).
Lemma Deliver_spec buffer size w : input_ok (SendRecord buffer size) -> us_owned w ->
  wp (UdpSender_Deliver frame buffer size) (us_delivered w (takeZ size buffer)) w.
Proof using.
  intros (Hsize & Hmax & Hvalid) (Hlink & Hbase & Hlim). unfold UdpSender_Deliver. apply wp_bind.
  eapply wp_mono; [by apply Reconcile_spec |]. intros ready w1 (settling & version & Et1 & Hs & Es1 & Hl1). cbv beta. destruct ready.
  - eapply wp_mono; [apply (TransmitDatagram_spec buffer size Hsize Hmax Hvalid); rewrite Es1; exact Hlim |].
    intros result w2 (tx & fate & Ht & Er & Et2 & Es2). rewrite Es1 in Et2, Es2.
    exists settling, tx, fate, true, version. split; [done |]. split; [by left |]. split; [done |]. split; [by rewrite Et2, Et1, <- app_assoc |].
    split; [done |]. apply link_ready_agrees. rewrite Et2, app_assoc. apply link_ready_talk; [| apply link_ready_talk; [by apply (transmits_talk (takeZ size buffer) _ fate) | done]].
    refine (Forall_impl _ _ (loss_raises _ fate)). by intros [].
  - sn_steps. exists settling, [], Kept, false, version. split; [done |]. split; [by right |]. split; [done |].
    split; [by cbn; rewrite app_nil_r |]. split; [| done]. rewrite Es1. by destruct w as [[] ? ?].
Qed.
Lemma discard_no_edge healthy : edge_reports healthy Discarded = [].
Proof using. by destruct healthy. Qed.
Lemma Send_spec buffer size w : input_ok (SendRecord buffer size) -> us_owned w ->
  wp (UdpSender_Send frame (Some buffer) size) (us_step w (takeZ size buffer)) w.
Proof using.
  intros Hin Hown. unfold UdpSender_Send. apply wp_bind. eapply wp_mono; [by apply Deliver_spec |].
  intros result w1 (settling & tx & fate & connected & version & Hs & Htx & -> & Et & Es & Hl). cbv beta.
  destruct Hown as (_ & Hbase & Hlim). unfold UdpSender_WasDiscarded, UdpSender_UpdateDeliveryHealth.
  assert (HD : forall e self', self' = (sn_Self w1) <| us_DeliveryHealthy := fate_healthy (us_DeliveryHealthy (sn_Self w)) fate |> ->
    us_step w (takeZ size buffer) (bool_decide (fate_result fate <> SOLIDSYSLOG_DATAGRAM_SEND_RESULT_FAILED))
      (mkSnWorld self' e (sn_Trace w1 ++ edge_reports (us_DeliveryHealthy (sn_Self w)) fate))).
  { intros e self' ->. rewrite Es. split; [split; [| by split] |].
    - apply link_agrees_raises; [apply health_raises | done].
    - eexists _, fate. split; [exists settling, tx; split; [done |]; split; [done | reflexivity] |].
      split; [cbn [sn_Trace]; rewrite Et; by rewrite <- !app_assoc | done]. }
  assert (Eh : us_DeliveryHealthy (sn_Self w1) = us_DeliveryHealthy (sn_Self w)) by (by rewrite Es).
  assert (Ed : fate <> Discarded -> wp (sn_health us_DeliveryHealthy (fun b s => s <| us_DeliveryHealthy := b |>)
      (mkReporter (Some SolidSyslogUdpSenderErrorSource) SOLIDSYSLOG_UDP_SENDER_ERROR_DELIVERY_FAILED SOLIDSYSLOG_UDP_SENDER_ERROR_DELIVERY_RESTORED)
      (bool_decide (fate_result fate = SOLIDSYSLOG_DATAGRAM_SEND_RESULT_SENT)))
    (fun _ => us_step w (takeZ size buffer) (bool_decide (fate_result fate <> SOLIDSYSLOG_DATAGRAM_SEND_RESULT_FAILED))) w1).
  { intros Hne. apply wp_sn_health. intros e. rewrite Eh. destruct fate; done || by apply HD. }
  destruct (decide (fate = Discarded)) as [-> | Hne].
  2:{ rewrite bool_decide_false by (by destruct fate). cbn [negb]. apply wp_bind. eapply wp_mono; [by apply Ed |]. intros [] w2 H2. by apply wp_ret. }
  rewrite bool_decide_true by done. sn_steps.
  specialize (HD (sn_Env w1) (sn_Self w1)). rewrite (discard_no_edge (us_DeliveryHealthy (sn_Self w))), app_nil_r in HD.
  destruct w1 as [self1 e1 tr1]. apply HD. cbn [sn_Self] in *. by rewrite Es.
Qed.
Lemma Disconnect_spec w : us_owned w ->
  wp UdpSender_Disconnect (fun _ w' => us_owned w' /\ us_DeliveryHealthy (sn_Self w') = us_DeliveryHealthy (sn_Self w) /\
    us_RecordTooLargeReported (sn_Self w') = us_RecordTooLargeReported (sn_Self w) /\
    sn_Trace w' = sn_Trace w ++ (if us_Connected (sn_Self w) then [Closed] else [])) w.
Proof using.
  intros ((l & Hl & Hc) & Hbase & Hlim). unfold UdpSender_Disconnect, UdpSender_Connected, UdpSender_CloseSocket. sn_steps.
  destruct (us_Connected (sn_Self w)) eqn:Ec; sn_steps.
  - split; [| done]. split; [| by split]. eexists. split; [cbn [sn_Trace]; by rewrite (link_run_snoc _ _ _ _ Hl) | done].
  - rewrite app_nil_r. split; [| done]. split; [| by split]. exists l. by rewrite Ec.
Qed.
Lemma feed_tells inputs : forall w, Forall input_ok inputs -> us_owned w ->
  wp (sn_feed (UdpSender_vtable frame) inputs) (fun answers w' => us_owned w' /\
    exists es, sn_Trace w' = sn_Trace w ++ es /\ udp_story (us_DeliveryHealthy (sn_Self w)) (us_RecordTooLargeReported (sn_Self w)) es answers) w.
Proof using.
  induction inputs as [| input inputs IH]; intros w Hin Hown; cbn [feed].
  { apply wp_ret. split; [done |]. exists []. split; [by rewrite app_nil_r | constructor]. }
  apply Forall_cons_1 in Hin as [Hi Hin]. assert (Hbase : us_Base (sn_Self w) = OwnVtable) by apply Hown. destruct input as [buffer size | | change].
  - apply wp_bind. cbn [UdpSender_vtable SolidSyslogSender_Send]. apply wp_bind, wp_sn_get. rewrite Hbase. cbv iota.
    eapply wp_mono; [by apply Send_spec |]. intros taken w1 (Hown1 & es & fate & Ho & Et & -> & Eh & Er). cbv beta. apply wp_bind.
    eapply wp_mono; [by apply IH |]. intros answers w2 (Hown2 & es2 & Et2 & Hst). cbv beta. apply wp_ret. split; [done |].
    exists (es ++ es2). split; [by rewrite Et2, Et, <- app_assoc |]. apply story_send; [done | by rewrite <- Eh, <- Er].
  - apply wp_bind. cbn [UdpSender_vtable SolidSyslogSender_Disconnect]. apply wp_bind, wp_sn_get. rewrite Hbase. cbv iota.
    eapply wp_mono; [by apply Disconnect_spec |]. intros _ w1 (Hown1 & Eh & Er & Et). cbv beta.
    eapply wp_mono; [by apply IH |]. intros answers w2 (Hown2 & es2 & Et2 & Hst). split; [done |]. rewrite Et2, Et, <- app_assoc, Eh, Er in *.
    eexists. split; [reflexivity |]. destruct (us_Connected (sn_Self w)); [by apply story_closed | done].
  - apply wp_bind, wp_mod. apply (IH (mkSnWorld (sn_Self w) (change (sn_Env w)) (sn_Trace w))); done.
Qed.

Definition us_fresh (config : @SolidSyslogUdpSenderConfig E) (self : @SolidSyslogUdpSender E) (e : E) : us_world :=
  mkSnWorld (SolidSyslogUdpSender_Initialise config self) e [].

(** C7. What becomes of each record a UDP sender is given, in any run of records,
    disconnections and changes of its environment, whatever its datagram, resolver and
    endpoint answer.  A record goes out whole; or, when the path refuses it for its
    size, as its longest prefix of whole UTF-8 characters within the datagram's limit;
    or is discarded, when that is refused too or nothing fits; or is kept for a retry,
    and only then does Send say it was not taken.  Discards are reported once per run
    of them, delivery once per change.  Data goes only on an open connection of the
    current endpoint version, and what is open is not opened again. *)
Theorem udp_sender_story config self (e : E) (inputs : list (sn_input E)) :
  limit_typed (SolidSyslogUdpSender_Initialise config self) -> Forall input_ok inputs ->
  let '(answers, w') := sn_feed (UdpSender_vtable frame) inputs (us_fresh config self e) in
  udp_story true false (sn_Trace w') answers /\
  exists l, link_run initial_link (sn_Trace w') = Some l /\ (us_Connected (sn_Self w') = true <-> lk_Open l = true).
Proof using.
  intros Hlim Hin. assert (Hown : us_owned (us_fresh config self e)).
  { split; [| split; [| done]]; unfold us_fresh, SolidSyslogUdpSender_Initialise; destruct (uc_EndpointVersion _); (done || (exists initial_link; done)). }
  pose proof (feed_tells inputs _ Hin Hown) as HB. unfold wp in HB. destruct (sn_feed _ _ _) as [answers w']. cbn [fst snd] in HB.
  destruct HB as ((( l & Hl & Hc) & _ & _) & es & Et & Hst).
  assert (Es : us_DeliveryHealthy (sn_Self (us_fresh config self e)) = true /\ us_RecordTooLargeReported (sn_Self (us_fresh config self e)) = false).
  { by unfold us_fresh, SolidSyslogUdpSender_Initialise; destruct (uc_EndpointVersion _). }
  destruct Es as [Eh Er]. rewrite Eh, Er in Hst. cbn in Et. subst es. split; [done |]. exists l. split; [done |].
  destruct (us_Connected (sn_Self w')); [by destruct Hc as (-> & _) | by rewrite Hc].
Qed.
End udp_theory.

(** * The stream sender *)

(** ** Octet counting, at the collector (RFC 6587, section 3.4.1) *)

Definition is_digit (b : Z) : bool := (0x30 <=? b) && (b <=? 0x39).
Fixpoint span_digits (l : bytes) : bytes * bytes :=
  match l with
  | b :: l' => if is_digit b then let '(ds, rest) := span_digits l' in (b :: ds, rest) else ([], l)
  | [] => ([], [])
  end.
(** The first frame of what came over a connection, if it is all there. *)
Definition read_frame (l : bytes) : option (bytes * bytes) :=
  match span_digits l with
  | (ds, 0x20 :: l) => if read_decimal ds <=? lenZ l then Some (takeZ (read_decimal ds) l, dropZ (read_decimal ds) l) else None
  | _ => None
  end.
(** A frame has at least one byte. *)
Fixpoint read_frames_from (fuel : nat) (l : bytes) : list bytes :=
  match fuel with
  | O => []
  | S fuel => match read_frame l with Some (r, l) => r :: read_frames_from fuel l | None => [] end
  end.
Definition read_frames (l : bytes) : list bytes := read_frames_from (S (length l)) l.
Definition octet_frame (record : bytes) : bytes := decimal (lenZ record) ++ [0x20] ++ record.
Definition octet_frames (records : list bytes) : bytes := concat (map octet_frame records).

Lemma span_digits_app ds rest : Forall (fun b => 0x30 <= b <= 0x39) ds -> match rest with b :: _ => is_digit b = false | [] => True end ->
  span_digits (ds ++ rest) = (ds, rest).
Proof.
  intros Hd Hr. induction Hd as [| b ds Hb _ IH]; cbn [app span_digits].
  - destruct rest as [| b rest]; [done |]. cbn [span_digits]. by rewrite Hr.
  - unfold is_digit. rewrite (proj2 (andb_true_iff _ _)) by lia. by rewrite IH.
Qed.
Lemma read_frame_whole r rest : lenZ r < 10 ^ 10 -> read_frame (octet_frame r ++ rest) = Some (r, rest).
Proof.
  intros Hr. pose proof (lenZ_nonneg r). unfold read_frame, octet_frame. rewrite <- !app_assoc.
  rewrite span_digits_app; [| apply digits_of_range | done]. cbn [app]. rewrite read_decimal_decimal by lia.
  rewrite (proj2 (Z.leb_le _ _)) by (len_simpl; pose proof (lenZ_nonneg rest); lia).
  by rewrite takeZ_app_le, takeZ_ge, dropZ_app_ge, Z.sub_diag by lia.
Qed.
(** Of a frame cut short nothing is read. *)
Lemma read_frame_part r part rest : lenZ r < 10 ^ 10 -> octet_frame r = part ++ rest -> rest <> [] -> read_frame part = None.
Proof.
  intros Hr E Hrest. pose proof (lenZ_nonneg r). unfold octet_frame in E. unfold read_frame.
  destruct (Nat.le_gt_cases (length part) (length (decimal (lenZ r)))) as [Hle | Hgt].
  - assert (Hp : part = take (length part) (decimal (lenZ r))).
    { rewrite <- (take_app_le (decimal (lenZ r)) ([0x20] ++ r)), E by done. by rewrite take_app_length. }
    rewrite Hp, <- (app_nil_r (take _ _)), span_digits_app; [done | | done]. apply Forall_take, digits_of_range.
  - apply (app_eq_inv (decimal (lenZ r))) in E as [(k & Ek & Er) | (k & Ek & Er)].
    { exfalso. rewrite Ek, length_app in Hgt. lia. }
    rewrite Ek, span_digits_app; [| apply digits_of_range | destruct k as [| b k]; [done |]; cbn in Er; injection Er as <- _; done].
    destruct k as [| b k]; [exfalso; rewrite Ek, app_nil_r in Hgt; lia |]. cbn in Er. injection Er as <- Er.
    rewrite read_decimal_decimal by lia. rewrite (proj2 (Z.leb_gt _ _)); [done |]. rewrite Er, lenZ_app.
    destruct rest; [done |]. rewrite lenZ_cons. pose proof (lenZ_nonneg rest). lia.
Qed.
(** What is read of whole frames and a part of one more. *)
Lemma read_frames_torn records r part rest : Forall (fun r => lenZ r < 10 ^ 10) records -> lenZ r < 10 ^ 10 -> octet_frame r = part ++ rest ->
  read_frames (octet_frames records ++ part) = records ++ (if decide (rest = []) then [r] else []).
Proof.
  intros Hrs Hr E. unfold read_frames. set (fuel := length (octet_frames records ++ part)).
  assert (Hf : (length (octet_frames records ++ part) <= fuel)%nat) by lia. clearbody fuel. revert fuel Hf.
  induction Hrs as [| r1 records Hr1 _ IH]; intros fuel Hf; cbn [octet_frames map concat app read_frames_from].
  - destruct (decide (rest = [])) as [-> | Hne].
    + rewrite app_nil_r in E. rewrite <- E, <- (app_nil_r (octet_frame r)), read_frame_whole by done. f_equal. by destruct fuel.
    + by rewrite (read_frame_part r part rest).
  - rewrite <- app_assoc, read_frame_whole by done. f_equal. fold (octet_frames records).
    assert (Hlen : (length (octet_frames records ++ part) < length (octet_frames (r1 :: records) ++ part))%nat).
    { change (octet_frames (r1 :: records)) with (octet_frame r1 ++ octet_frames records). unfold octet_frame at 1. rewrite !length_app. cbn [length]. lia. }
    destruct fuel as [| fuel]; [lia |]. apply IH. lia.
Qed.
Lemma read_frames_whole records : Forall (fun r => lenZ r < 10 ^ 10) records -> read_frames (octet_frames records) = records.
Proof.
  intros Hrs. rewrite <- (app_nil_r (octet_frames records)), (read_frames_torn records [] [] (octet_frame [])) by done.
  rewrite decide_False by done. apply app_nil_r.
Qed.

(** ** What a trace puts on the wire *)

(** The connections there were, and the bytes sent on each: a failed send may have
    sent a part. *)
Definition wire_step (conns : list bytes) (e : sn_event) (conns' : list bytes) : Prop :=
  match e with
  | Opened true => conns' = conns ++ [[]]
  | Streamed data true => exists before conn, conns = before ++ [conn] /\ conns' = before ++ [conn ++ data]
  | Streamed data false => exists before conn part rest, conns = before ++ [conn] /\ data = part ++ rest /\ conns' = before ++ [conn ++ part]
  | _ => conns' = conns
  end.
Fixpoint on_wire (conns : list bytes) (es : list sn_event) (conns' : list bytes) : Prop :=
  match es with
  | [] => conns' = conns
  | e :: es => exists conns1, wire_step conns e conns1 /\ on_wire conns1 es conns'
  end.
Lemma on_wire_app es1 es2 : forall conns conns', on_wire conns (es1 ++ es2) conns' <-> exists conns1, on_wire conns es1 conns1 /\ on_wire conns1 es2 conns'.
Proof.
  induction es1 as [| e es1 IH]; intros conns conns'; cbn [app on_wire].
  - split; [by exists conns | by intros (conns1 & -> & ?)].
  - split.
    + intros (c1 & H1 & (c2 & H2 & H3)%IH). exists c2. split; [by exists c1 | done].
    + intros (c2 & (c1 & H1 & H2) & H3). exists c1. split; [done |]. apply IH. by exists c2.
Qed.

(** ** Records on connections *)

Definition delivered (answers : list (bytes * bool)) : list bytes := map fst (List.filter snd answers).
Definition undelivered (answers : list (bytes * bool)) : list bytes := map fst (List.filter (fun a => negb (snd a)) answers).
Lemma delivered_snoc answers r taken : delivered (answers ++ [(r, taken)]) = delivered answers ++ (if taken then [r] else []).
Proof. unfold delivered. rewrite List.filter_app, map_app. by destruct taken. Qed.
Lemma undelivered_snoc answers r taken : undelivered (answers ++ [(r, taken)]) = undelivered answers ++ (if taken then [] else [r]).
Proof. unfold undelivered. rewrite List.filter_app, map_app. by destruct taken. Qed.

(** A connection carries the frames of its records and, at its end, a part of the
    frame of a record Send did not deliver. *)
Definition carries (failed records : list bytes) (conn : bytes) : Prop :=
  exists part, conn = octet_frames records ++ part /\ (part = [] \/ exists r rest, r ∈ failed /\ octet_frame r = part ++ rest).
Lemma carries_more failed more records conn : carries failed records conn -> carries (failed ++ more) records conn.
Proof.
  intros (part & E & Hp). exists part. split; [done |]. destruct Hp as [-> | (r & rest & Hin & Ef)]; [by left | right].
  exists r, rest. split; [apply elem_of_app; by left | done].
Qed.
Lemma carries_whole failed records : carries failed records (octet_frames records).
Proof. exists []. split; [by rewrite app_nil_r | by left]. Qed.
Lemma carries_part failed records r part rest : r ∈ failed -> octet_frame r = part ++ rest -> carries failed records (octet_frames records ++ part).
Proof. intros Hin E. exists part. split; [done | right]. by exists r, rest. Qed.
Lemma octet_frames_snoc records r : octet_frames (records ++ [r]) = octet_frames records ++ octet_frame r.
Proof. unfold octet_frames. rewrite map_app, concat_app. cbn. by rewrite app_nil_r. Qed.

(** What was delivered is what the connections carry, in order; an open connection
    carries whole frames only. *)
Definition wire_holds (answers : list (bytes * bool)) (connected : bool) (conns : list bytes) : Prop :=
  exists carried, concat carried = delivered answers /\ Forall2 (carries (undelivered answers)) carried conns /\
    (connected = true -> exists before records conns0, carried = before ++ [records] /\ conns = conns0 ++ [octet_frames records]).
Definition wire_inv (tr : list sn_event) (connected : bool) (answers : list (bytes * bool)) : Prop :=
  (exists conns, on_wire [] tr conns) /\ forall conns, on_wire [] tr conns -> wire_holds answers connected conns.

Lemma wire_snoc tr e connected connected' answers answers' :
  wire_inv tr connected answers ->
  (forall conns, wire_holds answers connected conns -> exists conns', wire_step conns e conns') ->
  (forall conns conns', wire_holds answers connected conns -> wire_step conns e conns' -> wire_holds answers' connected' conns') ->
  wire_inv (tr ++ [e]) connected' answers'.
Proof.
  intros [[conns Hw] Hinv] Hex Hstep. split.
  - destruct (Hex conns (Hinv _ Hw)) as [conns' Hs]. exists conns'. apply on_wire_app. exists conns. split; [done |]. by exists conns'.
  - intros conns' (c1 & H1 & c2 & H2 & ->)%on_wire_app. by apply (Hstep c1 c2); [apply Hinv |].
Qed.
Definition wire_quiet (e : sn_event) : Prop := match e with Opened true | Streamed _ _ => False | _ => True end.
Lemma wire_quiet_step e conns conns' : wire_quiet e -> wire_step conns e conns' <-> conns' = conns.
Proof. by destruct e as [| [] | | | | | |]. Qed.
Lemma wire_holds_less answers connected conns : wire_holds answers connected conns -> wire_holds answers false conns.
Proof. intros (carried & Hc & Hf & _). by exists carried. Qed.
Lemma wire_keep tr e connected connected' answers : wire_quiet e -> (connected' = true -> connected = true) ->
  wire_inv tr connected answers -> wire_inv (tr ++ [e]) connected' answers.
Proof.
  intros He Hc Hinv. apply (wire_snoc _ _ _ _ _ _ Hinv).
  - intros conns _. exists conns. by apply wire_quiet_step.
  - intros conns conns' Hh ->%wire_quiet_step; [| done]. destruct connected'; [by rewrite <- Hc | by apply (wire_holds_less _ connected)].
Qed.
Lemma wire_keeps tr es connected answers : Forall wire_quiet es -> wire_inv tr connected answers -> wire_inv (tr ++ es) connected answers.
Proof.
  intros He. revert tr. induction He as [| e es He _ IH]; intros tr Hinv; [by rewrite app_nil_r |].
  replace (tr ++ e :: es) with ((tr ++ [e]) ++ es) by (by rewrite <- app_assoc). by apply IH, (wire_keep _ _ connected).
Qed.
Lemma wire_opened tr connected answers : wire_inv tr connected answers -> wire_inv (tr ++ [Opened true]) true answers.
Proof.
  intros Hinv. apply (wire_snoc _ _ _ _ _ _ Hinv).
  - intros conns _. by exists (conns ++ [[]]).
  - intros conns conns' (carried & Hc & Hf & _) ->. exists (carried ++ [[]]). split; [by rewrite concat_app, <- Hc, app_nil_r |]. split.
    + apply Forall2_app; [done |]. constructor; [| constructor]. apply (carries_whole _ []).
    + intros _. by exists carried, [], conns.
Qed.
Lemma wire_missed tr answers r : wire_inv tr false answers -> wire_inv tr false (answers ++ [(r, false)]).
Proof.
  intros [Hex Hinv]. split; [done |]. intros conns (carried & Hc & Hf & _)%Hinv. exists carried. rewrite delivered_snoc, undelivered_snoc, app_nil_r.
  split; [done |]. split; [| done]. eapply Forall2_impl; [| exact Hf]. intros. by apply carries_more.
Qed.

(** A conversation on an open connection: the frame's two parts. *)
Section frame_sent.
Context (tr : list sn_event) (answers : list (bytes * bool)) (r prefix : bytes) (Hframe : octet_frame r = prefix ++ r)
  (Hinv : wire_inv tr true answers).
(** The open connection, and any continuation of it. *)
Lemma wire_open conns : on_wire [] tr conns -> exists before carried records,
  conns = before ++ [octet_frames records] /\ concat carried ++ records = delivered answers /\ Forall2 (carries (undelivered answers)) carried before.
Proof using Hinv.
  intros Hw. destruct (proj2 Hinv _ Hw) as (carried & Hc & Hf & Ho). destruct (Ho eq_refl) as (cb & records & before & -> & ->).
  exists before, cb, records. split; [done |]. rewrite concat_app in Hc. cbn in Hc. rewrite app_nil_r in Hc. split; [done |].
  apply Forall2_app_inv_l in Hf as (l1 & l2 & Hf1 & Hf2 & E). inversion Hf2 as [| ? ? ? ? ? Hf3]; subst. inversion Hf3; subst.
  apply app_inj_tail in E as [-> _]. done.
Qed.
Lemma wire_frame_sent : wire_inv (tr ++ [Streamed prefix true; Streamed r true]) true (answers ++ [(r, true)]).
Proof using Hframe Hinv.
  split.
  - destruct Hinv as [[conns Hw] _]. destruct (wire_open conns Hw) as (before & carried & records & -> & _).
    eexists. apply on_wire_app. eexists. split; [exact Hw |]. eexists. split; [by exists before, (octet_frames records) |].
    eexists. split; [by exists before, (octet_frames records ++ prefix) | done].
  - intros conns (c1 & (before & carried & records & -> & Hc & Hf)%wire_open & c2 & (b2 & n2 & (<- & <-)%app_inj_tail & ->) & c3 & (b3 & n3 & E3 & ->) & ->)%on_wire_app.
    apply app_inj_tail in E3 as [<- <-]. exists (carried ++ [records ++ [r]]).
    rewrite delivered_snoc, undelivered_snoc, app_nil_r, concat_app, <- Hc. cbn [concat]. rewrite app_nil_r, <- app_assoc. split; [done |].
    rewrite <- app_assoc, <- Hframe, <- octet_frames_snoc. split.
    + apply Forall2_app; [done |]. constructor; [apply carries_whole | constructor].
    + intros _. by eexists carried, (records ++ [r]), _.
Qed.
(** The send failed with some of the frame on the wire. *)
Lemma wire_torn es : es = [Streamed prefix false] \/ es = [Streamed prefix true; Streamed r false] ->
  wire_inv (tr ++ es) false (answers ++ [(r, false)]).
Proof using Hframe Hinv.
  intros He.
  assert (HT : forall before carried records part rest, concat carried ++ records = delivered answers -> Forall2 (carries (undelivered answers)) carried before ->
    octet_frame r = part ++ rest -> wire_holds (answers ++ [(r, false)]) false (before ++ [octet_frames records ++ part])).
  { intros before carried records part rest Hc Hf Ep. exists (carried ++ [records]).
    rewrite delivered_snoc, undelivered_snoc, app_nil_r, concat_app, <- Hc. cbn [concat]. rewrite app_nil_r. split; [done |]. split; [| done].
    apply Forall2_app.
    - eapply Forall2_impl; [| exact Hf]. intros. by apply carries_more.
    - constructor; [| constructor]. apply (carries_part _ _ r part rest); [| done]. apply elem_of_app. right. by apply list_elem_of_singleton. }
  split.
  - destruct Hinv as [[conns Hw] _]. destruct (wire_open conns Hw) as (before & carried & records & -> & _).
    destruct He as [-> | ->]; eexists; apply on_wire_app; eexists; (split; [exact Hw |]); eexists.
    + split; [exists before, (octet_frames records), [], prefix; done | done].
    + split; [by exists before, (octet_frames records) |]. eexists. split; [exists before, (octet_frames records ++ prefix), [], r; done | done].
  - intros conns (c1 & (before & carried & records & -> & Hc & Hf)%wire_open & Hes)%on_wire_app. destruct He as [-> | ->].
    + destruct Hes as (c2 & (b2 & n2 & part & rest & (<- & <-)%app_inj_tail & Ep & ->) & ->).
      apply (HT _ carried _ part (rest ++ r)); [done | done |]. by rewrite Hframe, Ep, <- app_assoc.
    + destruct Hes as (c2 & (b2 & n2 & (<- & <-)%app_inj_tail & ->) & c3 & (b3 & n3 & part & rest & E3 & Ep & ->) & ->).
      apply app_inj_tail in E3 as [<- <-]. rewrite <- app_assoc. apply (HT _ carried _ (prefix ++ part) rest); [done | done |].
      by rewrite Hframe, Ep, <- app_assoc.
Qed.
End frame_sent.

(** ** The sender's own steps *)

Section stream_theory.
Context {E : Type} `{ErrorTap E} (frame : bytes) (Hframe : OCTET_COUNTING_PREFIX_CAPACITY <= lenZ frame).
Implicit Types (w : @ts_world E).

Lemma prefix_text size : 0 <= size < 2 ^ 32 ->
  let '(text, prefix) := SolidSyslogFormatter_AsFormattedBuffer (StreamSender_FormatOctetCountingPrefix frame size) in
  takeZ (SolidSyslogFormatter_Length prefix) text = decimal size ++ [0x20] /\ 0 <= SolidSyslogFormatter_Length prefix < OCTET_COUNTING_PREFIX_CAPACITY.
Proof using Hframe.
  intros Hs. unfold StreamSender_FormatOctetCountingPrefix. rewrite (u32_small size) by lia.
  pose proof (Create_wf frame OCTET_COUNTING_PREFIX_CAPACITY ltac:(split; [discriminate | done])) as H1.
  pose proof (Uint32_prints _ size (prints_wf _ _ _ H1) ltac:(lia)) as H2.
  pose proof (AsciiCharacter_prints _ 0x20 (prints_wf _ _ _ H2)) as H3. change (ascii_char 0x20) with 0x20 in H3.
  pose proof (prints_trans _ _ _ _ _ (prints_trans _ _ _ _ _ H1 H2) H3) as HP. clear H1 H2 H3.
  set (f := SolidSyslogFormatter_AsciiCharacter _ _) in *. clearbody f.
  pose proof (decimal_len size ltac:(lia)) as Hd.
  assert (Ht : fmt_text f = decimal size ++ [0x20]).
  { rewrite (app_text _ _ _ (prints_appends _ _ _ HP)). cbn [app]. apply takeZ_ge. len_simpl. unfold fmt_capacity. cbn [fm_Size].
    change (OCTET_COUNTING_PREFIX_CAPACITY - 1) with 11. lia. }
  pose proof (prints_wf _ _ _ HP) as Hwf. destruct HP as [Happ Hterm].
  assert (Hclean : clean (decimal size ++ [0x20])) by (apply clean_app; [apply digits_of_clean | apply (ascii_char_clean 0x20)]).
  pose proof (AsFormattedBuffer_spec f Hwf ltac:(rewrite (app_size _ _ _ Happ); done) Hterm
    ltac:(exists (fmt_text f); rewrite Ht; split; [done | by rewrite <- Ht, fmt_text_cut])) as HS.
  destruct (SolidSyslogFormatter_AsFormattedBuffer f) as [text prefix]. destruct HS as (_ & (tail & Etail & _ & Hv) & _ & El & _).
  rewrite Ht in Hv. rewrite (Hv (proj1 Hclean)), app_nil_r in Etail. rewrite El. unfold SolidSyslogFormatter_Length.
  rewrite <- (fmt_text_len f Hwf). split; [| rewrite Ht, lenZ_app; change (lenZ [0x20]) with 1; change OCTET_COUNTING_PREFIX_CAPACITY with 12; lia]. rewrite Etail. destruct (cstr_prefix text) as [rest Er]. rewrite Er at 2.
  rewrite takeZ_app_le, takeZ_ge by lia. by rewrite <- Etail.
Qed.

Definition ts_linked w : Prop :=
  link_agrees (sn_Trace w) (ts_Connected (sn_Self w)) (ts_LastEndpointVersion (sn_Self w), ts_LastStreamVersion (sn_Self w)).
Definition ts_owned w : Prop := ts_linked w /\ ts_Base (sn_Self w) = OwnVtable.
Definition ts_reconciled w (ready : bool) w' : Prop :=
  exists v1 v2, ts_Base (sn_Self w') = ts_Base (sn_Self w) /\ ts_Connected (sn_Self w') = ready /\
    ts_LastEndpointVersion (sn_Self w') = v1 /\ ts_LastStreamVersion (sn_Self w') = v2 /\
    (if ready then link_ready (sn_Trace w') (v1, v2) else link_agrees (sn_Trace w') false (v1, v2)) /\
    forall answers, wire_inv (sn_Trace w) (ts_Connected (sn_Self w)) answers -> wire_inv (sn_Trace w') ready answers.

Lemma ts_Connect_spec w :
  ts_Connected (sn_Self w) = false ->
  (exists l, link_run initial_link (sn_Trace w) = Some l /\ lk_Open l = false /\ lk_Polled l = (ts_LastEndpointVersion (sn_Self w), ts_LastStreamVersion (sn_Self w))) ->
  wp (StreamSender_Connect frame) (ts_reconciled w) w.
Proof using.
  destruct w as [self e tr]. cbn [sn_Self sn_Trace]. intros Hc (l & Hl & Ho & Hp). unfold StreamSender_Connect, StreamSender_ResolveDestination, StreamSender_Connected.
  destruct self as [base config connected healthy v1 v2]. cbn in Hc, Hp. subst connected. sn_steps. destruct a0; sn_steps; [destruct a0 |].
  - exists v1, v2. split_and!; try done.
    + eexists. split; [link_follow Hl; reflexivity |]. unfold lk_ready. cbn. by rewrite Hp, bool_decide_true.
    + intros answers Hi. cbn. apply (wire_opened _ false), (wire_keep _ _ false); done.
  - exists v1, v2. split_and!; try done.
    + eexists. split; [link_follow Hl; reflexivity |]. done.
    + intros answers Hi. cbn. apply (wire_keep _ _ false), (wire_keep _ _ false); done.
  - exists v1, v2. split_and!; try done.
    + eexists. split; [link_follow Hl; reflexivity |]. done.
    + intros answers Hi. cbn. by apply (wire_keep _ _ false).
Qed.
Ltac if_false := lazymatch goal with |- wp (if ?b then _ else _) _ _ => change b with false; cbv iota end.
Lemma ts_reconciled_after w w1 ready w' : ts_Base (sn_Self w1) = ts_Base (sn_Self w) ->
  (forall answers, wire_inv (sn_Trace w) (ts_Connected (sn_Self w)) answers -> wire_inv (sn_Trace w1) (ts_Connected (sn_Self w1)) answers) ->
  ts_reconciled w1 ready w' -> ts_reconciled w ready w'.
Proof using.
  intros Eb Hw (v1 & v2 & Hb & Hc & H1 & H2 & Hl & Hi). exists v1, v2. split_and!; try done; [by rewrite Hb |]. intros answers Ha. by apply Hi, Hw.
Qed.
Lemma ts_Reconcile_spec w : ts_linked w -> wp (StreamSender_Reconcile frame) (ts_reconciled w) w.
Proof using.
  destruct w as [self e tr]. intros (l & Hl & Hc). unfold StreamSender_Reconcile, StreamSender_DisconnectIfStale, StreamSender_EnsureConnected,
    StreamSender_Disconnect, StreamSender_CloseStream, StreamSender_Connected.
  cbn [sn_Trace sn_Self] in *. sn_steps. destruct a as [v1 v2]. cbn [fst snd].
  assert (Hpolled : link_run initial_link (tr ++ [Polled v1 v2]) = Some (l <| lk_Polled := (v1, v2) |>)) by (by rewrite (link_run_snoc _ _ _ _ Hl)).
  destruct self as [base config connected healthy o1 o2]. unfold StreamSender_ConfigurationMoved. cbn in Hc. cbn [ts_LastEndpointVersion ts_LastStreamVersion ts_Connected].
  destruct (negb (v1 =? o1) || negb (v2 =? o2)) eqn:Em; sn_steps; cbn [ts_Connected]; destruct connected; sn_steps.
  - if_false. eapply wp_mono; [apply ts_Connect_spec; [done |] |].
    + eexists. split; [cbn [sn_Trace]; by rewrite (link_run_snoc _ _ _ _ Hpolled) | by split].
    + intros ready w'. apply ts_reconciled_after; [done |]. intros answers Hi. cbn. apply (wire_keep _ _ true), (wire_keep _ _ true); done.
  - if_false. eapply wp_mono; [apply ts_Connect_spec; [done |] |].
    + eexists. split; [exact Hpolled | by split].
    + intros ready w'. apply ts_reconciled_after; [done |]. intros answers Hi. cbn. by apply (wire_keep _ _ false).
  - exists v1, v2. apply orb_false_elim in Em as [E1 E2]. bool_to_prop. subst o1 o2. split_and!; try done.
    + destruct Hc as (Ho & Hr & Hat). eexists. split; [exact Hpolled |]. unfold lk_ready. cbn. by rewrite Ho, Hr, Hat, bool_decide_true.
    + intros answers Hi. cbn. by apply (wire_keep _ _ true).
  - apply orb_false_elim in Em as [E1 E2]. bool_to_prop. subst o1 o2. eapply wp_mono; [apply ts_Connect_spec; [done |] |].
    + eexists. split; [exact Hpolled | by split].
    + intros ready w'. apply ts_reconciled_after; [done |]. intros answers Hi. cbn. by apply (wire_keep _ _ false).
Qed.

Definition ts_input_ok (input : sn_input E) : Prop :=
  match input with SendRecord buffer size => 0 <= size <= lenZ buffer /\ size <= SIZE_MAX | _ => True end.

(** From a reconciled link, the frame's bytes; the stream is closed when they fail. *)
Lemma TransmitFramed_spec buffer size w v1 v2 : ts_input_ok (SendRecord buffer size) ->
  ts_Connected (sn_Self w) = true -> ts_LastEndpointVersion (sn_Self w) = v1 -> ts_LastStreamVersion (sn_Self w) = v2 ->
  link_ready (sn_Trace w) (v1, v2) ->
  wp (StreamSender_TransmitFramed frame buffer size) (fun sent w' => ts_Base (sn_Self w') = ts_Base (sn_Self w) /\ ts_linked w' /\
    ts_Connected (sn_Self w') = sent /\
    forall answers, wire_inv (sn_Trace w) true answers -> wire_inv (sn_Trace w') sent (answers ++ [(takeZ size buffer, sent)])) w.
Proof using Hframe.
  intros [Hs Hm] Hc E1 E2 (l & Hl & Hr & Ha). unfold StreamSender_TransmitFramed, StreamSender_SendBytes, StreamSender_CloseStream.
  pose proof (prefix_text size ltac:(unfold SIZE_MAX in *; lia)) as Hp. destruct (SolidSyslogFormatter_AsFormattedBuffer _) as [text prefix]. destruct Hp as [Hp _].
  assert (Hfr : octet_frame (takeZ size buffer) = (decimal size ++ [0x20]) ++ takeZ size buffer).
  { unfold octet_frame. rewrite lenZ_takeZ by lia. by rewrite <- app_assoc. }
  set (r := takeZ size buffer) in *. clearbody r.
  assert (Ho : lk_Open l = true /\ lk_Resolved l = true) by (unfold lk_ready in Hr; by destruct (lk_Open l), (lk_Resolved l)).
  destruct w as [[base config connected healthy o1 o2] e tr]. cbn in Hc, E1, E2, Hl. subst connected o1 o2.
  sn_steps. rewrite Hp. destruct a; cbn [negb]; sn_steps; [destruct a; cbn [negb]; sn_steps |].
  - split; [done |]. split; [| split; [done |]].
    + exists l. cbn [sn_Trace sn_Self ts_Connected]. rewrite !link_run_app, Hl. cbn. rewrite Hr. cbn. rewrite Hr. split; [done |]. by destruct Ho.
    + intros answers Hi. rewrite <- app_assoc. by apply wire_frame_sent.
  - split; [done |]. split; [| split; [done |]].
    + eexists. cbn [sn_Trace sn_Self ts_Connected]. rewrite !link_run_app, Hl. cbn. rewrite Hr. cbn. rewrite Hr. split; [reflexivity | done].
    + intros answers Hi. cbn. apply (wire_keep _ _ false); [done | done |]. rewrite <- app_assoc.
      apply (wire_torn tr answers r (decimal size ++ [0x20])); [done | done | by right].
  - split; [done |]. split; [| split; [done |]].
    + eexists. cbn [sn_Trace sn_Self ts_Connected]. rewrite !link_run_app, Hl. cbn. rewrite Hr. split; [reflexivity | done].
    + intros answers Hi. cbn. apply (wire_keep _ _ false); [done | done |].
      apply (wire_torn tr answers r (decimal size ++ [0x20])); [done | done | by left].
Qed.
Lemma ts_Send_spec buffer size w : ts_input_ok (SendRecord buffer size) -> ts_owned w ->
  wp (StreamSender_Send frame buffer size) (fun taken w' => ts_owned w' /\
    forall answers, wire_inv (sn_Trace w) (ts_Connected (sn_Self w)) answers ->
      wire_inv (sn_Trace w') (ts_Connected (sn_Self w')) (answers ++ [(takeZ size buffer, taken)])) w.
Proof using Hframe.
  intros Hin [Hlink Hbase]. unfold StreamSender_Send, StreamSender_UpdateDeliveryHealth. apply wp_bind.
  eapply wp_mono; [by apply ts_Reconcile_spec |]. intros ready w1 (v1 & v2 & Hb & Hc & E1 & E2 & Hl & Hi). cbv beta. apply wp_bind.
  assert (Hmid : wp (if ready then StreamSender_TransmitFramed frame buffer size else st_ret false)
    (fun sent w' => ts_Base (sn_Self w') = OwnVtable /\ ts_linked w' /\ ts_Connected (sn_Self w') = sent /\
       forall answers, wire_inv (sn_Trace w) (ts_Connected (sn_Self w)) answers -> wire_inv (sn_Trace w') sent (answers ++ [(takeZ size buffer, sent)])) w1).
  { destruct ready.
    - eapply wp_mono; [by apply (TransmitFramed_spec buffer size w1 v1 v2) |]. intros sent w2 (Hb2 & Hl2 & Hc2 & Hi2).
      split; [by rewrite Hb2, Hb |]. split; [done |]. split; [done |]. intros answers Ha. by apply Hi2, Hi.
    - sn_steps. split; [by rewrite Hb |]. split; [unfold ts_linked; by rewrite Hc, E1, E2 |]. split; [done |]. intros answers Ha. by apply wire_missed, Hi. }
  eapply wp_mono; [exact Hmid |]. clear Hmid. intros sent w2 (Hb2 & Hl2 & Hc2 & Hi2). cbv beta. apply wp_bind, wp_sn_health. intros e. sn_steps.
  split; [split; [| done] |].
  - unfold ts_linked in *. cbn. apply link_agrees_raises; [apply health_raises | done].
  - intros answers Ha. cbn. rewrite Hc2. apply wire_keeps; [| by apply Hi2]. refine (Forall_impl _ _ (health_raises _ _ _ _)). by intros [].
Qed.
Lemma ts_Disconnect_spec w : ts_owned w -> wp StreamSender_Disconnect (fun _ w' => ts_owned w' /\
    forall answers, wire_inv (sn_Trace w) (ts_Connected (sn_Self w)) answers -> wire_inv (sn_Trace w') (ts_Connected (sn_Self w')) answers) w.
Proof using.
  intros [(l & Hl & Hc) Hbase]. unfold StreamSender_Disconnect, StreamSender_Connected, StreamSender_CloseStream. sn_steps.
  destruct (ts_Connected (sn_Self w)) eqn:Ec; sn_steps.
  - split; [split; [| done] |].
    + eexists. split; [cbn [sn_Trace]; by rewrite (link_run_snoc _ _ _ _ Hl) | done].
    + intros answers Hi. by apply (wire_keep _ _ true).
  - split; [split; [| done] |].
    + exists l. by rewrite Ec.
    + intros answers Hi. by rewrite Ec.
Qed.
Lemma ts_feed_carries inputs : forall w before, Forall ts_input_ok inputs -> ts_owned w -> wire_inv (sn_Trace w) (ts_Connected (sn_Self w)) before ->
  wp (sn_feed (StreamSender_vtable frame) inputs) (fun answers w' => ts_owned w' /\
    wire_inv (sn_Trace w') (ts_Connected (sn_Self w')) (before ++ answers)) w.
Proof using Hframe.
  induction inputs as [| input inputs IH]; intros w before Hin Hown Hinv; cbn [feed].
  { apply wp_ret. by rewrite app_nil_r. }
  apply Forall_cons_1 in Hin as [Hi Hin]. assert (Hbase : ts_Base (sn_Self w) = OwnVtable) by apply Hown. destruct input as [buffer size | | change].
  - apply wp_bind. cbn [StreamSender_vtable SolidSyslogSender_Send]. apply wp_bind, wp_sn_get. rewrite Hbase. cbv iota.
    eapply wp_mono; [by apply ts_Send_spec |]. intros taken w1 (Hown1 & Hi1). cbv beta. apply wp_bind.
    eapply wp_mono; [apply (IH w1 (before ++ [(takeZ size buffer, taken)])); auto |]. intros answers w2 (Hown2 & Hi2). cbv beta. apply wp_ret.
    split; [done |]. by rewrite <- app_assoc in Hi2.
  - apply wp_bind. cbn [StreamSender_vtable SolidSyslogSender_Disconnect]. apply wp_bind, wp_sn_get. rewrite Hbase. cbv iota.
    eapply wp_mono; [by apply ts_Disconnect_spec |]. intros _ w1 (Hown1 & Hi1). cbv beta. apply IH; auto.
  - apply wp_bind, wp_mod. by apply (IH (mkSnWorld (sn_Self w) (change (sn_Env w)) (sn_Trace w))).
Qed.
(** The answers are about the records of the inputs. *)
Definition records_of (inputs : list (sn_input E)) : list bytes :=
  concat (map (fun input => match input with SendRecord buffer size => [takeZ size buffer] | _ => [] end) inputs).
Lemma feed_answers {W} meanwhile (sender : SolidSyslogSender W) inputs : forall w : W,
  wp (feed meanwhile sender inputs) (fun answers _ => map fst answers = records_of inputs) w.
Proof using.
  induction inputs as [| input inputs IH]; intros w; cbn [feed]; [done |]. destruct input as [buffer size | | change]; apply wp_bind; unfold wp at 1.
  - apply wp_bind. eapply wp_mono; [apply IH |]. cbv beta. intros answers w2 Ea. apply wp_ret. cbn. by rewrite Ea.
  - apply IH.
  - apply IH.
Qed.
Lemma records_bounded inputs : Forall ts_input_ok inputs -> Forall (fun r => lenZ r < 10 ^ 10) (records_of inputs).
Proof using.
  induction 1 as [| input inputs Hi _ IH]; [constructor |]. unfold records_of. cbn [map concat]. fold (records_of inputs).
  apply Forall_app. split; [| done]. destruct input as [buffer size | |]; [| constructor | constructor].
  destruct Hi as [Hs Hm]. apply Forall_singleton. rewrite lenZ_takeZ by lia. unfold SIZE_MAX in Hm. lia.
Qed.
Lemma carried_reads failed records conn : carries failed records conn -> Forall (fun r => lenZ r < 10 ^ 10) records -> Forall (fun r => lenZ r < 10 ^ 10) failed ->
  read_frames conn = records \/ exists r, r ∈ failed /\ read_frames conn = records ++ [r].
Proof using.
  intros (part & -> & Hp) Hr Hf. destruct Hp as [-> | (r & rest & Hin & Ep)].
  - left. rewrite app_nil_r. by apply read_frames_whole.
  - rewrite (read_frames_torn records r part rest Hr (proj1 (List.Forall_forall _ _) Hf r (proj1 (list_elem_of_In _ _) Hin)) Ep).
    destruct (decide (rest = [])); [right; by exists r | left; apply app_nil_r].
Qed.

(** What a collector reads of connections that hold what was answered. *)
Lemma held_wires_read answers connected conns : Forall (fun r => lenZ r < 10 ^ 10) (map fst answers) -> wire_holds answers connected conns ->
  exists carried, concat carried = delivered answers /\
    Forall2 (fun records conn => read_frames conn = records \/
      exists r, r ∈ undelivered answers /\ read_frames conn = records ++ [r]) carried conns.
Proof using.
  intros Hb (carried & Hc1 & Hf & _).
  assert (HF : forall f, Forall (fun r => lenZ r < 10 ^ 10) (map fst (List.filter f answers))).
  { intros f. rewrite List.Forall_forall in Hb |- *. intros r Hr. apply Hb. apply in_map_iff in Hr as (a & <- & Ha%filter_In). by apply in_map, Ha. }
  exists carried. split; [done |].
  assert (Hcb : Forall (Forall (fun r => lenZ r < 10 ^ 10)) carried).
  { pose proof (HF snd) as Hd. fold (delivered answers) in Hd. rewrite <- Hc1 in Hd. clear -Hd. induction carried as [| records carried IH]; [constructor |].
    apply Forall_app in Hd as [H1 H2]. constructor; auto. }
  clear -Hf Hcb HF. induction Hf as [| records conn carried conns H1 _ IH]; [constructor |]. apply Forall_cons_1 in Hcb as [H2 H3].
  constructor; [apply carried_reads; [done | done | apply HF] | by apply IH].
Qed.

Definition ts_fresh (config : @SolidSyslogStreamSenderConfig E) (self : @SolidSyslogStreamSender E) (e : E) : ts_world :=
  mkSnWorld (SolidSyslogStreamSender_Initialise config self) e [].

(** C6. What a collector reads of a stream sender, in any run of records,
    disconnections and changes of its environment, whatever its stream, resolver and
    endpoint answer.  Reading octet-counted frames off the connections made, in order,
    gives exactly the records Send said it delivered, in order, each once, but that the
    last frame of a connection may be of a record Send said it did not deliver: nothing
    is read of a frame cut by a failed send, and nothing follows it on its connection.
    Data goes only on an open connection of the current endpoint and stream versions,
    and what is open is not opened again. *)
Theorem stream_carries_records config self (e : E) (inputs : list (sn_input E)) :
  Forall ts_input_ok inputs ->
  let '(answers, w') := sn_feed (StreamSender_vtable frame) inputs (ts_fresh config self e) in
  (exists l, link_run initial_link (sn_Trace w') = Some l /\ (ts_Connected (sn_Self w') = true <-> lk_Open l = true)) /\
  map fst answers = records_of inputs /\
  (exists conns, on_wire [] (sn_Trace w') conns) /\
  forall conns, on_wire [] (sn_Trace w') conns ->
    exists carried, concat carried = delivered answers /\
      Forall2 (fun records conn => read_frames conn = records \/
        exists r, r ∈ undelivered answers /\ read_frames conn = records ++ [r]) carried conns.
Proof using Hframe.
  intros Hin. assert (Hown : ts_owned (ts_fresh config self e)) by (split; [exists initial_link; done | done]).
  assert (Hinv : wire_inv (sn_Trace (ts_fresh config self e)) (ts_Connected (sn_Self (ts_fresh config self e))) []).
  { split; [by exists [] |]. intros conns ->. exists []. split; [done |]. split; [constructor | done]. }
  pose proof (ts_feed_carries inputs _ [] Hin Hown Hinv) as HB. pose proof (feed_answers sn_meanwhile (StreamSender_vtable frame) inputs (ts_fresh config self e)) as HA.
  unfold wp in HA, HB. destruct (sn_feed _ _ _) as [answers w']. cbn [fst snd app] in HA, HB.
  destruct HB as [[(l & Hl & Hc) _] [Hex Hall]]. split; [| split; [done |]; split; [done |]].
  { exists l. split; [done |]. destruct (ts_Connected (sn_Self w')); [by destruct Hc as (-> & _) | by rewrite Hc]. }
  pose proof (records_bounded inputs Hin) as Hb. rewrite <- HA in Hb.
  intros conns Hw. eapply held_wires_read; [done | by apply Hall].
Qed.
End stream_theory.

(** * The switching sender *)

Section switching_theory.
Context {E : Type} `{ErrorTap E} (sender_at : Z -> SolidSyslogSender E).
Implicit Types (w : @sw_world E).

Lemma wp_sw_call {A} (m : @SolidSyslogSwitchingSender E -> ST E A) said (Q : A -> @sw_world E -> Prop) w :
  (forall a e, m (sw_Self w) (sw_Env w) = (a, e) -> Q a (mkSwWorld (sw_Self w) e (sw_Trace w ++ [said a]))) -> wp (sw_call m said) Q w.
Proof using.
  intros HQ. unfold wp, sw_call, zoom, st_bind, st_get, st_mod, st_ret.
  destruct (m (sw_Self w) (sw_Env w)) as [a e] eqn:Em. cbn. by apply HQ.
Qed.
Lemma wp_sw_get {A} (f : @SolidSyslogSwitchingSender E -> A) (Q : A -> @sw_world E -> Prop) w : Q (f (sw_Self w)) w -> wp (sw_get f) Q w.
Proof using. done. Qed.
Lemma wp_sw_set f (Q : unit -> @sw_world E -> Prop) w : Q tt (mkSwWorld (f (sw_Self w)) (sw_Env w) (sw_Trace w)) -> wp (sw_set f) Q w.
Proof using. done. Qed.
Ltac sw_step :=
  lazymatch goal with
  | |- wp (sw_get _) _ _ => apply wp_sw_get
  | |- wp (sw_set _) _ _ => apply wp_sw_set
  | |- wp (sw_call _ _) _ _ => apply wp_sw_call; let Ha := fresh "Ha" in intros ? ? Ha
  | |- _ => wp_step
  end.
Ltac sw_steps := cbv beta iota; repeat (sw_step; cbv beta iota); cbn [sw_Self sw_Env sw_Trace].

(** ** The story of a run *)

Definition switched (current p : sender_pointer) : list (@sw_event) := if decide (p = current) then [] else [Dropped current].
Definition range_reports (reported : bool) : list sw_event :=
  if reported then [] else [OutOfRange SOLIDSYSLOG_SEVERITY_CRITICAL SOLIDSYSLOG_CAT_SENDER_RECORDS_LOST SOLIDSYSLOG_SWITCHING_SENDER_ERROR_SELECTOR_OUT_OF_RANGE].
Inductive sw_story (count : Z) : sender_pointer -> bool -> list sw_event -> list (bytes * bool) -> Prop :=
| switch_over current reported : sw_story count current reported [] []
| switch_routes current reported index p record taken rest answers : index < count ->
    sw_story count p false rest answers ->
    sw_story count current reported ([Selected index; ElementRead index p] ++ switched current p ++ [Routed p record taken] ++ rest) ((record, taken) :: answers)
| switch_loses current reported index record rest answers : count <= index ->
    sw_story count NullSenderPointer true rest answers ->
    sw_story count current reported
      ([Selected index] ++ range_reports reported ++ switched current NullSenderPointer ++ [Routed NullSenderPointer record true] ++ rest) ((record, true) :: answers)
| switch_disconnects current reported rest answers : sw_story count current reported rest answers ->
    sw_story count current reported (Dropped current :: rest) answers.

(** The senders used since they were last disconnected; [None] when one is used while
    another still is. *)
Definition live_step (live : list sender_pointer) (e : sw_event) : option (list sender_pointer) :=
  match e with
  | Routed p _ _ => if forallb (fun q => bool_decide (q = p)) live then Some (p :: live) else None
  | Dropped p => Some (List.filter (fun q => bool_decide (q <> p)) live)
  | _ => Some live
  end.
Fixpoint live_run (live : list sender_pointer) (es : list sw_event) : option (list sender_pointer) :=
  match es with
  | [] => Some live
  | e :: es => match live_step live e with Some live => live_run live es | None => None end
  end.
Lemma drop_current (live : list sender_pointer) current : Forall (fun q => q = current) live -> List.filter (fun q => bool_decide (q <> current)) live = [].
Proof using.
  induction 1 as [| q live -> _ IH]; [done |]. cbn. by rewrite bool_decide_false by auto.
Qed.
Lemma route_current (live : list sender_pointer) p record taken es : Forall (fun q => q = p) live -> live_run live (Routed p record taken :: es) = live_run (p :: live) es.
Proof using.
  intros Hl. cbn [live_run live_step]. rewrite (proj2 (forallb_forall _ live)); [done |]. intros q Hq. apply bool_decide_true.
  by apply (proj1 (List.Forall_forall _ _) Hl).
Qed.
Lemma switched_live (live : list sender_pointer) current p es : Forall (fun q => q = current) live ->
  exists live', Forall (fun q => q = p) live' /\ live_run live (switched current p ++ es) = live_run live' es.
Proof using.
  intros Hl. unfold switched. destruct (decide (p = current)) as [-> | Hne]; [by exists live |]. exists []. split; [constructor |].
  cbn. by rewrite drop_current.
Qed.
Lemma story_lives count current reported es answers : sw_story count current reported es answers ->
  forall live, Forall (fun q => q = current) live -> exists live', live_run live es = Some live'.
Proof using.
  induction 1 as [| current reported index p record taken rest answers Hi _ IH | current reported index record rest answers Hi _ IH |
    current reported rest answers _ IH]; intros live Hl.
  - by exists live.
  - cbn [app live_run live_step]. destruct (switched_live live current p (Routed p record taken :: rest) Hl) as (live1 & Hl1 & E1).
    cbn [app]. rewrite E1, route_current by done. apply IH. by constructor.
  - cbn [app live_run live_step]. destruct (switched_live live current NullSenderPointer (Routed NullSenderPointer record true :: rest) Hl) as (live1 & Hl1 & E1).
    assert (Er : live_run live (range_reports reported ++ switched current NullSenderPointer ++ [Routed NullSenderPointer record true] ++ rest)
      = live_run live (switched current NullSenderPointer ++ Routed NullSenderPointer record true :: rest)) by (by destruct reported).
    cbn [app] in Er. rewrite Er, E1, route_current by done. apply IH. by constructor.
  - cbn [live_run live_step]. rewrite drop_current by done. apply IH. constructor.
Qed.

(** ** The sender keeps to it *)

Definition sw_own w : Prop := ws_Base (sw_Self w) = OwnVtable.
Definition sw_now w : sender_pointer * bool * Z := (ws_CurrentSender (sw_Self w), ws_OutOfRangeReported (sw_Self w), wc_SenderCount (ws_Config (sw_Self w))).
Definition sw_tells w (answers : list (bytes * bool)) w' : Prop :=
  exists es, sw_Trace w' = sw_Trace w ++ es /\ let '(current, reported, count) := sw_now w in sw_story count current reported es answers.

Lemma SwitchTo_spec p w (Q : unit -> @sw_world E -> Prop) :
  (forall e, Q tt (mkSwWorld ((sw_Self w) <| ws_CurrentSender := p |>) e (sw_Trace w ++ switched (ws_CurrentSender (sw_Self w)) p))) ->
  wp (if! SwitchingSender_SenderChanged (sw_Self w) p then SwitchingSender_SwitchTo sender_at p end!) Q w.
Proof using.
  intros HQ. unfold SwitchingSender_SwitchTo, disconnect_current, SwitchingSender_SenderChanged, switched in *. sw_steps.
  destruct (decide (p = ws_CurrentSender (sw_Self w))) as [Ep | Hne].
  - rewrite bool_decide_false by auto. sw_steps. specialize (HQ (sw_Env w)). rewrite app_nil_r in HQ. destruct w as [[] e tr]. cbn in *. by subst p.
  - rewrite bool_decide_true by done. sw_steps. apply HQ.
Qed.
Ltac switch_to := lazymatch goal with |- wp (if SwitchingSender_SenderChanged _ ?p then _ else _) ?Q ?w => apply (SwitchTo_spec p w Q); intros ? end.
Lemma sw_Send_spec buffer size w : sw_own w ->
  wp (SwitchingSender_Send sender_at buffer size) (fun taken w' => sw_own w' /\ wc_SenderCount (ws_Config (sw_Self w')) = wc_SenderCount (ws_Config (sw_Self w)) /\
    exists es, sw_Trace w' = sw_Trace w ++ es /\ forall rest answers,
      sw_story (wc_SenderCount (ws_Config (sw_Self w))) (ws_CurrentSender (sw_Self w')) (ws_OutOfRangeReported (sw_Self w')) rest answers ->
      sw_story (wc_SenderCount (ws_Config (sw_Self w))) (ws_CurrentSender (sw_Self w)) (ws_OutOfRangeReported (sw_Self w)) (es ++ rest)
        ((takeZ size buffer, taken) :: answers)) w.
Proof using.
  unfold sw_own. destruct w as [[base config current reported] e tr]. cbn [sw_Self sw_Trace ws_Base ws_CurrentSender ws_OutOfRangeReported ws_Config]. intros ->.
  unfold SwitchingSender_Send, SwitchingSender_SelectSender, SwitchingSender_RequestedSender, SwitchingSender_ReportOutOfRange, SwitchingSender_Report.
  sw_steps. rename a into index. cbn [ws_Config]. destruct (Z.ltb_spec index (wc_SenderCount config)); sw_steps.
  - switch_to. sw_steps. split; [done |]. split; [done |]. eexists. split; [rewrite <- !app_assoc; reflexivity |].
    intros rest answers Hs. cbn [app]. rewrite <- app_assoc. by apply (switch_routes _ current reported index).
  - destruct reported; cbn [negb ws_OutOfRangeReported]; sw_steps; switch_to; sw_steps; (split; [done |]); (split; [done |]).
    all: eexists; split; [rewrite <- !app_assoc; reflexivity |]; intros rest answers Hs.
    all: lazymatch goal with Ha : SolidSyslogSender_Send _ _ _ = (?taken, _) |- _ => apply (f_equal fst) in Ha; change (true = taken) in Ha; subst taken end.
    all: cbn [app]; rewrite <- ?app_assoc.
    + by apply (switch_loses _ current true index).
    + by apply (switch_loses _ current false index).
Qed.
Lemma sw_Disconnect_spec w : wp (SwitchingSender_Disconnect sender_at)
  (fun _ w' => sw_Self w' = sw_Self w /\ sw_Trace w' = sw_Trace w ++ [Dropped (ws_CurrentSender (sw_Self w))]) w.
Proof using. unfold SwitchingSender_Disconnect, disconnect_current. sw_steps. done. Qed.

Definition sw_meanwhile (change : E -> E) w : sw_world := w <| sw_Env := change (sw_Env w) |>.
Lemma sw_feed_tells inputs : forall w, sw_own w ->
  wp (feed sw_meanwhile (SwitchingSender_vtable sender_at) inputs) (fun answers w' => exists es, sw_Trace w' = sw_Trace w ++ es /\
    sw_story (wc_SenderCount (ws_Config (sw_Self w))) (ws_CurrentSender (sw_Self w)) (ws_OutOfRangeReported (sw_Self w)) es answers) w.
Proof using.
  induction inputs as [| input inputs IH]; intros w Hown; cbn [feed].
  { apply wp_ret. exists []. split; [by rewrite app_nil_r | constructor]. }
  destruct input as [buffer size | | change]; apply wp_bind.
  - cbn [SwitchingSender_vtable SolidSyslogSender_Send]. apply wp_bind, wp_sw_get. rewrite Hown. cbv iota.
    eapply wp_mono; [by apply sw_Send_spec |]. intros taken w1 (Hown1 & Ec & es1 & E1 & Hs1). cbv beta. apply wp_bind.
    eapply wp_mono; [by apply IH |]. intros answers w2 (es2 & E2 & Hs2). cbv beta. apply wp_ret. rewrite Ec in Hs2.
    exists (es1 ++ es2). split; [by rewrite E2, E1, <- app_assoc | by apply Hs1].
  - cbn [SwitchingSender_vtable SolidSyslogSender_Disconnect]. apply wp_bind, wp_sw_get. rewrite Hown. cbv iota.
    eapply wp_mono; [apply sw_Disconnect_spec |]. intros _ w1 (Es & E1). cbv beta.
    eapply wp_mono; [apply IH; unfold sw_own; by rewrite Es |]. intros answers w2 (es2 & E2 & Hs2). rewrite Es in Hs2.
    eexists. split; [by rewrite E2, E1, <- app_assoc | by apply switch_disconnects].
  - apply wp_mod. by apply (IH (sw_meanwhile change w)).
Qed.

Definition sw_fresh (config : @SolidSyslogSwitchingSenderConfig E) (self : @SolidSyslogSwitchingSender E) (e : E) : sw_world :=
  mkSwWorld (SolidSyslogSwitchingSender_Initialise config self) e [].

(** Where a switching sender sends, in any run, whatever its selector, its array
    and the senders behind it do.  Each record goes through the sender at the index the
    selector gave, when that is below the count, with that sender's answer; otherwise
    it is taken and lost, which is reported once per run of such indexes.  The sender
    in use is disconnected before another is used: no two are in use at once. *)
Theorem switching_sender_story config self (e : E) (inputs : list (sn_input E)) :
  let '(answers, w') := feed sw_meanwhile (SwitchingSender_vtable sender_at) inputs (sw_fresh config self e) in
  map fst answers = records_of inputs /\
  sw_story (wc_SenderCount config) NullSenderPointer false (sw_Trace w') answers /\
  exists live, live_run [] (sw_Trace w') = Some live.
Proof using.
  pose proof (sw_feed_tells inputs (sw_fresh config self e) eq_refl) as HB.
  pose proof (feed_answers sw_meanwhile (SwitchingSender_vtable sender_at) inputs (sw_fresh config self e)) as HA. unfold wp in HA, HB.
  destruct (feed _ _ _ _) as [answers w']. cbn [fst snd] in HA, HB. destruct HB as (es & Et & Hs). cbn in Et, Hs. subst es.
  split; [done |]. split; [done |]. eapply story_lives; [exact Hs | constructor].
Qed.
End switching_theory.

(** * A small network

    It carries eight bytes in a datagram while it is up, and over a stream as many
    bytes as there is room for. *)
Record network := mkNetwork { nw_Up : bool; nw_Room : Z; nw_Slots : pending_slots }.
#[export] Instance settable_network : Settable network := fun n => mkNetwork (nw_Up n) (nw_Room n) (nw_Slots n).
#[export] Instance network_tap : ErrorTap network := {
  tap_Handler := fun _ n => n;
  tap_Slots := nw_Slots;
  tap_SetSlots := fun slots n => n <| nw_Slots := slots |>
}.
Definition network_datagram : SolidSyslogDatagram network := {|
  SolidSyslogDatagram_Open := st_ret true;
  SolidSyslogDatagram_SendTo := fun buffer size addr n =>
    (if negb (nw_Up n) then SOLIDSYSLOG_DATAGRAM_SEND_RESULT_FAILED
     else if 8 <? size then SOLIDSYSLOG_DATAGRAM_SEND_RESULT_OVERSIZE else SOLIDSYSLOG_DATAGRAM_SEND_RESULT_SENT, n);
  SolidSyslogDatagram_MaxPayload := st_ret 8;
  SolidSyslogDatagram_Close := st_ret tt
|}.
Definition network_stream : SolidSyslogStream network := {|
  SolidSyslogStream_Open := fun addr n => (nw_Up n, n);
  SolidSyslogStream_Send := fun buffer size n => (size <=? nw_Room n, n <| nw_Room := nw_Room n - size |>);
  SolidSyslogStream_Read := fun buffer size => st_ret (0, buffer);
  SolidSyslogStream_Close := st_ret tt;
  SolidSyslogStream_Version := st_ret 0
|}.
Definition network_resolver : SolidSyslogResolver network := {| SolidSyslogResolver_Resolve := fun _ _ _ _ => st_ret true |}.
Definition a_network : network := mkNetwork true 12 initial_slots.
Definition a_frame : bytes := repeat 7 480.
Definition udp_config : @SolidSyslogUdpSenderConfig network :=
  mkUdpSenderConfig network_resolver network_datagram 1 (fun _ => st_ret ([(str "collector", 64)], 514)) None None.
Definition a_udp_sender : SolidSyslogUdpSender := mkUdpSender NullSenderVtable udp_config false false false 0.

(** The euro sign of the second record is where the datagram is full; the network is
    down for the third. *)
Definition udp_inputs : list (sn_input network) :=
  [SendRecord (str "one") 3; SendRecord (str "price: " ++ [0xE2; 0x82; 0xAC]) 10; Meanwhile (fun n => n <| nw_Up := false |>);
   SendRecord (str "two") 3; Meanwhile (fun n => n <| nw_Up := true |>); SendRecord (str "two") 3; DisconnectNow].
Lemma udp_inputs_ok : Forall input_ok udp_inputs.
Proof.
  repeat (apply Forall_cons_2; [| try apply Forall_nil_2]); try exact I; (split; [by vm_compute |]; split; [by vm_compute |]).
  - exists [0x6F; 0x6E; 0x65]. split; [repeat (apply Forall_cons_2; [left; by vm_compute |]); apply Forall_nil_2 | done].
  - exists [0x70; 0x72; 0x69; 0x63; 0x65; 0x3A; 0x20; 0x20AC]. split; [repeat (apply Forall_cons_2; [left; by vm_compute |]); apply Forall_nil_2 | done].
  - exists [0x74; 0x77; 0x6F]. split; [repeat (apply Forall_cons_2; [left; by vm_compute |]); apply Forall_nil_2 | done].
  - exists [0x74; 0x77; 0x6F]. split; [repeat (apply Forall_cons_2; [left; by vm_compute |]); apply Forall_nil_2 | done].
Qed.
Abbreviation udp_run := (sn_feed (UdpSender_vtable a_frame) udp_inputs (us_fresh udp_config a_udp_sender a_network)).
Definition datagrams (es : list sn_event) : list bytes :=
  concat (map (fun e => match e with Offered d SOLIDSYSLOG_DATAGRAM_SEND_RESULT_SENT => [d] | _ => [] end) es).
Lemma udp_sender_story_witness :
  let '(answers, w') := udp_run in
  datagrams (sn_Trace w') = [str "one"; str "price: "; str "two"] /\ map snd answers = [true; true; false; true] /\
  udp_story true false (sn_Trace w') answers.
Proof.
  pose proof (udp_sender_story a_frame udp_config a_udp_sender a_network udp_inputs (fun e => ltac:(discriminate)) udp_inputs_ok) as HB.
  assert (Ed : datagrams (sn_Trace (snd udp_run)) = [str "one"; str "price: "; str "two"] /\ map snd (fst udp_run) = [true; true; false; true])
    by (clear; by vm_compute).
  revert HB Ed. destruct udp_run as [answers w']. intros [Hs _] [Ed Ea]. split; [exact Ed |]. split; [exact Ea | exact Hs].
Defined.

Definition stream_config : @SolidSyslogStreamSenderConfig network := mkStreamSenderConfig network_resolver network_stream 1 None None None.
Definition a_stream_sender : SolidSyslogStreamSender := mkStreamSender NullSenderVtable stream_config false false 0 0.
(** The stream breaks in the second record's body, and the record is sent again. *)
Definition stream_inputs : list (sn_input network) :=
  [SendRecord (str "first one") 9; SendRecord (str "two") 3; Meanwhile (fun n => n <| nw_Room := 100 |>); SendRecord (str "two") 3; DisconnectNow].
Lemma stream_inputs_ok : Forall ts_input_ok stream_inputs.
Proof. repeat (apply Forall_cons_2; [try exact I; by vm_compute | try apply Forall_nil_2]). Qed.
Abbreviation stream_run := (sn_feed (StreamSender_vtable a_frame) stream_inputs (ts_fresh stream_config a_stream_sender a_network)).
Lemma stream_carries_records_witness :
  let '(answers, w') := stream_run in
  delivered answers = [str "first one"; str "two"] /\ undelivered answers = [str "two"] /\
  forall conns, on_wire [] (sn_Trace w') conns ->
    exists carried, concat carried = delivered answers /\
      Forall2 (fun records conn => read_frames conn = records \/
        exists r, r ∈ undelivered answers /\ read_frames conn = records ++ [r]) carried conns.
Proof.
  assert (Hf : OCTET_COUNTING_PREFIX_CAPACITY <= lenZ a_frame) by (by vm_compute).
  pose proof (stream_carries_records a_frame Hf stream_config a_stream_sender a_network stream_inputs stream_inputs_ok) as HB.
  assert (Ed : delivered (fst stream_run) = [str "first one"; str "two"] /\ undelivered (fst stream_run) = [str "two"])
    by (clear; by vm_compute).
  revert HB Ed. destruct stream_run as [answers w']. intros (_ & _ & _ & Hc) [Ed Eu]. split; [exact Ed |]. split; [exact Eu | exact Hc].
Defined.
