(* ===== verification/StreamDelivery.v ===== *)
(** A stream sender over any stream that tells the truth about its connections
    ([stream_tells]), as every one does that keeps the contract of [StreamContract]: the
    bytes the connections took are the frames of the records the sender said it
    delivered.  Where [Senders] reads the trace of the sender, this reads the connections
    themselves; with [TcpStreams] it is a statement about the bytes a socket library
    accepted. *)
From S2P Require Import Prelude Errors PendingEvents Interfaces Utf8 Formatter SdWriters Transport StreamContract TcpStreams Senders.

(** * What a stream may do to the connections, one event of the sender at a time *)

(** As [wire_step], but that a Send of a stream with no connection does nothing. *)
Definition took_step (wires : list bytes) (e : sn_event) (wires' : list bytes) : Prop :=
  wire_step wires e wires' \/ match e with Streamed _ false => wires' = wires | _ => False end.
Fixpoint took (wires : list bytes) (es : list sn_event) (wires' : list bytes) : Prop :=
  match es with
  | [] => wires' = wires
  | e :: es => exists wires1, took_step wires e wires1 /\ took wires1 es wires'
  end.
Lemma took_snoc es e wires2 : forall wires wires1, took wires es wires1 -> took_step wires1 e wires2 -> took wires (es ++ [e]) wires2.
Proof.
  induction es as [| e0 es IH]; intros wires wires1; cbn [app took].
  - intros -> He. by exists wires2.
  - intros (w0 & H0 & H1) He. exists w0. split; [done |]. by eapply IH.
Qed.

(** Connections are counted alike, so where a trace has connections at all, what was
    taken is what it put on the wire. *)
Lemma step_on_wire e : forall conns conns1 wires wires1, length conns = length wires ->
  wire_step conns e conns1 -> took_step wires e wires1 -> wire_step wires e wires1 /\ length conns1 = length wires1.
Proof.
  intros conns conns1 wires wires1 Hl Hc [Hw | Hw].
  - split; [done |]. destruct e as [| [] | | | | | data [] |]; cbn in *; try (by subst); try (by subst; rewrite !length_app, Hl).
    + destruct Hc as (b & c & -> & ->), Hw as (b' & c' & -> & ->). rewrite !length_app in *. cbn in *. lia.
    + destruct Hc as (b & c & ? & ? & -> & _ & ->), Hw as (b' & c' & ? & ? & -> & _ & ->). rewrite !length_app in *. cbn in *. lia.
  - destruct e as [| | | | | | data [] |]; try done. subst wires1. cbn in Hc. destruct Hc as (b & c & part & rest & -> & Ed & ->).
    rewrite !length_app in *. cbn in *. split; [| lia]. destruct (rev wires) as [| w0 r] eqn:Er.
    { apply (f_equal (@rev bytes)) in Er. rewrite rev_involutive in Er. subst. cbn in Hl. lia. }
    apply (f_equal (@rev bytes)) in Er. rewrite rev_involutive in Er. cbn in Er. exists (rev r), w0, [], data.
    split; [done |]. split; [done |]. by rewrite app_nil_r.
Qed.
Lemma took_on_wire es : forall conns conns' wires wires', length conns = length wires ->
  on_wire conns es conns' -> took wires es wires' -> on_wire wires es wires'.
Proof.
  induction es as [| e es IH]; intros conns conns' wires wires' Hl; cbn [on_wire took]; [done |].
  intros (c1 & Hc & Hcs) (w1 & Hw & Hws). destruct (step_on_wire e _ _ _ _ Hl Hc Hw) as [Hs Hl1].
  exists w1. split; [done |]. by eapply IH.
Qed.

(** * What a sender relies on *)

(** An Open that answers true starts a connection, one that does not starts none; a Send
    that answers true, after an Open that did, put its data behind what the connection was
    given, and one that answers false a part of it at most; nothing else goes there. *)
Record stream_tells {E} (stream : SolidSyslogStream E) (ok linked : E -> Prop) (fits : Z -> Prop) (wires : E -> list bytes) : Prop := {
  tells_Open : forall addr e, ok e -> wp (SolidSyslogStream_Open (SolidSyslogStream := stream) addr)
    (fun b e' => ok e' /\ took_step (wires e) (Opened b) (wires e') /\ (linked e -> linked e') /\ (b = true -> linked e')) e;
  tells_Send : forall data len e, ok e -> linked e -> fits len -> wp (SolidSyslogStream_Send (SolidSyslogStream := stream) data len)
    (fun b e' => ok e' /\ took_step (wires e) (Streamed (takeZ len data) b) (wires e') /\ (b = true -> linked e')) e;
  tells_Close : forall e, ok e -> wp (SolidSyslogStream_Close (SolidSyslogStream := stream)) (fun _ e' => ok e' /\ wires e' = wires e) e;
  tells_Version : forall e, ok e -> wp (SolidSyslogStream_Version (SolidSyslogStream := stream))
    (fun _ e' => ok e' /\ wires e' = wires e /\ (linked e -> linked e')) e
}.
(** A stream that keeps its contract does, and takes itself for connected when it is open. *)
Section from_contract.
Context {E : Type} (ok usable : E -> Prop) (state : E -> stream_state).
Definition open_in (e : E) : Prop := st_Open (state e) = true.
Definition wires_in (e : E) : list bytes := st_Wires (state e).
Definition any_size (size : Z) : Prop := True.
Lemma contract_tells kind stream reports below : stream_contract kind stream ok usable state reports below -> (forall e, ok e -> open_in e -> usable e) ->
  stream_tells stream ok open_in any_size wires_in.
Proof using.
  intros SC Hu. unfold open_in, wires_in in *. constructor.
  - intros addr e Ho. eapply wp_mono; [by apply (contract_Open _ _ _ _ _ _ _ SC) |]. intros b e' (Ho' & rs & Hopen & _). split; [done |].
    destruct (state e) as [op la ws]. split; [left |]; by inversion Hopen; subst; cbn in *.
  - intros data len e Ho Hop _. eapply wp_mono; [by apply (contract_Send _ _ _ _ _ _ _ SC); auto |]. intros b e' (Ho' & Hsend & _). split; [done |].
    inversion Hsend as [before conn Hop' Hw E1 E2 | before conn part rest Hop' Hw Ed E1 E2 | Hop' E1 E2]; subst; cbn; (split; [| congruence]).
    + left. rewrite Hw. exists before, conn. by split.
    + left. rewrite Hw. exists before, conn, part, rest. by split.
    + by right.
  - intros e Ho. eapply wp_mono; [by apply (contract_Close _ _ _ _ _ _ _ SC) |]. intros [] e' (Ho' & -> & _). by split.
  - intros e Ho. eapply wp_mono; [by apply (contract_Version _ _ _ _ _ _ _ SC) |]. intros v e' (Ho' & -> & _). by repeat split.
Qed.
End from_contract.

(** * The sender in its environment *)

Section delivery.
Context {E : Type} `{HT : ErrorTap E} (frame : bytes) (Hframe : OCTET_COUNTING_PREFIX_CAPACITY <= lenZ frame).
Context (ok linked : E -> Prop) (fits : Z -> Prop) (wires : E -> list bytes).
Context (config : @SolidSyslogStreamSenderConfig E) (SC : stream_tells (tc_Stream config) ok linked fits wires).
Context (prefix_fits : forall len, 0 <= len < OCTET_COUNTING_PREFIX_CAPACITY -> fits len).

(** What is not the stream leaves it alone. *)
Definition stream_apart {A} (m : ST E A) : Prop := forall e, ok e -> ok (snd (m e)) /\ wires (snd (m e)) = wires e /\ (linked e -> linked (snd (m e))).
Record environment_apart : Prop := {
  resolver_apart : forall transport host port addr, stream_apart (SolidSyslogResolver_Resolve (SolidSyslogResolver := tc_Resolver config) transport host port addr);
  endpoint_apart : forall f, tc_Endpoint config = Some f -> stream_apart (f (tc_EndpointContext config));
  version_apart : forall f, tc_EndpointVersion config = Some f -> stream_apart (f (tc_EndpointContext config));
  tap_apart : forall event, stream_apart (st_mod (tap_emit event))
}.
Context (EA : environment_apart).

Abbreviation own_config := (ts_Config (SolidSyslogStreamSender_Initialise config (mkStreamSender OwnVtable config false false 0 0))).
(** The connections have taken what the trace says. *)
Definition wires_told (w : @ts_world E) : Prop :=
  ok (sn_Env w) /\ ts_Config (sn_Self w) = own_config /\ took [] (sn_Trace w) (wires (sn_Env w)).
(** Besides, a sender that takes itself for connected is over a stream that is. *)
Definition wires_follow (w : @ts_world E) : Prop :=
  wires_told w /\ (ts_Connected (sn_Self w) = true -> linked (sn_Env w)).

Lemma follow_bind {A B} (m : ST (@ts_world E) A) (k : A -> ST (@ts_world E) B) :
  preserves wires_follow m -> (forall a, preserves wires_follow (k a)) -> preserves wires_follow (let! a := m in k a).
Proof using. apply preserves_bind. Qed.
Lemma follow_ret {A} (a : A) : preserves wires_follow (st_ret a).
Proof using. apply preserves_ret. Qed.
Lemma follow_get {A} (f : SolidSyslogStreamSender -> A) : preserves wires_follow (sn_get f).
Proof using. apply preserves_get. Qed.
Lemma follow_set f : (forall self, ts_Config (f self) = ts_Config self) -> (forall self, ts_Connected (f self) = true -> ts_Connected self = true) ->
  preserves wires_follow (sn_set (E := E) f).
Proof using. intros Hf Hn w [(Ho & Hc & Ht) Hl]. cbn. split; [| by intros Hs%Hn%Hl]. split; [done |]. split; [cbn; by rewrite Hf | done]. Qed.
Lemma follow_happens e : (forall ws, took_step ws e ws) -> preserves wires_follow (sn_happens (S := SolidSyslogStreamSender) (E := E) e).
Proof using. intros He w [(Ho & Hc & Ht) Hl]. split; [| exact Hl]. split; [done |]. split; [done |]. cbn. by eapply took_snoc. Qed.
Lemma follow_env {A} (m : ST E A) : stream_apart m -> preserves wires_follow (sn_env (S := SolidSyslogStreamSender) m).
Proof using.
  intros Hm w [(Ho & Hc & Ht) Hl]. unfold sn_env, zoom. specialize (Hm (sn_Env w) Ho). destruct (m (sn_Env w)) as [a e]. cbn in *.
  destruct Hm as (Ho' & Es & Hl'). split; [| cbn; auto]. split; [done |]. split; [done |]. cbn. by rewrite Es.
Qed.
(** A call that does a step of the connections, and what it says of the state. *)
Definition told_call {A} (m : SolidSyslogStreamSender -> ST E A) (said : A -> sn_event) (P : E -> Prop) (R : E -> A -> E -> Prop) : Prop :=
  forall self e, ts_Config self = own_config -> ok e -> P e ->
    let '(a, e') := m self e in ok e' /\ took_step (wires e) (said a) (wires e') /\ R e a e'.
Lemma call_told {A} (m : SolidSyslogStreamSender -> ST E A) said P R w (Q : A -> @ts_world E -> Prop) : told_call m said P R -> wires_told w -> P (sn_Env w) ->
  (forall a w', wires_told w' -> sn_Self w' = sn_Self w -> R (sn_Env w) a (sn_Env w') -> Q a w') -> wp (sn_call m said) Q w.
Proof using.
  intros Hm (Ho & Hc & Ht) HP HQ. unfold wp, sn_call, sn_env, zoom, sn_happens, st_bind, st_get, st_mod, st_ret. specialize (Hm (sn_Self w) (sn_Env w) Hc Ho HP).
  destruct (m (sn_Self w) (sn_Env w)) as [a e']. cbn in *. destruct Hm as (Ho' & Hs & HR). apply HQ; [| done | done].
  split; [done |]. split; [done |]. cbn. by eapply took_snoc.
Qed.
Lemma follow_call {A} (m : SolidSyslogStreamSender -> ST E A) said :
  told_call m said (fun _ => True) (fun e _ e' => linked e -> linked e') -> preserves wires_follow (sn_call m said).
Proof using.
  intros Hm w [Hw Hl]. apply (call_told m said _ _ w (fun _ => wires_follow) Hm); [done | done |]. intros a w' Hw' Es HR. split; [done |]. rewrite Es. auto.
Qed.
(** A call beside the stream. *)
Lemma follow_call_apart {A} (m : SolidSyslogStreamSender -> ST E A) said : (forall self, ts_Config self = own_config -> stream_apart (m self)) ->
  (forall a ws, took_step ws (said a) ws) -> preserves wires_follow (sn_call m said).
Proof using.
  intros Hm Hs. apply follow_call. intros self e Hc Ho _. specialize (Hm self Hc e Ho). destruct (m self e) as [a e']. cbn in Hm. destruct Hm as (Ho' & -> & Hl). by repeat split.
Qed.

Lemma apart_bind {A B} (m : ST E A) (k : A -> ST E B) : stream_apart m -> (forall a, stream_apart (k a)) -> stream_apart (let! a := m in k a).
Proof using.
  intros Hm Hk e Ho. unfold st_bind. specialize (Hm e Ho). destruct (m e) as [a e1]. cbn in Hm. destruct Hm as (Ho1 & <- & Hl). destruct (Hk a e1 Ho1) as (Ho2 & -> & Hl2). auto.
Qed.
Lemma apart_ret {A} (a : A) : stream_apart (st_ret a).
Proof using. by intros e Ho. Qed.

Lemma open_told addr : told_call (fun self => SolidSyslogStream_Open (SolidSyslogStream := tc_Stream (ts_Config self)) addr) Opened (fun _ => True)
  (fun e b e' => (linked e -> linked e') /\ (b = true -> linked e')).
Proof using SC.
  intros self e -> Ho _. pose proof (tells_Open _ _ _ _ _ SC addr e Ho) as H. unfold wp in H. cbn [ts_Config tc_Stream SolidSyslogStreamSender_Initialise] in *.
  destruct (SolidSyslogStream_Open addr e) as [b e']. exact H.
Qed.
Lemma send_told data len : fits len -> told_call (fun self => SolidSyslogStream_Send (SolidSyslogStream := tc_Stream (ts_Config self)) data len) (Streamed (takeZ len data))
  linked (fun _ b e' => b = true -> linked e').
Proof using SC.
  intros Hf self e -> Ho Hl. pose proof (tells_Send _ _ _ _ _ SC data len e Ho Hl Hf) as H. unfold wp in H. cbn [ts_Config tc_Stream SolidSyslogStreamSender_Initialise] in *.
  destruct (SolidSyslogStream_Send data len e) as [b e']. exact H.
Qed.
Lemma close_told : told_call (fun self => SolidSyslogStream_Close (SolidSyslogStream := tc_Stream (ts_Config self))) (fun _ => Closed) (fun _ => True) (fun _ _ _ => True).
Proof using SC.
  intros self e -> Ho _. pose proof (tells_Close _ _ _ _ _ SC e Ho) as H. unfold wp in H. cbn [ts_Config tc_Stream SolidSyslogStreamSender_Initialise] in *.
  destruct (SolidSyslogStream_Close e) as [[] e']. destruct H as [Ho' Hw]. split; [done |]. split; [left; exact Hw | done].
Qed.
Lemma versions_apart self : ts_Config self = own_config -> stream_apart (StreamSender_Versions self).
Proof using SC EA.
  intros Hc. unfold StreamSender_Versions. rewrite Hc. cbn [ts_Config tc_Stream tc_EndpointVersion tc_EndpointContext SolidSyslogStreamSender_Initialise default].
  apply apart_bind; [| intros v; apply apart_bind; [| intros v'; apply apart_ret]].
  - destruct (tc_EndpointVersion config) as [f |] eqn:Ef; cbn; [by apply (version_apart EA) | apply apart_ret].
  - intros e Ho. exact (tells_Version _ _ _ _ _ SC e Ho).
Qed.
Lemma endpoint_filled endpoint : stream_apart (fill_endpoint (default StreamSender_NilEndpoint (tc_Endpoint own_config)) (tc_EndpointContext own_config) endpoint).
Proof using EA.
  unfold fill_endpoint. apply apart_bind; [| intros said; apply apart_ret]. cbn [tc_Endpoint tc_EndpointContext ts_Config SolidSyslogStreamSender_Initialise default].
  destruct (tc_Endpoint config) as [f |] eqn:Ef; cbn; [by apply (endpoint_apart EA) | apply apart_ret].
Qed.

Lemma follow_self {A} (k : SolidSyslogStreamSender -> ST (@ts_world E) A) :
  (forall self, ts_Config self = own_config -> preserves wires_follow (k self)) -> preserves wires_follow (let! self := st_get sn_Self in k self).
Proof using. intros Hk w Hw. unfold st_bind, st_get. apply Hk; [apply Hw | exact Hw]. Qed.
Lemma quiet_step e : match e with Polled _ _ | Resolved _ | Closed | Raised _ _ _ => True | _ => False end -> forall ws, took_step ws e ws.
Proof using. intros He ws. left. by destruct e. Qed.
Lemma follow_if {A} (b : bool) (m1 m2 : ST (@ts_world E) A) : preserves wires_follow m1 -> preserves wires_follow m2 -> preserves wires_follow (if b then m1 else m2).
Proof using. apply preserves_if. Qed.
Lemma CloseStream_follow w : wires_told w -> wp StreamSender_CloseStream (fun _ w' => wires_follow w') w.
Proof using SC.
  intros Hw. unfold StreamSender_CloseStream. apply wp_bind. eapply call_told; [apply close_told | done | done |].
  intros _ w' (Ho & Hc & Ht) _ _. apply wp_mod. by split.
Qed.
Lemma Disconnect_follow : preserves wires_follow StreamSender_Disconnect.
Proof using SC. apply follow_bind; [apply follow_get |]. intros connected. apply follow_if; [intros w [Hw _]; by apply CloseStream_follow | apply follow_ret]. Qed.
Lemma Connect_follow w : wires_follow w -> wp (StreamSender_Connect frame) (fun b w' => wires_follow w' /\ (b = true -> ts_Connected (sn_Self w') = true)) w.
Proof using SC EA.
  intros Hw. apply wp_bind, wp_get, wp_bind.
  assert (Hr : preserves wires_follow (StreamSender_ResolveDestination frame (tc_Address (ts_Config (sn_Self w))))).
  { apply follow_self. intros self Hc. rewrite Hc. apply follow_bind; [apply follow_env, endpoint_filled |]. intros endpoint.
    apply follow_call_apart; [intros self' -> ; by apply (resolver_apart EA) | intros a; by apply quiet_step]. }
  apply (wp_mono _ (fun _ => wires_follow)); [exact (Hr w Hw) |]. cbv beta. intros resolved w1 [Hw1 Hl1]. apply wp_bind.
  apply (wp_mono _ (fun _ => wires_follow)); [| intros _ w2 Hw2; by apply wp_get].
  destruct resolved; [| by apply wp_ret]. apply wp_bind. eapply call_told; [apply open_told | done | done |].
  intros opened w2 (Ho & Hc & Ht) Es [_ Hop]. apply wp_mod. by repeat split.
Qed.
Lemma Reconcile_follow w : wires_follow w -> wp (StreamSender_Reconcile frame) (fun b w' => wires_follow w' /\ (b = true -> ts_Connected (sn_Self w') = true)) w.
Proof using SC EA.
  intros Hw. apply wp_bind.
  assert (Hd : preserves wires_follow StreamSender_DisconnectIfStale).
  { apply follow_bind; [apply follow_call_apart; [apply versions_apart | intros a; by apply quiet_step] |]. intros versions.
    apply follow_bind; [apply follow_get |]. intros moved. apply follow_if; [| apply follow_ret].
    apply follow_bind; [apply Disconnect_follow | intros _; by apply follow_set]. }
  apply (wp_mono _ (fun _ => wires_follow)); [exact (Hd w Hw) |]. cbv beta. intros _ w1 Hw1. apply wp_bind, wp_get.
  destruct (StreamSender_Connected (sn_Self w1)) eqn:Ec; [by apply wp_ret | by apply Connect_follow].
Qed.
Lemma SendBytes_follow data len w : fits len -> wires_follow w -> ts_Connected (sn_Self w) = true ->
  wp (StreamSender_SendBytes data len) (fun b w' => wires_follow w' /\ (b = true -> ts_Connected (sn_Self w') = true)) w.
Proof using SC.
  intros Hf [Hw Hl] Hc. apply wp_bind. eapply call_told; [by apply send_told | done | by apply Hl |]. intros sent w1 Hw1 Es Hop. apply wp_bind.
  destruct sent; cbn [negb]; [apply wp_ret, wp_ret; unfold wires_follow; rewrite Es; auto |].
  apply (wp_mono _ (fun _ => wires_follow)); [by apply CloseStream_follow |]. intros _ w2 Hw2. by apply wp_ret.
Qed.
Lemma health_apart healthy delivered reporter : stream_apart (SolidSyslogSenderHealth_Update healthy delivered reporter).
Proof using EA.
  unfold SolidSyslogSenderHealth_Update. destruct (negb _); [| apply apart_ret].
  apply apart_bind; [destruct delivered; apply (tap_apart EA) | intros _; apply apart_ret].
Qed.
Lemma UpdateDeliveryHealth_follow delivered : preserves wires_follow (StreamSender_UpdateDeliveryHealth delivered).
Proof using EA.
  apply follow_bind; [apply follow_get |]. intros healthy. apply follow_bind; [apply follow_env, health_apart |]. intros now.
  apply follow_bind; [by apply follow_set |]. intros _. apply follow_if; [| apply follow_ret]. apply follow_happens, quiet_step. by destruct delivered.
Qed.
Lemma TransmitFramed_follow buffer size w : 0 <= size < 2 ^ 32 -> fits size -> wires_follow w -> ts_Connected (sn_Self w) = true ->
  wp (StreamSender_TransmitFramed frame buffer size) (fun _ => wires_follow) w.
Proof using Hframe SC prefix_fits.
  intros Hs Hf Hw Hc. unfold StreamSender_TransmitFramed. pose proof (prefix_text frame Hframe size Hs) as Hp.
  destruct (SolidSyslogFormatter_AsFormattedBuffer _) as [text prefix]. destruct Hp as [_ Hp].
  apply wp_bind. eapply wp_mono; [by apply SendBytes_follow; [apply prefix_fits | |] |]. cbv beta. intros [] w1 [Hw1 Hc1]; [| by apply wp_ret].
  eapply wp_mono; [by apply SendBytes_follow; auto |]. intros b w2 [Hw2 _]; exact Hw2.
Qed.
Lemma Send_follow buffer size : 0 <= size < 2 ^ 32 -> fits size -> preserves wires_follow (SolidSyslogSender_Send (SolidSyslogSender := StreamSender_vtable frame) buffer size).
Proof using Hframe SC EA prefix_fits.
  intros Hs Hf. apply follow_bind; [apply follow_get |]. intros []; [| apply follow_ret]. intros w Hw.
  change (wp (StreamSender_Send frame buffer size) (fun _ => wires_follow) w). apply wp_bind.
  eapply wp_mono; [by apply Reconcile_follow |]. cbv beta. intros ready w1 [Hw1 Hc1]. apply wp_bind.
  apply (wp_mono _ (fun _ => wires_follow)).
  - destruct ready; [by apply TransmitFramed_follow; auto | by apply wp_ret].
  - intros delivered w2 Hw2. refine (follow_bind (StreamSender_UpdateDeliveryHealth delivered) _ _ _ w2 Hw2); [apply UpdateDeliveryHealth_follow | intros _; apply follow_ret].
Qed.
Lemma SenderDisconnect_follow : preserves wires_follow (SolidSyslogSender_Disconnect (SolidSyslogSender := StreamSender_vtable frame)).
Proof using SC. apply follow_bind; [apply follow_get |]. intros []; [apply Disconnect_follow | apply follow_ret]. Qed.

(** What happens meanwhile leaves the stream alone, and a record is of a length it takes. *)
Definition input_apart (input : sn_input E) : Prop :=
  match input with SendRecord _ size => 0 <= size < 2 ^ 32 /\ fits size | DisconnectNow => True | Meanwhile change => stream_apart (st_mod change) end.
Lemma feed_follow inputs : Forall input_apart inputs -> preserves wires_follow (sn_feed (StreamSender_vtable frame) inputs).
Proof using Hframe SC EA prefix_fits.
  induction 1 as [| input inputs Hi _ IH]; cbn [feed]; [apply follow_ret |]. destruct input as [buffer size | | change].
  - destruct Hi as [Hs Hf]. apply follow_bind; [by apply Send_follow |]. intros taken. apply follow_bind; [exact IH | intros rest; apply follow_ret].
  - apply follow_bind; [apply SenderDisconnect_follow | intros _; exact IH].
  - apply follow_bind; [| intros _; exact IH]. apply preserves_mod. intros w [(Ho & Hc & Ht) Hl]. destruct (Hi (sn_Env w) Ho) as (Ho' & Es & Hl'). cbn in Es, Hl'.
    split; [| cbn; auto]. split; [done |]. split; [done |]. cbn. by rewrite Es.
Qed.

(** The connections of the stream, after any run of a fresh sender. *)
Lemma sender_fills_wires self (e : E) inputs : Forall ts_input_ok inputs -> Forall input_apart inputs -> ok e -> wires e = [] ->
  let '(answers, w') := sn_feed (StreamSender_vtable frame) inputs (ts_fresh config self e) in
  map fst answers = records_of inputs /\
  exists carried, concat carried = delivered answers /\
    Forall2 (fun records conn => read_frames conn = records \/
      exists r, r ∈ undelivered answers /\ read_frames conn = records ++ [r]) carried (wires (sn_Env w')) /\ ok (sn_Env w').
Proof using Hframe SC EA prefix_fits.
  intros Hin Hap Ho Hw0.
  assert (Hown : ts_owned (ts_fresh config self e)) by (split; [exists initial_link; done | done]).
  assert (Hinv : wire_inv (sn_Trace (ts_fresh config self e)) (ts_Connected (sn_Self (ts_fresh config self e))) []).
  { split; [by exists [] |]. intros conns ->. exists []. split; [done |]. split; [constructor | done]. }
  pose proof (ts_feed_carries frame Hframe inputs _ [] Hin Hown Hinv) as HB.
  pose proof (feed_answers sn_meanwhile (StreamSender_vtable frame) inputs (ts_fresh config self e)) as HA.
  assert (Hf0 : wires_follow (ts_fresh config self e)) by (split; [split; [done |]; split; [done | by rewrite <- Hw0] | done]).
  pose proof (feed_follow inputs Hap _ Hf0) as HF. unfold wp in HA, HB. destruct (sn_feed _ _ _) as [answers w']. cbn [fst snd app] in HA, HB, HF.
  destruct HB as [_ [(conns & Hc) Hall]], HF as [(Ho' & _ & Ht) _]. split; [done |].
  pose proof (records_bounded inputs Hin) as Hb. rewrite <- HA in Hb.
  destruct (held_wires_read answers (ts_Connected (sn_Self w')) (wires (sn_Env w')) Hb) as (carried & Hcd & Hf); [eapply Hall, took_on_wire; [| exact Hc | exact Ht]; done |]. by exists carried.
Qed.
End delivery.

(** * Over the socket streams *)

Section over_sockets.
Context {E : Type} `{HT : ErrorTap E} `{HS : Sockets E} (codes : socket_codes).

(** What acts on the socket stream's environment alone. *)
Definition beside_resolver (resolver : SolidSyslogResolver E) : SolidSyslogResolver (tcp_world E) := {|
  SolidSyslogResolver_Resolve := fun transport host port addr => tcp_env (SolidSyslogResolver_Resolve (SolidSyslogResolver := resolver) transport host port addr)
|}.
Definition beside_input (input : sn_input E) : sn_input (tcp_world E) :=
  match input with
  | SendRecord buffer size => SendRecord buffer size
  | DisconnectNow => DisconnectNow
  | Meanwhile change => Meanwhile (fun w => w <| tw_Env := change (tw_Env w) |>)
  end.
(** A sender's configuration over a socket stream. *)
Definition over_socket (stream : SolidSyslogStream (tcp_world E)) (resolver : SolidSyslogResolver E) (address : SolidSyslogAddress)
    (endpoint : option (SolidSyslogEndpointFunction E)) (endpointVersion : option (SolidSyslogEndpointVersionFunction E)) (context : option Z)
    : @SolidSyslogStreamSenderConfig (tcp_world E) :=
  mkStreamSenderConfig (beside_resolver resolver) stream address
    (option_map (fun f context => tcp_env (f context)) endpoint) (option_map (fun f context => tcp_env (f context)) endpointVersion) context.

Abbreviation linked D := (open_in (tcp_state codes D)).
Abbreviation wires D := (wires_in (tcp_state codes D)).
Lemma beside_apart D {A} (m : ST E A) : stream_apart (tcp_ok codes D) (linked D) (wires D) (tcp_env m).
Proof using. intros w Hw. unfold tcp_env, zoom. by destruct (m (tw_Env w)) as [a e]. Qed.
Lemma over_socket_apart D stream resolver address endpoint endpointVersion context :
  environment_apart (tcp_ok codes D) (linked D) (wires D) (over_socket stream resolver address endpoint endpointVersion context).
Proof using.
  constructor; cbn.
  - intros. apply beside_apart.
  - intros f Hf. destruct endpoint; [| done]. injection Hf as <-. apply beside_apart.
  - intros f Hf. destruct endpointVersion; [| done]. injection Hf as <-. apply beside_apart.
  - intros event w Hw. exact (conj Hw (conj eq_refl (fun H => H))).
Qed.

(** A collector reading the frames off the bytes the sockets took finds the records the
    sender delivered. *)
Definition reaches_sockets (frame : bytes) (D : socket_dialect) (initialise : option (tcp_config E) -> tcp_stream E) (stream : SolidSyslogStream (tcp_world E)) : Prop :=
  forall resolver address endpoint endpointVersion context self config e inputs, Forall ts_input_ok inputs ->
  let '(answers, w') := sn_feed (StreamSender_vtable frame) (map beside_input inputs)
    (ts_fresh (over_socket stream resolver address endpoint endpointVersion context) self (tcp_fresh (initialise config) e)) in
  map fst answers = records_of inputs /\
  exists s carried, observed codes D (tw_Trace (sn_Env w')) = Some s /\ concat carried = delivered answers /\
    Forall2 (fun records conn => read_frames conn = records \/
      exists r, r ∈ undelivered answers /\ read_frames conn = records ++ [r]) carried (seen_Wires s).
Lemma records_of_beside inputs : records_of (map beside_input inputs) = records_of inputs.
Proof using. unfold records_of. f_equal. rewrite map_map. apply map_ext. by intros []. Qed.
Lemma beside_inputs_ok D inputs : Forall ts_input_ok inputs ->
  Forall ts_input_ok (map beside_input inputs) /\ Forall (input_apart (tcp_ok codes D) (linked D) any_size (wires D)) (map beside_input inputs).
Proof using.
  induction 1 as [| input inputs Hi _ [IH1 IH2]]; cbn [map]; [by split |]. split; constructor; try done; destruct input; try done.
  cbn in Hi |- *. unfold SIZE_MAX in Hi. split; [lia | done].
Qed.
Lemma keeps_reaches frame D initialise stream : OCTET_COUNTING_PREFIX_CAPACITY <= lenZ frame ->
  keeps_contract codes D initialise stream -> (forall config e, tcp_state codes D (tcp_fresh (initialise config) e) = mkStreamState false None []) ->
  reaches_sockets frame D initialise stream.
Proof using.
  intros Hframe [SC Hok] H0 resolver address endpoint endpointVersion context self config e inputs Hi.
  destruct (beside_inputs_ok D inputs Hi) as [Hi' Ha].
  pose proof (sender_fills_wires frame Hframe _ _ _ _ (over_socket stream resolver address endpoint endpointVersion context) (contract_tells _ _ _ _ _ _ _ SC (fun _ _ _ => I)) (fun _ _ => I)
    (over_socket_apart D _ _ _ _ _ _) self (tcp_fresh (initialise config) e) _ Hi' Ha (Hok config e)) as HB.
  unfold wires_in in HB. rewrite H0 in HB. specialize (HB eq_refl). destruct (sn_feed _ _ _) as [answers w']. destruct HB as (Er & carried & Hc & Hr & (_ & s & Hs & _)).
  rewrite records_of_beside in Er. split; [done |].
  exists s, carried. split; [done |]. split; [done |]. unfold tcp_state, tcp_seen_of in Hr. by rewrite Hs in Hr.
Qed.

(** C8. From Send to the socket: in any run of records, disconnections and changes of the
    environment, over each of the four socket streams and whatever the socket library,
    the resolver and the endpoint's callbacks answer, the bytes the library accepted on
    each connection, read as octet-counted frames, are exactly the records Send answered
    true for, in order and each once, but that the last frame of a connection may be of a
    record Send answered false for. *)
Theorem records_reach_the_sockets (frame : bytes) : OCTET_COUNTING_PREFIX_CAPACITY <= lenZ frame ->
  (sockets_ok codes (posix codes) ->
    reaches_sockets frame (posix codes) (SolidSyslogPosixTcpStream_Initialise codes) (PosixTcpStream_vtable codes)) /\
  (sockets_ok codes (winsock codes) ->
    reaches_sockets frame (winsock codes) (SolidSyslogWinsockTcpStream_Initialise codes) (WinsockTcpStream_vtable codes)) /\
  (forall variant, sockets_ok codes (lwip_socket codes) ->
    reaches_sockets frame (lwip_socket codes) (SolidSyslogLwipSocketTcpStream_Initialise codes) (LwipSocketTcpStream_vtable codes variant)) /\
  (sockets_ok codes (vxworks codes) ->
    reaches_sockets frame (vxworks codes) (SolidSyslogVxWorks64TcpStream_Initialise codes) (VxWorks64TcpStream_vtable codes)).
Proof using.
  intros Hframe. split; [| split; [| split]].
  - intros SO. apply keeps_reaches; [done | by apply posix_keeps |]. intros config e. apply fresh_state, posix_ok.
  - intros SO. apply keeps_reaches; [done | by apply winsock_keeps |]. intros config e. apply fresh_state, winsock_ok.
  - intros variant SO. apply keeps_reaches; [done | by apply lwip_socket_keeps |]. intros config e. apply fresh_state, lwip_socket_ok.
  - intros SO. apply keeps_reaches; [done | by apply vxworks_keeps |]. intros config e. apply fresh_state, vxworks_ok.
Qed.
End over_sockets.

(** Two records over the small stack: the second is cut where there is no more room, and
    goes again on a new connection. *)
Definition small_resolver : SolidSyslogResolver small_stack := {| SolidSyslogResolver_Resolve := fun _ _ _ _ => st_ret true |}.
Definition small_inputs : list (sn_input small_stack) :=
  [SendRecord (str "one") 3; SendRecord (str "two") 3; Meanwhile (fun k => k <| ss_Room := 100 |>); SendRecord (str "two") 3; DisconnectNow].
Definition a_prefix_area : bytes := repeat 7 480.
Abbreviation small_delivery := (sn_feed (StreamSender_vtable a_prefix_area) (map beside_input small_inputs)
  (ts_fresh (over_socket (PosixTcpStream_vtable linux_codes) small_resolver 1 None None None)
     (mkStreamSender NullSenderVtable (over_socket (PosixTcpStream_vtable linux_codes) small_resolver 1 None None None) false false 0 0)
     (tcp_fresh (SolidSyslogPosixTcpStream_Initialise linux_codes None) a_small_stack))).
Lemma records_reach_the_sockets_witness :
  map snd (fst small_delivery) = [true; false; true] /\
  option_map seen_Wires (observed linux_codes (posix linux_codes) (tw_Trace (sn_Env (snd small_delivery)))) = Some [str "3 one3 t"; str "3 two"] /\
  reaches_sockets linux_codes a_prefix_area (posix linux_codes) (SolidSyslogPosixTcpStream_Initialise linux_codes) (PosixTcpStream_vtable linux_codes) (E := small_stack).
Proof.
  split; [by vm_compute |]. split; [by vm_compute |].
  exact (proj1 (records_reach_the_sockets linux_codes a_prefix_area ltac:(by vm_compute)) (proj1 small_stack_all)).
Defined.
