(* ===== verification/EmbeddedDelivery.v ===== *)
(** The stream sender over the two stacks of small systems: FreeRTOS-Plus-TCP
    ([PlusTcpStream]) and lwIP's raw interface ([LwipRawTcp]).  What [StreamDelivery] asks
    of a stream both give, so what their connections took is the records delivered. *)
From S2P Require Import Prelude Errors PendingEvents Interfaces Utf8 Formatter SdWriters Transport StreamContract TcpStreams Datagrams LwipRawTcp PlusTcpStream Senders StreamDelivery.
#[local] Open Scope Z_scope.

(** * A sender beside a stream's own world *)

Section beside.
Context {W E : Type} `{HT : ErrorTap W} (env : W -> E) (put : E -> W -> W).
(** What acts on the stack's environment alone. *)
Definition in_stack {A} (m : ST E A) : ST W A := zoom env put m.
Definition stack_resolver (resolver : SolidSyslogResolver E) : SolidSyslogResolver W := {|
  SolidSyslogResolver_Resolve := fun transport host port addr => in_stack (SolidSyslogResolver_Resolve (SolidSyslogResolver := resolver) transport host port addr)
|}.
Definition stack_input (input : sn_input E) : sn_input W :=
  match input with
  | SendRecord buffer size => SendRecord buffer size
  | DisconnectNow => DisconnectNow
  | Meanwhile change => Meanwhile (fun w => put (change (env w)) w)
  end.
Definition over_stack (stream : SolidSyslogStream W) (resolver : SolidSyslogResolver E) (address : SolidSyslogAddress)
    (endpoint : option (SolidSyslogEndpointFunction E)) (endpointVersion : option (SolidSyslogEndpointVersionFunction E)) (context : option Z)
    : @SolidSyslogStreamSenderConfig W :=
  mkStreamSenderConfig (stack_resolver resolver) stream address
    (option_map (fun f context => in_stack (f context)) endpoint) (option_map (fun f context => in_stack (f context)) endpointVersion) context.

Context (ok linked : W -> Prop) (fits : Z -> Prop) (wires : W -> list bytes).
Context (put_apart : forall e w, ok w -> ok (put e w) /\ wires (put e w) = wires w /\ (linked w -> linked (put e w))).
Context (tap_beside : forall event, stream_apart ok linked wires (st_mod (tap_emit event))).
Lemma stack_apart {A} (m : ST E A) : stream_apart ok linked wires (in_stack m).
Proof using put_apart. intros w Hw. unfold in_stack, zoom. destruct (m (env w)) as [a e]. by apply put_apart. Qed.
Lemma over_stack_apart stream resolver address endpoint endpointVersion context :
  environment_apart ok linked wires (over_stack stream resolver address endpoint endpointVersion context).
Proof using put_apart tap_beside.
  constructor; cbn; [intros; apply stack_apart | | | exact tap_beside].
  - intros f Hf. destruct endpoint; [| done]. injection Hf as <-. apply stack_apart.
  - intros f Hf. destruct endpointVersion; [| done]. injection Hf as <-. apply stack_apart.
Qed.
Lemma records_of_stack inputs : records_of (map stack_input inputs) = records_of inputs.
Proof using. unfold records_of. f_equal. rewrite map_map. apply map_ext. by intros []. Qed.
(** A record of a length the stream takes. *)
Definition record_fits (input : sn_input E) : Prop := match input with SendRecord _ size => fits size | _ => True end.
Lemma stack_inputs_ok inputs : Forall ts_input_ok inputs -> Forall record_fits inputs ->
  Forall ts_input_ok (map stack_input inputs) /\ Forall (input_apart ok linked fits wires) (map stack_input inputs).
Proof using put_apart.
  intros Hi. induction Hi as [| input inputs Hi _ IH]; intros Hf; cbn [map]; [by split |]. apply Forall_cons_1 in Hf as [Hf Hfs]. destruct (IH Hfs) as [IH1 IH2].
  split; constructor; try done; destruct input as [buffer size | | change]; try done; cbn in Hi, Hf |- *.
  - unfold SIZE_MAX in Hi. split; [lia | done].
  - intros w Hw. by apply put_apart.
Qed.

(** A run of a fresh sender, and what the connections took of it. *)
Definition sends_over (frame : bytes) (config : @SolidSyslogStreamSenderConfig W) (self : SolidSyslogStreamSender) (w : W) (inputs : list (sn_input E)) :=
  sn_feed (StreamSender_vtable frame) (map stack_input inputs) (ts_fresh config self w).
Definition records_on (answers : list (bytes * bool)) (conns : list bytes) : Prop :=
  exists carried, concat carried = delivered answers /\
    Forall2 (fun records conn => read_frames conn = records \/
      exists r, r ∈ undelivered answers /\ read_frames conn = records ++ [r]) carried conns.
Lemma stack_delivers frame stream resolver address endpoint endpointVersion context self w inputs :
  OCTET_COUNTING_PREFIX_CAPACITY <= lenZ frame -> stream_tells stream ok linked fits wires -> (forall len, 0 <= len < OCTET_COUNTING_PREFIX_CAPACITY -> fits len) ->
  Forall ts_input_ok inputs -> Forall record_fits inputs -> ok w -> wires w = [] ->
  let '(answers, w') := sends_over frame (over_stack stream resolver address endpoint endpointVersion context) self w inputs in
  map fst answers = records_of inputs /\ ok (sn_Env w') /\ records_on answers (wires (sn_Env w')).
Proof using put_apart tap_beside.
  intros Hframe Htells Hprefix Hi Hf Hw H0. destruct (stack_inputs_ok inputs Hi Hf) as [Hi' Ha].
  pose proof (sender_fills_wires frame Hframe ok linked fits wires (over_stack stream resolver address endpoint endpointVersion context) Htells Hprefix
    (over_stack_apart stream resolver address endpoint endpointVersion context) self w _ Hi' Ha Hw H0) as HB.
  unfold sends_over. destruct (sn_feed _ _ _) as [answers w']. rewrite records_of_stack in HB. destruct HB as (Hr & carried & Hc & HF & Hok).
  split; [done |]. split; [done |]. by exists carried.
Qed.
End beside.

(** * FreeRTOS-Plus-TCP *)

Section over_plus.
Context {E : Type} `{HT : ErrorTap E} `{HS : PlusSockets E} (codes : plus_tcp_codes).
Abbreviation put_plus := (fun e w => w <| pw_Env := e |>).
(** A collector reading the frames off the bytes the stack took finds the records the
    sender delivered. *)
Definition reaches_plus (frame : bytes) : Prop :=
  forall resolver address endpoint endpointVersion context self config e inputs, Forall ts_input_ok inputs ->
  let '(answers, w') := sends_over pw_Env put_plus frame (over_stack pw_Env put_plus (PlusTcpTcpStream_vtable codes) resolver address endpoint endpointVersion context)
    self (plus_fresh codes config e) inputs in
  map fst answers = records_of inputs /\ exists s, plus_observed codes (pw_Trace (sn_Env w')) = Some s /\ records_on answers (ps_Wires s).
Lemma plus_reaches frame : OCTET_COUNTING_PREFIX_CAPACITY <= lenZ frame -> plus_sockets_ok codes -> reaches_plus frame.
Proof using.
  intros Hframe SO resolver address endpoint endpointVersion context self config e inputs Hi. destruct (plus_fresh_ok codes config e) as [Hok H0].
  pose proof (stack_delivers pw_Env put_plus (plus_ok codes) (open_in (plus_state codes)) any_size (wires_in (plus_state codes))
    ltac:(done) ltac:(intros event w Hw; exact (conj Hw (conj eq_refl (fun H => H)))) frame (PlusTcpTcpStream_vtable codes) resolver address endpoint endpointVersion context self
    (plus_fresh codes config e) inputs Hframe (contract_tells _ _ _ _ _ _ _ (plus_stream_keeps_contract codes SO) (fun _ _ _ => I)) ltac:(done) Hi) as HB.
  destruct (sends_over _ _ _ _ _ _ _) as [answers w']. destruct HB as (Hr & (_ & s & Hs & _) & Hon); [| done | unfold wires_in; by rewrite H0 |].
  { eapply List.Forall_impl; [| exact Hi]. by intros []. }
  split; [done |]. exists s. split; [done |]. unfold wires_in, plus_state, plus_seen_of in Hon. by rewrite Hs in Hon.
Qed.
End over_plus.

(** * lwIP's raw interface *)

Section over_raw.
Context {E : Type} `{HT : ErrorTap E} `{HS : RawTcp E} (codes : lwip_codes).
Abbreviation put_raw := (fun e w => w <| rw_Env := e |>).
Definition raw_in_order (w : raw_world E) : Prop := exists v reports, raw_shows codes v reports w.
Definition raw_wires (w : raw_world E) : list bytes := match raw_observed codes (rw_Trace w) with Some s => rn_Wires s | None => [] end.
(** Once a connection was made, there is one to be the last. *)
Definition raw_linked (w : raw_world E) : Prop := raw_wires w <> [].
Definition raw_fits (size : Z) : Prop := 0 <= size < 2 ^ 16.
Lemma raw_wires_view v reports w : raw_shows codes v reports w -> raw_wires w = rv_Wires v.
Proof using. intros (_ & s & Ho & _ & <- & _). unfold raw_wires. by rewrite Ho. Qed.
Lemma amid_wires (R : raw_view -> raw_view -> Prop) (P : list bytes -> list bytes -> Prop) v v' :
  (forall v v', R v v' -> P (rv_Wires v) (rv_Wires v')) -> amid R v v' -> P (rv_Wires v) (rv_Wires v').
Proof using.
  intros HR (v1 & v2 & H1 & H12 & H2). apply HR in H12. by rewrite (proj2 (drift_keeps _ _ H1)), (proj2 (drift_keeps _ _ H2)) in *.
Qed.
Lemma last_wire (ws : list bytes) : ws <> [] -> exists before conn, ws = before ++ [conn].
Proof using. intros Hw. destruct (exists_last Hw) as (before & conn & ->). eauto. Qed.
Lemma extend_last_some ws data : ws <> [] -> extend_last ws data <> [].
Proof using. intros Hw. destruct (last_wire ws Hw) as (before & conn & ->). rewrite extend_last_snoc. by destruct before. Qed.
Lemma raw_tells variant marshal : raw_tcp_ok codes -> raw_marshal_ok codes marshal ->
  stream_tells (LwipRawTcpStream_vtable codes variant marshal) raw_in_order raw_linked raw_fits raw_wires.
Proof using.
  intros OK MR. unfold raw_linked. constructor.
  - intros addr w (v & reports & Hw). eapply wp_mono; [by apply raw_open_shows |]. intros b w' (v' & es & Hw' & HR).
    split; [by eexists _, _ |]. rewrite (raw_wires_view _ _ _ Hw), (raw_wires_view _ _ _ Hw').
    apply (amid_wires _ (fun ws ws' => ws' = if b then ws ++ [[]] else ws)) in HR.
    + rewrite HR. split; [by left; destruct b |]. destruct b; [| done]. assert (rv_Wires v ++ [[]] <> []) by (by destruct (rv_Wires v)). done.
    + clear. intros v v' Ho. inversion Ho as [| u severity hasNative detail native Hd Hu |]; subst; [done | | done]. exact (proj2 (drift_keeps _ _ Hu)).
  - intros data len w (v & reports & Hw) Hl Hf. eapply wp_mono; [by apply raw_send_shows |]. intros b w' (v' & Hw' & HR).
    split; [by eexists _, _ |]. rewrite (raw_wires_view _ _ _ Hw) in *. rewrite (raw_wires_view _ _ _ Hw').
    apply (amid_wires _ (fun ws ws' => ws' = extend_last ws (takeZ len data) \/ b = false /\ ws' = ws)) in HR.
    + destruct (last_wire _ Hl) as (before & conn & Ew). rewrite Ew, extend_last_snoc in HR. rewrite Ew. destruct HR as [-> | [-> ->]]; (split; [left |]).
      * destruct b; [by exists before, conn | exists before, conn, (takeZ len data), []; by rewrite app_nil_r].
      * intros _. by destruct before.
      * exists before, conn, [], (takeZ len data). by rewrite app_nil_r.
      * done.
    + clear. intros v v' Hs. inversion Hs as [Hu | wires Hd |]; subst; [by left | | by right]. destruct Hd as [-> | ->]; [by right | by left].
  - intros w (v & reports & Hw). eapply wp_mono; [by apply raw_close_shows |]. intros [] w' (v' & Hw' & HR).
    split; [by eexists _, _ |]. rewrite (raw_wires_view _ _ _ Hw), (raw_wires_view _ _ _ Hw').
    apply (amid_wires _ (fun ws ws' => ws' = ws)) in HR; [done |]. by intros ? ? ->.
  - intros w (v & reports & Hw). unfold wp. rewrite (raw_version_shows codes variant marshal v reports w Hw). cbn [fst snd]. split; [by eexists _, _ | done].
Qed.
(** As over FreeRTOS-Plus-TCP, whatever the stack's thread does meanwhile. *)
Definition reaches_raw (frame : bytes) (variant : keepalive_variant) (marshal : SolidSyslogLwipRawMarshalFunction (raw_world E)) : Prop :=
  forall resolver address endpoint endpointVersion context self config e inputs, Forall ts_input_ok inputs -> Forall (record_fits raw_fits) inputs ->
  let '(answers, w') := sends_over rw_Env put_raw frame (over_stack rw_Env put_raw (LwipRawTcpStream_vtable codes variant marshal) resolver address endpoint endpointVersion context)
    self (mkRawWorld (SolidSyslogLwipRawTcpStream_Initialise codes config) [] e []) inputs in
  map fst answers = records_of inputs /\ exists s, raw_observed codes (rw_Trace (sn_Env w')) = Some s /\ records_on answers (rn_Wires s).
Lemma raw_reaches frame variant marshal : OCTET_COUNTING_PREFIX_CAPACITY <= lenZ frame -> raw_tcp_ok codes -> raw_marshal_ok codes marshal -> reaches_raw frame variant marshal.
Proof using.
  intros Hframe OK MR resolver address endpoint endpointVersion context self config e inputs Hi Hf.
  assert (Hput : forall event (w : raw_world E), raw_in_order w -> raw_in_order (put_raw event w)) by (intros event w (v & reports & Hw); by exists v, reports).
  pose proof (stack_delivers rw_Env put_raw raw_in_order raw_linked raw_fits raw_wires
    (fun e w Hw => conj (Hput e w Hw) (conj eq_refl (fun H => H))) (fun event w Hw => conj (Hput _ w Hw) (conj eq_refl (fun H => H)))
    frame (LwipRawTcpStream_vtable codes variant marshal) resolver address endpoint endpointVersion context self
    (mkRawWorld (SolidSyslogLwipRawTcpStream_Initialise codes config) [] e []) inputs Hframe (raw_tells variant marshal OK MR)) as HB.
  destruct (sends_over _ _ _ _ _ _ _) as [answers w']. destruct HB as (Hr & (v & reports & Hw) & Hon); try done.
  - intros len. change OCTET_COUNTING_PREFIX_CAPACITY with 12. unfold raw_fits. lia.
  - eexists _, _. apply Initialise_shows.
  - split; [done |]. destruct Hw as (_ & s & Hs & _). exists s. split; [done |]. unfold raw_wires in Hon. by rewrite Hs in Hon.
Qed.
End over_raw.

(** C14. From Send to the stack, over FreeRTOS-Plus-TCP and over lwIP's raw interface: in
    any run of records, disconnections and changes of the environment, whatever the stack,
    the resolver and the endpoint's callbacks answer, and, over lwIP, whatever its thread
    calls back between any two steps, the bytes the stack accepted on each connection,
    read as octet-counted frames, are exactly the records Send answered true for, in order
    and each once, but that the last frame of a connection may be of a record Send
    answered false for. *)
Theorem records_reach_the_embedded_stacks {P R : Type} `{HTP : ErrorTap P} `{HSP : PlusSockets P} `{HTR : ErrorTap R} `{HSR : RawTcp R}
    (plus_codes : plus_tcp_codes) (raw_codes : lwip_codes) (frame : bytes) : OCTET_COUNTING_PREFIX_CAPACITY <= lenZ frame ->
  (plus_sockets_ok (E := P) plus_codes -> reaches_plus (E := P) plus_codes frame) /\
  (raw_tcp_ok (E := R) raw_codes -> forall variant marshal, raw_marshal_ok raw_codes marshal -> reaches_raw raw_codes frame variant marshal).
Proof.
  intros Hframe. split; [by apply plus_reaches |]. intros OK variant marshal MR. by apply raw_reaches.
Qed.

(** Over FreeRTOS-Plus-TCP, the second record finds room for a part, and goes again when
    there is more; over lwIP, the connection is lost under it, and it goes again on the
    next. *)
Definition over_small_plus : @SolidSyslogStreamSenderConfig (plus_world small_plus) :=
  over_stack pw_Env (fun e w => w <| pw_Env := e |>) (PlusTcpTcpStream_vtable small_plus_codes)
    {| SolidSyslogResolver_Resolve := fun _ _ _ _ => st_ret true |} 1 None None None.
Definition over_small_raw : @SolidSyslogStreamSenderConfig (raw_world small_tcp) :=
  over_stack rw_Env (fun e w => w <| rw_Env := e |>) (LwipRawTcpStream_vtable small_lwip_codes KeepaliveAll Marshal_NullMarshal)
    {| SolidSyslogResolver_Resolve := fun _ _ _ _ => st_ret true |} 1 None None None.
Abbreviation plus_delivery := (sends_over pw_Env (fun e w => w <| pw_Env := e |>) a_prefix_area over_small_plus (mkStreamSender NullSenderVtable over_small_plus false false 0 0)
  (plus_fresh small_plus_codes None (mkSmallPlus true 8 initial_slots))
  [SendRecord (str "one") 3; SendRecord (str "two") 3; Meanwhile (fun n => n <| sx_Room := 100 |>); SendRecord (str "two") 3; DisconnectNow]).
Abbreviation raw_delivery := (sends_over rw_Env (fun e w => w <| rw_Env := e |>) a_prefix_area over_small_raw (mkStreamSender NullSenderVtable over_small_raw false false 0 0)
  (a_small_tcp [Idle; Accepts; Idle; Idle; Idle; Idle; Idle; Idle; Idle; Drops; Idle; Idle; Idle; Accepts])
  [SendRecord (str "one") 3; SendRecord (str "two") 3; SendRecord (str "two") 3; DisconnectNow]).
Lemma records_reach_the_embedded_stacks_witness :
  map snd (fst plus_delivery) = [true; false; true] /\
  option_map ps_Wires (plus_observed small_plus_codes (pw_Trace (sn_Env (snd plus_delivery)))) = Some [str "3 one3 t"; str "3 two"] /\
  map snd (fst raw_delivery) = [true; false; true] /\
  option_map rn_Wires (raw_observed small_lwip_codes (rw_Trace (sn_Env (snd raw_delivery)))) = Some [str "3 one3 "; str "3 two"] /\
  reaches_plus (E := small_plus) small_plus_codes a_prefix_area /\
  reaches_raw (E := small_tcp) small_lwip_codes a_prefix_area KeepaliveAll Marshal_NullMarshal.
Proof.
  do 4 (split; [by vm_compute |]).
  destruct (records_reach_the_embedded_stacks (P := small_plus) (R := small_tcp) small_plus_codes small_lwip_codes a_prefix_area ltac:(by vm_compute)) as [HP HR].
  exact (conj (HP small_plus_ok) (HR small_tcp_ok KeepaliveAll Marshal_NullMarshal null_marshal_ok)).
Defined.
