(* ===== verification/DatagramDelivery.v ===== *)
(** A UDP sender over any datagram that keeps the contract of [DatagramContract]: the
    datagrams the stack took are those of the records the sender said it delivered.
    Where [Senders] reads the trace of the sender, this reads the stack: with [Datagrams]
    it is a statement about what each of six stacks accepted. *)
From S2P Require Import Prelude Errors PendingEvents Interfaces Utf8 Formatter SdWriters Transport TcpStreams DatagramContract Datagrams Senders.

(** * What becomes of a record, at the stack *)

(** What the stack is left with. *)
Definition carried_datagrams (record : bytes) (fate : us_fate) : list bytes :=
  match fate with
  | Whole => [record]
  | Trimmed n => [takeZ n record]
  | Discarded | Kept => []
  end.
(** What Send answered, and where a record was cut. *)
Definition fate_told (answer : bytes * bool) (fate : us_fate) : Prop :=
  snd answer = bool_decide (fate <> Kept) /\
  match fate with
  | Trimmed n => 0 < n <= lenZ (fst answer) /\ valid_utf8 (takeZ n (fst answer))
  | _ => True
  end.
Definition carried_by (answers : list (bytes * bool)) (fates : list us_fate) : list bytes :=
  concat (zip_with (fun answer => carried_datagrams (fst answer)) answers fates).

Lemma datagrams_app es1 es2 : datagrams (es1 ++ es2) = datagrams es1 ++ datagrams es2.
Proof. unfold datagrams. by rewrite map_app, concat_app. Qed.
Lemma datagrams_none es : Forall (fun e => match e with Offered _ _ => False | _ => True end) es -> datagrams es = [].
Proof. induction 1 as [| e es He _ IH]; [done |]. unfold datagrams in *. cbn. rewrite IH. by destruct e. Qed.
Lemma refused_none record es : refused record es -> datagrams es = [].
Proof. by intros []. Qed.
Lemma transmits_carries record es fate : transmits record es fate -> datagrams es = carried_datagrams record fate.
Proof.
  intros Ht. destruct Ht as [| | es limit Hr | es limit n result Hr]; [done | done | |]; rewrite datagrams_app, (refused_none _ _ Hr); [done |].
  by destruct result.
Qed.
(** A record is cut only where the whole of it would not go. *)
Lemma transmits_cut record es fate n : transmits record es fate -> fate = Trimmed n -> 0 < n <= lenZ record /\ valid_utf8 (takeZ n record).
Proof.
  intros [| | ? ? ? | es' limit n' result Hr Hn (Hl & _ & Hv & _)]; try done. destruct result; try done. intros [= <-]. split; [lia | done].
Qed.
Lemma link_none es : Forall link_event es -> datagrams es = [].
Proof. intros Hs. apply datagrams_none. eapply Forall_impl; [| exact Hs]. by intros []. Qed.
Lemma raises_none es : Forall (fun e => match e with Raised _ _ _ => True | _ => False end) es -> datagrams es = [].
Proof. intros Hs. apply datagrams_none. eapply Forall_impl; [| exact Hs]. by intros []. Qed.
Lemma one_send_carries healthy reported record es fate : one_send healthy reported record es fate ->
  datagrams es = carried_datagrams record fate /\ fate_told (record, bool_decide (fate_result fate <> SOLIDSYSLOG_DATAGRAM_SEND_RESULT_FAILED)) fate.
Proof.
  intros (settling & tx & Hs & Htx & ->). rewrite !datagrams_app, (link_none _ Hs), (raises_none _ (loss_raises reported fate)), (raises_none (edge_reports healthy fate)) by apply health_raises.
  rewrite !app_nil_r. cbn [app]. destruct Htx as [Ht | [-> ->]]; [| done]. split; [by apply transmits_carries |].
  split; [by destruct fate |]. destruct fate; try done. by eapply transmits_cut.
Qed.
Lemma story_carries healthy reported es answers : udp_story healthy reported es answers ->
  exists fates, Forall2 fate_told answers fates /\ datagrams es = carried_by answers fates.
Proof.
  induction 1 as [| healthy reported record es fate rest answers Ho _ (fates & Hf & IH) | healthy reported rest answers _ IH].
  - by exists [].
  - destruct (one_send_carries _ _ _ _ _ Ho) as [Hd Ht]. exists (fate :: fates). split; [by constructor |]. by rewrite datagrams_app, Hd, IH.
  - exact IH.
Qed.

(** * The sender in its environment *)

Section delivery.
Context {E : Type} `{HT : ErrorTap E} (frame : bytes).
Context (kind : datagram_kind) (ok : E -> Prop) (state : E -> datagram_state) (reports : E -> list SolidSyslogErrorEvent) (dest : SolidSyslogAddress -> E -> Z).
Context (config : @SolidSyslogUdpSenderConfig E) (DC : datagram_contract kind (uc_Datagram config) ok state reports dest).

(** What is not the datagram leaves it alone. *)
Definition datagram_apart {A} (m : ST E A) : Prop := forall e, ok e -> ok (snd (m e)) /\ state (snd (m e)) = state e.
Record surroundings_apart : Prop := {
  udp_resolver_apart : forall transport host port addr, datagram_apart (SolidSyslogResolver_Resolve (SolidSyslogResolver := uc_Resolver config) transport host port addr);
  udp_endpoint_apart : datagram_apart (uc_Endpoint config (uc_EndpointContext config));
  udp_version_apart : forall f, uc_EndpointVersion config = Some f -> datagram_apart (f (uc_EndpointContext config));
  udp_tap_apart : forall event, datagram_apart (st_mod (tap_emit event))
}.
Context (SA : surroundings_apart).

Abbreviation own_config := (us_Config (SolidSyslogUdpSender_Initialise config (mkUdpSender OwnVtable config false false false 0))).
Abbreviation world := (@us_world E).
Implicit Types (w : world) (self : @SolidSyslogUdpSender E).
(** The stack has taken what the trace says, since [before]. *)
Context (before : list bytes).
Definition stack_told w : Prop :=
  ok (sn_Env w) /\ us_Config (sn_Self w) = own_config /\ da_Sent (state (sn_Env w)) = before ++ datagrams (sn_Trace w).
(** Besides, a sender that takes itself for connected has an open datagram. *)
Definition stack_follows w : Prop := stack_told w /\ (us_Connected (sn_Self w) = true -> da_Open (state (sn_Env w)) = true).

Lemma dfollow_set f : (forall self, us_Config (f self) = us_Config self) -> (forall self, us_Connected (f self) = true -> us_Connected self = true) ->
  preserves stack_follows (sn_set (E := E) f).
Proof using. intros Hf Hn w [(Ho & Hc & Ht) Hl]. cbn. split; [| by intros Hs%Hn%Hl]. split; [done |]. split; [cbn; by rewrite Hf | done]. Qed.
Lemma dfollow_happens e : datagrams [e] = [] -> preserves stack_follows (sn_happens (S := SolidSyslogUdpSender) (E := E) e).
Proof using.
  intros He w [(Ho & Hc & Ht) Hl]. split; [| exact Hl]. split; [done |]. split; [done |].
  change (da_Sent (state (sn_Env w)) = before ++ datagrams (sn_Trace w ++ [e])). by rewrite datagrams_app, He, app_nil_r.
Qed.
Lemma dfollow_env {A} (m : ST E A) : datagram_apart m -> preserves stack_follows (sn_env (S := SolidSyslogUdpSender) m).
Proof using.
  intros Hm w [(Ho & Hc & Ht) Hl]. unfold sn_env, zoom. specialize (Hm (sn_Env w) Ho). destruct (m (sn_Env w)) as [a e]. cbn in *.
  destruct Hm as [Ho' Es]. split; [| cbn; by rewrite Es]. split; [done |]. split; [done |]. cbn. by rewrite Es.
Qed.
(** A call of the datagram: what it says is what the stack took, and what else is known
    of it. *)
Definition dtold_call {A} (m : SolidSyslogUdpSender -> ST E A) (said : A -> sn_event) (P : E -> Prop) (R : E -> A -> E -> Prop) : Prop :=
  forall self e, us_Config self = own_config -> ok e -> P e ->
    let '(a, e') := m self e in ok e' /\ da_Sent (state e') = da_Sent (state e) ++ datagrams [said a] /\ R e a e'.
Lemma dcall_told {A} (m : SolidSyslogUdpSender -> ST E A) said P R w (Q : A -> world -> Prop) : dtold_call m said P R -> stack_told w -> P (sn_Env w) ->
  (forall a w', stack_told w' -> sn_Self w' = sn_Self w -> R (sn_Env w) a (sn_Env w') -> Q a w') -> wp (sn_call m said) Q w.
Proof using.
  intros Hm (Ho & Hc & Ht) HP HQ. unfold wp, sn_call, sn_env, zoom, sn_happens, st_bind, st_get, st_mod, st_ret. specialize (Hm (sn_Self w) (sn_Env w) Hc Ho HP).
  destruct (m (sn_Self w) (sn_Env w)) as [a e']. destruct Hm as (Ho' & Hs & HR). apply HQ; [| done | done].
  split; [done |]. split; [done |]. cbn [fst snd sn_Env sn_Trace set_field]. by rewrite Hs, Ht, datagrams_app, app_assoc.
Qed.
Lemma dfollow_call {A} (m : SolidSyslogUdpSender -> ST E A) said :
  dtold_call m said (fun _ => True) (fun e _ e' => da_Open (state e) = true -> da_Open (state e') = true) -> preserves stack_follows (sn_call m said).
Proof using.
  intros Hm w [Hw Hl]. apply (dcall_told m said _ _ w (fun _ => stack_follows) Hm); [done | done |]. intros a w' Hw' Es HR. split; [done |]. rewrite Es. auto.
Qed.
(** A call beside the datagram. *)
Lemma dfollow_call_apart {A} (m : SolidSyslogUdpSender -> ST E A) said : (forall self, us_Config self = own_config -> datagram_apart (m self)) ->
  (forall a, datagrams [said a] = []) -> preserves stack_follows (sn_call m said).
Proof using.
  intros Hm Hs. apply dfollow_call. intros self e Hc Ho _. specialize (Hm self Hc e Ho). destruct (m self e) as [a e']. cbn in Hm. destruct Hm as [Ho' ->].
  by rewrite Hs, app_nil_r.
Qed.
Lemma dapart_bind {A B} (m : ST E A) (k : A -> ST E B) : datagram_apart m -> (forall a, datagram_apart (k a)) -> datagram_apart (let! a := m in k a).
Proof using.
  intros Hm Hk e Ho. unfold st_bind. specialize (Hm e Ho). destruct (m e) as [a e1]. cbn in Hm. destruct Hm as [Ho1 <-]. by apply Hk.
Qed.
Lemma dapart_ret {A} (a : A) : datagram_apart (st_ret a).
Proof using. by intros e Ho. Qed.

(** ** The datagram's calls *)

Lemma config_datagram : uc_Datagram own_config = uc_Datagram config.
Proof using. unfold SolidSyslogUdpSender_Initialise. by destruct (uc_EndpointVersion _). Qed.
Lemma config_resolver : uc_Resolver own_config = uc_Resolver config.
Proof using. unfold SolidSyslogUdpSender_Initialise. by destruct (uc_EndpointVersion _). Qed.
Lemma config_endpoint : uc_Endpoint own_config = uc_Endpoint config /\ uc_EndpointContext own_config = uc_EndpointContext config.
Proof using. unfold SolidSyslogUdpSender_Initialise. by destruct (uc_EndpointVersion _). Qed.
Lemma datagram_open_told : dtold_call (fun self => SolidSyslogDatagram_Open (SolidSyslogDatagram := uc_Datagram (us_Config self))) Opened (fun _ => True)
  (fun e b e' => (da_Open (state e) = true -> da_Open (state e') = true) /\ (b = true -> da_Open (state e') = true)).
Proof using DC.
  intros self e -> Ho _. rewrite config_datagram. pose proof (datagram_Open _ _ _ _ _ _ DC e Ho) as H. unfold wp in H.
  destruct (SolidSyslogDatagram_Open e) as [b e']. cbn [fst snd] in H. destruct H as (Ho' & rs & Hopen & _). split; [done |].
  inversion Hopen as [Hop E1 E2 E3 | b' Hop E1 E2 E3]; subst; rewrite app_nil_r; [by rewrite E3 | split; [done |]; cbn; by rewrite Hop].
Qed.
Lemma datagram_close_told : dtold_call (fun self => SolidSyslogDatagram_Close (SolidSyslogDatagram := uc_Datagram (us_Config self))) (fun _ => Closed) (fun _ => True) (fun _ _ _ => True).
Proof using DC.
  intros self e -> Ho _. rewrite config_datagram. pose proof (datagram_Close _ _ _ _ _ _ DC e Ho) as H. unfold wp in H.
  destruct (SolidSyslogDatagram_Close e) as [b e']. cbn [fst snd] in H. destruct H as (Ho' & -> & _). by rewrite app_nil_r.
Qed.
Lemma datagram_limit_told : dtold_call (fun self => SolidSyslogDatagram_MaxPayload (SolidSyslogDatagram := uc_Datagram (us_Config self))) LimitAsked (fun _ => True)
  (fun e n e' => 0 <= n /\ (da_Open (state e) = true -> da_Open (state e') = true)).
Proof using DC.
  intros self e -> Ho _. rewrite config_datagram. pose proof (datagram_MaxPayload _ _ _ _ _ _ DC e Ho) as H. unfold wp in H.
  destruct (SolidSyslogDatagram_MaxPayload e) as [n e']. cbn [fst snd] in H. destruct H as (Ho' & Hn & -> & _). rewrite app_nil_r. split; [done |]. split; [done |]. split; [lia | done].
Qed.
Lemma datagram_send_told buffer n : 0 <= n <= lenZ buffer -> n <= UDP_LENGTH_MAX ->
  dtold_call (fun self => SolidSyslogDatagram_SendTo (SolidSyslogDatagram := uc_Datagram (us_Config self)) buffer n (UdpSender_Address self)) (Offered (takeZ n buffer))
    (fun e => da_Open (state e) = true) (fun e _ e' => da_Open (state e) = true -> da_Open (state e') = true).
Proof using DC.
  intros Hn Hm self e Hc Ho Hop. rewrite Hc, config_datagram. pose proof (datagram_SendTo _ _ _ _ _ _ DC buffer n (UdpSender_Address self) e Ho Hop Hn Hm) as H. unfold wp in H.
  destruct (SolidSyslogDatagram_SendTo buffer n _ e) as [r e']. cbn [fst snd] in H. destruct H as (Ho' & rs & Hh & _). split; [done |].
  inversion Hh as [latch waited Hl Hw E1 E2 E3 | result latch waited Hr Hl Hw E1 E2 E3 | result Hr Hoff E1 E2 E3 | waited native Hk Hl Hw E1 E2 E3 | Hk Hl E1 E2 E3]; subst; cbn; try (by rewrite app_nil_r).
  - by split.
  - destruct r; [done | by rewrite app_nil_r..].
  - destruct r; [done | rewrite app_nil_r; by rewrite E3..].
Qed.

(** ** The sender's operations *)

Lemma preserves_by_wp {S A} (I : S -> Prop) (m : ST S A) : (forall s : S, I s -> wp m (fun _ => I) s) -> preserves I m.
Proof using. done. Qed.
Lemma dfollow_self {A} (k : SolidSyslogUdpSender -> ST world A) :
  (forall self, us_Config self = own_config -> preserves stack_follows (k self)) -> preserves stack_follows (let! self := st_get sn_Self in k self).
Proof using. intros Hk w Hw. unfold st_bind, st_get. apply Hk; [apply Hw | exact Hw]. Qed.
Lemma CloseSocket_follows w : stack_told w -> wp UdpSender_CloseSocket (fun _ w' => stack_follows w') w.
Proof using DC.
  intros Hw. apply wp_bind. eapply dcall_told; [apply datagram_close_told | done | done |].
  intros [] w' (Ho & Hc & Ht) _ _. apply wp_mod. by split.
Qed.
Lemma UdpDisconnect_follows : preserves stack_follows UdpSender_Disconnect.
Proof using DC. apply preserves_bind; [apply preserves_get |]. intros connected. apply preserves_if; [intros w [Hw _]; by apply CloseSocket_follows | apply preserves_ret]. Qed.
Lemma QueryEndpoint_follows formatter : preserves stack_follows (UdpSender_QueryEndpointPort formatter).
Proof using SA.
  apply dfollow_self. intros self Hc. apply preserves_bind; [| intros endpoint; apply preserves_ret]. apply dfollow_env. rewrite Hc.
  destruct config_endpoint as [-> ->]. apply dapart_bind; [apply (udp_endpoint_apart SA) | intros said; apply dapart_ret].
Qed.
Lemma UdpConnect_follows w : stack_follows w -> wp (UdpSender_Connect frame) (fun b w' => stack_follows w' /\ (b = true -> us_Connected (sn_Self w') = true)) w.
Proof using DC SA.
  intros Hw. apply wp_bind. apply (wp_mono _ (fun _ => stack_follows)); [exact (QueryEndpoint_follows _ w Hw) |]. cbv beta. intros endpoint w1 [Hw1 _]. cbv zeta.
  apply wp_bind. eapply dcall_told; [apply datagram_open_told | done | done |]. intros opened w2 Hw2 _ [_ Hop]. apply wp_bind.
  assert (HK : forall (ready : bool) w3, stack_told w3 -> (ready = true -> da_Open (state (sn_Env w3)) = true) ->
    wp ((if ready then sn_set (fun s => s <| us_Connected := true |>) else UdpSender_CloseSocket) ;;; sn_get UdpSender_Connected)
      (fun b w' => stack_follows w' /\ (b = true -> us_Connected (sn_Self w') = true)) w3).
  { intros ready w3 Hw3 Hr. apply wp_bind. apply (wp_mono _ (fun _ => stack_follows)); [| intros [] w4 Hw4; by apply wp_get].
    destruct ready; [apply wp_mod; destruct Hw3 as (Ho & Hc & Ht); split; [by split_and! | cbn; auto] | by apply CloseSocket_follows]. }
  destruct opened; [| apply wp_ret; exact (HK false w2 Hw2 ltac:(done))].
  apply (dcall_told _ _ (fun _ => True) (fun e _ e' => state e' = state e)); [| exact Hw2 | exact I |].
  - intros self e Hc Ho _. rewrite Hc, config_resolver. pose proof (udp_resolver_apart SA SOLIDSYSLOG_TRANSPORT_UDP
      (fst (SolidSyslogFormatter_AsFormattedBuffer (fst endpoint))) (snd endpoint) (UdpSender_Address self) e Ho) as H.
    destruct (SolidSyslogResolver_Resolve _ _ _ _ e) as [b e']. cbn [fst snd] in H. destruct H as [Ho' Es]. split; [done |]. split; [by rewrite Es, app_nil_r |]. exact Es.
  - intros ready w3 Hw3 _ Es. refine (HK ready w3 Hw3 _). intros _. rewrite Es. by apply Hop.
Qed.
Lemma UdpReconcile_follows w : stack_follows w -> wp (UdpSender_Reconcile frame) (fun b w' => stack_follows w' /\ (b = true -> us_Connected (sn_Self w') = true)) w.
Proof using DC SA.
  intros Hw. apply wp_bind.
  assert (Hd : preserves stack_follows UdpSender_DisconnectIfStale).
  { apply preserves_bind.
    - apply dfollow_call_apart; [| done]. intros self Hc. unfold UdpSender_EndpointVersion. rewrite Hc. destruct config_endpoint as [_ ->].
      unfold SolidSyslogUdpSender_Initialise. cbn. destruct (uc_EndpointVersion config) as [f |] eqn:Ef; cbn; [rewrite Ef; by apply (udp_version_apart SA) | apply dapart_ret].
    - intros version. apply preserves_bind; [apply preserves_get |]. intros last. apply preserves_if; [| apply preserves_ret].
      apply preserves_bind; [apply UdpDisconnect_follows | intros _; by apply dfollow_set]. }
  apply (wp_mono _ (fun _ => stack_follows)); [exact (Hd w Hw) |]. cbv beta. intros _ w1 Hw1. apply wp_bind, wp_get.
  unfold UdpSender_Connected. destruct (us_Connected (sn_Self w1)) eqn:Ec; [by apply wp_ret | by apply UdpConnect_follows].
Qed.
(** Data goes while the sender takes itself for connected, which it stays. *)
Definition stack_linked w : Prop := stack_follows w /\ us_Connected (sn_Self w) = true.
Lemma linked_set f : (forall self, us_Config (f self) = us_Config self) -> (forall self, us_Connected (f self) = us_Connected self) ->
  preserves stack_linked (sn_set (E := E) f).
Proof using. intros Hf Hn w [Hw Hc]. split; [refine (dfollow_set f Hf _ w Hw); by intros self; rewrite Hn | cbn; by rewrite Hn]. Qed.
Lemma UdpSendTo_linked buffer n : 0 <= n <= lenZ buffer -> n <= UDP_LENGTH_MAX -> preserves stack_linked (UdpSender_SendTo buffer n).
Proof using DC.
  intros Hn Hm. apply preserves_bind.
  - apply preserves_by_wp. intros w [[Hw Hl] Hc]. eapply dcall_told; [by apply datagram_send_told | exact Hw | by apply Hl |]. intros r w' Hw' Es HR. unfold stack_linked, stack_follows. rewrite Es. auto.
  - intros r. apply preserves_bind; [apply preserves_if; [by apply linked_set | apply preserves_ret] | intros _; apply preserves_ret].
Qed.
Lemma UdpMaxPayload_linked w : stack_linked w -> wp UdpSender_MaxPayload (fun limit w' => stack_linked w' /\ 0 <= limit) w.
Proof using DC.
  intros [[Hw Hl] Hc]. eapply dcall_told; [apply datagram_limit_told | exact Hw | done |]. intros limit w' Hw' Es [Hn HR].
  unfold stack_linked, stack_follows. rewrite Es. split; [split; [split; [done | auto] | done] | done].
Qed.
Lemma ReportRecordTooLarge_linked : preserves stack_linked UdpSender_ReportRecordTooLarge.
Proof using SA.
  apply preserves_bind; [apply preserves_get |]. intros reported. apply preserves_if; [| apply preserves_ret]. apply preserves_bind; [| intros _; by apply linked_set].
  intros w [Hw Hc]. split; [| exact Hc]. refine (dfollow_call_apart _ _ _ _ w Hw); [intros self _; apply (udp_tap_apart SA) | done].
Qed.
Lemma UdpRetry_linked buffer size : 0 <= size <= lenZ buffer -> size <= UDP_LENGTH_MAX -> valid_utf8 (takeZ size buffer) ->
  preserves stack_linked (UdpSender_RetryAfterOversize buffer size).
Proof using DC SA.
  intros Hs Hm Hv. apply preserves_by_wp. intros w Hw. apply wp_bind. eapply wp_mono; [by apply UdpMaxPayload_linked |]. cbv beta. intros limit w1 [Hw1 Hlim]. cbv zeta.
  set (clip := if size <? limit then size else limit). assert (Hc : 0 <= clip <= size) by (unfold clip; destruct (Z.ltb_spec size limit); lia).
  pose proof (TrimToCodepointBoundary_cuts buffer size clip Hv Hc ltac:(lia) ltac:(unfold UDP_LENGTH_MAX, SIZE_MAX in *; lia)) as [Hn _].
  set (n := SolidSyslogUdpPayload_TrimToCodepointBoundary buffer clip) in *. clearbody n clip.
  refine (preserves_bind stack_linked _ _ _ _ w1 Hw1).
  - destruct (0 <? n); [apply UdpSendTo_linked; lia | apply preserves_ret].
  - intros r. apply preserves_bind; [apply preserves_if; [apply ReportRecordTooLarge_linked | apply preserves_ret] | intros _; apply preserves_ret].
Qed.
Lemma UdpTransmit_linked buffer size : 0 <= size <= lenZ buffer -> size <= UDP_LENGTH_MAX -> valid_utf8 (takeZ size buffer) ->
  preserves stack_linked (UdpSender_TransmitDatagram buffer size).
Proof using DC SA.
  intros Hs Hm Hv. apply preserves_bind; [by apply UdpSendTo_linked |]. intros r. apply preserves_bind.
  - apply preserves_if; [| apply preserves_ret]. apply preserves_by_wp. intros w Hw. apply wp_bind. eapply wp_mono; [by apply UdpMaxPayload_linked |]. intros limit w' [Hw' _]. by apply wp_ret.
  - intros over. apply preserves_if; [by apply UdpRetry_linked | apply preserves_ret].
Qed.
Lemma dhealth_apart healthy delivered reporter : datagram_apart (SolidSyslogSenderHealth_Update healthy delivered reporter).
Proof using SA.
  unfold SolidSyslogSenderHealth_Update. destruct (negb _); [| apply dapart_ret].
  apply dapart_bind; [destruct delivered; apply (udp_tap_apart SA) | intros _; apply dapart_ret].
Qed.
Lemma UdpHealth_follows delivered : preserves stack_follows (UdpSender_UpdateDeliveryHealth delivered).
Proof using SA.
  apply preserves_bind; [apply preserves_get |]. intros healthy. apply preserves_bind; [apply dfollow_env, dhealth_apart |]. intros now.
  apply preserves_bind; [by apply dfollow_set |]. intros _. apply preserves_if; [| apply preserves_ret]. apply dfollow_happens. by destruct delivered.
Qed.
(** Sizes, texts, and what happens meanwhile. *)
Definition udp_input_ok (input : sn_input E) : Prop :=
  match input with
  | SendRecord buffer size => 0 <= size <= lenZ buffer /\ size <= UDP_LENGTH_MAX /\ valid_utf8 (takeZ size buffer)
  | DisconnectNow => True
  | Meanwhile change => datagram_apart (st_mod change)
  end.
Lemma UdpSend_follows buffer size : udp_input_ok (SendRecord buffer size) -> preserves stack_follows (UdpSender_Send frame (Some buffer) size).
Proof using DC SA.
  intros (Hs & Hm & Hv). apply preserves_bind.
  - apply preserves_by_wp. intros w Hw. apply wp_bind. eapply wp_mono; [by apply UdpReconcile_follows |]. cbv beta. intros ready w1 [Hw1 Hc]. destruct ready; [| by apply wp_ret].
    apply (wp_mono _ (fun _ => stack_linked)); [apply UdpTransmit_linked; [done.. |]; split; [done | by apply Hc] |]. by intros r w2 [Hw2 _].
  - intros outcome. apply preserves_bind; [apply preserves_if; [apply UdpHealth_follows | apply preserves_ret] | intros _; apply preserves_ret].
Qed.
Lemma udp_feed_follows inputs : Forall udp_input_ok inputs -> preserves stack_follows (sn_feed (UdpSender_vtable frame) inputs).
Proof using DC SA.
  induction 1 as [| input inputs Hi _ IH]; cbn [feed]; [apply preserves_ret |]. destruct input as [buffer size | | change].
  - apply preserves_bind; [| intros taken; apply preserves_bind; [exact IH | intros rest; apply preserves_ret]].
    apply preserves_bind; [apply preserves_get |]. intros []; [by apply UdpSend_follows | apply preserves_ret].
  - apply preserves_bind; [| intros _; exact IH]. apply preserves_bind; [apply preserves_get |]. intros []; [apply UdpDisconnect_follows | apply preserves_ret].
  - apply preserves_bind; [| intros _; exact IH]. apply preserves_mod. intros w [(Ho & Hc & Ht) Hl]. destruct (Hi (sn_Env w) Ho) as [Ho' Es]. cbn in Es.
    split; [| cbn; by rewrite Es]. split; [done |]. split; [done |]. cbn. by rewrite Es.
Qed.
End delivery.

(** What the stack has taken, after any run of a fresh sender. *)
Lemma sender_hands_datagrams {E : Type} `{HT : ErrorTap E} (frame : bytes) kind ok state reports dest (config : @SolidSyslogUdpSenderConfig E) self (e : E) inputs :
  datagram_contract kind (uc_Datagram config) ok state reports dest -> surroundings_apart ok state config ->
  limit_typed (SolidSyslogUdpSender_Initialise config self) -> Forall (udp_input_ok ok state) inputs -> ok e ->
  let '(answers, w') := sn_feed (UdpSender_vtable frame) inputs (us_fresh config self e) in
  map fst answers = records_of inputs /\ ok (sn_Env w') /\
  exists fates, Forall2 fate_told answers fates /\ da_Sent (state (sn_Env w')) = da_Sent (state e) ++ carried_by answers fates.
Proof.
  intros DC SA Hlim Hin Ho. pose proof (feed_answers sn_meanwhile (UdpSender_vtable frame) inputs (us_fresh config self e)) as HA.
  assert (Hown : us_owned (us_fresh config self e)).
  { split; [| split; [| done]]; unfold us_fresh, SolidSyslogUdpSender_Initialise; destruct (uc_EndpointVersion _); (done || (exists initial_link; done)). }
  assert (Hin' : Forall input_ok inputs).
  { eapply Forall_impl; [| exact Hin]. intros [buffer size | | change]; [| done..]. intros (? & ? & ?). split; [done |]. split; [unfold UDP_LENGTH_MAX, SIZE_MAX in *; lia | done]. }
  pose proof (feed_tells frame inputs _ Hin' Hown) as HB.
  pose proof (udp_feed_follows frame kind ok state reports dest config DC SA (da_Sent (state e)) inputs Hin (us_fresh config self e)) as HF.
  unfold wp in HA, HB. destruct (sn_feed _ _ _) as [answers w']. cbn [fst snd] in *. destruct HF as [(Ho' & _ & Ht) _].
  { split; [split; [done |]; split | ]; unfold us_fresh, SolidSyslogUdpSender_Initialise; cbn; rewrite ?app_nil_r; try done;
      by destruct (uc_EndpointVersion config) eqn:Ev; cbn; rewrite ?Ev. }
  destruct HB as (_ & es & Et & Hst). cbn in Et. subst es. destruct (story_carries _ _ _ _ Hst) as (fates & Hf & Hc).
  split; [done |]. split; [done |]. exists fates. by rewrite Ht, Hc.
Qed.

(** * Over the six datagrams *)

Section over_datagrams.
Context {E : Type} `{HT : ErrorTap E} `{HS : DatagramStack E} (codes : datagram_codes) (frame : bytes).

(** What acts on the datagram's environment alone. *)
Definition udp_resolver_beside (resolver : SolidSyslogResolver E) : SolidSyslogResolver (dg_world E) := {|
  SolidSyslogResolver_Resolve := fun transport host port addr => dg_env (SolidSyslogResolver_Resolve (SolidSyslogResolver := resolver) transport host port addr)
|}.
Definition udp_input_beside (input : sn_input E) : sn_input (dg_world E) :=
  match input with
  | SendRecord buffer size => SendRecord buffer size
  | DisconnectNow => DisconnectNow
  | Meanwhile change => Meanwhile (fun w => w <| dw_Env := change (dw_Env w) |>)
  end.
(** A sender's configuration over a datagram. *)
Definition over_datagram (datagram : SolidSyslogDatagram (dg_world E)) (resolver : SolidSyslogResolver E) (address : SolidSyslogAddress)
    (endpoint : SolidSyslogEndpointFunction E) (endpointVersion : option (SolidSyslogEndpointVersionFunction E)) (context : option Z)
    : @SolidSyslogUdpSenderConfig (dg_world E) :=
  mkUdpSenderConfig (udp_resolver_beside resolver) datagram address
    (fun context => dg_env (endpoint context)) (option_map (fun f context => dg_env (f context)) endpointVersion) context.
Lemma beside_datagram D {A} (m : ST E A) : datagram_apart (dg_ok codes D) (dg_state codes D) (dg_env m).
Proof using. intros w Hw. unfold dg_env, zoom. by destruct (m (dw_Env w)) as [a e]. Qed.
Lemma over_datagram_apart D datagram resolver address endpoint endpointVersion context :
  surroundings_apart (dg_ok codes D) (dg_state codes D) (over_datagram datagram resolver address endpoint endpointVersion context).
Proof using.
  constructor; cbn.
  - intros. apply beside_datagram.
  - apply beside_datagram.
  - intros f Hf. destruct endpointVersion; [| done]. injection Hf as <-. apply beside_datagram.
  - intros event w Hw. exact (conj Hw eq_refl).
Qed.

(** A record fits a datagram, and is text. *)
Definition udp_record_ok (input : sn_input E) : Prop :=
  match input with
  | SendRecord buffer size => 0 <= size <= lenZ buffer /\ size <= UDP_LENGTH_MAX /\ valid_utf8 (takeZ size buffer)
  | _ => True
  end.
Lemma beside_records_ok D inputs : Forall udp_record_ok inputs -> Forall (udp_input_ok (dg_ok codes D) (dg_state codes D)) (map udp_input_beside inputs).
Proof using. induction 1 as [| input inputs Hi _ IH]; cbn [map]; constructor; [| done]. destruct input; done. Qed.
Lemma records_of_udp inputs : records_of (map udp_input_beside inputs) = records_of inputs.
Proof using. unfold records_of. f_equal. rewrite map_map. apply map_ext. by intros []. Qed.

(** The stack has taken, in order, for each record Send answered true for the record, or
    its cut, or nothing where it was discarded; and nothing for the others. *)
Definition reaches_stack (D : datagram_dialect) (Initialise : @dg_op E unit) (datagram : SolidSyslogDatagram (dg_world E)) : Prop :=
  forall resolver address endpoint endpointVersion context self slot e inputs, Forall udp_record_ok inputs ->
  let '(answers, w') := sn_feed (UdpSender_vtable frame) (map udp_input_beside inputs)
    (us_fresh (over_datagram datagram resolver address endpoint endpointVersion context) self (snd (Initialise (mkDgWorld slot e [])))) in
  map fst answers = records_of inputs /\
  exists s fates, dg_observed codes D (dw_Trace (sn_Env w')) = Some s /\ Forall2 fate_told answers fates /\ dn_Sent s = carried_by answers fates.
(** Its limit is a [size_t]. *)
Definition limit_is_size (datagram : SolidSyslogDatagram (dg_world E)) : Prop := forall w, 0 <= fst (SolidSyslogDatagram_MaxPayload (SolidSyslogDatagram := datagram) w).
Definition starts_empty (Initialise : @dg_op E unit) : Prop := forall slot e, dw_Trace (snd (Initialise (mkDgWorld slot e []))) = [].
Lemma keeps_reaches_stack D Initialise datagram cleanup : keeps_datagram_contract codes D Initialise datagram cleanup -> limit_is_size datagram -> starts_empty Initialise ->
  reaches_stack D Initialise datagram.
Proof using.
  intros (DC & HI & _) Hlim H0 resolver address endpoint endpointVersion context self slot e inputs Hi.
  assert (Hlt : limit_typed (SolidSyslogUdpSender_Initialise (over_datagram datagram resolver address endpoint endpointVersion context) self)).
  { intros w. unfold SolidSyslogUdpSender_Initialise, over_datagram. cbn. destruct endpointVersion; apply Hlim. }
  pose proof (sender_hands_datagrams frame _ _ _ _ _ (over_datagram datagram resolver address endpoint endpointVersion context) self
    (snd (Initialise (mkDgWorld slot e []))) (map udp_input_beside inputs) DC (over_datagram_apart D _ _ _ _ _ _) Hlt (beside_records_ok D inputs Hi) (HI slot e)) as HB.
  destruct (sn_feed _ _ _) as [answers w']. destruct HB as (Er & (_ & s & Hs & _) & fates & Hf & Hd). rewrite records_of_udp in Er.
  split; [done |]. exists s, fates. split; [done |]. split; [done |]. unfold dg_state, dg_view, dg_seen_of in Hd. rewrite H0, Hs in Hd. exact Hd.
Qed.
Lemma own_limit D Take SendTo Close m : (forall w, 0 <= fst (m w)) -> limit_is_size (Datagram_vtable D Take SendTo m Close).
Proof using. intros Hm w. cbn. unfold st_bind, dg_get, st_get. destruct (dg_Base (dw_Self w)); [apply Hm | by vm_compute]. Qed.
Lemma stated_limit : forall w : dg_world E, 0 <= fst (Datagram_StatedPayload w).
Proof using.
  intros w. unfold Datagram_StatedPayload, SolidSyslogUdpPayload_Stated, size_typed, dg_env, zoom, st_bind, dg_get, st_get.
  destruct (dc_GetPayloadLimit (dg_Config (dw_Self w))) as [f |]; cbn; [| done]. unfold st_bind. destruct (f _ _) as [n e]. cbn.
  destruct (u32 n =? 0); cbn; [done |]. unfold u32. by apply Z.mod_pos_bound.
Qed.
Lemma path_limit D : forall w : dg_world E, 0 <= fst (path_MaxPayload codes D w).
Proof using.
  intros w. unfold path_MaxPayload, dg_call, dg_env, dg_happens, zoom, st_bind, dg_get, st_get, st_mod, st_ret. cbv beta iota.
  destruct (dg_Connected (dw_Self w)); [| by vm_compute]. destruct (ds_getsockopt _ _ _ _) as [a e]. cbn [fst].
  destruct (_ && _); [apply FromMtu_range | by vm_compute].
Qed.

(** C13. From Send to the stack: in any run of records, disconnections and changes of the
    environment, over each of the six datagrams and whatever the stack, the resolver and
    the endpoint's callbacks answer, the datagrams the stack accepted are, in order and
    each once, those of the records Send answered true for - each whole, or cut to valid
    UTF-8, or, where it was discarded, none - and of no other record. *)
Theorem records_reach_the_stacks :
  reaches_stack posix_datagram SolidSyslogPosixDatagram_Initialise (PosixDatagram_vtable codes) /\
  reaches_stack (winsock_datagram codes) (SolidSyslogWinsockDatagram_Initialise codes) (WinsockDatagram_vtable codes) /\
  forall config,
    reaches_stack lwip_socket_datagram (SolidSyslogLwipSocketDatagram_Initialise config) (LwipSocketDatagram_vtable codes) /\
    reaches_stack (vxworks_datagram codes) (SolidSyslogVxWorks64Datagram_Initialise codes config) (VxWorks64Datagram_vtable codes) /\
    reaches_stack (plus_tcp_datagram codes) (SolidSyslogPlusTcpDatagram_Initialise codes config) (PlusTcpDatagram_vtable codes) /\
    forall marshal, runs_in_place marshal ->
      reaches_stack (lwip_raw_datagram codes) (SolidSyslogLwipRawDatagram_Initialise codes config) (LwipRawDatagram_vtable codes marshal).
Proof using.
  split; [eapply keeps_reaches_stack; [apply posix_datagram_keeps | apply own_limit, path_limit | done] |].
  split; [eapply keeps_reaches_stack; [apply winsock_datagram_keeps | apply own_limit, path_limit | done] |]. intros config.
  split; [eapply keeps_reaches_stack; [apply lwip_socket_datagram_keeps | apply own_limit, stated_limit | done] |].
  split; [eapply keeps_reaches_stack; [apply vxworks_datagram_keeps | apply own_limit, stated_limit | done] |].
  split; [eapply keeps_reaches_stack; [apply plus_tcp_datagram_keeps | apply own_limit, stated_limit | done] |]. intros marshal MR.
  eapply keeps_reaches_stack; [by apply lwip_raw_datagram_keeps | apply own_limit, stated_limit | done].
Qed.
End over_datagrams.

(** The path carries forty-eight bytes: the euro sign of the second record is where the
    datagram is full; the network is down for the third. *)
Definition long_record : bytes := repeat 0x61 46 ++ [0xE2; 0x82; 0xAC].
Definition small_net_inputs : list (sn_input small_net) :=
  [SendRecord (str "one") 3; SendRecord long_record 49; Meanwhile (fun n => n <| sm_Up := false |>); SendRecord (str "two") 3;
   Meanwhile (fun n => n <| sm_Up := true |>); SendRecord (str "two") 3; DisconnectNow].
Definition small_net_resolver : SolidSyslogResolver small_net := {| SolidSyslogResolver_Resolve := fun _ _ _ _ => st_ret true |}.
Abbreviation small_udp := (over_datagram (PosixDatagram_vtable small_codes) small_net_resolver 1 (fun _ => st_ret ([(str "collector", 64)], 514)) None None).
Abbreviation small_udp_run := (sn_feed (UdpSender_vtable a_frame) (map udp_input_beside small_net_inputs)
  (us_fresh small_udp (mkUdpSender NullSenderVtable small_udp false false false 0) (snd (SolidSyslogPosixDatagram_Initialise (mkDgWorld a_datagram a_small_net []))))).
Lemma small_records_ok : Forall udp_record_ok small_net_inputs.
Proof.
  repeat (apply Forall_cons_2; [| try apply Forall_nil_2]); try exact I; (split; [by vm_compute |]; split; [by vm_compute |]).
  - exists [0x6F; 0x6E; 0x65]. split; [repeat (apply Forall_cons_2; [left; by vm_compute |]); apply Forall_nil_2 | done].
  - exists (repeat 0x61 46 ++ [0x20AC]). split; [| by vm_compute]. apply Forall_app. split; [apply List.Forall_forall; intros c ->%repeat_spec; left; by vm_compute | constructor; [left; by vm_compute | constructor]].
  - exists [0x74; 0x77; 0x6F]. split; [repeat (apply Forall_cons_2; [left; by vm_compute |]); apply Forall_nil_2 | done].
  - exists [0x74; 0x77; 0x6F]. split; [repeat (apply Forall_cons_2; [left; by vm_compute |]); apply Forall_nil_2 | done].
Qed.
Lemma records_reach_the_stacks_witness :
  map snd (fst small_udp_run) = [true; true; false; true] /\
  option_map dn_Sent (dg_observed small_codes posix_datagram (dw_Trace (sn_Env (snd small_udp_run)))) = Some [str "one"; repeat 0x61 46; str "two"] /\
  reaches_stack small_codes a_frame (lwip_raw_datagram small_codes) (SolidSyslogLwipRawDatagram_Initialise small_codes None) (LwipRawDatagram_vtable small_codes Marshal_NullMarshal) (E := small_net) /\
  Forall udp_record_ok small_net_inputs /\
  reaches_stack small_codes a_frame posix_datagram SolidSyslogPosixDatagram_Initialise (PosixDatagram_vtable small_codes) (E := small_net).
Proof.
  split; [by vm_compute |]. split; [by vm_compute |].
  split; [exact (proj2 (proj2 (proj2 (proj2 (proj2 (records_reach_the_stacks small_codes a_frame)) None))) Marshal_NullMarshal null_runs_in_place) |].
  split; [exact small_records_ok | exact (proj1 (records_reach_the_stacks small_codes a_frame))].
Defined.
