(* ===== verification/TlsDelivery.v ===== *)
(** What holds of each of the three TLS streams: the contract of a stream, the protocol of
    its library, and, under a stream sender, that the records the sender delivered are
    what the library's sessions took.  The work is done in [TlsStreams], once for every
    pack, and in [StreamDelivery], once for every stream that keeps the contract. *)
From S2P Require Import Prelude Errors PendingEvents Interfaces TlsFingerprint Transport StreamContract TcpStreams TlsStreams Senders StreamDelivery OpenSslStream MbedTlsStream WolfSslStream.

(** * A sender over any pack *)

Section over_tls.
Context {C V R H N P E L : Type} `{HT : ErrorTap E} (LP : lib_protocol C L).
Context (IsOpen : tls_stream H N P E -> bool) (Idle Live : L -> H -> Prop).
Abbreviation op := (tls_op C V R H N P E).
Abbreviation world := (tls_world C V R H N P E).
Abbreviation ok := (tls_ok (C := C) (V := V) (R := R) (H := H) (N := N) (P := P) (E := E) (L := L) LP Idle Live).
Abbreviation state := (tls_state (C := C) (V := V) (R := R) (H := H) (N := N) (P := P) (E := E) (L := L) LP IsOpen).
Abbreviation linked := (open_in state).
Abbreviation wires := (wires_in state).
Abbreviation apart := (stream_apart ok linked wires).

(** What acts on the TLS stream's environment alone. *)
Definition beside_tls (resolver : SolidSyslogResolver E) : SolidSyslogResolver world := {|
  SolidSyslogResolver_Resolve := fun transport host port addr => tls_env (SolidSyslogResolver_Resolve (SolidSyslogResolver := resolver) transport host port addr)
|}.
Definition input_beside_tls (input : sn_input E) : sn_input world :=
  match input with
  | SendRecord buffer size => SendRecord buffer size
  | DisconnectNow => DisconnectNow
  | Meanwhile change => Meanwhile (fun w => w <| tv_Env := change (tv_Env w) |>)
  end.
(** A sender's configuration over a TLS stream. *)
Definition over_tls (stream : SolidSyslogStream world) (resolver : SolidSyslogResolver E) (address : SolidSyslogAddress)
    (endpoint : option (SolidSyslogEndpointFunction E)) (endpointVersion : option (SolidSyslogEndpointVersionFunction E)) (context : option Z)
    : @SolidSyslogStreamSenderConfig world :=
  mkStreamSenderConfig (beside_tls resolver) stream address
    (option_map (fun f context => tls_env (f context)) endpoint) (option_map (fun f context => tls_env (f context)) endpointVersion) context.

Lemma beside_tls_apart {A} (m : ST E A) : apart (tls_env m).
Proof using. intros w Hw. unfold tls_env, zoom. by destruct (m (tv_Env w)) as [a e]. Qed.
Lemma over_tls_apart stream resolver address endpoint endpointVersion context :
  environment_apart ok linked wires (over_tls stream resolver address endpoint endpointVersion context).
Proof using.
  constructor; cbn.
  - intros. apply beside_tls_apart.
  - intros f Hf. destruct endpoint; [| done]. injection Hf as <-. apply beside_tls_apart.
  - intros f Hf. destruct endpointVersion; [| done]. injection Hf as <-. apply beside_tls_apart.
  - intros event w Hw. exact (conj Hw (conj eq_refl (fun H => H))).
Qed.
Lemma records_beside_tls inputs : records_of (map input_beside_tls inputs) = records_of inputs.
Proof using. unfold records_of. f_equal. rewrite map_map. apply map_ext. by intros []. Qed.
Lemma inputs_beside_tls_ok inputs : Forall ts_input_ok inputs ->
  Forall ts_input_ok (map input_beside_tls inputs) /\ Forall (input_apart ok linked any_size wires) (map input_beside_tls inputs).
Proof using.
  induction 1 as [| input inputs Hi _ [IH1 IH2]]; cbn [map]; [by split |]. split; constructor; try done; destruct input; try done.
  cbn in Hi |- *. unfold SIZE_MAX in Hi. split; [lia | done].
Qed.

(** A collector reading the frames off what the sessions took finds the records the
    sender delivered. *)
Definition reaches_sessions (frame : bytes) (Initialise : tls_config P E -> op unit) (stream : SolidSyslogStream world) : Prop :=
  forall resolver address endpoint endpointVersion context self config slot e inputs, Forall ts_input_ok inputs ->
  let '(answers, w') := sn_feed (StreamSender_vtable frame) (map input_beside_tls inputs)
    (ts_fresh (over_tls stream resolver address endpoint endpointVersion context) self (snd (Initialise config (mkTlsWorld slot e [])))) in
  map fst answers = records_of inputs /\
  exists s carried, tls_observed LP (tv_Trace (sn_Env w')) = Some s /\ concat carried = delivered answers /\
    Forall2 (fun records session => read_frames session = records \/
      exists r, r ∈ undelivered answers /\ read_frames session = records ++ [r]) carried (tn_Wires s).

Context `{HL : TlsLibrary C V R E} (K : tls_pack C V R H N P E).
Context (Establish : SolidSyslogAddress -> op bool) (NothingYet : Z -> op bool) (Close : op unit) (Linked : L -> H -> Prop).
Context (PK : pack_ok K LP IsOpen Establish NothingYet Close Idle Live Linked).
Context (Initialise : tls_config P E -> op unit) (HI : initialises (C := C) (V := V) (R := R) (N := N) (P := P) (E := E) LP Idle Initialise).
Abbreviation vtable := (TlsStream_vtable K NothingYet Close (TlsStream_Open K IsOpen Establish)).

Lemma initialised_wires config slot e : st_Wires (tls_state LP IsOpen (snd (Initialise config (mkTlsWorld slot e [])))) = [].
Proof using HI.
  pose proof (HI config slot (mkTlsWorld slot e [])) as (self' & s' & [_ Ho] & (inst & p & Hd & n & lib & bu & te & _ & -> & _)); [done |].
  unfold tls_state, tls_view, tls_seen_of. by rewrite Ho.
Qed.
Lemma pack_reaches frame : OCTET_COUNTING_PREFIX_CAPACITY <= lenZ frame -> reaches_sessions frame Initialise vtable.
Proof using PK HI.
  intros Hframe resolver address endpoint endpointVersion context self config slot e inputs Hi.
  destruct (pack_keeps_contract K LP IsOpen Establish NothingYet Close Idle Live Linked PK Initialise HI) as [SC Hok].
  destruct (inputs_beside_tls_ok inputs Hi) as [Hi' Ha].
  set (cfg := over_tls vtable resolver address endpoint endpointVersion context). set (w0 := snd (Initialise config _)).
  pose proof (sender_fills_wires frame Hframe _ _ _ _ cfg (contract_tells _ _ _ _ _ _ _ SC (fun _ _ Ho => Ho)) (fun _ _ => I) (over_tls_apart _ _ _ _ _ _)
    self w0 _ Hi' Ha (Hok config slot e) (initialised_wires config slot e)) as HB.
  destruct (sn_feed _ _ _) as [answers w']. destruct HB as (Er & carried & Hc & Hr & (_ & s & Hs & _)).
  rewrite records_beside_tls in Er. split; [done |].
  exists s, carried. split; [done |]. split; [done |]. unfold wires_in, tls_state, tls_view, tls_seen_of in Hr. by rewrite Hs in Hr.
Qed.
End over_tls.

(** * The three libraries *)

Section three_streams.
Context {E : Type} `{HT : ErrorTap E} `{HO : TlsLibrary openssl_call openssl_given openssl_answer E}
  `{HM : TlsLibrary mbedtls_call mbedtls_given mbedtls_answer E} `{HW : TlsLibrary wolfssl_call wolfssl_given wolfssl_answer E}.
Context (openssl_codes : openssl_codes) (mbedtls_codes : mbedtls_codes) (wolfssl_codes : wolfssl_codes) (build : SolidSyslogWolfSslAnchoredPinCheck).
(** Where a pin is parsed, and where a digest is made. *)
Context (scratch : SolidSyslogTlsFingerprint) (area : bytes) (fits : DIGEST_AREA scratch) (scratch_bytes : all_bytes (fp_Digest scratch))
  (area_fits : lenZ area = SOLIDSYSLOG_TLS_FINGERPRINT_DIGEST_MAX) (area_bytes : all_bytes area).
Abbreviation openssl_initialise := (SolidSyslogOpenSslStream_Initialise (E := E)).
Abbreviation mbedtls_initialise := (SolidSyslogMbedTlsStream_Initialise (E := E)).
Abbreviation wolfssl_initialise := (SolidSyslogWolfSslStream_Initialise (E := E)).
Abbreviation openssl_stream := (OpenSslStream_vtable openssl_codes scratch area).
Abbreviation mbedtls_stream := (MbedTlsStream_vtable mbedtls_codes scratch area).
Abbreviation wolfssl_stream := (WolfSslStream_vtable wolfssl_codes build scratch area).

(** C25. Each of the three TLS streams keeps the contract of a stream, whatever the TLS
    library, the transport, the credentials and the profile's source answer: an Open that
    fails leaves nothing open, and what failed is reported once per run of one detail
    until an Open succeeds; only an Open that failed because the transport would not open,
    or the credentials would not install, is left to these to report; a Send takes the record
    whole or ends the session; a Read answers no more than it was given room for, or ends
    the session; after Close nothing is open. *)
Theorem tls_streams_keep_contract :
  (openssl_ok openssl_codes -> keeps_tls_contract (openssl openssl_codes scratch area) (openssl_protocol openssl_codes)
     OpenSslStream_IsOpen openssl_idle openssl_live openssl_initialise openssl_stream) /\
  (mbedtls_ok mbedtls_codes -> keeps_tls_contract (mbedtls mbedtls_codes scratch area) (mbedtls_protocol mbedtls_codes)
     MbedTlsStream_IsOpen mbedtls_idle mbedtls_live mbedtls_initialise mbedtls_stream) /\
  (wolfssl_ok -> keeps_tls_contract (wolfssl wolfssl_codes build scratch area) (wolfssl_protocol wolfssl_codes)
     WolfSslStream_IsOpen wolfssl_idle wolfssl_live wolfssl_initialise wolfssl_stream).
Proof using fits scratch_bytes area_fits area_bytes.
  split_and!; intros OK; eapply pack_keeps_contract.
  - by apply openssl_pack_ok.
  - apply openssl_initialises.
  - by apply mbedtls_pack_ok.
  - apply mbedtls_initialises.
  - by apply wolfssl_pack_ok.
  - apply wolfssl_initialises.
Qed.

(** C27. In any run of calls each TLS stream keeps the protocol of its library: a context
    or a session is used only between its making and its one release; a session is made, or its
    handshake begun, only with the protocol floor, verification of the peer and the
    callbacks set; the credentials are asked for once per
    session, on the object the session is made from, and released once, after the library
    has let go of it; the transport is closed last; the sleeps of a handshake stay in its
    budget; and a stream that is not open, or was destroyed, holds nothing. *)
Theorem tls_calls_keep_protocol :
  (openssl_ok openssl_codes -> keeps_tls_protocol (openssl_protocol openssl_codes) OpenSslStream_IsOpen openssl_initialise openssl_stream
     (SolidSyslogOpenSslStream_Cleanup openssl_codes scratch area)) /\
  (mbedtls_ok mbedtls_codes -> keeps_tls_protocol (mbedtls_protocol mbedtls_codes) MbedTlsStream_IsOpen mbedtls_initialise mbedtls_stream
     (SolidSyslogMbedTlsStream_Cleanup mbedtls_codes scratch area)) /\
  (wolfssl_ok -> keeps_tls_protocol (wolfssl_protocol wolfssl_codes) WolfSslStream_IsOpen wolfssl_initialise wolfssl_stream
     (SolidSyslogWolfSslStream_Cleanup wolfssl_codes build scratch area)).
Proof using fits scratch_bytes area_fits area_bytes.
  split_and!; intros OK; eapply pack_keeps_protocol.
  - by apply openssl_pack_ok.
  - apply openssl_initialises.
  - by apply mbedtls_pack_ok.
  - apply mbedtls_initialises.
  - by apply wolfssl_pack_ok.
  - apply wolfssl_initialises.
Qed.

(** C12. From Send to the session: in any run of records, disconnections and changes of the
    environment, over each of the three TLS streams and whatever the library, the
    transport, the credentials, the resolver and the endpoint's callbacks answer, what the
    library took for each session, read as octet-counted frames, is exactly the records
    Send answered true for, in order and each once, but that the last frame of a session
    may be of a record Send answered false for. *)
Theorem records_reach_the_tls_sessions (frame : bytes) : OCTET_COUNTING_PREFIX_CAPACITY <= lenZ frame ->
  (openssl_ok openssl_codes -> reaches_sessions (openssl_protocol openssl_codes) frame openssl_initialise openssl_stream) /\
  (mbedtls_ok mbedtls_codes -> reaches_sessions (mbedtls_protocol mbedtls_codes) frame mbedtls_initialise mbedtls_stream) /\
  (wolfssl_ok -> reaches_sessions (wolfssl_protocol wolfssl_codes) frame wolfssl_initialise wolfssl_stream).
Proof using fits scratch_bytes area_fits area_bytes.
  intros Hframe. split_and!; intros OK; eapply pack_reaches.
  - by apply openssl_pack_ok.
  - apply openssl_initialises.
  - done.
  - by apply mbedtls_pack_ok.
  - apply mbedtls_initialises.
  - done.
  - by apply wolfssl_pack_ok.
  - apply wolfssl_initialises.
  - done.
Qed.
End three_streams.

(** * Over the small libraries *)

Definition small_tls_resolver : SolidSyslogResolver small_tls := {| SolidSyslogResolver_Resolve := fun _ _ _ _ => st_ret true |}.
Lemma small_areas : all_bytes (fp_Digest sample_area) /\ all_bytes openssl_area.
Proof. split; repeat constructor; unfold is_byte; lia. Qed.
Definition small_tls_inputs : list (sn_input small_tls) := [SendRecord (str "one") 3; SendRecord (str "two") 3; DisconnectNow; SendRecord (str "three") 5].
Lemma tls_streams_keep_contract_witness :
  fst openssl_opened = true /\ fst mbedtls_opened = true /\ fst wolfssl_opened = true /\
  keeps_tls_contract (openssl openssl_3_codes sample_area openssl_area) (openssl_protocol openssl_3_codes)
    OpenSslStream_IsOpen openssl_idle openssl_live (SolidSyslogOpenSslStream_Initialise (E := small_tls)) (OpenSslStream_vtable openssl_3_codes sample_area openssl_area) /\
  keeps_tls_contract (mbedtls mbedtls_3_codes sample_area openssl_area) (mbedtls_protocol mbedtls_3_codes)
    MbedTlsStream_IsOpen mbedtls_idle mbedtls_live (SolidSyslogMbedTlsStream_Initialise (E := small_tls)) (MbedTlsStream_vtable mbedtls_3_codes sample_area openssl_area) /\
  keeps_tls_contract (wolfssl wolfssl_5_codes SOLIDSYSLOG_WOLFSSL_PIN_BESIDE_ANCHORS_REFUSED sample_area openssl_area) (wolfssl_protocol wolfssl_5_codes)
    WolfSslStream_IsOpen wolfssl_idle wolfssl_live (SolidSyslogWolfSslStream_Initialise (E := small_tls))
    (WolfSslStream_vtable wolfssl_5_codes SOLIDSYSLOG_WOLFSSL_PIN_BESIDE_ANCHORS_REFUSED sample_area openssl_area).
Proof.
  do 3 (split; [by vm_compute |]).
  destruct (tls_streams_keep_contract (E := small_tls) openssl_3_codes mbedtls_3_codes wolfssl_5_codes SOLIDSYSLOG_WOLFSSL_PIN_BESIDE_ANCHORS_REFUSED
    sample_area openssl_area eq_refl (proj1 small_areas) eq_refl (proj2 small_areas)) as (HO & HM & HW).
  exact (conj (HO small_openssl_ok) (conj (HM small_mbedtls_ok) (HW small_wolfssl_ok))).
Defined.

(** Two sessions, the second of which the caller leaves open, and what the library was
    asked to do by then. *)
Definition small_tls_calls : list (stream_input small_tls) :=
  [OpenNow 1; SendNow (str "one") 3; OpenNow 1; CloseNow; OpenNow 1; ReadNow [0; 0] 2].
Abbreviation small_tls_run := (tls_feed OpenSslStream_IsOpen (OpenSslStream_vtable openssl_3_codes sample_area openssl_area)
  (SolidSyslogOpenSslStream_Cleanup openssl_3_codes sample_area openssl_area) small_tls_calls openssl_start).
Lemma tls_calls_keep_protocol_witness :
  length (tv_Trace (snd small_tls_run)) = 72%nat /\ OpenSslStream_IsOpen (tv_Self (snd small_tls_run)) = true /\
  keeps_tls_protocol (openssl_protocol openssl_3_codes) OpenSslStream_IsOpen (SolidSyslogOpenSslStream_Initialise (E := small_tls))
    (OpenSslStream_vtable openssl_3_codes sample_area openssl_area) (SolidSyslogOpenSslStream_Cleanup openssl_3_codes sample_area openssl_area) /\
  keeps_tls_protocol (mbedtls_protocol mbedtls_3_codes) MbedTlsStream_IsOpen (SolidSyslogMbedTlsStream_Initialise (E := small_tls))
    (MbedTlsStream_vtable mbedtls_3_codes sample_area openssl_area) (SolidSyslogMbedTlsStream_Cleanup mbedtls_3_codes sample_area openssl_area) /\
  keeps_tls_protocol (wolfssl_protocol wolfssl_5_codes) WolfSslStream_IsOpen (SolidSyslogWolfSslStream_Initialise (E := small_tls))
    (WolfSslStream_vtable wolfssl_5_codes SOLIDSYSLOG_WOLFSSL_PIN_BESIDE_ANCHORS_REFUSED sample_area openssl_area)
    (SolidSyslogWolfSslStream_Cleanup wolfssl_5_codes SOLIDSYSLOG_WOLFSSL_PIN_BESIDE_ANCHORS_REFUSED sample_area openssl_area).
Proof.
  do 2 (split; [by vm_compute |]).
  destruct (tls_calls_keep_protocol (E := small_tls) openssl_3_codes mbedtls_3_codes wolfssl_5_codes SOLIDSYSLOG_WOLFSSL_PIN_BESIDE_ANCHORS_REFUSED
    sample_area openssl_area eq_refl (proj1 small_areas) eq_refl (proj2 small_areas)) as (HO & HM & HW).
  exact (conj (HO small_openssl_ok) (conj (HM small_mbedtls_ok) (HW small_wolfssl_ok))).
Defined.

Abbreviation small_tls_config := (over_tls (OpenSslStream_vtable openssl_3_codes sample_area openssl_area) small_tls_resolver 1 None None None).
Abbreviation small_tls_delivery := (sn_feed (StreamSender_vtable a_prefix_area) (map input_beside_tls small_tls_inputs)
  (ts_fresh small_tls_config (mkStreamSender NullSenderVtable small_tls_config false false 0 0) openssl_start)).
Lemma records_reach_the_tls_sessions_witness :
  map snd (fst small_tls_delivery) = [true; true; true] /\
  option_map tn_Wires (tls_observed (openssl_protocol openssl_3_codes) (tv_Trace (sn_Env (snd small_tls_delivery)))) = Some [str "3 one3 two"; str "5 three"] /\
  reaches_sessions (openssl_protocol openssl_3_codes) a_prefix_area (SolidSyslogOpenSslStream_Initialise (E := small_tls)) (OpenSslStream_vtable openssl_3_codes sample_area openssl_area) /\
  reaches_sessions (mbedtls_protocol mbedtls_3_codes) a_prefix_area (SolidSyslogMbedTlsStream_Initialise (E := small_tls)) (MbedTlsStream_vtable mbedtls_3_codes sample_area openssl_area) /\
  reaches_sessions (wolfssl_protocol wolfssl_5_codes) a_prefix_area (SolidSyslogWolfSslStream_Initialise (E := small_tls))
    (WolfSslStream_vtable wolfssl_5_codes SOLIDSYSLOG_WOLFSSL_PIN_BESIDE_ANCHORS_REFUSED sample_area openssl_area).
Proof.
  do 2 (split; [by vm_compute |]).
  destruct (records_reach_the_tls_sessions (E := small_tls) openssl_3_codes mbedtls_3_codes wolfssl_5_codes SOLIDSYSLOG_WOLFSSL_PIN_BESIDE_ANCHORS_REFUSED
    sample_area openssl_area eq_refl (proj1 small_areas) eq_refl (proj2 small_areas) a_prefix_area ltac:(by vm_compute)) as (HO & HM & HW).
  exact (conj (HO small_openssl_ok) (conj (HM small_mbedtls_ok) (HW small_wolfssl_ok))).
Defined.
