(* ===== verification/StaticPools.v ===== *)
(** The pools of the library's classes ([SolidSyslog*Static.c]), and the buffer that
    passes records straight on ([SolidSyslogPassthroughBuffer.c]).  Each Create and
    Destroy is written as its file has it, and each pair is proved to refine the table
    of leases of [Pools]. *)
From stdpp Require Import gmap.
From S2P Require Import Prelude Errors PendingEvents Interfaces Utf8 Formatter SdWriters MessageFormat CircularBuffer FileBlockDevice Logger Transport Senders Pools.
#[local] Open Scope Z_scope.

(** The defaults of the tunables. *)
Definition SOLIDSYSLOG_POOL_SIZE : Z := 1.
Definition SOLIDSYSLOG_CIRCULAR_BUFFER_POOL_SIZE : Z := 1.
Definition SOLIDSYSLOG_PASSTHROUGH_BUFFER_POOL_SIZE : Z := 1.
Definition SOLIDSYSLOG_UDP_SENDER_POOL_SIZE : Z := 1.
Definition SOLIDSYSLOG_SWITCHING_SENDER_POOL_SIZE : Z := 1.
Definition SOLIDSYSLOG_STREAM_SENDER_POOL_SIZE : Z := 2.
Definition SOLIDSYSLOG_FILE_BLOCK_DEVICE_POOL_SIZE : Z := 1.
Definition SOLIDSYSLOG_META_SD_POOL_SIZE : Z := 1.
Definition SOLIDSYSLOG_TIME_QUALITY_SD_POOL_SIZE : Z := 1.
Definition SOLIDSYSLOG_ORIGIN_SD_POOL_SIZE : Z := 1.

(** What each Create and Destroy is made of: refusing a configuration, a claim with
    the class's own reports, a release, and the report of a handle that is not one. *)
Section reports.
Context {T E : Type} `{ErrorTap E} (source : SolidSyslogErrorSource).
Definition bad_config (detail : Z) : pool_op T E unit :=
  pool_report source SOLIDSYSLOG_BAD_CONFIG_FATAL_SEVERITY SOLIDSYSLOG_CAT_BAD_CONFIG detail.
Definition pool_exhausted (detail : Z) : pool_op T E unit :=
  pool_report source SOLIDSYSLOG_POOL_EXHAUSTED_SEVERITY SOLIDSYSLOG_CAT_POOL_EXHAUSTED detail.
Definition unknown_destroy (detail : Z) : pool_op T E unit :=
  pool_report source SOLIDSYSLOG_UNKNOWN_DESTROY_SEVERITY SOLIDSYSLOG_CAT_UNKNOWN_DESTROY detail.
End reports.

(** A step on an object alone. *)
Definition pure_step {T E} (f : T -> T) : T -> ST E T := fun self => st_ret (f self).
(** A step of a sender in its own world, what it is seen to do left out. *)
Definition sender_step {S E} (m : ST (sn_world S E) unit) : S -> ST E S :=
  fun self e => let '(_, w) := m (mkSnWorld self e []) in (sn_Self w, sn_Env w).

(** * Circular buffers *)

Section circularbuffer_pool.
Context {E : Type} `{ErrorTap E}.

(** The arguments of Create; the mutex is known by its address. *)
Record circular_args := mkCircularArgs {
  ca_mutex : option Z;
  ca_ring : option bytes;
  ca_ringBytes : Z;
  ca_getDiscardPolicy : option (SolidSyslogDiscardPolicyFunction E);
  ca_discardPolicyContext : option Z
}.
Definition circular_initialise (ring : bytes) (a : circular_args) : @SolidSyslogCircularBuffer E -> ST E (@SolidSyslogCircularBuffer E) :=
  pure_step (fun self => SolidSyslogCircularBuffer_Initialise self ring (ca_ringBytes a) (ca_getDiscardPolicy a) (ca_discardPolicyContext a)).
Definition CircularBuffer_IndexFromHandle (base : pool_handle) : Z := index_from_handle SOLIDSYSLOG_CIRCULAR_BUFFER_POOL_SIZE base.
Definition CircularBuffer_CleanupAtIndex (index : Z) : pool_op (@SolidSyslogCircularBuffer E) E unit := cleanup_at (pure_step SolidSyslogCircularBuffer_Cleanup) index.
Definition SolidSyslogCircularBuffer_Destroy (base : pool_handle) : pool_op (@SolidSyslogCircularBuffer E) E unit :=
  let index := CircularBuffer_IndexFromHandle base in
  let! allocator := st_get pw_Allocator in
  let! released :=
    if SolidSyslogPoolAllocator_IndexIsValid allocator index
    then SolidSyslogPoolAllocator_FreeIfInUse index (Some CircularBuffer_CleanupAtIndex)
    else st_ret false in
  if! negb released then unknown_destroy SolidSyslogCircularBufferErrorSource SOLIDSYSLOG_CIRCULAR_BUFFER_ERROR_UNKNOWN_DESTROY end!.

Definition SolidSyslogCircularBuffer_Create (a : circular_args) : pool_op (@SolidSyslogCircularBuffer E) E pool_handle :=
  match ca_mutex a, ca_ring a with
  | None, _ => bad_config SolidSyslogCircularBufferErrorSource SOLIDSYSLOG_CIRCULAR_BUFFER_ERROR_NULL_MUTEX ;;; st_ret Fallback
  | Some _, None => bad_config SolidSyslogCircularBufferErrorSource SOLIDSYSLOG_CIRCULAR_BUFFER_ERROR_NULL_RING ;;; st_ret Fallback
  | Some _, Some ring =>
    let! index := SolidSyslogPoolAllocator_AcquireFirstFree in
    let! allocator := st_get pw_Allocator in
    if SolidSyslogPoolAllocator_IndexIsValid allocator index
    then initialise_at index (circular_initialise ring a) ;;; st_ret (Slot index)
    else pool_exhausted SolidSyslogCircularBufferErrorSource SOLIDSYSLOG_CIRCULAR_BUFFER_ERROR_POOL_EXHAUSTED ;;; st_ret Fallback
  end.

#[export] Instance CircularBuffer_pool_class : PoolClass (@SolidSyslogCircularBuffer E) E circular_args := {
  pc_Size := SOLIDSYSLOG_CIRCULAR_BUFFER_POOL_SIZE;
  pc_Source := SolidSyslogCircularBufferErrorSource;
  pc_Check := fun a => match ca_mutex a, ca_ring a with
    | None, _ => Some SOLIDSYSLOG_CIRCULAR_BUFFER_ERROR_NULL_MUTEX | Some _, None => Some SOLIDSYSLOG_CIRCULAR_BUFFER_ERROR_NULL_RING | Some _, Some _ => None end;
  pc_Initialise := fun config _ => (fun a => circular_initialise (default [] (ca_ring a)) a) config;
  pc_Cleanup := (pure_step SolidSyslogCircularBuffer_Cleanup);
  pc_Exhausted := SOLIDSYSLOG_CIRCULAR_BUFFER_ERROR_POOL_EXHAUSTED;
  pc_UnknownDestroy := SOLIDSYSLOG_CIRCULAR_BUFFER_ERROR_UNKNOWN_DESTROY
}.
Lemma CircularBuffer_leases : keeps_leases SolidSyslogCircularBuffer_Create SolidSyslogCircularBuffer_Destroy.
Proof.
  apply keeps_leases_ext; [| done]. intros config w. unfold pool_create.
  destruct config as [[] [] ? ? ?]; done.
Qed.
End circularbuffer_pool.

(** * The buffer that keeps nothing *)

Section passthroughbuffer_pool.
Context {E : Type} `{ErrorTap E}.

(** The vtable is the buffer's own or, once cleaned up, the null buffer's. *)
Inductive passthrough_vtable := PassthroughBufferVtable | PassthroughNullVtable.
Record SolidSyslogPassthroughBuffer := mkPassthroughBuffer { pb_Base : passthrough_vtable; pb_Sender : SolidSyslogSender E }.
#[export] Instance settable_PassthroughBuffer : Settable SolidSyslogPassthroughBuffer :=
  fun b => mkPassthroughBuffer (pb_Base b) (pb_Sender b).
Definition SolidSyslogPassthroughBuffer_Initialise (sender : SolidSyslogSender E) (self : SolidSyslogPassthroughBuffer) : SolidSyslogPassthroughBuffer :=
  self <| pb_Base := PassthroughBufferVtable |> <| pb_Sender := sender |>.
Definition SolidSyslogPassthroughBuffer_Cleanup (self : SolidSyslogPassthroughBuffer) : SolidSyslogPassthroughBuffer :=
  self <| pb_Base := PassthroughNullVtable |>.
Definition PassthroughBuffer_Read (data : bytes) (maxSize : Z) : bool * bytes * Z := (false, data, 0).
Definition PassthroughBuffer_Write (self : SolidSyslogPassthroughBuffer) (data : bytes) (size : Z) : ST E unit :=
  let! _ := SolidSyslogSender_Send (SolidSyslogSender := pb_Sender self) data size in st_ret tt.
Definition PassthroughBuffer_IsFull : bool := false.
(** Dispatch through the vtable. *)
Definition PassthroughBuffer_vtable (self : SolidSyslogPassthroughBuffer) : SolidSyslogBuffer E :=
  match pb_Base self with
  | PassthroughBufferVtable => {|
      Interfaces.SolidSyslogBuffer_Write := PassthroughBuffer_Write self;
      Interfaces.SolidSyslogBuffer_Read := fun data maxSize => st_ret (PassthroughBuffer_Read data maxSize);
      Interfaces.SolidSyslogBuffer_IsFull := st_ret PassthroughBuffer_IsFull |}
  | PassthroughNullVtable => SolidSyslogNullBuffer_Get
  end.

Definition PassthroughBuffer_IndexFromHandle (base : pool_handle) : Z := index_from_handle SOLIDSYSLOG_PASSTHROUGH_BUFFER_POOL_SIZE base.
Definition PassthroughBuffer_CleanupAtIndex (index : Z) : pool_op SolidSyslogPassthroughBuffer E unit := cleanup_at (pure_step SolidSyslogPassthroughBuffer_Cleanup) index.
Definition SolidSyslogPassthroughBuffer_Destroy (base : pool_handle) : pool_op SolidSyslogPassthroughBuffer E unit :=
  let index := PassthroughBuffer_IndexFromHandle base in
  let! allocator := st_get pw_Allocator in
  let! released :=
    if SolidSyslogPoolAllocator_IndexIsValid allocator index
    then SolidSyslogPoolAllocator_FreeIfInUse index (Some PassthroughBuffer_CleanupAtIndex)
    else st_ret false in
  if! negb released then unknown_destroy SolidSyslogPassthroughBufferErrorSource SOLIDSYSLOG_PASSTHROUGH_BUFFER_ERROR_UNKNOWN_DESTROY end!.

Definition SolidSyslogPassthroughBuffer_Create (sender : option (SolidSyslogSender E)) : pool_op SolidSyslogPassthroughBuffer E pool_handle :=
  match sender with
  | None => bad_config SolidSyslogPassthroughBufferErrorSource SOLIDSYSLOG_PASSTHROUGH_BUFFER_ERROR_NULL_SENDER ;;; st_ret Fallback
  | Some sender =>
    let! index := SolidSyslogPoolAllocator_AcquireFirstFree in
    let! allocator := st_get pw_Allocator in
    if SolidSyslogPoolAllocator_IndexIsValid allocator index
    then initialise_at index (pure_step (SolidSyslogPassthroughBuffer_Initialise sender)) ;;; st_ret (Slot index)
    else pool_exhausted SolidSyslogPassthroughBufferErrorSource SOLIDSYSLOG_PASSTHROUGH_BUFFER_ERROR_POOL_EXHAUSTED ;;; st_ret Fallback
  end.

#[export] Instance PassthroughBuffer_pool_class : PoolClass SolidSyslogPassthroughBuffer E (option (SolidSyslogSender E)) := {
  pc_Size := SOLIDSYSLOG_PASSTHROUGH_BUFFER_POOL_SIZE;
  pc_Source := SolidSyslogPassthroughBufferErrorSource;
  pc_Check := fun sender => match sender with None => Some SOLIDSYSLOG_PASSTHROUGH_BUFFER_ERROR_NULL_SENDER | Some _ => None end;
  pc_Initialise := fun config _ => (fun sender => match sender with Some sender => pure_step (SolidSyslogPassthroughBuffer_Initialise sender) | None => pure_step (fun self => self) end) config;
  pc_Cleanup := (pure_step SolidSyslogPassthroughBuffer_Cleanup);
  pc_Exhausted := SOLIDSYSLOG_PASSTHROUGH_BUFFER_ERROR_POOL_EXHAUSTED;
  pc_UnknownDestroy := SOLIDSYSLOG_PASSTHROUGH_BUFFER_ERROR_UNKNOWN_DESTROY
}.
Lemma PassthroughBuffer_leases : keeps_leases SolidSyslogPassthroughBuffer_Create SolidSyslogPassthroughBuffer_Destroy.
Proof.
  apply keeps_leases_ext; [| done]. intros config w. unfold pool_create.
  destruct config; done.
Qed.
End passthroughbuffer_pool.

(** * The meta element *)

Section metasd_pool.
Context {E : Type} `{ErrorTap E}.

(** The configuration; a callback's context is beside it. *)
Record SolidSyslogMetaSdConfig := mkMetaSdConfig {
  mc_Counter : option (ST E Z);
  mc_GetSysUpTime : option (ST E Z);
  mc_GetLanguage : option (option Z -> ST E (list value_call));
  mc_LanguageContext : option Z
}.
Definition SolidSyslogMetaSd_Initialise (counter : ST E Z) (config : SolidSyslogMetaSdConfig) : @SolidSyslogStructuredData E :=
  MetaSd (mkMetaSd counter (mc_GetSysUpTime config) (option_map (fun getLanguage => getLanguage (mc_LanguageContext config)) (mc_GetLanguage config))).
Definition SolidSyslogMetaSd_Cleanup (base : @SolidSyslogStructuredData E) : @SolidSyslogStructuredData E := NullSd.

Definition MetaSd_IndexFromHandle (base : pool_handle) : Z := index_from_handle SOLIDSYSLOG_META_SD_POOL_SIZE base.
Definition MetaSd_CleanupAtIndex (index : Z) : pool_op (@SolidSyslogStructuredData E) E unit := cleanup_at (pure_step SolidSyslogMetaSd_Cleanup) index.
Definition SolidSyslogMetaSd_Destroy (base : pool_handle) : pool_op (@SolidSyslogStructuredData E) E unit :=
  let index := MetaSd_IndexFromHandle base in
  let! allocator := st_get pw_Allocator in
  let! released :=
    if SolidSyslogPoolAllocator_IndexIsValid allocator index
    then SolidSyslogPoolAllocator_FreeIfInUse index (Some MetaSd_CleanupAtIndex)
    else st_ret false in
  if! negb released then unknown_destroy SolidSyslogMetaSdErrorSource SOLIDSYSLOG_META_SD_ERROR_UNKNOWN_DESTROY end!.

Definition MetaSd_IsValidConfig (config : option SolidSyslogMetaSdConfig) : pool_op (@SolidSyslogStructuredData E) E bool :=
  match config with
  | None => bad_config SolidSyslogMetaSdErrorSource SOLIDSYSLOG_META_SD_ERROR_NULL_CONFIG ;;; st_ret false
  | Some config =>
      match mc_Counter config with
      | None => bad_config SolidSyslogMetaSdErrorSource SOLIDSYSLOG_META_SD_ERROR_NULL_COUNTER ;;; st_ret false
      | Some _ => st_ret true
      end
  end.
(** What a valid configuration points to. *)
Definition meta_initialise (config : option SolidSyslogMetaSdConfig) : (@SolidSyslogStructuredData E) -> ST E (@SolidSyslogStructuredData E) :=
  match config with
  | Some config =>
      match mc_Counter config with
      | Some counter => pure_step (fun _ => SolidSyslogMetaSd_Initialise counter config)
      | None => pure_step (fun self => self)
      end
  | None => pure_step (fun self => self)
  end.
Definition SolidSyslogMetaSd_Create (config : option SolidSyslogMetaSdConfig) : pool_op (@SolidSyslogStructuredData E) E pool_handle :=
  let! valid := MetaSd_IsValidConfig config in
  if valid : bool then
    let! index := SolidSyslogPoolAllocator_AcquireFirstFree in
    let! allocator := st_get pw_Allocator in
    if SolidSyslogPoolAllocator_IndexIsValid allocator index
    then initialise_at index (meta_initialise config) ;;; st_ret (Slot index)
    else pool_exhausted SolidSyslogMetaSdErrorSource SOLIDSYSLOG_META_SD_ERROR_POOL_EXHAUSTED ;;; st_ret Fallback
  else st_ret Fallback.

#[export] Instance MetaSd_pool_class : PoolClass (@SolidSyslogStructuredData E) E (option SolidSyslogMetaSdConfig) := {
  pc_Size := SOLIDSYSLOG_META_SD_POOL_SIZE;
  pc_Source := SolidSyslogMetaSdErrorSource;
  pc_Check := fun config => match config with
    | None => Some SOLIDSYSLOG_META_SD_ERROR_NULL_CONFIG
    | Some config => match mc_Counter config with None => Some SOLIDSYSLOG_META_SD_ERROR_NULL_COUNTER | Some _ => None end
    end;
  pc_Initialise := fun config _ => meta_initialise config;
  pc_Cleanup := (pure_step SolidSyslogMetaSd_Cleanup);
  pc_Exhausted := SOLIDSYSLOG_META_SD_ERROR_POOL_EXHAUSTED;
  pc_UnknownDestroy := SOLIDSYSLOG_META_SD_ERROR_UNKNOWN_DESTROY
}.
Lemma MetaSd_leases : keeps_leases SolidSyslogMetaSd_Create SolidSyslogMetaSd_Destroy.
Proof.
  apply keeps_leases_ext; [| done]. intros config w. unfold pool_create.
  destruct config as [[[] ? ? ?] |]; done.
Qed.
End metasd_pool.

(** * The timeQuality element *)

Section timequalitysd_pool.
Context {E : Type} `{ErrorTap E}.

Definition SolidSyslogTimeQualitySd_Initialise (getTimeQuality : ST E SolidSyslogTimeQuality) : @SolidSyslogStructuredData E :=
  TimeQualitySd (mkTimeQualitySd getTimeQuality).
Definition SolidSyslogTimeQualitySd_Cleanup (base : @SolidSyslogStructuredData E) : @SolidSyslogStructuredData E := NullSd.

Definition TimeQualitySd_IndexFromHandle (base : pool_handle) : Z := index_from_handle SOLIDSYSLOG_TIME_QUALITY_SD_POOL_SIZE base.
Definition TimeQualitySd_CleanupAtIndex (index : Z) : pool_op (@SolidSyslogStructuredData E) E unit := cleanup_at (pure_step SolidSyslogTimeQualitySd_Cleanup) index.
Definition SolidSyslogTimeQualitySd_Destroy (base : pool_handle) : pool_op (@SolidSyslogStructuredData E) E unit :=
  let index := TimeQualitySd_IndexFromHandle base in
  let! allocator := st_get pw_Allocator in
  let! released :=
    if SolidSyslogPoolAllocator_IndexIsValid allocator index
    then SolidSyslogPoolAllocator_FreeIfInUse index (Some TimeQualitySd_CleanupAtIndex)
    else st_ret false in
  if! negb released then unknown_destroy SolidSyslogTimeQualitySdErrorSource SOLIDSYSLOG_TIME_QUALITY_SD_ERROR_UNKNOWN_DESTROY end!.

Definition SolidSyslogTimeQualitySd_Create (getTimeQuality : option (ST E SolidSyslogTimeQuality)) : pool_op (@SolidSyslogStructuredData E) E pool_handle :=
  match getTimeQuality with
  | None => bad_config SolidSyslogTimeQualitySdErrorSource SOLIDSYSLOG_TIME_QUALITY_SD_ERROR_NULL_CALLBACK ;;; st_ret Fallback
  | Some getTimeQuality =>
    let! index := SolidSyslogPoolAllocator_AcquireFirstFree in
    let! allocator := st_get pw_Allocator in
    if SolidSyslogPoolAllocator_IndexIsValid allocator index
    then initialise_at index (pure_step (fun _ => SolidSyslogTimeQualitySd_Initialise getTimeQuality)) ;;; st_ret (Slot index)
    else pool_exhausted SolidSyslogTimeQualitySdErrorSource SOLIDSYSLOG_TIME_QUALITY_SD_ERROR_POOL_EXHAUSTED ;;; st_ret Fallback
  end.

#[export] Instance TimeQualitySd_pool_class : PoolClass (@SolidSyslogStructuredData E) E (option (ST E SolidSyslogTimeQuality)) := {
  pc_Size := SOLIDSYSLOG_TIME_QUALITY_SD_POOL_SIZE;
  pc_Source := SolidSyslogTimeQualitySdErrorSource;
  pc_Check := fun f => match f with None => Some SOLIDSYSLOG_TIME_QUALITY_SD_ERROR_NULL_CALLBACK | Some _ => None end;
  pc_Initialise := fun config _ => (fun f => match f with Some f => pure_step (fun _ => SolidSyslogTimeQualitySd_Initialise f) | None => pure_step (fun self => self) end) config;
  pc_Cleanup := (pure_step SolidSyslogTimeQualitySd_Cleanup);
  pc_Exhausted := SOLIDSYSLOG_TIME_QUALITY_SD_ERROR_POOL_EXHAUSTED;
  pc_UnknownDestroy := SOLIDSYSLOG_TIME_QUALITY_SD_ERROR_UNKNOWN_DESTROY
}.
Lemma TimeQualitySd_leases : keeps_leases SolidSyslogTimeQualitySd_Create SolidSyslogTimeQualitySd_Destroy.
Proof.
  apply keeps_leases_ext; [| done]. intros config w. unfold pool_create.
  destruct config; done.
Qed.
End timequalitysd_pool.

(** * The origin element *)

Section originsd_pool.
Context {E : Type} `{ErrorTap E}.

Record SolidSyslogOriginSdConfig := mkOriginSdConfig {
  oc_Software : option bytes;
  oc_SwVersion : option bytes;
  oc_EnterpriseId : option bytes;
  oc_GetIpCount : option (option Z -> ST E Z);
  oc_GetIpAt : option (option Z -> Z -> ST E (list value_call));
  oc_IpContext : option Z
}.
Definition SolidSyslogOriginSd_Initialise (config : SolidSyslogOriginSdConfig) : @SolidSyslogStructuredData E :=
  OriginSd (mkOriginSd (oc_Software config) (oc_SwVersion config) (oc_EnterpriseId config)
    (option_map (fun getIpCount => getIpCount (oc_IpContext config)) (oc_GetIpCount config))
    (option_map (fun getIpAt => getIpAt (oc_IpContext config)) (oc_GetIpAt config))).
Definition SolidSyslogOriginSd_Cleanup (base : @SolidSyslogStructuredData E) : @SolidSyslogStructuredData E := NullSd.

Definition OriginSd_IndexFromHandle (base : pool_handle) : Z := index_from_handle SOLIDSYSLOG_ORIGIN_SD_POOL_SIZE base.
Definition OriginSd_CleanupAtIndex (index : Z) : pool_op (@SolidSyslogStructuredData E) E unit := cleanup_at (pure_step SolidSyslogOriginSd_Cleanup) index.
Definition SolidSyslogOriginSd_Destroy (base : pool_handle) : pool_op (@SolidSyslogStructuredData E) E unit :=
  let index := OriginSd_IndexFromHandle base in
  let! allocator := st_get pw_Allocator in
  let! released :=
    if SolidSyslogPoolAllocator_IndexIsValid allocator index
    then SolidSyslogPoolAllocator_FreeIfInUse index (Some OriginSd_CleanupAtIndex)
    else st_ret false in
  if! negb released then unknown_destroy SolidSyslogOriginSdErrorSource SOLIDSYSLOG_ORIGIN_SD_ERROR_UNKNOWN_DESTROY end!.

Definition SolidSyslogOriginSd_Create (config : SolidSyslogOriginSdConfig) : pool_op (@SolidSyslogStructuredData E) E pool_handle :=
  let! index := SolidSyslogPoolAllocator_AcquireFirstFree in
  let! allocator := st_get pw_Allocator in
  if SolidSyslogPoolAllocator_IndexIsValid allocator index
  then initialise_at index (pure_step (fun _ => SolidSyslogOriginSd_Initialise config)) ;;; st_ret (Slot index)
  else pool_exhausted SolidSyslogOriginSdErrorSource SOLIDSYSLOG_ORIGIN_SD_ERROR_POOL_EXHAUSTED ;;; st_ret Fallback.

#[export] Instance OriginSd_pool_class : PoolClass (@SolidSyslogStructuredData E) E SolidSyslogOriginSdConfig := {
  pc_Size := SOLIDSYSLOG_ORIGIN_SD_POOL_SIZE;
  pc_Source := SolidSyslogOriginSdErrorSource;
  pc_Check := fun _ => None;
  pc_Initialise := fun config _ => (fun config => pure_step (fun _ => SolidSyslogOriginSd_Initialise config)) config;
  pc_Cleanup := (pure_step SolidSyslogOriginSd_Cleanup);
  pc_Exhausted := SOLIDSYSLOG_ORIGIN_SD_ERROR_POOL_EXHAUSTED;
  pc_UnknownDestroy := SOLIDSYSLOG_ORIGIN_SD_ERROR_UNKNOWN_DESTROY
}.
Lemma OriginSd_leases : keeps_leases SolidSyslogOriginSd_Create SolidSyslogOriginSd_Destroy.
Proof.
  apply keeps_leases_ext; [| done]. intros config w. unfold pool_create.
  done.
Qed.
End originsd_pool.

(** * UDP senders *)

Section udpsender_pool.
Context {E : Type} `{ErrorTap E}.

(** The configuration as it is given: pointers that may be NULL. *)
Record udp_args := mkUdpArgs {
  ua_Resolver : option (SolidSyslogResolver E);
  ua_Datagram : option (SolidSyslogDatagram E);
  ua_Address : option SolidSyslogAddress;
  ua_Endpoint : option (SolidSyslogEndpointFunction E);
  ua_EndpointVersion : option (SolidSyslogEndpointVersionFunction E);
  ua_EndpointContext : option Z
}.
Definition udp_config (a : udp_args) : option (@SolidSyslogUdpSenderConfig E) :=
  resolver ← ua_Resolver a; datagram ← ua_Datagram a; address ← ua_Address a; endpoint ← ua_Endpoint a;
  Some (mkUdpSenderConfig resolver datagram address endpoint (ua_EndpointVersion a) (ua_EndpointContext a)).
Definition udp_initialise (config : option udp_args) : @SolidSyslogUdpSender E -> ST E (@SolidSyslogUdpSender E) :=
  match config ≫= udp_config with
  | Some config => pure_step (SolidSyslogUdpSender_Initialise config)
  | None => pure_step (fun self => self)
  end.
Definition udp_cleanup : @SolidSyslogUdpSender E -> ST E (@SolidSyslogUdpSender E) := sender_step SolidSyslogUdpSender_Cleanup.

Definition UdpSender_IndexFromHandle (base : pool_handle) : Z := index_from_handle SOLIDSYSLOG_UDP_SENDER_POOL_SIZE base.
Definition UdpSender_CleanupAtIndex (index : Z) : pool_op (@SolidSyslogUdpSender E) E unit := cleanup_at udp_cleanup index.
Definition SolidSyslogUdpSender_Destroy (base : pool_handle) : pool_op (@SolidSyslogUdpSender E) E unit :=
  let index := UdpSender_IndexFromHandle base in
  let! allocator := st_get pw_Allocator in
  let! released :=
    if SolidSyslogPoolAllocator_IndexIsValid allocator index
    then SolidSyslogPoolAllocator_FreeIfInUse index (Some UdpSender_CleanupAtIndex)
    else st_ret false in
  if! negb released then unknown_destroy SolidSyslogUdpSenderErrorSource SOLIDSYSLOG_UDP_SENDER_ERROR_UNKNOWN_DESTROY end!.

Definition UdpSender_IsValidConfig (config : option udp_args) : pool_op (@SolidSyslogUdpSender E) E bool :=
  match config with
  | None => bad_config SolidSyslogUdpSenderErrorSource SOLIDSYSLOG_UDP_SENDER_ERROR_NULL_CONFIG ;;; st_ret false
  | Some config =>
      if ua_Resolver config is None then bad_config SolidSyslogUdpSenderErrorSource SOLIDSYSLOG_UDP_SENDER_ERROR_NULL_RESOLVER ;;; st_ret false else
      if ua_Datagram config is None then bad_config SolidSyslogUdpSenderErrorSource SOLIDSYSLOG_UDP_SENDER_ERROR_NULL_DATAGRAM ;;; st_ret false else
      if ua_Address config is None then bad_config SolidSyslogUdpSenderErrorSource SOLIDSYSLOG_UDP_SENDER_ERROR_NULL_ADDRESS ;;; st_ret false else
      if ua_Endpoint config is None then bad_config SolidSyslogUdpSenderErrorSource SOLIDSYSLOG_UDP_SENDER_ERROR_NULL_ENDPOINT ;;; st_ret false else
      st_ret true
  end.
Definition SolidSyslogUdpSender_Create (config : option udp_args) : pool_op (@SolidSyslogUdpSender E) E pool_handle :=
  let! valid := UdpSender_IsValidConfig config in
  if valid : bool then
    let! index := SolidSyslogPoolAllocator_AcquireFirstFree in
    let! allocator := st_get pw_Allocator in
    if SolidSyslogPoolAllocator_IndexIsValid allocator index
    then initialise_at index (udp_initialise config) ;;; st_ret (Slot index)
    else pool_exhausted SolidSyslogUdpSenderErrorSource SOLIDSYSLOG_UDP_SENDER_ERROR_POOL_EXHAUSTED ;;; st_ret Fallback
  else st_ret Fallback.

#[export] Instance UdpSender_pool_class : PoolClass (@SolidSyslogUdpSender E) E (option udp_args) := {
  pc_Size := SOLIDSYSLOG_UDP_SENDER_POOL_SIZE;
  pc_Source := SolidSyslogUdpSenderErrorSource;
  pc_Check := fun config => match config with
    | None => Some SOLIDSYSLOG_UDP_SENDER_ERROR_NULL_CONFIG
    | Some config => if ua_Resolver config is None then Some SOLIDSYSLOG_UDP_SENDER_ERROR_NULL_RESOLVER else if ua_Datagram config is None then Some SOLIDSYSLOG_UDP_SENDER_ERROR_NULL_DATAGRAM else if ua_Address config is None then Some SOLIDSYSLOG_UDP_SENDER_ERROR_NULL_ADDRESS else if ua_Endpoint config is None then Some SOLIDSYSLOG_UDP_SENDER_ERROR_NULL_ENDPOINT else None
    end;
  pc_Initialise := fun config _ => udp_initialise config;
  pc_Cleanup := udp_cleanup;
  pc_Exhausted := SOLIDSYSLOG_UDP_SENDER_ERROR_POOL_EXHAUSTED;
  pc_UnknownDestroy := SOLIDSYSLOG_UDP_SENDER_ERROR_UNKNOWN_DESTROY
}.
Lemma UdpSender_leases : keeps_leases SolidSyslogUdpSender_Create SolidSyslogUdpSender_Destroy.
Proof.
  apply keeps_leases_ext; [| done]. intros config w. unfold pool_create.
  destruct config as [[[] [] [] [] ? ?] |]; done.
Qed.
End udpsender_pool.

(** * Stream senders *)

Section streamsender_pool.
Context {E : Type} `{ErrorTap E}.

Record stream_args := mkStreamArgs {
  ta_Resolver : option (SolidSyslogResolver E);
  ta_Stream : option (SolidSyslogStream E);
  ta_Address : option SolidSyslogAddress;
  ta_Endpoint : option (SolidSyslogEndpointFunction E);
  ta_EndpointVersion : option (SolidSyslogEndpointVersionFunction E);
  ta_EndpointContext : option Z
}.
Definition stream_config (a : stream_args) : option (@SolidSyslogStreamSenderConfig E) :=
  resolver ← ta_Resolver a; stream ← ta_Stream a; address ← ta_Address a;
  Some (mkStreamSenderConfig resolver stream address (ta_Endpoint a) (ta_EndpointVersion a) (ta_EndpointContext a)).
Definition stream_initialise (config : option stream_args) : @SolidSyslogStreamSender E -> ST E (@SolidSyslogStreamSender E) :=
  match config ≫= stream_config with
  | Some config => pure_step (SolidSyslogStreamSender_Initialise config)
  | None => pure_step (fun self => self)
  end.
Definition stream_cleanup : @SolidSyslogStreamSender E -> ST E (@SolidSyslogStreamSender E) := sender_step SolidSyslogStreamSender_Cleanup.

Definition StreamSender_IndexFromHandle (base : pool_handle) : Z := index_from_handle SOLIDSYSLOG_STREAM_SENDER_POOL_SIZE base.
Definition StreamSender_CleanupAtIndex (index : Z) : pool_op (@SolidSyslogStreamSender E) E unit := cleanup_at stream_cleanup index.
Definition SolidSyslogStreamSender_Destroy (base : pool_handle) : pool_op (@SolidSyslogStreamSender E) E unit :=
  let index := StreamSender_IndexFromHandle base in
  let! allocator := st_get pw_Allocator in
  let! released :=
    if SolidSyslogPoolAllocator_IndexIsValid allocator index
    then SolidSyslogPoolAllocator_FreeIfInUse index (Some StreamSender_CleanupAtIndex)
    else st_ret false in
  if! negb released then unknown_destroy SolidSyslogStreamSenderErrorSource SOLIDSYSLOG_STREAM_SENDER_ERROR_UNKNOWN_DESTROY end!.

Definition StreamSender_IsValidConfig (config : option stream_args) : pool_op (@SolidSyslogStreamSender E) E bool :=
  match config with
  | None => bad_config SolidSyslogStreamSenderErrorSource SOLIDSYSLOG_STREAM_SENDER_ERROR_NULL_CONFIG ;;; st_ret false
  | Some config =>
      if ta_Resolver config is None then bad_config SolidSyslogStreamSenderErrorSource SOLIDSYSLOG_STREAM_SENDER_ERROR_NULL_RESOLVER ;;; st_ret false else
      if ta_Stream config is None then bad_config SolidSyslogStreamSenderErrorSource SOLIDSYSLOG_STREAM_SENDER_ERROR_NULL_STREAM ;;; st_ret false else
      if ta_Address config is None then bad_config SolidSyslogStreamSenderErrorSource SOLIDSYSLOG_STREAM_SENDER_ERROR_NULL_ADDRESS ;;; st_ret false else
      st_ret true
  end.
Definition SolidSyslogStreamSender_Create (config : option stream_args) : pool_op (@SolidSyslogStreamSender E) E pool_handle :=
  let! valid := StreamSender_IsValidConfig config in
  if valid : bool then
    let! index := SolidSyslogPoolAllocator_AcquireFirstFree in
    let! allocator := st_get pw_Allocator in
    if SolidSyslogPoolAllocator_IndexIsValid allocator index
    then initialise_at index (stream_initialise config) ;;; st_ret (Slot index)
    else pool_exhausted SolidSyslogStreamSenderErrorSource SOLIDSYSLOG_STREAM_SENDER_ERROR_POOL_EXHAUSTED ;;; st_ret Fallback
  else st_ret Fallback.

#[export] Instance StreamSender_pool_class : PoolClass (@SolidSyslogStreamSender E) E (option stream_args) := {
  pc_Size := SOLIDSYSLOG_STREAM_SENDER_POOL_SIZE;
  pc_Source := SolidSyslogStreamSenderErrorSource;
  pc_Check := fun config => match config with
    | None => Some SOLIDSYSLOG_STREAM_SENDER_ERROR_NULL_CONFIG
    | Some config => if ta_Resolver config is None then Some SOLIDSYSLOG_STREAM_SENDER_ERROR_NULL_RESOLVER else if ta_Stream config is None then Some SOLIDSYSLOG_STREAM_SENDER_ERROR_NULL_STREAM else if ta_Address config is None then Some SOLIDSYSLOG_STREAM_SENDER_ERROR_NULL_ADDRESS else None
    end;
  pc_Initialise := fun config _ => stream_initialise config;
  pc_Cleanup := stream_cleanup;
  pc_Exhausted := SOLIDSYSLOG_STREAM_SENDER_ERROR_POOL_EXHAUSTED;
  pc_UnknownDestroy := SOLIDSYSLOG_STREAM_SENDER_ERROR_UNKNOWN_DESTROY
}.
Lemma StreamSender_leases : keeps_leases SolidSyslogStreamSender_Create SolidSyslogStreamSender_Destroy.
Proof.
  apply keeps_leases_ext; [| done]. intros config w. unfold pool_create.
  destruct config as [[[] [] [] ? ? ?] |]; done.
Qed.
End streamsender_pool.

(** * Switching senders *)

Section switchingsender_pool.
Context {E : Type} `{ErrorTap E}.

(** The array of senders is the integrator's storage: at Create it is read as it is
    then, and [sa_SendersLater] as it will be. *)
Record switching_args := mkSwitchingArgs {
  sa_Senders : option (list (option Z));
  sa_SendersLater : E -> list sender_pointer;
  sa_SenderCount : Z;
  sa_Selector : option (option Z -> ST E Z);
  sa_SelectorContext : option Z
}.
(** [for (index = 0; (index < SenderCount) && !hole; index++)] *)
Definition SwitchingSender_HasNullInnerSender (senders : list (option Z)) (config : switching_args) : bool :=
  snd (while (S (Z.to_nat (sa_SenderCount config))) (fun '((index, hole) : Z * bool) => (index <? sa_SenderCount config) && negb hole)
         (fun '((index, hole) : Z * bool) => (size_add index 1, if nth (Z.to_nat index) senders None is None then true else false)) (0, false)).
Definition switching_initialise (config : option switching_args) : @SolidSyslogSwitchingSender E -> ST E (@SolidSyslogSwitchingSender E) :=
  match config with
  | Some config =>
      match sa_Selector config with
      | Some selector => pure_step (SolidSyslogSwitchingSender_Initialise
          (mkSwitchingSenderConfig (sa_SendersLater config) (sa_SenderCount config) selector (sa_SelectorContext config)))
      | None => pure_step (fun self => self)
      end
  | None => pure_step (fun self => self)
  end.

Definition SwitchingSender_IndexFromHandle (base : pool_handle) : Z := index_from_handle SOLIDSYSLOG_SWITCHING_SENDER_POOL_SIZE base.
Definition SwitchingSender_CleanupAtIndex (index : Z) : pool_op (@SolidSyslogSwitchingSender E) E unit := cleanup_at (pure_step SolidSyslogSwitchingSender_Cleanup) index.
Definition SolidSyslogSwitchingSender_Destroy (base : pool_handle) : pool_op (@SolidSyslogSwitchingSender E) E unit :=
  let index := SwitchingSender_IndexFromHandle base in
  let! allocator := st_get pw_Allocator in
  let! released :=
    if SolidSyslogPoolAllocator_IndexIsValid allocator index
    then SolidSyslogPoolAllocator_FreeIfInUse index (Some SwitchingSender_CleanupAtIndex)
    else st_ret false in
  if! negb released then unknown_destroy SolidSyslogSwitchingSenderErrorSource SOLIDSYSLOG_SWITCHING_SENDER_ERROR_UNKNOWN_DESTROY end!.

Definition SwitchingSender_IsValidConfig (config : option switching_args) : pool_op (@SolidSyslogSwitchingSender E) E bool :=
  match config with
  | None => bad_config SolidSyslogSwitchingSenderErrorSource SOLIDSYSLOG_SWITCHING_SENDER_ERROR_NULL_CONFIG ;;; st_ret false
  | Some config =>
      match sa_Senders config with
      | None => bad_config SolidSyslogSwitchingSenderErrorSource SOLIDSYSLOG_SWITCHING_SENDER_ERROR_NULL_SENDERS ;;; st_ret false
      | Some senders =>
          if sa_SenderCount config =? 0 then bad_config SolidSyslogSwitchingSenderErrorSource SOLIDSYSLOG_SWITCHING_SENDER_ERROR_NO_SENDERS ;;; st_ret false
          else if sa_Selector config is None then bad_config SolidSyslogSwitchingSenderErrorSource SOLIDSYSLOG_SWITCHING_SENDER_ERROR_NULL_SELECTOR ;;; st_ret false
          else if SwitchingSender_HasNullInnerSender senders config then bad_config SolidSyslogSwitchingSenderErrorSource SOLIDSYSLOG_SWITCHING_SENDER_ERROR_NULL_INNER_SENDER ;;; st_ret false
          else st_ret true
      end
  end.
Definition SolidSyslogSwitchingSender_Create (config : option switching_args) : pool_op (@SolidSyslogSwitchingSender E) E pool_handle :=
  let! valid := SwitchingSender_IsValidConfig config in
  if valid : bool then
    let! index := SolidSyslogPoolAllocator_AcquireFirstFree in
    let! allocator := st_get pw_Allocator in
    if SolidSyslogPoolAllocator_IndexIsValid allocator index
    then initialise_at index (switching_initialise config) ;;; st_ret (Slot index)
    else pool_exhausted SolidSyslogSwitchingSenderErrorSource SOLIDSYSLOG_SWITCHING_SENDER_ERROR_POOL_EXHAUSTED ;;; st_ret Fallback
  else st_ret Fallback.

#[export] Instance SwitchingSender_pool_class : PoolClass (@SolidSyslogSwitchingSender E) E (option switching_args) := {
  pc_Size := SOLIDSYSLOG_SWITCHING_SENDER_POOL_SIZE;
  pc_Source := SolidSyslogSwitchingSenderErrorSource;
  pc_Check := fun config => match config with
    | None => Some SOLIDSYSLOG_SWITCHING_SENDER_ERROR_NULL_CONFIG
    | Some config =>
        match sa_Senders config with
        | None => Some SOLIDSYSLOG_SWITCHING_SENDER_ERROR_NULL_SENDERS
        | Some senders =>
            if sa_SenderCount config =? 0 then Some SOLIDSYSLOG_SWITCHING_SENDER_ERROR_NO_SENDERS
            else if sa_Selector config is None then Some SOLIDSYSLOG_SWITCHING_SENDER_ERROR_NULL_SELECTOR
            else if SwitchingSender_HasNullInnerSender senders config then Some SOLIDSYSLOG_SWITCHING_SENDER_ERROR_NULL_INNER_SENDER
            else None
        end
    end;
  pc_Initialise := fun config _ => switching_initialise config;
  pc_Cleanup := (pure_step SolidSyslogSwitchingSender_Cleanup);
  pc_Exhausted := SOLIDSYSLOG_SWITCHING_SENDER_ERROR_POOL_EXHAUSTED;
  pc_UnknownDestroy := SOLIDSYSLOG_SWITCHING_SENDER_ERROR_UNKNOWN_DESTROY
}.
Lemma SwitchingSender_leases : keeps_leases SolidSyslogSwitchingSender_Create SolidSyslogSwitchingSender_Destroy.
Proof.
  apply keeps_leases_ext; [| done]. intros config w. unfold pool_create.
  destruct config as [[[senders |] ? count [] ?] |]; try done; unfold SolidSyslogSwitchingSender_Create, SwitchingSender_IsValidConfig, pc_Check; cbn;
    repeat (destruct_bool_step; cbn); done.
Qed.
End switchingsender_pool.

(** * File block devices *)

Section fileblockdevice_pool.
Context {E : Type} `{ErrorTap E} `{SolidSyslogFile E}.

Definition device_initialise (pathPrefix : bytes) (blockSize : Z) : SolidSyslogFileBlockDevice -> ST E SolidSyslogFileBlockDevice :=
  pure_step (fun _ => SolidSyslogFileBlockDevice_Initialise pathPrefix blockSize).
Definition device_cleanup : SolidSyslogFileBlockDevice -> ST E SolidSyslogFileBlockDevice :=
  fun self e => let '(_, w) := SolidSyslogFileBlockDevice_Cleanup (mkFbWorld self e) in (fw_Self w, fw_Files w).
Definition resolvedBlockSize (blockSize : Z) : Z := if blockSize =? 0 then SOLIDSYSLOG_FILE_DEFAULT_BLOCK_SIZE else blockSize.

Definition FileBlockDevice_IndexFromHandle (base : pool_handle) : Z := index_from_handle SOLIDSYSLOG_FILE_BLOCK_DEVICE_POOL_SIZE base.
Definition FileBlockDevice_CleanupAtIndex (index : Z) : pool_op SolidSyslogFileBlockDevice E unit := cleanup_at device_cleanup index.
Definition SolidSyslogFileBlockDevice_Destroy (base : pool_handle) : pool_op SolidSyslogFileBlockDevice E unit :=
  let index := FileBlockDevice_IndexFromHandle base in
  let! allocator := st_get pw_Allocator in
  let! released :=
    if SolidSyslogPoolAllocator_IndexIsValid allocator index
    then SolidSyslogPoolAllocator_FreeIfInUse index (Some FileBlockDevice_CleanupAtIndex)
    else st_ret false in
  if! negb released then unknown_destroy SolidSyslogFileBlockDeviceErrorSource SOLIDSYSLOG_FILE_BLOCK_DEVICE_ERROR_UNKNOWN_DESTROY end!.

Definition SolidSyslogFileBlockDevice_Create (pathPrefix : bytes) (blockSize : Z) : pool_op SolidSyslogFileBlockDevice E pool_handle :=
  let! index := SolidSyslogPoolAllocator_AcquireFirstFree in
  let! allocator := st_get pw_Allocator in
  if SolidSyslogPoolAllocator_IndexIsValid allocator index
  then initialise_at index (device_initialise pathPrefix (resolvedBlockSize blockSize)) ;;; st_ret (Slot index)
  else pool_exhausted SolidSyslogFileBlockDeviceErrorSource SOLIDSYSLOG_FILE_BLOCK_DEVICE_ERROR_POOL_EXHAUSTED ;;; st_ret Fallback.

#[export] Instance FileBlockDevice_pool_class : PoolClass SolidSyslogFileBlockDevice E (bytes * Z) := {
  pc_Size := SOLIDSYSLOG_FILE_BLOCK_DEVICE_POOL_SIZE;
  pc_Source := SolidSyslogFileBlockDeviceErrorSource;
  pc_Check := fun _ => None;
  pc_Initialise := fun config _ => (fun a => device_initialise (fst a) (resolvedBlockSize (snd a))) config;
  pc_Cleanup := device_cleanup;
  pc_Exhausted := SOLIDSYSLOG_FILE_BLOCK_DEVICE_ERROR_POOL_EXHAUSTED;
  pc_UnknownDestroy := SOLIDSYSLOG_FILE_BLOCK_DEVICE_ERROR_UNKNOWN_DESTROY
}.
Lemma FileBlockDevice_leases : keeps_leases (fun a => SolidSyslogFileBlockDevice_Create (fst a) (snd a)) SolidSyslogFileBlockDevice_Destroy.
Proof.
  apply keeps_leases_ext; [| done]. intros config w. unfold pool_create.
  done.
Qed.
End fileblockdevice_pool.

(** * Shared scratches *)

Section sharedscratch_pool.
Context {E : Type} `{ErrorTap E}.

Definition SharedScratch_IndexFromHandle (base : pool_handle) : Z := index_from_handle SOLIDSYSLOG_POOL_SIZE base.
Definition SharedScratch_CleanupAtIndex (index : Z) : pool_op SolidSyslogSharedScratch E unit := cleanup_at (pure_step SolidSyslogSharedScratch_Cleanup) index.
Definition SolidSyslogSharedScratch_Destroy (base : pool_handle) : pool_op SolidSyslogSharedScratch E unit :=
  let index := SharedScratch_IndexFromHandle base in
  let! allocator := st_get pw_Allocator in
  let! released :=
    if SolidSyslogPoolAllocator_IndexIsValid allocator index
    then SolidSyslogPoolAllocator_FreeIfInUse index (Some SharedScratch_CleanupAtIndex)
    else st_ret false in
  if! negb released then unknown_destroy SolidSyslogSharedScratchErrorSource SOLIDSYSLOG_SHARED_SCRATCH_ERROR_UNKNOWN_DESTROY end!.

(** The fallback is the stack scratch. *)
Definition SolidSyslogSharedScratch_Create (mutex : option Z) : pool_op SolidSyslogSharedScratch E pool_handle :=
  match mutex with
  | None => bad_config SolidSyslogSharedScratchErrorSource SOLIDSYSLOG_SHARED_SCRATCH_ERROR_NULL_MUTEX ;;; st_ret Fallback
  | Some _ =>
    let! index := SolidSyslogPoolAllocator_AcquireFirstFree in
    let! allocator := st_get pw_Allocator in
    if SolidSyslogPoolAllocator_IndexIsValid allocator index
    then initialise_at index (pure_step SolidSyslogSharedScratch_Initialise) ;;; st_ret (Slot index)
    else pool_exhausted SolidSyslogSharedScratchErrorSource SOLIDSYSLOG_SHARED_SCRATCH_ERROR_POOL_EXHAUSTED ;;; st_ret Fallback
  end.

#[export] Instance SharedScratch_pool_class : PoolClass SolidSyslogSharedScratch E (option Z) := {
  pc_Size := SOLIDSYSLOG_POOL_SIZE;
  pc_Source := SolidSyslogSharedScratchErrorSource;
  pc_Check := fun mutex => match mutex with None => Some SOLIDSYSLOG_SHARED_SCRATCH_ERROR_NULL_MUTEX | Some _ => None end;
  pc_Initialise := fun config _ => (fun _ => pure_step SolidSyslogSharedScratch_Initialise) config;
  pc_Cleanup := (pure_step SolidSyslogSharedScratch_Cleanup);
  pc_Exhausted := SOLIDSYSLOG_SHARED_SCRATCH_ERROR_POOL_EXHAUSTED;
  pc_UnknownDestroy := SOLIDSYSLOG_SHARED_SCRATCH_ERROR_UNKNOWN_DESTROY
}.
Lemma SharedScratch_leases : keeps_leases SolidSyslogSharedScratch_Create SolidSyslogSharedScratch_Destroy.
Proof.
  apply keeps_leases_ext; [| done]. intros config w. unfold pool_create.
  destruct config; done.
Qed.
End sharedscratch_pool.

(** * Loggers *)

Section logger_pool.
(** [frame] is what a stack frame holds, [records] the record slots beside the pool. *)
Context {E : Type} `{ErrorTap E} (frame : bytes) (records : Z -> bytes).

(** The environment, and the static fallback instance. *)
Record logger_env := mkLoggerEnv { le_Env : E; SolidSyslog_NullInstance : @SolidSyslog E; le_populated : bool }.
#[export] Instance settable_LoggerEnv : Settable logger_env := fun e => mkLoggerEnv (le_Env e) (SolidSyslog_NullInstance e) (le_populated e).
#[export] Instance logger_env_tap : ErrorTap logger_env := {
  tap_Handler := fun event e => e <| le_Env := tap_Handler event (le_Env e) |>;
  tap_Slots := fun e => tap_Slots (le_Env e);
  tap_SetSlots := fun slots e => e <| le_Env := tap_SetSlots slots (le_Env e) |>
}.
Definition logger_step (m : ST (@lg_world E) unit) : @SolidSyslog E -> ST logger_env (@SolidSyslog E) :=
  fun self e => let '(_, w) := m (mkLgWorld self (le_Env e) []) in (lw_Self w, e <| le_Env := lw_Env w |>).
Definition logger_initialise (config : @SolidSyslogConfig E) (index : Z) : @SolidSyslog E -> ST logger_env (@SolidSyslog E) :=
  logger_step (SolidSyslog_Initialise frame config (records index) SOLIDSYSLOG_MAX_MESSAGE_SIZE).
Definition logger_cleanup : @SolidSyslog E -> ST logger_env (@SolidSyslog E) := logger_step (SolidSyslog_Cleanup frame).

Definition SolidSyslog_EnsureNullInstancePopulated : pool_op (@SolidSyslog E) logger_env unit :=
  pool_env (fun e =>
    if negb (le_populated e)
    then let '(self, e) := logger_cleanup (SolidSyslog_NullInstance e) e in
         (tt, e <| SolidSyslog_NullInstance := self |> <| le_populated := true |>)
    else (tt, e)).
Definition SolidSyslog_Create (config : option (@SolidSyslogConfig E)) : pool_op (@SolidSyslog E) logger_env pool_handle :=
  SolidSyslog_EnsureNullInstancePopulated ;;;
  match config with
  | None => bad_config SolidSyslogLoggerErrorSource SOLIDSYSLOG_ERROR_CREATE_NULL_CONFIG ;;; st_ret Fallback
  | Some config =>
      let! index := SolidSyslogPoolAllocator_AcquireFirstFree in
      let! allocator := st_get pw_Allocator in
      if SolidSyslogPoolAllocator_IndexIsValid allocator index
      then initialise_at index (logger_initialise config index) ;;; st_ret (Slot index)
      else pool_exhausted SolidSyslogLoggerErrorSource SOLIDSYSLOG_ERROR_POOL_EXHAUSTED ;;; st_ret Fallback
  end.
Definition SolidSyslog_IndexFromHandle (handle : pool_handle) : Z := index_from_handle SOLIDSYSLOG_POOL_SIZE handle.
Definition SolidSyslog_CleanupAtIndex (index : Z) : pool_op (@SolidSyslog E) logger_env unit := cleanup_at logger_cleanup index.
Definition SolidSyslog_Destroy (handle : pool_handle) : pool_op (@SolidSyslog E) logger_env unit :=
  let index := SolidSyslog_IndexFromHandle handle in
  let! allocator := st_get pw_Allocator in
  let! released :=
    if SolidSyslogPoolAllocator_IndexIsValid allocator index
    then SolidSyslogPoolAllocator_FreeIfInUse index (Some SolidSyslog_CleanupAtIndex)
    else st_ret false in
  if released : bool
  then pool_env (fun e => (tt, tap_SetSlots (SolidSyslogPendingEvents_Clear (tap_Slots e)) e))
  else unknown_destroy SolidSyslogLoggerErrorSource SOLIDSYSLOG_ERROR_UNKNOWN_DESTROY.

#[export] Instance SolidSyslog_pool_class : PoolClass (@SolidSyslog E) logger_env (option (@SolidSyslogConfig E)) := {
  pc_Size := SOLIDSYSLOG_POOL_SIZE;
  pc_Source := SolidSyslogLoggerErrorSource;
  pc_Check := fun config => match config with None => Some SOLIDSYSLOG_ERROR_CREATE_NULL_CONFIG | Some _ => None end;
  pc_Initialise := fun config index => match config with Some config => logger_initialise config index | None => pure_step (fun self => self) end;
  pc_Cleanup := logger_cleanup;
  pc_Exhausted := SOLIDSYSLOG_ERROR_POOL_EXHAUSTED;
  pc_UnknownDestroy := SOLIDSYSLOG_ERROR_UNKNOWN_DESTROY
}.
(** Around the common pattern: the fallback filled in first, and the pending events
    of a destroyed logger cleared last. *)
Lemma SolidSyslog_Create_pattern config :
  SolidSyslog_Create config = (SolidSyslog_EnsureNullInstancePopulated ;;; pool_create config).
Proof. by destruct config. Qed.
Lemma SolidSyslog_Destroy_pattern handle :
  SolidSyslog_Destroy handle =
  let! released := release_slot (index_from_handle pc_Size handle) (cleanup_at pc_Cleanup) in
  if released : bool
  then pool_env (fun e => (tt, tap_SetSlots (SolidSyslogPendingEvents_Clear (tap_Slots e)) e))
  else pool_fault SOLIDSYSLOG_UNKNOWN_DESTROY_SEVERITY SOLIDSYSLOG_CAT_UNKNOWN_DESTROY pc_UnknownDestroy.
Proof. done. Qed.
Lemma SolidSyslog_leases : keeps_leases SolidSyslog_Create SolidSyslog_Destroy.
Proof.
  constructor; intros live w x Hok.
  - rewrite SolidSyslog_Create_pattern. apply wp_bind, pool_env_wp. intros w1 Hq.
    eapply wp_mono; [by eapply create_leases, quiet_ok |]. cbv beta. intros h w' Hl. by eapply leases_after.
  - rewrite SolidSyslog_Destroy_pattern. pose proof (destroy_leases live w x Hok) as Hd. unfold pool_destroy in Hd.
    apply wp_bind. unfold wp at 1. unfold wp at 1, st_bind in Hd. destruct (release_slot _ _ w) as [[] w1]; cbn [fst snd negb] in *.
    + apply pool_env_wp. intros w2 Hq. by eapply leases_before.
    + exact Hd.
Qed.
End logger_pool.

(** * Properties *)

